(* ===== verification/_CoqProject ===== *)
-Q . S2P
Prelude.v
StringData.v
Bson.v
BsonValidate.v
BsonDecode.v
BsonCompare.v
KeyString.v
KeyStringOrder.v
KeyStringRefine.v
KeyStringDecode.v
DottedPath.v
CollationKey.v
BtreeKeys.v
IndexBounds.v
BoundsChecker.v
WtIndex.v
WtUnique.v
WtBulk.v
IndexAccess.v
IndexScan.v
LockRequestList.v
LockManager.v
LockSafety.v
LockSystem.v
Coalescer.v
XxHash.v
Integrity.v
Namespace.v
Inserts.v
Extractor.v
JavaDriver.v
Varint.v
Ftdc.v
FtdcFile.v
FtdcManager.v
FtdcController.v
