(* ===== verification/Prelude.v ===== *)
(** * FastMongoDB

    A verification of parts of the document database FastMongoDB (a fork of MongoDB 3.4): the
    encoding of documents and everything that reads or writes it byte by byte, the generation of
    index keys and the strings they are stored as, the index and the scans over it with their
    bounds, the lock manager, the inserts with their integrity check, the coalescing of queries on the config server, and the capture of diagnostic
    data. Paths below are relative to [src/src/mongo] unless they start with [src/].

    ** The parts and how they interact

    A client builds documents with [BSONObjBuilder] and sends them. The server validates the bytes
    it receives ([validateBSON]), reads fields with [BSONElement] and [BSONObjIterator], and looks
    up dotted paths in them. An insert verifies and strips the hash that a client may have sealed
    a document with, brings the [_id] to the front, and hands the documents in batches to the
    collection; each index generates its keys from the document, several of them sharing one cache
    of field offsets. The access method of an index puts the keys of a document into the index,
    removes them, or replaces those that an update changes; a new index is built in bulk from
    sorted keys. A key is stored as a string of bytes ([KeyString]) whose order is the order
    of the keys, next to the bits that restore the types it does not distinguish. A query is
    turned into bounds, a list of intervals for each field of an index; the index scan walks over
    the table of the index with a cursor, up to an end position where the bounds are a single
    range of keys, and otherwise by seeking from interval to interval as [IndexBoundsChecker]
    tells it, and is saved and restored whenever the query yields. The operations are isolated by the lock manager, which every thread calls. Config servers answer the routers'
    queries on [config.chunks] through a coalescer. A background thread samples the server's
    metrics, compresses them and keeps them in a directory of bounded size that survives crashes.

    ** Files

    - [Prelude]: machine integers ([wrapu], [wraps]), little-endian bytes, the [outcome] of code
      that can fail, the tactic and the hints for lengths.
    - [StringData]: module [SD] is [base/string_data.h], module [Itoa] is [util/itoa.cpp] and
      [util/itoa.h]. Comparison of short strings as words, decimal numerals, the in-place counter.
    - [Bson]: [bson/bsontypes.h], [bson/bsonobjbuilder.h], [bson/bsonelement.h] and [.cpp] and the
      iterator of [bson/bsonobj.h]. The values and their wire format are the specification level
      ([value], [enc_obj]); the builder and the readers work on memory and refine it.
    - [BsonValidate]: [bson/bson_validate.cpp], the iterative validator.
    - [BsonDecode]: the typed accessors of [bson/bsonelement.h], and reading whole documents.
    - [BsonCompare]: the comparison of elements and objects ([bson/bsonelement.cpp],
      [bson/bsonobj.cpp], [base/compare_numbers.h]) and [bson/ordering.h]. Module [Dbl] has
      doubles as 64-bit patterns, with their values as integers in units of [2 ^ -1074].
    - [KeyString], [KeyStringOrder], [KeyStringRefine], [KeyStringDecode]:
      [db/storage/key_string.h] and [.cpp]. The first has the type bits (module [TB]) and every
      append (module [KS]); the second specifies the bytes of a value and proves their order; the
      third shows that the appends write these bytes; the fourth has the decoder.
    - [IndexBounds]: [db/query/interval.cpp], the lists of intervals of [db/query/index_bounds.cpp]
      and the operations of [db/query/index_bounds_builder.cpp] on them (module [IB]). Modules
      [Rank] and [Sets] give the values that they contain.
    - [BoundsChecker]: [IndexBoundsChecker] of [db/query/index_bounds.cpp] and
      [db/storage/index_entry_comparison.cpp] (module [Chk]); module [Guide] says which keys a seek
      passes over.
    - [WtIndex]: the standard index of [db/storage/wiredtiger/wiredtiger_index.cpp] and the cursors
      of both kinds of index (module [Idx]) over a table of WiredTiger, whose interface and laws
      are the classes [WtTable] and [WtLaws] of module [Tab]; module [Mem] is a table in memory.
    - [WtUnique]: the unique index of the same file (module [Uniq]); module [Groups] has the lists of
      records that share a key.
    - [WtBulk]: its bulk builders and the loop of [commitBulk] (module [Bulk]), with their
      specification in module [Load].
    - [IndexAccess]: [db/index/index_access_method.cpp] (module [Am]) over the interface of an index,
      the classes [SortedDataInterface] and [SortedDataLaws] of module [Sdi]; module [Wired] shows
      that both kinds of WiredTiger index satisfy the laws.
    - [IndexScan]: the stage of [db/exec/index_scan.cpp] and [isSingleInterval] (module [Scan]);
      module [Exact] puts the bounds, the checker, the cursor and the key strings together.
    - [DottedPath]: [db/bson/dotted_path_support.cpp] and the parsing of [db/field_ref.cpp] on
      objects with addresses.
    - [CollationKey]: [db/query/collation/collation_index_key.cpp].
    - [BtreeKeys]: [db/index/btree_key_generator.cpp], versions 0 and 1.
    - [Extractor]: [db/index/unified_field_extractor.h].
    - [LockRequestList], [LockManager], [LockSafety], [LockSystem]:
      [db/concurrency/lock_request_list.h] and [lock_manager.cpp]. The first holds the intrusive
      list on a heap of requests, the second the critical sections, the third their invariant on
      one lock head, the fourth the invariant of the manager and the interleaving of threads.
    - [Coalescer]: [db/s/config/config_query_coalescer.cpp] and its use in
      [db/commands/find_cmd.cpp].
    - [XxHash], [Integrity]: XXH64 of [src/src/third_party/xxhash/xxhash.h] and
      [db/catalog/document_integrity.cpp] with its callers.
    - [Namespace], [Inserts]: [db/namespace_string.h] and [.cpp], [db/ops/insert.cpp] and
      [performInserts] of [db/ops/write_ops_exec.cpp].
    - [JavaDriver]: the client side of the integrity check, under [src/src/driver/java].
    - [Varint], [Ftdc], [FtdcFile], [FtdcManager], [FtdcController]: [db/ftdc], with the varints
      of [src/src/third_party/s2] and [base/data_builder.h]. Coding of integers, compression of
      samples, files, the directory, the thread.

    State is a record with the members of the class; an operation is a function from the state to
    the new state and its result. Errors, exceptions and statuses are [Throw]; a failed [invariant]
    or an access outside of memory is [Fault] (or [None] where there are no other errors), so that a
    theorem that an operation returns also says that it is safe. What threads do between two lock
    acquisitions is one function, and an inductive step relation interleaves them.

    ** What the theorems show

    - Locks: in the interleavings without the cancellation race the holders of a resource are
      compatible ([LockSys.holders_compatible]), no [invariant] fails
      ([LockSys.no_invariant_failure]), no wake-up is lost ([LockSys.nobody_waits_for_nothing]),
      and counts, masks and queues agree ([LockSys.head_in_sync]); the intrusive lists refine plain
      ones. The race is a run in which [unlock] reads the status of a converting request before it
      takes the mutex of the bucket, and the conversion is granted in between; the step system has
      these runs and remembers them ([raced]), and [LockSys.cancel_conversion_race] is one that ends
      with two exclusive holders.
    - Documents: what the builder writes is read back ([Decode.builder_round_trip]); the validator
      terminates inside its buffer and accepts exactly the encodings of well-formed documents
      ([Validate.validateBSON_exact], [Validate.validateBSON_total]); field lookup finds the first
      field; the two size computations agree except on [MinKey], whose size is read outside of a
      table, so that reading back is for documents without it unless the byte there is 0.
    - Index keys: the fast paths and the shared cache do not change the keys, the iterative
      collation keys equal the recursive ones, the one-pass extractor finds what a walk along each
      path finds. Duplicate top-level names, paths that end in a dot and colliding signatures are
      excluded, with counterexamples.
    - Stored keys: for both versions of the format, the strings of index entries compare as the
      keys do, whatever types their numbers have ([Keys.entries_ordered]), a query lands on the
      right side of every entry ([Keys.queries_bound_entries]), and an entry is decoded to the key
      and the record id that it was made of ([KeyRead.entry_round_trip]). The comparison of keys
      is an order ([Keys.key_comparison_is_order]), with a key pattern or with the [Ordering] made
      of it ([Pattern.pattern_comparison_agrees]). All this, and what is shown of bounds, indexes
      and scans, is for values of every type but [NumberDecimal], and excludes a DBRef with a NUL in
      its namespace ([key_ok]), for which it is false.
    - Bounds: union, intersection and complement of lists of intervals contain exactly the values
      that they should ([Sets.unionize_exact], [Sets.intersectize_exact], [Sets.complement_exact]),
      and turning bounds into the direction of a scan keeps their keys
      ([Sets.alignBounds_keeps_keys]). The checker accepts the keys in the bounds, and its seek
      points pass over none of them ([Guide.checkKey_exact]).
    - Indexes and scans: inserting and removing entries change the table by exactly these entries,
      in a standard index ([Walk.insert_exact], [Walk.unindex_exact]) and in a unique one, which
      refuses a second record for a key or lists the records of a key when duplicates are allowed
      ([Groups.unique_insert_exact], [Groups.unique_unindex_exact]; without duplicates allowed,
      [unindex] is for an entry whose key no other record has). Bulk building leaves exactly
      the accepted entries in the index ([Load.standard_build_exact], [Load.unique_build_exact]).
      Inserting a document is all or nothing ([AmProofs.insert_all_or_nothing]) when its record has
      no entries yet and no key that is skipped as too long is there for another record, and an
      update replaces the keys of its record and no other ones ([AmProofs.update_exact]), also for
      any other index with the laws of the interface; module [AmDemo] has runs of a refused update
      and of a cleanup that do not do what they should. A cursor that is restored over a changed table
      goes on behind the entry it was at ([Walk.next_after_restore]). The scan as a whole
      terminates, and returns the entries in the bounds in order and nothing else, with yields
      wherever they are ([Exact.index_scan_exact], [Exact.simple_range_exact]), on both kinds of
      index: this composes the
      theorems on bounds, checker, cursor and key strings.
    - Inserts and integrity: whatever the rest of the server does, every document of an insert is
      answered once and in order, and exactly the documents reported as inserted were handed over
      successfully ([Ins.results_in_order]); a document is stored with its [_id] first and its other
      fields as submitted ([Ins.stored_documents_well_formed]); sealed
      documents pass and are stripped to what was sealed, the outcome of a verification is decided
      completely, and a document that the Java driver sealed with its [_id] first is accepted
      ([Driver.driver_and_server]; two documented uses that are refused are examples there).
    - Coalescer: until the shutdown a follower gets its leader's answer and groups stay well-formed,
      counters add up, waits are bounded; a leader that throws blocks its namespace, and different
      filters share an answer.
    - Diagnostic data: what is written is read back with the same metrics
      ([FtdcFile.archive_round_trip]), also when the disk fails up to the chunk of the first
      reported failure ([FtdcFile.faults_cut_the_end]) and after a crash up to the last few samples
      ([Manager.restart_loses_last_samples]); the directory keeps its newest files
      ([Manager.trimDirectory_keeps_newest]); the whole thread from start to stop, whose sections
      interleave with those of [start] and [stop], archives every sample
      ([Controller.controller_archives_samples]). Damaged chunks, a large directory size, a failure
      when the interim stream is closed and a stale temporary file are the cases in which it does
      not do what it should.

    ** Bounds and fuel

    Integers have their widths where the code relies on them: positions and lengths of buffers,
    hashes, offsets, the counts, metrics and sizes of the diagnostic data. Counters of requests and
    generations are natural numbers, which is exact below [2 ^ 32] and [2 ^ 64]. Documents are
    shorter than [2 ^ 31] bytes, as their length field requires. Loops that are not structural run
    on fuel, and running out of it is a value of its own ([NoFuel] or [None]) that the theorems
    exclude: the validator gets a fuel computed from [maxLength], iteration the length of the
    buffer, the growth of buffers the bytes needed, the search of a file name the uniquifiers that
    exist, reading a file one more than the documents in it, decoding a key string the bytes
    that are left, the loops over the records of a unique key one more than the bytes of the row,
    the union and intersection of intervals their number, and an index scan one more than the
    entries of the index. The retries of an insert after write conflicts, and its waiting for the
    collection, end when the rest of the server lets them: there the theorem holds for every fuel,
    and one round is enough without conflicts and drops. Keys have at most 32 fields and 1016 type bits, the capacity of an [Ordering] and
    of the array of type bits.

    ** Parameters

    Code outside of the sources is an argument: zlib with [zlib_ok] (what is deflated is inflated,
    and 1% and 12 bytes of extra space suffice), the operations of [Decimal128] and the bytes of a
    decimal in a key string, the conversion of doubles out of range, the collator, the rest of the server
    behind the inserts ([Environment], of which nothing is assumed), the order of index keys, clocks,
    generated ids, the query function of the coalescer, and the byte that lies before a table that
    is read out of bounds. WiredTiger is an instance of [WtTable] that satisfies [WtLaws]: rows are
    sorted by their bytes, insert and remove change one row, and [search_near] finds the row of a
    key or one next to its place; a cursor for bulk building appends a row behind all others
    ([BulkCursor] with [BulkLaws]), and the sorter gives it the entries in order. What
    [doGetKeys] returns to an access method and its catalog entry are arguments; [std::sort] in [unionize] permutes and sorts. The filter of an
    index scan is a function of the key. Each theorem with such a parameter is applied to a concrete one in its
    witness. Of the file system it is assumed that renaming is atomic, that a write that fails
    leaves a part of its bytes and that reading succeeds.

    ** Not modelled

    The storage engines apart from the indexes of WiredTiger, query planning apart from the
    operations on bounds, query execution apart from the index scan, the aggregation pipeline, replication,
    sharding beyond the coalescer, networking, authentication, JavaScript, start-up and logging
    are not modelled: they work over storage, network and threads that are not in the sources in a
    form that could be translated, or are beyond the parts above. Of the parts above, these are
    left out: decimal numbers in key strings; the translation of match expressions into intervals,
    which needs the matcher; validation and statistics of indexes and the rollbacks of WiredTiger, so that
    the only [WriteConflictException] is the one of a cursor that moved backwards; the external
    sorter behind bulk building and the flags of its multikey paths; the working set
    of the index scan, whose members are here the key and the record id; the [DeadlockDetector] and the dump of the lock
    table; the front end of the lock manager ([lock_state.cpp]), whose calls any interleaving
    allows; [equalCaseInsensitive]; printing of elements; the editing operations of [FieldRef];
    updates and deletes past their integrity check; XXH32 and XXH3; the collectors of diagnostic
    data themselves, which run server commands and read the operating system's counters. *)
From Stdlib Require Import Ascii.
From Stdlib Require Export ZArith Lia.
From stdpp Require Export base list numbers strings option sets gmap.
#[global] Open Scope Z_scope.

(** ** Machine integers *)

(** [wrapu w z] is the value of an unsigned [w]-bit integer after the conversion
    of [z]; [wraps w z] the value of a two's complement one. *)
Definition wrapu (w z : Z) : Z := z mod 2 ^ w.
Definition wraps (w z : Z) : Z := (z + 2 ^ (w - 1)) mod 2 ^ w - 2 ^ (w - 1).

Lemma wrapu_small (w z : Z) : 0 <= z < 2 ^ w -> wrapu w z = z.
Proof. intros H. unfold wrapu. by apply Z.mod_small. Qed.

Lemma wrapu_range (w z : Z) : 0 <= w -> 0 <= wrapu w z < 2 ^ w.
Proof. intros H. apply Z.mod_pos_bound. lia. Qed.

Lemma wraps_small (w z : Z) :
  0 < w -> - 2 ^ (w - 1) <= z < 2 ^ (w - 1) -> wraps w z = z.
Proof.
  intros Hw H. unfold wraps.
  assert (2 ^ w = 2 * 2 ^ (w - 1)) as E.
  { rewrite <- Z.pow_succ_r by lia. f_equal. lia. }
  rewrite Z.mod_small; lia.
Qed.

Lemma wraps_range (w z : Z) :
  0 < w -> - 2 ^ (w - 1) <= wraps w z < 2 ^ (w - 1).
Proof.
  intros Hw. unfold wraps.
  assert (2 ^ w = 2 * 2 ^ (w - 1)) as E.
  { rewrite <- Z.pow_succ_r by lia. f_equal. lia. }
  pose proof (Z.mod_pos_bound (z + 2 ^ (w - 1)) (2 ^ w)) as P.
  assert (0 < 2 ^ (w - 1)) by lia. lia.
Qed.

Lemma wraps_mod (w z : Z) : wraps w z mod 2 ^ w = z mod 2 ^ w.
Proof.
  unfold wraps. rewrite Zminus_mod_idemp_l. f_equal. lia.
Qed.

Lemma wraps_wrapu (n : Z) : - 2 ^ 63 <= n < 2 ^ 63 -> wraps 64 (wrapu 64 n) = n.
Proof. intros Hn. transitivity (wraps 64 n); [|by apply wraps_small]. unfold wraps, wrapu. by rewrite Zplus_mod_idemp_l. Qed.

(** ** Bytes *)

(** Disjoint bits are added. *)
Lemma lor_add (a b k : Z) : 0 <= k -> 0 <= a < 2 ^ k -> Z.lor a (Z.shiftl b k) = a + b * 2 ^ k.
Proof.
  intros Hk Ha. rewrite <- Z.shiftl_mul_pow2 by lia. symmetry. apply Z.add_nocarry_lor. apply Z.bits_inj'. intros i Hi.
  rewrite Z.land_spec, Z.bits_0. destruct (Z.ltb_spec i k) as [Hlt|Hge].
  - by rewrite Z.shiftl_spec_low, andb_false_r.
  - rewrite <- (Z.mod_small a (2 ^ k)) by lia. by rewrite Z.mod_pow2_bits_high by lia.
Qed.

Abbreviation bytes := (list Z).

Definition byte_ok (b : Z) : Prop := 0 <= b < 256.
Definition bytes_ok (l : bytes) : Prop := Forall byte_ok l.

(** The bytes of a source string literal. *)
Fixpoint lit (s : string) : bytes :=
  match s with
  | EmptyString => []
  | String c s' => Z.of_N (N_of_ascii c) :: lit s'
  end.

(** Little-endian integers: [le_decode] reads all the bytes of the list,
    [le_encode n] writes the [n] low bytes. *)
Fixpoint le_decode (l : bytes) : Z :=
  match l with
  | [] => 0
  | b :: l' => b + 256 * le_decode l'
  end.

Fixpoint le_encode (n : nat) (z : Z) : bytes :=
  match n with
  | O => []
  | S n' => z mod 256 :: le_encode n' (z / 256)
  end.

Lemma length_le_encode (n : nat) (z : Z) : length (le_encode n z) = n.
Proof. revert z. induction n as [|n IH]; intros z; simpl; [done|]. by rewrite IH. Qed.

Lemma le_encode_ok (n : nat) (z : Z) : bytes_ok (le_encode n z).
Proof.
  revert z. induction n as [|n IH]; intros z; simpl; constructor; [|apply IH].
  unfold byte_ok. pose proof (Z.mod_pos_bound z 256). lia.
Qed.

Lemma le_decode_range (l : bytes) :
  bytes_ok l -> 0 <= le_decode l < 256 ^ Z.of_nat (length l).
Proof.
  induction 1 as [|b l Hb Hl IH]; simpl le_decode; [simpl; lia|].
  cbn [length]. rewrite Nat2Z.inj_succ, Z.pow_succ_r by lia.
  unfold byte_ok in Hb. lia.
Qed.

Lemma le_decode_encode (n : nat) (z : Z) :
  le_decode (le_encode n z) = z mod 256 ^ Z.of_nat n.
Proof.
  revert z. induction n as [|n IH]; intros z; simpl le_encode.
  - cbn. by rewrite Z.mod_1_r.
  - cbn [le_decode]. rewrite IH, Nat2Z.inj_succ, Z.pow_succ_r by lia.
    rewrite Z.rem_mul_r by lia. lia.
Qed.

Lemma le_encode_decode (l : bytes) :
  bytes_ok l -> le_encode (length l) (le_decode l) = l.
Proof.
  induction 1 as [|b l Hb Hl IH]; [done|].
  cbn [length le_encode le_decode]. unfold byte_ok in Hb.
  replace (b + 256 * le_decode l) with (b + le_decode l * 256) by lia.
  rewrite Z.mod_add, Z.div_add, Z.mod_small, Z.div_small by lia.
  by rewrite Z.add_0_l, IH.
Qed.

Lemma le_decode_inj (l1 l2 : bytes) :
  bytes_ok l1 -> bytes_ok l2 -> length l1 = length l2 ->
  le_decode l1 = le_decode l2 -> l1 = l2.
Proof.
  intros H1 H2 Hlen Heq.
  rewrite <- (le_encode_decode l1), <- (le_encode_decode l2) by done.
  by rewrite Hlen, Heq.
Qed.

(** Reading an integer as signed loses nothing. *)
Lemma le_encode_wraps (l : bytes) (n : nat) :
  bytes_ok l -> length l = n -> le_encode n (wraps (8 * Z.of_nat n) (le_decode l)) = l.
Proof.
  intros Hl <-. apply le_decode_inj; [apply le_encode_ok|done|apply length_le_encode|].
  rewrite le_decode_encode. change 256 with (2 ^ 8). rewrite <- Z.pow_mul_r by lia.
  rewrite wraps_mod. apply Z.mod_small. rewrite Z.pow_mul_r by lia. by apply le_decode_range.
Qed.

(** Lengths of byte strings put together from known parts. *)
Create HintDb lengths.
#[export] Hint Rewrite @length_app @length_take @length_drop @length_replicate @length_fmap @length_insert length_le_encode : lengths.
Ltac solve_length := autorewrite with lengths in *; cbn [length] in *; lia.

(** ** Lists *)

(** Updating two lists at the same index keeps them equal where they were. *)
Lemma insert_lookup_agree {A : Type} (l l' : list A) (k i : nat) (x : A) :
  length l' = length l -> (i <> k -> l' !! i = l !! i) -> <[k := x]> l' !! i = <[k := x]> l !! i.
Proof.
  intros Hl Hi. destruct (decide (k = i)) as [<-|Hne].
  - destruct (decide (k < length l)%nat).
    + by rewrite !list_lookup_insert_eq by lia.
    + by rewrite !lookup_ge_None_2 by (rewrite length_insert; lia).
  - rewrite !list_lookup_insert_ne by done. by apply Hi.
Qed.

(** Filtering depends on the predicate on the elements only. *)
Lemma filter_ext_in {A : Type} (P Q : A -> Prop) `{!forall x, Decision (P x), !forall x, Decision (Q x)} (l : list A) :
  (forall x, x ∈ l -> P x <-> Q x) -> filter P l = filter Q l.
Proof.
  induction l as [|x l IH]; intros Hpq; [done|]. pose proof (Hpq x ltac:(by left)) as Hx.
  assert (filter P l = filter Q l) as He by (apply IH; intros y Hy; apply Hpq; by right). destruct (decide (P x)) as [Hp|Hp].
  - rewrite !filter_cons_True, He by tauto. done.
  - rewrite !filter_cons_False, He by tauto. done.
Qed.

Lemma filter_all {A : Type} (P : A -> Prop) `{!forall x, Decision (P x)} (l : list A) : Forall P l -> filter P l = l.
Proof. induction 1 as [|x l Hx _ IH]; [done|]. by rewrite filter_cons_True, IH. Qed.
Lemma filter_nothing {A : Type} (P : A -> Prop) `{!forall x, Decision (P x)} (l : list A) : Forall (fun x => ~ P x) l -> filter P l = [].
Proof. induction 1 as [|x l Hx _ IH]; [done|]. by rewrite filter_cons_False. Qed.
Lemma filter_agree {A : Type} (P Q : A -> Prop) `{!forall x, Decision (P x)} `{!forall x, Decision (Q x)} (l : list A) :
  Forall (fun x => P x <-> Q x) l -> filter P l = filter Q l.
Proof. intros Hl. apply filter_ext_in. by apply Forall_forall. Qed.
Lemma filter_twice {A : Type} (f g : A -> bool) (l : list A) :
  filter (fun x => g x = false) (filter (fun x => f x = false) l) = filter (fun x => f x || g x = false) l.
Proof. rewrite list_filter_filter. apply list_filter_iff. intros x. destruct (f x), (g x); cbn; tauto. Qed.
Lemma existsb_ext_in {A : Type} (f g : A -> bool) (l : list A) : Forall (fun x => f x = g x) l -> existsb f l = existsb g l.
Proof. induction 1 as [|x l E _ IH]; [done|]. cbn. by rewrite E, IH. Qed.
Lemma existsb_none {A : Type} (l : list A) : existsb (fun _ => false) l = false.
Proof. by induction l. Qed.
Lemma existsb_Forall {A : Type} (f : A -> bool) (l : list A) : existsb f l = false <-> Forall (fun x => f x = false) l.
Proof.
  split.
  - intros E. apply Forall_forall. intros x Hx. apply not_true_iff_false. intros Hf. apply not_true_iff_false in E.
    apply E, existsb_exists. exists x. split; [by apply list_elem_of_In|done].
  - intros Hl. rewrite (existsb_ext_in f (fun _ => false)) by done. apply existsb_none.
Qed.

(** ** Outcomes of code that can fail *)

(** A result, a status or exception, a failed assertion or a read outside the memory of
    the model, or a loop that used up its fuel. *)
Inductive outcome (E A : Type) :=
  | Ret (a : A)
  | Throw (e : E)
  | Fault
  | NoFuel.
Arguments Ret {E A} a.
Arguments Throw {E A} e.
Arguments Fault {E A}.
Arguments NoFuel {E A}.

#[export] Instance outcome_bind {E : Type} : MBind (outcome E) := fun A B k m =>
  match m with Ret a => k a | Throw e => Throw e | Fault => Fault | NoFuel => NoFuel end.

Lemma bind_Ret {E A B : Type} (a : A) (k : A -> outcome E B) : Ret a ≫= k = k a.
Proof. done. Qed.

(** [need e o] and [require e c] leave early with [e] where the code returns or throws. *)
Definition need {E A : Type} (e : E) (o : option A) : outcome E A :=
  match o with Some a => Ret a | None => Throw e end.
Definition require {E : Type} (e : E) (ok : bool) : outcome E unit :=
  if ok then Ret tt else Throw e.
Lemma require_true {E B : Type} (e : E) (k : unit -> outcome E B) : require e true ≫= k = k tt.
Proof. done. Qed.
(** [verify] and [invariant]. *)
Definition verify {E : Type} (ok : bool) : outcome E unit := if ok then Ret tt else Fault.

#[global] Arguments wrapu : simpl never.
#[global] Arguments wraps : simpl never.
#[global] Arguments le_encode : simpl never.
#[global] Arguments le_decode : simpl never.
