(* ===== verification/StringData.v ===== *)
(** * StringData, ItoA and DecimalCounter

    The string primitives every BSON field lookup goes through:
    - module [SD]: [StringData] of src/src/mongo/base/string_data.h, with the
      comparison of strings of at most eight bytes as 64-bit integers;
    - module [Itoa]: [ItoA] of src/src/mongo/util/itoa.cpp (the table of the
      first thousand numbers and the digit loop) and the in-place decimal
      counter [DecimalCounter] of src/src/mongo/util/itoa.h, both used for the
      field names of BSON arrays. *)
From S2P Require Import Prelude.

Module SD.

(** The pointer and the length: [None] is the null pointer, whose length the
    constructors require to be zero. *)
Record StringData := mkStringData { sd_data : option bytes }.

Definition rawData (s : StringData) : bytes := default [] (sd_data s).
Definition size (s : StringData) : Z := Z.of_nat (length (rawData s)).
Definition sd_ok (s : StringData) : Prop := bytes_ok (rawData s).
Definition npos : Z := 2 ^ 64 - 1.

(** The C library's [memcmp] on [n] bytes. *)
Fixpoint memcmp (a b : bytes) (n : nat) {struct n} : Z :=
  match n, a, b with
  | S n', x :: a', y :: b' => if x =? y then memcmp a' b' n' else x - y
  | _, _, _ => 0
  end.

(** [StringData::compare]. *)
Definition compare (l r : StringData) : Z :=
  let res :=
    match sd_data l, sd_data r with
    | Some a, Some b => memcmp a b (Nat.min (length a) (length b))
    | _, _ => 0
    end in
  if negb (res =? 0) then (if res >? 0 then 1 else -1)
  else if size l =? size r then 0
  else if size l >? size r then 1 else -1.

Inductive endian := LittleEndian | BigEndian.

(** A zeroed [uint64_t] after [memcpy(&a, p, sz)], [sz <= 8]. *)
Definition load64 (e : endian) (p : bytes) : Z :=
  let cell := p ++ replicate (8 - length p) 0 in
  match e with
  | LittleEndian => le_decode cell
  | BigEndian => le_decode (reverse cell)
  end.

(** [operator==(StringData, StringData)]. *)
Definition operator_eq (e : endian) (l r : StringData) : bool :=
  let sz := size l in
  if negb (sz =? size r) then false
  else if sz <=? 8 then load64 e (rawData l) =? load64 e (rawData r)
  else compare l r =? 0.

Definition operator_ne (e : endian) (l r : StringData) : bool := negb (operator_eq e l r).
Definition operator_lt (l r : StringData) : bool := compare l r <? 0.
Definition operator_le (l r : StringData) : bool := compare l r <=? 0.
Definition operator_gt (l r : StringData) : bool := compare l r >? 0.
Definition operator_ge (l r : StringData) : bool := compare l r >=? 0.

(** [memchr]: the offset of the first occurrence. *)
Fixpoint memchr (p : bytes) (c : Z) : option nat :=
  match p with
  | [] => None
  | x :: p' => if x =? c then Some 0%nat else S <$> memchr p' c
  end.

(** [StringData::find(char, size_t)]. *)
Definition find_char (s : StringData) (c fromPos : Z) : Z :=
  if fromPos >=? size s then npos
  else match memchr (drop (Z.to_nat fromPos) (rawData s)) c with
       | None => npos
       | Some k => fromPos + Z.of_nat k
       end.

(** [StringData::find(StringData)]: the loop over [i <= mx], with [k] iterations
    left. *)
Fixpoint find_needle_loop (s needle : StringData) (i k : nat) : Z :=
  match k with
  | O => npos
  | S k' =>
      if memcmp (drop i (rawData s)) (rawData needle) (length (rawData needle)) =? 0
      then Z.of_nat i
      else find_needle_loop s needle (S i) k'
  end.

Definition find_needle (s needle : StringData) : Z :=
  let mx := size s in
  let needleSize := size needle in
  if needleSize =? 0 then 0
  else if needleSize >? mx then npos
  else find_needle_loop s needle 0 (S (Z.to_nat (mx - needleSize))).

(** [StringData::rfind(char, size_t)]: [cur] runs down to the first byte. *)
Fixpoint rfind_loop (p : bytes) (c : Z) (cur : nat) : Z :=
  match cur with
  | O => npos
  | S cur' =>
      if bool_decide (p !! cur' = Some c) then Z.of_nat cur' else rfind_loop p c cur'
  end.

Definition rfind (s : StringData) (c fromPos : Z) : Z :=
  let sz := size s in
  let fromPos := if fromPos >? sz then sz else fromPos in
  rfind_loop (rawData s) c (Z.to_nat fromPos).

(** [StringData::substr]; [None] is the [std::out_of_range] exception. *)
Definition substr (s : StringData) (pos n : Z) : option StringData :=
  if pos >? size s then None
  else
    let n := if n >? size s - pos then size s - pos else n in
    Some (mkStringData (take (Z.to_nat n) <$> (drop (Z.to_nat pos) <$> sd_data s))).

Definition startsWith (e : endian) (s prefix : StringData) : option bool :=
  (fun sub => operator_eq e sub prefix) <$> substr s 0 (size prefix).

Definition endsWith (e : endian) (s suffix : StringData) : option bool :=
  let thisSize := size s in
  let suffixSize := size suffix in
  if suffixSize >? thisSize then Some false
  else (fun sub => operator_eq e sub suffix) <$> substr s (thisSize - suffixSize) npos.

(** *** Comparison *)

Lemma load64_inj (e : endian) (a b : bytes) :
  bytes_ok a -> bytes_ok b -> length a = length b -> (length a <= 8)%nat ->
  load64 e a = load64 e b -> a = b.
Proof.
  intros Ha Hb Hlen H8 Heq.
  assert (bytes_ok (a ++ replicate (8 - length a) 0)) as Ha'.
  { apply Forall_app; split; [done|]. apply Forall_replicate. unfold byte_ok. lia. }
  assert (bytes_ok (b ++ replicate (8 - length b) 0)) as Hb'.
  { apply Forall_app; split; [done|]. apply Forall_replicate. unfold byte_ok. lia. }
  assert (a ++ replicate (8 - length a) 0 = b ++ replicate (8 - length b) 0) as E.
  { unfold load64 in Heq. destruct e.
    - apply le_decode_inj; [done..| |done]. rewrite !length_app, !length_replicate. lia.
    - apply le_decode_inj in Heq; [by apply (inj reverse) | by apply Forall_reverse
        | by apply Forall_reverse |].
      rewrite !length_reverse, !length_app, !length_replicate. lia. }
  by apply app_inj_1 in E as [? _].
Qed.

(** Lexicographic order on bytes, the reference [compare] implements. *)
Fixpoint lexcmp (a b : bytes) : Z :=
  match a, b with
  | [], [] => 0
  | [], _ => -1
  | _, [] => 1
  | x :: a', y :: b' => if x <? y then -1 else if y <? x then 1 else lexcmp a' b'
  end.

Lemma lexcmp_memcmp (a b : bytes) :
  lexcmp a b =
    let res := memcmp a b (Nat.min (length a) (length b)) in
    if negb (res =? 0) then (if res >? 0 then 1 else -1)
    else if Z.of_nat (length a) =? Z.of_nat (length b) then 0
    else if Z.of_nat (length a) >? Z.of_nat (length b) then 1 else -1.
Proof.
  revert b. induction a as [|x a IH]; intros [|y b]; try done.
  cbn [lexcmp length Nat.min memcmp].
  destruct (Z.ltb_spec x y), (Z.ltb_spec y x), (Z.eqb_spec x y); cbn zeta; try lia.
  - destruct (Z.eqb_spec (x - y) 0); cbn [negb]; [lia|].
    destruct (Z.gtb_spec (x - y) 0); lia.
  - destruct (Z.eqb_spec (x - y) 0); cbn [negb]; [lia|].
    destruct (Z.gtb_spec (x - y) 0); lia.
  - rewrite IH. cbn zeta. destruct (negb _); [done|].
    destruct (Z.eqb_spec (Z.of_nat (length a)) (Z.of_nat (length b)));
      destruct (Z.eqb_spec (Z.of_nat (S (length a))) (Z.of_nat (S (length b)))); try lia.
    destruct (Z.gtb_spec (Z.of_nat (length a)) (Z.of_nat (length b)));
      destruct (Z.gtb_spec (Z.of_nat (S (length a))) (Z.of_nat (S (length b)))); lia.
Qed.

Lemma compare_lexcmp (l r : StringData) : compare l r = lexcmp (rawData l) (rawData r).
Proof.
  rewrite lexcmp_memcmp. unfold compare, size, rawData.
  destruct (sd_data l) as [a|], (sd_data r) as [b|]; simpl; try done.
  by destruct a.
Qed.

Lemma lexcmp_antisym (a b : bytes) : lexcmp a b = - lexcmp b a.
Proof.
  revert b. induction a as [|x a IH]; intros [|y b]; simpl; try done.
  rewrite IH. destruct (Z.ltb_spec x y), (Z.ltb_spec y x); lia.
Qed.

Lemma lexcmp_eq (a b : bytes) : lexcmp a b = 0 <-> a = b.
Proof.
  revert b. induction a as [|x a IH]; intros [|y b]; simpl; try done.
  destruct (Z.ltb_spec x y), (Z.ltb_spec y x); try (split; [done | intros [=]; lia]).
  rewrite IH. split; [intros ->; f_equal; lia | by intros [=]].
Qed.

Lemma lexcmp_trans (a b c : bytes) : lexcmp a b < 0 -> lexcmp b c <= 0 -> lexcmp a c < 0.
Proof.
  revert b c. induction a as [|x a IH]; intros [|y b] [|z c]; simpl; try lia.
  destruct (Z.ltb_spec x y), (Z.ltb_spec y x), (Z.ltb_spec y z), (Z.ltb_spec z y),
    (Z.ltb_spec x z), (Z.ltb_spec z x); try lia.
  apply IH.
Qed.

Lemma operator_eq_spec (e : endian) (l r : StringData) :
  sd_ok l -> sd_ok r -> operator_eq e l r = true <-> rawData l = rawData r.
Proof.
  unfold operator_eq, size. intros Hl Hr.
  destruct (Z.eqb_spec (Z.of_nat (length (rawData l))) (Z.of_nat (length (rawData r))))
    as [Hlen|Hne]; simpl; [|split; [done | intros E; rewrite E in Hne; lia]].
  destruct (Z.leb_spec (Z.of_nat (length (rawData l))) 8) as [H8|H8].
  - rewrite Z.eqb_eq. split; [apply load64_inj; (done || lia) | by intros ->].
  - by rewrite Z.eqb_eq, compare_lexcmp, lexcmp_eq.
Qed.

(** *** Searching *)

Lemma memchr_Some (p : bytes) (c : Z) (k : nat) :
  memchr p c = Some k <-> p !! k = Some c /\ c ∉ take k p.
Proof.
  revert k. induction p as [|x p IH]; intros k; simpl.
  { rewrite lookup_nil. naive_solver. }
  destruct (Z.eqb_spec x c) as [->|Hne].
  - split; [intros [= <-]; simpl; split; [done|apply not_elem_of_nil]|].
    intros [Hk Hn]. destruct k as [|k]; [done|]. simpl in Hn. set_solver.
  - rewrite fmap_Some. setoid_rewrite IH. split.
    + intros (k' & [? ?] & ->). simpl. split; [done|]. set_solver.
    + intros [Hk Hn]. destruct k as [|k]; [simpl in Hk; congruence|].
      exists k. simpl in Hk, Hn. split; [split; [done|set_solver]|done].
Qed.

Lemma memchr_None (p : bytes) (c : Z) : memchr p c = None <-> c ∉ p.
Proof.
  induction p as [|x p IH]; simpl; [split; [intros _; apply not_elem_of_nil|done]|].
  destruct (Z.eqb_spec x c) as [->|Hne].
  - split; [done|set_solver].
  - rewrite fmap_None, IH. set_solver.
Qed.

Lemma memcmp_prefix (a b : bytes) :
  memcmp a b (length b) = 0 -> (length b <= length a)%nat -> take (length b) a = b.
Proof.
  revert b. induction a as [|x a IH]; intros [|y b]; simpl; try done; try lia.
  destruct (Z.eqb_spec x y) as [->|]; [|lia].
  intros H Hlen. f_equal. apply IH; [done|lia].
Qed.

Lemma memcmp_app (b t : bytes) : memcmp (b ++ t) b (length b) = 0.
Proof. induction b as [|x b IH]; simpl; [done|]. by rewrite Z.eqb_refl. Qed.

Lemma find_needle_loop_spec (s needle : StringData) (i k : nat) :
  (i + k + length (rawData needle) <= S (length (rawData s)))%nat ->
  let occurs j := take (length (rawData needle)) (drop j (rawData s)) = rawData needle in
  (exists j, (i <= j < i + k)%nat /\ occurs j /\
     (forall j', (i <= j' < j)%nat -> ~ occurs j') /\
     find_needle_loop s needle i k = Z.of_nat j) \/
  ((forall j, (i <= j < i + k)%nat -> ~ occurs j) /\ find_needle_loop s needle i k = npos).
Proof.
  intros Hlen occurs. revert i Hlen.
  induction k as [|k IH]; intros i Hlen; [right; split; [intros; lia|done]|].
  simpl. destruct (Z.eqb_spec (memcmp (drop i (rawData s)) (rawData needle)
    (length (rawData needle))) 0) as [E|E].
  - left. exists i. split; [lia|]. split; [|split; [intros; lia|done]].
    apply memcmp_prefix; [done|]. rewrite length_drop. lia.
  - assert (~ occurs i) as Hi.
    { intros Ho. apply E. rewrite <- (take_drop (length (rawData needle)) (drop i _)).
      unfold occurs in Ho. rewrite Ho. apply memcmp_app. }
    destruct (IH (S i)) as [(j & ? & ? & Hfirst & ?)|[Hnone ?]]; [lia| |].
    + left. exists j. split; [lia|]. split; [done|]. split; [|done].
      intros j' Hj'. destruct (decide (j' = i)) as [->|]; [done|]. apply Hfirst. lia.
    + right. split; [|done]. intros j Hj.
      destruct (decide (j = i)) as [->|]; [done|]. apply Hnone. lia.
Qed.

Lemma substr_rawData (s : StringData) (pos n : Z) (t : StringData) :
  0 <= pos -> 0 <= n -> substr s pos n = Some t ->
  rawData t = take (Z.to_nat n) (drop (Z.to_nat pos) (rawData s)).
Proof.
  unfold substr, size, rawData. intros Hp Hn H.
  destruct (Z.gtb_spec pos (Z.of_nat (length (default [] (sd_data s))))); [done|].
  simplify_eq/=. destruct (sd_data s) as [d|]; simpl in *; [|by rewrite drop_nil, take_nil].
  destruct (Z.gtb_spec n (Z.of_nat (length d) - pos)); [|done].
  rewrite !take_ge; [done|rewrite length_drop; lia|rewrite length_drop; lia].
Qed.

(** *** Properties *)

(** The comparison of short strings as zero-padded 64-bit integers is exact on
    machines of either endianness: [operator==] holds exactly when the two strings
    have the same bytes, like the [memcmp] it replaces. *)
Lemma string_eq_exact (e : endian) (l r : StringData) :
  sd_ok l -> sd_ok r ->
  (operator_eq e l r = true <-> rawData l = rawData r) /\
  operator_eq e l r = ((size l =? size r) && (compare l r =? 0)).
Proof.
  intros Hl Hr. pose proof (operator_eq_spec e l r Hl Hr) as Hspec. split; [done|].
  apply eq_true_iff_eq. rewrite andb_true_iff, Hspec, !Z.eqb_eq, compare_lexcmp, lexcmp_eq.
  unfold size. split; [by intros ->|by intros [_ ?]].
Qed.

Lemma string_eq_exact_witness :
  (operator_eq BigEndian (mkStringData (Some (lit "_id"))) (mkStringData (Some (lit "_id"))) = true
   <-> lit "_id" = lit "_id") /\
  operator_eq BigEndian (mkStringData (Some (lit "_id"))) (mkStringData (Some (lit "_id"))) = true.
Proof.
  assert (sd_ok (mkStringData (Some (lit "_id")))) as H
    by (repeat constructor; vm_compute; congruence).
  split; [apply (string_eq_exact BigEndian _ _ H H) | reflexivity].
Defined.

(** [StringData::compare] is a total order on byte strings: it is the
    lexicographic order, antisymmetric, transitive, and zero exactly on equal
    strings. *)
Lemma compare_total_order (a b c : StringData) :
  compare a b = - compare b a /\
  (compare a b = 0 <-> rawData a = rawData b) /\
  (compare a b < 0 -> compare b c <= 0 -> compare a c < 0) /\
  (compare a b = -1 \/ compare a b = 0 \/ compare a b = 1).
Proof.
  rewrite !compare_lexcmp.
  split; [apply lexcmp_antisym|]. split; [apply lexcmp_eq|]. split; [apply lexcmp_trans|].
  generalize (rawData a), (rawData b). intros x y. revert y.
  induction x as [|u x IH]; intros [|v y]; simpl; try lia.
  destruct (Z.ltb_spec u v), (Z.ltb_spec v u); auto.
Qed.

(** [StringData::find(StringData)] returns the least offset at which the needle
    occurs, and [npos] exactly when it occurs nowhere. *)
Lemma find_needle_first (s needle : StringData) :
  0 < size needle ->
  let occurs j := take (length (rawData needle)) (drop j (rawData s)) = rawData needle in
  (exists j, occurs j /\ (forall j', (j' < j)%nat -> ~ occurs j') /\
     find_needle s needle = Z.of_nat j) \/
  ((forall j : nat, ~ occurs j) /\ find_needle s needle = npos).
Proof.
  intros Hpos occurs. unfold size in Hpos. unfold find_needle, size.
  assert (forall j, occurs j -> (j + length (rawData needle) <= length (rawData s))%nat) as Hin.
  { intros j Ho. apply (f_equal length) in Ho. rewrite length_take, length_drop in Ho. lia. }
  destruct (Z.eqb_spec (Z.of_nat (length (rawData needle))) 0); [lia|].
  destruct (Z.gtb_spec (Z.of_nat (length (rawData needle))) (Z.of_nat (length (rawData s)))).
  { right. split; [|done]. intros j Ho. apply Hin in Ho. lia. }
  destruct (find_needle_loop_spec s needle 0
    (S (Z.to_nat (Z.of_nat (length (rawData s)) - Z.of_nat (length (rawData needle))))))
    as [(j & _ & Hj & Hfirst & ->)|[Hnone ->]]; [lia|left|right].
  - exists j. split; [done|]. split; [|done]. intros j' Hj'. apply Hfirst. lia.
  - split; [|done]. intros j Ho. apply (Hnone j); [|done]. apply Hin in Ho. lia.
Qed.

Lemma find_needle_first_witness :
  0 < size (mkStringData (Some (lit "na"))) /\
  find_needle (mkStringData (Some (lit "banana"))) (mkStringData (Some (lit "na"))) = 2.
Proof.
  split; [reflexivity|].
  destruct (find_needle_first (mkStringData (Some (lit "banana"))) (mkStringData (Some (lit "na")))
    ltac:(reflexivity)) as [_|_]; reflexivity.
Defined.

End SD.

Module Itoa.

Definition digit (n : Z) : Z := 48 + n mod 10.

(** The string literal [kIndexTable]: the decimal numerals of 0 to 999, each
    followed by a null byte. *)
Definition index_entry (n : Z) : bytes :=
  (if n <? 10 then [digit n]
   else if n <? 100 then [digit (n / 10); digit n]
   else [digit (n / 100); digit (n / 10); digit n]) ++ [0].

Definition kIndexTable : bytes := mjoin (index_entry <$> seqZ 0 1000).

(** [ItoA::kBufSize]. *)
Definition ItoA_kBufSize : Z := 11.

(** The digit loop of [ItoA::ItoA]; [None] is an out-of-range [pos]. *)
Fixpoint itoa_loop (fuel : nat) (buf : bytes) (pos : nat) (val : Z) : option (bytes * nat) :=
  match fuel with
  | O => None
  | S fuel' =>
      if val >? 0 then
        match pos with
        | O => None
        | S pos' => itoa_loop fuel' (<[pos' := val mod 10 + 48]> buf) pos' (val / 10)
        end
      else Some (buf, pos)
  end.

(** [ItoA::ItoA(uint32_t)] and its conversion to [StringData]; [junk] is the
    uninitialised buffer. *)
Definition ItoA (junk : bytes) (val : Z) : option bytes :=
  if val <? 10 then Some (take 1 (drop (Z.to_nat (2 * val)) kIndexTable))
  else if val <? 100 then Some (take 2 (drop (Z.to_nat (2 * 10 + 3 * (val - 10))) kIndexTable))
  else if val <? 1000 then
    Some (take 3 (drop (Z.to_nat (2 * 10 + 3 * 90 + 4 * (val - 100))) kIndexTable))
  else
    let len := Z.to_nat (ItoA_kBufSize - 1) in
    match itoa_loop 12 (<[len := 0]> junk) len val with
    | Some (buf, pos) => Some (take (len - pos) (drop pos buf))
    | None => None
    end.

(** [DecimalCounter]: the digits are the first [dc_end] bytes of the buffer. *)
Record DecimalCounter := mkCounter { dc_buf : bytes; dc_end : nat }.

Definition kBufSize : nat := 21.

(** The conversion to [StringData]. *)
Definition dc_str (c : DecimalCounter) : bytes := take (dc_end c) (dc_buf c).

(** [DecimalCounter(uint32_t)], with [DecimalCounter()] for zero. *)
Fixpoint start_loop (fuel : nat) (buf : bytes) (p : nat) (start : Z) : option (bytes * nat) :=
  match fuel with
  | O => None
  | S fuel' =>
      if start >? 0 then
        match p with
        | O => None
        | S p' => start_loop fuel' (<[p' := 48 + start mod 10]> buf) p' (start / 10)
        end
      else Some (buf, p)
  end.

(** [memmove(buf + dst, buf + src, n)] inside one buffer; [None] when it runs past
    the end. *)
Definition memmove (buf : bytes) (dst src n : nat) : option bytes :=
  if bool_decide (dst + n <= length buf /\ src + n <= length buf)%nat then
    Some (take dst buf ++ take n (drop src buf) ++ drop (dst + n) buf)
  else None.

Definition DecimalCounter_new (junk : bytes) (start : Z) : option DecimalCounter :=
  if start =? 0 then Some (mkCounter (<[0%nat := 48]> junk) 1)
  else
    match start_loop 21 junk (kBufSize - 1) start with
    | None => None
    | Some (buf, p) =>
        let len := (kBufSize - 1 - p)%nat in
        match (if bool_decide (p = 0%nat) then Some buf else memmove buf 0 p len) with
        | None => None
        | Some buf' => Some (mkCounter buf' len)
        end
    end.

(** The loop of [operator++]: [k] is [p + 1 - _buf]; the flag tells whether the
    loop returned. *)
Fixpoint incr_loop (buf : bytes) (k : nat) : bytes * bool :=
  match k with
  | O => (buf, false)
  | S p =>
      match buf !! p with
      | Some c =>
          if c <? 57 then (<[p := c + 1]> buf, true)
          else incr_loop (<[p := 48]> buf) p
      | None => (buf, false)
      end
  end.

(** [DecimalCounter::operator++]; [None] is a write past the buffer. *)
Definition incr (c : DecimalCounter) : option DecimalCounter :=
  match incr_loop (dc_buf c) (dc_end c) with
  | (buf, true) => Some (mkCounter buf (dc_end c))
  | (buf, false) =>
      match memmove buf 1 0 (dc_end c) with
      | Some buf' => Some (mkCounter (<[0%nat := 49]> buf') (S (dc_end c)))
      | None => None
      end
  end.

(** [DecimalCounter::operator++(int)] returns the counter before the increment. *)
Definition incr_post (c : DecimalCounter) : option (DecimalCounter * DecimalCounter) :=
  (fun c' => (c, c')) <$> incr c.

(** *** Decimal numerals *)

Definition is_digit (c : Z) : Prop := 48 <= c <= 57.
Definition dval (l : bytes) : Z := foldl (fun a c => a * 10 + (c - 48)) 0 l.

(** [l] is the decimal numeral of [n]: digits only, and no leading zero. *)
Definition numeral (l : bytes) (n : Z) : Prop :=
  Forall is_digit l /\ dval l = n /\ l <> [] /\ (head l = Some 48 -> l = [48]).

(** [k] increments in a row. *)
Fixpoint incr_n (k : nat) (c : DecimalCounter) : option DecimalCounter :=
  match k with
  | O => Some c
  | S k' => match incr c with Some c' => incr_n k' c' | None => None end
  end.

(** The bytes of [buf] from [i] up to [j]. *)
Definition seg (buf : bytes) (i j : nat) : bytes := take (j - i) (drop i buf).

Lemma dval_snoc (l : bytes) (c : Z) : dval (l ++ [c]) = dval l * 10 + (c - 48).
Proof. unfold dval. by rewrite foldl_app. Qed.

Lemma dval_range (l : bytes) : Forall is_digit l -> 0 <= dval l < 10 ^ Z.of_nat (length l).
Proof.
  induction l as [|c l IH] using rev_ind; [done|]. rewrite Forall_app, Forall_singleton.
  intros [Hl Hc]. specialize (IH Hl). rewrite dval_snoc, length_app. cbn [length].
  rewrite Nat2Z.inj_add, Z.pow_add_r by lia. change (10 ^ Z.of_nat 1) with 10.
  unfold is_digit in Hc. lia.
Qed.

Lemma dval_lead (l : bytes) :
  Forall is_digit l -> l <> [] -> head l <> Some 48 -> 1 <= dval l.
Proof.
  induction l as [|c l IH] using rev_ind; [done|]. rewrite Forall_app, Forall_singleton.
  intros [Hl Hc] _ Hh. rewrite dval_snoc. unfold is_digit in Hc.
  destruct l as [|d l]; [simpl in Hh |- *; unfold dval; simpl; assert (c <> 48) by congruence; lia|].
  simpl in Hh. specialize (IH Hl ltac:(done) Hh). lia.
Qed.

Lemma dval_inj (l1 l2 : bytes) :
  Forall is_digit l1 -> Forall is_digit l2 -> head l1 <> Some 48 -> head l2 <> Some 48 ->
  dval l1 = dval l2 -> l1 = l2.
Proof.
  revert l2. induction l1 as [|c l1 IH] using rev_ind; intros l2 H1 H2 Hh1 Hh2 Heq.
  { destruct l2 as [|d l2]; [done|]. pose proof (dval_lead _ H2 ltac:(done) Hh2).
    unfold dval at 1 in Heq. simpl in Heq. lia. }
  destruct l2 as [|d l2 _] using rev_ind.
  { pose proof (dval_lead _ H1 ltac:(by destruct l1) Hh1). unfold dval at 2 in Heq.
    simpl in Heq. lia. }
  rewrite !dval_snoc in Heq.
  apply Forall_app in H1 as [H1 Hc]. apply Forall_app in H2 as [H2 Hd].
  rewrite Forall_singleton in Hc, Hd. unfold is_digit in Hc, Hd.
  assert (c = d) as -> by lia. f_equal. apply IH; [done..| | |lia].
  - by destruct l1.
  - by destruct l2.
Qed.

Lemma numeral_inj (l1 l2 : bytes) (n : Z) : numeral l1 n -> numeral l2 n -> l1 = l2.
Proof.
  intros (H1 & E1 & N1 & L1) (H2 & E2 & N2 & L2).
  assert (forall l, Forall is_digit l -> l <> [] -> dval l = 0 -> head l = Some 48) as Hz.
  { intros l Hl Hn He. destruct (decide (head l = Some 48)); [done|].
    pose proof (dval_lead l Hl Hn ltac:(done)). lia. }
  destruct (decide (head l1 = Some 48)) as [Z1|Z1].
  - rewrite (L1 Z1) in E1 |- *. symmetry. apply L2, Hz; [done..|]. by rewrite E2, <- E1.
  - destruct (decide (head l2 = Some 48)) as [Z2|Z2].
    + rewrite (L2 Z2) in E2 |- *. apply L1, Hz; [done..|]. by rewrite E1, <- E2.
    + apply dval_inj; try done. congruence.
Qed.

Lemma numeral_lower (c : Z) (l : bytes) :
  Forall is_digit (c :: l) -> c <> 48 -> 10 ^ Z.of_nat (length l) <= dval (c :: l).
Proof.
  intros Hd Hc. induction l as [|x l IH] using rev_ind.
  { rewrite Forall_singleton in Hd. unfold is_digit in Hd. unfold dval. simpl. lia. }
  rewrite app_comm_cons in Hd |- *. apply Forall_app in Hd as [Hd Hx].
  rewrite Forall_singleton in Hx. unfold is_digit in Hx. specialize (IH Hd).
  rewrite dval_snoc, length_app. simpl length. rewrite Nat2Z.inj_add, Z.pow_add_r by lia. lia.
Qed.

Lemma seg_snoc (buf : bytes) (i j : nat) (x : Z) :
  (i <= j)%nat -> buf !! j = Some x -> seg buf i (S j) = seg buf i j ++ [x].
Proof.
  intros Hij Hx. unfold seg. replace (S j - i)%nat with (S (j - i)) by lia.
  apply take_S_r. rewrite lookup_drop. by replace (i + (j - i))%nat with j by lia.
Qed.

(** The digit loop writes the numeral of [val] just below [p]. *)
Lemma start_loop_spec (fuel : nat) : forall (buf : bytes) (p : nat) (val : Z),
  0 <= val < 10 ^ Z.of_nat p -> (p < fuel)%nat -> (p <= length buf)%nat ->
  exists buf' p', start_loop fuel buf p val = Some (buf', p') /\
    length buf' = length buf /\ (p' <= p)%nat /\ drop p buf' = drop p buf /\
    Forall is_digit (seg buf' p' p) /\ dval (seg buf' p' p) = val /\
    (val = 0 -> p' = p) /\ (0 < val -> (p' < p)%nat /\ buf' !! p' <> Some 48).
Proof.
  induction fuel as [|fuel IH]; intros buf p val Hval Hf Hlen; [lia|]. simpl.
  destruct (Z.gtb_spec val 0) as [Hpos|Hz].
  2:{ exists buf, p. unfold seg. rewrite Nat.sub_diag. assert (val = 0) as -> by lia.
      split_and!; try done; lia. }
  destruct p as [|q]; [simpl in Hval; lia|].
  destruct (IH (<[q := 48 + val mod 10]> buf) q (val / 10))
    as (buf' & p' & -> & Hl & Hp & Hd & Hdig & Hv & Hzero & Hlead).
  { rewrite Nat2Z.inj_succ, Z.pow_succ_r in Hval by lia.
    split; [apply Z.div_pos; lia | apply Z.div_lt_upper_bound; lia]. }
  { lia. } { rewrite length_insert. lia. }
  rewrite length_insert in Hl.
  assert (buf' !! q = Some (48 + val mod 10)) as Hq.
  { rewrite <- (Nat.add_0_r q), <- lookup_drop, Hd, lookup_drop, Nat.add_0_r.
    apply list_lookup_insert_eq. lia. }
  exists buf', p'. rewrite (seg_snoc _ _ _ _ Hp Hq), Forall_app, Forall_singleton, dval_snoc, Hv.
  pose proof (Z.mod_pos_bound val 10 ltac:(lia)). pose proof (Z.div_mod val 10 ltac:(lia)).
  split; [done|]. split; [done|]. split; [lia|]. split.
  { replace (S q) with (q + 1)%nat by lia. rewrite <- drop_drop, Hd, drop_drop.
    apply drop_insert_lt. lia. }
  split; [unfold is_digit; split; [done|lia]|]. split; [lia|]. split; [lia|].
  intros _. split; [lia|]. destruct (decide (val / 10 = 0)) as [E|E].
  - rewrite (Hzero E), Hq. intros [=]. lia.
  - apply Hlead. pose proof (Z.div_pos val 10). lia.
Qed.

Lemma itoa_loop_start_loop (fuel : nat) (buf : bytes) (p : nat) (val : Z) :
  itoa_loop fuel buf p val = start_loop fuel buf p val.
Proof.
  revert buf p val. induction fuel as [|fuel IH]; intros buf p val; simpl; [done|].
  destruct (val >? 0); [|done]. destruct p as [|p]; [done|]. by rewrite Z.add_comm.
Qed.

Lemma seg_numeral (buf : bytes) (p' p : nat) (val : Z) :
  (p' < p)%nat -> Forall is_digit (seg buf p' p) -> dval (seg buf p' p) = val ->
  (p <= length buf)%nat -> buf !! p' <> Some 48 -> numeral (seg buf p' p) val.
Proof.
  intros Hlt Hdig Hv Hlen Hlead.
  assert (seg buf p' p !! 0%nat = buf !! p') as Hh.
  { unfold seg. rewrite lookup_take_lt, lookup_drop by lia. by rewrite Nat.add_0_r. }
  split; [done|]. split; [done|]. rewrite <- head_lookup in Hh. split.
  - intros E. rewrite E in Hh. simpl in Hh. symmetry in Hh.
    apply lookup_ge_None in Hh. lia.
  - intros Hd. congruence.
Qed.

(** *** ItoA *)

Definition numeralb (l : bytes) (n : Z) : bool :=
  forallb (fun c => (48 <=? c) && (c <=? 57)) l && (dval l =? n) &&
  match l with [] => false | c :: l' => negb (c =? 48) || bool_decide (l' = []) end.

Lemma numeralb_sound (l : bytes) (n : Z) : numeralb l n = true -> numeral l n.
Proof.
  unfold numeralb, numeral. rewrite !andb_true_iff, forallb_forall. intros [[Hd Hv] Hh].
  split.
  { apply Forall_forall. intros c Hc%list_elem_of_In%Hd. unfold is_digit. lia. }
  apply Z.eqb_eq in Hv. split; [done|]. destruct l as [|c l]; [done|]. split; [done|].
  simpl. intros [= ->]. simpl in Hh. apply bool_decide_eq_true in Hh. by subst.
Qed.

Lemma kIndexTable_numerals :
  forallb (fun v => match ItoA [] v with Some s => numeralb s v | None => false end)
    (seqZ 0 1000) = true.
Proof. vm_compute. reflexivity. Qed.

#[local] Opaque kIndexTable.

Lemma ItoA_table (junk : bytes) (val : Z) :
  0 <= val < 1000 -> exists s, ItoA junk val = Some s /\ numeral s val.
Proof.
  intros H. assert (ItoA junk val = ItoA [] val) as ->.
  { unfold ItoA. destruct (val <? 10); [reflexivity|]. destruct (val <? 100); [reflexivity|].
    destruct (Z.ltb_spec val 1000); [reflexivity|lia]. }
  pose proof kIndexTable_numerals as Hall. rewrite forallb_forall in Hall.
  specialize (Hall val). rewrite <- list_elem_of_In, elem_of_seqZ in Hall.
  specialize (Hall ltac:(lia)). destruct (ItoA [] val) as [s|]; [|discriminate].
  exists s. split; [reflexivity|]. by apply numeralb_sound.
Qed.

Lemma ItoA_numeral (junk : bytes) (val : Z) :
  length junk = 11%nat -> 0 <= val < 2 ^ 32 ->
  exists s, ItoA junk val = Some s /\ numeral s val.
Proof.
  intros Hj Hval. destruct (Z.ltb_spec val 1000) as [Hs|Hs]; [apply ItoA_table; lia|].
  unfold ItoA. destruct (Z.ltb_spec val 10), (Z.ltb_spec val 100), (Z.ltb_spec val 1000); try lia.
  change (Z.to_nat (ItoA_kBufSize - 1)) with 10%nat. cbv zeta.
  destruct (start_loop_spec 12 (<[10%nat := 0]> junk) 10 val)
    as (buf & p & E & Hl & Hp & _ & Hdig & Hv & _ & Hlead); [lia|lia|rewrite length_insert; lia|].
  rewrite length_insert in Hl. destruct Hlead; [lia|].
  exists (seg buf p 10). split; [by rewrite itoa_loop_start_loop, E|].
  apply seg_numeral; (done || lia).
Qed.

(** *** DecimalCounter *)

Definition dc_ok (c : DecimalCounter) (n : Z) : Prop :=
  length (dc_buf c) = kBufSize /\ (dc_end c <= kBufSize)%nat /\ numeral (dc_str c) n.

Lemma DecimalCounter_new_ok (junk : bytes) (start : Z) :
  length junk = kBufSize -> 0 <= start < 2 ^ 32 ->
  exists c, DecimalCounter_new junk start = Some c /\ dc_ok c start.
Proof.
  intros Hj Hs. unfold DecimalCounter_new, kBufSize in *.
  destruct (Z.eqb_spec start 0) as [->|Hne].
  { eexists. split; [done|]. unfold dc_ok, dc_str, kBufSize. simpl. rewrite length_insert.
    split; [done|]. split; [lia|]. destruct junk as [|x junk]; [done|]. simpl.
    by apply numeralb_sound. }
  change (21 - 1)%nat with 20%nat.
  destruct (start_loop_spec 21 junk 20 start)
    as (buf & p & -> & Hl & Hp & _ & Hdig & Hv & _ & Hlead); [lia|lia|lia|].
  destruct Hlead as [Hlt Hlead]; [lia|].
  pose proof (seg_numeral buf p 20 start Hlt Hdig Hv ltac:(lia) Hlead) as Hnum.
  unfold memmove. case_bool_decide as Hp0.
  - eexists. split; [done|]. subst p. split; [simpl; unfold kBufSize; lia|].
    split; [simpl; unfold kBufSize; lia|]. exact Hnum.
  - rewrite bool_decide_eq_true_2 by lia. eexists. split; [done|].
    split; [simpl; rewrite length_app, length_take, !length_drop; unfold kBufSize; lia|].
    split; [cbn [dc_end]; unfold kBufSize; lia|]. unfold dc_str. cbn [dc_buf dc_end take app].
    rewrite take_0, app_nil_l, take_app_length'; [exact Hnum|]. rewrite length_take, length_drop. lia.
Qed.

Lemma incr_loop_spec (k : nat) : forall (buf buf' : bytes) (b : bool),
  (k <= length buf)%nat -> Forall is_digit (take k buf) -> incr_loop buf k = (buf', b) ->
  length buf' = length buf /\ drop k buf' = drop k buf /\ Forall is_digit (take k buf') /\
  (if b then dval (take k buf') = dval (take k buf) + 1 /\
             (head (take k buf') = Some 48 -> head (take k buf) = Some 48)
   else dval (take k buf) = 10 ^ Z.of_nat k - 1 /\ dval (take k buf') = 0).
Proof.
  induction k as [|p IH]; intros buf buf' b Hlen Hdig; simpl incr_loop.
  { intros [= <- <-]. done. }
  destruct (lookup_lt_is_Some_2 buf p ltac:(lia)) as [c Hc]. rewrite Hc.
  rewrite (take_S_r _ _ _ Hc), Forall_app, Forall_singleton in Hdig.
  destruct Hdig as [Hdig Hd]. unfold is_digit in Hd. rewrite (take_S_r _ _ _ Hc), dval_snoc.
  destruct (Z.ltb_spec c 57) as [Hlt|Hge].
  - intros [= <- <-].
    assert (<[p:=c + 1]> buf !! p = Some (c + 1)) as Hc' by (apply list_lookup_insert_eq; lia).
    rewrite (take_S_r _ _ _ Hc'), Forall_app, Forall_singleton, dval_snoc, length_insert.
    rewrite take_insert_ge by lia. split; [done|]. split; [apply drop_insert_lt; lia|].
    split; [unfold is_digit; split; [done|lia]|]. split; [lia|].
    destruct (take p buf); simpl; [|done]. intros [=]. lia.
  - intros Hloop.
    destruct (IH (<[p:=48]> buf) buf' b) as (Hl & Hdr & Hdig' & Hres);
      [rewrite length_insert; lia|by rewrite take_insert_ge by lia|done|].
    rewrite length_insert in Hl. rewrite take_insert_ge in Hres by lia.
    assert (buf' !! p = Some 48) as Hc'.
    { rewrite <- (Nat.add_0_r p), <- lookup_drop, Hdr, lookup_drop, Nat.add_0_r.
      apply list_lookup_insert_eq. lia. }
    rewrite (take_S_r _ _ _ Hc'), Forall_app, Forall_singleton, dval_snoc.
    split; [done|]. split.
    { replace (S p) with (p + 1)%nat by lia. rewrite <- drop_drop, Hdr, drop_drop.
      apply drop_insert_lt. lia. }
    split; [unfold is_digit; split; [done|lia]|]. destruct b.
    + destruct Hres as [Hv Hh]. split; [lia|].
      destruct p as [|p]; [simpl in Hv; unfold dval in Hv; simpl in Hv; lia|].
      destruct (take (S p) buf') eqn:E1, (take (S p) buf) eqn:E2; simpl in *; try done.
      all: exfalso; apply (f_equal length) in E1, E2; rewrite length_take in E1, E2;
        cbn [length] in E1, E2; lia.
    + rewrite Nat2Z.inj_succ, Z.pow_succ_r by lia. lia.
Qed.

Lemma incr_ok (c : DecimalCounter) (n : Z) :
  dc_ok c n -> n < 10 ^ 21 - 1 -> exists c', incr c = Some c' /\ dc_ok c' (n + 1).
Proof.
  intros (Hl & He & Hdig & Hv & Hne & Hz) Hn. unfold dc_ok, dc_str, incr in *.
  destruct c as [buf k]. cbn [dc_buf dc_end] in *.
  destruct (incr_loop buf k) as [buf' b] eqn:E.
  destruct (incr_loop_spec k buf buf' b ltac:(lia) Hdig E) as (Hl' & Hdr & Hdig' & Hres).
  destruct b.
  - destruct Hres as [Hv' Hh']. eexists. split; [done|]. cbn [dc_buf dc_end].
    split; [lia|]. split; [done|]. split; [done|]. split; [lia|]. split.
    { intros E0. apply Hne. apply (f_equal length) in E0. apply length_zero_iff_nil.
      rewrite length_take in *. simpl in E0. lia. }
    intros Hh. specialize (Hz (Hh' Hh)). rewrite Hz in Hv, Hh'. destruct (take k buf') as [|x t] eqn:Et; [done|].
    simpl in Hh. injection Hh as ->. f_equal. apply (f_equal length) in Hz, Et.
    rewrite length_take in Hz, Et. destruct t; [done|]. simpl in Hz, Et. lia.
  - destruct Hres as [Hv' H0]. unfold memmove.
    assert (k <= 20)%nat as Hk.
    { unfold kBufSize in *. destruct (decide (k = 21%nat)) as [->|]; [|lia].
      change (10 ^ Z.of_nat 21) with (10 ^ 21) in Hv'. lia. }
    unfold kBufSize in *. rewrite bool_decide_eq_true_2 by lia.
    eexists. split; [done|]. cbn [dc_buf dc_end].
    destruct buf' as [|x buf']; [simpl in *; lia|]. cbn [take drop app insert list_insert].
    rewrite !take_0, !app_nil_l. split; [cbn [length]; rewrite length_app, length_take, length_drop;
      cbn [length] in *; lia|].
    split; [lia|].
    rewrite take_app_length' by (rewrite length_take; simpl in *; lia).
    assert (dval (49 :: take k (x :: buf')) = 10 ^ Z.of_nat k + dval (take k (x :: buf'))) as Hd.
    { assert (length (take k (x :: buf')) = k) as Hlk by (rewrite length_take; simpl in *; lia).
      rewrite <- Hlk at 2. generalize (take k (x :: buf')). clear. intros l.
      induction l as [|y l IH] using rev_ind; [done|].
      rewrite app_comm_cons, !dval_snoc, IH, length_app. simpl length.
      rewrite Nat2Z.inj_add, Z.pow_add_r by lia. lia. }
    split; [constructor; [unfold is_digit; lia|done]|]. split; [rewrite Hd; lia|].
    split; [done|]. simpl. intros [=].
Qed.

Lemma incr_n_ok (k : nat) : forall (c : DecimalCounter) (n : Z),
  dc_ok c n -> n + Z.of_nat k < 10 ^ 21 ->
  exists c', incr_n k c = Some c' /\ dc_ok c' (n + Z.of_nat k).
Proof.
  induction k as [|k IH]; intros c n Hc Hn; simpl.
  { exists c. by rewrite Z.add_0_r. }
  destruct (incr_ok c n Hc ltac:(lia)) as (c1 & -> & H1).
  destruct (IH c1 (n + 1) H1 ltac:(lia)) as (c' & -> & H').
  exists c'. split; [done|]. by replace (n + Z.of_nat (S k)) with (n + 1 + Z.of_nat k) by lia.
Qed.

(** *** Properties *)

(** [ItoA] prints every 32-bit unsigned integer as its decimal numeral (digits
    only, no leading zero), both from the table and from the digit loop, which
    never runs out of its 11-byte buffer. *)
Lemma ItoA_prints_numeral (junk : bytes) (val : Z) :
  length junk = 11%nat -> 0 <= val < 2 ^ 32 ->
  exists s, ItoA junk val = Some s /\ numeral s val /\ (length s <= 10)%nat.
Proof.
  intros Hj Hv. destruct (ItoA_numeral junk val Hj Hv) as (s & Hs & Hn).
  exists s. split; [done|]. split; [done|].
  destruct Hn as (Hd & Hval & Hne & Hz). destruct (decide (head s = Some 48)) as [H0|H0].
  { rewrite (Hz H0). simpl. lia. }
  destruct s as [|c s]; [done|]. destruct (decide (length (c :: s) <= 10)%nat); [done|].
  pose proof (numeral_lower c s Hd ltac:(simpl in H0; congruence)) as Hlow.
  assert (10 ^ 10 <= 10 ^ Z.of_nat (length s)) by (apply Z.pow_le_mono_r; simpl in *; lia). lia.
Qed.

Lemma ItoA_prints_numeral_witness :
  exists s, ItoA (replicate 11 7) 4294967295 = Some s /\ numeral s 4294967295 /\ (length s <= 10)%nat.
Proof. apply ItoA_prints_numeral; [reflexivity|lia]. Defined.

(** A [DecimalCounter] started at [start] and incremented [k] times holds the
    same string as [ItoA(start + k)], for every 32-bit value it can reach; no
    increment writes past its buffer. *)
Lemma DecimalCounter_matches_ItoA (junk junk' : bytes) (start : Z) (k : nat) :
  length junk = kBufSize -> length junk' = 11%nat ->
  0 <= start -> start + Z.of_nat k < 2 ^ 32 ->
  exists c c', DecimalCounter_new junk start = Some c /\ incr_n k c = Some c' /\
    ItoA junk' (start + Z.of_nat k) = Some (dc_str c').
Proof.
  intros Hj Hj' H0 Hk.
  destruct (DecimalCounter_new_ok junk start Hj ltac:(lia)) as (c & Hc & Hok).
  destruct (incr_n_ok k c start Hok ltac:(lia)) as (c' & Hc' & _ & _ & Hn).
  destruct (ItoA_numeral junk' (start + Z.of_nat k) Hj' ltac:(lia)) as (s & Hs & Hn').
  exists c, c'. split; [done|]. split; [done|]. by rewrite (numeral_inj _ _ _ Hn Hn').
Qed.

Lemma DecimalCounter_matches_ItoA_witness :
  exists c c', DecimalCounter_new (replicate 21 0) 997 = Some c /\ incr_n 5 c = Some c' /\
    ItoA (replicate 11 0) (997 + Z.of_nat 5) = Some (dc_str c').
Proof. apply DecimalCounter_matches_ItoA; [reflexivity..|lia|lia]. Defined.

End Itoa.
