(* ===== verification/Bson.v ===== *)
(** * BSON documents

    - module [T]: the type codes of src/src/mongo/bson/bsontypes.h, with
      [isValidBSONType], [typeName] and [canonicalizeBSONType];
    - module [Builder]: [BSONObjBuilder] of src/src/mongo/bson/bsonobjbuilder.h, one
      definition per append method;
    - the document model: [value] is a BSON value, a document a list of named
      values, [enc_elem] and [enc_obj] their wire format, which is what the builder
      writes;
    - module [Elt]: [BSONElement] of src/src/mongo/bson/bsonelement.h and
      bsonelement.cpp over raw bytes: [size()] with its table of fixed sizes, and
      [size(int)], the switch it replaces;
    - module [Iter]: [BSONObjIterator] and [BSONObj::getField]. *)
From S2P Require Import Prelude StringData.

Module T.

Definition MinKey : Z := -1.
Definition EOO : Z := 0.
Definition NumberDouble : Z := 1.
Definition String_ : Z := 2.
Definition Object : Z := 3.
Definition Array : Z := 4.
Definition BinData : Z := 5.
Definition Undefined : Z := 6.
Definition jstOID : Z := 7.
Definition Bool : Z := 8.
Definition Date : Z := 9.
Definition jstNULL : Z := 10.
Definition RegEx : Z := 11.
Definition DBRef : Z := 12.
Definition Code : Z := 13.
Definition Symbol : Z := 14.
Definition CodeWScope : Z := 15.
Definition NumberInt : Z := 16.
Definition bsonTimestamp : Z := 17.
Definition NumberLong : Z := 18.
Definition NumberDecimal : Z := 19.
Definition JSTypeMax : Z := 19.
Definition MaxKey : Z := 127.

(** The enumerators of [BSONType], in the order of the source. *)
Definition all_types : list Z :=
  [MinKey; EOO; NumberDouble; String_; Object; Array; BinData; Undefined; jstOID; Bool;
   Date; jstNULL; RegEx; DBRef; Code; Symbol; CodeWScope; NumberInt; bsonTimestamp;
   NumberLong; NumberDecimal; MaxKey].

Definition isValidBSONType (type : Z) : bool := bool_decide (type ∈ all_types).

(** [typeName], one name per case label. *)
Definition typeName (type : Z) : string :=
  (if type =? MinKey then "minKey"%string else if type =? EOO then "missing"%string
   else if type =? NumberDouble then "double"%string else if type =? String_ then "string"%string
   else if type =? Object then "object"%string else if type =? Array then "array"%string
   else if type =? BinData then "binData"%string else if type =? Undefined then "undefined"%string
   else if type =? jstOID then "objectId"%string else if type =? Bool then "bool"%string
   else if type =? Date then "date"%string else if type =? jstNULL then "null"%string
   else if type =? RegEx then "regex"%string else if type =? DBRef then "dbPointer"%string
   else if type =? Code then "javascript"%string else if type =? Symbol then "symbol"%string
   else if type =? CodeWScope then "javascriptWithScope"%string
   else if type =? NumberInt then "int"%string else if type =? bsonTimestamp then "timestamp"%string
   else if type =? NumberLong then "long"%string else if type =? NumberDecimal then "decimal"%string
   else if type =? MaxKey then "maxKey"%string else "invalid"%string).

(** [canonicalizeBSONType]; [None] is the failed [verify(0)] of the default case. *)
Definition canonicalizeBSONType (type : Z) : option Z :=
  if bool_decide (type ∈ [MinKey; MaxKey]) then Some type
  else if bool_decide (type ∈ [EOO; Undefined]) then Some 0
  else if type =? jstNULL then Some 5
  else if bool_decide (type ∈ [NumberDecimal; NumberDouble; NumberInt; NumberLong]) then Some 10
  else if bool_decide (type ∈ [String_; Symbol]) then Some 15
  else if type =? Object then Some 20
  else if type =? Array then Some 25
  else if type =? BinData then Some 30
  else if type =? jstOID then Some 35
  else if type =? Bool then Some 40
  else if type =? Date then Some 45
  else if type =? bsonTimestamp then Some 47
  else if type =? RegEx then Some 50
  else if type =? DBRef then Some 55
  else if type =? Code then Some 60
  else if type =? CodeWScope then Some 65
  else None.

End T.

(** The [char] conversion of a type code, as the byte that is stored. *)
Definition type_byte (t : Z) : Z := wrapu 8 t.

Module Builder.

(** [BSONObjBuilder]: the bytes of its [BufBuilder], the offset at which this
    object starts and whether [_done] ran. *)
Record BSONObjBuilder := mkBuilder { _b : bytes; _offset : nat; _doneCalled : bool }.

Definition appendBuf (b : BSONObjBuilder) (l : bytes) : BSONObjBuilder :=
  mkBuilder (_b b ++ l) (_offset b) (_doneCalled b).
Definition appendChar (b : BSONObjBuilder) (c : Z) : BSONObjBuilder := appendBuf b [wrapu 8 c].
Definition appendInt (b : BSONObjBuilder) (n : Z) : BSONObjBuilder := appendBuf b (le_encode 4 n).
Definition appendLL (b : BSONObjBuilder) (n : Z) : BSONObjBuilder := appendBuf b (le_encode 8 n).
(** [BufBuilder::appendStr] with the ending null byte. *)
Definition appendStr (b : BSONObjBuilder) (s : bytes) : BSONObjBuilder := appendBuf b (s ++ [0]).

(** The constructors: four bytes are skipped for the length; [junk] is what they
    hold until [_done]. *)
Definition BSONObjBuilder_new (junk : bytes) : BSONObjBuilder := mkBuilder (take 4 junk) 0 false.
Definition BSONObjBuilder_sub (base : bytes) (junk : bytes) : BSONObjBuilder :=
  mkBuilder (base ++ take 4 junk) (length base) false.

(** The header every append method writes first. *)
Definition header (b : BSONObjBuilder) (type : Z) (fieldName : bytes) : BSONObjBuilder :=
  appendStr (appendChar b type) fieldName.

Definition append_obj (b : BSONObjBuilder) (fieldName subObj : bytes) : BSONObjBuilder :=
  appendBuf (header b T.Object fieldName) subObj.
Definition subobjStart (b : BSONObjBuilder) (fieldName : bytes) : bytes :=
  _b (header b T.Object fieldName).
Definition appendArray (b : BSONObjBuilder) (fieldName subObj : bytes) : BSONObjBuilder :=
  appendBuf (header b T.Array fieldName) subObj.
Definition subarrayStart (b : BSONObjBuilder) (fieldName : bytes) : bytes :=
  _b (header b T.Array fieldName).
Definition append_bool (b : BSONObjBuilder) (fieldName : bytes) (val : bool) : BSONObjBuilder :=
  appendChar (header b T.Bool fieldName) (if val then 1 else 0).
Definition appendBool (b : BSONObjBuilder) (fieldName : bytes) (val : Z) : BSONObjBuilder :=
  appendChar (header b T.Bool fieldName) (if val =? 0 then 0 else 1).
Definition append_int (b : BSONObjBuilder) (fieldName : bytes) (n : Z) : BSONObjBuilder :=
  appendInt (header b T.NumberInt fieldName) n.
Definition append_unsigned (b : BSONObjBuilder) (fieldName : bytes) (n : Z) : BSONObjBuilder :=
  append_int b fieldName (wraps 32 n).
(** A [Decimal128] or a [double] is appended as its 16 or 8 bytes. *)
Definition append_decimal (b : BSONObjBuilder) (fieldName dec : bytes) : BSONObjBuilder :=
  appendBuf (header b T.NumberDecimal fieldName) dec.
Definition append_ll (b : BSONObjBuilder) (fieldName : bytes) (n : Z) : BSONObjBuilder :=
  appendLL (header b T.NumberLong fieldName) n.
Definition append_double (b : BSONObjBuilder) (fieldName dbl : bytes) : BSONObjBuilder :=
  appendBuf (header b T.NumberDouble fieldName) dbl.

Definition appendIntOrLL (b : BSONObjBuilder) (fieldName : bytes) (n : Z) : BSONObjBuilder :=
  let maxInt := (2 ^ 31 - 1) / 2 in
  let minInt := - maxInt in
  if (minInt <? n) && (n <? maxInt) then append_int b fieldName n else append_ll b fieldName n.

(** [appendNumber(StringData, size_t)] and [appendNumber(StringData, long long)];
    [double_of] is the conversion of an integer to the bytes of a double. *)
Definition appendNumber_size (b : BSONObjBuilder) (fieldName : bytes) (n : Z) : BSONObjBuilder :=
  if n <? 2 ^ 30 then append_int b fieldName n else append_ll b fieldName (wraps 64 n).
Definition appendNumber_ll (double_of : Z -> bytes) (b : BSONObjBuilder) (fieldName : bytes)
    (llNumber : Z) : BSONObjBuilder :=
  let maxInt := 2 ^ 30 in
  let minInt := - maxInt in
  let maxDouble := 2 ^ 40 in
  let minDouble := - maxDouble in
  if (minInt <? llNumber) && (llNumber <? maxInt) then append_int b fieldName llNumber
  else if (minDouble <? llNumber) && (llNumber <? maxDouble) then
    append_double b fieldName (double_of llNumber)
  else append_ll b fieldName llNumber.

Definition append_oid (b : BSONObjBuilder) (fieldName oid : bytes) : BSONObjBuilder :=
  appendBuf (header b T.jstOID fieldName) oid.
Definition appendTimeT (b : BSONObjBuilder) (fieldName : bytes) (dt : Z) : BSONObjBuilder :=
  appendLL (header b T.Date fieldName) (wrapu 64 (wrapu 64 dt * 1000)).
Definition appendDate (b : BSONObjBuilder) (fieldName : bytes) (millis : Z) : BSONObjBuilder :=
  appendLL (header b T.Date fieldName) millis.
Definition appendRegex (b : BSONObjBuilder) (fieldName regex options : bytes) : BSONObjBuilder :=
  appendStr (appendStr (header b T.RegEx fieldName) regex) options.
(** The length is [(int)size + 1]. *)
Definition str_len (s : bytes) : Z := Z.of_nat (length s) + 1.
Definition appendCode (b : BSONObjBuilder) (fieldName code : bytes) : BSONObjBuilder :=
  appendStr (appendInt (header b T.Code fieldName) (str_len code)) code.
Definition append_cstr (b : BSONObjBuilder) (fieldName str : bytes) (sz : Z) : BSONObjBuilder :=
  appendBuf (appendInt (header b T.String_ fieldName) sz) (take (Z.to_nat sz) str).
Definition append_str (b : BSONObjBuilder) (fieldName str : bytes) : BSONObjBuilder :=
  appendStr (appendInt (header b T.String_ fieldName) (str_len str)) str.
Definition appendSymbol (b : BSONObjBuilder) (fieldName symbol : bytes) : BSONObjBuilder :=
  appendStr (appendInt (header b T.Symbol fieldName) (str_len symbol)) symbol.
Definition appendNull (b : BSONObjBuilder) (fieldName : bytes) : BSONObjBuilder :=
  header b T.jstNULL fieldName.
Definition appendMinKey (b : BSONObjBuilder) (fieldName : bytes) : BSONObjBuilder :=
  header b T.MinKey fieldName.
Definition appendMaxKey (b : BSONObjBuilder) (fieldName : bytes) : BSONObjBuilder :=
  header b T.MaxKey fieldName.
Definition appendTimestamp (b : BSONObjBuilder) (fieldName : bytes) (val : Z) : BSONObjBuilder :=
  appendLL (header b T.bsonTimestamp fieldName) val.
Definition appendDBRef (b : BSONObjBuilder) (fieldName ns oid : bytes) : BSONObjBuilder :=
  appendBuf (appendStr (appendInt (header b T.DBRef fieldName) (str_len ns)) ns) oid.
Definition appendBinData (b : BSONObjBuilder) (fieldName : bytes) (len type : Z) (data : bytes)
    : BSONObjBuilder :=
  appendBuf (appendChar (appendInt (header b T.BinData fieldName) len) type)
    (take (Z.to_nat len) data).
Definition appendBinDataArrayDeprecated (b : BSONObjBuilder) (fieldName data : bytes) (len : Z)
    : BSONObjBuilder :=
  appendBuf (appendInt (appendChar (appendInt (header b T.BinData fieldName) (len + 4)) 2) len)
    (take (Z.to_nat len) data).
Definition appendCodeWScope (b : BSONObjBuilder) (fieldName code scope : bytes) : BSONObjBuilder :=
  let b := header b T.CodeWScope fieldName in
  let b := appendInt b (4 + 4 + Z.of_nat (length code) + 1 + Z.of_nat (length scope)) in
  let b := appendInt b (str_len code) in
  appendBuf (appendStr b code) scope.
Definition appendUndefined (b : BSONObjBuilder) (fieldName : bytes) : BSONObjBuilder :=
  header b T.Undefined fieldName.

(** [DataView(buf + off).write(tagLittleEndian(size))]. *)
Definition write_int (l : bytes) (off : nat) (n : Z) : bytes :=
  take off l ++ le_encode 4 n ++ drop (off + 4) l.

(** [_done]: the end-of-object byte, then the length in the first four bytes. *)
Definition _done (b : BSONObjBuilder) : BSONObjBuilder :=
  if _doneCalled b then b
  else
    let b' := appendChar b T.EOO in
    let size := Z.of_nat (length (_b b')) - Z.of_nat (_offset b) in
    mkBuilder (write_int (_b b') (_offset b) size) (_offset b) true.

(** [obj()]: the bytes of the finished object. *)
Definition obj (b : BSONObjBuilder) : bytes := drop (_offset b) (_b (_done b)).

End Builder.

(** ** The document model *)

(** A BSON value. Doubles, decimals and object ids are their raw bytes; strings may
    hold any byte; a field list is the body of an object, of an array or of a scope. *)
Inductive value :=
  | VDouble (raw : bytes)
  | VString (s : bytes)
  | VObject (fs : list (bytes * value))
  | VArray (fs : list (bytes * value))
  | VBinData (subtype : Z) (data : bytes)
  | VUndefined
  | VOID (raw : bytes)
  | VBool (b : bool)
  | VDate (millis : Z)
  | VNull
  | VRegEx (pattern flags : bytes)
  | VDBRef (ns oid : bytes)
  | VCode (code : bytes)
  | VSymbol (s : bytes)
  | VCodeWScope (code : bytes) (scope : list (bytes * value))
  | VInt (n : Z)
  | VTimestamp (n : Z)
  | VLong (n : Z)
  | VDecimal (raw : bytes)
  | VMinKey
  | VMaxKey.

Abbreviation field := (bytes * value)%type.

Definition type_of (v : value) : Z :=
  match v with
  | VDouble _ => T.NumberDouble | VString _ => T.String_ | VObject _ => T.Object
  | VArray _ => T.Array | VBinData _ _ => T.BinData | VUndefined => T.Undefined
  | VOID _ => T.jstOID | VBool _ => T.Bool | VDate _ => T.Date | VNull => T.jstNULL
  | VRegEx _ _ => T.RegEx | VDBRef _ _ => T.DBRef | VCode _ => T.Code
  | VSymbol _ => T.Symbol | VCodeWScope _ _ => T.CodeWScope | VInt _ => T.NumberInt
  | VTimestamp _ => T.bsonTimestamp | VLong _ => T.NumberLong
  | VDecimal _ => T.NumberDecimal | VMinKey => T.MinKey | VMaxKey => T.MaxKey
  end.

(** The wire format: a length-prefixed string, a document from the encoding of its
    body, and a value. *)
Definition enc_str (s : bytes) : bytes := le_encode 4 (Z.of_nat (length s) + 1) ++ s ++ [0].
Definition wrap_doc (body : bytes) : bytes :=
  le_encode 4 (Z.of_nat (length body) + 5) ++ body ++ [0].

Fixpoint enc_value (v : value) : bytes :=
  let enc_fields fs :=
    List.concat (List.map (fun f : bytes * value =>
      match f with (n, w) => type_byte (type_of w) :: n ++ [0] ++ enc_value w end) fs) in
  match v with
  | VDouble raw | VOID raw | VDecimal raw => raw
  | VString s | VCode s | VSymbol s => enc_str s
  | VObject fs | VArray fs => wrap_doc (enc_fields fs)
  | VBinData subtype data => le_encode 4 (Z.of_nat (length data)) ++ [subtype] ++ data
  | VUndefined | VNull | VMinKey | VMaxKey => []
  | VBool b => [if b then 1 else 0]
  | VDate n | VTimestamp n | VLong n => le_encode 8 n
  | VRegEx p f => p ++ [0] ++ f ++ [0]
  | VDBRef ns oid => enc_str ns ++ oid
  | VCodeWScope code scope =>
      let rest := enc_str code ++ wrap_doc (enc_fields scope) in
      le_encode 4 (Z.of_nat (length rest) + 4) ++ rest
  | VInt n => le_encode 4 n
  end.

Definition enc_elem (f : field) : bytes :=
  type_byte (type_of f.2) :: f.1 ++ [0] ++ enc_value f.2.
Definition enc_fields (fs : list field) : bytes := List.concat (List.map enc_elem fs).
Definition enc_obj (fs : list field) : bytes := wrap_doc (enc_fields fs).

Definition name_ok (n : bytes) : Prop := bytes_ok n /\ 0 ∉ n.

Fixpoint wf_value (v : value) : Prop :=
  let wf_fields fs := List.fold_right (fun (f : bytes * value) P =>
    match f with (n, w) => name_ok n /\ wf_value w /\ P end) True fs in
  match v with
  | VDouble raw => bytes_ok raw /\ length raw = 8%nat
  | VOID raw => bytes_ok raw /\ length raw = 12%nat
  | VDecimal raw => bytes_ok raw /\ length raw = 16%nat
  | VString s | VCode s | VSymbol s => bytes_ok s
  | VObject fs | VArray fs => wf_fields fs
  | VBinData subtype data => byte_ok subtype /\ bytes_ok data
  | VUndefined | VNull | VMinKey | VMaxKey | VBool _ => True
  | VDate n | VLong n => - 2 ^ 63 <= n < 2 ^ 63
  | VTimestamp n => 0 <= n < 2 ^ 64
  | VRegEx p f => name_ok p /\ name_ok f
  | VDBRef ns oid => bytes_ok ns /\ bytes_ok oid /\ length oid = 12%nat
  | VCodeWScope code scope => bytes_ok code /\ wf_fields scope
  | VInt n => - 2 ^ 31 <= n < 2 ^ 31
  end.

Definition wf_field (f : field) : Prop := name_ok f.1 /\ wf_value f.2.
Definition wf_doc (fs : list field) : Prop := Forall wf_field fs.

(** Well-formedness of a concrete document. *)
Ltac solve_wf :=
  repeat match goal with
  | |- _ ∉ _ => apply (bool_decide_unpack _); vm_compute; exact I
  | |- byte_ok _ => split; vm_compute; congruence
  | |- _ <= _ < _ => split; vm_compute; congruence
  | |- wf_doc _ => unfold wf_doc
  | |- Forall _ _ => constructor
  | |- wf_field _ => split
  | |- name_ok _ => split
  | |- bytes_ok _ => unfold bytes_ok; vm_compute lit
  | |- wf_value _ => simpl
  | |- True => exact I
  | |- _ /\ _ => split
  | |- @eq nat _ _ => reflexivity
  end.

(** Induction over values with the hypothesis on every nested field. *)
Section value_ind.
Variable P : value -> Prop.
Let Q (fs : list field) : Prop := Forall (fun f => P f.2) fs.
Hypothesis HObject : forall fs, Q fs -> P (VObject fs).
Hypothesis HArray : forall fs, Q fs -> P (VArray fs).
Hypothesis HScope : forall code fs, Q fs -> P (VCodeWScope code fs).
Hypothesis HLeaf : forall v,
  match v with VObject _ | VArray _ | VCodeWScope _ _ => False | _ => True end -> P v.

Fixpoint value_nested_ind (v : value) : P v :=
  let go := fix go (fs : list field) : Q fs :=
    match fs with
    | [] => Forall_nil_2 _
    | f :: fs' => Forall_cons_2 _ f fs' (value_nested_ind f.2) (go fs')
    end in
  match v with
  | VObject fs => HObject fs (go fs)
  | VArray fs => HArray fs (go fs)
  | VCodeWScope code fs => HScope code fs (go fs)
  | v' => HLeaf v' I
  end.
End value_ind.

(** ** BSONElement over raw bytes *)
Module Elt.

(** [data] is the memory from the element's first byte on; the two caches hold -1
    until they are computed. *)
Record BSONElement := mkElt { data : bytes; fieldNameSize_ : Z; totalSize : Z }.

(** What a size computation ends with: the size, a failed [massert] or [verify]
    with its code, or a read outside the memory. *)
Inductive sized := Size (n : Z) | MAssert (code : Z) | BadRead.

(** [type()]: the first byte as a [signed char]. *)
Definition type (e : BSONElement) : option Z := wraps 8 <$> head (data e).

Definition strlen (p : bytes) : option Z := Z.of_nat <$> SD.memchr p 0.
Definition strnlen (p : bytes) (n : Z) : Z :=
  match SD.memchr (take (Z.to_nat n) p) 0 with Some k => Z.of_nat k | None => n end.

(** The constructor from a data pointer. *)
Definition BSONElement_new (d : bytes) : BSONElement :=
  if bool_decide (wraps 8 <$> head d = Some T.EOO) then mkElt d 0 1 else mkElt d (-1) (-1).

(** The default constructor: a static EOO byte. *)
Definition eoo_elt : BSONElement := mkElt [0] 0 1.
Definition eoo (e : BSONElement) : bool := bool_decide (type e = Some T.EOO).

Definition fieldName (e : BSONElement) : bytes := if eoo e then [0] else drop 1 (data e).

Definition fieldNameSize (e : BSONElement) : option Z :=
  if fieldNameSize_ e =? -1 then (fun n => n + 1) <$> strlen (fieldName e)
  else Some (fieldNameSize_ e).

Definition fieldNameStringData (e : BSONElement) : option SD.StringData :=
  if eoo e then Some (SD.mkStringData (Some []))
  else (fun n => SD.mkStringData (Some (take (Z.to_nat (n - 1)) (fieldName e)))) <$> fieldNameSize e.

(** [value()]. *)
Definition value_ptr (e : BSONElement) : option bytes :=
  (fun n => drop (Z.to_nat (n + 1)) (data e)) <$> fieldNameSize e.

(** A little-endian 32-bit read, unsigned; [None] outside the memory. *)
Definition read_u32 (p : bytes) : option Z :=
  if bool_decide (4 <= length p)%nat then Some (le_decode (take 4 p)) else None.

Definition valuestrsize (e : BSONElement) : option Z :=
  value_ptr e ≫= fun v => wraps 32 <$> read_u32 v.
Definition objsize (e : BSONElement) : option Z := value_ptr e ≫= read_u32.

(** [kFixedSizes]. *)
Definition kFixedSizes : list Z :=
  [0; 8; 0; 0; 0; 0; 0; 12; 1; 8; 0; 0; 0; 0; 0; 0; 4; 8; 8; 16;
   0; 0; 0; 0; 0; 0; 0; 0; 0; 0; 0; 0].

(** The table at an [int] index below 32. The table starts at index 0: [before] is
    the memory that precedes it, which a negative index reads. *)
Definition fixed_size (before : Z -> Z) (t : Z) : Z :=
  if t <? 0 then before t else default 0 (kFixedSizes !! Z.to_nat t).

Definition kStringSizeMask : Z :=
  Z.lor (Z.shiftl 1 T.String_) (Z.lor (Z.shiftl 1 T.Code) (Z.shiftl 1 T.Symbol)).
Definition kObjectSizeMask : Z :=
  Z.lor (Z.shiftl 1 T.Object) (Z.lor (Z.shiftl 1 T.Array) (Z.shiftl 1 T.CodeWScope)).

(** The size of the two C strings of a regular expression. *)
Definition regex_size (e : BSONElement) : option Z :=
  p ← value_ptr e;
  len1 ← strlen p;
  len2 ← strlen (drop (Z.to_nat (len1 + 1)) p);
  Some (wraps 32 (len1 + 1 + len2 + 1)).

(** [int + int] in the value-size computations. *)
Definition add_int (o : option Z) (k : Z) : option Z := (fun n => wraps 32 (n + k)) <$> o.

Definition total (o : option Z) (e : BSONElement) : sized :=
  match o, fieldNameSize e with
  | Some x, Some n => Size (wraps 32 (x + n + 1))
  | _, _ => BadRead
  end.

(** The value part of [BSONElement::size()]. *)
Definition value_size (before : Z -> Z) (t : Z) (e : BSONElement) : option Z :=
  if (t <? 32) && negb (fixed_size before t =? 0) then Some (fixed_size before t)
  else if wrapu 32 t >=? 32 then Some 0
  else
    let typeBit := Z.shiftl 1 t in
    if negb (Z.land typeBit kStringSizeMask =? 0) then add_int (valuestrsize e) 4
    else if negb (Z.land typeBit kObjectSizeMask =? 0) then wraps 32 <$> objsize e
    else if t =? T.BinData then add_int (valuestrsize e) (4 + 1)
    else if t =? T.DBRef then add_int (valuestrsize e) (4 + 12)
    else if t =? T.RegEx then regex_size e
    else Some 0.

(** [BSONElement::size()]. *)
Definition size (before : Z -> Z) (e : BSONElement) : sized :=
  if totalSize e >=? 0 then Size (totalSize e)
  else
    match type e with
    | None => BadRead
    | Some t => total (value_size before t e) e
    end.

(** [BSONElement::size(int maxLen)]: the switch, with its checks against [maxLen]. *)
Definition size_max (maxLen : Z) (e : BSONElement) : sized :=
  if totalSize e >=? 0 then Size (totalSize e)
  else
    match type e, fieldNameSize e with
    | Some t, Some n =>
        let remain := maxLen - n - 1 in
        let ok := (maxLen =? -1) || (remain >? 3) in
        if bool_decide (t ∈ [T.EOO; T.Undefined; T.jstNULL; T.MaxKey; T.MinKey]) then
          total (Some 0) e
        else if t =? T.Bool then total (Some 1) e
        else if t =? T.NumberInt then total (Some 4) e
        else if bool_decide (t ∈ [T.bsonTimestamp; T.Date; T.NumberDouble; T.NumberLong]) then
          total (Some 8) e
        else if t =? T.NumberDecimal then total (Some 16) e
        else if t =? T.jstOID then total (Some 12) e
        else if bool_decide (t ∈ [T.Symbol; T.Code; T.String_]) then
          if ok then total (add_int (valuestrsize e) 4) e else MAssert 10313
        else if t =? T.CodeWScope then
          if ok then total (wraps 32 <$> objsize e) e else MAssert 10314
        else if t =? T.DBRef then
          if ok then total (add_int (valuestrsize e) (4 + 12)) e else MAssert 10315
        else if bool_decide (t ∈ [T.Object; T.Array]) then
          if ok then total (wraps 32 <$> objsize e) e else MAssert 10316
        else if t =? T.BinData then
          if ok then total (add_int (valuestrsize e) (4 + 1)) e else MAssert 10317
        else if t =? T.RegEx then
          match value_ptr e with
          | None => BadRead
          | Some p =>
              if maxLen =? -1 then total (regex_size e) e
              else
                let len1 := strnlen p remain in
                if negb (len1 <? remain) then MAssert 10318
                else
                  let x := remain - len1 - 1 in
                  let len2 := strnlen (drop (Z.to_nat (len1 + 1)) p) x in
                  if negb (len2 <? x) then MAssert 10319
                  else total (Some (wraps 32 (len1 + 1 + len2 + 1))) e
          end
        else MAssert 13655
    | _, _ => BadRead
    end.

End Elt.

(** ** Iteration and lookup *)
Module Iter.

(** [BSONObjIterator]: offsets into the object's memory. *)
Record BSONObjIterator := mkIter { _pos : Z; _theend : Z }.

Definition BSONObjIterator_new (jso : bytes) : option BSONObjIterator :=
  u ← Elt.read_u32 jso;
  let sz := wraps 32 u in
  Some (if sz =? 0 then mkIter 0 0 else mkIter 4 (sz - 1)).

Definition more (i : BSONObjIterator) : bool := _pos i <? _theend i.
Definition moreWithEOO (i : BSONObjIterator) : bool := _pos i <=? _theend i.

(** [next()]: the element at the position, its size computed and cached; [None] is a
    failed [verify] or a read outside the memory. *)
Definition next (before : Z -> Z) (jso : bytes) (i : BSONObjIterator)
    : option (Elt.BSONElement * BSONObjIterator) :=
  if negb (moreWithEOO i) then None
  else
    let e := Elt.BSONElement_new (drop (Z.to_nat (_pos i)) jso) in
    match Elt.fieldNameSize e, Elt.size before e with
    | Some n, Elt.Size sz =>
        Some (Elt.mkElt (Elt.data e) n sz, mkIter (_pos i + sz) (_theend i))
    | _, _ => None
    end.

(** The [while (i.more())] loop of [BSONObj::getField]. *)
Fixpoint getField_loop (fuel : nat) (before : Z -> Z) (en : SD.endian) (jso : bytes)
    (i : BSONObjIterator) (name : SD.StringData) : option Elt.BSONElement :=
  match fuel with
  | O => None
  | S fuel' =>
      if more i then
        match next before jso i with
        | None => None
        | Some (e, i') =>
            match Elt.fieldNameStringData e with
            | None => None
            | Some fn =>
                if SD.operator_eq en name fn then Some e
                else getField_loop fuel' before en jso i' name
            end
        end
      else Some Elt.eoo_elt
  end.

Definition getField (before : Z -> Z) (en : SD.endian) (jso : bytes) (name : SD.StringData)
    : option Elt.BSONElement :=
  match BSONObjIterator_new jso with
  | None => None
  | Some i => getField_loop (S (length jso)) before en jso i name
  end.

End Iter.

(** ** Lemmas *)

Lemma enc_value_VObject (fs : list field) : enc_value (VObject fs) = enc_obj fs.
Proof.
  unfold enc_obj, enc_fields. cbn [enc_value]. do 2 f_equal.
  apply List.map_ext. by intros [n w].
Qed.

Lemma enc_value_VArray (fs : list field) : enc_value (VArray fs) = enc_obj fs.
Proof. rewrite <- enc_value_VObject. done. Qed.

Lemma enc_value_VCodeWScope (code : bytes) (fs : list field) :
  enc_value (VCodeWScope code fs) =
    le_encode 4 (Z.of_nat (length (enc_str code ++ enc_obj fs)) + 4) ++ enc_str code ++ enc_obj fs.
Proof. rewrite <- enc_value_VObject. done. Qed.

Lemma wf_fields_doc (fs : list field) :
  List.fold_right (fun (f : bytes * value) P =>
    match f with (n, w) => name_ok n /\ wf_value w /\ P end) True fs <-> wf_doc fs.
Proof.
  unfold wf_doc. induction fs as [|[n w] fs IH]; simpl; [done|].
  rewrite IH, Forall_cons. unfold wf_field. simpl. tauto.
Qed.

Lemma wf_value_VObject (fs : list field) : wf_value (VObject fs) <-> wf_doc fs.
Proof. apply wf_fields_doc. Qed.
Lemma wf_value_VArray (fs : list field) : wf_value (VArray fs) <-> wf_doc fs.
Proof. apply wf_fields_doc. Qed.
Lemma wf_value_VCodeWScope (code : bytes) (fs : list field) :
  wf_value (VCodeWScope code fs) <-> bytes_ok code /\ wf_doc fs.
Proof. cbn [wf_value]. by rewrite wf_fields_doc. Qed.

Lemma enc_fields_cons (f : field) (fs : list field) :
  enc_fields (f :: fs) = enc_elem f ++ enc_fields fs.
Proof. done. Qed.

Lemma enc_fields_app (fs gs : list field) :
  enc_fields (fs ++ gs) = enc_fields fs ++ enc_fields gs.
Proof. unfold enc_fields. by rewrite List.map_app, List.concat_app. Qed.

Lemma length_enc_obj (fs : list field) : length (enc_obj fs) = (length (enc_fields fs) + 5)%nat.
Proof. unfold enc_obj, wrap_doc. solve_length. Qed.

Lemma length_enc_elem (f : field) :
  length (enc_elem f) = (2 + length f.1 + length (enc_value f.2))%nat.
Proof. unfold enc_elem. simpl. solve_length. Qed.

(** Type codes survive the conversion to a byte and back to a [signed char]. *)
Lemma type_byte_signed (v : value) : wraps 8 (type_byte (type_of v)) = type_of v.
Proof. by destruct v. Qed.

Lemma type_byte_not_eoo (v : value) : type_byte (type_of v) <> 0.
Proof. by destruct v. Qed.

Lemma type_byte_ok (t : Z) : byte_ok (type_byte t).
Proof. apply (wrapu_range 8). lia. Qed.

Lemma memchr_app_0 (n rest : bytes) : 0 ∉ n -> SD.memchr (n ++ 0 :: rest) 0 = Some (length n).
Proof.
  intros Hn. apply SD.memchr_Some. split.
  - by rewrite lookup_app_r, Nat.sub_diag by lia.
  - by rewrite take_app_length.
Qed.

Lemma read_u32_le_encode (n : Z) (rest : bytes) :
  0 <= n < 2 ^ 32 -> Elt.read_u32 (le_encode 4 n ++ rest) = Some n.
Proof.
  intros Hn. unfold Elt.read_u32. rewrite bool_decide_eq_true_2.
  - rewrite take_app_length' by (by rewrite length_le_encode).
    rewrite le_decode_encode. f_equal. apply Z.mod_small. lia.
  - solve_length.
Qed.

Lemma size_unfold (before : Z -> Z) (e : Elt.BSONElement) :
  Elt.totalSize e = -1 ->
  Elt.size before e =
    match Elt.type e with
    | None => Elt.BadRead
    | Some t => Elt.total (Elt.value_size before t e) e
    end.
Proof. intros H. unfold Elt.size. by rewrite H. Qed.

Section element.
Context (f : field) (rest : bytes) (Hf : wf_field f).
Let e := Elt.BSONElement_new (enc_elem f ++ rest).

Lemma elt_new : e = Elt.mkElt (enc_elem f ++ rest) (-1) (-1).
Proof.
  unfold e, Elt.BSONElement_new, enc_elem. rewrite bool_decide_eq_false_2; [done|].
  simpl. rewrite type_byte_signed. intros [=E]. by destruct (f.2).
Qed.

Lemma elt_type : Elt.type e = Some (type_of f.2).
Proof. rewrite elt_new. unfold Elt.type. simpl. by rewrite type_byte_signed. Qed.

Lemma elt_not_eoo : Elt.eoo e = false.
Proof.
  unfold Elt.eoo. rewrite elt_type. apply bool_decide_eq_false_2. intros [=E].
  by destruct (f.2).
Qed.

Lemma elt_fieldName : Elt.fieldName e = f.1 ++ 0 :: enc_value f.2 ++ rest.
Proof.
  unfold Elt.fieldName. rewrite elt_not_eoo, elt_new. unfold enc_elem. simpl.
  by rewrite drop_0, <- app_assoc.
Qed.

Lemma elt_fieldNameSize : Elt.fieldNameSize e = Some (Z.of_nat (length f.1) + 1).
Proof.
  unfold Elt.fieldNameSize. rewrite elt_new at 1. simpl. rewrite elt_fieldName.
  unfold Elt.strlen. rewrite memchr_app_0; [done|]. apply Hf.
Qed.

Lemma elt_value_ptr : Elt.value_ptr e = Some (enc_value f.2 ++ rest).
Proof.
  unfold Elt.value_ptr. rewrite elt_fieldNameSize, elt_new. simpl. f_equal.
  replace (Z.to_nat (Z.of_nat (length f.1) + 1 + 1)) with (S (S (length f.1))) by lia.
  unfold enc_elem. simpl. rewrite <- app_assoc. simpl.
  rewrite drop_app_ge by lia. by replace (S (length f.1) - length f.1)%nat with 1%nat by lia.
Qed.

Lemma elt_name : Elt.fieldNameStringData e = Some (SD.mkStringData (Some f.1)).
Proof.
  unfold Elt.fieldNameStringData. rewrite elt_not_eoo, elt_fieldNameSize, elt_fieldName.
  simpl. do 3 f_equal.
  replace (Z.to_nat (Z.of_nat (length f.1) + 1 - 1)) with (length f.1) by lia.
  apply take_app_length.
Qed.

(** [size()] of an encoded element is the length of its encoding. *)
Lemma elt_size (before : Z -> Z) :
  Z.of_nat (length (enc_elem f)) < 2 ^ 31 ->
  (type_of f.2 = T.MinKey -> before (-1) = 0) ->
  Elt.size before e = Elt.Size (Z.of_nat (length (enc_elem f))).
Proof.
  intros Hlen Hmin.
  assert (forall o x, o = Some x -> x = Z.of_nat (length (enc_value f.2)) ->
    Elt.total o e = Elt.Size (Z.of_nat (length (enc_elem f)))) as Htot.
  { intros o x -> ->. unfold Elt.total. rewrite elt_fieldNameSize. f_equal.
    rewrite length_enc_elem in *. rewrite wraps_small by lia. lia. }
  assert (forall n t, enc_value f.2 = le_encode 4 n ++ t -> 0 <= n < 2 ^ 31 ->
    Elt.objsize e = Some n /\ Elt.valuestrsize e = Some n) as Hread.
  { intros n t E Hn. unfold Elt.objsize, Elt.valuestrsize. rewrite elt_value_ptr, E.
    cbn [mbind option_bind]. rewrite <- app_assoc, read_u32_le_encode by lia.
    cbn. by rewrite wraps_small by lia. }
  assert (forall n t k, enc_value f.2 = le_encode 4 n ++ t -> 0 <= n -> 0 <= k ->
    n + k = Z.of_nat (length (enc_value f.2)) ->
    Elt.total (Elt.add_int (Elt.valuestrsize e) k) e =
      Elt.Size (Z.of_nat (length (enc_elem f)))) as Hstr.
  { intros n t k E Hn Hk Hlk. rewrite length_enc_elem in Hlen.
    destruct (Hread n t E ltac:(lia)) as [_ Hr]. eapply Htot; [by rewrite Hr|].
    rewrite wraps_small by lia. done. }
  assert (forall n t, enc_value f.2 = le_encode 4 n ++ t ->
    n = Z.of_nat (length (enc_value f.2)) ->
    Elt.total (wraps 32 <$> Elt.objsize e) e = Elt.Size (Z.of_nat (length (enc_elem f)))) as Hobj.
  { intros n t E Hn. rewrite length_enc_elem in Hlen.
    destruct (Hread n t E ltac:(lia)) as [Hr _]. eapply Htot; [by rewrite Hr|].
    rewrite wraps_small by lia. done. }
  rewrite size_unfold by (by rewrite elt_new). rewrite elt_type. clear Hread.
  pose proof elt_value_ptr as Hptr.
  assert (Z.of_nat (length (enc_value f.2)) < 2 ^ 31) as Hb
    by (rewrite length_enc_elem in Hlen; lia).
  destruct Hf as [_ Hv]. clear Hlen. clearbody e. destruct (f.2) eqn:Ev; cbn [type_of] in *.
  - apply (Htot _ 8); [reflexivity|]. cbn in Hv |- *. lia.
  - apply (Hstr (Z.of_nat (length s) + 1) (s ++ [0]) 4); [reflexivity|lia..|].
    cbn [enc_value]. unfold enc_str. solve_length.
  - eapply (Hobj (Z.of_nat (length (enc_fields fs)) + 5)); rewrite enc_value_VObject;
      [reflexivity|]. rewrite length_enc_obj. lia.
  - eapply (Hobj (Z.of_nat (length (enc_fields fs)) + 5)); rewrite enc_value_VArray;
      [reflexivity|]. rewrite length_enc_obj. lia.
  - apply (Hstr (Z.of_nat (length data)) (subtype :: data) 5); [reflexivity|lia..|].
    cbn [enc_value]. solve_length.
  - by apply (Htot _ 0).
  - apply (Htot _ 12); [reflexivity|]. cbn in Hv |- *. lia.
  - by apply (Htot _ 1).
  - by apply (Htot _ 8).
  - by apply (Htot _ 0).
  - apply (Htot _ (Z.of_nat (length pattern) + 1 + Z.of_nat (length flags) + 1)).
    + change (Elt.regex_size e = Some (Z.of_nat (length pattern) + 1 + Z.of_nat (length flags) + 1)).
      unfold Elt.regex_size, Elt.strlen. rewrite Hptr. cbn [mbind option_bind enc_value].
      cbn in Hv. destruct Hv as [[_ Hp] [_ Hfl]].
      rewrite <- !app_assoc. simpl app. rewrite memchr_app_0 by done. cbn [fmap option_fmap option_map].
      cbn [mbind option_bind].
      replace (Z.to_nat (Z.of_nat (length pattern) + 1)) with (length pattern + 1)%nat by lia.
      rewrite <- drop_drop, drop_app_length. simpl. rewrite drop_0, memchr_app_0 by done. simpl.
      cbn [enc_value] in Hb. rewrite !length_app in Hb. simpl length in Hb.
      rewrite wraps_small by lia. done.
    + cbn [enc_value]. solve_length.
  - apply (Hstr (Z.of_nat (length ns) + 1) ((ns ++ [0]) ++ oid) 16).
    + cbn [enc_value]. unfold enc_str. by rewrite <- !app_assoc.
    + lia.
    + lia.
    + cbn [enc_value]. unfold enc_str. rewrite !length_app, length_le_encode.
      destruct Hv as (_ & _ & ->). simpl. lia.
  - apply (Hstr (Z.of_nat (length code) + 1) (code ++ [0]) 4); [reflexivity|lia..|].
    cbn [enc_value]. unfold enc_str. solve_length.
  - apply (Hstr (Z.of_nat (length s) + 1) (s ++ [0]) 4); [reflexivity|lia..|].
    cbn [enc_value]. unfold enc_str. solve_length.
  - eapply (Hobj (Z.of_nat (length (enc_str code ++ enc_obj scope)) + 4));
      rewrite enc_value_VCodeWScope; [reflexivity|].
    rewrite (length_app (le_encode _ _)), length_le_encode. lia.
  - by apply (Htot _ 4).
  - by apply (Htot _ 8).
  - by apply (Htot _ 8).
  - apply (Htot _ 16); [reflexivity|]. cbn in Hv |- *. lia.
  - apply (Htot _ 0); [|done]. unfold Elt.value_size, Elt.fixed_size.
    change (T.MinKey <? 0) with true. cbn match. change T.MinKey with (-1).
    by rewrite Hmin by done.
  - by apply (Htot _ 0).
Qed.
End element.

(** ** The builder writes the wire format *)

(** The append method for each kind of value. *)
Definition append_field (b : Builder.BSONObjBuilder) (f : field) : Builder.BSONObjBuilder :=
  let n := f.1 in
  match f.2 with
  | VDouble raw => Builder.append_double b n raw
  | VString s => Builder.append_str b n s
  | VObject fs => Builder.append_obj b n (enc_obj fs)
  | VArray fs => Builder.appendArray b n (enc_obj fs)
  | VBinData subtype data => Builder.appendBinData b n (Z.of_nat (length data)) subtype data
  | VUndefined => Builder.appendUndefined b n
  | VOID raw => Builder.append_oid b n raw
  | VBool v => Builder.append_bool b n v
  | VDate millis => Builder.appendDate b n millis
  | VNull => Builder.appendNull b n
  | VRegEx p fl => Builder.appendRegex b n p fl
  | VDBRef ns oid => Builder.appendDBRef b n ns oid
  | VCode code => Builder.appendCode b n code
  | VSymbol s => Builder.appendSymbol b n s
  | VCodeWScope code scope => Builder.appendCodeWScope b n code (enc_obj scope)
  | VInt z => Builder.append_int b n z
  | VTimestamp z => Builder.appendTimestamp b n z
  | VLong z => Builder.append_ll b n z
  | VDecimal raw => Builder.append_decimal b n raw
  | VMinKey => Builder.appendMinKey b n
  | VMaxKey => Builder.appendMaxKey b n
  end.

Definition build (junk : bytes) (fs : list field) : bytes :=
  Builder.obj (foldl append_field (Builder.BSONObjBuilder_new junk) fs).

Create HintDb builder.
#[export] Hint Unfold Builder.append_double Builder.append_str Builder.append_obj
  Builder.appendArray Builder.appendBinData Builder.appendUndefined Builder.append_oid
  Builder.append_bool Builder.appendDate Builder.appendNull Builder.appendRegex
  Builder.appendDBRef Builder.appendCode Builder.appendSymbol Builder.appendCodeWScope
  Builder.append_int Builder.appendTimestamp Builder.append_ll Builder.append_decimal
  Builder.appendMinKey Builder.appendMaxKey Builder.header Builder.appendStr
  Builder.appendChar Builder.appendInt Builder.appendLL Builder.str_len type_byte enc_str
  : builder.

Lemma appendBuf_appendBuf (b : Builder.BSONObjBuilder) (l1 l2 : bytes) :
  Builder.appendBuf (Builder.appendBuf b l1) l2 = Builder.appendBuf b (l1 ++ l2).
Proof. unfold Builder.appendBuf. simpl. by rewrite app_assoc. Qed.

Lemma append_field_enc (b : Builder.BSONObjBuilder) (f : field) :
  wf_field f -> append_field b f = Builder.appendBuf b (enc_elem f).
Proof.
  intros [_ Hv]. destruct f as [n v]. cbn [snd fst] in *.
  unfold append_field, enc_elem. cbn [snd fst].
  destruct v; cbn [type_of] in *;
    rewrite ?enc_value_VObject, ?enc_value_VArray, ?enc_value_VCodeWScope; cbn [enc_value];
    autounfold with builder; cbv zeta; rewrite !appendBuf_appendBuf; f_equal;
    rewrite <- ?app_assoc; try done.
  - rewrite Nat2Z.id, firstn_all. destruct Hv as [Hs _]. unfold byte_ok in Hs.
    by rewrite (wrapu_small 8 subtype) by lia.
  - by destruct b0.
  - rewrite (length_app (le_encode _ _)), length_le_encode, !length_app. cbn [length app].
    do 4 f_equal. f_equal. lia.
Qed.

Lemma foldl_append_field (b : Builder.BSONObjBuilder) (fs : list field) :
  wf_doc fs -> foldl append_field b fs = Builder.appendBuf b (enc_fields fs).
Proof.
  intros Hwf. revert b. induction Hwf as [|f fs Hf Hfs IH]; intros b; simpl.
  - destruct b. unfold Builder.appendBuf. simpl. by rewrite app_nil_r.
  - by rewrite append_field_enc, IH, appendBuf_appendBuf.
Qed.

(** Building a document with the append methods of [BSONObjBuilder] and
    finishing it yields exactly its wire format, whatever the four skipped bytes
    held: in particular the length prefix that [_done] writes is the object's length. *)
Lemma builder_writes_document (junk : bytes) (fs : list field) :
  (4 <= length junk)%nat -> wf_doc fs -> build junk fs = enc_obj fs.
Proof.
  intros Hj Hwf. unfold build, Builder.obj. rewrite foldl_append_field by done.
  unfold Builder._done, Builder.write_int, enc_obj, wrap_doc, Builder.appendChar.
  cbn [Builder.appendBuf Builder._b Builder._offset Builder._doneCalled
    Builder.BSONObjBuilder_new Nat.add].
  rewrite drop_0, take_0, app_nil_l, <- app_assoc, drop_app_length' by (solve_length).
  rewrite !length_app, length_take. f_equal. f_equal. cbn [length]. lia.
Qed.

Lemma builder_writes_document_witness :
  build [9; 9; 9; 9] [(lit "a", VInt 1); (lit "b", VString (lit "x"))] =
    enc_obj [(lit "a", VInt 1); (lit "b", VString (lit "x"))].
Proof.
  apply builder_writes_document; [simpl; lia|]. solve_wf.
Defined.

(** ** Element sizes *)

(** The table-driven [size()] agrees with the switch of [size(int)] on every
    valid type but [MinKey]. For [MinKey], whose code is -1, the table lookup reads
    the byte before the table, and the two agree only when that byte is zero. On an
    invalid type the switch raises assertion 13655 where [size()] counts no value. *)
Theorem size_table_agrees (before : Z -> Z) (e : Elt.BSONElement) (t : Z) :
  Elt.type e = Some t -> Elt.totalSize e = -1 -> is_Some (Elt.fieldNameSize e) ->
  (T.isValidBSONType t = true -> t <> T.MinKey ->
     Elt.size before e = Elt.size_max (-1) e) /\
  (t = T.MinKey -> Elt.size before e = Elt.total (Some (before (-1))) e /\
     Elt.size_max (-1) e = Elt.total (Some 0) e) /\
  (T.isValidBSONType t = false -> 0 <= t ->
     Elt.size before e = Elt.total (Some 0) e /\ Elt.size_max (-1) e = Elt.MAssert 13655).
Proof.
  intros Ht Hs [n Hn]. rewrite (size_unfold before e Hs), Ht.
  unfold Elt.size_max. rewrite Hs, Ht, Hn. change (-1 >=? 0) with false. cbn match.
  split; [|split].
  - intros Hv Hm. apply bool_decide_eq_true in Hv. unfold T.all_types in Hv.
    rewrite !elem_of_cons, elem_of_nil in Hv.
    destruct Hv as [->|Hv]; [done|].
    repeat (destruct Hv as [->|Hv]; [try reflexivity|]); [|done].
    unfold Elt.total. rewrite Hn.
    change (match Elt.regex_size e with Some x => Elt.Size (wraps 32 (x + n + 1)) | None => Elt.BadRead end
      = match Elt.value_ptr e with Some _ =>
          match Elt.regex_size e with Some x => Elt.Size (wraps 32 (x + n + 1)) | None => Elt.BadRead end
        | None => Elt.BadRead end).
    unfold Elt.regex_size. by destruct (Elt.value_ptr e).
  - intros ->. split; [|reflexivity]. unfold Elt.value_size, Elt.fixed_size.
    change (T.MinKey <? 0) with true. change (T.MinKey <? 32) with true.
    change T.MinKey with (-1). cbn [andb].
    destruct (Z.eqb_spec (before (-1)) 0) as [E|E]; simpl; [|done]. by rewrite E.
  - intros Hv H0. apply bool_decide_eq_false in Hv.
    assert (-128 <= t < 128) as Hr.
    { unfold Elt.type in Ht. destruct (head (Elt.data e)); [|done]. injection Ht as <-.
      apply (wraps_range 8). lia. }
    assert (t ∉ T.all_types /\ 0 <= t < 128) as [Hn' Hr'] by (split; [done|lia]).
    assert (Forall (fun t => t ∈ T.all_types \/
      Elt.value_size before t e = Some 0) (seqZ 0 128)) as Hall.
    { repeat (constructor; [by (right; reflexivity) || (left; apply (bool_decide_unpack _); vm_compute; exact I)|]).
      constructor. }
    rewrite Forall_forall in Hall. specialize (Hall t). rewrite elem_of_seqZ in Hall.
    destruct Hall as [?| ->]; [lia|done|]. split; [done|].
    unfold T.all_types in Hn'. rewrite !not_elem_of_cons in Hn'.
    destruct_and!.
    repeat ((rewrite bool_decide_eq_false_2 by (rewrite !not_elem_of_cons; split_and!; done))
      || match goal with H : t ≠ ?c |- context [t =? ?c] => rewrite (proj2 (Z.eqb_neq t c) H) end).
    done.
Qed.

Lemma size_table_agrees_witness :
  Elt.size (fun _ => 7) (Elt.BSONElement_new (enc_elem (lit "m", VMinKey) ++ [0])) =
    Elt.total (Some 7) (Elt.BSONElement_new (enc_elem (lit "m", VMinKey) ++ [0])).
Proof.
  apply (size_table_agrees (fun _ => 7) _ (-1)); [reflexivity|reflexivity| |reflexivity].
  vm_compute. eexists. reflexivity.
Defined.

(** ** Lookup *)

Definition no_stray_read (before : Z -> Z) (fs : list field) : Prop :=
  before (-1) = 0 \/ Forall (fun f => type_of f.2 <> T.MinKey) fs.

(** The element [getField] returns: the first field of that name, at its offset. *)
Definition field_elt (jso : bytes) (fs : list field) (name : bytes) : Elt.BSONElement :=
  match list_find (fun f : field => f.1 = name) fs with
  | Some (i, f) =>
      Elt.mkElt (drop (4 + length (enc_fields (take i fs))) jso)
        (Z.of_nat (length f.1) + 1) (Z.of_nat (length (enc_elem f)))
  | None => Elt.eoo_elt
  end.

Lemma enc_obj_split (pre : list field) (f : field) (post : list field) (rest : bytes) :
  drop (4 + length (enc_fields pre)) (enc_obj (pre ++ f :: post) ++ rest) =
    enc_elem f ++ enc_fields post ++ [0] ++ rest.
Proof.
  unfold enc_obj, wrap_doc. rewrite enc_fields_app, enc_fields_cons, <- !app_assoc.
  rewrite <- drop_drop, drop_app_length' by (by rewrite length_le_encode).
  by rewrite drop_app_length.
Qed.

Lemma next_elem (before : Z -> Z) (pre : list field) (f : field) (post : list field)
    (rest : bytes) (jso := enc_obj (pre ++ f :: post) ++ rest) :
  wf_field f -> Z.of_nat (length (enc_obj (pre ++ f :: post))) < 2 ^ 31 ->
  (type_of f.2 = T.MinKey -> before (-1) = 0) ->
  let theend := Z.of_nat (length (enc_obj (pre ++ f :: post))) - 1 in
  Iter.next before jso (Iter.mkIter (4 + Z.of_nat (length (enc_fields pre))) theend) =
    Some (Elt.mkElt (drop (4 + length (enc_fields pre)) jso)
            (Z.of_nat (length f.1) + 1) (Z.of_nat (length (enc_elem f))),
          Iter.mkIter (4 + Z.of_nat (length (enc_fields (pre ++ [f])))) theend).
Proof.
  intros Hf Hlen Hmin theend.
  rewrite length_enc_obj, enc_fields_app, enc_fields_cons, !length_app in Hlen.
  unfold Iter.next, Iter.moreWithEOO. cbn [Iter._pos Iter._theend].
  destruct (Z.leb_spec (4 + Z.of_nat (length (enc_fields pre))) theend) as [_|Hlt].
  2:{ unfold theend in Hlt.
      rewrite length_enc_obj, enc_fields_app, enc_fields_cons, !length_app in Hlt. lia. }
  cbn [negb]. replace (Z.to_nat (4 + Z.of_nat (length (enc_fields pre))))
    with (4 + length (enc_fields pre))%nat by lia.
  unfold jso. rewrite enc_obj_split.
  rewrite elt_fieldNameSize by done. rewrite elt_size by (done || lia).
  rewrite elt_new. cbn [Elt.data]. do 3 f_equal.
  rewrite enc_fields_app, enc_fields_cons, !length_app. cbn. lia.
Qed.

Lemma getField_loop_spec (before : Z -> Z) (en : SD.endian) (rest name : bytes) (fs : list field) :
  wf_doc fs -> bytes_ok name -> Z.of_nat (length (enc_obj fs)) < 2 ^ 31 ->
  no_stray_read before fs ->
  let jso := enc_obj fs ++ rest in
  let theend := Z.of_nat (length (enc_obj fs)) - 1 in
  forall post pre fuel, fs = pre ++ post -> (length post < fuel)%nat ->
  Forall (fun f : field => f.1 <> name) pre ->
  Iter.getField_loop fuel before en jso
    (Iter.mkIter (4 + Z.of_nat (length (enc_fields pre))) theend)
    (SD.mkStringData (Some name)) = Some (field_elt jso fs name).
Proof.
  intros Hwf Hname Hlen Hst jso theend post.
  induction post as [|f post IH]; intros pre fuel -> Hfuel Hpre;
    (destruct fuel as [|fuel]; [lia|]); cbn [Iter.getField_loop]; unfold Iter.more;
    cbn [Iter._pos Iter._theend].
  { unfold theend. rewrite app_nil_r in *. rewrite length_enc_obj.
    destruct (Z.ltb_spec (4 + Z.of_nat (length (enc_fields pre)))
      (Z.of_nat (length (enc_fields pre) + 5) - 1)); [lia|].
    unfold field_elt. destruct (list_find _ pre) as [[i f]|] eqn:E; [|done].
    apply list_find_Some in E as (Hi & Hf & _). rewrite Forall_lookup in Hpre.
    by destruct (Hpre i f). }
  assert (wf_field f) as Hf.
  { unfold wf_doc in Hwf. rewrite Forall_app, Forall_cons in Hwf. apply Hwf. }
  assert (length (enc_obj (pre ++ f :: post)) = length (enc_fields pre) + length (enc_elem f) +
    length (enc_fields post) + 5)%nat as Hl.
  { rewrite length_enc_obj, enc_fields_app, enc_fields_cons, !length_app. lia. }
  assert (0 < length (enc_elem f))%nat by (rewrite length_enc_elem; lia).
  destruct (Z.ltb_spec (4 + Z.of_nat (length (enc_fields pre))) theend); [|unfold theend in *; lia].
  unfold jso, theend. rewrite next_elem; [|done|done|].
  2:{ intros Hm. destruct Hst as [?|Hst]; [done|]. rewrite Forall_app, Forall_cons in Hst.
      by destruct Hst as (_ & ? & _). }
  assert (Elt.fieldNameStringData (Elt.mkElt (drop (4 + length (enc_fields pre))
    (enc_obj (pre ++ f :: post) ++ rest)) (Z.of_nat (length f.1) + 1)
    (Z.of_nat (length (enc_elem f)))) = Some (SD.mkStringData (Some f.1))) as Hfn.
  { pose proof (elt_name f (enc_fields post ++ [0] ++ rest) Hf) as Hfn.
    pose proof (elt_fieldNameSize f (enc_fields post ++ [0] ++ rest) Hf) as Hfs.
    rewrite elt_new in Hfn, Hfs by done. rewrite enc_obj_split.
    unfold Elt.fieldNameStringData in *. rewrite Hfs in Hfn. rewrite <- Hfn.
    unfold Elt.fieldNameSize. cbn [Elt.fieldNameSize_].
    destruct (Z.eqb_spec (Z.of_nat (length f.1) + 1) (-1)); [lia|]. done. }
  rewrite Hfn.
  destruct (SD.operator_eq en _ _) eqn:Eq.
  - apply SD.operator_eq_spec in Eq; [|done|by apply Hf]. cbn in Eq. subst name.
    unfold field_elt. rewrite list_find_app_r by (by apply list_find_None).
    cbn [list_find]. rewrite decide_True by done. cbn. by rewrite take_app_length.
  - assert (f.1 <> name) as Hne.
    { intros E. assert (SD.operator_eq en (SD.mkStringData (Some name))
        (SD.mkStringData (Some f.1)) = true) as E'; [|congruence].
      apply SD.operator_eq_spec; [done|by apply Hf|by rewrite E]. }
    apply IH; [by rewrite <- app_assoc|simpl in Hfuel; lia|].
    rewrite Forall_app, Forall_singleton. done.
Qed.

Lemma getField_doc (before : Z -> Z) (en : SD.endian) (fs : list field) (rest name : bytes) :
  wf_doc fs -> bytes_ok name -> Z.of_nat (length (enc_obj fs)) < 2 ^ 31 ->
  no_stray_read before fs ->
  Iter.getField before en (enc_obj fs ++ rest) (SD.mkStringData (Some name)) =
    Some (field_elt (enc_obj fs ++ rest) fs name).
Proof.
  intros Hwf Hname Hlen Hst. unfold Iter.getField, Iter.BSONObjIterator_new.
  unfold enc_obj at 1, wrap_doc. rewrite <- app_assoc.
  rewrite length_enc_obj in Hlen. rewrite read_u32_le_encode by lia.
  cbn [mbind option_bind]. rewrite wraps_small by lia.
  destruct (Z.eqb_spec (Z.of_nat (length (enc_fields fs)) + 5) 0); [lia|].
  replace (Z.of_nat (length (enc_fields fs)) + 5 - 1)
    with (Z.of_nat (length (enc_obj fs)) - 1) by (rewrite length_enc_obj; lia).
  apply (getField_loop_spec before en rest name fs Hwf Hname
    ltac:(rewrite length_enc_obj; lia) Hst fs []); [done| |done].
  rewrite length_app, length_enc_obj.
  assert (length fs <= length (enc_fields fs))%nat; [|lia].
  clear. induction fs as [|f fs IH]; [done|]. rewrite enc_fields_cons, length_app, length_enc_elem.
  simpl. lia.
Qed.

(** On the bytes of a well-formed document, [BSONObj::getField] terminates and
    returns the first field of the given name, at its offset in the object, and EOO
    when there is none; it reads nothing outside the object unless a [MinKey] field
    makes [size()] read before its table. *)
Theorem getField_first (before : Z -> Z) (en : SD.endian) (fs : list field) (rest name : bytes) :
  wf_doc fs -> bytes_ok name -> Z.of_nat (length (enc_obj fs)) < 2 ^ 31 ->
  no_stray_read before fs ->
  Iter.getField before en (enc_obj fs ++ rest) (SD.mkStringData (Some name)) =
    Some (field_elt (enc_obj fs ++ rest) fs name).
Proof. apply getField_doc. Qed.

Lemma getField_first_witness :
  Iter.getField (fun _ => 0) SD.LittleEndian
    (enc_obj [(lit "a", VInt 1); (lit "b", VNull); (lit "b", VInt 2)]) (SD.mkStringData (Some (lit "b"))) =
  Some (field_elt (enc_obj [(lit "a", VInt 1); (lit "b", VNull); (lit "b", VInt 2)])
    [(lit "a", VInt 1); (lit "b", VNull); (lit "b", VInt 2)] (lit "b")).
Proof.
  pose proof (getField_first (fun _ => 0) SD.LittleEndian
    [(lit "a", VInt 1); (lit "b", VNull); (lit "b", VInt 2)] [] (lit "b")) as H.
  rewrite app_nil_r in H. apply H; [solve_wf|solve_wf|vm_compute; reflexivity|left; reflexivity].
Defined.
