(* ===== verification/BsonValidate.v ===== *)
(** * BSON validation

    The iterative validator of [bson/bson_validate.cpp]: the bounded [Buffer] reader,
    the frame stack with its flag packed into the sign bit of the start position, the
    state machine, and the entry point. Positions are 64-bit and lengths 32-bit, as in
    the source. Reads outside the buffer are the outcome [Fault] and the loop runs on
    fuel computed from [maxLength], so that memory safety and termination are theorems:
    the validator accepts exactly the encodings of well-formed documents, and the [_id]
    element an error message prints has been validated in full before. *)
From stdpp Require Import relations.
From S2P Require Import Prelude StringData Bson.

Module Validate.

(** The text after the base message: none, "unknown _id", or the printed element. *)
Inductive subject := NoSubject | UnknownId | WithId (e : Elt.BSONElement).
Inductive Status := OK | InvalidBSON (msg : string) (s : subject).

Inductive BSONVersion := kV1_0 | kV1_1.

Definition makeError (baseMsg : string) (idElem : Elt.BSONElement) : Status :=
  InvalidBSON baseMsg (if Elt.eoo idElem then UnknownId else WithId idElem).

(** ** Buffer *)

Record Buffer := mkBuffer {
  _buffer : bytes;
  _position : Z;
  _maxLength : Z;
  _idElem : Elt.BSONElement;
  _version : BSONVersion }.

Definition Buffer_new (buffer : bytes) (maxLength : Z) (version : BSONVersion) : Buffer :=
  mkBuffer buffer 0 maxLength Elt.eoo_elt version.

Definition set_position (b : Buffer) (p : Z) : Buffer :=
  mkBuffer (_buffer b) p (_maxLength b) (_idElem b) (_version b).
Definition setIdElem (b : Buffer) (e : Elt.BSONElement) : Buffer :=
  mkBuffer (_buffer b) (_position b) (_maxLength b) e (_version b).

(** [n] bytes of memory at offset [p]. *)
Definition mem_read (m : bytes) (p : Z) (n : nat) : option bytes :=
  let l := take n (drop (Z.to_nat p) m) in
  if bool_decide (length l = n) then Some l else None.

(** [readNumber] of an [n]-byte type: [None] is the return value [false]. *)
Definition readNumber (n : nat) (b : Buffer) : outcome Status (option bytes * Buffer) :=
  if wrapu 64 (_position b + Z.of_nat n) >? _maxLength b then Ret (None, b)
  else
    match mem_read (_buffer b) (_position b) n with
    | None => Fault
    | Some l => Ret (Some l, set_position b (wrapu 64 (_position b + Z.of_nat n)))
    end.

Definition skip (sz : Z) (b : Buffer) : bool * Buffer :=
  let p := wrapu 64 (_position b + wrapu 64 sz) in
  (p <? _maxLength b, set_position b p).

(** The string before the null byte; [memchr] reads no byte after the first match. *)
Definition readCString (b : Buffer) : outcome Status (bytes * Buffer) :=
  let n := wrapu 64 (_maxLength b - _position b) in
  let window := take (Z.to_nat n) (drop (Z.to_nat (_position b)) (_buffer b)) in
  match SD.memchr window 0 with
  | Some len =>
      Ret (take len window, set_position b (wrapu 64 (_position b + (Z.of_nat len + 1))))
  | None =>
      if Z.of_nat (length window) <? n then Fault
      else Throw (makeError "no end of c-string" (_idElem b))
  end.

Definition readUTF8String (b : Buffer) : outcome Status Buffer :=
  r ← readNumber 4 b;
  let '(o, b) := r in
  raw ← need (makeError "invalid bson" (_idElem b)) o;
  let sz := wraps 32 (le_decode raw) in
  if sz <=? 0 then Throw (makeError "invalid bson" (_idElem b))
  else
    let '(ok, b) := skip (sz - 1) b in
    _ ← require (makeError "invalid bson" (_idElem b)) ok;
    r ← readNumber 1 b;
    let '(o, b) := r in
    c ← need (makeError "invalid bson" (_idElem b)) o;
    if negb (le_decode c =? 0) then Throw (makeError "not null terminated string" (_idElem b))
    else Ret b.

(** ** ValidationObjectFrame *)

Inductive State := BeginObj | WithinObj | EndObj | BeginCodeWScope | EndCodeWScope | Done.
#[export] Instance State_eq_dec : EqDecision State.
Proof. solve_decision. Defined.

Record ValidationObjectFrame := mkFrame { expectedSize : Z; _startPosition : Z }.

(** [1 << 31] as an [int]. *)
Definition sign_bit : Z := - 2 ^ 31.

Definition startPosition (f : ValidationObjectFrame) : Z :=
  Z.land (_startPosition f) (Z.lnot sign_bit).
Definition isCodeWithScope (f : ValidationObjectFrame) : bool :=
  negb (Z.land (_startPosition f) sign_bit =? 0).
Definition setStartPosition (pos : Z) (f : ValidationObjectFrame) : ValidationObjectFrame :=
  mkFrame (expectedSize f)
    (Z.lor (Z.land (_startPosition f) sign_bit) (Z.land (wraps 32 pos) (Z.lnot sign_bit))).
Definition setIsCodeWithScope (b : bool) (f : ValidationObjectFrame) : ValidationObjectFrame :=
  mkFrame (expectedSize f)
    (if b then Z.lor (_startPosition f) sign_bit else Z.land (_startPosition f) (Z.lnot sign_bit)).
Definition set_expectedSize (n : Z) (f : ValidationObjectFrame) : ValidationObjectFrame :=
  mkFrame n (_startPosition f).

(** [frames.push_back(ValidationObjectFrame())] followed by the two setters. *)
Definition new_frame (pos : Z) (cws : bool) : ValidationObjectFrame :=
  setIsCodeWithScope cws (setStartPosition pos (mkFrame 0 0)).

(** ** validateElementInfo *)

(** A [skip] that must succeed, then the successful return of the element. *)
Definition skip_or (s : Status) (sz : Z) (nextState : State) (elemName : bytes) (b : Buffer)
    : outcome Status (Buffer * State * bytes) :=
  let '(ok, b) := skip sz b in
  _ ← require s ok; Ret (b, nextState, elemName).

Definition kDecimalMsg : string :=
  "Cannot use decimal BSON type when the featureCompatibilityVersion is 3.2. See http://dochub.mongodb.org/core/3.4-feature-compatibility.".

(** The switch on the type, after the field name. *)
Definition validateValue (type : Z) (nextState : State) (idElem : Elt.BSONElement)
    (elemName : bytes) (b : Buffer) : outcome Status (Buffer * State * bytes) :=
  if bool_decide (type ∈ [T.MinKey; T.MaxKey; T.jstNULL; T.Undefined]) then
    Ret (b, nextState, elemName)
  else if type =? T.jstOID then skip_or (makeError "invalid bson" idElem) 12 nextState elemName b
  else if type =? T.NumberInt then skip_or (makeError "invalid bson" idElem) 4 nextState elemName b
  else if type =? T.Bool then
    r ← readNumber 1 b;
    let '(o, b) := r in
    val ← need (makeError "invalid bson" idElem) o;
    if negb (le_decode val =? 0) && negb (le_decode val =? 1) then
      Throw (makeError "invalid boolean value" idElem)
    else Ret (b, nextState, elemName)
  else if bool_decide (type ∈ [T.NumberDouble; T.NumberLong; T.bsonTimestamp; T.Date]) then
    skip_or (makeError "invalid bson" idElem) 8 nextState elemName b
  else if type =? T.NumberDecimal then
    match _version b with
    | kV1_0 => Throw (InvalidBSON kDecimalMsg NoSubject)
    | _ => skip_or (makeError "Invalid bson" idElem) 16 nextState elemName b
    end
  else if type =? T.DBRef then
    b ← readUTF8String b;
    skip_or (makeError "invalid bson length" idElem) 12 nextState elemName b
  else if type =? T.RegEx then
    r ← readCString b; let '(_, b) := r in
    r ← readCString b; let '(_, b) := r in
    Ret (b, nextState, elemName)
  else if bool_decide (type ∈ [T.Code; T.Symbol; T.String_]) then
    b ← readUTF8String b; Ret (b, nextState, elemName)
  else if type =? T.BinData then
    r ← readNumber 4 b;
    let '(o, b) := r in
    raw ← need (makeError "invalid bson" idElem) o;
    let sz := wraps 32 (le_decode raw) in
    if (sz <? 0) || (sz =? 2 ^ 31 - 1) then Throw (makeError "invalid size in bson" idElem)
    else skip_or (makeError "invalid bson" idElem) (1 + sz) nextState elemName b
  else if type =? T.CodeWScope then Ret (b, BeginCodeWScope, elemName)
  else if bool_decide (type ∈ [T.Object; T.Array]) then Ret (b, BeginObj, elemName)
  else Throw (makeError "invalid bson type" idElem).

(** The element name stays empty for EOO. *)
Definition validateElementInfo (b : Buffer) (nextState : State) (idElem : Elt.BSONElement)
    : outcome Status (Buffer * State * bytes) :=
  r ← readNumber 1 b;
  let '(o, b) := r in
  raw ← need (makeError "invalid bson" idElem) o;
  let type := wraps 8 (le_decode raw) in
  if type =? T.EOO then Ret (b, EndObj, [])
  else
    r ← readCString b;
    let '(elemName, b) := r in
    validateValue type nextState idElem elemName b.

(** ** validateBSONIterative *)

(** The locals of the loop. The back of [frames] is the head of the list, and [curr]
    points to it. *)
Record vstate := mkState {
  frames : list ValidationObjectFrame;
  state : State;
  idElemStartPos : Z;
  idElem : Elt.BSONElement;
  buf : Buffer }.

Definition at_top_level (s : vstate) : bool := bool_decide (length (frames s) = 1%nat).

(** At the start of the next top-level element, a pending [_id] element has been
    validated and becomes [idElem]. *)
Definition finish_id (s : vstate) : vstate :=
  if at_top_level s && negb (idElemStartPos s =? 0) then
    let e := Elt.BSONElement_new (drop (Z.to_nat (idElemStartPos s)) (_buffer (buf s))) in
    mkState (frames s) (state s) 0 e (setIdElem (buf s) e)
  else s.

(** The body of [case WithinObj]. *)
Definition within_obj (en : SD.endian) (s : vstate) : outcome Status vstate :=
  let atTopLevel := at_top_level s in
  let s := finish_id s in
  let elemStartPos := _position (buf s) in
  r ← validateElementInfo (buf s) WithinObj (idElem s);
  let '(b, nextState, elemName) := r in
  let start :=
    if match nextState with EndObj => false | _ => true end && Elt.eoo (idElem s) && atTopLevel
       && SD.operator_eq en (SD.mkStringData (Some elemName)) (SD.mkStringData (Some (lit "_id")))
    then elemStartPos else idElemStartPos s in
  Ret (mkState (frames s) nextState start (idElem s) b).

(** [buffer->position() - curr->startPosition()] as an [int]. *)
Definition actualLength (s : vstate) (curr : ValidationObjectFrame) : Z :=
  wraps 32 (_position (buf s) - startPosition curr).

Definition push_frame (s : vstate) (cws : bool) (msg : string) : outcome Status vstate :=
  let curr := new_frame (_position (buf s)) cws in
  r ← readNumber 4 (buf s);
  let '(o, b) := r in
  raw ← need (makeError msg (idElem s)) o;
  Ret (mkState (set_expectedSize (wraps 32 (le_decode raw)) curr :: frames s)
         WithinObj (idElemStartPos s) (idElem s) b).

(** One iteration of the loop. *)
Definition step (en : SD.endian) (s : vstate) : outcome Status vstate :=
  match state s with
  | BeginObj =>
      s ← push_frame s false "bson size is larger than buffer size";
      within_obj en s
  | WithinObj => within_obj en s
  | EndObj =>
      match frames s with
      | [] => Fault
      | curr :: fr =>
          if negb (actualLength s curr =? expectedSize curr) then
            Throw (makeError "bson length doesn't match what we found" (idElem s))
          else
            let next :=
              match fr with
              | [] => Done
              | curr :: _ => if isCodeWithScope curr then EndCodeWScope else WithinObj
              end in
            Ret (mkState fr next (idElemStartPos s) (idElem s) (buf s))
      end
  | BeginCodeWScope =>
      s ← push_frame s true "invalid bson CodeWScope size";
      b ← readUTF8String (buf s);
      Ret (mkState (frames s) BeginObj (idElemStartPos s) (idElem s) b)
  | EndCodeWScope =>
      match frames s with
      | [] => Fault
      | curr :: fr =>
          if negb (actualLength s curr =? expectedSize curr) then
            Throw (makeError "bson length for CodeWScope doesn't match what we found" (idElem s))
          else
            match fr with
            | [] => Throw (makeError "unnested CodeWScope" (idElem s))
            | _ => Ret (mkState fr WithinObj (idElemStartPos s) (idElem s) (buf s))
            end
      end
  | Done => Fault
  end.

Fixpoint loop (en : SD.endian) (fuel : nat) (s : vstate) : outcome Status Status :=
  match state s with
  | Done => Ret OK
  | _ =>
      match fuel with
      | O => NoFuel
      | S fuel => s ← step en s; loop en fuel s
      end
  end.

(** Every iteration shrinks [4 * (maxLength - position) + 2 * frames], see [step_measure]. *)
Definition validateBSONIterative (en : SD.endian) (b : Buffer) : outcome Status Status :=
  loop en (S (Z.to_nat (4 * _maxLength b))) (mkState [] BeginObj 0 Elt.eoo_elt b).

Definition validateBSON (en : SD.endian) (originalBuffer : bytes) (maxLength : Z)
    (version : BSONVersion) : outcome Status Status :=
  if maxLength <? 5 then Throw (InvalidBSON "bson data has to be at least 5 bytes" NoSubject)
  else validateBSONIterative en (Buffer_new originalBuffer maxLength version).

(** ** What the validator decides *)

Fixpoint has_decimal (v : value) : bool :=
  match v with
  | VDecimal _ => true
  | VObject fs | VArray fs | VCodeWScope _ fs =>
      List.existsb (fun f : bytes * value => has_decimal f.2) fs
  | _ => false
  end.

(** A value of the format, without decimals where the version has none. *)
Definition valid_value (ver : BSONVersion) (v : value) : Prop :=
  wf_value v /\ (ver = kV1_0 -> has_decimal v = false).
Definition valid_field (ver : BSONVersion) (f : field) : Prop :=
  name_ok f.1 /\ valid_value ver f.2.
Definition valid_doc (ver : BSONVersion) (fs : list field) : Prop := Forall (valid_field ver) fs.

Definition nested (v : value) : bool :=
  match v with VObject _ | VArray _ | VCodeWScope _ _ => true | _ => false end.

(** The top-level [_id] element an error may print: fully validated bytes of [m]. *)
Definition id_validated (m : bytes) (e : Elt.BSONElement) : Prop :=
  exists p v rest, drop p m = enc_elem (lit "_id", v) ++ rest /\ wf_value v /\
    e = Elt.BSONElement_new (drop p m).
Definition id_elem_ok (m : bytes) (e : Elt.BSONElement) : Prop :=
  e = Elt.eoo_elt \/ id_validated m e.

Definition status_ok (m : bytes) (s : Status) : Prop :=
  match s with
  | OK => False
  | InvalidBSON _ (WithId e) => id_validated m e
  | _ => True
  end.

(** The outcome is a result in [Q] or an error that is safe to print; there was no
    read outside the buffer. *)
Definition wp {A : Type} (m : bytes) (o : outcome Status A) (Q : A -> Prop) : Prop :=
  match o with
  | Ret a => Q a
  | Throw s => status_ok m s
  | Fault | NoFuel => False
  end.

Lemma wp_bind {A B : Type} (m : bytes) (o : outcome Status A) (k : A -> outcome Status B) (Q : B -> Prop) :
  wp m o (fun a => wp m (k a) Q) -> wp m (o ≫= k) Q.
Proof. by destruct o. Qed.

Lemma wp_mono {A : Type} (m : bytes) (o : outcome Status A) (Q Q' : A -> Prop) :
  wp m o Q -> (forall a, Q a -> Q' a) -> wp m o Q'.
Proof. destruct o; simpl; auto. Qed.

Lemma makeError_ok (m : bytes) (msg : string) (e : Elt.BSONElement) :
  id_elem_ok m e -> status_ok m (makeError msg e).
Proof.
  unfold makeError. intros [->|H]; [done|]. by destruct (Elt.eoo e).
Qed.

Lemma valid_doc_has_decimal (ver : BSONVersion) (fs : list field) :
  valid_doc ver fs <->
  wf_doc fs /\ (ver = kV1_0 -> List.existsb (fun f : bytes * value => has_decimal f.2) fs = false).
Proof.
  unfold valid_doc, wf_doc, valid_field, valid_value, wf_field.
  induction fs as [|f fs IH]; simpl; [by rewrite !Forall_nil|].
  rewrite !Forall_cons, IH, orb_false_iff. tauto.
Qed.

Lemma valid_VObject (ver : BSONVersion) (fs : list field) :
  valid_value ver (VObject fs) <-> valid_doc ver fs.
Proof. unfold valid_value. by rewrite wf_value_VObject, valid_doc_has_decimal. Qed.
Lemma valid_VArray (ver : BSONVersion) (fs : list field) :
  valid_value ver (VArray fs) <-> valid_doc ver fs.
Proof. unfold valid_value. by rewrite wf_value_VArray, valid_doc_has_decimal. Qed.
Lemma valid_VCodeWScope (ver : BSONVersion) (code : bytes) (fs : list field) :
  valid_value ver (VCodeWScope code fs) <-> bytes_ok code /\ valid_doc ver fs.
Proof.
  unfold valid_value. rewrite wf_value_VCodeWScope, valid_doc_has_decimal. simpl. tauto.
Qed.

(** ** Frames *)

Lemma new_frame_spec (pos n : Z) (cws : bool) :
  0 <= pos < 2 ^ 31 ->
  startPosition (set_expectedSize n (new_frame pos cws)) = pos /\
  isCodeWithScope (set_expectedSize n (new_frame pos cws)) = cws.
Proof.
  intros H. unfold new_frame, startPosition, isCodeWithScope, setIsCodeWithScope,
    setStartPosition, set_expectedSize. cbn [_startPosition expectedSize].
  rewrite wraps_small by lia. rewrite Z.land_0_l, Z.lor_0_l.
  assert (Z.lnot sign_bit = Z.ones 31) as E by reflexivity. rewrite E.
  assert (Z.land pos (Z.ones 31) = pos) as Ep by (rewrite Z.land_ones, Z.mod_small; lia).
  assert (Z.land sign_bit (Z.ones 31) = 0) as Es by reflexivity.
  assert (Z.land pos sign_bit = 0) as Ez.
  { rewrite <- Ep, <- Z.land_assoc, (Z.land_comm (Z.ones 31)), Es. apply Z.land_0_r. }
  rewrite Ep. destruct cws.
  - rewrite !Z.land_lor_distr_l, Ep, Es, Ez, Z.lor_0_r, Z.lor_0_l. done.
  - rewrite !Ep, Ez. done.
Qed.

Section validator.
Context (en : SD.endian) (m : bytes) (maxLength : Z) (ver : BSONVersion).
Context (Hm : bytes_ok m) (Hmax : 0 <= maxLength <= Z.of_nat (length m)) (Hint : maxLength < 2 ^ 31).

(** [b] reads [m] and stands after the prefix [P]. *)
Definition at_ (b : Buffer) (P : bytes) : Prop :=
  _buffer b = m /\ _maxLength b = maxLength /\ _version b = ver /\
  _position b = Z.of_nat (length P) /\ Z.of_nat (length P) <= maxLength /\ P `prefix_of` m.

Definition adv (b : Buffer) (P : bytes) : Buffer := set_position b (Z.of_nat (length P)).

Lemma at_adv (b : Buffer) (P Q : bytes) :
  at_ b P -> Z.of_nat (length Q) <= maxLength -> Q `prefix_of` m -> at_ (adv b Q) Q.
Proof. intros (? & ? & ? & ? & ? & ?) ? ?. done. Qed.

Lemma at_drop (b : Buffer) (P t : bytes) :
  at_ b P -> m = P ++ t -> drop (Z.to_nat (_position b)) (_buffer b) = t.
Proof.
  intros (-> & _ & _ & -> & _) ->. by rewrite Nat2Z.id, drop_app_length.
Qed.

Lemma at_split (b : Buffer) (P : bytes) (n : nat) :
  at_ b P -> Z.of_nat (length P + n) <= maxLength ->
  exists l t, m = P ++ l ++ t /\ length l = n /\ bytes_ok l.
Proof.
  intros (_ & _ & _ & _ & _ & t & E) Hn. exists (take n t), (drop n t).
  rewrite take_drop. split; [done|]. split.
  - rewrite E, length_app in Hmax. solve_length.
  - rewrite E in Hm. unfold bytes_ok in *. rewrite Forall_app in Hm. by apply Forall_take, Hm.
Qed.

(** *** Readers: success on the right bytes *)

Lemma readNumber_ok (b : Buffer) (P l t : bytes) (n : nat) :
  at_ b P -> m = P ++ l ++ t -> length l = n -> Z.of_nat (length P + n) <= maxLength ->
  readNumber n b = Ret (Some l, adv b (P ++ l)).
Proof.
  intros Hb E Hl Hn. unfold readNumber, mem_read, adv. rewrite (at_drop b P (l ++ t) Hb E).
  destruct Hb as (_ & -> & _ & -> & _). rewrite !wrapu_small by lia.
  destruct (Z.gtb_spec (Z.of_nat (length P) + Z.of_nat n) maxLength); [lia|].
  rewrite take_app_length' by done. rewrite bool_decide_eq_true_2 by done.
  rewrite length_app. do 3 f_equal. lia.
Qed.

Lemma readNumber_short (b : Buffer) (P : bytes) (n : nat) :
  at_ b P -> Z.of_nat n < 2 ^ 31 -> maxLength < Z.of_nat (length P + n) ->
  readNumber n b = Ret (None, b).
Proof.
  intros (_ & Hx & _ & Hp & Hle & _) Hs Hn. unfold readNumber. rewrite Hx, Hp, wrapu_small by lia.
  destruct (Z.gtb_spec (Z.of_nat (length P) + Z.of_nat n) maxLength); [done|lia].
Qed.

Lemma skip_spec (b : Buffer) (P : bytes) (sz : Z) :
  at_ b P -> 0 <= sz < 2 ^ 31 ->
  skip sz b = (Z.of_nat (length P) + sz <? maxLength, set_position b (Z.of_nat (length P) + sz)).
Proof.
  intros (_ & Hx & _ & Hp & Hle & _) Hs. unfold skip. rewrite Hx, Hp.
  rewrite (wrapu_small 64 sz) by lia. by rewrite wrapu_small by lia.
Qed.

Lemma skip_ok (b : Buffer) (P l : bytes) :
  at_ b P -> Z.of_nat (length (P ++ l)) < maxLength ->
  skip (Z.of_nat (length l)) b = (true, adv b (P ++ l)).
Proof.
  intros Hb Hl. rewrite length_app in Hl. rewrite (skip_spec b P) by (done || lia).
  unfold adv. rewrite length_app.
  destruct (Z.ltb_spec (Z.of_nat (length P) + Z.of_nat (length l)) maxLength); [|lia].
  do 2 f_equal. lia.
Qed.

Lemma readCString_ok (b : Buffer) (P s t : bytes) :
  at_ b P -> m = P ++ (s ++ [0]) ++ t -> 0 ∉ s -> Z.of_nat (length (P ++ s ++ [0])) <= maxLength ->
  readCString b = Ret (s, adv b (P ++ s ++ [0])).
Proof.
  intros Hb E Hs Hn. unfold readCString, adv. rewrite (at_drop b P _ Hb E).
  destruct Hb as (_ & -> & _ & -> & _). rewrite !length_app in *. cbn [length] in *.
  rewrite wrapu_small by lia.
  rewrite take_app_ge by (solve_length). rewrite <- app_assoc. cbn [app].
  rewrite memchr_app_0 by done. rewrite take_app_length, wrapu_small by lia.
  do 3 f_equal. lia.
Qed.

Lemma length_enc_str (s : bytes) : length (enc_str s) = (length s + 5)%nat.
Proof. unfold enc_str. solve_length. Qed.

(** A four-byte length that reads as a non-negative [int] is its encoding. *)
Lemma int_prefix (raw : bytes) (n : Z) :
  bytes_ok raw -> length raw = 4%nat -> wraps 32 (le_decode raw) = n -> 0 <= n ->
  raw = le_encode 4 n.
Proof.
  intros Hr Hl Hw Hn. pose proof (le_decode_range raw Hr) as Hd. rewrite Hl in Hd.
  change (256 ^ Z.of_nat 4) with (2 ^ 32) in Hd.
  assert (le_decode raw = n) as <-; [|rewrite <- Hl; symmetry; by apply le_encode_decode].
  unfold wraps in Hw. change (2 ^ (32 - 1)) with (2 ^ 31) in Hw.
  destruct (Z.lt_ge_cases (le_decode raw) (2 ^ 31)).
  - rewrite Z.mod_small in Hw; lia.
  - rewrite <- (Z.mod_add _ (-1)) in Hw by lia. rewrite Z.mod_small in Hw; lia.
Qed.

Lemma readUTF8String_ok (b : Buffer) (P s t : bytes) :
  at_ b P -> m = P ++ enc_str s ++ t -> Z.of_nat (length (P ++ enc_str s)) <= maxLength ->
  readUTF8String b = Ret (adv b (P ++ enc_str s)).
Proof.
  intros Hb E Hn. rewrite length_app, length_enc_str in Hn. unfold readUTF8String.
  unfold enc_str in *. rewrite <- !app_assoc in *.
  set (sz := Z.of_nat (length s) + 1) in *.
  assert (length (le_encode 4 sz) = 4)%nat as H4 by apply length_le_encode.
  rewrite (readNumber_ok b P (le_encode 4 sz) (s ++ [0] ++ t)) by (done || lia).
  cbn [mbind outcome_bind need]. rewrite le_decode_encode.
  change (256 ^ Z.of_nat 4) with (2 ^ 32). rewrite Z.mod_small, wraps_small by lia.
  destruct (Z.leb_spec sz 0); [lia|].
  assert (at_ (adv b (P ++ le_encode 4 sz)) (P ++ le_encode 4 sz)) as Hb1.
  { apply (at_adv b P); [done|solve_length|]. exists (s ++ [0] ++ t).
    by rewrite E, <- app_assoc. }
  replace (sz - 1) with (Z.of_nat (length s)) by lia.
  rewrite (skip_ok _ _ s Hb1) by (solve_length).
  cbn [require mbind outcome_bind].
  set (P2 := (P ++ le_encode 4 sz) ++ s) in *.
  assert (length P2 = length P + 4 + length s)%nat as H2 by (unfold P2; solve_length).
  assert (at_ (adv (adv b (P ++ le_encode 4 sz)) P2) P2) as Hb2.
  { apply (at_adv _ (P ++ le_encode 4 sz)); [done|lia|]. exists ([0] ++ t).
    unfold P2. by rewrite E, <- !app_assoc. }
  rewrite (readNumber_ok _ P2 [0] t 1%nat Hb2); [|unfold P2; by rewrite E, <- !app_assoc|done|lia].
  cbn [mbind outcome_bind need le_decode]. change (0 + 256 * 0 =? 0) with true. cbn [negb].
  do 2 f_equal. unfold P2. by rewrite <- !app_assoc.
Qed.


(** *** Readers: every outcome *)

Lemma wp_readNumber (b : Buffer) (P : bytes) (n : nat) :
  at_ b P -> Z.of_nat n < 2 ^ 31 ->
  wp m (readNumber n b) (fun r =>
    match r.1 with
    | None => r.2 = b
    | Some l => length l = n /\ bytes_ok l /\ r.2 = adv b (P ++ l) /\ at_ r.2 (P ++ l)
    end).
Proof.
  intros Hb Hn. destruct (Z.le_gt_cases (Z.of_nat (length P + n)) maxLength) as [Hle|Hgt].
  - destruct (at_split b P n Hb Hle) as (l & t & E & Hl & Hbl).
    rewrite (readNumber_ok b P l t n) by done. simpl. split_and!; try done.
    apply (at_adv b P); [done|solve_length|]. exists t. by rewrite E, <- app_assoc.
  - by rewrite (readNumber_short b P n).
Qed.

Lemma wp_readCString (b : Buffer) (P : bytes) :
  at_ b P -> id_elem_ok m (_idElem b) ->
  wp m (readCString b) (fun r =>
    name_ok r.1 /\ r.2 = adv b (P ++ r.1 ++ [0]) /\ at_ r.2 (P ++ r.1 ++ [0])).
Proof.
  intros Hb Hid. pose proof Hb as (_ & _ & _ & _ & Hle & t & E).
  set (n := (Z.to_nat maxLength - length P)%nat).
  destruct (SD.memchr (take n t) 0) as [len|] eqn:Em.
  - apply SD.memchr_Some in Em as [H0 Hs].
    pose proof (lookup_lt_Some _ _ _ H0) as Hlen. rewrite length_take in Hlen.
    rewrite lookup_take_lt in H0 by lia. rewrite take_take in Hs. rewrite Nat.min_l in Hs by lia.
    assert (m = P ++ (take len t ++ [0]) ++ drop (S len) t) as E'.
    { rewrite <- app_assoc. cbn [app]. by rewrite take_drop_middle. }
    rewrite (readCString_ok b P (take len t) (drop (S len) t)); [|done|done|done|].
    2:{ solve_length. }
    cbn [wp fst snd]. rewrite E in Hm. unfold bytes_ok in Hm. rewrite Forall_app in Hm.
    split; [|split; [done|]].
    { split; [|done]. apply Forall_take, Hm. }
    apply (at_adv b P); [done| |].
    + solve_length.
    + exists (drop (S len) t). by rewrite <- app_assoc.
  - unfold readCString. rewrite (at_drop b P t Hb E).
    destruct Hb as (_ & -> & _ & -> & _). rewrite wrapu_small by lia.
    replace (Z.to_nat (maxLength - Z.of_nat (length P))) with n by lia.
    rewrite Em. assert (n <= length t)%nat by (rewrite E, length_app in Hmax; lia).
    rewrite length_take_le by lia.
    destruct (Z.ltb_spec (Z.of_nat n) (maxLength - Z.of_nat (length P))); [lia|].
    by apply makeError_ok.
Qed.

Lemma wp_skip (b : Buffer) (P : bytes) (sz : Z) (s : Status) :
  at_ b P -> 0 <= sz < 2 ^ 31 -> status_ok m s ->
  wp m (let '(ok, b) := skip sz b in _ ← require s ok; Ret b) (fun b' =>
    exists l, Z.of_nat (length l) = sz /\ bytes_ok l /\ b' = adv b (P ++ l) /\
      at_ b' (P ++ l) /\ Z.of_nat (length (P ++ l)) < maxLength).
Proof.
  intros Hb Hsz Hs. rewrite (skip_spec b P) by done.
  destruct (Z.ltb_spec (Z.of_nat (length P) + sz) maxLength) as [Hlt|Hge]; [|done].
  destruct (at_split b P (Z.to_nat sz) Hb ltac:(lia)) as (l & t & E & Hl & Hbl).
  cbn [require mbind outcome_bind wp]. exists l.
  assert (set_position b (Z.of_nat (length P) + sz) = adv b (P ++ l)) as Hadv.
  { unfold adv. rewrite length_app. f_equal. lia. }
  split; [lia|]. split; [done|]. split; [done|]. rewrite Hadv. rewrite length_app.
  split; [|lia]. apply (at_adv b P); [done|solve_length|].
  exists t. by rewrite E, <- app_assoc.
Qed.

(** [skip_or] is a [skip] followed by the return of the element. *)
Lemma wp_skip_or (b : Buffer) (P : bytes) (sz : Z) (s : Status) (ns : State) (nm : bytes) :
  at_ b P -> 0 <= sz < 2 ^ 31 -> status_ok m s ->
  wp m (skip_or s sz ns nm b) (fun r =>
    exists l, Z.of_nat (length l) = sz /\ bytes_ok l /\ r = (adv b (P ++ l), ns, nm) /\
      at_ (adv b (P ++ l)) (P ++ l)).
Proof.
  intros Hb Hsz Hs. pose proof (wp_skip b P sz s Hb Hsz Hs) as H. unfold skip_or.
  destruct (skip sz b) as [[] b']; [|done]. simpl in *.
  destruct H as (l & ? & ? & -> & ? & _). by exists l.
Qed.

Lemma wp_readUTF8String (b : Buffer) (P : bytes) :
  at_ b P -> id_elem_ok m (_idElem b) ->
  wp m (readUTF8String b) (fun b' =>
    exists s, bytes_ok s /\ b' = adv b (P ++ enc_str s) /\ at_ b' (P ++ enc_str s)).
Proof.
  intros Hb Hid. unfold readUTF8String. apply wp_bind.
  eapply wp_mono; [by apply (wp_readNumber b P 4)|]. intros [[raw|] b1]; cbn [fst snd need].
  2:{ intros ->. by apply makeError_ok. }
  intros (Hraw & Hrb & -> & Hb1). cbn [mbind outcome_bind].
  set (sz := wraps 32 (le_decode raw)).
  destruct (Z.leb_spec sz 0) as [|Hsz]; [by apply makeError_ok|].
  pose proof (wraps_range 32 (le_decode raw) ltac:(lia)) as Hr. fold sz in Hr.
  pose proof (wp_skip (adv b (P ++ raw)) (P ++ raw) (sz - 1)
    (makeError "invalid bson" (_idElem b)) Hb1 ltac:(lia) ltac:(by apply makeError_ok)) as H.
  destruct (skip (sz - 1) (adv b (P ++ raw))) as [[] b2] eqn:Esk; cbn [require mbind outcome_bind].
  2:{ unfold skip in Esk. injection Esk as _ <-. by apply makeError_ok. }
  cbn in H. destruct H as (s & Hls & Hs & -> & Hb2 & Hlt). apply wp_bind.
  eapply wp_mono; [by apply (wp_readNumber _ ((P ++ raw) ++ s) 1)|].
  intros [[c|] b3]; cbn [fst snd need]; [|intros ->; by apply makeError_ok].
  intros (Hc & Hcb & -> & Hb3). cbn [mbind outcome_bind].
  destruct c as [|c [|]]; [done| |done].
  change (le_decode [c]) with (c + 256 * 0).
  destruct (Z.eqb_spec (c + 256 * 0) 0) as [Ec|]; cbn [negb]; [|by apply makeError_ok].
  replace c with 0 in * by lia. cbn [wp].
  assert (raw = le_encode 4 (Z.of_nat (length s) + 1)) as Eraw by (apply int_prefix; (done || lia)).
  exists s. split; [done|]. unfold enc_str. rewrite <- Eraw.
  rewrite !(app_assoc P), !(app_assoc (P ++ raw)). done.
Qed.


(** *** One element *)

Lemma adv_self (b : Buffer) (P : bytes) : at_ b P -> adv b P = b.
Proof. unfold adv. intros (_ & _ & _ & <- & _). by destruct b. Qed.

Lemma skip_or_ok (b : Buffer) (P l : bytes) (sz : Z) (s : Status) (ns : State) (nm : bytes) :
  at_ b P -> Z.of_nat (length (P ++ l)) < maxLength -> Z.of_nat (length l) = sz ->
  skip_or s sz ns nm b = Ret (adv b (P ++ l), ns, nm).
Proof. intros Hb Hl <-. unfold skip_or. by rewrite (skip_ok b P l Hb Hl). Qed.

Section leaf.
Context (b : Buffer) (P t : bytes) (ns : State) (id : Elt.BSONElement) (nm : bytes) (Hb : at_ b P).

Lemma validate_BinData_ok (subtype : Z) (data : bytes) :
  let e := enc_value (VBinData subtype data) in
  m = P ++ e ++ t -> Z.of_nat (length (P ++ e)) < maxLength ->
  validateValue T.BinData ns id nm b = Ret (adv b (P ++ e), ns, nm).
Proof.
  cbn [enc_value]. intros E Hlt.
  rewrite <- !app_assoc in E. rewrite !length_app, length_le_encode in Hlt. cbn [length] in Hlt.
  set (n := Z.of_nat (length data)) in *. unfold validateValue.
  rewrite (readNumber_ok b P (le_encode 4 n) ([subtype] ++ data ++ t) 4);
    [|done|done|apply length_le_encode|lia].
  transitivity (let sz := wraps 32 (le_decode (le_encode 4 n)) in
    if (sz <? 0) || (sz =? 2 ^ 31 - 1) then Throw (makeError "invalid size in bson" id)
    else skip_or (makeError "invalid bson" id) (1 + sz) ns nm (adv b (P ++ le_encode 4 n)));
    [reflexivity|].
  rewrite le_decode_encode. change (256 ^ Z.of_nat 4) with (2 ^ 32).
  rewrite Z.mod_small, wraps_small by lia. cbv zeta.
  destruct (Z.ltb_spec n 0); [lia|]. destruct (Z.eqb_spec n (2 ^ 31 - 1)); [lia|]. cbn [orb].
  rewrite (skip_or_ok _ (P ++ le_encode 4 n) ([subtype] ++ data)).
  - by rewrite <- app_assoc.
  - apply (at_adv b P); [done|solve_length|].
    exists ([subtype] ++ data ++ t). by rewrite E, <- app_assoc.
  - solve_length.
  - solve_length.
Qed.

Lemma validate_RegEx_ok (pattern flags : bytes) :
  let e := enc_value (VRegEx pattern flags) in
  0 ∉ pattern -> 0 ∉ flags -> m = P ++ e ++ t -> Z.of_nat (length (P ++ e)) < maxLength ->
  validateValue T.RegEx ns id nm b = Ret (adv b (P ++ e), ns, nm).
Proof.
  cbn [enc_value]. intros Hp Hf E Hlt. rewrite !length_app in Hlt. cbn [length] in Hlt.
  unfold validateValue. rewrite (readCString_ok b P pattern (flags ++ [0] ++ t));
    [|done|by rewrite E, <- !app_assoc|done|solve_length].
  transitivity (r ← readCString (adv b (P ++ pattern ++ [0])); let '(_, b) := r in
    Ret (b, ns, nm)); [reflexivity|].
  rewrite (readCString_ok _ (P ++ pattern ++ [0]) flags t).
  - cbn. by rewrite <- !app_assoc.
  - apply (at_adv b P); [done|solve_length|].
    exists (flags ++ [0] ++ t). by rewrite E, <- !app_assoc.
  - by rewrite E, <- !app_assoc.
  - done.
  - solve_length.
Qed.

Lemma validate_DBRef_ok (ns' oid : bytes) :
  let e := enc_value (VDBRef ns' oid) in
  length oid = 12%nat -> m = P ++ e ++ t -> Z.of_nat (length (P ++ e)) < maxLength ->
  validateValue T.DBRef ns id nm b = Ret (adv b (P ++ e), ns, nm).
Proof.
  cbn [enc_value]. intros Ho E Hlt. rewrite !length_app in Hlt.
  rewrite <- app_assoc in E. unfold validateValue.
  rewrite (readUTF8String_ok b P ns' (oid ++ t)) by (done || (solve_length)).
  transitivity (skip_or (makeError "invalid bson length" id) 12 ns nm (adv b (P ++ enc_str ns')));
    [reflexivity|].
  rewrite (skip_or_ok _ (P ++ enc_str ns') oid).
  - by rewrite <- app_assoc.
  - apply (at_adv b P); [done|solve_length|]. exists (oid ++ t).
    by rewrite E, <- app_assoc.
  - solve_length.
  - by rewrite Ho.
Qed.

Lemma validateValue_leaf_ok (v : value) :
  nested v = false -> valid_value ver v -> m = P ++ enc_value v ++ t ->
  Z.of_nat (length (P ++ enc_value v)) < maxLength ->
  validateValue (type_of v) ns id nm b = Ret (adv b (P ++ enc_value v), ns, nm).
Proof.
  intros Hn [Hwf Hdec] E Hlt.
  destruct v; try discriminate Hn; cbn [type_of enc_value wf_value] in *;
    try (rewrite app_nil_r, adv_self by done; reflexivity);
    try (apply skip_or_ok; [done|done|first [by rewrite length_le_encode | by destruct Hwf as [_ ->]]]);
    try (transitivity (b ← readUTF8String b; Ret (b, ns, nm)); [reflexivity|];
      by rewrite (readUTF8String_ok b P _ t) by (done || lia)).
  - by apply validate_BinData_ok.
  - unfold validateValue. rewrite length_app in Hlt. cbn [length] in Hlt.
    rewrite (readNumber_ok b P [if b0 then 1 else 0] t 1) by (done || lia). by destruct b0.
  - destruct Hwf as [[_ ?] [_ ?]]. by apply validate_RegEx_ok.
  - destruct Hwf as (_ & _ & ?). by apply validate_DBRef_ok.
  - transitivity (match _version b with
      | kV1_0 => Throw (InvalidBSON kDecimalMsg NoSubject)
      | _ => skip_or (makeError "Invalid bson" id) 16 ns nm b end); [reflexivity|].
    assert (_version b = kV1_1) as ->.
    { destruct Hb as (_ & _ & -> & _). destruct ver; [by specialize (Hdec eq_refl)|done]. }
    apply skip_or_ok; [done|done|by destruct Hwf as [_ ->]].
Qed.

End leaf.

(** *** One element: every outcome *)

Definition leaf_result (b : Buffer) (P : bytes) (ty : Z) (ns : State) (nm : bytes)
    (r : Buffer * State * bytes) : Prop :=
  exists v, nested v = false /\ type_of v = ty /\ valid_value ver v /\
    r = (adv b (P ++ enc_value v), ns, nm) /\ at_ (adv b (P ++ enc_value v)) (P ++ enc_value v).

Lemma raw8_value (ty : Z) (l : bytes) :
  ty ∈ [T.NumberDouble; T.NumberLong; T.bsonTimestamp; T.Date] ->
  bytes_ok l -> length l = 8%nat ->
  exists v, nested v = false /\ type_of v = ty /\ valid_value ver v /\ enc_value v = l.
Proof.
  intros Hty Hl Hn.
  assert (le_encode 8 (wraps 64 (le_decode l)) = l) as Ew by (by apply (le_encode_wraps l 8)).
  pose proof (wraps_range 64 (le_decode l) ltac:(lia)) as Hr.
  pose proof (le_decode_range l Hl) as Hd. rewrite Hn in Hd.
  change (256 ^ Z.of_nat 8) with (2 ^ 64) in Hd.
  rewrite !elem_of_cons, elem_of_nil in Hty. destruct Hty as [->|[->|[->|[->|[]]]]].
  - by exists (VDouble l).
  - by exists (VLong (wraps 64 (le_decode l))).
  - exists (VTimestamp (le_decode l)). split_and!; [done|done|done|].
    cbn [enc_value]. rewrite <- Hn. by apply le_encode_decode.
  - by exists (VDate (wraps 64 (le_decode l))).
Qed.

Lemma wp_leaf (b : Buffer) (P : bytes) (ty sz : Z) (s : Status) (ns : State) (nm : bytes) :
  at_ b P -> 0 <= sz < 2 ^ 31 -> status_ok m s ->
  (forall l, Z.of_nat (length l) = sz -> bytes_ok l ->
    exists v, nested v = false /\ type_of v = ty /\ valid_value ver v /\ enc_value v = l) ->
  wp m (skip_or s sz ns nm b) (leaf_result b P ty ns nm).
Proof.
  intros Hb Hsz Hs Hv. eapply wp_mono; [by apply (wp_skip_or b P)|].
  intros r (l & Hl & Hbl & -> & Hat). destruct (Hv l Hl Hbl) as (v & ? & ? & ? & <-).
  by exists v.
Qed.

Section leaf_wp.
Context (b : Buffer) (P : bytes) (ns : State) (id : Elt.BSONElement) (nm : bytes).
Context (Hb : at_ b P) (Hid : id_elem_ok m id) (Hbid : id_elem_ok m (_idElem b)).

Lemma wp_string (ty : Z) :
  ty ∈ [T.Code; T.Symbol; T.String_] ->
  wp m (b ← readUTF8String b; Ret (b, ns, nm)) (leaf_result b P ty ns nm).
Proof.
  intros Hty. apply wp_bind. eapply wp_mono; [by apply (wp_readUTF8String b P)|].
  intros b' (s & Hs & -> & Hat). rewrite !elem_of_cons, elem_of_nil in Hty.
  destruct Hty as [->|[->|[->|[]]]];
    [exists (VCode s)|exists (VSymbol s)|exists (VString s)]; by split_and!.
Qed.

Lemma wp_DBRef :
  wp m (b ← readUTF8String b; skip_or (makeError "invalid bson length" id) 12 ns nm b)
    (leaf_result b P T.DBRef ns nm).
Proof.
  apply wp_bind. eapply wp_mono; [by apply (wp_readUTF8String b P)|].
  intros b' (s & Hs & -> & Hat).
  eapply wp_mono; [apply (wp_skip_or _ (P ++ enc_str s)); [done|lia|by apply makeError_ok]|].
  intros r (oid & Ho & Hbo & -> & Hat'). rewrite <- app_assoc in *.
  exists (VDBRef s oid). split_and!; try done. split; [|done]. split_and!; [done|done|lia].
Qed.

Lemma wp_RegEx :
  wp m (r ← readCString b; let '(_, b) := r in
        r ← readCString b; let '(_, b) := r in Ret (b, ns, nm))
    (leaf_result b P T.RegEx ns nm).
Proof.
  apply wp_bind. eapply wp_mono; [by apply (wp_readCString b P)|].
  intros [p b1]; cbn [fst snd]; intros (Hp & -> & Hb1).
  apply wp_bind. eapply wp_mono; [apply (wp_readCString _ (P ++ p ++ [0])); [done|exact Hbid]|].
  intros [f b2]; cbn [fst snd wp]; intros (Hf & -> & Hb2). rewrite <- !app_assoc in *.
  exists (VRegEx p f). by split_and!.
Qed.

Lemma wp_BinData :
  wp m (r ← readNumber 4 b; let '(o, b) := r in
        raw ← need (makeError "invalid bson" id) o;
        let sz := wraps 32 (le_decode raw) in
        if (sz <? 0) || (sz =? 2 ^ 31 - 1) then Throw (makeError "invalid size in bson" id)
        else skip_or (makeError "invalid bson" id) (1 + sz) ns nm b)
    (leaf_result b P T.BinData ns nm).
Proof.
  apply wp_bind. eapply wp_mono; [by apply (wp_readNumber b P 4)|].
  intros [[raw|] b1]; cbn [fst snd need]; [|intros ->; by apply makeError_ok].
  intros (Hraw & Hrb & -> & Hb1). cbn [mbind outcome_bind].
  pose proof (wraps_range 32 (le_decode raw) ltac:(lia)) as Hr.
  set (sz := wraps 32 (le_decode raw)) in *.
  destruct (Z.ltb_spec sz 0); [by apply makeError_ok|].
  destruct (Z.eqb_spec sz (2 ^ 31 - 1)); [by apply makeError_ok|]. cbn [orb].
  eapply wp_mono; [apply (wp_skip_or _ (P ++ raw)); [done|lia|by apply makeError_ok]|].
  intros r (l & Hl & Hbl & -> & Hat). destruct l as [|st data]; cbn [length] in Hl; [lia|].
  assert (raw = le_encode 4 (Z.of_nat (length data))) as -> by (apply int_prefix; (done || lia)).
  rewrite <- !app_assoc in *. unfold bytes_ok in Hbl. rewrite Forall_cons in Hbl.
  exists (VBinData st data). by split_and!.
Qed.

Lemma wp_Bool :
  wp m (r ← readNumber 1 b; let '(o, b) := r in
        val ← need (makeError "invalid bson" id) o;
        if negb (le_decode val =? 0) && negb (le_decode val =? 1) then
          Throw (makeError "invalid boolean value" id)
        else Ret (b, ns, nm))
    (leaf_result b P T.Bool ns nm).
Proof.
  apply wp_bind. eapply wp_mono; [by apply (wp_readNumber b P 1)|].
  intros [[val|] b1]; cbn [fst snd need]; [|intros ->; by apply makeError_ok].
  intros (Hval & Hvb & -> & Hb1). destruct val as [|c [|]]; [done| |done].
  cbn [mbind outcome_bind]. change (le_decode [c]) with (c + 256 * 0).
  destruct (Z.eqb_spec (c + 256 * 0) 0) as [Ec|]; cbn [negb andb wp].
  - replace c with 0 in * by lia. by exists (VBool false).
  - destruct (Z.eqb_spec (c + 256 * 0) 1) as [Ec|]; cbn [negb andb wp]; [|by apply makeError_ok].
    replace c with 1 in * by lia. by exists (VBool true).
Qed.

Lemma wp_validateValue (ty : Z) :
  wp m (validateValue ty ns id nm b) (fun r =>
    leaf_result b P ty ns nm r \/ (ty = T.CodeWScope /\ r = (b, BeginCodeWScope, nm)) \/
    (ty ∈ [T.Object; T.Array] /\ r = (b, BeginObj, nm))).
Proof.
  assert (forall o, wp m o (leaf_result b P ty ns nm) -> wp m o (fun r =>
    leaf_result b P ty ns nm r \/ (ty = T.CodeWScope /\ r = (b, BeginCodeWScope, nm)) \/
    (ty ∈ [T.Object; T.Array] /\ r = (b, BeginObj, nm)))) as Hleaf.
  { intros o H. eapply wp_mono; [exact H|]. by left. }
  assert (forall v, nested v = false -> enc_value v = [] -> valid_value ver v ->
    wp m (Ret (b, ns, nm)) (leaf_result b P (type_of v) ns nm)) as Hempty.
  { intros v Hn He Hv. exists v. rewrite He, app_nil_r, (adv_self b P Hb). by split_and!. }
  unfold validateValue.
  case_bool_decide as H0; [apply Hleaf|].
  { rewrite !elem_of_cons, elem_of_nil in H0. destruct H0 as [->|[->|[->|[->|[]]]]];
      [by apply (Hempty VMinKey)|by apply (Hempty VMaxKey)|by apply (Hempty VNull)
      |by apply (Hempty VUndefined)]. }
  destruct (Z.eqb_spec ty T.jstOID) as [->|_]; [apply Hleaf|].
  { apply wp_leaf; [done|lia|by apply makeError_ok|]. intros l Hl Hbl. exists (VOID l).
    split_and!; [done|done| |done]. split; [split; [done|lia]|done]. }
  destruct (Z.eqb_spec ty T.NumberInt) as [->|_]; [apply Hleaf|].
  { apply wp_leaf; [done|lia|by apply makeError_ok|]. intros l Hl Hbl.
    exists (VInt (wraps 32 (le_decode l))). pose proof (wraps_range 32 (le_decode l)).
    split_and!; [done|done|split; [simpl; lia|done]|]. apply (le_encode_wraps l 4); [done|lia]. }
  destruct (Z.eqb_spec ty T.Bool) as [->|_]; [apply Hleaf, wp_Bool|].
  case_bool_decide as H8; [apply Hleaf|].
  { apply wp_leaf; [done|lia|by apply makeError_ok|]. intros l Hl Hbl.
    apply raw8_value; [done|done|lia]. }
  destruct (Z.eqb_spec ty T.NumberDecimal) as [->|_].
  { destruct (_version b) eqn:Ev; [done|]. apply Hleaf, wp_leaf; [done|lia|by apply makeError_ok|].
    intros l Hl Hbl. exists (VDecimal l). split_and!; [done|done| |done].
    split; [split; [done|lia]|]. destruct Hb as (_ & _ & Hv & _). congruence. }
  destruct (Z.eqb_spec ty T.DBRef) as [->|_]; [apply Hleaf, wp_DBRef|].
  destruct (Z.eqb_spec ty T.RegEx) as [->|_]; [apply Hleaf, wp_RegEx|].
  case_bool_decide as Hs; [by apply Hleaf, wp_string|].
  destruct (Z.eqb_spec ty T.BinData) as [->|_]; [apply Hleaf, wp_BinData|].
  destruct (Z.eqb_spec ty T.CodeWScope) as [->|_]; [by right; left|].
  case_bool_decide; [by right; right|]. by apply makeError_ok.
Qed.

End leaf_wp.

Definition header (ty : Z) (nm : bytes) : bytes := type_byte ty :: nm ++ [0].

Lemma enc_elem_header (nm : bytes) (v : value) :
  enc_elem (nm, v) = header (type_of v) nm ++ enc_value v.
Proof. unfold enc_elem, header. cbn [fst snd app]. by rewrite <- app_assoc. Qed.

Lemma type_byte_wraps (c : Z) : byte_ok c -> type_byte (wraps 8 c) = c.
Proof.
  intros H. unfold type_byte, wrapu. rewrite wraps_mod. by apply Z.mod_small.
Qed.

(** What [validateElementInfo] returns: the end of the object, a whole element, or the
    header of a nested one. *)
Inductive elem_result (b : Buffer) (P : bytes) (ns : State) : Buffer * State * bytes -> Prop :=
  | elem_eoo : at_ (adv b (P ++ [0])) (P ++ [0]) ->
      elem_result b P ns (adv b (P ++ [0]), EndObj, [])
  | elem_leaf nm v : nested v = false -> valid_field ver (nm, v) ->
      at_ (adv b (P ++ enc_elem (nm, v))) (P ++ enc_elem (nm, v)) ->
      elem_result b P ns (adv b (P ++ enc_elem (nm, v)), ns, nm)
  | elem_scope nm : name_ok nm ->
      at_ (adv b (P ++ header T.CodeWScope nm)) (P ++ header T.CodeWScope nm) ->
      elem_result b P ns (adv b (P ++ header T.CodeWScope nm), BeginCodeWScope, nm)
  | elem_obj ty nm : ty ∈ [T.Object; T.Array] -> name_ok nm ->
      at_ (adv b (P ++ header ty nm)) (P ++ header ty nm) ->
      elem_result b P ns (adv b (P ++ header ty nm), BeginObj, nm).

Lemma wp_validateElementInfo (b : Buffer) (P : bytes) (ns : State) (id : Elt.BSONElement) :
  at_ b P -> id_elem_ok m id -> id_elem_ok m (_idElem b) ->
  wp m (validateElementInfo b ns id) (elem_result b P ns).
Proof.
  intros Hb Hid Hbid. unfold validateElementInfo.
  apply wp_bind. eapply wp_mono; [by apply (wp_readNumber b P 1)|].
  intros [[raw|] b1]; cbn [fst snd need]; [|intros ->; by apply makeError_ok].
  intros (Hraw & Hrb & -> & Hb1). destruct raw as [|c [|]]; [done| |done].
  cbn [mbind outcome_bind]. change (le_decode [c]) with (c + 256 * 0).
  replace (c + 256 * 0) with c by lia. unfold bytes_ok in Hrb. rewrite Forall_singleton in Hrb.
  pose proof (type_byte_wraps c Hrb) as Hc.
  destruct (Z.eqb_spec (wraps 8 c) T.EOO) as [E0|_].
  { rewrite E0 in Hc. change (type_byte T.EOO) with 0 in Hc. subst c. by constructor. }
  apply wp_bind. eapply wp_mono; [apply (wp_readCString _ (P ++ [c])); [done|exact Hbid]|].
  intros [nm b2]; cbn [fst snd]; intros (Hnm & -> & Hb2).
  assert ((P ++ [c]) ++ nm ++ [0] = P ++ header (wraps 8 c) nm) as E.
  { unfold header. rewrite Hc, <- app_assoc. done. }
  rewrite E in *. change (adv (adv b (P ++ [c])) ?Q) with (adv b Q) in *.
  eapply wp_mono; [by apply (wp_validateValue _ (P ++ header (wraps 8 c) nm))|].
  intros r [(v & Hn & Hty & Hv & -> & Hat)|[[Hty ->]|[Hty ->]]].
  - rewrite <- app_assoc, <- Hty, <- enc_elem_header in *. by apply (elem_leaf b P ns nm v).
  - rewrite Hty in *. by constructor.
  - by constructor.
Qed.

(** *** The frame stack *)

Definition frame_at (F : ValidationObjectFrame) (n : nat) (cws : bool) (raw : bytes) : Prop :=
  startPosition F = Z.of_nat n /\ isCodeWithScope F = cws /\ length raw = 4%nat /\ bytes_ok raw /\
  expectedSize F = wraps 32 (le_decode raw).

(** The pending start of a top-level [_id] element when an element named [nm] begins
    after the prefix [P]. *)
Definition elem_pend (top : bool) (nm P : bytes) (pend pend' : Z) : Prop :=
  if top then pend' = 0 \/ (nm = lit "_id" /\ pend' = Z.of_nat (length P)) else pend' = pend.

(** After the elements [fs] of the top-level object, a pending start is that of the
    last of them. *)
Definition pend_last (fs : list field) (pend : Z) : Prop :=
  pend = 0 \/ exists gs v, fs = gs ++ [(lit "_id", v)] /\
    pend = 4 + Z.of_nat (length (enc_fields gs)).

Definition top (fr : list ValidationObjectFrame) : bool := bool_decide (length fr = 1%nat).

Inductive mode := MWithin | MOpened | MScope.

(** [ctx md fr P pend]: the frames [fr] are open after the validated prefix [P], which
    ends between two elements ([MWithin]), where an object begins ([MOpened]) or where
    the code of a scope begins ([MScope]). *)
Inductive ctx : mode -> list ValidationObjectFrame -> bytes -> Z -> Prop :=
  | ctx_root : ctx MOpened [] [] 0
  | ctx_within F fr P0 raw fs pend pend' :
      ctx MOpened fr P0 pend -> frame_at F (length P0) false raw -> valid_doc ver fs ->
      (if decide (fr = []) then pend_last fs pend' else pend' = pend) ->
      ctx MWithin (F :: fr) (P0 ++ raw ++ enc_fields fs) pend'
  | ctx_child fr P ty nm pend pend' :
      ctx MWithin fr P pend -> ty ∈ [T.Object; T.Array] -> name_ok nm ->
      elem_pend (top fr) nm P pend pend' -> ctx MOpened fr (P ++ header ty nm) pend'
  | ctx_scope fr P nm pend pend' :
      ctx MWithin fr P pend -> name_ok nm ->
      elem_pend (top fr) nm P pend pend' -> ctx MScope fr (P ++ header T.CodeWScope nm) pend'
  | ctx_code F fr P0 raw code pend :
      ctx MScope fr P0 pend -> frame_at F (length P0) true raw -> bytes_ok code ->
      ctx MOpened (F :: fr) (P0 ++ raw ++ enc_str code) pend.

Lemma ctx_opened_root (P : bytes) (pend : Z) : ctx MOpened [] P pend -> P = [] /\ pend = 0.
Proof. inversion 1 as [| |? ? ? ? ? ? Hw| |]; [done|]. inversion Hw. Qed.

Lemma ctx_extend (fr : list ValidationObjectFrame) (P : bytes) (f : field) (pend pend' : Z) :
  ctx MWithin fr P pend -> valid_field ver f -> elem_pend (top fr) f.1 P pend pend' ->
  ctx MWithin fr (P ++ enc_elem f) pend'.
Proof.
  intros Hc Hf Hp. remember MWithin as md eqn:Emd. destruct Hc; try discriminate Emd.
  assert (enc_fields fs ++ enc_elem f = enc_fields (fs ++ [f])) as E.
  { rewrite enc_fields_app, enc_fields_cons. cbn. by rewrite app_nil_r. }
  rewrite <- !app_assoc, E. econstructor; [done|done| |].
  { apply Forall_app. split; [done|by constructor]. }
  destruct (decide (fr = [])) as [->|Hne].
  - cbn in Hp. destruct Hp as [Hp|[Hnm Hp]]; [by left|]. right. exists fs, f.2.
    rewrite <- Hnm. split; [by destruct f|]. apply ctx_opened_root in Hc as [-> _].
    destruct H as (_ & _ & Hl & _). rewrite Hp, !length_app, Hl. cbn [length]. lia.
  - destruct fr as [|F' fr]; [done|]. cbn in Hp. by rewrite Hp.
Qed.

(** *** The invariant of the loop *)

Definition shape (s : vstate) (P : bytes) : Prop :=
  let pend := idElemStartPos s in
  match state s with
  | BeginObj => ctx MOpened (frames s) P pend
  | WithinObj => ctx MWithin (frames s) P pend
  | EndObj => exists P', P = P' ++ [0] /\ ctx MWithin (frames s) P' pend
  | BeginCodeWScope => ctx MScope (frames s) P pend
  | EndCodeWScope => exists F fr P0 raw code fs,
      frames s = F :: fr /\ ctx MScope fr P0 pend /\ frame_at F (length P0) true raw /\
      bytes_ok code /\ valid_doc ver fs /\ P = P0 ++ raw ++ enc_str code ++ enc_obj fs
  | Done => exists fs, valid_doc ver fs /\ P = enc_obj fs
  end.

Definition ids_ok (s : vstate) : Prop := id_elem_ok m (idElem s) /\ id_elem_ok m (_idElem (buf s)).

Definition inv (s : vstate) (P : bytes) : Prop := at_ (buf s) P /\ ids_ok s /\ shape s P.

Lemma finish_id_spec (s : vstate) (P : bytes) :
  at_ (buf s) P -> ids_ok s -> ctx MWithin (frames s) P (idElemStartPos s) ->
  at_ (buf (finish_id s)) P /\ ids_ok (finish_id s) /\ frames (finish_id s) = frames s /\
  ctx MWithin (frames s) P (idElemStartPos (finish_id s)) /\
  (top (frames s) = true -> idElemStartPos (finish_id s) = 0).
Proof.
  intros Hat Hids Hc. unfold finish_id, at_top_level. fold (top (frames s)).
  destruct (top (frames s)) eqn:Ht; cbn [andb]; [|done].
  destruct (Z.eqb_spec (idElemStartPos s) 0) as [E0|Hne]; cbn [negb]; [done|].
  apply bool_decide_eq_true in Ht. cbn.
  remember MWithin as md eqn:Emd. revert Ht Hne.
  destruct Hc as [|F fr P0 raw fs pend pend' Hc HF Hfs Hpend| | |]; try discriminate Emd.
  intros Ht Hne. destruct fr; [|done]. cbn in Hpend.
  destruct Hpend as [?|(gs & v & -> & ->)]; [done|].
  apply ctx_opened_root in Hc as [-> ->]. pose proof Hat as (Hbuf & _ & _ & _ & _ & t & Em).
  split; [done|]. split; [|split; [done|split; [|done]]].
  - assert (id_elem_ok m (Elt.BSONElement_new (drop (Z.to_nat (4 + Z.of_nat (length (enc_fields gs))))
      (_buffer (buf s))))) as Hid; [|done].
    right. exists (4 + length (enc_fields gs))%nat, v, t. rewrite Hbuf.
    replace (Z.to_nat _) with (4 + length (enc_fields gs))%nat by lia.
    unfold valid_doc in Hfs. rewrite Forall_app, Forall_singleton in Hfs.
    split; [|split; [apply Hfs|done]]. rewrite Em, enc_fields_app. cbn [app].
    rewrite <- !app_assoc, app_assoc. destruct HF as (_ & _ & Hl & _).
    rewrite drop_app_length' by (by rewrite length_app, Hl).
    by rewrite enc_fields_cons, app_nil_r.
  - apply (ctx_within F [] [] raw _ 0 0); [constructor|done|done|]. by left.
Qed.

Lemma start_pend (fr : list ValidationObjectFrame) (nm P : bytes) (c : bool) (pend : Z) :
  bytes_ok nm -> (top fr = true -> pend = 0) ->
  elem_pend (top fr) nm P pend
    (if c && top fr && SD.operator_eq en (SD.mkStringData (Some nm)) (SD.mkStringData (Some (lit "_id")))
     then Z.of_nat (length P) else pend).
Proof.
  intros Hnm Ht. unfold elem_pend. destruct (top fr); cbn [andb].
  - rewrite Ht by done. destruct c; cbn [andb]; [|by left].
    destruct (SD.operator_eq _ _ _) eqn:E; [|by left]. right. split; [|done].
    apply SD.operator_eq_spec in E; [done|done|]. unfold SD.sd_ok. cbn. solve_wf.
  - by rewrite andb_false_r.
Qed.

Lemma wp_within_obj (s : vstate) (P : bytes) :
  at_ (buf s) P -> ids_ok s -> ctx MWithin (frames s) P (idElemStartPos s) ->
  wp m (within_obj en s) (fun s' => frames s' = frames s /\
    exists P', inv s' P' /\ (length P < length P')%nat).
Proof.
  intros Hat Hids Hc.
  destruct (finish_id_spec s P Hat Hids Hc) as (Hat1 & [Hid Hbid] & Hfr & Hc1 & Ht).
  unfold within_obj, at_top_level. fold (top (frames s)).
  set (s1 := finish_id s) in *. clearbody s1. apply wp_bind.
  eapply wp_mono; [by apply (wp_validateElementInfo (buf s1) P)|].
  assert (_position (buf s1) = Z.of_nat (length P)) as -> by apply Hat1.
  intros r Hr. destruct Hr as [Hb'|nm v Hn Hv Hb'|nm Hnm Hb'|ty nm Hty Hnm Hb'];
    cbn [wp]; (split; [by rewrite Hfr|]); (eexists; split;
    [split; [exact Hb'|split; [done|]]; unfold shape; cbn [state idElemStartPos frames]
    |rewrite ?length_app; cbn; lia]).
  - exists P. split; [done|]. by rewrite Hfr.
  - rewrite Hfr. eapply ctx_extend; [done|done|]. apply start_pend; [apply Hv|done].
  - rewrite Hfr. econstructor; [done|done|]. apply start_pend; [apply Hnm|done].
  - rewrite Hfr. econstructor; [done|done|done|]. apply start_pend; [apply Hnm|done].
Qed.

Lemma wp_push_frame (s : vstate) (P : bytes) (cws : bool) (msg : string) :
  at_ (buf s) P -> ids_ok s ->
  wp m (push_frame s cws msg) (fun s' => exists raw F,
    frame_at F (length P) cws raw /\
    s' = mkState (F :: frames s) WithinObj (idElemStartPos s) (idElem s) (adv (buf s) (P ++ raw)) /\
    at_ (adv (buf s) (P ++ raw)) (P ++ raw)).
Proof.
  intros Hat [Hid Hbid]. unfold push_frame. apply wp_bind.
  eapply wp_mono; [by apply (wp_readNumber (buf s) P 4)|].
  intros [[raw|] b1]; cbn [fst snd need]; [|intros ->; by apply makeError_ok].
  intros (Hraw & Hrb & -> & Hb1). cbn [mbind outcome_bind wp].
  eexists raw, _. split; [|split; [reflexivity|done]].
  assert (_position (buf s) = Z.of_nat (length P)) as -> by apply Hat.
  destruct (new_frame_spec (Z.of_nat (length P)) (wraps 32 (le_decode raw)) cws) as [? ?].
  { destruct Hat as (_ & _ & _ & _ & ? & _). lia. }
  by split_and!.
Qed.

(** The length check on a frame: its size field is the encoding of its length. *)
Lemma close_frame (s : vstate) (F : ValidationObjectFrame) (n k : nat) (cws : bool) (raw : bytes) :
  frame_at F n cws raw -> _position (buf s) = Z.of_nat (n + 4 + k) ->
  Z.of_nat (n + 4 + k) <= maxLength -> actualLength s F = expectedSize F ->
  raw = le_encode 4 (Z.of_nat k + 4).
Proof.
  intros (Hs & _ & Hl & Hb & He) Hp Hle Hlen. apply int_prefix; [done|done| |lia].
  rewrite <- He, <- Hlen. unfold actualLength. rewrite Hs, Hp, wraps_small by lia. lia.
Qed.

Lemma ctx_within_frame (F : ValidationObjectFrame) (fr : list ValidationObjectFrame) (P : bytes) (pend : Z) :
  ctx MWithin (F :: fr) P pend -> isCodeWithScope F = false.
Proof. inversion 1 as [|? ? ? ? ? ? ? ? HF| | |]; subst. apply HF. Qed.

Lemma ctx_within_cons (fr : list ValidationObjectFrame) (P : bytes) (pend : Z) :
  ctx MWithin fr P pend -> exists F fr', fr = F :: fr'.
Proof. inversion 1; subst. eauto. Qed.

Definition measure (s : vstate) (P : bytes) : Z :=
  4 * (maxLength - Z.of_nat (length P)) + 2 * Z.of_nat (length (frames s)).

Definition progress (s : vstate) (P : bytes) (s' : vstate) : Prop :=
  exists P', inv s' P' /\ measure s' P' < measure s P.

Lemma wp_EndObj (s : vstate) (P : bytes) :
  inv s P -> state s = EndObj -> wp m (step en s) (progress s P).
Proof.
  intros (Hat & [Hid Hbid] & Hs) Est. unfold shape, step in *. rewrite Est in *.
  destruct Hs as (P' & -> & Hc). pose proof Hat as (_ & _ & _ & Hpos & Hle & _).
  remember MWithin as md eqn:Emd. destruct (frames s) as [|F fr] eqn:Efr; [by subst; inversion Hc|].
  subst md. inversion Hc as [|? ? P0 raw fs pend ? Ho HF Hfs Hp| | |]; subst.
  destruct (Z.eqb_spec (actualLength s F) (expectedSize F)) as [El|]; cbn [negb];
    [|by apply makeError_ok].
  assert (raw = le_encode 4 (Z.of_nat (length (enc_fields fs)) + 5)) as Eraw.
  { replace (_ + 5) with (Z.of_nat (length (enc_fields fs) + 1) + 4) by lia.
    pose proof HF as (_ & _ & Hl & _).
    rewrite !length_app in *. cbn [length] in *.
    eapply close_frame; [done| |lia|done]. rewrite Hpos. lia. }
  assert ((P0 ++ raw ++ enc_fields fs) ++ [0] = P0 ++ enc_obj fs) as EP.
  { unfold enc_obj, wrap_doc. by rewrite <- !app_assoc, <- Eraw. }
  rewrite EP in *. cbn [wp]. exists (P0 ++ enc_obj fs).
  split; [|unfold measure; cbn [frames length]; rewrite Efr; cbn [length]; lia].
  split; [done|]. split; [done|]. unfold shape. cbn [state frames idElemStartPos].
  inversion Ho as [|? ? ? ? ? ? ? ? ? ? ?|? P1 ty nm ? ? Hw Hty Hnm Hep|
    |G fr' P1 raw' code ? Hsc HG Hcode]; subst.
  - by exists fs.
  - destruct (ctx_within_cons _ _ _ Hw) as (G & fr' & ->). rewrite (ctx_within_frame _ _ _ _ Hw).
    rewrite decide_False in Hp by done. subst pend. rewrite <- app_assoc.
    rewrite !elem_of_cons, elem_of_nil in Hty. destruct Hty as [->|[->|[]]].
    + change T.Object with (type_of (VObject fs)).
      rewrite <- enc_value_VObject, <- enc_elem_header. eapply ctx_extend; [done| |done].
      split; [done|]. by apply valid_VObject.
    + change T.Array with (type_of (VArray fs)).
      rewrite <- enc_value_VArray, <- enc_elem_header. eapply ctx_extend; [done| |done].
      split; [done|]. by apply valid_VArray.
  - destruct HG as (? & Hcws & ?). rewrite Hcws. rewrite decide_False in Hp by done. subst pend.
    exists G, fr', P1, raw', code, fs. rewrite <- !app_assoc. done.
Qed.

Lemma wp_EndCodeWScope (s : vstate) (P : bytes) :
  inv s P -> state s = EndCodeWScope -> wp m (step en s) (progress s P).
Proof.
  intros (Hat & [Hid Hbid] & Hs) Est. unfold shape, step in *. rewrite Est in *.
  destruct Hs as (F & fr & P0 & raw & code & fs & Efr & Hc & HF & Hcode & Hfs & ->).
  rewrite Efr. pose proof Hat as (_ & _ & _ & Hpos & Hle & _).
  destruct (Z.eqb_spec (actualLength s F) (expectedSize F)) as [El|]; cbn [negb];
    [|by apply makeError_ok].
  assert (raw = le_encode 4 (Z.of_nat (length (enc_str code ++ enc_obj fs)) + 4)) as Eraw.
  { pose proof HF as (_ & _ & Hl & _). rewrite !length_app in *.
    eapply close_frame; [done| |lia|done]. rewrite Hpos. lia. }
  inversion Hc as [| | |? P1 nm ? ? Hw Hnm Hep|]; subst fr P0.
  destruct (ctx_within_cons _ _ _ Hw) as (G & fr' & ->). cbn [wp].
  exists ((P1 ++ header T.CodeWScope nm) ++ raw ++ enc_str code ++ enc_obj fs). split; [|unfold measure; cbn [frames length]; rewrite Efr; cbn [length]; lia].
  split; [done|]. split; [done|]. unfold shape. cbn [state frames idElemStartPos].
  rewrite <- app_assoc. rewrite Eraw at 1. rewrite <- enc_value_VCodeWScope.
  change T.CodeWScope with (type_of (VCodeWScope code fs)). rewrite <- enc_elem_header.
  eapply ctx_extend; [done| |done]. split; [done|]. by apply valid_VCodeWScope.
Qed.

Lemma wp_step (s : vstate) (P : bytes) :
  inv s P -> state s <> Done -> wp m (step en s) (progress s P).
Proof.
  intros Hinv Hd. pose proof Hinv as (Hat & Hids & Hs).
  destruct (state s) eqn:Est; [| |by apply wp_EndObj| |by apply wp_EndCodeWScope|done].
  - unfold step, shape in *. rewrite Est in *. apply wp_bind.
    eapply wp_mono; [by apply (wp_push_frame s P)|]. intros ? (raw & F & HF & -> & Hb).
    pose proof HF as (_ & _ & Hl & _).
    eapply wp_mono; [apply (wp_within_obj _ (P ++ raw)); [done|done|]|].
    + cbn [frames idElemStartPos]. rewrite <- (app_nil_r raw). change [] with (enc_fields []).
      eapply ctx_within; [done|done|constructor|].
      destruct (decide (frames s = [])) as [E|]; [|done]. left. rewrite E in Hs.
      by apply ctx_opened_root in Hs as [_ ?].
    + cbn [frames]. intros s' (Hfr & P' & Hi & Hlt). exists P'. split; [done|].
      rewrite length_app in Hlt. unfold measure. rewrite Hfr. cbn [length]. lia.
  - unfold step, shape in *. rewrite Est in *.
    eapply wp_mono; [by apply (wp_within_obj _ P)|].
    intros s' (Hfr & P' & Hi & Hlt). exists P'. split; [done|]. unfold measure. rewrite Hfr. lia.
  - unfold step, shape in *. rewrite Est in *. apply wp_bind.
    eapply wp_mono; [by apply (wp_push_frame s P)|]. intros ? (raw & F & HF & -> & Hb).
    cbn [buf]. apply wp_bind.
    eapply wp_mono; [apply (wp_readUTF8String _ (P ++ raw)); [done|apply Hids]|].
    intros b' (code & Hcode & -> & Hb'). cbn [wp]. pose proof HF as (_ & _ & Hl & _).
    exists ((P ++ raw) ++ enc_str code). split.
    + split; [done|]. split; [done|]. unfold shape. cbn. rewrite <- app_assoc. by econstructor.
    + unfold measure. cbn [frames length]. solve_length.
Qed.

(** *** The loop: termination, safety and soundness *)

Definition accepted (st : Status) : Prop :=
  st = OK /\ exists fs t, valid_doc ver fs /\ m = enc_obj fs ++ t /\
    Z.of_nat (length (enc_obj fs)) <= maxLength.

Lemma wp_loop (fuel : nat) : forall (s : vstate) (P : bytes),
  inv s P -> measure s P < Z.of_nat fuel -> wp m (loop en fuel s) accepted.
Proof.
  induction fuel as [|fuel IH]; intros s P Hinv Hf.
  { destruct Hinv as ((_ & _ & _ & _ & Hle & _) & _). unfold measure in Hf. lia. }
  destruct (decide (state s = Done)) as [Ed|Hd].
  - destruct Hinv as ((_ & _ & _ & _ & Hle & t & Em) & _ & Hs).
    unfold shape in Hs. cbn [loop]. rewrite Ed in *. destruct Hs as (fs & Hfs & ->).
    split; [done|]. by exists fs, t.
  - assert (loop en (S fuel) s = (s ← step en s; loop en fuel s)) as ->.
    { cbn [loop]. by destruct (state s). }
    apply wp_bind. eapply wp_mono; [by apply (wp_step s P)|].
    intros s' (P' & Hi & Hlt). apply (IH s' P' Hi). lia.
Qed.

Lemma initial_inv : inv (mkState [] BeginObj 0 Elt.eoo_elt (Buffer_new m maxLength ver)) [].
Proof.
  split; [|split; [by split; left|constructor]].
  unfold at_. cbn. split_and!; try done; [lia|]. by exists m.
Qed.

Lemma wp_validateBSON : wp m (validateBSON en m maxLength ver) accepted.
Proof.
  unfold validateBSON, validateBSONIterative. destruct (Z.ltb_spec maxLength 5); [done|].
  apply (wp_loop _ _ []); [apply initial_inv|]. unfold measure. cbn. lia.
Qed.

(** *** Completeness *)

Definition runs (s s' : vstate) : Prop := rtc (fun s s' => state s <> Done /\ step en s = Ret s') s s'.

Lemma loop_runs (s s' : vstate) : runs s s' -> state s' = Done ->
  exists k, loop en k s = Ret OK.
Proof.
  induction 1 as [s|s s1 s' [Hd Hs] _ IH]; intros Ed.
  - exists 0%nat. cbn. by rewrite Ed.
  - destruct (IH Ed) as [k Hk]. exists (S k). cbn [loop]. rewrite Hs.
    by destruct (state s).
Qed.

Lemma loop_mono (j k : nat) : forall s, loop en k s <> NoFuel -> loop en (k + j) s = loop en k s.
Proof.
  induction k as [|k IH]; intros s Hk; cbn [loop Nat.add] in *.
  { destruct j; cbn [loop]; by destruct (state s). }
  destruct (state s); try done; destruct (step en s) as [s'| | |]; try done; by apply IH.
Qed.

Lemma loop_agree (j k : nat) (s : vstate) :
  loop en k s = Ret OK -> loop en j s <> NoFuel -> loop en j s = Ret OK.
Proof.
  intros Hk Hj. rewrite <- (loop_mono k j s Hj), Nat.add_comm, loop_mono; congruence.
Qed.

(** [s] stands after [P] with the frames [fr]. *)
Definition stands (s : vstate) (st : State) (fr : list ValidationObjectFrame) (P : bytes) : Prop :=
  state s = st /\ frames s = fr /\ at_ (buf s) P.

Lemma runs_step (s s1 s2 : vstate) : state s <> Done -> step en s = Ret s1 -> runs s1 s2 -> runs s s2.
Proof. intros Hd Hs Hr. by eapply rtc_l. Qed.

Lemma runs_trans (s1 s2 s3 : vstate) : runs s1 s2 -> runs s2 s3 -> runs s1 s3.
Proof. unfold runs. intros. by etrans. Qed.

Lemma info_eoo (b : Buffer) (P t : bytes) (ns : State) (id : Elt.BSONElement) :
  at_ b P -> m = P ++ [0] ++ t -> Z.of_nat (length P + 1) <= maxLength ->
  validateElementInfo b ns id = Ret (adv b (P ++ [0]), EndObj, []).
Proof.
  intros Hb E Hle. unfold validateElementInfo. by rewrite (readNumber_ok b P [0] t 1).
Qed.

Lemma info_header (b : Buffer) (P t nm : bytes) (v : value) (ns : State) (id : Elt.BSONElement) :
  at_ b P -> m = P ++ header (type_of v) nm ++ t -> 0 ∉ nm ->
  Z.of_nat (length (P ++ header (type_of v) nm)) <= maxLength ->
  validateElementInfo b ns id =
    validateValue (type_of v) ns id nm (adv b (P ++ header (type_of v) nm)).
Proof.
  intros Hb E Hnm Hle. unfold validateElementInfo, header in *.
  rewrite length_app in Hle. cbn [length] in Hle. rewrite length_app in Hle. cbn [length] in Hle.
  set (c := type_byte (type_of v)) in *.
  rewrite (readNumber_ok b P [c] ((nm ++ [0]) ++ t) 1) by (done || lia).
  cbn [mbind outcome_bind need]. change (le_decode [c]) with (c + 256 * 0).
  replace (c + 256 * 0) with c by lia. unfold c. rewrite type_byte_signed.
  destruct (Z.eqb_spec (type_of v) T.EOO) as [E0|_]; [by destruct v|].
  rewrite (readCString_ok _ (P ++ [c]) nm t).
  - cbn [mbind outcome_bind]. f_equal. unfold adv, set_position. cbn. by rewrite <- app_assoc.
  - apply (at_adv b P); [done|solve_length|].
    exists ((nm ++ [0]) ++ t). by rewrite E, <- app_assoc.
  - rewrite E. rewrite <- !app_assoc. cbn [app]. by rewrite <- !app_assoc.
  - done.
  - solve_length.
Qed.

(** One round of [WithinObj], given what [validateElementInfo] returns. *)
Lemma within_round (s : vstate) (fr : list ValidationObjectFrame) (P P' t nm : bytes) (ns : State) :
  stands s WithinObj fr P -> m = P' ++ t -> Z.of_nat (length P') <= maxLength ->
  (forall b id, at_ b P -> validateElementInfo b WithinObj id = Ret (adv b P', ns, nm)) ->
  exists s', step en s = Ret s' /\ stands s' ns fr P'.
Proof.
  intros (Es & Ef & Hat) Em Hle Hinfo. unfold step. rewrite Es. unfold within_obj.
  assert (at_ (buf (finish_id s)) P /\ frames (finish_id s) = fr) as [Hat' Ef'].
  { unfold finish_id. by destruct (_ && _). }
  rewrite Hinfo by done. cbn [mbind outcome_bind]. eexists. split; [done|].
  split; [done|]. split; [done|]. apply (at_adv _ P); [done|done|by exists t].
Qed.

Definition elem_runs (v : value) : Prop :=
  forall nm s F fr P t,
  valid_field ver (nm, v) -> stands s WithinObj (F :: fr) P ->
  isCodeWithScope F = false ->
  m = P ++ enc_elem (nm, v) ++ t -> Z.of_nat (length (P ++ enc_elem (nm, v))) < maxLength ->
  exists s', runs s s' /\ stands s' WithinObj (F :: fr) (P ++ enc_elem (nm, v)).

Lemma leaf_runs (v : value) : nested v = false -> elem_runs v.
Proof.
  intros Hn nm s F fr P t [Hnm Hv] Hs HF E Hlt. cbn [fst snd] in *.
  rewrite enc_elem_header in *. rewrite !app_assoc in *.
  destruct (within_round s (F :: fr) P ((P ++ header (type_of v) nm) ++ enc_value v) t nm WithinObj)
    as (s' & Hst & Hs'); [done|done|lia| |].
  - intros b id Hb. rewrite (info_header b P (enc_value v ++ t) nm v).
    + apply (validateValue_leaf_ok (adv b (P ++ header (type_of v) nm)) _ t); try done.
      * apply (at_adv b P); [done|solve_length|]. exists (enc_value v ++ t).
        by rewrite E, <- !app_assoc.
      * by rewrite E, <- !app_assoc.
    + done.
    + by rewrite E, <- !app_assoc.
    + apply Hnm.
    + solve_length.
  - exists s'. split; [|done]. apply (runs_step _ s'); [|done|constructor]. by destruct Hs as [-> _].
Qed.

(** The elements of an object and its end. *)
Lemma fields_run (fs : list field) (F : ValidationObjectFrame) (fr : list ValidationObjectFrame) :
  Forall (fun f => elem_runs f.2) fs -> isCodeWithScope F = false -> valid_doc ver fs ->
  forall s P t, stands s WithinObj (F :: fr) P ->
  m = P ++ (enc_fields fs ++ [0]) ++ t ->
  Z.of_nat (length (P ++ enc_fields fs ++ [0])) <= maxLength ->
  exists s', runs s s' /\ stands s' EndObj (F :: fr) (P ++ enc_fields fs ++ [0]).
Proof.
  intros Hfs HF. induction Hfs as [|[nm v] fs Hv Hfs IH]; intros Hval s P t Hs E Hle.
  - destruct (within_round s (F :: fr) P (P ++ [0]) t [] EndObj) as (s' & Hst & Hs').
    + done.
    + by rewrite E, <- !app_assoc.
    + done.
    + intros b id Hb. apply (info_eoo b P t); [done|done|]. rewrite length_app in Hle. exact Hle.
    + exists s'. split; [|done]. apply (runs_step _ s'); [|done|constructor]. by destruct Hs as [-> _].
  - unfold valid_doc in Hval. rewrite Forall_cons in Hval. destruct Hval as [Hvf Hval].
    rewrite enc_fields_cons in *. rewrite <- !app_assoc in *.
    destruct (Hv nm s F fr P (enc_fields fs ++ [0] ++ t)) as (s1 & Hr1 & Hs1); try done.
    { cbn [snd]. solve_length. }
    destruct (IH Hval s1 (P ++ enc_elem (nm, v)) t) as (s' & Hr & Hs'); [done| | |].
    { by rewrite E, <- !app_assoc. }
    { by rewrite <- !app_assoc. }
    exists s'. split; [by eapply runs_trans|]. by rewrite <- !app_assoc in Hs'.
Qed.

(** The state after the end of an object, from the frame below it. *)
Definition next_state (fr : list ValidationObjectFrame) : State :=
  match fr with
  | [] => Done
  | G :: _ => if isCodeWithScope G then EndCodeWScope else WithinObj
  end.

Lemma push_frame_ok (s : vstate) (P t : bytes) (n : Z) (cws : bool) (msg : string) :
  at_ (buf s) P -> m = P ++ le_encode 4 n ++ t -> Z.of_nat (length P + 4) <= maxLength ->
  0 <= n < 2 ^ 31 ->
  exists F s', push_frame s cws msg = Ret s' /\ stands s' WithinObj (F :: frames s) (P ++ le_encode 4 n) /\
    startPosition F = Z.of_nat (length P) /\ isCodeWithScope F = cws /\ expectedSize F = n.
Proof.
  intros Hat E Hle Hn. unfold push_frame.
  rewrite (readNumber_ok (buf s) P (le_encode 4 n) t 4) by (done || apply length_le_encode).
  cbn [mbind outcome_bind need]. eexists _, _. split; [done|].
  rewrite le_decode_encode. change (256 ^ Z.of_nat 4) with (2 ^ 32).
  rewrite Z.mod_small, wraps_small by lia.
  assert (_position (buf s) = Z.of_nat (length P)) as -> by apply Hat.
  split.
  - split; [done|]. split; [done|]. apply (at_adv _ P); [done| |].
    + solve_length.
    + exists t. by rewrite E, <- app_assoc.
  - destruct (new_frame_spec (Z.of_nat (length P)) n cws ltac:(lia)). done.
Qed.

Lemma actualLength_ok (s : vstate) (F : ValidationObjectFrame) (P Q : bytes) :
  at_ (buf s) (P ++ Q) -> startPosition F = Z.of_nat (length P) ->
  expectedSize F = Z.of_nat (length Q) -> (actualLength s F =? expectedSize F) = true.
Proof.
  intros (_ & _ & _ & Hp & Hle & _) Hs He. apply Z.eqb_eq. unfold actualLength.
  rewrite Hp, Hs, He. rewrite length_app in *. rewrite wraps_small; lia.
Qed.

Lemma obj_run (fs : list field) (fr : list ValidationObjectFrame) (s : vstate) (P t : bytes) :
  Forall (fun f => elem_runs f.2) fs -> valid_doc ver fs -> stands s BeginObj fr P ->
  m = P ++ enc_obj fs ++ t -> Z.of_nat (length (P ++ enc_obj fs)) <= maxLength ->
  exists s', runs s s' /\ stands s' (next_state fr) fr (P ++ enc_obj fs).
Proof.
  intros Hfs Hval (Est & <- & Hat) E Hle.
  pose proof Hle as Hle'. rewrite length_app, length_enc_obj in Hle'.
  unfold enc_obj, wrap_doc in E. rewrite <- !app_assoc in E.
  set (n := Z.of_nat (length (enc_fields fs)) + 5) in *.
  destruct (push_frame_ok s P (enc_fields fs ++ [0] ++ t) n false
    "bson size is larger than buffer size") as (F & s1 & Hpush & Hs1 & Hst & Hcws & Hsz);
    [done|done|lia|lia|].
  destruct (fields_run fs F (frames s) Hfs Hcws Hval s1 (P ++ le_encode 4 n) t) as (s2 & Hr & Hs2);
    [done|by rewrite E, <- !app_assoc| |].
  { solve_length. }
  assert ((P ++ le_encode 4 n) ++ enc_fields fs ++ [0] = P ++ enc_obj fs) as EP.
  { unfold enc_obj, wrap_doc. fold n. by rewrite <- !app_assoc. }
  rewrite EP in Hs2. destruct Hs2 as (Est2 & Efr2 & Hat2).
  assert (runs s s2) as Hr2.
  { inversion Hr as [|? s3 ? [_ Hstep] Hr3]; subst.
    { destruct Hs1 as [Est1 _]. congruence. }
    apply (runs_step _ s3); [by rewrite Est| |done]. unfold step at 1. rewrite Est, Hpush.
    cbn [mbind outcome_bind]. rewrite <- Hstep. unfold step. by destruct Hs1 as [-> _]. }
  exists (mkState (frames s) (next_state (frames s)) (idElemStartPos s2) (idElem s2) (buf s2)).
  split; [|done]. eapply runs_trans; [exact Hr2|].
  eapply runs_step; [by rewrite Est2| |constructor]. unfold step. rewrite Est2, Efr2.
  rewrite (actualLength_ok s2 F P (enc_obj fs)) by (done || rewrite length_enc_obj; lia).
  done.
Qed.

Lemma header_run (v : value) (nm P t : bytes) (s : vstate) (fr : list ValidationObjectFrame) (ns : State) :
  stands s WithinObj fr P -> 0 ∉ nm -> m = P ++ header (type_of v) nm ++ t ->
  Z.of_nat (length (P ++ header (type_of v) nm)) <= maxLength ->
  (forall b id, validateValue (type_of v) WithinObj id nm b = Ret (b, ns, nm)) ->
  exists s', runs s s' /\ stands s' ns fr (P ++ header (type_of v) nm).
Proof.
  intros Hs Hnm E Hle Hv.
  destruct (within_round s fr P (P ++ header (type_of v) nm) t nm ns) as (s' & Hst & Hs');
    [done|by rewrite E, <- app_assoc|done| |].
  - intros b id Hb. by rewrite (info_header b P t nm v), Hv.
  - exists s'. split; [|done]. apply (runs_step _ s'); [|done|constructor]. by destruct Hs as [-> _].
Qed.

(** Objects and arrays differ only in their type byte. *)
Lemma object_runs (v : value) (fs : list field) :
  Forall (fun f => elem_runs f.2) fs -> enc_value v = enc_obj fs ->
  (valid_value ver v -> valid_doc ver fs) ->
  (forall b id nm, validateValue (type_of v) WithinObj id nm b = Ret (b, BeginObj, nm)) ->
  elem_runs v.
Proof.
  intros Hfs Henc Hdoc Hty nm s F fr P t [Hnm Hval] Hs HF E Hlt. cbn [fst snd] in *.
  rewrite enc_elem_header, Henc in *. rewrite <- !app_assoc in E. rewrite !app_assoc in *.
  destruct (header_run v nm P (enc_obj fs ++ t) s (F :: fr) BeginObj) as (s1 & Hr1 & Hs1);
    [done|apply Hnm|by rewrite E, <- !app_assoc|solve_length|done|].
  destruct (obj_run fs (F :: fr) s1 (P ++ header (type_of v) nm) t) as (s2 & Hr2 & Hs2);
    [done|by apply Hdoc|done|by rewrite E, <- !app_assoc|lia|].
  exists s2. split; [by eapply runs_trans|]. cbn in Hs2. by rewrite HF in Hs2.
Qed.

Lemma scope_runs (code : bytes) (fs : list field) :
  Forall (fun f => elem_runs f.2) fs -> elem_runs (VCodeWScope code fs).
Proof.
  intros Hfs nm s F fr P t [Hnm Hval] Hs HF E Hlt. cbn [fst snd] in *.
  apply valid_VCodeWScope in Hval as [Hcode Hdoc].
  rewrite enc_elem_header, enc_value_VCodeWScope in *.
  set (hd := header (type_of (VCodeWScope code fs)) nm) in *.
  set (n := Z.of_nat (length (enc_str code ++ enc_obj fs)) + 4) in *.
  rewrite <- !app_assoc in E. rewrite !length_app, length_le_encode in Hlt.
  assert (n = Z.of_nat (4 + length (enc_str code) + length (enc_obj fs))) as En
    by (unfold n; solve_length).
  destruct (header_run (VCodeWScope code fs) nm P (le_encode 4 n ++ enc_str code ++ enc_obj fs ++ t)
    s (F :: fr) BeginCodeWScope) as (s1 & Hr1 & Est1 & Efr1 & Hat1);
    [done|apply Hnm|done|rewrite length_app; unfold hd in *; lia|done|].
  fold hd in Hat1.
  destruct (push_frame_ok s1 (P ++ hd) (enc_str code ++ enc_obj fs ++ t) n true
    "invalid bson CodeWScope size") as (G & s2 & Hpush & (Est2 & Efr2 & Hat2) & Hst & Hcws & Hsz);
    [done|by rewrite E, <- !app_assoc|solve_length|lia|].
  set (P2 := (P ++ hd) ++ le_encode 4 n) in *.
  assert (readUTF8String (buf s2) = Ret (adv (buf s2) (P2 ++ enc_str code))) as Hcs.
  { apply (readUTF8String_ok _ _ _ (enc_obj fs ++ t)); [done| |].
    - unfold P2. by rewrite E, <- !app_assoc.
    - unfold P2. solve_length. }
  set (s3 := mkState (G :: F :: fr) BeginObj (idElemStartPos s2) (idElem s2)
    (adv (buf s2) (P2 ++ enc_str code))).
  assert (runs s s3) as Hr3.
  { eapply runs_trans; [exact Hr1|]. eapply runs_step; [by rewrite Est1| |constructor].
    unfold step. rewrite Est1, Hpush. cbn [mbind outcome_bind]. rewrite Hcs. cbn.
    by rewrite Efr2, Efr1. }
  destruct (obj_run fs (G :: F :: fr) s3 (P2 ++ enc_str code) t) as (s4 & Hr4 & Est4 & Efr4 & Hat4).
  { done. } { done. }
  { split; [done|]. split; [done|]. apply (at_adv _ P2); [done| |].
    - unfold P2. solve_length.
    - exists (enc_obj fs ++ t). unfold P2. by rewrite E, <- !app_assoc. }
  { unfold P2. by rewrite E, <- !app_assoc. }
  { unfold P2. solve_length. }
  cbn [next_state] in Est4. rewrite Hcws in Est4.
  assert ((P2 ++ enc_str code) ++ enc_obj fs =
    (P ++ hd) ++ le_encode 4 n ++ enc_str code ++ enc_obj fs) as EP
    by (unfold P2; by rewrite <- !app_assoc).
  rewrite EP in Hat4.
  exists (mkState (F :: fr) WithinObj (idElemStartPos s4) (idElem s4) (buf s4)).
  split; [|by rewrite <- app_assoc in Hat4].
  eapply runs_trans; [exact Hr3|]. eapply runs_trans; [exact Hr4|].
  eapply runs_step; [by rewrite Est4| |constructor]. unfold step. rewrite Est4, Efr4.
  rewrite (actualLength_ok s4 G (P ++ hd) (le_encode 4 n ++ enc_str code ++ enc_obj fs));
    [done|done|done|]. rewrite Hsz, !length_app, length_le_encode. lia.
Qed.

Lemma all_elem_runs (v : value) : elem_runs v.
Proof.
  induction v as [fs IH|fs IH|code fs IH|v Hv] using value_nested_ind.
  - apply (object_runs _ fs IH); [apply enc_value_VObject|by rewrite valid_VObject|done].
  - apply (object_runs _ fs IH); [apply enc_value_VArray|by rewrite valid_VArray|done].
  - by apply scope_runs.
  - apply leaf_runs. by destruct v.
Qed.

Lemma validateBSON_complete (fs : list field) (t : bytes) :
  valid_doc ver fs -> m = enc_obj fs ++ t -> Z.of_nat (length (enc_obj fs)) <= maxLength ->
  validateBSON en m maxLength ver = Ret OK.
Proof.
  intros Hfs E Hle. pose proof wp_validateBSON as Hwp. unfold validateBSON, validateBSONIterative in *.
  pose proof Hle as Hle'. rewrite length_enc_obj in Hle'.
  destruct (Z.ltb_spec maxLength 5); [lia|].
  set (s0 := mkState _ _ _ _ _) in *.
  destruct (obj_run fs [] s0 [] t) as (s' & Hr & Hd & _).
  { apply Forall_forall. intros f _. apply all_elem_runs. }
  { done. } { split; [done|]. split; [done|]. apply initial_inv. } { done. } { done. }
  destruct (loop_runs s0 s' Hr Hd) as [k Hk]. apply (loop_agree _ k s0 Hk).
  intros Hn. by rewrite Hn in Hwp.
Qed.

End validator.

(** C18. The validator accepts exactly the buffers that start with the encoding of a
    well-formed document that fits in [maxLength] bytes, of a version with decimals or
    without any: every such document is accepted, however deep it is nested, and nothing else
    is. The length of the buffer is below [2 ^ 31]. *)
Theorem validateBSON_exact (en : SD.endian) (m : bytes) (maxLength : Z) (ver : BSONVersion) :
  bytes_ok m -> 0 <= maxLength <= Z.of_nat (length m) -> maxLength < 2 ^ 31 ->
  validateBSON en m maxLength ver = Ret OK <->
  exists fs t, valid_doc ver fs /\ m = enc_obj fs ++ t /\ Z.of_nat (length (enc_obj fs)) <= maxLength.
Proof.
  intros Hm Hmax Hint. split.
  - intros E. pose proof (wp_validateBSON en m maxLength ver Hm Hmax Hint) as H.
    rewrite E in H. apply H.
  - intros (fs & t & Hfs & E & Hle). by apply (validateBSON_complete en m maxLength ver Hm Hmax Hint fs t).
Qed.

Definition sample_doc : list field :=
  [(lit "_id", VInt 7); (lit "s", VString (lit "x"));
   (lit "o", VObject [(lit "a", VArray [(lit "0", VBool true)])]);
   (lit "c", VCodeWScope (lit "f") [(lit "y", VNull)])].

Lemma validateBSON_exact_witness :
  validateBSON SD.LittleEndian (enc_obj sample_doc ++ [9]) (Z.of_nat (length (enc_obj sample_doc))) kV1_0
    = Ret OK.
Proof.
  apply (validateBSON_exact SD.LittleEndian (enc_obj sample_doc ++ [9])
    (Z.of_nat (length (enc_obj sample_doc))) kV1_0).
  - unfold bytes_ok, sample_doc, byte_ok. vm_compute enc_obj.
    repeat constructor; vm_compute; congruence.
  - solve_length.
  - reflexivity.
  - exists sample_doc, [9]. split; [|split; [reflexivity|lia]].
    apply valid_doc_has_decimal. split; [unfold sample_doc; solve_wf|reflexivity].
Defined.

(** C19. On every buffer of at least [maxLength] bytes, whatever they are, the validator
    terminates within its fuel and reads nothing outside the buffer: it returns OK or an
    [InvalidBSON] status. *)
Theorem validateBSON_total (en : SD.endian) (m : bytes) (maxLength : Z) (ver : BSONVersion) :
  bytes_ok m -> 0 <= maxLength <= Z.of_nat (length m) -> maxLength < 2 ^ 31 ->
  validateBSON en m maxLength ver = Ret OK \/
  exists msg s, validateBSON en m maxLength ver = Throw (InvalidBSON msg s).
Proof.
  intros Hm Hmax Hint. pose proof (wp_validateBSON en m maxLength ver Hm Hmax Hint) as H.
  destruct (validateBSON en m maxLength ver) as [st|[|msg s]| |]; try done.
  - left. f_equal. apply H.
  - right. by exists msg, s.
Qed.

Lemma validateBSON_total_witness :
  validateBSON SD.LittleEndian [255; 255; 255; 255; 1; 97] 6 kV1_1 = Ret OK \/
  exists msg s, validateBSON SD.LittleEndian [255; 255; 255; 255; 1; 97] 6 kV1_1 = Throw (InvalidBSON msg s).
Proof.
  apply (validateBSON_total SD.LittleEndian [255; 255; 255; 255; 1; 97] 6 kV1_1).
  - unfold bytes_ok, byte_ok. repeat constructor; vm_compute; congruence.
  - cbn. lia.
  - reflexivity.
Defined.

(** The [_id] element an error message prints has been validated in full before:
    the bytes it points to are those of a well-formed element named [_id] of the buffer,
    so that printing it stays inside the buffer. *)
Lemma error_id_validated (en : SD.endian) (m : bytes) (maxLength : Z) (ver : BSONVersion)
    (msg : string) (e : Elt.BSONElement) :
  bytes_ok m -> 0 <= maxLength <= Z.of_nat (length m) -> maxLength < 2 ^ 31 ->
  validateBSON en m maxLength ver = Throw (InvalidBSON msg (WithId e)) ->
  exists p v rest, drop p m = enc_elem (lit "_id", v) ++ rest /\ wf_value v /\
    e = Elt.BSONElement_new (drop p m).
Proof.
  intros Hm Hmax Hint E. pose proof (wp_validateBSON en m maxLength ver Hm Hmax Hint) as H.
  by rewrite E in H.
Qed.

(** A valid [_id] followed by an element of an unknown type. *)
Definition broken_doc : bytes :=
  [20; 0; 0; 0] ++ enc_elem (lit "_id", VInt 7) ++ [99; 120; 0; 0; 0; 0; 0].

Lemma error_id_validated_witness :
  exists p v rest, drop p broken_doc = enc_elem (lit "_id", v) ++ rest /\ wf_value v /\
    Elt.BSONElement_new (drop 4 broken_doc) = Elt.BSONElement_new (drop p broken_doc).
Proof.
  apply (error_id_validated SD.LittleEndian broken_doc 20 kV1_1 "invalid bson type").
  - unfold bytes_ok, broken_doc, byte_ok. vm_compute enc_elem. repeat constructor; vm_compute; congruence.
  - vm_compute. split; congruence.
  - reflexivity.
  - vm_compute. reflexivity.
Defined.

(** A validated buffer is safe to search: whatever the name, [BSONObj::getField] on
    its bytes terminates inside the object and returns the first field of the document
    the buffer holds, or EOO, provided the byte before the size table reads as zero. *)
Theorem validated_getField (en : SD.endian) (m : bytes) (maxLength : Z) (ver : BSONVersion)
    (before : Z -> Z) :
  bytes_ok m -> 0 <= maxLength <= Z.of_nat (length m) -> maxLength < 2 ^ 31 ->
  before (-1) = 0 -> validateBSON en m maxLength ver = Ret OK ->
  exists fs, wf_doc fs /\ Z.of_nat (length (enc_obj fs)) <= maxLength /\ forall name, bytes_ok name ->
    Iter.getField before en m (SD.mkStringData (Some name)) = Some (field_elt m fs name).
Proof.
  intros Hm Hmax Hint Hb E. pose proof (wp_validateBSON en m maxLength ver Hm Hmax Hint) as H.
  rewrite E in H. destruct H as (_ & fs & t & Hfs & -> & Hle).
  apply valid_doc_has_decimal in Hfs as [Hfs _]. exists fs. split; [done|]. split; [done|].
  intros name Hname. apply getField_doc; [done|done|lia|]. by left.
Qed.

Lemma validated_getField_witness :
  exists fs, wf_doc fs /\ Z.of_nat (length (enc_obj fs)) <= 25 /\ forall name, bytes_ok name ->
    Iter.getField (fun _ => 0) SD.LittleEndian (enc_obj [(lit "_id", VInt 7); (lit "a", VLong 1)])
      (SD.mkStringData (Some name)) =
    Some (field_elt (enc_obj [(lit "_id", VInt 7); (lit "a", VLong 1)]) fs name).
Proof.
  apply (validated_getField SD.LittleEndian (enc_obj [(lit "_id", VInt 7); (lit "a", VLong 1)])
    25 kV1_0).
  - unfold bytes_ok, byte_ok. vm_compute enc_obj. repeat constructor; vm_compute; congruence.
  - vm_compute. split; congruence.
  - reflexivity.
  - reflexivity.
  - vm_compute. reflexivity.
Defined.

End Validate.
