(* ===== verification/BsonDecode.v ===== *)
(** * Reading documents back

    The typed accessors of [BSONElement] and the traversal of a document with
    [BSONObjIterator], over raw memory as in [Bson]. Together they read the value that
    [BSONObjBuilder] has written. *)
From S2P Require Import Prelude StringData Bson.

Module Decode.
Import Elt Iter.

(** ** Accessors *)

(** [n] bytes at a pointer; [None] outside the memory. *)
Definition read (n : nat) (p : bytes) : option bytes := if bool_decide (n <= length p)%nat then Some (take n p) else None.
(** [ConstDataView(p).read<LittleEndian<int>>()]. *)
Definition read_int (p : bytes) : option Z := wraps 32 <$> read_u32 p.
(** A C string and what follows it. *)
Definition cstring (p : bytes) : option (bytes * bytes) := k ← SD.memchr p 0; Some (take k p, drop (S k) p).

Definition boolean (e : BSONElement) : option bool := p ← value_ptr e; b ← head p; Some (negb (b =? 0)).
Definition _numberInt (e : BSONElement) : option Z := value_ptr e ≫= read_int.
Definition _numberLong (e : BSONElement) : option Z := p ← value_ptr e; l ← read 8 p; Some (wraps 64 (le_decode l)).
(** [date()], in milliseconds. *)
Definition date (e : BSONElement) : option Z := p ← value_ptr e; l ← read 8 p; Some (wraps 64 (le_decode l)).
Definition timestampValue (e : BSONElement) : option Z := p ← value_ptr e; l ← read 8 p; Some (le_decode l).
(** [_numberDouble()], [__oid()] and [_numberDecimal()] as their bytes. *)
Definition _numberDouble (e : BSONElement) : option bytes := value_ptr e ≫= read 8.
Definition __oid (e : BSONElement) : option bytes := value_ptr e ≫= read 12.
Definition _numberDecimal (e : BSONElement) : option bytes := value_ptr e ≫= read 16.

(** [valueStringData()]: the terminator is not part of the string. *)
Definition valueStringData (e : BSONElement) : option bytes :=
  p ← value_ptr e; n ← valuestrsize e; if n <? 1 then None else read (Z.to_nat (n - 1)) (drop 4 p).

Definition binData (e : BSONElement) : option bytes :=
  p ← value_ptr e; len ← valuestrsize e; if len <? 0 then None else read (Z.to_nat len) (drop 5 p).
Definition binDataType (e : BSONElement) : option Z := p ← value_ptr e; p !! 4%nat.

Definition regex (e : BSONElement) : option bytes := p ← value_ptr e; fst <$> cstring p.
Definition regexFlags (e : BSONElement) : option bytes := p ← value_ptr e; r ← cstring p; fst <$> cstring r.2.

Definition dbrefOID (e : BSONElement) : option bytes :=
  start ← value_ptr e; n ← read_int start; if n <? 0 then None else read 12 (drop (Z.to_nat (4 + n)) start).

Definition codeWScopeCodeLen (e : BSONElement) : option Z := p ← value_ptr e; read_int (drop 4 p).
Definition codeWScopeCode (e : BSONElement) : option bytes :=
  p ← value_ptr e; n ← codeWScopeCodeLen e; if n <? 1 then None else read (Z.to_nat (n - 1)) (drop 8 p).
(** The memory at the scope object. *)
Definition codeWScopeObject (e : BSONElement) : option bytes :=
  p ← value_ptr e; n ← codeWScopeCodeLen e; if n <? 0 then None else Some (drop (Z.to_nat (8 + n)) p).

(** ** Whole documents *)

(** The value of an element, by its type; [object] reads the nested documents. *)
Definition value_of (object : bytes -> option (list field)) (e : BSONElement) : option value :=
  t ← type e;
  match t with
  | 1 => VDouble <$> _numberDouble e
  | 2 => VString <$> valueStringData e
  | 3 => VObject <$> (value_ptr e ≫= object)
  | 4 => VArray <$> (value_ptr e ≫= object)
  | 5 => ty ← binDataType e; VBinData ty <$> binData e
  | 6 => Some VUndefined
  | 7 => VOID <$> __oid e
  | 8 => VBool <$> boolean e
  | 9 => VDate <$> date e
  | 10 => Some VNull
  | 11 => r ← regex e; VRegEx r <$> regexFlags e
  | 12 => ns ← valueStringData e; VDBRef ns <$> dbrefOID e
  | 13 => VCode <$> valueStringData e
  | 14 => VSymbol <$> valueStringData e
  | 15 => c ← codeWScopeCode e; VCodeWScope c <$> (codeWScopeObject e ≫= object)
  | 16 => VInt <$> _numberInt e
  | 17 => VTimestamp <$> timestampValue e
  | 18 => VLong <$> _numberLong e
  | 19 => VDecimal <$> _numberDecimal e
  | -1 => Some VMinKey
  | 127 => Some VMaxKey
  | _ => None
  end.

Definition field_of (object : bytes -> option (list field)) (e : BSONElement) : option field :=
  n ← fieldNameStringData e; v ← value_of object e; Some (SD.rawData n, v).

(** [while (it.more()) it.next()], [before] as in [Elt.size]. *)
Fixpoint iterate (before : Z -> Z) (read : BSONElement -> option field) (fuel : nat) (jso : bytes) (i : BSONObjIterator)
    : option (list field) :=
  match fuel with
  | O => None
  | S fuel =>
      if more i then '(e, i) ← next before jso i; f ← read e; fs ← iterate before read fuel jso i; Some (f :: fs)
      else Some []
  end.

Fixpoint object (before : Z -> Z) (depth : nat) (jso : bytes) : option (list field) :=
  match depth with
  | O => None
  | S depth => i ← BSONObjIterator_new jso; iterate before (field_of (object before depth)) (S (length jso)) jso i
  end.

(** No level is deeper than the document is long. *)
Definition document (before : Z -> Z) (jso : bytes) : option (list field) := object before (S (length jso)) jso.

(** A [MinKey] anywhere in a value. *)
Fixpoint has_min_key (v : value) : bool :=
  match v with
  | VMinKey => true
  | VObject fs | VArray fs | VCodeWScope _ fs => List.existsb (fun f : bytes * value => has_min_key f.2) fs
  | _ => false
  end.
Definition doc_has_min_key (fs : list field) : bool := List.existsb (fun f : bytes * value => has_min_key f.2) fs.

(** ** Lemmas *)

Lemma read_app (l rest : bytes) (n : nat) : length l = n -> read n (l ++ rest) = Some l.
Proof. intros <-. unfold read. rewrite bool_decide_eq_true_2 by (solve_length). by rewrite take_app_length. Qed.

Lemma read_int_le_encode (n : Z) (rest : bytes) : 0 <= n < 2 ^ 31 -> read_int (le_encode 4 n ++ rest) = Some n.
Proof. intros Hn. unfold read_int. rewrite read_u32_le_encode by lia. cbn. by rewrite wraps_small by lia. Qed.

Lemma cstring_app (s rest : bytes) : 0 ∉ s -> cstring (s ++ 0 :: rest) = Some (s, rest).
Proof.
  intros Hs. unfold cstring. rewrite memchr_app_0 by done. cbn [mbind option_bind]. rewrite take_app_length.
  do 2 f_equal. by rewrite drop_app_ge, Nat.sub_succ_l, Nat.sub_diag by lia.
Qed.

Lemma wraps_le_decode (n : Z) : - 2 ^ 63 <= n < 2 ^ 63 -> wraps 64 (le_decode (le_encode 8 n)) = n.
Proof.
  intros Hn. rewrite le_decode_encode. change (256 ^ Z.of_nat 8) with (2 ^ 64).
  transitivity (wraps 64 n); [|apply wraps_small; lia]. unfold wraps. by rewrite Zplus_mod_idemp_l.
Qed.

Lemma wraps32_le_decode (n : Z) (rest : bytes) : - 2 ^ 31 <= n < 2 ^ 31 -> read_int (le_encode 4 n ++ rest) = Some n.
Proof.
  intros Hn. unfold read_int, read_u32. rewrite bool_decide_eq_true_2 by (solve_length).
  rewrite take_app_length' by (by rewrite length_le_encode). cbn. f_equal. rewrite le_decode_encode.
  change (256 ^ Z.of_nat 4) with (2 ^ 32). transitivity (wraps 32 n); [|apply wraps_small; lia].
  unfold wraps. by rewrite Zplus_mod_idemp_l.
Qed.

(** An element whose value is given by its bytes. *)
Section element.
Context (e : BSONElement) (v : value) (rest : bytes).
Hypothesis Hptr : value_ptr e = Some (enc_value v ++ rest).
Hypothesis Hlen : Z.of_nat (length (enc_value v)) < 2 ^ 31.

Lemma valueStringData_str (s t : bytes) : enc_value v = enc_str s ++ t -> valueStringData e = Some s.
Proof.
  intros Hv. unfold valueStringData, valuestrsize. rewrite Hptr, Hv. cbn [mbind option_bind]. unfold enc_str. rewrite <- !app_assoc.
  rewrite Hv in Hlen. unfold enc_str in Hlen. rewrite !length_app, length_le_encode in Hlen. cbn [length] in Hlen.
  rewrite read_u32_le_encode by lia. cbn [fmap option_fmap option_map mbind option_bind]. rewrite wraps_small by lia.
  destruct (Z.ltb_spec (Z.of_nat (length s) + 1) 1); [lia|]. rewrite drop_app_length' by (by rewrite length_le_encode).
  apply read_app. lia.
Qed.

Lemma dbref_read (ns oid : bytes) : enc_value v = enc_str ns ++ oid -> length oid = 12%nat -> dbrefOID e = Some oid.
Proof.
  intros Hv Ho. unfold dbrefOID. rewrite Hptr, Hv. cbn [mbind option_bind]. unfold enc_str. rewrite <- !app_assoc.
  rewrite Hv in Hlen. unfold enc_str in Hlen. rewrite !length_app, length_le_encode in Hlen. cbn [length] in Hlen.
  rewrite read_int_le_encode by lia. cbn [mbind option_bind]. destruct (Z.ltb_spec (Z.of_nat (length ns) + 1) 0); [lia|].
  rewrite !app_assoc, <- app_assoc. rewrite drop_app_length'; [by apply read_app|].
  solve_length.
Qed.

Lemma binData_read (ty : Z) (data : bytes) : v = VBinData ty data -> binDataType e = Some ty /\ binData e = Some data.
Proof.
  intros ->. unfold binDataType, binData, valuestrsize. rewrite Hptr. cbn [mbind option_bind enc_value]. rewrite <- !app_assoc.
  cbn [enc_value] in Hlen. rewrite !length_app, length_le_encode in Hlen. cbn [length] in Hlen. split.
  - by rewrite lookup_app_r, length_le_encode by (by rewrite length_le_encode).
  - rewrite read_u32_le_encode by lia. cbn [fmap option_fmap option_map mbind option_bind]. rewrite wraps_small by lia.
    destruct (Z.ltb_spec (Z.of_nat (length data)) 0); [lia|]. change 5%nat with (4 + 1)%nat.
    rewrite <- drop_drop, drop_app_length' by (by rewrite length_le_encode). apply read_app. lia.
Qed.

Lemma code_read (code : bytes) (scope : list field) :
  v = VCodeWScope code scope ->
  codeWScopeCode e = Some code /\ codeWScopeObject e = Some (enc_obj scope ++ rest).
Proof.
  intros Hv. rewrite Hv, enc_value_VCodeWScope in Hlen. rewrite Hv, enc_value_VCodeWScope in Hptr. unfold enc_str in *.
  assert (codeWScopeCodeLen e = Some (Z.of_nat (length code) + 1)) as Hn.
  { unfold codeWScopeCodeLen. rewrite Hptr. cbn [mbind option_bind]. rewrite <- !app_assoc.
    rewrite drop_app_length' by (by rewrite length_le_encode). apply read_int_le_encode.
    rewrite !length_app in Hlen. cbn [length] in Hlen. lia. }
  unfold codeWScopeCode, codeWScopeObject. rewrite Hptr, Hn. cbn [mbind option_bind]. rewrite <- !app_assoc.
  destruct (Z.ltb_spec (Z.of_nat (length code) + 1) 1), (Z.ltb_spec (Z.of_nat (length code) + 1) 0); try lia. split.
  - rewrite app_assoc, drop_app_length' by (by rewrite length_app, !length_le_encode). apply read_app. lia.
  - f_equal. rewrite !app_assoc. rewrite <- app_assoc. rewrite drop_app_length'; [done|].
    solve_length.
Qed.

End element.

(** What the accessors read of an element that is not a nested document. *)
Lemma leaf_read (object : bytes -> option (list field)) (e : BSONElement) (v : value) (rest : bytes) :
  value_ptr e = Some (enc_value v ++ rest) -> Z.of_nat (length (enc_value v)) < 2 ^ 31 -> type e = Some (type_of v) ->
  wf_value v -> match v with VObject _ | VArray _ | VCodeWScope _ _ => False | _ => True end ->
  value_of object e = Some v.
Proof.
  intros Hptr Hlen Ht Hwf Hleaf. unfold value_of. rewrite Ht.
  pose proof (valueStringData_str e v rest Hptr Hlen) as Hs. pose proof (dbref_read e v rest Hptr Hlen) as Hd.
  pose proof (binData_read e v rest Hptr Hlen) as Hb. clear Hlen Ht.
  destruct v; try done; cbn [type_of mbind option_bind]; cbn [wf_value enc_value] in Hwf, Hptr.
  - cbn match. unfold _numberDouble. rewrite Hptr. cbn [mbind option_bind]. by rewrite read_app by apply Hwf.
  - cbn match. by rewrite (Hs s []) by (by rewrite app_nil_r).
  - cbn match. destruct (Hb _ _ eq_refl) as [-> ->]. done.
  - cbn match. unfold __oid. rewrite Hptr. cbn [mbind option_bind]. by rewrite read_app by apply Hwf.
  - cbn match. unfold boolean. rewrite Hptr. by destruct b.
  - cbn match. unfold date. rewrite Hptr. cbn [mbind option_bind].
    rewrite read_app by (by rewrite length_le_encode). cbn. by rewrite wraps_le_decode.
  - cbn match. unfold regex, regexFlags. rewrite Hptr. cbn [mbind option_bind]. destruct Hwf as [[_ Hp] [_ Hf]].
    rewrite <- !app_assoc. cbn [app]. rewrite cstring_app by done. cbn [fmap option_fmap option_map fst snd mbind option_bind]. by rewrite cstring_app.
  - cbn match. rewrite (Hs ns oid) by done. cbn. by rewrite (Hd ns oid) by (done || apply Hwf).
  - cbn match. by rewrite (Hs code []) by (by rewrite app_nil_r).
  - cbn match. by rewrite (Hs s []) by (by rewrite app_nil_r).
  - cbn match. unfold _numberInt. rewrite Hptr. cbn [mbind option_bind]. by rewrite wraps32_le_decode.
  - cbn match. unfold timestampValue. rewrite Hptr. cbn [mbind option_bind].
    rewrite read_app by (by rewrite length_le_encode). cbn. rewrite le_decode_encode.
    by rewrite Z.mod_small by exact Hwf.
  - cbn match. unfold _numberLong. rewrite Hptr. cbn [mbind option_bind].
    rewrite read_app by (by rewrite length_le_encode). cbn. by rewrite wraps_le_decode.
  - cbn match. unfold _numberDecimal. rewrite Hptr. cbn [mbind option_bind]. by rewrite read_app by apply Hwf.
Qed.

(** The element [next] returns, with its sizes cached. *)
Lemma cached_elt (f : field) (rest : bytes) (sz : Z) (e := mkElt (enc_elem f ++ rest) (Z.of_nat (length f.1) + 1) sz) :
  wf_field f ->
  type e = Some (type_of f.2) /\ value_ptr e = Some (enc_value f.2 ++ rest) /\
  fieldNameStringData e = Some (SD.mkStringData (Some f.1)).
Proof.
  intros Hf. pose proof (elt_type f rest) as Ht. pose proof (elt_value_ptr f rest Hf) as Hp.
  pose proof (elt_name f rest Hf) as Hn. pose proof (elt_fieldNameSize f rest Hf) as Hs.
  rewrite elt_new in Ht, Hp, Hn, Hs. split; [exact Ht|].
  assert (fieldNameSize e = Some (Z.of_nat (length f.1) + 1)) as He.
  { unfold fieldNameSize. cbn [e fieldNameSize_]. destruct (Z.eqb_spec (Z.of_nat (length f.1) + 1) (-1)); [lia|done]. }
  unfold value_ptr, fieldNameStringData in *. rewrite Hs in Hp, Hn. rewrite He. split; [exact Hp|exact Hn].
Qed.

(** A [MinKey] reads the memory before the size table. *)
Definition stray_ok (before : Z -> Z) (fs : list field) : Prop := before (-1) = 0 \/ doc_has_min_key fs = false.

Lemma stray_ok_app (before : Z -> Z) (pre : list field) (f : field) (post : list field) :
  stray_ok before (pre ++ f :: post) -> before (-1) = 0 \/ has_min_key f.2 = false.
Proof.
  intros [H|H]; [by left|right]. unfold doc_has_min_key in H. rewrite existsb_app in H. cbn in H.
  by apply orb_false_iff in H as [_ [? _]%orb_false_iff].
Qed.

Section reading.
Variable before : Z -> Z.
Variable depth : nat.
(** The nested documents are read correctly. *)
Hypothesis IH : forall (fs : list field) (rest : bytes), (length (enc_obj fs) < depth)%nat -> wf_doc fs ->
  Z.of_nat (length (enc_obj fs)) < 2 ^ 31 -> stray_ok before fs -> object before depth (enc_obj fs ++ rest) = Some fs.

Lemma value_read (e : BSONElement) (v : value) (rest : bytes) :
  value_ptr e = Some (enc_value v ++ rest) -> Z.of_nat (length (enc_value v)) < 2 ^ 31 -> type e = Some (type_of v) ->
  wf_value v -> (length (enc_value v) < depth)%nat -> before (-1) = 0 \/ has_min_key v = false ->
  value_of (object before depth) e = Some v.
Proof.
  intros Hptr Hlen Ht Hwf Hd Hm. destruct v; try (by apply (leaf_read _ e _ rest)); unfold value_of; rewrite Ht; cbn [mbind option_bind type_of].
  - rewrite enc_value_VObject in *. cbn match. rewrite Hptr. cbn [mbind option_bind]. rewrite IH; try done. by apply wf_value_VObject.
  - rewrite enc_value_VArray in *. cbn match. rewrite Hptr. cbn [mbind option_bind]. rewrite IH; try done. by apply wf_value_VArray.
  - cbn match. destruct (code_read e _ rest Hptr Hlen code scope eq_refl) as [-> ->]. cbn [mbind option_bind].
    rewrite enc_value_VCodeWScope, !length_app in Hlen, Hd. apply wf_value_VCodeWScope in Hwf as [_ Hwf].
    rewrite IH; try done; lia.
Qed.

Lemma iterate_read (rest : bytes) (fs : list field) (post : list field) : forall (pre : list field) (fuel : nat),
  fs = pre ++ post -> (length post < fuel)%nat -> (length (enc_obj fs) <= depth)%nat -> wf_doc fs ->
  Z.of_nat (length (enc_obj fs)) < 2 ^ 31 -> stray_ok before fs ->
  iterate before (field_of (object before depth)) fuel (enc_obj fs ++ rest)
    (mkIter (4 + Z.of_nat (length (enc_fields pre))) (Z.of_nat (length (enc_obj fs)) - 1)) = Some post.
Proof.
  induction post as [|f post IHp]; intros pre fuel -> Hfuel Hd Hwf Hlen Hst; (destruct fuel as [|fuel]; [lia|]); cbn [iterate]; unfold more; cbn [_pos _theend].
  { rewrite app_nil_r, length_enc_obj. destruct (Z.ltb_spec (4 + Z.of_nat (length (enc_fields pre))) (Z.of_nat (length (enc_fields pre) + 5) - 1)); [lia|done]. }
  assert (wf_field f) as Hf by (unfold wf_doc in Hwf; rewrite Forall_app, Forall_cons in Hwf; apply Hwf).
  assert (length (enc_obj (pre ++ f :: post)) = length (enc_fields pre) + length (enc_elem f) + length (enc_fields post) + 5)%nat as Hl
    by (rewrite length_enc_obj, enc_fields_app, enc_fields_cons, !length_app; lia).
  pose proof (length_enc_elem f) as He. destruct (Z.ltb_spec (4 + Z.of_nat (length (enc_fields pre))) (Z.of_nat (length (enc_obj (pre ++ f :: post))) - 1)); [|lia].
  pose proof (stray_ok_app before pre f post Hst) as Hs. rewrite next_elem; [|done|done|].
  2:{ intros Hm. destruct Hs as [?|Hs]; [done|]. by destruct (f.2). }
  cbn [mbind option_bind]. unfold field_of. rewrite enc_obj_split.
  destruct (cached_elt f (enc_fields post ++ [0] ++ rest) (Z.of_nat (length (enc_elem f))) Hf) as (Ht & Hp & ->).
  cbn [mbind option_bind]. rewrite (value_read _ f.2 (enc_fields post ++ [0] ++ rest)) by (done || lia || apply Hf).
  cbn [mbind option_bind SD.rawData SD.sd_data default from_option id].
  rewrite (IHp (pre ++ [f])); [|by rewrite <- app_assoc|cbn in Hfuel; lia|done..]. by destruct f.
Qed.

End reading.

Lemma object_read (before : Z -> Z) (depth : nat) : forall (fs : list field) (rest : bytes),
  (length (enc_obj fs) < depth)%nat -> wf_doc fs -> Z.of_nat (length (enc_obj fs)) < 2 ^ 31 -> stray_ok before fs ->
  object before depth (enc_obj fs ++ rest) = Some fs.
Proof.
  induction depth as [|depth IH]; intros fs rest Hd Hwf Hlen Hst; [lia|]. cbn [object].
  assert (BSONObjIterator_new (enc_obj fs ++ rest) = Some (mkIter 4 (Z.of_nat (length (enc_obj fs)) - 1))) as ->.
  { rewrite length_enc_obj in *. unfold BSONObjIterator_new, enc_obj, wrap_doc. rewrite <- app_assoc, read_u32_le_encode by lia.
    cbn [mbind option_bind]. rewrite wraps_small by lia.
    destruct (Z.eqb_spec (Z.of_nat (length (enc_fields fs)) + 5) 0); [lia|]. do 2 f_equal. lia. }
  cbn [mbind option_bind].
  apply (iterate_read before depth IH rest fs fs []); try done; [|lia].
  rewrite length_app, length_enc_obj. assert (length fs <= length (enc_fields fs))%nat; [|lia].
  clear. induction fs as [|f fs IH]; [done|]. rewrite enc_fields_cons, length_app, length_enc_elem. cbn. lia.
Qed.

(** Reading a document that stands at a pointer, whatever follows it. *)
Lemma document_read (before : Z -> Z) (fs : list field) (rest : bytes) :
  wf_doc fs -> Z.of_nat (length (enc_obj fs)) < 2 ^ 31 -> stray_ok before fs ->
  document before (enc_obj fs ++ rest) = Some fs.
Proof. intros. apply object_read; try done. solve_length. Qed.

(** The encoding of a well-formed document is made of bytes. *)
Lemma enc_str_ok (t : bytes) : bytes_ok t -> bytes_ok (enc_str t).
Proof. intros Ht. unfold enc_str, bytes_ok. rewrite !Forall_app. split; [apply le_encode_ok|]. split; [done|]. by repeat constructor. Qed.

Lemma wrap_doc_ok (t : bytes) : bytes_ok t -> bytes_ok (wrap_doc t).
Proof. intros Ht. unfold wrap_doc, bytes_ok. rewrite !Forall_app. split; [apply le_encode_ok|]. split; [done|]. by repeat constructor. Qed.

Lemma enc_fields_ok (fs : list field) :
  Forall (fun f : field => wf_value f.2 -> bytes_ok (enc_value f.2)) fs -> wf_doc fs -> bytes_ok (enc_fields fs).
Proof.
  induction 1 as [|f fs Hf _ IH]; intros Hwf; [constructor|]. apply Forall_cons in Hwf as [[[Hn _] Hv] Hwf]. rewrite enc_fields_cons.
  apply Forall_app. split; [|by apply IH]. unfold enc_elem. constructor; [apply type_byte_ok|]. rewrite !Forall_app. split; [done|].
  split; [by repeat constructor|by apply Hf].
Qed.

Lemma enc_value_ok (v : value) : wf_value v -> bytes_ok (enc_value v).
Proof.
  induction v as [fs IH|fs IH|code fs IH|v Hleaf] using value_nested_ind; intros Hv.
  - rewrite enc_value_VObject. apply wrap_doc_ok, enc_fields_ok; [done|by apply wf_value_VObject].
  - rewrite enc_value_VArray. apply wrap_doc_ok, enc_fields_ok; [done|by apply wf_value_VArray].
  - rewrite enc_value_VCodeWScope. apply wf_value_VCodeWScope in Hv as [Hc Hv]. unfold bytes_ok. rewrite !Forall_app. split; [apply le_encode_ok|].
    split; [by apply enc_str_ok|by apply wrap_doc_ok, enc_fields_ok].
  - destruct v; try done; cbn [enc_value wf_value] in *; try apply Hv; try apply le_encode_ok; try by apply enc_str_ok.
    + unfold bytes_ok. rewrite !Forall_app, Forall_singleton. split; [apply le_encode_ok|done].
    + constructor.
    + constructor; [by destruct b|constructor].
    + constructor.
    + unfold bytes_ok. rewrite !Forall_app. destruct Hv as [[Hp _] [Hf _]]. split_and!; try done; by repeat constructor.
    + unfold bytes_ok. rewrite Forall_app. split; [apply enc_str_ok|]; apply Hv.
    + constructor.
    + constructor.
Qed.

Lemma enc_obj_ok (fs : list field) : wf_doc fs -> bytes_ok (enc_obj fs).
Proof. intros Hwf. rewrite <- enc_value_VObject. apply enc_value_ok. by apply wf_value_VObject. Qed.

(** C38. What [BSONObjBuilder] writes for a well-formed document is its wire format, whatever
    the four skipped bytes held, and the iterator and the typed accessors read the same document
    back from it: every name, type and value, at every level. The encoding has less than [2 ^ 31]
    bytes, and the document has no [MinKey], unless the byte before the table of sizes, which
    [computeSize] reads for it, is 0 ([stray_ok]). *)
Theorem builder_round_trip (before : Z -> Z) (junk : bytes) (fs : list field) :
  (4 <= length junk)%nat -> wf_doc fs -> Z.of_nat (length (enc_obj fs)) < 2 ^ 31 -> stray_ok before fs ->
  build junk fs = enc_obj fs /\ document before (build junk fs) = Some fs.
Proof.
  intros Hj Hwf Hlen Hst. rewrite builder_writes_document by done. split; [done|].
  pose proof (document_read before fs [] Hwf Hlen Hst) as Hr. by rewrite app_nil_r in Hr.
Qed.

Definition sample : list field :=
  [(lit "_id", VOID (replicate 12 3)); (lit "n", VInt (-2)); (lit "s", VString (lit "x"));
   (lit "r", VRegEx (lit "^a") (lit "i")); (lit "b", VBinData 2 [1; 0; 255]);
   (lit "o", VObject [(lit "a", VArray [(lit "0", VBool true); (lit "1", VTimestamp (2 ^ 40))])]);
   (lit "c", VCodeWScope (lit "f") [(lit "y", VNull)]); (lit "d", VDBRef (lit "t.c") (replicate 12 1))].

Lemma builder_round_trip_witness :
  build [9; 9; 9; 9] sample = enc_obj sample /\ document (fun _ => 7) (build [9; 9; 9; 9] sample) = Some sample.
Proof.
  apply builder_round_trip; [cbn; lia| |vm_compute; reflexivity|right; vm_compute; reflexivity].
  unfold sample. cbn [replicate]. solve_wf.
Defined.

End Decode.
