(* ===== verification/BsonCompare.v ===== *)
(** * The order of BSON values

    [base/compare_numbers.h], [BSONElement::woCompare], [compareElementValues]
    (bson/bsonelement.cpp), [BSONObj::woCompare] (bson/bsonobj.cpp) and [Ordering]
    (bson/ordering.h).

    A [double] is its 64-bit pattern. Every finite double is a multiple of 2^-1074, so the
    number a pattern stands for is kept as that multiple, an integer, and the comparisons
    and the exact scalings by powers of two of the code are comparisons and scalings of
    integers. [Module Dbl] has the patterns, [Module Cmp] the comparison functions; the
    theorems show that numbers of different types are compared by their exact values. The
    comparisons with a [NumberDecimal] go through [Decimal128], whose arithmetic is a
    third-party library; its operations are parameters. *)
From Stdlib Require Import ZArith Lia Bool.
From stdpp Require Import base list option.
From S2P Require Import Prelude StringData Bson.
Open Scope Z_scope.

(** ** Doubles *)
Module Dbl.

(** The pattern without its sign, the pattern of infinity and 1 in units of 2^-1074. *)
Definition magnitude (b : Z) : Z := Z.land b (Z.ones 63).
Definition inf : Z := Z.shiftl 2047 52.
Definition unit : Z := 2 ^ 1074.

Definition signbit (b : Z) : bool := Z.testbit b 63.
Definition isnan (b : Z) : bool := inf <? magnitude b.
Definition isfinite (b : Z) : bool := magnitude b <? inf.

(** The number of a pattern without a sign, in units of 2^-1074. Infinity gets the
    number 2^1024 that follows the largest finite one. *)
Definition scaled (m : Z) : Z :=
  let e := Z.shiftr m 52 in
  let f := Z.land m (Z.ones 52) in
  if e =? 0 then f else Z.shiftl (2 ^ 52 + f) (e - 1).

(** The number of a pattern; [None] for a NaN. *)
Definition num (b : Z) : option Z :=
  if isnan b then None
  else Some (if signbit b then - scaled (magnitude b) else scaled (magnitude b)).

(** [==] and [<]; both are false on a NaN. *)
Definition eq (l r : Z) : bool :=
  match num l, num r with Some a, Some b => a =? b | _, _ => false end.
Definition lt (l r : Z) : bool :=
  match num l, num r with Some a, Some b => a <? b | _, _ => false end.
Definition le (l r : Z) : bool := lt l r || eq l r.

(** Rounding to nearest, ties to even: the pattern without a sign of [q * 2^-s] units. *)
Definition round (q s : Z) : Z :=
  let k := Z.max 0 (Z.log2 q - 52 - s) in
  let d := 2 ^ (s + k) in
  let m := q / d in
  let r := q mod d in
  let m' := if (d <? 2 * r) || ((d =? 2 * r) && Z.odd m) then m + 1 else m in
  Z.min inf (k * 2 ^ 52 + m').

Definition with_sign (neg : bool) (m : Z) : Z := if neg then m + 2 ^ 63 else m.

(** Negation, the conversion of an integer, the product with 2^k and the truncation of a
    number that an integer type holds. *)
Definition neg (b : Z) : Z := Z.lxor b (2 ^ 63).
Definition of_Z (n : Z) : Z := with_sign (n <? 0) (round (Z.abs n * unit) 0).
Definition scale (b k : Z) : Z :=
  with_sign (signbit b)
    (if k <? 0 then round (scaled (magnitude b)) (- k) else round (Z.shiftl (scaled (magnitude b)) k) 0).
Definition trunc (b : Z) : Z := Z.quot (default 0 (num b)) unit.

End Dbl.

(** ** Comparisons *)
Module Cmp.

Definition compareInts (lhs rhs : Z) : Z := if lhs =? rhs then 0 else if lhs <? rhs then -1 else 1.
Definition compareLongs (lhs rhs : Z) : Z := if lhs =? rhs then 0 else if lhs <? rhs then -1 else 1.

Definition compareDoubles (lhs rhs : Z) : Z :=
  if Dbl.eq lhs rhs then 0
  else if Dbl.lt lhs rhs then -1
  else if Dbl.lt rhs lhs then 1
  else if Dbl.isnan lhs then if Dbl.isnan rhs then 0 else -1
  else 1.

Definition kEndOfPreciseDoubles : Z := Z.shiftl 1 53.
Definition kBoundOfLongRange : Z := Dbl.neg (Dbl.of_Z (- 2 ^ 63)).

Definition compareLongToDouble (lhs rhs : Z) : Z :=
  if Dbl.isnan rhs then 1
  else if (lhs <=? kEndOfPreciseDoubles) && (- kEndOfPreciseDoubles <=? lhs)
  then compareDoubles (Dbl.of_Z lhs) rhs
  else if Dbl.le kBoundOfLongRange rhs then -1
  else if Dbl.lt rhs (Dbl.neg kBoundOfLongRange) then 1
  else compareLongs lhs (Dbl.trunc rhs).

Definition compareDoubleToLong (lhs rhs : Z) : Z := - compareLongToDouble rhs lhs.

(** What the comparisons use of [Decimal128]: the operations of the class on the 16 bytes
    of a value. [dec_toDouble] rounds toward negative and returns whether it was inexact;
    [dec_number] is [toDouble] with its default rounding. *)
Record Decimal128 := mkDecimal128 {
  dec_isGreater : bytes -> bytes -> bool;
  dec_isLess : bytes -> bytes -> bool;
  dec_isNaN : bytes -> bool;
  dec_of_long : Z -> bytes;
  dec_toDouble : bytes -> Z * bool;
  dec_number : bytes -> Z }.

(** [strcmp] of two C strings, given without their terminators. *)
Fixpoint strcmp (a b : bytes) : Z :=
  match a, b with
  | [], [] => 0
  | [], y :: _ => - y
  | x :: _, [] => x
  | x :: a', y :: b' => if x =? y then strcmp a' b' else x - y
  end.

(** [compareElementStringValues]: the sizes and the bytes include the terminator. *)
Definition compareElementStringValues (l r : bytes) : Z :=
  let lsz := (length l + 1)%nat in
  let rsz := (length r + 1)%nat in
  let res := SD.memcmp (l ++ [0]) (r ++ [0]) (Nat.min lsz rsz) in
  if negb (res =? 0) then res else Z.of_nat lsz - Z.of_nat rsz.

(** [canonicalType]; every type a value has is canonicalized. *)
Definition canonicalType (v : value) : Z := default 0 (T.canonicalizeBSONType (type_of v)).
Definition isNumber (v : value) : bool :=
  match v with VLong _ | VDouble _ | VDecimal _ | VInt _ => true | _ => false end.

Section compare.
Variable D : Decimal128.

Definition compareDecimals (lhs rhs : bytes) : Z :=
  if dec_isGreater D lhs rhs then 1
  else if dec_isLess D lhs rhs then -1
  else if dec_isNaN D lhs then if dec_isNaN D rhs then 0 else -1
  else if dec_isNaN D rhs then 1 else 0.

Definition compareDecimalToLong (lhs : bytes) (rhs : Z) : Z := compareDecimals lhs (dec_of_long D rhs).
Definition compareLongToDecimal (lhs : Z) (rhs : bytes) : Z := - compareDecimalToLong rhs lhs.

(** [invariant(std::isnan(rhs))] is the [None]. *)
Definition compareDecimalToDouble (lhs : bytes) (rhs : Z) : option Z :=
  let '(decToDouble, inexact) := dec_toDouble D lhs in
  if Dbl.eq decToDouble rhs then Some (if inexact then 1 else 0)
  else if Dbl.lt decToDouble rhs then Some (-1)
  else if Dbl.lt rhs decToDouble then Some 1
  else if dec_isNaN D lhs then Some (if Dbl.isnan rhs then 0 else -1)
  else if Dbl.isnan rhs then Some 1 else None.
Definition compareDoubleToDecimal (lhs : Z) (rhs : bytes) : option Z :=
  x ← compareDecimalToDouble rhs lhs; Some (- x).

(** The loop of [BSONObj::woCompare] with an empty [idxKey] over two field lists, given
    the comparison of two values; the elements are compared with their names. The empty
    objects that the function tests first are the first round of the loop. *)
Section nested.
Variable values : value -> value -> option Z.
(** [BSONElement::woCompare]. *)
Definition elem_woCompare (considerFieldName : bool) (l r : field) : option Z :=
  let x := canonicalType l.2 - canonicalType r.2 in
  if negb (x =? 0) && (negb (isNumber l.2) || negb (isNumber r.2)) then Some x
  else
    let x := if considerFieldName then strcmp l.1 r.1 else 0 in
    if negb (x =? 0) then Some x else values l.2 r.2.
End nested.

(** [compareElementValues]; [None] is a failed [invariant] or [verify]. *)
Fixpoint compareElementValues (comparator : option (bytes -> bytes -> Z)) (l r : value)
    {struct l} : option Z :=
  let objects := fix objects (comparator : option (bytes -> bytes -> Z)) (ls rs : list field)
      {struct ls} : option Z :=
    match ls, rs with
    | [], [] => Some 0
    | [], _ :: _ => Some (-1)
    | _ :: _, [] => Some 1
    | (ln, lv) :: ls', (rn, rv) :: rs' =>
        x ← elem_woCompare (fun _ w => compareElementValues comparator lv w) true (ln, lv) (rn, rv);
        if negb (x =? 0) then Some x else objects comparator ls' rs'
    end in
  match l with
  | VUndefined | VNull | VMaxKey | VMinKey =>
      let f := canonicalType l - canonicalType r in
      Some (if f <? 0 then -1 else if f =? 0 then 0 else 1)
  | VBool a =>
      match r with VBool b => Some ((if a then 1 else 0) - (if b then 1 else 0)) | _ => None end
  | VTimestamp a =>
      match r with VTimestamp b => Some (if a <? b then -1 else if a =? b then 0 else 1) | _ => None end
  | VDate a =>
      match r with VDate b => Some (if a <? b then -1 else if a =? b then 0 else 1) | _ => None end
  | VInt a =>
      match r with
      | VInt b => Some (compareInts a b)
      | VLong b => Some (compareLongs a b)
      | VDouble b => Some (compareDoubles (Dbl.of_Z a) (le_decode b))
      | VDecimal b => Some (compareLongToDecimal a b)
      | _ => None
      end
  | VLong a =>
      match r with
      | VLong b | VInt b => Some (compareLongs a b)
      | VDouble b => Some (compareLongToDouble a (le_decode b))
      | VDecimal b => Some (compareLongToDecimal a b)
      | _ => None
      end
  | VDouble a =>
      match r with
      | VDouble b => Some (compareDoubles (le_decode a) (le_decode b))
      | VInt b => Some (compareDoubles (le_decode a) (Dbl.of_Z b))
      | VLong b => Some (compareDoubleToLong (le_decode a) b)
      | VDecimal b => compareDoubleToDecimal (le_decode a) b
      | _ => None
      end
  | VDecimal a =>
      match r with
      | VDecimal b => Some (compareDecimals a b)
      | VInt b | VLong b => Some (compareDecimalToLong a b)
      | VDouble b => compareDecimalToDouble a (le_decode b)
      | _ => None
      end
  | VOID a => match r with VOID b => Some (SD.memcmp a b 12) | _ => None end
  | VCode a => match r with VCode b => Some (compareElementStringValues a b) | _ => None end
  | VSymbol a | VString a =>
      match r with
      | VSymbol b | VString b =>
          Some (match comparator with Some c => c a b | None => compareElementStringValues a b end)
      | _ => None
      end
  | VObject a => match r with VObject b => objects comparator a b | _ => None end
  | VArray a => match r with VArray b => objects comparator a b | _ => None end
  | VDBRef _ _ =>
      match r with
      | VDBRef _ _ =>
          let lsz := length (enc_value l) in
          let rsz := length (enc_value r) in
          Some (if negb (Z.of_nat lsz - Z.of_nat rsz =? 0) then Z.of_nat lsz - Z.of_nat rsz
                else SD.memcmp (enc_value l) (enc_value r) lsz)
      | _ => None
      end
  | VBinData ta a =>
      match r with
      | VBinData tb b =>
          let lsz := length a in
          let rsz := length b in
          Some (if negb (Z.of_nat lsz - Z.of_nat rsz =? 0) then Z.of_nat lsz - Z.of_nat rsz
                else SD.memcmp (ta :: a) (tb :: b) (lsz + 1))
      | _ => None
      end
  | VRegEx ap af =>
      match r with
      | VRegEx bp bf =>
          let c := strcmp ap bp in Some (if negb (c =? 0) then c else strcmp af bf)
      | _ => None
      end
  | VCodeWScope ac asc =>
      match r with
      | VCodeWScope bc bsc =>
          let cmp := SD.compare (SD.mkStringData (Some ac)) (SD.mkStringData (Some bc)) in
          if negb (cmp =? 0) then Some cmp else objects None asc bsc
      | _ => None
      end
  end.

(** [Ordering]: the bits of the descending fields. *)
Definition Ordering_get (bits : Z) (i : Z) : Z :=
  if negb (Z.land (Z.shiftl 1 i) bits =? 0) then -1 else 1.
Definition descending (bits mask : Z) : bool := negb (Z.land bits mask =? 0).

(** [BSONObj::woCompare] with an [Ordering]; the mask is 32 bits wide. *)
Fixpoint woCompare_ordering (considerFieldName : bool) (comparator : option (bytes -> bytes -> Z))
    (o mask : Z) (ls rs : list field) : option Z :=
  match ls, rs with
  | [], [] => Some 0
  | [], _ :: _ => Some (-1)
  | _ :: _, [] => Some 1
  | l :: ls', r :: rs' =>
      x ← elem_woCompare (compareElementValues comparator) considerFieldName l r;
      let x := if descending o mask then - x else x in
      if negb (x =? 0) then Some x
      else woCompare_ordering considerFieldName comparator o (wrapu 32 (Z.shiftl mask 1)) ls' rs'
  end.

(** [numberDouble]; [number] is the same. *)
Definition numberDouble (v : value) : Z :=
  match v with
  | VDouble raw => le_decode raw
  | VInt n | VLong n => Dbl.of_Z n
  | VDecimal raw => dec_number D raw
  | _ => 0
  end.

(** [Ordering::make]: the error is the [uassert]. *)
Fixpoint make_loop (b n : Z) (ks : list field) : outcome Z Z :=
  match ks with
  | [] => Ret b
  | k :: ks' =>
      _ ← require 13103 (n <=? 31);
      make_loop (if Dbl.lt (numberDouble k.2) 0 then Z.lor b (Z.shiftl 1 n) else b) (n + 1) ks'
  end.
Definition Ordering_make (obj : list field) : outcome Z Z := make_loop 0 0 obj.

(** [BSONObjIterator::next] on the key pattern: the end of the object is an element that
    is not a number, and [None] the position behind the object. *)
Definition pattern_next (k : option (list field)) : option (Z * option (list field)) :=
  match k with
  | Some (e :: k') => Some (numberDouble e.2, Some k')
  | Some [] => Some (0, None)
  | None => None
  end.

(** [BSONObj::woCompare] with a key pattern; [None] is also a read behind the pattern. *)
Fixpoint woCompare_pattern (considerFieldName : bool) (comparator : option (bytes -> bytes -> Z))
    (ordered : bool) (k : option (list field)) (ls rs : list field) : option Z :=
  '(o, k') ← (if ordered then pattern_next k else Some (0, k));
  match ls, rs with
  | [], [] => Some 0
  | [], _ :: _ => Some (-1)
  | _ :: _, [] => Some 1
  | l :: ls', r :: rs' =>
      x ← elem_woCompare (compareElementValues comparator) considerFieldName l r;
      let x := if ordered && Dbl.lt o 0 then - x else x in
      if negb (x =? 0) then Some x
      else woCompare_pattern considerFieldName comparator ordered k' ls' rs'
  end.
Definition woCompare (r idxKey : list field) (considerFieldName : bool)
    (comparator : option (bytes -> bytes -> Z)) (l : list field) : option Z :=
  match l, r with
  | [], [] => Some 0
  | [], _ => Some (-1)
  | _, [] => Some 1
  | _, _ => woCompare_pattern considerFieldName comparator
              (match idxKey with [] => false | _ => true end) (Some idxKey) l r
  end.

End compare.

End Cmp.

(** ** Doubles: lemmas *)
Module DblLemmas.
Import Dbl.

Lemma magnitude_mod (b : Z) : magnitude b = b mod 2 ^ 63.
Proof. unfold magnitude. by rewrite Z.land_ones by lia. Qed.
Lemma magnitude_range (b : Z) : 0 <= magnitude b < 2 ^ 63.
Proof. rewrite magnitude_mod. apply Z.mod_pos_bound. lia. Qed.
Lemma unit_pos : 0 < unit.
Proof. apply Z.pow_pos_nonneg; lia. Qed.

(** The number of a pattern by its exponent field [e] and its fraction [f]. *)
Lemma scaled_at (e f : Z) : 0 <= e -> 0 <= f < 2 ^ 52 ->
  scaled (e * 2 ^ 52 + f) = if e =? 0 then f else (2 ^ 52 + f) * 2 ^ (e - 1).
Proof.
  intros He Hf. unfold scaled. rewrite Z.shiftr_div_pow2, Z.land_ones by lia.
  replace ((e * 2 ^ 52 + f) / 2 ^ 52) with e by (rewrite Z.add_comm, Z.div_add, (Z.div_small f); lia).
  replace ((e * 2 ^ 52 + f) mod 2 ^ 52) with f by (rewrite Z.add_comm, Z.mod_add, Z.mod_small; lia).
  destruct (Z.eqb_spec e 0); [done|]. apply Z.shiftl_mul_pow2. lia.
Qed.

Lemma pattern_split (m : Z) : 0 <= m ->
  exists e f, 0 <= e /\ 0 <= f < 2 ^ 52 /\ m = e * 2 ^ 52 + f.
Proof.
  intros Hm. exists (m / 2 ^ 52), (m mod 2 ^ 52).
  pose proof (Z.div_mod m (2 ^ 52)). pose proof (Z.mod_pos_bound m (2 ^ 52)).
  pose proof (Z.div_pos m (2 ^ 52)). lia.
Qed.

Lemma scaled_lower (e f : Z) : 0 < e -> 0 <= f < 2 ^ 52 -> 2 ^ (51 + e) <= scaled (e * 2 ^ 52 + f).
Proof.
  intros He Hf. rewrite scaled_at by lia. destruct (Z.eqb_spec e 0); [lia|].
  replace (51 + e) with (52 + (e - 1)) by lia. rewrite Z.pow_add_r by lia.
  apply Z.mul_le_mono_nonneg_r; [apply Z.pow_nonneg|]; lia.
Qed.
Lemma scaled_upper (e f : Z) : 0 <= e -> 0 <= f < 2 ^ 52 -> scaled (e * 2 ^ 52 + f) < 2 ^ (52 + e).
Proof.
  intros He Hf. rewrite scaled_at by lia. destruct (Z.eqb_spec e 0) as [->|].
  { replace (52 + 0) with 52; lia. }
  replace (52 + e) with (53 + (e - 1)) by lia. rewrite (Z.pow_add_r 2 53) by lia.
  apply Z.mul_lt_mono_pos_r; [apply Z.pow_pos_nonneg|]; lia.
Qed.

(** Patterns are ordered like the numbers they stand for. *)
Lemma scaled_mono (a b : Z) : 0 <= a < b -> scaled a < scaled b.
Proof.
  intros Hab. destruct (pattern_split a) as (e & f & He & Hf & ->); [lia|].
  destruct (pattern_split b) as (e' & f' & He' & Hf' & ->); [lia|].
  assert (e < e' \/ e = e' /\ f < f') as [Hlt|[<- Hlt]] by nia.
  - apply Z.lt_le_trans with (2 ^ (52 + e)); [by apply scaled_upper|].
    etransitivity; [|apply scaled_lower; lia]. apply Z.pow_le_mono_r; lia.
  - rewrite !scaled_at by lia. destruct (Z.eqb_spec e 0); [done|].
    apply Z.mul_lt_mono_pos_r; [apply Z.pow_pos_nonneg|]; lia.
Qed.
Lemma scaled_lt_iff (a b : Z) : 0 <= a -> 0 <= b -> scaled a < scaled b <-> a < b.
Proof.
  intros Ha Hb. split; intros H; [|by apply scaled_mono].
  destruct (Z.lt_trichotomy a b) as [|[->|]]; [done|lia|]. pose proof (scaled_mono b a). lia.
Qed.
Lemma scaled_inj (a b : Z) : 0 <= a -> 0 <= b -> scaled a = scaled b -> a = b.
Proof.
  intros Ha Hb H. destruct (Z.lt_trichotomy a b) as [|[->|]]; [|done|].
  - pose proof (scaled_mono a b). lia.
  - pose proof (scaled_mono b a). lia.
Qed.
Lemma scaled_0 : scaled 0 = 0.
Proof. done. Qed.
Lemma scaled_nonneg (m : Z) : 0 <= m -> 0 <= scaled m.
Proof.
  intros Hm. rewrite <- scaled_0. destruct (Z.eq_dec m 0) as [->|]; [done|].
  pose proof (scaled_mono 0 m). lia.
Qed.

(** A number has at most 53 significant bits. *)
Lemma scaled_form (m : Z) : 0 <= m -> exists x j, 0 <= x < 2 ^ 53 /\ 0 <= j /\ scaled m = x * 2 ^ j /\
  (j <> 0 -> 2 ^ 52 <= x).
Proof.
  intros Hm. destruct (pattern_split m) as (e & f & He & Hf & ->); [done|].
  rewrite scaled_at by lia. destruct (Z.eqb_spec e 0).
  - exists f, 0. lia.
  - exists (2 ^ 52 + f), (e - 1). lia.
Qed.

(** A number of more than 52 bits over 2^t is a multiple of 2^t. *)
Lemma scaled_multiple (m t : Z) : 0 <= m -> 0 <= t -> 2 ^ (53 + t) <= scaled m -> (2 ^ t | scaled m).
Proof.
  intros Hm Ht H. destruct (scaled_form m Hm) as (x & j & Hx & Hj & E & _). rewrite E in *.
  assert (t <= j).
  { destruct (Z.le_gt_cases t j); [done|]. exfalso.
    assert (x * 2 ^ j < 2 ^ (53 + j)).
    { rewrite Z.pow_add_r by lia. apply Z.mul_lt_mono_pos_r; [apply Z.pow_pos_nonneg|]; lia. }
    assert (2 ^ (53 + j) <= 2 ^ (53 + t)) by (apply Z.pow_le_mono_r; lia). lia. }
  exists (x * 2 ^ (j - t)). rewrite <- Z.mul_assoc, <- Z.pow_add_r by lia. do 2 f_equal. lia.
Qed.

(** The pattern [round] builds from a significand [y] and an exponent [k]. *)
Lemma scaled_build (k y : Z) : 0 <= k -> 0 <= y < 2 ^ 53 -> (k <> 0 -> 2 ^ 52 <= y) ->
  scaled (k * 2 ^ 52 + y) = y * 2 ^ k.
Proof.
  intros Hk Hy Hn. destruct (Z.lt_ge_cases y (2 ^ 52)).
  - destruct (Z.eq_dec k 0) as [->|]; [|lia]. rewrite scaled_at by lia. cbn [Z.eqb]. lia.
  - replace (k * 2 ^ 52 + y) with ((k + 1) * 2 ^ 52 + (y - 2 ^ 52)) by lia.
    rewrite scaled_at by lia. destruct (Z.eqb_spec (k + 1) 0); [lia|].
    f_equal; [lia|]. f_equal. lia.
Qed.

(** No rounding happens when the divisor divides. *)
Lemma round_multiple (q s k y : Z) : k = Z.max 0 (Z.log2 q - 52 - s) -> 0 <= s ->
  q = y * 2 ^ (s + k) -> k * 2 ^ 52 + y <= inf -> round q s = k * 2 ^ 52 + y.
Proof.
  intros Hk Hs Hq Hinf. unfold round. rewrite <- Hk.
  assert (Hd : 0 < 2 ^ (s + k)) by (apply Z.pow_pos_nonneg; lia).
  rewrite Hq, Z.div_mul, Z.mod_mul by lia.
  destruct (Z.ltb_spec (2 ^ (s + k)) (2 * 0)), (Z.eqb_spec (2 ^ (s + k)) (2 * 0)); try lia.
  cbn [orb andb]. lia.
Qed.

Lemma round_range (q s : Z) : 0 <= q -> 0 <= s -> 0 <= round q s <= inf.
Proof.
  intros Hq Hs. unfold round. set (k := Z.max _ _). set (d := 2 ^ (s + k)).
  assert (0 < d) by (apply Z.pow_pos_nonneg; lia).
  pose proof (Z.div_pos q d). assert (0 < inf) by done.
  destruct (_ || _); lia.
Qed.

(** Rounding changes no number of at most 53 significant bits. *)
Lemma round_exact (x j s : Z) : 0 <= x < 2 ^ 53 -> 0 <= s <= j -> x * 2 ^ (j - s) < scaled inf ->
  0 <= round (x * 2 ^ j) s < inf /\ scaled (round (x * 2 ^ j) s) = x * 2 ^ (j - s).
Proof.
  intros Hx Hs Hinf. set (k := Z.max 0 (Z.log2 (x * 2 ^ j) - 52 - s)).
  destruct (Z.eq_dec x 0) as [->|Hx0].
  { rewrite !Z.mul_0_l. rewrite (round_multiple 0 s 0 0); try done; [|lia].
    cbn [Z.log2]. lia. }
  assert (HL : Z.log2 (x * 2 ^ j) = j + Z.log2 x) by (rewrite Z.log2_mul_pow2; lia).
  assert (Hlog : Z.log2 x < 53) by (apply Z.log2_lt_pow2; lia).
  assert (Hk : 0 <= k /\ s + k <= j) by lia.
  set (y := x * 2 ^ (j - s - k)).
  assert (Hy : y * 2 ^ k = x * 2 ^ (j - s)).
  { unfold y. rewrite <- Z.mul_assoc, <- Z.pow_add_r by lia. do 2 f_equal. lia. }
  assert (Hyl : Z.log2 y = Z.log2 x + (j - s - k)) by (unfold y; rewrite Z.log2_mul_pow2; lia).
  assert (Hy0 : 0 < y) by (unfold y; apply Z.mul_pos_pos; [lia|apply Z.pow_pos_nonneg; lia]).
  assert (Hy53 : y < 2 ^ 53) by (apply Z.log2_lt_pow2; lia).
  assert (Hv : scaled (k * 2 ^ 52 + y) = y * 2 ^ k).
  { apply scaled_build; [lia..|]. intros ?. apply Z.log2_le_pow2; lia. }
  assert (k * 2 ^ 52 + y < inf).
  { apply scaled_lt_iff; [lia|done|]. lia. }
  rewrite (round_multiple _ s k y); [by rewrite Hv; split; [lia|]|done|lia| |lia].
  unfold y. rewrite <- Z.mul_assoc, <- Z.pow_add_r by lia. do 2 f_equal. lia.
Qed.

Lemma scaled_inf : scaled inf = 2 ^ 2098.
Proof. vm_compute. reflexivity. Qed.

Lemma with_sign_parts (n : bool) (m : Z) : 0 <= m < 2 ^ 63 ->
  magnitude (with_sign n m) = m /\ signbit (with_sign n m) = n.
Proof.
  intros Hm. rewrite magnitude_mod. unfold with_sign, signbit.
  destruct n.
  - split.
    + replace (m + 2 ^ 63) with (m + 1 * 2 ^ 63) by lia. rewrite Z.mod_add, Z.mod_small; lia.
    + rewrite Z.testbit_true by lia.
      replace ((m + 2 ^ 63) / 2 ^ 63) with 1; [done|].
      replace (m + 2 ^ 63) with (m + 1 * 2 ^ 63) by lia. rewrite Z.div_add, Z.div_small; lia.
  - split; [apply Z.mod_small; lia|].
    rewrite Z.testbit_false by lia. rewrite Z.div_small by lia. done.
Qed.

(** The number of a pattern with a sign. *)
Lemma num_with_sign (n : bool) (m : Z) : 0 <= m <= inf ->
  num (with_sign n m) = Some (if n then - scaled m else scaled m).
Proof.
  intros Hm. destruct (with_sign_parts n m) as [E1 E2]; [split; [lia|]; assert (inf < 2 ^ 63) by done; lia|].
  unfold num, isnan. rewrite E1, E2. destruct (Z.ltb_spec inf m); [lia|done].
Qed.

Lemma magnitude_of_Z (n : Z) : 0 <= magnitude (of_Z n) <= inf.
Proof.
  pose proof unit_pos. unfold of_Z. pose proof (round_range (Z.abs n * unit) 0).
  assert (inf < 2 ^ 63) by done. destruct (with_sign_parts (n <? 0) (round (Z.abs n * unit) 0)) as [-> _]; lia.
Qed.

(** Integers of at most 53 significant bits are converted exactly. *)
Lemma of_Z_form (n x j : Z) : Z.abs n = x * 2 ^ j -> 0 <= x < 2 ^ 53 -> 0 <= j <= 64 ->
  num (of_Z n) = Some (n * unit).
Proof.
  intros E Hx Hj. unfold of_Z.
  assert (Eu : Z.abs n * unit = x * 2 ^ (j + 1074)).
  { rewrite E. unfold unit. rewrite Z.pow_add_r by lia. lia. }
  rewrite Eu. destruct (round_exact x (j + 1074) 0) as [Hr Hv]; [done|lia| |].
  { rewrite scaled_inf. apply Z.lt_trans with (2 ^ 53 * 2 ^ (j + 1074)).
    - rewrite Z.sub_0_r. apply Z.mul_lt_mono_pos_r; [apply Z.pow_pos_nonneg|]; lia.
    - rewrite <- Z.pow_add_r by lia. apply Z.pow_lt_mono_r; lia. }
  rewrite num_with_sign by lia. rewrite Hv, Z.sub_0_r, <- Eu. f_equal.
  pose proof unit_pos. destruct (Z.ltb_spec n 0); lia.
Qed.
Lemma of_Z_small (n : Z) : - 2 ^ 53 <= n <= 2 ^ 53 -> num (of_Z n) = Some (n * unit).
Proof.
  intros Hn. destruct (Z.eq_dec (Z.abs n) (2 ^ 53)).
  - apply (of_Z_form n 1 53); lia.
  - apply (of_Z_form n (Z.abs n) 0); lia.
Qed.

(** *** Comparisons and patterns *)

Lemma num_0 : num 0 = Some 0.
Proof. done. Qed.
Lemma lt_num (l r a b : Z) : num l = Some a -> num r = Some b -> lt l r = (a <? b).
Proof. intros Hl Hr. unfold lt. by rewrite Hl, Hr. Qed.
Lemma eq_num (l r a b : Z) : num l = Some a -> num r = Some b -> eq l r = (a =? b).
Proof. intros Hl Hr. unfold eq. by rewrite Hl, Hr. Qed.
Lemma le_num (l r a b : Z) : num l = Some a -> num r = Some b -> le l r = (a <=? b).
Proof.
  intros Hl Hr. unfold le. rewrite (lt_num l r a b), (eq_num l r a b) by done.
  destruct (Z.ltb_spec a b), (Z.eqb_spec a b), (Z.leb_spec a b); done || lia.
Qed.
Lemma nan_compare (l r : Z) : num l = None -> lt l r = false /\ lt r l = false /\ eq l r = false /\ le r l = false.
Proof. intros H. unfold le, lt, eq. rewrite H. by destruct (num r). Qed.

Lemma pattern_parts (b : Z) : 0 <= b < 2 ^ 64 -> b = with_sign (signbit b) (magnitude b).
Proof.
  intros Hb. rewrite magnitude_mod. unfold with_sign, signbit.
  pose proof (Z.div_mod b (2 ^ 63)). pose proof (Z.mod_pos_bound b (2 ^ 63)).
  destruct (Z.testbit b 63) eqn:E.
  - apply Z.testbit_true in E; [|lia].
    assert (b / 2 ^ 63 = 0 \/ b / 2 ^ 63 = 1) as [E'|E'] by lia; rewrite E' in *; [done|lia].
  - apply Z.testbit_false in E; [|lia].
    assert (b / 2 ^ 63 = 0 \/ b / 2 ^ 63 = 1) as [E'|E'] by lia; rewrite E' in *; [lia|done].
Qed.
Lemma neg_with_sign (n : bool) (m : Z) : 0 <= m < 2 ^ 63 -> neg (with_sign n m) = with_sign (negb n) m.
Proof.
  intros Hm. unfold neg, with_sign.
  assert (E : Z.lxor m (2 ^ 63) = m + 2 ^ 63).
  { rewrite <- Z.add_nocarry_lxor; [done|]. apply Z.bits_inj'. intros i Hi. rewrite Z.land_spec, Z.bits_0.
    destruct (Z.eq_dec i 63) as [->|].
    - by rewrite <- (Z.mod_small m (2 ^ 63)), Z.mod_pow2_bits_high by lia.
    - by rewrite Z.pow2_bits_false, andb_false_r by lia. }
  destruct n; cbn [negb]; [|done]. by rewrite <- E, Z.lxor_assoc, Z.lxor_nilpotent, Z.lxor_0_r.
Qed.

(** The pattern without a sign of a number that is not 0, as the code computes it. *)
Lemma num_parts (b q : Z) : 0 <= b < 2 ^ 64 -> num b = Some q -> q <> 0 ->
  let m := magnitude b in
  0 <= m <= inf /\ scaled m = Z.abs q /\ num m = Some (Z.abs q) /\ signbit b = (q <? 0) /\
  b = with_sign (q <? 0) m /\ (if q <? 0 then neg b else b) = m.
Proof.
  intros Hb Hq H0 m. pose proof (magnitude_range b) as Hm. fold m in Hm.
  pose proof (scaled_nonneg m) as Hs. pose proof (pattern_parts b Hb) as Hp. fold m in Hp.
  unfold num, isnan in Hq. fold m in Hq. destruct (Z.ltb_spec inf m) as [|Hinf]; [done|]. injection Hq as Hq.
  assert (Hsg : signbit b = (q <? 0)) by (destruct (signbit b), (Z.ltb_spec q 0); done || lia).
  rewrite Hsg in *. split; [lia|]. split; [destruct (Z.ltb_spec q 0); lia|].
  split.
  { change m with (with_sign false m) at 1. rewrite num_with_sign by lia. f_equal. destruct (Z.ltb_spec q 0); lia. }
  split; [done|]. split; [done|].
  destruct (q <? 0); [|exact Hp]. rewrite Hp. by rewrite neg_with_sign by lia.
Qed.

Lemma trunc_num (m q : Z) : num m = Some q -> 0 <= q -> trunc m = q / unit.
Proof.
  intros H Hq. unfold trunc. rewrite H. cbv [default from_option id]. pose proof unit_pos.
  by rewrite Z.quot_div_nonneg by lia.
Qed.

(** The integer part is converted back exactly, and equals the number without a fraction. *)
Lemma of_Z_integer_part (m q : Z) : 0 <= m <= inf -> scaled m = q -> num m = Some q -> q < 2 ^ 63 * unit ->
  eq (of_Z (q / unit)) m = (q mod unit =? 0).
Proof.
  intros Hm Hs Hn Hq. pose proof unit_pos as Hu. pose proof (scaled_nonneg m).
  pose proof (Z.div_mod q unit) as Hd. pose proof (Z.mod_pos_bound q unit) as Hmod.
  pose proof (Z.div_pos q unit) as Hpos.
  destruct (Z.eqb_spec (q mod unit) 0) as [E|E].
  - rewrite (eq_num _ _ q q); [by rewrite Z.eqb_refl| |done].
    unfold of_Z. destruct (Z.ltb_spec (q / unit) 0); [lia|]. rewrite Z.abs_eq by lia.
    replace (q / unit * unit) with q by lia.
    destruct (scaled_form m) as (x & j & Hx & Hj & Ex & _); [lia|]. rewrite <- Hs, Ex.
    destruct (round_exact x j 0) as [Hr Hv]; [done|lia| |].
    { rewrite Z.sub_0_r, <- Ex, Hs, scaled_inf. apply Z.lt_trans with (2 ^ 63 * unit); [done|]. by vm_compute. }
    rewrite num_with_sign by lia. by rewrite Hv, Z.sub_0_r.
  - assert (q < 2 ^ 53 * unit).
    { destruct (Z.lt_ge_cases q (2 ^ 53 * unit)); [done|]. exfalso. apply E, Z.mod_divide; [lia|].
      rewrite <- Hs. apply scaled_multiple; [lia|lia|]. rewrite Z.pow_add_r by lia. rewrite Hs. done. }
    assert (q / unit < 2 ^ 53) by (apply Z.div_lt_upper_bound; lia).
    rewrite (eq_num _ _ (q / unit * unit) q); [|apply of_Z_small; lia|done].
    apply Z.eqb_neq. lia.
Qed.

(** Multiplication by a power of two is exact below the largest number. *)
Lemma scale_up (m q k : Z) : 0 <= m <= inf -> scaled m = q -> 0 <= k -> q * 2 ^ k < 2 ^ 2098 ->
  0 <= scale m k <= inf /\ scaled (scale m k) = q * 2 ^ k /\ num (scale m k) = Some (q * 2 ^ k).
Proof.
  intros Hm Hs Hk Hb. unfold scale.
  assert (inf < 2 ^ 63) by done.
  assert (magnitude m = m) as -> by (rewrite magnitude_mod; apply Z.mod_small; lia).
  assert (signbit m = false) as ->.
  { unfold signbit. apply Z.testbit_false; [lia|]. by rewrite Z.div_small by lia. }
  destruct (Z.ltb_spec k 0); [lia|]. rewrite Z.shiftl_mul_pow2, Hs by lia.
  destruct (scaled_form m) as (x & j & Hx & Hj & Ex & _); [lia|].
  assert (E : q * 2 ^ k = x * 2 ^ (j + k)) by (rewrite <- Hs, Ex, Z.pow_add_r by lia; lia).
  rewrite E in *. destruct (round_exact x (j + k) 0) as [Hr Hv]; [done|lia|by rewrite Z.sub_0_r, scaled_inf|].
  rewrite Z.sub_0_r in Hv. unfold with_sign. split; [lia|]. split; [done|].
  pose proof (num_with_sign false (round (x * 2 ^ (j + k)) 0)) as Hn. unfold with_sign in Hn.
  rewrite Hn by lia. by rewrite Hv.
Qed.

End DblLemmas.

(** ** Comparisons: lemmas *)
Module CmpLemmas.
Import Dbl DblLemmas Cmp.

(** The specification of number comparisons: a NaN is equal to itself and less than
    every number. *)
Definition ncmp (a b : option Z) : Z :=
  match a, b with
  | None, None => 0
  | None, Some _ => -1
  | Some _, None => 1
  | Some x, Some y => if x <? y then -1 else if x =? y then 0 else 1
  end.

(** The number of a value, in units of 2^-1074; the outer [None] is a value that is not a
    number or is a [NumberDecimal]. *)
Definition number (v : value) : option (option Z) :=
  match v with
  | VInt n | VLong n => Some (Some (n * unit))
  | VDouble raw => Some (num (le_decode raw))
  | _ => None
  end.

Ltac zcases := repeat match goal with
  | |- context [?a <? ?b] => destruct (Z.ltb_spec a b)
  | |- context [?a =? ?b] => destruct (Z.eqb_spec a b)
  | |- context [?a <=? ?b] => destruct (Z.leb_spec a b)
  end.

Lemma ncmp_unit (a b : Z) : ncmp (Some (a * unit)) (Some (b * unit)) = compareLongs a b.
Proof. pose proof unit_pos. unfold ncmp, compareLongs. zcases; nia. Qed.
Lemma ncmp_antisym (a b : option Z) : ncmp a b = - ncmp b a.
Proof. destruct a, b; unfold ncmp; try done. zcases; lia. Qed.
Lemma num_isnan (b : Z) : isnan b = bool_decide (num b = None).
Proof. unfold num. destruct (isnan b); symmetry; [by apply bool_decide_eq_true_2|by apply bool_decide_eq_false_2]. Qed.

Lemma compareDoubles_exact (l r : Z) : compareDoubles l r = ncmp (num l) (num r).
Proof.
  unfold compareDoubles, eq, lt. rewrite !num_isnan.
  destruct (num l) as [a|], (num r) as [b|]; cbn; try done.
  zcases; lia || done.
Qed.

Lemma num_nonneg_multiple (b q : Z) : num b = Some q -> 2 ^ 53 * unit <= Z.abs q -> (unit | q).
Proof.
  unfold num. destruct (isnan b); [done|]. intros [= <-] H.
  pose proof (magnitude_range b). pose proof (scaled_nonneg (magnitude b)).
  assert (Hd : (unit | scaled (magnitude b))).
  { apply scaled_multiple; [lia|lia|]. rewrite Z.pow_add_r by lia. change (2 ^ 1074) with unit.
    destruct (signbit b); lia. }
  destruct (signbit b); [by apply Z.divide_opp_r|done].
Qed.

Lemma num_bound : num kBoundOfLongRange = Some (2 ^ 63 * unit).
Proof. vm_compute. reflexivity. Qed.
Lemma num_neg_bound : num (neg kBoundOfLongRange) = Some (- 2 ^ 63 * unit).
Proof. vm_compute. reflexivity. Qed.

(** Above 2^53 the truncation loses nothing, below it cannot reach the [long long]. *)
Lemma compareLongs_trunc (l b q : Z) : num b = Some q -> 2 ^ 53 < Z.abs l ->
  compareLongs l (trunc b) = ncmp (Some (l * unit)) (Some q).
Proof.
  intros Hq Hl. unfold trunc. rewrite Hq. cbv [default from_option id]. pose proof unit_pos as Hu.
  pose proof (Z.quot_rem' q unit) as E. assert (Hr : Z.abs (Z.rem q unit) < unit) by (pose proof (Z.rem_bound_abs q unit); lia).
  assert (Hz : 2 ^ 53 * unit <= Z.abs q -> Z.rem q unit = 0).
  { intros H. apply Z.rem_divide; [lia|]. by apply num_nonneg_multiple with b. }
  generalize dependent (Z.rem q unit). generalize (Z.quot q unit).
  generalize dependent unit. intros u Hu d m E Hm Hz. unfold ncmp, compareLongs.
  destruct (Z.le_gt_cases (2 ^ 53 * u) (Z.abs q)).
  - assert (m = 0) as -> by auto. subst q. zcases; try done; nia.
  - assert (- 2 ^ 53 <= d <= 2 ^ 53) by nia.
    assert (l * u < q <-> l < 0) by nia. zcases; try done; nia.
Qed.

(** The comparison of a [long long] with a [double] is exact. *)
Lemma compareLongToDouble_exact (l r : Z) : - 2 ^ 63 <= l < 2 ^ 63 ->
  compareLongToDouble l r = ncmp (Some (l * unit)) (num r).
Proof.
  intros Hl. unfold compareLongToDouble. rewrite num_isnan. case_bool_decide as Hn; [by rewrite Hn|].
  unfold kEndOfPreciseDoubles. change (Z.shiftl 1 53) with (2 ^ 53).
  destruct ((l <=? 2 ^ 53) && (- 2 ^ 53 <=? l)) eqn:Hp.
  { apply andb_true_iff in Hp as [H1%Z.leb_le H2%Z.leb_le].
    rewrite compareDoubles_exact, of_Z_small by lia. done. }
  assert (2 ^ 53 < Z.abs l).
  { apply andb_false_iff in Hp as [Hp%Z.leb_gt|Hp%Z.leb_gt]; lia. }
  unfold le, lt, eq. rewrite num_bound, num_neg_bound.
  destruct (num r) as [q|] eqn:Eq; [|done].
  rewrite (compareLongs_trunc l r q) by done. pose proof unit_pos.
  generalize dependent unit. intros u ?. unfold ncmp. zcases; cbn [orb]; try done; nia.
Qed.

(** Numbers of different types are compared by their exact values. *)
Lemma compareElementValues_numbers (D : Decimal128) c (l r : value) a b :
  wf_value l -> wf_value r -> number l = Some a -> number r = Some b ->
  compareElementValues D c l r = Some (ncmp a b).
Proof.
  intros Hl Hr Ha Hb. destruct l, r; try discriminate; cbn in *; simplify_eq; f_equal;
    rewrite ?compareDoubles_exact, ?of_Z_small by lia; try done.
  1: unfold compareDoubleToLong; rewrite compareLongToDouble_exact by done; by rewrite <- ncmp_antisym.
  all: try (symmetry; apply ncmp_unit).
  by rewrite compareLongToDouble_exact by done.
Qed.

End CmpLemmas.
