(* ===== verification/KeyString.v ===== *)
(** * KeyString: index keys as byte strings

    The encoding half of [db/storage/key_string.cpp]: a key, a list of BSON values, becomes
    a byte string such that [memcmp] orders the strings like [BSONObj::woCompare] orders the
    keys; the type bits keep what two equal values of different types differ in. Both
    versions of the format are modelled. [Module KS] has the operations. The encoding of a
    [NumberDecimal] goes through [Decimal128], third-party arithmetic, and is a parameter of
    the operations that reach it. *)
From Stdlib Require Import ZArith Lia Bool.
From stdpp Require Import base list option.
From S2P Require Import Prelude StringData Bson BsonCompare.
Open Scope Z_scope.

Module CType.

Definition kMinKey : Z := 10.
Definition kUndefined : Z := 15.
Definition kNullish : Z := 20.
Definition kNumeric : Z := 30.
Definition kStringLike : Z := 60.
Definition kObject : Z := 70.
Definition kArray : Z := 80.
Definition kBinData : Z := 90.
Definition kOID : Z := 100.
Definition kBool : Z := 110.
Definition kDate : Z := 120.
Definition kTimestamp : Z := 130.
Definition kRegEx : Z := 140.
Definition kDBRef : Z := 150.
Definition kCode : Z := 160.
Definition kCodeWithScope : Z := 170.
Definition kMaxKey : Z := 240.

Definition kNumericNaN : Z := kNumeric + 0.
Definition kNumericNegativeLargeMagnitude : Z := kNumeric + 1.
Definition kNumericNegative8ByteInt : Z := kNumeric + 2.
Definition kNumericNegative1ByteInt : Z := kNumeric + 9.
Definition kNumericNegativeSmallMagnitude : Z := kNumeric + 10.
Definition kNumericZero : Z := kNumeric + 11.
Definition kNumericPositiveSmallMagnitude : Z := kNumeric + 12.
Definition kNumericPositive1ByteInt : Z := kNumeric + 13.
Definition kNumericPositive8ByteInt : Z := kNumeric + 20.
Definition kNumericPositiveLargeMagnitude : Z := kNumeric + 21.
Definition kBoolFalse : Z := kBool + 0.
Definition kBoolTrue : Z := kBool + 1.

Definition numBytesForInt (ctype : Z) : Z :=
  if kNumericPositive1ByteInt <=? ctype then ctype - kNumericPositive1ByteInt + 1
  else kNumericNegative1ByteInt - ctype + 1.

End CType.

(** What the code throws: an unsupported type, or the end of a buffer that is read. *)
Inductive ks_error := UnsupportedFormat | Eof.

Inductive Version := V0 | V1.
#[export] Instance Version_eq_dec : EqDecision Version.
Proof. solve_decision. Defined.

(** Big-endian bytes and the bytes of a flipped buffer. *)
Definition be_encode (n : nat) (z : Z) : bytes := rev (le_encode n z).
Definition be_decode (l : bytes) : Z := le_decode (rev l).
Definition memcpy_flipBits (l : bytes) : bytes := List.map (fun c => wrapu 8 (Z.lnot c)) l.

Definition countLeadingZeros64 (n : Z) : Z := if n =? 0 then 64 else 63 - Z.log2 n.

(** ** Type bits *)
Module TB.

Definition kMaxBytesNeeded : nat := 127.
Definition kString : Z := 0.
Definition kSymbol : Z := 1.
Definition kInt : Z := 0.
Definition kLong : Z := 1.
Definition kDouble : Z := 2.
Definition kDecimal : Z := 3.
Definition kSpecialZeroPrefix : Z := 3.
Definition kNegativeDoubleZero : Z := 3.
Definition kV0NegativeDoubleZero : Z := 3.
Definition kV1NegativeDoubleZero : Z := 24.
Definition kDecimalZero0xxx : Z := 26.
Definition kDecimalZero5xxx : Z := 31.

(** [_buf] has the size byte first. *)
Record TypeBits := mkTypeBits {
  version : Version; _curBit : Z; _isAllZeros : bool; _buf : list Z }.

Definition setSizeByte (size : Z) (buf : list Z) : list Z := <[0%nat := Z.lor 128 size]> buf.
Definition getSizeByte (t : TypeBits) : Z := Z.land (default 0 (_buf t !! 0%nat)) 127.

(** The constructor and [reset]; [junk] is what the rest of the array holds. *)
Definition reset (ver : Version) (junk : list Z) : TypeBits :=
  mkTypeBits ver 0 true (<[1%nat := 0]> (setSizeByte 0 junk)).

(** A write outside [_buf] is a [Fault]. *)
Definition appendBit (oneOrZero : Z) (t : TypeBits) : outcome ks_error TypeBits :=
  let allZeros := if oneOrZero =? 1 then false else _isAllZeros t in
  let byte := wrapu 8 (_curBit t / 8 + 1) in
  let offsetInByte := _curBit t mod 8 in
  match _buf t !! Z.to_nat byte with
  | None => Fault
  | Some old =>
      let buf :=
        if offsetInByte =? 0 then <[Z.to_nat byte := oneOrZero]> (setSizeByte byte (_buf t))
        else <[Z.to_nat byte := Z.lor old (wrapu 8 (Z.shiftl oneOrZero offsetInByte))]> (_buf t) in
      Ret (mkTypeBits (version t) (_curBit t + 1) allZeros buf)
  end.

(** The loops that append the bits of a number from [bitPos] down. *)
Fixpoint appendBits (bitPos : nat) (x : Z) (t : TypeBits) : outcome ks_error TypeBits :=
  match bitPos with
  | O => Ret t
  | S p => t ← appendBit (Z.land (Z.shiftr x (Z.of_nat p)) 1) t; appendBits p x t
  end.

Definition appendString (t : TypeBits) : outcome ks_error TypeBits := appendBit kString t.
Definition appendSymbol (t : TypeBits) : outcome ks_error TypeBits := appendBit kSymbol t.
Definition appendNumberDouble (t : TypeBits) : outcome ks_error TypeBits :=
  t ← appendBit (Z.shiftr kDouble 1) t; appendBit (Z.land kDouble 1) t.
Definition appendNumberInt (t : TypeBits) : outcome ks_error TypeBits :=
  t ← appendBit (Z.shiftr kInt 1) t; appendBit (Z.land kInt 1) t.
Definition appendNumberLong (t : TypeBits) : outcome ks_error TypeBits :=
  t ← appendBit (Z.shiftr kLong 1) t; appendBit (Z.land kLong 1) t.
Definition appendNumberDecimal (t : TypeBits) : outcome ks_error TypeBits :=
  t ← appendBit (Z.shiftr kDecimal 1) t; appendBit (Z.land kDecimal 1) t.

Definition appendZero (zeroType : Z) (t : TypeBits) : outcome ks_error TypeBits :=
  if (zeroType =? kInt) || (zeroType =? kDouble) || (zeroType =? kLong) then
    t ← appendBit (Z.shiftr zeroType 1) t; appendBit (Z.land zeroType 1) t
  else if zeroType =? kNegativeDoubleZero then
    if decide (version t = V0) then
      t ← appendBit (Z.shiftr kV0NegativeDoubleZero 1) t; appendBit (Z.land kV0NegativeDoubleZero 1) t
    else appendBits 5 kV1NegativeDoubleZero t
  else if (kDecimalZero0xxx <=? zeroType) && (zeroType <=? kDecimalZero5xxx) then appendBits 5 zeroType t
  else Fault.

Definition appendDecimalZero (whichZero : Z) (t : TypeBits) : outcome ks_error TypeBits :=
  _ ← verify (Z.shiftr whichZero 12 <=? kDecimalZero5xxx - kDecimalZero0xxx);
  t ← appendZero (Z.shiftr whichZero 12 + kDecimalZero0xxx) t;
  appendBits 12 whichZero t.
Definition appendDecimalExponent (storedExponentBits : Z) (t : TypeBits) : outcome ks_error TypeBits :=
  _ ← verify (storedExponentBits <? 64); appendBits 6 storedExponentBits t.

(** [getSize] and [getBuffer], as the bytes the caller stores. *)
Definition getSize (t : TypeBits) : Z :=
  if _isAllZeros t then 1
  else
    let rawSize := getSizeByte t in
    if (rawSize =? 1) && (Z.land (default 0 (_buf t !! 1%nat)) 128 =? 0) then 1
    else rawSize + 1.
Definition getBuffer (t : TypeBits) : bytes :=
  take (Z.to_nat (getSize t)) (if getSize t =? 1 then drop 1 (_buf t) else _buf t).

(** [resetFromBuffer] on a reader that holds [buf]; returns what is left of it. *)
Definition resetFromBuffer (ver : Version) (junk buf : bytes) : outcome ks_error (TypeBits * bytes) :=
  match buf with
  | [] => Ret (reset ver junk, [])
  | firstByte :: rest =>
      if negb (Z.land firstByte 128 =? 0) then
        let remainingBytes := Z.to_nat (Z.land firstByte 127) in
        if (remainingBytes <=? length rest)%nat then
          Ret (mkTypeBits ver 0 false
                 (firstByte :: take remainingBytes rest ++ drop (S remainingBytes) junk),
               drop remainingBytes rest)
        else Throw Eof
      else if firstByte =? 0 then Ret (reset ver junk, rest)
      else Ret (mkTypeBits ver 0 false (<[1%nat := firstByte]> (setSizeByte 1 junk)), rest)
  end.

(** [Reader]: the position; a read outside [_buf] is a [Fault]. *)
Definition readBit (t : TypeBits) (cur : Z) : outcome ks_error (Z * Z) :=
  if _isAllZeros t then Ret (0, cur)
  else
    let byte := wrapu 8 (cur / 8 + 1) in
    let offsetInByte := cur mod 8 in
    match _buf t !! Z.to_nat byte with
    | None => Fault
    | Some b => Ret (if negb (Z.land b (Z.shiftl 1 offsetInByte) =? 0) then 1 else 0, cur + 1)
    end.

Definition readStringLike (t : TypeBits) (cur : Z) : outcome ks_error (Z * Z) := readBit t cur.
Definition readNumeric (t : TypeBits) (cur : Z) : outcome ks_error (Z * Z) :=
  '(highBit, cur) ← readBit t cur;
  '(lowBit, cur) ← readBit t cur;
  Ret (Z.lor (Z.shiftl highBit 1) lowBit, cur).

Definition readZero (t : TypeBits) (cur : Z) : outcome ks_error (Z * Z) :=
  '(res, cur) ← readNumeric t cur;
  '(res, cur) ←
    (if bool_decide (version t <> V0) && (res =? kSpecialZeroPrefix) then
       '(b1, cur) ← readBit t cur;
       let res := Z.lor (Z.shiftl res 1) b1 in
       '(b2, cur) ← readBit t cur;
       let res := Z.lor (Z.shiftl res 1) b2 in
       '(b3, cur) ← readBit t cur;
       Ret (Z.lor (Z.shiftl res 1) b3, cur)
     else Ret (res, cur));
  Ret (if (res =? kV1NegativeDoubleZero) || (res =? kV0NegativeDoubleZero)
       then kNegativeDoubleZero else res, cur).

(** The loops of [readDecimalZero] and [readDecimalExponent]. *)
Fixpoint readBits (n : nat) (acc : Z) (t : TypeBits) (cur : Z) : outcome ks_error (Z * Z) :=
  match n with
  | O => Ret (acc, cur)
  | S n' => '(b, cur) ← readBit t cur; readBits n' (Z.lor (Z.shiftl acc 1) b) t cur
  end.
Definition readDecimalZero (zeroType : Z) (t : TypeBits) (cur : Z) : outcome ks_error (Z * Z) :=
  readBits 12 (zeroType - kDecimalZero0xxx) t cur.
Definition readDecimalExponent (t : TypeBits) (cur : Z) : outcome ks_error (Z * Z) := readBits 6 0 t cur.

End TB.

Definition bsonTypeToGenericKeyStringType (v : value) : Z :=
  match v with
  | VMinKey => CType.kMinKey
  | VNull => CType.kNullish
  | VUndefined => CType.kUndefined
  | VDecimal _ | VDouble _ | VInt _ | VLong _ => CType.kNumeric
  | VString _ | VSymbol _ => CType.kStringLike
  | VObject _ => CType.kObject
  | VArray _ => CType.kArray
  | VBinData _ _ => CType.kBinData
  | VOID _ => CType.kOID
  | VBool _ => CType.kBool
  | VDate _ => CType.kDate
  | VTimestamp _ => CType.kTimestamp
  | VRegEx _ _ => CType.kRegEx
  | VDBRef _ _ => CType.kDBRef
  | VCode _ => CType.kCode
  | VCodeWScope _ _ => CType.kCodeWithScope
  | VMaxKey => CType.kMaxKey
  end.

Definition kTiniestDoubleWith2BitDCM : Z := Dbl.scale (Dbl.of_Z 1) (-255).
Definition kTinyDoubleExponentShift : Z := 256.
Definition kMinLargeDouble : Z := Dbl.of_Z (2 ^ 63).
Definition kEnd : Z := 4.
Definition kLess : Z := 1.
Definition kGreater : Z := 254.

(** [DecimalContinuationMarker]. *)
Definition kDCMEqualToDouble : Z := 0.
Definition kDCMEqualToDoubleRoundedUpTo15Digits : Z := 2.

Inductive Discriminator := kInclusive | kExclusiveBefore | kExclusiveAfter.

(** ** The encoder *)
Module KS.

Record KeyString := mkKeyString { version : Version; _buffer : bytes; _typeBits : TB.TypeBits }.

Definition resetToEmpty (ver : Version) (junk : list Z) : KeyString :=
  mkKeyString ver [] (TB.reset ver junk).

Definition _appendBytes (source : bytes) (invert : bool) (ks : KeyString) : KeyString :=
  mkKeyString (version ks) (_buffer ks ++ if invert then memcpy_flipBits source else source)
    (_typeBits ks).
(** [_append] of a byte, and of a 64-bit or 32-bit integer in big-endian order. *)
Definition _append (c : Z) : bool -> KeyString -> KeyString := _appendBytes [wrapu 8 c].
Definition _append64 (z : Z) : bool -> KeyString -> KeyString := _appendBytes (be_encode 8 z).
Definition _append32 (z : Z) : bool -> KeyString -> KeyString := _appendBytes (be_encode 4 z).

Definition on_typeBits (f : TB.TypeBits -> outcome ks_error TB.TypeBits) (ks : KeyString) :
    outcome ks_error KeyString :=
  t ← f (_typeBits ks); Ret (mkKeyString (version ks) (_buffer ks) t).

(** ** Numbers *)

Definition _appendPreshiftedIntegerPortion (value : Z) (isNegative invert : bool) (ks : KeyString) :
    KeyString :=
  let bytesNeeded := (64 - countLeadingZeros64 value + 7) / 8 in
  let used := drop (8 - Z.to_nat bytesNeeded) (be_encode 8 value) in
  if isNegative then
    _appendBytes used (negb invert)
      (_append (CType.kNumericNegative1ByteInt - (bytesNeeded - 1)) invert ks)
  else
    _appendBytes used invert
      (_append (CType.kNumericPositive1ByteInt + (bytesNeeded - 1)) invert ks).

Definition _appendSmallDouble (value dcm : Z) (invert : bool) (ks : KeyString) :
    outcome ks_error KeyString :=
  let isNegative := Dbl.lt value 0 in
  let magnitude := if isNegative then Dbl.neg value else value in
  let ks := _append (if isNegative then CType.kNumericNegativeSmallMagnitude
                     else CType.kNumericPositiveSmallMagnitude) invert ks in
  encoded ←
    (if decide (version ks = V0) then Ret value
     else if Dbl.le kTiniestDoubleWith2BitDCM magnitude then
       Ret (Z.lor (wrapu 64 (Z.shiftl magnitude 2)) dcm)
     else
       _ ← verify (negb (dcm =? kDCMEqualToDoubleRoundedUpTo15Digits));
       let magnitude := Dbl.scale magnitude kTinyDoubleExponentShift in
       let encoded := wrapu 64 (Z.shiftl magnitude 1) in
       let encoded := Z.lor encoded (if dcm =? kDCMEqualToDouble then 0 else 1) in
       Ret (wrapu 64 (encoded + Z.shiftl 1 62)));
  Ret (_append64 encoded (if isNegative then negb invert else invert) ks).

Definition _appendLargeDouble (value dcm : Z) (invert : bool) (ks : KeyString) :
    outcome ks_error KeyString :=
  _ ← verify (negb (dcm =? kDCMEqualToDoubleRoundedUpTo15Digits));
  let positive := Dbl.lt 0 value in
  let ks := _append (if positive then CType.kNumericPositiveLargeMagnitude
                     else CType.kNumericNegativeLargeMagnitude) invert ks in
  let encoded :=
    if decide (version ks = V0) then value
    else if Dbl.isfinite value then
      let encoded := wrapu 64 (Z.shiftl value 1) in
      let encoded := Z.land encoded (Z.lnot (Z.shiftl 1 63)) in
      Z.lor encoded (if dcm =? kDCMEqualToDouble then 0 else 1)
    else 2 ^ 64 - 1 in
  Ret (_append64 encoded (if positive then invert else negb invert) ks).

Definition _appendDoubleWithoutTypeBits (num dcm : Z) (invert : bool) (ks : KeyString) :
    outcome ks_error KeyString :=
  let isNegative := Dbl.lt num 0 in
  let magnitude := if isNegative then Dbl.neg num else num in
  if negb (Dbl.le (Dbl.of_Z 1) magnitude) then
    if Dbl.lt 0 magnitude then _appendSmallDouble num dcm invert ks
    else if Dbl.eq num 0 then Ret (_append CType.kNumericZero invert ks)
    else _ ← verify (Dbl.isnan num); Ret (_append CType.kNumericNaN invert ks)
  else if Dbl.lt magnitude kMinLargeDouble then
    let integerPart := Dbl.trunc magnitude in
    if Dbl.eq (Dbl.of_Z integerPart) magnitude && (dcm =? kDCMEqualToDouble) then
      Ret (_appendPreshiftedIntegerPortion (wrapu 64 (Z.shiftl integerPart 1)) isNegative invert ks)
    else if decide (version ks = V0) then
      _ ← verify (dcm =? kDCMEqualToDouble);
      let ks := _appendPreshiftedIntegerPortion (Z.lor (wrapu 64 (Z.shiftl integerPart 1)) 1)
                  isNegative invert ks in
      let fractionalBits := wrapu 64 (53 - (64 - countLeadingZeros64 integerPart)) in
      let fractionalBytes := wrapu 64 (fractionalBits + 7) / 8 in
      let mantissa := Z.land num (wrapu 64 (Z.lnot (Z.shiftl (2 ^ 64 - 1) fractionalBits))) in
      Ret (_appendBytes (drop (8 - Z.to_nat fractionalBytes) (be_encode 8 mantissa))
             (if isNegative then negb invert else invert) ks)
    else
      let fractionalBytes := countLeadingZeros64 (wrapu 64 (Z.shiftl integerPart 1)) / 8 in
      let ctype := if isNegative then CType.kNumericNegative8ByteInt + fractionalBytes
                   else CType.kNumericPositive8ByteInt - fractionalBytes in
      let ks := _append ctype invert ks in
      let encoding := wrapu 64 (Dbl.trunc (Dbl.scale magnitude (fractionalBytes * 8))) in
      let encoding := wrapu 64 (encoding + Z.shiftl (integerPart + 1) (fractionalBytes * 8)) in
      _ ← verify (Z.land encoding 3 =? 0);
      let encoding := Z.lor encoding dcm in
      Ret (_append64 encoding (if isNegative then negb invert else invert) ks)
  else _appendLargeDouble num dcm invert ks.

Definition _appendNumberDouble (num : Z) (invert : bool) (ks : KeyString) : outcome ks_error KeyString :=
  ks ← on_typeBits (if Dbl.eq num 0 && Dbl.signbit num then TB.appendZero TB.kNegativeDoubleZero
                    else TB.appendNumberDouble) ks;
  _appendDoubleWithoutTypeBits num kDCMEqualToDouble invert ks.

Definition _appendInteger (num : Z) (invert : bool) (ks : KeyString) : outcome ks_error KeyString :=
  if num =? - 2 ^ 63 then _appendLargeDouble (Dbl.of_Z num) kDCMEqualToDouble invert ks
  else if num =? 0 then Ret (_append CType.kNumericZero invert ks)
  else
    let isNegative := num <? 0 in
    let magnitude := wrapu 64 (if isNegative then - num else num) in
    Ret (_appendPreshiftedIntegerPortion (wrapu 64 (Z.shiftl magnitude 1)) isNegative invert ks).

Definition _appendNumberLong (num : Z) (invert : bool) (ks : KeyString) : outcome ks_error KeyString :=
  ks ← on_typeBits TB.appendNumberLong ks; _appendInteger num invert ks.
Definition _appendNumberInt (num : Z) (invert : bool) (ks : KeyString) : outcome ks_error KeyString :=
  ks ← on_typeBits TB.appendNumberInt ks; _appendInteger num invert ks.

(** ** The other types *)

(** The library's [strnlen]: the bytes before the first NUL. *)
Fixpoint strnlen (s : bytes) : nat :=
  match s with [] => O | c :: s' => if c =? 0 then O else S (strnlen s') end.
(** A C string that starts where [s] does. *)
Definition c_str (s : bytes) : bytes := take (strnlen s) s.

(** One round per NUL of the string. *)
Fixpoint _appendStringLike (fuel : nat) (str : bytes) (invert : bool) (ks : KeyString) :
    outcome ks_error KeyString :=
  match fuel with
  | O => NoFuel
  | S fuel' =>
      let firstNul := strnlen str in
      let ks := _appendBytes (take firstNul str) invert ks in
      if (firstNul =? length str)%nat then Ret (_append 0 invert ks)
      else _appendStringLike fuel' (drop (firstNul + 1) str) invert (_appendBytes [0; 255] invert ks)
  end.
Definition appendStringLike (str : bytes) : bool -> KeyString -> outcome ks_error KeyString :=
  _appendStringLike (S (length str)) str.

Definition _appendBool (val invert : bool) (ks : KeyString) : KeyString :=
  _append (if val then CType.kBoolTrue else CType.kBoolFalse) invert ks.
Definition _appendDate (val : Z) (invert : bool) (ks : KeyString) : KeyString :=
  _append64 (Z.lxor (wrapu 64 val) (Z.shiftl 1 63)) invert (_append CType.kDate invert ks).
Definition _appendTimestamp (val : Z) (invert : bool) (ks : KeyString) : KeyString :=
  _append64 val invert (_append CType.kTimestamp invert ks).
Definition _appendOID (val : bytes) (invert : bool) (ks : KeyString) : KeyString :=
  _appendBytes val invert (_append CType.kOID invert ks).
Definition _appendString (val : bytes) (invert : bool) (ks : KeyString) : outcome ks_error KeyString :=
  ks ← on_typeBits TB.appendString ks;
  appendStringLike val invert (_append CType.kStringLike invert ks).
Definition _appendSymbol (val : bytes) (invert : bool) (ks : KeyString) : outcome ks_error KeyString :=
  ks ← on_typeBits TB.appendSymbol ks;
  appendStringLike val invert (_append CType.kStringLike invert ks).
Definition _appendCode (val : bytes) (invert : bool) (ks : KeyString) : outcome ks_error KeyString :=
  appendStringLike val invert (_append CType.kCode invert ks).

Definition _appendBinData (type : Z) (data : bytes) (invert : bool) (ks : KeyString) : KeyString :=
  let len := Z.of_nat (length data) in
  let ks := _append CType.kBinData invert ks in
  let ks := if len <? 255 then _append len invert ks
            else _append32 (wraps 32 len) invert (_append 255 invert ks) in
  _appendBytes data invert (_append type invert ks).
Definition _appendRegex (pattern flags : bytes) (invert : bool) (ks : KeyString) : KeyString :=
  let ks := _appendBytes pattern invert (_append CType.kRegEx invert ks) in
  let ks := _append 0 invert ks in
  _append 0 invert (_appendBytes flags invert ks).
Definition _appendDBRef (ns oid : bytes) (invert : bool) (ks : KeyString) : KeyString :=
  let ks := _append32 (wraps 32 (Z.of_nat (length ns))) invert (_append CType.kDBRef invert ks) in
  _appendBytes oid invert (_appendBytes ns invert ks).

Section append.
(** [_appendNumberDecimal]. *)
Variable appendNumberDecimal : bytes -> bool -> KeyString -> outcome ks_error KeyString.

(** [_appendBsonValue], with [_appendObject], [_appendArray], [_appendCodeWString] and
    [_appendBson] inside. The namespace of a DBRef is passed as a C string. *)
Fixpoint _appendBsonValue (elem : value) (invert : bool) (name : option bytes) (ks : KeyString)
    {struct elem} : outcome ks_error KeyString :=
  let _appendBson := fix _appendBson (obj : list field) (ks : KeyString) : outcome ks_error KeyString :=
    match obj with
    | [] => Ret (_append 0 invert ks)
    | (n, e) :: obj' =>
        let ks := _append (bsonTypeToGenericKeyStringType e) invert ks in
        ks ← _appendBsonValue e invert (Some n) ks;
        _appendBson obj' ks
    end in
  let _appendElems := fix _appendElems (arr : list field) (ks : KeyString) : outcome ks_error KeyString :=
    match arr with
    | [] => Ret (_append 0 invert ks)
    | (_, e) :: arr' => ks ← _appendBsonValue e invert None ks; _appendElems arr' ks
    end in
  let ks := match name with Some n => _appendBytes (n ++ [0]) invert ks | None => ks end in
  match elem with
  | VMinKey | VMaxKey | VUndefined | VNull =>
      Ret (_append (bsonTypeToGenericKeyStringType elem) invert ks)
  | VDouble raw => _appendNumberDouble (le_decode raw) invert ks
  | VString s => _appendString s invert ks
  | VObject fs => _appendBson fs (_append CType.kObject invert ks)
  | VArray fs => _appendElems fs (_append CType.kArray invert ks)
  | VBinData subtype data => Ret (_appendBinData subtype data invert ks)
  | VOID raw => Ret (_appendOID raw invert ks)
  | VBool b => Ret (_appendBool b invert ks)
  | VDate n => Ret (_appendDate n invert ks)
  | VRegEx p f => Ret (_appendRegex p f invert ks)
  | VDBRef ns oid => Ret (_appendDBRef (c_str ns) oid invert ks)
  | VSymbol s => _appendSymbol s invert ks
  | VCode s => _appendCode s invert ks
  | VCodeWScope code scope =>
      ks ← appendStringLike code invert (_append CType.kCodeWithScope invert ks);
      _appendBson scope ks
  | VInt n => _appendNumberInt n invert ks
  | VTimestamp n => Ret (_appendTimestamp n invert ks)
  | VLong n => _appendNumberLong n invert ks
  | VDecimal raw =>
      _ ← require UnsupportedFormat (bool_decide (version ks = V1));
      appendNumberDecimal raw invert ks
  end.

(** ** Keys *)

Definition char_l : Z := 108.
Definition char_g : Z := 103.

Fixpoint append_elements (obj : list field) (ord elemIdx : Z) (discriminator : Discriminator)
    (ks : KeyString) : outcome ks_error (Discriminator * KeyString) :=
  match obj with
  | [] => Ret (discriminator, ks)
  | (n, e) :: obj' =>
      let invert := Cmp.Ordering_get ord elemIdx =? -1 in
      ks ← _appendBsonValue e invert None ks;
      discriminator ←
        (match n with
         | [] => Ret discriminator
         | ch :: _ =>
             _ ← verify ((ch =? char_l) || (ch =? char_g));
             _ ← verify (match obj' with [] => true | _ => false end);
             Ret (if ch =? char_l then kExclusiveBefore else kExclusiveAfter)
         end);
      append_elements obj' ord (elemIdx + 1) discriminator ks
  end.

Definition _appendAllElementsForIndexing (obj : list field) (ord : Z) (discriminator : Discriminator)
    (ks : KeyString) : outcome ks_error KeyString :=
  '(discriminator, ks) ← append_elements obj ord 0 discriminator ks;
  let ks := match discriminator with
            | kExclusiveBefore => _append kLess false ks
            | kExclusiveAfter => _append kGreater false ks
            | kInclusive => ks
            end in
  Ret (_append kEnd false ks).

(** [RecordId::min]. *)
Definition RecordId_min : Z := - 2 ^ 63.

Definition appendRecordId (loc : Z) (ks : KeyString) : outcome ks_error KeyString :=
  raw ← (if loc <? 0 then _ ← verify (loc =? RecordId_min); Ret 0 else Ret loc);
  let value := wrapu 64 raw in
  let bitsNeeded := 64 - countLeadingZeros64 raw in
  let extraBytesNeeded := if bitsNeeded <=? 10 then 0 else ((bitsNeeded - 10) + 7) / 8 in
  let firstByte := wrapu 8 (Z.lor (Z.shiftl extraBytesNeeded 5)
                                  (Z.shiftr value (5 + extraBytesNeeded * 8))) in
  let lastByte := wrapu 8 (Z.lor (Z.shiftl value 3) extraBytesNeeded) in
  let ks := _append firstByte false ks in
  let ks := if negb (extraBytesNeeded =? 0)
            then _appendBytes (drop (8 - Z.to_nat extraBytesNeeded) (be_encode 8 (Z.shiftr value 5))) false ks
            else ks in
  Ret (_append lastByte false ks).

Definition appendTypeBits (typeBits : TB.TypeBits) (ks : KeyString) : KeyString :=
  if TB._isAllZeros typeBits then _append 0 false ks
  else _appendBytes (TB.getBuffer typeBits) false ks.

(** [resetToKey] with a record id and with a discriminator. *)
Definition resetToKey (ver : Version) (junk : list Z) (obj : list field) (ord recordId : Z) :
    outcome ks_error KeyString :=
  ks ← _appendAllElementsForIndexing obj ord kInclusive (resetToEmpty ver junk);
  appendRecordId recordId ks.
Definition resetToQuery (ver : Version) (junk : list Z) (obj : list field) (ord : Z)
    (discriminator : Discriminator) : outcome ks_error KeyString :=
  _appendAllElementsForIndexing obj ord discriminator (resetToEmpty ver junk).

End append.

(** [compare]. *)
Definition compare (l r : KeyString) : Z :=
  let a := length (_buffer l) in
  let b := length (_buffer r) in
  let cmp := SD.memcmp (_buffer l) (_buffer r) (Nat.min a b) in
  if negb (cmp =? 0) then (if cmp <? 0 then -1 else 1)
  else if (a =? b)%nat then 0 else if (a <? b)%nat then -1 else 1.

End KS.
