(* ===== verification/KeyStringOrder.v ===== *)
(** * KeyString: the bytes are ordered like the keys

    The specification of the encoding as pure functions on values ([kbytes] and [kbits]),
    the refinement of the encoder of [KeyString.v] to it, and the theorem that the
    byte strings of two keys compare like [BSONObj::woCompare] compares the keys, for every
    [Ordering] and both versions of the format. *)
From Stdlib Require Import ZArith Lia Bool.
From stdpp Require Import base list option pretty.
From S2P Require Import Prelude StringData Bson BsonCompare KeyString.
Open Scope Z_scope.

(** ** Strict byte order *)
Module Lex.

(** The strings differ at a byte both have. *)
Definition slt (a b : bytes) : Prop :=
  exists p x y s t, a = p ++ x :: s /\ b = p ++ y :: t /\ x < y.

Definition flip (l : bytes) : bytes := List.map (fun c => 255 - c) l.
Definition flip_if (inv : bool) (l : bytes) : bytes := if inv then flip l else l.

(** A string that may follow the encoding of a value: its first byte is not the 255 that
    marks a NUL inside a string. *)
Definition follows (s : bytes) : Prop := exists b s', s = b :: s' /\ 0 <= b < 255.

(** [a] sorts before [b] whatever follows them. *)
Definition less (a b : bytes) : Prop := forall s t, follows s -> follows t -> slt (a ++ s) (b ++ t).

(** The relation of the result of a comparison to two encodings. *)
Definition agrees (z : Z) (a b : bytes) : Prop :=
  (z < 0 -> less a b) /\ (z = 0 -> a = b) /\ (0 < z -> less b a).

Lemma slt_cons (x y : Z) (s t : bytes) : x < y -> slt (x :: s) (y :: t).
Proof. intros H. by exists [], x, y, s, t. Qed.
Lemma slt_app_l (p a b : bytes) : slt a b -> slt (p ++ a) (p ++ b).
Proof.
  intros (q & x & y & s & t & -> & -> & H). exists (p ++ q), x, y, s, t. by rewrite !app_assoc.
Qed.
Lemma slt_app_r (a b s t : bytes) : slt a b -> slt (a ++ s) (b ++ t).
Proof.
  intros (p & x & y & s' & t' & -> & -> & H). exists p, x, y, (s' ++ s), (t' ++ t).
  by rewrite <- !app_assoc, <- !app_comm_cons.
Qed.
Lemma slt_app_1 (a b s : bytes) : slt a b -> slt (a ++ s) b.
Proof. intros H. rewrite <- (app_nil_r b). by apply slt_app_r. Qed.
Lemma slt_app_2 (a b t : bytes) : slt a b -> slt a (b ++ t).
Proof. intros H. rewrite <- (app_nil_r a). by apply slt_app_r. Qed.
Lemma slt_less (a b : bytes) : slt a b -> less a b.
Proof. intros H s t _ _. by apply slt_app_r. Qed.
Lemma slt_lexcmp (a b : bytes) : slt a b -> SD.lexcmp a b = -1.
Proof.
  intros (p & x & y & s & t & -> & -> & H). induction p as [|c p IH]; cbn [app SD.lexcmp].
  - by destruct (Z.ltb_spec x y); [|lia].
  - by rewrite Z.ltb_irrefl.
Qed.
Lemma flip_app (a b : bytes) : flip (a ++ b) = flip a ++ flip b.
Proof. apply map_app. Qed.
Lemma flip_flip (a : bytes) : flip (flip a) = a.
Proof. induction a as [|x a IH]; cbn [flip List.map]; [done|]. fold (flip a). fold (flip (flip a)). rewrite IH. f_equal. lia. Qed.
Lemma slt_flip (a b : bytes) : slt a b -> slt (flip b) (flip a).
Proof.
  intros (p & x & y & s & t & -> & -> & H). rewrite !flip_app.
  exists (flip p), (255 - y), (255 - x), (flip t), (flip s). repeat split. lia.
Qed.

Lemma follows_app (s t : bytes) : follows s -> follows (s ++ t).
Proof. intros (b & s' & -> & H). by exists b, (s' ++ t). Qed.
Lemma follows_cons (b : Z) (s : bytes) : 0 <= b < 255 -> follows (b :: s).
Proof. intros H. by exists b, s. Qed.

Lemma less_app (a b s t : bytes) : less a b -> follows s -> follows t -> less (a ++ s) (b ++ t).
Proof.
  intros H Hs Ht s' t' _ _. rewrite <- !app_assoc.
  apply H; by apply follows_app.
Qed.
Lemma less_prefix (p a b : bytes) : less a b -> less (p ++ a) (p ++ b).
Proof. intros H s t Hs Ht. rewrite <- !app_assoc. apply slt_app_l. by apply H. Qed.

Lemma agrees_sym (z : Z) (a b : bytes) : agrees z a b -> agrees (- z) b a.
Proof. intros (H1 & H2 & H3). repeat split; intros; [apply H3|symmetry; apply H2|apply H1]; lia. Qed.
Lemma agrees_prefix (z : Z) (p a b : bytes) : agrees z a b -> agrees z (p ++ a) (p ++ b).
Proof.
  intros (H1 & H2 & H3).
  repeat split; intros; [apply less_prefix|f_equal|apply less_prefix]; auto.
Qed.
Lemma agrees_app (z : Z) (a b s t : bytes) : z <> 0 -> agrees z a b -> follows s -> follows t ->
  agrees z (a ++ s) (b ++ t).
Proof.
  intros Hz (H1 & H2 & H3) Hs Ht. repeat split; intros; [|lia|]; apply less_app; auto.
Qed.
(** Two comparisons one after the other. *)
Lemma agrees_seq (x z : Z) (a b s t : bytes) :
  agrees x a b -> follows s -> follows t -> (x = 0 -> agrees z s t) ->
  agrees (if negb (x =? 0) then x else z) (a ++ s) (b ++ t).
Proof.
  intros H Hs Ht Hz. destruct (Z.eqb_spec x 0) as [->|Hx]; cbn [negb].
  - destruct H as (_ & H & _). rewrite (H eq_refl). apply agrees_prefix. auto.
  - by apply agrees_app.
Qed.
Lemma agrees_slt (z : Z) (a b : bytes) :
  (z < 0 -> slt a b) -> (z = 0 -> a = b) -> (0 < z -> slt b a) -> agrees z a b.
Proof. intros H1 H2 H3. repeat split; intros; auto using slt_less. Qed.
(** When the strings cannot be prefixes of each other nothing is needed of what follows. *)
Lemma slt_seq (x z : Z) (a b s t : bytes) :
  (x < 0 -> slt a b) -> (x = 0 -> a = b) -> (0 < x -> slt b a) -> (x = 0 -> agrees z s t) ->
  agrees (if negb (x =? 0) then x else z) (a ++ s) (b ++ t).
Proof.
  intros H1 H2 H3 Hz. destruct (Z.eqb_spec x 0) as [->|Hx]; cbn [negb].
  - rewrite (H2 eq_refl). apply agrees_prefix. auto.
  - apply agrees_slt; intros; [|lia|]; apply slt_app_r; auto.
Qed.

(** ** Big-endian integers *)

Lemma be_encode_S (n : nat) (z : Z) : be_encode (S n) z = be_encode n (z / 256) ++ [z mod 256].
Proof. done. Qed.
Lemma length_be_encode (n : nat) (z : Z) : length (be_encode n z) = n.
Proof. unfold be_encode. by rewrite length_rev, length_le_encode. Qed.
Lemma be_encode_ok (n : nat) (z : Z) : bytes_ok (be_encode n z).
Proof. unfold be_encode, bytes_ok. apply Forall_rev, le_encode_ok. Qed.

Lemma be_encode_slt (n : nat) (x y : Z) : 0 <= x < y -> y < 256 ^ Z.of_nat n ->
  slt (be_encode n x) (be_encode n y).
Proof.
  revert x y. induction n as [|n IH]; intros x y Hx Hy; [cbn in Hy; lia|].
  rewrite !be_encode_S. rewrite Nat2Z.inj_succ, Z.pow_succ_r in Hy by lia.
  pose proof (Z.div_mod x 256). pose proof (Z.div_mod y 256).
  pose proof (Z.mod_pos_bound x 256). pose proof (Z.mod_pos_bound y 256).
  assert (x / 256 < y / 256 \/ x / 256 = y / 256 /\ x mod 256 < y mod 256) as [Hlt|[-> Hlt]] by lia.
  - apply slt_app_r, IH; [split; [apply Z.div_pos; lia|done]|]. apply Z.div_lt_upper_bound; lia.
  - apply slt_app_l. by apply slt_cons.
Qed.
(** The low bytes of an integer that fits them. *)
Lemma be_encode_app (n k : nat) (x y : Z) : 0 <= y < 256 ^ Z.of_nat k ->
  be_encode (n + k) (x * 256 ^ Z.of_nat k + y) = be_encode n x ++ be_encode k y.
Proof.
  revert x y. induction k as [|k IH]; intros x y Hy.
  { cbn in *. rewrite Nat.add_0_r, app_nil_r. f_equal. lia. }
  rewrite Nat2Z.inj_succ, Z.pow_succ_r in * by lia.
  rewrite Nat.add_succ_r, !be_encode_S, app_assoc.
  assert (0 < 256 ^ Z.of_nat k) by (apply Z.pow_pos_nonneg; lia).
  replace (x * (256 * 256 ^ Z.of_nat k) + y) with (y + (x * 256 ^ Z.of_nat k) * 256) by lia.
  rewrite Z.div_add, Z.mod_add by lia. f_equal.
  rewrite <- IH; [f_equal; lia|]. split; [apply Z.div_pos; lia|]. apply Z.div_lt_upper_bound; lia.
Qed.
Lemma be_encode_1 (z : Z) : 0 <= z < 256 -> be_encode 1 z = [z].
Proof. intros H. rewrite be_encode_S, Z.mod_small by done. done. Qed.
Lemma be_encode_0 (n : nat) : be_encode n 0 = replicate n 0.
Proof.
  induction n as [|n IH]; [done|]. rewrite be_encode_S, Z.div_0_l, IH, Z.mod_0_l by lia.
  by rewrite <- replicate_cons_app.
Qed.
Lemma be_encode_drop (n k : nat) (x : Z) : 0 <= x < 256 ^ Z.of_nat k -> (k <= n)%nat ->
  drop (n - k) (be_encode n x) = be_encode k x.
Proof.
  intros Hx Hk. pose proof (be_encode_app (n - k) k 0 x Hx) as E.
  replace (n - k + k)%nat with n in E by lia. rewrite Z.mul_0_l, Z.add_0_l in E.
  rewrite E. apply drop_app_length'. by rewrite length_be_encode.
Qed.

End Lex.

(** ** Numbers *)
Module Num.
Import Dbl DblLemmas CmpLemmas Lex.

(** An integer portion: its number of bytes, and the bytes behind the type byte. *)
Definition int_len (x : Z) : nat := Z.to_nat (Z.log2 x / 8 + 1).
Definition int_bytes (x : Z) : bytes := (42 + Z.of_nat (int_len x)) :: be_encode (int_len x) x.

(** The bits after the binary point that are kept next to an integer part. *)
Definition frac_bits (ver : Version) (ip : Z) : Z :=
  match ver with V0 => 52 - Z.log2 ip | V1 => 8 * (8 - Z.of_nat (int_len (2 * ip))) end.
Definition frac_len (ver : Version) (ip : Z) : nat := Z.to_nat ((frac_bits ver ip + 7) / 8).

(** Doubles below 1 and from 2^63 on, by the pattern [m] without a sign. *)
Definition upshift (m : Z) : Z := round (Z.shiftl (scaled m) 256) 0.
Definition small_code (ver : Version) (n : bool) (m : Z) : Z :=
  match ver with
  | V0 => with_sign n m
  | V1 => if 2 ^ 819 <=? scaled m then 4 * m else 2 * upshift m + 2 ^ 62
  end.
Definition large_code (ver : Version) (n : bool) (m : Z) : Z :=
  match ver with
  | V0 => with_sign n m
  | V1 => if m =? inf then 2 ^ 64 - 1 else 2 * m - 2 ^ 63
  end.

(** The bytes of a positive number [q], in units of 2^-1074; [m] is its pattern, which is
    not looked at for an integer below 2^63, and [n] says whether the number is encoded as
    the magnitude of a negative one. *)
Definition pos_bytes (ver : Version) (n : bool) (q m : Z) : bytes :=
  if q <? unit then 42 :: be_encode 8 (small_code ver n m)
  else if q <? 2 ^ 63 * unit then
    let ip := q / unit in
    let fr := q mod unit in
    if fr =? 0 then int_bytes (2 * ip)
    else int_bytes (2 * ip + 1) ++
         be_encode (frac_len ver ip) (fr * 2 ^ frac_bits ver ip / unit)
  else 51 :: be_encode 8 (large_code ver n m).

(** A negative number is a mirrored type byte and the flipped bytes of its magnitude. *)
Definition mirror (l : bytes) : bytes :=
  match l with c :: rest => (82 - c) :: flip rest | [] => [] end.

Definition num_bytes (ver : Version) (q : option Z) (m : Z) : bytes :=
  match q with
  | None => [30]
  | Some q => if q =? 0 then [41]
              else if q <? 0 then mirror (pos_bytes ver true (- q) m) else pos_bytes ver false q m
  end.

(** [m] determines the bytes of [q]. *)
Definition pattern_of (q m : Z) : Prop :=
  0 <= m <= inf /\ (scaled m = q \/ ((unit | q) /\ q < 2 ^ 63 * unit)).

Lemma int_len_bounds (x : Z) : 0 < x ->
  (1 <= int_len x)%nat /\ 256 ^ (Z.of_nat (int_len x) - 1) <= x < 256 ^ Z.of_nat (int_len x).
Proof.
  intros Hx. unfold int_len. pose proof (Z.log2_nonneg x).
  pose proof (Z.div_mod (Z.log2 x) 8). pose proof (Z.mod_pos_bound (Z.log2 x) 8).
  pose proof (Z.div_pos (Z.log2 x) 8).
  pose proof (Z.log2_spec x Hx) as [L1 L2].
  rewrite Z2Nat.id by lia. split; [lia|].
  change 256 with (2 ^ 8). rewrite <- !Z.pow_mul_r by lia. split.
  - etransitivity; [|exact L1]. apply Z.pow_le_mono_r; lia.
  - eapply Z.lt_le_trans; [exact L2|]. apply Z.pow_le_mono_r; lia.
Qed.

Lemma int_bytes_slt (x y : Z) : 0 < x < y -> slt (int_bytes x) (int_bytes y).
Proof.
  intros H. unfold int_bytes.
  assert (int_len x <= int_len y)%nat.
  { unfold int_len. pose proof (Z.log2_le_mono x y). pose proof (Z.div_le_mono (Z.log2 x) (Z.log2 y) 8). lia. }
  destruct (decide (int_len x = int_len y)) as [E|]; [|apply slt_cons; lia].
  rewrite E. apply (slt_app_l [_]). destruct (int_len_bounds y); [lia|]. apply be_encode_slt; lia.
Qed.

Lemma upshift_exact (m : Z) : 0 <= m -> scaled m < 2 ^ 819 ->
  0 <= upshift m /\ scaled (upshift m) = scaled m * 2 ^ 256.
Proof.
  intros Hm Hs. unfold upshift. rewrite Z.shiftl_mul_pow2 by lia.
  destruct (scaled_form m Hm) as (x & j & Hx & Hj & E & _).
  replace (scaled m * 2 ^ 256) with (x * 2 ^ (j + 256)) by (rewrite E, Z.pow_add_r by lia; lia).
  destruct (round_exact x (j + 256) 0) as [Hr Hv]; [done|lia| |].
  - rewrite scaled_inf, Z.sub_0_r. replace (x * 2 ^ (j + 256)) with (scaled m * 2 ^ 256) by (rewrite E, Z.pow_add_r by lia; lia).
    apply Z.lt_trans with (2 ^ 819 * 2 ^ 256); [|by vm_compute].
    apply Z.mul_lt_mono_pos_r; [apply Z.pow_pos_nonneg|]; lia.
  - rewrite Hv, Z.sub_0_r. by split; [lia|].
Qed.

Lemma pattern_below (m b q : Z) : 0 <= m -> 0 <= b -> scaled b = q -> scaled m < q -> m < b.
Proof. intros Hm Hb <- H. by apply scaled_lt_iff. Qed.

Lemma upshift_bound (m : Z) : 0 <= m -> scaled m < 2 ^ 819 -> 0 <= upshift m < 2 ^ 62.
Proof.
  intros Hm Hs. destruct (upshift_exact m Hm Hs) as [H0 E]. split; [done|].
  apply (pattern_below _ _ (2 ^ 819 * 2 ^ 256)); [done|done|by vm_compute|].
  rewrite E. apply Z.mul_lt_mono_pos_r; [apply Z.pow_pos_nonneg|]; lia.
Qed.

Lemma small_pattern (m : Z) : 0 <= m -> scaled m < unit -> m < 1023 * 2 ^ 52.
Proof. intros Hm. apply pattern_below; [done|done|by vm_compute]. Qed.

Lemma small_code_range (ver : Version) (n : bool) (m : Z) : 0 <= m -> scaled m < unit ->
  0 <= small_code ver n m < 2 ^ 64.
Proof.
  intros Hm Hs. pose proof (small_pattern m Hm Hs).
  destruct ver; cbn [small_code]; unfold with_sign.
  - destruct n; lia.
  - destruct (Z.leb_spec (2 ^ 819) (scaled m)); [lia|]. pose proof (upshift_bound m). lia.
Qed.

Lemma small_code_mono (ver : Version) (n : bool) (m m' : Z) : 0 <= m < m' -> scaled m' < unit ->
  small_code ver n m < small_code ver n m'.
Proof.
  intros Hm Hs. destruct ver; cbn [small_code]; unfold with_sign; [destruct n; lia|].
  pose proof (scaled_mono m m' Hm) as Hlt.
  destruct (Z.leb_spec (2 ^ 819) (scaled m)), (Z.leb_spec (2 ^ 819) (scaled m')); try lia.
  - assert (768 * 2 ^ 52 <= m').
    { destruct (Z.le_gt_cases (768 * 2 ^ 52) m') as [|Hgt]; [done|].
      pose proof (scaled_mono m' (768 * 2 ^ 52)) as Hc. change (scaled (768 * 2 ^ 52)) with (2 ^ 819) in Hc. lia. }
    pose proof (upshift_bound m). lia.
  - destruct (upshift_exact m) as [U1 U2]; [lia..|]. destruct (upshift_exact m') as [W1 W2]; [lia..|].
    assert (upshift m < upshift m'); [|lia].
    apply scaled_lt_iff; [done..|]. rewrite U2, W2.
    apply Z.mul_lt_mono_pos_r; [apply Z.pow_pos_nonneg|]; lia.
Qed.

Lemma large_pattern (m : Z) : 0 <= m <= inf -> 2 ^ 63 * unit <= scaled m -> 2 ^ 62 <= m < 2 ^ 63.
Proof.
  intros Hm Hs. assert (inf < 2 ^ 63) by done. split; [|lia].
  destruct (Z.le_gt_cases (2 ^ 62) m) as [|Hgt]; [done|].
  pose proof (scaled_mono m (2 ^ 62)) as Hc.
  assert (scaled (2 ^ 62) < 2 ^ 63 * unit) by by vm_compute. lia.
Qed.

Lemma large_code_range (ver : Version) (n : bool) (m : Z) : 0 <= m <= inf -> 2 ^ 63 * unit <= scaled m ->
  0 <= large_code ver n m < 2 ^ 64.
Proof.
  intros Hm Hs. pose proof (large_pattern m Hm Hs). destruct ver; cbn [large_code]; unfold with_sign.
  - destruct n; lia.
  - destruct (Z.eqb_spec m inf); lia.
Qed.
Lemma large_code_mono (ver : Version) (n : bool) (m m' : Z) : 0 <= m < m' -> m' <= inf ->
  2 ^ 63 * unit <= scaled m -> large_code ver n m < large_code ver n m'.
Proof.
  intros Hm Hm' Hs. pose proof (scaled_mono m m' Hm).
  pose proof (large_pattern m). pose proof (large_pattern m').
  assert (inf < 2 ^ 63) by done.
  destruct ver; cbn [large_code]; unfold with_sign; [destruct n; lia|].
  destruct (Z.eqb_spec m inf), (Z.eqb_spec m' inf); lia.
Qed.

Lemma frac_bits_bounds (ver : Version) (ip : Z) : 0 < ip < 2 ^ 53 ->
  52 - Z.log2 ip <= frac_bits ver ip <= 56 /\ 0 <= frac_bits ver ip.
Proof.
  intros Hip. pose proof (Z.log2_nonneg ip). assert (Z.log2 ip < 53) by (apply Z.log2_lt_pow2; lia).
  destruct ver; cbn [frac_bits]; [lia|]. unfold int_len.
  rewrite Z.log2_double by lia.
  pose proof (Z.div_mod (Z.succ (Z.log2 ip)) 8). pose proof (Z.mod_pos_bound (Z.succ (Z.log2 ip)) 8).
  lia.
Qed.

(** The kept bits hold the whole fraction. *)
Lemma frac_exact (m t : Z) : 0 <= m -> unit <= scaled m -> 52 - Z.log2 (scaled m / unit) <= t -> 0 <= t ->
  (unit | scaled m * 2 ^ t).
Proof.
  intros Hm Hu Ht Ht0. destruct (scaled_form m Hm) as (x & j & Hx & Hj & E & Hn).
  assert (Hd : 1074 <= j + t).
  { destruct (Z.le_gt_cases 1074 j); [lia|].
    assert (j <> 0) as Hj0.
    { intros ->. rewrite E in Hu. assert (2 ^ 53 < unit) by by vm_compute. lia. }
    specialize (Hn Hj0).
    assert (Hl : Z.log2 (scaled m) = 52 + j).
    { rewrite E, Z.log2_mul_pow2 by lia. replace (Z.log2 x) with 52; [lia|].
      symmetry. apply Z.log2_unique; lia. }
    assert (Hq : Z.log2 (scaled m / unit) = 52 + j - 1074).
    { unfold unit. rewrite <- Z.shiftr_div_pow2, Z.log2_shiftr by lia.
      assert (1074 <= 52 + j); [|lia]. rewrite <- Hl. apply Z.log2_le_pow2; [|done].
      pose proof unit_pos. lia. }
    lia. }
  rewrite E, <- Z.mul_assoc, <- Z.pow_add_r by lia.
  exists (x * 2 ^ (j + t - 1074)). unfold unit. rewrite <- Z.mul_assoc, <- Z.pow_add_r by lia.
  do 2 f_equal. lia.
Qed.

Lemma frac_ip (m : Z) : 0 <= m -> unit <= scaled m -> scaled m mod unit <> 0 ->
  0 < scaled m / unit < 2 ^ 53.
Proof.
  intros Hm Hu Hf. pose proof unit_pos. split.
  - apply Z.div_str_pos. lia.
  - destruct (Z.le_gt_cases (2 ^ 53 * unit) (scaled m)) as [Hle|].
    + exfalso. apply Hf. apply Z.mod_divide; [lia|].
      apply scaled_multiple; [done|lia|]. rewrite Z.pow_add_r by lia. done.
    + apply Z.div_lt_upper_bound; lia.
Qed.

Lemma frac_code_exact (ver : Version) (m : Z) : 0 <= m -> unit <= scaled m -> scaled m mod unit <> 0 ->
  let ip := scaled m / unit in
  let t := frac_bits ver ip in
  (unit | scaled m mod unit * 2 ^ t).
Proof.
  intros Hm Hu Hf ip t. pose proof unit_pos.
  pose proof (frac_bits_bounds ver ip (frac_ip m Hm Hu Hf)) as [Hb Hb0].
  rewrite Z.mod_eq, Z.mul_sub_distr_r by lia. apply Z.divide_sub_r.
  - apply frac_exact; [done|done|exact (proj1 Hb)|done].
  - rewrite <- Z.mul_assoc. apply Z.divide_factor_l.
Qed.

Lemma frac_code_range (ver : Version) (ip fr : Z) : 0 < ip < 2 ^ 53 -> 0 <= fr < unit ->
  0 <= fr * 2 ^ frac_bits ver ip / unit < 256 ^ Z.of_nat (frac_len ver ip).
Proof.
  intros Hip Hfr. destruct (frac_bits_bounds ver ip Hip) as [Hb Hb0].
  set (t := frac_bits ver ip) in *. assert (0 < 2 ^ t) by (apply Z.pow_pos_nonneg; lia). split.
  - apply Z.div_pos; nia.
  - apply Z.lt_le_trans with (2 ^ t).
    + apply Z.div_lt_upper_bound; [lia|]. apply Z.mul_lt_mono_pos_r; lia.
    + unfold frac_len. fold t. pose proof (Z.div_mod (t + 7) 8). pose proof (Z.mod_pos_bound (t + 7) 8).
      rewrite Z2Nat.id by lia. change 256 with (2 ^ 8). rewrite <- Z.pow_mul_r by lia.
      apply Z.pow_le_mono_r; lia.
Qed.

Lemma div_exact_mono (a b u : Z) : 0 < u -> (u | a) -> (u | b) -> a < b -> a / u < b / u.
Proof. intros Hu [x ->] [y ->] H. rewrite !Z.div_mul by lia. nia. Qed.

(** A fraction comes from a double. *)
Lemma pattern_fraction (q m : Z) : pattern_of q m -> q mod unit <> 0 -> scaled m = q.
Proof.
  intros [_ [E|[Hd _]]] Hf; [done|]. pose proof unit_pos. apply Z.mod_divide in Hd; lia.
Qed.

(** Numbers between 1 and 2^63. *)
Lemma middle_slt (ver : Version) (n : bool) (q m q' m' : Z) :
  pattern_of q m -> pattern_of q' m' -> unit <= q < q' -> q' < 2 ^ 63 * unit ->
  slt (pos_bytes ver n q m) (pos_bytes ver n q' m').
Proof.
  intros Hp Hp' Hq Hq'. unfold pos_bytes. pose proof unit_pos as Hu.
  destruct (Z.ltb_spec q unit), (Z.ltb_spec q' unit), (Z.ltb_spec q (2 ^ 63 * unit)),
    (Z.ltb_spec q' (2 ^ 63 * unit)); try lia.
  pose proof (Z.div_mod q unit). pose proof (Z.div_mod q' unit).
  pose proof (Z.mod_pos_bound q unit). pose proof (Z.mod_pos_bound q' unit).
  assert (0 < q / unit) by (apply Z.div_str_pos; lia).
  assert (q / unit < q' / unit \/ q / unit = q' / unit /\ q mod unit < q' mod unit) as [Hlt|[Heq Hlt]] by nia.
  { destruct (q mod unit =? 0), (q' mod unit =? 0);
      auto using slt_app_r, slt_app_1, slt_app_2, int_bytes_slt with lia. }
  destruct (Z.eqb_spec (q mod unit) 0) as [Hz|Hz], (Z.eqb_spec (q' mod unit) 0) as [Hz'|Hz']; try lia.
  { rewrite Heq. apply slt_app_2, int_bytes_slt. lia. }
  rewrite <- Heq. apply slt_app_l.
  pose proof (pattern_fraction q m Hp Hz) as E. pose proof (pattern_fraction q' m' Hp' Hz') as E'.
  destruct Hp as [Hm _], Hp' as [Hm' _].
  assert (Hip : 0 < q / unit < 2 ^ 53) by (rewrite <- E; apply frac_ip; rewrite ?E; lia).
  apply be_encode_slt.
  - split; [apply frac_code_range; lia|]. apply div_exact_mono; [done| | |].
    + rewrite <- E. apply frac_code_exact; rewrite ?E; lia.
    + rewrite Heq, <- E'. apply frac_code_exact; rewrite ?E'; lia.
    + apply Z.mul_lt_mono_pos_r; [apply Z.pow_pos_nonneg; [lia|]; apply frac_bits_bounds|]; lia.
  - rewrite Heq in Hip |- *. apply frac_code_range; lia.
Qed.

Lemma int_bytes_head (x : Z) : 0 < x < 2 ^ 64 -> exists c rest, int_bytes x = c :: rest /\ 43 <= c <= 50.
Proof.
  intros Hx. eexists _, _. split; [done|]. unfold int_len.
  pose proof (Z.log2_nonneg x). assert (Z.log2 x < 64) by (apply Z.log2_lt_pow2; lia).
  pose proof (Z.div_mod (Z.log2 x) 8). pose proof (Z.mod_pos_bound (Z.log2 x) 8). lia.
Qed.

Lemma pos_bytes_head (ver : Version) (n : bool) (q m : Z) : 0 < q ->
  exists c rest, pos_bytes ver n q m = c :: rest /\
    (if q <? unit then c = 42 else if q <? 2 ^ 63 * unit then 43 <= c <= 50 else c = 51).
Proof.
  intros Hq. unfold pos_bytes. pose proof unit_pos as Hu.
  destruct (Z.ltb_spec q unit); [by eauto|].
  destruct (Z.ltb_spec q (2 ^ 63 * unit)); [|by eauto].
  assert (0 < q / unit) by (apply Z.div_str_pos; lia).
  assert (q / unit < 2 ^ 63) by (apply Z.div_lt_upper_bound; lia).
  destruct (q mod unit =? 0).
  - apply int_bytes_head. lia.
  - destruct (int_bytes_head (2 * (q / unit) + 1)) as (c & rest & -> & Hc); [lia|]. by eauto.
Qed.

(** Larger positive numbers have larger bytes. *)
Lemma pos_bytes_slt (ver : Version) (n : bool) (q m q' m' : Z) :
  pattern_of q m -> pattern_of q' m' -> 0 < q < q' -> slt (pos_bytes ver n q m) (pos_bytes ver n q' m').
Proof.
  intros Hp Hp' Hq. pose proof unit_pos as Hu.
  destruct (pos_bytes_head ver n q m) as (c & r & E & Hc); [lia|].
  destruct (pos_bytes_head ver n q' m') as (c' & r' & E' & Hc'); [lia|].
  destruct (Z.ltb_spec q unit), (Z.ltb_spec q' unit); try lia.
  - assert (forall p x, pattern_of p x -> 0 < p < unit -> scaled x = p) as Hs.
    { intros p x [_ [?|[Hd _]]] ?; [done|]. apply Z.divide_pos_le in Hd; lia. }
    assert (scaled m = q) as <- by (apply Hs; [done|lia]).
    assert (scaled m' = q') as <- by (apply Hs; [done|lia]). destruct Hp as [Hm _], Hp' as [Hm' _].
    unfold pos_bytes. destruct (Z.ltb_spec (scaled m) unit), (Z.ltb_spec (scaled m') unit); try lia.
    apply (slt_app_l [_]), be_encode_slt; [|apply small_code_range; lia].
    split; [apply small_code_range; lia|]. apply small_code_mono; [|lia].
    split; [lia|]. apply scaled_lt_iff; lia.
  - rewrite E, E'. apply slt_cons. destruct (q' <? 2 ^ 63 * unit); lia.
  - destruct (Z.ltb_spec q (2 ^ 63 * unit)), (Z.ltb_spec q' (2 ^ 63 * unit)); try lia.
    + apply middle_slt; auto with lia.
    + rewrite E, E'. apply slt_cons. lia.
    + assert (forall p x, pattern_of p x -> 2 ^ 63 * unit <= p -> scaled x = p) as Hs.
      { intros p x [_ [?|[_ ?]]] ?; [done|lia]. }
      assert (scaled m = q) as <- by (by apply Hs). assert (scaled m' = q') as <- by (by apply Hs). destruct Hp as [Hm _], Hp' as [Hm' _].
      unfold pos_bytes. destruct (Z.ltb_spec (scaled m) unit), (Z.ltb_spec (scaled m') unit),
        (Z.ltb_spec (scaled m) (2 ^ 63 * unit)), (Z.ltb_spec (scaled m') (2 ^ 63 * unit)); try lia.
      apply (slt_app_l [_]), be_encode_slt; [|apply large_code_range; lia].
      split; [apply large_code_range; lia|]. apply large_code_mono; [|lia|lia].
      split; [lia|]. apply scaled_lt_iff; lia.
Qed.

(** Equal numbers have equal bytes. *)
Lemma pos_bytes_eq (ver : Version) (n : bool) (q m m' : Z) : 0 < q ->
  pattern_of q m -> pattern_of q m' -> pos_bytes ver n q m = pos_bytes ver n q m'.
Proof.
  intros Hq [Hm Hp] [Hm' Hp']. unfold pos_bytes. pose proof unit_pos.
  destruct (Z.ltb_spec q unit); [|destruct (Z.ltb_spec q (2 ^ 63 * unit)); [done|]].
  all: destruct Hp as [E|[Hd ?]]; [|apply Z.divide_pos_le in Hd; lia].
  all: destruct Hp' as [E'|[Hd ?]]; [|apply Z.divide_pos_le in Hd; lia].
  all: rewrite (scaled_inj m m'); lia || done.
Qed.

Lemma mirror_slt (a b : bytes) : slt a b -> slt (mirror b) (mirror a).
Proof.
  intros (p & x & y & s & t & -> & -> & H). destruct p as [|c p]; cbn [app mirror].
  - apply slt_cons. lia.
  - apply (slt_app_l [_]). apply slt_flip. by exists p, x, y, s, t.
Qed.

(** [m] is the pattern of the magnitude of a number. *)
Definition magnitude_of (q : option Z) (m : Z) : Prop :=
  match q with Some q => q <> 0 -> pattern_of (Z.abs q) m | None => True end.

Lemma num_bytes_head (ver : Version) (q : option Z) (m : Z) :
  exists c rest, num_bytes ver q m = c :: rest /\
    match q with
    | None => c = 30
    | Some q => if q <? 0 then 31 <= c <= 40 else if q =? 0 then c = 41 else 42 <= c <= 51
    end.
Proof.
  destruct q as [q|]; cbn [num_bytes]; [|by eauto].
  destruct (Z.ltb_spec q 0), (Z.eqb_spec q 0); try lia; [|by eauto|].
  - destruct (pos_bytes_head ver true (- q) m) as (c & r & -> & Hc); [lia|].
    eexists _, _. split; [done|]. destruct (- q <? unit), (- q <? 2 ^ 63 * unit); lia.
  - destruct (pos_bytes_head ver false q m) as (c & r & -> & Hc); [lia|].
    eexists _, _. split; [done|]. destruct (q <? unit), (q <? 2 ^ 63 * unit); lia.
Qed.

Lemma num_bytes_slt (ver : Version) (a b : option Z) (m m' : Z) :
  magnitude_of a m -> magnitude_of b m' -> ncmp a b < 0 ->
  slt (num_bytes ver a m) (num_bytes ver b m').
Proof.
  intros Ha Hb Hlt.
  destruct (num_bytes_head ver a m) as (c & r & E & Hc).
  destruct (num_bytes_head ver b m') as (c' & r' & E' & Hc').
  assert (c < c' -> slt (num_bytes ver a m) (num_bytes ver b m')) as Hhead.
  { intros ?. rewrite E, E'. by apply slt_cons. }
  destruct a as [a|], b as [b|]; cbn [ncmp] in Hlt; try done.
  2:{ apply Hhead. destruct (b <? 0), (b =? 0); lia. }
  destruct (Z.ltb_spec a b); [|destruct (a =? b); lia].
  destruct (Z.ltb_spec a 0), (Z.ltb_spec b 0), (Z.eqb_spec a 0), (Z.eqb_spec b 0); try lia; try (apply Hhead; lia).
  - cbn [num_bytes]. destruct (Z.eqb_spec a 0), (Z.eqb_spec b 0), (Z.ltb_spec a 0), (Z.ltb_spec b 0); try lia.
    apply mirror_slt, pos_bytes_slt; [| |lia].
    + replace (- b) with (Z.abs b) by lia. auto.
    + replace (- a) with (Z.abs a) by lia. auto.
  - cbn [num_bytes]. destruct (Z.eqb_spec a 0), (Z.eqb_spec b 0), (Z.ltb_spec a 0), (Z.ltb_spec b 0); try lia.
    apply pos_bytes_slt; [| |lia].
    + replace a with (Z.abs a) by lia. auto.
    + replace b with (Z.abs b) by lia. auto.
Qed.

Lemma num_bytes_eq (ver : Version) (q : option Z) (m m' : Z) :
  magnitude_of q m -> magnitude_of q m' -> num_bytes ver q m = num_bytes ver q m'.
Proof.
  intros H H'. destruct q as [q|]; cbn in *; [|done]. destruct (Z.eqb_spec q 0) as [|Hq]; [done|].
  destruct (Z.ltb_spec q 0).
  - f_equal. replace (- q) with (Z.abs q) by lia. apply pos_bytes_eq; [lia|auto..].
  - replace q with (Z.abs q) by lia. apply pos_bytes_eq; [lia|auto..].
Qed.

Lemma ncmp_eq (a b : option Z) : ncmp a b = 0 -> a = b.
Proof. destruct a as [a|], b as [b|]; cbn; try done. zcases; [done|congruence|done]. Qed.

(** The bytes of numbers are ordered like the numbers. *)
Lemma num_bytes_agrees (ver : Version) (a b : option Z) (m m' : Z) :
  magnitude_of a m -> magnitude_of b m' -> agrees (ncmp a b) (num_bytes ver a m) (num_bytes ver b m').
Proof.
  intros Ha Hb. apply agrees_slt; intros H.
  - by apply num_bytes_slt.
  - apply ncmp_eq in H as ->. by apply num_bytes_eq.
  - apply num_bytes_slt; [done..|]. rewrite ncmp_antisym. lia.
Qed.

End Num.

(** ** Values *)
Module Enc.
Import Lex.

Definition esc (s : bytes) : bytes :=
  List.concat (List.map (fun c => if c =? 0 then [0; 255] else [c]) s).
Definition str_bytes (s : bytes) : bytes := esc s ++ [0].

(** The number of a value and the pattern of its magnitude. *)
Definition magnitude_pattern (v : value) : Z :=
  match v with
  | VDouble raw => Dbl.magnitude (le_decode raw)
  | VInt n | VLong n => Dbl.magnitude (Dbl.of_Z n)
  | _ => 0
  end.
Definition number_bytes (ver : Version) (v : value) : bytes :=
  Num.num_bytes ver (default None (CmpLemmas.number v)) (magnitude_pattern v).

(** The bytes of a value in ascending order. *)
Fixpoint kbytes (ver : Version) (v : value) : bytes :=
  let body := fun fs : list field => List.concat (List.map (fun f : field =>
    match f with (n, w) => bsonTypeToGenericKeyStringType w :: n ++ [0] ++ kbytes ver w end) fs) ++ [0] in
  match v with
  | VMinKey | VMaxKey | VUndefined | VNull => [bsonTypeToGenericKeyStringType v]
  | VDouble _ | VInt _ | VLong _ => number_bytes ver v
  | VString s | VSymbol s => CType.kStringLike :: str_bytes s
  | VObject fs => CType.kObject :: body fs
  | VArray fs => CType.kArray ::
      List.concat (List.map (fun f : field => match f with (_, w) => kbytes ver w end) fs) ++ [0]
  | VBinData subtype data => CType.kBinData ::
      (if Z.of_nat (length data) <? 255 then [Z.of_nat (length data)]
       else 255 :: be_encode 4 (Z.of_nat (length data))) ++ subtype :: data
  | VOID raw => CType.kOID :: raw
  | VBool b => [if b then CType.kBoolTrue else CType.kBoolFalse]
  | VDate n => CType.kDate :: be_encode 8 (n + 2 ^ 63)
  | VTimestamp n => CType.kTimestamp :: be_encode 8 n
  | VRegEx p f => CType.kRegEx :: p ++ [0] ++ f ++ [0]
  | VDBRef ns oid => CType.kDBRef :: be_encode 4 (Z.of_nat (length ns)) ++ ns ++ oid
  | VCode s => CType.kCode :: str_bytes s
  | VCodeWScope code scope => CType.kCodeWithScope :: str_bytes code ++ body scope
  | VDecimal _ => []
  end.

Definition obody (ver : Version) (fs : list field) : bytes :=
  List.concat (List.map (fun f : field =>
    match f with (n, w) => bsonTypeToGenericKeyStringType w :: n ++ [0] ++ kbytes ver w end) fs) ++ [0].
Definition abody (ver : Version) (fs : list field) : bytes :=
  List.concat (List.map (fun f : field => match f with (_, w) => kbytes ver w end) fs) ++ [0].

(** The names of array elements: the decimal digits of the index. *)
Definition numStr (i : nat) : bytes := lit (pretty (N.of_nat i)).
Definition array_names (i : nat) (fs : list field) : Prop := fs.*1 = numStr <$> seq i (length fs).

(** What the order theorem asks of a value beyond well-formedness: no [NumberDecimal],
    no NUL in the namespace of a DBRef, array elements named by their positions, sizes
    that an [int] holds. *)
Fixpoint keyable (v : value) : Prop :=
  let all := fun fs : list field => List.fold_right (fun (f : field) P =>
    match f with (_, w) => keyable w /\ P end) True fs in
  match v with
  | VDecimal _ => False
  | VBinData _ data => Z.of_nat (length data) < 2 ^ 31
  | VDBRef ns _ => 0 ∉ ns /\ Z.of_nat (length ns) < 2 ^ 31
  | VArray fs => array_names 0 fs /\ all fs
  | VObject fs | VCodeWScope _ fs => all fs
  | _ => True
  end.

(** A value that the theorems are about. *)
Definition key_ok (v : value) : Prop := wf_value v /\ keyable v.

Lemma kbytes_object ver fs : kbytes ver (VObject fs) = CType.kObject :: obody ver fs.
Proof. done. Qed.
Lemma kbytes_array ver fs : kbytes ver (VArray fs) = CType.kArray :: abody ver fs.
Proof. done. Qed.
Lemma kbytes_scope ver code fs :
  kbytes ver (VCodeWScope code fs) = CType.kCodeWithScope :: str_bytes code ++ obody ver fs.
Proof. done. Qed.
Lemma obody_cons ver n w fs : obody ver ((n, w) :: fs) =
  bsonTypeToGenericKeyStringType w :: (n ++ [0]) ++ kbytes ver w ++ obody ver fs.
Proof. unfold obody. cbn [List.map List.concat]. by rewrite <- !app_assoc, <- !app_comm_cons, <- !app_assoc. Qed.
Lemma abody_cons ver n w fs : abody ver ((n, w) :: fs) = kbytes ver w ++ abody ver fs.
Proof. unfold abody. cbn [List.map List.concat]. by rewrite <- !app_assoc. Qed.

Lemma wf_fields_Forall (fs : list field) :
  List.fold_right (fun (f : bytes * value) P =>
    match f with (n, w) => name_ok n /\ wf_value w /\ P end) True fs ->
  Forall (fun f : field => name_ok f.1 /\ wf_value f.2) fs.
Proof. induction fs as [|[n w] fs IH]; cbn; [constructor|]. intros (? & ? & ?). constructor; auto. Qed.
Lemma keyable_Forall (fs : list field) :
  List.fold_right (fun (f : field) P => match f with (_, w) => keyable w /\ P end) True fs ->
  Forall (fun f : field => keyable f.2) fs.
Proof. induction fs as [|[n w] fs IH]; cbn; [constructor|]. intros (? & ?). constructor; auto. Qed.

Lemma key_ok_fields (fs : list field) :
  Forall (fun f : field => name_ok f.1 /\ wf_value f.2) fs -> Forall (fun f : field => keyable f.2) fs ->
  Forall (fun f : field => name_ok f.1 /\ key_ok f.2) fs.
Proof.
  induction 1 as [|f fs [? ?] _ IH]; inversion 1; subst; constructor; auto. by split; [|split].
Qed.
Lemma key_ok_object fs : key_ok (VObject fs) -> Forall (fun f : field => name_ok f.1 /\ key_ok f.2) fs.
Proof. intros [H1%wf_fields_Forall H2%keyable_Forall]. by apply key_ok_fields. Qed.
Lemma key_ok_array fs : key_ok (VArray fs) ->
  array_names 0 fs /\ Forall (fun f : field => name_ok f.1 /\ key_ok f.2) fs.
Proof. intros [H1%wf_fields_Forall [H0 H2%keyable_Forall]]. split; [done|]. by apply key_ok_fields. Qed.
Lemma key_ok_scope code fs : key_ok (VCodeWScope code fs) ->
  bytes_ok code /\ Forall (fun f : field => name_ok f.1 /\ key_ok f.2) fs.
Proof. intros [[H0 H1%wf_fields_Forall] H2%keyable_Forall]. split; [done|]. by apply key_ok_fields. Qed.

(** ** Comparisons of bytes *)

Lemma agrees_sign (z z' : Z) (a b : bytes) : Z.sgn z = Z.sgn z' -> agrees z a b -> agrees z' a b.
Proof. intros E (H1 & H2 & H3). repeat split; intros; [apply H1|apply H2|apply H3]; lia. Qed.

(** Three-way comparisons that end at a byte both strings have. *)
Definition decides (z : Z) (a b : bytes) : Prop :=
  (z < 0 -> slt a b) /\ (z = 0 -> a = b) /\ (0 < z -> slt b a).
Lemma decides_agrees z a b : decides z a b -> agrees z a b.
Proof. intros (H1 & H2 & H3). by apply agrees_slt. Qed.
Lemma decides_refl a : decides 0 a a.
Proof. split; [lia|]. split; [done|lia]. Qed.
Lemma decides_seq x z a b s t : decides x a b -> (x = 0 -> agrees z s t) ->
  agrees (if negb (x =? 0) then x else z) (a ++ s) (b ++ t).
Proof. intros (H1 & H2 & H3). by apply slt_seq. Qed.

Lemma memcmp_decides (n : nat) (a b : bytes) : length a = n -> length b = n ->
  decides (SD.memcmp a b n) a b.
Proof.
  revert a b. induction n as [|n IH]; intros [|x a] [|y b] Ha Hb; try discriminate; cbn [SD.memcmp].
  { apply decides_refl. }
  injection Ha as Ha. injection Hb as Hb.
  destruct (Z.eqb_spec x y) as [->|].
  - destruct (IH a b Ha Hb) as (H1 & H2 & H3).
    repeat split; intros; [apply (slt_app_l [y])|f_equal|apply (slt_app_l [y])]; auto.
  - repeat split; intros; [apply slt_cons; lia|lia|apply slt_cons; lia].
Qed.

Lemma strcmp_decides (a b : bytes) : name_ok a -> name_ok b -> decides (Cmp.strcmp a b) (a ++ [0]) (b ++ [0]).
Proof.
  intros [Ha Na] [Hb Nb]. revert b Hb Nb. induction Ha as [|x a Hx Ha IH]; intros b Hb Nb.
  - destruct Hb as [|y b Hy Hb]; cbn [Cmp.strcmp app].
    + apply decides_refl.
    + apply not_elem_of_cons in Nb as [? _]. unfold byte_ok in *.
      repeat split; intros; [apply slt_cons|..]; lia.
  - apply not_elem_of_cons in Na as [? Na]. destruct Hb as [|y b Hy Hb]; cbn [Cmp.strcmp app]; unfold byte_ok in *.
    + repeat split; intros; [lia..|apply slt_cons]; lia.
    + apply not_elem_of_cons in Nb as [? Nb]. destruct (Z.eqb_spec x y) as [->|].
      * destruct (IH Na b Hb Nb) as (H1 & H2 & H3).
        repeat split; intros; [apply (slt_app_l [y])|f_equal|apply (slt_app_l [y])]; auto.
      * repeat split; intros; [apply slt_cons; lia|lia|apply slt_cons; lia].
Qed.

(** Strings: a NUL sorts before every other byte and after the end. *)
Lemma str_agrees (a b : bytes) : bytes_ok a -> bytes_ok b -> agrees (SD.lexcmp a b) (str_bytes a) (str_bytes b).
Proof.
  intros Ha. revert b. unfold str_bytes. induction Ha as [|x a Hx Ha IH]; intros b Hb.
  - destruct Hb as [|y b Hy Hb]; cbn [SD.lexcmp]; [apply decides_agrees, decides_refl|].
    repeat split; intros; [|lia..]. intros s t (c & s' & -> & Hc) Ht. unfold esc. cbn [List.map List.concat app].
    unfold byte_ok in Hy. destruct (Z.eqb_spec y 0) as [->|].
    + apply (slt_app_l [0]), slt_cons. lia.
    + apply slt_cons. lia.
  - destruct Hb as [|y b Hy Hb]; cbn [SD.lexcmp].
    + apply (agrees_sym (-1)). repeat split; intros; [|lia..]. intros s t (c & s' & -> & Hc) Ht.
      unfold esc. cbn [List.map List.concat app]. unfold byte_ok in Hx. destruct (Z.eqb_spec x 0) as [->|].
      * apply (slt_app_l [0]), slt_cons. lia.
      * apply slt_cons. lia.
    + unfold esc in *. cbn [List.map List.concat]. unfold byte_ok in *. rewrite <- !app_assoc.
      destruct (Z.ltb_spec x y); [|destruct (Z.ltb_spec y x)].
      * apply agrees_slt; [|lia..]. intros _. destruct (Z.eqb_spec x 0), (Z.eqb_spec y 0); apply slt_cons; lia.
      * apply agrees_slt; [lia..|]. intros _. destruct (Z.eqb_spec x 0), (Z.eqb_spec y 0); apply slt_cons; lia.
      * assert (x = y) as -> by lia. apply agrees_prefix. auto.
Qed.

(** The comparison of stored strings is the lexicographic one. *)
Lemma string_values_sign (a b : bytes) : bytes_ok a -> bytes_ok b ->
  Z.sgn (Cmp.compareElementStringValues a b) = Z.sgn (SD.lexcmp a b).
Proof.
  unfold Cmp.compareElementStringValues. intros Ha. revert b. induction Ha as [|x a Hx Ha IH]; intros b Hb.
  - destruct Hb as [|y b Hy Hb]; [done|]. cbn [length app Nat.add Nat.min SD.memcmp SD.lexcmp].
    unfold byte_ok in Hy. destruct (Z.eqb_spec 0 y) as [<-|].
    + cbn [SD.memcmp Z.eqb negb]. lia.
    + destruct (Z.eqb_spec (0 - y) 0); cbn [negb]; lia.
  - destruct Hb as [|y b Hy Hb]; cbn [length app Nat.add Nat.min SD.memcmp SD.lexcmp]; unfold byte_ok in *.
    + destruct (Z.eqb_spec x 0) as [->|].
      * rewrite Nat.min_0_r. cbn [SD.memcmp Z.eqb negb]. lia.
      * destruct (Z.eqb_spec (x - 0) 0); cbn [negb]; lia.
    + specialize (IH b Hb). destruct (Z.eqb_spec x y) as [->|].
      * rewrite Z.ltb_irrefl, <- IH. destruct (negb _); lia.
      * destruct (Z.ltb_spec x y), (Z.ltb_spec y x), (Z.eqb_spec (x - y) 0); cbn [negb]; lia.
Qed.
Lemma string_values_agree (a b : bytes) : bytes_ok a -> bytes_ok b ->
  agrees (Cmp.compareElementStringValues a b) (str_bytes a) (str_bytes b).
Proof.
  intros Ha Hb. eapply agrees_sign; [symmetry; by apply string_values_sign|]. by apply str_agrees.
Qed.

End Enc.

(** ** The order of values *)
Module Order.
Import Lex Enc Cmp CmpLemmas.

Definition canon (v : value) : Z :=
  match v with
  | VMinKey => -1 | VUndefined => 0 | VNull => 5
  | VDecimal _ | VDouble _ | VInt _ | VLong _ => 10
  | VString _ | VSymbol _ => 15 | VObject _ => 20 | VArray _ => 25 | VBinData _ _ => 30
  | VOID _ => 35 | VBool _ => 40 | VDate _ => 45 | VTimestamp _ => 47 | VRegEx _ _ => 50
  | VDBRef _ _ => 55 | VCode _ => 60 | VCodeWScope _ _ => 65 | VMaxKey => 127
  end.
Lemma canonicalType_canon (v : value) : canonicalType v = canon v.
Proof. destruct v; vm_compute; reflexivity. Qed.

(** The type bytes follow the canonical types; numbers and booleans use a range. *)
Definition width (v : value) : Z := if isNumber v then 21 else match v with VBool _ => 1 | _ => 0 end.
Lemma width_nonneg (v : value) : 0 <= width v.
Proof. by destruct v. Qed.
Lemma generic_lt (l r : value) : canonicalType l < canonicalType r ->
  bsonTypeToGenericKeyStringType l + width l < bsonTypeToGenericKeyStringType r.
Proof. rewrite !canonicalType_canon. destruct l, r; vm_compute; congruence. Qed.
Lemma generic_eq (l r : value) : canonicalType l = canonicalType r ->
  bsonTypeToGenericKeyStringType l = bsonTypeToGenericKeyStringType r.
Proof. rewrite !canonicalType_canon. destruct l, r; vm_compute; congruence. Qed.
Lemma generic_range (v : value) : 10 <= bsonTypeToGenericKeyStringType v /\
  bsonTypeToGenericKeyStringType v + width v <= 240.
Proof. destruct v; by vm_compute. Qed.

Lemma number_magnitude (v : value) (q : option Z) : wf_value v -> number v = Some q ->
  Num.magnitude_of q (magnitude_pattern v).
Proof.
  intros Hwf Hq.
  assert (Hint : forall n, - 2 ^ 63 <= n < 2 ^ 63 ->
    Num.magnitude_of (Some (n * Dbl.unit)) (Dbl.magnitude (Dbl.of_Z n))).
  { intros n Hn _. pose proof DblLemmas.unit_pos. destruct (Z.eq_dec n (- 2 ^ 63)) as [->|].
    - split; [by vm_compute|]. left. by vm_compute.
    - split.
      + apply DblLemmas.magnitude_of_Z.
      + right. rewrite Z.abs_mul, (Z.abs_eq Dbl.unit) by lia. split; [apply Z.divide_factor_r|].
        apply Z.mul_lt_mono_pos_r; lia. }
  destruct v; try discriminate; cbn in *; injection Hq as <-.
  - destruct (Dbl.num (le_decode raw)) as [q|] eqn:E; [|done]. intros _.
    unfold Dbl.num, Dbl.isnan in E. destruct (Z.ltb_spec Dbl.inf (Dbl.magnitude (le_decode raw))); [done|].
    pose proof (DblLemmas.magnitude_range (le_decode raw)). split; [lia|]. left.
    pose proof (DblLemmas.scaled_nonneg (Dbl.magnitude (le_decode raw))).
    injection E as <-. destruct (Dbl.signbit _); lia.
  - intros H. apply Hint; [lia|done].
  - intros H. by apply Hint.
Qed.

Lemma number_bytes_head ver (v : value) : exists c rest, number_bytes ver v = c :: rest /\ 30 <= c <= 51.
Proof.
  unfold number_bytes. destruct (Num.num_bytes_head ver (default None (number v)) (magnitude_pattern v))
    as (c & r & -> & Hc).
  exists c, r. split; [done|]. destruct (default None _) as [q|]; [|lia]. destruct (q <? 0), (q =? 0); lia.
Qed.
Lemma kbytes_head ver (v : value) : key_ok v -> exists c rest, kbytes ver v = c :: rest /\
  bsonTypeToGenericKeyStringType v <= c <= bsonTypeToGenericKeyStringType v + width v.
Proof.
  intros [Hwf Hk]. destruct v; try done; try (eexists _, _; split; [done|by vm_compute]).
  2: destruct b; eexists _, _; (split; [done|by vm_compute]).
  all: apply number_bytes_head.
Qed.
Lemma kbytes_follows ver (v : value) : key_ok v -> follows (kbytes ver v).
Proof.
  intros H. destruct (kbytes_head ver v H) as (c & r & -> & Hc). pose proof (generic_range v).
  apply follows_cons. lia.
Qed.
Lemma obody_follows ver (fs : list field) : follows (obody ver fs).
Proof.
  destruct fs as [|[n w] fs]; [by apply follows_cons|]. rewrite obody_cons. apply follows_cons.
  pose proof (generic_range w). pose proof (width_nonneg w). lia.
Qed.
Lemma abody_follows ver (fs : list field) : Forall (fun f : field => name_ok f.1 /\ key_ok f.2) fs ->
  follows (abody ver fs).
Proof.
  destruct 1 as [|[n w] fs [_ Hw] _]; [by apply follows_cons|]. rewrite abody_cons.
  apply follows_app. by apply kbytes_follows.
Qed.

(** Values of different canonical types are told apart by their first bytes. *)
Lemma types_agree ver (l r : value) : key_ok l -> key_ok r -> canonicalType l <> canonicalType r ->
  agrees (canonicalType l - canonicalType r) (kbytes ver l) (kbytes ver r).
Proof.
  intros Hl Hr Hne. destruct (kbytes_head ver l Hl) as (c & s & -> & Hc), (kbytes_head ver r Hr) as (d & t & -> & Hd).
  apply agrees_slt; intros H; [|lia|]; apply slt_cons.
  - pose proof (generic_lt l r). lia.
  - pose proof (generic_lt r l). lia.
Qed.
(** Two numbers have the same canonical type. *)
Lemma numbers_same_type (l r : value) : isNumber l = true -> isNumber r = true -> canonicalType l = canonicalType r.
Proof. rewrite !canonicalType_canon. by destruct l, r. Qed.

Section agree.
Variable D : Decimal128.
Variable ver : Version.

(** What is shown of two values: the comparison returns, and the bytes agree with it. *)
Definition ordered (l r : value) : Prop :=
  key_ok l -> key_ok r -> canonicalType l = canonicalType r ->
  exists z, compareElementValues D None l r = Some z /\ agrees z (kbytes ver l) (kbytes ver r).

Lemma ordered_elem (name : bool) (n n' : bytes) (l r : value) : ordered l r -> key_ok l -> key_ok r ->
  strcmp n n' = 0 ->
  exists z, elem_woCompare (fun v w => compareElementValues D None v w) name (n, l) (n', r) = Some z /\
    agrees z (kbytes ver l) (kbytes ver r).
Proof.
  intros H Hl Hr Hn. unfold elem_woCompare. cbn [fst snd]. rewrite Hn.
  destruct (Z.eqb_spec (canonicalType l - canonicalType r) 0) as [E|E]; cbn [negb andb].
  - destruct H as (z & Hz & Ha); [done|done|lia|]. exists z. by destruct name.
  - destruct (isNumber l) eqn:Nl, (isNumber r) eqn:Nr; cbn [negb orb];
      [by rewrite (numbers_same_type l r) in E by done; lia|..].
    all: eexists; split; [done|]; apply types_agree; [done|done|lia].
Qed.

(** The comparison of the elements of nested objects, as a function of its own. *)
Fixpoint objects (ls rs : list field) : option Z :=
  match ls, rs with
  | [], [] => Some 0
  | [], _ :: _ => Some (-1)
  | _ :: _, [] => Some 1
  | l :: ls', r :: rs' =>
      x ← elem_woCompare (fun v w => compareElementValues D None v w) true l r;
      if negb (x =? 0) then Some x else objects ls' rs'
  end.

Lemma objects_object a b : compareElementValues D None (VObject a) (VObject b) = objects a b.
Proof.
  revert b. induction a as [|[n v] a IH]; intros [|[n' v'] b]; try done.
  cbn. cbn in IH. destruct (elem_woCompare _ _ _ _); cbn; [|done]. destruct (negb _); [done|]. apply IH.
Qed.
Lemma objects_array a b : compareElementValues D None (VArray a) (VArray b) = objects a b.
Proof. rewrite <- objects_object. reflexivity. Qed.
Lemma objects_scope c a c' b : compareElementValues D None (VCodeWScope c a) (VCodeWScope c' b) =
  let cmp := SD.lexcmp c c' in if negb (cmp =? 0) then Some cmp else objects a b.
Proof. rewrite <- objects_object. cbn -[SD.compare]. by rewrite SD.compare_lexcmp. Qed.

Abbreviation fields_ok fs := (Forall (fun f : field => name_ok f.1 /\ key_ok f.2) fs).

Lemma objects_agree (ls : list field) : Forall (fun f : field => forall r, ordered f.2 r) ls ->
  forall rs, fields_ok ls -> fields_ok rs ->
  exists z, objects ls rs = Some z /\ agrees z (obody ver ls) (obody ver rs).
Proof.
  induction 1 as [|[n v] ls Hv _ IH]; intros [|[n' v'] rs] Hls Hrs.
  - exists 0. split; [done|]. apply decides_agrees, decides_refl.
  - exists (-1). split; [done|]. apply agrees_slt; [|lia..]. intros _. rewrite obody_cons.
    apply slt_cons. pose proof (generic_range v'). lia.
  - exists 1. split; [done|]. apply agrees_slt; [lia..|]. intros _. rewrite obody_cons.
    apply slt_cons. pose proof (generic_range v). lia.
  - apply Forall_cons in Hls as [[Hn Hl] Hls], Hrs as [[Hn' Hr] Hrs]. cbn [fst snd] in *.
    destruct (IH rs Hls Hrs) as (z & Hz & Hag). cbn [objects]. rewrite !obody_cons.
    unfold elem_woCompare at 1. cbn [fst snd].
    destruct (Z.eqb_spec (canonicalType v - canonicalType v') 0) as [E|E]; cbn [negb andb].
    + rewrite (generic_eq v v') by lia. pose proof (strcmp_decides n n' Hn Hn') as Hs.
      destruct (Hv v' Hl Hr) as (y & Hy & Hay); [lia|]. rewrite Hy, Hz.
      exists (if negb (strcmp n n' =? 0) then strcmp n n' else if negb (y =? 0) then y else z).
      split.
      { destruct (Z.eqb_spec (strcmp n n') 0) as [E'|E']; cbn [negb mbind option_bind].
        - by destruct (negb (y =? 0)).
        - destruct (Z.eqb_spec (strcmp n n') 0); [lia|done]. }
      apply (agrees_prefix _ [_]), decides_seq; [done|]. intros _.
      apply agrees_seq; [done|apply obody_follows..|done].
    + destruct (negb (isNumber v) || negb (isNumber v')) eqn:N; cbn [mbind option_bind].
      2:{ apply orb_false_iff in N as [Nv%negb_false_iff Nv'%negb_false_iff].
          rewrite (numbers_same_type v v') in E by done. lia. }
      destruct (Z.eqb_spec (canonicalType v - canonicalType v') 0); [lia|]. cbn [negb].
      eexists. split; [done|]. pose proof (width_nonneg v). pose proof (width_nonneg v').
      apply agrees_slt; intros ?; [|lia|]; apply slt_cons.
      * pose proof (generic_lt v v'). lia.
      * pose proof (generic_lt v' v). lia.
Qed.

Lemma strcmp_refl (n : bytes) : strcmp n n = 0.
Proof. induction n as [|c n IH]; cbn; [done|]. by rewrite Z.eqb_refl. Qed.

Lemma arrays_agree (ls : list field) : Forall (fun f : field => forall r, ordered f.2 r) ls ->
  forall i rs, array_names i ls -> array_names i rs -> fields_ok ls -> fields_ok rs ->
  exists z, objects ls rs = Some z /\ agrees z (abody ver ls) (abody ver rs).
Proof.
  induction 1 as [|[n v] ls Hv _ IH]; intros i [|[n' v'] rs] Nl Nr Hls Hrs.
  - exists 0. split; [done|]. apply decides_agrees, decides_refl.
  - exists (-1). split; [done|]. apply agrees_slt; [|lia..]. intros _. rewrite abody_cons.
    apply Forall_cons in Hrs as [[_ Hr] _]. destruct (kbytes_head ver v' Hr) as (c & s & -> & Hc).
    apply slt_cons. pose proof (generic_range v'). lia.
  - exists 1. split; [done|]. apply agrees_slt; [lia..|]. intros _. rewrite abody_cons.
    apply Forall_cons in Hls as [[_ Hl] _]. destruct (kbytes_head ver v Hl) as (c & s & -> & Hc).
    apply slt_cons. pose proof (generic_range v). lia.
  - apply Forall_cons in Hls as [[Hn Hl] Hls], Hrs as [[Hn' Hr] Hrs]. cbn [fst snd] in *.
    injection Nl as En Nl. injection Nr as En' Nr.
    destruct (IH (S i) rs Nl Nr Hls Hrs) as (z & Hz & Hag). cbn [objects]. rewrite !abody_cons, Hz.
    destruct (ordered_elem true n n' v v' (Hv v') Hl Hr) as (y & -> & Hay).
    { rewrite En, En'. apply strcmp_refl. }
    exists (if negb (y =? 0) then y else z). cbn [mbind option_bind].
    split; [by destruct (negb _)|]. apply agrees_seq; [done|by apply abody_follows..|done].
Qed.

Lemma three_way_decides (a b x y : Z) (n : nat) : (a < b <-> x < y) -> (a = b <-> x = y) ->
  0 <= x < 256 ^ Z.of_nat n -> 0 <= y < 256 ^ Z.of_nat n ->
  decides (if a <? b then -1 else if a =? b then 0 else 1) (be_encode n x) (be_encode n y).
Proof.
  intros Hlt Heq Hx Hy. destruct (Z.ltb_spec a b); [|destruct (Z.eqb_spec a b)].
  - split; [|by split; intros; lia]. intros _. apply be_encode_slt; lia.
  - rewrite (proj1 Heq) by done. apply decides_refl.
  - split; [lia|]. split; [lia|]. intros _. apply be_encode_slt; lia.
Qed.

Lemma memcmp_same (p a b : bytes) (n : nat) :
  SD.memcmp (p ++ a) (p ++ b) (length p + n) = SD.memcmp a b n.
Proof. induction p as [|c p IH]; cbn [app length Nat.add SD.memcmp]; [done|]. by rewrite Z.eqb_refl. Qed.
Lemma memcmp_split (a b s t : bytes) (n : nat) : length a = length b ->
  SD.memcmp (a ++ s) (b ++ t) (length a + n) =
    let x := SD.memcmp a b (length a) in if negb (x =? 0) then x else SD.memcmp s t n.
Proof.
  revert b. induction a as [|x a IH]; intros [|y b] Hl; try discriminate; [done|].
  injection Hl as Hl. cbn [app length Nat.add SD.memcmp]. destruct (Z.eqb_spec x y) as [->|Hne].
  - by rewrite IH.
  - cbn zeta. destruct (Z.eqb_spec (x - y) 0); [lia|done].
Qed.

(** The length decides first. *)
Lemma length_seq (a b : nat) (z : Z) (c d s t : bytes) :
  decides (Z.of_nat a - Z.of_nat b) c d -> (a = b -> agrees z s t) ->
  agrees (if negb (Z.of_nat a - Z.of_nat b =? 0) then Z.of_nat a - Z.of_nat b else z) (c ++ s) (d ++ t).
Proof. intros H Hz. apply decides_seq; [done|]. intros ?. apply Hz. lia. Qed.

Lemma be_length_decides (n a b : nat) : Z.of_nat a < 256 ^ Z.of_nat n -> Z.of_nat b < 256 ^ Z.of_nat n ->
  decides (Z.of_nat a - Z.of_nat b) (be_encode n (Z.of_nat a)) (be_encode n (Z.of_nat b)).
Proof.
  intros Ha Hb. split; [|split]; intros.
  - apply be_encode_slt; lia.
  - do 2 f_equal. lia.
  - apply be_encode_slt; lia.
Qed.

Lemma dbref_ordered ns oid ns' oid' : ordered (VDBRef ns oid) (VDBRef ns' oid').
Proof.
  intros [(Hn & Ho & Lo) [N0 Hs]] [(Hn' & Ho' & Lo') [N0' Hs']] _. cbn [compareElementValues].
  eexists. split; [done|]. apply (agrees_prefix _ [_]).
  assert (Hlen : forall m o : bytes, length o = 12%nat ->
    Z.of_nat (length (enc_value (VDBRef m o))) = Z.of_nat (length m) + 17).
  { intros m o Hm. cbn [enc_value]. unfold enc_str. solve_length. }
  rewrite !Hlen by done.
  replace (Z.of_nat (length ns) + 17 - (Z.of_nat (length ns') + 17))
    with (Z.of_nat (length ns) - Z.of_nat (length ns')) by lia.
  apply length_seq; [apply be_length_decides; lia|]. intros E.
  cbn [enc_value]. unfold enc_str. rewrite E, <- !app_assoc.
  replace (length (le_encode 4 (Z.of_nat (length ns') + 1) ++ ns ++ [0] ++ oid))
    with (length (le_encode 4 (Z.of_nat (length ns') + 1)) + (length ns + 13))%nat by solve_length.
  rewrite memcmp_same. rewrite (memcmp_split ns ns') by done. cbn zeta.
  apply decides_seq; [apply memcmp_decides; [done|by rewrite E]|]. intros _.
  change 13%nat with (length [0] + 12)%nat. rewrite memcmp_same. apply decides_agrees. by apply memcmp_decides.
Qed.

Lemma bindata_ordered t d t' d' : ordered (VBinData t d) (VBinData t' d').
Proof.
  intros [[Ht Hd] Hs] [[Ht' Hd'] Hs'] _. cbn [compareElementValues keyable] in *.
  eexists. split; [done|]. apply (agrees_prefix _ [_]). apply length_seq.
  - assert (decides (Z.of_nat (length d) - Z.of_nat (length d'))
      (be_encode 4 (Z.of_nat (length d))) (be_encode 4 (Z.of_nat (length d')))) as (H1 & H2 & H3).
    { apply be_length_decides; lia. }
    destruct (Z.ltb_spec (Z.of_nat (length d)) 255), (Z.ltb_spec (Z.of_nat (length d')) 255);
      (split; [|split]); intros; try lia; try (apply slt_cons; lia).
    + f_equal. lia.
    + apply (slt_app_l [255]). auto.
    + f_equal. auto.
    + apply (slt_app_l [255]). auto.
  - intros E. apply decides_agrees, memcmp_decides; cbn [length]; lia.
Qed.

Lemma regex_ordered p f p' f' : ordered (VRegEx p f) (VRegEx p' f').
Proof.
  intros [[Hp Hf] _] [[Hp' Hf'] _] _. cbn [compareElementValues]. eexists. split; [done|].
  apply (agrees_prefix _ [_]). rewrite !(app_assoc _ [0]).
  apply decides_seq; [by apply strcmp_decides|]. intros _. apply decides_agrees. by apply strcmp_decides.
Qed.

Lemma numbers_ordered l r a b : number l = Some a -> number r = Some b -> ordered l r.
Proof.
  intros Ha Hb [Hl Kl] [Hr Kr] _. exists (ncmp a b).
  split; [by apply compareElementValues_numbers|].
  assert (forall v q, number v = Some q -> kbytes ver v = number_bytes ver v) as Hk.
  { intros [] q; try done. }
  rewrite (Hk l a), (Hk r b) by done. unfold number_bytes. rewrite Ha, Hb. cbn [default].
  apply Num.num_bytes_agrees; by apply number_magnitude.
Qed.

Lemma strings_ordered t l r a b : 
  (key_ok l -> bytes_ok a) -> (key_ok r -> bytes_ok b) ->
  compareElementValues D None l r = Some (compareElementStringValues a b) ->
  kbytes ver l = t :: str_bytes a -> kbytes ver r = t :: str_bytes b -> ordered l r.
Proof.
  intros Ha Hb E El Er Kl Kr _. eexists. split; [done|]. rewrite El, Er.
  apply (agrees_prefix _ [t]), string_values_agree; auto.
Qed.

(** Every comparison returns, and the bytes agree with it. *)
Lemma values_ordered (l r : value) : ordered l r.
Proof.
  revert r. induction l as [fs IH|fs IH|code fs IH|l Hleaf] using value_nested_ind; intros r.
  - intros Hl Hr E. rewrite !canonicalType_canon in E. destruct r; try discriminate.
    rewrite objects_object, !kbytes_object.
    destruct (objects_agree fs IH fs0) as (z & -> & Hz); [by apply key_ok_object..|].
    exists z. split; [done|]. by apply (agrees_prefix _ [_]).
  - intros Hl Hr E. rewrite !canonicalType_canon in E. destruct r; try discriminate.
    rewrite objects_array, !kbytes_array. apply key_ok_array in Hl as [Nl Hl], Hr as [Nr Hr].
    destruct (arrays_agree fs IH 0%nat fs0) as (z & -> & Hz); [done..|].
    exists z. split; [done|]. by apply (agrees_prefix _ [_]).
  - intros Hl Hr E. rewrite !canonicalType_canon in E. destruct r; try discriminate.
    rewrite objects_scope, !kbytes_scope. apply key_ok_scope in Hl as [Cl Hl], Hr as [Cr Hr].
    destruct (objects_agree fs IH scope) as (z & -> & Hz); [done..|]. cbn zeta.
    exists (if negb (SD.lexcmp code code0 =? 0) then SD.lexcmp code code0 else z).
    split; [by destruct (negb _)|]. apply (agrees_prefix _ [_]).
    apply agrees_seq; [by apply str_agrees|apply obody_follows..|done].
  - intros Hl Hr E. pose proof E as E'. rewrite !canonicalType_canon in E'.
    destruct l; try done; destruct r; try discriminate.
    all: try (eapply numbers_ordered; done || reflexivity).
    all: try (eapply (strings_ordered CType.kStringLike); try reflexivity; try done; by intros [? _]).
    all: try (eapply (strings_ordered CType.kCode); try reflexivity; try done; by intros [? _]).
    all: try by apply bindata_ordered. all: try by apply regex_ordered. all: try by apply dbref_ordered.
    all: try by destruct Hl as [_ []]. all: try by destruct Hr as [_ []].
    all: try (exists 0; split; [by vm_compute|apply decides_agrees, decides_refl]).
    + eexists. split; [done|]. apply (agrees_prefix _ [_]), decides_agrees, memcmp_decides; [apply Hl|apply Hr].
    + eexists. split; [done|]. apply decides_agrees.
      destruct b, b0; try apply decides_refl; (split; [|split]); intros; try lia; by apply slt_cons.
    + destruct Hl as [Hl _], Hr as [Hr _]. eexists. split; [done|].
      apply (agrees_prefix _ [_]), decides_agrees, three_way_decides; cbn in *; lia.
    + destruct Hl as [Hl _], Hr as [Hr _]. eexists. split; [done|].
      apply (agrees_prefix _ [_]), decides_agrees, three_way_decides; cbn in *; lia.
Qed.

End agree.

(** ** The order of keys *)

(** The bytes of the fields of a key from field [i] on. *)
Fixpoint key_bytes (ver : Version) (ord : Z) (i : nat) (fs : list field) : bytes :=
  match fs with
  | [] => []
  | (_, v) :: fs' => flip_if (Z.testbit ord (Z.of_nat i)) (kbytes ver v) ++ key_bytes ver ord (S i) fs'
  end.

(** What ends the fields of a key: a byte that is smaller than every type byte. *)
Definition ends (s : bytes) : Prop := exists b s', s = b :: s' /\ 1 <= b < 10.

(** What may follow a field, in either direction. *)
Definition between (s : bytes) : Prop := exists b s', s = b :: s' /\ 1 <= b <= 254.

Lemma between_follows s : between s -> follows s.
Proof. intros (b & s' & -> & H). apply follows_cons. lia. Qed.
Lemma between_flip_follows s : between s -> follows (flip s).
Proof. intros (b & s' & -> & H). apply follows_cons. lia. Qed.

Lemma key_bytes_head ver ord i v fs s : key_ok v -> exists b t,
  key_bytes ver ord i (([], v) :: fs) ++ s = b :: t /\ 10 <= b <= 245.
Proof.
  intros Hv. cbn [key_bytes]. destruct (kbytes_head ver v Hv) as (c & r & -> & Hc). pose proof (generic_range v).
  destruct (Z.testbit ord (Z.of_nat i)); eexists _, _; (split; [done|]); lia.
Qed.
Lemma key_bytes_between ver ord i fs s : Forall (fun f : field => key_ok f.2) fs -> between s ->
  between (key_bytes ver ord i fs ++ s).
Proof.
  intros Hfs (b & s' & -> & Hb). destruct Hfs as [|[n v] fs Hv _]; [by exists b, s'; split; [|lia]|].
  destruct (key_bytes_head ver ord i v fs (b :: s') Hv) as (c & t & E & Hc).
  exists c, t. split; [exact E|lia].
Qed.

Lemma agrees_flip_if (inv : bool) (z : Z) (a b s t : bytes) : agrees z a b -> between s -> between t ->
  let z' := if inv then - z else z in
  (z' < 0 -> slt (flip_if inv a ++ s) (flip_if inv b ++ t)) /\
  (z' = 0 -> a = b) /\
  (0 < z' -> slt (flip_if inv b ++ t) (flip_if inv a ++ s)).
Proof.
  intros (H1 & H2 & H3) Hs Ht. destruct inv; cbn [flip_if]; cbn zeta.
  - rewrite <- (flip_flip s), <- (flip_flip t), <- !flip_app.
    split; [|split]; intros; [|apply H2; lia|]; apply slt_flip; [apply H3|apply H1]; try lia;
      by apply between_flip_follows.
  - split; [|split]; intros; [|by apply H2|]; [apply H1|apply H3]; try lia; by apply between_follows.
Qed.

Lemma mask_testbit (o : Z) (i : nat) : descending o (2 ^ Z.of_nat i) = Z.testbit o (Z.of_nat i).
Proof.
  unfold descending. rewrite <- (Z.shiftl_1_l (Z.of_nat i)). destruct (Z.testbit o (Z.of_nat i)) eqn:E.
  - apply negb_true_iff, Z.eqb_neq. intros H. apply (f_equal (fun z => Z.testbit z (Z.of_nat i))) in H.
    rewrite Z.land_spec, E, Z.shiftl_1_l, Z.pow2_bits_true, Z.bits_0 in H by lia. done.
  - apply negb_false_iff, Z.eqb_eq. apply Z.bits_inj'. intros j Hj.
    rewrite Z.land_spec, Z.shiftl_1_l, Z.bits_0. destruct (Z.eq_dec (Z.of_nat i) j) as [<-|].
    + by rewrite E.
    + rewrite Z.pow2_bits_false by lia. apply andb_false_r.
Qed.
Lemma get_testbit (o : Z) (i : nat) : (Ordering_get o (Z.of_nat i) =? -1) = Z.testbit o (Z.of_nat i).
Proof.
  unfold Ordering_get. rewrite Z.land_comm, Z.shiftl_1_l. pose proof (mask_testbit o i) as H.
  unfold descending in H. rewrite H. by destruct (Z.testbit _ _).
Qed.

(** Keys of at most 32 fields: the comparison returns, and the strings of the keys are
    ordered by it whatever follows them; the shorter key must end with a byte below every
    type byte. *)
Lemma keys_ordered (D : Decimal128) ver ord (ls rs : list field) (i : nat) (s t : bytes) :
  Forall (fun f : field => key_ok f.2) ls -> Forall (fun f : field => key_ok f.2) rs ->
  (i + length ls <= 32)%nat -> between s -> between t ->
  ((length ls < length rs)%nat -> ends s) -> ((length rs < length ls)%nat -> ends t) ->
  exists z, woCompare_ordering D false None ord (wrapu 32 (2 ^ Z.of_nat i)) ls rs = Some z /\
    (z < 0 -> slt (key_bytes ver ord i ls ++ s) (key_bytes ver ord i rs ++ t)) /\
    (z = 0 -> key_bytes ver ord i ls = key_bytes ver ord i rs) /\
    (0 < z -> slt (key_bytes ver ord i rs ++ t) (key_bytes ver ord i ls ++ s)).
Proof.
  intros Hls. revert rs i. induction Hls as [|[n v] ls Hv Hls IH]; intros rs i Hrs Hlen Hs Ht Es Et;
    destruct Hrs as [|[n' v'] rs Hv' Hrs].
  - exists 0. by split; [|split; [|split]].
  - exists (-1). split; [done|]. split; [|split; lia]. intros _. destruct Es as (b & s' & -> & Hb); [cbn; lia|].
    destruct (key_bytes_head ver ord i v' rs t Hv') as (c & u & E & Hc). cbn [key_bytes] in *. rewrite E.
    apply slt_cons. lia.
  - exists 1. split; [done|]. split; [lia|split; [lia|]]. intros _. destruct Et as (b & t' & -> & Hb); [cbn; lia|].
    destruct (key_bytes_head ver ord i v ls s Hv) as (c & u & E & Hc). cbn [key_bytes] in *. rewrite E.
    apply slt_cons. lia.
  - cbn [length] in *. cbn [fst snd] in *.
    destruct (ordered_elem D ver false n n v v') as (x & Hx & Ha); [apply values_ordered|done|done|apply strcmp_refl|].
    assert (Hx' : elem_woCompare (compareElementValues D None) false (n, v) (n', v') = Some x) by exact Hx.
    cbn [woCompare_ordering]. rewrite Hx'. cbn [mbind option_bind key_bytes]. rewrite <- !app_assoc.
    rewrite (wrapu_small 32 (2 ^ Z.of_nat i)), mask_testbit by (split; [apply Z.pow_nonneg|apply Z.pow_lt_mono_r]; lia).
    destruct (agrees_flip_if (Z.testbit ord (Z.of_nat i)) x (kbytes ver v) (kbytes ver v')
      (key_bytes ver ord (S i) ls ++ s) (key_bytes ver ord (S i) rs ++ t)) as (A1 & A2 & A3);
      [done|by apply key_bytes_between..|].
    set (x' := if Z.testbit ord (Z.of_nat i) then - x else x) in *.
    destruct (Z.eqb_spec x' 0) as [E|E]; cbn [negb].
    + replace (wrapu 32 (Z.shiftl (2 ^ Z.of_nat i) 1)) with (wrapu 32 (2 ^ Z.of_nat (S i))).
      2:{ f_equal. rewrite Z.shiftl_mul_pow2, <- Z.pow_add_r by lia. f_equal. lia. }
      destruct (IH rs (S i)) as (z & Hz & B1 & B2 & B3); [done|lia|done|done|intros; apply Es; lia|intros; apply Et; lia|].
      exists z. split; [done|]. rewrite (A2 E). split; [|split]; intros.
      * apply slt_app_l. auto.
      * f_equal. auto.
      * apply slt_app_l. auto.
    + exists x'. split; [done|]. split; [done|]. split; [lia|done].
Qed.

End Order.

(** ** Key patterns *)
Module Pattern.
Import Cmp.

(** The direction of the field [i] of a key pattern. *)
Definition descends (D : Decimal128) (pattern : list field) (i : nat) : bool :=
  match pattern !! i with Some e => Dbl.lt (numberDouble D e.2) 0 | None => false end.

Lemma make_loop_bits (D : Decimal128) (ks : list field) : forall b (n : nat) o,
  make_loop D b (Z.of_nat n) ks = Ret o ->
  (ks = [] \/ (n + length ks <= 32)%nat) /\
  forall i : nat, Z.testbit o (Z.of_nat i) =
    Z.testbit b (Z.of_nat i) || (if (n <=? i)%nat then descends D ks (i - n) else false).
Proof.
  induction ks as [|k ks IH]; intros b n o H; cbn [make_loop] in H.
  { injection H as <-. split; [by left|]. intros i. unfold descends. destruct (n <=? i)%nat; by rewrite orb_false_r. }
  unfold require in H. destruct (Z.leb_spec (Z.of_nat n) 31) as [Hn|]; [|discriminate]. rewrite bind_Ret in H.
  replace (Z.of_nat n + 1) with (Z.of_nat (S n)) in H by lia. apply IH in H as [Hlen H]. split.
  { right. cbn. destruct Hlen as [->|]; [cbn|]; lia. }
  intros i. rewrite H. set (d := Dbl.lt (numberDouble D k.2) 0).
  assert (Hb : Z.testbit (if d then Z.lor b (Z.shiftl 1 (Z.of_nat n)) else b) (Z.of_nat i) =
    Z.testbit b (Z.of_nat i) || (d && bool_decide (i = n))).
  { destruct d; [|by rewrite orb_false_r]. rewrite Z.lor_spec, Z.shiftl_1_l. f_equal. case_bool_decide as E.
    - subst i. by apply Z.pow2_bits_true; lia.
    - by apply Z.pow2_bits_false; lia. }
  rewrite Hb, <- orb_assoc. f_equal.
  destruct (Nat.leb_spec (S n) i), (Nat.leb_spec n i); try lia.
  - rewrite bool_decide_eq_false_2 by lia. rewrite andb_false_r. unfold descends. replace (i - n)%nat with (S (i - S n)) by lia. done.
  - assert (i = n) as -> by lia. rewrite bool_decide_eq_true_2, Nat.sub_diag by done. by rewrite andb_true_r, orb_false_r.
  - rewrite bool_decide_eq_false_2 by lia. by rewrite andb_false_r.
Qed.

(** The bits of the ordering of a pattern. *)
Lemma Ordering_make_bits (D : Decimal128) (pattern : list field) (ord : Z) : Ordering_make D pattern = Ret ord ->
  (length pattern <= 32)%nat /\ forall i : nat, Z.testbit ord (Z.of_nat i) = descends D pattern i.
Proof.
  intros H. apply (make_loop_bits D pattern 0 0) in H as [Hl Hb]. split; [destruct Hl as [->|]; cbn in *; lia|].
  intros i. rewrite Hb, Z.bits_0. cbn [orb Nat.leb]. by rewrite Nat.sub_0_r.
Qed.

Lemma pattern_ordering (D : Decimal128) cfn cmp (ord : Z) : forall (ls rs k : list field) (i : nat) mask,
  (forall j, (j < length k)%nat -> Z.testbit ord (Z.of_nat (i + j)) = descends D k j) ->
  (i + length k <= 32)%nat -> (length ls <= length k \/ length rs <= length k)%nat ->
  (k = [] \/ mask = 2 ^ Z.of_nat i) ->
  woCompare_pattern D cfn cmp true (Some k) ls rs = woCompare_ordering D cfn cmp ord mask ls rs.
Proof.
  induction ls as [|l ls IH]; intros rs k i mask Hbits H32 Hlen Hmask.
  { destruct k, rs; reflexivity. }
  destruct rs as [|r rs]; [by destruct k|]. destruct k as [|e k]; [cbn in Hlen; lia|].
  destruct Hmask as [|Hmask]; [discriminate|].
  cbn [woCompare_pattern woCompare_ordering pattern_next mbind option_bind andb].
  destruct (elem_woCompare _ _ _ _) as [x|]; [|done]. cbn [mbind option_bind].
  assert (descending ord mask = Dbl.lt (numberDouble D e.2) 0) as ->.
  { rewrite Hmask, Order.mask_testbit. specialize (Hbits 0%nat ltac:(cbn; lia)). by rewrite Nat.add_0_r in Hbits. }
  destruct (negb (_ =? _)); [done|]. apply (IH rs k (S i)); [|cbn in *; lia|cbn in *; lia|].
  - intros j Hj. specialize (Hbits (S j) ltac:(cbn; lia)). rewrite Nat.add_succ_r in Hbits. exact Hbits.
  - destruct k as [|e' k]; [by left|]. right. cbn in H32.
    assert (2 ^ Z.of_nat (S i) < 2 ^ 32) by (apply Z.pow_lt_mono_r; lia).
    rewrite Hmask, Z.shiftl_mul_pow2 by lia. rewrite Nat2Z.inj_succ, Z.pow_succ_r in * by lia.
    rewrite wrapu_small by lia. lia.
Qed.

(** The two comparisons of keys agree: for an index of at most 32 fields,
    [BSONObj::woCompare] with the key pattern is [woCompare] with the [Ordering] made of
    that pattern, for keys one of which is no longer than the pattern. *)
Theorem pattern_comparison_agrees (D : Decimal128) cfn cmp (pattern l r : list field) (ord : Z) :
  pattern <> [] -> Ordering_make D pattern = Ret ord ->
  (length l <= length pattern \/ length r <= length pattern)%nat ->
  woCompare D r pattern cfn cmp l = woCompare_ordering D cfn cmp ord 1 l r.
Proof.
  intros Hp Ho Hl. destruct (Ordering_make_bits D pattern ord Ho) as [H32 Hb].
  destruct l as [|e l], r as [|f r]; try done. cbn [woCompare].
  destruct pattern as [|p pattern]; [done|]. apply (pattern_ordering D cfn cmp ord _ _ _ 0); [|done|done|by right].
  intros j _. apply Hb.
Qed.

(** An index on two fields, the second one descending; its keys hold no decimal. *)
Definition no_decimal : Decimal128 :=
  mkDecimal128 (fun _ _ => false) (fun _ _ => false) (fun _ => false) (fun _ => []) (fun _ => (0, false)) (fun _ => 0).
Definition demo_pattern : list field := [([97], VInt 1); ([98], VDouble [0; 0; 0; 0; 0; 0; 240; 191])].

Lemma pattern_comparison_agrees_witness :
  woCompare no_decimal [([], VLong 7); ([], VInt 2)] demo_pattern false None [([], VInt 7); ([], VInt 1)] = Some 1.
Proof.
  rewrite (pattern_comparison_agrees no_decimal false None demo_pattern [([], VInt 7); ([], VInt 1)]
    [([], VLong 7); ([], VInt 2)] 2); [vm_compute; reflexivity|discriminate|vm_compute; reflexivity|left; vm_compute; lia].
Defined.

End Pattern.
