(* ===== verification/KeyStringRefine.v ===== *)
(** * KeyString: the encoder writes the specified bytes

    The operations of [KeyString.v] append the bytes [kbytes] and the type bits [kbits] of
    [KeyStringOrder.v]; with this the theorems on [KeyString::compare] follow. [Module Bits]
    is the abstraction of [TypeBits] to a list of bits, [Module Ref] the refinement,
    [Module Keys] the theorems on keys, queries and record ids. *)
From Stdlib Require Import ZArith Lia Bool.
From stdpp Require Import base list option.
From S2P Require Import Prelude StringData Bson BsonCompare KeyString KeyStringOrder.
Open Scope Z_scope.

(** ** Type bits *)
Module Bits.
Import TB.

(** The bits as a number, the first one least significant. *)
Fixpoint bits_Z (bits : list bool) : Z :=
  match bits with [] => 0 | b :: bits' => Z.b2z b + 2 * bits_Z bits' end.

Definition nbytes (bits : list bool) : nat := (length bits + 7) / 8.

(** The array holds the size byte, the packed bits and whatever it held before. *)
Definition rep (t : TypeBits) (bits : list bool) : Prop :=
  _curBit t = Z.of_nat (length bits) /\
  _isAllZeros t = forallb negb bits /\
  exists rest, _buf t = 128 + Z.of_nat (nbytes bits) :: le_encode (nbytes bits) (bits_Z bits) ++ rest /\
    length rest = (127 - nbytes bits)%nat /\ (bits = [] -> head rest = Some 0).

(** The bits fit the array. *)
Definition fits (bits : list bool) : Prop := (length bits <= 1016)%nat.

Lemma bits_Z_app (a b : list bool) : bits_Z (a ++ b) = bits_Z a + 2 ^ Z.of_nat (length a) * bits_Z b.
Proof.
  induction a as [|x a IH]; cbn [app bits_Z length]; [lia|].
  rewrite IH, Nat2Z.inj_succ, Z.pow_succ_r by lia. lia.
Qed.
Lemma bits_Z_range (bits : list bool) : 0 <= bits_Z bits < 2 ^ Z.of_nat (length bits).
Proof.
  induction bits as [|b bits IH]; cbn [bits_Z length]; [lia|].
  rewrite Nat2Z.inj_succ, Z.pow_succ_r by lia. destruct b; cbn [Z.b2z]; lia.
Qed.

Lemma le_encode_S (n : nat) (z : Z) : le_encode (S n) z = z mod 256 :: le_encode n (z / 256).
Proof. done. Qed.
Lemma le_encode_snoc (n : nat) (z : Z) : le_encode (S n) z = le_encode n z ++ [z / 256 ^ Z.of_nat n mod 256].
Proof.
  revert z. induction n as [|n IH]; intros z.
  { cbn. by rewrite Z.div_1_r. }
  rewrite (le_encode_S (S n)), IH, le_encode_S. cbn [app]. rewrite Z.div_div by (try apply Z.pow_pos_nonneg; lia).
  do 4 f_equal. rewrite Nat2Z.inj_succ, Z.pow_succ_r by lia. done.
Qed.
Lemma le_encode_add (n : nat) (z b : Z) : le_encode n (z + 256 ^ Z.of_nat n * b) = le_encode n z.
Proof.
  revert z. induction n as [|n IH]; intros z; [done|]. rewrite !le_encode_S.
  rewrite Nat2Z.inj_succ, Z.pow_succ_r by lia.
  replace (z + 256 * 256 ^ Z.of_nat n * b) with (z + (256 ^ Z.of_nat n * b) * 256) by lia.
  rewrite Z.mod_add, Z.div_add by lia. by rewrite IH.
Qed.

Lemma reset_rep (ver : Version) (junk : list Z) : length junk = 128%nat -> rep (reset ver junk) [].
Proof.
  intros H. destruct junk as [|a [|b junk]]; try discriminate. split; [done|]. split; [done|].
  exists (0 :: junk). repeat split; cbn in *; lia.
Qed.

Lemma bits_Z_snoc (bits : list bool) (b : bool) :
  bits_Z (bits ++ [b]) = bits_Z bits + 2 ^ Z.of_nat (length bits) * Z.b2z b.
Proof. rewrite bits_Z_app. cbn [bits_Z]. lia. Qed.
Lemma nbytes_at (bits : list bool) (k off : nat) : length bits = (8 * k + off)%nat -> (off < 8)%nat ->
  nbytes bits = if decide (off = 0%nat) then k else S k.
Proof.
  intros H Hoff. unfold nbytes. rewrite H. destruct (decide (off = 0%nat)) as [->|].
  - symmetry. apply Nat.div_unique with 7%nat; lia.
  - symmetry. apply Nat.div_unique with (off - 1)%nat; lia.
Qed.

(** The common part of the two branches: the byte and the bit that are written. *)
Lemma appendBit_at (t : TypeBits) (bits : list bool) (b : bool) (k off : nat) (old : Z) :
  rep t bits -> length bits = (8 * k + off)%nat -> (off < 8)%nat -> (k < 127)%nat ->
  _buf t !! S k = Some old ->
  appendBit (Z.b2z b) t = Ret (mkTypeBits (version t) (Z.of_nat (length (bits ++ [b])))
    (forallb negb (bits ++ [b]))
    (if decide (off = 0%nat) then <[S k := Z.b2z b]> (setSizeByte (Z.of_nat (S k)) (_buf t))
     else <[S k := Z.lor old (Z.shiftl (Z.b2z b) (Z.of_nat off))]> (_buf t))).
Proof.
  intros (Hc & Hz & _) Hlen Hoff Hk Hold. unfold appendBit. rewrite Hc, Hlen.
  replace (Z.of_nat (8 * k + off)) with (Z.of_nat off + Z.of_nat k * 8) by lia.
  rewrite Z.div_add, Z.mod_add, Z.div_small, Z.mod_small, Z.add_0_l, wrapu_small by lia.
  replace (Z.to_nat (Z.of_nat k + 1)) with (S k) by lia. rewrite Hold.
  do 2 f_equal.
  - rewrite length_app, Hlen. cbn [length]. lia.
  - rewrite forallb_app, Hz. destruct b; cbn; [by rewrite andb_false_r|by rewrite andb_true_r].
  - destruct (decide (off = 0%nat)) as [->|]; cbn [Z.of_nat Z.eqb].
    + do 3 f_equal. lia.
    + destruct (Z.eqb_spec (Z.of_nat off) 0); [lia|]. do 2 f_equal. apply wrapu_small.
      rewrite Z.shiftl_mul_pow2 by lia. assert (2 ^ Z.of_nat off <= 2 ^ 7) by (apply Z.pow_le_mono_r; lia).
      assert (0 < 2 ^ Z.of_nat off) by (apply Z.pow_pos_nonneg; lia). destruct b; cbn [Z.b2z]; lia.
Qed.

(** The packed bits before and after one more bit, in byte [k]. *)
Lemma pack_snoc (bits : list bool) (b : bool) (k off : nat) : length bits = (8 * k + off)%nat -> (off < 8)%nat ->
  let y := bits_Z bits / 256 ^ Z.of_nat k in
  0 <= y < 2 ^ Z.of_nat off /\
  le_encode (S k) (bits_Z (bits ++ [b])) = le_encode k (bits_Z bits) ++ [y + Z.b2z b * 2 ^ Z.of_nat off] /\
  (off <> 0%nat -> le_encode (S k) (bits_Z bits) = le_encode k (bits_Z bits) ++ [y]).
Proof.
  intros Hlen Hoff y. assert (Hp : 0 < 256 ^ Z.of_nat k) by (apply Z.pow_pos_nonneg; lia).
  assert (E256 : 2 ^ Z.of_nat (length bits) = 256 ^ Z.of_nat k * 2 ^ Z.of_nat off).
  { change 256 with (2 ^ 8). rewrite <- Z.pow_mul_r, <- Z.pow_add_r by lia. f_equal. lia. }
  pose proof (bits_Z_range bits) as Hr.
  assert (Hy : 0 <= y < 2 ^ Z.of_nat off).
  { split; [apply Z.div_pos; lia|]. apply Z.div_lt_upper_bound; lia. }
  assert (2 ^ Z.of_nat off <= 2 ^ 7) by (apply Z.pow_le_mono_r; lia).
  split; [done|]. split; [|intros _].
  - rewrite le_encode_snoc, bits_Z_snoc, E256, <- Z.mul_assoc, le_encode_add. do 2 f_equal.
    rewrite (Z.mul_comm (256 ^ _)), Z.div_add by lia. fold y.
    rewrite Z.mod_small by (destruct b; cbn [Z.b2z]; lia). lia.
  - rewrite le_encode_snoc. fold y. by rewrite Z.mod_small by lia.
Qed.

Lemma insert_behind (h : Z) (l : bytes) (x y : Z) (r : bytes) (n : nat) : n = length l ->
  <[S n := y]> (h :: l ++ x :: r) = h :: l ++ y :: r.
Proof. intros ->. change (h :: <[length l := y]> (l ++ x :: r) = h :: l ++ y :: r).
  rewrite insert_app_r_alt by lia. by rewrite Nat.sub_diag. Qed.

(** One more bit. *)
Lemma appendBit_rep (t : TypeBits) (bits : list bool) (b : bool) : rep t bits -> fits (bits ++ [b]) ->
  exists t', appendBit (Z.b2z b) t = Ret t' /\ version t' = version t /\ rep t' (bits ++ [b]).
Proof.
  intros Hrep Hf. pose proof Hrep as (Hc & Hz & rest & Hb & Hl & H0).
  unfold fits in Hf. rewrite length_app in Hf. cbn [length] in Hf.
  set (k := (length bits / 8)%nat). set (off := (length bits mod 8)%nat).
  assert (Hlen : length bits = (8 * k + off)%nat) by (apply Nat.div_mod; lia).
  assert (Hoff : (off < 8)%nat) by (apply Nat.mod_upper_bound; lia).
  clearbody k off. destruct (pack_snoc bits b k off Hlen Hoff) as (Hy & E1 & E2).
  set (y := bits_Z bits / 256 ^ Z.of_nat k) in *.
  rewrite (nbytes_at bits k off) in * by done.
  assert (Hn' : nbytes (bits ++ [b]) = S k).
  { unfold nbytes. rewrite length_app. cbn [length]. symmetry. apply Nat.div_unique with off; lia. }
  destruct (decide (off = 0%nat)) as [E0|E0].
  - destruct rest as [|r rest]; [cbn in Hl; lia|].
    rewrite (appendBit_at t bits b k off r); [|done..|lia|].
    2:{ rewrite Hb. apply (list_lookup_middle (_ :: _)). cbn. by rewrite length_le_encode. }
    rewrite decide_True by done. eexists. split; [done|]. split; [done|]. split; [done|]. split; [done|].
    exists rest. cbn [_buf]. rewrite Hn', E1, Hb, <- app_assoc. split; [|split; [cbn in Hl; lia|by destruct bits]].
    unfold setSizeByte. change (<[0%nat := ?a]> (_ :: ?l)) with (a :: l).
    rewrite insert_behind by (by rewrite length_le_encode). cbn [app]. f_equal; [rewrite Z.lor_comm, Z.add_comm; apply (lor_add _ 1 7); lia|]. do 2 f_equal.
    rewrite E0 in *. change (2 ^ Z.of_nat 0) with 1 in *. lia.
  - specialize (E2 E0). rewrite E2 in Hb. rewrite <- app_assoc in Hb. cbn [app] in Hb.
    rewrite (appendBit_at t bits b k off y); [|done..|lia|].
    2:{ rewrite Hb. apply (list_lookup_middle (_ :: _)). cbn. by rewrite length_le_encode. }
    rewrite decide_False by done. eexists. split; [done|]. split; [done|]. split; [done|]. split; [done|].
    exists rest. cbn [_buf]. rewrite Hn', E1, Hb, <- app_assoc. split; [|split; [done|by destruct bits]].
    rewrite insert_behind by (by rewrite length_le_encode). cbn [app]. do 3 f_equal. apply lor_add; lia.
Qed.

End Bits.

(** ** The encoder *)
Module Ref.
Import Dbl DblLemmas Lex Num Enc KS.
Abbreviation isNumber := Cmp.isNumber.

(** Bytes added to the buffer. *)
Definition put (inv : bool) (bs : bytes) (ks : KeyString) : KeyString :=
  mkKeyString (version ks) (_buffer ks ++ flip_if inv bs) (_typeBits ks).

Lemma flip_ok (l : bytes) : bytes_ok l -> memcpy_flipBits l = flip l.
Proof.
  induction 1 as [|c l Hc _ IH]; [done|]. unfold memcpy_flipBits, flip in *. cbn [List.map].
  rewrite IH. f_equal. unfold byte_ok, wrapu in *. rewrite Z.mod_eq by lia.
  assert (Z.lnot c / 2 ^ 8 = -1) as ->; [|unfold Z.lnot; lia].
  symmetry. apply Z.div_unique with (255 - c); unfold Z.lnot; lia.
Qed.
Lemma flip_bytes_ok (l : bytes) : bytes_ok l -> bytes_ok (flip l).
Proof. unfold bytes_ok, flip. rewrite List.Forall_map. apply List.Forall_impl. unfold byte_ok. lia. Qed.
Lemma flip_if_app inv a b : flip_if inv (a ++ b) = flip_if inv a ++ flip_if inv b.
Proof. destruct inv; [apply flip_app|done]. Qed.

Lemma appendBytes_put bs inv ks : bytes_ok bs -> _appendBytes bs inv ks = put inv bs ks.
Proof. intros H. unfold _appendBytes, put. destruct inv; [by rewrite flip_ok|done]. Qed.
(** Bytes of a negative number are flipped once more. *)
Lemma appendBytes_sign bs (n inv : bool) ks : bytes_ok bs ->
  _appendBytes bs (if n then negb inv else inv) ks = put inv (flip_if n bs) ks.
Proof.
  intros H. rewrite appendBytes_put by done. unfold put. f_equal.
  destruct n, inv; cbn [negb flip_if]; rewrite ?flip_flip; done.
Qed.
Lemma append_put c inv ks : 0 <= c < 256 -> _append c inv ks = put inv [c] ks.
Proof.
  intros H. unfold _append. rewrite wrapu_small by done. apply appendBytes_put. repeat constructor; apply H.
Qed.
Lemma put_put inv a b ks : put inv b (put inv a ks) = put inv (a ++ b) ks.
Proof. unfold put. cbn. by rewrite flip_if_app, app_assoc. Qed.
Lemma put_version inv a ks : version (put inv a ks) = version ks.
Proof. done. Qed.

(** The bytes of a positive number as those of a number with a sign. *)
Definition signed (n : bool) (l : bytes) : bytes := if n then mirror l else l.
Lemma signed_cons n c rest : signed n (c :: rest) = (if n then 82 - c else c) :: flip_if n rest.
Proof. by destruct n. Qed.
Lemma num_bytes_signed ver (q m : Z) : q <> 0 ->
  num_bytes ver (Some q) m = signed (q <? 0) (pos_bytes ver (q <? 0) (Z.abs q) m).
Proof.
  intros H. cbn [num_bytes]. destruct (Z.eqb_spec q 0); [lia|]. unfold signed.
  destruct (Z.ltb_spec q 0); [rewrite Z.abs_neq by lia|rewrite Z.abs_eq by lia]; reflexivity.
Qed.

Lemma byte_count (x : Z) : 0 < x < 2 ^ 64 -> (64 - countLeadingZeros64 x + 7) / 8 = Z.of_nat (int_len x) /\
  (1 <= int_len x <= 8)%nat.
Proof.
  intros Hx. unfold countLeadingZeros64, int_len. destruct (Z.eqb_spec x 0); [lia|].
  pose proof (Z.log2_nonneg x). assert (Z.log2 x < 64) by (apply Z.log2_lt_pow2; lia).
  replace (64 - (63 - Z.log2 x) + 7) with (Z.log2 x + 1 * 8) by lia. rewrite Z.div_add by lia.
  pose proof (Z.div_mod (Z.log2 x) 8). pose proof (Z.mod_pos_bound (Z.log2 x) 8). lia.
Qed.

Lemma preshifted_put (x : Z) (n inv : bool) ks : 0 < x < 2 ^ 64 ->
  _appendPreshiftedIntegerPortion x n inv ks = put inv (signed n (int_bytes x)) ks.
Proof.
  intros Hx. destruct (byte_count x Hx) as [E Hl]. unfold _appendPreshiftedIntegerPortion. rewrite E.
  rewrite Nat2Z.id. destruct (int_len_bounds x) as [_ Hb]; [lia|].
  rewrite be_encode_drop by lia.
  assert (Hok : bytes_ok (be_encode (int_len x) x)) by apply be_encode_ok.
  unfold int_bytes. rewrite signed_cons. unfold CType.kNumericNegative1ByteInt, CType.kNumericPositive1ByteInt, CType.kNumeric.
  destruct n.
  - rewrite (appendBytes_sign _ true), append_put, put_put by (done || lia). f_equal. cbn [app]. f_equal. lia.
  - rewrite (appendBytes_sign _ false), append_put, put_put by (done || lia). f_equal. cbn [app]. f_equal. lia.
Qed.

Lemma append64_sign (z : Z) (n inv : bool) c ks : 0 <= c < 256 ->
  _append64 z (if n then negb inv else inv) (_append c inv ks) = put inv (c :: flip_if n (be_encode 8 z)) ks.
Proof. intros Hc. unfold _append64. rewrite appendBytes_sign, append_put, put_put by (done || apply be_encode_ok). done. Qed.

(** Doubles below 1. *)
Lemma small_put (b q : Z) (inv : bool) ks : 0 <= b < 2 ^ 64 -> num b = Some q -> q <> 0 -> Z.abs q < unit ->
  _appendSmallDouble b kDCMEqualToDouble inv ks =
    Ret (put inv (signed (q <? 0) (42 :: be_encode 8 (small_code (version ks) (q <? 0) (magnitude b)))) ks).
Proof.
  intros Hb Hq H0 Hs. destruct (num_parts b q Hb Hq H0) as (Hm & Em & Nm & _ & Hp & Hneg).
  set (m := magnitude b) in *. unfold _appendSmallDouble.
  rewrite (lt_num b 0 q 0) by done. rewrite Hneg. set (n := q <? 0) in *. rewrite signed_cons.
  assert (Hver : forall c, version (_append c inv ks) = version ks) by done. rewrite Hver.
  assert (Hct : forall z, Ret (_append64 z (if n then negb inv else inv)
      (_append (if n then CType.kNumericNegativeSmallMagnitude else CType.kNumericPositiveSmallMagnitude) inv ks)) =
    Ret (E := ks_error) (put inv ((if n then 82 - 42 else 42) :: flip_if n (be_encode 8 z)) ks)).
  { intros z. rewrite append64_sign by (by destruct n). by destruct n. }
  pose proof (small_pattern m) as Hpat. rewrite Em in Hpat. specialize (Hpat ltac:(lia) Hs).
  destruct (version ks); cbn [small_code].
  - rewrite decide_True by done. rewrite bind_Ret, Hct, Hp. done.
  - rewrite decide_False by done.
    assert (num kTiniestDoubleWith2BitDCM = Some (2 ^ 819)) as HT by (by vm_compute).
    rewrite (le_num kTiniestDoubleWith2BitDCM m (2 ^ 819) (Z.abs q)), Em by (exact HT || exact Nm).
    destruct (Z.leb_spec (2 ^ 819) (Z.abs q)).
    + rewrite bind_Ret, Hct. unfold kDCMEqualToDouble. rewrite Z.lor_0_r, Z.shiftl_mul_pow2 by lia.
      rewrite wrapu_small by lia. do 4 f_equal. f_equal. lia.
    + cbn [verify negb kDCMEqualToDouble kDCMEqualToDoubleRoundedUpTo15Digits Z.eqb].
      unfold kDCMEqualToDouble. cbn [Z.eqb]. rewrite !bind_Ret, Hct. do 4 f_equal. f_equal.
      assert (Hu : scale m kTinyDoubleExponentShift = upshift m).
      { unfold scale, upshift, kTinyDoubleExponentShift. assert (inf < 2 ^ 63) by done.
        destruct (with_sign_parts false m) as [Ea Eb]; [lia|]. unfold with_sign in Ea, Eb.
        by rewrite Ea, Eb. }
      rewrite Hu. destruct (upshift_bound m) as [U0 U1]; [lia|lia|].
      rewrite Z.lor_0_r, Z.shiftl_mul_pow2 by lia. change (Z.shiftl 1 62) with (2 ^ 62).
      rewrite (wrapu_small 64 (upshift m * 2 ^ 1)) by lia. rewrite wrapu_small by lia. lia.
Qed.

(** Doubles from 2^63 on. *)
Lemma large_put (b q : Z) (inv : bool) ks : 0 <= b < 2 ^ 64 -> num b = Some q -> 2 ^ 63 * unit <= Z.abs q ->
  _appendLargeDouble b kDCMEqualToDouble inv ks =
    Ret (put inv (signed (q <? 0) (51 :: be_encode 8 (large_code (version ks) (q <? 0) (magnitude b)))) ks).
Proof.
  intros Hb Hq Hl. pose proof unit_pos as Hu.
  destruct (num_parts b q Hb Hq) as (Hm & Em & Nm & _ & Hp & _); [lia|].
  set (m := magnitude b) in *. unfold _appendLargeDouble.
  cbn [verify negb kDCMEqualToDouble kDCMEqualToDoubleRoundedUpTo15Digits Z.eqb].
  unfold kDCMEqualToDouble. cbn [Z.eqb]. rewrite bind_Ret.
  rewrite (lt_num 0 b 0 q) by done. rewrite signed_cons. set (n := q <? 0) in *.
  assert (Hn : (0 <? q) = negb n) by (unfold n; destruct (Z.ltb_spec 0 q), (Z.ltb_spec q 0); lia || done).
  rewrite Hn.
  assert (Hver : forall c, version (_append c inv ks) = version ks) by done. rewrite Hver.
  assert (Hct : forall z, Ret (_append64 z (if negb n then inv else negb inv)
      (_append (if negb n then CType.kNumericPositiveLargeMagnitude else CType.kNumericNegativeLargeMagnitude) inv ks)) =
    Ret (E := ks_error) (put inv ((if n then 82 - 51 else 51) :: flip_if n (be_encode 8 z)) ks)).
  { intros z. replace (if negb n then inv else negb inv) with (if n then negb inv else inv) by (by destruct n).
    rewrite append64_sign by (by destruct n). by destruct n. }
  rewrite Hct. pose proof (large_pattern m Hm) as Hpat. rewrite Em in Hpat. specialize (Hpat Hl).
  do 4 f_equal. f_equal. destruct (version ks); cbn [large_code].
  - by rewrite decide_True.
  - rewrite decide_False by done. unfold isfinite. fold m.
    destruct (Z.ltb_spec m inf), (Z.eqb_spec m inf); try lia.
    rewrite Z.lor_0_r, Z.shiftl_mul_pow2 by lia.
    assert (E : wrapu 64 (b * 2 ^ 1) = 2 * m).
    { unfold wrapu. rewrite Hp. unfold with_sign. destruct n.
      - replace ((m + 2 ^ 63) * 2 ^ 1) with (2 * m + 1 * 2 ^ 64) by lia. rewrite Z.mod_add, Z.mod_small by lia. done.
      - rewrite Z.mod_small by lia. lia. }
    rewrite E, <- Z.ldiff_land, Z.shiftl_1_l.
    rewrite Z.sub_nocarry_ldiff; [done|]. apply Z.bits_inj'. intros i Hi. rewrite Z.ldiff_spec, Z.bits_0.
    destruct (Z.eq_dec i 63) as [->|]; [|by rewrite Z.pow2_bits_false by lia].
    replace (Z.testbit (2 * m) 63) with true; [by rewrite andb_false_r|].
    symmetry. apply Z.testbit_true; [lia|].
    replace (2 * m / 2 ^ 63) with 1; [done|]. apply Z.div_unique with (2 * m - 2 ^ 63); lia.
Qed.

(** The low bits of an integer part do not change its number of bytes. *)
Lemma int_len_odd (ip : Z) : 0 < ip -> int_len (2 * ip + 1) = int_len (2 * ip).
Proof. intros H. unfold int_len. by rewrite Z.log2_succ_double, Z.log2_double by lia. Qed.

Lemma frac_bytes_count (ip : Z) : 0 < ip < 2 ^ 53 ->
  countLeadingZeros64 (wrapu 64 (Z.shiftl ip 1)) / 8 = Z.of_nat (8 - int_len (2 * ip)) /\
  (1 <= int_len (2 * ip) <= 7)%nat /\ frac_len V1 ip = (8 - int_len (2 * ip))%nat /\
  frac_bits V1 ip = 8 * Z.of_nat (8 - int_len (2 * ip)).
Proof.
  intros Hip. rewrite Z.shiftl_mul_pow2, wrapu_small by lia. replace (ip * 2 ^ 1) with (2 * ip) by lia.
  pose proof (Z.log2_nonneg ip). assert (Z.log2 ip < 53) by (apply Z.log2_lt_pow2; lia).
  unfold countLeadingZeros64. destruct (Z.eqb_spec (2 * ip) 0); [lia|].
  set (L := Z.log2 (2 * ip)). assert (HL : 0 < L < 54) by (unfold L; rewrite Z.log2_double by lia; lia).
  pose proof (Z.div_mod L 8). pose proof (Z.mod_pos_bound L 8).
  assert (HI : int_len (2 * ip) = Z.to_nat (L / 8 + 1)) by done.
  split; [|split; [lia|]].
  - rewrite HI. symmetry. apply Z.div_unique with (7 - L mod 8); lia.
  - unfold frac_len. cbn [frac_bits]. split; [|lia].
    replace (8 * (8 - Z.of_nat (int_len (2 * ip))) + 7) with (7 + (8 - Z.of_nat (int_len (2 * ip))) * 8) by lia.
    rewrite Z.div_add, Z.div_small by lia. lia.
Qed.

Lemma mod_scaled (q t : Z) : 0 <= t -> (unit | q * 2 ^ t) ->
  q * 2 ^ t / unit = q / unit * 2 ^ t + (q mod unit) * 2 ^ t / unit.
Proof.
  intros Ht Hd. pose proof unit_pos as Hu. pose proof (Z.div_mod q unit) as E.
  replace (q * 2 ^ t) with ((q mod unit) * 2 ^ t + (q / unit * 2 ^ t) * unit) by nia.
  rewrite Z.div_add by lia. lia.
Qed.

(** A number with a fraction. *)
Section fraction.
Variables m q : Z.
Hypothesis Hm : 0 <= m <= inf.
Hypothesis Es : scaled m = q.
Hypothesis Hn : num m = Some q.
Hypothesis Hq : unit <= q < 2 ^ 63 * unit.
Hypothesis Hf : q mod unit <> 0.

Lemma ip_range : 0 < q / unit < 2 ^ 53.
Proof. pose proof unit_pos. rewrite <- Es. apply frac_ip; rewrite ?Es; lia. Qed.

Lemma code_range (ver : Version) :
  0 <= (q mod unit) * 2 ^ frac_bits ver (q / unit) / unit < 256 ^ Z.of_nat (frac_len ver (q / unit)).
Proof. apply frac_code_range; [apply ip_range|]. apply Z.mod_pos_bound, unit_pos. Qed.

(** More than the bits of the mantissa leave nothing behind them. *)
Lemma scaled_exact (t : Z) : 52 - Z.log2 (q / unit) <= t -> 0 <= t ->
  (unit | q * 2 ^ t) /\ (unit | (q mod unit) * 2 ^ t).
Proof.
  intros Ht Ht0. pose proof unit_pos as Hu. assert (Hd : (unit | q * 2 ^ t)).
  { rewrite <- Es in *. apply frac_exact; [lia|lia|done|done]. }
  split; [done|]. rewrite Z.mod_eq, Z.mul_sub_distr_r by lia. apply Z.divide_sub_r; [done|].
  rewrite <- Z.mul_assoc. apply Z.divide_factor_l.
Qed.

Let ip := q / unit.
Let f := (8 - int_len (2 * ip))%nat.
Let code := (q mod unit) * 2 ^ frac_bits V1 ip / unit.

Lemma V1_shape : 55 - Z.log2 ip <= Z.of_nat f * 8 /\ 1 <= Z.of_nat f <= 7 /\
  2 ^ (Z.of_nat f * 8) = 256 ^ Z.of_nat f /\
  256 ^ Z.of_nat (int_len (2 * ip)) * 256 ^ Z.of_nat f = 2 ^ 64 /\
  2 * ip + 1 < 256 ^ Z.of_nat (int_len (2 * ip)).
Proof.
  pose proof ip_range as Hip. fold ip in Hip. destruct (frac_bytes_count ip Hip) as (_ & Hl & _ & _).
  split.
  { unfold f, int_len. rewrite Z.log2_double by lia.
    pose proof (Z.log2_nonneg ip). assert (Z.log2 ip < 53) by (apply Z.log2_lt_pow2; lia).
    pose proof (Z.div_mod (Z.succ (Z.log2 ip)) 8). pose proof (Z.mod_pos_bound (Z.succ (Z.log2 ip)) 8). lia. }
  split; [lia|]. split.
  { change 256 with (2 ^ 8). rewrite <- Z.pow_mul_r by lia. f_equal. lia. }
  split.
  { rewrite <- Z.pow_add_r by lia. replace (Z.of_nat (int_len (2 * ip)) + Z.of_nat f) with 8 by lia. done. }
  destruct (int_len_bounds (2 * ip + 1)) as [_ H]; [lia|]. rewrite int_len_odd in H by lia. lia.
Qed.

(** The two bits of the continuation marker are free. *)
Lemma code_low_bits : (4 | code).
Proof.
  destruct V1_shape as (Hlog & Hf7 & _). pose proof unit_pos as Hu.
  destruct (frac_bytes_count ip ip_range) as (_ & _ & _ & Hfb). fold f in Hfb.
  destruct (scaled_exact (Z.of_nat f * 8 - 2)) as [_ [w Hw]]; [fold ip; lia|lia|].
  exists w. unfold code. rewrite Hfb.
  replace (8 * Z.of_nat f) with (2 + (Z.of_nat f * 8 - 2)) by lia. rewrite Z.pow_add_r by lia.
  replace (q mod unit * (2 ^ 2 * 2 ^ (Z.of_nat f * 8 - 2))) with (4 * w * unit) by lia.
  rewrite Z.div_mul by lia. lia.
Qed.

Lemma encoding_V1 :
  wrapu 64 (wrapu 64 (trunc (scale m (Z.of_nat f * 8))) + Z.shiftl (ip + 1) (Z.of_nat f * 8)) =
  (2 * ip + 1) * 256 ^ Z.of_nat f + code.
Proof.
  destruct V1_shape as (Hlog & Hf7 & E256 & H64 & Hip2). pose proof unit_pos as Hu.
  destruct (frac_bytes_count ip ip_range) as (_ & _ & Hfl & Hfb). fold f in Hfl, Hfb.
  pose proof (code_range V1) as Hcode. fold ip code in Hcode. rewrite Hfl in Hcode.
  pose proof ip_range as Hip. fold ip in Hip.
  assert (Hp : 0 < 256 ^ Z.of_nat f) by (apply Z.pow_pos_nonneg; lia).
  destruct (scale_up m q (Z.of_nat f * 8)) as (_ & _ & Ns); [done|done|lia| |].
  { apply Z.lt_le_trans with (2 ^ 63 * unit * 2 ^ 56); [|by vm_compute].
    apply Z.le_lt_trans with (q * 2 ^ 56); [|apply Z.mul_lt_mono_pos_r; lia].
    apply Z.mul_le_mono_nonneg_l; [lia|]. apply Z.pow_le_mono_r; lia. }
  destruct (scaled_exact (Z.of_nat f * 8)) as [Hdiv _]; [fold ip; lia|lia|].
  rewrite (trunc_num _ _ Ns) by (apply Z.mul_nonneg_nonneg; lia).
  rewrite mod_scaled by (done || lia). fold ip. rewrite Z.shiftl_mul_pow2, E256 by lia.
  assert ((q mod unit) * 256 ^ Z.of_nat f / unit = code) as ->.
  { unfold code. rewrite Hfb, <- E256. do 2 f_equal. f_equal. lia. }
  assert (ip * 256 ^ Z.of_nat f + code + (ip + 1) * 256 ^ Z.of_nat f < 2 ^ 64) by nia.
  rewrite (wrapu_small 64 (ip * _ + code)), wrapu_small by lia. lia.
Qed.

Lemma fraction_code_V1 :
  let e := wrapu 64 (wrapu 64 (trunc (scale m (Z.of_nat f * 8))) + Z.shiftl (ip + 1) (Z.of_nat f * 8)) in
  Z.land e 3 = 0 /\ be_encode 8 e = be_encode (int_len (2 * ip + 1)) (2 * ip + 1) ++ be_encode f code.
Proof.
  cbn zeta. rewrite encoding_V1. destruct V1_shape as (_ & Hf7 & E256 & _ & _).
  pose proof (code_range V1) as Hcode. destruct (frac_bytes_count ip ip_range) as (_ & Hl & Hfl & _).
  fold ip f code in Hfl, Hcode. rewrite Hfl in Hcode. split.
  - change 3 with (Z.ones 2). rewrite Z.land_ones by lia. apply Z.mod_divide; [lia|].
    apply Z.divide_add_r; [|apply code_low_bits]. apply Z.divide_mul_r.
    exists (2 ^ (Z.of_nat f * 8 - 2)). rewrite <- E256.
    rewrite <- Z.pow_add_r by lia. f_equal. lia.
  - rewrite int_len_odd by apply ip_range. replace 8%nat with (int_len (2 * ip) + f)%nat by lia.
    by apply be_encode_app.
Qed.

(** Version 0 keeps the bits of the mantissa. *)
Lemma mantissa_V0 : let t := frac_bits V0 ip in
  let code0 := (q mod unit) * 2 ^ t / unit in
  0 <= t <= 52 /\ m mod 2 ^ t = code0 /\ 0 <= code0 < 2 ^ t /\
  m = (Z.log2 ip + 1023) * 2 ^ 52 + (ip * 2 ^ t + code0) - 2 ^ 52.
Proof.
  intros t code0. pose proof ip_range as Hip. fold ip in Hip. pose proof unit_pos as Hu.
  pose proof (Z.log2_nonneg ip). assert (Z.log2 ip < 53) by (apply Z.log2_lt_pow2; lia).
  assert (Ht : 0 <= t <= 52) by (unfold t; cbn [frac_bits]; lia). split; [done|].
  destruct (pattern_split m) as (e & f0 & He & Hf0 & Em); [lia|].
  rewrite Em, scaled_at in Es by lia. destruct (Z.eqb_spec e 0) as [->|He0].
  { assert (2 ^ 52 < unit) by by vm_compute. lia. }
  assert (Hlog : Z.log2 ip = e - 1023).
  { unfold ip, unit. rewrite <- Z.shiftr_div_pow2, Z.log2_shiftr by lia.
    rewrite <- Es, Z.log2_mul_pow2 by lia. replace (Z.log2 (2 ^ 52 + f0)) with 52 by (symmetry; apply Z.log2_unique; lia).
    assert (1074 <= 52 + (e - 1)); [|lia].
    destruct (Z.le_gt_cases 1074 (52 + (e - 1))) as [|Hgt]; [done|].
    assert (q < 2 ^ (53 + (e - 1))).
    { rewrite <- Es, Z.pow_add_r by lia. apply Z.mul_lt_mono_pos_r; [apply Z.pow_pos_nonneg|]; lia. }
    assert (2 ^ (53 + (e - 1)) <= unit) by (apply Z.pow_le_mono_r; lia). lia. }
  assert (Et : t = 1075 - e) by (unfold t; cbn [frac_bits]; lia).
  assert (Eq : q * 2 ^ t = (2 ^ 52 + f0) * unit).
  { rewrite <- Es, <- Z.mul_assoc, <- Z.pow_add_r by lia. f_equal. unfold unit. f_equal. lia. }
  assert (Ec : q * 2 ^ t / unit = 2 ^ 52 + f0) by (rewrite Eq, Z.div_mul; lia).
  rewrite mod_scaled in Ec by (lia || (rewrite Eq; apply Z.divide_factor_r)). fold ip code0 in Ec.
  assert (0 < 2 ^ t) by (apply Z.pow_pos_nonneg; lia).
  assert (0 <= code0 < 2 ^ t).
  { pose proof (Z.mod_pos_bound q unit). split; [apply Z.div_pos; [apply Z.mul_nonneg_nonneg|]; lia|].
    apply Z.div_lt_upper_bound; [lia|]. apply Z.mul_lt_mono_pos_r; lia. }
  assert (E52 : 2 ^ 52 = 2 ^ (52 - t) * 2 ^ t) by (rewrite <- Z.pow_add_r by lia; f_equal; lia).
  split; [|split; [done|rewrite Em; lia]].
  symmetry. apply Z.mod_unique with (e * 2 ^ (52 - t) + ip - 2 ^ (52 - t)); [lia|]. rewrite Em. nia.
Qed.

End fraction.

(** The mask that keeps the fractional bits. *)
Lemma fraction_mask (b t : Z) : 0 <= t <= 52 ->
  Z.land b (wrapu 64 (Z.lnot (Z.shiftl (2 ^ 64 - 1) t))) = b mod 2 ^ t.
Proof.
  intros Ht. rewrite <- Z.land_ones by lia. f_equal. unfold wrapu, Z.lnot. rewrite Z.shiftl_mul_pow2, Z.ones_equiv by lia.
  assert (0 < 2 ^ t) by (apply Z.pow_pos_nonneg; lia).
  assert (2 ^ t <= 2 ^ 52) by (apply Z.pow_le_mono_r; lia).
  symmetry. apply Z.mod_unique with (- 2 ^ t); [lia|]. lia.
Qed.

(** What version 0 appends to the integer part. *)
Lemma fraction_V0_put (b m q : Z) (n inv : bool) ks : 0 <= m <= inf -> b = with_sign n m -> scaled m = q ->
  unit <= q < 2 ^ 63 * unit -> q mod unit <> 0 ->
  let ip := q / unit in
  let t := wrapu 64 (53 - (64 - countLeadingZeros64 ip)) in
  let mantissa := Z.land b (wrapu 64 (Z.lnot (Z.shiftl (2 ^ 64 - 1) t))) in
  _appendBytes (drop (8 - Z.to_nat (wrapu 64 (t + 7) / 8)) (be_encode 8 mantissa))
    (if n then negb inv else inv) (_appendPreshiftedIntegerPortion (Z.lor (2 * ip) 1) n inv ks) =
  put inv (signed n (int_bytes (2 * ip + 1) ++
             be_encode (frac_len V0 ip) (q mod unit * 2 ^ frac_bits V0 ip / unit))) ks.
Proof.
  intros Hm Hp Em Hr Hz ip t0 mantissa. pose proof (ip_range m q Hm Em Hr Hz) as Hip. fold ip in Hip.
  destruct (mantissa_V0 m q Hm Em Hr Hz) as (Ht & Emant & _). fold ip in Ht, Emant.
  pose proof (code_range m q Hm Em Hr Hz V0) as Hc. fold ip in Hc.
  set (t := frac_bits V0 ip) in *.
  assert (Hfb : t0 = t).
  { unfold t0, countLeadingZeros64. destruct (Z.eqb_spec ip 0); [lia|].
    rewrite wrapu_small; unfold t in *; cbn [frac_bits] in *; lia. }
  unfold mantissa. rewrite Hfb, fraction_mask by done.
  replace (Z.lor (2 * ip) 1) with (2 * ip + 1).
  2:{ rewrite Z.lor_comm, Z.add_comm. replace (2 * ip) with (Z.shiftl ip 1) by (rewrite Z.shiftl_mul_pow2; lia).
      rewrite lor_add by lia. rewrite Z.shiftl_mul_pow2; lia. }
  rewrite preshifted_put by lia. rewrite (wrapu_small 64 (t + 7)) by lia.
  assert (Hbm : b mod 2 ^ t = m mod 2 ^ t).
  { rewrite Hp. unfold with_sign. destruct n; [|done].
    replace (2 ^ 63) with (2 ^ (63 - t) * 2 ^ t) by (rewrite <- Z.pow_add_r by lia; f_equal; lia).
    apply Z.mod_add. apply Z.pow_nonzero; lia. }
  rewrite Hbm, Emant. change (Z.to_nat ((t + 7) / 8)) with (frac_len V0 ip) in *.
  assert (frac_len V0 ip <= 8)%nat.
  { unfold frac_len. fold t. pose proof (Z.div_mod (t + 7) 8). pose proof (Z.mod_pos_bound (t + 7) 8). lia. }
  rewrite be_encode_drop, appendBytes_sign, put_put by (done || apply be_encode_ok). f_equal.
  unfold int_bytes. cbn [app]. by rewrite !signed_cons, flip_if_app.
Qed.

(** What version 1 writes. *)
Lemma fraction_V1_put (m q : Z) (n inv : bool) ks : 0 <= m <= inf -> scaled m = q -> num m = Some q ->
  unit <= q < 2 ^ 63 * unit -> q mod unit <> 0 ->
  let ip := q / unit in
  let f := countLeadingZeros64 (2 * ip) / 8 in
  let e := wrapu 64 (wrapu 64 (trunc (scale m (f * 8))) + Z.shiftl (ip + 1) (f * 8)) in
  Z.land e 3 = 0 /\
  _append64 e (if n then negb inv else inv)
    (_append (if n then CType.kNumericNegative8ByteInt + f else CType.kNumericPositive8ByteInt - f) inv ks) =
  put inv (signed n (int_bytes (2 * ip + 1) ++
             be_encode (frac_len V1 ip) (q mod unit * 2 ^ frac_bits V1 ip / unit))) ks.
Proof.
  intros Hm Em Nm Hr Hz ip f e. pose proof (ip_range m q Hm Em Hr Hz) as Hip. fold ip in Hip.
  destruct (frac_bytes_count ip Hip) as (Hfc & Hl & Hfl & _).
  rewrite Z.shiftl_mul_pow2, wrapu_small in Hfc by lia. replace (ip * 2 ^ 1) with (2 * ip) in Hfc by lia.
  destruct (fraction_code_V1 m q Hm Em Nm Hr Hz) as [Hland Hbytes]. fold ip in Hland, Hbytes.
  rewrite <- Hfc in Hland, Hbytes. fold f in Hland, Hbytes, Hfc. split; [done|].
  rewrite append64_sign.
  2:{ unfold CType.kNumericNegative8ByteInt, CType.kNumericPositive8ByteInt, CType.kNumeric. destruct n; lia. }
  f_equal. rewrite Hfl. unfold e. rewrite Hbytes. unfold int_bytes. cbn [app]. rewrite signed_cons. f_equal.
  rewrite int_len_odd by lia.
  unfold CType.kNumericNegative8ByteInt, CType.kNumericPositive8ByteInt, CType.kNumeric. destruct n; lia.
Qed.

Lemma num_min_large : num kMinLargeDouble = Some (2 ^ 63 * unit).
Proof. by vm_compute. Qed.
Lemma num_one : num (of_Z 1) = Some unit.
Proof. by vm_compute. Qed.

(** Numbers from 1 to 2^63. *)
Lemma middle_put (b q : Z) (inv : bool) ks : 0 <= b < 2 ^ 64 -> num b = Some q ->
  unit <= Z.abs q < 2 ^ 63 * unit ->
  _appendDoubleWithoutTypeBits b kDCMEqualToDouble inv ks =
    Ret (put inv (signed (q <? 0) (pos_bytes (version ks) (q <? 0) (Z.abs q) (magnitude b))) ks).
Proof.
  intros Hb Hq Hr. pose proof unit_pos as Hu.
  destruct (num_parts b q Hb Hq) as (Hm & Em & Nm & _ & Hp & Hneg); [lia|].
  set (m := magnitude b) in *. unfold _appendDoubleWithoutTypeBits.
  rewrite (lt_num b 0 q 0), Hneg by done. set (n := q <? 0) in *.
  rewrite (le_num _ _ _ _ num_one Nm), (lt_num _ _ _ _ Nm num_min_large), (trunc_num m (Z.abs q)) by (done || lia).
  set (Q := Z.abs q) in *. rewrite of_Z_integer_part by (done || lia).
  unfold kDCMEqualToDouble. cbn [Z.eqb]. unfold pos_bytes.
  destruct (Z.leb_spec unit Q), (Z.ltb_spec Q (2 ^ 63 * unit)), (Z.ltb_spec Q unit); try lia.
  cbn [negb]. rewrite andb_true_r.
  assert (Hip0 : 0 < Q / unit) by (apply Z.div_str_pos; lia).
  assert (Hip63 : Q / unit < 2 ^ 63) by (apply Z.div_lt_upper_bound; lia).
  assert (Hsh : wrapu 64 (Z.shiftl (Q / unit) 1) = 2 * (Q / unit)).
  { rewrite Z.shiftl_mul_pow2, wrapu_small by lia. lia. }
  rewrite Hsh. destruct (Z.eqb_spec (Q mod unit) 0) as [Hz|Hz].
  { by rewrite preshifted_put by lia. }
  destruct (version ks) eqn:Ever.
  - rewrite decide_True by done. cbn [verify]. rewrite bind_Ret. f_equal. by apply fraction_V0_put with (m := m).
  - rewrite decide_False by done.
    destruct (fraction_V1_put m Q n inv ks Hm Em Nm Hr Hz) as [Hland Hbytes].
    rewrite Hland. cbn [Z.eqb verify]. rewrite bind_Ret, Z.lor_0_r. f_equal. exact Hbytes.
Qed.

(** Every double. *)
Lemma double_put (b : Z) (inv : bool) ks : 0 <= b < 2 ^ 64 ->
  _appendDoubleWithoutTypeBits b kDCMEqualToDouble inv ks =
    Ret (put inv (num_bytes (version ks) (num b) (magnitude b)) ks).
Proof.
  intros Hb. pose proof unit_pos as Hu. destruct (num b) as [q|] eqn:Hq.
  2:{ unfold _appendDoubleWithoutTypeBits.
      destruct (nan_compare b 0 Hq) as (-> & -> & -> & _). destruct (nan_compare b (of_Z 1) Hq) as (_ & _ & _ & ->).
      cbn [negb]. rewrite CmpLemmas.num_isnan, Hq, bool_decide_eq_true_2 by done. cbn [verify].
      rewrite bind_Ret, append_put by done. done. }
  destruct (Z.eq_dec q 0) as [->|H0].
  { unfold _appendDoubleWithoutTypeBits. rewrite (lt_num b 0 0 0), Z.ltb_irrefl by done.
    rewrite (le_num _ _ _ _ num_one Hq), (lt_num 0 b 0 0), (eq_num b 0 0 0) by done.
    destruct (Z.leb_spec unit 0); [lia|]. cbn [negb Z.ltb Z.compare Z.eqb]. by rewrite append_put. }
  rewrite num_bytes_signed by done.
  destruct (Z.lt_ge_cases (Z.abs q) unit) as [Hs|Hs].
  - unfold _appendDoubleWithoutTypeBits. destruct (num_parts b q Hb Hq H0) as (_ & _ & Nm & _ & _ & Hneg).
    rewrite (lt_num b 0 q 0), Hneg by done.
    rewrite (le_num _ _ _ _ num_one Nm), (lt_num _ _ _ _ num_0 Nm).
    destruct (Z.leb_spec unit (Z.abs q)), (Z.ltb_spec 0 (Z.abs q)); try lia. cbn [negb].
    rewrite (small_put b q) by done. unfold pos_bytes. destruct (Z.ltb_spec (Z.abs q) unit); [done|lia].
  - destruct (Z.lt_ge_cases (Z.abs q) (2 ^ 63 * unit)); [by apply middle_put|].
    unfold _appendDoubleWithoutTypeBits. destruct (num_parts b q Hb Hq H0) as (_ & _ & Nm & _ & _ & Hneg).
    rewrite (lt_num b 0 q 0), Hneg by done.
    rewrite (le_num _ _ _ _ num_one Nm), (lt_num _ _ _ _ Nm num_min_large).
    destruct (Z.leb_spec unit (Z.abs q)), (Z.ltb_spec (Z.abs q) (2 ^ 63 * unit)); try lia. cbn [negb].
    rewrite (large_put b q) by done. unfold pos_bytes.
    destruct (Z.ltb_spec (Z.abs q) unit), (Z.ltb_spec (Z.abs q) (2 ^ 63 * unit)); try lia. done.
Qed.

(** Every integer. *)
Lemma integer_put (k : Z) (inv : bool) ks : - 2 ^ 63 <= k < 2 ^ 63 ->
  _appendInteger k inv ks =
    Ret (put inv (num_bytes (version ks) (Some (k * unit)) (magnitude (of_Z k))) ks).
Proof.
  intros Hk. pose proof unit_pos as Hu. unfold _appendInteger. destruct (Z.eqb_spec k (- 2 ^ 63)) as [->|Hne].
  { assert (0 <= of_Z (- 2 ^ 63) < 2 ^ 64) by by vm_compute.
    assert (num (of_Z (- 2 ^ 63)) = Some (- 2 ^ 63 * unit)) as Hq by by vm_compute.
    rewrite (large_put _ _ inv ks H Hq) by lia. unfold num_bytes, pos_bytes, signed.
    destruct (Z.eqb_spec (- 2 ^ 63 * unit) 0), (Z.ltb_spec (- 2 ^ 63 * unit) 0),
      (Z.ltb_spec (- (- 2 ^ 63 * unit)) unit), (Z.ltb_spec (- (- 2 ^ 63 * unit)) (2 ^ 63 * unit)); try lia. done. }
  cbn [num_bytes]. destruct (Z.eqb_spec k 0) as [->|H0].
  { rewrite Z.mul_0_l. cbn [Z.eqb]. by rewrite append_put. }
  destruct (Z.eqb_spec (k * unit) 0) as [|_]; [nia|].
  assert (Hlt : (k * unit <? 0) = (k <? 0)) by (destruct (Z.ltb_spec (k * unit) 0), (Z.ltb_spec k 0); nia || done).
  rewrite Hlt.
  assert (Hpos : forall n i m, 0 < i < 2 ^ 63 -> pos_bytes (version ks) n (i * unit) m = int_bytes (2 * i)).
  { intros n i m Hi. unfold pos_bytes. rewrite Z.div_mul, Z.mod_mul by lia.
    destruct (Z.ltb_spec (i * unit) unit); [nia|]. destruct (Z.ltb_spec (i * unit) (2 ^ 63 * unit)); [done|nia]. }
  assert (Hsh : forall i, 0 < i < 2 ^ 63 -> wrapu 64 (Z.shiftl (wrapu 64 i) 1) = 2 * i).
  { intros i Hi. rewrite (wrapu_small 64 i), Z.shiftl_mul_pow2, wrapu_small by lia. lia. }
  destruct (Z.ltb_spec k 0).
  - rewrite Hsh, preshifted_put by lia. rewrite <- Z.mul_opp_l, Hpos by lia. done.
  - rewrite Hsh, preshifted_put, Hpos by lia. done.
Qed.

(** *** Strings and the other leaves *)

Lemma strnlen_le (s : bytes) : (strnlen s <= length s)%nat.
Proof. induction s as [|c s IH]; cbn; [lia|]. destruct (c =? 0); lia. Qed.
Lemma strnlen_esc (s : bytes) :
  esc s = take (strnlen s) s ++
    (if (strnlen s =? length s)%nat then [] else [0; 255] ++ esc (drop (strnlen s + 1) s)).
Proof.
  induction s as [|c s IH]; [done|]. unfold esc in *. cbn [List.map List.concat strnlen].
  destruct (Z.eqb_spec c 0) as [->|]; [done|]. rewrite IH. cbn [length take drop Nat.add Nat.eqb app]. done.
Qed.
Lemma strnlen_not (s : bytes) : 0 ∉ s -> strnlen s = length s.
Proof.
  induction s as [|c s IH]; [done|]. intros [? H]%not_elem_of_cons. cbn.
  destruct (Z.eqb_spec c 0); [lia|]. f_equal. auto.
Qed.

Lemma stringlike_loop (fuel : nat) (s : bytes) (inv : bool) ks : bytes_ok s -> (length s < fuel)%nat ->
  _appendStringLike fuel s inv ks = Ret (put inv (str_bytes s) ks).
Proof.
  revert s ks. induction fuel as [|fuel IH]; intros s ks Hs Hf; [lia|]. cbn [_appendStringLike].
  rewrite appendBytes_put by (by apply Forall_take). unfold str_bytes. rewrite (strnlen_esc s).
  destruct (Nat.eqb_spec (strnlen s) (length s)) as [E|E].
  - rewrite append_put, put_put, app_nil_r by done. done.
  - pose proof (strnlen_le s). rewrite appendBytes_put, IH.
    + rewrite !put_put. unfold str_bytes. by rewrite <- !app_assoc.
    + by apply Forall_drop.
    + rewrite length_drop. lia.
    + repeat constructor; done.
Qed.
Lemma stringlike_put (s : bytes) (inv : bool) ks : bytes_ok s ->
  appendStringLike s inv ks = Ret (put inv (str_bytes s) ks).
Proof. intros H. apply stringlike_loop; [done|lia]. Qed.

Lemma date_code (n : Z) : - 2 ^ 63 <= n < 2 ^ 63 -> Z.lxor (wrapu 64 n) (Z.shiftl 1 63) = n + 2 ^ 63.
Proof.
  intros Hn. change (Z.shiftl 1 63) with (2 ^ 63). fold (neg (wrapu 64 n)).
  destruct (Z.lt_ge_cases n 0).
  - replace (wrapu 64 n) with (with_sign true (n + 2 ^ 63)); [by rewrite neg_with_sign by lia|].
    unfold with_sign, wrapu. apply Z.mod_unique with (-1); lia.
  - rewrite wrapu_small by lia. apply (neg_with_sign false). lia.
Qed.

Lemma put_append2 c bs inv ks : 0 <= c < 256 -> bytes_ok bs ->
  _appendBytes bs inv (_append c inv ks) = put inv (c :: bs) ks.
Proof. intros Hc Hb. by rewrite appendBytes_put, append_put, put_put. Qed.

(** The values that add no type bits and have no nested values. *)
Lemma bindata_put t d inv ks : byte_ok t -> bytes_ok d -> Z.of_nat (length d) < 2 ^ 31 ->
  _appendBinData t d inv ks = put inv (kbytes (version ks) (VBinData t d)) ks.
Proof.
  intros Ht Hd Hl. unfold _appendBinData. cbn [kbytes]. rewrite put_append2 by done.
  destruct (Z.ltb_spec (Z.of_nat (length d)) 255).
  - rewrite !append_put, !put_put by (done || lia). done.
  - unfold _append32. rewrite wraps_small by lia. rewrite put_append2 by (done || apply be_encode_ok).
    rewrite append_put, !put_put by done. done.
Qed.
Lemma regex_put p f inv ks : name_ok p -> name_ok f ->
  _appendRegex p f inv ks = put inv (kbytes (version ks) (VRegEx p f)) ks.
Proof.
  intros [Hp _] [Hf _]. unfold _appendRegex. cbn [kbytes].
  rewrite put_append2, !append_put, appendBytes_put, !put_put by done.
  done.
Qed.
Lemma dbref_put ns oid inv ks : bytes_ok ns -> bytes_ok oid -> 0 ∉ ns -> Z.of_nat (length ns) < 2 ^ 31 ->
  _appendDBRef (c_str ns) oid inv ks = put inv (kbytes (version ks) (VDBRef ns oid)) ks.
Proof.
  intros Hn Ho H0 Hl. unfold _appendDBRef, c_str. cbn [kbytes]. rewrite strnlen_not, take_ge by done.
  rewrite wraps_small by lia. unfold _append32. rewrite put_append2 by (done || apply be_encode_ok).
  rewrite !appendBytes_put, !put_put by done. done.
Qed.

(** *** Type bits *)

(** The bits a value adds. *)
Fixpoint kbits (ver : Version) (v : value) : list bool :=
  let all := fun fs : list field => List.concat (List.map (fun f : field =>
    match f with (_, w) => kbits ver w end) fs) in
  match v with
  | VString _ => [false]
  | VSymbol _ => [true]
  | VInt _ => [false; false]
  | VLong _ => [false; true]
  | VDouble raw =>
      if Dbl.eq (le_decode raw) 0 && Dbl.signbit (le_decode raw) then
        match ver with V0 => [true; true] | V1 => [true; true; false; false; false] end
      else [true; false]
  | VObject fs | VArray fs | VCodeWScope _ fs => all fs
  | _ => []
  end.
Definition fields_bits (ver : Version) (fs : list field) : list bool :=
  List.concat (List.map (fun f : field => match f with (_, w) => kbits ver w end) fs).

(** The state with the type bits [bits]. *)
Definition state (ver : Version) (ks : KeyString) (bits : list bool) : Prop :=
  version ks = ver /\ TB.version (_typeBits ks) = ver /\ Bits.rep (_typeBits ks) bits.

(** An operation that adds [bits] and the bytes [bs]. *)
Definition writes (ver : Version) (inv : bool) (bs : bytes) (bits : list bool)
    (f : KeyString -> outcome ks_error KeyString) : Prop :=
  forall ks b0, state ver ks b0 -> Bits.fits (b0 ++ bits) ->
  exists ks', f ks = Ret ks' /\ state ver ks' (b0 ++ bits) /\ _buffer ks' = _buffer ks ++ flip_if inv bs.

Definition adds (ver : Version) (bits : list bool) (f : TB.TypeBits -> outcome ks_error TB.TypeBits) : Prop :=
  forall t b0, TB.version t = ver -> Bits.rep t b0 -> Bits.fits (b0 ++ bits) ->
  exists t', f t = Ret t' /\ TB.version t' = ver /\ Bits.rep t' (b0 ++ bits).

Lemma adds_bit ver (b : bool) (z : Z) : z = Z.b2z b -> adds ver [b] (TB.appendBit z).
Proof.
  intros -> t b0 Hv Hr Hf. destruct (Bits.appendBit_rep t b0 b Hr Hf) as (t' & H1 & H2 & H3).
  exists t'. split; [done|]. split; [congruence|done].
Qed.
Lemma adds_bind ver a b f g : adds ver a f -> adds ver b g -> adds ver (a ++ b) (fun t => t ← f t; g t).
Proof.
  intros Hf Hg t b0 Hv Hr Hfit. rewrite app_assoc in Hfit.
  destruct (Hf t b0 Hv Hr) as (t1 & -> & Hv1 & Hr1).
  { unfold Bits.fits in *. solve_length. }
  rewrite bind_Ret. destruct (Hg t1 (b0 ++ a) Hv1 Hr1 Hfit) as (t2 & -> & Hv2 & Hr2).
  exists t2. by rewrite app_assoc.
Qed.
Lemma adds_nil ver : adds ver [] (fun t => Ret t).
Proof. intros t b0 Hv Hr _. exists t. by rewrite app_nil_r. Qed.

Lemma writes_ext ver inv bs bits f g : (forall ks, version ks = ver -> f ks = g ks) ->
  writes ver inv bs bits g -> writes ver inv bs bits f.
Proof. intros E H ks b0 Hs Hf. rewrite (E ks) by apply Hs. by apply H. Qed.
Lemma writes_put ver inv bs f : (forall ks, version ks = ver -> f ks = Ret (put inv bs ks)) ->
  writes ver inv bs [] f.
Proof.
  intros E ks b0 Hs _. exists (put inv bs ks). rewrite E by apply Hs. by rewrite app_nil_r.
Qed.
Lemma writes_bind ver inv a b x y f g : writes ver inv a x f -> writes ver inv b y g ->
  writes ver inv (a ++ b) (x ++ y) (fun ks => ks ← f ks; g ks).
Proof.
  intros Hf Hg ks b0 Hs Hfit. rewrite app_assoc in Hfit.
  destruct (Hf ks b0 Hs) as (k1 & -> & Hs1 & Hb1).
  { unfold Bits.fits in *. solve_length. }
  rewrite bind_Ret. destruct (Hg k1 _ Hs1 Hfit) as (k2 & -> & Hs2 & Hb2).
  exists k2. rewrite app_assoc. split; [done|]. split; [done|].
  by rewrite Hb2, Hb1, <- app_assoc, flip_if_app.
Qed.
(** A pure step before an operation. *)
Lemma writes_after ver inv a b y (p : KeyString -> KeyString) g :
  (forall ks, p ks = put inv a ks) -> writes ver inv b y g -> writes ver inv (a ++ b) y (fun ks => g (p ks)).
Proof.
  intros Ep Hg. apply (writes_ext ver inv _ _ _ (fun ks => ks ← Ret (put inv a ks); g ks)).
  { intros ks _. by rewrite bind_Ret, Ep. }
  apply (writes_bind ver inv a b [] y); [|done]. by apply writes_put.
Qed.
Lemma writes_bits ver inv bits f : adds ver bits f -> writes ver inv [] bits (on_typeBits f).
Proof.
  intros Hf ks b0 (Hv & Hv' & Hr) Hfit. unfold on_typeBits.
  destruct (Hf _ _ Hv' Hr Hfit) as (t & -> & Hvt & Hrt). rewrite bind_Ret.
  eexists. split; [done|]. split; [by split|]. destruct inv; by rewrite app_nil_r.
Qed.

Lemma adds_zero ver : adds ver (match ver with V0 => [true; true] | V1 => [true; true; false; false; false] end)
  (TB.appendZero TB.kNegativeDoubleZero).
Proof.
  destruct ver.
  - intros t b0 Hv Hr Hf. unfold TB.appendZero. cbn [Z.eqb TB.kNegativeDoubleZero TB.kInt TB.kDouble TB.kLong orb].
    rewrite Hv, decide_True by done. by apply (adds_bind V0 [true] [true] (TB.appendBit 1) (TB.appendBit 1));
      [by apply adds_bit..|done|done|].
  - intros t b0 Hv Hr Hf. unfold TB.appendZero. cbn [Z.eqb TB.kNegativeDoubleZero TB.kInt TB.kDouble TB.kLong orb].
    rewrite Hv, decide_False by done.
    assert (adds V1 [true; true; false; false; false] (TB.appendBits 5 TB.kV1NegativeDoubleZero)) as Ha; [|by apply Ha].
    change [true; true; false; false; false] with ([true] ++ [true] ++ [false] ++ [false] ++ [false] ++ []).
    repeat (apply adds_bind; [by apply adds_bit|]). apply adds_nil.
Qed.

(** *** Values *)
Section values.
Variable dec : bytes -> bool -> KeyString -> outcome ks_error KeyString.
Variable ver : Version.
Variable inv : bool.

(** The loops over the fields of an object and of an array, as functions of their own. *)
Fixpoint bson_loop (obj : list field) (ks : KeyString) : outcome ks_error KeyString :=
  match obj with
  | [] => Ret (_append 0 inv ks)
  | (n, e) :: obj' =>
      ks ← _appendBsonValue dec e inv (Some n) (_append (bsonTypeToGenericKeyStringType e) inv ks);
      bson_loop obj' ks
  end.
Fixpoint array_loop (arr : list field) (ks : KeyString) : outcome ks_error KeyString :=
  match arr with
  | [] => Ret (_append 0 inv ks)
  | (_, e) :: arr' => ks ← _appendBsonValue dec e inv None ks; array_loop arr' ks
  end.

Definition put_name (name : option bytes) (ks : KeyString) : KeyString :=
  match name with Some n => _appendBytes (n ++ [0]) inv ks | None => ks end.
Definition name_bytes (name : option bytes) : bytes := match name with Some n => n ++ [0] | None => [] end.

Lemma appendBsonValue_object fs name ks : _appendBsonValue dec (VObject fs) inv name ks =
  bson_loop fs (_append CType.kObject inv (put_name name ks)).
Proof. done. Qed.
Lemma appendBsonValue_array fs name ks : _appendBsonValue dec (VArray fs) inv name ks =
  array_loop fs (_append CType.kArray inv (put_name name ks)).
Proof. done. Qed.
Lemma appendBsonValue_scope code fs name ks : _appendBsonValue dec (VCodeWScope code fs) inv name ks =
  ks ← appendStringLike code inv (_append CType.kCodeWithScope inv (put_name name ks)); bson_loop fs ks.
Proof.
  cbn [_appendBsonValue]. fold (put_name name ks).
  by destruct (appendStringLike _ _ _).
Qed.

Lemma put_name_put name ks : match name with Some n => name_ok n | None => True end ->
  put_name name ks = put inv (name_bytes name) ks.
Proof.
  destruct name as [n|]; cbn; intros H.
  - apply appendBytes_put. apply Forall_app. split; [apply H|by repeat constructor].
  - unfold put. destruct ks, inv; by rewrite app_nil_r.
Qed.

(** What is shown of a value. *)
Definition encoded (v : value) : Prop := forall name,
  match name with Some n => name_ok n | None => True end -> key_ok v ->
  writes ver inv (name_bytes name ++ kbytes ver v) (kbits ver v) (_appendBsonValue dec v inv name).

Lemma bson_loop_writes (fs : list field) : Forall (fun f : field => encoded f.2) fs ->
  Forall (fun f : field => name_ok f.1 /\ key_ok f.2) fs ->
  writes ver inv (obody ver fs) (fields_bits ver fs) (bson_loop fs).
Proof.
  induction 1 as [|[n v] fs Hv _ IH]; intros Hfs.
  { apply writes_put. intros ks _. cbn [bson_loop]. by rewrite append_put. }
  apply Forall_cons in Hfs as [[Hn Hk] Hfs]. cbn [fst snd] in *. rewrite obody_cons, app_assoc.
  change (?c :: (n ++ [0]) ++ ?a) with ([c] ++ ((n ++ [0]) ++ a)).
  replace (bsonTypeToGenericKeyStringType v :: ((n ++ [0]) ++ kbytes ver v) ++ obody ver fs)
    with (([bsonTypeToGenericKeyStringType v] ++ (name_bytes (Some n) ++ kbytes ver v)) ++ obody ver fs) by done.
  change (fields_bits ver ((n, v) :: fs)) with (kbits ver v ++ fields_bits ver fs).
  apply (writes_bind ver inv _ _ _ _
    (fun ks => _appendBsonValue dec v inv (Some n) (_append (bsonTypeToGenericKeyStringType v) inv ks))); [|auto].
  apply (writes_after ver inv _ _ _ (_append (bsonTypeToGenericKeyStringType v) inv)); [|by apply Hv].
  intros ks. apply append_put. pose proof (Order.generic_range v). pose proof (Order.width_nonneg v). lia.
Qed.
Lemma array_loop_writes (fs : list field) : Forall (fun f : field => encoded f.2) fs ->
  Forall (fun f : field => name_ok f.1 /\ key_ok f.2) fs ->
  writes ver inv (abody ver fs) (fields_bits ver fs) (array_loop fs).
Proof.
  induction 1 as [|[n v] fs Hv _ IH]; intros Hfs.
  { apply writes_put. intros ks _. cbn [array_loop]. by rewrite append_put. }
  apply Forall_cons in Hfs as [[Hn Hk] Hfs]. cbn [fst snd] in *. rewrite abody_cons.
  change (fields_bits ver ((n, v) :: fs)) with (kbits ver v ++ fields_bits ver fs).
  apply (writes_bind ver inv _ _ _ _ (_appendBsonValue dec v inv None)); [|auto].
  by apply (Hv None).
Qed.

(** A step that adds bits and one that adds bytes. *)
Lemma writes_typed bits bs f g : adds ver bits f -> (forall ks, version ks = ver -> g ks = Ret (put inv bs ks)) ->
  writes ver inv bs bits (fun ks => ks ← on_typeBits f ks; g ks).
Proof.
  intros Hf Hg. rewrite <- (app_nil_r bits). change bs with ([] ++ bs) at 1.
  apply writes_bind; [by apply writes_bits|by apply writes_put].
Qed.
Lemma writes_named name bs bits v : match name with Some n => name_ok n | None => True end ->
  (forall ks, _appendBsonValue dec v inv name ks = _appendBsonValue dec v inv None (put_name name ks)) ->
  writes ver inv bs bits (_appendBsonValue dec v inv None) ->
  writes ver inv (name_bytes name ++ bs) bits (_appendBsonValue dec v inv name).
Proof.
  intros Hn E H. eapply writes_ext; [by intros ks _; apply E|].
  apply (writes_after ver inv _ _ _ (put_name name)); [|done]. intros ks. by apply put_name_put.
Qed.

Lemma number_writes v : isNumber v = true -> key_ok v ->
  writes ver inv (kbytes ver v) (kbits ver v) (_appendBsonValue dec v inv None).
Proof.
  intros Hn [Hwf Hk]. destruct v; try discriminate; try done; cbn [kbytes kbits _appendBsonValue].
  - destruct Hwf as [Hraw Hlen]. pose proof (le_decode_range raw Hraw) as Hr. rewrite Hlen in Hr.
    unfold _appendNumberDouble. set (b := le_decode raw) in *.
    destruct (Dbl.eq b 0 && Dbl.signbit b).
    + apply writes_typed; [apply adds_zero|]. intros ks <-. by apply double_put.
    + apply writes_typed; [|intros ks <-; by apply double_put].
      apply (adds_bind ver [true] [false]); by apply adds_bit.
  - apply writes_typed; [apply (adds_bind ver [false] [false]); by apply adds_bit|].
    intros ks <-. apply integer_put. cbn in Hwf. lia.
  - apply writes_typed; [apply (adds_bind ver [false] [true]); by apply adds_bit|].
    intros ks <-. by apply integer_put.
Qed.

(** Every value that the theorems are about is encoded as specified. *)
Lemma value_encoded (v : value) : encoded v.
Proof.
  induction v as [fs IH|fs IH|code fs IH|v Hleaf] using value_nested_ind; intros name Hn Hk.
  - apply writes_named; [done|by intros; rewrite !appendBsonValue_object|].
    eapply writes_ext; [intros ks _; apply appendBsonValue_object|].
    apply (writes_after ver inv [CType.kObject] _ _ (fun ks => _append CType.kObject inv ks)).
    + intros ks. by apply append_put.
    + apply bson_loop_writes; [done|]. by apply key_ok_object.
  - apply writes_named; [done|by intros; rewrite !appendBsonValue_array|].
    eapply writes_ext; [intros ks _; apply appendBsonValue_array|].
    apply (writes_after ver inv [CType.kArray] _ _ (fun ks => _append CType.kArray inv ks)).
    + intros ks. by apply append_put.
    + apply array_loop_writes; [done|]. by apply key_ok_array.
  - apply key_ok_scope in Hk as [Hc Hk].
    apply writes_named; [done|by intros; rewrite !appendBsonValue_scope|].
    eapply writes_ext; [intros ks _; apply appendBsonValue_scope|].
    change (kbits ver (VCodeWScope code fs)) with ([] ++ fields_bits ver fs).
    rewrite kbytes_scope. change (CType.kCodeWithScope :: str_bytes code ++ obody ver fs)
      with ((CType.kCodeWithScope :: str_bytes code) ++ obody ver fs).
    apply (writes_bind ver inv _ _ _ _ (fun ks => appendStringLike code inv (_append CType.kCodeWithScope inv ks))).
    + apply writes_put. intros ks _. by rewrite stringlike_put, append_put, put_put.
    + by apply bson_loop_writes.
  - apply writes_named; [done|by intros; destruct v|].
    destruct (isNumber v) eqn:N; [by apply number_writes|]. destruct Hk as [Hwf Hk].
    destruct v; try done; cbn [kbits _appendBsonValue kbytes].
    all: try (apply writes_put; intros ks _; f_equal; by rewrite append_put).
    all: try (apply writes_typed; [by apply adds_bit|]; intros ks _; by rewrite stringlike_put, append_put, put_put).
    + destruct Hwf. apply writes_put. intros ks <-. by rewrite bindata_put.
    + destruct Hwf. apply writes_put. intros ks _. unfold _appendOID. by rewrite put_append2.
    + apply writes_put. intros ks _. unfold _appendBool. by destruct b; rewrite append_put.
    + apply writes_put. intros ks _. unfold _appendDate, _append64.
      by rewrite date_code, put_append2 by (done || apply be_encode_ok).
    + destruct Hwf. apply writes_put. intros ks <-. by rewrite regex_put.
    + destruct Hwf as (? & ? & _), Hk. apply writes_put. intros ks <-. by rewrite dbref_put.
    + apply writes_put. intros ks _. unfold _appendCode. by rewrite stringlike_put, append_put, put_put.
    + apply writes_put. intros ks _. unfold _appendTimestamp, _append64.
      by rewrite put_append2 by (done || apply be_encode_ok).
Qed.

End values.

End Ref.

(** ** Keys, queries and record ids *)
Module Keys.
Import Lex Enc Ref KS.

(** The bytes of a record id: the number of extra bytes stands before and behind it. *)
Definition rid_extra (r : Z) : Z := 
  if r <? 2 ^ 10 then 0 else (Z.log2 r - 2) / 8.
Definition rid_bytes (r : Z) : bytes :=
  let e := rid_extra r in
  be_encode (Z.to_nat e + 2) (e * 2 ^ (13 + 8 * e) + 8 * r + e).

Lemma rid_extra_bounds (r : Z) : 0 <= r < 2 ^ 63 ->
  0 <= rid_extra r <= 7 /\ r < 2 ^ (10 + 8 * rid_extra r).
Proof.
  intros Hr. unfold rid_extra. destruct (Z.ltb_spec r (2 ^ 10)); [by cbn; lia|].
  assert (10 <= Z.log2 r) by (apply Z.log2_le_pow2; lia).
  assert (Z.log2 r < 63) by (apply Z.log2_lt_pow2; lia).
  pose proof (Z.div_mod (Z.log2 r - 2) 8). pose proof (Z.mod_pos_bound (Z.log2 r - 2) 8).
  split; [lia|]. apply Z.lt_le_trans with (2 ^ (Z.log2 r + 1)).
  - pose proof (Z.log2_spec r). lia.
  - apply Z.pow_le_mono_r; lia.
Qed.
Lemma rid_extra_mono (a b : Z) : 0 <= a <= b -> rid_extra a <= rid_extra b.
Proof.
  intros H. unfold rid_extra. destruct (Z.ltb_spec a (2 ^ 10)), (Z.ltb_spec b (2 ^ 10)); try lia.
  - assert (10 <= Z.log2 b) by (apply Z.log2_le_pow2; lia). apply Z.div_pos; lia.
  - apply Z.div_le_mono; [lia|]. pose proof (Z.log2_le_mono a b). lia.
Qed.

Lemma rid_split (r : Z) : 0 <= r < 2 ^ 63 ->
  let e := rid_extra r in
  rid_bytes r = (e * 32 + r / 2 ^ (5 + 8 * e)) ::
    be_encode (Z.to_nat e) (r / 32 mod 256 ^ e) ++ [r mod 32 * 8 + e] /\
  0 <= e * 32 + r / 2 ^ (5 + 8 * e) < 256 /\ 0 <= r mod 32 * 8 + e < 256 /\ r / 2 ^ (5 + 8 * e) < 32.
Proof.
  intros Hr e. destruct (rid_extra_bounds r Hr) as [He Hlt]. fold e in He, Hlt.
  assert (E8 : 2 ^ (8 * e) = 256 ^ e) by (change 256 with (2 ^ 8); by rewrite <- Z.pow_mul_r by lia).
  assert (Hp : 0 < 256 ^ e) by (apply Z.pow_pos_nonneg; lia).
  set (top := r / 2 ^ (5 + 8 * e)).
  assert (Etop : top = r / 32 / 256 ^ e).
  { unfold top. rewrite Z.div_div by lia. f_equal. rewrite Z.pow_add_r, E8 by lia. done. }
  assert (Htop : 0 <= top < 32).
  { split; [apply Z.div_pos; [lia|apply Z.pow_pos_nonneg; lia]|]. apply Z.div_lt_upper_bound; [apply Z.pow_pos_nonneg; lia|].
    replace (10 + 8 * e) with (5 + (5 + 8 * e)) in Hlt by lia. rewrite Z.pow_add_r in Hlt by lia. lia. }
  pose proof (Z.mod_pos_bound r 32). pose proof (Z.div_mod r 32).
  pose proof (Z.div_mod (r / 32) (256 ^ e)). pose proof (Z.mod_pos_bound (r / 32) (256 ^ e)).
  split; [|lia]. unfold rid_bytes. fold e.
  replace (Z.to_nat e + 2)%nat with (1 + Z.to_nat e + 1)%nat by lia.
  replace (e * 2 ^ (13 + 8 * e) + 8 * r + e)
    with ((((e * 32 + top) * 256 ^ Z.of_nat (Z.to_nat e) + r / 32 mod 256 ^ e) * 256 ^ Z.of_nat 1) + (r mod 32 * 8 + e)).
  - rewrite !be_encode_app by (rewrite ?Z2Nat.id by lia; cbn; lia).
    by rewrite !be_encode_1 by lia.
  - rewrite Z2Nat.id by lia. rewrite Z.pow_add_r, E8 by lia. change (2 ^ 13) with (32 * 256). change (256 ^ Z.of_nat 1) with 256.
    rewrite <- Etop in *. nia.
Qed.

Lemma rid_slt (a b : Z) : 0 <= a < b -> b < 2 ^ 63 -> slt (rid_bytes a) (rid_bytes b).
Proof.
  intros Hab Hb. destruct (rid_extra_bounds a) as [Ha1 Ha2]; [lia|]. destruct (rid_extra_bounds b) as [Hb1 Hb2]; [lia|].
  pose proof (rid_extra_mono a b ltac:(lia)).
  destruct (Z.eq_dec (rid_extra a) (rid_extra b)) as [E|].
  - unfold rid_bytes. rewrite E. set (e := rid_extra b) in *.
    assert (0 < 2 ^ (13 + 8 * e)) by (apply Z.pow_pos_nonneg; lia).
    apply be_encode_slt; [nia|].
    replace (256 ^ Z.of_nat (Z.to_nat e + 2)) with (8 * 2 ^ (13 + 8 * e)).
    + replace (10 + 8 * e) with (13 + 8 * e - 3) in Hb2 by lia. rewrite Z.pow_sub_r in Hb2 by lia.
      assert (2 ^ (13 + 8 * e) = 8 * (2 ^ (13 + 8 * e) / 2 ^ 3)).
      { change 8 with (2 ^ 3) at 2. rewrite <- Z.pow_sub_r by lia. rewrite <- Z.pow_add_r by lia. f_equal. lia. }
      assert (8 * b < 2 ^ (13 + 8 * e)) by lia. assert (e < 2 ^ (13 + 8 * e)); [|nia].
      apply Z.lt_le_trans with (2 ^ 13); [lia|]. apply Z.pow_le_mono_r; lia.
    + change 8 with (2 ^ 3) at 1. rewrite <- Z.pow_add_r by lia. change 256 with (2 ^ 8). rewrite <- Z.pow_mul_r by lia. f_equal. lia.
  - destruct (rid_split a) as (-> & _ & _ & Ta); [lia|]. destruct (rid_split b) as (-> & _ & _ & Tb); [lia|].
    apply slt_cons. assert (0 <= b / 2 ^ (5 + 8 * rid_extra b)) by (apply Z.div_pos; [lia|apply Z.pow_pos_nonneg; lia]). lia.
Qed.

Lemma appendRecordId_put (r : Z) ks : 0 <= r < 2 ^ 63 -> appendRecordId r ks = Ret (put false (rid_bytes r) ks).
Proof.
  intros Hr. destruct (rid_extra_bounds r Hr) as [He Hlt].
  destruct (rid_split r Hr) as (Hsp & Hfirst & Hlast & Htop).
  unfold appendRecordId. destruct (Z.ltb_spec r 0); [lia|]. rewrite bind_Ret, (wrapu_small 64 r) by lia.
  assert (Hex : (if 64 - countLeadingZeros64 r <=? 10 then 0 else (64 - countLeadingZeros64 r - 10 + 7) / 8) = rid_extra r).
  { unfold countLeadingZeros64, rid_extra. destruct (Z.eqb_spec r 0) as [->|]; [done|].
    destruct (Z.ltb_spec r (2 ^ 10)) as [Hs|Hs].
    - assert (Z.log2 r < 10) by (apply Z.log2_lt_pow2; lia). destruct (Z.leb_spec (64 - (63 - Z.log2 r)) 10); [done|lia].
    - assert (10 <= Z.log2 r) by (apply Z.log2_le_pow2; lia). destruct (Z.leb_spec (64 - (63 - Z.log2 r)) 10); [lia|].
      f_equal. lia. }
  rewrite Hex. set (e := rid_extra r) in *. rewrite Hsp.
  assert (Hpos : 0 <= r / 2 ^ (5 + 8 * e)) by (apply Z.div_pos; [lia|apply Z.pow_pos_nonneg; lia]).
  assert (E1 : wrapu 8 (Z.lor (Z.shiftl e 5) (Z.shiftr r (5 + e * 8))) = e * 32 + r / 2 ^ (5 + 8 * e)).
  { rewrite Z.lor_comm, Z.shiftr_div_pow2 by lia. replace (5 + e * 8) with (5 + 8 * e) by lia.
    rewrite lor_add by lia. rewrite wrapu_small by lia. lia. }
  assert (E2 : wrapu 8 (Z.lor (Z.shiftl r 3) e) = r mod 32 * 8 + e).
  { rewrite Z.lor_comm, lor_add by lia. unfold wrapu. pose proof (Z.div_mod r 32). pose proof (Z.mod_pos_bound r 32).
    symmetry. apply Z.mod_unique with (r / 32); lia. }
  rewrite E1, E2, !append_put by done. f_equal.
  destruct (Z.eqb_spec e 0) as [E0|E0]; cbn [negb].
  - rewrite E0 in *. by rewrite put_put.
  - rewrite Z.shiftr_div_pow2 by lia.
    assert (Hd : drop (8 - Z.to_nat e) (be_encode 8 (r / 2 ^ 5)) = be_encode (Z.to_nat e) (r / 32 mod 256 ^ e)).
    { change (2 ^ 5) with 32. pose proof (Z.div_mod (r / 32) (256 ^ e)) as Hdm.
      assert (0 < 256 ^ e) by (apply Z.pow_pos_nonneg; lia).
      replace (r / 32) with (r / 32 / 256 ^ e * 256 ^ Z.of_nat (Z.to_nat e) + r / 32 mod 256 ^ e) at 1
        by (rewrite Z2Nat.id by lia; lia).
      replace 8%nat with (8 - Z.to_nat e + Z.to_nat e)%nat at 2 by lia.
      rewrite be_encode_app by (rewrite Z2Nat.id by lia; apply Z.mod_pos_bound; lia).
      rewrite drop_app_length' by (by rewrite length_be_encode). done. }
    rewrite Hd, appendBytes_put, !put_put by apply be_encode_ok. done.
Qed.

(** *** Whole keys *)

(** The names of the fields of a key: empty, but a query may end with a discriminator. *)
Fixpoint key_names (fs : list field) : Prop :=
  match fs with
  | [] => True
  | [(n, _)] => n = [] \/ n = [char_l] \/ n = [char_g]
  | (n, _) :: fs' => n = [] /\ key_names fs'
  end.
Fixpoint discriminator_of (fs : list field) (d : Discriminator) : Discriminator :=
  match fs with
  | [] => d
  | [(n, _)] => if decide (n = []) then d else if decide (n = [char_l]) then kExclusiveBefore else kExclusiveAfter
  | _ :: fs' => discriminator_of fs' d
  end.
Definition discriminator_bytes (d : Discriminator) : bytes :=
  match d with kInclusive => [] | kExclusiveBefore => [kLess] | kExclusiveAfter => [kGreater] end.

(** A key that can be encoded: values the theorems are about, at most 32 of them, whose
    type bits fit the array. *)
Definition key (ver : Version) (fs : list field) : Prop :=
  Forall (fun f : field => key_ok f.2) fs /\ (length fs <= 32)%nat /\ Bits.fits (fields_bits ver fs).
(** A key as it is stored in an index. *)
Definition stored_key (ver : Version) (fs : list field) : Prop :=
  key ver fs /\ Forall (fun f : field => f.1 = []) fs.

Section keys.
Variable dec : bytes -> bool -> KeyString -> outcome ks_error KeyString.
Variable ver : Version.
Variable ord : Z.
Variable junk : list Z.
Hypothesis Hjunk : length junk = 128%nat.

Lemma elements_write (fs : list field) : forall i d ks b0,
  Forall (fun f : field => key_ok f.2) fs -> key_names fs -> state ver ks b0 -> Bits.fits (b0 ++ fields_bits ver fs) ->
  exists ks', append_elements dec fs ord (Z.of_nat i) d ks = Ret (discriminator_of fs d, ks') /\
    state ver ks' (b0 ++ fields_bits ver fs) /\ _buffer ks' = _buffer ks ++ Order.key_bytes ver ord i fs.
Proof.
  induction fs as [|[n v] fs IH]; intros i d ks b0 Hk Hn Hs Hf.
  { exists ks. cbn. by rewrite !app_nil_r. }
  apply Forall_cons in Hk as [Hv Hk]. cbn [fst snd] in *.
  change (fields_bits ver ((n, v) :: fs)) with (kbits ver v ++ fields_bits ver fs) in *. rewrite app_assoc in *.
  destruct (value_encoded dec ver (Z.testbit ord (Z.of_nat i)) v None I Hv ks b0 Hs) as (k1 & E1 & Hs1 & Hb1).
  { unfold Bits.fits in *. solve_length. }
  cbn [append_elements]. rewrite Order.get_testbit, E1, bind_Ret.
  replace (Z.of_nat i + 1) with (Z.of_nat (S i)) by lia.
  assert (Hrest : forall d', fs = [] \/ key_names fs -> exists ks',
    append_elements dec fs ord (Z.of_nat (S i)) d' k1 = Ret (discriminator_of fs d', ks') /\
    state ver ks' ((b0 ++ kbits ver v) ++ fields_bits ver fs) /\
    _buffer ks' = _buffer ks ++ Order.key_bytes ver ord i ((n, v) :: fs)).
  { intros d' Hd. destruct (IH (S i) d' k1 (b0 ++ kbits ver v)) as (k2 & E2 & Hs2 & Hb2); [done|by destruct Hd as [->|]|done|done|].
    exists k2. split; [done|]. split; [done|]. rewrite Hb2, Hb1. cbn [Order.key_bytes name_bytes app]. by rewrite <- app_assoc. }
  destruct fs as [|f fs'].
  - destruct Hn as [->|[->| ->]]; rewrite bind_Ret || cbn [verify Z.eqb orb]; try rewrite !bind_Ret; apply Hrest; by left.
  - destruct f as [n' v']. destruct Hn as [-> Hn]. rewrite bind_Ret. apply Hrest. by right.
Qed.

Definition query_bytes (fs : list field) (d : Discriminator) : bytes :=
  Order.key_bytes ver ord 0 fs ++ discriminator_bytes (discriminator_of fs d) ++ [kEnd].

(** A query is encoded as specified. *)
Lemma query_encoded (fs : list field) (d : Discriminator) : key ver fs -> key_names fs ->
  exists ks, resetToQuery dec ver junk fs ord d = Ret ks /\ _buffer ks = query_bytes fs d /\
    state ver ks (fields_bits ver fs).
Proof.
  intros (Hk & _ & Hf) Hn. unfold resetToQuery, _appendAllElementsForIndexing.
  destruct (elements_write fs 0 d (resetToEmpty ver junk) []) as (ks & E & (Hv & Hv' & Hr) & Hb); [done|done| |done|].
  { split; [done|]. split; [done|]. by apply Bits.reset_rep. }
  change (Z.of_nat 0) with 0 in E. rewrite E, bind_Ret. cbn [app] in Hr.
  exists (put false (discriminator_bytes (discriminator_of fs d) ++ [kEnd]) ks).
  split; [|split; [|by split]].
  - destruct (discriminator_of fs d); by rewrite !append_put, ?put_put.
  - cbn. by rewrite Hb.
Qed.

Lemma stored_names (fs : list field) : Forall (fun f : field => f.1 = []) fs -> key_names fs /\
  forall d, discriminator_of fs d = d.
Proof.
  induction 1 as [|[n v] fs Hn _ [IH1 IH2]]; [done|]. cbn in Hn. subst n. destruct fs; [|done].
  split; [by left|done].
Qed.

(** An index entry is encoded as specified. *)
Lemma entry_encoded (fs : list field) (r : Z) : stored_key ver fs -> 0 <= r < 2 ^ 63 ->
  exists ks, resetToKey dec ver junk fs ord r = Ret ks /\
    _buffer ks = Order.key_bytes ver ord 0 fs ++ kEnd :: rid_bytes r /\ state ver ks (fields_bits ver fs).
Proof.
  intros [Hk Hn] Hr. destruct (stored_names fs Hn) as [Hkn Hd].
  destruct (query_encoded fs kInclusive Hk Hkn) as (ks & E & Hb & Hs).
  unfold resetToQuery in E. unfold resetToKey. rewrite E, bind_Ret, appendRecordId_put by done.
  exists (put false (rid_bytes r) ks). split; [done|]. split; [|done].
  cbn. rewrite Hb. unfold query_bytes. rewrite Hd, <- app_assoc. done.
Qed.

End keys.

(** *** Comparisons *)

Lemma compare_lexcmp_keys (l r : KeyString) : compare l r = SD.lexcmp (_buffer l) (_buffer r).
Proof.
  rewrite SD.lexcmp_memcmp. unfold compare. cbn zeta.
  set (c := SD.memcmp _ _ _). destruct (Z.eqb_spec c 0); cbn [negb].
  - destruct (Nat.eqb_spec (length (_buffer l)) (length (_buffer r))),
      (Z.eqb_spec (Z.of_nat (length (_buffer l))) (Z.of_nat (length (_buffer r)))); try lia.
    destruct (Nat.ltb_spec (length (_buffer l)) (length (_buffer r))),
      (Z.gtb_spec (Z.of_nat (length (_buffer l))) (Z.of_nat (length (_buffer r)))); done || lia.
  - destruct (Z.ltb_spec c 0), (Z.gtb_spec c 0); done || lia.
Qed.

Lemma lexcmp_decides (z : Z) (a b : bytes) : (z < 0 -> slt a b) -> (z = 0 -> a = b) -> (0 < z -> slt b a) ->
  SD.lexcmp a b = Z.sgn z.
Proof.
  intros H1 H2 H3. destruct (Z.lt_trichotomy z 0) as [Hz|[Hz|Hz]].
  - rewrite (slt_lexcmp a b) by auto. lia.
  - rewrite (H2 Hz), (proj2 (SD.lexcmp_eq b b)) by done. lia.
  - rewrite SD.lexcmp_antisym, (slt_lexcmp b a) by auto. lia.
Qed.

Lemma rid_lexcmp (a b : Z) : 0 <= a < 2 ^ 63 -> 0 <= b < 2 ^ 63 ->
  SD.lexcmp (rid_bytes a) (rid_bytes b) = Cmp.compareLongs a b.
Proof.
  intros Ha Hb. replace (Cmp.compareLongs a b) with (Z.sgn (a - b)).
  - apply lexcmp_decides; intros; [apply rid_slt; lia|f_equal; lia|apply rid_slt; lia].
  - unfold Cmp.compareLongs. destruct (Z.eqb_spec a b), (Z.ltb_spec a b); lia.
Qed.
Lemma lexcmp_prefix (p a b : bytes) : SD.lexcmp (p ++ a) (p ++ b) = SD.lexcmp a b.
Proof. induction p as [|x p IH]; cbn [app SD.lexcmp]; [done|]. by rewrite Z.ltb_irrefl. Qed.

Lemma ends_kEnd (s : bytes) : Order.ends (kEnd :: s).
Proof. exists kEnd, s. split; [done|by vm_compute]. Qed.
Lemma ends_between (s : bytes) : Order.ends s -> Order.between s.
Proof. intros (b & s' & -> & H). exists b, s'. split; [done|lia]. Qed.

Lemma key_bytes_app ver ord i (a b : list field) :
  Order.key_bytes ver ord i (a ++ b) = Order.key_bytes ver ord i a ++ Order.key_bytes ver ord (i + length a) b.
Proof.
  revert i. induction a as [|[n v] a IH]; intros i; cbn [app Order.key_bytes length]; [by rewrite Nat.add_0_r|].
  by rewrite IH, <- app_assoc, Nat.add_succ_r.
Qed.

(** What a query ends with against what follows its fields in an entry. *)
Lemma discriminator_lexcmp ver ord i (fs : list field) (d : Discriminator) (tail : bytes) :
  Forall (fun f : field => key_ok f.2) fs -> tail <> [] \/ d <> kInclusive ->
  SD.lexcmp (discriminator_bytes d ++ [kEnd]) (Order.key_bytes ver ord i fs ++ kEnd :: tail) =
    match d with kExclusiveAfter => 1 | _ => -1 end.
Proof.
  intros Hfs Ht. destruct Hfs as [|[n v] fs Hv _]; cbn [Order.key_bytes app].
  - destruct tail; destruct Ht; destruct d; done.
  - destruct (Order.key_bytes_head ver ord i v fs (kEnd :: tail) Hv) as (b & t & E & Hb).
    cbn [Order.key_bytes] in E. rewrite E. unfold discriminator_bytes, kLess, kGreater, kEnd.
    destruct d; cbn [app SD.lexcmp].
    + destruct (Z.ltb_spec 4 b); [done|lia].
    + destruct (Z.ltb_spec 1 b); [done|lia].
    + destruct (Z.ltb_spec 254 b), (Z.ltb_spec b 254); done || lia.
Qed.

(** The bytes of two entries, with what stands behind their keys. *)
Lemma keys_lexcmp (D : Cmp.Decimal128) ver ord (l r : list field) (a b : bytes) : key ver l -> key ver r ->
  exists z, Cmp.woCompare_ordering D false None ord 1 l r = Some z /\
    SD.lexcmp (Order.key_bytes ver ord 0 l ++ kEnd :: a) (Order.key_bytes ver ord 0 r ++ kEnd :: b) =
      if z =? 0 then SD.lexcmp a b else Z.sgn z.
Proof.
  intros (Hl & Ll & _) (Hr & _ & _).
  destruct (Order.keys_ordered D ver ord l r 0 (kEnd :: a) (kEnd :: b)) as (z & Hz & H1 & H2 & H3);
    auto using ends_kEnd, ends_between.
  exists z. split; [done|]. destruct (Z.eqb_spec z 0) as [E|E].
  - rewrite (H2 E), lexcmp_prefix. cbn [SD.lexcmp]. by rewrite Z.ltb_irrefl.
  - apply lexcmp_decides; [done|lia|done].
Qed.
Lemma entries_lexcmp (D : Cmp.Decimal128) ver ord (l r : list field) (a b : Z) :
  key ver l -> key ver r -> 0 <= a < 2 ^ 63 -> 0 <= b < 2 ^ 63 ->
  exists z, Cmp.woCompare_ordering D false None ord 1 l r = Some z /\
    SD.lexcmp (Order.key_bytes ver ord 0 l ++ kEnd :: rid_bytes a) (Order.key_bytes ver ord 0 r ++ kEnd :: rid_bytes b) =
      if z =? 0 then Cmp.compareLongs a b else Z.sgn z.
Proof. intros Hl Hr Ha Hb. rewrite <- (rid_lexcmp a b Ha Hb). by apply keys_lexcmp. Qed.
Lemma rid_nonempty (r : Z) : rid_bytes r <> [].
Proof. intros E%(f_equal length). unfold rid_bytes in E. rewrite length_be_encode in E. cbn in E. lia. Qed.

(** The bytes of a query and of an entry. *)
Lemma query_lexcmp (D : Cmp.Decimal128) ver ord (q k k' : list field) d (tail : bytes) :
  key ver q -> key ver (k ++ k') -> length q = length k -> tail <> [] \/ discriminator_of q d <> kInclusive ->
  exists z, Cmp.woCompare_ordering D false None ord 1 q k = Some z /\
    SD.lexcmp (query_bytes ver ord q d) (Order.key_bytes ver ord 0 (k ++ k') ++ kEnd :: tail) =
      if z =? 0 then match discriminator_of q d with kExclusiveAfter => 1 | _ => -1 end else Z.sgn z.
Proof.
  intros (Hq & Lq & _) (Hk & Hl & _) Hlen Htail. apply Forall_app in Hk as [Hk Hk'].
  set (s := discriminator_bytes (discriminator_of q d) ++ [kEnd]).
  set (t := Order.key_bytes ver ord (0 + length k) k' ++ kEnd :: tail).
  assert (Hs : Order.between s) by (unfold s; destruct (discriminator_of q d); eexists _, _; split; done).
  assert (Ht : Order.between t) by (apply Order.key_bytes_between; [done|]; apply ends_between, ends_kEnd).
  destruct (Order.keys_ordered D ver ord q k 0 s t) as (z & Hz & H1 & H2 & H3); [done|done|lia|done|done|lia|lia|].
  exists z. split; [done|]. unfold query_bytes. fold s.
  rewrite key_bytes_app, <- app_assoc. fold t. destruct (Z.eqb_spec z 0) as [E|E].
  - rewrite (H2 E), lexcmp_prefix. by apply discriminator_lexcmp.
  - apply lexcmp_decides; [done|lia|done].
Qed.

(** *** The comparison of keys is an order *)

Definition key_le (D : Cmp.Decimal128) (ord : Z) (l r : list field) : Prop :=
  exists z, Cmp.woCompare_ordering D false None ord 1 l r = Some z /\ z <= 0.

Lemma key_le_lexcmp D ver ord l r : key ver l -> key ver r ->
  key_le D ord l r <-> SD.lexcmp (Order.key_bytes ver ord 0 l ++ kEnd :: rid_bytes 0)
                                 (Order.key_bytes ver ord 0 r ++ kEnd :: rid_bytes 0) <= 0.
Proof.
  intros Hl Hr. destruct (entries_lexcmp D ver ord l r 0 0 Hl Hr) as (z & Hz & ->); [lia..|].
  unfold key_le. rewrite Hz. cbn. split.
  - intros (z' & [= <-] & Hz'). destruct (Z.eqb_spec z 0); lia.
  - intros H. exists z. split; [done|]. destruct (Z.eqb_spec z 0); lia.
Qed.

(** *** Theorems *)

(** C7. The strings of index entries are ordered like the entries: for both versions of
    the format and every ordering, two keys of at most 32 fields whose type bits fit the
    array are encoded, [KeyString::compare] of the strings has the sign of
    [BSONObj::woCompare] of the keys, and strings of equal keys compare by record id. The values
    of the keys are well-formed ones of every type but [NumberDecimal], without a NUL in the
    namespace of a DBRef (where the order of the strings is another one), with arrays whose
    elements are named by their positions and sizes that an [int] holds ([key_ok]). *)
Theorem entries_ordered (D : Cmp.Decimal128) dec ver ord junk junk' (l r : list field) (a b : Z) :
  length junk = 128%nat -> length junk' = 128%nat ->
  stored_key ver l -> stored_key ver r -> 0 <= a < 2 ^ 63 -> 0 <= b < 2 ^ 63 ->
  exists z ka kb,
    Cmp.woCompare_ordering D false None ord 1 l r = Some z /\
    resetToKey dec ver junk l ord a = Ret ka /\ resetToKey dec ver junk' r ord b = Ret kb /\
    compare ka kb = if z =? 0 then Cmp.compareLongs a b else Z.sgn z.
Proof.
  intros Hj Hj' Hl Hr Ha Hb.
  destruct (entry_encoded dec ver ord junk Hj l a Hl Ha) as (ka & Ea & Ba & _).
  destruct (entry_encoded dec ver ord junk' Hj' r b Hr Hb) as (kb & Eb & Bb & _).
  destruct (entries_lexcmp D ver ord l r a b (proj1 Hl) (proj1 Hr) Ha Hb) as (z & Hz & Hc).
  exists z, ka, kb. split; [done|]. split; [done|]. split; [done|].
  by rewrite compare_lexcmp_keys, Ba, Bb.
Qed.

(** A query with a discriminator, given as an argument or in the name of its last
    field, lands before or after every entry whose first fields equal the query,
    whatever the other fields and the record id are; entries that differ from it are on
    the side that the comparison of the first fields says. *)
Theorem queries_bound_entries (D : Cmp.Decimal128) dec ver ord junk junk' (q k k' : list field) d (r : Z) :
  length junk = 128%nat -> length junk' = 128%nat ->
  key ver q -> key_names q -> stored_key ver (k ++ k') -> length q = length k -> 0 <= r < 2 ^ 63 ->
  exists z kq ke,
    Cmp.woCompare_ordering D false None ord 1 q k = Some z /\
    resetToQuery dec ver junk q ord d = Ret kq /\ resetToKey dec ver junk' (k ++ k') ord r = Ret ke /\
    compare kq ke = if z =? 0 then match discriminator_of q d with kExclusiveAfter => 1 | _ => -1 end
                    else Z.sgn z.
Proof.
  intros Hj Hj' Hq Hn Hk Hlen Hr.
  destruct (query_encoded dec ver ord junk Hj q d Hq Hn) as (kq & Eq & Bq & _).
  destruct (entry_encoded dec ver ord junk' Hj' (k ++ k') r Hk Hr) as (ke & Ee & Be & _).
  destruct (query_lexcmp D ver ord q k k' d (rid_bytes r) Hq (proj1 Hk) Hlen (or_introl (rid_nonempty r))) as (z & Hz & Hc).
  exists z, kq, ke. split; [done|]. split; [done|]. split; [done|].
  by rewrite compare_lexcmp_keys, Bq, Be.
Qed.

(** [BSONObj::woCompare] with an [Ordering] is an order on keys up to equality: it
    returns, reversing its arguments reverses its sign, and it is transitive. *)
Theorem key_comparison_is_order (D : Cmp.Decimal128) ver ord (a b c : list field) :
  key ver a -> key ver b -> key ver c ->
  (exists z z', Cmp.woCompare_ordering D false None ord 1 a b = Some z /\
     Cmp.woCompare_ordering D false None ord 1 b a = Some z' /\ Z.sgn z' = - Z.sgn z) /\
  (key_le D ord a b -> key_le D ord b c -> key_le D ord a c).
Proof.
  intros Ha Hb Hc. split.
  - destruct (entries_lexcmp D ver ord a b 0 0 Ha Hb) as (z & Hz & E); [lia..|].
    destruct (entries_lexcmp D ver ord b a 0 0 Hb Ha) as (z' & Hz' & E'); [lia..|].
    exists z, z'. split; [done|]. split; [done|]. rewrite SD.lexcmp_antisym, E in E'.
    change (Cmp.compareLongs 0 0) with 0 in *. destruct (Z.eqb_spec z 0), (Z.eqb_spec z' 0); lia.
  - rewrite !(key_le_lexcmp D ver) by done. intros H1 H2.
    destruct (Z.eq_dec (SD.lexcmp (Order.key_bytes ver ord 0 a ++ kEnd :: rid_bytes 0)
      (Order.key_bytes ver ord 0 b ++ kEnd :: rid_bytes 0)) 0) as [E|E].
    + apply SD.lexcmp_eq in E. by rewrite E.
    + apply Z.lt_le_incl. eapply SD.lexcmp_trans; [|exact H2]. lia.
Qed.

(** The namespace of a DBRef is read up to its first NUL when a key is encoded: two
    DBRefs whose namespaces agree up to a NUL and differ behind it have the same bytes in
    every key string, while [woCompareElements] tells them apart. *)
Theorem dbref_namespace_cut (D : Cmp.Decimal128) dec inv name ks (ns b c oid : bytes) : b <> c ->
  _appendBsonValue dec (VDBRef (ns ++ 0 :: b) oid) inv name ks =
    _appendBsonValue dec (VDBRef (ns ++ 0 :: c) oid) inv name ks /\
  exists z, Cmp.compareElementValues D None (VDBRef (ns ++ 0 :: b) oid) (VDBRef (ns ++ 0 :: c) oid) = Some z /\ z <> 0.
Proof.
  intros Hbc. split.
  { assert (E : forall x, c_str (ns ++ 0 :: x) = c_str (ns ++ [0])).
    { intros x. unfold c_str. induction ns as [|y ns IH]; cbn [app strnlen]; [done|].
      destruct (y =? 0); [done|]. cbn. by f_equal. }
    cbn [_appendBsonValue]. by rewrite (E b), (E c). }
  cbn [Cmp.compareElementValues]. eexists. split; [reflexivity|].
  destruct (Z.eqb_spec (Z.of_nat (length (enc_value (VDBRef (ns ++ 0 :: b) oid))) -
    Z.of_nat (length (enc_value (VDBRef (ns ++ 0 :: c) oid)))) 0) as [E|E]; cbn [negb]; [|done].
  intros Hz. apply (memcmp_decides _ (enc_value (VDBRef (ns ++ 0 :: b) oid)) (enc_value (VDBRef (ns ++ 0 :: c) oid)) eq_refl) in Hz; [|lia].
  apply Hbc. cbn [enc_value] in Hz. unfold enc_str in Hz. rewrite <- !app_assoc in Hz.
  apply app_inj_1 in Hz as [_ Hz]; [|by rewrite !length_le_encode].
  apply app_inv_head in Hz. cbn [app] in Hz. injection Hz as Hz. by apply app_inv_tail in Hz.
Qed.


(** The conditions on the values of a concrete key. *)
Ltac solve_keys := repeat (apply Forall_cons; split; [split; [solve_wf|cbn; repeat split]|]); apply Forall_nil; exact I.

(** Keys of two fields, the second one descending. *)
Abbreviation no_decimal := Pattern.no_decimal.
Definition no_append (raw : bytes) (invert : bool) (ks : KeyString) : outcome ks_error KeyString := Fault.
Definition demo_left : list field := [([], VDouble [0; 0; 0; 0; 0; 0; 28; 64]); ([], VString [97; 0; 98])].
Definition demo_right : list field := [([], VLong 7); ([], VSymbol [97; 0])].
Definition demo_ord : Z := 2.
Definition demo_junk : list Z := replicate 128 170.

Lemma demo_left_stored : stored_key V1 demo_left.
Proof.
  split; [|by repeat constructor]. split; [|split; [vm_compute; lia|vm_compute; lia]].
  solve_keys.
Qed.
Lemma demo_right_stored : stored_key V1 demo_right.
Proof.
  split; [|by repeat constructor]. split; [|split; [vm_compute; lia|vm_compute; lia]].
  solve_keys.
Qed.

Lemma entries_ordered_witness : exists z ka kb,
  Cmp.woCompare_ordering no_decimal false None demo_ord 1 demo_left demo_right = Some z /\
  resetToKey no_append V1 demo_junk demo_left demo_ord 5 = Ret ka /\
  resetToKey no_append V1 demo_junk demo_right demo_ord 3 = Ret kb /\
  compare ka kb = (if z =? 0 then Cmp.compareLongs 5 3 else Z.sgn z) /\ z < 0.
Proof.
  destruct (entries_ordered no_decimal no_append V1 demo_ord demo_junk demo_junk demo_left demo_right 5 3)
    as (z & ka & kb & Hz & Ha & Hb & Hc);
    [reflexivity|reflexivity|exact demo_left_stored|exact demo_right_stored|lia|lia|].
  exists z, ka, kb. repeat (split; [assumption|]). vm_compute in Hz. injection Hz as <-. lia.
Defined.

(** The query for the entries whose first field is at most 7. *)
Lemma queries_bound_entries_witness : exists z kq ke,
  Cmp.woCompare_ordering no_decimal false None demo_ord 1 [([char_g], VInt 7)] [([], VLong 7)] = Some z /\
  resetToQuery no_append V1 demo_junk [([char_g], VInt 7)] demo_ord kInclusive = Ret kq /\
  resetToKey no_append V1 demo_junk ([([], VLong 7)] ++ [([], VSymbol [97; 0])]) demo_ord 3 = Ret ke /\
  compare kq ke = 1.
Proof.
  destruct (queries_bound_entries no_decimal no_append V1 demo_ord demo_junk demo_junk
    [([char_g], VInt 7)] [([], VLong 7)] [([], VSymbol [97; 0])] kInclusive 3) as (z & kq & ke & Hz & Hq & He & Hc);
    [reflexivity|reflexivity| | |exact demo_right_stored|reflexivity|lia|].
  - split; [|split; [vm_compute; lia|vm_compute; lia]]. solve_keys.
  - right. right. reflexivity.
  - exists z, kq, ke. repeat (split; [assumption|]). rewrite Hc. vm_compute in Hz. injection Hz as <-. reflexivity.
Defined.

Lemma dbref_namespace_cut_witness : exists z,
  Cmp.compareElementValues no_decimal None (VDBRef ([97] ++ 0 :: [98]) (replicate 12 0))
    (VDBRef ([97] ++ 0 :: [99]) (replicate 12 0)) = Some z /\ z <> 0.
Proof.
  refine (proj2 (dbref_namespace_cut no_decimal no_append true None (resetToEmpty V1 demo_junk) [97] [98] [99] (replicate 12 0) _)).
  discriminate.
Defined.

Lemma key_comparison_is_order_witness : key_le no_decimal demo_ord demo_left demo_right.
Proof.
  refine (proj2 (key_comparison_is_order no_decimal V1 demo_ord demo_left demo_right demo_right
    (proj1 demo_left_stored) (proj1 demo_right_stored) (proj1 demo_right_stored)) _ _).
  - eexists. split; [vm_compute; reflexivity|lia].
  - eexists. split; [vm_compute; reflexivity|lia].
Defined.

End Keys.
