(* ===== verification/KeyStringDecode.v ===== *)
(** * KeyString: decoding

    The decoding half of [db/storage/key_string.cpp]: [toBson], [toBsonValue] and the
    readers they use, and [decodeRecordId]. The state is what is left of the buffer and
    the position of the reader of the type bits. The branches that rebuild a
    [NumberDecimal] are a parameter, like their encoding. The theorems show that an index
    entry, its key string and its stored type bits, decodes to the key it was made of. *)
From Stdlib Require Import ZArith Lia Bool.
From stdpp Require Import base list option.
From S2P Require Import Prelude StringData Bson BsonCompare KeyString KeyStringOrder KeyStringRefine.
Open Scope Z_scope.

Module KD.

(** The unread bytes and the position in the type bits. *)
Abbreviation st := (bytes * Z)%type.
Abbreviation res A := (outcome ks_error A).

(** [BufReader::skip]. *)
Definition skip (n : nat) (s : st) : res (bytes * st) :=
  if (n <=? length s.1)%nat then Ret (take n s.1, (drop n s.1, s.2)) else Throw Eof.
Definition flipped (inverted : bool) (l : bytes) : bytes := if inverted then memcpy_flipBits l else l.
(** [readType] of a byte, and of a wider integer with [bigToNative]. *)
Definition readBE (n : nat) (inverted : bool) (s : st) : res (Z * st) :=
  '(l, s) ← skip n s; Ret (be_decode (flipped inverted l), s).
Definition readByte (inverted : bool) (s : st) : res (Z * st) := readBE 1 inverted s.
(** [BufReader::peek] of a byte. *)
Definition peek (s : st) : res Z := match s.1 with [] => Throw Eof | c :: _ => Ret c end.

(** The library's [memchr]. *)
Fixpoint memchr (c : Z) (l : bytes) : option nat :=
  match l with [] => None | x :: l' => if x =? c then Some O else S <$> memchr c l' end.

(** The bytes before a terminator; its absence is a failed [invariant]. *)
Definition readUntil (c : Z) (s : st) : res (bytes * st) :=
  match memchr c s.1 with
  | None => Fault
  | Some actualBytes => '(l, s) ← skip (1 + actualBytes) s; Ret (take actualBytes l, s)
  end.
Definition readCString (s : st) : res (bytes * st) := readUntil 0 s.
Definition readInvertedCString (s : st) : res (bytes * st) :=
  '(l, s) ← readUntil 255 s; Ret (memcpy_flipBits l, s).

(** The loop of [readCStringWithNuls] after the first part. *)
Fixpoint nuls_loop (fuel : nat) (scratch : bytes) (s : st) : res (bytes * st) :=
  match fuel with
  | O => NoFuel
  | S fuel' =>
      c ← peek s;
      if c =? 255 then
        '(_, s) ← skip 1 s;
        '(nextPart, s) ← readCString s;
        nuls_loop fuel' (scratch ++ [0] ++ nextPart) s
      else Ret (scratch, s)
  end.
Definition readCStringWithNuls (s : st) : res (bytes * st) :=
  '(initial, s) ← readCString s; nuls_loop (S (length s.1)) initial s.

(** [readInvertedCStringWithNuls]; the bytes are flipped at the end. *)
Fixpoint inverted_loop (fuel : nat) (firstPass : bool) (out : bytes) (s : st) : res (bytes * st) :=
  match fuel with
  | O => NoFuel
  | S fuel' =>
      '(out, s) ← (if firstPass then Ret (out, s) else '(_, s) ← skip 1 s; Ret (out ++ [255], s));
      '(part, s) ← readUntil 255 s;
      let out := out ++ part in
      c ← peek s;
      if c =? 0 then inverted_loop fuel' false out s else Ret (memcpy_flipBits out, s)
  end.
Definition readInvertedCStringWithNuls (s : st) : res (bytes * st) :=
  inverted_loop (S (length s.1)) true [] s.

Definition readString (inverted : bool) (s : st) : res (bytes * st) :=
  if inverted then readInvertedCStringWithNuls s else readCStringWithNuls s.
Definition readName (inverted : bool) (s : st) : res (bytes * st) :=
  if inverted then readInvertedCString s else readCString s.

(** Reading type bits. *)
Definition with_bits (f : Z -> res (Z * Z)) (s : st) : res (Z * st) :=
  '(b, cur) ← f s.2; Ret (b, (s.1, cur)).

Definition double (b : Z) : value := VDouble (le_encode 8 b).
Definition quiet_NaN : Z := 0x7FF8000000000000.

(** Big-endian bytes added to a number, as in the integer and fraction loops. *)
Fixpoint readBytes (n : nat) (acc : Z) (inverted : bool) (s : st) : res (Z * st) :=
  match n with
  | O => Ret (acc, s)
  | S n' => '(c, s) ← readByte inverted s;
            readBytes n' (Z.lor (wrapu 64 (Z.shiftl acc 8)) c) inverted s
  end.

Section decode.
Variable typeBits : TB.TypeBits.
(** What rebuilds a [NumberDecimal] from the type byte on. *)
Variable readDecimal : Z -> bool -> st -> res (value * st).
Let version : Version := TB.version typeBits.

(** [kNumericNegativeLargeMagnitude] and [kNumericPositiveLargeMagnitude]. *)
Definition readLarge (ctype : Z) (inverted0 : bool) (s0 : st) : res (value * st) :=
  let isNegative := ctype =? CType.kNumericNegativeLargeMagnitude in
  let inverted := if isNegative then negb inverted0 else inverted0 in
  '(originalType, s) ← with_bits (TB.readNumeric typeBits) s0;
  _ ← verify (bool_decide (version = V1) || negb (originalType =? TB.kDecimal));
  '(encoded, s) ← readBE 8 inverted s;
  bin ←
    (if decide (version = V0) then Ret (Some encoded)
     else if Z.land encoded (Z.shiftl 1 63) =? 0 then
       let bin := Z.lor (Z.shiftr encoded 1) (Z.shiftl 1 62) in
       Ret (Some (if isNegative then Dbl.neg bin else bin))
     else if encoded =? 2 ^ 64 - 1 then Ret (Some (if isNegative then Dbl.neg Dbl.inf else Dbl.inf))
     else _ ← verify (originalType =? TB.kDecimal); Ret None);
  match bin with
  | None => readDecimal ctype inverted0 s0
  | Some bin =>
      if originalType =? TB.kDouble then Ret (double bin, s)
      else if originalType =? TB.kLong then
        _ ← verify (Dbl.eq bin (Dbl.of_Z (- 2 ^ 63)));
        Ret (VLong (- 2 ^ 63), s)
      else
        _ ← verify ((originalType =? TB.kDecimal) && bool_decide (version <> V0));
        readDecimal ctype inverted0 s0
  end.

(** [kNumericNegativeSmallMagnitude] and [kNumericPositiveSmallMagnitude]. *)
Definition readSmall (ctype : Z) (inverted0 : bool) (s0 : st) : res (value * st) :=
  let isNegative := ctype =? CType.kNumericNegativeSmallMagnitude in
  let inverted := if isNegative then negb inverted0 else inverted0 in
  '(originalType, s) ← with_bits (TB.readNumeric typeBits) s0;
  '(encoded, s) ← readBE 8 inverted s;
  if decide (version = V0) then
    _ ← verify (originalType =? TB.kDouble); Ret (double encoded, s)
  else
    let kind := Z.shiftr encoded 62 in
    if kind =? 0 then readDecimal ctype inverted0 s0
    else if (kind =? 1) || (kind =? 2) then
      let hasDecimalContinuation := negb (Z.land encoded 1 =? 0) in
      let scaledBin := Z.shiftr (wrapu 64 (encoded - Z.shiftl 1 62)) 1 in
      if originalType =? TB.kDouble then
        _ ← verify (negb hasDecimalContinuation);
        let bin := Dbl.scale scaledBin (- kTinyDoubleExponentShift) in
        Ret (double (if isNegative then Dbl.neg bin else bin), s)
      else
        _ ← verify ((originalType =? TB.kDecimal) && hasDecimalContinuation);
        readDecimal ctype inverted0 s0
    else
      let dcm := Z.land encoded 3 in
      let bin := Z.shiftr encoded 2 in
      if originalType =? TB.kDouble then
        _ ← verify (dcm =? kDCMEqualToDouble);
        Ret (double (if isNegative then Dbl.neg bin else bin), s)
      else
        _ ← verify (originalType =? TB.kDecimal); readDecimal ctype inverted0 s0.

(** The fraction loop of version 0. *)
Fixpoint fold_fraction (n : nat) (doubleBits : Z) (inverted : bool) (s : st) : res (Z * st) :=
  match n with
  | O => Ret (doubleBits, s)
  | S n' => '(byte, s) ← readByte inverted s;
            fold_fraction n' (Z.lor doubleBits (wrapu 64 (Z.shiftl byte (Z.of_nat n' * 8)))) inverted s
  end.

(** The types [kNumericNegative8ByteInt] to [kNumericPositive8ByteInt]. *)
Definition readInteger (ctype : Z) (inverted0 : bool) (s0 : st) : res (value * st) :=
  let isNegative := ctype <=? CType.kNumericNegative1ByteInt in
  let inverted := if isNegative then negb inverted0 else inverted0 in
  '(originalType, s) ← with_bits (TB.readNumeric typeBits) s0;
  '(encodedIntegerPart, s) ← readBytes (Z.to_nat (CType.numBytesForInt ctype)) 0 inverted s;
  let haveFractionalPart := negb (Z.land encodedIntegerPart 1 =? 0) in
  let integerPart := Z.shiftr encodedIntegerPart 1 in
  if negb haveFractionalPart then
    let integerPart := if isNegative then - integerPart else integerPart in
    if originalType =? TB.kDouble then Ret (double (Dbl.of_Z integerPart), s)
    else if originalType =? TB.kInt then Ret (VInt (wraps 32 integerPart), s)
    else if originalType =? TB.kLong then Ret (VLong integerPart, s)
    else readDecimal ctype inverted0 s0
  else if decide (version = V0) then
    _ ← verify (originalType =? TB.kDouble);
    let exponent := 64 - countLeadingZeros64 integerPart - 1 in
    let fractionalBits := wrapu 64 (52 - exponent) in
    let fractionalBytes := wrapu 64 (fractionalBits + 7) / 8 in
    let doubleBits := wrapu 64 (Z.shiftl integerPart fractionalBits) in
    let doubleBits := Z.ldiff doubleBits (Z.shiftl 1 52) in
    let doubleBits := Z.lor doubleBits (Z.shiftl (exponent + 1023) 52) in
    let doubleBits := if isNegative then Z.lor doubleBits (Z.shiftl 1 63) else doubleBits in
    '(number, s) ← fold_fraction (Z.to_nat fractionalBytes) doubleBits inverted s;
    Ret (double number, s)
  else
    let fracBytes := 8 - CType.numBytesForInt ctype in
    '(encodedFraction, s) ← readBytes (Z.to_nat fracBytes) integerPart inverted s;
    let bin := Dbl.scale (Dbl.of_Z (Z.ldiff encodedFraction 3)) (- (fracBytes * 8)) in
    if originalType =? TB.kDouble then
      Ret (double (if isNegative then Dbl.neg bin else bin), s)
    else
      _ ← verify (originalType =? TB.kDecimal); readDecimal ctype inverted0 s0.

(** A round of the loop of [toBson] over an object and of the one over an array, given how a
    value is read and what the rest of the loop does. *)
Definition toBson_round (value : Z -> bool -> st -> res (value * st)) (rest : bool -> st -> res (list field * st))
    (inverted : bool) (s : st) : res (list field * st) :=
  '(c, s) ← readByte inverted s;
  if c =? 0 then Ret ([], s)
  else
    '(name, s) ← readName inverted s;
    '(ctype, s) ← readByte inverted s;
    '(v, s) ← value ctype inverted s;
    '(fs, s) ← rest inverted s;
    Ret ((name, v) :: fs, s).
Definition toArray_round (value : Z -> bool -> st -> res (value * st)) (rest : bool -> st -> res (list field * st))
    (index : nat) (inverted : bool) (s : st) : res (list field * st) :=
  '(elemType, s) ← readByte inverted s;
  if elemType =? 0 then Ret ([], s)
  else
    '(v, s) ← value elemType inverted s;
    '(fs, s) ← rest inverted s;
    Ret ((Enc.numStr index, v) :: fs, s).

(** [toBsonValue] and the two loops. *)
Fixpoint toBsonValue (fuel : nat) (ctype : Z) (inverted : bool) (s : st) {struct fuel} : res (value * st) :=
  match fuel with
  | O => NoFuel
  | S fuel' =>
      if ctype =? CType.kMinKey then Ret (VMinKey, s)
      else if ctype =? CType.kMaxKey then Ret (VMaxKey, s)
      else if ctype =? CType.kNullish then Ret (VNull, s)
      else if ctype =? CType.kUndefined then Ret (VUndefined, s)
      else if ctype =? CType.kBoolTrue then Ret (VBool true, s)
      else if ctype =? CType.kBoolFalse then Ret (VBool false, s)
      else if ctype =? CType.kDate then
        '(n, s) ← readBE 8 inverted s; Ret (VDate (wraps 64 (Z.lxor n (Z.shiftl 1 63))), s)
      else if ctype =? CType.kTimestamp then '(n, s) ← readBE 8 inverted s; Ret (VTimestamp n, s)
      else if ctype =? CType.kOID then '(l, s) ← skip 12 s; Ret (VOID (flipped inverted l), s)
      else if ctype =? CType.kStringLike then
        '(originalType, s) ← with_bits (TB.readStringLike typeBits) s;
        '(str, s) ← readString inverted s;
        Ret (if originalType =? TB.kString then VString str else VSymbol str, s)
      else if ctype =? CType.kCode then '(str, s) ← readString inverted s; Ret (VCode str, s)
      else if ctype =? CType.kCodeWithScope then
        '(code, s) ← readString inverted s;
        '(scope, s) ← toBson fuel' inverted s;
        Ret (VCodeWScope code scope, s)
      else if ctype =? CType.kBinData then
        '(size, s) ← readByte inverted s;
        '(size, s) ← (if size =? 255 then readBE 4 inverted s else Ret (size, s));
        '(subType, s) ← readByte inverted s;
        '(l, s) ← skip (Z.to_nat size) s;
        Ret (VBinData subType (flipped inverted l), s)
      else if ctype =? CType.kRegEx then
        '(pattern, s) ← readName inverted s;
        '(flags, s) ← readName inverted s;
        Ret (VRegEx pattern flags, s)
      else if ctype =? CType.kDBRef then
        '(size, s) ← readBE 4 inverted s;
        '(ns, s) ← skip (Z.to_nat size) s;
        '(oid, s) ← skip 12 s;
        Ret (VDBRef (flipped inverted ns) (flipped inverted oid), s)
      else if ctype =? CType.kObject then '(fs, s) ← toBson fuel' inverted s; Ret (VObject fs, s)
      else if ctype =? CType.kArray then '(fs, s) ← toArray fuel' 0 inverted s; Ret (VArray fs, s)
      else if ctype =? CType.kNumericNaN then
        '(type, s') ← with_bits (TB.readNumeric typeBits) s;
        if type =? TB.kDouble then Ret (double quiet_NaN, s')
        else _ ← verify ((type =? TB.kDecimal) && bool_decide (version = V1)); readDecimal ctype inverted s
      else if ctype =? CType.kNumericZero then
        '(zeroType, s') ← with_bits (TB.readZero typeBits) s;
        if zeroType =? TB.kDouble then Ret (double 0, s')
        else if zeroType =? TB.kInt then Ret (VInt 0, s')
        else if zeroType =? TB.kLong then Ret (VLong 0, s')
        else if zeroType =? TB.kNegativeDoubleZero then Ret (double (Dbl.neg 0), s')
        else readDecimal ctype inverted s
      else if (ctype =? CType.kNumericNegativeLargeMagnitude) || (ctype =? CType.kNumericPositiveLargeMagnitude)
      then readLarge ctype inverted s
      else if (ctype =? CType.kNumericNegativeSmallMagnitude) || (ctype =? CType.kNumericPositiveSmallMagnitude)
      then readSmall ctype inverted s
      else if ((CType.kNumericNegative8ByteInt <=? ctype) && (ctype <=? CType.kNumericNegative1ByteInt)) ||
              ((CType.kNumericPositive1ByteInt <=? ctype) && (ctype <=? CType.kNumericPositive8ByteInt))
      then readInteger ctype inverted s
      else Fault
  end
with toBson (fuel : nat) (inverted : bool) (s : st) {struct fuel} : res (list field * st) :=
  match fuel with
  | O => NoFuel
  | S fuel' => toBson_round (toBsonValue fuel') (toBson fuel') inverted s
  end
with toArray (fuel : nat) (index : nat) (inverted : bool) (s : st) {struct fuel} : res (list field * st) :=
  match fuel with
  | O => NoFuel
  | S fuel' => toArray_round (toBsonValue fuel') (toArray fuel' (S index)) index inverted s
  end.

(** The loop of [KeyString::toBson] over the fields of a key. *)
Fixpoint key_loop (fuel : nat) (i : nat) (ord : Z) (s : st) : res (list field) :=
  match fuel with
  | O => NoFuel
  | S fuel' =>
      if (length s.1 =? 0)%nat then Ret []
      else
        let invert := Cmp.Ordering_get ord (Z.of_nat i) =? -1 in
        '(ctype, s) ← readByte invert s;
        '(ctype, s) ← (if (ctype =? kLess) || (ctype =? kGreater) then readByte invert s else Ret (ctype, s));
        if ctype =? kEnd then Ret []
        else
          '(v, s) ← toBsonValue (S (length s.1)) ctype invert s;
          fs ← key_loop fuel' (S i) ord s;
          Ret (([], v) :: fs)
  end.
Definition key_toBson (buffer : bytes) (ord : Z) : res (list field) :=
  key_loop (S (length buffer)) 0 ord (buffer, 0).

End decode.

(** [decodeRecordId] on the bytes of a reader, and [decodeRecordIdAtEnd]. *)
Fixpoint rid_loop (n : nat) (repr : Z) (s : st) : res (Z * st) :=
  match n with
  | O => Ret (repr, s)
  | S n' => '(c, s) ← readByte false s; rid_loop n' (Z.lor (wrapu 64 (Z.shiftl repr 8)) c) s
  end.
Definition decodeRecordId (s : st) : res (Z * st) :=
  '(firstByte, s) ← readByte false s;
  let numExtraBytes := Z.shiftr firstByte 5 in
  '(repr, s) ← rid_loop (Z.to_nat numExtraBytes) (Z.land firstByte 31) s;
  '(lastByte, s) ← readByte false s;
  _ ← verify (Z.land lastByte 7 =? numExtraBytes);
  Ret (wraps 64 (Z.lor (wrapu 64 (Z.shiftl repr 5)) (Z.shiftr lastByte 3)), s).
Definition decodeRecordIdAtEnd (buffer : bytes) : res Z :=
  let bufSize := length buffer in
  _ ← verify (2 <=? bufSize)%nat;
  let lastByte := default 0 (last buffer) in
  let ridSize := (2 + Z.to_nat (Z.land lastByte 7))%nat in
  _ ← verify (ridSize <=? bufSize)%nat;
  '(r, _) ← decodeRecordId (drop (bufSize - ridSize) buffer, 0);
  Ret r.

End KD.

(** ** Reading type bits *)
Module BitReader.
Import TB Bits.

(** The reader of [t] at [cur] will return the bits [rem]. *)
Definition at_bits (t : TypeBits) (cur : Z) (rem : list bool) : Prop :=
  if _isAllZeros t then forallb negb rem = true
  else exists c : nat, cur = Z.of_nat c /\ (c + length rem <= 1016)%nat /\
    forall i b, rem !! i = Some b -> exists byte,
      _buf t !! S ((c + i) / 8) = Some byte /\ Z.testbit byte (Z.of_nat ((c + i) mod 8)) = b.

Lemma at_bits_app t cur a b : at_bits t cur (a ++ b) -> at_bits t cur a.
Proof.
  unfold at_bits. destruct (_isAllZeros t).
  - rewrite forallb_app, andb_true_iff. tauto.
  - intros (c & -> & Hl & H). exists c. split; [done|]. split; [rewrite length_app in Hl; lia|].
    intros i x Hi. apply H. by apply lookup_app_l_Some.
Qed.

Lemma readBit_at t cur b rem : at_bits t cur (b :: rem) ->
  exists cur', readBit t cur = Ret (Z.b2z b, cur') /\ at_bits t cur' rem.
Proof.
  unfold at_bits, readBit. destruct (_isAllZeros t).
  - cbn. intros [Hb Hr]%andb_true_iff. exists cur. by destruct b.
  - intros (c & -> & Hl & H). destruct (H 0%nat b eq_refl) as (byte & Hbyte & Hbit). rewrite Nat.add_0_r in *.
    assert (E : Z.to_nat (wrapu 8 (Z.of_nat c / 8 + 1)) = S (c / 8)).
    { change 8 with (Z.of_nat 8) at 2. rewrite <- Nat2Z.inj_div. cbn [length] in Hl.
      assert (c / 8 < 127)%nat by (apply Nat.Div0.div_lt_upper_bound; lia). rewrite wrapu_small by lia. lia. }
    rewrite E, Hbyte. exists (Z.of_nat (S c)). split.
    + replace (Z.of_nat c + 1) with (Z.of_nat (S c)) by lia. do 2 f_equal.
      assert (Em : Z.of_nat c mod 8 = Z.of_nat (c mod 8)) by (by rewrite Nat2Z.inj_mod). rewrite Em.
      pose proof (Order.mask_testbit byte (c mod 8)) as Hm. unfold Cmp.descending in Hm.
      rewrite Z.shiftl_1_l, Hm, Hbit. by destruct b.
    + exists (S c). split; [done|]. split; [cbn in Hl; lia|]. intros i x Hi. destruct (H (S i) x Hi) as (y & Hy & Hy').
      exists y. by rewrite Nat.add_succ_r in *.
Qed.

(** *** From the appended bits to the read ones *)

Lemma bits_Z_testbit (bits : list bool) (i : nat) (b : bool) : bits !! i = Some b ->
  Z.testbit (bits_Z bits) (Z.of_nat i) = b.
Proof.
  revert i. induction bits as [|x bits IH]; intros [|i] H; try done; cbn [bits_Z].
  - injection H as ->. rewrite Z.add_comm. destruct b; [apply Z.testbit_odd_0|]. cbn. rewrite Z.add_0_r. apply Z.testbit_even_0.
  - rewrite Nat2Z.inj_succ, Z.add_comm. destruct x; cbn [Z.b2z].
    + rewrite Z.testbit_odd_succ by lia. by apply IH.
    + rewrite Z.add_0_r, Z.testbit_even_succ by lia. by apply IH.
Qed.

Lemma le_encode_lookup (n i : nat) (z : Z) : (i < n)%nat ->
  le_encode n z !! i = Some (z / 256 ^ Z.of_nat i mod 256).
Proof.
  revert i z. induction n as [|n IH]; intros i z Hi; [lia|]. rewrite le_encode_S. destruct i as [|i].
  - cbn. by rewrite Z.div_1_r.
  - cbn [lookup list_lookup]. change (le_encode n (z / 256) !! i = Some (z / 256 ^ Z.of_nat (S i) mod 256)).
    rewrite IH by lia. rewrite Z.div_div by (try apply Z.pow_pos_nonneg; lia).
    do 3 f_equal. rewrite Nat2Z.inj_succ, Z.pow_succ_r by lia. done.
Qed.
Lemma byte_testbit (z : Z) (k j : nat) : (j < 8)%nat ->
  Z.testbit (z / 256 ^ Z.of_nat k mod 256) (Z.of_nat j) = Z.testbit z (Z.of_nat (8 * k + j)).
Proof.
  intros Hj. change 256 with (2 ^ 8) at 2. rewrite Z.mod_pow2_bits_low by lia.
  change 256 with (2 ^ 8). rewrite <- Z.pow_mul_r, <- Z.shiftr_div_pow2, Z.shiftr_spec by lia. f_equal. lia.
Qed.

(** A packed buffer is read back. *)
Lemma packed_at (t : TypeBits) (bits : list bool) (h : Z) (rest : list Z) :
  _buf t = h :: le_encode (nbytes bits) (bits_Z bits) ++ rest -> fits bits ->
  (_isAllZeros t = true -> forallb negb bits = true) -> at_bits t 0 bits.
Proof.
  intros Hb Hf Hz. unfold at_bits. destruct (_isAllZeros t); [auto|].
  exists 0%nat. split; [done|]. split; [apply Hf|]. intros i b Hi. cbn [Nat.add].
  pose proof (lookup_lt_Some _ _ _ Hi) as Hlt.
  assert (Hd : (i = 8 * (i / 8) + i mod 8)%nat) by (apply Nat.div_mod; lia).
  pose proof (Nat.mod_upper_bound i 8) as Hm.
  assert (Hn : (i / 8 < nbytes bits)%nat).
  { unfold nbytes. apply Nat.Div0.div_lt_upper_bound. pose proof (Nat.div_mod (length bits + 7) 8).
    pose proof (Nat.mod_upper_bound (length bits + 7) 8). lia. }
  exists (bits_Z bits / 256 ^ Z.of_nat (i / 8) mod 256). split.
  - rewrite Hb. change ((le_encode (nbytes bits) (bits_Z bits) ++ rest) !! (i / 8)%nat = Some (bits_Z bits / 256 ^ Z.of_nat (i / 8) mod 256)).
    rewrite lookup_app_l by (by rewrite length_le_encode). by apply le_encode_lookup.
  - rewrite byte_testbit by lia. rewrite <- Hd. by apply bits_Z_testbit.
Qed.

Lemma rep_at (t : TypeBits) (bits : list bool) : rep t bits -> fits bits -> at_bits t 0 bits.
Proof.
  intros (_ & Hz & rest & Hb & _) Hf. eapply packed_at; [exact Hb|done|]. by rewrite Hz.
Qed.

(** *** Stored type bits *)

Lemma all_zero_bits (bits : list bool) : forallb negb bits = true <-> bits_Z bits = 0.
Proof.
  induction bits as [|b bits IH]; cbn; [done|]. rewrite andb_true_iff, IH.
  pose proof (bits_Z_range bits). destruct b; cbn; [|lia]. split; [by intros []|lia].
Qed.
Lemma le_encode_zero (n : nat) : le_encode n 0 = replicate n 0.
Proof. induction n as [|n IH]; [done|]. rewrite le_encode_S, Z.div_0_l, Z.mod_0_l, IH by lia. done. Qed.

Lemma nbytes_le (bits : list bool) : fits bits -> (nbytes bits <= 127)%nat.
Proof.
  unfold fits, nbytes. intros H. pose proof (Nat.div_mod (length bits + 7) 8).
  pose proof (Nat.mod_upper_bound (length bits + 7) 8). lia.
Qed.

Lemma land_127 (n : Z) : 0 <= n < 128 -> Z.land (128 + n) 127 = n /\ Z.land (128 + n) 128 <> 0.
Proof.
  intros Hn. split.
  - change 127 with (Z.ones 7). rewrite Z.land_ones by lia. symmetry. apply Z.mod_unique with 1; lia.
  - intros H. apply (f_equal (fun z => Z.testbit z 7)) in H. rewrite Z.land_spec in H. change 128 with (2 ^ 7) in H at 2.
    rewrite Z.pow2_bits_true, Z.bits_0, andb_true_r in H by lia.
    apply Z.testbit_false in H; [|lia]. replace ((128 + n) / 2 ^ 7) with 1 in H; [done|].
    apply Z.div_unique with n; lia.
Qed.

Lemma one_byte (bits : list bool) : nbytes bits = 1%nat -> le_encode 1 (bits_Z bits) = [bits_Z bits].
Proof.
  intros E. rewrite le_encode_S, Z.mod_small; [done|]. pose proof (bits_Z_range bits).
  assert (length bits <= 8)%nat.
  { unfold nbytes in E. pose proof (Nat.div_mod (length bits + 7) 8). pose proof (Nat.mod_upper_bound (length bits + 7) 8). lia. }
  assert (2 ^ Z.of_nat (length bits) <= 2 ^ 8) by (apply Z.pow_le_mono_r; lia). lia.
Qed.

(** The stored form of bits that are not all zero, and what [getBuffer] returns. *)
Definition packed_bits (bits : list bool) : bytes :=
  if (nbytes bits =? 1)%nat && (Z.land (bits_Z bits) 128 =? 0) then [bits_Z bits]
  else 128 + Z.of_nat (nbytes bits) :: le_encode (nbytes bits) (bits_Z bits).
Lemma getBuffer_packed (t : TypeBits) (bits : list bool) (rest : list Z) : fits bits -> forallb negb bits = false ->
  _isAllZeros t = false -> _buf t = 128 + Z.of_nat (nbytes bits) :: le_encode (nbytes bits) (bits_Z bits) ++ rest ->
  getBuffer t = packed_bits bits.
Proof.
  intros Hf Ez Hz Hb. pose proof (nbytes_le bits Hf) as Hn. unfold getBuffer, getSize, getSizeByte, packed_bits. rewrite Hz, Hb.
  change (default 0 ((128 + Z.of_nat (nbytes bits) :: ?l) !! 0%nat)) with (128 + Z.of_nat (nbytes bits)).
  destruct (land_127 (Z.of_nat (nbytes bits))) as [-> _]; [lia|].
  destruct (Nat.eqb_spec (nbytes bits) 1) as [E1|E1].
  - rewrite E1. change (Z.of_nat 1 =? 1) with true. cbn [andb].
    rewrite one_byte by done. cbn [app].
    change (default 0 ((?h :: ?x :: ?l) !! 1%nat)) with x.
    by destruct (Z.land (bits_Z bits) 128 =? 0).
  - destruct (Z.eqb_spec (Z.of_nat (nbytes bits)) 1); [lia|]. cbn [andb].
    assert (nbytes bits <> 0%nat).
    { intros E. destruct bits; [done|]. unfold nbytes in E. apply Nat.div_small_iff in E; cbn in E; lia. }
    destruct (Z.eqb_spec (Z.of_nat (nbytes bits) + 1) 1); [lia|].
    replace (Z.to_nat (Z.of_nat (nbytes bits) + 1)) with (S (nbytes bits)) by lia. cbn [firstn].
    change (take (S ?n) (?h :: ?l)) with (h :: take n l). f_equal. apply take_app_length'. by rewrite length_le_encode.
Qed.
Lemma getBuffer_rep (t : TypeBits) (bits : list bool) : rep t bits -> fits bits ->
  getBuffer t = if forallb negb bits then [0] else packed_bits bits.
Proof.
  intros (_ & Hz & rest & Hb & Hl & H0) Hf. destruct (forallb negb bits) eqn:Ez; [|by eapply getBuffer_packed].
  unfold getBuffer, getSize, getSizeByte. rewrite Hz, Hb.
  cbn [Z.eqb]. change (drop 1 (?h :: ?l)) with l. apply all_zero_bits in Ez. rewrite Ez, le_encode_zero.
  destruct bits as [|b bits]; [|by unfold nbytes; destruct ((length (b :: bits) + 7) / 8)%nat eqn:E;
    [exfalso; apply Nat.div_small_iff in E; cbn in E; lia|]].
  destruct rest as [|r rest]; [done|]. specialize (H0 eq_refl). injection H0 as ->. done.
Qed.

(** The bytes of bits that are not all zero are read back, and stored again as they were. *)
Lemma item_read (bits : list bool) (ver : Version) (junk more : bytes) : fits bits -> forallb negb bits = false ->
  length junk = 128%nat ->
  exists t', resetFromBuffer ver junk (packed_bits bits ++ more) = Ret (t', more) /\
    version t' = ver /\ length (_buf t') = 128%nat /\ at_bits t' 0 bits /\ _isAllZeros t' = false /\ getBuffer t' = packed_bits bits.
Proof.
  intros Hf Ez Hj. pose proof (nbytes_le bits Hf) as Hn.
  assert (Hend : forall t' rest, version t' = ver -> length (_buf t') = 128%nat -> _isAllZeros t' = false ->
    _buf t' = 128 + Z.of_nat (nbytes bits) :: le_encode (nbytes bits) (bits_Z bits) ++ rest ->
    version t' = ver /\ length (_buf t') = 128%nat /\ at_bits t' 0 bits /\ _isAllZeros t' = false /\ getBuffer t' = packed_bits bits).
  { intros t' rest Hv Hl Hz Hb. do 2 (split; [done|]). split; [eapply packed_at; [exact Hb|done|congruence]|].
    split; [done|]. by apply (getBuffer_packed t' bits rest). }
  unfold packed_bits at 1. destruct ((nbytes bits =? 1)%nat && (Z.land (bits_Z bits) 128 =? 0)) eqn:E1.
  - apply andb_true_iff in E1 as [E1%Nat.eqb_eq E2]. cbn [app resetFromBuffer]. rewrite E2. cbn [negb].
    destruct (Z.eqb_spec (bits_Z bits) 0) as [E0|E0]; [apply all_zero_bits in E0; congruence|].
    destruct junk as [|j0 [|j1 junk]]; try discriminate.
    eexists. split; [reflexivity|]. apply (Hend _ junk); [done|done|done|]. cbn [_buf]. by rewrite E1, one_byte.
  - cbn [app resetFromBuffer]. destruct (land_127 (Z.of_nat (nbytes bits))) as [E127 E128]; [lia|].
    destruct (Z.eqb_spec (Z.land (128 + Z.of_nat (nbytes bits)) 128) 0); [lia|]. cbn [negb].
    rewrite E127, Nat2Z.id. destruct (Nat.leb_spec (nbytes bits) (length (le_encode (nbytes bits) (bits_Z bits) ++ more)));
      [|rewrite length_app, length_le_encode in *; lia].
    rewrite take_app_length', drop_app_length' by (by rewrite length_le_encode).
    eexists. split; [reflexivity|]. eapply Hend; [done| |done|reflexivity].
    cbn [_buf length]. rewrite length_app, length_le_encode, length_drop. lia.
Qed.

(** Stored type bits are read back as they were written. *)
Lemma stored_bits_read (t : TypeBits) (bits : list bool) (ver : Version) (junk more : bytes) :
  rep t bits -> fits bits -> length junk = 128%nat ->
  exists t', resetFromBuffer ver junk (getBuffer t ++ more) = Ret (t', more) /\ version t' = ver /\ at_bits t' 0 bits.
Proof.
  intros Hr Hf Hj. rewrite (getBuffer_rep t bits Hr Hf). destruct (forallb negb bits) eqn:Ez.
  { eexists. split; [done|]. split; [done|]. done. }
  destruct (item_read bits ver junk more Hf Ez Hj) as (t' & E & Hv & _ & Hat & _). by exists t'.
Qed.

End BitReader.

(** ** Reading bytes *)
Module Read.
Import Lex Enc Ref KD.

Lemma flipped_flip_if inv (l : bytes) : bytes_ok l -> flipped inv (flip_if inv l) = l.
Proof.
  intros H. destruct inv; cbn; [|done]. rewrite flip_ok, flip_flip; [done|]. by apply flip_bytes_ok.
Qed.
Lemma flip_if_twice (n inv : bool) (l : bytes) :
  flip_if inv (flip_if n l) = flip_if (if n then negb inv else inv) l.
Proof. destruct n, inv; cbn [flip_if negb]; rewrite ?flip_flip; done. Qed.
Lemma length_flip_if inv (l : bytes) : length (flip_if inv l) = length l.
Proof. destruct inv; cbn; [|done]. unfold flip. apply length_map. Qed.

Lemma skip_app (n : nat) (l rest : bytes) cur : length l = n ->
  skip n (l ++ rest, cur) = Ret (l, (rest, cur)).
Proof.
  intros <-. unfold skip. cbn [fst snd]. rewrite length_app.
  destruct (Nat.leb_spec (length l) (length l + length rest)); [|lia].
  by rewrite take_app_length, drop_app_length.
Qed.
Lemma skip_flip (inv : bool) (l rest : bytes) cur :
  skip (length l) (flip_if inv l ++ rest, cur) = Ret (flip_if inv l, (rest, cur)).
Proof. apply skip_app, length_flip_if. Qed.

Lemma be_decode_encode (n : nat) (z : Z) : 0 <= z < 256 ^ Z.of_nat n -> be_decode (be_encode n z) = z.
Proof.
  intros H. unfold be_decode, be_encode. rewrite rev_involutive, le_decode_encode. by apply Z.mod_small.
Qed.
Lemma readBE_app (n : nat) inv (z : Z) rest cur : 0 <= z < 256 ^ Z.of_nat n ->
  readBE n inv (flip_if inv (be_encode n z) ++ rest, cur) = Ret (z, (rest, cur)).
Proof.
  intros Hz. unfold readBE. rewrite skip_app by (by rewrite length_flip_if, length_be_encode).
  rewrite bind_Ret, flipped_flip_if, be_decode_encode by (done || apply be_encode_ok). done.
Qed.
Lemma readByte_app inv (c : Z) rest cur : 0 <= c < 256 ->
  readByte inv (flip_if inv [c] ++ rest, cur) = Ret (c, (rest, cur)).
Proof. intros Hc. unfold readByte. rewrite <- (be_encode_1 c Hc). apply readBE_app. done. Qed.

(** *** C strings *)

Lemma memchr_app (c : Z) (l rest : bytes) : c ∉ l -> memchr c (l ++ c :: rest) = Some (length l).
Proof.
  induction l as [|x l IH]; intros H; cbn; [by rewrite Z.eqb_refl|].
  apply not_elem_of_cons in H as [Hx H]. destruct (Z.eqb_spec x c); [congruence|]. by rewrite IH.
Qed.
Lemma readUntil_app (c : Z) (l rest : bytes) cur : c ∉ l ->
  readUntil c (l ++ c :: rest, cur) = Ret (l, (rest, cur)).
Proof.
  intros H. unfold readUntil. cbn [fst]. rewrite memchr_app by done.
  replace (l ++ c :: rest) with ((l ++ [c]) ++ rest) by (by rewrite <- app_assoc).
  rewrite skip_app by (rewrite length_app; cbn; lia). rewrite bind_Ret. by rewrite take_app_length.
Qed.
Lemma not_in_flip (l : bytes) : 0 ∉ l -> 255 ∉ flip l.
Proof.
  induction l as [|x l IH]; intros H; cbn; [set_solver|]. apply not_elem_of_cons in H as [? H].
  apply not_elem_of_cons. split; [lia|]. by apply IH.
Qed.
Lemma readName_app inv (n rest : bytes) cur : name_ok n ->
  readName inv (flip_if inv (n ++ [0]) ++ rest, cur) = Ret (n, (rest, cur)).
Proof.
  intros [Hn H0]. destruct inv; cbn [readName flip_if].
  - rewrite flip_app, <- app_assoc. cbn [flip List.map app]. change (255 - 0) with 255.
    unfold readInvertedCString. rewrite readUntil_app by (by apply not_in_flip). rewrite bind_Ret.
    by rewrite flip_ok, flip_flip by (by apply flip_bytes_ok).
  - rewrite <- app_assoc. cbn [app]. by apply readUntil_app.
Qed.

(** Strings with NULs, split at the first one. *)
Lemma str_split (s : bytes) : 0 ∉ s \/ exists a b, s = a ++ 0 :: b /\ 0 ∉ a /\ (length b < length s)%nat.
Proof.
  induction s as [|c s IH]; [left; set_solver|]. destruct (Z.eq_dec c 0) as [->|Hc].
  - right. exists [], s. split; [done|]. split; [set_solver|]. cbn. lia.
  - destruct IH as [IH|(a & b & -> & Ha & Hl)].
    + left. by apply not_elem_of_cons.
    + right. exists (c :: a), b. split; [done|]. split; [by apply not_elem_of_cons|]. cbn in *. lia.
Qed.
Lemma esc_app (a b : bytes) : esc (a ++ b) = esc a ++ esc b.
Proof. unfold esc. by rewrite map_app, concat_app. Qed.
Lemma esc_plain (a : bytes) : 0 ∉ a -> esc a = a.
Proof.
  induction a as [|c a IH]; intros H; [done|]. apply not_elem_of_cons in H as [Hc H].
  unfold esc in *. cbn. destruct (Z.eqb_spec c 0); [congruence|]. cbn. by rewrite IH.
Qed.
Lemma str_bytes_plain (a : bytes) : 0 ∉ a -> str_bytes a = a ++ [0].
Proof. intros H. unfold str_bytes. by rewrite esc_plain. Qed.
Lemma str_bytes_split (a b : bytes) : 0 ∉ a -> str_bytes (a ++ 0 :: b) = a ++ 0 :: 255 :: str_bytes b.
Proof.
  intros H. unfold str_bytes. rewrite esc_app, esc_plain by done. rewrite <- app_assoc. done.
Qed.

Lemma peek_follows (rest : bytes) cur : follows rest -> exists c, peek (rest, cur) = Ret c /\ 0 <= c < 255.
Proof. intros (b & s & -> & Hb). by exists b. Qed.

(** One part of the string at a time, ascending. *)
Lemma nuls_loop_app (fuel : nat) (s : bytes) : forall pre rest cur, (S (length s) < fuel)%nat -> follows rest ->
  nuls_loop fuel pre (255 :: str_bytes s ++ rest, cur) = Ret (pre ++ 0 :: s, (rest, cur)).
Proof.
  revert s. induction fuel as [|fuel IH]; intros s pre rest cur Hf Hr; [lia|].
  cbn [nuls_loop]. unfold peek at 1. cbn [fst]. rewrite bind_Ret. cbn [Z.eqb].
  change (255 :: str_bytes s ++ rest) with ([255] ++ str_bytes s ++ rest). rewrite skip_app, bind_Ret by done.
  destruct (str_split s) as [H0|(a & b & -> & Ha & Hl)].
  - rewrite str_bytes_plain, <- app_assoc by done. cbn [app]. unfold readCString.
    rewrite readUntil_app, bind_Ret by done. destruct fuel as [|fuel]; [lia|].
    cbn [nuls_loop]. destruct (peek_follows rest cur Hr) as (c & -> & Hc). rewrite bind_Ret.
    destruct (Z.eqb_spec c 255); [lia|done].
  - rewrite str_bytes_split, <- app_assoc by done. cbn [app]. unfold readCString.
    rewrite readUntil_app, bind_Ret by done. rewrite IH by (done || lia).
    by rewrite <- !app_assoc.
Qed.
Lemma length_str_bytes (s : bytes) : (length s < length (str_bytes s))%nat.
Proof.
  unfold str_bytes. rewrite length_app. cbn [length].
  assert (length s <= length (esc s))%nat; [|lia].
  induction s as [|c s IH]; [done|]. unfold esc in *. cbn. destruct (c =? 0); cbn; lia.
Qed.
Lemma readCStringWithNuls_app (s rest : bytes) cur : follows rest ->
  readCStringWithNuls (str_bytes s ++ rest, cur) = Ret (s, (rest, cur)).
Proof.
  intros Hr. unfold readCStringWithNuls, readCString. destruct (str_split s) as [H0|(a & b & -> & Ha & Hl)].
  - rewrite str_bytes_plain, <- app_assoc by done. cbn [app].
    rewrite readUntil_app, bind_Ret by done. cbn [nuls_loop].
    destruct (peek_follows rest cur Hr) as (c & -> & Hc). rewrite bind_Ret. destruct (Z.eqb_spec c 255); [lia|done].
  - rewrite str_bytes_split, <- app_assoc by done. cbn [app].
    rewrite readUntil_app, bind_Ret by done. apply nuls_loop_app; [|done]. cbn [fst length].
    rewrite length_app. pose proof (length_str_bytes b). lia.
Qed.

(** The flipped bytes, descending. *)
Lemma inverted_loop_app (fuel : nat) (s : bytes) : forall first pre rest cur,
  bytes_ok s -> bytes_ok pre -> (S (length s) < fuel)%nat -> follows (flip rest) ->
  inverted_loop fuel first (flip pre) ((if first then [] else [0]) ++ flip (str_bytes s) ++ rest, cur) =
    Ret (pre ++ (if first then [] else [0]) ++ s, (rest, cur)).
Proof.
  revert s. induction fuel as [|fuel IH]; intros s first pre rest cur Hs Hp Hf Hr; [lia|].
  cbn [inverted_loop].
  assert (Hfirst : (if first then Ret (flip pre, ((if first then [] else [0]) ++ flip (str_bytes s) ++ rest, cur))
    else '(_, s0) ← skip 1 ((if first then [] else [0]) ++ flip (str_bytes s) ++ rest, cur); Ret (flip pre ++ [255], s0)) =
    Ret (E := ks_error) (flip (pre ++ if first then [] else [0]), (flip (str_bytes s) ++ rest, cur))).
  { destruct first; [by rewrite app_nil_r|]. rewrite skip_app, bind_Ret by done. by rewrite flip_app. }
  rewrite Hfirst, bind_Ret. set (pre' := pre ++ if first then [] else [0]).
  assert (Hpre : bytes_ok pre') by (apply Forall_app; split; [done|destruct first; repeat constructor; done]).
  assert (Hnext : exists c, peek (rest, cur) = Ret c /\ c <> 0).
  { destruct Hr as (b & t & E & Hb). destruct rest as [|r rest]; [discriminate|]. injection E as E _.
    exists r. split; [done|lia]. }
  destruct (str_split s) as [H0|(a & b & -> & Ha & Hl)].
  - rewrite str_bytes_plain, flip_app, <- app_assoc by done. change (flip [0] ++ rest) with (255 :: rest).
    rewrite readUntil_app, bind_Ret by (by apply not_in_flip).
    destruct Hnext as (c & -> & Hc). rewrite bind_Ret. destruct (Z.eqb_spec c 0); [done|].
    rewrite <- flip_app, flip_ok, flip_flip by (apply flip_bytes_ok, Forall_app; done).
    unfold pre'. by rewrite <- app_assoc.
  - apply Forall_app in Hs as [Hsa Hsb]. apply Forall_cons in Hsb as [_ Hsb].
    rewrite str_bytes_split, flip_app, <- app_assoc by done.
    change (flip (0 :: 255 :: str_bytes b) ++ rest) with (255 :: 0 :: flip (str_bytes b) ++ rest).
    rewrite readUntil_app, bind_Ret by (by apply not_in_flip).
    unfold peek at 1. cbn [fst]. rewrite bind_Ret. cbn [Z.eqb]. rewrite <- flip_app.
    change (0 :: flip (str_bytes b) ++ rest) with ([0] ++ flip (str_bytes b) ++ rest).
    rewrite (IH b false) by (done || lia || by apply Forall_app).
    unfold pre'. by rewrite <- !app_assoc.
Qed.

Lemma readString_app inv (s rest : bytes) cur : bytes_ok s -> follows (flip_if inv rest) ->
  readString inv (flip_if inv (str_bytes s) ++ rest, cur) = Ret (s, (rest, cur)).
Proof.
  intros Hs Hr. destruct inv; cbn [readString flip_if] in *; [|by apply readCStringWithNuls_app].
  unfold readInvertedCStringWithNuls. apply (inverted_loop_app _ s true []); [done|constructor| |done].
  cbn [fst]. rewrite length_app. unfold flip at 1. rewrite length_map. pose proof (length_str_bytes s).
  destruct Hr as (b & t & E & _). destruct rest; [discriminate|]. cbn [length]. lia.
Qed.

End Read.

(** ** Reading numbers *)
Module Nums.
Import Dbl DblLemmas Lex Num Enc Ref KD Read BitReader.

Lemma readNumeric_at t cur b1 b2 rem : at_bits t cur (b1 :: b2 :: rem) ->
  exists cur', TB.readNumeric t cur = Ret (2 * Z.b2z b1 + Z.b2z b2, cur') /\ at_bits t cur' rem.
Proof.
  intros H. destruct (readBit_at t cur b1 _ H) as (c1 & E1 & H1). destruct (readBit_at t c1 b2 _ H1) as (c2 & E2 & H2).
  exists c2. split; [|done]. unfold TB.readNumeric. rewrite E1, bind_Ret, E2, bind_Ret. by destruct b1, b2.
Qed.

Lemma readBytes_app (n : nat) (acc z : Z) inv rest cur : 0 <= acc -> 0 <= z < 256 ^ Z.of_nat n ->
  acc * 256 ^ Z.of_nat n + z < 2 ^ 64 ->
  readBytes n acc inv (flip_if inv (be_encode n z) ++ rest, cur) = Ret (acc * 256 ^ Z.of_nat n + z, (rest, cur)).
Proof.
  revert acc z. induction n as [|n IH]; intros acc z Ha Hz Hlt; cbn [readBytes].
  { cbn in *. do 2 f_equal; [lia|]. by destruct inv. }
  assert (Hp : 0 < 256 ^ Z.of_nat n) by (apply Z.pow_pos_nonneg; lia).
  rewrite Nat2Z.inj_succ, Z.pow_succ_r in * by lia.
  set (h := z / 256 ^ Z.of_nat n). set (l := z mod 256 ^ Z.of_nat n).
  assert (Ez : z = h * 256 ^ Z.of_nat n + l) by (unfold h, l; pose proof (Z.div_mod z (256 ^ Z.of_nat n)); lia).
  assert (Hl : 0 <= l < 256 ^ Z.of_nat n) by (apply Z.mod_pos_bound; lia).
  assert (Hh : 0 <= h < 256) by (split; [apply Z.div_pos; lia|apply Z.div_lt_upper_bound; lia]).
  assert (Eb : be_encode (S n) z = [h] ++ be_encode n l).
  { rewrite <- (be_encode_1 h Hh). rewrite Ez. by apply (be_encode_app 1 n). }
  rewrite Eb, flip_if_app, <- app_assoc, readByte_app, bind_Ret by done.
  assert (acc * 256 < 2 ^ 64) by nia.
  rewrite Z.shiftl_mul_pow2, wrapu_small by lia. rewrite Z.lor_comm, <- (Z.shiftl_mul_pow2 acc 8) by lia.
  rewrite lor_add by lia. rewrite IH by nia. do 2 f_equal. nia.
Qed.

(** The conversion of an integer by the pattern of its magnitude. *)
Lemma of_Z_pattern (k m : Z) : 0 <= m < inf -> scaled m = Z.abs k * unit -> of_Z k = with_sign (k <? 0) m.
Proof.
  intros Hm E. unfold of_Z. f_equal. rewrite <- E.
  destruct (scaled_form m) as (x & j & Hx & Hj & Ex & _); [lia|]. rewrite Ex.
  destruct (round_exact x j 0) as [Hr Hv]; [done|lia| |].
  { rewrite Z.sub_0_r, <- Ex. apply scaled_lt_iff; [lia|done|lia]. }
  apply scaled_inj; [lia|lia|]. by rewrite Hv, Z.sub_0_r.
Qed.
(** Scaling down what was scaled up. *)
Lemma scale_down (u m k : Z) : 0 <= u <= inf -> 0 <= m < inf -> 0 < k -> scaled u = scaled m * 2 ^ k ->
  scale u (- k) = m.
Proof.
  intros Hu Hm Hk E. unfold scale. assert (inf < 2 ^ 63) by done.
  assert (magnitude u = u) as -> by (rewrite magnitude_mod; apply Z.mod_small; lia).
  assert (signbit u = false) as ->.
  { unfold signbit. apply Z.testbit_false; [lia|]. by rewrite Z.div_small by lia. }
  destruct (Z.ltb_spec (- k) 0); [|lia]. rewrite Z.opp_involutive, E.
  destruct (scaled_form m) as (x & j & Hx & Hj & Ex & _); [lia|].
  replace (scaled m * 2 ^ k) with (x * 2 ^ (j + k)) by (rewrite Ex, Z.pow_add_r by lia; lia).
  destruct (round_exact x (j + k) k) as [Hr Hv]; [done|lia| |].
  { replace (j + k - k) with j by lia. rewrite <- Ex. apply scaled_lt_iff; [lia|done|lia]. }
  unfold with_sign. apply scaled_inj; [lia|lia|]. rewrite Hv, Ex. do 2 f_equal. lia.
Qed.

Lemma land_high (x : Z) : 0 <= x < 2 ^ 63 -> Z.land x (Z.shiftl 1 63) = 0.
Proof.
  intros Hx. rewrite Z.shiftl_1_l. apply Z.bits_inj'. intros i Hi. rewrite Z.land_spec, Z.bits_0.
  destruct (Z.eq_dec i 63) as [->|].
  - by rewrite <- (Z.mod_small x (2 ^ 63)), Z.mod_pow2_bits_high by lia.
  - by rewrite Z.pow2_bits_false, andb_false_r by lia.
Qed.

(** The code of a double below 2^-255. *)
Lemma tiny_code (u : Z) : 0 <= u < 2 ^ 62 ->
  (Z.shiftr (2 * u + 2 ^ 62) 62 =? 0) = false /\
  ((Z.shiftr (2 * u + 2 ^ 62) 62 =? 1) || (Z.shiftr (2 * u + 2 ^ 62) 62 =? 2)) = true /\
  (Z.land (2 * u + 2 ^ 62) 1 =? 0) = true /\
  Z.shiftr (wrapu 64 (2 * u + 2 ^ 62 - Z.shiftl 1 62)) 1 = u.
Proof.
  intros Hu. assert (Hk : Z.shiftr (2 * u + 2 ^ 62) 62 = 1 \/ Z.shiftr (2 * u + 2 ^ 62) 62 = 2).
  { rewrite Z.shiftr_div_pow2 by lia. pose proof (Z.div_mod (2 * u + 2 ^ 62) (2 ^ 62)).
    pose proof (Z.mod_pos_bound (2 * u + 2 ^ 62) (2 ^ 62)). lia. }
  split; [by destruct Hk as [-> | ->]|]. split; [by destruct Hk as [-> | ->]|]. split.
  - change 1 with (Z.ones 1). rewrite Z.land_ones by lia.
    replace (2 * u + 2 ^ 62) with ((u + 2 ^ 61) * 2 ^ 1) by lia. by rewrite Z.mod_mul by lia.
  - change (Z.shiftl 1 62) with (2 ^ 62). replace (2 * u + 2 ^ 62 - 2 ^ 62) with (u * 2 ^ 1) by lia.
    rewrite wrapu_small by lia. by rewrite Z.shiftr_div_pow2, Z.div_mul by lia.
Qed.
Lemma min_long_eq : Dbl.eq (of_Z (- 2 ^ 63)) (of_Z (- 2 ^ 63)) = true.
Proof. by vm_compute. Qed.

Section numbers.
Variable t : TB.TypeBits.
Variable dec : Z -> bool -> st -> res (value * st).
Let ver := TB.version t.

(** The start of every number: its type and, for a negative one, flipped bytes. *)
Lemma sign_bytes (n inv : bool) (l rest : bytes) :
  flip_if inv (flip_if n l) ++ rest = flip_if (if n then negb inv else inv) l ++ rest.
Proof. by rewrite flip_if_twice. Qed.

Lemma with_bits_at cur b1 b2 rem (l : bytes) : at_bits t cur (b1 :: b2 :: rem) ->
  exists cur', with_bits (TB.readNumeric t) (l, cur) = Ret (2 * Z.b2z b1 + Z.b2z b2, (l, cur')) /\ at_bits t cur' rem.
Proof.
  intros H. destruct (readNumeric_at t cur b1 b2 rem H) as (c & E & Hc). exists c. split; [|done].
  unfold with_bits. cbn [fst snd]. by rewrite E, bind_Ret.
Qed.

(** What [readLarge] makes of the code of a pattern. *)
Lemma large_bin (n bad : bool) (m : Z) : 0 <= m <= inf -> 2 ^ 63 * unit <= scaled m ->
  let encoded := large_code ver n m in
  (if decide (ver = V0) then Ret (Some encoded)
   else if Z.land encoded (Z.shiftl 1 63) =? 0 then
     Ret (Some (if n then Dbl.neg (Z.lor (Z.shiftr encoded 1) (Z.shiftl 1 62))
                else Z.lor (Z.shiftr encoded 1) (Z.shiftl 1 62)))
   else if encoded =? 2 ^ 64 - 1 then Ret (Some (if n then Dbl.neg Dbl.inf else Dbl.inf))
   else (_ ← verify bad; Ret None)) = Ret (E := ks_error) (Some (with_sign n m)).
Proof.
  intros Hm Hs encoded. destruct (large_pattern m Hm Hs) as [H62 H63]. unfold encoded.
  assert (Hneg : forall x, 0 <= x < 2 ^ 63 -> (if n then Dbl.neg x else x) = with_sign n x).
  { intros x Hx. destruct n; [|done]. by apply (neg_with_sign false). }
  destruct ver; cbn [large_code]; [by rewrite decide_True|]. rewrite decide_False by done.
  destruct (Z.eqb_spec m inf) as [->|Hinf].
  - cbn. destruct n; done.
  - rewrite land_high by lia. cbn [Z.eqb]. do 2 f_equal. rewrite <- Hneg by lia.
    assert (E : Z.lor (Z.shiftr (2 * m - 2 ^ 63) 1) (Z.shiftl 1 62) = m); [|by rewrite E].
    rewrite Z.shiftr_div_pow2 by lia. replace (2 * m - 2 ^ 63) with ((m - 2 ^ 62) * 2 ^ 1) by lia.
    rewrite Z.div_mul by lia. rewrite lor_add by lia. lia.
Qed.

Lemma large_decodes (n inv b1 b2 : bool) (m : Z) rest cur rem : 0 <= m <= inf -> 2 ^ 63 * unit <= scaled m ->
  (b1, b2) = (true, false) \/ ((b1, b2) = (false, true) /\ with_sign n m = of_Z (- 2 ^ 63)) ->
  at_bits t cur (b1 :: b2 :: rem) -> exists cur',
  readLarge t dec (if n then 31 else 51) inv (flip_if inv (flip_if n (be_encode 8 (large_code ver n m))) ++ rest, cur) =
    Ret (if b1 then double (with_sign n m) else VLong (- 2 ^ 63), (rest, cur')) /\ at_bits t cur' rem.
Proof.
  intros Hm Hs Hb Hat. destruct (with_bits_at cur b1 b2 rem
    (flip_if inv (flip_if n (be_encode 8 (large_code ver n m))) ++ rest) Hat) as (c & E & Hc).
  exists c. split; [|done]. unfold readLarge.
  replace ((if n then 31 else 51) =? CType.kNumericNegativeLargeMagnitude) with n by (by destruct n).
  rewrite E, bind_Ret. rewrite sign_bytes.
  assert (Hver : (bool_decide (ver = V1) || negb (2 * Z.b2z b1 + Z.b2z b2 =? TB.kDecimal)) = true).
  { apply orb_true_iff. right. destruct Hb as [[= -> ->]|[[= -> ->] _]]; done. }
  fold ver. rewrite Hver. cbn [verify]. rewrite bind_Ret.
  rewrite readBE_app, bind_Ret by (apply large_code_range; done).
  rewrite large_bin, bind_Ret by done.
  destruct Hb as [[= -> ->]|[[= -> ->] Eb]]; [done|]. cbn [Z.b2z Z.mul Z.add Z.eqb TB.kDouble TB.kLong].
  rewrite Eb, min_long_eq. reflexivity.
Qed.

Lemma small_decodes (n inv : bool) (m : Z) rest cur rem : 0 < m -> scaled m < unit ->
  at_bits t cur (true :: false :: rem) -> exists cur',
  readSmall t dec (if n then 40 else 42) inv (flip_if inv (flip_if n (be_encode 8 (small_code ver n m))) ++ rest, cur) =
    Ret (double (with_sign n m), (rest, cur')) /\ at_bits t cur' rem.
Proof.
  intros Hm Hs Hat. destruct (with_bits_at cur true false rem
    (flip_if inv (flip_if n (be_encode 8 (small_code ver n m))) ++ rest) Hat) as (c & E & Hc).
  exists c. split; [|done]. unfold readSmall.
  replace ((if n then 40 else 42) =? CType.kNumericNegativeSmallMagnitude) with n by (by destruct n).
  rewrite E, bind_Ret. rewrite sign_bytes. rewrite readBE_app, bind_Ret by (apply small_code_range; lia).
  fold ver. change (2 * Z.b2z true + Z.b2z false =? TB.kDouble) with true. cbv iota.
  pose proof (small_pattern m ltac:(lia) Hs) as Hp.
  assert (Hneg : forall x, 0 <= x < 2 ^ 63 -> (if n then Dbl.neg x else x) = with_sign n x).
  { intros x Hx. destruct n; [|done]. by apply (neg_with_sign false). }
  destruct ver; cbn [small_code]; [by rewrite decide_True|]. rewrite decide_False by done.
  destruct (Z.leb_spec (2 ^ 819) (scaled m)) as [Hlarge|Htiny].
  - assert (768 * 2 ^ 52 <= m).
    { destruct (Z.le_gt_cases (768 * 2 ^ 52) m) as [|Hgt]; [done|].
      pose proof (scaled_mono m (768 * 2 ^ 52)) as Hlt. change (scaled (768 * 2 ^ 52)) with (2 ^ 819) in Hlt. lia. }
    assert (Z.shiftr (4 * m) 62 = 3) as ->.
    { rewrite Z.shiftr_div_pow2 by lia. symmetry. apply Z.div_unique with (4 * m - 3 * 2 ^ 62); lia. }
    change (3 =? 0) with false. change ((3 =? 1) || (3 =? 2)) with false. cbv iota.
    change 3 with (Z.ones 2). rewrite Z.land_ones by lia.
    replace (4 * m) with (m * 2 ^ 2) by lia. rewrite Z.mod_mul by lia. cbn [Z.eqb kDCMEqualToDouble verify].
    rewrite bind_Ret, Z.shiftr_div_pow2, Z.div_mul by lia. by rewrite Hneg by lia.
  - destruct (upshift_bound m) as [U0 U1]; [lia|done|]. destruct (upshift_exact m) as [_ Ue]; [lia|done|].
    set (u := upshift m) in *.
    destruct (tiny_code u) as (-> & -> & -> & ->); [done|]. cbn [negb verify]. rewrite bind_Ret.
    unfold kTinyDoubleExponentShift.
    rewrite (scale_down u m 256); [by rewrite Hneg by lia| | |lia|done].
    + assert (2 ^ 62 < inf) by done. lia.
    + assert (1023 * 2 ^ 52 < inf) by done. lia.
Qed.

(** *** Integer portions *)

(** The type byte of an integer portion of [len] bytes. *)
Definition int_ctype (n : bool) (len : nat) : Z := if n then 40 - Z.of_nat len else 42 + Z.of_nat len.
Lemma int_ctype_facts (n : bool) (len : nat) : (1 <= len <= 8)%nat ->
  (int_ctype n len <=? CType.kNumericNegative1ByteInt) = n /\ CType.numBytesForInt (int_ctype n len) = Z.of_nat len.
Proof.
  intros Hl. unfold int_ctype, CType.numBytesForInt, CType.kNumericNegative1ByteInt, CType.kNumericPositive1ByteInt, CType.kNumeric.
  destruct n.
  - destruct (Z.leb_spec (40 - Z.of_nat len) (30 + 9)), (Z.leb_spec (30 + 13) (40 - Z.of_nat len)); lia.
  - destruct (Z.leb_spec (42 + Z.of_nat len) (30 + 9)), (Z.leb_spec (30 + 13) (42 + Z.of_nat len)); lia.
Qed.
Lemma signed_int_bytes (n : bool) (x : Z) (more : bytes) :
  signed n (int_bytes x ++ more) = int_ctype n (int_len x) :: flip_if n (be_encode (int_len x) x) ++ flip_if n more.
Proof.
  unfold int_bytes. cbn [app]. rewrite signed_cons, flip_if_app. f_equal. unfold int_ctype. destruct n; lia.
Qed.

(** The first part of [readInteger]. *)
Lemma integer_prefix (n inv b1 b2 : bool) (x : Z) more cur rem : 0 < x < 2 ^ 64 ->
  at_bits t cur (b1 :: b2 :: rem) -> exists cur', at_bits t cur' rem /\
  with_bits (TB.readNumeric t) (flip_if inv (flip_if n (be_encode (int_len x) x)) ++ more, cur) =
    Ret (2 * Z.b2z b1 + Z.b2z b2, (flip_if inv (flip_if n (be_encode (int_len x) x)) ++ more, cur')) /\
  readBytes (int_len x) 0 (if n then negb inv else inv)
    (flip_if inv (flip_if n (be_encode (int_len x) x)) ++ more, cur') = Ret (x, (more, cur')).
Proof.
  intros Hx Hat. destruct (with_bits_at cur b1 b2 rem
    (flip_if inv (flip_if n (be_encode (int_len x) x)) ++ more) Hat) as (c & E & Hc).
  exists c. split; [done|]. split; [done|]. rewrite sign_bytes.
  destruct (int_len_bounds x) as [_ Hb]; [lia|]. rewrite readBytes_app by lia. do 2 f_equal.
Qed.

(** A number without a fraction, by its type. *)
Definition integer_value (b1 b2 : bool) (k : Z) : value :=
  if b1 then double (of_Z k) else if b2 then VLong k else VInt (wraps 32 k).
Lemma integer_decodes (n inv b1 b2 : bool) (ip : Z) rest cur rem : 0 < ip < 2 ^ 63 -> b1 && b2 = false ->
  at_bits t cur (b1 :: b2 :: rem) -> exists cur',
  readInteger t dec (int_ctype n (int_len (2 * ip))) inv
    (flip_if inv (flip_if n (be_encode (int_len (2 * ip)) (2 * ip))) ++ rest, cur) =
  Ret (integer_value b1 b2 (if n then - ip else ip), (rest, cur')) /\ at_bits t cur' rem.
Proof.
  intros Hip Hb Hat. destruct (byte_count (2 * ip)) as [_ Hl]; [lia|].
  destruct (int_ctype_facts n _ Hl) as [E1 E2].
  destruct (integer_prefix n inv b1 b2 (2 * ip) rest cur rem ltac:(lia) Hat) as (c & Hc & Ew & Er).
  exists c. split; [|done]. unfold readInteger. rewrite E1, E2, Ew, bind_Ret, Nat2Z.id, Er, bind_Ret.
  assert (Z.land (2 * ip) 1 = 0) as ->.
  { change 1 with (Z.ones 1). rewrite Z.land_ones by lia. replace (2 * ip) with (ip * 2 ^ 1) by lia. apply Z.mod_mul. lia. }
  assert (Z.shiftr (2 * ip) 1 = ip) as ->.
  { rewrite Z.shiftr_div_pow2 by lia. replace (2 * ip) with (ip * 2 ^ 1) by lia. apply Z.div_mul. lia. }
  cbn [Z.eqb negb]. by destruct b1, b2.
Qed.

(** *** Fractions *)

Lemma fold_fraction_app (k : nat) (base z : Z) inv rest cur : 0 <= z < 256 ^ Z.of_nat k -> 256 ^ Z.of_nat k <= 2 ^ 64 ->
  fold_fraction k base inv (flip_if inv (be_encode k z) ++ rest, cur) = Ret (Z.lor base z, (rest, cur)).
Proof.
  revert base z. induction k as [|k IH]; intros base z Hz H64; cbn [fold_fraction].
  { cbn in *. replace z with 0 by lia. rewrite Z.lor_0_r. by destruct inv. }
  assert (Hp : 0 < 256 ^ Z.of_nat k) by (apply Z.pow_pos_nonneg; lia).
  rewrite Nat2Z.inj_succ, Z.pow_succ_r in * by lia.
  set (h := z / 256 ^ Z.of_nat k). set (l := z mod 256 ^ Z.of_nat k).
  assert (Ez : z = h * 256 ^ Z.of_nat k + l) by (unfold h, l; pose proof (Z.div_mod z (256 ^ Z.of_nat k)); lia).
  assert (Hl : 0 <= l < 256 ^ Z.of_nat k) by (apply Z.mod_pos_bound; lia).
  assert (Hh : 0 <= h < 256) by (split; [apply Z.div_pos; lia|apply Z.div_lt_upper_bound; lia]).
  assert (Eb : be_encode (S k) z = [h] ++ be_encode k l).
  { rewrite <- (be_encode_1 h Hh), Ez. by apply (be_encode_app 1 k). }
  clearbody h l. subst z. assert (E256 : 2 ^ (Z.of_nat k * 8) = 256 ^ Z.of_nat k).
  { change 256 with (2 ^ 8). rewrite <- Z.pow_mul_r by lia. f_equal. lia. }
  rewrite Eb, flip_if_app, <- app_assoc, readByte_app, bind_Ret by done.
  rewrite Z.shiftl_mul_pow2, E256, wrapu_small by nia. rewrite IH by lia. do 2 f_equal.
  rewrite <- Z.lor_assoc. f_equal. rewrite <- E256, <- Z.shiftl_mul_pow2, Z.lor_comm, lor_add, Z.shiftl_mul_pow2 by lia. lia.
Qed.

Section fraction.
Variables m q : Z.
Hypothesis Hm : 0 <= m <= inf.
Hypothesis Es : scaled m = q.
Hypothesis Hn : num m = Some q.
Hypothesis Hq : unit <= q < 2 ^ 63 * unit.
Hypothesis Hf : q mod unit <> 0.
Let ip := q / unit.
Let code v := (q mod unit) * 2 ^ frac_bits v ip / unit.

Lemma middle_pattern : m < inf.
Proof.
  destruct (Z.eq_dec m inf) as [E|]; [|lia]. exfalso. rewrite E, scaled_inf in Es.
  assert (2 ^ 63 * unit < 2 ^ 2098) by by vm_compute. lia.
Qed.

(** Version 1 scales the integer that the bytes form. *)
Lemma value_V1 : let f := (8 - int_len (2 * ip))%nat in
  Dbl.scale (Dbl.of_Z (Z.ldiff (ip * 256 ^ Z.of_nat f + code V1) 3)) (- (Z.of_nat f * 8)) = m.
Proof.
  intros f. destruct (V1_shape m q Hm Es Hq Hf) as (Hlog & Hf7 & E256 & H64 & Hip2).
  fold ip f in Hlog, Hf7, E256, H64, Hip2. pose proof unit_pos as Hu. pose proof (ip_range m q Hm Es Hq Hf) as Hip. fold ip in Hip.
  destruct (frac_bytes_count ip Hip) as (_ & _ & Hfl & Hfb). fold f in Hfl, Hfb.
  pose proof (code_range m q Hm Es Hq Hf V1) as Hcode. fold ip (code V1) in Hcode. rewrite Hfl in Hcode.
  pose proof (code_low_bits m q Hm Es Hn Hq Hf) as H4. fold ip (code V1) in H4.
  destruct (scaled_exact m q Hm Es Hn Hq Hf (Z.of_nat f * 8)) as [Hd _]; [fold ip; lia|lia|].
  pose proof (mod_scaled q (Z.of_nat f * 8) ltac:(lia) Hd) as EN. fold ip in EN.
  replace (q mod unit * 2 ^ (Z.of_nat f * 8) / unit) with (code V1) in EN by (unfold code; rewrite Hfb; do 3 f_equal; lia).
  rewrite E256 in EN. set (N := ip * 256 ^ Z.of_nat f + code V1) in *.
  assert (EQ : q * 2 ^ (Z.of_nat f * 8) = N * unit).
  { rewrite <- EN, <- E256. destruct Hd as [w Hw]. rewrite Hw, Z.div_mul by lia. done. }
  assert (Hldiff : Z.ldiff N 3 = N).
  { change 3 with (Z.ones 2). rewrite Z.ldiff_ones_r, Z.shiftl_mul_pow2, Z.shiftr_div_pow2 by lia.
    rewrite Z.mul_comm. symmetry. apply Z.div_exact; [lia|]. apply Z.mod_divide; [lia|].
    apply Z.divide_add_r; [|done]. apply Z.divide_mul_r. exists (2 ^ (Z.of_nat f * 8 - 2)).
    rewrite <- E256. change 4 with (2 ^ 2). rewrite <- Z.pow_add_r by lia. f_equal. lia. }
  rewrite Hldiff. destruct (scale_up m q (Z.of_nat f * 8)) as (Hu1 & Hu2 & _); [done|done|lia| |].
  { apply Z.lt_le_trans with (2 ^ 63 * unit * 2 ^ 56); [|by vm_compute].
    apply Z.le_lt_trans with (q * 2 ^ 56); [|apply Z.mul_lt_mono_pos_r; lia].
    apply Z.mul_le_mono_nonneg_l; [lia|]. apply Z.pow_le_mono_r; lia. }
  set (u := scale m (Z.of_nat f * 8)) in *. assert (HN : 0 <= N) by (unfold N; nia).
  rewrite (of_Z_pattern N u).
  - destruct (Z.ltb_spec N 0); [lia|]. unfold with_sign. apply scale_down; [done|pose proof middle_pattern; lia|lia|].
    by rewrite Hu2, Es.
  - split; [lia|]. destruct (Z.eq_dec u inf) as [E|]; [|lia]. rewrite E, scaled_inf in Hu2.
    assert (2 ^ 64 * unit < 2 ^ 2098) by by vm_compute.
    assert (N * unit < 2 ^ 64 * unit); [|lia]. apply Z.mul_lt_mono_pos_r; [done|]. unfold N. nia.
  - rewrite Hu2, EQ, Z.abs_eq by done. done.
Qed.

(** Version 0 puts the bits back into the mantissa. *)
Lemma value_V0 (n : bool) : let exponent := 64 - countLeadingZeros64 ip - 1 in
  let fractionalBits := wrapu 64 (52 - exponent) in
  fractionalBits = frac_bits V0 ip /\
  let doubleBits := Z.ldiff (wrapu 64 (Z.shiftl ip fractionalBits)) (Z.shiftl 1 52) in
  let doubleBits := Z.lor doubleBits (Z.shiftl (exponent + 1023) 52) in
  Z.lor (if n then Z.lor doubleBits (Z.shiftl 1 63) else doubleBits) (code V0) = with_sign n m.
Proof.
  intros exponent fractionalBits. pose proof (ip_range m q Hm Es Hq Hf) as Hip. fold ip in Hip.
  destruct (mantissa_V0 m q Hm Es Hq Hf) as (Ht & _ & Hc & Emm). fold ip in Ht, Hc, Emm. fold (code V0) in Hc, Emm.
  pose proof (Z.log2_nonneg ip). assert (Z.log2 ip < 53) by (apply Z.log2_lt_pow2; lia).
  assert (Ee : exponent = Z.log2 ip).
  { unfold exponent, countLeadingZeros64. destruct (Z.eqb_spec ip 0); lia. }
  assert (Et : fractionalBits = frac_bits V0 ip).
  { unfold fractionalBits. rewrite Ee, wrapu_small by lia. done. }
  split; [done|]. cbv zeta. rewrite Et, Ee. clearbody exponent fractionalBits. subst exponent fractionalBits.
  set (t0 := frac_bits V0 ip) in *. assert (Ht0 : t0 = 52 - Z.log2 ip) by done.
  destruct (Z.log2_spec ip) as [L1 L2]; [lia|].
  assert (P : 2 ^ Z.log2 ip * 2 ^ t0 = 2 ^ 52) by (rewrite <- Z.pow_add_r by lia; f_equal; lia).
  rewrite Z.pow_succ_r in L2 by lia. assert (0 < 2 ^ t0) by (apply Z.pow_pos_nonneg; lia).
  assert (R : 2 ^ 52 <= ip * 2 ^ t0 < 2 ^ 53) by nia.
  rewrite Z.shiftl_mul_pow2, wrapu_small by lia.
  assert (D : Z.ldiff (ip * 2 ^ t0) (Z.shiftl 1 52) = ip * 2 ^ t0 - 2 ^ 52).
  { rewrite Z.shiftl_1_l. symmetry. apply Z.sub_nocarry_ldiff. apply Z.bits_inj'. intros i Hi.
    rewrite Z.ldiff_spec, Z.bits_0. destruct (Z.eq_dec i 52) as [->|]; [|by rewrite Z.pow2_bits_false by lia].
    assert (Z.testbit (ip * 2 ^ t0) 52 = true) as ->; [|by rewrite andb_false_r].
    apply Z.testbit_true; [lia|]. replace (ip * 2 ^ t0 / 2 ^ 52) with 1; [done|].
    apply Z.div_unique with (ip * 2 ^ t0 - 2 ^ 52); lia. }
  rewrite D, (lor_add (ip * 2 ^ t0 - 2 ^ 52) _ 52) by lia. set (base := ip * 2 ^ t0 - 2 ^ 52 + (Z.log2 ip + 1023) * 2 ^ 52).
  assert (Hbase : 0 <= base < 2 ^ 63) by (unfold base; lia).
  assert (Hdiv : forall b, (2 ^ t0 | b) -> Z.lor b (code V0) = b + code V0).
  { intros b [w ->]. rewrite Z.lor_comm, <- Z.shiftl_mul_pow2, lor_add, Z.shiftl_mul_pow2 by lia. lia. }
  assert (Hd52 : forall k, 52 <= k -> (2 ^ t0 | 2 ^ k)).
  { intros k Hk. exists (2 ^ (k - t0)). rewrite <- Z.pow_add_r by lia. f_equal. lia. }
  assert (Db : (2 ^ t0 | base)).
  { unfold base. apply Z.divide_add_r; [apply Z.divide_sub_r; [apply Z.divide_factor_r|by apply Hd52]|].
    apply Z.divide_mul_r. by apply Hd52. }
  destruct n; unfold with_sign.
  - rewrite lor_add, Z.mul_1_l by lia. rewrite Hdiv by (apply Z.divide_add_r; [done|by apply Hd52]). unfold base. lia.
  - rewrite Hdiv by done. unfold base. lia.
Qed.

End fraction.

Lemma fraction_decodes (n inv : bool) (m q : Z) rest cur rem : 0 <= m <= inf -> scaled m = q -> num m = Some q ->
  unit <= q < 2 ^ 63 * unit -> q mod unit <> 0 -> at_bits t cur (true :: false :: rem) ->
  let ip := q / unit in
  let x := 2 * ip + 1 in
  exists cur',
  readInteger t dec (int_ctype n (int_len x)) inv
    (flip_if inv (flip_if n (be_encode (int_len x) x)) ++
     flip_if inv (flip_if n (be_encode (frac_len ver ip) ((q mod unit) * 2 ^ frac_bits ver ip / unit))) ++ rest, cur) =
  Ret (double (with_sign n m), (rest, cur')) /\ at_bits t cur' rem.
Proof.
  intros Hm Es Nm Hq Hf Hat ip x. pose proof (ip_range m q Hm Es Hq Hf) as Hip. fold ip in Hip.
  destruct (byte_count x) as [_ Hl]; [unfold x; lia|]. destruct (int_ctype_facts n _ Hl) as [E1 E2].
  set (fr := flip_if inv _ ++ rest).
  destruct (integer_prefix n inv true false x fr cur rem ltac:(unfold x; lia) Hat) as (c & Hc & Ew & Er).
  exists c. split; [|done]. unfold readInteger. rewrite E1, E2, Ew, bind_Ret, Nat2Z.id, Er, bind_Ret.
  assert (Z.land x 1 = 1) as ->.
  { change 1 with (Z.ones 1) at 1. rewrite Z.land_ones by lia. symmetry. apply Z.mod_unique with ip; unfold x; lia. }
  assert (Z.shiftr x 1 = ip) as ->.
  { rewrite Z.shiftr_div_pow2 by lia. symmetry. apply Z.div_unique with 1; unfold x; lia. }
  change (2 * Z.b2z true + Z.b2z false =? TB.kDouble) with true. cbn [Z.eqb negb verify]. rewrite bind_Ret.
  unfold fr. rewrite sign_bytes. clear Ew Er fr. pose proof (code_range m q Hm Es Hq Hf ver) as Hcode. fold ver ip in Hcode |- *.
  destruct ver eqn:Ever.
  - rewrite decide_True by done. destruct (value_V0 m q Hm Es Hq Hf n) as [Eb Ev]. fold ip in Eb, Ev.
    destruct (mantissa_V0 m q Hm Es Hq Hf) as (Ht & _). fold ip in Ht.
    rewrite Eb in *. rewrite (wrapu_small 64 (frac_bits V0 ip + 7)) by lia.
    change (Z.to_nat ((frac_bits V0 ip + 7) / 8)) with (frac_len V0 ip).
    rewrite fold_fraction_app, bind_Ret; [|done|]. { by rewrite Ev. }
    change (2 ^ 64) with (256 ^ 8). apply Z.pow_le_mono_r; [lia|]. unfold frac_len.
    pose proof (Z.div_le_mono (frac_bits V0 ip + 7) 64 8). change (64 / 8) with 8 in *. lia.
  - rewrite decide_False by done. 
    pose proof (value_V1 m q Hm Es Nm Hq Hf) as Ev. fold ip in Ev.
    destruct (V1_shape m q Hm Es Hq Hf) as (_ & Hf7 & _ & H64 & Hip2). fold ip in Hf7, H64, Hip2.
    destruct (frac_bytes_count ip Hip) as (_ & _ & Hfl & _). rewrite Hfl in *.
    set (f := (8 - int_len (2 * ip))%nat) in *.
    assert (Hlx : int_len x = int_len (2 * ip)) by (apply int_len_odd; lia).
    assert (Ef : 8 - Z.of_nat (int_len x) = Z.of_nat f) by lia. rewrite Ef, Nat2Z.id.
    rewrite readBytes_app, bind_Ret by (lia || nia). rewrite Ev.
    destruct n; [|done]. do 3 f_equal. apply (neg_with_sign false). assert (inf < 2 ^ 63) by done. lia.
Qed.

End numbers.

End Nums.

(** ** Reading values *)
Module Values.
Import Dbl DblLemmas Lex Num Enc Ref KD Read BitReader Nums.

(** What a key gives back: a NaN has lost its payload. *)
Fixpoint norm (v : value) : value :=
  let all := List.map (fun f : field => match f with (n, w) => (n, norm w) end) in
  match v with
  | VDouble raw => if Dbl.isnan (le_decode raw) then double quiet_NaN else VDouble raw
  | VObject fs => VObject (all fs)
  | VArray fs => VArray (all fs)
  | VCodeWScope code fs => VCodeWScope code (all fs)
  | _ => v
  end.
Definition norm_fields (fs : list field) : list field := List.map (fun f : field => match f with (n, w) => (n, norm w) end) fs.

Section values.
Variable t : TB.TypeBits.
Variable dec : Z -> bool -> st -> res (value * st).
Let ver := TB.version t.
Variable inv : bool.

(** The bytes [bs] with the type bits [bits] are read as [w]. *)
Definition reads (bs : bytes) (bits : list bool) (w : value) : Prop :=
  forall fuel rest cur rem, follows (flip_if inv rest) -> at_bits t cur (bits ++ rem) -> (length bs <= fuel)%nat ->
  exists c tail cur', bs = c :: tail /\ at_bits t cur' rem /\
    toBsonValue t dec fuel c inv (flip_if inv tail ++ rest, cur) = Ret (w, (rest, cur')).

Lemma readZero_at cur b1 b2 rem : b1 && b2 = false -> at_bits t cur (b1 :: b2 :: rem) ->
  exists cur', TB.readZero t cur = Ret (2 * Z.b2z b1 + Z.b2z b2, cur') /\ at_bits t cur' rem.
Proof.
  intros Hb H. destruct (readNumeric_at t cur b1 b2 rem H) as (c & E & Hc). exists c. split; [|done].
  unfold TB.readZero. rewrite E, bind_Ret.
  destruct b1, b2; try discriminate; cbn [Z.b2z Z.mul Z.add Z.eqb TB.kSpecialZeroPrefix]; by rewrite ?andb_false_r, bind_Ret.
Qed.
Lemma readNegativeZero_at cur rem :
  at_bits t cur (match ver with V0 => [true; true] | V1 => [true; true; false; false; false] end ++ rem) ->
  exists cur', TB.readZero t cur = Ret (TB.kNegativeDoubleZero, cur') /\ at_bits t cur' rem.
Proof.
  unfold ver, TB.readZero. destruct (TB.version t); cbn [app]; intros H.
  - destruct (readNumeric_at t cur true true rem H) as (c & E & Hc). exists c. split; [|done]. by rewrite E, bind_Ret.
  - destruct (readNumeric_at t cur true true _ H) as (c & E & Hc).
    destruct (readBit_at t c false _ Hc) as (c1 & E1 & H1). destruct (readBit_at t c1 false _ H1) as (c2 & E2 & H2).
    destruct (readBit_at t c2 false _ H2) as (c3 & E3 & H3). exists c3. split; [|done].
    rewrite E, bind_Ret. cbn [Z.b2z Z.mul Z.add Z.eqb TB.kSpecialZeroPrefix Pos.eqb].
    rewrite bool_decide_eq_true_2 by done. cbn [andb].
    by rewrite E1, bind_Ret, E2, bind_Ret, E3, !bind_Ret.
Qed.

Lemma int_dispatch fuel (n : bool) (len : nat) s : (1 <= len <= 8)%nat ->
  toBsonValue t dec (S fuel) (int_ctype n len) inv s = readInteger t dec (int_ctype n len) inv s.
Proof. intros Hl. destruct n; do 9 (destruct len as [|len]; [lia || reflexivity|]); lia. Qed.

(** A number other than zero and NaN, by its magnitude. *)
Lemma magnitude_reads (n b1 b2 : bool) (Q m : Z) (w : value) : 0 < Q -> b1 && b2 = false ->
  (Q < unit -> b1 = true /\ scaled m = Q /\ w = double (with_sign n m)) ->
  (unit <= Q < 2 ^ 63 * unit -> Q mod unit = 0 -> w = integer_value b1 b2 (if n then - (Q / unit) else Q / unit)) ->
  (unit <= Q < 2 ^ 63 * unit -> Q mod unit <> 0 -> b1 = true /\ scaled m = Q /\ num m = Some Q /\ w = double (with_sign n m)) ->
  (2 ^ 63 * unit <= Q -> scaled m = Q /\ (b1 = true /\ w = double (with_sign n m) \/
     b1 = false /\ b2 = true /\ with_sign n m = of_Z (- 2 ^ 63) /\ w = VLong (- 2 ^ 63))) ->
  0 <= m <= inf ->
  reads (signed n (pos_bytes ver n Q m)) [b1; b2] w.
Proof.
  intros HQ Hb Hs Hi Hfr Hl Hm fuel rest cur rem Hrest Hat Hfuel. pose proof unit_pos as Hu. cbn [app] in Hat.
  destruct fuel as [|fuel].
  { destruct (pos_bytes_head ver n Q m HQ) as (c & r & E & _). rewrite E, signed_cons in Hfuel. cbn in Hfuel. lia. }
  unfold pos_bytes. destruct (Z.ltb_spec Q unit) as [Hlt|Hge].
  { destruct (Hs Hlt) as (-> & Es & ->). destruct b2; [discriminate|].
    assert (0 < m) by (destruct (Z.eq_dec m 0) as [->|]; [rewrite scaled_0 in Es|]; lia).
    destruct (small_decodes t dec n inv m rest cur rem) as (c & E & Hc); [done|lia|done|].
    eexists _, _, c. split; [apply signed_cons|]. split; [done|]. rewrite <- E. by destruct n. }
  destruct (Z.ltb_spec Q (2 ^ 63 * unit)) as [Hlt|Hge'].
  - assert (0 < Q / unit) by (apply Z.div_str_pos; lia).
    assert (Q / unit < 2 ^ 63) by (apply Z.div_lt_upper_bound; lia).
    destruct (Z.eqb_spec (Q mod unit) 0) as [Hz|Hz].
    + rewrite (Hi ltac:(lia) Hz). destruct (integer_decodes t dec n inv b1 b2 (Q / unit) rest cur rem) as (c & E & Hc); [done..|].
      eexists _, _, c. rewrite <- (app_nil_r (int_bytes _)). split; [apply signed_int_bytes|]. split; [done|].
      rewrite int_dispatch by (apply byte_count; lia). rewrite <- E. do 2 f_equal. destruct n; by rewrite app_nil_r.
    + destruct (Hfr ltac:(lia) Hz) as (-> & Es & Nm & ->). destruct b2; [discriminate|].
      destruct (fraction_decodes t dec n inv m Q rest cur rem) as (c & E & Hc); [done..|].
      eexists _, _, c. split; [apply signed_int_bytes|]. split; [done|].
      rewrite int_dispatch by (apply byte_count; lia). rewrite <- E, flip_if_app, <- app_assoc. done.
  - destruct (Hl Hge') as [Es Hw].
    destruct (large_decodes t dec n inv b1 b2 m rest cur rem) as (c & E & Hc); [done|lia| |done|].
    { destruct Hw as [[-> _]|(-> & -> & Ew & _)]; [left; destruct b2; [discriminate Hb|reflexivity]|right; split; [reflexivity|exact Ew]]. }
    eexists _, _, c. split; [apply signed_cons|]. split; [done|].
    assert (w = if b1 then double (with_sign n m) else VLong (- 2 ^ 63)) as ->.
    { destruct Hw as [[-> ->]|(-> & _ & _ & ->)]; reflexivity. }
    rewrite <- E. destruct n; reflexivity.
Qed.

Lemma double_raw (raw : bytes) : bytes_ok raw -> length raw = 8%nat -> double (le_decode raw) = VDouble raw.
Proof. intros H E. unfold double. f_equal. rewrite <- E. by apply le_encode_decode. Qed.

Lemma nan_reads : reads [30] [true; false] (double quiet_NaN).
Proof.
  intros [|fuel] rest cur rem Hrest Hat Hfuel; [cbn in Hfuel; lia|].
  destruct (with_bits_at t cur true false rem rest Hat) as (c & E & Hc).
  exists 30, [], c. split; [done|]. split; [done|].
  assert (flip_if inv [] ++ rest = rest) as -> by (by destruct inv). cbn [toBsonValue].
  change (30 =? CType.kNumericNaN) with true. repeat (change (30 =? ?k) with false; cbv iota). cbv iota.
  rewrite E, bind_Ret. done.
Qed.
Lemma zero_reads (bits : list bool) (z : Z) (w : value) :
  (forall cur rem, at_bits t cur (bits ++ rem) -> exists cur', TB.readZero t cur = Ret (z, cur') /\ at_bits t cur' rem) ->
  w = (if z =? TB.kDouble then double 0 else if z =? TB.kInt then VInt 0 else if z =? TB.kLong then VLong 0
       else double (Dbl.neg 0)) -> 0 <= z <= 3 ->
  reads [41] bits w.
Proof.
  intros Hz -> Hz3 [|fuel] rest cur rem Hrest Hat Hfuel; [cbn in Hfuel; lia|].
  destruct (Hz cur rem Hat) as (c & E & Hc). exists 41, [], c. split; [done|]. split; [done|].
  assert (flip_if inv [] ++ rest = rest) as -> by (by destruct inv).
  change (toBsonValue t dec (S fuel) 41 inv (rest, cur)) with
    ('(zeroType, s') ← with_bits (TB.readZero t) (rest, cur);
      if zeroType =? TB.kDouble then Ret (double 0, s')
      else if zeroType =? TB.kInt then Ret (VInt 0, s')
      else if zeroType =? TB.kLong then Ret (VLong 0, s')
      else if zeroType =? TB.kNegativeDoubleZero then Ret (double (Dbl.neg 0), s')
      else dec 41 inv (rest, cur)).
  unfold with_bits. cbn [fst snd]. rewrite E, !bind_Ret.
  assert (z = 0 \/ z = 1 \/ z = 2 \/ z = 3) as [->|[->|[->| ->]]] by lia; reflexivity.
Qed.

Lemma double_reads (raw : bytes) : bytes_ok raw -> length raw = 8%nat ->
  reads (kbytes ver (VDouble raw)) (kbits ver (VDouble raw)) (norm (VDouble raw)).
Proof.
  intros Hraw Hlen. pose proof (le_decode_range raw Hraw) as Hr. rewrite Hlen in Hr. change (256 ^ Z.of_nat 8) with (2 ^ 64) in Hr.
  pose proof (double_raw raw Hraw Hlen) as Eraw. cbn [kbytes kbits norm].
  unfold number_bytes, magnitude_pattern. cbn [CmpLemmas.number]. cbv [default from_option id].
  set (b := le_decode raw) in *. rewrite CmpLemmas.num_isnan. destruct (num b) as [q|] eqn:Hq.
  2:{ destruct (nan_compare b 0 Hq) as (_ & _ & -> & _). rewrite bool_decide_eq_true_2 by done. apply nan_reads. }
  rewrite bool_decide_eq_false_2, (eq_num b 0 q 0), <- Eraw by done. destruct (Z.eqb_spec q 0) as [->|H0]; cbn [andb].
  - assert (E0 : b = with_sign (signbit b) 0).
    { rewrite (pattern_parts b Hr) at 1. f_equal. pose proof (magnitude_range b).
      unfold num in Hq. destruct (isnan b); [done|]. injection Hq as Hq.
      apply scaled_inj; [lia|done|]. rewrite scaled_0. destruct (signbit b); lia. }
    cbn [num_bytes Z.eqb]. destruct (signbit b); rewrite E0.
    + apply (zero_reads _ 3); [apply readNegativeZero_at|reflexivity|lia].
    + apply (zero_reads _ 2); [|reflexivity|lia]. intros cur rem. apply (readZero_at _ true false). reflexivity.
  - rewrite num_bytes_signed by done. destruct (num_parts b q Hr Hq H0) as (Hm & Em & Nm & Hsg & Hp & _).
    set (m := magnitude b) in *. pose proof unit_pos as Hu.
    apply magnitude_reads; [lia|reflexivity|by rewrite <- Hp|..|done].
    + intros Hmid Hz. rewrite Hp. unfold integer_value. f_equal.
      set (ip := Z.abs q / unit) in *. assert (Eip : Z.abs q = ip * unit) by (pose proof (Z.div_mod (Z.abs q) unit); unfold ip; lia).
      assert (0 < ip) by (unfold ip; apply Z.div_str_pos; lia).
      rewrite (of_Z_pattern _ m).
      * f_equal. destruct (Z.ltb_spec q 0); symmetry; [apply Z.ltb_lt|apply Z.ltb_ge]; lia.
      * split; [lia|]. by apply (middle_pattern m (Z.abs q)).
      * rewrite Em, Eip. f_equal. destruct (q <? 0); lia.
    + intros _ _. by rewrite <- Hp.
    + intros _. split; [done|]. left. by rewrite <- Hp.
Qed.

Lemma integer_reads (k : Z) (b : bool) : - 2 ^ 63 <= k < 2 ^ 63 -> (b = false -> - 2 ^ 31 <= k < 2 ^ 31) ->
  reads (num_bytes ver (Some (k * unit)) (magnitude (of_Z k))) [false; b] (if b then VLong k else VInt k).
Proof.
  intros Hk Hb. pose proof unit_pos as Hu. destruct (Z.eq_dec k 0) as [->|H0].
  { apply (zero_reads _ (Z.b2z b)); [|by destruct b|destruct b; cbn; lia].
    intros cur rem H. destruct (readZero_at cur false b rem) as (c & E & Hc); [done|done|]. exists c. by destruct b. }
  rewrite num_bytes_signed by nia. set (n := k * unit <? 0).
  assert (Hn : n = (k <? 0)) by (unfold n; destruct (Z.ltb_spec (k * unit) 0), (Z.ltb_spec k 0); nia || done).
  assert (EQ : Z.abs (k * unit) = Z.abs k * unit) by (rewrite Z.abs_mul, (Z.abs_eq unit) by lia; done).
  rewrite EQ. apply magnitude_reads; [nia|done|nia|..|apply magnitude_of_Z].
  - intros _ _. rewrite Z.div_mul, Hn by lia. unfold integer_value.
    assert ((if k <? 0 then - Z.abs k else Z.abs k) = k) as -> by (destruct (Z.ltb_spec k 0); lia).
    destruct b; [done|]. by rewrite wraps_small by (cbn; lia).
  - intros _ Hz. by rewrite Z.mod_mul in Hz by lia.
  - intros Hlarge. assert (k = - 2 ^ 63) by nia. assert (b = true) as -> by (destruct b; [done|lia]).
    split; [subst k; by vm_compute|]. right. split; [done|]. split; [done|]. split; [|congruence].
    rewrite Hn. subst k. by vm_compute.
Qed.

(** *** The other values *)

(** The branch of [toBsonValue] for a concrete type byte. *)
Ltac dispatch :=
  cbn [toBsonValue];
  repeat match goal with
  | |- context [if ?a =? ?b then _ else _] =>
      let x := eval vm_compute in (a =? b) in
      lazymatch x with
      | true => change (a =? b) with true; cbv iota
      | false => change (a =? b) with false; cbv iota
      end
  end.

(** A value without type bits. *)
Lemma plain_reads (c : Z) (tail : bytes) (w : value) :
  (forall fuel rest cur, follows (flip_if inv rest) -> (length tail <= fuel)%nat ->
    toBsonValue t dec (S fuel) c inv (flip_if inv tail ++ rest, cur) = Ret (w, (rest, cur))) ->
  reads (c :: tail) [] w.
Proof.
  intros H [|fuel] rest cur rem Hrest Hat Hfuel; [cbn in Hfuel; lia|].
  exists c, tail, cur. split; [done|]. split; [done|]. apply H; [done|]. cbn in Hfuel. lia.
Qed.
Lemma flip_if_nil (rest : bytes) : flip_if inv [] ++ rest = rest.
Proof. by destruct inv. Qed.

Lemma date_decoded (n : Z) : - 2 ^ 63 <= n < 2 ^ 63 -> wraps 64 (Z.lxor (n + 2 ^ 63) (Z.shiftl 1 63)) = n.
Proof.
  intros Hn. rewrite <- date_code, Z.lxor_assoc, Z.lxor_nilpotent, Z.lxor_0_r by done. by apply wraps_wrapu.
Qed.

Lemma stringlike_reads (b : bool) (s : bytes) : bytes_ok s ->
  reads (CType.kStringLike :: str_bytes s) [b] (if b then VSymbol s else VString s).
Proof.
  intros Hs [|fuel] rest cur rem Hrest Hat Hfuel; [cbn in Hfuel; lia|].
  destruct (readBit_at t cur b rem Hat) as (c & E & Hc).
  exists CType.kStringLike, (str_bytes s), c. split; [done|]. split; [done|]. dispatch.
  unfold with_bits, TB.readStringLike. cbn [fst snd]. rewrite E, !bind_Ret, readString_app, bind_Ret by done. by destruct b.
Qed.
Lemma bindata_reads subtype (d : bytes) : byte_ok subtype -> bytes_ok d -> Z.of_nat (length d) < 2 ^ 31 ->
  reads (kbytes ver (VBinData subtype d)) [] (VBinData subtype d).
Proof.
  intros Ht Hd Hl. apply plain_reads. intros fuel rest cur _ _. dispatch.
  assert (Hsize : exists l, (if Z.of_nat (length d) <? 255 then [Z.of_nat (length d)] else 255 :: be_encode 4 (Z.of_nat (length d))) = l /\
    forall more, ('(size, s) ← readByte inv (flip_if inv l ++ more, cur); 
      if size =? 255 then readBE 4 inv s else Ret (size, s)) = Ret (Z.of_nat (length d), (more, cur))).
  { eexists. split; [done|]. intros more. destruct (Z.ltb_spec (Z.of_nat (length d)) 255).
    - rewrite readByte_app, bind_Ret by lia. destruct (Z.eqb_spec (Z.of_nat (length d)) 255); [lia|done].
    - change (255 :: be_encode 4 (Z.of_nat (length d))) with ([255] ++ be_encode 4 (Z.of_nat (length d))).
      rewrite flip_if_app, <- app_assoc, readByte_app, bind_Ret by done. cbn [Z.eqb Pos.eqb]. apply readBE_app. cbn. lia. }
  destruct Hsize as (l & -> & Hsize). change (subtype :: d) with ([subtype] ++ d). rewrite !flip_if_app, <- !app_assoc.
  specialize (Hsize (flip_if inv [subtype] ++ flip_if inv d ++ rest)).
  destruct (readByte inv (flip_if inv l ++ flip_if inv [subtype] ++ flip_if inv d ++ rest, cur)) as [[size s]| | |]; try discriminate.
  rewrite bind_Ret in Hsize. rewrite bind_Ret, Hsize, bind_Ret, readByte_app, bind_Ret by done.
  rewrite Nat2Z.id, skip_flip, bind_Ret, flipped_flip_if by done. done.
Qed.

Lemma leaf_reads (v : value) : match v with VObject _ | VArray _ | VCodeWScope _ _ => False | _ => True end ->
  key_ok v -> reads (kbytes ver v) (kbits ver v) (norm v).
Proof.
  intros Hleaf [Hwf Hk]. destruct v; try done; cbn [kbits norm].
  all: try (apply plain_reads; intros fuel rest cur _ _; rewrite flip_if_nil; dispatch; reflexivity).
  - destruct Hwf. by apply double_reads.
  - by apply (stringlike_reads false).
  - destruct Hwf. by apply bindata_reads.
  - destruct Hwf as [Hb Hl]. apply plain_reads. intros fuel rest cur _ _. dispatch.
    rewrite <- Hl, skip_flip, bind_Ret, flipped_flip_if by done. done.
  - destruct b; apply plain_reads; intros fuel rest cur _ _; rewrite flip_if_nil; dispatch; reflexivity.
  - apply plain_reads. intros fuel rest cur _ _. dispatch. cbn in Hwf.
    rewrite readBE_app, bind_Ret, date_decoded by (cbn; lia). done.
  - destruct Hwf as [Hp Hf]. apply plain_reads. intros fuel rest cur _ _. dispatch.
    replace (pattern ++ [0] ++ flags ++ [0]) with ((pattern ++ [0]) ++ (flags ++ [0])) by (by rewrite <- app_assoc).
    rewrite flip_if_app, <- app_assoc, readName_app, bind_Ret, readName_app, bind_Ret by done. done.
  - destruct Hwf as (Hns & Ho & Hl), Hk as [_ Hsz]. apply plain_reads. intros fuel rest cur _ _. dispatch.
    rewrite !flip_if_app, <- !app_assoc, readBE_app, bind_Ret by (cbn; lia).
    rewrite Nat2Z.id, skip_flip, bind_Ret, <- Hl, skip_flip, bind_Ret, !flipped_flip_if by done. done.
  - apply plain_reads. intros fuel rest cur Hr _. dispatch. by rewrite readString_app, bind_Ret by done.
  - by apply (stringlike_reads true).
  - cbn in Hwf. apply (integer_reads n false); lia.
  - cbn in Hwf. apply plain_reads. intros fuel rest cur _ _. dispatch. by rewrite readBE_app, bind_Ret by (cbn; lia).
  - cbn in Hwf. apply (integer_reads n true); [done|]. intros [=].
Qed.

(** *** Objects and arrays *)

(** The equations of the recursive readers. *)
Lemma toBson_S fuel s : toBson t dec (S fuel) inv s =
  '(c, s) ← readByte inv s;
  if c =? 0 then Ret ([], s)
  else
    '(name, s) ← readName inv s;
    '(ctype, s) ← readByte inv s;
    '(v, s) ← toBsonValue t dec fuel ctype inv s;
    '(fs, s) ← toBson t dec fuel inv s;
    Ret ((name, v) :: fs, s).
Proof. reflexivity. Qed.
Lemma toArray_S fuel i s : toArray t dec (S fuel) i inv s =
  '(elemType, s) ← readByte inv s;
  if elemType =? 0 then Ret ([], s)
  else
    '(v, s) ← toBsonValue t dec fuel elemType inv s;
    '(fs, s) ← toArray t dec fuel (S i) inv s;
    Ret ((Enc.numStr i, v) :: fs, s).
Proof. reflexivity. Qed.
Lemma toBsonValue_object fuel s : toBsonValue t dec (S fuel) CType.kObject inv s =
  '(fs, s) ← toBson t dec fuel inv s; Ret (VObject fs, s).
Proof. reflexivity. Qed.
Lemma toBsonValue_array fuel s : toBsonValue t dec (S fuel) CType.kArray inv s =
  '(fs, s) ← toArray t dec fuel 0 inv s; Ret (VArray fs, s).
Proof. reflexivity. Qed.
Lemma toBsonValue_scope fuel s : toBsonValue t dec (S fuel) CType.kCodeWithScope inv s =
  '(code, s) ← readString inv s; '(scope, s) ← toBson t dec fuel inv s; Ret (VCodeWScope code scope, s).
Proof. reflexivity. Qed.

Definition readable (v : value) : Prop := key_ok v -> reads (kbytes ver v) (kbits ver v) (norm v).

Lemma flip_if_follows (l rest : bytes) : follows l -> follows (flip_if inv (flip_if inv l ++ rest)).
Proof.
  intros H. rewrite flip_if_app, flip_if_twice. apply follows_app. by destruct inv.
Qed.
(** The type byte of a value. *)
Lemma type_byte (v : value) (c : Z) (tail : bytes) : key_ok v -> kbytes ver v = c :: tail -> 10 <= c <= 240.
Proof.
  intros Hk E. destruct (Order.kbytes_head ver v Hk) as (c' & r & E' & Hc). rewrite E in E'. injection E' as <- _.
  pose proof (Order.generic_range v). lia.
Qed.

Lemma toBson_reads (fs : list field) : Forall (fun f : field => readable f.2) fs ->
  Forall (fun f : field => name_ok f.1 /\ key_ok f.2) fs ->
  forall fuel rest cur rem, at_bits t cur (fields_bits ver fs ++ rem) -> (length (obody ver fs) <= fuel)%nat ->
  exists cur', at_bits t cur' rem /\
    toBson t dec fuel inv (flip_if inv (obody ver fs) ++ rest, cur) = Ret (norm_fields fs, (rest, cur')).
Proof.
  induction 1 as [|[n w] fs Hw _ IH]; intros Hok fuel rest cur rem Hat Hfuel.
  { destruct fuel as [|fuel]; [cbn in Hfuel; lia|]. exists cur. split; [done|]. rewrite toBson_S.
    change (obody ver []) with [0]. by rewrite readByte_app, bind_Ret. }
  apply Forall_cons in Hok as [[Hn Hkw] Hok]. cbn [fst snd] in *.
  change (fields_bits ver ((n, w) :: fs)) with (kbits ver w ++ fields_bits ver fs) in Hat. rewrite <- app_assoc in Hat.
  rewrite obody_cons in *. cbn [length] in Hfuel. rewrite !length_app in Hfuel.
  destruct fuel as [|fuel]; [lia|]. rewrite toBson_S.
  change (bsonTypeToGenericKeyStringType w :: (n ++ [0]) ++ kbytes ver w ++ obody ver fs) with
    ([bsonTypeToGenericKeyStringType w] ++ (n ++ [0]) ++ kbytes ver w ++ obody ver fs).
  pose proof (Order.generic_range w). pose proof (Order.width_nonneg w).
  rewrite !flip_if_app, <- !app_assoc, readByte_app, bind_Ret by lia.
  destruct (Z.eqb_spec (bsonTypeToGenericKeyStringType w) 0); [lia|].
  rewrite app_assoc, <- (flip_if_app inv n [0]). rewrite readName_app, bind_Ret by done.
  destruct (Hw Hkw fuel (flip_if inv (obody ver fs) ++ rest) cur _ (flip_if_follows _ _ (Order.obody_follows ver fs)) Hat)
    as (c & tail & c1 & Ek & H1 & E1); [lia|].
  pose proof (type_byte w c tail Hkw Ek) as Hc. rewrite Ek. change (c :: tail) with ([c] ++ tail).
  rewrite flip_if_app, <- app_assoc, readByte_app, bind_Ret by lia. rewrite E1, bind_Ret.
  destruct (IH Hok fuel rest c1 rem H1) as (c2 & H2 & E2); [lia|].
  exists c2. split; [done|]. by rewrite E2, bind_Ret.
Qed.

Lemma toArray_reads (fs : list field) : Forall (fun f : field => readable f.2) fs ->
  Forall (fun f : field => name_ok f.1 /\ key_ok f.2) fs ->
  forall i fuel rest cur rem, array_names i fs -> at_bits t cur (fields_bits ver fs ++ rem) ->
  (length (abody ver fs) <= fuel)%nat ->
  exists cur', at_bits t cur' rem /\
    toArray t dec fuel i inv (flip_if inv (abody ver fs) ++ rest, cur) = Ret (norm_fields fs, (rest, cur')).
Proof.
  induction 1 as [|[n w] fs Hw _ IH]; intros Hok i fuel rest cur rem Hnames Hat Hfuel.
  { destruct fuel as [|fuel]; [cbn in Hfuel; lia|]. exists cur. split; [done|]. rewrite toArray_S.
    change (abody ver []) with [0]. by rewrite readByte_app, bind_Ret. }
  pose proof Hok as [[Hn Hkw] Hok']%Forall_cons. cbn [fst snd] in *.
  unfold array_names in Hnames. cbn in Hnames. injection Hnames as -> Hnames.
  change (fields_bits ver ((numStr i, w) :: fs)) with (kbits ver w ++ fields_bits ver fs) in Hat. rewrite <- app_assoc in Hat.
  rewrite abody_cons in *. rewrite !length_app in Hfuel.
  assert (Hab : (0 < length (abody ver fs))%nat) by (unfold abody; rewrite length_app; cbn; lia).
  destruct fuel as [|fuel]; [lia|]. rewrite toArray_S, flip_if_app, <- app_assoc.
  destruct (Hw Hkw fuel (flip_if inv (abody ver fs) ++ rest) cur _ (flip_if_follows _ _ (Order.abody_follows ver fs Hok')) Hat)
    as (c & tail & c1 & Ek & H1 & E1); [lia|].
  pose proof (type_byte w c tail Hkw Ek) as Hc. rewrite Ek. change (c :: tail) with ([c] ++ tail).
  rewrite flip_if_app, <- app_assoc, readByte_app, bind_Ret by lia. destruct (Z.eqb_spec c 0); [lia|].
  rewrite E1, bind_Ret.
  destruct (IH Hok' (S i) fuel rest c1 rem Hnames H1) as (c2 & H2 & E2); [rewrite Ek in Hfuel; cbn in Hfuel; lia|].
  exists c2. split; [done|]. by rewrite E2, bind_Ret.
Qed.

(** Every value that the theorems are about is read back. *)
Lemma value_reads (v : value) : readable v.
Proof.
  induction v as [fs IH|fs IH|code fs IH|v Hleaf] using value_nested_ind; intros Hk.
  - pose proof (key_ok_object fs Hk) as Hok. intros [|fuel] rest cur rem Hrest Hat Hfuel; [cbn in Hfuel; lia|].
    rewrite kbytes_object in *. destruct (toBson_reads fs IH Hok fuel rest cur rem Hat) as (c & Hc & E); [cbn in Hfuel; lia|].
    exists CType.kObject, (obody ver fs), c. split; [done|]. split; [done|]. by rewrite toBsonValue_object, E, bind_Ret.
  - destruct (key_ok_array fs Hk) as [Hnames Hok]. intros [|fuel] rest cur rem Hrest Hat Hfuel; [cbn in Hfuel; lia|].
    rewrite kbytes_array in *. destruct (toArray_reads fs IH Hok 0 fuel rest cur rem Hnames Hat) as (c & Hc & E); [cbn in Hfuel; lia|].
    exists CType.kArray, (abody ver fs), c. split; [done|]. split; [done|]. by rewrite toBsonValue_array, E, bind_Ret.
  - destruct (key_ok_scope code fs Hk) as [Hcode Hok]. intros [|fuel] rest cur rem Hrest Hat Hfuel; [cbn in Hfuel; lia|].
    rewrite kbytes_scope in *. cbn [length] in Hfuel. rewrite length_app in Hfuel.
    destruct (toBson_reads fs IH Hok fuel rest cur rem Hat) as (c & Hc & E); [lia|].
    exists CType.kCodeWithScope, (str_bytes code ++ obody ver fs), c. split; [done|]. split; [done|].
    rewrite toBsonValue_scope, flip_if_app, <- app_assoc, readString_app, bind_Ret by (done || apply flip_if_follows, Order.obody_follows).
    by rewrite E, bind_Ret.
  - by apply leaf_reads.
Qed.

End values.

(** *** What a key gives back has the same bytes *)

Definition same_key (v w : value) : Prop :=
  key_ok w /\ (forall ver, kbytes ver w = kbytes ver v) /\ (forall ver, kbits ver w = kbits ver v) /\
  bsonTypeToGenericKeyStringType w = bsonTypeToGenericKeyStringType v.

Lemma norm_fields_same (fs : list field) : Forall (fun f : field => key_ok f.2 -> same_key f.2 (norm f.2)) fs ->
  Forall (fun f : field => name_ok f.1 /\ key_ok f.2) fs ->
  Forall (fun f : field => name_ok f.1 /\ key_ok f.2) (norm_fields fs) /\ (norm_fields fs).*1 = fs.*1 /\
  (forall ver, obody ver (norm_fields fs) = obody ver fs) /\ (forall ver, abody ver (norm_fields fs) = abody ver fs) /\
  (forall ver, fields_bits ver (norm_fields fs) = fields_bits ver fs).
Proof.
  induction 1 as [|[n v] fs Hv _ IH]; [done|]. intros [[Hn Hk] Hfs]%Forall_cons. cbn [fst snd] in *.
  destruct (Hv Hk) as (Hk' & Hb & Hbits & Ht), (IH Hfs) as (H1 & H2 & H3 & H4 & H5).
  change (norm_fields ((n, v) :: fs)) with ((n, norm v) :: norm_fields fs). split; [by constructor|].
  split; [cbn; by rewrite H2|]. split; [intros ver; by rewrite !obody_cons, Ht, Hb, H3|].
  split; [intros ver; by rewrite !abody_cons, Hb, H4|]. intros ver. unfold fields_bits in *. cbn. by rewrite Hbits, H5.
Qed.
Lemma fields_key_ok (fs : list field) : Forall (fun f : field => name_ok f.1 /\ key_ok f.2) fs ->
  List.fold_right (fun (f : bytes * value) P => match f with (n, w) => name_ok n /\ wf_value w /\ P end) True fs /\
  List.fold_right (fun (f : field) P => match f with (_, w) => keyable w /\ P end) True fs.
Proof. induction 1 as [|[n w] fs (? & ? & ?) _ [IH1 IH2]]; [done|]. cbn in *. auto. Qed.

Lemma nan_same (raw : bytes) : isnan (le_decode raw) = true -> same_key (VDouble raw) (double quiet_NaN).
Proof.
  intros E. split; [by split; [solve_wf|]|]. split; [|split; [|done]]; intros ver.
  - cbn [kbytes double]. unfold number_bytes. cbn [CmpLemmas.number default from_option id]. unfold num. rewrite E. reflexivity.
  - cbn [kbits double]. unfold Dbl.eq, num. rewrite E. by destruct ver.
Qed.
Lemma norm_same (v : value) : key_ok v -> same_key v (norm v).
Proof.
  induction v as [fs IH|fs IH|code fs IH|v Hleaf] using value_nested_ind; intros Hk.
  - destruct (norm_fields_same fs IH (key_ok_object fs Hk)) as (H1 & _ & H3 & _ & H5). destruct (fields_key_ok _ H1).
    split; [by split|]. split; [intros ver; apply (f_equal (cons _)), H3|]. by split; [exact H5|].
  - destruct (key_ok_array fs Hk) as [Hn Hf]. destruct (norm_fields_same fs IH Hf) as (H1 & H2 & _ & H4 & H5). destruct (fields_key_ok _ H1).
    split; [split; [done|split; [|done]]|].
    + unfold array_names in *. change (List.map _ fs) with (norm_fields fs). rewrite H2. unfold norm_fields. by rewrite length_map.
    + split; [intros ver; apply (f_equal (cons _)), H4|]. by split; [exact H5|].
  - destruct (key_ok_scope code fs Hk) as [Hc Hf]. destruct (norm_fields_same fs IH Hf) as (H1 & _ & H3 & _ & H5). destruct (fields_key_ok _ H1).
    split; [by split; [split|]|]. split; [intros ver; apply (f_equal (fun b => _ :: _ ++ b)), H3|]. by split; [exact H5|].
  - destruct v; try (by split); try done. cbn [norm]. destruct (Dbl.isnan (le_decode raw)) eqn:E; [|by split].
    by apply nan_same.
Qed.
End Values.

(** ** Reading keys *)
Module KeyRead.
Import Dbl DblLemmas Lex Num Enc Ref KD Read BitReader Nums Values Keys.

(** *** Record ids *)

Lemma rid_loop_readBytes (n : nat) (repr : Z) (s : st) : rid_loop n repr s = readBytes n repr false s.
Proof.
  revert repr s. induction n as [|n IH]; intros repr s; [done|]. cbn [rid_loop readBytes].
  destruct (readByte false s) as [[c s']| | |]; [|done..]. by rewrite !bind_Ret, IH.
Qed.

Lemma land_shift (a b k : Z) : 0 <= k -> 0 <= b < 2 ^ k ->
  Z.land (a * 2 ^ k + b) (Z.ones k) = b /\ Z.shiftr (a * 2 ^ k + b) k = a.
Proof.
  intros Hk Hb. rewrite Z.land_ones, Z.shiftr_div_pow2 by lia. split; symmetry.
  - apply Z.mod_unique with a; lia.
  - apply Z.div_unique with b; lia.
Qed.

Lemma decodeRecordId_app (r : Z) rest cur : 0 <= r < 2 ^ 63 ->
  decodeRecordId (rid_bytes r ++ rest, cur) = Ret (r, (rest, cur)).
Proof.
  intros Hr. destruct (rid_extra_bounds r Hr) as [He _]. destruct (rid_split r Hr) as (-> & H1 & H2 & Htop).
  set (e := rid_extra r) in *. set (top := r / 2 ^ (5 + 8 * e)) in *.
  assert (Htop0 : 0 <= top) by (apply Z.div_pos; [lia|apply Z.pow_pos_nonneg; lia]).
  assert (E8 : 256 ^ e = 2 ^ (8 * e)) by (change 256 with (2 ^ 8); by rewrite <- Z.pow_mul_r by lia).
  assert (Hp : 0 < 256 ^ e) by (apply Z.pow_pos_nonneg; lia).
  assert (Etop : top = r / 32 / 256 ^ e).
  { unfold top. rewrite Z.div_div by lia. f_equal. rewrite Z.pow_add_r, E8 by lia. done. }
  pose proof (Z.mod_pos_bound (r / 32) (256 ^ e)). pose proof (Z.div_mod (r / 32) (256 ^ e)).
  pose proof (Z.div_mod r 32). pose proof (Z.mod_pos_bound r 32).
  assert (Hr32 : top * 256 ^ Z.of_nat (Z.to_nat e) + r / 32 mod 256 ^ e = r / 32) by (rewrite Z2Nat.id by lia; nia).
  unfold decodeRecordId. cbn [app].
  pose proof (readByte_app false (e * 32 + top)) as HB. cbn [flip_if app] in HB. rewrite HB, bind_Ret by done.
  destruct (land_shift e top 5) as [Eland Eshift]; [lia|lia|]. change (2 ^ 5) with 32 in *. change (Z.ones 5) with 31 in *.
  rewrite Eshift, Eland, rid_loop_readBytes, <- app_assoc.
  pose proof (readBytes_app (Z.to_nat e) top (r / 32 mod 256 ^ e) false ([r mod 32 * 8 + e] ++ rest) cur) as HR.
  cbn [flip_if] in HR. rewrite HR, bind_Ret, Hr32 by (rewrite ?Hr32, ?Z2Nat.id; lia). clear HR HB.
  pose proof (readByte_app false (r mod 32 * 8 + e) rest cur ltac:(lia)) as HB. cbn [flip_if app] in HB.
  cbn [app]. rewrite HB, bind_Ret.
  destruct (land_shift (r mod 32) e 3) as [Eland' Eshift']; [lia|lia|]. change (2 ^ 3) with 8 in *. change (Z.ones 3) with 7 in *.
  rewrite Eland', Z.eqb_refl, Eshift'. cbn [verify]. rewrite bind_Ret, Z.shiftl_mul_pow2, wrapu_small by lia.
  rewrite <- Z.shiftl_mul_pow2, Z.lor_comm, lor_add, wraps_small by (cbn; lia). do 2 f_equal. lia.
Qed.

Lemma record_id_at_end (p : bytes) (r : Z) : 0 <= r < 2 ^ 63 -> decodeRecordIdAtEnd (p ++ rid_bytes r) = Ret r.
Proof.
  intros Hr. destruct (rid_extra_bounds r Hr) as [He _]. destruct (rid_split r Hr) as (Esp & _ & H2 & _).
  set (e := rid_extra r) in *.
  assert (Hlen : length (rid_bytes r) = (2 + Z.to_nat e)%nat) by (unfold rid_bytes; fold e; rewrite length_be_encode; lia).
  assert (Hlast : last (p ++ rid_bytes r) = Some (r mod 32 * 8 + e)).
  { rewrite Esp, app_comm_cons, app_assoc. apply last_snoc. }
  unfold decodeRecordIdAtEnd. rewrite Hlast. cbv [default from_option id].
  destruct (land_shift (r mod 32) e 3) as [Eland _]; [lia|lia|]. change (2 ^ 3) with 8 in Eland. change (Z.ones 3) with 7 in Eland.
  rewrite Eland, length_app, Hlen.
  destruct (Nat.leb_spec 2 (length p + (2 + Z.to_nat e))); [|lia]. cbn [verify]. rewrite bind_Ret.
  destruct (Nat.leb_spec (2 + Z.to_nat e) (length p + (2 + Z.to_nat e))); [|lia]. cbn [verify]. rewrite bind_Ret.
  replace (length p + (2 + Z.to_nat e) - (2 + Z.to_nat e))%nat with (length p) by lia. rewrite drop_app_length.
  rewrite <- (app_nil_r (rid_bytes r)), decodeRecordId_app, bind_Ret by done. done.
Qed.

(** *** Keys *)

Section keys.
Variable t : TB.TypeBits.
Variable dec : Z -> bool -> st -> res (value * st).
Let ver := TB.version t.
Variable ord : Z.

(** What ends a key: a discriminator and [kEnd], read with the bit of the next field. *)
Lemma key_end (d : Discriminator) (i fuel : nat) rest cur : Z.testbit ord (Z.of_nat i) = false ->
  key_loop t dec (S fuel) i ord (discriminator_bytes d ++ kEnd :: rest, cur) = Ret [].
Proof.
  intros Hi. cbn [key_loop]. rewrite Order.get_testbit, Hi. cbn [fst].
  pose proof (fun c => readByte_app false c) as HB. cbn [flip_if app] in HB.
  destruct d; cbn [discriminator_bytes app length Nat.eqb]; rewrite HB, bind_Ret by done.
  - reflexivity.
  - change ((kLess =? kLess) || (kLess =? kGreater)) with true. cbv iota. rewrite HB, bind_Ret by done. reflexivity.
  - change ((kGreater =? kLess) || (kGreater =? kGreater)) with true. cbv iota. rewrite HB, bind_Ret by done. reflexivity.
Qed.

Lemma key_reads (d : Discriminator) rest (fs : list field) : Forall (fun f : field => key_ok f.2) fs ->
  forall i fuel cur rem, Z.testbit ord (Z.of_nat (i + length fs)) = false ->
  at_bits t cur (fields_bits ver fs ++ rem) -> (length fs < fuel)%nat ->
  key_loop t dec fuel i ord (Order.key_bytes ver ord i fs ++ discriminator_bytes d ++ kEnd :: rest, cur) =
    Ret (List.map (fun f : field => ([], norm f.2)) fs).
Proof.
  induction 1 as [|[n v] fs Hv Hok IH]; intros i fuel cur rem Hbit Hat Hfuel; (destruct fuel as [|fuel]; [lia|]).
  { rewrite Nat.add_0_r in Hbit. by apply key_end. }
  cbn [snd length List.map] in *.
  change (fields_bits ver ((n, v) :: fs)) with (kbits ver v ++ fields_bits ver fs) in Hat. rewrite <- app_assoc in Hat.
  cbn [key_loop]. rewrite Order.get_testbit. set (inv := Z.testbit ord (Z.of_nat i)).
  set (more := Order.key_bytes ver ord (S i) fs ++ discriminator_bytes d ++ kEnd :: rest).
  replace (Order.key_bytes ver ord i ((n, v) :: fs) ++ discriminator_bytes d ++ kEnd :: rest)
    with (flip_if inv (kbytes ver v) ++ more) by (cbn [Order.key_bytes]; by rewrite <- app_assoc).
  assert (Hmore : Order.between more).
  { apply Order.key_bytes_between; [done|]. destruct d; eexists _, _; split; done. }
  assert (Hfol : follows (flip_if inv more)).
  { destruct inv; [by apply Order.between_flip_follows|by apply Order.between_follows]. }
  assert (Hval : forall k, (length (kbytes ver v) <= k)%nat -> exists c tail cur', kbytes ver v = c :: tail /\
    at_bits t cur' (fields_bits ver fs ++ rem) /\
    toBsonValue t dec k c inv (flip_if inv tail ++ more, cur) = Ret (norm v, (more, cur'))).
  { intros k Hk. by apply (value_reads t dec inv v Hv k more cur _ Hfol Hat). }
  destruct (Hval (length (kbytes ver v)) ltac:(lia)) as (c & tail & _ & Ek & _).
  pose proof (type_byte t v c tail Hv Ek) as Hc. rewrite Ek in *. change (c :: tail) with ([c] ++ tail) at 1 2.
  rewrite flip_if_app, <- app_assoc. cbn [fst].
  destruct (Nat.eqb_spec (length (flip_if inv [c] ++ flip_if inv tail ++ more)) 0) as [E0|_].
  { destruct inv; discriminate. }
  rewrite readByte_app, bind_Ret by lia.
  destruct (Z.eqb_spec c kLess), (Z.eqb_spec c kGreater); try (unfold kLess, kGreater in *; lia). cbn [orb]. rewrite bind_Ret.
  destruct (Z.eqb_spec c kEnd); [unfold kEnd in *; lia|]. cbn [fst].
  destruct (Hval (S (length (flip_if inv tail ++ more)))) as (c' & tail' & c1 & [= <- <-] & H1 & E1).
  { cbn [length]. rewrite length_app, length_flip_if. lia. }
  rewrite E1, bind_Ret. unfold more. rewrite (IH (S i) fuel c1 rem), bind_Ret; [done| |done|lia].
  rewrite <- Hbit. do 2 f_equal. lia.
Qed.

End keys.

Lemma key_bytes_length ver ord (fs : list field) : forall i, Forall (fun f : field => key_ok f.2) fs ->
  (length fs <= length (Order.key_bytes ver ord i fs))%nat.
Proof.
  induction fs as [|[n v] fs IH]; intros i Hok; [cbn; lia|]. apply Forall_cons in Hok as [Hv Hok].
  destruct (Order.kbytes_head ver v Hv) as (c & tail & E & _). cbn [Order.key_bytes length]. rewrite E, length_app, length_flip_if.
  specialize (IH (S i) Hok). cbn [length]. lia.
Qed.

(** The key of an entry, read with its type bits; and the record id at its end. *)
Lemma stored_key_read (D : Cmp.Decimal128) t dec (pattern : list field) ord (fs : list field) (tail : bytes) :
  Cmp.Ordering_make D pattern = Ret ord -> length pattern = length fs -> stored_key (TB.version t) fs ->
  at_bits t 0 (fields_bits (TB.version t) fs) ->
  key_toBson t dec (Order.key_bytes (TB.version t) ord 0 fs ++ kEnd :: tail) ord = Ret (norm_fields fs).
Proof.
  intros Ho Hlen [(Hok & _ & Hfit) Hnames] Hat.
  unfold key_toBson. rewrite (key_reads t dec ord kInclusive tail fs Hok 0 _ 0 []); [|..].
  - f_equal. unfold norm_fields. clear - Hnames. induction Hnames as [|[n v] fs Hn _ IH]; [done|].
    cbn in *. by rewrite IH, Hn.
  - cbn [Nat.add]. destruct (Pattern.Ordering_make_bits D pattern ord Ho) as [_ ->].
    unfold Pattern.descends. by rewrite <- Hlen, lookup_ge_None_2 by done.
  - by rewrite app_nil_r.
  - rewrite length_app. cbn [length]. pose proof (key_bytes_length (TB.version t) ord fs 0 Hok). lia.
Qed.
Lemma stored_id_read (p : bytes) (r : Z) : 0 <= r < 2 ^ 63 -> decodeRecordIdAtEnd (p ++ kEnd :: rid_bytes r) = Ret r.
Proof. change (kEnd :: rid_bytes r) with ([kEnd] ++ rid_bytes r). rewrite app_assoc. apply record_id_at_end. Qed.

(** C9. Index entries are read back: for an index whose ordering is made of its key
    pattern, the key string of an entry, decoded with the type bits that are stored next to
    it, gives the key (a NaN without its payload), and the end of the string gives the
    record id. As for the order ([key_ok]), the values are of every type but [NumberDecimal],
    and the namespace of a DBRef has no NUL (it would be read back cut there). *)
Theorem entry_round_trip (D : Cmp.Decimal128) enc dec ver (pattern : list field) ord junk junk' (fs : list field) (r : Z) more :
  length junk = 128%nat -> length junk' = 128%nat ->
  Cmp.Ordering_make D pattern = Ret ord -> length pattern = length fs ->
  stored_key ver fs -> 0 <= r < 2 ^ 63 ->
  exists ks t, KS.resetToKey enc ver junk fs ord r = Ret ks /\
    TB.resetFromBuffer ver junk' (TB.getBuffer (KS._typeBits ks) ++ more) = Ret (t, more) /\
    key_toBson t dec (KS._buffer ks) ord = Ret (norm_fields fs) /\
    decodeRecordIdAtEnd (KS._buffer ks) = Ret r.
Proof.
  intros Hj Hj' Ho Hlen Hs Hr. destruct (entry_encoded enc ver ord junk Hj fs r Hs Hr) as (ks & E & Hb & (_ & _ & Hrep)).
  destruct (stored_bits_read _ _ ver junk' more Hrep (proj2 (proj2 (proj1 Hs))) Hj') as (t & Et & Hv & Hat).
  exists ks, t. split; [done|]. split; [done|]. rewrite Hb. subst ver.
  split; [by apply (stored_key_read D t dec pattern)|by apply stored_id_read].
Qed.

(** A key of an index on four fields, the second one descending: a fraction, a NaN inside
    an array, a negative zero, and an object. *)
Definition demo_index : list field := [([97], VInt 1); ([98], VInt (-1)); ([99], VInt 1); ([100], VInt 1)].
Definition demo_key : list field :=
  [([], VDouble [0; 0; 0; 0; 0; 0; 22; 192]);
   ([], VArray [(numStr 0, VDouble [1; 0; 0; 0; 0; 0; 240; 127]); (numStr 1, VLong (- 2 ^ 63))]);
   ([], VDouble [0; 0; 0; 0; 0; 0; 0; 128]);
   ([], VObject [([120], VString [0; 255]); ([121], VInt (-7))])].

Lemma demo_key_stored : stored_key V1 demo_key.
Proof.
  split; [|by repeat constructor]. split; [|split; [vm_compute; lia|vm_compute; lia]].
  solve_keys.
Qed.

Lemma entry_round_trip_witness : exists ks t,
  KS.resetToKey no_append V1 demo_junk demo_key 2 77777 = Ret ks /\
  TB.resetFromBuffer V1 demo_junk (TB.getBuffer (KS._typeBits ks) ++ [1; 2]) = Ret (t, [1; 2]) /\
  key_toBson t (fun _ _ _ => Fault) (KS._buffer ks) 2 = Ret (norm_fields demo_key) /\
  decodeRecordIdAtEnd (KS._buffer ks) = Ret 77777.
Proof.
  apply (entry_round_trip no_decimal no_append (fun _ _ _ => Fault) V1 demo_index 2 demo_junk demo_junk demo_key 77777 [1; 2]);
    [reflexivity|reflexivity|vm_compute; reflexivity|reflexivity|exact demo_key_stored|lia].
Defined.

End KeyRead.
