(* ===== verification/DottedPath.v ===== *)
(** * Paths into documents

    Elements and objects with their addresses, and the extraction of elements along
    dotted paths of [db/bson/dotted_path_support.cpp]. The byte level of [Bson] is left
    behind here: an object is the address of its bytes and the fields they encode, and
    [getField_refines] ties the two levels together. *)
From S2P Require Import Prelude StringData Bson.

Module Doc.

(** [BSONObj] and [BSONElement], by address and content. *)
Record BSONObj := mkObj { objdata : Z; fields : list field }.

Inductive Element := Eoo | Elem (rawdata : Z) (name : bytes) (v : value).

Definition eoo (e : Element) : bool := match e with Eoo => true | _ => false end.
Definition type (e : Element) : Z := match e with Eoo => T.EOO | Elem _ _ v => type_of v end.
Definition rawdata (e : Element) : option Z := match e with Eoo => None | Elem a _ _ => Some a end.
Definition fieldName (e : Element) : bytes := match e with Eoo => [] | Elem _ n _ => n end.

(** The elements of an object in order, each at its address. *)
Fixpoint elements_from (addr : Z) (fs : list field) : list Element :=
  match fs with
  | [] => []
  | f :: fs' => Elem addr f.1 f.2 :: elements_from (addr + Z.of_nat (length (enc_elem f))) fs'
  end.
Definition elements (o : BSONObj) : list Element := elements_from (objdata o + 4) (fields o).

Definition getField (o : BSONObj) (name : bytes) : Element :=
  default Eoo (snd <$> list_find (fun e => fieldName e = name) (elements o)).

(** [firstElement]. *)
Definition firstElement (o : BSONObj) : Element := default Eoo (head (elements o)).

(** [objsize() <= 5]. *)
Definition isEmpty (o : BSONObj) : bool := bool_decide (fields o = []).

(** The fields of an object or array; [None] is the failed [verify(isABSONObj())]. *)
Definition embeddedObject (e : Element) : option BSONObj :=
  match e with
  | Elem a n (VObject fs) | Elem a n (VArray fs) => Some (mkObj (a + Z.of_nat (length n) + 2) fs)
  | _ => None
  end.

(** [BSONObj()]: the static empty object. *)
Definition empty_obj : BSONObj := mkObj 0 [].

Definition getObjectField (o : BSONObj) (name : bytes) : BSONObj :=
  default empty_obj (embeddedObject (getField o name)).

End Doc.

Module Dps.
Import Doc.

Definition dot : Z := 46.
Definition isdigit (c : Z) : bool := (48 <=? c) && (c <=? 57).

(** The parts of a path before and after its first dot. *)
Definition split_dot (path : bytes) : option (bytes * bytes) :=
  i ← SD.memchr path dot; Some (take i path, drop (S i) path).

(** [extractElementAtPath]: the whole path as a name first, then its first component. *)
Fixpoint extractElementAtPath_loop (fuel : nat) (obj : BSONObj) (path : bytes) : option Element :=
  match fuel with
  | O => None
  | S fuel =>
      let e := getField obj path in
      if eoo e then
        match split_dot path with
        | Some (lhs, rhs) =>
            let sub := getObjectField obj lhs in
            if isEmpty sub then Some Eoo else extractElementAtPath_loop fuel sub rhs
        | None => Some e
        end
      else Some e
  end.
Definition extractElementAtPath (obj : BSONObj) (path : bytes) : Element :=
  default Eoo (extractElementAtPath_loop (S (length path)) obj path).

(** [_extractElementAtPathOrArrayAlongPathImpl]: the element and what is left of the path. *)
Fixpoint extractOrArray_loop (fuel : nat) (obj : BSONObj) (path : bytes) : option (Element * bytes) :=
  match fuel with
  | O => None
  | S fuel =>
      let '(sub, path) :=
        match split_dot path with
        | Some (lhs, rhs) => (getField obj lhs, rhs)
        | None => (getField obj path, [])
        end in
      if eoo sub then Some (Eoo, path)
      else if (type sub =? T.Array) || bool_decide (path = []) then Some (sub, path)
      else
        match embeddedObject sub with
        | Some o => extractOrArray_loop fuel o path
        | None => Some (Eoo, path)
        end
  end.
Definition extractElementAtPathOrArrayAlongPath (obj : BSONObj) (path : bytes) : Element * bytes :=
  default (Eoo, path) (extractOrArray_loop (S (length path)) obj path).

(** [next] begins with a run of digits that ends the path or its first component. *)
Fixpoint digits_end (next : bytes) : bool :=
  match next with
  | [] => true
  | c :: next' => if isdigit c then digits_end next' else c =? dot
  end.
Definition allDigits (next : bytes) : bool :=
  match next with
  | c :: next' => isdigit c && digits_end next'
  | [] => false
  end.

(** [_extractAllElementsAlongPath]: the elements in the order of insertion and the
    depths of the array components, which are tracked even where the pointer is null. *)
Fixpoint extractAll_loop (fuel : nat) (obj : BSONObj) (path : bytes)
    (expandArrayOnTrailingField : bool) (depth : nat) : option (list Element * gset nat) :=
  match fuel with
  | O => None
  | S fuel =>
      let e := getField obj path in
      if eoo e then
        match split_dot path with
        | None => Some ([], ∅)
        | Some (lhs, next) =>
            let e := getField obj lhs in
            let down o := extractAll_loop fuel o next expandArrayOnTrailingField (S depth) in
            match e, embeddedObject e with
            | Elem _ _ (VObject _), Some o => down o
            | Elem _ _ (VArray _), Some o =>
                if allDigits next then down o
                else
                  let each (acc : option (list Element * gset nat)) (e2 : Element) :=
                    '(es, cs) ← acc;
                    match embeddedObject e2 with
                    | Some o2 => '(es2, cs2) ← down o2; Some (es ++ es2, cs ∪ cs2)
                    | None => Some (es, cs)
                    end in
                  '(es, cs) ← foldl each (Some ([], ∅)) (elements o);
                  Some (es, if bool_decide (1 < length (elements o))%nat then cs ∪ {[depth]} else cs)
            | _, _ => Some ([], ∅)
            end
        end
      else
        match e, embeddedObject e with
        | Elem _ _ (VArray _), Some o =>
            if expandArrayOnTrailingField then
              Some (elements o, if bool_decide (1 < length (elements o))%nat then {[depth]} else ∅)
            else Some ([e], ∅)
        | _, _ => Some ([e], ∅)
        end
  end.
Definition extractAllElementsAlongPath (obj : BSONObj) (path : bytes)
    (expandArrayOnTrailingField : bool) : list Element * gset nat :=
  default ([], ∅) (extractAll_loop (S (length path)) obj path expandArrayOnTrailingField 0).

(** [extractElementsBasedOnTemplate]: the fields of the object that is built. *)
Definition extractElementsBasedOnTemplate (obj : BSONObj) (pattern : list field)
    (useNullIfMissing : bool) : list field :=
  List.flat_map (fun e : field =>
    match extractElementAtPath obj e.1 with
    | Elem _ _ v => [(e.1, v)]
    | Eoo => if useNullIfMissing then [(e.1, VNull)] else []
    end) pattern.

(** ** FieldRef *)

(** [FieldRef::parse]: the loop from [cur], with the part between [beg] and [cur]. *)
Fixpoint parse_loop (part cur : bytes) : list bytes :=
  match cur with
  | [] => [part]
  | c :: cur' => if c =? dot then part :: parse_loop [] cur' else parse_loop (part ++ [c]) cur'
  end.
Definition FieldRef_parse (path : bytes) : list bytes :=
  match path with [] => [] | _ => parse_loop [] path end.
Definition numParts (path : bytes) : nat := length (FieldRef_parse path).

(** ** Splitting *)

Lemma split_dot_Some (p l r : bytes) : split_dot p = Some (l, r) <-> p = l ++ dot :: r /\ dot ∉ l.
Proof.
  unfold split_dot. destruct (SD.memchr p dot) as [i|] eqn:E; simpl.
  - apply SD.memchr_Some in E as [Hi Hn]. split.
    + intros [= <- <-]. split; [|done]. by rewrite take_drop_middle.
    + intros [-> Hl]. assert (i = length l) as ->; [|by rewrite take_app_length, drop_app_ge,
        Nat.sub_succ_l, Nat.sub_diag by lia].
      destruct (lt_eq_lt_dec i (length l)) as [[Hlt|]|Hgt]; [|done|].
      * rewrite lookup_app_l in Hi by done. by destruct Hl; eapply list_elem_of_lookup_2.
      * rewrite take_app_ge in Hn by lia. destruct Hn. apply elem_of_app. right.
        destruct (i - length l)%nat eqn:Ei; [lia|]. simpl. by left.
  - split; [done|]. intros [-> Hl]. apply SD.memchr_None in E. destruct E.
    apply elem_of_app. right. by left.
Qed.

Lemma split_dot_None (p : bytes) : split_dot p = None <-> dot ∉ p.
Proof.
  unfold split_dot. destruct (SD.memchr p dot) as [i|] eqn:E; simpl.
  - apply SD.memchr_Some in E as [Hi _]. split; [done|]. intros H. destruct H.
    by eapply list_elem_of_lookup_2.
  - apply SD.memchr_None in E. done.
Qed.

Lemma split_dot_length (p l r : bytes) :
  split_dot p = Some (l, r) -> (length r < length p)%nat.
Proof. intros [-> _]%split_dot_Some. solve_length. Qed.

(** The body of [extractElementAtPathOrArrayAlongPath], with the recursion unfolded. *)
Definition first_step (obj : BSONObj) (path : bytes) : Element * bytes :=
  match split_dot path with
  | Some (lhs, rhs) => (getField obj lhs, rhs)
  | None => (getField obj path, [])
  end.

Lemma first_step_shorter (obj : BSONObj) (path : bytes) :
  path <> [] -> (length (first_step obj path).2 < length path)%nat.
Proof.
  intros Hp. unfold first_step. destruct (split_dot path) as [[l r]|] eqn:E; simpl.
  - by eapply split_dot_length.
  - destruct path; [done|simpl; lia].
Qed.

Lemma first_step_le (obj : BSONObj) (path : bytes) :
  (length (first_step obj path).2 <= length path)%nat.
Proof.
  unfold first_step. destruct (split_dot path) as [[l r]|] eqn:E; simpl; [|lia].
  apply split_dot_length in E. lia.
Qed.

Lemma extractOrArray_fuel (k : nat) : forall (obj : BSONObj) (path : bytes),
  (length path < k)%nat ->
  extractOrArray_loop k obj path = extractOrArray_loop (S (length path)) obj path /\
  is_Some (extractOrArray_loop k obj path).
Proof.
  induction k as [k IH] using lt_wf_ind. intros obj path Hk.
  destruct k as [|k]; [lia|]. cbn [extractOrArray_loop].
  fold (first_step obj path). pose proof (first_step_shorter obj path) as Hs.
  destruct (first_step obj path) as [sub p'] eqn:Ef. cbn [snd] in Hs.
  destruct (eoo sub); [by eauto|].
  destruct ((type sub =? T.Array) || bool_decide (p' = [])) eqn:Ea; [by eauto|].
  apply orb_false_iff in Ea as [_ Ep%bool_decide_eq_false].
  assert (path <> []) as Hne.
  { intros ->. unfold first_step in Ef. simpl in Ef. congruence. }
  specialize (Hs Hne). destruct (embeddedObject sub) as [o|]; [|by eauto].
  destruct (IH k ltac:(lia) o p' ltac:(lia)) as [E1 ?].
  destruct (decide (length path = k)) as [->|]; [done|].
  destruct (IH (length path) ltac:(lia) o p' ltac:(lia)) as [E2 ?].
  rewrite E1, <- E2. done.
Qed.

(** The recursive equation of the extraction. *)
Lemma extractOrArray_eq (obj : BSONObj) (path : bytes) :
  extractElementAtPathOrArrayAlongPath obj path =
  let '(sub, path) := first_step obj path in
  if eoo sub then (Eoo, path)
  else if (type sub =? T.Array) || bool_decide (path = []) then (sub, path)
  else
    match embeddedObject sub with
    | Some o => extractElementAtPathOrArrayAlongPath o path
    | None => (Eoo, path)
    end.
Proof.
  unfold extractElementAtPathOrArrayAlongPath at 1. cbn [extractOrArray_loop].
  fold (first_step obj path). destruct (first_step obj path) as [sub p'] eqn:Ef.
  destruct (eoo sub); [done|].
  destruct ((type sub =? T.Array) || bool_decide (p' = [])) eqn:Ea; [done|].
  destruct (embeddedObject sub) as [o|]; [|done].
  apply orb_false_iff in Ea as [_ Ep%bool_decide_eq_false].
  assert (path <> []) as Hne.
  { intros ->. unfold first_step in Ef. simpl in Ef. congruence. }
  pose proof (first_step_shorter obj path Hne) as Hs. rewrite Ef in Hs. cbn [snd] in Hs.
  unfold extractElementAtPathOrArrayAlongPath.
  destruct (extractOrArray_fuel (length path) o p' Hs) as [E [x Hx]].
  by rewrite <- E, Hx.
Qed.

(** What is left of a path is shorter, and empty unless the walk stopped at an array or
    found nothing. *)
Lemma extractOrArray_rest (path : bytes) (obj : BSONObj) (e : Element) (r : bytes) :
  extractElementAtPathOrArrayAlongPath obj path = (e, r) ->
  (path <> [] -> (length r < length path)%nat) /\ (e <> Eoo -> type e <> T.Array -> r = []).
Proof.
  revert obj e r. induction path as [path IH] using (induction_ltof1 _ (@length Z)).
  intros obj e r. rewrite extractOrArray_eq.
  pose proof (first_step_shorter obj path) as Hs.
  destruct (first_step obj path) as [sub p'] eqn:Ef. cbn [snd] in Hs.
  destruct (eoo sub) eqn:Es; [intros [= <- <-]; split; [auto|done]|].
  destruct (type sub =? T.Array) eqn:Et; cbn [orb].
  { intros [= <- <-]. split; [auto|]. apply Z.eqb_eq in Et. done. }
  destruct (bool_decide (p' = [])) eqn:Ep.
  { apply bool_decide_eq_true in Ep. intros [= <- <-]. split; [auto|done]. }
  apply bool_decide_eq_false in Ep.
  assert (path <> []) as Hne.
  { intros ->. unfold first_step in Ef. simpl in Ef. congruence. }
  specialize (Hs Hne). destruct (embeddedObject sub) as [o|].
  - intros E. destruct (IH p' Hs o e r E) as [H1 H2]. split; [|done].
    intros _. specialize (H1 Ep). lia.
  - intros [= <- <-]. split; [auto|done].
Qed.

(** ** Lookup in a located object *)

Lemma elements_from_find (addr : Z) (name : bytes) (fs : list field) :
  list_find (fun e => fieldName e = name) (elements_from addr fs) =
  (fun '(i, f) => (i, Elem (addr + Z.of_nat (length (enc_fields (take i fs)))) (fst f) (snd f)))
    <$> list_find (fun f : field => f.1 = name) fs.
Proof.
  revert addr. induction fs as [|f fs IH]; intros addr; [done|].
  cbn [elements_from list_find fieldName]. destruct (decide (f.1 = name)) as [E|E].
  - simpl. do 3 f_equal. cbn. lia.
  - rewrite IH. destruct (list_find _ fs) as [[i g]|]; [|done]. cbn -[enc_fields enc_elem]. do 3 f_equal.
    rewrite enc_fields_cons, length_app. lia.
Qed.

Lemma getField_find (o : BSONObj) (name : bytes) :
  getField o name =
  match list_find (fun f : field => f.1 = name) (fields o) with
  | Some (i, f) =>
      Elem (objdata o + 4 + Z.of_nat (length (enc_fields (take i (fields o))))) f.1 f.2
  | None => Eoo
  end.
Proof.
  unfold getField, elements. rewrite elements_from_find.
  by destruct (list_find _ (fields o)) as [[i f]|].
Qed.

Lemma getField_name (o : BSONObj) (name : bytes) (a : Z) (n : bytes) (v : value) :
  getField o name = Elem a n v -> n = name /\ (name, v) ∈ fields o.
Proof.
  rewrite getField_find. destruct (list_find _ _) as [[i [n' v']]|] eqn:E; [|done].
  apply list_find_Some in E as (Hi & Hn & _). simpl in *. intros [= <- <- <-]. subst n'.
  split; [done|]. by eapply list_elem_of_lookup_2.
Qed.

(** Lookup in the model of located objects is lookup in the bytes: on the encoding
    of an object, [BSONObj::getField] returns EOO exactly when the model does, and
    otherwise an element whose bytes start at the address the model gives, relative to the
    object, and are the encoding of the field the model returns. *)
Lemma getField_refines (before : Z -> Z) (en : SD.endian) (o : BSONObj) (rest name : bytes) :
  wf_doc (fields o) -> bytes_ok name -> Z.of_nat (length (enc_obj (fields o))) < 2 ^ 31 ->
  no_stray_read before (fields o) ->
  let jso := enc_obj (fields o) ++ rest in
  match getField o name with
  | Eoo => Iter.getField before en jso (SD.mkStringData (Some name)) = Some Elt.eoo_elt
  | Elem a n v => n = name /\ exists be rest',
      Iter.getField before en jso (SD.mkStringData (Some name)) = Some be /\
      Elt.data be = drop (Z.to_nat (a - objdata o)) jso /\ Elt.data be = enc_elem (n, v) ++ rest'
  end.
Proof.
  intros Hwf Hname Hlen Hst jso. unfold jso. rewrite getField_doc by done.
  rewrite getField_find. unfold field_elt.
  destruct (list_find _ (fields o)) as [[i f]|] eqn:E; [|done].
  apply list_find_Some in E as (Hi & Hn & _). split; [done|].
  pose proof (enc_obj_split (take i (fields o)) f (drop (S i) (fields o)) rest) as Hs.
  rewrite take_drop_middle in Hs by done.
  eexists _, _. split; [reflexivity|]. cbn [Elt.data]. split.
  - f_equal. lia.
  - rewrite Hs. by destruct f.
Qed.

Lemma getField_refines_witness :
  exists be rest',
    Iter.getField (fun _ => 0) SD.BigEndian (enc_obj [(lit "x", VNull); (lit "a", VInt 5)] ++ [])
      (SD.mkStringData (Some (lit "a"))) = Some be /\
    Elt.data be = drop 7 (enc_obj [(lit "x", VNull); (lit "a", VInt 5)] ++ []) /\
    Elt.data be = enc_elem (lit "a", VInt 5) ++ rest'.
Proof.
  apply (getField_refines (fun _ => 0) SD.BigEndian
    (mkObj 1000 [(lit "x", VNull); (lit "a", VInt 5)]) [] (lit "a"));
    [unfold fields; solve_wf|solve_wf|vm_compute; reflexivity|left; reflexivity].
Defined.

(** ** Components *)

(** No field name of the value, at any depth, holds a dot. *)
Fixpoint dot_free (v : value) : bool :=
  match v with
  | VObject fs | VArray fs =>
      List.forallb (fun f : bytes * value => bool_decide (dot ∉ f.1) && dot_free f.2) fs
  | _ => true
  end.
Definition dot_free_obj (o : BSONObj) : Prop := dot_free (VObject (fields o)) = true.

(** The element along a list of components, through objects and arrays. *)
Fixpoint walk (o : BSONObj) (parts : list bytes) : Element :=
  match parts with
  | [] => Eoo
  | [c] => getField o c
  | c :: parts => walk (getObjectField o c) parts
  end.

Lemma dot_free_field (o : BSONObj) (name : bytes) (a : Z) (n : bytes) (v : value) :
  dot_free_obj o -> getField o name = Elem a n v -> dot ∉ name /\ dot_free v = true.
Proof.
  intros Ho E. apply getField_name in E as [_ Hin]. unfold dot_free_obj in Ho. simpl in Ho.
  rewrite forallb_forall in Ho. specialize (Ho (name, v)). rewrite <- list_elem_of_In in Ho.
  specialize (Ho Hin). simpl in Ho. apply andb_true_iff in Ho as [H1%bool_decide_eq_true H2].
  done.
Qed.

Lemma dot_free_sub (o : BSONObj) (name : bytes) :
  dot_free_obj o -> dot_free_obj (getObjectField o name).
Proof.
  intros Ho. unfold getObjectField. destruct (getField o name) as [|a n v] eqn:E; [done|].
  apply (dot_free_field o name a n v Ho) in E as [_ Hv]. by destruct v.
Qed.

Lemma parse_loop_no_dot (part cur : bytes) : dot ∉ cur -> parse_loop part cur = [part ++ cur].
Proof.
  revert part. induction cur as [|c cur IH]; intros part Hc; simpl; [by rewrite app_nil_r|].
  rewrite not_elem_of_cons in Hc. destruct Hc as [Hne Hc].
  destruct (Z.eqb_spec c dot); [done|]. rewrite IH by done. by rewrite <- app_assoc.
Qed.

Lemma parse_loop_dot (part l r : bytes) :
  dot ∉ l -> parse_loop part (l ++ dot :: r) = (part ++ l) :: parse_loop [] r.
Proof.
  revert part. induction l as [|c l IH]; intros part Hl; simpl.
  - by rewrite app_nil_r.
  - rewrite not_elem_of_cons in Hl. destruct Hl as [Hne Hl].
    destruct (Z.eqb_spec c dot); [done|]. rewrite IH by done. by rewrite <- app_assoc.
Qed.

Lemma parse_loop_nonempty (part cur : bytes) : parse_loop part cur <> [].
Proof.
  revert part. induction cur as [|c cur IH]; intros part; simpl; [done|].
  by destruct (c =? dot).
Qed.

Lemma walk_empty (o : BSONObj) (parts : list bytes) : fields o = [] -> walk o parts = Eoo.
Proof.
  revert o. induction parts as [|c [|c' parts] IH]; intros o Ho; [done| |].
  - simpl. by rewrite getField_find, Ho.
  - change (walk o (c :: c' :: parts)) with (walk (getObjectField o c) (c' :: parts)).
    apply IH. unfold getObjectField. by rewrite getField_find, Ho.
Qed.

Lemma extractElementAtPath_walk (fuel : nat) : forall (o : BSONObj) (path : bytes),
  dot_free_obj o -> (length path < fuel)%nat ->
  extractElementAtPath_loop fuel o path = Some (walk o (parse_loop [] path)).
Proof.
  induction fuel as [|fuel IH]; intros o path Ho Hf; [lia|]. cbn [extractElementAtPath_loop].
  destruct (split_dot path) as [[l r]|] eqn:E.
  - pose proof (split_dot_length _ _ _ E) as Hr. apply split_dot_Some in E as [-> Hl].
    assert (getField o (l ++ dot :: r) = Eoo) as ->.
    { destruct (getField o _) as [|a n v] eqn:Eg; [done|]. apply dot_free_field in Eg as [Hd _]; [|done].
      destruct Hd. apply elem_of_app. right. by left. }
    cbn [eoo]. rewrite parse_loop_dot by done. cbn [app].
    assert (walk o (l :: parse_loop [] r) = walk (getObjectField o l) (parse_loop [] r)) as ->.
    { destruct (parse_loop [] r) eqn:Ep; [by apply parse_loop_nonempty in Ep|done]. }
    destruct (isEmpty (getObjectField o l)) eqn:Ee.
    + apply bool_decide_eq_true in Ee. by rewrite walk_empty.
    + apply IH; [by apply dot_free_sub|lia].
  - apply split_dot_None in E. rewrite parse_loop_no_dot by done. cbn [app walk].
    by destruct (eoo (getField o path)).
Qed.

(** [extractElementAtPath] terminates, and in a document whose field names hold no
    dots it returns the element that the components [FieldRef] parses lead to, one field
    per component, through objects and arrays. *)
Lemma extractElementAtPath_components (o : BSONObj) (path : bytes) :
  dot_free_obj o -> path <> [] ->
  extractElementAtPath_loop (S (length path)) o path = Some (extractElementAtPath o path) /\
  extractElementAtPath o path = walk o (FieldRef_parse path).
Proof.
  intros Ho Hp. unfold extractElementAtPath. rewrite extractElementAtPath_walk by (done || lia).
  split; [done|]. by destruct path.
Qed.

Lemma extractElementAtPath_components_witness :
  let o := mkObj 0 [(lit "a", VArray [(lit "0", VObject [(lit "b", VInt 3)])])] in
  extractElementAtPath_loop 6 o (lit "a.0.b") = Some (extractElementAtPath o (lit "a.0.b")) /\
  extractElementAtPath o (lit "a.0.b") = walk o [lit "a"; lit "0"; lit "b"].
Proof.
  apply (extractElementAtPath_components
    (mkObj 0 [(lit "a", VArray [(lit "0", VObject [(lit "b", VInt 3)])])]) (lit "a.0.b"));
    [reflexivity|discriminate].
Defined.

End Dps.
