(* ===== verification/CollationKey.v ===== *)
(** * Collation-aware index keys

    [CollationIndexKey::collationAwareIndexKeyAppend] of
    [db/query/collation/collation_index_key.cpp], which replaces every string of an element
    by the comparison key of the collator, with an explicit stack of contexts instead of
    recursion. The collator itself (an interface over ICU) is a parameter: a function from
    strings to comparison keys. *)
From S2P Require Import Prelude StringData Bson DottedPath.

Module Collation.
Import Doc.

(** The user assertions of key generation. *)
Inductive uassertion := CannotIndexParallelArrays | CannotBuildIndexKeys | AmbiguousFieldName.

Abbreviation result := (outcome uassertion).

(** [CollatorInterface::getComparisonKey], when the index has a collator. *)
Abbreviation Collator := (option (bytes -> bytes)).

(** A context of the stack: the builder of a sub-object, the fields its iterator has
    left, and where the sub-object goes in the builder below: its field name and whether it
    is an array. *)
Record TranslateContext := mkCtx {
  bob : list field;
  objIterator : list field;
  ctx_name : bytes;
  ctx_array : bool }.

Definition sub_value (array : bool) (fs : list field) : value :=
  if array then VArray fs else VObject fs.

(** [translateElement] on an element that is not an object or array: the appended field. *)
Definition translateElement (getKey : bytes -> bytes) (fieldName : bytes) (v : value)
    : result field :=
  match v with
  | VString s => Ret (fieldName, VString (getKey s))
  | VSymbol _ => Throw CannotBuildIndexKeys
  | _ => Ret (fieldName, v)
  end.

(** The loop of [translate]: a context without more elements is popped, which completes
    its builder inside the one below. *)
Fixpoint translate_loop (fuel : nat) (getKey : bytes -> bytes) (top : TranslateContext)
    (below : list TranslateContext) : result (list field) :=
  match fuel with
  | O => NoFuel
  | S fuel =>
      match objIterator top with
      | [] =>
          match below with
          | [] => Ret (bob top)
          | c :: below =>
              translate_loop fuel getKey
                (mkCtx (bob c ++ [(ctx_name top, sub_value (ctx_array top) (bob top))])
                   (objIterator c) (ctx_name c) (ctx_array c)) below
          end
      | (n, v) :: it =>
          let top := mkCtx (bob top) it (ctx_name top) (ctx_array top) in
          match v with
          | VObject fs => translate_loop fuel getKey (mkCtx [] fs n false) (top :: below)
          | VArray fs => translate_loop fuel getKey (mkCtx [] fs n true) (top :: below)
          | _ =>
              f ← translateElement getKey n v;
              translate_loop fuel getKey
                (mkCtx (bob top ++ [f]) it (ctx_name top) (ctx_array top)) below
          end
      end
  end.

(** The number of iterations an element takes: two for an object (push and pop). *)
Fixpoint steps (v : value) : nat :=
  match v with
  | VObject fs | VArray fs => 2 + List.list_sum (List.map (fun f : bytes * value => steps f.2) fs)
  | _ => 1
  end.
Definition steps_fields (fs : list field) : nat :=
  List.list_sum (List.map (fun f : bytes * value => steps f.2) fs).

Definition translate (getKey : bytes -> bytes) (fs : list field) : result (list field) :=
  translate_loop (S (steps_fields fs)) getKey (mkCtx [] fs [] false) [].

(** [collationAwareIndexKeyAppend]: the value appended under the empty name. *)
Definition collationAwareIndexKeyAppend (collator : Collator) (elt : Element) : result value :=
  match elt with
  | Eoo => Fault
  | Elem _ _ v =>
      match collator with
      | None => Ret v
      | Some getKey =>
          match v with
          | VObject fs => fs ← translate getKey fs; Ret (VObject fs)
          | VArray fs => fs ← translate getKey fs; Ret (VArray fs)
          | _ => f ← translateElement getKey [] v; Ret f.2
          end
      end
  end.

(** ** The recursive reference *)

(** Strings become comparison keys; a symbol, at any depth, is refused. *)
Fixpoint map_strings (getKey : bytes -> bytes) (v : value) : value :=
  match v with
  | VString s => VString (getKey s)
  | VObject fs => VObject (List.map (fun f : bytes * value => (f.1, map_strings getKey f.2)) fs)
  | VArray fs => VArray (List.map (fun f : bytes * value => (f.1, map_strings getKey f.2)) fs)
  | _ => v
  end.
Fixpoint has_symbol (v : value) : bool :=
  match v with
  | VSymbol _ => true
  | VObject fs | VArray fs => List.existsb (fun f : bytes * value => has_symbol f.2) fs
  | _ => false
  end.

Definition map_fields (getKey : bytes -> bytes) (fs : list field) : list field :=
  List.map (fun f : bytes * value => (f.1, map_strings getKey f.2)) fs.
Definition fields_symbol (fs : list field) : bool :=
  List.existsb (fun f : bytes * value => has_symbol f.2) fs.

(** One element: after [steps v] iterations it is appended, or refused. *)
Definition translates (getKey : bytes -> bytes) (v : value) : Prop :=
  forall k n it c below,
  translate_loop (steps v + k) getKey (mkCtx (bob c) ((n, v) :: it) (ctx_name c) (ctx_array c)) below =
  if has_symbol v then Throw CannotBuildIndexKeys
  else translate_loop k getKey
    (mkCtx (bob c ++ [(n, map_strings getKey v)]) it (ctx_name c) (ctx_array c)) below.

Lemma translates_fields (getKey : bytes -> bytes) (fs : list field) :
  Forall (fun f => translates getKey f.2) fs ->
  forall k bob it name arr below,
  translate_loop (steps_fields fs + k) getKey (mkCtx bob (fs ++ it) name arr) below =
  if fields_symbol fs then Throw CannotBuildIndexKeys
  else translate_loop k getKey (mkCtx (bob ++ map_fields getKey fs) it name arr) below.
Proof.
  induction 1 as [|[n v] fs Hv Hfs IH]; intros k b it name arr below.
  { cbn. by rewrite app_nil_r. }
  change (steps_fields ((n, v) :: fs)) with (steps v + steps_fields fs)%nat.
  change (fields_symbol ((n, v) :: fs)) with (has_symbol v || fields_symbol fs).
  cbn [app]. cbn [snd] in Hv. rewrite <- Nat.add_assoc.
  rewrite (Hv _ n (fs ++ it) (mkCtx b [] name arr) below).
  destruct (has_symbol v); [done|]. cbn [orb bob ctx_name ctx_array].
  rewrite IH. by rewrite <- app_assoc.
Qed.

Lemma translates_sub (getKey : bytes -> bytes) (arr : bool) (fs : list field) :
  Forall (fun f => translates getKey f.2) fs -> translates getKey (sub_value arr fs).
Proof.
  intros Hfs k n it c below.
  assert (steps (sub_value arr fs) = S (steps_fields fs + 1)) as ->
    by (destruct arr; simpl; rewrite Nat.add_1_r; done).
  assert (has_symbol (sub_value arr fs) = fields_symbol fs) as -> by (by destruct arr).
  cbn [Nat.add translate_loop objIterator].
  transitivity (translate_loop (steps_fields fs + (S k)) getKey (mkCtx [] (fs ++ []) n arr)
    (mkCtx (bob c) it (ctx_name c) (ctx_array c) :: below)).
  { rewrite app_nil_r, <- Nat.add_assoc. by destruct arr. }
  rewrite translates_fields by done. destruct (fields_symbol fs); [done|].
  cbn [translate_loop objIterator app bob ctx_name ctx_array]. by destruct arr.
Qed.

Lemma all_translates (getKey : bytes -> bytes) (v : value) : translates getKey v.
Proof.
  induction v as [fs IH|fs IH|code fs IH|v Hv] using value_nested_ind.
  - by apply (translates_sub getKey false).
  - by apply (translates_sub getKey true).
  - by intros k n it c below.
  - intros k n it c below. by destruct v.
Qed.

Lemma translate_fields (getKey : bytes -> bytes) (fs : list field) :
  translate getKey fs =
  if fields_symbol fs then Throw CannotBuildIndexKeys else Ret (map_fields getKey fs).
Proof.
  unfold translate. rewrite <- Nat.add_1_r. rewrite <- (app_nil_r fs) at 2.
  rewrite translates_fields; [|apply Forall_forall; intros; apply all_translates].
  by destruct (fields_symbol fs).
Qed.

(** The iterative translation terminates and appends what the recursive one does:
    every string of the element, at any depth, replaced by its comparison key, and an
    error exactly when the element holds a symbol. *)
Theorem collation_key_recursive (getKey : bytes -> bytes) (a : Z) (n : bytes) (v : value) :
  collationAwareIndexKeyAppend (Some getKey) (Elem a n v) =
  if has_symbol v then Throw CannotBuildIndexKeys else Ret (map_strings getKey v).
Proof.
  destruct v; try reflexivity; cbn [collationAwareIndexKeyAppend]; rewrite translate_fields;
    cbn [has_symbol]; fold (fields_symbol fs); by destruct (fields_symbol fs).
Qed.

End Collation.
