(* ===== verification/BtreeKeys.v ===== *)
(** * B-tree index key generation

    [BtreeKeyGenerator] of [db/index/btree_key_generator.cpp]: the V0 and V1 generators,
    with the fast paths of V1 (the offset cache shared between the indexes of one document,
    the name-length bitmap over the top-level fields, and the groups of nested fields with
    a common prefix) in front of the recursive expansion of arrays. A path is the bytes of
    its C string, so the empty path is the [""] that marks a finished field. The set of
    keys is ordered by the comparator its owner gives it, a parameter here. *)
From S2P Require Import Prelude StringData Bson DottedPath CollationKey.

Module Btree.
Import Doc Dps Collation.

(** ** Keys and paths *)

Abbreviation key := (list field).

(** [BSONObjSet]: a [std::set] under the comparator [lt]. *)
Fixpoint set_insert (lt : key -> key -> bool) (k : key) (s : list key) : list key :=
  match s with
  | [] => [k]
  | k' :: s' => if lt k k' then k :: s else if lt k' k then k' :: set_insert lt k s' else s
  end.

(** [MultikeyPaths*]: null, or one set of component positions per field. *)
Abbreviation MultikeyPaths := (option (list (gset nat))).

(** [vector::resize]. *)
Definition resize (n : nat) (paths : list (gset nat)) : list (gset nat) :=
  take n (paths ++ replicate n ∅).

Definition nullElt : Element := Elem 0 [] VNull.
Definition undefinedElt : Element := Elem 0 [] VUndefined.

(** [fieldNames[i]], an index that the loops keep in range. *)
Definition path_at (fieldNames : list bytes) (i : nat) : bytes := default [] (fieldNames !! i).
Definition is_end (path : bytes) : bool := bool_decide (path = []).

Definition computeCacheSlot (name : bytes) : nat :=
  Z.to_nat (wrapu 8 (foldl (fun hash c => wrapu 32 (hash * 31 + c)) 0 name)).

(** ** FieldOffsetCache *)

Record FieldOffsetCache := mkCache { docPtr : Z; docSize : Z; offsets : list Z }.

Definition FieldOffsetCache_new : FieldOffsetCache := mkCache 0 0 (repeat 0 256).
Definition cache_init (ptr size : Z) : FieldOffsetCache := mkCache ptr size (repeat 0 256).
Definition isValidFor (c : FieldOffsetCache) (ptr size : Z) : bool :=
  (docPtr c =? ptr) && (docSize c =? size).

(** ** The generators *)

Record SimpleFieldInfo := mkSimple { fieldIndex : nat; nameLen : nat; name : bytes; cacheSlot : nat }.
Record NestedFieldSuffix := mkSuffix { suffixIndex : nat; suffix : bytes }.
Record PrefixGroup := mkGroup { prefix : bytes; group_fields : list NestedFieldSuffix }.

Record BtreeKeyGenerator := mkGen {
  _fieldNames : list bytes;
  _isIdIndex : bool;
  _isSparse : bool;
  _nullKey : key;
  _fixed : list Element }.

Record BtreeKeyGeneratorV1 := mkGenV1 {
  base : BtreeKeyGenerator;
  _pathLengths : list nat;
  _collator : Collator;
  _simpleFields : list SimpleFieldInfo;
  _simpleLengthBitmap : Z;
  _prefixGroups : list PrefixGroup }.

Definition BtreeKeyGenerator_new (fieldNames : list bytes) (fixed : list Element) (isSparse : bool)
    : BtreeKeyGenerator :=
  mkGen fieldNames
    (bool_decide (length fieldNames = 1%nat) && bool_decide (head fieldNames = Some (lit "_id")))
    isSparse (replicate (length fieldNames) ([], VNull)) fixed.

(** [tempPrefixGroups[prefix].push_back(f)] on a [std::map] in the order of its keys. *)
Fixpoint group_add (p : bytes) (f : NestedFieldSuffix) (gs : list PrefixGroup) : list PrefixGroup :=
  match gs with
  | [] => [mkGroup p [f]]
  | g :: gs' =>
      if bool_decide (prefix g = p) then mkGroup p (group_fields g ++ [f]) :: gs'
      else if SD.operator_lt (SD.mkStringData (Some p)) (SD.mkStringData (Some (prefix g))) then
        mkGroup p [f] :: gs
      else g :: group_add p f gs'
  end.

(** One round of the constructor's loop, on its field, the lengths, the simple fields,
    the bitmap and the groups so far. *)
Definition ctor_round (acc : list nat * list SimpleFieldInfo * Z * list PrefixGroup)
    (i : nat) (fieldName : bytes) : result (list nat * list SimpleFieldInfo * Z * list PrefixGroup) :=
  let '(lens, simple, bitmap, groups) := acc in
  let pathLength := numParts fieldName in
  _ ← verify (bool_decide (0 < pathLength)%nat);
  let lens := lens ++ [pathLength] in
  match split_dot fieldName with
  | None =>
      let len := length fieldName in
      Ret (lens, simple ++ [mkSimple i len fieldName (computeCacheSlot fieldName)],
           Z.lor bitmap (Z.shiftl 1 (Z.land (Z.of_nat len) 63)), groups)
  | Some (p, s) => Ret (lens, simple, bitmap, group_add p (mkSuffix i s) groups)
  end.

Fixpoint ctor_loop (acc : list nat * list SimpleFieldInfo * Z * list PrefixGroup)
    (i : nat) (fieldNames : list bytes) : result (list nat * list SimpleFieldInfo * Z * list PrefixGroup) :=
  match fieldNames with
  | [] => Ret acc
  | f :: fs => acc ← ctor_round acc i f; ctor_loop acc (S i) fs
  end.

Definition BtreeKeyGeneratorV1_new (fieldNames : list bytes) (fixed : list Element)
    (isSparse : bool) (collator : Collator) : result BtreeKeyGeneratorV1 :=
  r ← ctor_loop ([], [], 0, []) 0 fieldNames;
  let '(lens, simple, bitmap, groups) := r in
  Ret (mkGenV1 (BtreeKeyGenerator_new fieldNames fixed isSparse) lens collator simple bitmap
    (filter (fun g => (1 < length (group_fields g))%nat) groups)).

(** ** Array expansion *)

Record PositionalPathInfo := mkPos {
  positionallyIndexedElt : Element;
  arrayObj : BSONObj;
  dottedElt : Element;
  remainingPath : bytes }.

Definition emptyPos : PositionalPathInfo := mkPos Eoo empty_obj Eoo [].
Definition hasPositionallyIndexedElt (p : PositionalPathInfo) : bool :=
  negb (eoo (positionallyIndexedElt p)).
Definition pos_at (ps : list PositionalPathInfo) (i : nat) : PositionalPathInfo :=
  default emptyPos (ps !! i).

(** [mongoutils::str::before]. *)
Definition before (s : bytes) : bytes := match split_dot s with Some (l, _) => l | None => s end.

(** [extractNextElement]: the element, what is left of the field and [arrayNestedArray]. *)
Definition extractNextElement (obj : BSONObj) (pos : PositionalPathInfo) (field : bytes)
    : result (Element * bytes * bool) :=
  let haveObjField := negb (eoo (getField obj (before field))) in
  _ ← require AmbiguousFieldName (negb haveObjField || negb (hasPositionallyIndexedElt pos));
  if haveObjField then
    let '(e, field) := extractElementAtPathOrArrayAlongPath obj field in Ret (e, field, false)
  else if hasPositionallyIndexedElt pos then
    Ret (dottedElt pos, remainingPath pos, type (positionallyIndexedElt pos) =? T.Array)
  else Ret (Eoo, field, false).

(** The locals of the first loop of [getKeysImplWithArray]. *)
Record scan := mkScan {
  fieldNames : list bytes;
  fixed : list Element;
  numNotFound : nat;
  arrElt : Element;
  arrIdxs : list nat;
  mayExpandArrayUnembedded : bool }.

Definition scan_round (obj : BSONObj) (positionalInfo : list PositionalPathInfo) (s : scan) (i : nat)
    : result scan :=
  if is_end (path_at (fieldNames s) i) then Ret s
  else
    r ← extractNextElement obj (pos_at positionalInfo i) (path_at (fieldNames s) i);
    let '(e, rest, arrayNestedArray) := (r : Element * bytes * bool) in
    let names := <[i := rest]> (fieldNames s) in
    if eoo e then
      Ret (mkScan (<[i := []]> names) (<[i := nullElt]> (fixed s)) (S (numNotFound s)) (arrElt s)
        (arrIdxs s) (mayExpandArrayUnembedded s))
    else if type e =? T.Array then
      _ ← require CannotIndexParallelArrays
            (eoo (arrElt s) || bool_decide (rawdata e = rawdata (arrElt s)));
      Ret (mkScan names (fixed s) (numNotFound s) (if eoo (arrElt s) then e else arrElt s)
        (arrIdxs s ++ [i]) (if arrayNestedArray then false else mayExpandArrayUnembedded s))
    else
      Ret (mkScan names (<[i := e]> (fixed s)) (numNotFound s) (arrElt s) (arrIdxs s)
        (mayExpandArrayUnembedded s)).

Fixpoint fold_result {S A : Type} (f : S -> A -> result S) (s : S) (l : list A) : result S :=
  match l with
  | [] => Ret s
  | a :: l => s ← f s a; fold_result f s l
  end.

Definition scan_fields (obj : BSONObj) (positionalInfo : list PositionalPathInfo) (s : scan)
    : result scan :=
  fold_result (scan_round obj positionalInfo) s (seq 0 (length (fieldNames s))).

(** The key from the fixed elements, appended in order under empty names. *)
Definition build_key (collator : Collator) (fixed : list Element) : result key :=
  fold_result (fun b e => v ← collationAwareIndexKeyAppend collator e; Ret (b ++ [([], v)])) [] fixed.

(** One field of the loop over [fieldNames] that fills [arrComponents] and
    [subPositionalInfo]; both are appended to, in the order of the fields. *)
Definition positional_round (pathLengths : list nat) (arrObj : BSONObj) (s : scan) (track : bool)
    (acc : list (option nat) * list PositionalPathInfo) (i : nat)
    : result (list (option nat) * list PositionalPathInfo) :=
  let '(arrComponents, sub) := acc in
  let fieldIsArray := bool_decide (i ∈ arrIdxs s) in
  let field := path_at (fieldNames s) i in
  let fullPathLength := default 0%nat (pathLengths !! i) in
  if is_end field then
    Ret (arrComponents ++
           [if track && fieldIsArray && mayExpandArrayUnembedded s then Some (fullPathLength - 1)%nat
            else None], sub ++ [emptyPos])
  else
    _ ← verify fieldIsArray;
    let elt := getField arrObj (before field) in
    if eoo elt then
      let suffixPathLength := numParts field in
      if track then
        _ ← verify (bool_decide (suffixPathLength < fullPathLength)%nat);
        Ret (arrComponents ++ [Some (fullPathLength - suffixPathLength - 1)%nat], sub ++ [emptyPos])
      else Ret (arrComponents ++ [None], sub ++ [emptyPos])
    else
      let '(dotted, rest) := extractElementAtPathOrArrayAlongPath arrObj field in
      Ret (arrComponents ++ [None], sub ++ [mkPos elt arrObj dotted rest]).

(** [fixed] with the terminal array values of [_getKeysArrEltFixed]. *)
Definition set_terminal (s : scan) (arrEntry : Element) (mayExpand : bool) (fixed : list Element)
    : list Element :=
  foldl (fun fixed idx =>
    if is_end (path_at (fieldNames s) idx) then
      <[idx := if mayExpand then arrEntry else arrElt s]> fixed
    else fixed) fixed (arrIdxs s).

(** The insertion of the components that are set, field by field. *)
Fixpoint add_components (paths : list (gset nat)) (cs : list (option nat)) : list (gset nat) :=
  match paths, cs with
  | p :: paths, c :: cs => (match c with Some c => p ∪ {[c]} | None => p end) :: add_components paths cs
  | _, _ => paths
  end.

Definition embedded_or_empty (e : Element) : BSONObj :=
  match e with Elem _ _ (VObject _) => default empty_obj (embeddedObject e) | _ => empty_obj end.

(** [_getKeysArrEltFixed], with [getKeysImplWithArray] as [rec]: the keys, the caller's
    [fixed], which the call updates in place, and the multikey paths. *)
Definition getKeysArrEltFixed
    (rec : list bytes -> list Element -> BSONObj -> list key -> nat -> list PositionalPathInfo ->
      MultikeyPaths -> result (list key * MultikeyPaths))
    (s : scan) (sub : list PositionalPathInfo) (mayExpand : bool)
    (acc : list key * list Element * MultikeyPaths) (arrEntry : Element)
    : result (list key * list Element * MultikeyPaths) :=
  let '(keys, fixed, paths) := acc in
  let fixed := set_terminal s arrEntry mayExpand fixed in
  r ← rec (fieldNames s) fixed (embedded_or_empty arrEntry) keys (numNotFound s) sub paths;
  Ret (r.1, fixed, r.2).

(** The rest of [getKeysImplWithArray] after the scan of the fields. The array found
    there is an array element, so it has an embedded object. *)
Definition expand
    (rec : list bytes -> list Element -> BSONObj -> list key -> nat -> list PositionalPathInfo ->
      MultikeyPaths -> result (list key * MultikeyPaths))
    (lt : key -> key -> bool) (g : BtreeKeyGeneratorV1) (keys : list key) (multikeyPaths : MultikeyPaths)
    (s : scan) : result (list key * MultikeyPaths) :=
  match embeddedObject (arrElt s) with
  | None =>
      if _isSparse (base g) && bool_decide (numNotFound s = length (fieldNames s)) then
        Ret (keys, multikeyPaths)
      else k ← build_key (_collator g) (fixed s); Ret (set_insert lt k keys, multikeyPaths)
  | Some arrObj =>
      if eoo (firstElement arrObj) then
        r ← getKeysArrEltFixed rec s (replicate (length (fieldNames s)) emptyPos) true
              (keys, fixed s, multikeyPaths) undefinedElt;
        Ret (r.1.1, r.2)
      else
        c ← fold_result
              (positional_round (_pathLengths g) arrObj s (bool_decide (is_Some multikeyPaths)))
              ([], []) (seq 0 (length (fieldNames s)));
        r ← fold_result (getKeysArrEltFixed rec s c.2 (mayExpandArrayUnembedded s))
              (keys, fixed s, multikeyPaths) (elements arrObj);
        Ret (r.1.1,
          if bool_decide (1 < length (elements arrObj))%nat then
            option_map (fun p => add_components p c.1) r.2
          else r.2)
  end.

(** [getKeysImplWithArray]. Each call has less path left than its caller, so the length
    of the paths bounds the depth of the recursion. *)
Fixpoint getKeysImplWithArray (fuel : nat) (lt : key -> key -> bool) (g : BtreeKeyGeneratorV1)
    (names : list bytes) (fixed0 : list Element) (obj : BSONObj) (keys : list key) (notFound : nat)
    (positionalInfo : list PositionalPathInfo) (multikeyPaths : MultikeyPaths)
    : result (list key * MultikeyPaths) :=
  match fuel with
  | O => NoFuel
  | S fuel =>
      s ← scan_fields obj positionalInfo (mkScan names fixed0 notFound Eoo [] true);
      expand (getKeysImplWithArray fuel lt g) lt g keys multikeyPaths s
  end.

(** The length of the paths that are left, and the fuel that is enough for them: see [getKeysImplWithArray_total]. *)
Fixpoint total (names : list bytes) : nat :=
  match names with [] => 0%nat | p :: names => (length p + total names)%nat end.
Definition path_fuel (names : list bytes) : nat := S (total names).

(** ** The fast paths of V1 *)

(** [BSONElement cached(objData + offset)]: the element of the object at that offset;
    [None] where no element starts there. *)
Definition elem_at (obj : BSONObj) (offset : Z) : option Element :=
  snd <$> list_find (fun e => rawdata e = Some (objdata obj + offset)) (elements obj).

Definition name_matches (info : SimpleFieldInfo) (docFieldName : bytes) : bool :=
  bool_decide (length docFieldName = nameLen info) &&
  (SD.memcmp docFieldName (name info) (nameLen info) =? 0).

(** The fields that are still open, their fixed elements, and the fields that the cache or
    the document has filled. *)
Record fill := mkFill { f_names : list bytes; f_fixed : list Element; f_count : nat }.

Definition fill_in (i : nat) (e : Element) (f : fill) : fill :=
  mkFill (<[i := ([] : bytes)]> (f_names f)) (<[i := e]> (f_fixed f)) (S (f_count f)).

(** The loop that takes fields from a valid cache. *)
Definition cache_round (obj : BSONObj) (cache : FieldOffsetCache) (f : fill) (info : SimpleFieldInfo)
    : result fill :=
  if is_end (path_at (f_names f) (fieldIndex info)) then Ret f
  else
    let offset := default 0 (offsets cache !! cacheSlot info) in
    if offset =? 0 then Ret f
    else
      match elem_at obj offset with
      | None => Fault
      | Some cached =>
          if name_matches info (fieldName cached) && negb (type cached =? T.Array) then
            Ret (fill_in (fieldIndex info) cached f)
          else Ret f
      end.

(** The loop over the simple fields for one element of the document: the first open field
    of that name takes the element unless it is an array, and the loop ends there. *)
Fixpoint match_simple (infos : list SimpleFieldInfo) (obj : BSONObj) (e : Element) (f : fill)
    (cache : FieldOffsetCache) : fill * FieldOffsetCache :=
  match infos with
  | [] => (f, cache)
  | info :: infos =>
      if is_end (path_at (f_names f) (fieldIndex info)) then match_simple infos obj e f cache
      else if name_matches info (fieldName e) then
        if negb (type e =? T.Array) then
          (fill_in (fieldIndex info) e f,
           mkCache (docPtr cache) (docSize cache)
             (<[cacheSlot info := wrapu 32 (default 0 (rawdata e) - objdata obj)]> (offsets cache)))
        else (f, cache)
      else match_simple infos obj e f cache
  end.

(** The loop over the document, with the bitmap filter and the early exit. *)
Fixpoint prefill (g : BtreeKeyGeneratorV1) (obj : BSONObj) (es : list Element) (f : fill)
    (cache : FieldOffsetCache) : fill * FieldOffsetCache :=
  match es with
  | [] => (f, cache)
  | e :: es =>
      if (f_count f <? length (_simpleFields g))%nat then
        let docFieldLen := Z.of_nat (length (fieldName e)) in
        if Z.land (_simpleLengthBitmap g) (Z.shiftl 1 (Z.land docFieldLen 63)) =? 0 then
          prefill g obj es f cache
        else
          let '(f, cache) := match_simple (_simpleFields g) obj e f cache in
          prefill g obj es f cache
      else (f, cache)
  end.

(** One field of a prefix group, extracted from the object at the prefix. *)
Definition suffix_round (sub : BSONObj) (nf : list bytes * list Element) (fld : NestedFieldSuffix)
    : list bytes * list Element :=
  let '(names, fixed) := nf in
  if is_end (path_at names (suffixIndex fld)) then nf
  else
    let '(e, rest) := extractElementAtPathOrArrayAlongPath sub (suffix fld) in
    if negb (eoo e) && negb (type e =? T.Array) && is_end rest then
      (<[suffixIndex fld := ([] : bytes)]> names, <[suffixIndex fld := e]> fixed)
    else nf.

Definition group_round (obj : BSONObj) (nf : list bytes * list Element) (grp : PrefixGroup)
    : list bytes * list Element :=
  match getField obj (prefix grp) with
  | Elem _ _ (VObject _) as e =>
      foldl (suffix_round (default empty_obj (embeddedObject e))) nf (group_fields grp)
  | _ => nf
  end.

(** The key of [{_id: 1}], with the check on its size. *)
Definition id_key (lt : key -> key -> bool) (g : BtreeKeyGenerator) (collator : Collator)
    (obj : BSONObj) (keys : list key) : result (list key) :=
  match getField obj (lit "_id") with
  | Eoo => Ret (set_insert lt (_nullKey g) keys)
  | Elem _ _ v as e =>
      match collator with
      | Some _ => v ← collationAwareIndexKeyAppend collator e; Ret (set_insert lt [([], v)] keys)
      | None =>
          let size := Z.of_nat (length (enc_elem (lit "_id", v))) + 5 - 3 in
          let keys := set_insert lt [([], v)] keys in
          _ ← verify (bool_decide ((fun k => Z.of_nat (length (enc_obj k))) <$> head keys = Some size));
          Ret keys
      end
  end.

Definition objsize (obj : BSONObj) : Z := Z.of_nat (length (enc_obj (fields obj))).

(** [BtreeKeyGeneratorV1::getKeysImpl]: the keys, the multikey paths and the cache. *)
Definition getKeysImpl_V1 (lt : key -> key -> bool) (g : BtreeKeyGeneratorV1) (names : list bytes)
    (fixed : list Element) (obj : BSONObj) (keys : list key) (multikeyPaths : MultikeyPaths)
    (cache : FieldOffsetCache) : result (list key * MultikeyPaths * FieldOffsetCache) :=
  if _isIdIndex (base g) then
    keys ← id_key lt (base g) (_collator g) obj keys;
    Ret (keys, option_map (resize 1) multikeyPaths, cache)
  else
    let cacheValid := isValidFor cache (objdata obj) (wrapu 32 (objsize obj)) in
    let cache := if cacheValid then cache else cache_init (objdata obj) (wrapu 32 (objsize obj)) in
    let f := mkFill names fixed 0 in
    f ← (if cacheValid then fold_result (cache_round obj cache) f (_simpleFields g) else Ret f);
    let '(f, cache) := prefill g obj (elements obj) f cache in
    let '(names, fixed) := foldl (group_round obj) (f_names f, f_fixed f) (_prefixGroups g) in
    _ ← verify (match multikeyPaths with Some (_ :: _) => false | _ => true end);
    let multikeyPaths := option_map (resize (length names)) multikeyPaths in
    r ← getKeysImplWithArray (path_fuel names) lt g names fixed obj keys 0
          (replicate (length names) emptyPos) multikeyPaths;
    Ret (r, cache).


(** ** V0 *)

Record scan0 := mkScan0 {
  names0 : list bytes;
  fixed0 : list Element;
  arrElt0 : Element;
  arrIdx0 : option nat;
  numNotFound0 : nat }.

Definition scan0_round (obj : BSONObj) (s : scan0) (i : nat) : result scan0 :=
  if is_end (path_at (names0 s) i) then Ret s
  else
    let '(x, rest) := extractElementAtPathOrArrayAlongPath obj (path_at (names0 s) i) in
    let e := if eoo x then nullElt else x in
    let isArray := type e =? T.Array in
    let rest := if isArray then rest else [] in
    let fixed := if is_end rest then <[i := e]> (fixed0 s) else fixed0 s in
    let first := isArray && eoo (arrElt0 s) in
    let arr := if first then e else arrElt0 s in
    _ ← require CannotIndexParallelArrays (negb isArray || bool_decide (rawdata e = rawdata arr));
    Ret (mkScan0 (<[i := rest]> (names0 s)) fixed arr (if first then Some i else arrIdx0 s)
      (if eoo x then S (numNotFound0 s) else numNotFound0 s)).

(** The key with [e] at the array's index. *)
Definition key_with (s : scan0) (e : Element) : result key :=
  build_key None (match arrIdx0 s with Some i => <[i := e]> (fixed0 s) | None => fixed0 s end).

(** [x : []]: undefined at the array's index, null where nothing is fixed. *)
Definition array_null_key (s : scan0) : result key :=
  key_with (mkScan0 (names0 s) ((fun e => if eoo e then nullElt else e) <$> fixed0 s)
    (arrElt0 s) (arrIdx0 s) (numNotFound0 s)) undefinedElt.

Fixpoint getKeysImpl_V0 (fuel : nat) (lt : key -> key -> bool) (g : BtreeKeyGenerator)
    (names : list bytes) (fixed : list Element) (obj : BSONObj) (keys : list key) : result (list key) :=
  match fuel with
  | O => NoFuel
  | S fuel =>
      if _isIdIndex g then id_key lt g None obj keys
      else
        s ← fold_result (scan0_round obj) (mkScan0 names fixed Eoo None 0) (seq 0 (length names));
        let allFound := forallb is_end (names0 s) in
        if _isSparse g && bool_decide (numNotFound0 s = length (_fieldNames g)) then Ret keys
        else
          match embeddedObject (arrElt0 s) with
          | None =>
              _ ← verify allFound;
              k ← build_key None (fixed0 s); Ret (set_insert lt k keys)
          | Some arrObj =>
              let insertArrayNull :=
                bool_decide (elements arrObj = []) &&
                (negb allFound || bool_decide (1 < length (fixed0 s))%nat) in
              keys ← (if allFound then
                  fold_result (fun keys e => k ← key_with s e; Ret (set_insert lt k keys)) keys
                    (elements arrObj)
                else
                  fold_result (fun keys e =>
                    match e with
                    | Elem _ _ (VObject _) =>
                        getKeysImpl_V0 fuel lt g (names0 s) (fixed0 s) (embedded_or_empty e) keys
                    | _ => Ret keys
                    end) keys (elements arrObj));
              if insertArrayNull then k ← array_null_key s; Ret (set_insert lt k keys) else Ret keys
          end
  end.

(** ** The interface *)

Inductive IndexVersion := kV0 | kV1 | kV2.
Inductive generator := GenV0 (g : BtreeKeyGenerator) | GenV1 (g : BtreeKeyGeneratorV1).

Definition make (indexVersion : IndexVersion) (fieldNames : list bytes) (fixed : list Element)
    (isSparse : bool) (collator : Collator) : result generator :=
  match indexVersion with
  | kV0 => Ret (GenV0 (BtreeKeyGenerator_new fieldNames fixed isSparse))
  | kV1 | kV2 => g ← BtreeKeyGeneratorV1_new fieldNames fixed isSparse collator; Ret (GenV1 g)
  end.

(** [getKeys]: a cache of the caller, or a local one. *)
Definition getKeys (lt : key -> key -> bool) (gen : generator) (obj : BSONObj) (keys : list key)
    (multikeyPaths : MultikeyPaths) (cache : option FieldOffsetCache)
    : result (list key * MultikeyPaths * option FieldOffsetCache) :=
  let b := match gen with GenV0 g => g | GenV1 g => base g end in
  r ← (match gen with
       | GenV0 g =>
           keys ← getKeysImpl_V0 (path_fuel (_fieldNames g)) lt g (_fieldNames g) (_fixed g) obj keys;
           Ret (keys, multikeyPaths, cache)
       | GenV1 g =>
           r ← getKeysImpl_V1 lt g (_fieldNames b) (_fixed b) obj keys multikeyPaths
                 (default FieldOffsetCache_new cache);
           Ret (r.1, if cache then Some r.2 else None)
       end);
  let '(keys, paths, cache) := (r : list key * MultikeyPaths * option FieldOffsetCache) in
  Ret (if bool_decide (keys = []) && negb (_isSparse b) then set_insert lt (_nullKey b) keys else keys,
       paths, cache).

(** ** The reference of the fast paths *)

(** A field the fast paths may fill: what the general code extracts for its path. *)
Definition good_fill (obj : BSONObj) (p : bytes) (e : Element) : Prop :=
  extractElementAtPathOrArrayAlongPath obj p = (e, []) /\ e <> Eoo /\ type e <> T.Array /\
  getField obj (before p) <> Eoo.

Definition filled_at (obj : BSONObj) (n n' : option bytes) (x x' : option Element) : Prop :=
  (n' = n /\ x' = x) \/
  exists p e, n = Some p /\ p <> [] /\ n' = Some [] /\ x' = Some e /\ good_fill obj p e.

(** Some fields of [names] have been filled in [names'] and [fixed']. *)
Definition filled (obj : BSONObj) (names : list bytes) (fixed : list Element)
    (names' : list bytes) (fixed' : list Element) : Prop :=
  length names' = length names /\ length fixed' = length fixed /\
  forall i, filled_at obj (names !! i) (names' !! i) (fixed !! i) (fixed' !! i).

Lemma filled_refl (obj : BSONObj) (names : list bytes) (fixed : list Element) :
  filled obj names fixed names fixed.
Proof. split; [done|]. split; [done|]. intros i. by left. Qed.

Lemma is_end_spec (p : bytes) : is_end p = true <-> p = [].
Proof. unfold is_end. apply bool_decide_eq_true. Qed.

Lemma filled_insert (obj : BSONObj) (names : list bytes) (fixed : list Element)
    (names' : list bytes) (fixed' : list Element) (i : nat) (p : bytes) (e : Element) :
  length fixed = length names -> filled obj names fixed names' fixed' ->
  names !! i = Some p -> is_end (path_at names' i) = false -> good_fill obj p e ->
  filled obj names fixed (<[i := []]> names') (<[i := e]> fixed').
Proof.
  intros Hl (Hn & Hx & Hf) Hi He Hg. split; [by rewrite length_insert|].
  split; [by rewrite length_insert|]. intros j. destruct (decide (i = j)) as [<-|Hne].
  - pose proof (lookup_lt_Some _ _ _ Hi) as Hlt.
    rewrite !list_lookup_insert_eq by lia. right. exists p, e. split_and!; try done.
    intros ->. destruct (Hf i) as [[E _]|(q & x & Eq & Hq & Eq' & _)].
    + unfold path_at in He. by rewrite E, Hi in He.
    + unfold path_at in He. by rewrite Eq' in He.
  - rewrite !list_lookup_insert_ne by done. apply Hf.
Qed.

Lemma fold_result_app {S A : Type} (f : S -> A -> result S) (l1 l2 : list A) (s : S) :
  fold_result f s (l1 ++ l2) = (s ← fold_result f s l1; fold_result f s l2).
Proof.
  revert s. induction l1 as [|a l1 IH]; intros s; [done|]. cbn.
  destruct (f s a); cbn; [apply IH|done|done|done].
Qed.

(** Two lists of fields agree below [k], and from [k] on the second has some filled. *)
Definition lists_rel (obj : BSONObj) (k : nat) (names : list bytes) (fixed : list Element)
    (names' : list bytes) (fixed' : list Element) : Prop :=
  length names' = length names /\ length fixed' = length fixed /\
  (forall i, (i < k)%nat -> names' !! i = names !! i /\ fixed' !! i = fixed !! i) /\
  (forall i, (k <= i)%nat -> filled_at obj (names !! i) (names' !! i) (fixed !! i) (fixed' !! i)).

Section lists_rel.
Context (obj : BSONObj) (k : nat) (names names' : list bytes) (fixed fixed' : list Element).
Context (H : lists_rel obj k names fixed names' fixed').

Lemma lists_rel_next :
  names' !! k = names !! k -> fixed' !! k = fixed !! k -> lists_rel obj (S k) names fixed names' fixed'.
Proof.
  destruct H as (Hn & Hx & Hlo & Hhi). intros En Ex. split_and!; try done.
  - intros i Hi. destruct (decide (i = k)) as [->|]; [done|]. apply Hlo. lia.
  - intros i Hi. apply Hhi. lia.
Qed.

Lemma lists_rel_names (p : bytes) :
  fixed' !! k = fixed !! k ->
  lists_rel obj (S k) (<[k := p]> names) fixed (<[k := p]> names') fixed'.
Proof.
  destruct H as (Hn & Hx & Hlo & Hhi). intros Ex. unfold lists_rel. rewrite !length_insert.
  split_and!; try done; intros i Hi.
  - split.
    + apply insert_lookup_agree; [done|]. intros Hne. apply Hlo. lia.
    + destruct (decide (i = k)) as [->|]; [done|]. apply Hlo. lia.
  - rewrite !list_lookup_insert_ne by lia. apply Hhi. lia.
Qed.

Lemma lists_rel_both (p : bytes) (x : Element) :
  lists_rel obj (S k) (<[k := p]> names) (<[k := x]> fixed) (<[k := p]> names') (<[k := x]> fixed').
Proof.
  destruct H as (Hn & Hx & Hlo & Hhi). unfold lists_rel. rewrite !length_insert.
  split_and!; try done; intros i Hi.
  - split; apply insert_lookup_agree; try done; intros Hne; apply Hlo; lia.
  - rewrite !list_lookup_insert_ne by lia. apply Hhi. lia.
Qed.

Lemma lists_rel_filled (e : Element) :
  names' !! k = Some [] -> fixed' !! k = Some e ->
  lists_rel obj (S k) (<[k := []]> names) (<[k := e]> fixed) names' fixed'.
Proof.
  intros En Ex. rewrite <- (list_insert_id names' k []) by done.
  rewrite <- (list_insert_id fixed' k e) by done. apply lists_rel_both.
Qed.

End lists_rel.

Definition scan_rel (obj : BSONObj) (k : nat) (s s' : scan) : Prop :=
  numNotFound s' = numNotFound s /\ arrElt s' = arrElt s /\ arrIdxs s' = arrIdxs s /\
  mayExpandArrayUnembedded s' = mayExpandArrayUnembedded s /\
  lists_rel obj k (fieldNames s) (fixed s) (fieldNames s') (fixed s').

Definition result_rel {A B : Type} (R : A -> B -> Prop) (r : result A) (r' : result B) : Prop :=
  match r, r' with
  | Ret a, Ret b => R a b
  | Throw e, Throw e' => e = e'
  | Fault, Fault | NoFuel, NoFuel => True
  | _, _ => False
  end.

Lemma scan_round_rel (obj : BSONObj) (n k : nat) (s s' : scan) :
  (k < length (fieldNames s))%nat -> scan_rel obj k s s' ->
  result_rel (scan_rel obj (S k)) (scan_round obj (replicate n emptyPos) s k)
    (scan_round obj (replicate n emptyPos) s' k).
Proof.
  intros Hk (En & Ea & Ei & Em & Hl). unfold scan_round.
  assert (pos_at (replicate n emptyPos) k = emptyPos) as ->.
  { unfold pos_at. destruct (replicate n emptyPos !! k) eqn:E; [|done].
    by apply lookup_replicate in E as [-> _]. }
  destruct (proj2 (proj2 (proj2 Hl)) k ltac:(lia)) as [[E1 E2]|(p & e & E1 & Hp & E1' & E2' & Hg)].
  - assert (path_at (fieldNames s') k = path_at (fieldNames s) k) as -> by (unfold path_at; by rewrite E1).
    destruct (is_end _); [split_and!; try done; by apply lists_rel_next|].
    destruct (extractNextElement _ _ _) as [[[e rest] nst]| | |]; cbn; try done.
    destruct (eoo e); cbn.
    { split_and!; try done; [cbn; by rewrite En|]. cbn. rewrite !list_insert_insert_eq. by apply lists_rel_both. }
    rewrite Ea. destruct (type e =? T.Array).
    + destruct (require _ _); cbn; try done.
      split_and!; try done; [by rewrite Ei|by rewrite Em|]. by apply lists_rel_names.
    + cbn. split_and!; try done. by apply lists_rel_both.
  - assert (path_at (fieldNames s') k = []) as -> by (unfold path_at; by rewrite E1').
    assert (path_at (fieldNames s) k = p) as -> by (unfold path_at; by rewrite E1).
    change (is_end []) with true. destruct (is_end p) eqn:Ep; [by apply is_end_spec in Ep|].
    destruct Hg as (Hx & He & Ht & Hgf). unfold extractNextElement.
    destruct (getField obj (before p)) eqn:Eg; [done|]. rewrite Hx. cbn. destruct e; [done|]. cbn [eoo].
    apply Z.eqb_neq in Ht. rewrite Ht. cbn. split_and!; try done.
    by apply lists_rel_filled.
Qed.

Lemma scan_round_length (obj : BSONObj) (ps : list PositionalPathInfo) (s : scan) (i : nat) (t : scan) :
  scan_round obj ps s i = Ret t -> length (fieldNames t) = length (fieldNames s).
Proof.
  unfold scan_round. destruct (is_end _); [by intros [= <-]|].
  destruct (extractNextElement _ _ _) as [[[e rest] nst]| | |]; cbn; try done.
  destruct (eoo e); [intros [= <-]; cbn; by rewrite !length_insert|].
  destruct (type e =? T.Array); cbn.
  - destruct (require _ _); cbn; try done. intros [= <-]. cbn. by rewrite length_insert.
  - intros [= <-]. cbn. by rewrite length_insert.
Qed.

Lemma scan_fields_length (obj : BSONObj) (ps : list PositionalPathInfo) (s t : scan) :
  scan_fields obj ps s = Ret t -> length (fieldNames t) = length (fieldNames s).
Proof.
  unfold scan_fields. generalize (seq 0 (length (fieldNames s))). intros l. revert s.
  induction l as [|i l IH]; intros s; cbn; [by intros [= <-]|].
  destruct (scan_round obj ps s i) as [s1| | |] eqn:E; cbn; try done.
  intros Ht. rewrite (IH s1 Ht). by eapply scan_round_length.
Qed.

Lemma fold_scan_rel (obj : BSONObj) (n m k : nat) : forall (s s' : scan),
  (k + m = length (fieldNames s))%nat -> scan_rel obj k s s' ->
  result_rel (scan_rel obj (k + m))
    (fold_result (scan_round obj (replicate n emptyPos)) s (seq k m))
    (fold_result (scan_round obj (replicate n emptyPos)) s' (seq k m)).
Proof.
  revert k. induction m as [|m IH]; intros k s s' Hlen Hrel; cbn [seq fold_result].
  { cbn. by rewrite Nat.add_0_r in *. }
  pose proof (scan_round_rel obj n k s s' ltac:(lia) Hrel) as Hr.
  pose proof (scan_round_length obj (replicate n emptyPos) s k) as Hsl.
  destruct (scan_round obj _ s k) as [t| | |], (scan_round obj _ s' k) as [t'| | |]; try done.
  cbn [result_rel mbind outcome_bind] in *. rewrite <- Nat.add_succ_comm. apply IH; [|done].
  rewrite (Hsl t eq_refl). lia.
Qed.

(** The scan does not see which fields were filled before it. *)
Lemma scan_fields_filled (obj : BSONObj) (names names' : list bytes) (fixed fixed' : list Element)
    (nf : nat) :
  filled obj names fixed names' fixed' ->
  scan_fields obj (replicate (length names') emptyPos) (mkScan names' fixed' nf Eoo [] true) =
  scan_fields obj (replicate (length names) emptyPos) (mkScan names fixed nf Eoo [] true).
Proof.
  intros (Hn & Hx & Hf). unfold scan_fields. cbn [fieldNames]. rewrite Hn.
  pose proof (fold_scan_rel obj (length names) (length names) 0
    (mkScan names fixed nf Eoo [] true) (mkScan names' fixed' nf Eoo [] true)) as H.
  cbn [fieldNames] in H. specialize (H eq_refl). rewrite Nat.add_0_l in H.
  pose proof (scan_fields_length obj (replicate (length names) emptyPos) (mkScan names fixed nf Eoo [] true)) as Hl.
  unfold scan_fields in Hl. cbn [fieldNames] in Hl.
  assert (scan_rel obj 0 (mkScan names fixed nf Eoo [] true) (mkScan names' fixed' nf Eoo [] true)) as H0.
  { split_and!; try done. split_and!; try done. intros i Hi. lia. }
  specialize (H H0).
  destruct (fold_result _ (mkScan names fixed nf Eoo [] true) _) as [t| | |],
    (fold_result _ (mkScan names' fixed' nf Eoo [] true) _) as [t'| | |];
    cbn [result_rel] in H; try done; [|by rewrite H].
  f_equal. destruct H as (E1 & E2 & E3 & E4 & Hln & Hlx & Hlo & Hhi).
  pose proof (Hl t eq_refl) as Hl1. destruct t, t'; cbn in *. subst. f_equal.
  - apply list_eq. intros i. destruct (decide (i < length names)%nat) as [Hi|].
    + by apply Hlo.
    + rewrite !lookup_ge_None_2 by lia. done.
  - apply list_eq. intros i. destruct (decide (i < length names)%nat) as [Hi|].
    + by apply Hlo.
    + destruct (Hhi i) as [[_ ->]|(p & e & Ep & _)]; [lia|done|].
      apply lookup_lt_Some in Ep. lia.
Qed.

(** ** Termination *)

Lemma fold_result_ext {S A : Type} (f g : S -> A -> result S) (l : list A) (s : S) :
  (forall s a, a ∈ l -> f s a = g s a) -> fold_result f s l = fold_result g s l.
Proof.
  revert s. induction l as [|a l IH]; intros s H; [done|]. cbn. rewrite (H s a) by (by left).
  destruct (g s a); cbn; try done. apply IH. intros. apply H. by right.
Qed.

Lemma fold_result_fuel {S A : Type} (f : S -> A -> result S) (l : list A) (s : S) :
  (forall s a, f s a <> NoFuel) -> fold_result f s l <> NoFuel.
Proof.
  intros H. revert s. induction l as [|a l IH]; intros s; [done|]. cbn.
  pose proof (H s a). destruct (f s a); cbn; try done.
Qed.

Lemma collation_fuel (col : Collator) (e : Element) : collationAwareIndexKeyAppend col e <> NoFuel.
Proof.
  destruct e as [|a n v]; [done|]. destruct col as [getKey|]; [|done].
  destruct v; try done; cbn [collationAwareIndexKeyAppend]; rewrite translate_fields; by destruct (fields_symbol fs).
Qed.

Lemma build_key_fuel (col : Collator) (l : list Element) : build_key col l <> NoFuel.
Proof.
  apply fold_result_fuel. intros b e. pose proof (collation_fuel col e).
  by destruct (collationAwareIndexKeyAppend col e).
Qed.

Lemma total_insert (names : list bytes) (i : nat) (p : bytes) :
  (i < length names)%nat ->
  (total (<[i := p]> names) + length (path_at names i) = total names + length p)%nat.
Proof.
  revert i. induction names as [|q names IH]; intros i Hi; [cbn in Hi; lia|].
  cbn [length] in Hi. destruct i as [|i]; [cbn; lia|].
  change (<[S i := p]> (q :: names)) with (q :: <[i := p]> names).
  change (path_at (q :: names) (S i)) with (path_at names i). cbn [total].
  specialize (IH i ltac:(lia)). lia.
Qed.

(** The remaining path of a positional element is shorter than the field's. *)
Definition pos_ok_at (names : list bytes) (ps : list PositionalPathInfo) (i : nat) : Prop :=
  hasPositionallyIndexedElt (pos_at ps i) = true ->
  (length (remainingPath (pos_at ps i)) < length (path_at names i))%nat.
Definition pos_ok (names : list bytes) (ps : list PositionalPathInfo) : Prop :=
  forall i, pos_ok_at names ps i.

Lemma extractNext_shorter (obj : BSONObj) (pos : PositionalPathInfo) (field rest : bytes)
    (e : Element) (b : bool) :
  extractNextElement obj pos field = Ret (e, rest, b) -> field <> [] -> e <> Eoo ->
  (hasPositionallyIndexedElt pos = true -> (length (remainingPath pos) < length field)%nat) ->
  (length rest < length field)%nat.
Proof.
  unfold extractNextElement. intros E Hf He Hp.
  destruct (require _ _); cbn [mbind outcome_bind] in E; try done.
  destruct (negb (eoo (getField obj (before field)))).
  - destruct (extractElementAtPathOrArrayAlongPath obj field) as [e' r] eqn:Ex.
    injection E as <- <- <-. by apply (extractOrArray_rest field obj e' r).
  - destruct (hasPositionallyIndexedElt pos); [|congruence]. injection E as <- <- <-. by apply Hp.
Qed.

Lemma scan_round_shrinks (obj : BSONObj) (ps : list PositionalPathInfo) (s t : scan) (i : nat) :
  (i < length (fieldNames s))%nat -> pos_ok_at (fieldNames s) ps i -> scan_round obj ps s i = Ret t ->
  t = s \/ ((total (fieldNames t) < total (fieldNames s))%nat /\
    forall j, j <> i -> path_at (fieldNames t) j = path_at (fieldNames s) j).
Proof.
  intros Hi Hp. unfold scan_round. destruct (is_end _) eqn:Ee; [intros [= <-]; by left|].
  assert (path_at (fieldNames s) i <> []) as Hne by (by rewrite <- is_end_spec, Ee).
  destruct (extractNextElement _ _ _) as [[[e rest] nst]| | |] eqn:Ex; cbn; try done.
  assert (forall r, (length r < length (path_at (fieldNames s) i))%nat ->
    (total (<[i := r]> (fieldNames s)) < total (fieldNames s))%nat /\
    forall j, j <> i -> path_at (<[i := r]> (fieldNames s)) j = path_at (fieldNames s) j) as Hr.
  { intros r Hlt. pose proof (total_insert (fieldNames s) i r Hi). split; [lia|].
    intros j Hj. unfold path_at. by rewrite list_lookup_insert_ne. }
  destruct (eoo e) eqn:Eo.
  { intros [= <-]. right. cbn. rewrite list_insert_insert_eq. apply Hr.
    destruct (path_at (fieldNames s) i); [done|cbn; lia]. }
  assert (length rest < length (path_at (fieldNames s) i))%nat as Hlt.
  { eapply extractNext_shorter; [exact Ex|done| |done]. by intros ->. }
  destruct (type e =? T.Array); cbn.
  - destruct (require _ _); cbn; try done. intros [= <-]. right. by apply Hr.
  - intros [= <-]. right. by apply Hr.
Qed.

Lemma fold_scan_shrinks (obj : BSONObj) (ps : list PositionalPathInfo) (m k : nat) : forall (s t : scan),
  (k + m <= length (fieldNames s))%nat -> (forall i, (k <= i)%nat -> pos_ok_at (fieldNames s) ps i) ->
  fold_result (scan_round obj ps) s (seq k m) = Ret t ->
  t = s \/ (total (fieldNames t) < total (fieldNames s))%nat.
Proof.
  revert k. induction m as [|m IH]; intros k s t Hk Hp; cbn [seq fold_result]; [intros [= <-]; by left|].
  destruct (scan_round obj ps s k) as [s1| | |] eqn:E; cbn [mbind outcome_bind]; try done. intros Ht.
  pose proof (scan_round_length _ _ _ _ _ E) as Hl.
  apply scan_round_shrinks in E; [|lia|by apply Hp].
  destruct E as [->|[Hlt Hj]]; [by eapply (IH (S k)); eauto with lia|].
  right. destruct (IH (S k) s1 t) as [->|]; [lia| |done|done|lia].
  intros i Hi. unfold pos_ok_at. rewrite Hj by lia. apply Hp. lia.
Qed.

(** After a scan that found an array, less path is left. *)
Lemma scan_fields_shrinks (obj : BSONObj) (ps : list PositionalPathInfo) (names : list bytes)
    (fx : list Element) (nf : nat) (t : scan) :
  pos_ok names ps -> scan_fields obj ps (mkScan names fx nf Eoo [] true) = Ret t ->
  arrElt t <> Eoo -> (total (fieldNames t) < total names)%nat.
Proof.
  intros Hp Ht Ha. unfold scan_fields in Ht. cbn [fieldNames] in Ht.
  apply fold_scan_shrinks in Ht; [|cbn; lia|intros; apply Hp]. by destruct Ht as [->|].
Qed.

Lemma pos_at_app_l (ps qs : list PositionalPathInfo) (i : nat) :
  (i < length ps)%nat -> pos_at (ps ++ qs) i = pos_at ps i.
Proof. intros H. unfold pos_at. by rewrite lookup_app_l. Qed.
Lemma pos_at_snoc (ps : list PositionalPathInfo) (p : PositionalPathInfo) :
  pos_at (ps ++ [p]) (length ps) = p.
Proof. unfold pos_at. by rewrite lookup_app_r, Nat.sub_diag by lia. Qed.
Lemma pos_at_ge (ps : list PositionalPathInfo) (i : nat) : (length ps <= i)%nat -> pos_at ps i = emptyPos.
Proof. intros H. unfold pos_at. by rewrite lookup_ge_None_2. Qed.

Lemma pos_ok_empty (names : list bytes) (n : nat) : pos_ok names (replicate n emptyPos).
Proof.
  intros i. unfold pos_ok_at, pos_at. destruct (replicate n emptyPos !! i) eqn:E; [|done].
  by apply lookup_replicate in E as [-> _].
Qed.

(** What a round appends: one position, shorter than the field, and one component. *)
Lemma positional_round_spec (lens : list nat) (arrObj : BSONObj) (s : scan) (track : bool)
    (acc acc' : list (option nat) * list PositionalPathInfo) (i : nat) :
  positional_round lens arrObj s track acc i = Ret acc' ->
  exists c p, acc'.1 = acc.1 ++ [c] /\ acc'.2 = acc.2 ++ [p] /\
    (hasPositionallyIndexedElt p = true ->
      (length (remainingPath p) < length (path_at (fieldNames s) i))%nat) /\
    (track = false -> c = None).
Proof.
  unfold positional_round. destruct acc as [cs sub]. destruct (is_end _) eqn:Ee.
  { intros [= <-]. eexists _, _. split_and!; try done. by intros ->. }
  destruct (bool_decide (i ∈ arrIdxs s)); cbn [verify mbind outcome_bind]; [|done].
  destruct (eoo (getField arrObj _)) eqn:Eg.
  - destruct track.
    + destruct (verify _); cbn [mbind outcome_bind]; try done.
      intros [= <-]. by eexists _, _.
    + intros [= <-]. by eexists _, _.
  - destruct (extractElementAtPathOrArrayAlongPath _ _) as [e r] eqn:Ex. intros [= <-].
    eexists _, _. split_and!; try done. intros _. cbn [remainingPath].
    apply (extractOrArray_rest _ _ _ _ Ex). by rewrite <- is_end_spec, Ee.
Qed.

Lemma positional_fold_ok (lens : list nat) (arrObj : BSONObj) (s : scan) (track : bool) (m k : nat) :
  forall acc acc', length acc.2 = k ->
  (forall i, (i < k)%nat -> pos_ok_at (fieldNames s) acc.2 i) ->
  fold_result (positional_round lens arrObj s track) acc (seq k m) = Ret acc' ->
  pos_ok (fieldNames s) acc'.2.
Proof.
  revert k. induction m as [|m IH]; intros k acc acc' Hl Hok; cbn [seq fold_result].
  - intros [= <-] i. destruct (decide (i < k)%nat); [by apply Hok|].
    unfold pos_ok_at. rewrite pos_at_ge by lia. done.
  - destruct (positional_round _ _ _ _ acc k) as [acc1| | |] eqn:E; cbn [mbind outcome_bind]; try done.
    apply positional_round_spec in E as (c & p & _ & E2 & Hp & _).
    intros Hf. apply (IH (S k) acc1 acc'); [| |exact Hf].
    + rewrite E2, length_app. cbn. lia.
    + intros i Hi. unfold pos_ok_at. rewrite E2. destruct (decide (i = k)) as [->|].
      * by rewrite <- Hl, pos_at_snoc, Hl.
      * rewrite pos_at_app_l by lia. apply Hok. lia.
Qed.

Lemma positional_fold_fuel (lens : list nat) (arrObj : BSONObj) (s : scan) (track : bool) (l : list nat)
    (acc : list (option nat) * list PositionalPathInfo) :
  fold_result (positional_round lens arrObj s track) acc l <> NoFuel.
Proof.
  apply fold_result_fuel. intros [cs sub] i. unfold positional_round.
  destruct (is_end _); [done|]. destruct (bool_decide (i ∈ arrIdxs s)); cbn [verify mbind outcome_bind]; [|done].
  destruct (eoo _).
  - destruct track; [|done]. by destruct (bool_decide (numParts _ < _)%nat).
  - by destruct (extractElementAtPathOrArrayAlongPath _ _).
Qed.

Lemma scan_fields_fuel (obj : BSONObj) (ps : list PositionalPathInfo) (s : scan) :
  scan_fields obj ps s <> NoFuel.
Proof.
  apply fold_result_fuel. intros t i. unfold scan_round. destruct (is_end _); [done|].
  assert (extractNextElement obj (pos_at ps i) (path_at (fieldNames t) i) <> NoFuel) as Hx.
  { unfold extractNextElement. destruct (_ || _); cbn [require mbind outcome_bind]; [|done].
    destruct (negb _); [by destruct (extractElementAtPathOrArrayAlongPath _ _)|].
    by destruct (hasPositionallyIndexedElt _). }
  destruct (extractNextElement _ _ _) as [[[e rest] nst]| | |]; cbn; try done.
  destruct (eoo e); [done|]. destruct (type e =? T.Array); [|done]. by destruct (_ || _).
Qed.

(** [expand] only calls [rec] on the fields left by the scan. *)
Abbreviation rec_type :=
  (list bytes -> list Element -> BSONObj -> list key -> nat -> list PositionalPathInfo ->
    MultikeyPaths -> result (list key * MultikeyPaths)).

Lemma expand_ext (rec rec' : rec_type) (lt : key -> key -> bool) (g : BtreeKeyGeneratorV1)
    (keys : list key) (paths : MultikeyPaths) (s : scan) :
  (arrElt s <> Eoo -> forall fx obj keys nf sub paths, pos_ok (fieldNames s) sub ->
    rec (fieldNames s) fx obj keys nf sub paths = rec' (fieldNames s) fx obj keys nf sub paths /\
    rec (fieldNames s) fx obj keys nf sub paths <> NoFuel) ->
  expand rec lt g keys paths s = expand rec' lt g keys paths s /\
  expand rec lt g keys paths s <> NoFuel.
Proof.
  intros H. unfold expand. destruct (embeddedObject (arrElt s)) as [arrObj|] eqn:Ea.
  2:{ split; [done|]. destruct (_ && _); [done|]. pose proof (build_key_fuel (_collator g) (fixed s)).
      by destruct (build_key _ _). }
  assert (arrElt s <> Eoo) as Hne by (by intros E; rewrite E in Ea). specialize (H Hne).
  assert (forall sub b acc e, pos_ok (fieldNames s) sub ->
    getKeysArrEltFixed rec s sub b acc e = getKeysArrEltFixed rec' s sub b acc e /\
    getKeysArrEltFixed rec s sub b acc e <> NoFuel) as Hfix.
  { intros sub b [[ks fx] ps] e Hsub. unfold getKeysArrEltFixed.
    destruct (H (set_terminal s e b fx) (embedded_or_empty e) ks (numNotFound s) sub ps Hsub) as [E1 E2].
    rewrite <- E1. split; [done|]. by destruct (rec _ _ _ _ _ _ _). }
  destruct (eoo (firstElement arrObj)).
  { destruct (Hfix (replicate (length (fieldNames s)) emptyPos) true (keys, fixed s, paths) undefinedElt)
      as [E1 E2]; [apply pos_ok_empty|]. rewrite <- E1. split; [done|].
    by destruct (getKeysArrEltFixed rec _ _ _ _ _). }
  destruct (fold_result (positional_round _ _ _ _) _ _) as [c| | |] eqn:Ec;
    cbn [mbind outcome_bind]; try done.
  2:{ by apply positional_fold_fuel in Ec. }
  apply (positional_fold_ok _ _ _ _ _ 0) in Ec; [|done|intros; lia].
  rewrite (fold_result_ext _ (getKeysArrEltFixed rec' s c.2 (mayExpandArrayUnembedded s)));
    [|intros; by apply Hfix]. split; [done|].
  pose proof (fold_result_fuel (getKeysArrEltFixed rec' s c.2 (mayExpandArrayUnembedded s))
    (elements arrObj) (keys, fixed s, paths)) as Hf.
  assert (fold_result (getKeysArrEltFixed rec' s c.2 (mayExpandArrayUnembedded s))
    (keys, fixed s, paths) (elements arrObj) <> NoFuel) as Hn.
  { apply Hf. intros acc e. destruct (Hfix c.2 (mayExpandArrayUnembedded s) acc e Ec) as [<- ?]. done. }
  by destruct (fold_result _ _ _).
Qed.

Lemma getKeysImplWithArray_fuel (lt : key -> key -> bool) (g : BtreeKeyGeneratorV1) (j k : nat) :
  forall names fx obj keys nf ps paths,
  pos_ok names ps -> (total names < j)%nat -> (total names < k)%nat ->
  getKeysImplWithArray j lt g names fx obj keys nf ps paths =
    getKeysImplWithArray k lt g names fx obj keys nf ps paths /\
  getKeysImplWithArray j lt g names fx obj keys nf ps paths <> NoFuel.
Proof.
  revert k. induction j as [|j IH]; intros k names fx obj keys nf ps paths Hp Hj Hk; [lia|].
  destruct k as [|k]; [lia|]. cbn [getKeysImplWithArray].
  pose proof (scan_fields_fuel obj ps (mkScan names fx nf Eoo [] true)) as Hf.
  destruct (scan_fields _ _ _) as [s| | |] eqn:Es; cbn [mbind outcome_bind]; try done.
  apply expand_ext. intros Ha fx' obj' keys' nf' sub paths' Hsub.
  pose proof (scan_fields_shrinks _ _ _ _ _ _ Hp Es Ha). apply IH; [done|lia|lia].
Qed.

(** ** The constructor *)

Definition simple_ok (names : list bytes) (info : SimpleFieldInfo) : Prop :=
  names !! fieldIndex info = Some (name info) /\ nameLen info = length (name info) /\
  dot ∉ name info.
Definition group_ok (names : list bytes) (grp : PrefixGroup) : Prop :=
  dot ∉ prefix grp /\ Forall (fun fld =>
    names !! suffixIndex fld = Some (prefix grp ++ dot :: suffix fld)) (group_fields grp).

Lemma group_add_ok (names : list bytes) (p : bytes) (f : NestedFieldSuffix) (gs : list PrefixGroup) :
  Forall (group_ok names) gs -> dot ∉ p -> names !! suffixIndex f = Some (p ++ dot :: suffix f) ->
  Forall (group_ok names) (group_add p f gs).
Proof.
  intros Hgs Hp Hf. induction Hgs as [|g gs [Hg1 Hg2] Hgs IH]; cbn [group_add].
  { constructor; [|done]. split; [done|]. by constructor. }
  case_bool_decide as E; [|destruct (SD.operator_lt _ _)].
  - constructor; [|done]. subst p. split; [done|]. apply Forall_app. split; [done|]. by constructor.
  - constructor; [|by constructor]. split; [done|]. by constructor.
  - by constructor.
Qed.

Lemma ctor_loop_ok (names : list bytes) (rest : list bytes) : forall i lens simple bm groups r,
  drop i names = rest -> Forall (simple_ok names) simple -> Forall (group_ok names) groups ->
  ctor_loop (lens, simple, bm, groups) i rest = Ret r ->
  Forall (simple_ok names) r.1.1.2 /\ Forall (group_ok names) r.2.
Proof.
  induction rest as [|f rest IH]; intros i lens simple bm groups r Hd Hs Hg; cbn [ctor_loop].
  { intros [= <-]. done. }
  assert (names !! i = Some f) as Hi.
  { rewrite <- (Nat.add_0_r i), <- lookup_drop, Hd. done. }
  assert (drop (S i) names = rest) as Hd'.
  { replace (S i) with (i + 1)%nat by lia. rewrite <- drop_drop, Hd. done. }
  unfold ctor_round. destruct (bool_decide _); cbn [verify mbind outcome_bind]; [|done].
  destruct (split_dot f) as [[p s]|] eqn:Es; cbn [mbind outcome_bind].
  - apply split_dot_Some in Es as [-> Hp]. apply (IH (S i)); try done. by apply group_add_ok.
  - apply split_dot_None in Es. apply (IH (S i)); try done.
    apply Forall_app. split; [done|]. by constructor.
Qed.

Lemma ctor_ok (names : list bytes) (fx : list Element) (sparse : bool) (col : Collator)
    (g : BtreeKeyGeneratorV1) :
  BtreeKeyGeneratorV1_new names fx sparse col = Ret g ->
  Forall (simple_ok names) (_simpleFields g) /\ Forall (group_ok names) (_prefixGroups g) /\
  base g = BtreeKeyGenerator_new names fx sparse /\ _collator g = col.
Proof.
  unfold BtreeKeyGeneratorV1_new.
  destruct (ctor_loop _ _ _) as [[[[lens simple] bm] groups]| | |] eqn:E; cbn [mbind outcome_bind]; try done.
  apply (ctor_loop_ok names) in E as [H1 H2]; [|done|done|done]. intros [= <-]. cbn in *.
  split_and!; try done. apply Forall_forall. intros x [_ Hx]%list_elem_of_filter.
  rewrite Forall_forall in H2. by apply H2.
Qed.

(** ** The fast paths fill what the general code would *)

Lemma elements_names (o : BSONObj) : fieldName <$> elements o = (fields o).*1.
Proof.
  unfold elements. generalize (objdata o + 4). generalize (fields o).
  induction l as [|f fs IH]; intros a; cbn; [done|]. f_equal. apply IH.
Qed.

Lemma getField_unique (o : BSONObj) (e : Element) :
  NoDup (fields o).*1 -> e ∈ elements o -> getField o (fieldName e) = e.
Proof.
  rewrite <- elements_names. intros Hnd [i Hi]%list_elem_of_lookup. unfold getField.
  destruct (list_find _ _) as [[j e']|] eqn:E; cbn.
  - apply list_find_Some in E as (Hj & Hn & _).
    assert (i = j) as ->; [|congruence].
    apply (NoDup_lookup _ i j (fieldName e) Hnd); rewrite list_lookup_fmap.
    + by rewrite Hi.
    + rewrite Hj. cbn. by rewrite Hn.
  - apply list_find_None in E. rewrite Forall_lookup in E. by specialize (E i e Hi).
Qed.

Lemma before_no_dot (p : bytes) : dot ∉ p -> before p = p.
Proof. intros H%split_dot_None. unfold before. by rewrite H. Qed.

Lemma good_simple (obj : BSONObj) (e : Element) (p : bytes) :
  NoDup (fields obj).*1 -> e ∈ elements obj -> fieldName e = p -> dot ∉ p -> e <> Eoo ->
  type e <> T.Array -> good_fill obj p e.
Proof.
  intros Hnd He Hn Hp Hne Ht. pose proof (getField_unique obj e Hnd He) as Hg. rewrite Hn in Hg.
  split; [|rewrite before_no_dot, Hg by done; done].
  rewrite extractOrArray_eq. unfold first_step. pose proof Hp as Hp'. apply split_dot_None in Hp'.
  rewrite Hp', Hg. destruct e; [done|]. cbn [eoo]. change (bool_decide ([] = [])) with true.
  by rewrite orb_true_r.
Qed.

Lemma name_matches_spec (names : list bytes) (info : SimpleFieldInfo) (n : bytes) :
  simple_ok names info -> name_matches info n = true -> n = name info.
Proof.
  intros (_ & Hl & _). unfold name_matches. rewrite Hl.
  intros [H1%bool_decide_eq_true H2%Z.eqb_eq]%andb_true_iff.
  apply SD.memcmp_prefix in H2; [|lia]. by rewrite <- H1, take_ge in H2 by lia.
Qed.

Lemma elements_not_eoo (o : BSONObj) (e : Element) : e ∈ elements o -> e <> Eoo.
Proof.
  unfold elements. generalize (objdata o + 4). generalize (fields o).
  induction l as [|f fs IH]; intros a; cbn; [by rewrite elem_of_nil|].
  rewrite elem_of_cons. intros [->|He]; [done|by eapply IH].
Qed.

(** The offsets of a cache, other than zero, are those of elements of the object. *)
Definition offsets_ok (obj : BSONObj) (offs : list Z) : Prop :=
  forall slot off, offs !! slot = Some off -> off <> 0 ->
  exists e, e ∈ elements obj /\ rawdata e = Some (objdata obj + off).
Definition cache_ok (obj : BSONObj) (c : FieldOffsetCache) : Prop :=
  isValidFor c (objdata obj) (wrapu 32 (objsize obj)) = true -> offsets_ok obj (offsets c).

Lemma offsets_ok_zero (obj : BSONObj) (n : nat) : offsets_ok obj (repeat 0 n).
Proof.
  intros slot off H. apply list_elem_of_lookup_2, list_elem_of_In, repeat_spec in H. done.
Qed.

Lemma elements_from_addr (fs : list field) (a : Z) (e : Element) :
  e ∈ elements_from a fs -> exists x, rawdata e = Some x /\
    a <= x < a + Z.of_nat (length (enc_fields fs)).
Proof.
  revert a. induction fs as [|f fs IH]; intros a; cbn [elements_from]; [by rewrite elem_of_nil|].
  rewrite enc_fields_cons, length_app. assert (0 < length (enc_elem f))%nat by (rewrite length_enc_elem; lia).
  rewrite elem_of_cons. intros [->|He].
  - exists a. split; [done|lia].
  - apply IH in He as (x & -> & Hx). exists x. split; [done|lia].
Qed.

Section fast.
Context (obj : BSONObj) (names : list bytes) (fx : list Element).
Context (Hnd : NoDup (fields obj).*1) (Hlen : length fx = length names) (Hsize : objsize obj < 2 ^ 32).

Definition fill_inv (f : fill) : Prop := filled obj names fx (f_names f) (f_fixed f).

Lemma fill_in_ok (f : fill) (info : SimpleFieldInfo) (e : Element) :
  fill_inv f -> simple_ok names info -> is_end (path_at (f_names f) (fieldIndex info)) = false ->
  e ∈ elements obj -> name_matches info (fieldName e) = true -> (type e =? T.Array) = false ->
  fill_inv (fill_in (fieldIndex info) e f).
Proof.
  intros Hf Hi Hend He Hm Ht. pose proof (name_matches_spec _ _ _ Hi Hm) as Hn.
  destruct Hi as (Hi & _ & Hd). apply (filled_insert obj names fx _ _ _ (name info)); try done.
  apply good_simple; try done; [by eapply elements_not_eoo|by apply Z.eqb_neq].
Qed.

Lemma elem_at_ok (off : Z) :
  (exists e, e ∈ elements obj /\ rawdata e = Some (objdata obj + off)) ->
  exists e, elem_at obj off = Some e /\ e ∈ elements obj.
Proof.
  intros (e & He & Hr). unfold elem_at. destruct (list_find _ _) as [[i e']|] eqn:E; cbn.
  - apply list_find_Some in E as (Hi & _). exists e'. split; [done|].
    by eapply list_elem_of_lookup_2.
  - apply list_find_None in E. rewrite Forall_forall in E. by destruct (E e He).
Qed.

Lemma cache_round_ok (cache : FieldOffsetCache) (f : fill) (info : SimpleFieldInfo) :
  offsets_ok obj (offsets cache) -> fill_inv f -> simple_ok names info ->
  exists f', cache_round obj cache f info = Ret f' /\ fill_inv f'.
Proof.
  intros Hc Hf Hi. unfold cache_round. destruct (is_end _) eqn:Ee; [by eauto|].
  destruct (offsets cache !! cacheSlot info) as [off|] eqn:Eo; cbn; [|by eauto].
  destruct (Z.eqb_spec off 0) as [|Hne]; [by eauto|].
  destruct (elem_at_ok off (Hc _ _ Eo Hne)) as (e & -> & He).
  destruct (name_matches info (fieldName e)) eqn:Em; [|by eauto].
  destruct (type e =? T.Array) eqn:Et; [by eauto|]. cbn. eexists. split; [done|]. by apply fill_in_ok.
Qed.

Lemma cache_fold_ok (cache : FieldOffsetCache) (infos : list SimpleFieldInfo) :
  offsets_ok obj (offsets cache) -> Forall (simple_ok names) infos -> forall f, fill_inv f ->
  exists f', fold_result (cache_round obj cache) f infos = Ret f' /\ fill_inv f'.
Proof.
  intros Hc Hi. induction Hi as [|info infos Hi _ IH]; intros f Hf; cbn [fold_result]; [by eauto|].
  destruct (cache_round_ok cache f info Hc Hf Hi) as (f' & -> & Hf'). cbn [mbind outcome_bind]. by apply IH.
Qed.

Definition cache_inv (c : FieldOffsetCache) : Prop :=
  docPtr c = objdata obj /\ docSize c = wrapu 32 (objsize obj) /\ offsets_ok obj (offsets c).

Lemma offset_insert_ok (c : FieldOffsetCache) (e : Element) (slot : nat) :
  e ∈ elements obj -> offsets_ok obj (offsets c) ->
  offsets_ok obj (<[slot := wrapu 32 (default 0 (rawdata e) - objdata obj)]> (offsets c)).
Proof.
  intros He Hc. unfold elements in He.
  destruct (elements_from_addr _ _ _ He) as (x & Hx & Hlo). rewrite Hx. cbn [default from_option].
  unfold objsize in Hsize. rewrite length_enc_obj in Hsize. unfold id. rewrite wrapu_small by lia.
  intros j off [[-> Ho]|[Hne Ho]]%list_lookup_insert_Some Hz; [|by eapply Hc].
  destruct Ho as [<- _]. exists e. split; [done|]. rewrite Hx. f_equal. lia.
Qed.

Lemma match_simple_ok (infos : list SimpleFieldInfo) (e : Element) (f : fill) (c : FieldOffsetCache) :
  Forall (simple_ok names) infos -> e ∈ elements obj -> fill_inv f -> cache_inv c ->
  fill_inv (match_simple infos obj e f c).1 /\ cache_inv (match_simple infos obj e f c).2.
Proof.
  intros Hi He Hf Hc. induction Hi as [|info infos Hi _ IH]; cbn [match_simple]; [done|].
  destruct (is_end _) eqn:Ee; [done|]. destruct (name_matches _ _) eqn:Em; [|done].
  destruct (type e =? T.Array) eqn:Et; cbn [negb fst snd]; [done|]. split; [by apply fill_in_ok|].
  destruct Hc as (H1 & H2 & H3). split_and!; [done|done|]. by apply offset_insert_ok.
Qed.

Lemma prefill_ok (g : BtreeKeyGeneratorV1) (es : list Element) :
  Forall (simple_ok names) (_simpleFields g) -> es ⊆ elements obj -> forall f c, fill_inv f -> cache_inv c ->
  fill_inv (prefill g obj es f c).1 /\ cache_inv (prefill g obj es f c).2.
Proof.
  intros Hi. induction es as [|e es IH]; intros Hes f c Hf Hc; cbn [prefill]; [done|].
  assert (e ∈ elements obj /\ es ⊆ elements obj) as [He Hes'] by set_solver.
  destruct (_ <? _)%nat; [|done]. destruct (_ =? 0); [by apply IH|].
  pose proof (match_simple_ok _ e f c Hi He Hf Hc) as [H1 H2].
  destruct (match_simple _ _ _ _ _) as [f' c']. by apply IH.
Qed.

Lemma suffix_round_ok (a : Z) (n : bytes) (fs : list field) (grp : PrefixGroup) (fld : NestedFieldSuffix)
    (nf : list bytes * list Element) :
  getField obj (prefix grp) = Elem a n (VObject fs) -> dot ∉ prefix grp -> suffix fld <> [] ->
  names !! suffixIndex fld = Some (prefix grp ++ dot :: suffix fld) ->
  filled obj names fx nf.1 nf.2 ->
  let nf' := suffix_round (mkObj (a + Z.of_nat (length n) + 2) fs) nf fld in
  filled obj names fx nf'.1 nf'.2.
Proof.
  intros Hg Hp Hs Hi Hf. cbv zeta. unfold suffix_round. destruct nf as [ns xs]. cbn [fst snd] in *.
  destruct (is_end (path_at ns _)) eqn:Ee; [done|].
  destruct (extractElementAtPathOrArrayAlongPath _ (suffix fld)) as [e r] eqn:Ex.
  destruct (eoo e) eqn:Eo; [done|]. destruct (type e =? T.Array) eqn:Et; [done|].
  destruct (is_end r) eqn:Er; [|done]. cbn. apply is_end_spec in Er as ->.
  eapply filled_insert; try done.
  assert (split_dot (prefix grp ++ dot :: suffix fld) = Some (prefix grp, suffix fld)) as Hsd
    by (by apply split_dot_Some).
  split; [|split_and!].
  - rewrite extractOrArray_eq. unfold first_step. rewrite Hsd, Hg. cbn [eoo].
    change (type (Elem a n (VObject fs)) =? T.Array) with false. cbn [orb].
    by rewrite bool_decide_eq_false_2.
  - by intros ->.
  - by apply Z.eqb_neq.
  - unfold before. by rewrite Hsd, Hg.
Qed.

Lemma groups_ok (groups : list PrefixGroup) (nf : list bytes * list Element) :
  Forall (group_ok names) groups -> Forall (fun p => last p <> Some dot) names ->
  filled obj names fx nf.1 nf.2 ->
  let nf' := foldl (group_round obj) nf groups in filled obj names fx nf'.1 nf'.2.
Proof.
  intros Hg Hl. revert nf. induction Hg as [|grp groups [Hp Hfs] _ IH]; intros nf Hf; cbn; [done|].
  apply IH. unfold group_round. destruct (getField obj (prefix grp)) as [|a n v] eqn:Eg; [done|].
  destruct v; try done. cbn [embeddedObject default from_option]. unfold id.
  revert nf Hf. induction Hfs as [|fld flds Hi _ IHf]; intros nf Hf; cbn; [done|].
  apply IHf. eapply suffix_round_ok; try done. intros Hs. rewrite Hs in Hi.
  rewrite Forall_lookup in Hl. apply (Hl _ _ Hi). by rewrite last_snoc.
Qed.

End fast.

(** ** Properties *)

(** What the general code alone computes for a document. *)
Definition reference (lt : key -> key -> bool) (g : BtreeKeyGeneratorV1) (names : list bytes)
    (fx : list Element) (obj : BSONObj) (keys : list key) (paths : MultikeyPaths)
    : result (list key * MultikeyPaths) :=
  getKeysImplWithArray (path_fuel names) lt g names fx obj keys 0
    (replicate (length names) emptyPos) (option_map (resize (length names)) paths).

Lemma fast_reference (lt : key -> key -> bool) (g : BtreeKeyGeneratorV1) (names : list bytes)
    (fx : list Element) (sparse : bool) (col : Collator) (obj : BSONObj) (keys : list key)
    (paths : MultikeyPaths) (cache : FieldOffsetCache) :
  BtreeKeyGeneratorV1_new names fx sparse col = Ret g -> _isIdIndex (base g) = false ->
  length fx = length names -> NoDup (fields obj).*1 ->
  Forall (fun p => last p <> Some dot) names -> objsize obj < 2 ^ 32 ->
  paths = None \/ paths = Some [] -> cache_ok obj cache ->
  exists cache', cache_inv obj cache' /\
    getKeysImpl_V1 lt g names fx obj keys paths cache =
      (r ← reference lt g names fx obj keys paths; Ret (r, cache')).
Proof.
  intros Hg Hid Hlen Hnd Hdot Hsize Hpaths Hc.
  destruct (ctor_ok _ _ _ _ _ Hg) as (Hs & Hgr & _ & _). unfold getKeysImpl_V1. rewrite Hid.
  set (sz := wrapu 32 (objsize obj)). set (valid := isValidFor cache (objdata obj) sz) in *.
  set (c := if valid then cache else cache_init (objdata obj) sz).
  assert (cache_inv obj c) as Hci.
  { unfold c. unfold cache_ok in Hc. fold sz in Hc. fold valid in Hc.
    destruct valid eqn:Ev; [|split_and!; [done|done|apply offsets_ok_zero]].
    unfold valid, isValidFor in Ev. apply andb_true_iff in Ev as [E1%Z.eqb_eq E2%Z.eqb_eq].
    split_and!; [done|done|]. by apply Hc. }
  assert (exists f, (if valid then fold_result (cache_round obj c) (mkFill names fx 0) (_simpleFields g)
    else Ret (mkFill names fx 0)) = Ret f /\ fill_inv obj names fx f) as (f & -> & Hf).
  { destruct valid; [|eexists; split; [done|apply filled_refl]].
    apply (cache_fold_ok obj names fx Hnd Hlen c); [apply Hci|done|apply filled_refl]. }
  cbn [mbind outcome_bind].
  destruct (prefill_ok obj names fx Hnd Hlen Hsize g (elements obj) Hs ltac:(done) f c Hf Hci) as [Hf' Hc'].
  destruct (prefill g obj (elements obj) f c) as [f' c']. cbn [fst snd] in *.
  pose proof (groups_ok obj names fx Hlen (_prefixGroups g) (f_names f', f_fixed f') Hgr Hdot Hf') as Hg'.
  cbv zeta in Hg'. destruct (foldl (group_round obj) _ _) as [names' fx']. cbn [fst snd] in Hg'.
  exists c'. split; [done|].
  assert (verify (E := uassertion) (match paths with Some (_ :: _) => false | _ => true end) = Ret tt) as ->
    by (by destruct Hpaths as [-> | ->]).
  cbn [mbind outcome_bind]. unfold reference. pose proof Hg' as (Hn & _).
  destruct (getKeysImplWithArray_fuel lt g (path_fuel names') (S (S (total names') + total names)) names' fx'
    obj keys 0 (replicate (length names') emptyPos) (option_map (resize (length names')) paths)) as [-> _];
    [apply pos_ok_empty|unfold path_fuel; lia|lia|].
  destruct (getKeysImplWithArray_fuel lt g (path_fuel names) (S (S (total names') + total names)) names fx
    obj keys 0 (replicate (length names) emptyPos) (option_map (resize (length names)) paths)) as [-> _];
    [apply pos_ok_empty|unfold path_fuel; lia|lia|].
  cbn [getKeysImplWithArray]. rewrite (scan_fields_filled _ _ _ _ _ _ Hg'). by rewrite Hn.
Qed.

(** C20. The fast paths of the V1 generator do not change its result for a document
    without duplicate top-level field names, in an index other than the [_id] index, whose key
    paths do not end in a dot (with duplicate names the result can be another one): the
    generator with its offset cache, length bitmap and prefix groups returns the keys,
    multikey paths or error of the general code alone. *)
Theorem getKeysImpl_V1_equals_reference (lt : key -> key -> bool) (g : BtreeKeyGeneratorV1)
    (names : list bytes) (fx : list Element) (sparse : bool) (col : Collator) (obj : BSONObj)
    (keys : list key) (paths : MultikeyPaths) (cache : FieldOffsetCache) :
  BtreeKeyGeneratorV1_new names fx sparse col = Ret g -> _isIdIndex (base g) = false ->
  length fx = length names -> NoDup (fields obj).*1 ->
  Forall (fun p => last p <> Some dot) names -> objsize obj < 2 ^ 32 ->
  paths = None \/ paths = Some [] -> cache_ok obj cache ->
  exists cache', cache_ok obj cache' /\
    getKeysImpl_V1 lt g names fx obj keys paths cache =
      (r ← reference lt g names fx obj keys paths; Ret (r, cache')).
Proof.
  intros. edestruct fast_reference as (c' & Hc' & E); eauto.
  exists c'. split; [|done]. by intros _; apply Hc'.
Qed.

(** Keys ordered by their bytes. *)
Definition bytes_lt (a b : key) : bool :=
  SD.operator_lt (SD.mkStringData (Some (enc_obj a))) (SD.mkStringData (Some (enc_obj b))).

Definition sample_obj : BSONObj :=
  mkObj 100 [(lit "a", VArray [(lit "0", VObject [(lit "b", VInt 1)]); (lit "1", VObject [(lit "b", VInt 2)])]);
    (lit "c", VInt 9); (lit "n", VObject [(lit "x", VInt 5); (lit "y", VNull)])].
Definition sample_names : list bytes := [lit "a.b"; lit "c"; lit "n.x"; lit "n.y"].

Definition sample_gen : BtreeKeyGeneratorV1 :=
  match BtreeKeyGeneratorV1_new sample_names (replicate 4 Eoo) false None with
  | Ret g => g
  | _ => mkGenV1 (BtreeKeyGenerator_new [] [] false) [] None [] 0 []
  end.

Lemma getKeysImpl_V1_equals_reference_witness :
  exists cache', cache_ok sample_obj cache' /\
    getKeysImpl_V1 bytes_lt sample_gen sample_names (replicate 4 Eoo) sample_obj [] (Some [])
      FieldOffsetCache_new =
    (r ← reference bytes_lt sample_gen sample_names (replicate 4 Eoo) sample_obj [] (Some []);
     Ret (r, cache')).
Proof.
  apply (getKeysImpl_V1_equals_reference bytes_lt sample_gen sample_names (replicate 4 Eoo) false None);
    try reflexivity.
  - apply (bool_decide_unpack _). vm_compute. exact I.
  - repeat constructor; discriminate.
  - right. reflexivity.
  - intros _. apply offsets_ok_zero.
Defined.

(** The keys of a document for several indexes in turn, over one cache as in
    [MultiIndexBlock::insert], or each on its own. *)
Fixpoint keys_shared (lt : key -> key -> bool) (gens : list generator) (obj : BSONObj)
    (cache : FieldOffsetCache) : result (list (list key * MultikeyPaths)) :=
  match gens with
  | [] => Ret []
  | gen :: gens =>
      r ← getKeys lt gen obj [] (Some []) (Some cache);
      rs ← keys_shared lt gens obj (default cache r.2);
      Ret (r.1 :: rs)
  end.
Fixpoint keys_alone (lt : key -> key -> bool) (gens : list generator) (obj : BSONObj)
    : result (list (list key * MultikeyPaths)) :=
  match gens with
  | [] => Ret []
  | gen :: gens =>
      r ← getKeys lt gen obj [] (Some []) None;
      rs ← keys_alone lt gens obj;
      Ret (r.1 :: rs)
  end.

(** A generator of [make], one fixed element per path, and paths that do not end in a dot. *)
Definition made (gen : generator) : Prop :=
  exists ver names fx sparse col, make ver names fx sparse col = Ret gen /\
    length fx = length names /\ Forall (fun p => last p <> Some dot) names.

Lemma getKeys_cache (lt : key -> key -> bool) (gen : generator) (obj : BSONObj) (c : FieldOffsetCache) :
  made gen -> NoDup (fields obj).*1 -> objsize obj < 2 ^ 32 -> cache_ok obj c ->
  exists c', cache_ok obj c' /\
    getKeys lt gen obj [] (Some []) (Some c) =
      (r ← getKeys lt gen obj [] (Some []) None; Ret (r.1, Some c')).
Proof.
  intros (ver & names & fx & sparse & col & Hmake & Hlen & Hdot) Hnd Hsize Hc.
  assert (forall g, ver <> kV0 -> gen = GenV1 g -> BtreeKeyGeneratorV1_new names fx sparse col = Ret g) as HV1.
  { intros g Hv ->. destruct ver; [done| |]; cbn in Hmake;
      destruct (BtreeKeyGeneratorV1_new _ _ _ _); cbn in Hmake; congruence. }
  destruct gen as [g|g]; unfold getKeys.
  { exists c. split; [done|]. destruct (getKeysImpl_V0 _ _ _ _ _ _ _); done. }
  assert (BtreeKeyGeneratorV1_new names fx sparse col = Ret g) as Hg.
  { apply HV1; [|done]. by intros ->. }
  destruct (ctor_ok _ _ _ _ _ Hg) as (_ & _ & Hb & _). rewrite Hb. cbn [_fieldNames _fixed].
  destruct (_isIdIndex (base g)) eqn:Hid.
  { exists c. split; [done|]. unfold getKeysImpl_V1. rewrite Hid. by destruct (id_key _ _ _ _ _). }
  destruct (fast_reference lt g names fx sparse col obj [] (Some []) c) as (c1 & H1 & E1); try done.
  { by right. }
  destruct (fast_reference lt g names fx sparse col obj [] (Some []) FieldOffsetCache_new) as (c2 & _ & E2);
    try done. { by right. } { intros _. apply offsets_ok_zero. }
  exists c1. split; [by intros _; apply H1|]. cbn [default from_option]. unfold id.
  unfold BtreeKeyGenerator_new in *. cbn [_fieldNames _fixed]. rewrite E1, E2.
  destruct (reference _ _ _ _ _ _ _) as [[ks ps]| | |]; done.
Qed.

(** Sharing one offset cache between the indexes of a document is transparent: the
    keys and multikey paths of every index are those it gets with a cache of its own. *)
Theorem shared_cache_transparent (lt : key -> key -> bool) (gens : list generator) (obj : BSONObj)
    (c : FieldOffsetCache) :
  Forall made gens -> NoDup (fields obj).*1 -> objsize obj < 2 ^ 32 -> cache_ok obj c ->
  keys_shared lt gens obj c = keys_alone lt gens obj.
Proof.
  intros Hgens Hnd Hsize. revert c. induction Hgens as [|gen gens Hg _ IH]; intros c Hc; [done|].
  cbn [keys_shared keys_alone].
  destruct (getKeys_cache lt gen obj c Hg Hnd Hsize Hc) as (c' & Hc' & ->).
  destruct (getKeys lt gen obj [] (Some []) None) as [r| | |]; cbn [mbind outcome_bind]; try done.
  cbn [fst snd default from_option]. unfold id. by rewrite IH.
Qed.

Lemma shared_cache_transparent_witness :
  keys_shared bytes_lt
    [GenV1 sample_gen; GenV0 (BtreeKeyGenerator_new sample_names (replicate 4 Eoo) true); GenV1 sample_gen]
    sample_obj FieldOffsetCache_new =
  keys_alone bytes_lt
    [GenV1 sample_gen; GenV0 (BtreeKeyGenerator_new sample_names (replicate 4 Eoo) true); GenV1 sample_gen]
    sample_obj.
Proof.
  apply shared_cache_transparent.
  - repeat constructor;
      [exists kV1, sample_names, (replicate 4 Eoo), false, None
      |exists kV0, sample_names, (replicate 4 Eoo), true, None
      |exists kV2, sample_names, (replicate 4 Eoo), false, None];
      (split; [reflexivity|split; [reflexivity|repeat constructor; discriminate]]).
  - apply (bool_decide_unpack _). vm_compute. exact I.
  - reflexivity.
  - intros _. apply offsets_ok_zero.
Defined.

(** The recursive expansion of arrays terminates: whatever the document, the
    comparator and the positional information of its callers, the length of the paths is
    fuel enough, and more fuel changes nothing. *)
Lemma getKeysImplWithArray_total (lt : key -> key -> bool) (g : BtreeKeyGeneratorV1)
    (names : list bytes) (fx : list Element) (obj : BSONObj) (keys : list key) (nf : nat)
    (ps : list PositionalPathInfo) (paths : MultikeyPaths) (k : nat) :
  pos_ok names ps -> (total names < k)%nat ->
  getKeysImplWithArray (path_fuel names) lt g names fx obj keys nf ps paths <> NoFuel /\
  getKeysImplWithArray k lt g names fx obj keys nf ps paths =
    getKeysImplWithArray (path_fuel names) lt g names fx obj keys nf ps paths.
Proof.
  intros Hp Hk.
  destruct (getKeysImplWithArray_fuel lt g (path_fuel names) k names fx obj keys nf ps paths) as [E H];
    [done|unfold path_fuel; lia|done|].
  split; [done|]. by rewrite E.
Qed.

Lemma getKeysImplWithArray_total_witness :
  getKeysImplWithArray (path_fuel sample_names) bytes_lt sample_gen sample_names (replicate 4 Eoo)
    sample_obj [] 0 [] None <> NoFuel /\
  getKeysImplWithArray 100 bytes_lt sample_gen sample_names (replicate 4 Eoo) sample_obj [] 0 [] None =
  getKeysImplWithArray (path_fuel sample_names) bytes_lt sample_gen sample_names (replicate 4 Eoo)
    sample_obj [] 0 [] None.
Proof.
  apply getKeysImplWithArray_total; [exact (pos_ok_empty sample_names 0)|vm_compute; lia].
Defined.

(** ** Documents without arrays on the paths *)

Definition path_elem (obj : BSONObj) (p : bytes) : Element :=
  (extractElementAtPathOrArrayAlongPath obj p).1.
Definition or_null (e : Element) : Element := if eoo e then nullElt else e.
Definition missing (es : list Element) : nat := length (List.filter eoo es).

Lemma extractNext_plain (obj : BSONObj) (p : bytes) :
  p <> [] -> type (path_elem obj p) <> T.Array ->
  exists rest, extractNextElement obj emptyPos p = Ret (path_elem obj p, rest, false) /\
    (path_elem obj p <> Eoo -> rest = []).
Proof.
  intros Hp Ht. unfold extractNextElement, path_elem in *.
  change (hasPositionallyIndexedElt emptyPos) with false. cbn [negb]. rewrite orb_true_r.
  cbn [require mbind outcome_bind].
  destruct (eoo (getField obj (before p))) eqn:Eg; cbn [negb].
  - assert ((extractElementAtPathOrArrayAlongPath obj p).1 = Eoo) as ->.
    { rewrite extractOrArray_eq. unfold first_step, before in *.
      by destruct (split_dot p) as [[l r]|]; rewrite Eg. }
    by eexists.
  - destruct (extractElementAtPathOrArrayAlongPath obj p) as [e r] eqn:Ex. exists r. split; [done|].
    intros He. by apply (extractOrArray_rest p obj e r Ex).
Qed.

Lemma path_at_middle (l : list bytes) (k : nat) (p : bytes) (t : list bytes) :
  length l = k -> path_at (l ++ p :: t) k = p.
Proof. intros <-. unfold path_at. by rewrite lookup_app_r, Nat.sub_diag by lia. Qed.

Lemma insert_middle {A : Type} (l : list A) (k : nat) (x y : A) (t : list A) :
  length l = k -> <[k := y]> (l ++ x :: t) = (l ++ [y]) ++ t.
Proof. intros <-. rewrite insert_app_r_alt, Nat.sub_diag by lia. by rewrite <- app_assoc. Qed.

Lemma scan_round_plain (obj : BSONObj) (n : nat) (p : bytes) (ends rest : list bytes)
    (x : Element) (es xs : list Element) (nf : nat) :
  p <> [] -> type (path_elem obj p) <> T.Array -> length es = length ends ->
  scan_round obj (replicate n emptyPos) (mkScan (ends ++ p :: rest) (es ++ x :: xs) nf Eoo [] true)
    (length ends) =
  Ret (mkScan ((ends ++ [[]]) ++ rest) ((es ++ [or_null (path_elem obj p)]) ++ xs)
    (nf + missing [path_elem obj p]) Eoo [] true).
Proof.
  intros Hp Ht Hes. unfold scan_round. cbn [fieldNames fixed].
  rewrite path_at_middle by done. destruct (is_end p) eqn:Ee; [by apply is_end_spec in Ee|].
  assert (pos_at (replicate n emptyPos) (length ends) = emptyPos) as ->.
  { unfold pos_at. destruct (replicate n emptyPos !! length ends) eqn:E; [|done].
    by apply lookup_replicate in E as [-> _]. }
  destruct (extractNext_plain obj p Hp Ht) as (r & -> & Hr). cbn [mbind outcome_bind].
  unfold missing, or_null. cbn [List.filter].
  destruct (path_elem obj p) as [|a nm v] eqn:Epe; cbn [eoo length].
  - rewrite list_insert_insert_eq, !insert_middle by done. by rewrite Nat.add_1_r.
  - destruct (Z.eqb_spec (type (Elem a nm v)) T.Array); [done|].
    rewrite Hr, !insert_middle by done. by rewrite Nat.add_0_r.
Qed.

Lemma scan_plain (obj : BSONObj) (n : nat) (rest : list bytes) :
  forall (ends : list bytes) (es xs : list Element) (nf : nat),
  Forall (fun p => p <> [] /\ type (path_elem obj p) <> T.Array) rest ->
  length es = length ends -> length xs = length rest ->
  fold_result (scan_round obj (replicate n emptyPos))
    (mkScan (ends ++ rest) (es ++ xs) nf Eoo [] true) (seq (length ends) (length rest)) =
  Ret (mkScan (ends ++ replicate (length rest) []) (es ++ List.map (fun p => or_null (path_elem obj p)) rest)
    (nf + missing (List.map (path_elem obj) rest)) Eoo [] true).
Proof.
  induction rest as [|p rest IH]; intros ends es xs nf Hpl Hes Hxs.
  { destruct xs; [|done]. cbn. by rewrite Nat.add_0_r. }
  destruct xs as [|x xs]; [done|]. rewrite Forall_cons in Hpl. destruct Hpl as [[Hp Ht] Hpl].
  cbn [length] in *. cbn [seq fold_result]. rewrite scan_round_plain by done. cbn [mbind outcome_bind].
  pose proof (IH (ends ++ [[]]) (es ++ [or_null (path_elem obj p)]) xs
    (nf + missing [path_elem obj p])%nat Hpl) as H.
  rewrite !length_app in H. cbn [length] in H. rewrite !Nat.add_1_r in H.
  rewrite H by lia. rewrite <- !app_assoc. cbn [app List.map replicate length]. f_equal. f_equal.
  unfold missing. cbn [List.filter]. destruct (eoo (path_elem obj p)); cbn [length]; lia.
Qed.

(** A document without arrays on the key's paths gets exactly one key: the element
    at each path, null where there is none, in the order of the key pattern; a sparse
    index that finds none of its fields gets no key. *)
Lemma plain_document_key (lt : key -> key -> bool) (g : BtreeKeyGeneratorV1) (names : list bytes)
    (fx : list Element) (obj : BSONObj) (keys : list key) (paths : MultikeyPaths) :
  Forall (fun p => p <> [] /\ type (path_elem obj p) <> T.Array) names -> length fx = length names ->
  reference lt g names fx obj keys paths =
    let es := List.map (path_elem obj) names in
    let paths := option_map (resize (length names)) paths in
    if _isSparse (base g) && forallb eoo es then Ret (keys, paths)
    else k ← build_key (_collator g) (List.map or_null es); Ret (set_insert lt k keys, paths).
Proof.
  intros Hpl Hlen. unfold reference, path_fuel. cbn [getKeysImplWithArray]. unfold scan_fields.
  cbn [fieldNames]. pose proof (scan_plain obj (length names) names [] [] fx 0 Hpl eq_refl Hlen) as Hs.
  cbn [app length] in Hs. rewrite Hs. cbn [mbind outcome_bind]. unfold expand. cbn [arrElt embeddedObject numNotFound fieldNames fixed].
  rewrite length_replicate, Nat.add_0_l, List.map_map.
  assert (forall es, forallb eoo es = bool_decide (missing es = length es)) as Hm.
  { clear. induction es as [|e es IH]; [done|]. cbn [forallb]. rewrite IH.
    unfold missing. cbn [List.filter length]. pose proof (List.filter_length_le eoo es) as Hle.
    destruct (eoo e); cbn [andb length]; [apply bool_decide_ext; lia|].
    symmetry. apply bool_decide_eq_false. lia. }
  by rewrite Hm, List.length_map.
Qed.

Lemma plain_document_key_witness :
  reference bytes_lt sample_gen [lit "c"; lit "n.y"; lit "n.z"] (replicate 3 Eoo) sample_obj [] None =
  Ret ([[([], VInt 9); ([], VNull); ([], VNull)]], None).
Proof.
  rewrite (plain_document_key bytes_lt sample_gen [lit "c"; lit "n.y"; lit "n.z"] (replicate 3 Eoo)
    sample_obj [] None); [reflexivity| |reflexivity].
  repeat constructor; vm_compute; discriminate.
Defined.

Definition dup_obj : BSONObj :=
  mkObj 100 [(lit "a", VArray [(lit "0", VInt 1)]); (lit "a", VInt 3)].
Definition dup_gen : BtreeKeyGeneratorV1 :=
  match BtreeKeyGeneratorV1_new [lit "a"] [Eoo] false None with Ret g => g | _ => sample_gen end.

(** Without the hypothesis on the field names the fast paths do change the result:
    for the index on [a], the document [{a: [1], a: 3}] gets the key 1 from the general
    code, which looks up the first field of the name, and the key 3 from the generator,
    whose scan skips an array and takes a later field of the same name. *)
Theorem duplicate_names_diverge :
  BtreeKeyGeneratorV1_new [lit "a"] [Eoo] false None = Ret dup_gen /\
  reference bytes_lt dup_gen [lit "a"] [Eoo] dup_obj [] None = Ret ([[([], VInt 1)]], None) /\
  (r ← getKeysImpl_V1 bytes_lt dup_gen [lit "a"] [Eoo] dup_obj [] None FieldOffsetCache_new; Ret r.1) =
    Ret ([[([], VInt 3)]], None).
Proof. split_and!; vm_compute; reflexivity. Qed.

End Btree.
