(* ===== verification/IndexBounds.v ===== *)
(** * Index bounds

    The bounds of an index scan: [db/query/interval.h] and [.cpp], [OrderedIntervalList] and
    [IndexBounds] of [db/query/index_bounds.h] and [.cpp], and the operations of
    [db/query/index_bounds_builder.cpp] on lists of intervals. The theorems give the values
    that the result of each operation contains. Comparisons are those of [BsonCompare]; the
    proofs replace the values of a theorem by integers in the same order ([Rank]). *)
From Stdlib Require Import ZArith Lia Bool ZifyBool.
From stdpp Require Import base list option sorting.
From S2P Require Import Prelude StringData Bson BsonCompare KeyString KeyStringOrder KeyStringRefine.
Open Scope Z_scope.

Module IB.

(** An element: a name and a value, or the end of an object. *)
Abbreviation elt := (option field).

(** ** Intervals *)

Record Interval := mkInterval {
  _intervalData : list field;
  start : elt;
  startInclusive : bool;
  end_ : elt;
  endInclusive : bool
}.

(** [Interval::Interval()]. *)
Definition Interval_empty : Interval := mkInterval [] None false None false.

(** [Interval::init]; [None] is a failed [verify]. *)
Definition init (base : list field) (si ei : bool) : option Interval :=
  match base with
  | s :: e :: _ => Some (mkInterval base (Some s) si (Some e) ei)
  | _ => None
  end.
(** Two elements appended to a builder, and [init]. *)
Definition init_from (s e : elt) (si ei : bool) : option Interval :=
  s ← s; e ← e; init [s; e] si ei.

Definition isEmpty (i : Interval) : bool := (length (_intervalData i) =? 0)%nat.

Inductive IntervalComparison :=
  | INTERVAL_EQUALS | INTERVAL_CONTAINS | INTERVAL_WITHIN | INTERVAL_OVERLAPS_BEFORE
  | INTERVAL_OVERLAPS_AFTER | INTERVAL_PRECEDES | INTERVAL_PRECEDES_COULD_UNION
  | INTERVAL_SUCCEEDS | INTERVAL_UNKNOWN.
#[export] Instance IntervalComparison_eq_dec : EqDecision IntervalComparison.
Proof. solve_decision. Defined.

Inductive BoundInclusion :=
  | kExcludeBothStartAndEndKeys | kIncludeStartKeyOnly | kIncludeEndKeyOnly | kIncludeBothStartAndEndKeys.
#[export] Instance BoundInclusion_eq_dec : EqDecision BoundInclusion.
Proof. solve_decision. Defined.

Record OrderedIntervalList := mkOIL { intervals : list Interval; name : bytes }.
Record IndexBounds := mkBounds {
  fields : list OrderedIntervalList;
  isSimpleRange : bool;
  startKey : list field;
  endKey : list field;
  boundInclusion : BoundInclusion
}.

Section compare.
Variable D : Cmp.Decimal128.

(** [BSONElement::woCompare]. The end of an object has the canonical type of [Undefined]
    and an empty name. A failed [invariant], which only decimals can cause, is not told
    apart from equality. *)
Definition canonicalType (e : elt) : Z :=
  match e with Some f => Cmp.canonicalType f.2 | None => 0 end.
Definition woCompare (considerFieldName : bool) (l r : elt) : Z :=
  match l, r with
  | Some l, Some r =>
      default 0 (Cmp.elem_woCompare (Cmp.compareElementValues D None) considerFieldName l r)
  | _, _ =>
      let x := canonicalType l - canonicalType r in
      if negb (x =? 0) then x
      else if considerFieldName then
        Cmp.strcmp (match l with Some f => f.1 | None => [] end) (match r with Some f => f.1 | None => [] end)
      else 0
  end.

Definition isPoint (i : Interval) : bool :=
  startInclusive i && endInclusive i && (0 =? woCompare false (start i) (end_ i)).
Definition isNull (i : Interval) : bool :=
  (negb (startInclusive i) || negb (endInclusive i)) && (0 =? woCompare false (start i) (end_ i)).

Definition equals (this other : Interval) : bool :=
  if negb (Bool.eqb (startInclusive this) (startInclusive other)) then false
  else if negb (Bool.eqb (endInclusive this) (endInclusive other)) then false
  else if negb (woCompare false (start this) (start other) =? 0) then false
  else if negb (woCompare false (end_ this) (end_ other) =? 0) then false
  else true.

Definition intersects (this other : Interval) : bool :=
  let res := woCompare false (start this) (end_ other) in
  if 0 <? res then false
  else if (res =? 0) && (negb (startInclusive this) || negb (endInclusive other)) then false
  else
    let res := woCompare false (start other) (end_ this) in
    if 0 <? res then false
    else if (res =? 0) && (negb (startInclusive other) || negb (endInclusive this)) then false
    else true.

Definition within (this other : Interval) : bool :=
  let res := woCompare false (start this) (start other) in
  if res <? 0 then false
  else if (res =? 0) && startInclusive this && negb (startInclusive other) then false
  else
    let res := woCompare false (end_ this) (end_ other) in
    if 0 <? res then false
    else if (res =? 0) && endInclusive this && negb (endInclusive other) then false
    else true.

Definition precedes (this other : Interval) : bool :=
  let res := woCompare false (start this) (start other) in
  if res <? 0 then true
  else if (res =? 0) && startInclusive this && negb (startInclusive other) then true
  else false.

Definition compare (this other : Interval) : IntervalComparison :=
  if intersects this other then
    if equals this other then INTERVAL_EQUALS
    else if within this other then INTERVAL_WITHIN
    else if within other this then INTERVAL_CONTAINS
    else if precedes this other then INTERVAL_OVERLAPS_BEFORE
    else INTERVAL_OVERLAPS_AFTER
  else if precedes this other then
    if (endInclusive this || startInclusive other) && (0 =? woCompare false (end_ this) (start other))
    then INTERVAL_PRECEDES_COULD_UNION
    else INTERVAL_PRECEDES
  else INTERVAL_SUCCEEDS.

(** [Interval::intersect] and [combine]; [None] is a failed [verify]. *)
Definition intersect (this other : Interval) (cmp : IntervalComparison) : option Interval :=
  let cmp := if decide (cmp = INTERVAL_UNKNOWN) then compare this other else cmp in
  match cmp with
  | INTERVAL_EQUALS | INTERVAL_WITHIN => Some this
  | INTERVAL_CONTAINS => init_from (start other) (end_ other) (startInclusive other) (endInclusive other)
  | INTERVAL_OVERLAPS_AFTER => init_from (start this) (end_ other) (startInclusive this) (endInclusive other)
  | INTERVAL_OVERLAPS_BEFORE => init_from (start other) (end_ this) (startInclusive other) (endInclusive this)
  | INTERVAL_PRECEDES | INTERVAL_SUCCEEDS => Some Interval_empty
  | _ => None
  end.
Definition combine (this other : Interval) (cmp : IntervalComparison) : option Interval :=
  let cmp := if decide (cmp = INTERVAL_UNKNOWN) then compare this other else cmp in
  match cmp with
  | INTERVAL_EQUALS | INTERVAL_CONTAINS => Some this
  | INTERVAL_WITHIN => init_from (start other) (end_ other) (startInclusive other) (endInclusive other)
  | INTERVAL_OVERLAPS_AFTER | INTERVAL_SUCCEEDS =>
      init_from (start other) (end_ this) (startInclusive other) (endInclusive this)
  | INTERVAL_OVERLAPS_BEFORE | INTERVAL_PRECEDES =>
      init_from (start this) (end_ other) (startInclusive this) (endInclusive other)
  | _ => None
  end.
Definition reverse_interval (i : Interval) : Interval :=
  mkInterval (_intervalData i) (end_ i) (endInclusive i) (start i) (startInclusive i).

(** ** Lists of intervals *)

Definition isStartIncludedInBound (b : BoundInclusion) : bool :=
  bool_decide (b = kIncludeBothStartAndEndKeys) || bool_decide (b = kIncludeStartKeyOnly).
Definition isEndIncludedInBound (b : BoundInclusion) : bool :=
  bool_decide (b = kIncludeBothStartAndEndKeys) || bool_decide (b = kIncludeEndKeyOnly).
Definition makeBoundInclusionFromBoundBools (startKeyInclusive endKeyInclusive : bool) : BoundInclusion :=
  if startKeyInclusive then
    if endKeyInclusive then kIncludeBothStartAndEndKeys else kIncludeStartKeyOnly
  else
    if endKeyInclusive then kIncludeEndKeyOnly else kExcludeBothStartAndEndKeys.

Definition makeRangeInterval (obj : list field) (b : BoundInclusion) : option Interval :=
  match obj with
  | s :: e :: _ => Some (mkInterval obj (Some s) (isStartIncludedInBound b) (Some e) (isEndIncludedInBound b))
  | _ => None
  end.
Definition makePointInterval (obj : list field) : Interval :=
  let e := head obj in mkInterval obj e true e true.
(** The object of [MinKey] and [MaxKey]. *)
Definition minMaxKey : list field := [([], VMinKey); ([], VMaxKey)].
Definition allValues : option Interval := makeRangeInterval minMaxKey kIncludeBothStartAndEndKeys.
Definition allValuesForField (elt : field) (out : OrderedIntervalList) : option OrderedIntervalList :=
  i ← makeRangeInterval minMaxKey kIncludeBothStartAndEndKeys;
  Some (mkOIL (intervals out ++ [i]) elt.1).

(** The strict order that [std::sort] is called with. *)
Definition IntervalComparison_lt (lhs rhs : Interval) : bool :=
  let wo := woCompare false (start lhs) (start rhs) in
  if negb (0 =? wo) then wo <? 0
  else if Bool.eqb (startInclusive lhs) (startInclusive rhs) then false
  else startInclusive lhs.

(** The loop of [IndexBoundsBuilder::unionize]; [None] is a failed [verify]. *)
Fixpoint unionize_loop (fuel : nat) (i : nat) (iv : list Interval) : option (list Interval) :=
  match fuel with
  | O => None
  | S fuel' =>
      if (i <? length iv - 1)%nat then
        a ← iv !! i; b ← iv !! (i + 1)%nat;
        match compare a b with
        | INTERVAL_SUCCEEDS => None
        | INTERVAL_PRECEDES => unionize_loop fuel' (i + 1) iv
        | INTERVAL_EQUALS | INTERVAL_WITHIN => unionize_loop fuel' i (delete i iv)
        | INTERVAL_CONTAINS => unionize_loop fuel' i (delete (i + 1)%nat iv)
        | INTERVAL_OVERLAPS_BEFORE | INTERVAL_PRECEDES_COULD_UNION =>
            s ← start a; e ← end_ b;
            n ← makeRangeInterval [([], s.2); ([], e.2)]
                  (makeBoundInclusionFromBoundBools (startInclusive a) (endInclusive b));
            unionize_loop fuel' i (<[i := n]> (delete i iv))
        | _ => unionize_loop fuel' i iv
        end
      else Some iv
  end.
(** [sort] is [std::sort] with [IntervalComparison_lt]. *)
Definition unionize (sort : list Interval -> list Interval) (oil : OrderedIntervalList) : option OrderedIntervalList :=
  match intervals oil with
  | [] => Some oil
  | iv =>
      let iv := sort iv in
      iv ← unionize_loop (2 * length iv) 0 iv;
      Some (mkOIL iv (name oil))
  end.

(** The loop of [intersectize] over what is left of the two lists. *)
Fixpoint intersectize_loop (fuel : nat) (argiv iv : list Interval) (result : list Interval) : option (list Interval) :=
  match fuel with
  | O => None
  | S fuel' =>
      match argiv, iv with
      | a :: argiv', b :: iv' =>
          let cmp := compare a b in
          match cmp with
          | INTERVAL_UNKNOWN => None
          | INTERVAL_PRECEDES | INTERVAL_PRECEDES_COULD_UNION => intersectize_loop fuel' argiv' iv result
          | INTERVAL_SUCCEEDS => intersectize_loop fuel' argiv iv' result
          | _ =>
              newInt ← intersect a b cmp;
              let result := result ++ [newInt] in
              match cmp with
              | INTERVAL_EQUALS => intersectize_loop fuel' argiv' iv' result
              | INTERVAL_WITHIN | INTERVAL_OVERLAPS_BEFORE => intersectize_loop fuel' argiv' iv result
              | INTERVAL_CONTAINS | INTERVAL_OVERLAPS_AFTER => intersectize_loop fuel' argiv iv' result
              | _ => None
              end
          end
      | _, _ => Some result
      end
  end.
Definition intersectize (arg oil : OrderedIntervalList) : option OrderedIntervalList :=
  if decide (name arg = name oil) then
    iv ← intersectize_loop (S (length (intervals arg) + length (intervals oil))) (intervals arg) (intervals oil) [];
    Some (mkOIL iv (name oil))
  else None.

(** [OrderedIntervalList::complement]: the loop with [curBoundary] and [curInclusive]. *)
Fixpoint complement_loop (ivs : list Interval) (curBoundary : elt) (curInclusive : bool)
    (newIntervals : list Interval) : option (elt * bool * list Interval) :=
  match ivs with
  | [] => Some (curBoundary, curInclusive, newIntervals)
  | curInt :: ivs' =>
      newIntervals ←
        (if negb (0 =? woCompare true (start curInt) curBoundary) || (negb curInclusive && negb (startInclusive curInt))
         then newInt ← init_from curBoundary (start curInt) (negb curInclusive) (negb (startInclusive curInt));
              Some (newIntervals ++ [newInt])
         else Some newIntervals);
      complement_loop ivs' (end_ curInt) (endInclusive curInt) newIntervals
  end.
(** The final interval, which ends in [MaxKey]. *)
Definition complement_end (st : elt * bool * list Interval) : option (list Interval) :=
  let '(curBoundary, curInclusive, newIntervals) := st in
  let maxKey := Some ([], VMaxKey) in
  if negb (0 =? woCompare true maxKey curBoundary) || negb curInclusive
  then newInt ← init_from curBoundary maxKey (negb curInclusive) true; Some (newIntervals ++ [newInt])
  else Some newIntervals.
Definition complement (oil : OrderedIntervalList) : option OrderedIntervalList :=
  st ← complement_loop (intervals oil) (Some ([], VMinKey)) false [];
  newIntervals ← complement_end st;
  Some (mkOIL newIntervals (name oil)).

(** ** Validity *)

(** Each interval, then each pair of neighbours. *)
Definition interval_oriented (expectedOrientation : Z) (i : Interval) : bool :=
  let cmp := Z.sgn (woCompare false (end_ i) (start i)) in
  ((cmp =? 0) && startInclusive i && endInclusive i) || (cmp =? expectedOrientation).
Fixpoint neighbours_oriented (expectedOrientation : Z) (ivs : list Interval) : bool :=
  match ivs with
  | a :: (b :: _) as ivs' =>
      let cmp := Z.sgn (woCompare false (start b) (end_ a)) in
      ((0 =? cmp) || (cmp =? expectedOrientation)) && neighbours_oriented expectedOrientation ivs'
  | _ => true
  end.
Definition oil_isValidFor (expectedOrientation : Z) (oil : OrderedIntervalList) : bool :=
  forallb (interval_oriented expectedOrientation) (intervals oil) &&
  neighbours_oriented expectedOrientation (intervals oil).

(** The direction of an element of a key pattern. *)
Definition direction_of (elt : field) : Z := if Dbl.le 0 (Cmp.numberDouble D elt.2) then 1 else -1.
Fixpoint fields_valid (direction : Z) (keyPattern : list field) (oils : list OrderedIntervalList) : bool :=
  match oils with
  | [] => match keyPattern with [] => true | _ => false end
  | oil :: oils' =>
      match keyPattern with
      | [] => false
      | e :: keyPattern' =>
          if decide (name oil <> e.1) then false
          else if negb (oil_isValidFor (direction * direction_of e) oil) then false
          else fields_valid direction keyPattern' oils'
      end
  end.
Definition isValidFor (keyPattern : list field) (direction : Z) (b : IndexBounds) : option bool :=
  if isSimpleRange b then
    z ← Cmp.woCompare D (startKey b) keyPattern false None (endKey b);
    Some (direction =? Z.sgn z)
  else Some (fields_valid direction keyPattern (fields b)).

(** [alignBounds]; [None] is the failed [invariant], or a pattern longer than the bounds. *)
Definition align_oil (oil : OrderedIntervalList) : OrderedIntervalList :=
  mkOIL (reverse_interval <$> reverse (intervals oil)) (name oil).
Fixpoint align_loop (scanDir : Z) (kp : list field) (oils : list OrderedIntervalList) : option (list OrderedIntervalList) :=
  match kp with
  | [] => Some oils
  | e :: kp' =>
      match oils with
      | [] => None
      | oil :: oils' =>
          let direction := direction_of e * scanDir in
          oils' ← align_loop scanDir kp' oils';
          Some ((if -1 =? direction then align_oil oil else oil) :: oils')
      end
  end.
Definition alignBounds (kp : list field) (scanDir : Z) (b : IndexBounds) : option IndexBounds :=
  fs ← align_loop scanDir kp (fields b);
  let b := mkBounds fs (isSimpleRange b) (startKey b) (endKey b) (boundInclusion b) in
  v ← isValidFor kp scanDir b;
  if (v : bool) then Some b else None.

End compare.

End IB.

(** ** Values as integers *)
Module Rank.
Import IB Lex Enc.

(** The bytes that a value is ordered by. *)
Definition vkey (v : value) : bytes := kbytes V1 v ++ [kEnd].

Lemma lexcmp_range (a b : bytes) : -1 <= SD.lexcmp a b <= 1.
Proof. revert b. induction a as [|x a IH]; intros [|y b]; cbn; try lia. destruct (x <? y), (y <? x); lia || apply IH. Qed.

Section rank.
Variable D : Cmp.Decimal128.

(** The comparison of two values returns, and is the one of their bytes. *)
Lemma woCompare_values (l r : field) : key_ok l.2 -> key_ok r.2 ->
  Cmp.elem_woCompare (Cmp.compareElementValues D None) false l r = Some (woCompare D false (Some l) (Some r)) /\
  Z.sgn (woCompare D false (Some l) (Some r)) = SD.lexcmp (vkey l.2) (vkey r.2).
Proof.
  intros Hl Hr. destruct (Order.ordered_elem D V1 false [] [] l.2 r.2) as (z & Hz & Ha); [|done|done|done|].
  { apply Order.values_ordered. }
  assert (E : Cmp.elem_woCompare (Cmp.compareElementValues D None) false l r = Some z).
  { rewrite <- Hz. by destruct l, r. }
  unfold woCompare. rewrite E. cbn [default from_option id]. split; [done|].
  assert (follows [kEnd]) by (by apply follows_cons). destruct Ha as (H1 & H2 & H3). unfold vkey.
  symmetry. apply Keys.lexcmp_decides; [intros; by apply H1|intros ->%H2; done|intros; by apply H3].
Qed.

(** The number of values of a list that are smaller. *)
Definition rank_in (L : list value) (v : value) : Z :=
  Z.of_nat (length (List.filter (fun w => SD.lexcmp (vkey w) (vkey v) <? 0) L)).

Lemma filter_length_mono {A} (p q : A -> bool) (L : list A) : (forall x, p x = true -> q x = true) ->
  (length (List.filter p L) <= length (List.filter q L))%nat /\
  forall a, a ∈ L -> p a = false -> q a = true -> (length (List.filter p L) < length (List.filter q L))%nat.
Proof.
  intros Hpq. induction L as [|x L [IH1 IH2]]; [split; [done|set_solver]|]. cbn [List.filter].
  specialize (Hpq x). destruct (p x) eqn:Px, (q x) eqn:Qx; cbn [length]; try (by discriminate Hpq);
    (split; [lia|]; intros a [->|Ha]%elem_of_cons Pa Qa; [congruence || lia|]; specialize (IH2 a Ha Pa Qa); lia).
Qed.

(** [rk] orders the values of [L] as the comparison does. *)
Definition ranks (L : list value) (rk : value -> Z) : Prop :=
  forall a b : field, a.2 ∈ L -> b.2 ∈ L ->
    Z.sgn (woCompare D false (Some a) (Some b)) = Z.sgn (rk a.2 - rk b.2).

Lemma ranks_exist (L : list value) : Forall key_ok L -> exists rk, ranks L rk.
Proof.
  intros HL. exists (rank_in L). intros a b Ha Hb. rewrite Forall_forall in HL.
  destruct (woCompare_values a b) as [_ ->]; [auto..|].
  assert (Hmono : forall v w, v ∈ L -> SD.lexcmp (vkey v) (vkey w) < 0 -> rank_in L v < rank_in L w).
  { intros v w Hv Hlt. unfold rank_in. apply Nat2Z.inj_lt.
    eapply (filter_length_mono _ _ L); [|exact Hv| |by apply Z.ltb_lt].
    - intros x Hx%Z.ltb_lt. apply Z.ltb_lt. apply (SD.lexcmp_trans _ (vkey v)); lia.
    - apply Z.ltb_ge. rewrite (proj2 (SD.lexcmp_eq _ _)); done. }
  destruct (Z.lt_trichotomy (SD.lexcmp (vkey a.2) (vkey b.2)) 0) as [H|[H|H]].
  - pose proof (Hmono a.2 b.2 Ha H). pose proof (SD.lexcmp_antisym (vkey a.2) (vkey b.2)).
    assert (-1 <= SD.lexcmp (vkey a.2) (vkey b.2) <= 1) by apply lexcmp_range. lia.
  - rewrite H. apply SD.lexcmp_eq in H. unfold rank_in. rewrite H. lia.
  - rewrite SD.lexcmp_antisym in H |- *. pose proof (Hmono b.2 a.2 Hb ltac:(lia)).
    assert (-1 <= SD.lexcmp (vkey b.2) (vkey a.2) <= 1) by apply lexcmp_range. lia.
Qed.
End rank.
End Rank.

(** ** The values that intervals contain *)
Module Sets.
Import IB Enc Rank.

(** [x] is in the interval [i] of an index that is scanned in direction [d]. *)
Definition contains (D : Cmp.Decimal128) (d : Z) (i : Interval) (x : field) : bool :=
  let s := woCompare D false (start i) (Some x) in
  let e := woCompare D false (Some x) (end_ i) in
  ((d * s <? 0) || (s =? 0) && startInclusive i) && ((d * e <? 0) || (e =? 0) && endInclusive i).
Definition in_intervals (D : Cmp.Decimal128) (d : Z) (ivs : list Interval) (x : field) : bool :=
  existsb (fun i => contains D d i x) ivs.

(** Each field of a key is in the intervals for it. *)
Fixpoint key_in (D : Cmp.Decimal128) (dirs : list Z) (oils : list OrderedIntervalList) (key : list field) : bool :=
  match oils, dirs, key with
  | [], _, [] => true
  | oil :: oils, d :: dirs, x :: key => in_intervals D d (intervals oil) x && key_in D dirs oils key
  | _, _, _ => false
  end.

(** An interval with end points that can be compared. *)
Definition bounded (P : value -> Prop) (i : Interval) : Prop :=
  match start i, end_ i with Some s, Some e => P s.2 /\ P e.2 | _, _ => False end.
Definition proper (D : Cmp.Decimal128) (d : Z) (i : Interval) : Prop :=
  bounded key_ok i /\ interval_oriented D d i = true.

(** Intervals as integers: a closed end is an even number, an open one the odd number
    inside of it. *)
Definition erank (rk : value -> Z) (e : elt) : Z := match e with Some f => rk f.2 | None => 0 end.
Definition lo (rk : value -> Z) (d : Z) (i : Interval) : Z :=
  2 * (d * erank rk (start i)) + Z.b2z (negb (startInclusive i)).
Definition hi (rk : value -> Z) (d : Z) (i : Interval) : Z :=
  2 * (d * erank rk (end_ i)) - Z.b2z (negb (endInclusive i)).
Definition inside (rk : value -> Z) (d : Z) (i : Interval) (x : value) : bool :=
  (lo rk d i <=? 2 * (d * rk x)) && (2 * (d * rk x) <=? hi rk d i).

Lemma StronglySorted_mono {A} (R S : A -> A -> Prop) (l : list A) : (forall x y, R x y -> S x y) ->
  StronglySorted R l -> StronglySorted S l.
Proof. intros HRS. induction 1 as [|x l _ IH Hx]; constructor; [done|]. eapply Forall_impl; [exact Hx|]. auto. Qed.

Section ints.
Variable D : Cmp.Decimal128.
Variable L : list value.
Variable rk : value -> Z.
Hypothesis Hrk : ranks D L rk.
Abbreviation known := (bounded (fun v => v ∈ L)).

Lemma sgn_woCompare (a b : elt) : (exists f g, a = Some f /\ b = Some g /\ f.2 ∈ L /\ g.2 ∈ L) ->
  Z.sgn (woCompare D false a b) = Z.sgn (erank rk a - erank rk b).
Proof. intros (f & g & -> & -> & Hf & Hg). by apply Hrk. Qed.

Lemma known_ends (i : Interval) : known i -> exists s e, start i = Some s /\ end_ i = Some e /\ s.2 ∈ L /\ e.2 ∈ L.
Proof. unfold bounded. destruct (start i) as [s|], (end_ i) as [e|]; try done. intros [? ?]. by exists s, e. Qed.

(** Every comparison of the end points of two intervals. *)
Lemma ends_compared (a b : Interval) : known a -> known b ->
  Z.sgn (woCompare D false (start a) (start b)) = Z.sgn (erank rk (start a) - erank rk (start b)) /\
  Z.sgn (woCompare D false (start a) (end_ b)) = Z.sgn (erank rk (start a) - erank rk (end_ b)) /\
  Z.sgn (woCompare D false (end_ a) (start b)) = Z.sgn (erank rk (end_ a) - erank rk (start b)) /\
  Z.sgn (woCompare D false (end_ a) (end_ b)) = Z.sgn (erank rk (end_ a) - erank rk (end_ b)).
Proof.
  intros (sa & ea & Esa & Eea & ? & ?)%known_ends (sb & eb & Esb & Eeb & ? & ?)%known_ends.
  rewrite Esa, Eea, Esb, Eeb. repeat split; apply sgn_woCompare; eauto 10.
Qed.

(** What is asked of a comparison. *)
Lemma sgn_tests (x y : Z) : Z.sgn x = Z.sgn y ->
  (x <? 0) = (y <? 0) /\ (0 <? x) = (0 <? y) /\ (x =? 0) = (y =? 0) /\ (0 =? x) = (0 =? y).
Proof. intros H. repeat split; lia. Qed.
Ltac tests H := let H1 := fresh in let H2 := fresh in let H3 := fresh in let H4 := fresh in
  apply sgn_tests in H; destruct H as (H1 & H2 & H3 & H4); rewrite ?H1, ?H2, ?H3, ?H4; clear H1 H2 H3 H4.
Lemma if_false (c x : bool) : (if c then false else x) = negb c && x.
Proof. by destruct c. Qed.
Lemma if_true (c x : bool) : (if c then true else x) = c || x.
Proof. by destruct c. Qed.

Lemma contains_inside (d : Z) (i : Interval) (x : field) : known i -> x.2 ∈ L -> d = 1 \/ d = -1 ->
  contains D d i x = inside rk d i x.2.
Proof.
  intros (s & e & Es & Ee & Hs & He)%known_ends Hx Hd. unfold contains, inside, lo, hi. rewrite Es, Ee.
  pose proof (Hrk s x Hs Hx). pose proof (Hrk x e Hx He). cbn [erank].
  destruct Hd as [-> | ->], (startInclusive i), (endInclusive i); cbn [negb Z.b2z]; lia.
Qed.
Lemma oriented_ints (d : Z) (i : Interval) : known i -> d = 1 \/ d = -1 ->
  interval_oriented D d i = (lo rk d i <=? hi rk d i).
Proof.
  intros Hi Hd. destruct (ends_compared i i Hi Hi) as (_ & _ & H & _). unfold interval_oriented, lo, hi.
  destruct Hd as [-> | ->], (startInclusive i), (endInclusive i); cbn [negb Z.b2z]; lia.
Qed.

Section two.
Variables a b : Interval.
Hypothesis Ha : known a.
Hypothesis Hb : known b.
Let la := lo rk 1 a.
Let ha := hi rk 1 a.
Let lb := lo rk 1 b.
Let hb := hi rk 1 b.

Lemma intersects_ints : intersects D a b = (la <=? hb) && (lb <=? ha).
Proof.
  destruct (ends_compared a b Ha Hb) as (_ & H1 & _). destruct (ends_compared b a Hb Ha) as (_ & H2 & _).
  unfold intersects, la, lb, ha, hb, lo, hi. cbv zeta. rewrite !if_false. tests H1. tests H2.
  destruct (startInclusive a), (startInclusive b), (endInclusive a), (endInclusive b); cbn [negb Z.b2z orb]; lia.
Qed.
Lemma equals_ints : equals D a b = (la =? lb) && (ha =? hb).
Proof.
  destruct (ends_compared a b Ha Hb) as (H1 & _ & _ & H2).
  unfold equals, la, lb, ha, hb, lo, hi. rewrite !if_false. tests H1. tests H2.
  destruct (startInclusive a), (startInclusive b), (endInclusive a), (endInclusive b); cbn [negb Z.b2z orb Bool.eqb]; lia.
Qed.
Lemma within_ints : within D a b = (lb <=? la) && (ha <=? hb).
Proof.
  destruct (ends_compared a b Ha Hb) as (H1 & _ & _ & H2).
  unfold within, la, lb, ha, hb, lo, hi. cbv zeta. rewrite !if_false. tests H1. tests H2.
  destruct (startInclusive a), (startInclusive b), (endInclusive a), (endInclusive b); cbn [negb Z.b2z orb]; lia.
Qed.
Lemma precedes_ints : precedes D a b = (la <? lb).
Proof.
  destruct (ends_compared a b Ha Hb) as (H1 & _).
  unfold precedes, la, lb, lo. cbv zeta. rewrite !if_true. tests H1.
  destruct (startInclusive a), (startInclusive b); cbn [negb Z.b2z orb]; lia.
Qed.
Lemma adjacent_ints : lb > ha ->
  (endInclusive a || startInclusive b) && (0 =? woCompare D false (end_ a) (start b)) = (lb =? ha + 1).
Proof.
  destruct (ends_compared a b Ha Hb) as (_ & _ & H1 & _).
  unfold lb, ha, lo, hi. tests H1.
  destruct (startInclusive b), (endInclusive a); cbn [negb Z.b2z orb]; lia.
Qed.
End two.

(** The comparison of two intervals, by their ends. *)
Lemma compare_ints (a b : Interval) : known a -> known b -> lo rk 1 b <= hi rk 1 b ->
  let la := lo rk 1 a in let ha := hi rk 1 a in let lb := lo rk 1 b in let hb := hi rk 1 b in
  compare D a b =
    if (la <=? hb) && (lb <=? ha) then
      if (la =? lb) && (ha =? hb) then INTERVAL_EQUALS
      else if (lb <=? la) && (ha <=? hb) then INTERVAL_WITHIN
      else if (la <=? lb) && (hb <=? ha) then INTERVAL_CONTAINS
      else if la <? lb then INTERVAL_OVERLAPS_BEFORE else INTERVAL_OVERLAPS_AFTER
    else if la <? lb then
      if lb =? ha + 1 then INTERVAL_PRECEDES_COULD_UNION else INTERVAL_PRECEDES
    else INTERVAL_SUCCEEDS.
Proof.
  intros Ha Hb Pb la ha lb hb. unfold compare.
  rewrite (intersects_ints a b), (equals_ints a b), (within_ints a b), (within_ints b a), (precedes_ints a b) by done.
  fold la ha lb hb in Pb |- *. destruct ((la <=? hb) && (lb <=? ha)) eqn:Hint; [done|].
  destruct (Z.ltb_spec la lb); [|done]. rewrite (adjacent_ints a b) by (done || fold lb ha; lia). done.
Qed.

(** *** Unions *)

Definition fine (i : Interval) : Prop := known i /\ lo rk 1 i <= hi rk 1 i.
Abbreviation any_inside x ivs := (existsb (fun i => inside rk 1 i x) ivs).
Abbreviation apart := (fun a b : Interval => hi rk 1 a + 1 < lo rk 1 b).
Abbreviation lo_le := (fun a b : Interval => lo rk 1 a <= lo rk 1 b).

(** The interval from the start of one interval to the end of another one. *)
Lemma range_interval (a b : Interval) : known a -> known b -> exists s e n,
  start a = Some s /\ end_ b = Some e /\
  makeRangeInterval [([], s.2); ([], e.2)] (makeBoundInclusionFromBoundBools (startInclusive a) (endInclusive b)) = Some n /\
  known n /\ lo rk 1 n = lo rk 1 a /\ hi rk 1 n = hi rk 1 b.
Proof.
  intros (s & ? & Es & _ & Hs & _)%known_ends (? & e & _ & Ee & _ & He)%known_ends.
  eexists s, e, _. split; [done|]. split; [done|]. split; [reflexivity|]. split; [done|].
  unfold lo, hi. cbn [start end_ startInclusive endInclusive erank]. rewrite Es, Ee. cbn [erank].
  by destruct (startInclusive a), (endInclusive b).
Qed.

(** A pair of neighbours in a list. *)
Lemma pair_in_list (pre rest : list Interval) (a b n : Interval) : let i := length pre in let l := pre ++ a :: b :: rest in
  l !! i = Some a /\ l !! (i + 1)%nat = Some b /\ delete i l = pre ++ b :: rest /\ delete (i + 1)%nat l = pre ++ a :: rest /\
  <[i := n]> (delete i l) = pre ++ n :: rest /\ (i <? length l - 1)%nat = true.
Proof.
  cbv zeta. rewrite (list_lookup_middle pre (b :: rest) a (length pre)) by done. split; [done|].
  assert (E : pre ++ a :: b :: rest = (pre ++ [a]) ++ b :: rest) by (by rewrite <- app_assoc).
  assert (E1 : (length pre + 1)%nat = length (pre ++ [a])) by (by rewrite length_app).
  split; [rewrite E, E1; by apply list_lookup_middle|]. rewrite delete_middle. split; [done|]. split.
  { rewrite E, E1, delete_middle, <- app_assoc. done. }
  split; [by rewrite insert_app_r_alt, Nat.sub_diag by lia|]. apply Nat.ltb_lt. rewrite length_app. cbn. lia.
Qed.

(** The loop at index [length pre] of a list returns its union. *)
Definition unions (fuel : nat) (pre l l0 : list Interval) : Prop :=
  exists r, unionize_loop D fuel (length pre) l = Some r /\
    Forall fine r /\ StronglySorted apart r /\ forall x, any_inside x r = any_inside x l0.

Section union_step.
Variables (fuel : nat) (pre rest : list Interval) (a b : Interval).
Hypothesis IH : forall pre a rest, (length rest < fuel)%nat ->
  Forall fine (pre ++ a :: rest) -> StronglySorted apart (pre ++ [a]) -> StronglySorted lo_le (a :: rest) ->
  unions fuel pre (pre ++ a :: rest) (pre ++ a :: rest).
Hypothesis Hfuel : (length (b :: rest) < S fuel)%nat.
Hypothesis Hfine : Forall fine (pre ++ a :: b :: rest).
Hypothesis Hap : StronglySorted apart (pre ++ [a]).
Hypothesis Hlo : StronglySorted lo_le (a :: b :: rest).

Lemma later_apart (c : Interval) : lo rk 1 a <= lo rk 1 c -> StronglySorted apart (pre ++ [c]).
Proof.
  intros Hc. pose proof Hap as (Hpa & Hpre & _)%StronglySorted_app.
  apply StronglySorted_app. split; [|split; [done|repeat constructor]].
  intros p y Hp ->%list_elem_of_singleton. specialize (Hpa p a Hp ltac:(set_solver)). lia.
Qed.

(** Two neighbours replaced by their union. *)
Lemma replace_pair (c : Interval) : fine c -> lo rk 1 a <= lo rk 1 c -> lo rk 1 c <= lo rk 1 b ->
  (forall x, inside rk 1 c x = inside rk 1 a x || inside rk 1 b x) ->
  unions fuel pre (pre ++ c :: rest) (pre ++ a :: b :: rest).
Proof.
  intros Fc Hac Hcb Hin. pose proof Hfuel as Hfuel'. cbn [length] in Hfuel'.
  pose proof Hfine as [Fpre [_ [_ Frest]%Forall_cons]%Forall_cons]%Forall_app.
  pose proof Hlo as [_ [Hbl Hrest]%StronglySorted_cons]%StronglySorted_cons.
  destruct (IH pre c rest) as (r & Er & Fr & Sr & Mr); [lia| |by apply later_apart| |].
  - apply Forall_app. by split; [|apply Forall_cons].
  - apply StronglySorted_cons. split; [|done]. eapply Forall_impl; [exact Hbl|]. cbn. lia.
  - exists r. split; [done|]. split; [done|]. split; [done|]. intros x. rewrite Mr, !existsb_app. cbn [existsb].
    by rewrite Hin, !orb_assoc.
Qed.
Lemma keep_pair : hi rk 1 a + 1 < lo rk 1 b ->
  unions fuel (pre ++ [a]) (pre ++ a :: b :: rest) (pre ++ a :: b :: rest).
Proof.
  intros Hab. pose proof Hfuel as Hfuel'. cbn [length] in Hfuel'. pose proof Hlo as [_ Hlo']%StronglySorted_cons.
  replace (pre ++ a :: b :: rest) with ((pre ++ [a]) ++ b :: rest) in * by (by rewrite <- app_assoc).
  apply IH; [lia|done| |done]. apply StronglySorted_app. split; [|split; [done|repeat constructor]].
  pose proof Hap as (Hpa & _ & _)%StronglySorted_app. pose proof Hfine as [[_ [[_ Pa] _]%Forall_cons]%Forall_app _]%Forall_app.
  intros p y [Hp| ->%list_elem_of_singleton]%elem_of_app ->%list_elem_of_singleton; [|lia].
  specialize (Hpa p a Hp ltac:(set_solver)). lia.
Qed.

(** Two neighbours that overlap or touch. *)
Lemma merge_pair : hi rk 1 a <= hi rk 1 b -> lo rk 1 b <= hi rk 1 a + 1 -> exists r,
  (s ← start a; e ← end_ b;
   n ← makeRangeInterval [([], s.2); ([], e.2)] (makeBoundInclusionFromBoundBools (startInclusive a) (endInclusive b));
   unionize_loop D fuel (length pre) (<[length pre := n]> (delete (length pre) (pre ++ a :: b :: rest)))) = Some r /\
  Forall fine r /\ StronglySorted apart r /\ forall x, any_inside x r = any_inside x (pre ++ a :: b :: rest).
Proof.
  intros Hh Hadj. pose proof Hfine as [_ [[Ka Pa] [[Kb Pb] _]%Forall_cons]%Forall_cons]%Forall_app.
  pose proof Hlo as [[Hab _]%Forall_cons _]%StronglySorted_cons.
  destruct (range_interval a b Ka Kb) as (s & e & n & -> & -> & En & Kn & Ln & Hn). cbn [mbind option_bind].
  rewrite En. cbn [mbind option_bind]. destruct (pair_in_list pre rest a b n) as (_ & _ & _ & _ & -> & _).
  apply replace_pair; [split; [done|]; lia|lia|lia|]. intros x. unfold inside. lia.
Qed.
End union_step.

Lemma unionize_loop_ints (fuel : nat) : forall pre a rest, (length rest < fuel)%nat ->
  Forall fine (pre ++ a :: rest) -> StronglySorted apart (pre ++ [a]) -> StronglySorted lo_le (a :: rest) ->
  unions fuel pre (pre ++ a :: rest) (pre ++ a :: rest).
Proof.
  induction fuel as [|fuel IH]; intros pre a rest Hfuel Hfine Hap Hlo; [lia|].
  unfold unions. cbn [unionize_loop]. destruct rest as [|b rest].
  { destruct (Nat.ltb_spec (length pre) (length (pre ++ [a]) - 1)); [rewrite length_app in *; cbn in *; lia|]. by eexists. }
  destruct (pair_in_list pre rest a b a) as (-> & -> & Hdel & Hdel' & _ & ->). cbn [mbind option_bind].
  pose proof Hfine as [_ [[Ka Pa] [[Kb Pb] _]%Forall_cons]%Forall_cons]%Forall_app.
  pose proof Hlo as [[Hab _]%Forall_cons _]%StronglySorted_cons.
  pose proof (replace_pair fuel pre rest a b IH Hfuel Hfine Hap Hlo) as Hrep.
  pose proof (merge_pair fuel pre rest a b IH Hfuel Hfine Hap Hlo) as Hmerge.
  rewrite (compare_ints a b Ka Kb Pb). cbv zeta.
  destruct ((lo rk 1 a <=? hi rk 1 b) && (lo rk 1 b <=? hi rk 1 a)) eqn:Hi.
  - destruct ((lo rk 1 a =? lo rk 1 b) && (hi rk 1 a =? hi rk 1 b)) eqn:He.
    { rewrite Hdel. apply Hrep; [done|lia|lia|]. intros x. unfold inside. lia. }
    destruct ((lo rk 1 b <=? lo rk 1 a) && (hi rk 1 a <=? hi rk 1 b)) eqn:Hw.
    { rewrite Hdel. apply Hrep; [done|lia|lia|]. intros x. unfold inside. lia. }
    destruct ((lo rk 1 a <=? lo rk 1 b) && (hi rk 1 b <=? hi rk 1 a)) eqn:Hc.
    { rewrite Hdel'. apply Hrep; [done|lia|lia|]. intros x. unfold inside. lia. }
    destruct (Z.ltb_spec (lo rk 1 a) (lo rk 1 b)); [|lia]. apply Hmerge; lia.
  - destruct (Z.ltb_spec (lo rk 1 a) (lo rk 1 b)); [|lia].
    destruct (Z.eqb_spec (lo rk 1 b) (hi rk 1 a + 1)); [apply Hmerge; lia|].
    replace (length pre + 1)%nat with (length (pre ++ [a])) by (by rewrite length_app).
    apply keep_pair; done || lia.
Qed.

(** *** Intersections *)

(** A new interval from ends of known ones. *)
Lemma init_from_known (s e : elt) (si ei : bool) (f g : field) : s = Some f -> e = Some g -> f.2 ∈ L -> g.2 ∈ L ->
  exists n, init_from s e si ei = Some n /\ known n /\
    lo rk 1 n = 2 * (1 * erank rk s) + Z.b2z (negb si) /\ hi rk 1 n = 2 * (1 * erank rk e) - Z.b2z (negb ei) /\
    erank rk (start n) = erank rk s /\ erank rk (end_ n) = erank rk e.
Proof. intros -> -> Hf Hg. by eexists. Qed.

Lemma intersect_ints (a b : Interval) : fine a -> fine b -> lo rk 1 a <= hi rk 1 b -> lo rk 1 b <= hi rk 1 a ->
  exists n, intersect D a b (compare D a b) = Some n /\ known n /\
    lo rk 1 n = Z.max (lo rk 1 a) (lo rk 1 b) /\ hi rk 1 n = Z.min (hi rk 1 a) (hi rk 1 b).
Proof.
  intros [Ka Pa] [Kb Pb] H1 H2. rewrite (compare_ints a b Ka Kb Pb). cbv zeta.
  pose proof (known_ends a Ka) as (sa & ea & Esa & Eea & Hsa & Hea).
  pose proof (known_ends b Kb) as (sb & eb & Esb & Eeb & Hsb & Heb).
  destruct ((lo rk 1 a <=? hi rk 1 b) && (lo rk 1 b <=? hi rk 1 a)) eqn:Hi; [|lia].
  destruct ((lo rk 1 a =? lo rk 1 b) && (hi rk 1 a =? hi rk 1 b)) eqn:He.
  { exists a. split; [done|]. split; [done|]. lia. }
  destruct ((lo rk 1 b <=? lo rk 1 a) && (hi rk 1 a <=? hi rk 1 b)) eqn:Hw.
  { exists a. split; [done|]. split; [done|]. lia. }
  destruct ((lo rk 1 a <=? lo rk 1 b) && (hi rk 1 b <=? hi rk 1 a)) eqn:Hc.
  { destruct (init_from_known (start b) (end_ b) (startInclusive b) (endInclusive b) sb eb) as (n & En & Kn & Ln & Hn & _); [done..|].
    exists n. split; [exact En|]. split; [done|]. fold (lo rk 1 b) in Ln. fold (hi rk 1 b) in Hn. lia. }
  destruct (Z.ltb_spec (lo rk 1 a) (lo rk 1 b)).
  - destruct (init_from_known (start b) (end_ a) (startInclusive b) (endInclusive a) sb ea) as (n & En & Kn & Ln & Hn & _); [done..|].
    exists n. split; [exact En|]. split; [done|]. fold (lo rk 1 b) in Ln. fold (hi rk 1 a) in Hn. lia.
  - destruct (init_from_known (start a) (end_ b) (startInclusive a) (endInclusive b) sa eb) as (n & En & Kn & Ln & Hn & _); [done..|].
    exists n. split; [exact En|]. split; [done|]. fold (lo rk 1 a) in Ln. fold (hi rk 1 b) in Hn. lia.
Qed.

(** Lists in order: an interval may start at the end of the one before. *)
Abbreviation behind := (fun a b : Interval => erank rk (end_ a) <= erank rk (start b)).
Definition in_order (ivs : list Interval) : Prop := Forall fine ivs /\ StronglySorted behind ivs.

Lemma in_order_cons (a : Interval) (ivs : list Interval) :
  in_order (a :: ivs) <-> fine a /\ in_order ivs /\ Forall (behind a) ivs.
Proof. unfold in_order. rewrite Forall_cons, StronglySorted_cons. tauto. Qed.

(** What comes behind an interval shares at most its end with it. *)
Lemma behind_inside (a : Interval) (ivs : list Interval) (x : value) : Forall (behind a) ivs ->
  2 * rk x < hi rk 1 a -> any_inside x ivs = false.
Proof.
  intros Hb Hx. induction Hb as [|b ivs Hab _ IH]; [done|]. cbn [existsb]. rewrite IH, orb_false_r.
  unfold inside, lo, hi in *. destruct (startInclusive b), (endInclusive a); cbn [negb Z.b2z] in *; lia.
Qed.

(** What the loop may still add starts behind the heads of both lists. *)
Definition from_head (ivs : list Interval) (i : Interval) : Prop :=
  match ivs with a :: _ => lo rk 1 a <= lo rk 1 i | [] => False end.

Lemma drop_head (a n : Interval) (ivs r : list Interval) : in_order (a :: ivs) -> hi rk 1 n <= hi rk 1 a ->
  Forall (from_head ivs) r -> Forall (behind n) r.
Proof.
  intros (Fa & _ & Hb)%in_order_cons Hn Hr. eapply Forall_impl; [exact Hr|]. intros i. unfold from_head.
  destruct Hb as [|a' ivs Hb _]; [done|]. unfold lo, hi in *.
  destruct (startInclusive a'), (endInclusive a), (startInclusive i), (endInclusive n); cbn [negb Z.b2z] in *; lia.
Qed.
Lemma from_head_cons (a : Interval) (ivs r : list Interval) : in_order (a :: ivs) ->
  Forall (from_head ivs) r -> Forall (from_head (a :: ivs)) r.
Proof.
  intros (Fa & _ & Hb)%in_order_cons Hr. eapply Forall_impl; [exact Hr|]. intros i. unfold from_head.
  destruct Hb as [|a' ivs Hb _]; [done|]. destruct Fa as [_ Pa]. unfold lo, hi in *.
  destruct (startInclusive a'), (endInclusive a), (startInclusive a); cbn [negb Z.b2z] in *; lia.
Qed.

(** An interval that ends first meets only the head of the other list. *)
Lemma absorbed (a b : Interval) (ivs : list Interval) (x : value) : in_order (b :: ivs) -> hi rk 1 a <= hi rk 1 b ->
  inside rk 1 a x && any_inside x (b :: ivs) = inside rk 1 a x && inside rk 1 b x.
Proof.
  intros ([_ Pb] & _ & Hb)%in_order_cons Hab. cbn [existsb].
  destruct (inside rk 1 a x) eqn:Ha; [|done]. cbn [andb]. destruct (inside rk 1 b x) eqn:Eb; [done|].
  apply (behind_inside b); [done|]. unfold inside in *. lia.
Qed.

(** What the loop has left to do: an interval of both heads, and the rest. *)
Definition meets (argiv iv r : list Interval) : Prop :=
  in_order r /\ Forall (from_head argiv) r /\ Forall (from_head iv) r /\
  forall x, any_inside x r = any_inside x argiv && any_inside x iv.

Lemma meets_sym (argiv iv r : list Interval) : meets argiv iv r -> meets iv argiv r.
Proof. intros (H1 & H2 & H3 & H4). split; [done|]. split; [done|]. split; [done|]. intros x. by rewrite H4, andb_comm. Qed.
Lemma meets_nil (iv : list Interval) : meets [] iv [].
Proof. by repeat constructor. Qed.

Section step.
Variables (a b n : Interval) (A B r : list Interval).
Hypothesis HA : in_order (a :: A).
Hypothesis HB : in_order (b :: B).

Lemma meets_skip : hi rk 1 a < lo rk 1 b -> meets A (b :: B) r -> meets (a :: A) (b :: B) r.
Proof.
  intros Hab (H1 & H2 & H3 & H4). split; [done|]. split; [by apply from_head_cons|]. split; [done|]. intros x.
  pose proof HB as ([_ Pb] & _)%in_order_cons.
  pose proof (absorbed a b B x HB ltac:(lia)) as E. cbn [existsb] in E |- *. rewrite H4, andb_orb_distrib_l, E.
  cbn [existsb]. assert (inside rk 1 a x && inside rk 1 b x = false) as -> by (unfold inside; lia). done.
Qed.

Hypothesis Fn : fine n.
Hypothesis Ln : lo rk 1 n = Z.max (lo rk 1 a) (lo rk 1 b).
Hypothesis Hn : hi rk 1 n = Z.min (hi rk 1 a) (hi rk 1 b).

Lemma meets_left : hi rk 1 a <= hi rk 1 b -> meets A (b :: B) r -> meets (a :: A) (b :: B) (n :: r).
Proof.
  intros Hab (H1 & H2 & H3 & H4). split; [|split; [|split]].
  - apply in_order_cons. split; [done|]. split; [done|]. eapply drop_head; [exact HA|lia|done].
  - constructor; [cbn; lia|]. by apply from_head_cons.
  - constructor; [cbn; lia|done].
  - intros x. cbn [existsb]. rewrite H4, andb_orb_distrib_l.
    pose proof (absorbed a b B x HB Hab) as E. cbn [existsb] in E |- *. rewrite E. f_equal. unfold inside. lia.
Qed.
Lemma meets_both : hi rk 1 a = hi rk 1 b -> meets A B r -> meets (a :: A) (b :: B) (n :: r).
Proof.
  intros Hab (H1 & H2 & H3 & H4). split; [|split; [|split]].
  - apply in_order_cons. split; [done|]. split; [done|]. eapply drop_head; [exact HA|lia|done].
  - constructor; [cbn; lia|]. by apply from_head_cons.
  - constructor; [cbn; lia|by apply from_head_cons].
  - intros x. pose proof (absorbed a b B x HB ltac:(lia)) as E1. pose proof (absorbed b a A x HA ltac:(lia)) as E2.
    cbn [existsb] in E1, E2 |- *. rewrite H4.
    assert (inside rk 1 n x = inside rk 1 a x && inside rk 1 b x) as -> by (unfold inside; lia).
    destruct (inside rk 1 a x), (inside rk 1 b x), (any_inside x A), (any_inside x B); done.
Qed.
End step.

Lemma intersectize_loop_ints (fuel : nat) : forall argiv iv result, (length argiv + length iv < fuel)%nat ->
  in_order argiv -> in_order iv ->
  exists r, intersectize_loop D fuel argiv iv result = Some (result ++ r) /\ meets argiv iv r.
Proof.
  induction fuel as [|fuel IH]; intros argiv iv result Hfuel HA HB; [lia|]. cbn [intersectize_loop].
  destruct argiv as [|a A]. { exists []. rewrite app_nil_r. split; [done|]. apply meets_nil. }
  destruct iv as [|b B]. { exists []. rewrite app_nil_r. split; [done|]. apply meets_sym, meets_nil. }
  cbn [length] in Hfuel.
  pose proof HA as (Fa & HA' & _)%in_order_cons. pose proof HB as (Fb & HB' & _)%in_order_cons.
  pose proof (intersect_ints a b Fa Fb) as Hint. destruct Fa as [Ka Pa], Fb as [Kb Pb].
  rewrite (compare_ints a b Ka Kb Pb) in Hint |- *. cbv zeta in Hint |- *.
  destruct ((lo rk 1 a <=? hi rk 1 b) && (lo rk 1 b <=? hi rk 1 a)) eqn:Hi.
  - destruct Hint as (n & En & Kn & Ln & Hn); [lia..|]. assert (Fn : fine n) by (split; [done|lia]).
    assert (Hboth : hi rk 1 a = hi rk 1 b -> exists r,
      intersectize_loop D fuel A B (result ++ [n]) = Some (result ++ r) /\ meets (a :: A) (b :: B) r).
    { intros Hh. destruct (IH A B (result ++ [n])) as (r & -> & Hr); [lia|done..|].
      exists (n :: r). rewrite <- app_assoc. split; [done|]. by apply meets_both. }
    assert (Hleft : hi rk 1 a <= hi rk 1 b -> exists r,
      intersectize_loop D fuel A (b :: B) (result ++ [n]) = Some (result ++ r) /\ meets (a :: A) (b :: B) r).
    { intros Hh. destruct (IH A (b :: B) (result ++ [n])) as (r & -> & Hr); [cbn; lia|done..|].
      exists (n :: r). rewrite <- app_assoc. split; [done|]. by apply meets_left. }
    assert (Hright : hi rk 1 b <= hi rk 1 a -> exists r,
      intersectize_loop D fuel (a :: A) B (result ++ [n]) = Some (result ++ r) /\ meets (a :: A) (b :: B) r).
    { intros Hh. destruct (IH (a :: A) B (result ++ [n])) as (r & -> & Hr); [cbn; lia|done..|].
      exists (n :: r). rewrite <- app_assoc. split; [done|]. apply meets_sym, meets_left; [done..|lia|lia|done|].
      by apply meets_sym. }
    repeat case_match; try lia; rewrite En; cbn [mbind option_bind];
      first [apply Hboth; lia | apply Hleft; lia | apply Hright; lia].
  - clear Hint. destruct (Z.ltb_spec (lo rk 1 a) (lo rk 1 b)).
    + destruct (IH A (b :: B) result) as (r & Er & Hr); [cbn; lia|done..|].
      exists r. split; [destruct (lo rk 1 b =? hi rk 1 a + 1); exact Er|]. apply meets_skip; [done..|lia|done].
    + destruct (IH (a :: A) B result) as (r & Er & Hr); [cbn; lia|done..|].
      exists r. split; [done|]. apply meets_sym, meets_skip; [done..|lia|by apply meets_sym].
Qed.

(** *** Complements *)

Definition unnamed (i : Interval) : Prop :=
  match start i, end_ i with Some s, Some e => s.1 = [] /\ e.1 = [] | _, _ => False end.

(** Elements without a name compare the same with the names. *)
Lemma woCompare_unnamed (f g : field) : f.1 = [] -> g.1 = [] ->
  woCompare D true (Some f) (Some g) = woCompare D false (Some f) (Some g).
Proof.
  destruct f as [n v], g as [n' v']; cbn [fst]. intros -> ->. unfold woCompare, Cmp.elem_woCompare.
  destruct (negb _); reflexivity.
Qed.

(** What the complement still has to cover starts at an element [c], which is covered
    already when [ci]. *)
Definition rest_from (c : elt) (ci : bool) : Z := 2 * erank rk c + Z.b2z ci.
Definition covers (c : elt) (ci : bool) (ivs r : list Interval) : Prop :=
  in_order r /\ Forall (fun i => rest_from c ci <= lo rk 1 i) r /\
  forall x, x ∈ L -> any_inside x r = (rest_from c ci <=? 2 * rk x) && negb (any_inside x ivs).

Section complement.
Hypothesis Hmax : VMaxKey ∈ L.
Hypothesis Hlast : forall x, x ∈ L -> rk x <= rk VMaxKey.

(** The interval between two elements, when there is one. *)
Lemma gap_ints (c s : field) (ci si : bool) : c.1 = [] -> s.1 = [] -> c.2 ∈ L -> s.2 ∈ L -> rk c.2 <= rk s.2 ->
  negb (0 =? woCompare D true (Some s) (Some c)) || (negb ci && negb si) =
    (rest_from (Some c) ci <=? 2 * rk s.2 - Z.b2z si).
Proof.
  intros Hc Hs Kc Ks Hle. rewrite woCompare_unnamed by done. pose proof (Hrk s c Ks Kc) as H. tests H.
  unfold rest_from. cbn [erank]. destruct ci, si; cbn [negb andb Z.b2z]; lia.
Qed.

(** The gap in front of an interval, then what is behind the interval. *)
Lemma covers_step (c : elt) (ci : bool) (a : Interval) (ivs r : list Interval) (n : Interval) :
  in_order (a :: ivs) -> erank rk c <= erank rk (start a) -> known n ->
  lo rk 1 n = rest_from c ci -> hi rk 1 n = 2 * erank rk (start a) - Z.b2z (startInclusive a) ->
  covers (end_ a) (endInclusive a) ivs r ->
  covers c ci (a :: ivs) (if rest_from c ci <=? 2 * erank rk (start a) - Z.b2z (startInclusive a) then n :: r else r).
Proof.
  intros Ho Hca Kn Ln Hn (H1 & H2 & H3). pose proof Ho as ([Ka Pa] & _ & Hb)%in_order_cons.
  assert (Hx : forall x, x ∈ L -> inside rk 1 n x || any_inside x r =
    (rest_from c ci <=? 2 * rk x) && negb (any_inside x (a :: ivs))).
  { intros x Hx. pose proof (behind_inside a ivs x Hb) as Hbi. rewrite (H3 x Hx). cbn [existsb].
    unfold inside, rest_from in *. rewrite Ln, Hn. unfold lo, hi in *.
    destruct (any_inside x ivs); cbn [negb]; rewrite ?orb_true_r, ?orb_false_r, ?andb_false_r, ?andb_true_r;
      destruct (startInclusive a), (endInclusive a); cbn [negb Z.b2z] in *; lia. }
  assert (Hr : Forall (fun i => rest_from c ci <= lo rk 1 i) r).
  { eapply Forall_impl; [exact H2|]. intros i Hi. cbv beta in Hi |- *. unfold rest_from, lo, hi in *.
    destruct (startInclusive a), (endInclusive a), (startInclusive i), ci; cbn [negb Z.b2z] in *; lia. }
  destruct (Z.leb_spec (rest_from c ci) (2 * erank rk (start a) - Z.b2z (startInclusive a))) as [Hg|Hg].
  - split; [|split; [constructor; [lia|done]|exact Hx]].
    apply in_order_cons. split; [split; [done|lia]|]. split; [done|].
    eapply Forall_impl; [exact H2|]. intros i Hi. cbv beta in Hi |- *. unfold rest_from, lo, hi in *.
    destruct (startInclusive a), (endInclusive a), (startInclusive i), (endInclusive n); cbn [negb Z.b2z] in *; lia.
  - split; [done|]. split; [done|]. intros x HxL. rewrite <- (Hx x HxL).
    assert (inside rk 1 n x = false) as -> by (unfold inside; lia). done.
Qed.

Lemma complement_ints (ivs : list Interval) : forall (c : field) (ci : bool) (new : list Interval),
  in_order ivs -> Forall unnamed ivs -> c.1 = [] -> c.2 ∈ L -> Forall (fun i => rk c.2 <= erank rk (start i)) ivs ->
  exists st r, complement_loop D ivs (Some c) ci new = Some st /\ complement_end D st = Some (new ++ r) /\
    covers (Some c) ci ivs r.
Proof.
  induction ivs as [|a ivs IH]; intros c ci new Ho Hu Hc Kc Hfrom.
  - exists (Some c, ci, new). cbn [complement_loop complement_end]. cbv zeta. pose proof (gap_ints c ([], VMaxKey) ci false Hc eq_refl Kc Hmax) as Hg.
    cbn [negb andb snd] in Hg. rewrite andb_true_r in Hg. rewrite Hg by auto. clear Hg.
    destruct (init_from_known (Some c) (Some ([], VMaxKey)) (negb ci) true c ([], VMaxKey))
      as (n & -> & Kn & Ln & Hn & _); [done..|]. rewrite negb_involutive in Ln. cbn [erank snd Z.b2z] in *.
    unfold covers, rest_from. cbn [erank existsb negb].
    destruct (Z.leb_spec (2 * rk c.2 + Z.b2z ci) (2 * rk VMaxKey - 0)) as [Hg|Hg].
    + exists [n]. split; [done|]. split; [done|]. split; [split; [constructor; [split; [done|lia]|done]|repeat constructor]|].
      split; [constructor; [lia|done]|]. intros x Hx. specialize (Hlast x Hx). cbn [existsb]. unfold inside. lia.
    + exists []. rewrite app_nil_r. split; [done|]. split; [done|]. split; [by repeat constructor|]. split; [done|].
      intros x Hx. specialize (Hlast x Hx). cbn [existsb]. lia.
  - apply Forall_cons in Hu as [Ua Hu]. apply Forall_cons in Hfrom as [Hca _].
    pose proof Ho as ([Ka Pa] & Ho' & Hb)%in_order_cons. pose proof (known_ends a Ka) as (s & e & Es & Ee & Ks & Ke).
    unfold unnamed in Ua. rewrite Es, Ee in Ua. destruct Ua as [Ns Ne]. rewrite Es in Hca. cbn [erank] in Hca.
    cbn [complement_loop]. rewrite Es, Ee, (gap_ints c s ci (startInclusive a)) by done.
    destruct (init_from_known (Some c) (Some s) (negb ci) (negb (startInclusive a)) c s) as (n & -> & Kn & Ln & Hn & _); [done..|].
    rewrite negb_involutive in Ln, Hn. cbn [mbind option_bind].
    assert (Hnext : forall new', exists st r, complement_loop D ivs (Some e) (endInclusive a) new' = Some st /\
      complement_end D st = Some (new' ++ r) /\ covers (end_ a) (endInclusive a) ivs r).
    { intros new'. rewrite Ee. apply IH; [done..|]. rewrite Ee in Hb. exact Hb. }
    pose proof (fun r => covers_step (Some c) ci a ivs r n Ho) as Hstep. rewrite Es in Hstep. cbn [erank] in Hstep, Ln, Hn.
    destruct (_ <=? _) eqn:Hg.
    + cbn [mbind option_bind]. destruct (Hnext (new ++ [n])) as (st & r & El & Er & Hr). exists st, (n :: r).
      split; [done|]. split; [by rewrite Er, <- app_assoc|].
      apply Hstep; [lia|done|unfold rest_from; cbn [erank]; lia|lia|done].
    + cbn [mbind option_bind]. destruct (Hnext new) as (st & r & El & Er & Hr). exists st, r.
      split; [done|]. split; [done|]. apply Hstep; [lia|done|unfold rest_from; cbn [erank]; lia|lia|done].
Qed.
End complement.

(** *** Validity *)

Abbreviation behind_in d := (fun a b : Interval => d * erank rk (end_ a) <= d * erank rk (start b)).
(** Intervals in the order of a scan in direction [d]. *)
Definition scan_order (d : Z) (ivs : list Interval) : Prop :=
  Forall (fun i => lo rk d i <= hi rk d i) ivs /\ StronglySorted (behind_in d) ivs.

Lemma neighbours_ints (d : Z) (ivs : list Interval) : Forall known ivs -> d = 1 \/ d = -1 ->
  Forall (fun i => lo rk d i <= hi rk d i) ivs ->
  neighbours_oriented D d ivs = true <-> StronglySorted (behind_in d) ivs.
Proof.
  intros Hk Hd Hp. induction ivs as [|a ivs IH]; [split; [constructor|done]|].
  apply Forall_cons in Hk as [Ka Hk], Hp as [Pa Hp]. specialize (IH Hk Hp).
  destruct ivs as [|b ivs]; [split; [repeat constructor|done]|].
  change (neighbours_oriented D d (a :: b :: ivs)) with
    (let cmp := Z.sgn (woCompare D false (start b) (end_ a)) in
     ((0 =? cmp) || (cmp =? d)) && neighbours_oriented D d (b :: ivs)). cbv zeta.
  pose proof Hk as [Kb _]%Forall_cons. destruct (ends_compared b a Kb Ka) as (_ & -> & _).
  rewrite andb_true_iff, IH, (StronglySorted_cons _ (b :: ivs) a), (Forall_cons _ b ivs).
  apply Forall_cons in Hp as [Pb _]. split.
  - intros [Hab Hs]. assert (d * erank rk (end_ a) <= d * erank rk (start b)) by (destruct Hd as [-> | ->]; lia).
    split; [split; [done|]|done]. apply StronglySorted_cons in Hs as [Hs _].
    eapply Forall_impl; [exact Hs|]. cbv beta. intros c Hc. unfold lo, hi in Pb.
    destruct (startInclusive b), (endInclusive b); cbn [negb Z.b2z] in Pb; lia.
  - intros [[Hab _] Hs]. split; [|done]. destruct Hd as [-> | ->]; lia.
Qed.

Lemma valid_ints (d : Z) (oil : OrderedIntervalList) : Forall known (intervals oil) -> d = 1 \/ d = -1 ->
  oil_isValidFor D d oil = true <-> scan_order d (intervals oil).
Proof.
  intros Hk Hd. unfold oil_isValidFor, scan_order. rewrite andb_true_iff, forallb_forall.
  assert (E : (forall i, In i (intervals oil) -> interval_oriented D d i = true) <->
    Forall (fun i => lo rk d i <= hi rk d i) (intervals oil)).
  { rewrite List.Forall_forall. rewrite Forall_forall in Hk. split; intros H i Hi; specialize (H i Hi);
      (rewrite oriented_ints in * by (done || apply Hk, list_elem_of_In, Hi)); lia. }
  rewrite E. split; intros [H1 H2]; (split; [done|]); by apply (neighbours_ints d _ Hk Hd H1).
Qed.
Lemma in_order_valid (oil : OrderedIntervalList) : Forall known (intervals oil) ->
  in_order (intervals oil) <-> oil_isValidFor D 1 oil = true.
Proof.
  intros Hk. rewrite valid_ints by auto. unfold in_order, scan_order, fine. rewrite Forall_and.
  split; [intros [[_ H1] H2]|intros [H1 H2]]; repeat split; try done;
    (eapply StronglySorted_mono; [|exact H2]); cbn; lia.
Qed.

(** A reversed list describes the same values in the other direction. *)
Lemma inside_reverse (i : Interval) (x : value) : inside rk (-1) (reverse_interval i) x = inside rk 1 i x.
Proof.
  unfold inside, lo, hi. cbn [reverse_interval start end_ startInclusive endInclusive].
  destruct (startInclusive i), (endInclusive i); cbn [negb Z.b2z]; lia.
Qed.
Lemma reverse_order (ivs : list Interval) : scan_order 1 ivs -> scan_order (-1) (reverse_interval <$> reverse ivs).
Proof.
  unfold scan_order. intros [H1 H2]. split.
  - apply Forall_fmap, Forall_reverse. eapply Forall_impl; [exact H1|]. intros i Hi.
    unfold compose, lo, hi in *. cbn [reverse_interval start end_ startInclusive endInclusive].
    destruct (startInclusive i), (endInclusive i); cbn [negb Z.b2z] in *; lia.
  - clear H1. induction H2 as [|a ivs Hs IH Ha]; [constructor|].
    rewrite reverse_cons, fmap_app. apply StronglySorted_app. split; [|split; [exact IH|repeat constructor]].
    intros b' a' (b & -> & Hb)%list_elem_of_fmap ->%list_elem_of_singleton.
    rewrite elem_of_reverse in Hb. rewrite Forall_forall in Ha. specialize (Ha b Hb). cbn [reverse_interval start end_] in *. lia.
Qed.

Lemma lt_ints (a b : Interval) : known a -> known b -> IntervalComparison_lt D a b = (lo rk 1 a <? lo rk 1 b).
Proof.
  intros Ka Kb. destruct (ends_compared a b Ka Kb) as (H & _). unfold IntervalComparison_lt, lo. cbv zeta.
  destruct (startInclusive a), (startInclusive b); cbn [Bool.eqb negb Z.b2z]; tests H; destruct (negb _) eqn:E; lia.
Qed.
Lemma apart_in_order (ivs : list Interval) : Forall fine ivs -> StronglySorted apart ivs -> in_order ivs.
Proof.
  intros Hf Hs. split; [done|]. eapply StronglySorted_mono; [|exact Hs]. cbv beta. intros a b. unfold lo, hi.
  destruct (startInclusive b), (endInclusive a); cbn [negb Z.b2z]; lia.
Qed.
Lemma apart_precedes (ivs : list Interval) : Forall fine ivs -> StronglySorted apart ivs ->
  StronglySorted (fun a b => compare D a b = INTERVAL_PRECEDES) ivs.
Proof.
  induction 1 as [|a ivs [Ka Pa] Hf IH]; [constructor|]. intros [Ha Hs]%StronglySorted_cons. constructor; [auto|].
  rewrite Forall_forall in *. intros b Hb. specialize (Ha b Hb). destruct (Hf b Hb) as [Kb Pb].
  rewrite compare_ints by done. cbv zeta beta in *. repeat case_match; done || lia.
Qed.
Lemma in_intervals_ints (d : Z) (ivs : list Interval) (x : field) : Forall known ivs -> x.2 ∈ L -> d = 1 \/ d = -1 ->
  in_intervals D d ivs x = existsb (fun i => inside rk d i x.2) ivs.
Proof. intros Hk Hx Hd. induction Hk as [|i ivs Hi _ IH]; [done|]. cbn. by rewrite contains_inside, <- IH. Qed.
Lemma existsb_fmap {A B} (f : A -> B) (p : B -> bool) (l : list A) : existsb p (f <$> l) = existsb (fun x => p (f x)) l.
Proof. induction l as [|x l IH]; [done|]. cbn. by rewrite <- IH. Qed.
Lemma existsb_permutation {A} (p : A -> bool) (l l' : list A) : l ≡ₚ l' -> existsb p l = existsb p l'.
Proof. induction 1; cbn; [done|by f_equal| |congruence]. rewrite !orb_assoc. f_equal. apply orb_comm. Qed.

End ints.

(** ** Theorems *)
Section theorems.
Variable D : Cmp.Decimal128.

(** An ordered list of intervals for a scan in direction [d], with ends that can be keys. *)
Definition well_formed (d : Z) (oil : OrderedIntervalList) : Prop :=
  Forall (bounded key_ok) (intervals oil) /\ oil_isValidFor D d oil = true.

Definition ends_of (ivs : list Interval) : list value :=
  flat_map (fun i => match start i, end_ i with Some s, Some e => [s.2; e.2] | _, _ => [] end) ivs.

Lemma bounded_mono (P Q : value -> Prop) (ivs : list Interval) : (forall v, P v -> Q v) ->
  Forall (bounded P) ivs -> Forall (bounded Q) ivs.
Proof.
  intros HPQ H. eapply Forall_impl; [exact H|]. intros i. unfold bounded. destruct (start i), (end_ i); naive_solver.
Qed.

(** The ends of intervals and other values as integers. *)
Lemma ranked (ivs : list Interval) (xs : list value) : Forall (bounded key_ok) ivs -> Forall key_ok xs ->
  exists L rk, ranks D L rk /\ Forall (bounded (fun v => v ∈ L)) ivs /\ Forall (fun v => v ∈ L) xs /\ Forall key_ok L.
Proof.
  intros Hb Hx. assert (He : Forall key_ok (ends_of ivs)).
  { induction Hb as [|i ivs Hi _ IH]; [constructor|]. unfold bounded in Hi. cbn. destruct (start i), (end_ i); try done.
    destruct Hi. constructor; [done|]. by constructor. }
  assert (HL : Forall key_ok (ends_of ivs ++ xs)) by by apply Forall_app.
  destruct (ranks_exist D _ HL) as [rk Hrk]. exists (ends_of ivs ++ xs), rk. split; [done|]. split; [|split; [|done]].
  - apply (bounded_mono (fun v => v ∈ ends_of ivs)); [set_solver|]. clear - Hb. induction Hb as [|i ivs Hi _ IH]; [constructor|].
    constructor.
    + unfold bounded, ends_of in *. cbn. destruct (start i), (end_ i); try done. set_solver.
    + eapply bounded_mono; [|exact IH]. unfold ends_of. cbn. set_solver.
  - apply Forall_forall. set_solver.
Qed.

(** A value that every key can be compared with. *)
Definition any_field : field := ([], VMinKey).
Lemma any_field_ok : key_ok any_field.2.
Proof. by split; [solve_wf|]. Qed.

(** What intervals with integer ends are in terms of the comparisons. *)
Lemma in_order_well_formed (L : list value) (rk : value -> Z) (oil : OrderedIntervalList) : ranks D L rk -> Forall key_ok L ->
  in_order L rk (intervals oil) -> well_formed 1 oil.
Proof.
  intros Hrk HL Ho. assert (Hk : Forall (bounded (fun v => v ∈ L)) (intervals oil)).
  { eapply Forall_impl; [exact (proj1 Ho)|]. by intros i [? _]. }
  split.
  - eapply bounded_mono; [|exact Hk]. rewrite Forall_forall in HL. exact HL.
  - by apply (in_order_valid D L rk Hrk).
Qed.
Lemma well_formed_in_order (L : list value) (rk : value -> Z) (oil : OrderedIntervalList) : ranks D L rk ->
  Forall (bounded (fun v => v ∈ L)) (intervals oil) -> well_formed 1 oil -> in_order L rk (intervals oil).
Proof. intros Hrk Hk [_ Hv]. by apply (in_order_valid D L rk Hrk). Qed.
Lemma fine_known (L : list value) (rk : value -> Z) (ivs : list Interval) : Forall (fine L rk) ivs ->
  Forall (bounded (fun v => v ∈ L)) ivs.
Proof. intros H. eapply Forall_impl; [exact H|]. by intros i [? _]. Qed.

Section unionize.
Variable sort : list Interval -> list Interval.
Variable oil : OrderedIntervalList.
Hypothesis Hperm : sort (intervals oil) ≡ₚ intervals oil.
Hypothesis Hsort : StronglySorted (fun a b => IntervalComparison_lt D b a = false) (sort (intervals oil)).
Hypothesis Hproper : Forall (proper D 1) (intervals oil).

Lemma unionize_at (x : field) : key_ok x.2 -> exists oil' L rk,
  unionize D sort oil = Some oil' /\ name oil' = name oil /\ ranks D L rk /\ Forall key_ok L /\
  Forall (fine L rk) (intervals oil') /\ StronglySorted (fun a b => hi rk 1 a + 1 < lo rk 1 b) (intervals oil') /\
  in_intervals D 1 (intervals oil') x = in_intervals D 1 (intervals oil) x.
Proof.
  intros Hx. destruct (ranked (intervals oil) [x.2]) as (L & rk & Hrk & Hk & HxL & HL).
  { eapply Forall_impl; [exact Hproper|]. by intros i [? _]. }
  { by constructor. }
  apply Forall_cons in HxL as [HxL _]. unfold unionize.
  destruct (intervals oil) as [|i0 ivs] eqn:Ei.
  { exists oil, L, rk. rewrite Ei. by repeat (split; [done||constructor|]). }
  rewrite <- Ei in *. assert (Hf : Forall (fine L rk) (sort (intervals oil))).
  { rewrite Hperm. rewrite Forall_forall in *. intros i Hi. split; [auto|]. destruct (Hproper i Hi) as [_ Ho].
    rewrite (oriented_ints D L rk Hrk 1 i) in Ho by auto. lia. }
  assert (Hlo : StronglySorted (fun a b => lo rk 1 a <= lo rk 1 b) (sort (intervals oil))).
  { clear - Hsort Hf Hrk. induction Hsort as [|a l _ IH Ha]; [constructor|]. apply Forall_cons in Hf as [[Ka _] Hf].
    constructor; [auto|]. rewrite Forall_forall in *. intros b Hb. specialize (Ha b Hb).
    rewrite (lt_ints D L rk Hrk b a) in Ha by (done || apply (Hf b Hb)). lia. }
  pose proof (existsb_permutation (fun i => inside rk 1 i x.2) _ _ Hperm) as Hex.
  destruct (sort (intervals oil)) as [|a rest] eqn:Es.
  { apply Permutation_nil_l in Hperm. congruence. }
  destruct (unionize_loop_ints D L rk Hrk (2 * length (a :: rest)) [] a rest) as (r & Er & Fr & Sr & Mr);
    [cbn [length]; lia|done|repeat constructor|done|].
  cbn [app length] in *. rewrite Er. cbn [mbind option_bind].
  exists (mkOIL r (name oil)), L, rk. repeat (split; [done|]). cbn [intervals].
  rewrite !(in_intervals_ints D L rk Hrk), Mr, Hex by (auto; by eapply fine_known). done.
Qed.

(** C15. [IndexBoundsBuilder::unionize] computes the union: for a sort that permutes and
    sorts by start, it returns without a failed [verify] a list valid for an ascending scan,
    in which every interval precedes the ones behind it with a gap, and which contains
    exactly the values that the intervals contained. *)
Theorem unionize_exact :
  exists oil', unionize D sort oil = Some oil' /\ name oil' = name oil /\ well_formed 1 oil' /\
    StronglySorted (fun a b => compare D a b = INTERVAL_PRECEDES) (intervals oil') /\
    forall x, key_ok x.2 -> in_intervals D 1 (intervals oil') x = in_intervals D 1 (intervals oil) x.
Proof.
  destruct (unionize_at any_field any_field_ok) as (oil' & L & rk & E & En & Hrk & HL & Hf & Hs & _).
  exists oil'. split; [done|]. split; [done|]. split; [|split].
  - by apply (in_order_well_formed L rk), apart_in_order.
  - by apply (apart_precedes D L rk).
  - intros x Hx. destruct (unionize_at x Hx) as (oil'' & L' & rk' & E' & _ & _ & _ & _ & _ & H). congruence.
Qed.
End unionize.

Section intersectize.
Variables arg oil : OrderedIntervalList.
Hypothesis Hname : name arg = name oil.
Hypothesis Harg : well_formed 1 arg.
Hypothesis Hoil : well_formed 1 oil.

Lemma intersectize_at (x : field) : key_ok x.2 -> exists oil' L rk,
  intersectize D arg oil = Some oil' /\ name oil' = name oil /\ ranks D L rk /\ Forall key_ok L /\
  in_order L rk (intervals oil') /\
  in_intervals D 1 (intervals oil') x = in_intervals D 1 (intervals arg) x && in_intervals D 1 (intervals oil) x.
Proof.
  intros Hx. destruct (ranked (intervals arg ++ intervals oil) [x.2]) as (L & rk & Hrk & Hk & HxL & HL).
  { apply Forall_app. split; [apply Harg|apply Hoil]. }
  { by constructor. }
  apply Forall_cons in HxL as [HxL _]. apply Forall_app in Hk as [Ka Ko]. unfold intersectize. rewrite decide_True by done.
  destruct (intersectize_loop_ints D L rk Hrk (S (length (intervals arg) + length (intervals oil)))
    (intervals arg) (intervals oil) []) as (r & Er & Or & _ & _ & Mr); [lia|by apply well_formed_in_order..|].
  rewrite Er. exists (mkOIL r (name oil)), L, rk. cbn [app intervals name]. repeat (split; [done|]).
  rewrite !(in_intervals_ints D L rk Hrk), Mr by (auto; eapply fine_known, Or). done.
Qed.

(** C16. [IndexBoundsBuilder::intersectize] computes the intersection of two valid lists: no
    [verify] fails, the result is valid, and contains exactly the values that both
    contain. *)
Theorem intersectize_exact :
  exists oil', intersectize D arg oil = Some oil' /\ name oil' = name oil /\ well_formed 1 oil' /\
    forall x, key_ok x.2 -> in_intervals D 1 (intervals oil') x =
      in_intervals D 1 (intervals arg) x && in_intervals D 1 (intervals oil) x.
Proof.
  destruct (intersectize_at any_field any_field_ok) as (oil' & L & rk & E & En & Hrk & HL & Ho & _).
  exists oil'. split; [done|]. split; [done|]. split; [by apply (in_order_well_formed L rk)|].
  intros x Hx. destruct (intersectize_at x Hx) as (oil'' & L' & rk' & E' & _ & _ & _ & _ & H). congruence.
Qed.
End intersectize.

Section complement.
Variable oil : OrderedIntervalList.
Hypothesis Hoil : well_formed 1 oil.
Hypothesis Hun : Forall unnamed (intervals oil).

(** [MinKey] and [MaxKey] enclose every value. *)
Lemma extremes (L : list value) (rk : value -> Z) (v : value) : ranks D L rk -> VMinKey ∈ L -> VMaxKey ∈ L -> v ∈ L ->
  rk VMinKey <= rk v <= rk VMaxKey.
Proof.
  intros Hrk Hmin Hmax Hv. pose proof (Hrk ([], VMinKey) ([], v) Hmin Hv). pose proof (Hrk ([], v) ([], VMaxKey) Hv Hmax).
  cbn [snd] in *.
  assert (woCompare D false (Some ([], VMinKey)) (Some ([], v)) <= 0 /\ woCompare D false (Some ([], v)) (Some ([], VMaxKey)) <= 0)
    by (destruct v; vm_compute; split; discriminate). lia.
Qed.

Lemma complement_at (x : field) : key_ok x.2 -> exists oil' L rk,
  complement D oil = Some oil' /\ name oil' = name oil /\ ranks D L rk /\ Forall key_ok L /\
  in_order L rk (intervals oil') /\
  in_intervals D 1 (intervals oil') x = negb (in_intervals D 1 (intervals oil) x).
Proof.
  intros Hx. destruct (ranked (intervals oil) [x.2; VMinKey; VMaxKey]) as (L & rk & Hrk & Hk & HxL & HL).
  { apply Hoil. }
  { constructor; [done|]. constructor; [apply any_field_ok|]. constructor; [by split; [solve_wf|]|done]. }
  apply Forall_cons in HxL as [HxL [Hmin [Hmax _]%Forall_cons]%Forall_cons].
  destruct (complement_ints D L rk Hrk Hmax) with (ivs := intervals oil) (c := any_field) (ci := false) (new := @nil Interval)
    as (st & r & El & Er & Or & _ & Mr); [|by apply well_formed_in_order|done|done|done| |].
  { intros v Hv. by apply (extremes L). }
  { rewrite Forall_forall in *. intros i Hi. specialize (Hk i Hi). unfold bounded in Hk.
    destruct (start i) as [s|], (end_ i); try done. destruct Hk. by apply (extremes L). }
  unfold complement. fold any_field. rewrite El. cbn [mbind option_bind]. rewrite Er. cbn [mbind option_bind].
  exists (mkOIL r (name oil)), L, rk. repeat (split; [done|]). cbn [app intervals].
  rewrite !(in_intervals_ints D L rk Hrk), Mr by (auto; eapply fine_known, Or).
  pose proof (extremes L rk x.2 Hrk Hmin Hmax HxL). unfold rest_from. cbn [erank any_field snd Z.b2z] in *. lia.
Qed.

(** C23. [OrderedIntervalList::complement] computes the complement of a valid list whose
    ends have no names: the result is valid and contains exactly the values, from [MinKey]
    to [MaxKey], that the list does not contain. *)
Theorem complement_exact :
  exists oil', complement D oil = Some oil' /\ name oil' = name oil /\ well_formed 1 oil' /\
    forall x, key_ok x.2 -> in_intervals D 1 (intervals oil') x = negb (in_intervals D 1 (intervals oil) x).
Proof.
  destruct (complement_at any_field any_field_ok) as (oil' & L & rk & E & En & Hrk & HL & Ho & _).
  exists oil'. split; [done|]. split; [done|]. split; [by apply (in_order_well_formed L rk)|].
  intros x Hx. destruct (complement_at x Hx) as (oil'' & L' & rk' & E' & _ & _ & _ & _ & H). congruence.
Qed.
End complement.

(** The direction of each field in a scan. *)
Definition directions (kp : list field) (scanDir : Z) : list Z := List.map (fun e => direction_of D e * scanDir) kp.

Lemma direction_unit (e : field) : direction_of D e = 1 \/ direction_of D e = -1.
Proof. unfold direction_of. destruct (Dbl.le 0 _); auto. Qed.
Lemma scan_unit (e : field) (s : Z) : s = 1 \/ s = -1 -> direction_of D e * s = 1 \/ direction_of D e * s = -1.
Proof. destruct (direction_unit e) as [-> | ->]; intros [-> | ->]; auto. Qed.

(** A list for an ascending scan, turned into the direction of the field. *)
Lemma align_oil_keeps (oil : OrderedIntervalList) : well_formed 1 oil ->
  well_formed (-1) (align_oil oil) /\
  forall x, key_ok x.2 -> in_intervals D (-1) (intervals (align_oil oil)) x = in_intervals D 1 (intervals oil) x.
Proof.
  intros [Hb Hv].
  assert (Hrev : forall P, Forall (bounded P) (intervals oil) -> Forall (bounded P) (intervals (align_oil oil))).
  { intros P HP. cbn [align_oil intervals]. apply Forall_fmap, Forall_reverse. eapply Forall_impl; [exact HP|].
    intros i. unfold compose, bounded. cbn [reverse_interval start end_]. destruct (start i), (end_ i); naive_solver. }
  split; [split; [by apply Hrev|]|].
  - destruct (ranked (intervals oil) []) as (L & rk & Hrk & Hk & _ & _); [done..|].
    apply (valid_ints D L rk Hrk); [by apply Hrev|auto|]. apply reverse_order.
    by apply (valid_ints D L rk Hrk); [|auto|].
  - intros x Hx. destruct (ranked (intervals oil) [x.2]) as (L & rk & Hrk & Hk & HxL & _); [done|by constructor|].
    apply Forall_cons in HxL as [HxL _]. rewrite !(in_intervals_ints D L rk Hrk) by auto.
    cbn [align_oil intervals]. rewrite existsb_fmap, (existsb_permutation _ _ _ (reverse_Permutation (intervals oil))).
    clear. induction (intervals oil) as [|i l IH]; [done|]. cbn [existsb]. by rewrite inside_reverse, IH.
Qed.

Section align.
Variable scanDir : Z.
Hypothesis Hdir : scanDir = 1 \/ scanDir = -1.

Lemma align_loop_keeps (kp : list field) (oils : list OrderedIntervalList) :
  Forall2 (fun (e : field) oil => name oil = e.1 /\ well_formed 1 oil) kp oils ->
  exists oils', align_loop D scanDir kp oils = Some oils' /\ fields_valid D scanDir kp oils' = true /\
    Forall2 (fun d oil => well_formed d oil) (directions kp scanDir) oils' /\
    forall key, Forall (fun x : field => key_ok x.2) key ->
      key_in D (directions kp scanDir) oils' key = key_in D (replicate (length kp) 1) oils key.
Proof.
  induction 1 as [|e oil kp oils [Hn Hw] _ (oils' & E & Hv & Hf & Hk)].
  { exists []. split; [done|]. split; [done|]. split; [constructor|]. done. }
  cbn [align_loop]. rewrite E. cbn [mbind option_bind]. eexists. split; [reflexivity|].
  set (d := direction_of D e * scanDir). set (oil' := if -1 =? d then align_oil oil else oil).
  assert (Hoil : name oil' = e.1 /\ well_formed d oil' /\
    forall x, key_ok x.2 -> in_intervals D d (intervals oil') x = in_intervals D 1 (intervals oil) x).
  { unfold oil'. destruct (scan_unit e scanDir Hdir) as [E1|E1]; fold d in E1; rewrite E1; cbn [Z.eqb Pos.eqb].
    - by split.
    - by split; [|apply align_oil_keeps]. }
  destruct Hoil as (Hn' & Hw' & Hx'). split; [|split].
  - cbn [fields_valid]. rewrite decide_False by (intros H; by apply H). rewrite (Z.mul_comm scanDir). fold d.
    by rewrite (proj2 Hw').
  - by constructor.
  - intros [|x key] Hok; [done|]. apply Forall_cons in Hok as [Hx Hok].
    cbn [directions List.map length replicate key_in]. fold d. fold (directions kp scanDir). rewrite Hx', Hk by done. done.
Qed.

(** C24. [alignBounds] turns bounds for ascending fields into bounds for the scan: for lists
    that are valid for ascending scans and named like the key pattern, its [invariant] holds,
    and the new bounds contain the same keys when read in the directions of the scan. *)
Theorem alignBounds_keeps_keys (kp : list field) (b : IndexBounds) :
  Forall2 (fun (e : field) oil => name oil = e.1 /\ well_formed 1 oil) kp (fields b) -> isSimpleRange b = false ->
  exists b', alignBounds D kp scanDir b = Some b' /\ isValidFor D kp scanDir b' = Some true /\
    Forall2 (fun d oil => well_formed d oil) (directions kp scanDir) (fields b') /\
    forall key, Forall (fun x : field => key_ok x.2) key ->
      key_in D (directions kp scanDir) (fields b') key = key_in D (replicate (length kp) 1) (fields b) key.
Proof.
  intros H Hs. destruct (align_loop_keeps kp (fields b) H) as (oils & E & Hv & Hf & Hk).
  unfold alignBounds, isValidFor. rewrite E. cbn [mbind option_bind isSimpleRange fields].
  rewrite Hs. cbn [mbind option_bind]. rewrite Hv. eexists. split; [reflexivity|]. cbn [isSimpleRange fields].
  rewrite Hv. auto.
Qed.
End align.
End theorems.

(** ** Concrete lists *)

(** A stable sort by start. *)
Fixpoint insert_interval (i : Interval) (l : list Interval) : list Interval :=
  match l with
  | [] => [i]
  | j :: l' => if IntervalComparison_lt Pattern.no_decimal i j then i :: l else j :: insert_interval i l'
  end.
Definition insertion_sort (l : list Interval) : list Interval := foldr insert_interval [] l.

Definition int_interval (a b : Z) (si ei : bool) : Interval :=
  mkInterval [([], VInt a); ([], VInt b)] (Some ([], VInt a)) si (Some ([], VInt b)) ei.
(** [5, 9), [3, 5), [1, 3]: one interval. *)
Definition demo_oil : OrderedIntervalList :=
  mkOIL [int_interval 5 9 true false; int_interval 3 5 true false; int_interval 1 3 true true] [97].
(** [1, 3), (3, 8]. *)
Definition demo_split : OrderedIntervalList := mkOIL [int_interval 1 3 true false; int_interval 3 8 false true] [97].
(** [2, 3], [6, 10). *)
Definition demo_other : OrderedIntervalList := mkOIL [int_interval 2 3 true true; int_interval 6 10 true false] [97].

Lemma int_ok (a : Z) : - 2 ^ 31 <= a < 2 ^ 31 -> key_ok (VInt a).
Proof. intros H. split; [cbn; lia|done]. Qed.
Ltac solve_intervals := repeat (apply Forall_cons; split; [split; apply int_ok; cbn; lia|]); apply Forall_nil; exact I.
Lemma demo_split_ok : well_formed Pattern.no_decimal 1 demo_split.
Proof. split; [solve_intervals|vm_compute; reflexivity]. Qed.
Lemma demo_other_ok : well_formed Pattern.no_decimal 1 demo_other.
Proof. split; [solve_intervals|vm_compute; reflexivity]. Qed.

Lemma unionize_exact_witness :
  exists oil', unionize Pattern.no_decimal insertion_sort demo_oil = Some oil' /\ length (intervals oil') = 1%nat /\
    in_intervals Pattern.no_decimal 1 (intervals oil') ([], VInt 9) = false /\
    in_intervals Pattern.no_decimal 1 (intervals oil') ([], VDouble [0; 0; 0; 0; 0; 0; 33; 64]) = true.
Proof.
  destruct (unionize_exact Pattern.no_decimal insertion_sort demo_oil) as (oil' & E & _ & _ & _ & Hx).
  - vm_compute. apply (reverse_Permutation [_; _; _]).
  - repeat constructor.
  - repeat (apply Forall_cons; split; [split; [split; apply int_ok; cbn; lia|vm_compute; reflexivity]|]). apply Forall_nil; exact I.
  - exists oil'. split; [exact E|]. rewrite !Hx by (apply int_ok; lia || (split; [solve_wf|done])).
    vm_compute in E. injection E as <-. vm_compute. auto.
Defined.
Lemma intersectize_exact_witness :
  exists oil', intersectize Pattern.no_decimal demo_split demo_other = Some oil' /\ length (intervals oil') = 2%nat /\
    in_intervals Pattern.no_decimal 1 (intervals oil') ([], VInt 3) = false /\
    in_intervals Pattern.no_decimal 1 (intervals oil') ([], VInt 8) = true.
Proof.
  destruct (intersectize_exact Pattern.no_decimal demo_split demo_other) as (oil' & E & _ & _ & Hx);
    [reflexivity|exact demo_split_ok|exact demo_other_ok|].
  exists oil'. split; [exact E|]. rewrite !Hx by (apply int_ok; lia).
  vm_compute in E. injection E as <-. vm_compute. auto.
Defined.
Lemma complement_exact_witness :
  exists oil', complement Pattern.no_decimal demo_split = Some oil' /\ length (intervals oil') = 3%nat /\
    in_intervals Pattern.no_decimal 1 (intervals oil') ([], VInt 3) = true /\
    in_intervals Pattern.no_decimal 1 (intervals oil') ([], VInt 8) = false.
Proof.
  destruct (complement_exact Pattern.no_decimal demo_split demo_split_ok) as (oil' & E & _ & _ & Hx);
    [by repeat constructor|].
  exists oil'. split; [exact E|]. rewrite !Hx by (apply int_ok; lia).
  vm_compute in E. injection E as <-. vm_compute. auto.
Defined.

(** A scan backwards over an index on [a] ascending and [b] descending. *)
Definition demo_pattern : list field := [([97], VInt 1); ([98], VInt (-1))].
Definition demo_bounds : IndexBounds :=
  mkBounds [demo_split; mkOIL (intervals demo_other) [98]] false [] [] kIncludeBothStartAndEndKeys.
Lemma alignBounds_keeps_keys_witness :
  exists b', alignBounds Pattern.no_decimal demo_pattern (-1) demo_bounds = Some b' /\
    key_in Pattern.no_decimal [-1; 1] (fields b') [([], VInt 8); ([], VInt 3)] = true /\
    key_in Pattern.no_decimal [-1; 1] (fields b') [([], VInt 3); ([], VInt 3)] = false.
Proof.
  destruct (alignBounds_keeps_keys Pattern.no_decimal (-1) ltac:(auto) demo_pattern demo_bounds) as (b' & E & _ & _ & Hk).
  - constructor; [split; [reflexivity|exact demo_split_ok]|]. constructor; [split; [reflexivity|exact demo_other_ok]|constructor].
  - reflexivity.
  - exists b'. split; [exact E|]. change [-1; 1] with (directions Pattern.no_decimal demo_pattern (-1)).
    rewrite !Hk by (repeat (apply Forall_cons; split; [apply int_ok; cbn; lia|]); apply Forall_nil; exact I).
    vm_compute. auto.
Defined.

End Sets.
