(* ===== verification/BoundsChecker.v ===== *)
(** * Checking the keys of a scan against its bounds

    [IndexBoundsChecker] of [db/query/index_bounds.cpp] and the query objects of
    [db/storage/index_entry_comparison.cpp]: [Module Chk] holds the definitions,
    [Module Guide] the theorems, that the checker accepts exactly the keys in the bounds and
    that the seek points it hands out pass over no key in the bounds. *)
From Stdlib Require Import ZArith Lia Bool.
From stdpp Require Import base list option sorting.
From S2P Require Import Prelude StringData Bson BsonCompare KeyString KeyStringOrder KeyStringRefine IndexBounds.
Open Scope Z_scope.

Module Chk.
Import IB.

Inductive Location := BEHIND | WITHIN | AHEAD.
#[export] Instance Location_eq_dec : EqDecision Location.
Proof. solve_decision. Defined.
Inductive KeyState := VALID | MUST_ADVANCE | DONE.

(** [keySuffix] holds pointers to elements. *)
Record IndexSeekPoint := mkSeekPoint {
  keyPrefix : list field;
  prefixLen : nat;
  prefixExclusive : bool;
  keySuffix : list (option elt);
  suffixInclusive : list bool
}.
Definition IndexSeekPoint_init : IndexSeekPoint := mkSeekPoint [] 0 false [] [].

Record IndexBoundsChecker := mkChecker {
  _bounds : IndexBounds;
  _curInterval : list nat;
  _expectedDirection : list Z
}.
Definition with_cur (cur : list nat) (c : IndexBoundsChecker) : IndexBoundsChecker :=
  mkChecker (_bounds c) cur (_expectedDirection c).

(** [std::vector::resize]. *)
Definition resize {A} (n : nat) (dflt : A) (v : list A) : list A := take n v ++ replicate (n - length v) dflt.

(** [std::lower_bound] over the indices of a vector: the first index in [[first, first + len)] that
    [comp] does not hold of; [comp] returns [None] out of range. *)
Fixpoint lower_bound (fuel : nat) (comp : nat -> option bool) (first len : nat) : option nat :=
  match fuel with
  | O => None
  | S fuel' =>
      if (len =? 0)%nat then Some first
      else
        let half := (len / 2)%nat in
        let middle := (first + half)%nat in
        c ← comp middle;
        if (c : bool) then lower_bound fuel' comp (middle + 1) (len - half - 1)
        else lower_bound fuel' comp first half
  end.

Section checker.
Variable D : Cmp.Decimal128.

Definition make_checker (bounds : IndexBounds) (keyPattern : list field) (scanDirection : Z) : IndexBoundsChecker :=
  mkChecker bounds (replicate (length (fields bounds)) 0%nat)
    (List.map (fun e => direction_of D e * scanDirection) keyPattern).

Definition intervalCmp (interval : Interval) (key : field) (expectedDirection : Z) : Location :=
  let cmp := Z.sgn (woCompare D false (Some key) (start interval)) in
  let startOK := (cmp =? expectedDirection) || ((cmp =? 0) && startInclusive interval) in
  if negb startOK then BEHIND
  else
    let cmp := Z.sgn (woCompare D false (Some key) (end_ interval)) in
    let endOK := (cmp =? - expectedDirection) || ((cmp =? 0) && endInclusive interval) in
    if negb endOK then AHEAD else WITHIN.

(** [getStartSeekPoint]; [None] is its result [false]. *)
Fixpoint start_suffix (oils : list OrderedIntervalList) : option (list (option elt) * list bool) :=
  match oils with
  | [] => Some ([], [])
  | oil :: oils' =>
      i ← head (intervals oil);
      '(ks, si) ← start_suffix oils';
      Some (Some (start i) :: ks, startInclusive i :: si)
  end.
Definition getStartSeekPoint (c : IndexBoundsChecker) (out : IndexSeekPoint) : option IndexSeekPoint :=
  '(ks, si) ← start_suffix (fields (_bounds c));
  Some (mkSeekPoint (keyPrefix out) 0 false ks si).

(** The first field from [i] on that is not in its current interval. *)
Fixpoint leftmost_problem (c : IndexBoundsChecker) (keyValues : list field) (i : nat) (cur : list nat) :
    option (option (nat * Location)) :=
  match cur with
  | [] => Some None
  | ci :: cur' =>
      field ← fields (_bounds c) !! i;
      currentInterval ← intervals field !! ci;
      k ← keyValues !! i;
      d ← _expectedDirection c !! i;
      match intervalCmp currentInterval k d with
      | WITHIN => leftmost_problem c keyValues (S i) cur'
      | cmp => Some (Some (i, cmp))
      end
  end.
Definition findLeftmostProblem (c : IndexBoundsChecker) (keyValues : list field) : option (option (nat * Location)) :=
  leftmost_problem c keyValues 0 (_curInterval c).

(** [n] fields from [i] on; the size of a list of intervals minus one wraps around. *)
Fixpoint space_left (n i : nat) (c : IndexBoundsChecker) (keyValues : list field) : option bool :=
  match n with
  | O => Some false
  | S n' =>
      field ← fields (_bounds c) !! i;
      ci ← _curInterval c !! i;
      if negb (Z.of_nat ci =? wrapu 64 (Z.of_nat (length (intervals field)) - 1)) then Some true
      else
        ival ← intervals field !! ci;
        if negb (endInclusive ival) then Some true
        else
          k ← keyValues !! i;
          d ← _expectedDirection c !! i;
          if - d =? Z.sgn (woCompare D false (Some k) (end_ ival)) then Some true
          else space_left n' (S i) c keyValues
  end.
Definition spaceLeftToAdvance (fieldsToCheck : nat) (c : IndexBoundsChecker) (keyValues : list field) : option bool :=
  space_left fieldsToCheck 0 c keyValues.

Definition isKeyAheadOfInterval (interval : Interval) (elt : field) (expectedDirection : Z) : bool :=
  bool_decide (intervalCmp interval elt expectedDirection = AHEAD).

(** [findIntervalForField]: the location and [newIntervalIndex], which is not set when the
    key is ahead of all intervals; [None] is the failed [invariant]. *)
Definition findIntervalForField (elt : field) (oil : OrderedIntervalList) (expectedDirection : Z) :
    option (Location * option nat) :=
  let n := length (intervals oil) in
  i ← lower_bound (S n) (fun m => iv ← intervals oil !! m; Some (isKeyAheadOfInterval iv elt expectedDirection)) 0 n;
  if (i =? n)%nat then Some (AHEAD, None)
  else
    iv ← intervals oil !! i;
    let where_ := intervalCmp iv elt expectedDirection in
    if decide (where_ = AHEAD) then None else Some (where_, Some i).

Fixpoint valid_from (c : IndexBoundsChecker) (key : list field) (curOil : nat) : option bool :=
  match key with
  | [] => Some true
  | elt :: key' =>
      oil ← fields (_bounds c) !! curOil;
      d ← _expectedDirection c !! curOil;
      '(loc, _) ← findIntervalForField elt oil d;
      if decide (loc <> WITHIN) then Some false else valid_from c key' (S curOil)
  end.
Definition isValidKey (c : IndexBoundsChecker) (key : list field) : option bool := valid_from c key 0.

(** The loops of [checkKey] that restart the intervals from field [i] on, and that fill the
    suffix of the seek point with the starts of [n] current intervals. *)
Definition restart_from (i : nat) (cur : list nat) : list nat := take i cur ++ replicate (length cur - i) 0%nat.
Fixpoint fill_suffix (n j : nat) (oils : list OrderedIntervalList) (cur : list nat) (out : IndexSeekPoint) :
    option IndexSeekPoint :=
  match n with
  | O => Some out
  | S n' =>
      oil ← oils !! j;
      cj ← cur !! j;
      iv ← intervals oil !! cj;
      fill_suffix n' (S j) oils cur
        (mkSeekPoint (keyPrefix out) (prefixLen out) (prefixExclusive out)
           (<[j := Some (start iv)]> (keySuffix out)) (<[j := startInclusive iv]> (suffixInclusive out)))
  end.
(** The caller is told to move to the starts of the current intervals from field [f] on. *)
Definition advance_to_starts (key : list field) (f : nat) (cur : list nat) (c : IndexBoundsChecker)
    (out : IndexSeekPoint) : option (KeyState * IndexBoundsChecker * IndexSeekPoint) :=
  out ← fill_suffix (length cur - f) f (fields (_bounds c)) cur
    (mkSeekPoint key f false (keySuffix out) (suffixInclusive out));
  Some (MUST_ADVANCE, with_cur cur c, out).

(** The loop of [checkKey] over the [n] fields from [f] on. *)
Fixpoint ahead_loop (n f : nat) (key : list field) (c : IndexBoundsChecker) (out : IndexSeekPoint) :
    option (KeyState * IndexBoundsChecker * IndexSeekPoint) :=
  match n with
  | O => Some (VALID, c, out)
  | S n' =>
      k ← key !! f;
      oil ← fields (_bounds c) !! f;
      d ← _expectedDirection c !! f;
      '(where_, newIntervalForField) ← findIntervalForField k oil d;
      match where_ with
      | WITHIN =>
          i ← newIntervalForField;
          ahead_loop n' (S f) key (with_cur (<[f := i]> (_curInterval c)) c) out
      | BEHIND =>
          i ← newIntervalForField;
          advance_to_starts key f (restart_from (S f) (<[f := i]> (_curInterval c))) c out
      | AHEAD =>
          space ← spaceLeftToAdvance f c key;
          if negb space then Some (DONE, c, out)
          else
            Some (MUST_ADVANCE, with_cur (restart_from f (_curInterval c)) c,
                  mkSeekPoint key f true (keySuffix out) (suffixInclusive out))
      end
  end.

(** [checkKey]; [None] is a failed [verify]. *)
Definition checkKey (c : IndexBoundsChecker) (key : list field) (out : IndexSeekPoint) :
    option (KeyState * IndexBoundsChecker * IndexSeekPoint) :=
  let n := length (_curInterval c) in
  if (n =? 0)%nat then None
  else
    let out := mkSeekPoint (keyPrefix out) (prefixLen out) (prefixExclusive out)
                 (resize n None (keySuffix out)) (resize n false (suffixInclusive out)) in
    if negb (length key =? n)%nat then None
    else
      problem ← findLeftmostProblem c key;
      match problem with
      | None => Some (VALID, c, out)
      | Some (f, AHEAD) => ahead_loop (n - f) f key c out
      | Some (f, _) =>
          let c := with_cur (restart_from f (_curInterval c)) c in
          problem ← findLeftmostProblem c key;
          match problem with
          | None => Some (VALID, c, out)
          | Some (f, AHEAD) => ahead_loop (n - f) f key c out
          | Some (f, _) => advance_to_starts key f (_curInterval c) c out
          end
      end.

(** ** Query objects *)

(** The first byte of the name of a field; an empty name has the NUL. *)
Definition name_byte (name : bytes) : Z := default 0 (head name).

(** [IndexEntryComparison::compare]; a null [RecordId] is 0; [None] is a failed [invariant]. *)
Fixpoint compare_fields (ord mask : Z) (lhs rhs : list field) (lloc rloc : Z) : option Z :=
  match lhs with
  | [] =>
      match rhs with
      | _ :: _ => Some (-1)
      | [] => if (lloc =? 0) || (rloc =? 0) then Some 0 else Some (Cmp.compareLongs lloc rloc)
      end
  | l :: lhs' =>
      match rhs with
      | [] => Some (if Cmp.descending ord mask then -1 else 1)
      | r :: rhs' =>
          cmp ← Cmp.elem_woCompare (Cmp.compareElementValues D None) false l r;
          if negb (cmp =? 0) then
            let cmp := if cmp =? - 2 ^ 31 then -1 else cmp in
            Some (if Cmp.descending ord mask then - cmp else cmp)
          else
            let lEq := name_byte l.1 in
            let rEq := name_byte r.1 in
            if negb (lEq =? 0) then
              if rEq =? 0 then Some (if lEq =? KS.char_l then -1 else 1) else None
            else if negb (rEq =? 0) then Some (if rEq =? KS.char_l then 1 else -1)
            else compare_fields ord (wrapu 32 (Z.shiftl mask 1)) lhs' rhs' lloc rloc
      end
  end.
Definition entry_compare (ord : Z) (lhs rhs : list field * Z) : option Z :=
  compare_fields ord 1 lhs.1 rhs.1 lhs.2 rhs.2.

(** [makeQueryObject]: the prefix, then the suffix up to its first exclusive field. *)
Fixpoint query_prefix (n : nat) (exclusive : bool) (exclusiveFieldName : bytes) (prefix : list field) : option (list field) :=
  match n with
  | O => Some []
  | S n' =>
      match prefix with
      | [] => None
      | e :: prefix' =>
          rest ← query_prefix n' exclusive exclusiveFieldName prefix';
          Some ((if exclusive && (n' =? 0)%nat then exclusiveFieldName else [], e.2) :: rest)
      end
  end.
Fixpoint query_suffix (exclusiveFieldName : bytes) (suffix : list (option elt)) (inclusive : list bool) : option (list field) :=
  match suffix, inclusive with
  | [], [] => Some []
  | e :: suffix', i :: inclusive' =>
      e ← e; e ← e;
      if (i : bool) then
        rest ← query_suffix exclusiveFieldName suffix' inclusive';
        Some (([], e.2) :: rest)
      else Some [(exclusiveFieldName, e.2)]
  | _, _ => None
  end.
Definition makeQueryObject (p : IndexSeekPoint) (isForward : bool) : option (list field) :=
  let exclusiveFieldName := [if isForward then KS.char_g else KS.char_l] in
  prefix ← query_prefix (prefixLen p) (prefixExclusive p) exclusiveFieldName (keyPrefix p);
  if prefixExclusive p then if (0 <? prefixLen p)%nat then Some prefix else None
  else if (length (keySuffix p) =? length (suffixInclusive p))%nat then
    suffix ← query_suffix exclusiveFieldName (drop (prefixLen p) (keySuffix p)) (drop (prefixLen p) (suffixInclusive p));
    Some (prefix ++ suffix)
  else None.

End checker.
End Chk.

(** ** What the checker promises *)
Module Guide.
Import IB Chk Rank Sets Enc.

(** The key [k] is at or past the query [q] in a scan whose fields go in [dirs]; a query
    that names a field excludes what is equal to it there. *)
Fixpoint reaches (D : Cmp.Decimal128) (dirs : list Z) (q k : list field) : bool :=
  match q, dirs, k with
  | [], _, _ => true
  | e :: q', d :: dirs', y :: k' =>
      let c := woCompare D false (Some e) (Some y) in
      if c =? 0 then if decide (e.1 = []) then reaches D dirs' q' k' else false else d * c <? 0
  | _, _, _ => false
  end.

(** A query may name its last field. *)
Fixpoint query_names (nm : bytes) (q : list field) : Prop :=
  match q with
  | [] => True
  | [(n, _)] => n = [] \/ n = nm
  | (n, _) :: q' => n = [] /\ query_names nm q'
  end.
(** The values of a query: fields of a key, or starts of the intervals for them. *)
Definition query_over (oils : list OrderedIntervalList) (key q : list field) : Prop :=
  forall i e, q !! i = Some e -> (exists x, key !! i = Some x /\ e.2 = x.2) \/
    (exists oil iv s, oils !! i = Some oil /\ iv ∈ intervals oil /\ start iv = Some s /\ e.2 = s.2).

(** The current interval of every field exists. *)
Definition in_range (cur : list nat) (oils : list OrderedIntervalList) : Prop :=
  Forall2 (fun c oil => (c < length (intervals oil))%nat) cur oils.

(** *** Searching *)

Lemma lower_bound_spec (comp : nat -> option bool) (b : nat -> bool) (fuel : nat) : forall first len, (len < fuel)%nat ->
  (forall m, (first <= m < first + len)%nat -> comp m = Some (b m)) ->
  (forall m m', (first <= m < m')%nat -> (m' < first + len)%nat -> b m' = true -> b m = true) ->
  exists i, lower_bound fuel comp first len = Some i /\ (first <= i <= first + len)%nat /\
    (forall m, (first <= m < i)%nat -> b m = true) /\ (forall m, (i <= m < first + len)%nat -> b m = false).
Proof.
  induction fuel as [|fuel IH]; intros first len Hfuel Hc Hm; [lia|]. cbn [lower_bound]. cbv zeta.
  destruct (Nat.eqb_spec len 0) as [->|Hl].
  { exists first. split; [done|]. split; [lia|]. split; intros; lia. }
  assert (len / 2 < len)%nat by (apply Nat.div_lt; lia).
  set (half := (len / 2)%nat) in *. rewrite (Hc (first + half)%nat) by lia. cbn [mbind option_bind].
  destruct (b (first + half)%nat) eqn:Eb.
  - destruct (IH (first + half + 1)%nat (len - half - 1)%nat) as (i & Ei & Hi & H1 & H2);
      [lia|intros; apply Hc; lia|intros m m' ? ?; apply Hm; lia|].
    exists i. split; [done|]. split; [lia|]. split; [|intros; apply H2; lia]. intros m Hmi.
    destruct (Nat.lt_trichotomy m (first + half)) as [H'|[->|H']]; [|done|apply H1; lia].
    apply (Hm m (first + half)%nat); [lia|lia|done].
  - destruct (IH first half) as (i & Ei & Hi & H1 & H2); [lia|intros; apply Hc; lia|intros m m' ? ?; apply Hm; lia|].
    exists i. split; [done|]. split; [lia|]. split; [done|]. intros m Hmi.
    destruct (Nat.lt_ge_cases m (first + half)); [apply H2; lia|].
    destruct (Nat.eq_dec m (first + half)%nat) as [->|]; [done|].
    destruct (b m) eqn:E; [|done]. rewrite (Hm (first + half)%nat m) in Eb; [done|lia|lia|done].
Qed.

Lemma sorted_lookup {A} (R : A -> A -> Prop) (l : list A) (i j : nat) (x y : A) : StronglySorted R l ->
  l !! i = Some x -> l !! j = Some y -> (i < j)%nat -> R x y.
Proof.
  intros Hs. revert i j. induction Hs as [|z l _ IH Hz]; intros i j Hi Hj Hij; [done|].
  destruct i as [|i], j as [|j]; try lia; cbn in *.
  - injection Hi as ->. rewrite Forall_forall in Hz. apply Hz. by eapply list_elem_of_lookup_2.
  - by apply (IH i j); [| |lia].
Qed.

Section ints.
Variable D : Cmp.Decimal128.
Variable L : list value.
Variable rk : value -> Z.
Hypothesis Hrk : ranks D L rk.
Abbreviation known := (bounded (fun v => v ∈ L)).

(** *** One field *)
Section field.
Variable d : Z.
Hypothesis Hd : d = 1 \/ d = -1.

Lemma intervalCmp_ints (x : field) (i : Interval) : x.2 ∈ L -> known i ->
  intervalCmp D i x d = if 2 * (d * rk x.2) <? lo rk d i then BEHIND else if hi rk d i <? 2 * (d * rk x.2) then AHEAD else WITHIN.
Proof.
  intros Hx (s & e & Es & Ee & Hs & He)%known_ends. unfold intervalCmp. cbv zeta. rewrite Es, Ee.
  rewrite (Hrk x s Hx Hs), (Hrk x e Hx He). unfold lo, hi. rewrite Es, Ee. cbn [erank].
  destruct (startInclusive i), (endInclusive i); cbn [negb Z.b2z andb]; destruct Hd as [-> | ->];
    repeat case_match; try done; lia.
Qed.

Variable ivs : list Interval.
Hypothesis Hk : Forall known ivs.
Hypothesis Ho : scan_order rk d ivs.
Lemma ordered_pair (i j : nat) (a b : Interval) : ivs !! i = Some a -> ivs !! j = Some b -> (i < j)%nat ->
  hi rk d a <= lo rk d b.
Proof.
  intros Ha Hb Hij. pose proof (sorted_lookup _ _ _ _ _ _ (proj2 Ho) Ha Hb Hij) as H. cbv beta in H. unfold lo, hi.
  destruct (startInclusive b), (endInclusive a); cbn [negb Z.b2z]; lia.
Qed.
Lemma nonempty (i : nat) (a : Interval) : ivs !! i = Some a -> lo rk d a <= hi rk d a.
Proof. intros Ha. destruct Ho as [H _]. rewrite Forall_forall in H. apply H. by eapply list_elem_of_lookup_2. Qed.
Lemma first_starts (a b : Interval) : ivs !! 0%nat = Some a -> b ∈ ivs -> lo rk d a <= lo rk d b.
Proof.
  intros Ha [j Hj]%list_elem_of_lookup_1. destruct j as [|j]; [by simplify_eq|].
  pose proof (ordered_pair 0 (S j) a b Ha Hj ltac:(lia)). pose proof (nonempty 0 a Ha). lia.
Qed.
Lemma last_ends (i : nat) (a b : Interval) : ivs !! i = Some a -> i = (length ivs - 1)%nat -> b ∈ ivs -> hi rk d b <= hi rk d a.
Proof.
  intros Ha Hi [j Hj]%list_elem_of_lookup_1. destruct (Nat.eq_dec j i) as [->|Hne]; [by simplify_eq|].
  pose proof (lookup_lt_Some _ _ _ Hj). pose proof (ordered_pair j i b a Hj Ha ltac:(lia)). pose proof (nonempty i a Ha). lia.
Qed.

Variable x : field.
Hypothesis Hx : x.2 ∈ L.
Let p := 2 * (d * rk x.2).

(** The three answers of the search. *)
Inductive located : Location * option nat -> Prop :=
  | located_ahead : (forall iv, iv ∈ ivs -> hi rk d iv < p) -> located (AHEAD, None)
  | located_within i iv : ivs !! i = Some iv -> inside rk d iv x.2 = true -> located (WITHIN, Some i)
  | located_behind i iv : ivs !! i = Some iv -> p < lo rk d iv ->
      (forall iv', iv' ∈ ivs -> hi rk d iv' < p \/ lo rk d iv <= lo rk d iv') -> located (BEHIND, Some i).

Lemma find_ints (nm : bytes) : exists r, findIntervalForField D x (mkOIL ivs nm) d = Some r /\ located r.
Proof.
  set (b := fun m => match ivs !! m with Some iv => hi rk d iv <? p | None => false end).
  assert (Hcmp : forall m iv, ivs !! m = Some iv -> isKeyAheadOfInterval D iv x d = b m).
  { intros m iv Hm. unfold isKeyAheadOfInterval, b. rewrite Hm, intervalCmp_ints by (done || (rewrite Forall_forall in Hk; apply Hk; by eapply list_elem_of_lookup_2)).
    fold p. pose proof (nonempty m iv Hm).
    destruct (Z.ltb_spec p (lo rk d iv)), (Z.ltb_spec (hi rk d iv) p); try done; lia. }
  unfold findIntervalForField. cbn [intervals]. cbv zeta.
  destruct (lower_bound_spec (fun m => iv ← ivs !! m; Some (isKeyAheadOfInterval D iv x d)) b (S (length ivs)) 0 (length ivs))
    as (i & -> & Hi & H1 & H2); [lia| | |].
  { intros m Hm. destruct (ivs !! m) as [iv|] eqn:E; [|apply lookup_ge_None in E; lia]. cbn. by rewrite (Hcmp m iv). }
  { intros m m' Hm Hm'. unfold b. destruct (ivs !! m') as [a'|] eqn:E'; [|done].
    destruct (ivs !! m) as [a|] eqn:E; [|apply lookup_ge_None in E; lia].
    pose proof (ordered_pair m m' a a' E E' ltac:(lia)). pose proof (nonempty m' a' E'). lia. }
  cbn [mbind option_bind]. cbn [Nat.add] in *. destruct (Nat.eqb_spec i (length ivs)) as [Hn|Hn].
  - eexists. split; [reflexivity|]. constructor. intros iv [j Hj]%list_elem_of_lookup_1.
    pose proof (lookup_lt_Some _ _ _ Hj). specialize (H1 j ltac:(lia)). unfold b in H1. rewrite Hj in H1. lia.
  - destruct (ivs !! i) as [iv|] eqn:E; [|apply lookup_ge_None in E; lia]. cbn [mbind option_bind].
    specialize (H2 i ltac:(lia)). unfold b in H2. rewrite E in H2.
    rewrite intervalCmp_ints by (done || (rewrite Forall_forall in Hk; apply Hk; by eapply list_elem_of_lookup_2)).
    fold p. rewrite H2.
    destruct (Z.ltb_spec p (lo rk d iv)) as [Hlt|Hge]; (rewrite decide_False by done; eexists; split; [reflexivity|]).
    + apply (located_behind i iv); [done|done|]. intros iv' [j Hj]%list_elem_of_lookup_1.
      destruct (Nat.lt_ge_cases j i).
      * left. specialize (H1 j ltac:(lia)). unfold b in H1. rewrite Hj in H1. lia.
      * right. destruct (Nat.eq_dec j i) as [->|]; [by simplify_eq|].
        pose proof (ordered_pair i j iv iv' E Hj ltac:(lia)). pose proof (nonempty i iv E). lia.
    + apply (located_within i iv); [done|]. unfold inside. fold p. lia.
Qed.

End field.

(** *** Keys in scan order *)

Fixpoint scan_cmp (dirs : list Z) (a b : list field) : Z :=
  match dirs, a, b with
  | d :: dirs', x :: a', y :: b' =>
      let c := d * (rk x.2 - rk y.2) in if c =? 0 then scan_cmp dirs' a' b' else c
  | _, _, _ => 0
  end.

Abbreviation unit d := (d = 1 \/ d = -1).
Abbreviation in_L := (Forall (fun x : field => x.2 ∈ L)).

(** The comparison of one field of a query. *)
Lemma wo_ints (e y : field) (d : Z) : e.2 ∈ L -> y.2 ∈ L -> unit d ->
  (woCompare D false (Some e) (Some y) =? 0) = (d * (rk e.2 - rk y.2) =? 0) /\
  (d * woCompare D false (Some e) (Some y) <? 0) = (d * (rk e.2 - rk y.2) <? 0).
Proof. intros He Hy Hd. pose proof (Hrk e y He Hy). destruct Hd as [-> | ->]; lia. Qed.

Lemma reaches_split (q1 : list field) : forall dirs q2 k, in_L q1 -> in_L k -> Forall (fun d => unit d) dirs ->
  Forall (fun e : field => e.1 = []) q1 -> (length q1 <= length dirs)%nat -> (length q1 <= length k)%nat ->
  reaches D dirs (q1 ++ q2) k =
    let c := scan_cmp dirs q1 k in
    if c =? 0 then reaches D (drop (length q1) dirs) q2 (drop (length q1) k) else c <? 0.
Proof.
  induction q1 as [|e q1 IH]; intros dirs q2 k Hq Hk Hd Hn Hl1 Hl2.
  { cbn [app scan_cmp length drop]. destruct dirs, k; reflexivity. }
  destruct dirs as [|d dirs], k as [|y k]; cbn [length] in *; try lia.
  apply Forall_cons in Hq as [He Hq], Hk as [Hy Hk], Hd as [Hd Hds], Hn as [Hn Hns].
  cbn [app reaches scan_cmp length drop]. cbv zeta. destruct (wo_ints e y d He Hy Hd) as [-> ->].
  destruct (d * (rk e.2 - rk y.2) =? 0) eqn:E; [|by rewrite E]. rewrite decide_True by done.
  by rewrite IH by (done || lia).
Qed.

(** Fields that are nowhere before those of another key. *)
Lemma scan_cmp_nonneg (a b : list field) : forall dirs,
  (forall i d x y, dirs !! i = Some d -> a !! i = Some x -> b !! i = Some y -> d * rk y.2 <= d * rk x.2) ->
  0 <= scan_cmp dirs a b.
Proof.
  revert b. induction a as [|x a IH]; intros b dirs H; [destruct dirs; done|].
  destruct dirs as [|d dirs]; [done|]. destruct b as [|y b]; [done|]. cbn [scan_cmp]. cbv zeta.
  pose proof (H 0%nat d x y eq_refl eq_refl eq_refl). destruct (Z.eqb_spec (d * (rk x.2 - rk y.2)) 0); [|lia].
  apply IH. intros i d' x' y' H1 H2 H3. by apply (H (S i)).
Qed.

Lemma key_in_lookup (oils : list OrderedIntervalList) : forall dirs key, length dirs = length oils -> length key = length oils ->
  key_in D dirs oils key = true <->
  forall i oil d x, oils !! i = Some oil -> dirs !! i = Some d -> key !! i = Some x -> in_intervals D d (intervals oil) x = true.
Proof.
  induction oils as [|oil oils IH]; intros [|d dirs] [|x key] H1 H2; cbn [length] in *; try lia.
  { cbn. split; [by intros _ i|done]. }
  cbn [key_in]. rewrite andb_true_iff, IH by lia. split.
  - intros [Hx Hk] [|i] oil' d' x' Ho Hd Hx'; cbn in *; [by simplify_eq|by apply (Hk i)].
  - intros H. split; [by apply (H 0%nat)|]. intros i ? ? ? ? ? ?. by apply (H (S i)).
Qed.

(** *** Seek points *)

(** The query [q] leads to the starts of the intervals [civs]. *)
Definition leads_to (nm : bytes) (civs : list Interval) (q : list field) : Prop :=
  query_names nm q /\ (length q <= length civs)%nat /\
  (forall i e, q !! i = Some e -> exists iv s, civs !! i = Some iv /\ start iv = Some s /\ e.2 = s.2) /\
  (forall dirs k, length dirs = length civs -> Forall (fun d => unit d) dirs -> in_L k -> length k = length civs ->
    (forall i iv d y, civs !! i = Some iv -> dirs !! i = Some d -> k !! i = Some y -> lo rk d iv <= 2 * (d * rk y.2)) ->
    reaches D dirs q k = true) /\
  (forall iv d dirs x k, head civs = Some iv -> unit d -> x.2 ∈ L -> 2 * (d * rk x.2) < lo rk d iv ->
    reaches D (d :: dirs) q (x :: k) = false).

Lemma leads_to_nil (nm : bytes) : leads_to nm [] [].
Proof.
  split; [done|]. split; [done|]. split; [by intros i|]. split; [|done].
  intros dirs k _ _ _ _ _. destruct dirs; reflexivity.
Qed.
(** An inclusive start, and what is behind it; an exclusive start alone. *)
Lemma leads_to_cons (nm n : bytes) (iv : Interval) (civs : list Interval) (q q' : list field) (s : field) :
  nm <> [] -> leads_to nm civs q -> start iv = Some s -> s.2 ∈ L ->
  (startInclusive iv = true /\ n = [] /\ q' = q) \/ (startInclusive iv = false /\ n = nm /\ q' = []) ->
  leads_to nm (iv :: civs) ((n, s.2) :: q').
Proof.
  intros Hnm (Hn & Hl & Hv & Hr & _) Es Hs Hc. split; [|split; [|split; [|split]]].
  - destruct Hc as [(_ & -> & ->)|(_ & -> & ->)]; [|by right]. cbn. destruct q; [by left|done].
  - destruct Hc as [(_ & _ & ->)|(_ & _ & ->)]; cbn; lia.
  - intros [|i] e' He; cbn in He; [injection He as <-; by exists iv, s|].
    destruct Hc as [(_ & _ & ->)|(_ & _ & ->)]; [by apply Hv|done].
  - intros [|d dirs] [|y k] H1 H2 H3 H4 H5; cbn [length] in *; try lia.
    apply Forall_cons in H2 as [Hd H2], H3 as [Hy H3]. cbn [reaches]. cbv zeta.
    destruct (wo_ints (n, s.2) y d Hs Hy Hd) as [-> ->]. pose proof (H5 0%nat iv d y eq_refl eq_refl eq_refl) as H0.
    unfold lo in H0. rewrite Es in H0. cbn [erank snd] in *.
    destruct Hc as [(Hi & -> & ->)|(Hi & -> & ->)]; rewrite Hi in H0; cbn [negb Z.b2z] in H0;
      destruct (Z.eqb_spec (d * (rk s.2 - rk y.2)) 0); [|lia|lia|lia].
    apply Hr; [lia|done|done|lia|]. intros i iv' d' y' Hiv' Hd' Hy'. by apply (H5 (S i)).
  - intros iv' d dirs x k [= <-] Hd Hx Hlt. cbn [reaches]. cbv zeta.
    destruct (wo_ints (n, s.2) x d Hs Hx Hd) as [-> ->]. unfold lo in Hlt. rewrite Es in Hlt. cbn [erank snd fst] in *.
    destruct Hc as [(Hi & -> & ->)|(Hi & -> & ->)]; rewrite Hi in Hlt; cbn [negb Z.b2z] in Hlt;
      destruct (Z.eqb_spec (d * (rk s.2 - rk x.2)) 0); [lia|lia|by rewrite decide_False|lia].
Qed.
(** The suffix of a query is the starts of intervals, up to the first exclusive one. *)
Lemma query_suffix_ints (nm : bytes) (civs : list Interval) : nm <> [] -> Forall known civs ->
  exists q, query_suffix nm ((fun iv => Some (start iv)) <$> civs) (startInclusive <$> civs) = Some q /\ leads_to nm civs q.
Proof.
  intros Hnm. induction 1 as [|iv civs Hiv _ (q & E & Hq)]; [exists []; split; [done|apply leads_to_nil]|].
  pose proof (known_ends L iv Hiv) as (s & e & Es & _ & Hs & _). cbn [fmap list_fmap query_suffix].
  pose proof (fun n q' => leads_to_cons nm n iv civs q q' s Hnm Hq Es Hs) as Hstep.
  rewrite Es. cbn [mbind option_bind]. destruct (startInclusive iv).
  - rewrite E. cbn [mbind option_bind]. exists (([], s.2) :: q). split; [done|]. apply Hstep. by left.
  - exists [(nm, s.2)]. split; [done|]. apply Hstep. by right.
Qed.

(** The fields of a key without their names. *)
Definition strip (a : list field) : list field := List.map (fun e : field => ([], e.2)) a.

Lemma strip_fields (a : list field) : in_L a -> in_L (strip a) /\ Forall (fun e : field => e.1 = []) (strip a) /\
  length (strip a) = length a /\ forall dirs b, scan_cmp dirs (strip a) b = scan_cmp dirs a b.
Proof.
  induction 1 as [|x a Hx _ (H1 & H2 & H3 & H4)]; [by repeat constructor|]. cbn [strip List.map]. fold (strip a).
  split; [by constructor|]. split; [by constructor|]. split; [cbn; lia|].
  intros [|d dirs] [|y b]; cbn [scan_cmp snd]; [done..|]. by rewrite H4.
Qed.
Lemma scan_cmp_take (a b : list field) : forall dirs n, scan_cmp dirs (take n a) (take n b) = scan_cmp dirs (take n a) b.
Proof.
  revert b. induction a as [|x a IH]; intros b dirs n; [by rewrite take_nil; destruct dirs|].
  destruct n, dirs, b; try reflexivity. cbn [take scan_cmp]. by rewrite IH.
Qed.
Lemma scan_cmp_refl (a : list field) : forall dirs n, scan_cmp dirs (take n a) a = 0.
Proof.
  induction a as [|x a IH]; intros [|d dirs] [|n]; try reflexivity. cbn [take scan_cmp].
  rewrite Z.sub_diag, Z.mul_0_r. apply IH.
Qed.
Lemma query_prefix_inclusive (nm : bytes) (a : list field) : forall n, (n <= length a)%nat ->
  query_prefix n false nm a = Some (strip (take n a)).
Proof.
  induction a as [|x a IH]; intros [|n] Hn; cbn [length] in *; try done; [lia|]. cbn [query_prefix].
  rewrite IH by lia. reflexivity.
Qed.
(** A query that excludes its last field is reached by what is behind it. *)
Lemma query_prefix_exclusive (nm : bytes) (a : list field) : nm <> [] -> in_L a -> forall n, (0 < n <= length a)%nat ->
  exists q, query_prefix n true nm a = Some q /\ query_names nm q /\ length q = n /\
    (forall i e, q !! i = Some e -> exists x, a !! i = Some x /\ e.2 = x.2) /\
    forall dirs k, Forall (fun d => unit d) dirs -> in_L k -> (n <= length dirs)%nat -> (n <= length k)%nat ->
      reaches D dirs q k = (scan_cmp dirs (take n a) k <? 0).
Proof.
  intros Hnm. induction 1 as [|x a Hx _ IH]; intros n Hn; cbn [length] in *; [lia|].
  destruct n as [|n]; [lia|]. cbn [query_prefix]. destruct (decide (n = 0)%nat) as [->|Hn0].
  - exists [(nm, x.2)]. split; [by destruct a|]. split; [by right|]. split; [done|]. split.
    + intros [|i] e He; [|done]. injection He as <-. by exists x.
    + intros [|d dirs] [|y k] Hd Hk H1 H2; cbn [length] in *; try lia.
      apply Forall_cons in Hd as [Hd _], Hk as [Hy _]. cbn [take reaches scan_cmp]. cbv zeta.
      destruct (wo_ints (nm, x.2) y d Hx Hy Hd) as [-> ->]. cbn [fst snd].
      destruct (d * (rk x.2 - rk y.2) =? 0) eqn:E; [|done]. rewrite decide_False by done. by destruct dirs.
  - destruct (IH n) as (q & E & Hq & Hl & Hv & Hr); [lia|]. rewrite E. cbn [mbind option_bind].
    replace (n =? 0)%nat with false by (symmetry; by apply Nat.eqb_neq). cbn [andb]. exists (([], x.2) :: q).
    split; [done|]. split; [by destruct q; [left|]|]. split; [cbn; lia|]. split.
    + intros [|i] e He; [injection He as <-; by exists x|]. by apply Hv.
    + intros [|d dirs] [|y k] Hd Hk H1 H2; cbn [length] in *; try lia.
      apply Forall_cons in Hd as [Hd Hds], Hk as [Hy Hk]. cbn [take reaches scan_cmp]. cbv zeta.
      destruct (wo_ints ([], x.2) y d Hx Hy Hd) as [-> ->]. cbn [fst snd].
      destruct (d * (rk x.2 - rk y.2) =? 0) eqn:E'; [|done]. apply Hr; done || lia.
Qed.

(** *** The checker *)
Section checker.
Variable forward : bool.
Let nm := [if forward then KS.char_g else KS.char_l].
Variable dirs : list Z.
Variable oils : list OrderedIntervalList.
Abbreviation n := (length oils).
Hypothesis Hdirs : length dirs = n.
Hypothesis Hunit : Forall (fun d => unit d) dirs.
Hypothesis Hknown : Forall (fun oil => Forall known (intervals oil)) oils.
Hypothesis Horder : Forall2 (fun d oil => scan_order rk d (intervals oil)) dirs oils.
Variables key k' : list field.
Hypothesis Hkey : in_L key.
Hypothesis Hkey_len : length key = n.
Hypothesis Hnames : Forall (fun e : field => e.1 = []) key.
Hypothesis Hk' : in_L k'.
Hypothesis Hk'_len : length k' = n.

(** The field at an index of everything. *)
Record at_field (i : nat) (d : Z) (oil : OrderedIntervalList) (x y : field) : Prop := mkAt {
  at_dir : dirs !! i = Some d; at_oil : oils !! i = Some oil; at_key : key !! i = Some x; at_other : k' !! i = Some y;
  at_unit : unit d; at_known : Forall known (intervals oil); at_order : scan_order rk d (intervals oil);
  at_x : x.2 ∈ L; at_y : y.2 ∈ L
}.
Lemma field_at (i : nat) : (i < n)%nat -> exists d oil x y, at_field i d oil x y.
Proof.
  intros Hi. destruct (lookup_lt_is_Some_2 oils i Hi) as [oil Eo].
  destruct (lookup_lt_is_Some_2 dirs i ltac:(lia)) as [d Ed]. destruct (lookup_lt_is_Some_2 key i ltac:(lia)) as [x Ex].
  destruct (lookup_lt_is_Some_2 k' i ltac:(lia)) as [y Ey]. exists d, oil, x, y.
  split; try done; [|by apply (Forall_lookup_1 _ _ i oil Hknown)| | |].
  - by apply (Forall_lookup_1 _ _ i d Hunit).
  - by apply (Forall2_lookup_lr _ _ _ i d oil Horder).
  - by apply (Forall_lookup_1 _ _ i x Hkey).
  - by apply (Forall_lookup_1 _ _ i y Hk').
Qed.

(** The fields before [f] are in their current intervals. *)
Definition within_before (cur : list nat) (f : nat) : Prop :=
  forall i d oil x y, (i < f)%nat -> at_field i d oil x y ->
    exists ci iv, cur !! i = Some ci /\ intervals oil !! ci = Some iv /\ inside rk d iv x.2 = true.

(** A key in the bounds, as integers. *)
Lemma other_in_bounds (i : nat) (d : Z) (oil : OrderedIntervalList) (x y : field) : at_field i d oil x y ->
  key_in D dirs oils k' = true -> exists iv, iv ∈ intervals oil /\ lo rk d iv <= 2 * (d * rk y.2) <= hi rk d iv.
Proof.
  intros A Hin. rewrite key_in_lookup in Hin by done. destruct A.
  specialize (Hin i oil d y at_oil0 at_dir0 at_other0). rewrite (in_intervals_ints D L rk Hrk) in Hin by done.
  apply existsb_exists in Hin as (iv & Hiv & Hin). exists iv. split; [by apply list_elem_of_In|]. unfold inside in Hin. lia.
Qed.
Lemma key_out_of_bounds (i : nat) (d : Z) (oil : OrderedIntervalList) (x y : field) : at_field i d oil x y ->
  (forall iv, iv ∈ intervals oil -> inside rk d iv x.2 = false) -> key_in D dirs oils key = false.
Proof.
  intros A Hout. apply not_true_iff_false. rewrite key_in_lookup by done. intros Hin. destruct A.
  specialize (Hin i oil d x at_oil0 at_dir0 at_key0). rewrite (in_intervals_ints D L rk Hrk) in Hin by done.
  apply existsb_exists in Hin as (iv & Hiv%list_elem_of_In & Hin). by rewrite Hout in Hin.
Qed.
Lemma key_in_bounds (cur : list nat) : within_before cur n -> key_in D dirs oils key = true.
Proof.
  intros Hw. rewrite key_in_lookup by done. intros i oil d x Eo Ed Ex.
  destruct (field_at i) as (d' & oil' & x' & y & A); [by eapply lookup_lt_Some|].
  pose proof A as []. simplify_eq. destruct (Hw i d oil x y) as (ci & iv & _ & Hiv & Hin); [by eapply lookup_lt_Some|done|].
  rewrite (in_intervals_ints D L rk Hrk) by done. apply existsb_exists. exists iv. split; [|done].
  apply list_elem_of_In. by eapply list_elem_of_lookup_2.
Qed.

(** The key is compared with [k'] at the fields before [f], then at [f]. *)
Lemma reaches_key (f : nat) (d : Z) (oil : OrderedIntervalList) (x y : field) : at_field f d oil x y ->
  reaches D dirs key k' = true ->
  scan_cmp dirs (take f key) k' < 0 \/ (scan_cmp dirs (take f key) k' = 0 /\ d * rk x.2 <= d * rk y.2).
Proof.
  intros A Hr. pose proof A as []. pose proof (lookup_lt_Some _ _ _ at_oil0).
  rewrite <- (take_drop f key) in Hr. rewrite reaches_split in Hr;
    [|by apply Forall_take|done|done|by apply Forall_take|rewrite length_take; lia|rewrite length_take; lia].
  rewrite length_take, Nat.min_l in Hr by lia. cbv zeta in Hr.
  destruct (Z.eqb_spec (scan_cmp dirs (take f key) k') 0) as [E|E]; [|left; lia]. right. split; [done|].
  rewrite (drop_S dirs d f), (drop_S key x f), (drop_S k' y f) in Hr by done. cbn [reaches] in Hr. cbv zeta in Hr.
  destruct (wo_ints x y d) as [H1 H2]; [done..|]. rewrite H1, H2 in Hr.
  destruct (d * (rk x.2 - rk y.2) =? 0) eqn:E'; lia.
Qed.

(** The answer to the key, as far as [k'] is concerned. *)
Definition guided (c : IndexBoundsChecker) (r : KeyState * IndexBoundsChecker * IndexSeekPoint) : Prop :=
  let '(st, c', out') := r in
  _bounds c' = _bounds c /\ _expectedDirection c' = dirs /\ in_range (_curInterval c') oils /\
  match st with
  | VALID => key_in D dirs oils key = true
  | MUST_ADVANCE =>
      key_in D dirs oils key = false /\
      exists q, makeQueryObject out' forward = Some q /\ query_names nm q /\ (length q <= n)%nat /\ query_over oils key q /\
        reaches D dirs q key = false /\
        (reaches D dirs key k' = true -> key_in D dirs oils k' = true -> reaches D dirs q k' = true)
  | DONE =>
      key_in D dirs oils key = false /\ (reaches D dirs key k' = true -> key_in D dirs oils k' = false)
  end.

(** *** Moving to the starts of intervals *)

Definition pick (c : nat) (oil : OrderedIntervalList) : Interval := default Interval_empty (intervals oil !! c).
Definition current (cur : list nat) : list Interval := zip_with pick cur oils.

Lemma current_lookup (cur : list nat) (i ci : nat) (oil : OrderedIntervalList) : in_range cur oils ->
  cur !! i = Some ci -> oils !! i = Some oil -> exists iv, intervals oil !! ci = Some iv /\ current cur !! i = Some iv.
Proof.
  intros Hr Hc Ho. pose proof (Forall2_lookup_lr _ _ _ i ci oil Hr Hc Ho) as Hlt. cbv beta in Hlt.
  destruct (lookup_lt_is_Some_2 _ _ Hlt) as [iv Hiv]. exists iv. split; [done|]. unfold current.
  rewrite lookup_zip_with, Hc, Ho. cbn. unfold pick. by rewrite Hiv.
Qed.
Lemma current_length (cur : list nat) : in_range cur oils -> length (current cur) = n.
Proof. intros Hr%Forall2_length. unfold current. rewrite length_zip_with. lia. Qed.
Lemma current_known (cur : list nat) : in_range cur oils -> Forall known (current cur).
Proof.
  intros Hr. apply Forall_lookup_2. intros i iv Hi. unfold current in Hi.
  apply lookup_zip_with_Some in Hi as (ci & oil & -> & Hc & Ho).
  destruct (current_lookup cur i ci oil Hr Hc Ho) as (iv & Hiv & _). unfold pick. rewrite Hiv. cbn.
  pose proof (Forall_lookup_1 _ _ i oil Hknown Ho) as Hk. by apply (Forall_lookup_1 _ _ ci iv Hk).
Qed.

Lemma take_insert_S {A} (l : list A) (j : nat) (v : A) : (j < length l)%nat -> take (S j) (<[j := v]> l) = take j l ++ [v].
Proof.
  intros Hj. rewrite (take_S_r _ _ v) by (by apply list_lookup_insert_eq). by rewrite take_insert_ge.
Qed.
Lemma fill_suffix_spec (cur : list nat) : in_range cur oils -> forall m j out, (j + m = n)%nat ->
  length (keySuffix out) = n -> length (suffixInclusive out) = n ->
  fill_suffix m j oils cur out =
    Some (mkSeekPoint (keyPrefix out) (prefixLen out) (prefixExclusive out)
      (take j (keySuffix out) ++ ((fun iv => Some (start iv)) <$> drop j (current cur)))
      (take j (suffixInclusive out) ++ (startInclusive <$> drop j (current cur)))).
Proof.
  intros Hr. pose proof (current_length cur Hr) as Hlen. induction m as [|m IH]; intros j out Hj H1 H2.
  - cbn [fill_suffix]. rewrite drop_ge, !take_ge by lia. cbn. rewrite !app_nil_r. by destruct out.
  - cbn [fill_suffix]. destruct (lookup_lt_is_Some_2 oils j ltac:(lia)) as [oil Eo]. rewrite Eo. cbn [mbind option_bind].
    pose proof (Forall2_length _ _ _ Hr). destruct (lookup_lt_is_Some_2 cur j ltac:(lia)) as [cj Ec]. rewrite Ec. cbn [mbind option_bind].
    destruct (current_lookup cur j cj oil Hr Ec Eo) as (iv & Hiv & Hcur). rewrite Hiv. cbn [mbind option_bind].
    rewrite IH by (cbn [keySuffix suffixInclusive]; rewrite ?length_insert; lia).
    cbn [keyPrefix prefixLen prefixExclusive keySuffix suffixInclusive].
    rewrite !take_insert_S by lia. rewrite (drop_S (current cur) iv j Hcur). cbn [fmap list_fmap].
    by rewrite <- !app_assoc.
Qed.

Lemma nm_nonempty : nm <> [].
Proof. done. Qed.

(** The query for the starts of the current intervals from field [f] on. *)
Lemma starts_query (f : nat) (cur : list nat) (p : IndexSeekPoint) : in_range cur oils -> (f <= n)%nat ->
  keyPrefix p = key -> prefixLen p = f -> prefixExclusive p = false ->
  drop f (keySuffix p) = (fun iv => Some (start iv)) <$> drop f (current cur) ->
  drop f (suffixInclusive p) = startInclusive <$> drop f (current cur) ->
  length (keySuffix p) = length (suffixInclusive p) ->
  exists q, makeQueryObject p forward = Some (strip (take f key) ++ q) /\ leads_to nm (drop f (current cur)) q.
Proof.
  destruct p as [kp pl pe ks si]. cbn [keyPrefix prefixLen prefixExclusive keySuffix suffixInclusive].
  intros Hr Hf -> -> -> E1 E2 El. destruct (query_suffix_ints nm (drop f (current cur)) nm_nonempty) as (q & Eq & Hq).
  { by apply Forall_drop, current_known. }
  exists q. split; [|done]. unfold makeQueryObject. cbn [keyPrefix prefixLen prefixExclusive keySuffix suffixInclusive].
  cbv zeta. fold nm.
  rewrite query_prefix_inclusive by lia. cbn [mbind option_bind].
  rewrite El, Nat.eqb_refl, E1, E2, Eq. reflexivity.
Qed.
Lemma strip_names (a q : list field) : query_names nm q -> query_names nm (strip a ++ q).
Proof.
  intros Hq. induction a as [|x a IH]; [done|]. cbn [strip List.map app]. fold (strip a).
  destruct (strip a ++ q) eqn:E; [by left|]. by split.
Qed.
Lemma strip_over (f : nat) (cur : list nat) (q : list field) : in_range cur oils -> (f <= n)%nat ->
  (forall i e, q !! i = Some e -> exists iv s, drop f (current cur) !! i = Some iv /\ start iv = Some s /\ e.2 = s.2) ->
  query_over oils key (strip (take f key) ++ q).
Proof.
  intros Hr Hf Hq i e He. assert (Hl : length (strip (take f key)) = f) by (unfold strip; rewrite length_map, length_take; lia).
  apply lookup_app_Some in He as [He|[Hi He]].
  - left. unfold strip in He. rewrite list_lookup_fmap in He. apply fmap_Some in He as (x & Hx & ->).
    apply lookup_take_Some in Hx as [Hx _]. by exists x.
  - right. destruct (Hq _ _ He) as (iv & s & Hiv & Hs & ->). rewrite Hl, lookup_drop in Hiv. replace (f + (i - f))%nat with i in Hiv by lia.
    unfold current in Hiv. apply lookup_zip_with_Some in Hiv as (ci & oil & -> & Hc & Ho).
    destruct (current_lookup cur i ci oil Hr Hc Ho) as (iv & Hiv & _). exists oil, iv, s. unfold pick in Hs. rewrite Hiv in Hs.
    split; [done|]. split; [by eapply list_elem_of_lookup_2|done].
Qed.

(** How a query for starts compares to keys. *)
Lemma reaches_starts (f : nat) (q k : list field) : (f < n)%nat -> in_L k -> length k = n ->
  reaches D dirs (strip (take f key) ++ q) k =
    let c := scan_cmp dirs (take f key) k in if c =? 0 then reaches D (drop f dirs) q (drop f k) else c <? 0.
Proof.
  intros Hf Hk Hlk. destruct (strip_fields (take f key)) as (H1 & H2 & H3 & H4); [by apply Forall_take|].
  rewrite length_take, Nat.min_l in H3 by lia.
  rewrite reaches_split by (done || lia). by rewrite H3, H4.
Qed.

Lemma starts_guide (c : IndexBoundsChecker) (f : nat) (cur : list nat) (out : IndexSeekPoint)
    (d : Z) (oil : OrderedIntervalList) (x y : field) (iv : Interval) :
  fields (_bounds c) = oils -> _expectedDirection c = dirs -> in_range cur oils ->
  length (keySuffix out) = n -> length (suffixInclusive out) = n ->
  at_field f d oil x y -> current cur !! f = Some iv -> 2 * (d * rk x.2) < lo rk d iv ->
  (forall iv', iv' ∈ intervals oil -> hi rk d iv' < 2 * (d * rk x.2) \/ lo rk d iv <= lo rk d iv') ->
  (forall i ci, (f < i < n)%nat -> cur !! i = Some ci -> ci = 0%nat) ->
  exists r, advance_to_starts key f cur c out = Some r /\ guided c r.
Proof.
  intros Ec Ed Hr Hl1 Hl2 A Hcur Hlt Hiv Hzero. pose proof (lookup_lt_Some _ _ _ (at_oil _ _ _ _ _ A)) as Hf.
  pose proof (current_length cur Hr) as Hcl. pose proof (Forall2_length _ _ _ Hr) as Hcurl.
  unfold advance_to_starts. rewrite Ec, (fill_suffix_spec cur Hr) by (cbn; lia). cbn [mbind option_bind]. cbn [keyPrefix prefixLen prefixExclusive keySuffix suffixInclusive].
  eexists. split; [reflexivity|]. split; [done|]. split; [done|]. split; [done|]. split.
  { apply (key_out_of_bounds f d oil x y A). intros iv' Hiv'. specialize (Hiv iv' Hiv'). unfold inside. lia. }
  edestruct (starts_query f cur) as (q & Eq & Hq & Hql & Hqv & Hqr & Hqs); [done|lia|..|].
  7: { exists (strip (take f key) ++ q). split; [exact Eq|]. split; [by apply strip_names|]. split.
    { rewrite length_app, length_drop in *. unfold strip. rewrite length_map, length_take. lia. }
    split; [apply (strip_over f cur); [done|lia|done]|]. split.
    - rewrite reaches_starts by done. cbv zeta. rewrite scan_cmp_refl. cbn [Z.eqb].
      rewrite (drop_S dirs d f), (drop_S key x f) by apply A. apply (Hqs iv); [|apply A|apply A|done].
      by rewrite (drop_S (current cur) iv f).
    - intros Hrk' Hin. rewrite reaches_starts by done. cbv zeta.
      destruct (reaches_key f d oil x y A Hrk') as [H|[H Hxy]]; [destruct (Z.eqb_spec (scan_cmp dirs (take f key) k') 0); lia|].
      rewrite H. cbn [Z.eqb]. apply Hqr; [rewrite !length_drop; lia|by apply Forall_drop|by apply Forall_drop|rewrite !length_drop; lia|].
      intros i iv' d' y' H1 H2 H3. rewrite lookup_drop in H1. rewrite lookup_drop in H2. rewrite lookup_drop in H3.
      destruct (field_at (f + i)) as (d2 & oil2 & x2 & y2 & A2); [rewrite <- Hk'_len; by eapply lookup_lt_Some|].
      pose proof A2 as [Ad Ao Ax Ay _ _ Aor _ _]. simplify_eq.
      destruct (other_in_bounds _ _ _ _ _ A2 Hin) as (iv2 & Hiv2 & Hb).
      destruct i as [|i].
      + rewrite Nat.add_0_r in *. pose proof A as []. simplify_eq. specialize (Hiv iv2 Hiv2). lia.
      + destruct (lookup_lt_is_Some_2 cur (f + S i) ltac:(apply lookup_lt_Some in Ao; lia)) as [ci Eci].
        pose proof (lookup_lt_Some _ _ _ Ao). assert (ci = 0%nat) as -> by (apply (Hzero (f + S i)%nat); [lia|done]).
        destruct (current_lookup cur _ _ _ Hr Eci Ao) as (iv3 & Hiv3 & Hc3). simplify_eq.
        pose proof (first_starts d' (intervals oil2) Aor iv' iv2 Hiv3 Hiv2). lia. }
  all: cbn; rewrite ?drop_app_length' by (rewrite length_take; lia); try done.
  rewrite !length_app, !length_take, !length_fmap. lia.
Qed.

(** *** No interval is left *)

Hypothesis Hsized : Forall (fun oil => Z.of_nat (length (intervals oil)) < 2 ^ 64) oils.

Lemma space_left_spec (c : IndexBoundsChecker) (f : nat) : fields (_bounds c) = oils -> _expectedDirection c = dirs ->
  in_range (_curInterval c) oils -> within_before (_curInterval c) f -> (f <= n)%nat ->
  forall m i, (i + m <= f)%nat -> exists b, space_left D m i c key = Some b /\
    (b = false -> forall j d oil x y iv, (i <= j < i + m)%nat -> at_field j d oil x y -> iv ∈ intervals oil ->
      hi rk d iv <= 2 * (d * rk x.2)).
Proof.
  intros Ec Ed Hr Hw Hf. induction m as [|m IH]; intros i Hi; [exists false; split; [done|lia]|].
  destruct (field_at i) as (d & oil & x & y & A); [lia|]. destruct (Hw i d oil x y ltac:(lia) A) as (ci & iv & Hci & Hiv & Hin).
  destruct (IH (S i)) as (b & Eb & Hb); [lia|]. pose proof A as [Ad Ao Ax _ Au Ak Aor Axl _].
  cbn [space_left]. rewrite Ec, Ao, Hci. cbn [mbind option_bind].
  pose proof (Forall_lookup_1 _ _ i oil Hsized Ao) as Hsz. cbv beta in Hsz. pose proof (lookup_lt_Some _ _ _ Hiv) as Hlt.
  rewrite wrapu_small by lia.
  destruct (Z.eqb_spec (Z.of_nat ci) (Z.of_nat (length (intervals oil)) - 1)) as [El|El]; cbn [negb]; [|by exists true].
  rewrite Hiv. cbn [mbind option_bind]. destruct (endInclusive iv) eqn:Ei; cbn [negb]; [|by exists true].
  rewrite Ax, Ed, Ad. cbn [mbind option_bind].
  pose proof (known_ends L iv (Forall_lookup_1 _ _ ci iv Ak Hiv)) as (s & e & _ & Ee & _ & He).
  rewrite Ee, (Hrk x e Axl He). destruct (Z.eqb_spec (- d) (Z.sgn (rk x.2 - rk e.2))) as [Es|Es]; [by exists true|].
  exists b. split; [done|]. intros Hf' j d' oil' x' y' iv' Hj A' Hiv'.
  destruct (Nat.eq_dec j i) as [->|Hne]; [|apply (Hb Hf' j d' oil' x' y' iv'); [lia|done|done]].
  pose proof A' as [Ad' Ao' Ax' _ _ _ _ _ _]. simplify_eq.
  pose proof (last_ends d (intervals oil) Aor ci iv iv' Hiv ltac:(lia) Hiv') as Hle.
  assert (Hhi : hi rk d iv = 2 * (d * rk e.2)) by (unfold hi; rewrite Ee, Ei; cbn [erank negb Z.b2z]; lia).
  unfold inside in Hin. destruct Au as [-> | ->]; lia.
Qed.

Lemma restart_range (cur : list nat) (f : nat) : in_range cur oils -> in_range (restart_from f cur) oils.
Proof.
  intros Hr. unfold restart_from. rewrite <- (take_drop f oils). apply Forall2_app; [by apply Forall2_take|].
  pose proof (Forall2_length _ _ _ Hr) as Hl. apply Forall2_same_length_lookup_2.
  - rewrite length_replicate, length_drop. lia.
  - intros i ci oil Hc Ho. apply lookup_replicate in Hc as [-> _]. rewrite lookup_drop in Ho.
    destruct (lookup_lt_is_Some_2 cur (f + i)) as [cj Hcj]; [rewrite Hl; by eapply lookup_lt_Some|].
    pose proof (Forall2_lookup_lr _ _ _ _ _ _ Hr Hcj Ho) as Hlt. cbv beta in Hlt. lia.
Qed.
Lemma restart_lookup (cur : list nat) (f i : nat) : (i < length cur)%nat ->
  restart_from f cur !! i = if (i <? f)%nat then cur !! i else Some 0%nat.
Proof.
  intros Hi. unfold restart_from. destruct (Nat.ltb_spec i f).
  - rewrite lookup_app_l by (rewrite length_take; lia). by apply lookup_take_lt.
  - rewrite lookup_app_r, length_take by (rewrite length_take; lia). apply lookup_replicate_2. lia.
Qed.

Lemma past_guide (c : IndexBoundsChecker) (f : nat) (out : IndexSeekPoint) (d : Z) (oil : OrderedIntervalList) (x y : field) :
  fields (_bounds c) = oils -> _expectedDirection c = dirs -> in_range (_curInterval c) oils ->
  within_before (_curInterval c) f -> at_field f d oil x y -> (forall iv, iv ∈ intervals oil -> hi rk d iv < 2 * (d * rk x.2)) ->
  exists r, (space ← spaceLeftToAdvance D f c key;
             if negb space then Some (DONE, c, out)
             else Some (MUST_ADVANCE, with_cur (restart_from f (_curInterval c)) c,
                        mkSeekPoint key f true (keySuffix out) (suffixInclusive out))) = Some r /\ guided c r.
Proof.
  intros Ec Ed Hr Hw A Hpast. pose proof (lookup_lt_Some _ _ _ (at_oil _ _ _ _ _ A)) as Hf.
  assert (Hkey_out : key_in D dirs oils key = false).
  { apply (key_out_of_bounds f d oil x y A). intros iv Hiv. specialize (Hpast iv Hiv). unfold inside. lia. }
  assert (Hother : reaches D dirs key k' = true -> key_in D dirs oils k' = true -> scan_cmp dirs (take f key) k' < 0).
  { intros Hre Hin. destruct (reaches_key f d oil x y A Hre) as [H|[_ Hxy]]; [done|].
    destruct (other_in_bounds f d oil x y A Hin) as (iv & Hiv & Hb). specialize (Hpast iv Hiv). lia. }
  destruct (space_left_spec c f Ec Ed Hr Hw ltac:(lia) f 0 ltac:(lia)) as (b & Eb & Hb).
  unfold spaceLeftToAdvance. rewrite Eb. cbn [mbind option_bind]. destruct b; cbn [negb]; eexists; (split; [reflexivity|]).
  - split; [done|]. split; [done|]. split; [by apply restart_range|]. split; [done|].
    assert (Hf0 : (0 < f)%nat) by (destruct f; [discriminate Eb|lia]).
    destruct (query_prefix_exclusive nm key nm_nonempty Hkey f) as (q & Eq & Hq & Hl & Hv & Hqr); [lia|]. exists q. split.
    { unfold makeQueryObject. cbn [prefixLen prefixExclusive keyPrefix]. cbv zeta. fold nm. rewrite Eq. cbn [mbind option_bind].
      destruct (Nat.ltb_spec 0 f); [done|lia]. }
    split; [done|]. split; [lia|]. split; [intros i e He; left; by apply Hv|].
    split; [rewrite Hqr, scan_cmp_refl by (done || lia); done|].
    intros Hre Hin. rewrite Hqr by (done || lia). specialize (Hother Hre Hin). lia.
  - split; [done|]. split; [done|]. split; [done|]. split; [done|]. intros Hre.
    destruct (key_in D dirs oils k') eqn:Hin; [|done]. specialize (Hother Hre eq_refl). exfalso.
    enough (0 <= scan_cmp dirs (take f key) k') by lia. apply scan_cmp_nonneg.
    intros i d' x' y' Hd' [Hx' Hi]%lookup_take_Some Hy'.
    destruct (field_at i) as (d2 & oil2 & x2 & y2 & A2); [lia|]. pose proof A2 as []. simplify_eq.
    destruct (other_in_bounds i _ _ _ _ A2 Hin) as (iv & Hiv & Hbd).
    pose proof (Hb eq_refl i _ _ _ _ iv ltac:(lia) A2 Hiv). lia.
Qed.

(** *** The whole check *)

Lemma within_insert (cur : list nat) (f i : nat) (d : Z) (oil : OrderedIntervalList) (x y : field) (iv : Interval) :
  in_range cur oils -> within_before cur f -> at_field f d oil x y -> intervals oil !! i = Some iv -> inside rk d iv x.2 = true ->
  in_range (<[f := i]> cur) oils /\ within_before (<[f := i]> cur) (S f).
Proof.
  intros Hr Hw A Hiv Hin. pose proof (Forall2_length _ _ _ Hr). pose proof (lookup_lt_Some _ _ _ (at_oil _ _ _ _ _ A)).
  split.
  - apply Forall2_same_length_lookup_2; [by rewrite length_insert|]. intros j cj oil' Hc Ho.
    apply list_lookup_insert_Some in Hc as [(-> & -> & _)|[_ Hc]]; [|by apply (Forall2_lookup_lr _ _ _ _ _ _ Hr Hc Ho)].
    pose proof A as []. simplify_eq. by eapply lookup_lt_Some.
  - intros j d' oil' x' y' Hj A'. destruct (Nat.eq_dec j f) as [->|Hne].
    + pose proof A as []. pose proof A' as []. simplify_eq. exists i, iv. split; [|done]. apply list_lookup_insert_eq. lia.
    + rewrite list_lookup_insert_ne by done. apply (Hw j d' oil' x' y'); [lia|done].
Qed.

Lemma ahead_loop_guide (m : nat) : forall f c out, (f + m = n)%nat -> fields (_bounds c) = oils -> _expectedDirection c = dirs ->
  in_range (_curInterval c) oils -> within_before (_curInterval c) f ->
  length (keySuffix out) = n -> length (suffixInclusive out) = n ->
  exists r, ahead_loop D m f key c out = Some r /\ guided c r.
Proof.
  induction m as [|m IH]; intros f c out Hf Ec Ed Hr Hw Hl1 Hl2.
  { exists (VALID, c, out). split; [done|]. split; [done|]. split; [done|]. split; [done|].
    apply (key_in_bounds (_curInterval c)). by replace n with f by lia. }
  destruct (field_at f) as (d & oil & x & y & A); [lia|]. pose proof A as [Ad Ao Ax _ Au Ak Aor Axl _].
  pose proof (Forall2_length _ _ _ Hr) as Hlen. cbn [ahead_loop]. rewrite Ax, Ec, Ao, Ed, Ad. cbn [mbind option_bind].
  destruct oil as [ivs nm']. cbn [intervals] in *.
  destruct (find_ints d Au ivs Ak Aor x Axl nm') as (r & -> & Hloc). cbn [mbind option_bind].
  destruct Hloc as [Hpast|i iv Hiv Hin|i iv Hiv Hlt Hrest].
  - by apply (past_guide c f out d (mkOIL ivs nm') x y).
  - cbn [mbind option_bind]. destruct (within_insert _ f i d _ x y iv Hr Hw A Hiv Hin) as [Hr' Hw'].
    destruct (IH (S f) (with_cur (<[f:=i]> (_curInterval c)) c) out) as (r & Er & Hg); [lia|done..|]. exists r. by split.
  - cbn [mbind option_bind].
    assert (Hr' : in_range (<[f:=i]> (_curInterval c)) oils).
    { apply Forall2_same_length_lookup_2; [by rewrite length_insert|]. intros j cj oil' Hc Ho.
      apply list_lookup_insert_Some in Hc as [(-> & -> & _)|[_ Hc]]; [|by apply (Forall2_lookup_lr _ _ _ _ _ _ Hr Hc Ho)].
      simplify_eq. by eapply lookup_lt_Some. }
    assert (Hcur : restart_from (S f) (<[f:=i]> (_curInterval c)) !! f = Some i).
    { rewrite restart_lookup by (rewrite length_insert; lia). destruct (Nat.ltb_spec f (S f)); [|lia]. apply list_lookup_insert_eq. lia. }
    destruct (current_lookup _ f i _ (restart_range _ (S f) Hr') Hcur Ao) as (iv' & Hiv' & Hc'). cbn [intervals] in Hiv'. simplify_eq.
    apply (starts_guide c f _ out d (mkOIL ivs nm') x y iv); try done; [by apply restart_range|].
    intros j cj Hj Hcj. rewrite restart_lookup in Hcj by (rewrite length_insert; lia).
    destruct (Nat.ltb_spec j (S f)); [lia|]. by injection Hcj as <-.
Qed.

Lemma leftmost_spec (c : IndexBoundsChecker) : fields (_bounds c) = oils -> _expectedDirection c = dirs ->
  in_range (_curInterval c) oils -> forall cur i, drop i (_curInterval c) = cur -> (i <= n)%nat -> within_before (_curInterval c) i ->
  exists r, leftmost_problem D c key i cur = Some r /\
    match r with
    | None => within_before (_curInterval c) n
    | Some (f, loc) => within_before (_curInterval c) f /\ exists d oil x y iv, at_field f d oil x y /\
        current (_curInterval c) !! f = Some iv /\
        ((loc = BEHIND /\ 2 * (d * rk x.2) < lo rk d iv) \/ (loc = AHEAD /\ hi rk d iv < 2 * (d * rk x.2)))
    end.
Proof.
  intros Ec Ed Hr. pose proof (Forall2_length _ _ _ Hr) as Hlen. induction cur as [|ci cur IH]; intros i Hdrop Hi Hw.
  { exists None. split; [done|]. apply (f_equal length) in Hdrop. rewrite length_drop in Hdrop. cbn in Hdrop.
    by replace n with i by lia. }
  assert (Hci : _curInterval c !! i = Some ci).
  { rewrite <- (Nat.add_0_r i), <- lookup_drop, Hdrop. done. }
  destruct (field_at i) as (d & oil & x & y & A); [rewrite <- Hlen; by eapply lookup_lt_Some|].
  pose proof A as [Ad Ao Ax _ Au Ak Aor Axl _].
  destruct (current_lookup _ i ci oil Hr Hci Ao) as (iv & Hiv & Hcur).
  cbn [leftmost_problem]. rewrite Ec, Ao. cbn [mbind option_bind]. rewrite Hiv. cbn [mbind option_bind].
  rewrite Ax, Ed, Ad. cbn [mbind option_bind].
  rewrite (intervalCmp_ints d Au x iv Axl) by (by apply (Forall_lookup_1 _ _ ci iv Ak)).
  destruct (Z.ltb_spec (2 * (d * rk x.2)) (lo rk d iv)) as [Hlt|Hge].
  { exists (Some (i, BEHIND)). split; [done|]. split; [done|]. exists d, oil, x, y, iv. split; [done|]. split; [done|]. by left. }
  destruct (Z.ltb_spec (hi rk d iv) (2 * (d * rk x.2))) as [Hlt'|Hge'].
  { exists (Some (i, AHEAD)). split; [done|]. split; [done|]. exists d, oil, x, y, iv. split; [done|]. split; [done|]. by right. }
  apply IH.
  - rewrite (drop_S _ ci i Hci) in Hdrop. by injection Hdrop.
  - apply lookup_lt_Some in Ao. lia.
  - intros j d' oil' x' y' Hj A'. destruct (Nat.eq_dec j i) as [->|Hne]; [|apply (Hw j d' oil' x' y'); [lia|done]].
    pose proof A' as []. simplify_eq. exists ci, iv. split; [done|]. split; [done|]. unfold inside. lia.
Qed.

Lemma resize_length {A} (m : nat) (v : A) (l : list A) : length (resize m v l) = m.
Proof. unfold resize. rewrite length_app, length_take, length_replicate. lia. Qed.

Lemma within_restart (cur : list nat) (f : nat) : in_range cur oils -> (f <= n)%nat -> within_before cur f ->
  within_before (restart_from f cur) f.
Proof.
  intros Hr Hf Hw i d oil x y Hi A. destruct (Hw i d oil x y Hi A) as (ci & iv & Hc & Hrest). exists ci, iv.
  split; [|done]. rewrite restart_lookup by (by eapply lookup_lt_Some). destruct (Nat.ltb_spec i f); [done|lia].
Qed.

(** The second answer after a restart at [f] concerns a field whose interval is the first. *)
Lemma problem_behind_restart (cur : list nat) (f f2 : nat) (d : Z) (oil : OrderedIntervalList) (x y : field) (iv : Interval) :
  in_range cur oils -> within_before (restart_from f cur) f -> at_field f2 d oil x y ->
  current (restart_from f cur) !! f2 = Some iv -> 2 * (d * rk x.2) < lo rk d iv -> (f <= f2)%nat /\ intervals oil !! 0%nat = Some iv.
Proof.
  intros Hr Hw A Hcur Hlt. pose proof (restart_range cur f Hr) as Hr'. pose proof (at_oil _ _ _ _ _ A) as Ao.
  pose proof (Forall2_length _ _ _ Hr) as Hlen. pose proof (lookup_lt_Some _ _ _ Ao) as Hf2.
  pose proof (restart_lookup cur f f2 ltac:(lia)) as Hlk.
  destruct (Nat.ltb_spec f2 f) as [Hlt2|Hge2].
  - destruct (Hw f2 d oil x y Hlt2 A) as (ci & iv' & Hc & Hiv & Hin).
    destruct (current_lookup _ f2 ci oil Hr' Hc Ao) as (iv2 & Hiv2 & Hc2). simplify_eq. unfold inside in Hin. lia.
  - split; [done|]. destruct (current_lookup _ f2 0 oil Hr' Hlk Ao) as (iv2 & Hiv2 & Hc2). by simplify_eq.
Qed.

Lemma checkKey_guide (c : IndexBoundsChecker) (out : IndexSeekPoint) : fields (_bounds c) = oils -> _expectedDirection c = dirs ->
  in_range (_curInterval c) oils -> (0 < n)%nat -> exists r, checkKey D c key out = Some r /\ guided c r.
Proof.
  intros Ec Ed Hr Hn. pose proof (Forall2_length _ _ _ Hr) as Hlen. unfold checkKey. cbv zeta. rewrite Hlen, Hkey_len, Nat.eqb_refl.
  destruct (Nat.eqb_spec n 0) as [|_]; [lia|]. cbn [negb]. set (out' := mkSeekPoint _ _ _ _ _).
  assert (Hl1 : length (keySuffix out') = n) by apply resize_length.
  assert (Hl2 : length (suffixInclusive out') = n) by apply resize_length.
  assert (Hvalid : forall c, _bounds c = _bounds c -> fields (_bounds c) = oils -> _expectedDirection c = dirs ->
    in_range (_curInterval c) oils -> within_before (_curInterval c) n -> guided c (VALID, c, out')).
  { intros c' _ H1 H2 H3 H4. split; [done|]. split; [done|]. split; [done|]. by apply (key_in_bounds (_curInterval c')). }
  unfold findLeftmostProblem.
  destruct (leftmost_spec c Ec Ed Hr (_curInterval c) 0 eq_refl ltac:(lia)) as (r & Er & Hp); [intros ?; lia|].
  rewrite Er. cbn [mbind option_bind]. destruct r as [[f loc]|].
  2: { eexists. split; [reflexivity|]. by apply Hvalid. }
  destruct Hp as (Hw & d & oil & x & y & iv & A & Hcur & Hloc). pose proof (lookup_lt_Some _ _ _ (at_oil _ _ _ _ _ A)) as Hf.
  destruct Hloc as [[-> Hlt]|[-> Hgt]]; [|apply ahead_loop_guide; done || lia].
  set (cur' := restart_from f (_curInterval c)).
  pose proof (restart_range _ f Hr) as Hr'. pose proof (within_restart _ f Hr ltac:(lia) Hw) as Hw'. fold cur' in Hr', Hw'.
  destruct (leftmost_spec (with_cur cur' c) Ec Ed Hr' cur' 0 eq_refl ltac:(lia)) as (r2 & Er2 & Hp2); [intros ?; lia|].
  cbn [_curInterval with_cur] in *. rewrite Er2. cbn [mbind option_bind]. destruct r2 as [[f2 loc2]|].
  2: { eexists. split; [reflexivity|]. apply (Hvalid (with_cur cur' c)); done. }
  destruct Hp2 as (Hw2 & d2 & oil2 & x2 & y2 & iv2 & A2 & Hcur2 & Hloc2).
  pose proof (lookup_lt_Some _ _ _ (at_oil _ _ _ _ _ A2)) as Hf2.
  destruct Hloc2 as [[-> Hlt2]|[-> Hgt2]]; [|by apply (ahead_loop_guide (n - f2) f2 (with_cur cur' c) out'); done || lia].
  destruct (problem_behind_restart _ f f2 d2 oil2 x2 y2 iv2 Hr Hw' A2 Hcur2 Hlt2) as [Hge Hfirst].
  apply (starts_guide (with_cur cur' c) f2 cur' out' d2 oil2 x2 y2 iv2); try done.
  - intros iv' Hiv'. right. by apply (first_starts d2 (intervals oil2)); [apply A2|..].
  - intros i ci Hi Hci. unfold cur' in Hci. rewrite restart_lookup in Hci by lia.
    destruct (Nat.ltb_spec i f); [lia|]. by injection Hci as <-.
Qed.

End checker.

(** *** The other operations *)
Section others.
Variable dirs : list Z.
Variable oils : list OrderedIntervalList.
Hypothesis Hunit : Forall (fun d => unit d) dirs.
Hypothesis Hknown : Forall (fun oil => Forall known (intervals oil)) oils.
Hypothesis Horder : Forall2 (fun d oil => scan_order rk d (intervals oil)) dirs oils.

Lemma located_in (d : Z) (ivs : list Interval) (x : field) (r : Location * option nat) : unit d -> Forall known ivs ->
  x.2 ∈ L -> located d ivs x r -> in_intervals D d ivs x = bool_decide (r.1 = WITHIN).
Proof.
  intros Hd Hk Hx Hr. rewrite (in_intervals_ints D L rk Hrk) by done.
  assert (Hout : (forall iv, iv ∈ ivs -> inside rk d iv x.2 = false) -> existsb (fun i => inside rk d i x.2) ivs = false).
  { intros H. apply not_true_iff_false. intros (iv & Hiv%list_elem_of_In & Hin)%existsb_exists. by rewrite H in Hin. }
  destruct Hr as [Hpast|i iv Hiv Hin|i iv Hiv Hlt Hrest]; cbn [fst].
  - apply Hout. intros iv Hiv. specialize (Hpast iv Hiv). unfold inside. lia.
  - apply existsb_exists. exists iv. split; [|done]. apply list_elem_of_In. by eapply list_elem_of_lookup_2.
  - apply Hout. intros iv' Hiv'. specialize (Hrest iv' Hiv'). unfold inside. lia.
Qed.

Lemma valid_from_ints (c : IndexBoundsChecker) (key : list field) : fields (_bounds c) = oils -> _expectedDirection c = dirs ->
  in_L key -> forall i, (i + length key = length oils)%nat ->
  valid_from D c key i = Some (key_in D (drop i dirs) (drop i oils) key).
Proof.
  intros Ec Ed. pose proof (Forall2_length _ _ _ Horder) as Hlen. induction 1 as [|x key Hx _ IH]; intros i Hi; cbn [length] in *.
  { rewrite (drop_ge oils) by lia. by destruct (drop i dirs). }
  destruct (lookup_lt_is_Some_2 oils i ltac:(lia)) as [oil Eo]. destruct (lookup_lt_is_Some_2 dirs i ltac:(lia)) as [d Edi].
  cbn [valid_from]. rewrite Ec, Eo, Ed, Edi. cbn [mbind option_bind].
  rewrite (drop_S oils oil i Eo), (drop_S dirs d i Edi). cbn [key_in].
  pose proof (Forall_lookup_1 _ _ i d Hunit Edi) as Hu. pose proof (Forall_lookup_1 _ _ i oil Hknown Eo) as Hk. cbv beta in Hu.
  pose proof (Forall2_lookup_lr _ _ _ i d oil Horder Edi Eo) as Ho. destruct oil as [ivs nm]. cbn [intervals] in *.
  destruct (find_ints d Hu ivs Hk Ho x Hx nm) as ([loc j] & -> & Hr). cbn [mbind option_bind].
  rewrite (located_in d ivs x _ Hu Hk Hx Hr). cbn [fst].
  destruct (decide (loc <> WITHIN)) as [H|H]; [by rewrite bool_decide_eq_false_2|].
  rewrite bool_decide_eq_true_2 by (destruct loc; done || by destruct H). cbn [andb]. apply IH. lia.
Qed.

Lemma start_suffix_spec : forall p, start_suffix oils = p ->
  match p with
  | None => exists oil, oil ∈ oils /\ intervals oil = []
  | Some (ks, si) => exists civs, ks = (fun iv => Some (start iv)) <$> civs /\ si = startInclusive <$> civs /\
      Forall2 (fun iv oil => intervals oil !! 0%nat = Some iv) civs oils
  end.
Proof.
  clear. intros p <-. induction oils as [|oil l IH]; cbn [start_suffix]; [by exists []|].
  destruct (intervals oil) as [|iv ivs] eqn:Ei; cbn [head mbind option_bind].
  { exists oil. split; [by left|done]. }
  destruct (start_suffix l) as [[ks si]|]; cbn [mbind option_bind].
  - destruct IH as (civs & -> & -> & H). exists (iv :: civs). split; [done|]. split; [done|].
    constructor; [by rewrite Ei|done].
  - destruct IH as (oil' & H & E). exists oil'. split; [by right|done].
Qed.

Lemma empty_list_excludes (k : list field) : (exists oil, oil ∈ oils /\ intervals oil = []) -> key_in D dirs oils k = false.
Proof.
  clear. intros (oil & Hin & E). revert k dirs. induction Hin as [l|x oil l _ IH]; intros [|y k] [|d ds]; try reflexivity.
  - cbn [key_in]. by rewrite E.
  - cbn [key_in]. rewrite (IH E), andb_false_r. done.
Qed.

Lemma start_query_ints (forward : bool) (ks : list (option elt)) (si : list bool) (kp : list field) :
  start_suffix oils = Some (ks, si) ->
  exists q, makeQueryObject (mkSeekPoint kp 0 false ks si) forward = Some q /\
    query_names [if forward then KS.char_g else KS.char_l] q /\ (length q <= length oils)%nat /\ query_over oils [] q /\
    forall k, in_L k -> length k = length oils -> key_in D dirs oils k = true -> reaches D dirs q k = true.
Proof.
  intros E. pose proof (Forall2_length _ _ _ Horder) as Hlen.
  destruct (start_suffix_spec _ E) as (civs & -> & -> & Hc). pose proof (Forall2_length _ _ _ Hc) as Hcl.
  set (nm := [if forward then KS.char_g else KS.char_l]).
  destruct (query_suffix_ints nm civs) as (q & Eq & Hn & Hl & Hv & Hr & _); [done| |].
  { apply Forall_lookup_2. intros i iv Hi. destruct (Forall2_lookup_l _ _ _ i iv Hc Hi) as (oil & Ho & H0).
    pose proof (Forall_lookup_1 _ _ i oil Hknown Ho) as Hk. by apply (Forall_lookup_1 _ _ 0%nat iv Hk). }
  exists q. split.
  { unfold makeQueryObject. cbn [query_prefix prefixLen keyPrefix prefixExclusive keySuffix suffixInclusive drop mbind option_bind].
    cbv zeta. fold nm. rewrite !length_fmap, Nat.eqb_refl, !drop_0, Eq. reflexivity. }
  split; [done|]. split; [lia|]. split.
  - intros i e He. right. destruct (Hv i e He) as (iv & s & Hiv & Hs & ->).
    destruct (Forall2_lookup_l _ _ _ i iv Hc Hiv) as (oil & Ho & H0). exists oil, iv, s. split; [done|].
    split; [by eapply list_elem_of_lookup_2|done].
  - intros k Hk Hkl Hin. apply Hr; [lia|done|done|lia|]. intros i iv d y Hiv Hd Hy.
    destruct (Forall2_lookup_l _ _ _ i iv Hc Hiv) as (oil & Ho & H0).
    rewrite key_in_lookup in Hin by lia. specialize (Hin i oil d y Ho Hd Hy).
    pose proof (Forall_lookup_1 _ _ i d Hunit Hd) as Hu. pose proof (Forall_lookup_1 _ _ i oil Hknown Ho) as Hko. cbv beta in Hu.
    rewrite (in_intervals_ints D L rk Hrk) in Hin by (done || by apply (Forall_lookup_1 _ _ i y Hk)).
    apply existsb_exists in Hin as (iv' & Hiv'%list_elem_of_In & Hin). unfold inside in Hin.
    pose proof (first_starts d (intervals oil) (Forall2_lookup_lr _ _ _ i d oil Horder Hd Ho) iv iv' H0 Hiv'). lia.
Qed.
End others.
End ints.

(** ** Theorems *)
Section theorems.
Variable D : Cmp.Decimal128.

(** Bounds for a scan whose fields go in [dirs]. *)
Definition bounds_ok (dirs : list Z) (oils : list OrderedIntervalList) : Prop :=
  Forall2 (fun d oil => (d = 1 \/ d = -1) /\ well_formed D d oil /\ Z.of_nat (length (intervals oil)) < 2 ^ 64) dirs oils.
(** A key of [n] fields that can be compared. *)
Definition key_of (n : nat) (k : list field) : Prop := length k = n /\ Forall (fun x : field => key_ok x.2) k.

Lemma bounds_ranked (dirs : list Z) (oils : list OrderedIntervalList) (xs : list value) : bounds_ok dirs oils -> Forall key_ok xs ->
  exists L rk, ranks D L rk /\ Forall (fun v => v ∈ L) xs /\ length dirs = length oils /\ Forall (fun d => d = 1 \/ d = -1) dirs /\
    Forall (fun oil => Forall (bounded (fun v => v ∈ L)) (intervals oil)) oils /\
    Forall2 (fun d oil => scan_order rk d (intervals oil)) dirs oils /\
    Forall (fun oil => Z.of_nat (length (intervals oil)) < 2 ^ 64) oils.
Proof.
  intros Hb Hx. destruct (ranked D (concat (intervals <$> oils)) xs) as (L & rk & Hrk & Hk & HxL & _); [|done|].
  { clear Hx. induction Hb as [|d oil dirs oils (_ & [H _] & _) _ IH]; [constructor|]. cbn. by apply Forall_app. }
  exists L, rk. split; [done|]. split; [done|]. clear Hx HxL. induction Hb as [|d oil dirs oils (Hd & Hw & Hs) _ IH]; [by repeat constructor|].
  cbn in Hk. apply Forall_app in Hk as [Ho Hk]. destruct (IH Hk) as (H1 & H2 & H3 & H4 & H5).
  split; [cbn; lia|]. split; [by constructor|]. split; [by constructor|]. split; [|by constructor].
  constructor; [|done]. by apply (valid_ints D L rk Hrk); [| |apply Hw].
Qed.
Lemma values_in (L : list value) (k : list field) : Forall (fun v => v ∈ L) (snd <$> k) -> Forall (fun x : field => x.2 ∈ L) k.
Proof. intros H. by apply Forall_fmap in H. Qed.
Lemma values_ok (n : nat) (k : list field) : key_of n k -> Forall key_ok (snd <$> k).
Proof. intros [_ H]. by apply Forall_fmap. Qed.

(** What [checkKey] answers about a key, for the keys that follow in the scan. *)
Definition answered (forward : bool) (c : IndexBoundsChecker) (key : list field) (st : KeyState) (out' : IndexSeekPoint) : Prop :=
  let oils := fields (_bounds c) in let dirs := _expectedDirection c in
  match st with
  | VALID => key_in D dirs oils key = true
  | MUST_ADVANCE =>
      key_in D dirs oils key = false /\
      exists q, makeQueryObject out' forward = Some q /\ query_names [if forward then KS.char_g else KS.char_l] q /\
        (length q <= length oils)%nat /\ query_over oils key q /\ reaches D dirs q key = false /\
        forall k, key_of (length oils) k -> reaches D dirs key k = true -> key_in D dirs oils k = true -> reaches D dirs q k = true
  | DONE =>
      key_in D dirs oils key = false /\
      forall k, key_of (length oils) k -> reaches D dirs key k = true -> key_in D dirs oils k = false
  end.
Lemma checkKey_answers (forward : bool) (c : IndexBoundsChecker) (key : list field) (out : IndexSeekPoint) :
  let oils := fields (_bounds c) in let dirs := _expectedDirection c in
  bounds_ok dirs oils -> in_range (_curInterval c) oils -> (0 < length oils)%nat ->
  key_of (length oils) key -> Forall (fun e : field => e.1 = []) key ->
  exists st c' out', checkKey D c key out = Some (st, c', out') /\
    _bounds c' = _bounds c /\ _expectedDirection c' = dirs /\ in_range (_curInterval c') oils /\ answered forward c key st out'.
Proof.
  intros oils dirs Hb Hr Hn Hkey Hnames.
  assert (Hat : forall k, key_of (length oils) k -> exists r, checkKey D c key out = Some r /\
    guided D forward dirs oils key k c r).
  { intros k Hk. destruct (bounds_ranked dirs oils ((snd <$> key) ++ (snd <$> k)) Hb) as (L & rk & Hrk & HL & H1 & H2 & H3 & H4 & H5).
    { apply Forall_app. split; by eapply values_ok. }
    apply Forall_app in HL as [HL1 HL2].
    apply (checkKey_guide D L rk Hrk forward dirs oils H1 H2 H3 H4 key k); try done; [by apply values_in|apply Hkey|by apply values_in|apply Hk]. }
  destruct (Hat key Hkey) as ([[st c'] out'] & E & Hb1 & Hd1 & Hr1 & Hst). exists st, c', out'.
  split; [done|]. split; [done|]. split; [done|]. split; [done|]. destruct st; [done| |].
  - destruct Hst as (Hout & q & Eq & Hqn & Hql & Hqo & Hqk & _). split; [done|]. exists q. repeat (split; [done|]).
    intros k Hk. destruct (Hat k Hk) as (r & E' & Hg). rewrite E in E'. injection E' as <-.
    destruct Hg as (_ & _ & _ & _ & q' & Eq' & _ & _ & _ & _ & H). rewrite Eq in Eq'. by injection Eq' as <-.
  - destruct Hst as (Hout & _). split; [done|]. intros k Hk. destruct (Hat k Hk) as (r & E' & Hg).
    rewrite E in E'. injection E' as <-. by destruct Hg as (_ & _ & _ & _ & H).
Qed.

Lemma start_seek (forward : bool) (c : IndexBoundsChecker) (out : IndexSeekPoint) :
  let oils := fields (_bounds c) in let dirs := _expectedDirection c in
  bounds_ok dirs oils ->
  match getStartSeekPoint c out with
  | None => forall k, key_in D dirs oils k = false
  | Some p => exists q, makeQueryObject p forward = Some q /\ query_names [if forward then KS.char_g else KS.char_l] q /\
      (length q <= length oils)%nat /\ query_over oils [] q /\
      forall k, key_of (length oils) k -> key_in D dirs oils k = true -> reaches D dirs q k = true
  end.
Proof.
  intros oils dirs Hb.
  unfold getStartSeekPoint. fold oils. destruct (start_suffix oils) as [[ks si]|] eqn:E; cbn [mbind option_bind].
  2: { intros k. apply empty_list_excludes. by apply (start_suffix_spec oils None). }
  assert (Hat : forall k, Forall key_ok (snd <$> k) -> exists L rk, ranks D L rk /\ Forall (fun x : field => x.2 ∈ L) k /\
    exists q, makeQueryObject (mkSeekPoint (keyPrefix out) 0 false ks si) forward = Some q /\
      query_names [if forward then KS.char_g else KS.char_l] q /\ (length q <= length oils)%nat /\ query_over oils [] q /\
      forall k, Forall (fun x : field => x.2 ∈ L) k -> length k = length oils -> key_in D dirs oils k = true -> reaches D dirs q k = true).
  { intros k Hk. destruct (bounds_ranked dirs oils (snd <$> k) Hb Hk) as (L & rk & Hrk & HL & H1 & H2 & H3 & H4 & H5).
    exists L, rk. split; [done|]. split; [by apply values_in|]. by apply (start_query_ints D L rk Hrk dirs oils). }
  destruct (Hat []) as (_ & _ & _ & _ & q & Eq & Hqn & Hql & Hqo & _); [constructor|]. exists q. repeat (split; [done|]).
  intros k Hk Hin. destruct (Hat k) as (L & rk & _ & HkL & q' & Eq' & _ & _ & _ & H); [by eapply values_ok|].
  rewrite Eq in Eq'. injection Eq' as <-. apply H; [done|apply Hk|done].
Qed.

(** C10. [IndexBoundsChecker::checkKey] is exact: from any state whose intervals exist it
    returns without a failed [verify], [VALID] exactly for the keys in the bounds; the query
    of the seek point of [MUST_ADVANCE] is past the key, and every key in the bounds that
    follows is at or past it; after [DONE] no key that follows is in the bounds. *)
Theorem checkKey_exact (forward : bool) (c : IndexBoundsChecker) (key : list field) (out : IndexSeekPoint) :
  let oils := fields (_bounds c) in let dirs := _expectedDirection c in
  bounds_ok dirs oils -> in_range (_curInterval c) oils -> (0 < length oils)%nat ->
  key_of (length oils) key -> Forall (fun e : field => e.1 = []) key ->
  exists st c' out', checkKey D c key out = Some (st, c', out') /\
    _bounds c' = _bounds c /\ _expectedDirection c' = dirs /\ in_range (_curInterval c') oils /\
    match st with
    | VALID => key_in D dirs oils key = true
    | MUST_ADVANCE =>
        key_in D dirs oils key = false /\
        exists q, makeQueryObject out' forward = Some q /\ query_names [if forward then KS.char_g else KS.char_l] q /\
          (length q <= length oils)%nat /\ query_over oils key q /\ reaches D dirs q key = false /\
          forall k, key_of (length oils) k -> reaches D dirs key k = true -> key_in D dirs oils k = true -> reaches D dirs q k = true
    | DONE =>
        key_in D dirs oils key = false /\
        forall k, key_of (length oils) k -> reaches D dirs key k = true -> key_in D dirs oils k = false
    end.
Proof. exact (checkKey_answers forward c key out). Qed.

(** [getStartSeekPoint] gives a query that no key in the bounds is before, or [false]
    when no key can be in the bounds; [isValidKey] decides whether a key is in the
    bounds. *)
Theorem start_and_validity (forward : bool) (c : IndexBoundsChecker) (out : IndexSeekPoint) :
  let oils := fields (_bounds c) in let dirs := _expectedDirection c in
  bounds_ok dirs oils ->
  (forall k, key_of (length oils) k -> isValidKey D c k = Some (key_in D dirs oils k)) /\
  match getStartSeekPoint c out with
  | None => forall k, key_in D dirs oils k = false
  | Some p => exists q, makeQueryObject p forward = Some q /\ query_names [if forward then KS.char_g else KS.char_l] q /\
      (length q <= length oils)%nat /\ query_over oils [] q /\
      forall k, key_of (length oils) k -> key_in D dirs oils k = true -> reaches D dirs q k = true
  end.
Proof.
  intros oils dirs Hb. split.
  - intros k Hk. destruct (bounds_ranked dirs oils (snd <$> k) Hb) as (L & rk & Hrk & HL & H1 & H2 & H3 & H4 & H5); [by eapply values_ok|].
    unfold isValidKey. rewrite (valid_from_ints D L rk Hrk dirs oils H2 H3 H4) by (done || by apply values_in || apply Hk). done.
  - by apply start_seek.
Qed.

End theorems.

(** ** Queries and entries *)
Section queries.
Variable D : Cmp.Decimal128.

(** The [Ordering] of a key pattern and the directions of its fields agree unless a
    direction is a NaN. *)
Definition comparable_pattern (kp : list field) : Prop := Forall (fun e : field => Dbl.isnan (Cmp.numberDouble D e.2) = false) kp.
Abbreviation bit_dir ord i := (if Z.testbit ord (Z.of_nat i) then -1 else 1).

Lemma directions_bits (kp : list field) (ord scanDir : Z) : comparable_pattern kp -> Cmp.Ordering_make D kp = Ret ord ->
  (length kp <= 32)%nat /\ length (directions D kp scanDir) = length kp /\
  forall i, (i < length kp)%nat -> directions D kp scanDir !! i = Some (bit_dir ord i * scanDir).
Proof.
  intros Hc Ho. destruct (Pattern.Ordering_make_bits D kp ord Ho) as [Hl Hb]. unfold directions. split; [done|].
  split; [by rewrite length_map|]. intros i Hi. destruct (lookup_lt_is_Some_2 kp i Hi) as [e He].
  rewrite list_lookup_fmap, He, Hb. cbn. unfold Pattern.descends. rewrite He. do 2 f_equal. unfold direction_of, Dbl.le.
  pose proof (Forall_lookup_1 _ _ i e Hc He) as Hn. cbv beta in Hn.
  unfold Dbl.lt, Dbl.eq, Dbl.num. rewrite Hn. change (Dbl.isnan 0) with false. cbv iota.
  repeat case_match; try done; lia.
Qed.

Lemma named_end (nm : bytes) (e f : field) (q : list field) : query_names nm (e :: f :: q) -> e.1 = [] /\ query_names nm (f :: q).
Proof. by destruct e. Qed.
Lemma query_names_cons (nm : bytes) (e : field) (q : list field) : query_names nm (e :: q) ->
  (e.1 = [] \/ (e.1 = nm /\ q = [])) /\ query_names nm q.
Proof. destruct e as [n v], q as [|f q]; cbn [query_names fst]; [intros [-> | ->]; auto|intros [-> ?]; auto]. Qed.
(** The query names its last field. *)
Definition excludes (q : list field) : bool := existsb (fun e : field => negb (bool_decide (e.1 = []))) q.

Lemma next_mask (i : nat) (mask : Z) (q : list field) : mask = 2 ^ Z.of_nat i -> (i + length q < 32)%nat ->
  q = [] \/ wrapu 32 (Z.shiftl mask 1) = 2 ^ Z.of_nat (S i).
Proof.
  intros -> H32. destruct q as [|e q]; [by left|]. right. cbn [length] in H32.
  assert (2 ^ Z.of_nat (S i) < 2 ^ 32) by (apply Z.pow_lt_mono_r; lia).
  rewrite Z.shiftl_mul_pow2 by lia. rewrite Nat2Z.inj_succ, Z.pow_succ_r in * by lia. rewrite wrapu_small by lia. lia.
Qed.

Section scan.
Variables ord scanDir : Z.
Hypothesis Hscan : scanDir = 1 \/ scanDir = -1.
Let nm := [if scanDir =? 1 then KS.char_g else KS.char_l].

(** [woCompare] of the fields of a query with the first fields of a key. *)
Lemma reaches_ordering (q : list field) : forall k i mask dirs,
  q = [] \/ mask = 2 ^ Z.of_nat i -> (i + length q <= 32)%nat ->
  (forall j, (j < length q)%nat -> dirs !! j = Some (bit_dir ord (i + j) * scanDir)) -> query_names nm q ->
  Forall (fun x : field => key_ok x.2) q -> Forall (fun x : field => key_ok x.2) k -> (length q <= length k)%nat ->
  exists z, Cmp.woCompare_ordering D false None ord mask q (take (length q) k) = Some z /\
    reaches D dirs q k = if z =? 0 then negb (excludes q) else scanDir * z <? 0.
Proof.
  induction q as [|e q IH]; intros k i mask dirs Hm H32 Hd Hn Hq Hk Hl.
  { exists 0. cbn. split; [done|]. by destruct dirs. }
  destruct Hm as [|Hm]; [done|]. cbn [length] in *. destruct k as [|y k]; [cbn in Hl; lia|].
  pose proof (Hd 0%nat ltac:(lia)) as Hd0. destruct dirs as [|d dirs]; [done|]. cbn in Hd0. injection Hd0 as ->.
  rewrite Nat.add_0_r. apply Forall_cons in Hq as [He Hq], Hk as [Hy Hk]. cbn [length] in *.
  destruct (woCompare_values D e y He Hy) as [Ee _]. cbn [take Cmp.woCompare_ordering reaches]. rewrite Ee. cbn [mbind option_bind]. cbv zeta.
  set (c := woCompare D false (Some e) (Some y)). rewrite Hm, Order.mask_testbit.
  destruct (query_names_cons nm e q Hn) as [He1 Hn']. destruct (Z.eqb_spec c 0) as [E0|E0].
  - replace (if Z.testbit ord (Z.of_nat i) then - c else c) with 0 by (rewrite E0; destruct (Z.testbit ord (Z.of_nat i)); reflexivity). cbn [Z.eqb negb].
    destruct (IH k (S i) (wrapu 32 (Z.shiftl mask 1)) dirs) as (z & Hz & Hr); [by apply next_mask; [|lia]|lia| |done..|lia|].
    { intros j Hj. specialize (Hd (S j) ltac:(lia)). cbn in Hd. by rewrite Nat.add_succ_r in Hd. }
    rewrite <- Hm. exists z. split; [done|]. cbn [excludes existsb].
    destruct He1 as [He1|[He1 ->]].
    + rewrite decide_True, bool_decide_eq_true_2 by done. done.
    + rewrite decide_False, bool_decide_eq_false_2 by (rewrite He1; done). cbn in Hz. injection Hz as <-. done.
  - replace (negb ((if Z.testbit ord (Z.of_nat i) then - c else c) =? 0)) with true
      by (destruct (Z.testbit ord (Z.of_nat i)); lia).
    eexists. split; [reflexivity|]. destruct (Z.testbit ord (Z.of_nat i)), Hscan as [-> | ->];
      destruct (Z.eqb_spec (- c) 0), (Z.eqb_spec c 0); lia.
Qed.

(** [IndexEntryComparison::compare] of a query and a stored entry. *)
Lemma compare_fields_reaches (q : list field) : forall k i mask dirs r,
  q = [] \/ mask = 2 ^ Z.of_nat i -> (i + length q <= 32)%nat ->
  (forall j, (j < length q)%nat -> dirs !! j = Some (bit_dir ord (i + j) * scanDir)) -> query_names nm q ->
  Forall (fun x : field => key_ok x.2) q -> Forall (fun x : field => key_ok x.2) k -> Forall (fun x : field => x.1 = []) k ->
  (length q <= length k)%nat -> length q = length k \/ excludes q = true ->
  exists z, compare_fields D ord mask q k 0 r = Some z /\ (scanDir * z <=? 0) = reaches D dirs q k.
Proof.
  induction q as [|e q IH]; intros k i mask dirs r Hm H32 Hd Hn Hq Hk Hkn Hl Hx.
  { destruct k; [|by destruct Hx]. exists 0. cbn. split; [done|]. rewrite Z.mul_0_r. by destruct dirs. }
  destruct Hm as [|Hm]; [done|]. cbn [length] in *. destruct k as [|y k]; [cbn in Hl; lia|].
  pose proof (Hd 0%nat ltac:(lia)) as Hd0. destruct dirs as [|d dirs]; [done|]. cbn in Hd0. injection Hd0 as ->.
  rewrite Nat.add_0_r. apply Forall_cons in Hq as [He Hq], Hk as [Hy Hk], Hkn as [Hyn Hkn]. cbn [length] in *.
  destruct (woCompare_values D e y He Hy) as [Ee _]. cbn [compare_fields reaches]. rewrite Ee. cbn [mbind option_bind]. cbv zeta.
  set (c := woCompare D false (Some e) (Some y)). rewrite Hm, Order.mask_testbit.
  destruct (query_names_cons nm e q Hn) as [He1 Hn']. destruct (Z.eqb_spec c 0) as [E0|E0]; cbn [negb].
  - unfold name_byte. rewrite Hyn. cbn [head default from_option id]. destruct He1 as [He1|[He1 Hq0]]; rewrite He1; cbn [head].
    + rewrite decide_True by done. cbv [default from_option id]. cbn [Z.eqb negb].
      rewrite <- Hm. apply (IH k (S i)); [by apply next_mask; [|lia]|lia| |done..|lia|].
      { intros j Hj. specialize (Hd (S j) ltac:(lia)). cbn in Hd. by rewrite Nat.add_succ_r in Hd. }
      destruct Hx as [Hx|Hx]; [left; lia|]. cbn [excludes existsb] in Hx. rewrite bool_decide_eq_true_2 in Hx by done. by right.
    + rewrite decide_False by done. unfold nm. cbv [default from_option id]. cbn [head].
      destruct Hscan as [-> | ->]; (eexists; split; [reflexivity|reflexivity]).
  - eexists. split; [reflexivity|].
    destruct (Z.eqb_spec c (- 2 ^ 31)); destruct (Z.testbit ord (Z.of_nat i)), Hscan as [-> | ->]; lia.
Qed.

(** The name of the last field of a query decides its discriminator. *)
Lemma query_discriminator (q : list field) (d : Discriminator) : query_names nm q ->
  Keys.key_names q /\
  Keys.discriminator_of q d = if excludes q then if scanDir =? 1 then kExclusiveAfter else kExclusiveBefore else d.
Proof.
  induction q as [|[n v] q IH]; intros Hn; [done|]. destruct (query_names_cons nm (n, v) q Hn) as [He Hn'].
  destruct (IH Hn') as [IH1 IH2]. cbn [fst] in He. destruct q as [|f q].
  - cbn [Keys.key_names Keys.discriminator_of excludes existsb fst]. destruct He as [-> |[-> _]]; [by split; [left|]|].
    unfold nm. destruct Hscan as [-> | ->]; (split; [auto|reflexivity]).
  - destruct He as [-> |[_ He]]; [|done]. split; [by split|]. exact IH2.
Qed.

(** What a query and an entry are to each other, as bytes. *)
Lemma query_bytes_reach ver (q k : list field) (dirs : list Z) (tail : bytes) : Keys.key ver q -> query_names nm q -> Keys.key ver k ->
  (length q <= length k)%nat ->
  (forall j, (j < length q)%nat -> dirs !! j = Some (bit_dir ord j * scanDir)) ->
  let c := SD.lexcmp (Keys.query_bytes ver ord q (if scanDir =? 1 then kExclusiveBefore else kExclusiveAfter))
             (Order.key_bytes ver ord 0 k ++ kEnd :: tail) in
  c <> 0 /\ (scanDir * c <? 0) = reaches D dirs q k.
Proof.
  intros Hq Hn Hk Hl Hd. destruct (query_discriminator q (if scanDir =? 1 then kExclusiveBefore else kExclusiveAfter) Hn) as [_ Hdisc].
  destruct (Keys.query_lexcmp D ver ord q (take (length q) k) (drop (length q) k) (if scanDir =? 1 then kExclusiveBefore else kExclusiveAfter) tail)
    as (z & Hz & Hc); [done|by rewrite take_drop|rewrite length_take; lia|right; rewrite Hdisc; by destruct (excludes q), (scanDir =? 1)|]. rewrite take_drop, Hdisc in Hc. cbv zeta. rewrite Hc.
  destruct (reaches_ordering q k 0 1 dirs) as (z' & Hz' & ->); [by right|destruct Hq as (_ & ? & _); lia|done|done|apply Hq|apply Hk|done|].
  rewrite Hz in Hz'. injection Hz' as <-. destruct (Z.eqb_spec z 0) as [E|E].
  - destruct (excludes q), Hscan as [-> | ->]; (split; [discriminate|reflexivity]).
  - split; [lia|]. destruct Hscan as [-> | ->]; lia.
Qed.
End scan.

(** The comparators of the storage engines agree on queries: for a query that names its
    last field or has as many fields as the key, [IndexEntryComparison::compare] with
    the stored entry and [KeyString::compare] of the two strings put the entry on the same
    side of the query, the one that the fields of the query say. *)
Theorem query_comparisons_agree dec ver (kp : list field) (ord scanDir : Z) (junk junk' : list Z) (q k : list field) (r : Z) :
  length junk = 128%nat -> length junk' = 128%nat -> scanDir = 1 \/ scanDir = -1 ->
  comparable_pattern kp -> Cmp.Ordering_make D kp = Ret ord ->
  Keys.key ver q -> query_names [if scanDir =? 1 then KS.char_g else KS.char_l] q ->
  length q = length k \/ excludes q = true -> (length q <= length k)%nat ->
  Keys.stored_key ver k -> length k = length kp -> 0 <= r < 2 ^ 63 ->
  exists z kq ke, entry_compare D ord (q, 0) (k, r) = Some z /\
    KS.resetToQuery dec ver junk q ord (if scanDir =? 1 then kExclusiveBefore else kExclusiveAfter) = Ret kq /\
    KS.resetToKey dec ver junk' k ord r = Ret ke /\
    (scanDir * z <=? 0) = reaches D (directions D kp scanDir) q k /\
    (scanDir * KS.compare kq ke <? 0) = reaches D (directions D kp scanDir) q k /\ KS.compare kq ke <> 0.
Proof.
  intros Hj Hj' Hs Hc Ho Hq Hn Hx Hl Hk Hkl Hr. destruct (directions_bits kp ord scanDir Hc Ho) as (H32 & _ & Hd).
  destruct (query_discriminator scanDir Hs q (if scanDir =? 1 then kExclusiveBefore else kExclusiveAfter) Hn) as [Hkn _].
  destruct (Keys.query_encoded dec ver ord junk Hj q (if scanDir =? 1 then kExclusiveBefore else kExclusiveAfter) Hq Hkn) as (kq & Eq & Bq & _).
  destruct (Keys.entry_encoded dec ver ord junk' Hj' k r Hk Hr) as (ke & Ee & Be & _).
  destruct (compare_fields_reaches ord scanDir Hs q k 0 1 (directions D kp scanDir) r) as (z & Hz & Hzr);
    [by right|lia|intros j Hj0; apply Hd; lia|done|apply Hq|apply Hk|apply Hk|done|done|].
  destruct (query_bytes_reach ord scanDir Hs ver q k (directions D kp scanDir) (Keys.rid_bytes r)) as [Hne Hcr];
    [done|done|apply Hk|done|intros j Hj0; apply Hd; lia|].
  exists z, kq, ke. rewrite Keys.compare_lexcmp_keys, Bq, Be. auto 10.
Qed.
End queries.

(** ** A concrete scan *)

(** An index on [a] ascending and [b] descending, scanned forward with bounds [1, 3), (3, 8] on [a]
    and [10, 6), [3, 2] on [b]. *)
Definition demo_bounds : IndexBounds :=
  mkBounds [demo_split; mkOIL [int_interval 10 6 true false; int_interval 3 2 true true] [98]] false [] [] kIncludeBothStartAndEndKeys.
Definition demo_checker : IndexBoundsChecker := make_checker Pattern.no_decimal demo_bounds Sets.demo_pattern 1.

Lemma demo_bounds_ok : bounds_ok Pattern.no_decimal (_expectedDirection demo_checker) (fields (_bounds demo_checker)).
Proof.
  change (_expectedDirection demo_checker) with (directions Pattern.no_decimal Sets.demo_pattern 1).
  assert (directions Pattern.no_decimal Sets.demo_pattern 1 = [1; -1]) as -> by (vm_compute; reflexivity).
  constructor; [split; [auto|split; [exact demo_split_ok|cbn; lia]]|].
  constructor; [split; [auto|split; [|cbn; lia]]|constructor]. split; [solve_intervals|vm_compute; reflexivity].
Qed.
Lemma demo_key_of (a b : Z) : - 2 ^ 31 <= a < 2 ^ 31 -> - 2 ^ 31 <= b < 2 ^ 31 -> key_of 2 [([], VInt a); ([], VInt b)].
Proof. intros Ha Hb. split; [done|]. constructor; [by apply int_ok|]. constructor; [by apply int_ok|done]. Qed.

(** The key {3, 5} is between the intervals of [a]; the seek point is (3, 10]. *)
Lemma checkKey_exact_witness : exists c' out' q,
  checkKey Pattern.no_decimal demo_checker [([], VInt 3); ([], VInt 5)] IndexSeekPoint_init = Some (MUST_ADVANCE, c', out') /\
  makeQueryObject out' true = Some q /\ q = [([KS.char_g], VInt 3)] /\
  reaches Pattern.no_decimal (_expectedDirection demo_checker) q [([], VInt 4); ([], VInt 10)] = true.
Proof.
  destruct (checkKey_exact Pattern.no_decimal true demo_checker [([], VInt 3); ([], VInt 5)] IndexSeekPoint_init demo_bounds_ok)
    as (st & c' & out' & E & _ & _ & _ & Hst);
    [repeat constructor; cbn; lia|cbn; lia|apply demo_key_of; lia|by repeat constructor|].
  vm_compute in E. injection E as <- <- <-. destruct Hst as (_ & q & Eq & _ & _ & _ & _ & Hr).
  eexists _, _, q. split; [vm_compute; reflexivity|]. split; [exact Eq|]. split; [vm_compute in Eq; by injection Eq as <-|].
  apply Hr; [apply demo_key_of; lia|vm_compute; reflexivity|vm_compute; reflexivity].
Defined.
Lemma start_and_validity_witness :
  isValidKey Pattern.no_decimal demo_checker [([], VInt 8); ([], VInt 3)] = Some true.
Proof.
  rewrite (proj1 (start_and_validity Pattern.no_decimal true demo_checker IndexSeekPoint_init demo_bounds_ok)) by (apply demo_key_of; lia).
  vm_compute. reflexivity.
Defined.
Lemma query_comparisons_agree_witness : exists z kq ke,
  entry_compare Pattern.no_decimal Keys.demo_ord ([([KS.char_g], VInt 7)], 0) (Keys.demo_right, 3) = Some z /\ z = 1 /\
  KS.resetToQuery Keys.no_append V1 Keys.demo_junk [([KS.char_g], VInt 7)] Keys.demo_ord kExclusiveBefore = Ret kq /\
  KS.resetToKey Keys.no_append V1 Keys.demo_junk Keys.demo_right Keys.demo_ord 3 = Ret ke /\ (1 * KS.compare kq ke <? 0) = false.
Proof.
  destruct (query_comparisons_agree Pattern.no_decimal Keys.no_append V1 Sets.demo_pattern Keys.demo_ord 1 Keys.demo_junk Keys.demo_junk
    [([KS.char_g], VInt 7)] Keys.demo_right 3) as (z & kq & ke & Hz & Hq & He & H1 & H2 & _).
  - reflexivity.
  - reflexivity.
  - auto.
  - repeat constructor.
  - vm_compute. reflexivity.
  - split; [|split; [vm_compute; lia|vm_compute; lia]]. Keys.solve_keys.
  - right. reflexivity.
  - right. reflexivity.
  - cbn. lia.
  - exact Keys.demo_right_stored.
  - reflexivity.
  - lia.
  - exists z, kq, ke. split; [exact Hz|]. split; [vm_compute in Hz; by injection Hz as <-|]. split; [exact Hq|]. split; [exact He|].
    rewrite H2. vm_compute. reflexivity.
Defined.

End Guide.
