(* ===== verification/WtIndex.v ===== *)
(** * The WiredTiger index and its cursor

    The indexes of [db/storage/wiredtiger/wiredtiger_index.cpp], standard and unique:
    [Module Tab] is the interface of a WiredTiger table and the laws that the index relies on,
    [Module Idx] the operations of the index and of its cursor, [Module Walk] the theorems, that
    a table holds exactly the entries of an index and that the cursor walks over them in
    order. *)
From Stdlib Require Import ZArith Lia Bool.
From stdpp Require Import base list option sorting gmap.
From S2P Require Import Prelude StringData Bson BsonCompare KeyString KeyStringOrder KeyStringRefine KeyStringDecode IndexBounds BoundsChecker.
Open Scope Z_scope.

Module Tab.

Abbreviation row := (bytes * bytes)%type.
Definition key_before (a b : row) : Prop := SD.lexcmp a.1 b.1 < 0.

(** What the index calls of a WiredTiger table: its rows in the order of a cursor, [insert]
    ([None] is [WT_DUPLICATE_KEY]), [update] and [remove] ([None] is [WT_NOTFOUND]), [search], which
    gives the position of a key, and [search_near], which gives a position and a comparison of
    the row there with the key. *)
Class WtTable (T : Type) := {
  wt_rows : T -> list row;
  wt_insert : bytes -> bytes -> T -> option T;
  wt_update : bytes -> bytes -> T -> option T;
  wt_remove : bytes -> T -> option T;
  wt_search : T -> bytes -> option nat;
  wt_search_near : T -> bytes -> option (nat * Z)
}.
(** Rows are sorted by [memcmp] and length; a key is in at most one of them; [search_near]
    finds the row of the key, or one that is next to where it would be. *)
Class WtLaws (T : Type) `{WtTable T} : Prop := {
  wt_sorted (t : T) : StronglySorted key_before (wt_rows t);
  wt_insert_spec (k v : bytes) (t : T) :
    match wt_insert k v t with
    | Some t' => k ∉ (wt_rows t).*1 /\ wt_rows t' ≡ₚ (k, v) :: wt_rows t
    | None => k ∈ (wt_rows t).*1
    end;
  wt_update_spec (k v : bytes) (t : T) :
    match wt_update k v t with
    | Some t' => exists v0 l, wt_rows t ≡ₚ (k, v0) :: l /\ wt_rows t' ≡ₚ (k, v) :: l
    | None => k ∉ (wt_rows t).*1
    end;
  wt_remove_spec (k : bytes) (t : T) :
    match wt_remove k t with
    | Some t' => exists v, wt_rows t ≡ₚ (k, v) :: wt_rows t'
    | None => k ∉ (wt_rows t).*1
    end;
  wt_search_spec (t : T) (k : bytes) :
    match wt_search t k with
    | Some i => exists v, wt_rows t !! i = Some (k, v)
    | None => k ∉ (wt_rows t).*1
    end;
  wt_near_spec (t : T) (q : bytes) :
    match wt_search_near t q with
    | None => wt_rows t = []
    | Some (i, c) => exists kv, wt_rows t !! i = Some kv /\ Z.sgn c = SD.lexcmp kv.1 q /\
        (forall j kv', wt_rows t !! j = Some kv' -> (j < i)%nat -> SD.lexcmp kv'.1 q < 0) /\
        (forall j kv', wt_rows t !! j = Some kv' -> (i < j)%nat -> 0 < SD.lexcmp kv'.1 q)
    end
}.

End Tab.

Module Idx.
Import IB Chk Tab.

Inductive idx_error := KsError (e : ks_error) | WriteConflict | KeyTooLong | DuplicateKey | DuplicateKeyValue.
Definition lift {A} (o : outcome ks_error A) : outcome idx_error A :=
  match o with Ret a => Ret a | Throw e => Throw (KsError e) | Fault => Fault | NoFuel => NoFuel end.

Definition TempKeyMaxSize : Z := 1024.
(** [RecordId::isNormal]. *)
Definition isNormal (id : Z) : bool := (0 <? id) && (id <? 2 ^ 63 - 1).

Definition hasFieldNames (obj : list field) : bool := existsb (fun e : field => negb (name_byte e.1 =? 0)) obj.
Definition stripFieldNames (query : list field) : list field :=
  if negb (hasFieldNames query) then query else List.map (fun e : field => ([], e.2)) query.
Definition checkKeySize (key : list field) : bool := negb (TempKeyMaxSize <=? Z.of_nat (length (enc_obj key))).

Section index.
Context {T : Type} `{WtTable T}.
(** The encoder and the decoder of decimals, the version and the ordering of the index. *)
Variable enc : bytes -> bool -> KS.KeyString -> outcome ks_error KS.KeyString.
Variable dec : Z -> bool -> KD.st -> KD.res (value * KD.st).
Variable ver : Version.
Variable ord : Z.
(** What the array of type bits of a new [KeyString] holds. *)
Variable junk : list Z.

(** ** The index *)

(** [WiredTigerIndexStandard::_insert]. *)
Definition _insert (keyBson : list field) (id : Z) (dupsAllowed : bool) (c : T) : outcome idx_error T :=
  _ ← verify dupsAllowed;
  key ← lift (KS.resetToKey enc ver junk keyBson ord id);
  let valueItem := if TB._isAllZeros (KS._typeBits key) then [] else TB.getBuffer (KS._typeBits key) in
  match wt_insert (KS._buffer key) valueItem c with
  | Some c' => Ret c'
  | None => Ret c
  end.
Definition insert (key : list field) (id : Z) (dupsAllowed : bool) (c : T) : outcome idx_error T :=
  _ ← verify (isNormal id);
  _ ← require KeyTooLong (checkKeySize key);
  _insert key id dupsAllowed c.

(** [WiredTigerIndexStandard::_unindex]: a row that is missing is inserted and removed
    again. *)
Definition _unindex (key : list field) (id : Z) (dupsAllowed : bool) (c : T) : outcome idx_error T :=
  _ ← verify dupsAllowed;
  data ← lift (KS.resetToKey enc ver junk key ord id);
  match wt_remove (KS._buffer data) c with
  | Some c' => Ret c'
  | None =>
      match wt_insert (KS._buffer data) [] c with
      | None => Fault
      | Some c' => match wt_remove (KS._buffer data) c' with Some c'' => Ret c'' | None => Fault end
      end
  end.
Definition unindex (key : list field) (id : Z) (dupsAllowed : bool) (c : T) : outcome idx_error T :=
  _ ← verify (isNormal id);
  _unindex key id dupsAllowed c.

(** ** The cursor *)

(** [is_unique] tells the two classes of cursors apart; [wt_pos] is the position of the WiredTiger
    cursor, [None] when it has none. *)
Record IndexCursor := mkCursor {
  is_unique : bool;
  _forward : bool;
  wt_pos : option nat;
  _key : KS.KeyString;
  _typeBits : TB.TypeBits;
  _id : Z;
  _eof : bool;
  _cursorAtEof : bool;
  _lastMoveWasRestore : bool;
  _query : KS.KeyString;
  _endPosition : option KS.KeyString
}.
Definition newCursor (unique forward : bool) : IndexCursor :=
  mkCursor unique forward None (KS.resetToEmpty ver junk) (TB.reset ver junk) 0 true false false (KS.resetToEmpty ver junk) None.

Definition at_pos (pos : option nat) (atEof : bool) (c : IndexCursor) : IndexCursor :=
  mkCursor (is_unique c) (_forward c) pos (_key c) (_typeBits c) (_id c) (_eof c) atEof (_lastMoveWasRestore c) (_query c) (_endPosition c).
Definition with_query (q : KS.KeyString) (c : IndexCursor) : IndexCursor :=
  mkCursor (is_unique c) (_forward c) (wt_pos c) (_key c) (_typeBits c) (_id c) (_eof c) (_cursorAtEof c) (_lastMoveWasRestore c) q (_endPosition c).

Definition setEndPosition (key : list field) (inclusive : bool) (c : IndexCursor) : outcome idx_error IndexCursor :=
  let with_end e := mkCursor (is_unique c) (_forward c) (wt_pos c) (_key c) (_typeBits c) (_id c) (_eof c) (_cursorAtEof c)
                      (_lastMoveWasRestore c) (_query c) e in
  match key with
  | [] => Ret (with_end None)
  | _ =>
      let discriminator := if Bool.eqb (_forward c) inclusive then kExclusiveAfter else kExclusiveBefore in
      e ← lift (KS.resetToQuery enc ver junk (stripFieldNames key) ord discriminator);
      Ret (with_end (Some e))
  end.

Definition atOrPastEndPointAfterSeeking (c : IndexCursor) : bool :=
  if _eof c then true
  else
    match _endPosition c with
    | None => false
    | Some e =>
        let cmp := KS.compare (_key c) e in
        if _forward c then 0 <? cmp else cmp <? 0
    end.

(** [advanceWTCursor]; a WiredTiger cursor without a position moves to the first or last row. *)
Definition advanceWTCursor (t : T) (c : IndexCursor) : IndexCursor :=
  let n := length (wt_rows t) in
  let next :=
    match wt_pos c with
    | None => if _forward c then 0%nat else (n - 1)%nat
    | Some i => if _forward c then (i + 1)%nat else (i - 1)%nat
    end in
  let found :=
    match wt_pos c with
    | None => (0 <? n)%nat
    | Some i => if _forward c then (i + 1 <? n)%nat else (0 <? i)%nat
    end in
  if found then at_pos (Some next) false c else at_pos None true c.

(** [seekWTCursor]; the flag is an exact match. *)
Definition seekWTCursor (query : KS.KeyString) (t : T) (c : IndexCursor) : IndexCursor * bool :=
  match wt_search_near t (KS._buffer query) with
  | None => (at_pos None true c, false)
  | Some (i, cmp) =>
      let c := at_pos (Some i) false c in
      if cmp =? 0 then (c, true)
      else if (if _forward c then cmp <? 0 else 0 <? cmp) then (advanceWTCursor t c, false)
      else (c, false)
  end.

(** [updateIdAndTypeBits] of [WiredTigerIndexStandardCursor] and of [WiredTigerIndexUniqueCursor]. *)
Definition updateIdAndTypeBits (t : T) (c : IndexCursor) : outcome idx_error IndexCursor :=
  id ← lift (KD.decodeRecordIdAtEnd (KS._buffer (_key c)));
  match wt_pos c ≫= (fun i => wt_rows t !! i) with
  | None => Fault
  | Some (_, item) =>
      '(tb, _) ← lift (TB.resetFromBuffer (TB.version (_typeBits c)) (TB._buf (_typeBits c)) item);
      Ret (mkCursor (is_unique c) (_forward c) (wt_pos c) (_key c) tb id (_eof c) (_cursorAtEof c) (_lastMoveWasRestore c)
             (_query c) (_endPosition c))
  end.

Definition updateIdAndTypeBits_unique (t : T) (c : IndexCursor) : outcome idx_error IndexCursor :=
  match wt_pos c ≫= (fun i => wt_rows t !! i) with
  | None => Fault
  | Some (_, item) =>
      '(id, (br, _)) ← lift (KD.decodeRecordId (item, 0));
      '(tb, br) ← lift (TB.resetFromBuffer (TB.version (_typeBits c)) (TB._buf (_typeBits c)) br);
      match br with
      | [] => Ret (mkCursor (is_unique c) (_forward c) (wt_pos c) (_key c) tb id (_eof c) (_cursorAtEof c) (_lastMoveWasRestore c)
                     (_query c) (_endPosition c))
      | _ => Fault
      end
  end.

Definition updatePosition (inNext : bool) (t : T) (c : IndexCursor) : outcome idx_error IndexCursor :=
  if _cursorAtEof c then
    Ret (mkCursor (is_unique c) (_forward c) (wt_pos c) (_key c) (_typeBits c) 0 true (_cursorAtEof c) false (_query c) (_endPosition c))
  else
    match wt_pos c ≫= (fun i => wt_rows t !! i) with
    | None => Fault
    | Some (item, _) =>
        let old := KS._buffer (_key c) in
        let cmp := SD.memcmp old item (Nat.min (length old) (length item)) in
        let nextNotIncreasing := (0 <? cmp) || ((cmp =? 0) && (length item <? length old)%nat) in
        if _forward c && inNext && negb (length old =? 0)%nat && nextNotIncreasing then Throw WriteConflict
        else
          let c := mkCursor (is_unique c) (_forward c) (wt_pos c) (KS.mkKeyString (KS.version (_key c)) item (KS._typeBits (_key c)))
                     (_typeBits c) (_id c) false (_cursorAtEof c) false (_query c) (_endPosition c) in
          if atOrPastEndPointAfterSeeking c then
            Ret (mkCursor (is_unique c) (_forward c) (wt_pos c) (_key c) (_typeBits c) (_id c) true (_cursorAtEof c) false
                   (_query c) (_endPosition c))
          else if is_unique c then updateIdAndTypeBits_unique t c
          else updateIdAndTypeBits t c
    end.

Definition curr (c : IndexCursor) : outcome idx_error (option (list field * Z)) :=
  if _eof c then Ret None
  else
    bson ← lift (KD.key_toBson (_typeBits c) dec (KS._buffer (_key c)) ord);
    Ret (Some (bson, _id c)).

Definition next (t : T) (c : IndexCursor) : outcome idx_error (option (list field * Z) * IndexCursor) :=
  if _eof c then Ret (None, c)
  else
    let c := if negb (_lastMoveWasRestore c) then advanceWTCursor t c else c in
    c ← updatePosition true t c;
    r ← curr c;
    Ret (r, c).

(** The end of both kinds of [seek]. *)
Definition seek_query (key : list field) (discriminator : Discriminator) (t : T) (c : IndexCursor) :
    outcome idx_error (option (list field * Z) * IndexCursor) :=
  q ← lift (KS.resetToQuery enc ver (TB._buf (KS._typeBits (_query c))) key ord discriminator);
  let '(c, _) := seekWTCursor q t (with_query q c) in
  c ← updatePosition false t c;
  r ← curr c;
  Ret (r, c).
Definition seek (key : list field) (inclusive : bool) (t : T) (c : IndexCursor) :
    outcome idx_error (option (list field * Z) * IndexCursor) :=
  seek_query (stripFieldNames key) (if Bool.eqb (_forward c) inclusive then kExclusiveBefore else kExclusiveAfter) t c.
Definition seek_point (p : IndexSeekPoint) (t : T) (c : IndexCursor) :
    outcome idx_error (option (list field * Z) * IndexCursor) :=
  match makeQueryObject p (_forward c) with
  | None => Fault
  | Some key => seek_query key (if _forward c then kExclusiveBefore else kExclusiveAfter) t c
  end.
(** [WiredTigerIndexUniqueCursor::seekExact]. *)
Definition seekExact (key : list field) (t : T) (c : IndexCursor) : outcome idx_error (option (list field * Z) * IndexCursor) :=
  q ← lift (KS.resetToQuery enc ver (TB._buf (KS._typeBits (_query c))) (stripFieldNames key) ord kInclusive);
  let c := with_query q c in
  let c := match wt_search t (KS._buffer q) with None => at_pos None true c | Some i => at_pos (Some i) false c end in
  c ← updatePosition false t c;
  r ← curr c;
  Ret (r, c).

Definition save (c : IndexCursor) : IndexCursor := at_pos None (_cursorAtEof c) c.
Definition saveUnpositioned (c : IndexCursor) : IndexCursor :=
  let c := save c in
  mkCursor (is_unique c) (_forward c) (wt_pos c) (_key c) (_typeBits c) (_id c) true (_cursorAtEof c) (_lastMoveWasRestore c) (_query c) (_endPosition c).
Definition restore (t : T) (c : IndexCursor) : IndexCursor :=
  if _eof c then c
  else
    let '(c, exact) := seekWTCursor (_key c) t c in
    mkCursor (is_unique c) (_forward c) (wt_pos c) (_key c) (_typeBits c) (_id c) (_eof c) (_cursorAtEof c) (negb exact) (_query c) (_endPosition c).

Definition isEmpty (t : T) : bool := (length (wt_rows t) =? 0)%nat.

End index.
End Idx.

(** ** Walking over an index *)
Module Walk.
Import IB Chk Guide Tab Idx Enc Keys KeyRead Values BitReader.

Abbreviation entry := (list field * Z)%type.

(** The rows of a table, or the entries of an index, in the order of a scan. *)
Definition scan {A} (forward : bool) (l : list A) : list A := if forward then l else reverse l.
Definition scan_pos (forward : bool) (n j : nat) : nat := if forward then j else (n - 1 - j)%nat.
Definition sense (forward : bool) : Z := if forward then 1 else -1.

Lemma scan_lookup {A} (forward : bool) (l : list A) (j : nat) : (j < length l)%nat ->
  scan forward l !! j = l !! scan_pos forward (length l) j.
Proof.
  intros Hj. destruct forward; [done|]. cbn. rewrite reverse_lookup by done. f_equal. lia.
Qed.
Lemma length_scan {A} (forward : bool) (l : list A) : length (scan forward l) = length l.
Proof. destruct forward; [done|apply length_reverse]. Qed.
Lemma scan_fmap {A B} (f : A -> B) (forward : bool) (l : list A) : scan forward (f <$> l) = f <$> scan forward l.
Proof. destruct forward; [done|]. cbn. symmetry. apply fmap_reverse. Qed.

(** What a negative sense does to a comparison. *)
Lemma scan_rows_sorted (forward : bool) (l : list row) : StronglySorted key_before l ->
  StronglySorted (fun a b : row => sense forward * SD.lexcmp a.1 b.1 < 0) (scan forward l).
Proof.
  intros Hs. destruct forward; cbn [scan sense].
  - eapply Sets.StronglySorted_mono; [|exact Hs]. unfold key_before. intros a b. lia.
  - induction Hs as [|a l _ IH Ha]; [constructor|]. rewrite reverse_cons. apply StronglySorted_app.
    split; [|split; [exact IH|repeat constructor]]. intros b a' Hb ->%list_elem_of_singleton.
    rewrite elem_of_reverse in Hb. rewrite Forall_forall in Ha. specialize (Ha b Hb). unfold key_before in Ha.
    rewrite SD.lexcmp_antisym. lia.
Qed.

Section table.
Context {T : Type} `{WtLaws T}.

Lemma advance_spec (t : T) (c : IndexCursor) (j : nat) : (j < length (wt_rows t))%nat ->
  wt_pos c = Some (scan_pos (_forward c) (length (wt_rows t)) j) ->
  advanceWTCursor t c =
    if (S j <? length (wt_rows t))%nat then at_pos (Some (scan_pos (_forward c) (length (wt_rows t)) (S j))) false c
    else at_pos None true c.
Proof.
  intros Hj Hp. unfold advanceWTCursor. cbv zeta. rewrite Hp. unfold scan_pos. destruct (_forward c).
  - replace (j + 1)%nat with (S j) by lia. done.
  - destruct (Nat.ltb_spec 0 (length (wt_rows t) - 1 - j)), (Nat.ltb_spec (S j) (length (wt_rows t))); try lia; [|done].
    do 2 f_equal. lia.
Qed.

(** The cursor is at the row [j] of the scan, or behind the last one. *)
Definition moved (t : T) (j : nat) (c : IndexCursor) : IndexCursor :=
  if (j <? length (wt_rows t))%nat then at_pos (Some (scan_pos (_forward c) (length (wt_rows t)) j)) false c else at_pos None true c.

(** The first row of a scan that is not before a key. *)
Definition first_not_before (forward : bool) (q : bytes) (rows : list row) (j : nat) : Prop :=
  (j <= length rows)%nat /\
  (forall m kv, scan forward rows !! m = Some kv -> (m < j)%nat -> sense forward * SD.lexcmp kv.1 q < 0) /\
  (forall m kv, scan forward rows !! m = Some kv -> (j <= m)%nat -> 0 <= sense forward * SD.lexcmp kv.1 q).

Lemma seekWT_spec (q : KS.KeyString) (t : T) (c : IndexCursor) : exists j exact,
  seekWTCursor q t c = (moved t j c, exact) /\ first_not_before (_forward c) (KS._buffer q) (wt_rows t) j /\
  (exact = true <-> exists kv, scan (_forward c) (wt_rows t) !! j = Some kv /\ SD.lexcmp kv.1 (KS._buffer q) = 0).
Proof.
  unfold seekWTCursor. pose proof (wt_near_spec t (KS._buffer q)) as Hn.
  destruct (wt_search_near t (KS._buffer q)) as [[i cmp]|].
  2: { exists 0%nat, false. unfold moved, first_not_before. rewrite Hn. cbn. split; [done|].
    split; [split; [lia|destruct (_forward c); split; intros; done]|]. split; [done|]. destruct (_forward c); by intros (kv & ? & _). }
  destruct Hn as (kv & Hkv & Hc & Hlow & Hhigh). pose proof (lookup_lt_Some _ _ _ Hkv) as Hi.
  set (n := length (wt_rows t)) in *. set (fwd := _forward c). set (j := scan_pos fwd n i).
  assert (Hj : (j < n)%nat /\ scan_pos fwd n j = i) by (unfold j, scan_pos; destruct fwd; lia).
  destruct Hj as [Hj Hji].
  assert (Hjkv : scan fwd (wt_rows t) !! j = Some kv) by (rewrite scan_lookup by done; fold n; by rewrite Hji).

  assert (Haround : forall m kv', scan fwd (wt_rows t) !! m = Some kv' ->
    ((m < j)%nat -> sense fwd * SD.lexcmp kv'.1 (KS._buffer q) < 0) /\ ((j < m)%nat -> 0 < sense fwd * SD.lexcmp kv'.1 (KS._buffer q))).
  { intros m kv' Hm. pose proof (lookup_lt_Some _ _ _ Hm) as Hmn. rewrite length_scan in Hmn. fold n in Hmn.
    rewrite scan_lookup in Hm by done. fold n in Hm. specialize (Hlow _ _ Hm). specialize (Hhigh _ _ Hm).
    unfold j, scan_pos, sense in *. destruct fwd; split; intros; lia. }
  assert (Hat : at_pos (Some i) false c = moved t j c).
  { unfold moved. fold n fwd. destruct (Nat.ltb_spec j n); [|lia]. by rewrite Hji. }
  cbn [_forward at_pos]. fold fwd. destruct (Z.eqb_spec cmp 0) as [E0|E0].
  - exists j, true. split; [by rewrite Hat|]. split; [split; [lia|split; intros m kv' Hm Hmj]|].
    + by apply (Haround m kv').
    + destruct (Nat.eq_dec m j) as [->|]; [simplify_eq; lia|]. destruct (Haround m kv' Hm). lia.
    + split; [|done]. intros _. exists kv. split; [done|lia].
  - assert (Hs : (if fwd then cmp <? 0 else 0 <? cmp) = (sense fwd * SD.lexcmp kv.1 (KS._buffer q) <? 0)).
    { unfold sense. destruct fwd; lia. }
    rewrite Hs. destruct (Z.ltb_spec (sense fwd * SD.lexcmp kv.1 (KS._buffer q)) 0) as [Hlt|Hge].
    + exists (S j), false. split; [|split].
      * rewrite (advance_spec t _ j); [|done|cbn; fold fwd n; by rewrite Hji]. unfold moved. fold n. cbn [_forward at_pos]. fold fwd.
        by destruct (Nat.ltb_spec (S j) n).
      * split; [lia|]. split; intros m kv' Hm Hmj; destruct (Haround m kv' Hm); [|lia].
        destruct (Nat.eq_dec m j) as [->|]; [by simplify_eq|lia].
      * split; [done|]. intros (kv' & Hm & Hkv0). destruct (Haround _ _ Hm). lia.
    + exists j, false. split; [by rewrite Hat|]. split; [split; [lia|split; intros m kv' Hm Hmj]|].
      * by apply (Haround m kv').
      * destruct (Nat.eq_dec m j) as [->|]; [by simplify_eq|]. destruct (Haround m kv' Hm). lia.
      * split; [done|]. intros (kv' & Hm & Hkv0). simplify_eq. lia.
Qed.


(** *** Entries *)
Section entries.
Variable D : Cmp.Decimal128.
Variable enc : bytes -> bool -> KS.KeyString -> outcome ks_error KS.KeyString.
Variable dec : Z -> bool -> KD.st -> KD.res (value * KD.st).
Variable ver : Version.
Variable kp : list field.
Variable ord : Z.
Hypothesis Hord : Cmp.Ordering_make D kp = Ret ord.
(** Whether the index is unique: then the record id is in the value of a row, else in its key. *)
Variable unique : bool.

(** An entry that can be stored in the index. *)
Definition entry_ok (e : entry) : Prop := stored_key ver e.1 /\ length e.1 = length kp /\ isNormal e.2 = true.
Definition entry_tail (e : entry) : bytes := if unique then [] else rid_bytes e.2.
Definition entry_bytes (e : entry) : bytes := Order.key_bytes ver ord 0 e.1 ++ kEnd :: entry_tail e.
(** The stored type bits of a key. *)
Definition bits_item (fs : list field) : bytes :=
  let bits := Ref.fields_bits ver fs in
  if forallb negb bits then [] else packed_bits bits.
Definition entry_item (e : entry) : bytes := (if unique then rid_bytes e.2 else []) ++ bits_item e.1.
Definition entry_row (e : entry) : row := (entry_bytes e, entry_item e).
(** What the cursor returns for an entry: a NaN has lost its payload. *)
Definition entry_read (e : entry) : entry := (norm_fields e.1, e.2).

(** The table holds exactly the entries [es], which are in the order of their bytes. *)
Definition holds (t : T) (es : list entry) : Prop := wt_rows t = entry_row <$> es /\ Forall entry_ok es.

Lemma isNormal_range (id : Z) : isNormal id = true -> 0 <= id < 2 ^ 63.
Proof. unfold isNormal. lia. Qed.

(** Reading the row of an entry. *)
Lemma row_read (e : entry) (tb : TB.TypeBits) : entry_ok e -> TB.version tb = ver -> length (TB._buf tb) = 128%nat ->
  exists tb', TB.resetFromBuffer (TB.version tb) (TB._buf tb) (bits_item e.1) = Ret (tb', []) /\
    TB.version tb' = ver /\ length (TB._buf tb') = 128%nat /\
    KD.key_toBson tb' dec (entry_bytes e) ord = Ret (norm_fields e.1).
Proof.
  intros (Hs & Hl & Hn) Hv Hb. pose proof Hs as [(_ & _ & Hfit) _].
  assert (Hread : forall tb', TB.version tb' = ver -> at_bits tb' 0 (Ref.fields_bits ver e.1) ->
    KD.key_toBson tb' dec (entry_bytes e) ord = Ret (norm_fields e.1)).
  { intros tb' Hv' Hat. unfold entry_bytes. rewrite <- Hv'. apply (stored_key_read D tb' dec kp ord e.1); by rewrite ?Hv'. }
  unfold bits_item. cbv zeta. set (bits := Ref.fields_bits ver e.1) in *.
  destruct (forallb negb bits) eqn:Ez.
  { eexists. split; [reflexivity|]. split; [done|]. split; [unfold TB.reset, TB.setSizeByte; cbn [TB._buf]; by rewrite !length_insert|]. apply Hread; [done|]. by cbn. }
  destruct (item_read bits (TB.version tb) (TB._buf tb) [] Hfit Ez Hb) as (tb' & E & Hv' & Hb' & Hat & _).
  rewrite app_nil_r in E. exists tb'. split; [exact E|]. split; [congruence|]. split; [done|]. apply Hread; [congruence|done].
Qed.

(** *** Moves of the cursor *)

Definition cursor_ok (c : IndexCursor) : Prop :=
  is_unique c = unique /\ TB.version (_typeBits c) = ver /\ length (TB._buf (_typeBits c)) = 128%nat /\
  length (TB._buf (KS._typeBits (_query c))) = 128%nat.

(** The entry is behind the end position of the cursor. *)
Definition past_end (c : IndexCursor) (e : entry) : bool :=
  match _endPosition c with
  | None => false
  | Some p => 0 <? sense (_forward c) * SD.lexcmp (entry_bytes e) (KS._buffer p)
  end.

(** The cursor is at the entry [e], which is number [j] of the scan over [n] entries. *)
Definition on (n j : nat) (e : entry) (c : IndexCursor) : Prop :=
  _eof c = false /\ wt_pos c = Some (scan_pos (_forward c) n j) /\ _lastMoveWasRestore c = false /\
  KS._buffer (_key c) = entry_bytes e.

(** A move of the cursor [c] to entry [j] of the scan, with what it returns. *)
Definition lands (es : list entry) (j : nat) (c : IndexCursor) (r : option entry * IndexCursor) : Prop :=
  _forward r.2 = _forward c /\ _endPosition r.2 = _endPosition c /\ cursor_ok r.2 /\
  match scan (_forward c) es !! j with
  | Some e => if past_end c e then r.1 = None /\ _eof r.2 = true
              else r.1 = Some (entry_read e) /\ on (length es) j e r.2
  | None => r.1 = None /\ _eof r.2 = true
  end.

Lemma not_increasing (old item : bytes) :
  (let cmp := SD.memcmp old item (Nat.min (length old) (length item)) in
   (0 <? cmp) || ((cmp =? 0) && (length item <? length old)%nat)) = (0 <? SD.lexcmp old item).
Proof.
  rewrite SD.lexcmp_memcmp. cbv zeta. set (m := SD.memcmp _ _ _). destruct (Z.eqb_spec m 0) as [E|E]; cbn [negb andb].
  - rewrite E. cbn [Z.ltb orb]. destruct (Nat.ltb_spec (length item) (length old));
      repeat case_match; try reflexivity; lia.
  - rewrite orb_false_r. destruct (Z.gtb_spec m 0); lia.
Qed.

Lemma holds_scan (t : T) (es : list entry) (fwd : bool) (j : nat) : holds t es -> (j < length es)%nat -> exists e,
  scan fwd es !! j = Some e /\ entry_ok e /\ wt_rows t !! scan_pos fwd (length es) j = Some (entry_row e) /\
  scan fwd (wt_rows t) !! j = Some (entry_row e).
Proof.
  intros [Hr Hok] Hj. destruct (lookup_lt_is_Some_2 (scan fwd es) j) as [e He]; [by rewrite length_scan|].
  exists e. split; [done|].
  assert (Hs : scan fwd (wt_rows t) !! j = Some (entry_row e)) by (rewrite Hr, scan_fmap, list_lookup_fmap, He; done).
  split; [|split; [|done]].
  - rewrite Forall_forall in Hok. apply Hok. apply list_elem_of_lookup_2 in He. unfold scan in He.
    destruct fwd; [done|]. by rewrite elem_of_reverse in He.
  - rewrite scan_lookup in Hs by (rewrite Hr, length_fmap; done). by rewrite Hr, length_fmap, <- Hr in Hs.
Qed.
Lemma holds_length (t : T) (es : list entry) : holds t es -> length (wt_rows t) = length es.
Proof. intros [-> _]. apply length_fmap. Qed.

(** The record id and the type bits of the row that the cursor is at. *)
Lemma update_read (t : T) (c : IndexCursor) (e : entry) : cursor_ok c -> entry_ok e -> KS._buffer (_key c) = entry_bytes e ->
  wt_pos c ≫= (fun i => wt_rows t !! i) = Some (entry_row e) ->
  exists tb, (if is_unique c then updateIdAndTypeBits_unique t c else updateIdAndTypeBits t c) =
      Ret (mkCursor (is_unique c) (_forward c) (wt_pos c) (_key c) tb e.2 (_eof c) (_cursorAtEof c) (_lastMoveWasRestore c) (_query c) (_endPosition c)) /\
    TB.version tb = ver /\ length (TB._buf tb) = 128%nat /\ KD.key_toBson tb dec (entry_bytes e) ord = Ret (norm_fields e.1).
Proof.
  intros (Hu & Hv & Hb & Hq) Hok Hkey Hrow. pose proof Hok as (_ & _ & Hid%isNormal_range).
  destruct (row_read e (_typeBits c) Hok Hv Hb) as (tb & Etb & Htb). exists tb. split; [|exact Htb].
  unfold updateIdAndTypeBits, updateIdAndTypeBits_unique. rewrite Hrow, Hkey, Hu. unfold entry_row, entry_item, entry_bytes, entry_tail.
  clear - Etb Hid. destruct unique.
  - rewrite (decodeRecordId_app e.2 (bits_item e.1) 0 Hid). cbn [lift]. rewrite bind_Ret, Etb. cbn [lift]. by rewrite bind_Ret.
  - rewrite stored_id_read by done. cbn [lift app]. rewrite bind_Ret, Etb. cbn [lift]. by rewrite bind_Ret.
Qed.

(** [updatePosition] and [curr] after a move of the WiredTiger cursor. *)
Lemma settle (t : T) (es : list entry) (c : IndexCursor) (j : nat) (inNext : bool) : holds t es -> cursor_ok c -> (j <= length es)%nat ->
  (inNext = true -> _forward c = true -> forall e, es !! j = Some e -> SD.lexcmp (KS._buffer (_key c)) (entry_bytes e) <= 0) ->
  exists r, (c' ← updatePosition inNext t (moved t j c); r ← curr dec ord c'; Ret (r, c')) = Ret r /\ lands es j c r.
Proof.
  intros Hh Hcok Hj Hnext. unfold moved. rewrite (holds_length t es Hh).
  destruct (Nat.ltb_spec j (length es)) as [Hlt|Hge].
  2: { eexists. split; [reflexivity|]. unfold lands. cbn. rewrite lookup_ge_None_2 by (rewrite length_scan; lia). done. }
  destruct (holds_scan t es (_forward c) j Hh Hlt) as (e & He & Hok & Hrow & _).
  unfold updatePosition. cbn [_cursorAtEof at_pos wt_pos mbind option_bind _key _forward]. rewrite Hrow. cbn [entry_row].
  cbv zeta. rewrite not_increasing.
  assert (Hinc : _forward c && inNext && negb (length (KS._buffer (_key c)) =? 0)%nat &&
    (0 <? SD.lexcmp (KS._buffer (_key c)) (entry_bytes e)) = false).
  { destruct (_forward c) eqn:Ef; [|done]. destruct inNext; [|done]. cbn [andb scan] in *.
    specialize (Hnext eq_refl eq_refl e He). destruct (0 <? _) eqn:E; [lia|]. by rewrite andb_false_r. }
  rewrite Hinc. unfold atOrPastEndPointAfterSeeking. cbn [_eof _endPosition _key _forward].
  assert (Hpast : match _endPosition c with
    | Some p => let cmp := KS.compare (KS.mkKeyString (KS.version (_key c)) (entry_bytes e) (KS._typeBits (_key c))) p in
        if _forward c then 0 <? cmp else cmp <? 0
    | None => false end = past_end c e).
  { unfold past_end. destruct (_endPosition c) as [p|]; [|done]. cbv zeta. rewrite compare_lexcmp_keys. cbn [KS._buffer].
    unfold sense. destruct (_forward c); lia. }
  cbv zeta in Hpast. cbn [at_pos _endPosition _typeBits _id _query wt_pos]. rewrite Hpast. unfold lands. rewrite He. destruct (past_end c e) eqn:Ep.
  { eexists. split; [reflexivity|]. cbn. done. }
  set (c1 := mkCursor _ _ _ _ _ _ _ _ _ _ _).
  destruct (update_read t c1 e Hcok Hok eq_refl) as (tb & E & Hv' & Hb' & Ek); [exact Hrow|].
  change (is_unique (at_pos _ _ c)) with (is_unique c1). rewrite E, bind_Ret. unfold curr. cbn [_eof _typeBits _key KS._buffer _id]. change (_eof c1) with false. cbv iota.
  change (KS._buffer (_key c1)) with (entry_bytes e). rewrite Ek. cbn [lift]. rewrite !bind_Ret.
  destruct Hcok as (Hu & _ & _ & Hq). eexists. split; [reflexivity|]. cbn. done.
Qed.


Lemma rows_ordered (t : T) (fwd : bool) (i j : nat) (a b : row) : scan fwd (wt_rows t) !! i = Some a ->
  scan fwd (wt_rows t) !! j = Some b -> (i < j)%nat -> sense fwd * SD.lexcmp a.1 b.1 < 0.
Proof. intros Ha Hb Hij. exact (sorted_lookup _ _ _ _ _ _ (scan_rows_sorted fwd _ (wt_sorted t)) Ha Hb Hij). Qed.
Lemma sense_unit (fwd : bool) : sense fwd = 1 \/ sense fwd = -1.
Proof. destruct fwd; auto. Qed.

Lemma bits_length (t : TB.TypeBits) (bits : list bool) : Bits.rep t bits -> Bits.fits bits -> length (TB._buf t) = 128%nat.
Proof.
  intros (_ & _ & rest & -> & Hl & _) Hf. pose proof (nbytes_le bits Hf). cbn [length].
  rewrite length_app, length_le_encode. lia.
Qed.

Lemma seek_query_spec (t : T) (es : list entry) (c : IndexCursor) (q : list field) (d : Discriminator) : holds t es -> cursor_ok c ->
  key ver q -> key_names q ->
  exists j r, seek_query enc dec ver ord q d t c = Ret r /\
    first_not_before (_forward c) (query_bytes ver ord q d) (wt_rows t) j /\ lands es j c r.
Proof.
  intros Hh (Hu & Hv & Hb & Hqb) Hq Hn.
  destruct (query_encoded enc ver ord _ Hqb q d Hq Hn) as (kq & Ekq & Hbuf & (_ & _ & Hrep)).
  unfold seek_query. rewrite Ekq. cbn [lift]. rewrite bind_Ret.
  destruct (seekWT_spec kq t (with_query kq c)) as (j & exact & -> & Hj & _). rewrite Hbuf in Hj.
  destruct (settle t es (with_query kq c) j false Hh) as (r & Er & Hr); [|destruct Hj as [Hj _]; by rewrite (holds_length t es Hh) in Hj|done|].
  { split; [done|]. split; [done|]. split; [done|]. apply (bits_length _ _ Hrep). apply Hq. }
  exists j, r. split; [exact Er|]. split; [exact Hj|exact Hr].
Qed.

Lemma next_spec (t : T) (es : list entry) (c : IndexCursor) (j : nat) (e : entry) : holds t es -> cursor_ok c ->
  scan (_forward c) es !! j = Some e -> on (length es) j e c -> exists r, next dec ord t c = Ret r /\ lands es (S j) c r.
Proof.
  intros Hh Hok He (Heof & Hpos & Hlast & Hkey). pose proof (lookup_lt_Some _ _ _ He) as Hj. rewrite length_scan in Hj.
  unfold next. rewrite Heof, Hlast. cbn [negb]. cbv zeta.
  rewrite (advance_spec t c j) by (rewrite (holds_length t es Hh); done).
  change (if (S j <? length (wt_rows t))%nat then _ else _) with (moved t (S j) c).
  apply settle; [done|done|lia|]. intros _ Ef e' He'. rewrite Ef in He. cbn [scan] in He.
  destruct (holds_scan t es true j Hh Hj) as (e1 & H1 & _ & _ & Hr1).
  destruct (holds_scan t es true (S j) Hh ltac:(by eapply lookup_lt_Some)) as (e2 & H2 & _ & _ & Hr2).
  cbn [scan] in H1, H2. simplify_eq. pose proof (rows_ordered t true j (S j) _ _ Hr1 Hr2 ltac:(lia)) as Ho.
  rewrite Hkey. cbn in Ho. lia.
Qed.

(** The first row of a scan behind a key. *)
Definition first_behind (forward : bool) (q : bytes) (rows : list row) (j : nat) : Prop :=
  (j <= length rows)%nat /\
  (forall m kv, scan forward rows !! m = Some kv -> (m < j)%nat -> sense forward * SD.lexcmp kv.1 q <= 0) /\
  (forall m kv, scan forward rows !! m = Some kv -> (j <= m)%nat -> 0 < sense forward * SD.lexcmp kv.1 q).

(** What is behind a row that is not before a key is behind the key. *)
Lemma rows_behind (t : T) (fwd : bool) (q : bytes) (k m : nat) (a b : row) : scan fwd (wt_rows t) !! k = Some a ->
  scan fwd (wt_rows t) !! m = Some b -> (k < m)%nat -> 0 <= sense fwd * SD.lexcmp a.1 q -> 0 < sense fwd * SD.lexcmp b.1 q.
Proof.
  intros Ha Hb Hkm Hge. pose proof (rows_ordered t _ k m a b Ha Hb Hkm) as Ho.
  destruct (sense_unit fwd) as [Es|Es]; rewrite Es in *.
  - enough (SD.lexcmp q b.1 < 0) by (rewrite SD.lexcmp_antisym; lia). rewrite (SD.lexcmp_antisym q).
    pose proof (SD.lexcmp_trans a.1 b.1 q). lia.
  - enough (SD.lexcmp b.1 q < 0) by lia. apply (SD.lexcmp_trans _ a.1); [rewrite SD.lexcmp_antisym|]; lia.
Qed.

(** A move of [next] to the first row behind the key of the cursor. *)
Lemma settle_behind (t : T) (es : list entry) (c : IndexCursor) (j : nat) : holds t es -> cursor_ok c ->
  first_behind (_forward c) (KS._buffer (_key c)) (wt_rows t) j ->
  exists r, (c' ← updatePosition true t (moved t j c); r ← curr dec ord c'; Ret (r, c')) = Ret r /\ lands es j c r.
Proof.
  intros Hh Hok (Hj & _ & Hgt). rewrite (holds_length t es Hh) in Hj. apply settle; [done..|]. intros _ Ef e He. rewrite Ef in Hgt.
  destruct (holds_scan t es true j Hh ltac:(by eapply lookup_lt_Some)) as (e' & He' & _ & _ & Hr). cbn [scan] in He'. simplify_eq.
  specialize (Hgt j _ Hr ltac:(lia)). cbn in Hgt. rewrite SD.lexcmp_antisym. lia.
Qed.

Lemma moved_fields (t : T) (j : nat) (c : IndexCursor) : _eof (moved t j c) = _eof c /\
  _lastMoveWasRestore (moved t j c) = _lastMoveWasRestore c.
Proof. unfold moved. by destruct (_ <? _)%nat. Qed.
Lemma advance_moved (t : T) (j : nat) (c : IndexCursor) : (j < length (wt_rows t))%nat ->
  advanceWTCursor t (moved t j c) = moved t (S j) c.
Proof.
  intros Hj. unfold moved at 1. destruct (Nat.ltb_spec j (length (wt_rows t))); [|lia].
  rewrite (advance_spec t _ j) by done. unfold moved. by destruct (_ <? _)%nat.
Qed.
(** [restore] moves to the first row that is not before the key, and notes whether that is
    behind it. *)
Lemma restore_spec (t : T) (c : IndexCursor) : _eof c = false -> exists j exact,
  restore t (save c) = moved t j (mkCursor (is_unique c) (_forward c) None (_key c) (_typeBits c) (_id c) (_eof c) (_cursorAtEof c) (negb exact)
    (_query c) (_endPosition c)) /\
  first_behind (_forward c) (KS._buffer (_key c)) (wt_rows t) (if exact then S j else j) /\
  (exact = true -> (j < length (wt_rows t))%nat).
Proof.
  intros Heof. unfold restore. cbn [save at_pos _eof _key]. rewrite Heof.
  destruct (seekWT_spec (_key c) t (save c)) as (j & exact & E & (Hj & Hlow & Hhigh) & Hex).
  cbn [save at_pos _forward _key] in *. rewrite E. exists j, exact.
  split; [unfold moved; destruct (_ <? _)%nat; cbn; by rewrite Heof|]. clear E. destruct exact.
  - destruct (proj1 Hex eq_refl) as (kv & Hkv & H0kv). pose proof (lookup_lt_Some _ _ _ Hkv) as Hjn. rewrite length_scan in Hjn.
    split; [|done]. split; [lia|]. split; intros m kv' Hm Hmj.
    + destruct (Nat.eq_dec m j) as [->|]; [simplify_eq; lia|]. specialize (Hlow m kv' Hm ltac:(lia)). lia.
    + apply (rows_behind t _ _ j m kv kv' Hkv Hm); lia.
  - split; [|done]. split; [done|]. split; intros m kv' Hm Hmj; [specialize (Hlow m kv' Hm Hmj); lia|].
    pose proof (Hhigh m kv' Hm Hmj). destruct (Nat.eq_dec m j) as [->|].
    + destruct (Z.eq_dec (SD.lexcmp kv'.1 (KS._buffer (_key c))) 0) as [E|E]; [|destruct (sense_unit (_forward c)); lia].
      assert (false = true) by (apply Hex; by exists kv'). discriminate.
    + destruct (lookup_lt_is_Some_2 (scan (_forward c) (wt_rows t)) j) as [kvj Hkvj]; [apply lookup_lt_Some in Hm; lia|].
      apply (rows_behind t _ _ j m kvj kv' Hkvj Hm); [lia|]. by apply (Hhigh j).
Qed.

(** C11. A cursor that is restored goes on where it was: whatever the table holds by then, the
    call of [next] after [restore] returns the first entry behind the one that it was at when
    it was saved, in the direction of the scan, and no [WriteConflictException] is
    thrown. *)
Theorem next_after_restore (t : T) (es : list entry) (c : IndexCursor) (e : entry) : holds t es -> cursor_ok c ->
  _eof c = false -> KS._buffer (_key c) = entry_bytes e ->
  exists j r, next dec ord t (restore t (save c)) = Ret r /\
    first_behind (_forward c) (entry_bytes e) (wt_rows t) j /\ lands es j c r.
Proof.
  intros Hh Hok Heof Hkey. destruct (restore_spec t c Heof) as (j & exact & -> & Hj & Hex).
  set (c1 := mkCursor _ _ _ _ _ _ _ _ _ _ _). exists (if exact then S j else j). rewrite <- Hkey.
  destruct (settle_behind t es c1 _ Hh Hok Hj) as (r & Er & Hr). exists r. split; [|split; [exact Hj|exact Hr]].
  unfold next. destruct (moved_fields t j c1) as [-> ->]. change (_eof c1) with (_eof c). change (_lastMoveWasRestore c1) with (negb exact). rewrite Heof, negb_involutive.
  cbv zeta. destruct exact; [|exact Er]. rewrite advance_moved by auto. exact Er.
Qed.


End entries.

Lemma row_keys_NoDup (t : T) : NoDup (wt_rows t).*1.
Proof.
  pose proof (wt_sorted t) as Hs. induction Hs as [|a l _ IH Ha]; [constructor|]. cbn. constructor; [|done].
  intros (b & E & Hb)%list_elem_of_fmap. rewrite Forall_forall in Ha. specialize (Ha b Hb). unfold key_before in Ha.
  rewrite E, (proj2 (SD.lexcmp_eq _ _)) in Ha by done. lia.
Qed.
(** A row that is inserted and removed again. *)
Lemma dummy_row (k : bytes) (t : T) : k ∉ (wt_rows t).*1 -> exists t1 t2, wt_insert k [] t = Some t1 /\ wt_remove k t1 = Some t2 /\
  wt_rows t2 ≡ₚ wt_rows t.
Proof.
  intros Hk. pose proof (wt_insert_spec k [] t) as Hins. destruct (wt_insert k [] t) as [t1|]; [|done].
  destruct Hins as [_ Hp1]. pose proof (wt_remove_spec k t1) as Hrem.
  destruct (wt_remove k t1) as [t2|] eqn:E2; [|destruct Hrem; rewrite Hp1; left]. exists t1, t2. split; [done|]. split; [done|].
  destruct Hrem as [v Hp2]. rewrite Hp1 in Hp2.
  assert (Hin : (k, v) ∈ (k, []) :: wt_rows t) by (rewrite Hp2; left).
  apply elem_of_cons in Hin as [[= ->]|Hin]; [by apply Permutation.Permutation_cons_inv in Hp2|].
  destruct Hk. apply list_elem_of_fmap. by exists (k, v).
Qed.

(** *** Changes of a standard index *)
Section changes.
Variable D : Cmp.Decimal128.
Variable enc : bytes -> bool -> KS.KeyString -> outcome ks_error KS.KeyString.
Variable ver : Version.
Variable kp : list field.
Variable ord : Z.
Variable junk : list Z.
Hypothesis Hjunk : length junk = 128%nat.
Abbreviation entry_ok := (entry_ok ver kp).
Abbreviation entry_bytes := (entry_bytes ver ord false).
Abbreviation entry_row := (entry_row ver ord false).
Abbreviation holds := (holds ver kp ord false).

(** Entries that are the same to the index: equal keys and record ids. *)
Definition entry_eqb (a b : entry) : bool :=
  match Cmp.woCompare_ordering D false None ord 1 a.1 b.1 with Some z => (z =? 0) && (a.2 =? b.2) | None => false end.

Lemma entry_eqb_bytes (a b : entry) : entry_ok a -> entry_ok b -> entry_eqb a b = bool_decide (entry_bytes a = entry_bytes b).
Proof.
  intros ([Ha _] & _ & Na%isNormal_range) ([Hb _] & _ & Nb%isNormal_range).
  destruct (entries_lexcmp D ver ord a.1 b.1 a.2 b.2 Ha Hb Na Nb) as (z & Hz & Hc). unfold entry_eqb. rewrite Hz.
  change (SD.lexcmp (entry_bytes a) (entry_bytes b) = if z =? 0 then Cmp.compareLongs a.2 b.2 else Z.sgn z) in Hc. pose proof (SD.lexcmp_eq (entry_bytes a) (entry_bytes b)) as Heq. rewrite Hc in Heq.
  unfold Cmp.compareLongs in Heq. case_bool_decide as E; [apply Heq in E|].
  - repeat case_match; lia.
  - apply not_true_iff_false. intros [Hz0%Z.eqb_eq Hid%Z.eqb_eq]%andb_true_iff. apply E, Heq.
    rewrite Hz0, Hid. cbn. by rewrite Z.eqb_refl.
Qed.

(** What the index stores for an entry. *)
Lemma entry_stored (e : entry) : entry_ok e -> exists ks, KS.resetToKey enc ver junk e.1 ord e.2 = Ret ks /\
  KS._buffer ks = entry_bytes e /\
  (if TB._isAllZeros (KS._typeBits ks) then [] else TB.getBuffer (KS._typeBits ks)) = bits_item ver e.1.
Proof.
  intros (Hs & _ & Hn%isNormal_range). destruct (entry_encoded enc ver ord junk Hjunk e.1 e.2 Hs Hn) as (ks & E & Hb & (_ & _ & Hrep)).
  exists ks. split; [done|]. split; [done|]. rewrite (getBuffer_rep _ _ Hrep) by apply Hs.
  destruct Hrep as (_ & -> & _). unfold bits_item. cbv zeta. by destruct (forallb negb _).
Qed.
Lemma keys_of_rows (es : list entry) : (entry_row <$> es).*1 = entry_bytes <$> es.
Proof. rewrite <- list_fmap_compose. done. Qed.
Lemma existsb_bytes (e : entry) (es : list entry) : entry_ok e -> Forall entry_ok es ->
  existsb (entry_eqb e) es = bool_decide (entry_bytes e ∈ entry_bytes <$> es).
Proof.
  intros He. induction 1 as [|x es Hx _ IH]; [done|]. cbn [existsb fmap list_fmap]. rewrite IH, entry_eqb_bytes by done.
  rewrite (bool_decide_ext _ _ (elem_of_cons (entry_bytes <$> es) (entry_bytes e) (entry_bytes x))), bool_decide_or. reflexivity.
Qed.
(** Rows that are a permutation of those of entries. *)
Lemma holds_permutation (t : T) (es : list entry) : wt_rows t ≡ₚ entry_row <$> es -> Forall entry_ok es ->
  exists es', holds t es' /\ es' ≡ₚ es.
Proof.
  intros Hp Hok. apply Permutation_map_inv in Hp as (es' & E & Hp). exists es'. split; [|done]. split; [done|]. by rewrite <- Hp.
Qed.

(** What [insert] and [unindex] leave. *)
Lemma insert_adds (t : T) (es : list entry) (e : entry) : holds t es -> entry_ok e -> checkKeySize e.1 = true ->
  exists t' es', insert enc ver ord junk e.1 e.2 true t = Ret t' /\ holds t' es' /\
    if existsb (entry_eqb e) es then t' = t /\ es' = es else es' ≡ₚ e :: es.
Proof.
  intros [Hr Hok] He Hsize. destruct (entry_stored e He) as (ks & E & Hb & Hi).
  unfold insert, _insert. rewrite Hsize. pose proof He as (_ & _ & ->). cbn [verify require]. rewrite !bind_Ret, E. cbn [lift].
  rewrite bind_Ret. cbv zeta. rewrite Hi, Hb. rewrite (existsb_bytes e es He Hok), <- keys_of_rows, <- Hr.
  pose proof (wt_insert_spec (entry_bytes e) (bits_item ver e.1) t) as Hspec.
  destruct (wt_insert (entry_bytes e) (bits_item ver e.1) t) as [t'|].
  - destruct Hspec as [Hnot Hp]. rewrite bool_decide_eq_false_2 by done. rewrite Hr in Hp.
    destruct (holds_permutation t' (e :: es)) as (es' & Hh & Hp'); [exact Hp|by constructor|]. by exists t', es'.
  - rewrite bool_decide_eq_true_2 by done. exists t, es. done.
Qed.

(** C25. [insert] adds an entry whose key is not too long to the index, unless an entry with an equal key and the same
    record id is there, which then stays as it is. *)
Theorem insert_exact (t : T) (es : list entry) (e : entry) : holds t es -> entry_ok e -> checkKeySize e.1 = true ->
  exists t' es', insert enc ver ord junk e.1 e.2 true t = Ret t' /\ holds t' es' /\
    if existsb (entry_eqb e) es then t' = t /\ es' = es else es' ≡ₚ e :: es.
Proof. apply insert_adds. Qed.

(** The row of an entry is removed, or a dummy row is inserted and removed. *)
Lemma unindex_removes (t : T) (es : list entry) (e : entry) : holds t es -> entry_ok e ->
  exists t' es', unindex enc ver ord junk e.1 e.2 true t = Ret t' /\ holds t' es' /\
    es' ≡ₚ filter (fun x => entry_eqb e x = false) es.
Proof.
  intros [Hr Hok] He. destruct (entry_stored e He) as (ks & E & Hb & _).
  unfold unindex, _unindex. pose proof He as (_ & _ & ->). cbn [verify]. rewrite !bind_Ret, E. cbn [lift]. rewrite bind_Ret, Hb.
  assert (Hf : forall l, Forall entry_ok l -> entry_bytes e ∉ entry_bytes <$> l -> filter (fun x => entry_eqb e x = false) l = l).
  { intros l Hl Hn. apply filter_all. rewrite Forall_forall in *. intros x Hx. rewrite entry_eqb_bytes by auto.
    apply bool_decide_eq_false_2. intros Eb. apply Hn. rewrite Eb. apply list_elem_of_fmap. by exists x. }
  pose proof (wt_remove_spec (entry_bytes e) t) as Hspec. destruct (wt_remove (entry_bytes e) t) as [t'|].
  - destruct Hspec as [v Hp]. rewrite Hr in Hp.
    assert (Hin : (entry_bytes e, v) ∈ entry_row <$> es) by (rewrite Hp; left). apply list_elem_of_fmap in Hin as (e0 & E0 & Hin).
    apply elem_of_Permutation in Hin as [es0 Hes]. rewrite Hes in Hp, Hok. cbn [fmap list_fmap] in Hp. rewrite <- E0 in Hp.
    apply Permutation.Permutation_cons_inv in Hp. apply Forall_cons in Hok as [Hok0 Hok].
    destruct (holds_permutation t' es0) as (es' & Hh & Hp'); [done|done|]. exists t', es'. split; [done|]. split; [done|].
    rewrite Hp'. pose proof (row_keys_NoDup t) as Hnd. rewrite Hr, keys_of_rows, Hes in Hnd. cbn in Hnd. apply NoDup_cons in Hnd as [Hnd _].
    injection E0 as Eb _. rewrite Hes, filter_cons_False.
    + rewrite Hf; [done|done|by rewrite Eb].
    + rewrite entry_eqb_bytes, bool_decide_eq_true_2 by done. done.
  - destruct (dummy_row (entry_bytes e) t Hspec) as (t1 & t2 & -> & -> & Hp2). rewrite Hr in Hp2, Hspec. rewrite keys_of_rows in Hspec.
    destruct (holds_permutation t2 es) as (es' & Hh & Hp'); [done|done|]. exists t2, es'. split; [done|]. split; [done|].
    by rewrite Hf.
Qed.

(** C26. [unindex] removes the entry with an equal key and the same record id, and leaves the
    index as it is when there is none. *)
Theorem unindex_exact (t : T) (es : list entry) (e : entry) : holds t es -> entry_ok e ->
  exists t' es', unindex enc ver ord junk e.1 e.2 true t = Ret t' /\ holds t' es' /\
    es' ≡ₚ filter (fun x => entry_eqb e x = false) es.
Proof. apply unindex_removes. Qed.

End changes.
End table.
End Walk.

(** ** A table in memory *)
Module Mem.
Import Tab.

Abbreviation table := (gmap bytes bytes).
Definition key_le (a b : row) : Prop := SD.lexcmp a.1 b.1 <= 0.
#[export] Instance key_le_dec : RelDecision key_le := fun a b => Z_le_dec _ _.
#[export] Instance key_le_trans : Transitive key_le.
Proof.
  intros a b c Hab Hbc. unfold key_le in *. destruct (Z.eq_dec (SD.lexcmp a.1 b.1) 0) as [E|E].
  - apply SD.lexcmp_eq in E. by rewrite E.
  - apply Z.lt_le_incl, (SD.lexcmp_trans _ b.1); lia.
Qed.
#[export] Instance key_le_total : Total key_le.
Proof. intros a b. unfold key_le. rewrite (SD.lexcmp_antisym b.1). lia. Qed.

Definition rows (m : table) : list row := merge_sort key_le (map_to_list m).
(** The first row that is not before the key, or the last one. *)
Fixpoint near_pos (q : bytes) (l : list row) : nat :=
  match l with
  | kv :: (_ :: _) as l' => if SD.lexcmp kv.1 q <? 0 then S (near_pos q l') else 0
  | _ => 0
  end.
#[export] Instance mem_table : WtTable table := {
  wt_rows := rows;
  wt_insert k v m := match m !! k with Some _ => None | None => Some (<[k := v]> m) end;
  wt_update k v m := match m !! k with Some _ => Some (<[k := v]> m) | None => None end;
  wt_remove k m := match m !! k with Some _ => Some (delete k m) | None => None end;
  wt_search m k := fst <$> list_find (fun kv : row => kv.1 = k) (rows m);
  wt_search_near m q := let i := near_pos q (rows m) in kv ← rows m !! i; Some (i, SD.lexcmp kv.1 q)
}.

Lemma rows_permutation (m : table) : rows m ≡ₚ map_to_list m.
Proof. apply merge_sort_Permutation. Qed.
Lemma rows_keys (m : table) (k : bytes) : k ∈ (rows m).*1 <-> is_Some (m !! k).
Proof.
  rewrite rows_permutation, list_elem_of_fmap. split.
  - intros ([k' v] & -> & H%elem_of_map_to_list). by exists v.
  - intros [v Hv]. exists (k, v). split; [done|]. by apply elem_of_map_to_list.
Qed.
Lemma rows_sorted (m : table) : StronglySorted key_before (rows m).
Proof.
  assert (Hnd : NoDup (rows m).*1) by (rewrite rows_permutation; apply NoDup_fst_map_to_list).
  pose proof (StronglySorted_merge_sort key_le (map_to_list m)) as Hs. fold (rows m) in Hs.
  induction Hs as [|a l _ IH Ha]; [constructor|]. apply NoDup_cons in Hnd as [Hn Hnd]. constructor; [auto|].
  rewrite Forall_forall in *. intros b Hb. specialize (Ha b Hb). unfold key_le, key_before in *.
  enough (SD.lexcmp a.1 b.1 <> 0) by lia. intros E%SD.lexcmp_eq. apply Hn. rewrite E. apply list_elem_of_fmap. by exists b.
Qed.
Lemma near_pos_spec (q : bytes) (l : list row) : StronglySorted key_before l -> l <> [] ->
  (near_pos q l < length l)%nat /\
  (forall j kv, l !! j = Some kv -> (j < near_pos q l)%nat -> SD.lexcmp kv.1 q < 0) /\
  (forall j kv, l !! j = Some kv -> (near_pos q l < j)%nat -> 0 < SD.lexcmp kv.1 q).
Proof.
  induction 1 as [|a l Hs IH Ha]; [done|]. intros _. destruct l as [|b l].
  { cbn. split; [lia|]. split; [lia|]. intros [|j] kv H Hj; [lia|done]. }
  change (near_pos q (a :: b :: l)) with (if SD.lexcmp a.1 q <? 0 then S (near_pos q (b :: l)) else 0%nat).
  destruct (IH ltac:(done)) as (H1 & H2 & H3). destruct (Z.ltb_spec (SD.lexcmp a.1 q) 0) as [Hlt|Hge].
  - split; [cbn in *; lia|]. split; intros [|j] kv Hj Hjn; cbn [lookup list_lookup] in Hj; try lia.
    + by injection Hj as <-.
    + apply (H2 j); [done|lia].
    + apply (H3 j); [done|lia].
  - split; [cbn; lia|]. split; [lia|]. intros [|j] kv Hj Hjn; [lia|]. cbn [lookup list_lookup] in Hj.
    rewrite Forall_forall in Ha. assert (Hb : key_before a kv) by (apply Ha; by eapply list_elem_of_lookup_2). unfold key_before in Hb.
    enough (SD.lexcmp q kv.1 < 0) by (rewrite SD.lexcmp_antisym; lia).
    destruct (Z.eq_dec (SD.lexcmp a.1 q) 0) as [E%SD.lexcmp_eq|E]; [by rewrite <- E|].
    apply (SD.lexcmp_trans _ a.1); [rewrite SD.lexcmp_antisym|]; lia.
Qed.

#[export] Instance mem_laws : WtLaws table.
Proof.
  split; cbn.
  - apply rows_sorted.
  - intros k v m. destruct (m !! k) eqn:E; [by apply rows_keys|]. rewrite rows_keys, E. split; [by intros []|].
    by rewrite !rows_permutation, map_to_list_insert.
  - intros k v m. destruct (m !! k) as [v0|] eqn:E; [|rewrite rows_keys, E; by intros []].
    exists v0, (map_to_list (delete k m)). rewrite !rows_permutation, <- (map_to_list_delete m k v0) by done. split; [done|].
    rewrite <- insert_delete_eq. apply map_to_list_insert. apply lookup_delete_eq.
  - intros k m. destruct (m !! k) as [v|] eqn:E; [|rewrite rows_keys, E; by intros []].
    exists v. rewrite !rows_permutation, map_to_list_delete; done.
  - intros m k. destruct (list_find (fun kv : row => kv.1 = k) (rows m)) as [[i [k' v]]|] eqn:E; cbn.
    + apply list_find_Some in E as (E & Hk & _). cbn in Hk. subst k'. by exists v.
    + apply list_find_None in E. rewrite Forall_forall in E. intros ([k' v] & -> & Hin)%list_elem_of_fmap. by apply (E _ Hin).
  - intros m q. destruct (rows m) as [|a l] eqn:E; [done|]. rewrite <- E.
    destruct (near_pos_spec q (rows m) (rows_sorted m)) as (H1 & H2 & H3); [by rewrite E|].
    destruct (lookup_lt_is_Some_2 _ _ H1) as [kv Hkv]. rewrite Hkv. cbn. exists kv. split; [done|].
    split; [|done]. pose proof (Rank.lexcmp_range kv.1 q). lia.
Qed.
End Mem.

(** ** A concrete index *)
Module Demo.
Import Tab Idx Walk Mem Enc.

(** An index on [a] ascending and [b] descending. *)
Definition int_key (a b : Z) : list field := [([], VInt a); ([], VInt b)].
Definition demo_entries : list entry :=
  [(int_key 1 10, 7); (int_key 1 3, 8); (int_key 2 7, 7); (int_key 3 3, 9); (int_key 8 3, 11); (int_key 9 1, 10)].
Definition table_of (es : list entry) : table := list_to_map (entry_row V1 2 false <$> es).
Definition demo_table : table := table_of demo_entries.
Abbreviation no_decode := (fun _ _ _ => Fault).

Lemma demo_ord : Cmp.Ordering_make Pattern.no_decimal Sets.demo_pattern = Ret 2.
Proof. vm_compute. reflexivity. Qed.
Lemma int_entry_ok (a b id : Z) : - 2 ^ 31 <= a < 2 ^ 31 -> - 2 ^ 31 <= b < 2 ^ 31 -> isNormal id = true ->
  entry_ok V1 Sets.demo_pattern (int_key a b, id).
Proof.
  intros Ha Hb Hid. split; [|done]. split; [|repeat constructor]. split; [repeat (apply Forall_cons; split; [by apply Sets.int_ok|]); apply Forall_nil; exact I|].
  split; [cbn; lia|]. unfold Bits.fits. vm_compute. lia.
Qed.
Lemma demo_entries_ok : Forall (entry_ok V1 Sets.demo_pattern) demo_entries.
Proof. repeat (apply Forall_cons; split; [apply int_entry_ok; [lia|lia|done]|]). by apply Forall_nil. Qed.
Lemma demo_holds : holds V1 Sets.demo_pattern 2 false demo_table demo_entries.
Proof. split; [vm_compute; reflexivity|exact demo_entries_ok]. Qed.

(** A cursor that has moved to the second entry, which is removed before it goes on. *)
Definition demo_cursor : IndexCursor :=
  match seek Keys.no_append no_decode V1 2 (int_key 1 3) true demo_table (newCursor V1 (replicate 128 0) false true) with
  | Ret (_, c) => c
  | _ => newCursor V1 (replicate 128 0) false true
  end.
Definition demo_removed : list entry := delete 1%nat demo_entries.
Lemma demo_removed_holds : holds V1 Sets.demo_pattern 2 false (table_of demo_removed) demo_removed.
Proof. split; [vm_compute; reflexivity|]. apply Forall_delete, demo_entries_ok. Qed.

Lemma demo_cursor_ok : cursor_ok V1 false demo_cursor /\ _eof demo_cursor = false /\
  KS._buffer (_key demo_cursor) = entry_bytes V1 2 false (int_key 1 3, 8).
Proof. vm_compute. auto. Qed.
Lemma next_after_restore_witness :
  exists j r, next no_decode 2 (table_of demo_removed) (restore (table_of demo_removed) (save demo_cursor)) = Ret r /\
    first_behind (_forward demo_cursor) (entry_bytes V1 2 false (int_key 1 3, 8)) (wt_rows (table_of demo_removed)) j /\
    lands V1 2 false demo_removed j demo_cursor r.
Proof.
  exact (next_after_restore Pattern.no_decimal no_decode V1 Sets.demo_pattern 2 demo_ord false (table_of demo_removed) demo_removed demo_cursor (int_key 1 3, 8)
    demo_removed_holds (proj1 demo_cursor_ok) (proj1 (proj2 demo_cursor_ok)) (proj2 (proj2 demo_cursor_ok))).
Defined.
Lemma insert_exact_witness : exists t es,
  insert Keys.no_append V1 2 (replicate 128 0) (int_key 5 5) 12 true demo_table = Ret t /\ holds V1 Sets.demo_pattern 2 false t es /\
  es ≡ₚ (int_key 5 5, 12) :: demo_entries.
Proof.
  destruct (insert_exact Pattern.no_decimal Keys.no_append V1 Sets.demo_pattern 2 (replicate 128 0) eq_refl demo_table demo_entries (int_key 5 5, 12))
    as (t & es & E & Hh & Hp); [exact demo_holds|apply int_entry_ok; [lia|lia|done]|vm_compute; reflexivity|].
  exists t, es. split; [exact E|]. split; [exact Hh|exact Hp].
Defined.
Lemma unindex_exact_witness : exists t es,
  unindex Keys.no_append V1 2 (replicate 128 0) (int_key 1 3) 8 true demo_table = Ret t /\ holds V1 Sets.demo_pattern 2 false t es /\
  es ≡ₚ demo_removed.
Proof.
  destruct (unindex_exact Pattern.no_decimal Keys.no_append V1 Sets.demo_pattern 2 (replicate 128 0) eq_refl demo_table demo_entries (int_key 1 3, 8))
    as (t & es & E & Hh & Hp); [exact demo_holds|apply int_entry_ok; [lia|lia|done]|].
  exists t, es. split; [exact E|]. split; [exact Hh|exact Hp].
Defined.
End Demo.
