(* ===== verification/WtUnique.v ===== *)
(** * The unique WiredTiger index

    [WiredTigerIndexUnique] of [db/storage/wiredtiger/wiredtiger_index.cpp]: a key is stored once, and
    the value of its row lists the record ids with their type bits. [Module Uniq] holds the
    operations, [Module Groups] the theorems, that they change the index by exactly the entry
    that they are called with, and that no second record gets a key while duplicates are not
    allowed. Then [unindex] removes by the key alone, and the theorem is for an entry whose key no
    other record has. *)
From Stdlib Require Import ZArith Lia Bool.
From stdpp Require Import base list option sorting gmap.
From S2P Require Import Prelude StringData Bson BsonCompare KeyString KeyStringOrder KeyStringRefine KeyStringDecode IndexBounds BoundsChecker WtIndex.
Open Scope Z_scope.

Module Uniq.
Import IB Chk Tab Idx.

Section index.
Context {T : Type} `{WtTable T}.
Variable enc : bytes -> bool -> KS.KeyString -> outcome ks_error KS.KeyString.
Variable ver : Version.
Variable ord : Z.
Variable junk : list Z.

(** A record id and type bits read from the value of a row, and appended to a new value. *)
Definition read_id (br : bytes) : outcome idx_error (Z * bytes) :=
  '(id, (br, _)) ← lift (KD.decodeRecordId (br, 0));
  Ret (id, br).
Definition read_bits (br : bytes) : outcome idx_error (TB.TypeBits * bytes) := lift (TB.resetFromBuffer ver junk br).
Definition append_record (id : Z) (typeBits : TB.TypeBits) (value : KS.KeyString) : outcome idx_error KS.KeyString :=
  value ← lift (KS.appendRecordId id value);
  Ret (KS.appendTypeBits typeBits value).

(** The loop of [_insert]: [None] when the record id is in the list. *)
Fixpoint insert_loop (fuel : nat) (id : Z) (typeBits : TB.TypeBits) (br : bytes) (insertedId : bool) (value : KS.KeyString) :
    outcome idx_error (option (bool * KS.KeyString)) :=
  match fuel with
  | O => NoFuel
  | S fuel' =>
      if (length br =? 0)%nat then Ret (Some (insertedId, value))
      else
        '(idInIndex, br) ← read_id br;
        if id =? idInIndex then Ret None
        else
          '(insertedId, value) ←
            (if negb insertedId && (id <? idInIndex) then value ← append_record id typeBits value; Ret (true, value)
             else Ret (insertedId, value));
          value ← lift (KS.appendRecordId idInIndex value);
          '(bits, br) ← read_bits br;
          insert_loop fuel' id typeBits br insertedId (KS.appendTypeBits bits value)
  end.
(** [WiredTigerIndexUnique::_insert]. *)
Definition _insert (key : list field) (id : Z) (dupsAllowed : bool) (c : T) : outcome idx_error T :=
  data ← lift (KS.resetToQuery enc ver junk key ord kInclusive);
  let typeBits := KS._typeBits data in
  value ← lift (KS.appendRecordId id (KS.resetToEmpty ver junk));
  let value := if negb (TB._isAllZeros typeBits) then KS.appendTypeBits typeBits value else value in
  match wt_insert (KS._buffer data) (KS._buffer value) c with
  | Some c => Ret c
  | None =>
      match wt_search c (KS._buffer data) ≫= (fun i => wt_rows c !! i) with
      | None => Fault
      | Some (_, old) =>
          r ← insert_loop (S (length old)) id typeBits old false (KS.resetToEmpty ver junk);
          match r with
          | None => Ret c
          | Some (insertedId, value) =>
              if negb dupsAllowed then Throw DuplicateKey
              else
                value ← (if negb insertedId then append_record id typeBits value else Ret value);
                match wt_update (KS._buffer data) (KS._buffer value) c with Some c => Ret c | None => Fault end
          end
      end
  end.

(** The loop of [_unindex]: [None] when the record id is the only one. *)
Fixpoint unindex_loop (fuel : nat) (id : Z) (br : bytes) (foundId : bool) (records : list (Z * TB.TypeBits)) :
    outcome idx_error (option (bool * list (Z * TB.TypeBits))) :=
  match fuel with
  | O => NoFuel
  | S fuel' =>
      if (length br =? 0)%nat then Ret (Some (foundId, records))
      else
        '(idInIndex, br) ← read_id br;
        '(typeBits, br) ← read_bits br;
        if id =? idInIndex then
          if (length records =? 0)%nat && (length br =? 0)%nat then Ret None
          else unindex_loop fuel' id br true records
        else unindex_loop fuel' id br foundId (records ++ [(idInIndex, typeBits)])
  end.
(** The loop that puts the other record ids back; [single] when there is one. *)
Fixpoint put_back (single : bool) (records : list (Z * TB.TypeBits)) (value : KS.KeyString) : outcome idx_error KS.KeyString :=
  match records with
  | [] => Ret value
  | (id, bits) :: records =>
      value ← lift (KS.appendRecordId id value);
      put_back single records (if negb (TB._isAllZeros bits && single) then KS.appendTypeBits bits value else value)
  end.
(** [WiredTigerIndexUnique::_unindex]. *)
Definition _unindex (key : list field) (id : Z) (dupsAllowed : bool) (c : T) : outcome idx_error T :=
  data ← lift (KS.resetToQuery enc ver junk key ord kInclusive);
  let k := KS._buffer data in
  if negb dupsAllowed then
    match wt_remove k c with None => Ret c | Some c => Ret c end
  else
    match wt_search c k with
    | None =>
        match wt_insert k [] c with
        | None => Fault
        | Some c => match wt_remove k c with Some c => Ret c | None => Fault end
        end
    | Some i =>
        match wt_rows c !! i with
        | None => Fault
        | Some (_, old) =>
            r ← unindex_loop (S (length old)) id old false [];
            match r with
            | None => match wt_remove k c with Some c => Ret c | None => Fault end
            | Some (foundId, records) =>
                if negb foundId then Ret c
                else
                  _ ← verify (negb (length records =? 0)%nat);
                  value ← put_back (length records =? 1)%nat records (KS.resetToEmpty ver junk);
                  match wt_update k (KS._buffer value) c with Some c => Ret c | None => Fault end
            end
        end
    end.

(** [isDup] and [dupKeyCheck]. *)
Fixpoint dup_loop (fuel : nat) (id : Z) (br : bytes) : outcome idx_error bool :=
  match fuel with
  | O => NoFuel
  | S fuel' =>
      if (length br =? 0)%nat then Ret true
      else
        '(idInIndex, br) ← read_id br;
        if idInIndex =? id then Ret false
        else
          '(_, br) ← read_bits br;
          dup_loop fuel' id br
  end.
Definition isDup (key : list field) (id : Z) (c : T) : outcome idx_error bool :=
  data ← lift (KS.resetToQuery enc ver junk key ord kInclusive);
  match wt_search c (KS._buffer data) with
  | None => Ret false
  | Some i => match wt_rows c !! i with None => Fault | Some (_, value) => dup_loop (S (length value)) id value end
  end.
Definition dupKeyCheck (key : list field) (id : Z) (c : T) : outcome idx_error unit :=
  _ ← verify (negb (hasFieldNames key));
  dup ← isDup key id c;
  if (dup : bool) then Throw DuplicateKey else Ret tt.

(** [WiredTigerIndex::insert] and [unindex] of a unique index. *)
Definition insert (key : list field) (id : Z) (dupsAllowed : bool) (c : T) : outcome idx_error T :=
  _ ← verify (isNormal id);
  _ ← require KeyTooLong (checkKeySize key);
  _insert key id dupsAllowed c.
Definition unindex (key : list field) (id : Z) (dupsAllowed : bool) (c : T) : outcome idx_error T :=
  _ ← verify (isNormal id);
  _unindex key id dupsAllowed c.

End index.
End Uniq.

Module Groups.
Import IB Chk Tab Idx Uniq Walk Enc Keys KeyRead Ref BitReader.

(** ** The value of a row *)
Section values.
Variable ver : Version.
Variable kp : list field.
Variable ord : Z.
Variable junk : list Z.
Hypothesis Hjunk : length junk = 128%nat.
Abbreviation entry_ok := (entry_ok ver kp).
Abbreviation fields_bits := (fields_bits ver).

(** A record id with its type bits, which are there even if they are all zero. *)
Definition stored_bits (fs : list field) : bytes :=
  if forallb negb (fields_bits fs) then [0] else packed_bits (fields_bits fs).
Definition record_bytes (e : entry) : bytes := rid_bytes e.2 ++ stored_bits e.1.
(** The entries of one key; the bits of a single one are omitted when they are all zero. *)
Definition group_value (g : list entry) : bytes :=
  match g with
  | [e] => entry_item ver true e
  | _ => concat (record_bytes <$> g)
  end.
(** What is left to read of the value of a row. *)
Definition to_read (br : bytes) (g : list entry) : Prop :=
  br = concat (record_bytes <$> g) \/ exists e, g = [e] /\ br = entry_item ver true e.
Lemma group_to_read (g : list entry) : to_read (group_value g) g.
Proof. destruct g as [|e [|e' g]]; [by left|right; by exists e|by left]. Qed.

(** Type bits that were read, or encoded, for a key. *)
Definition bits_of (t : TB.TypeBits) (fs : list field) : Prop :=
  TB._isAllZeros t = forallb negb (fields_bits fs) /\
  (forallb negb (fields_bits fs) = false -> TB.getBuffer t = packed_bits (fields_bits fs)).
Lemma rep_bits_of (t : TB.TypeBits) (fs : list field) : Bits.rep t (fields_bits fs) -> Bits.fits (fields_bits fs) -> bits_of t fs.
Proof.
  intros Hr Hf. pose proof (getBuffer_rep t _ Hr Hf) as Hg. destruct Hr as (_ & Hz & _). split; [done|].
  intros Ez. by rewrite Ez in Hg.
Qed.
Lemma appendTypeBits_put (t : TB.TypeBits) (fs : list field) (ks : KS.KeyString) : bits_of t fs ->
  KS.appendTypeBits t ks = put false (stored_bits fs) ks.
Proof.
  intros [Hz Hb]. unfold KS.appendTypeBits, stored_bits. rewrite Hz. destruct (forallb negb _); [by rewrite append_put|].
  by rewrite Hb.
Qed.
Lemma append_id (id : Z) (ks : KS.KeyString) : isNormal id = true ->
  lift (KS.appendRecordId id ks) = Ret (put false (rid_bytes id) ks).
Proof. intros Hn%isNormal_range. by rewrite appendRecordId_put. Qed.
Lemma append_record_put (e : entry) (t : TB.TypeBits) (ks : KS.KeyString) : entry_ok e -> bits_of t e.1 ->
  append_record e.2 t ks = Ret (put false (record_bytes e) ks).
Proof.
  intros (_ & _ & Hn) Hb. unfold append_record. by rewrite append_id, bind_Ret, (appendTypeBits_put t e.1), put_put.
Qed.

(** One step of the loops over the value of a row. *)
Lemma read_step (br : bytes) (e : entry) (g : list entry) : entry_ok e -> to_read br (e :: g) ->
  (length br =? 0)%nat = false /\ exists br1 t br', read_id br = Ret (e.2, br1) /\ read_bits ver junk br1 = Ret (t, br') /\
    bits_of t e.1 /\ to_read br' g /\ (length br' < length br)%nat.
Proof.
  intros (Hs & _ & Hn%isNormal_range) Hr. pose proof Hs as [(_ & _ & Hf) _]. pose proof (rid_nonempty e.2) as Hid.
  assert (Hex : exists br1, br = rid_bytes e.2 ++ br1 /\ exists t br', read_bits ver junk br1 = Ret (t, br') /\ bits_of t e.1 /\
    to_read br' g /\ (length br' <= length br1)%nat).
  { unfold read_bits, bits_of.
    destruct Hr as [->|(e' & [= <- ->] & ->)].
    - exists (stored_bits e.1 ++ concat (record_bytes <$> g)). cbn [fmap list_fmap concat]. unfold record_bytes at 1.
      rewrite <- app_assoc. split; [done|]. unfold stored_bits. destruct (forallb negb (fields_bits e.1)) eqn:Ez.
      + eexists _, _. split; [reflexivity|]. split; [done|]. split; [by left|cbn; lia].
      + destruct (item_read _ ver junk (concat (record_bytes <$> g)) Hf Ez Hjunk) as (t & E & _ & _ & _ & Hz & Hb).
        exists t, (concat (record_bytes <$> g)). rewrite E. split; [done|]. split; [done|]. split; [by left|solve_length].
    - exists (bits_item ver e.1). split; [done|]. unfold bits_item. cbv zeta. destruct (forallb negb (fields_bits e.1)) eqn:Ez.
      + eexists _, _. split; [reflexivity|]. split; [done|]. split; [by left|done].
      + destruct (item_read _ ver junk [] Hf Ez Hjunk) as (t & E & _ & _ & _ & Hz & Hb). rewrite app_nil_r in E.
        exists t, []. rewrite E. split; [done|]. split; [done|]. split; [by left|cbn; lia]. }
  destruct Hex as (br1 & -> & t & br' & E & Hb & Hr' & Hl).
  destruct (rid_bytes e.2) as [|b bs] eqn:Ei; [done|]. split; [done|]. exists br1, t, br'. rewrite <- Ei. unfold read_id.
  rewrite decodeRecordId_app by done. cbn [lift]. rewrite bind_Ret. split; [done|]. split; [done|]. split; [done|].
  split; [done|]. rewrite Ei, length_app. cbn. lia.
Qed.
Lemma to_read_nil (br : bytes) : to_read br [] -> br = [].
Proof. by intros [->|(e & ? & _)]. Qed.

(** ** The loops *)

(** Where [insert_loop] puts a record id. *)
Fixpoint place (inserted : bool) (e : entry) (g : list entry) : bool * list entry :=
  match g with
  | [] => (inserted, [])
  | x :: g =>
      let here := negb inserted && (e.2 <? x.2) in
      let '(b, g') := place (inserted || here) e g in
      (b, (if here then [e] else []) ++ x :: g')
  end.
Definition same_id (e x : entry) : bool := e.2 =? x.2.

Lemma insert_loop_spec (e : entry) (t : TB.TypeBits) : entry_ok e -> bits_of t e.1 -> forall g fuel br inserted ks,
  Forall entry_ok g -> to_read br g -> (length br < fuel)%nat ->
  insert_loop ver junk fuel e.2 t br inserted ks =
    Ret (if existsb (same_id e) g then None
         else Some ((place inserted e g).1, put false (concat (record_bytes <$> (place inserted e g).2)) ks)).
Proof.
  intros He Ht. induction g as [|x g IH]; intros [|fuel] br inserted ks Hok Hr Hf; try lia.
  { apply to_read_nil in Hr as ->. cbn. unfold put. cbn. rewrite app_nil_r. by destruct ks. }
  apply Forall_cons in Hok as [Hx Hok]. destruct (read_step br x g Hx Hr) as (Hl & br1 & tx & br' & E1 & E2 & Hbx & Hr' & Hlt).
  cbn [insert_loop existsb]. rewrite Hl, E1, bind_Ret. unfold same_id at 1. destruct (e.2 =? x.2); [done|]. cbn [orb].
  assert (Hstep : forall ks', (value ← lift (KS.appendRecordId x.2 ks'); '(bits, br) ← read_bits ver junk br1;
      insert_loop ver junk fuel e.2 t br (inserted || (negb inserted && (e.2 <? x.2))) (KS.appendTypeBits bits value)) =
    Ret (if existsb (same_id e) g then None
         else Some ((place (inserted || (negb inserted && (e.2 <? x.2))) e g).1,
           put false (record_bytes x ++ concat (record_bytes <$> (place (inserted || (negb inserted && (e.2 <? x.2))) e g).2)) ks'))).
  { intros ks'. rewrite append_id, bind_Ret, E2, bind_Ret by apply Hx. rewrite (appendTypeBits_put tx x.1), put_put by done.
    rewrite (IH fuel br') by (done || lia). destruct (existsb _ g); [done|]. by rewrite put_put. }
  cbn [place]. destruct (place _ e g) as [b g'] eqn:Ep. cbn [fst snd] in Hstep |- *.
  destruct (negb inserted && (e.2 <? x.2)) eqn:Eh.
  - rewrite append_record_put by done. rewrite !bind_Ret. rewrite orb_true_r in *. rewrite Hstep.
    destruct (existsb _ g); [done|]. by rewrite put_put.
  - rewrite bind_Ret. rewrite orb_false_r in *. rewrite Hstep. by destruct (existsb _ g).
Qed.

(** What [_unindex] keeps of an entry. *)
Definition record_of (r : Z * TB.TypeBits) (e : entry) : Prop := r.1 = e.2 /\ bits_of r.2 e.1 /\ entry_ok e.
Lemma unindex_loop_absent (id : Z) : forall g fuel br found records kept, Forall entry_ok g -> to_read br g ->
  (length br < fuel)%nat -> Forall2 record_of records kept -> Forall (fun x : entry => id <> x.2) g ->
  exists records', unindex_loop ver junk fuel id br found records = Ret (Some (found, records')) /\ Forall2 record_of records' (kept ++ g).
Proof.
  induction g as [|x g IH]; intros [|fuel] br found records kept Hok Hr Hf Hk Hid; try lia.
  { apply to_read_nil in Hr as ->. exists records. by rewrite app_nil_r. }
  apply Forall_cons in Hok as [Hx Hok]. apply Forall_cons in Hid as [Hn Hid].
  destruct (read_step br x g Hx Hr) as (Hl & br1 & tx & br' & E1 & E2 & Hbx & Hr' & Hlt).
  cbn [unindex_loop]. rewrite Hl, E1, bind_Ret, E2, bind_Ret. destruct (Z.eqb_spec id x.2); [done|].
  destruct (IH fuel br' found (records ++ [(x.2, tx)]) (kept ++ [x])) as (r' & -> & Hr2); [done..|lia| |done|].
  { apply Forall2_app; [done|]. by apply Forall2_cons, conj; [|apply Forall2_nil]. }
  exists r'. split; [done|]. by rewrite <- app_assoc in Hr2.
Qed.
Lemma unindex_loop_found (x : entry) (g2 : list entry) : entry_ok x -> Forall entry_ok g2 -> Forall (fun y : entry => x.2 <> y.2) g2 ->
  forall g1 fuel br records kept, Forall entry_ok g1 -> to_read br (g1 ++ x :: g2) -> (length br < fuel)%nat ->
  Forall2 record_of records kept -> Forall (fun y : entry => x.2 <> y.2) g1 ->
  match kept ++ g1 ++ g2 with
  | [] => unindex_loop ver junk fuel x.2 br false records = Ret None
  | l => exists records', unindex_loop ver junk fuel x.2 br false records = Ret (Some (true, records')) /\ Forall2 record_of records' l
  end.
Proof.
  intros Hx H2 N2. induction g1 as [|y g1 IH]; intros [|fuel] br records kept Hok Hr Hf Hk Hid; try lia.
  - destruct (read_step br x g2 Hx Hr) as (Hl & br1 & tx & br' & E1 & E2 & Hbx & Hr' & Hlt).
    cbn [unindex_loop app]. rewrite Hl, E1, bind_Ret, E2, bind_Ret, Z.eqb_refl.
    rewrite (Forall2_length _ _ _ Hk). destruct kept as [|k0 kept].
    + cbn [length Nat.eqb andb app]. destruct g2 as [|y g2].
      { by apply to_read_nil in Hr' as ->. }
      apply Forall_cons in H2 as [Hy H2'].
      destruct (read_step br' y g2 Hy Hr') as [-> _].
      apply (unindex_loop_absent x.2 (y :: g2) fuel br' true records []); [by constructor|done|lia|done|done].
    + cbn [length Nat.eqb andb]. rewrite <- app_comm_cons.
      apply (unindex_loop_absent x.2 g2 fuel br' true records (k0 :: kept)); [done|done|lia|done|done].
  - apply Forall_cons in Hok as [Hy Hok]. apply Forall_cons in Hid as [Hn Hid].
    destruct (read_step br y (g1 ++ x :: g2) Hy Hr) as (Hl & br1 & ty & br' & E1 & E2 & Hby & Hr' & Hlt).
    cbn [unindex_loop]. rewrite Hl, E1, bind_Ret, E2, bind_Ret. destruct (Z.eqb_spec x.2 y.2); [done|].
    specialize (IH fuel br' (records ++ [(y.2, ty)]) (kept ++ [y]) Hok Hr' ltac:(lia)).
    rewrite <- app_assoc in IH. apply IH; [|done]. apply Forall2_app; [done|]. by apply Forall2_cons, conj; [|apply Forall2_nil].
Qed.

(** The value that is put back is that of the entries that are left. *)
Lemma put_back_spec (single : bool) (records : list (Z * TB.TypeBits)) (g : list entry) : Forall2 record_of records g -> forall ks,
  put_back single records ks = Ret (put false (concat ((fun e => if single then entry_item ver true e else record_bytes e) <$> g)) ks).
Proof.
  induction 1 as [|[id t] e records g (Hid & Hb & Hok) _ IH]; intros ks.
  { cbn. unfold put. cbn. rewrite app_nil_r. by destruct ks. }
  cbn [fst snd] in *. subst id. cbn [put_back fmap list_fmap concat]. rewrite append_id, bind_Ret by apply Hok.
  assert (E : (if negb (TB._isAllZeros t && single) then KS.appendTypeBits t (put false (rid_bytes e.2) ks) else put false (rid_bytes e.2) ks) =
    put false (if single then entry_item ver true e else record_bytes e) ks).
  { rewrite (appendTypeBits_put t e.1), put_put by done. destruct Hb as [-> _]. unfold entry_item, bits_item, record_bytes, stored_bits.
    cbv zeta. destruct single, (forallb negb _); cbn; by rewrite ?app_nil_r. }
  rewrite E, IH, put_put. done.
Qed.
Lemma put_back_group (records : list (Z * TB.TypeBits)) (g : list entry) (ks : KS.KeyString) : Forall2 record_of records g ->
  put_back (length records =? 1)%nat records ks = Ret (put false (group_value g) ks).
Proof.
  intros H. rewrite (put_back_spec _ _ g H), (Forall2_length _ _ _ H). destruct g as [|e [|e' g]]; [done| |done].
  cbn. by rewrite app_nil_r.
Qed.

Lemma dup_loop_spec (e : entry) : forall g fuel br, Forall entry_ok g -> to_read br g -> (length br < fuel)%nat ->
  dup_loop ver junk fuel e.2 br = Ret (negb (existsb (same_id e) g)).
Proof.
  induction g as [|x g IH]; intros [|fuel] br Hok Hr Hf; try lia.
  { by apply to_read_nil in Hr as ->. }
  apply Forall_cons in Hok as [Hx Hok]. destruct (read_step br x g Hx Hr) as (Hl & br1 & tx & br' & E1 & E2 & Hbx & Hr' & Hlt).
  cbn [dup_loop existsb]. rewrite Hl, E1, bind_Ret. unfold same_id at 1. rewrite (Z.eqb_sym e.2). destruct (x.2 =? e.2); [done|].
  rewrite E2, bind_Ret. apply IH; [done|done|lia].
Qed.

End values.

(** The list of a key stays ordered by record id. *)
Abbreviation id_before := (fun a b : entry => a.2 < b.2).
Definition placed (e : entry) (g : list entry) : list entry :=
  if (place false e g).1 then (place false e g).2 else (place false e g).2 ++ [e].
Lemma place_inserted (e : entry) (g : list entry) : place true e g = (true, g).
Proof. induction g as [|x g IH]; [done|]. cbn. by rewrite IH. Qed.
Lemma placed_cons (e x : entry) (g : list entry) : placed e (x :: g) = if e.2 <? x.2 then e :: x :: g else x :: placed e g.
Proof.
  unfold placed. cbn [place negb andb orb]. destruct (e.2 <? x.2); [by rewrite place_inserted|].
  destruct (place false e g) as [b g']. cbn. by destruct b.
Qed.
Lemma placed_permutation (e : entry) (g : list entry) : placed e g ≡ₚ e :: g.
Proof.
  induction g as [|x g IH]; [done|]. rewrite placed_cons. destruct (e.2 <? x.2); [done|]. rewrite IH. apply Permutation_swap.
Qed.
Lemma placed_sorted (e : entry) (g : list entry) : StronglySorted id_before g -> existsb (same_id e) g = false ->
  StronglySorted id_before (placed e g).
Proof.
  induction 1 as [|x g Hs IH Hx]; [by repeat constructor|]. cbn [existsb]. intros [Hn Hg]%orb_false_iff. unfold same_id in Hn.
  rewrite placed_cons. destruct (Z.ltb_spec e.2 x.2) as [Hlt|Hge].
  - constructor; [by constructor|]. constructor; [done|]. eapply Forall_impl; [exact Hx|]. cbn. lia.
  - constructor; [auto|]. rewrite placed_permutation. constructor; [lia|done].
Qed.

(** ** The index *)
Section index.
Context {T : Type} `{WtLaws T}.
Variable D : Cmp.Decimal128.
Variable enc : bytes -> bool -> KS.KeyString -> outcome ks_error KS.KeyString.
Variable ver : Version.
Variable kp : list field.
Variable ord : Z.
Variable junk : list Z.
Hypothesis Hjunk : length junk = 128%nat.
Abbreviation entry_ok := (entry_ok ver kp).
Abbreviation key_of := (entry_bytes ver ord true).
Abbreviation entry_eqb := (entry_eqb D ord).

(** A row: the entries with one key, in the order of their record ids. *)
Definition group_key (g : list entry) : bytes := match g with [] => [] | e :: _ => key_of e end.
Definition group_row (g : list entry) : row := (group_key g, group_value ver g).
Definition group_ok (g : list entry) : Prop :=
  g <> [] /\ Forall entry_ok g /\ Forall (fun x => key_of x = group_key g) g /\ StronglySorted id_before g.
Definition groups_in (t : T) (gs : list (list entry)) : Prop := wt_rows t = group_row <$> gs /\ Forall group_ok gs.
(** The table holds the entries [es]. *)
Definition stores (t : T) (es : list entry) : Prop := exists gs, es = concat gs /\ groups_in t gs.

(** Entries with equal keys. *)
Definition key_eqb (a b : entry) : bool :=
  match Cmp.woCompare_ordering D false None ord 1 a.1 b.1 with Some z => z =? 0 | None => false end.
Lemma entry_eqb_key (a b : entry) : entry_eqb a b = key_eqb a b && same_id a b.
Proof. unfold Walk.entry_eqb, key_eqb, same_id. by destruct (Cmp.woCompare_ordering _ _ _ _ _ _ _). Qed.
Lemma key_eqb_bytes (a b : entry) : entry_ok a -> entry_ok b -> key_eqb a b = bool_decide (key_of a = key_of b).
Proof using Type.
  clear Hjunk. intros ([Ha _] & _) ([Hb _] & _). destruct (keys_lexcmp D ver ord a.1 b.1 [] [] Ha Hb) as (z & Hz & Hc). unfold key_eqb. rewrite Hz.
  change (SD.lexcmp (key_of a) (key_of b) = if z =? 0 then 0 else Z.sgn z) in Hc.
  pose proof (SD.lexcmp_eq (key_of a) (key_of b)) as Heq. rewrite Hc in Heq. case_bool_decide as E; [apply Heq in E|].
  - destruct (Z.eqb_spec z 0); [done|lia].
  - apply Z.eqb_neq. intros ->. by apply E, Heq.
Qed.

(** The key and the type bits of an entry. *)
Lemma key_encoded (e : entry) : entry_ok e -> exists ks, KS.resetToQuery enc ver junk e.1 ord kInclusive = Ret ks /\
  KS._buffer ks = key_of e /\ bits_of ver (KS._typeBits ks) e.1.
Proof.
  intros ([Hk Hn] & _). destruct (stored_names e.1 Hn) as [Hnames Hd].
  destruct (query_encoded enc ver ord junk Hjunk e.1 kInclusive Hk Hnames) as (ks & E & Hb & (_ & _ & Hr)).
  exists ks. split; [done|]. split; [|by apply rep_bits_of; [|apply Hk]]. rewrite Hb. unfold query_bytes. by rewrite Hd.
Qed.

Lemma group_keys (gs : list (list entry)) : (group_row <$> gs).*1 = group_key <$> gs.
Proof. rewrite <- list_fmap_compose. done. Qed.
Lemma rows_groups (t : T) (gs : list (list entry)) : wt_rows t ≡ₚ group_row <$> gs -> Forall group_ok gs ->
  exists es, stores t es /\ es ≡ₚ concat gs.
Proof.
  intros Hp Hok. apply Permutation_map_inv in Hp as (gs' & E & Hp). exists (concat gs'). split.
  - exists gs'. split; [done|]. split; [done|]. by rewrite <- Hp.
  - by rewrite Hp.
Qed.

(** An index in which no key has a second record: what the cursors read. *)
Abbreviation holds := (holds ver kp ord true).
Lemma holds_stores (t : T) (es : list entry) : holds t es -> stores t es /\ NoDup (key_of <$> es).
Proof.
  intros [Hr Hok]. split.
  - exists ((fun e => [e]) <$> es). split; [clear; by induction es as [|e es IH]; cbn; [|f_equal]|]. split; [by rewrite Hr, <- list_fmap_compose|].
    apply Forall_fmap. eapply Forall_impl; [exact Hok|]. intros e He. split; [done|]. do 2 (split; [by apply Forall_singleton|]). repeat constructor.
  - pose proof (row_keys_NoDup t) as Hnd. rewrite Hr, <- list_fmap_compose in Hnd. done.
Qed.
Lemma groups_single (gs : list (list entry)) : Forall group_ok gs -> NoDup (key_of <$> concat gs) -> gs = (fun e => [e]) <$> concat gs.
Proof.
  induction 1 as [|g gs (Hne & _ & Hk & _) _ IH]; [done|]. cbn [concat]. rewrite fmap_app. intros (Hg & _ & Hrest)%NoDup_app.
  destruct g as [|a [|b g]]; [done|cbn; by rewrite <- IH|]. cbn in Hg, Hk. apply NoDup_cons in Hg as [Hn _]. destruct Hn.
  apply Forall_cons in Hk as [_ Hk]. apply Forall_cons in Hk as [Eb _]. rewrite Eb. left.
Qed.
Lemma stores_holds (t : T) (es : list entry) : stores t es -> NoDup (key_of <$> es) -> holds t es.
Proof.
  intros (gs & -> & Hr & Hok) Hnd. pose proof (groups_single gs Hok Hnd) as E. split.
  - rewrite Hr. rewrite E at 1. by rewrite <- list_fmap_compose.
  - apply Forall_concat. eapply Forall_impl; [exact Hok|]. by intros g (_ & Hg & _).
Qed.
Lemma stores_ok (t : T) (es : list entry) : stores t es -> Forall entry_ok es.
Proof. intros (gs & -> & _ & Hok). apply Forall_concat. eapply Forall_impl; [exact Hok|]. by intros g (_ & Hg & _). Qed.
(** A new key, and fewer entries, leave it one. *)
Lemma holds_insert (t t' : T) (es es' : list entry) (e : entry) : holds t es -> entry_ok e -> existsb (key_eqb e) es = false ->
  stores t' es' -> es' ≡ₚ e :: es -> holds t' es'.
Proof.
  intros Hh He Hnone Hs Hp. destruct (holds_stores t es Hh) as [_ Hnd]. apply (stores_holds t' es' Hs). rewrite Hp. cbn [fmap list_fmap].
  apply NoDup_cons. split; [|done]. intros (x & Ex & Hx)%list_elem_of_fmap. apply not_true_iff_false in Hnone. apply Hnone, existsb_exists.
  exists x. split; [by apply list_elem_of_In|]. destruct Hh as [_ Hok]. rewrite Forall_forall in Hok. rewrite key_eqb_bytes by auto.
  by apply bool_decide_eq_true_2.
Qed.
Lemma holds_sublist (t t' : T) (es es' l : list entry) : holds t es -> stores t' es' -> es' ≡ₚ l -> l `sublist_of` es -> holds t' es'.
Proof.
  intros Hh Hs Hp Hl. destruct (holds_stores t es Hh) as [_ Hnd]. apply (stores_holds t' es' Hs). rewrite Hp.
  eapply sublist_NoDup; [exact Hnd|]. by apply fmap_sublist.
Qed.

(** The row of a key. *)
Lemma other_key (e : entry) (g : list entry) : entry_ok e -> group_ok g -> group_key g <> key_of e ->
  Forall (fun x => key_eqb e x = false) g.
Proof.
  intros He (_ & Hok & Hk & _) Hne. rewrite Forall_forall in *. intros x Hx. rewrite key_eqb_bytes by auto.
  apply bool_decide_eq_false_2. rewrite (Hk x Hx). done.
Qed.
Lemma find_group (t : T) (gs : list (list entry)) (e : entry) : groups_in t gs -> entry_ok e ->
  match wt_search t (key_of e) with
  | None => key_of e ∉ (wt_rows t).*1 /\ Forall (fun x => key_eqb e x = false) (concat gs)
  | Some i => exists g gs0, wt_rows t !! i = Some (group_row g) /\ group_key g = key_of e /\ gs ≡ₚ g :: gs0 /\ group_ok g /\
      Forall group_ok gs0 /\ key_of e ∉ group_key <$> gs0 /\
      Forall (fun x => key_eqb e x = true) g /\ Forall (fun x => key_eqb e x = false) (concat gs0)
  end.
Proof.
  intros [Hr Hok] He. pose proof (wt_search_spec t (key_of e)) as Hs.
  assert (Hother : forall l, Forall group_ok l -> key_of e ∉ group_key <$> l -> Forall (fun x => key_eqb e x = false) (concat l)).
  { intros l Hl Hn. apply Forall_concat. rewrite Forall_forall in *. intros g Hg. apply other_key; [done|auto|].
    intros E. apply Hn. rewrite <- E. apply list_elem_of_fmap. by exists g. }
  destruct (wt_search t (key_of e)) as [i|].
  - destruct Hs as [v Hi]. rewrite Hr, list_lookup_fmap in Hi. destruct (gs !! i) as [g|] eqn:Eg; [|done]. injection Hi as Ek Ev.
    destruct (elem_of_Permutation gs g) as [[gs0 Hp] _]; [by eapply list_elem_of_lookup_2|].
    pose proof (row_keys_NoDup t) as Hnd. rewrite Hr, group_keys, Hp in Hnd. cbn [fmap list_fmap] in Hnd.
    apply NoDup_cons in Hnd as [Hnd _]. rewrite Ek in Hnd. rewrite Hp in Hok. apply Forall_cons in Hok as [Hg Hok].
    exists g, gs0. split; [rewrite Hr, list_lookup_fmap, Eg; done|]. do 5 (split; [done|]). split; [|auto].
    destruct Hg as (_ & Hoks & Hk & _). rewrite Forall_forall in *. intros x Hx. rewrite key_eqb_bytes by auto.
    apply bool_decide_eq_true_2. by rewrite (Hk x Hx).
  - split; [done|]. rewrite Hr, group_keys in Hs. auto.
Qed.

(** Which entries of the index an entry meets. *)
Lemma meets_none (e : entry) (es : list entry) : Forall (fun x => key_eqb e x = false) es ->
  existsb (key_eqb e) es = false /\ existsb (entry_eqb e) es = false.
Proof.
  intros Hes. split; rewrite (existsb_ext_in _ (fun _ => false)); try apply existsb_none; [done|].
  eapply Forall_impl; [exact Hes|]. intros x Hx. cbn in Hx. by rewrite entry_eqb_key, Hx.
Qed.
Lemma meets_group (e : entry) (gs gs0 : list (list entry)) (g : list entry) : gs ≡ₚ g :: gs0 -> g <> [] ->
  Forall (fun x => key_eqb e x = true) g -> Forall (fun x => key_eqb e x = false) (concat gs0) ->
  existsb (key_eqb e) (concat gs) = true /\ existsb (entry_eqb e) (concat gs) = existsb (same_id e) g.
Proof.
  intros Hp Hne Hg Hrest. destruct (meets_none e _ Hrest) as [_ E0]. rewrite !(Sets.existsb_permutation _ (concat gs) (g ++ concat gs0)) by (by rewrite Hp).
  rewrite !existsb_app, E0, orb_false_r. split.
  - destruct g as [|x g]; [done|]. apply Forall_cons in Hg as [Hx _]. cbn. by rewrite Hx.
  - apply existsb_ext_in. eapply Forall_impl; [exact Hg|]. intros x Hx. cbn in Hx. by rewrite entry_eqb_key, Hx.
Qed.

(** Changes of the row of a key. *)
Lemma row_of_key (k v : bytes) (l : list row) (g : list entry) (gs0 : list (list entry)) :
  (k, v) :: l ≡ₚ group_row <$> g :: gs0 -> group_key g = k -> k ∉ group_key <$> gs0 -> l ≡ₚ group_row <$> gs0.
Proof.
  intros Hp Hk Hn. assert (Hin : (k, v) ∈ group_row <$> g :: gs0) by (rewrite <- Hp; left).
  cbn [fmap list_fmap] in Hin, Hp. apply elem_of_cons in Hin as [E|Hin].
  - rewrite E in Hp. by apply Permutation.Permutation_cons_inv in Hp.
  - destruct Hn. apply list_elem_of_fmap in Hin as (g' & E & Hin). apply list_elem_of_fmap. exists g'. split; [by injection E|done].
Qed.
Section row.
Variable t : T.
Variable gs gs0 : list (list entry).
Variable g : list entry.
Variable k : bytes.
Hypothesis Hgs : groups_in t gs.
Hypothesis Hp : gs ≡ₚ g :: gs0.
Hypothesis Hk : group_key g = k.
Hypothesis Hn : k ∉ group_key <$> gs0.
Hypothesis Hok0 : Forall group_ok gs0.
Lemma rows_split : wt_rows t ≡ₚ group_row <$> g :: gs0.
Proof using Hgs Hp. destruct Hgs as [-> _]. by rewrite Hp. Qed.
Lemma row_present : k ∈ (wt_rows t).*1.
Proof using Hgs Hp Hk. rewrite rows_split, group_keys. cbn [fmap list_fmap]. rewrite Hk. left. Qed.
Lemma update_group (g' : list entry) : group_ok g' -> group_key g' = k ->
  exists t' es', wt_update k (group_value ver g') t = Some t' /\ stores t' es' /\ es' ≡ₚ g' ++ concat gs0.
Proof using Type*.
  intros Hok Hk'. pose proof (wt_update_spec k (group_value ver g') t) as Hu. destruct (wt_update k _ t) as [t'|]; [|by destruct (Hu row_present)].
  destruct Hu as (v0 & l & Hr & Hr'). rewrite rows_split in Hr. symmetry in Hr. apply row_of_key in Hr; [|done..]. rewrite Hr in Hr'.
  destruct (rows_groups t' (g' :: gs0)) as (es' & Hs & Hes); [|by constructor|by exists t', es'].
  rewrite Hr'. cbn [fmap list_fmap]. unfold group_row at 2. by rewrite Hk'.
Qed.
Lemma remove_group : exists t' es', wt_remove k t = Some t' /\ stores t' es' /\ es' ≡ₚ concat gs0.
Proof using Type*.
  pose proof (wt_remove_spec k t) as Hu. destruct (wt_remove k t) as [t'|]; [|by destruct (Hu row_present)].
  destruct Hu as (v & Hr). rewrite rows_split in Hr. symmetry in Hr. apply row_of_key in Hr; [|done..].
  destruct (rows_groups t' gs0) as (es' & Hs & Hes); [done|done|by exists t', es'].
Qed.
End row.

Lemma group_one (e : entry) : entry_ok e -> group_ok [e].
Proof. intros He. split; [done|]. do 2 (split; [by apply Forall_singleton|]). repeat constructor. Qed.
Lemma group_placed (e : entry) (g : list entry) : entry_ok e -> group_ok g -> group_key g = key_of e ->
  existsb (same_id e) g = false -> group_ok (placed e g) /\ group_key (placed e g) = key_of e /\
  group_value ver (placed e g) = concat (record_bytes ver <$> placed e g).
Proof.
  intros He (Hne & Hok & Hkeys & Hs) Hk Hid. pose proof (placed_permutation e g) as Hp.
  assert (Hall : Forall (fun x => key_of x = key_of e) (placed e g)) by (rewrite Hp, <- Hk; constructor; [done|done]).
  assert (Hhead : group_key (placed e g) = key_of e).
  { destruct (placed e g) as [|x l]; [by apply Permutation_nil_cons in Hp|]. by apply Forall_cons in Hall as [Hx _]. }
  split; [|split; [done|]].
  - split; [intros E; rewrite E in Hp; by apply Permutation_nil_cons in Hp|]. split; [rewrite Hp; by constructor|].
    split; [by rewrite Hhead|by apply placed_sorted].
  - unfold group_value. destruct (placed e g) as [|x [|y l]]; [done| |done].
    apply Permutation_length in Hp. by destruct g.
Qed.

(** The values that [_insert] stores. *)
Lemma first_value (e : entry) (t : TB.TypeBits) (ks : KS.KeyString) : bits_of ver t e.1 ->
  KS._buffer (if negb (TB._isAllZeros t) then KS.appendTypeBits t (put false (rid_bytes e.2) ks) else put false (rid_bytes e.2) ks) =
  KS._buffer ks ++ group_value ver [e].
Proof.
  intros Hb. rewrite (appendTypeBits_put ver _ e.1), put_put by done. destruct Hb as [-> _]. cbn [group_value].
  unfold entry_item, bits_item, stored_bits. cbv zeta. destruct (forallb negb _); cbn; by rewrite ?app_nil_r.
Qed.
Lemma last_value (e : entry) (t : TB.TypeBits) (g : list entry) (ks : KS.KeyString) : entry_ok e -> bits_of ver t e.1 ->
  (if negb (place false e g).1 then append_record e.2 t (put false (concat (record_bytes ver <$> (place false e g).2)) ks)
   else Ret (put false (concat (record_bytes ver <$> (place false e g).2)) ks)) =
  Ret (put false (concat (record_bytes ver <$> placed e g)) ks).
Proof.
  intros He Hb. unfold placed. destruct (place false e g) as [[] g']; cbn [fst snd negb]; [done|].
  rewrite (append_record_put ver kp), put_put by done. rewrite fmap_app, concat_app. cbn [fmap list_fmap concat]. by rewrite app_nil_r.
Qed.

(** The cases of [insert]. *)
Lemma unique_insert_cases (t : T) (es : list entry) (e : entry) (dupsAllowed : bool) : stores t es -> entry_ok e ->
  checkKeySize e.1 = true ->
  if existsb (entry_eqb e) es then Uniq.insert enc ver ord junk e.1 e.2 dupsAllowed t = Ret t
  else if existsb (key_eqb e) es && negb dupsAllowed then Uniq.insert enc ver ord junk e.1 e.2 dupsAllowed t = Throw DuplicateKey
  else exists t' es', Uniq.insert enc ver ord junk e.1 e.2 dupsAllowed t = Ret t' /\ stores t' es' /\ es' ≡ₚ e :: es /\
    (dupsAllowed = false -> holds t es -> holds t' es').
Proof.
  intros (gs & -> & Hgs) He Hsize. destruct (key_encoded e He) as (ks & E & Hb & Hbits).
  unfold Uniq.insert, Uniq._insert. rewrite Hsize. pose proof He as (_ & _ & Hnorm). rewrite Hnorm. cbn [verify require].
  rewrite !bind_Ret, E. cbn [lift]. rewrite bind_Ret. cbv zeta. rewrite append_id, bind_Ret, Hb by done.
  rewrite (first_value e (KS._typeBits ks) (KS.resetToEmpty ver junk)) by done. cbn [KS._buffer KS.resetToEmpty app]. pose proof (find_group t gs e Hgs He) as Hfind. pose proof (wt_insert_spec (key_of e) (group_value ver [e]) t) as Hins.
  pose proof (wt_search_spec t (key_of e)) as Hsearch.
  destruct (wt_insert (key_of e) (group_value ver [e]) t) as [t'|].
  - destruct Hins as [Hnot Hp]. destruct (wt_search t (key_of e)) as [i|].
    { destruct Hsearch as [v Hi]. destruct Hnot. apply list_elem_of_fmap. exists (key_of e, v). split; [done|]. by eapply list_elem_of_lookup_2. }
    destruct Hfind as [_ Hnone]. destruct (meets_none e _ Hnone) as [Hno ->]. rewrite Hno. cbn [andb].
    destruct Hgs as [Hr Hok]. rewrite Hr in Hp. destruct (rows_groups t' ([e] :: gs)) as (es' & Hs & Hes); [done|constructor; [by apply group_one|done]|].
    exists t', es'. do 3 (split; [done|]). intros _ Hh. by apply (holds_insert t t' (concat gs) es' e).
  - destruct (wt_search t (key_of e)) as [i|]; [|done]. destruct Hfind as (g & gs0 & Hi & Hk & Hp & Hg & Hok0 & Hn & Heq & Hne).
    pose proof Hg as (Hnonempty & Hok & _). destruct (meets_group e gs gs0 g Hp Hnonempty Heq Hne) as [-> ->]. cbn [mbind option_bind andb].
    rewrite Hi. unfold group_row.
    rewrite (insert_loop_spec ver kp junk Hjunk e (KS._typeBits ks) He Hbits g) by (done || apply group_to_read || lia).
    rewrite !bind_Ret. destruct (existsb (same_id e) g) eqn:Eid; [done|]. destruct dupsAllowed; cbn [negb]; [|done].
    destruct (group_placed e g He Hg Hk Eid) as (Hok' & Hk' & Hval).
    rewrite last_value, bind_Ret by done. cbn [KS._buffer put KS.resetToEmpty app Lex.flip_if]. rewrite <- Hval.
    destruct (update_group t gs gs0 g (key_of e) Hgs Hp Hk Hn Hok0 (placed e g) Hok' Hk') as (t' & es' & -> & Hs & Hes).
    exists t', es'. split; [done|]. split; [done|]. split; [|done]. by rewrite Hes, placed_permutation, Hp.
Qed.

(** C27. [insert] of a unique index, of a key that is not too long: an entry that is there stays; a second record with an equal
    key is refused with [DuplicateKey] unless duplicates are allowed, and else joins the list of
    the key; any other entry gets a row of its own. Without duplicates an index in which no key
    has a second record stays one. *)
Theorem unique_insert_exact (t : T) (es : list entry) (e : entry) (dupsAllowed : bool) : stores t es -> entry_ok e ->
  checkKeySize e.1 = true ->
  if existsb (entry_eqb e) es then Uniq.insert enc ver ord junk e.1 e.2 dupsAllowed t = Ret t
  else if existsb (key_eqb e) es && negb dupsAllowed then Uniq.insert enc ver ord junk e.1 e.2 dupsAllowed t = Throw DuplicateKey
  else exists t' es', Uniq.insert enc ver ord junk e.1 e.2 dupsAllowed t = Ret t' /\ stores t' es' /\ es' ≡ₚ e :: es /\
    (dupsAllowed = false -> holds t es -> holds t' es').
Proof. apply unique_insert_cases. Qed.

(** What is left of a group without one of its record ids. *)
Lemma group_without (e : entry) (g : list entry) : group_ok g -> existsb (same_id e) g = true ->
  exists g1 x g2, g = g1 ++ x :: g2 /\ e.2 = x.2 /\ Forall (fun y : entry => x.2 <> y.2) (g1 ++ g2) /\
    (g1 ++ g2 <> [] -> group_ok (g1 ++ g2) /\ group_key (g1 ++ g2) = group_key g).
Proof.
  intros (_ & Hok & Hk & Hs) Hin. apply existsb_exists in Hin as (x & Hx & Hid%Z.eqb_eq). apply list_elem_of_In, list_elem_of_split in Hx as (g1 & g2 & ->).
  exists g1, x, g2. split; [done|]. split; [done|].
  apply StronglySorted_app in Hs as (H12 & H1 & H2). inversion H2 as [|? ? H2s Hx2]. subst.
  assert (Hall : Forall (fun y => key_of y = group_key (g1 ++ x :: g2)) (g1 ++ g2)).
  { apply Forall_app in Hk as [Hk1 Hk2]. apply Forall_cons in Hk2 as [_ Hk2]. by apply Forall_app. }
  assert (Hheads : g1 ++ g2 <> [] -> group_key (g1 ++ g2) = group_key (g1 ++ x :: g2)).
  { destruct (g1 ++ g2) as [|y l]; [done|]. by apply Forall_cons in Hall as [Hy _]. }
  split.
  - apply Forall_app. split; [|eapply Forall_impl; [exact Hx2|cbn; lia]]. apply Forall_forall. intros y Hy.
    specialize (H12 y x Hy (list_elem_of_here _ _)). cbn in H12. lia.
  - intros Hne. split; [|auto]. split; [done|]. apply Forall_app in Hok as [Hok1 Hok2]. apply Forall_cons in Hok2 as [_ Hok2].
    split; [by apply Forall_app|]. split; [by rewrite Hheads|]. apply StronglySorted_app.
    split; [|done]. intros a b Ha Hb. apply H12; [done|by right].
Qed.

(** The entries that are left. *)
Lemma filter_key (e : entry) (gs gs0 : list (list entry)) (g : list entry) : gs ≡ₚ g :: gs0 ->
  Forall (fun x => key_eqb e x = true) g -> Forall (fun x => key_eqb e x = false) (concat gs0) ->
  filter (fun x => key_eqb e x = false) (concat gs) ≡ₚ concat gs0.
Proof.
  intros Hp Hg Hrest. rewrite Hp. cbn [concat]. rewrite filter_app, (filter_all _ (concat gs0)) by done.
  rewrite (filter_nothing _ g); [done|]. eapply Forall_impl; [exact Hg|]. cbn. congruence.
Qed.
Lemma filter_entry (e : entry) (gs gs0 : list (list entry)) (g : list entry) : gs ≡ₚ g :: gs0 ->
  Forall (fun x => key_eqb e x = true) g -> Forall (fun x => key_eqb e x = false) (concat gs0) ->
  filter (fun x => entry_eqb e x = false) (concat gs) ≡ₚ filter (fun x => same_id e x = false) g ++ concat gs0.
Proof.
  intros Hp Hg Hrest. rewrite Hp. cbn [concat]. rewrite filter_app, (filter_all _ (concat gs0)).
  - apply Permutation_app; [|done]. apply reflexive_eq, filter_agree. eapply Forall_impl; [exact Hg|]. intros x Hx. cbn in Hx.
    by rewrite entry_eqb_key, Hx.
  - eapply Forall_impl; [exact Hrest|]. intros x Hx. cbn in Hx. by rewrite entry_eqb_key, Hx.
Qed.

(** [_unindex] when duplicates are allowed, on the row of the key. *)
Lemma unindex_row (t : T) (gs gs0 : list (list entry)) (g : list entry) (e : entry) : groups_in t gs -> gs ≡ₚ g :: gs0 ->
  group_key g = key_of e -> group_ok g -> Forall group_ok gs0 -> key_of e ∉ group_key <$> gs0 ->
  exists t' es', (r ← unindex_loop ver junk (S (length (group_value ver g))) e.2 (group_value ver g) false [];
      match r with
      | None => match wt_remove (key_of e) t with Some c => Ret c | None => Fault end
      | Some (foundId, records) =>
          if negb foundId then Ret t
          else
            _ ← verify (negb (length records =? 0)%nat);
            value ← put_back (length records =? 1)%nat records (KS.resetToEmpty ver junk);
            match wt_update (key_of e) (KS._buffer value) t with Some c => Ret c | None => Fault end
      end) = Ret t' /\ stores t' es' /\ es' ≡ₚ filter (fun x => same_id e x = false) g ++ concat gs0.
Proof.
  intros Hgs Hp Hk Hg Hok0 Hn. pose proof Hg as (_ & Hok & _). destruct (existsb (same_id e) g) eqn:Eid.
  - destruct (group_without e g Hg Eid) as (g1 & x & g2 & -> & Hid & Hne & Hrest). rewrite Hid.
    apply Forall_app in Hok as [Hok1 Hok2]. apply Forall_cons in Hok2 as [Hx Hok2]. pose proof Hne as [Hne1 Hne2]%Forall_app.
    pose proof (unindex_loop_found ver kp junk Hjunk x g2 Hx Hok2 Hne2 g1 (S (length (group_value ver (g1 ++ x :: g2))))
      (group_value ver (g1 ++ x :: g2)) [] [] Hok1 (group_to_read ver _) ltac:(lia) (List.Forall2_nil _) Hne1) as Hloop.
    assert (Hfilter : filter (fun y => same_id e y = false) (g1 ++ x :: g2) = g1 ++ g2).
    { rewrite filter_app, filter_cons_False, <- filter_app by (unfold same_id; rewrite Hid, Z.eqb_refl; done).
      apply filter_all. eapply Forall_impl; [exact Hne|]. intros y Hy. unfold same_id. apply Z.eqb_neq. by rewrite Hid. }
    rewrite Hfilter. cbn [app] in Hloop. destruct (g1 ++ g2) as [|y l] eqn:El.
    + rewrite Hloop, bind_Ret. destruct (remove_group t gs gs0 _ (key_of e) Hgs Hp Hk Hn Hok0) as (t' & es' & -> & Hs & Hes). by exists t', es'.
    + destruct Hloop as (records & -> & Hrec). rewrite bind_Ret. cbn [negb]. rewrite (put_back_group ver kp _ (y :: l)) by done.
      rewrite (Forall2_length _ _ _ Hrec). cbn [length Nat.eqb negb verify]. rewrite !bind_Ret.
      cbn [KS._buffer put KS.resetToEmpty app Lex.flip_if]. destruct (Hrest ltac:(done)) as [Hok' Hk']. rewrite Hk in Hk'.
      destruct (update_group t gs gs0 _ (key_of e) Hgs Hp Hk Hn Hok0 (y :: l) Hok' Hk') as (t' & es' & -> & Hs & Hes). by exists t', es'.
  - assert (Hall : Forall (fun x => same_id e x = false) g).
    { apply Forall_forall. intros x Hx. apply not_true_iff_false. intros Hid. apply not_true_iff_false in Eid. apply Eid, existsb_exists.
      exists x. split; [by apply list_elem_of_In|done]. }
    destruct (unindex_loop_absent ver kp junk Hjunk e.2 g (S (length (group_value ver g))) (group_value ver g) false [] [] Hok
      (group_to_read ver g) ltac:(lia) (List.Forall2_nil _)) as (records & -> & _).
    { eapply Forall_impl; [exact Hall|]. intros x Hx. unfold same_id in Hx. lia. }
    rewrite bind_Ret. cbn [negb]. rewrite filter_all by done. exists t, (concat gs). split; [done|]. split; [by exists gs|]. by rewrite Hp.
Qed.

(** What [unindex] leaves. *)
Lemma unindex_leaves (t : T) (es : list entry) (e : entry) (dupsAllowed : bool) : stores t es -> entry_ok e ->
  exists t' es', Uniq.unindex enc ver ord junk e.1 e.2 dupsAllowed t = Ret t' /\ stores t' es' /\
    es' ≡ₚ if dupsAllowed then filter (fun x => entry_eqb e x = false) es else filter (fun x => key_eqb e x = false) es.
Proof.
  intros (gs & -> & Hgs) He. destruct (key_encoded e He) as (ks & E & Hb & _).
  unfold Uniq.unindex, Uniq._unindex. pose proof He as (_ & _ & ->). cbn [verify].
  rewrite !bind_Ret, E. cbn [lift]. rewrite bind_Ret. cbv zeta. rewrite Hb.
  pose proof (find_group t gs e Hgs He) as Hfind. destruct (wt_search t (key_of e)) as [i|].
  - destruct Hfind as (g & gs0 & Hi & Hk & Hp & Hg & Hok0 & Hn & Heq & Hne). rewrite Hi. unfold group_row at 1.
    destruct dupsAllowed; cbn [negb].
    + destruct (unindex_row t gs gs0 g e Hgs Hp Hk Hg Hok0 Hn) as (t' & es' & Er & Hs & Hes). exists t', es'.
      split; [exact Er|]. split; [done|]. by rewrite (filter_entry e gs gs0 g).
    + destruct (remove_group t gs gs0 g (key_of e) Hgs Hp Hk Hn Hok0) as (t' & es' & -> & Hs & Hes). exists t', es'.
      split; [done|]. split; [done|]. by rewrite (filter_key e gs gs0 g).
  - destruct Hfind as [Hnot Hnone]. rewrite !filter_all.
    2: done.
    2: { eapply Forall_impl; [exact Hnone|]. intros x Hx. cbn in Hx. by rewrite entry_eqb_key, Hx. }
    destruct dupsAllowed; cbn [negb].
    + destruct (dummy_row (key_of e) t Hnot) as (t1 & t2 & -> & -> & Hp). destruct Hgs as [Hr Hok]. rewrite Hr in Hp.
      destruct (rows_groups t2 gs) as (es' & Hs & Hes); [done|done|]. by exists t2, es'.
    + exists t, (concat gs). pose proof (wt_remove_spec (key_of e) t) as Hrem. destruct (wt_remove (key_of e) t) as [t'|]; [|split; [done|split; [by exists gs|done]]].
      destruct Hrem as [v Hp]. destruct Hnot. rewrite Hp. left.
Qed.

(** C28. [unindex] of a unique index removes exactly the entry with an equal key and the same
    record id, and leaves every other entry: with duplicates allowed the other records of the
    key are put back, without them the theorem is for an entry whose key no other record has.
    An index in which no key has a second record stays one. *)
Theorem unique_unindex_exact (t : T) (es : list entry) (e : entry) (dupsAllowed : bool) : stores t es -> entry_ok e ->
  dupsAllowed = true \/ Forall (fun x => key_eqb e x = true -> x.2 = e.2) es ->
  exists t' es', Uniq.unindex enc ver ord junk e.1 e.2 dupsAllowed t = Ret t' /\ stores t' es' /\
    es' ≡ₚ filter (fun x => entry_eqb e x = false) es /\ (holds t es -> holds t' es').
Proof.
  intros Hst He Hid. destruct (unindex_leaves t es e dupsAllowed Hst He) as (t' & es' & E & Hs & Hp). exists t', es'.
  assert (Hp' : es' ≡ₚ filter (fun x => entry_eqb e x = false) es).
  { destruct dupsAllowed; [done|]. destruct Hid as [?|Hid]; [done|]. rewrite Hp. apply reflexive_eq, filter_agree.
    eapply Forall_impl; [exact Hid|]. intros x Hx. cbv beta in Hx. rewrite entry_eqb_key. unfold same_id.
    destruct (key_eqb e x); [|done]. by rewrite (Hx eq_refl), Z.eqb_refl. }
  do 3 (split; [done|]). intros Hh. apply (holds_sublist t t' es es' _ Hh Hs Hp'), sublist_filter.
Qed.

Lemma no_field_names (e : entry) : entry_ok e -> hasFieldNames e.1 = false.
Proof.
  intros ([_ Hn] & _). unfold hasFieldNames. rewrite (existsb_ext_in _ (fun _ => false)); [apply existsb_none|].
  eapply Forall_impl; [exact Hn|]. intros f Hf. cbn in Hf. by rewrite Hf.
Qed.
(** [dupKeyCheck] refuses a key that another record has, unless this record has it as well. *)
Lemma dupKeyCheck_exact (t : T) (es : list entry) (e : entry) : stores t es -> entry_ok e ->
  dupKeyCheck enc ver ord junk e.1 e.2 t = if existsb (key_eqb e) es && negb (existsb (entry_eqb e) es) then Throw DuplicateKey else Ret tt.
Proof.
  intros (gs & -> & Hgs) He. destruct (key_encoded e He) as (ks & E & Hb & _).
  unfold dupKeyCheck, isDup. rewrite (no_field_names e He). cbn [negb verify]. rewrite bind_Ret, E. cbn [lift]. rewrite bind_Ret, Hb.
  pose proof (find_group t gs e Hgs He) as Hfind. destruct (wt_search t (key_of e)) as [i|].
  - destruct Hfind as (g & gs0 & Hi & Hk & Hp & Hg & Hok0 & Hn & Heq & Hne). rewrite Hi. unfold group_row at 1. pose proof Hg as (Hnonempty & Hok & _).
    destruct (meets_group e gs gs0 g Hp Hnonempty Heq Hne) as [-> ->].
    rewrite (dup_loop_spec ver kp junk Hjunk e g) by (done || apply group_to_read || lia). by rewrite bind_Ret.
  - destruct Hfind as [_ Hnone]. destruct (meets_none e _ Hnone) as [-> _]. by rewrite bind_Ret.
Qed.

(** ** [seekExact] *)
Section seek.
Variable dec : Z -> bool -> KD.st -> KD.res (value * KD.st).
Hypothesis Hord : Cmp.Ordering_make D kp = Ret ord.

Lemma find_key (t : T) (es : list entry) (e : entry) (i : nat) (x : entry) : holds t es -> entry_ok e -> es !! i = Some x ->
  key_of x = key_of e -> find (key_eqb e) es = Some x.
Proof.
  intros Hh He Hx Hk. destruct (holds_stores t es Hh) as [_ Hnd]. destruct Hh as [_ Hok]. rewrite Forall_forall in Hok.
  pose proof (list_elem_of_lookup_2 _ _ _ Hx) as Hin.
  destruct (find (key_eqb e) es) as [y|] eqn:Ef.
  - apply find_some in Ef as [Hy Hky]. apply list_elem_of_In in Hy. rewrite key_eqb_bytes in Hky by auto. apply bool_decide_eq_true in Hky.
    apply list_elem_of_lookup in Hy as [j Hj].
    assert (i = j) as ->; [|congruence]. apply (NoDup_lookup (key_of <$> es) i j (key_of e) Hnd); rewrite list_lookup_fmap, ?Hx, ?Hj; cbn; congruence.
  - pose proof (find_none _ _ Ef x) as Hno. rewrite key_eqb_bytes in Hno by auto. rewrite bool_decide_eq_true_2 in Hno by done.
    discriminate Hno. by apply list_elem_of_In.
Qed.
(** [seekExact] finds the entry with an equal key, which is the only one, and nothing when
    there is none. *)
Lemma seekExact_exact (t : T) (es : list entry) (c : IndexCursor) (e : entry) : holds t es -> cursor_ok ver true c ->
  _endPosition c = None -> entry_ok e ->
  exists r, seekExact enc dec ver ord e.1 t c = Ret r /\
    match find (key_eqb e) es with
    | Some x => r.1 = Some (entry_read x) /\ KS._buffer (_key r.2) = key_of x
    | None => r.1 = None /\ _eof r.2 = true
    end.
Proof.
  intros Hh (Hu & Hv & Hb & Hqb) Hend He. pose proof He as ([Hk Hn] & _). destruct (stored_names e.1 Hn) as [Hnames Hd].
  destruct (query_encoded enc ver ord _ Hqb e.1 kInclusive Hk Hnames) as (kq & Ekq & Hbuf & (_ & _ & Hrep)).
  assert (Hbk : KS._buffer kq = key_of e) by (rewrite Hbuf; unfold query_bytes; by rewrite Hd).
  assert (Hstrip : stripFieldNames e.1 = e.1) by (unfold stripFieldNames; by rewrite (no_field_names e He)).
  unfold seekExact. rewrite Hstrip, Ekq. cbn [lift]. rewrite bind_Ret. cbv zeta. rewrite Hbk.
  assert (Hcok : cursor_ok ver true (with_query kq c)).
  { split; [done|]. split; [done|]. split; [done|]. apply (bits_length _ _ Hrep). apply Hk. }
  destruct Hh as [Hr Hok]. pose proof (wt_search_spec t (key_of e)) as Hs. destruct (wt_search t (key_of e)) as [i|].
  - destruct Hs as [v Hi]. rewrite Hr, list_lookup_fmap in Hi. destruct (es !! i) as [x|] eqn:Ex; [|done]. injection Hi as Ek _.
    set (j := scan_pos (_forward c) (length es) i). pose proof (lookup_lt_Some _ _ _ Ex) as Hlt.
    assert (Hj : (j < length es)%nat /\ scan_pos (_forward c) (length es) j = i) by (unfold j, scan_pos; destruct (_forward c); lia).
    destruct Hj as [Hj Hji].
    assert (Hat : at_pos (Some i) false (with_query kq c) = moved t j (with_query kq c)).
    { unfold moved. rewrite Hr, length_fmap. destruct (Nat.ltb_spec j (length es)); [|lia]. cbn [_forward with_query]. by rewrite Hji. }
    rewrite Hat. destruct (settle D dec ver kp ord Hord true t es (with_query kq c) j false) as (r & -> & Hl); [done|done|lia|done|].
    exists r. split; [done|]. rewrite (find_key t es e i x) by done. unfold lands, past_end in Hl. cbn [_forward _endPosition with_query] in Hl.
    rewrite scan_lookup, Hji, Ex, Hend in Hl by done. destruct Hl as (_ & _ & _ & -> & _ & _ & _ & Hkey). done.
  - assert (Hat : at_pos None true (with_query kq c) = moved t (length es) (with_query kq c)).
    { unfold moved. rewrite Hr, length_fmap. by destruct (Nat.ltb_spec (length es) (length es)); [lia|]. }
    rewrite Hat. destruct (settle D dec ver kp ord Hord true t es (with_query kq c) (length es) false) as (r & -> & Hl); [done|done|lia|done|].
    exists r. split; [done|]. unfold lands in Hl. rewrite lookup_ge_None_2 in Hl by (rewrite length_scan; done).
    destruct (find (key_eqb e) es) as [x|] eqn:Ef; [|by destruct Hl as (_ & _ & _ & ?)].
    apply find_some in Ef as [Hx Hkx]. apply list_elem_of_In in Hx. rewrite Forall_forall in Hok. rewrite key_eqb_bytes in Hkx by auto.
    apply bool_decide_eq_true in Hkx. destruct Hs. rewrite Hkx, Hr. apply list_elem_of_fmap. exists (entry_row ver ord true x). split; [done|].
    apply list_elem_of_fmap. by exists x.
Qed.
End seek.

End index.
End Groups.

(** ** A concrete unique index *)
Module UniqueDemo.
Import Tab Idx Uniq Walk Mem Enc Groups Demo.

(** A key with two records, and one with one. *)
Definition two_records : list (list entry) := [[(int_key 1 10, 7); (int_key 1 10, 9)]; [(int_key 2 7, 8)]].
Definition records_table : table := list_to_map (group_row V1 2 <$> two_records).
Lemma two_records_stored : stores V1 Sets.demo_pattern 2 records_table (concat two_records).
Proof.
  exists two_records. split; [done|]. split; [vm_compute; reflexivity|].
  apply Forall_cons. split; [|apply Forall_singleton, group_one; by apply int_entry_ok].
  split; [done|]. split; [by apply Forall_cons; split; [|apply Forall_singleton]; apply int_entry_ok|].
  split; [by apply Forall_cons; split; [|apply Forall_singleton]|]. repeat constructor; cbn; lia.
Qed.

Lemma unique_insert_exact_witness :
  Uniq.insert Keys.no_append V1 2 (replicate 128 0) (int_key 2 7) 12 false records_table = Throw DuplicateKey /\
  exists t es, Uniq.insert Keys.no_append V1 2 (replicate 128 0) (int_key 1 10) 8 true records_table = Ret t /\
    stores V1 Sets.demo_pattern 2 t es /\ es ≡ₚ (int_key 1 10, 8) :: concat two_records.
Proof.
  split.
  - exact (unique_insert_exact Pattern.no_decimal Keys.no_append V1 Sets.demo_pattern 2 (replicate 128 0) eq_refl records_table (concat two_records)
      (int_key 2 7, 12) false two_records_stored (int_entry_ok 2 7 12 ltac:(lia) ltac:(lia) eq_refl) eq_refl).
  - destruct (unique_insert_exact Pattern.no_decimal Keys.no_append V1 Sets.demo_pattern 2 (replicate 128 0) eq_refl records_table (concat two_records)
      (int_key 1 10, 8) true two_records_stored (int_entry_ok 1 10 8 ltac:(lia) ltac:(lia) eq_refl) eq_refl) as (t & es & E & Hs & Hp & _).
    exists t, es. split; [exact E|]. split; [exact Hs|exact Hp].
Defined.
Lemma unique_unindex_exact_witness : exists t es,
  Uniq.unindex Keys.no_append V1 2 (replicate 128 0) (int_key 1 10) 7 true records_table = Ret t /\
  stores V1 Sets.demo_pattern 2 t es /\ es ≡ₚ [(int_key 1 10, 9); (int_key 2 7, 8)].
Proof.
  destruct (unique_unindex_exact Pattern.no_decimal Keys.no_append V1 Sets.demo_pattern 2 (replicate 128 0) eq_refl records_table (concat two_records)
    (int_key 1 10, 7) true two_records_stored (int_entry_ok 1 10 7 ltac:(lia) ltac:(lia) eq_refl) (or_introl eq_refl)) as (t & es & E & Hs & Hp & _).
  exists t, es. split; [exact E|]. split; [exact Hs|exact Hp].
Defined.
End UniqueDemo.
