(* ===== verification/WtBulk.v ===== *)
(** * Bulk building of a WiredTiger index

    [StandardBulkBuilder] and [UniqueBulkBuilder] of
    [db/storage/wiredtiger/wiredtiger_index.cpp], and the loop of [IndexAccessMethod::commitBulk]
    of [db/index/index_access_method.cpp] that feeds them with sorted entries. [Module Bulk]
    holds the operations, [Module Load] the theorems: a build ends with exactly the entries
    that it accepted in the index, and what it refuses is what the options say. *)
From Stdlib Require Import ZArith Lia Bool.
From stdpp Require Import base list option sorting gmap.
From S2P Require Import Prelude StringData Bson BsonCompare KeyString KeyStringOrder KeyStringRefine KeyStringDecode IndexBounds BoundsChecker WtIndex WtUnique.
Open Scope Z_scope.

Module Bulk.
Import IB Chk Tab Idx Uniq.

(** The cursor that a builder writes with: a bulk cursor, which can only append, or an ordinary
    one when that cannot be opened. *)
Class BulkCursor (T : Type) := { cursor_insert : bytes -> bytes -> T -> option T }.
Class BulkLaws (T : Type) `{WtTable T} `{!BulkCursor T} : Prop := {
  cursor_insert_spec (k v : bytes) (t : T) : Forall (fun r : row => SD.lexcmp r.1 k < 0) (wt_rows t) ->
    exists t', cursor_insert k v t = Some t' /\ wt_rows t' = wt_rows t ++ [(k, v)]
}.

(** [SortedDataBuilderInterface]; the state of a builder has the table in it. *)
Record SortedDataBuilder (S : Type) := mkBuilder {
  addKey : list field -> Z -> S -> outcome idx_error S;
  commit : S -> outcome idx_error S
}.
Arguments mkBuilder {_}. Arguments addKey {_}. Arguments commit {_}.

Section builders.
Context {T : Type} `{WtTable T} `{!BulkCursor T}.
Variable D : Cmp.Decimal128.
Variable enc : bytes -> bool -> KS.KeyString -> outcome ks_error KS.KeyString.
Variable ver : Version.
Variable ord : Z.
Variable junk : list Z.

(** [StandardBulkBuilder::addKey]; [commit] commits an empty unit of work. *)
Definition standard_addKey (key : list field) (id : Z) (c : T) : outcome idx_error T :=
  _ ← require KeyTooLong (checkKeySize key);
  data ← lift (KS.resetToKey enc ver junk key ord id);
  let valueItem := if TB._isAllZeros (KS._typeBits data) then [] else TB.getBuffer (KS._typeBits data) in
  match cursor_insert (KS._buffer data) valueItem c with Some c => Ret c | None => Fault end.
Definition StandardBulkBuilder : SortedDataBuilder T := mkBuilder standard_addKey Ret.

(** The members of [UniqueBulkBuilder]. *)
Record unique_state := mkUnique {
  _key : list field;
  _keyString : KS.KeyString;
  _records : list (Z * TB.TypeBits)
}.
Definition new_unique : unique_state := mkUnique [] (KS.resetToEmpty ver junk) [].

Definition doInsert (b : unique_state) (c : T) : outcome idx_error (unique_state * T) :=
  _ ← verify (negb (length (_records b) =? 0)%nat);
  value ← put_back (length (_records b) =? 1)%nat (_records b) (KS.resetToEmpty ver junk);
  match cursor_insert (KS._buffer (_keyString b)) (KS._buffer value) c with
  | Some c => Ret (mkUnique (_key b) (_keyString b) [], c)
  | None => Fault
  end.
Definition unique_addKey (dupsAllowed : bool) (newKey : list field) (id : Z) (s : unique_state * T) : outcome idx_error (unique_state * T) :=
  _ ← require KeyTooLong (checkKeySize newKey);
  match Cmp.woCompare_ordering D true None ord 1 newKey (_key s.1) with
  | None => Fault
  | Some cmp =>
      '(b, c) ←
        (if negb (cmp =? 0) then
           '(b, c) ←
             (if negb (length (_key s.1) =? 0)%nat then _ ← verify (0 <? cmp); doInsert s.1 s.2 else Ret s);
           _ ← verify (length (_records b) =? 0)%nat;
           Ret (b, c)
         else if negb dupsAllowed then Throw DuplicateKey
         else Ret s);
      ks ← lift (KS.resetToQuery enc ver (TB._buf (KS._typeBits (_keyString b))) newKey ord kInclusive);
      Ret (mkUnique newKey ks (_records b ++ [(id, KS._typeBits ks)]), c)
  end.
Definition unique_commit (s : unique_state * T) : outcome idx_error (unique_state * T) :=
  if negb (length (_records s.1) =? 0)%nat then doInsert s.1 s.2 else Ret s.
Definition UniqueBulkBuilder (dupsAllowed : bool) : SortedDataBuilder (unique_state * T) :=
  mkBuilder (unique_addKey dupsAllowed) unique_commit.

End builders.

(** The loop of [commitBulk] over the entries of the sorter. [dupsToDrop] is [None] for a null
    pointer. *)
Section build.
Context {S : Type}.
Variable B : SortedDataBuilder S.
Variables ignoreKeyTooLong dupsAllowed : bool.

Fixpoint add_sorted (i : list (list field * Z)) (dupsToDrop : option (gset Z)) (s : S) : outcome idx_error (option (gset Z) * S) :=
  match i with
  | [] => Ret (dupsToDrop, s)
  | d :: i =>
      match addKey B d.1 d.2 s with
      | Ret s => add_sorted i dupsToDrop s
      | Throw KeyTooLong => if ignoreKeyTooLong then add_sorted i dupsToDrop s else Throw KeyTooLong
      | Throw DuplicateKey =>
          _ ← verify (negb dupsAllowed);
          match dupsToDrop with
          | Some dups => add_sorted i (Some ({[d.2]} ∪ dups)) s
          | None => Throw DuplicateKey
          end
      | Throw e => Throw e
      | Fault => Fault
      | NoFuel => NoFuel
      end
  end.
Definition commitBulk (i : list (list field * Z)) (dupsToDrop : option (gset Z)) (s : S) : outcome idx_error (option (gset Z) * S) :=
  '(dupsToDrop, s) ← add_sorted i dupsToDrop s;
  s ← commit B s;
  Ret (dupsToDrop, s).
End build.
End Bulk.

Module Load.
Import IB Chk Tab Idx Uniq Bulk Walk Enc Keys KeyRead Ref BitReader Groups.

(** ** What a build does with the entries *)
Section spec.
(** What a builder that has accepted some entries says to one more: [None] accepts it. *)
Variable refuses : list entry -> entry -> option idx_error.
Variable ignoreKeyTooLong : bool.

(** The entries that are accepted and the record ids that are dropped, or the error. *)
Fixpoint build_spec (es kept : list entry) (dropped : option (gset Z)) : outcome idx_error (option (gset Z) * list entry) :=
  match es with
  | [] => Ret (dropped, kept)
  | e :: es =>
      match refuses kept e with
      | None => build_spec es (kept ++ [e]) dropped
      | Some KeyTooLong => if ignoreKeyTooLong then build_spec es kept dropped else Throw KeyTooLong
      | Some DuplicateKey =>
          match dropped with
          | Some ids => build_spec es kept (Some ({[e.2]} ∪ ids))
          | None => Throw DuplicateKey
          end
      | Some x => Throw x
      end
  end.

(** A builder that does what [refuses] says, for entries that come in the order [R]. *)
Section refinement.
Context {S : Type}.
Variable B : SortedDataBuilder S.
Variable dupsAllowed : bool.
Variable inv : S -> list entry -> Prop.
Variable R : entry -> entry -> Prop.
Variable ok : entry -> Prop.
Hypothesis Hadd : forall s kept e, inv s kept -> ok e -> Forall (fun x => R x e) kept ->
  match refuses kept e with
  | None => exists s', addKey B e.1 e.2 s = Ret s' /\ inv s' (kept ++ [e])
  | Some x => addKey B e.1 e.2 s = Throw x /\ (x = DuplicateKey -> dupsAllowed = false)
  end.

Lemma add_sorted_refines (es : list entry) : forall kept dropped s, inv s kept -> Forall ok es -> StronglySorted R es ->
  (forall x e, x ∈ kept -> e ∈ es -> R x e) ->
  match build_spec es kept dropped with
  | Ret (dropped', kept') => exists s', add_sorted B ignoreKeyTooLong dupsAllowed es dropped s = Ret (dropped', s') /\ inv s' kept'
  | Throw x => add_sorted B ignoreKeyTooLong dupsAllowed es dropped s = Throw x
  | _ => False
  end.
Proof using Hadd.
  induction es as [|e es IH]; intros kept dropped s Hi Hok Hs Hr; [by exists s|].
  apply StronglySorted_inv in Hs as [Hs He]. apply Forall_cons in Hok as [Hoke Hok].
  assert (Hke : Forall (fun x => R x e) kept) by (apply Forall_forall; intros x Hx; apply Hr; [done|left]).
  assert (Hrest : forall x e', x ∈ kept -> e' ∈ es -> R x e') by (intros; apply Hr; [done|by right]).
  specialize (Hadd s kept e Hi Hoke Hke). cbn [build_spec add_sorted]. destruct (refuses kept e) as [x|].
  - destruct Hadd as [-> Hd]. destruct x; try done.
    + destruct ignoreKeyTooLong; [by apply IH|done].
    + assert (negb dupsAllowed = true) as -> by (by rewrite Hd). cbn [verify]. rewrite bind_Ret. destruct dropped; [by apply IH|done].
  - destruct Hadd as (s' & -> & Hi'). apply IH; [done|done|done|]. rewrite Forall_forall in He.
    intros x e' [Hx|Hx%list_elem_of_singleton]%elem_of_app He'; [auto|subst x; auto].
Qed.

Variable post : S -> list entry -> Prop.
Hypothesis Hcommit : forall s kept, inv s kept -> exists s', commit B s = Ret s' /\ post s' kept.
Lemma commitBulk_refines (es : list entry) (dropped : option (gset Z)) (s : S) : inv s [] -> Forall ok es -> StronglySorted R es ->
  match build_spec es [] dropped with
  | Ret (dropped', kept) => exists s', commitBulk B ignoreKeyTooLong dupsAllowed es dropped s = Ret (dropped', s') /\ post s' kept
  | Throw x => commitBulk B ignoreKeyTooLong dupsAllowed es dropped s = Throw x
  | _ => False
  end.
Proof using Hadd Hcommit.
  intros Hi Hok Hs. pose proof (add_sorted_refines es [] dropped s Hi Hok Hs) as Ha. unfold commitBulk.
  destruct (build_spec es [] dropped) as [[d kept]|x| |].
  - destruct Ha as (s' & -> & Hi'); [by intros x e ?%elem_of_nil|]. rewrite bind_Ret.
    destruct (Hcommit s' kept Hi') as (s2 & -> & Hp). rewrite bind_Ret. by exists s2.
  - rewrite Ha; [done|]. by intros y e ?%elem_of_nil.
  - apply Ha. by intros y e ?%elem_of_nil.
  - apply Ha. by intros y e ?%elem_of_nil.
Qed.
End refinement.

(** What is kept is a part of the entries. *)
Lemma build_spec_kept (es : list entry) : forall kept dropped dropped' kept', build_spec es kept dropped = Ret (dropped', kept') ->
  exists l, kept' = kept ++ l /\ l `sublist_of` es.
Proof.
  induction es as [|e es IH]; intros kept dropped dropped' kept' E; cbn [build_spec] in E.
  { injection E as <- <-. exists []. by rewrite app_nil_r. }
  assert (Hskip : forall d, build_spec es kept d = Ret (dropped', kept') -> exists l, kept' = kept ++ l /\ l `sublist_of` e :: es).
  { intros d Hd. destruct (IH _ _ _ _ Hd) as (l & -> & Hl). exists l. split; [done|]. by apply sublist_cons. }
  destruct (refuses kept e) as [[]|]; try done.
  - destruct ignoreKeyTooLong; [by eapply Hskip|done].
  - destruct dropped; [by eapply Hskip|done].
  - destruct (IH _ _ _ _ E) as (l & -> & Hl). exists (e :: l). rewrite <- app_assoc. split; [done|]. by apply sublist_skip.
Qed.
End spec.

(** ** The builders *)
Section index.
Context {T : Type} `{WtLaws T} `{!BulkCursor T} `{!BulkLaws T}.
Variable D : Cmp.Decimal128.
Variable enc : bytes -> bool -> KS.KeyString -> outcome ks_error KS.KeyString.
Variable ver : Version.
Variable kp : list field.
Variable ord : Z.
Variable junk : list Z.
Hypothesis Hjunk : length junk = 128%nat.
Abbreviation entry_ok := (entry_ok ver kp).
Abbreviation key_of := (entry_bytes ver ord true).
Abbreviation key_eqb := (key_eqb D ord).
Abbreviation stores := (stores ver kp ord).

(** The order of the sorter: [BtreeExternalSortComparison]. *)
Definition sorter_before (a b : entry) : Prop :=
  exists z, Cmp.woCompare_ordering D false None ord 1 a.1 b.1 = Some z /\ (z < 0 \/ z = 0 /\ a.2 < b.2).
Lemma sorter_before_keys (a b : entry) : entry_ok a -> entry_ok b -> sorter_before a b ->
  SD.lexcmp (key_of a) (key_of b) < 0 \/ key_of a = key_of b /\ a.2 < b.2.
Proof.
  intros ([Ha _] & _) ([Hb _] & _) (z & Hz & Hlt). destruct (keys_lexcmp D ver ord a.1 b.1 [] [] Ha Hb) as (z' & Hz' & Hc).
  change (SD.lexcmp (key_of a) (key_of b) = if z' =? 0 then 0 else Z.sgn z') in Hc. rewrite Hz in Hz'. injection Hz' as <-.
  destruct Hlt as [Hlt|[-> Hlt]]; [left|right].
  - rewrite Hc. destruct (Z.eqb_spec z 0); lia.
  - split; [by apply SD.lexcmp_eq|done].
Qed.
Lemma sorter_before_entries (a b : entry) : entry_ok a -> entry_ok b -> sorter_before a b ->
  SD.lexcmp (entry_bytes ver ord false a) (entry_bytes ver ord false b) < 0.
Proof.
  intros ([Ha _] & _ & Na%isNormal_range) ([Hb _] & _ & Nb%isNormal_range) (z & Hz & Hlt).
  destruct (entries_lexcmp D ver ord a.1 b.1 a.2 b.2 Ha Hb Na Nb) as (z' & Hz' & Hc). rewrite Hz in Hz'. injection Hz' as <-.
  change (SD.lexcmp (entry_bytes ver ord false a) (entry_bytes ver ord false b) = if z =? 0 then Cmp.compareLongs a.2 b.2 else Z.sgn z) in Hc.
  rewrite Hc. unfold Cmp.compareLongs. destruct Hlt as [Hlt|[-> Hlt]].
  - destruct (Z.eqb_spec z 0); lia.
  - cbn. destruct (Z.eqb_spec a.2 b.2), (Z.ltb_spec a.2 b.2); lia.
Qed.

(** *** The standard builder *)
Definition refuses_long (kept : list entry) (e : entry) : option idx_error :=
  if checkKeySize e.1 then None else Some KeyTooLong.
Definition standard_inv (t : T) (kept : list entry) : Prop := holds ver kp ord false t kept.
Lemma standard_adds (dupsAllowed : bool) (t : T) (kept : list entry) (e : entry) : standard_inv t kept -> entry_ok e ->
  Forall (fun x => sorter_before x e) kept ->
  match refuses_long kept e with
  | None => exists t', addKey (StandardBulkBuilder enc ver ord junk) e.1 e.2 t = Ret t' /\ standard_inv t' (kept ++ [e])
  | Some x => addKey (StandardBulkBuilder enc ver ord junk) e.1 e.2 t = Throw x /\ (x = DuplicateKey -> dupsAllowed = false)
  end.
Proof.
  intros [Hr Hok] He Hb. unfold refuses_long. cbn [addKey StandardBulkBuilder]. unfold standard_addKey.
  destruct (checkKeySize e.1); cbn [require]; [|done]. rewrite bind_Ret.
  destruct (entry_stored enc ver kp ord junk Hjunk e He) as (ks & -> & Hbuf & Hi). cbn [lift]. rewrite bind_Ret. cbv zeta. rewrite Hi, Hbuf.
  destruct (cursor_insert_spec (entry_bytes ver ord false e) (bits_item ver e.1) t) as (t' & -> & Hr').
  { rewrite Hr. apply Forall_fmap. rewrite Forall_forall in *. intros x Hx. cbn. apply sorter_before_entries; auto. }
  exists t'. split; [done|]. split; [by rewrite Hr', Hr, fmap_app|]. by apply Forall_app, conj, Forall_singleton.
Qed.

Lemma standard_spec (ignoreKeyTooLong : bool) (es : list entry) : forall kept dropped,
  build_spec refuses_long ignoreKeyTooLong es kept dropped =
    if ignoreKeyTooLong || forallb (fun e => checkKeySize e.1) es then Ret (dropped, kept ++ filter (fun e => checkKeySize e.1 = true) es)
    else Throw KeyTooLong.
Proof using Type.
  induction es as [|e es IH]; intros kept dropped; cbn [build_spec forallb].
  { by rewrite orb_true_r, app_nil_r. }
  unfold refuses_long at 1. rewrite filter_cons. destruct (checkKeySize e.1); cbn [andb].
  - rewrite IH, <- app_assoc. done.
  - rewrite orb_false_r. destruct ignoreKeyTooLong; [by rewrite IH|done].
Qed.

(** *** The unique builder *)
Abbreviation group_key := (group_key ver ord).
Abbreviation groups_in := (groups_in ver kp ord).
Abbreviation group_ok := (group_ok ver kp ord).
Definition refuses_unique (dupsAllowed : bool) (kept : list entry) (e : entry) : option idx_error :=
  if negb (checkKeySize e.1) then Some KeyTooLong
  else if negb dupsAllowed && existsb (key_eqb e) kept then Some DuplicateKey
  else None.

(** The records of the last key are in the builder, the other ones in the table. *)
Definition unique_parts (s : unique_state * T) (gs : list (list entry)) (cur : list entry) : Prop :=
  groups_in s.2 gs /\ Forall2 (record_of ver kp) (_records s.1) cur /\ length (TB._buf (KS._typeBits (_keyString s.1))) = 128%nat /\
  match last cur with
  | None => gs = [] /\ _key s.1 = []
  | Some x => group_ok cur /\ _key s.1 = x.1 /\ KS._buffer (_keyString s.1) = key_of x /\
      Forall (fun g => SD.lexcmp (group_key g) (key_of x) < 0) gs
  end.
Definition unique_inv (s : unique_state * T) (kept : list entry) : Prop := exists gs cur, kept = concat gs ++ cur /\ unique_parts s gs cur.

Lemma last_key (cur : list entry) (x : entry) : group_ok cur -> last cur = Some x -> key_of x = group_key cur /\ entry_ok x.
Proof.
  intros (_ & Hok & Hk & _) Hl. apply last_Some_elem_of in Hl. rewrite Forall_forall in Hok, Hk. auto.
Qed.
Lemma doInsert_spec (s : unique_state * T) (gs : list (list entry)) (cur : list entry) (x : entry) : unique_parts s gs cur ->
  last cur = Some x ->
  exists c, doInsert ver junk s.1 s.2 = Ret (mkUnique (_key s.1) (_keyString s.1) [], c) /\ groups_in c (gs ++ [cur]).
Proof.
  intros ([Hr Hgs] & Hrec & _ & Hlast) Hl. rewrite Hl in Hlast. destruct Hlast as (Hg & _ & Hbuf & Hlt).
  destruct (last_key cur x Hg Hl) as [Hx _]. unfold doInsert.
  assert (negb (length (_records s.1) =? 0)%nat = true) as -> by (rewrite (Forall2_length _ _ _ Hrec); by destruct cur). cbn [verify]. rewrite bind_Ret, (put_back_group ver kp _ cur) by done.
  rewrite bind_Ret, Hbuf, Hx. cbn [KS._buffer put KS.resetToEmpty app Lex.flip_if].
  destruct (cursor_insert_spec (group_key cur) (group_value ver cur) s.2) as (c & -> & Hr').
  { rewrite Hr. apply Forall_fmap. rewrite Hx in Hlt. exact Hlt. }
  exists c. split; [done|]. split; [by rewrite Hr', Hr, fmap_app|]. by apply Forall_app, conj, Forall_singleton.
Qed.

(** [woCompare] in [addKey], which looks at the names of the fields. *)
Lemma compare_names (l r : list field) : Forall (fun f : field => f.1 = []) l -> Forall (fun f : field => f.1 = []) r -> forall mask,
  Cmp.woCompare_ordering D true None ord mask l r = Cmp.woCompare_ordering D false None ord mask l r.
Proof.
  intros Hl. revert r. induction Hl as [|[n v] l Hn _ IH]; intros r Hr mask; [by destruct Hr|]. destruct Hr as [|[n' w] r Hn' Hr]; [done|].
  cbn in Hn, Hn'. subst n n'. cbn [Cmp.woCompare_ordering].
  assert (E : Cmp.elem_woCompare (Cmp.compareElementValues D None) true ([], v) ([], w) =
    Cmp.elem_woCompare (Cmp.compareElementValues D None) false ([], v) ([], w)).
  { unfold Cmp.elem_woCompare. by destruct (negb _). }
  rewrite E. destruct (Cmp.elem_woCompare _ false _ _) as [x|]; [|done]. cbn. by rewrite IH.
Qed.
Lemma compare_keys (a b : entry) : entry_ok a -> entry_ok b -> exists z,
  Cmp.woCompare_ordering D true None ord 1 a.1 b.1 = Some z /\ SD.lexcmp (key_of a) (key_of b) = Z.sgn z.
Proof.
  intros ([Ha Na] & _) ([Hb Nb] & _). destruct (keys_lexcmp D ver ord a.1 b.1 [] [] Ha Hb) as (z & Hz & Hc).
  change (SD.lexcmp (key_of a) (key_of b) = if z =? 0 then 0 else Z.sgn z) in Hc.
  exists z. rewrite compare_names by done. split; [done|]. rewrite Hc. by destruct (Z.eqb_spec z 0) as [->|].
Qed.

(** Whether the key of an entry that follows is that of the last one. *)
Lemma equal_keys (s : unique_state * T) (gs : list (list entry)) (cur : list entry) (x e : entry) : unique_parts s gs cur ->
  last cur = Some x -> entry_ok e -> Forall (fun y => sorter_before y e) (concat gs ++ cur) ->
  existsb (key_eqb e) (concat gs ++ cur) = bool_decide (key_of x = key_of e) /\
  (key_of x <> key_of e -> SD.lexcmp (key_of x) (key_of e) < 0) /\ (key_of x = key_of e -> Forall (fun y : entry => y.2 < e.2) cur).
Proof.
  intros ([_ Hgs] & _ & _ & Hlast) Hl He Hb. rewrite Hl in Hlast. destruct Hlast as (Hg & _ & _ & Hlt).
  destruct (last_key cur x Hg Hl) as [Hx Hxok]. pose proof Hg as (_ & Hok & Hk & _). apply Forall_app in Hb as [_ Hb].
  rewrite Forall_forall in Hok, Hk, Hb. pose proof (last_Some_elem_of _ _ Hl) as Hxin.
  split; [|split].
  - rewrite existsb_app. case_bool_decide as E.
    + apply orb_true_iff. right. apply existsb_exists. exists x. split; [by apply list_elem_of_In|]. rewrite (key_eqb_bytes D ver kp ord) by done.
      by apply bool_decide_eq_true_2.
    + assert (Hno : forall g, group_ok g -> group_key g <> key_of e -> existsb (key_eqb e) g = false).
      { intros g Hgo Hne. by apply (meets_none D ord), (other_key D ver kp ord). }
      apply orb_false_iff. split; [|by apply Hno; [|rewrite <- Hx]].
      destruct (sorter_before_keys x e Hxok He (Hb x Hxin)) as [Hxe|[? _]]; [|done]. clear - Hno Hgs Hlt Hxe.
      induction Hgs as [|g gs Hgo _ IH]; [done|]. apply Forall_cons in Hlt as [Hgx Hlt]. cbn [concat]. rewrite existsb_app, IH, orb_false_r by done.
      apply Hno; [done|]. intros Heq. rewrite Heq in Hgx. rewrite SD.lexcmp_antisym in Hgx. lia.
  - intros Hne. by destruct (sorter_before_keys x e Hxok He (Hb x Hxin)) as [?|[? _]].
  - intros Heq. apply Forall_forall. intros y Hy. destruct (sorter_before_keys y e (Hok y Hy) He (Hb y Hy)) as [Hye|[_ ?]]; [|done].
    rewrite (Hk y Hy), <- Hx, Heq, (proj2 (SD.lexcmp_eq _ _)) in Hye by done. lia.
Qed.

(** The builder after it has taken an entry. *)
Lemma key_taken (e : entry) (s : unique_state) : entry_ok e -> length (TB._buf (KS._typeBits (_keyString s))) = 128%nat -> exists ks,
  lift (KS.resetToQuery enc ver (TB._buf (KS._typeBits (_keyString s))) e.1 ord kInclusive) = Ret ks /\ KS._buffer ks = key_of e /\
  record_of ver kp (e.2, KS._typeBits ks) e /\ length (TB._buf (KS._typeBits ks)) = 128%nat.
Proof.
  intros He Hl. pose proof He as ([Hk Hn] & _). destruct (stored_names e.1 Hn) as [Hnames Hd].
  destruct (query_encoded enc ver ord _ Hl e.1 kInclusive Hk Hnames) as (ks & -> & Hb & (_ & _ & Hr)). exists ks. split; [done|].
  split; [rewrite Hb; unfold query_bytes; by rewrite Hd|]. split; [|by apply (bits_length _ _ Hr), Hk].
  split; [done|]. split; [by apply rep_bits_of; [|apply Hk]|done].
Qed.
Lemma parts_new (e : entry) (ks : KS.KeyString) (gs : list (list entry)) (c : T) : entry_ok e -> groups_in c gs ->
  Forall (fun g => SD.lexcmp (group_key g) (key_of e) < 0) gs -> KS._buffer ks = key_of e ->
  record_of ver kp (e.2, KS._typeBits ks) e -> length (TB._buf (KS._typeBits ks)) = 128%nat ->
  unique_parts (mkUnique e.1 ks [(e.2, KS._typeBits ks)], c) gs [e].
Proof.
  intros He Hgs Hlt Hb Hr Hl. split; [done|]. split; [apply Forall2_cons, conj; [done|apply List.Forall2_nil]|]. split; [done|].
  cbn [last]. split; [by apply group_one|]. done.
Qed.
Lemma parts_more (e x : entry) (ks : KS.KeyString) (gs : list (list entry)) (cur : list entry) (s : unique_state * T) : entry_ok e ->
  unique_parts s gs cur -> last cur = Some x -> key_of x = key_of e -> Forall (fun y : entry => y.2 < e.2) cur -> KS._buffer ks = key_of e ->
  record_of ver kp (e.2, KS._typeBits ks) e -> length (TB._buf (KS._typeBits ks)) = 128%nat ->
  unique_parts (mkUnique e.1 ks (_records s.1 ++ [(e.2, KS._typeBits ks)]), s.2) gs (cur ++ [e]).
Proof.
  intros He (Hgs & Hrec & _ & Hlast) Hl Hk Hids Hb Hr Hlen. rewrite Hl in Hlast. destruct Hlast as (Hg & _ & _ & Hlt).
  destruct (last_key cur x Hg Hl) as [Hx _]. destruct Hg as (Hne & Hok & Hkeys & Hs).
  split; [done|]. split; [apply Forall2_app; [done|]; apply Forall2_cons, conj; [done|apply List.Forall2_nil]|]. split; [done|].
  rewrite last_snoc. split; [|split; [done|]; split; [done|by rewrite <- Hk]].
  assert (Hhead : group_key (cur ++ [e]) = group_key cur) by (by destruct cur).
  split; [by destruct cur|]. split; [by apply Forall_app, conj, Forall_singleton|].
  split; [rewrite Hhead; apply Forall_app, conj, Forall_singleton; [done|congruence]|].
  apply StronglySorted_app. split; [|split; [done|repeat constructor]]. intros a b Ha ->%list_elem_of_singleton.
  rewrite Forall_forall in Hids. by apply Hids.
Qed.

Lemma unique_adds (dupsAllowed : bool) (s : unique_state * T) (kept : list entry) (e : entry) : kp <> [] -> unique_inv s kept -> entry_ok e ->
  Forall (fun x => sorter_before x e) kept ->
  match refuses_unique dupsAllowed kept e with
  | None => exists s', addKey (UniqueBulkBuilder D enc ver ord junk dupsAllowed) e.1 e.2 s = Ret s' /\ unique_inv s' (kept ++ [e])
  | Some x => addKey (UniqueBulkBuilder D enc ver ord junk dupsAllowed) e.1 e.2 s = Throw x /\ (x = DuplicateKey -> dupsAllowed = false)
  end.
Proof.
  intros Hkp (gs & cur & -> & Hparts) He Hb. unfold refuses_unique. cbn [addKey UniqueBulkBuilder]. unfold unique_addKey.
  destruct (checkKeySize e.1); cbn [negb require]; [|done]. rewrite bind_Ret.
  pose proof Hparts as (Hgs & Hrec & Hlen & Hlast). pose proof He as (_ & Hl & _). destruct (last cur) as [x|] eqn:Ex.
  - destruct Hlast as (Hg & Hkey & Hbuf & Hlt). destruct (last_key cur x Hg Ex) as [Hx Hxok].
    destruct (equal_keys s gs cur x e Hparts Ex He Hb) as (-> & Hless & Hids).
    destruct (compare_keys e x He Hxok) as (z & Hz & Hc). rewrite Hkey, Hz. case_bool_decide as Heq.
    + assert (z = 0) as -> by (rewrite (proj2 (SD.lexcmp_eq _ _)) in Hc by done; lia). change (negb (0 =? 0)) with false. cbv iota.
      destruct dupsAllowed; cbn [negb andb]; [|done]. rewrite bind_Ret. destruct s as [b c]. cbn [fst snd] in *.
      destruct (key_taken e b He Hlen) as (ks & -> & Hkb & Hkr & Hkl). rewrite bind_Ret. eexists. split; [reflexivity|].
      exists gs, (cur ++ [e]). split; [by rewrite app_assoc|]. by apply (parts_more e x ks gs cur (b, c)); auto.
    + rewrite andb_false_r. specialize (Hless Heq). assert (Hz0 : 0 < z) by (rewrite SD.lexcmp_antisym in Hc; lia).
      destruct (Z.eqb_spec z 0), (Z.ltb_spec 0 z); try lia. cbn [negb].
      assert (negb (length x.1 =? 0)%nat = true) as -> by (destruct Hxok as (_ & -> & _); by destruct kp).
      cbn [verify]. rewrite bind_Ret. destruct (doInsert_spec s gs cur x Hparts Ex) as (c' & -> & Hgs'). rewrite !bind_Ret. cbn [_records length Nat.eqb verify].
      rewrite !bind_Ret. destruct (key_taken e (mkUnique (_key s.1) (_keyString s.1) []) He Hlen) as (ks & -> & Hkb & Hkr & Hkl). rewrite bind_Ret.
      eexists. split; [reflexivity|]. exists (gs ++ [cur]), [e]. split; [rewrite concat_app; cbn; by rewrite app_nil_r|].
      apply parts_new; [done|done| |done..]. apply Forall_app, conj, Forall_singleton; [|by rewrite <- Hx].
      eapply Forall_impl; [exact Hlt|]. intros g Hgx. cbn in Hgx. by apply (SD.lexcmp_trans _ (key_of x)); [|lia].
  - apply last_None in Ex as ->. destruct Hlast as [-> Hkey]. rewrite Hkey. apply Forall2_nil_inv_r in Hrec.
    assert (Hcmp : Cmp.woCompare_ordering D true None ord 1 e.1 [] = Some 1) by (destruct e.1; [by destruct kp|done]).
    rewrite Hcmp. cbn [Z.eqb negb length Nat.eqb existsb concat app]. rewrite andb_false_r, bind_Ret. destruct s as [b c]. cbn [fst snd] in *. rewrite Hrec.
    cbn [length Nat.eqb verify]. rewrite !bind_Ret. rewrite Hrec. destruct (key_taken e b He Hlen) as (ks & -> & Hkb & Hkr & Hkl).
    rewrite bind_Ret. eexists. split; [reflexivity|]. exists [], [e]. split; [done|]. by apply parts_new.
Qed.

Lemma unique_commits (s : unique_state * T) (kept : list entry) : unique_inv s kept -> exists s', unique_commit ver junk s = Ret s' /\ stores s'.2 kept.
Proof.
  intros (gs & cur & -> & Hparts). pose proof Hparts as (Hgs & Hrec & _ & Hlast). unfold unique_commit. rewrite (Forall2_length _ _ _ Hrec).
  destruct (last cur) as [x|] eqn:Ex.
  - destruct (doInsert_spec s gs cur x Hparts Ex) as (c & -> & Hc). assert (negb (length cur =? 0)%nat = true) as -> by (by destruct cur).
    eexists. split; [reflexivity|]. exists (gs ++ [cur]). split; [|done]. rewrite concat_app. cbn. by rewrite app_nil_r.
  - apply last_None in Ex as ->. cbn [length Nat.eqb negb]. exists s. split; [done|]. exists gs. by rewrite app_nil_r.
Qed.

(** No key is kept twice while duplicates are not allowed. *)
Lemma kept_distinct (ignoreKeyTooLong : bool) (es : list entry) : Forall entry_ok es -> forall kept dropped dropped' kept',
  Forall entry_ok kept -> NoDup (key_of <$> kept) ->
  build_spec (refuses_unique false) ignoreKeyTooLong es kept dropped = Ret (dropped', kept') -> NoDup (key_of <$> kept').
Proof.
  induction 1 as [|e es He _ IH]; intros kept dropped dropped' kept' Hok Hnd E; cbn [build_spec] in E; [by injection E as <- <-|].
  unfold refuses_unique in E at 1. destruct (negb (checkKeySize e.1)).
  { destruct ignoreKeyTooLong; [by eapply IH|done]. }
  cbn [negb andb] in E. destruct (existsb (key_eqb e) kept) eqn:Ee.
  { destruct dropped; [by eapply IH|done]. }
  apply IH in E; [done|by apply Forall_app, conj, Forall_singleton|]. rewrite fmap_app. apply NoDup_app. split; [done|].
  split; [|apply NoDup_singleton]. intros k (x & -> & Hx)%list_elem_of_fmap Hk%list_elem_of_singleton.
  apply not_true_iff_false in Ee. apply Ee, existsb_exists. exists x. split; [by apply list_elem_of_In|].
  rewrite Forall_forall in Hok. rewrite (key_eqb_bytes D ver kp ord) by auto. apply bool_decide_eq_true_2. by symmetry.
Qed.

(** Bulk building a standard index: fed with the sorted entries, [commitBulk] leaves exactly
    those with a key that is short enough in an empty index, in their order, and fails with
    [KeyTooLong] when there is another one and such keys are not ignored. *)
Theorem standard_build_exact (t : T) (es : list entry) (ignoreKeyTooLong dupsAllowed : bool) (dropped : option (gset Z)) :
  wt_rows t = [] -> Forall entry_ok es -> StronglySorted sorter_before es ->
  if ignoreKeyTooLong || forallb (fun e => checkKeySize e.1) es
  then exists t', commitBulk (StandardBulkBuilder enc ver ord junk) ignoreKeyTooLong dupsAllowed es dropped t = Ret (dropped, t') /\
    holds ver kp ord false t' (filter (fun e => checkKeySize e.1 = true) es)
  else commitBulk (StandardBulkBuilder enc ver ord junk) ignoreKeyTooLong dupsAllowed es dropped t = Throw KeyTooLong.
Proof.
  intros Hempty Hok Hs.
  pose proof (commitBulk_refines refuses_long ignoreKeyTooLong (StandardBulkBuilder enc ver ord junk) dupsAllowed standard_inv sorter_before
    entry_ok (standard_adds dupsAllowed) standard_inv ltac:(by intros s kept Hi; exists s) es dropped t) as Href.
  rewrite (standard_spec ignoreKeyTooLong es [] dropped) in Href.
  destruct (ignoreKeyTooLong || _); apply Href; try done; split; (by rewrite Hempty || done).
Qed.

End index.

(** What a build that skips and drops leaves out has a key that is too long, or that a kept
    entry has as well. *)
Lemma dropped_have_twins (D : Cmp.Decimal128) (ord : Z) (es : list entry) : forall kept ids dropped' kept',
  build_spec (refuses_unique D ord false) true es kept (Some ids) = Ret (dropped', kept') ->
  exists ids', dropped' = Some ids' /\ ids ⊆ ids' /\
    forall e, e ∈ es -> checkKeySize e.1 = true -> e ∈ kept' \/ e.2 ∈ ids' /\ exists k, k ∈ kept' /\ key_eqb D ord e k = true.
Proof.
  induction es as [|e es IH]; intros kept ids dropped' kept' E; cbn [build_spec] in E.
  { injection E as <- <-. exists ids. split; [done|]. split; [done|]. by intros e ?%elem_of_nil. }
  pose proof (build_spec_kept (refuses_unique D ord false) true (e :: es) kept (Some ids) dropped' kept' E) as (l & Hl & _).
  unfold refuses_unique in E at 1. destruct (checkKeySize e.1) eqn:Es; cbn [negb andb] in E.
  - destruct (existsb (key_eqb D ord e) kept) eqn:Ee.
    + destruct (IH _ _ _ _ E) as (ids' & -> & Hsub & Hall). exists ids'. split; [done|]. split; [set_solver|].
      intros x [->|Hx]%elem_of_cons Hs; [|auto]. right. split; [set_solver|]. apply existsb_exists in Ee as (k & Hk & Hek).
      exists k. split; [|done]. rewrite Hl. apply elem_of_app. left. by apply list_elem_of_In.
    + pose proof (build_spec_kept _ _ _ _ _ _ _ E) as (l' & Hl' & _).
      destruct (IH _ _ _ _ E) as (ids' & -> & Hsub & Hall). exists ids'. split; [done|]. split; [done|].
      intros x [->|Hx]%elem_of_cons Hs; [|auto]. left. rewrite Hl'. set_solver.
  - destruct (IH _ _ _ _ E) as (ids' & -> & Hsub & Hall). exists ids'. split; [done|]. split; [done|].
    intros x [->|Hx]%elem_of_cons Hs; [congruence|auto].
Qed.
End Load.

(** ** An ordinary cursor, and a concrete build *)
Module BulkDemo.
Import Tab Idx Uniq Bulk Walk Mem Enc Groups Demo Load.

#[export] Instance plain_cursor `{WtTable T} : BulkCursor T := { cursor_insert := wt_insert }.
(** A key behind every row is appended by an ordinary cursor as well. *)
#[export] Instance plain_laws `{WtLaws T} : BulkLaws T.
Proof.
  split. intros k v t Hlt. cbn. pose proof (wt_insert_spec k v t) as Hins. pose proof (wt_sorted t) as Hs.
  destruct (wt_insert k v t) as [t'|].
  - exists t'. split; [done|]. destruct Hins as [_ Hp].
    assert (AntiSymm (=) key_before) by (intros a b Hab Hba; unfold key_before in *; rewrite SD.lexcmp_antisym in Hba; lia).
    apply (StronglySorted_unique key_before); [apply wt_sorted| |by rewrite Hp, Permutation_app_comm].
    apply StronglySorted_app. split; [|split; [done|repeat constructor]]. intros a b Ha ->%list_elem_of_singleton.
    rewrite Forall_forall in Hlt. by apply Hlt.
  - apply list_elem_of_fmap in Hins as (r & -> & Hr). rewrite Forall_forall in Hlt. specialize (Hlt r Hr).
    rewrite (proj2 (SD.lexcmp_eq _ _)) in Hlt by done. lia.
Qed.

(** The second entry has the key of the first one. *)
Definition sorted_entries : list entry := [(int_key 1 10, 7); (int_key 1 10, 9); (int_key 2 7, 8)].
Lemma sorted_entries_ok : Forall (entry_ok V1 Sets.demo_pattern) sorted_entries.
Proof. repeat (apply Forall_cons; split; [apply int_entry_ok; [lia|lia|done]|]). by apply Forall_nil. Qed.
Lemma entries_sorted : StronglySorted (sorter_before Pattern.no_decimal 2) sorted_entries.
Proof.
  repeat constructor; (eexists; split; [vm_compute; reflexivity|]); cbn; lia.
Qed.

Lemma empty_rows : wt_rows (∅ : table) = [].
Proof. vm_compute. reflexivity. Qed.

Lemma standard_build_exact_witness : exists t,
  commitBulk (StandardBulkBuilder Keys.no_append V1 2 (replicate 128 0)) false true sorted_entries None (∅ : table) = Ret (None, t) /\
  holds V1 Sets.demo_pattern 2 false t sorted_entries.
Proof.
  exact (standard_build_exact Pattern.no_decimal Keys.no_append V1 Sets.demo_pattern 2 (replicate 128 0) eq_refl (∅ : table) sorted_entries false true None
    empty_rows sorted_entries_ok entries_sorted).
Defined.
End BulkDemo.
