(* ===== verification/IndexAccess.v ===== *)
(** * Index access methods

    [IndexAccessMethod] of [db/index/index_access_method.cpp]: the keys of a document are put into
    an index, removed from it and replaced. [Module Sdi] is the interface of the index below,
    [SortedDataInterface], as a class with its laws; [Module Am] holds the operations,
    [Module AmProofs] the theorems against the interface, and [Module Wired] shows that both
    kinds of WiredTiger index satisfy it. *)
From Stdlib Require Import ZArith Lia Bool.
From stdpp Require Import base list option sorting gmap.
From S2P Require Import Prelude StringData Bson BsonCompare KeyString KeyStringOrder KeyStringRefine KeyStringDecode IndexBounds BoundsChecker WtIndex WtUnique WtBulk.
Open Scope Z_scope.

(** ** The interface of an index *)
Module Sdi.
Import Idx Walk Groups.

Class SortedDataInterface (T : Type) := {
  sd_insert : list field -> Z -> bool -> T -> outcome idx_error T;
  sd_unindex : list field -> Z -> bool -> T -> outcome idx_error T
}.
(** What it promises of the entries that an index holds. A standard index is only called with
    [dupsAllowed]. *)
Class SortedDataLaws (T : Type) `{SortedDataInterface T} (D : Cmp.Decimal128) (ver : Version) (kp : list field) (ord : Z) (unique : bool)
    (sd_holds : T -> list entry -> Prop) : Prop := {
  sd_ok (t : T) (es : list entry) : sd_holds t es -> Forall (entry_ok ver kp) es;
  sd_insert_spec (t : T) (es : list entry) (e : entry) (dupsAllowed : bool) :
    sd_holds t es -> entry_ok ver kp e -> unique || dupsAllowed = true ->
    if negb (checkKeySize e.1) then sd_insert e.1 e.2 dupsAllowed t = Throw KeyTooLong
    else if existsb (entry_eqb D ord e) es then sd_insert e.1 e.2 dupsAllowed t = Ret t
    else if negb dupsAllowed && existsb (key_eqb D ord e) es then sd_insert e.1 e.2 dupsAllowed t = Throw DuplicateKey
    else exists t' es', sd_insert e.1 e.2 dupsAllowed t = Ret t' /\ sd_holds t' es' /\ es' ≡ₚ e :: es;
  sd_unindex_spec (t : T) (es : list entry) (e : entry) (dupsAllowed : bool) :
    sd_holds t es -> entry_ok ver kp e -> unique || dupsAllowed = true ->
    exists t' es', sd_unindex e.1 e.2 dupsAllowed t = Ret t' /\ sd_holds t' es' /\
      es' ≡ₚ filter (fun x => (if dupsAllowed then entry_eqb D ord e x else key_eqb D ord e x) = false) es
}.
End Sdi.

(** ** The access method *)
Module Am.
Import Idx Sdi.

Abbreviation keys_set := (list (list field)).
(** [MultikeyPaths]: for each indexed field the components that are arrays. *)
Abbreviation MultikeyPaths := (list (gset nat)).
Definition isMultikeyFromPaths (multikeyPaths : MultikeyPaths) : bool :=
  existsb (fun components => negb (bool_decide (components = ∅))) multikeyPaths.

Inductive GetKeysMode := kRelaxConstraints | kEnforceConstraints.
Definition whiteList : list Z := [201; 17280; 171; 16732; 16733; 16675; 16766; 16775; 16776; 16755; 16756; 16804; 13067; 13068; 13026; 13027].
(** [getKeys]; the argument is what [doGetKeys] returns or throws. *)
Definition getKeys (mode : GetKeysMode) (doGetKeys : outcome Z (keys_set * MultikeyPaths)) : outcome Z (keys_set * MultikeyPaths) :=
  match doGetKeys with
  | Throw code =>
      match mode with
      | kEnforceConstraints => Throw code
      | kRelaxConstraints => if negb (existsb (Z.eqb code) whiteList) then Throw code else Ret ([], [])
      end
  | r => r
  end.

Section method.
Context {T : Type} `{SortedDataInterface T}.
(** The entry of the catalog: [setMultikey] is a parameter, [isReady] and [ignoreKeyTooLong]
    are what the calls return. *)
Context {M : Type}.
Variable setMultikey : MultikeyPaths -> M -> M.
Variables isReady ignoreKeyTooLong : bool.
Variable D : Cmp.Decimal128.

(** [removeOneKey]: an [AssertionException] is logged, a [WriteConflictException] is not one. *)
Definition removeOneKey (key : list field) (loc : Z) (dupsAllowed : bool) (t : T) : outcome idx_error T :=
  match sd_unindex key loc dupsAllowed t with
  | Throw (KsError _) => Ret t
  | r => r
  end.
Fixpoint remove_all (keys : keys_set) (loc : Z) (dupsAllowed : bool) (t : T) : outcome idx_error T :=
  match keys with
  | [] => Ret t
  | key :: keys => t ← removeOneKey key loc dupsAllowed t; remove_all keys loc dupsAllowed t
  end.

(** The loop of [insert]; [done] are the keys before the iterator. A status that is not OK is
    returned with what the index is left with; exceptions are thrown. *)
Definition is_status (e : idx_error) : bool :=
  match e with KeyTooLong | DuplicateKey | DuplicateKeyValue => true | _ => false end.
Fixpoint insert_keys (done keys : keys_set) (loc : Z) (dupsAllowed : bool) (numInserted : Z) (t : T) :
    outcome idx_error (option idx_error * Z * T) :=
  match keys with
  | [] => Ret (None, numInserted, t)
  | key :: keys =>
      match sd_insert key loc dupsAllowed t with
      | Ret t => insert_keys (done ++ [key]) keys loc dupsAllowed (numInserted + 1) t
      | Throw status =>
          if negb (is_status status) then Throw status
          else if (match status with KeyTooLong => true | _ => false end) && ignoreKeyTooLong then
            insert_keys (done ++ [key]) keys loc dupsAllowed numInserted t
          else if (match status with DuplicateKeyValue => true | _ => false end) && negb isReady then
            insert_keys (done ++ [key]) keys loc dupsAllowed numInserted t
          else
            t ← remove_all done loc dupsAllowed t;
            Ret (Some status, if (length done =? 0)%nat then numInserted else 0, t)
      | Fault => Fault
      | NoFuel => NoFuel
      end
  end.
(** [insert] with the keys of the document. *)
Definition insert (keys : keys_set) (multikeyPaths : MultikeyPaths) (loc : Z) (dupsAllowed : bool) (s : T * M) :
    outcome idx_error (option idx_error * Z * (T * M)) :=
  '(status, numInserted, t) ← insert_keys [] keys loc dupsAllowed 0 s.1;
  match status with
  | Some _ => Ret (status, numInserted, (t, s.2))
  | None =>
      Ret (None, numInserted,
           (t, if (1 <? numInserted) || isMultikeyFromPaths multikeyPaths then setMultikey multikeyPaths s.2 else s.2))
  end.
(** [remove]: the number of keys is [numDeleted]. *)
Definition remove (keys : keys_set) (loc : Z) (dupsAllowed : bool) (t : T) : outcome idx_error (Z * T) :=
  t ← remove_all keys loc dupsAllowed t;
  Ret (Z.of_nat (length keys), t).

(** [BSONObj::binaryEqual]. *)
Definition binaryEqual (l r : list field) : bool :=
  (length (enc_obj l) =? length (enc_obj r))%nat && (SD.memcmp (enc_obj l) (enc_obj r) (length (enc_obj l)) =? 0).
(** [setDifference]: the loop over both sets; [None] is a failed comparison. *)
Fixpoint setDifference (left : keys_set) : keys_set -> option (keys_set * keys_set) :=
  fix over_right (right : keys_set) : option (keys_set * keys_set) :=
    match left, right with
    | [], _ => Some ([], right)
    | _, [] => Some (left, [])
    | l :: left', r :: right' =>
        cmp ← Cmp.woCompare D r [] true None l;
        if cmp =? 0 then
          '(onlyLeft, onlyRight) ← setDifference left' right';
          Some (if negb (binaryEqual l r) then (l :: onlyLeft, r :: onlyRight) else (onlyLeft, onlyRight))
        else if 0 <? cmp then
          '(onlyLeft, onlyRight) ← over_right right';
          Some (onlyLeft, r :: onlyRight)
        else
          '(onlyLeft, onlyRight) ← setDifference left' right;
          Some (l :: onlyLeft, onlyRight)
    end.

(** [UpdateTicket]. *)
Record UpdateTicket := mkTicket {
  _isValid : bool;
  oldKeys : keys_set;
  newKeys : keys_set;
  removed : keys_set;
  added : keys_set;
  ticket_loc : Z;
  ticket_dupsAllowed : bool;
  newMultikeyPaths : MultikeyPaths
}.
(** [validateUpdate]: [from] and [to] are what [getKeys] gives for the two documents, and the
    flags whether the filter of a partial index matches them, [true] without a filter. *)
Definition validateUpdate (fromMatches toMatches : bool) (from to : outcome Z (keys_set * MultikeyPaths)) (record : Z) (dupsAllowed : bool) :
    outcome Z UpdateTicket :=
  '(old, _) ← (if fromMatches then from else Ret ([], []));
  '(new, paths) ← (if toMatches then to else Ret ([], []));
  match setDifference old new with
  | None => Fault
  | Some (onlyOld, onlyNew) => Ret (mkTicket true old new onlyOld onlyNew record dupsAllowed paths)
  end.

Fixpoint unindex_keys (keys : keys_set) (loc : Z) (dupsAllowed : bool) (t : T) : outcome idx_error T :=
  match keys with
  | [] => Ret t
  | key :: keys => t ← sd_unindex key loc dupsAllowed t; unindex_keys keys loc dupsAllowed t
  end.
Fixpoint insert_added (keys : keys_set) (loc : Z) (dupsAllowed : bool) (t : T) : outcome idx_error (option idx_error * T) :=
  match keys with
  | [] => Ret (None, t)
  | key :: keys =>
      match sd_insert key loc dupsAllowed t with
      | Ret t => insert_added keys loc dupsAllowed t
      | Throw status =>
          if negb (is_status status) then Throw status
          else if (match status with KeyTooLong => true | _ => false end) && ignoreKeyTooLong then insert_added keys loc dupsAllowed t
          else Ret (Some status, t)
      | Fault => Fault
      | NoFuel => NoFuel
      end
  end.
(** [update]; [None] instead of a status is [InternalError], for a ticket that is not valid. *)
Definition update (ticket : UpdateTicket) (s : T * M) : outcome idx_error (option (option idx_error * Z * Z) * (T * M)) :=
  if negb (_isValid ticket) then Ret (None, s)
  else
    let keys := wrapu 64 (Z.of_nat (length (oldKeys ticket)) + Z.of_nat (length (added ticket)) - Z.of_nat (length (removed ticket))) in
    let m := if (1 <? keys) || isMultikeyFromPaths (newMultikeyPaths ticket) then setMultikey (newMultikeyPaths ticket) s.2 else s.2 in
    t ← unindex_keys (removed ticket) (ticket_loc ticket) (ticket_dupsAllowed ticket) s.1;
    '(status, t) ← insert_added (added ticket) (ticket_loc ticket) (ticket_dupsAllowed ticket) t;
    Ret (Some match status with
              | Some _ => (status, 0, 0)
              | None => (None, Z.of_nat (length (added ticket)), Z.of_nat (length (removed ticket)))
              end, (t, m)).

End method.
End Am.

(** ** Theorems against the interface *)
Module AmProofs.
Import Idx Sdi Am Walk Groups Keys Enc.


(** *** Sets of keys *)
Section sets.
Variable D : Cmp.Decimal128.
Variable ver : Version.

(** The order of a [BSONObjSet] with the [SimpleBSONObjComparator]. *)
Definition obj_lt (a b : list field) : Prop := exists z, Cmp.woCompare D b [] true None a = Some z /\ z < 0.
Definition obj_bytes (a : list field) : bytes := entry_bytes ver 0 true (a, 0).

Lemma plain_compare (l r : list field) : forall k mask,
  Cmp.woCompare_pattern D true None false k l r = Cmp.woCompare_ordering D true None 0 mask l r.
Proof.
  revert r. induction l as [|a l IH]; intros [|b r] k mask; cbn [Cmp.woCompare_pattern Cmp.woCompare_ordering mbind option_bind]; [done..|].
  destruct (Cmp.elem_woCompare _ _ _ _) as [x|]; [|done]. cbn [mbind option_bind andb].
  assert (Cmp.descending 0 mask = false) as -> by done. destruct (negb (x =? 0)); [done|]. apply IH.
Qed.
Lemma obj_compare_bytes (a b : list field) : stored_key ver a -> stored_key ver b ->
  exists z, Cmp.woCompare D b [] true None a = Some z /\ Cmp.woCompare_ordering D false None 0 1 a b = Some z /\
    SD.lexcmp (obj_bytes a) (obj_bytes b) = Z.sgn z.
Proof.
  intros [Ha Na] [Hb Nb]. destruct (keys_lexcmp D ver 0 a b [] [] Ha Hb) as (z & Hz & Hc). exists z.
  change (SD.lexcmp (obj_bytes a) (obj_bytes b) = if z =? 0 then 0 else Z.sgn z) in Hc.
  split; [|split; [done|rewrite Hc; by destruct (Z.eqb_spec z 0) as [->|]]].
  rewrite <- (Load.compare_names D 0 a b Na Nb) in Hz. unfold Cmp.woCompare.
  destruct a, b; [done..|]. by rewrite (plain_compare _ _ _ 1).
Qed.
(** Keys that are equal in one order are equal in every order. *)
Lemma equal_any_order (o o' : Z) (l r : list field) : forall mask mask',
  Cmp.woCompare_ordering D false None o mask l r = Some 0 -> Cmp.woCompare_ordering D false None o' mask' l r = Some 0.
Proof.
  revert r. induction l as [|a l IH]; intros [|b r] mask mask' E; [done..|]. cbn [Cmp.woCompare_ordering] in *.
  destruct (Cmp.elem_woCompare _ _ _ _) as [x|]; [|done]. cbn [mbind option_bind] in *.
  assert (Hx : x = 0).
  { destruct (Z.eqb_spec (if Cmp.descending o mask then - x else x) 0) as [Hx|Hx]; [destruct (Cmp.descending o mask); lia|].
    cbn [negb] in E. injection E. done. }
  subst x. change (- 0) with 0 in *. destruct (Cmp.descending o mask), (Cmp.descending o' mask'); cbn [Z.eqb negb] in *; by eapply IH.
Qed.
Lemma obj_lt_bytes (a b : list field) : stored_key ver a -> stored_key ver b -> obj_lt a b -> SD.lexcmp (obj_bytes a) (obj_bytes b) < 0.
Proof.
  intros Ha Hb (z & Hz & Hlt). destruct (obj_compare_bytes a b Ha Hb) as (z' & Hz' & _ & ->). rewrite Hz in Hz'. injection Hz' as <-. lia.
Qed.

(** *** The difference of two sets *)

Lemma binaryEqual_refl (a : list field) : binaryEqual a a = true.
Proof.
  unfold binaryEqual. rewrite Nat.eqb_refl. pose proof (SD.memcmp_app (enc_obj a) []) as E. rewrite app_nil_r in E. by rewrite E.
Qed.

(** Keys that an update does not touch: equal, and with the same bytes. *)
Definition same (a b : list field) : bool :=
  match Cmp.woCompare D b [] true None a with Some z => (z =? 0) && binaryEqual a b | None => false end.
Lemma same_bytes (a b : list field) : stored_key ver a -> stored_key ver b -> SD.lexcmp (obj_bytes a) (obj_bytes b) <> 0 -> same a b = false.
Proof.
  intros Ha Hb Hne. destruct (obj_compare_bytes a b Ha Hb) as (z & Hz & _ & Hc). unfold same. rewrite Hz.
  destruct (Z.eqb_spec z 0) as [->|]; [|done]. by rewrite Hc in Hne.
Qed.
Definition in_right (right : keys_set) (k : list field) : bool := existsb (fun k' => same k k') right.
Definition in_left (left : keys_set) (k : list field) : bool := existsb (fun k' => same k' k) left.

Abbreviation sorted := (StronglySorted obj_lt).
Abbreviation stored := (Forall (stored_key ver)).
Lemma behind_head (a : list field) (l : keys_set) : stored (a :: l) -> sorted (a :: l) ->
  Forall (fun x => SD.lexcmp (obj_bytes a) (obj_bytes x) < 0) l.
Proof.
  intros [Ha Hl]%Forall_cons [_ Hs]%StronglySorted_inv. rewrite Forall_forall in *. intros x Hx. by apply obj_lt_bytes; auto.
Qed.
(** A key that is before all keys of a set is in none of the differences with it. *)
Lemma before_all (a : list field) (l : keys_set) : stored_key ver a -> stored l -> Forall (fun x => SD.lexcmp (obj_bytes a) (obj_bytes x) < 0) l ->
  Forall (fun x => same a x = false) l /\ Forall (fun x => same x a = false) l.
Proof.
  intros Ha Hl Hlt. rewrite !Forall_forall in *. split; intros x Hx; specialize (Hlt x Hx); apply same_bytes; auto; [lia|].
  rewrite SD.lexcmp_antisym. lia.
Qed.
Lemma skip_right (b : list field) (right l : keys_set) : Forall (fun x => same x b = false) l ->
  filter (fun k => in_right (b :: right) k = false) l = filter (fun k => in_right right k = false) l.
Proof. intros Hl. apply filter_agree. eapply Forall_impl; [exact Hl|]. intros x Hx. cbn in Hx |- *. by rewrite Hx. Qed.
Lemma skip_left (a : list field) (left l : keys_set) : Forall (fun x => same a x = false) l ->
  filter (fun k => in_left (a :: left) k = false) l = filter (fun k => in_left left k = false) l.
Proof. intros Hl. apply filter_agree. eapply Forall_impl; [exact Hl|]. intros x Hx. cbn in Hx |- *. by rewrite Hx. Qed.
Lemma further (a b : list field) (l : keys_set) : SD.lexcmp (obj_bytes a) (obj_bytes b) <= 0 ->
  Forall (fun x => SD.lexcmp (obj_bytes b) (obj_bytes x) < 0) l -> Forall (fun x => SD.lexcmp (obj_bytes a) (obj_bytes x) < 0) l.
Proof.
  intros Hab Hl. eapply Forall_impl; [exact Hl|]. intros x Hx. cbv beta in Hx.
  destruct (Z.eq_dec (SD.lexcmp (obj_bytes a) (obj_bytes b)) 0) as [E%SD.lexcmp_eq|E]; [by rewrite E|].
  apply (SD.lexcmp_trans _ (obj_bytes b)); lia.
Qed.

Lemma setDifference_cons (a b : list field) (left right : keys_set) : setDifference D (a :: left) (b :: right) =
  (cmp ← Cmp.woCompare D b [] true None a;
   if cmp =? 0 then
     '(onlyLeft, onlyRight) ← setDifference D left right;
     Some (if negb (binaryEqual a b) then (a :: onlyLeft, b :: onlyRight) else (onlyLeft, onlyRight))
   else if 0 <? cmp then
     '(onlyLeft, onlyRight) ← setDifference D (a :: left) right;
     Some (onlyLeft, b :: onlyRight)
   else
     '(onlyLeft, onlyRight) ← setDifference D left (b :: right);
     Some (a :: onlyLeft, onlyRight)).
Proof. done. Qed.
Lemma setDifference_filters (left : keys_set) : stored left -> sorted left -> forall right, stored right -> sorted right ->
  setDifference D left right = Some (filter (fun k => in_right right k = false) left, filter (fun k => in_left left k = false) right).
Proof.
  induction left as [|a left IHl]; intros Hal Hsl right.
  { intros _ _. rewrite (filter_all _ right) by (apply Forall_forall; done). by destruct right. }
  pose proof Hal as [Ha Hl]%Forall_cons. pose proof Hsl as [Hs _]%StronglySorted_inv. pose proof (behind_head a left Hal Hsl) as Hba.
  induction right as [|b right IHr]; intros Hbr Hsr.
  { rewrite (filter_all _ (a :: left)); [done|]. apply Forall_forall. intros x _. done. }
  pose proof Hbr as [Hb Hr]%Forall_cons. pose proof Hsr as [Hs' _]%StronglySorted_inv. pose proof (behind_head b right Hbr Hsr) as Hbb.
  destruct (obj_compare_bytes a b Ha Hb) as (z & Hz & _ & Hc). rewrite setDifference_cons, Hz. cbn [mbind option_bind].
  destruct (Z.eqb_spec z 0) as [E0|E0]; [|destruct (Z.ltb_spec 0 z) as [Hgt|Hle]].
  - assert (Hsame : same a b = binaryEqual a b) by (unfold same; by rewrite Hz, E0).
    destruct (before_all a right Ha Hr) as [Har _]; [apply (further a b); [lia|done]|].
    destruct (before_all b left Hb Hl) as [_ Hlb]; [apply (further b a); [rewrite SD.lexcmp_antisym; lia|done]|].
    rewrite (IHl Hl Hs right Hr Hs'). cbn [mbind option_bind]. rewrite !filter_cons, (skip_right b right left Hlb), (skip_left a left right Har).
    assert (in_right (b :: right) a = binaryEqual a b) as ->.
    { unfold in_right. cbn [existsb]. rewrite Hsame, (proj2 (existsb_Forall (fun k' => same a k') right) Har). apply orb_false_r. }
    assert (in_left (a :: left) b = binaryEqual a b) as ->.
    { unfold in_left. cbn [existsb]. rewrite Hsame, (proj2 (existsb_Forall (fun k' => same k' b) left) Hlb). apply orb_false_r. }
    by destruct (binaryEqual a b).
  - assert (Hlt : SD.lexcmp (obj_bytes b) (obj_bytes a) < 0) by (rewrite SD.lexcmp_antisym; lia).
    destruct (before_all b (a :: left) Hb Hal) as [_ Hxb]; [constructor; [done|apply (further b a); [lia|done]]|].
    rewrite (IHr Hr Hs'). cbn [mbind option_bind]. rewrite (skip_right b right (a :: left) Hxb), (filter_cons_True _ b); [done|].
    exact (proj2 (existsb_Forall (fun k' => same k' b) (a :: left)) Hxb).
  - assert (Hlt : SD.lexcmp (obj_bytes a) (obj_bytes b) < 0) by lia.
    destruct (before_all a (b :: right) Ha Hbr) as [Hax _]; [constructor; [done|apply (further a b); [lia|done]]|].
    rewrite (IHl Hl Hs (b :: right) Hbr Hsr). cbn [mbind option_bind]. rewrite (skip_left a left (b :: right) Hax), (filter_cons_True _ a); [done|].
    exact (proj2 (existsb_Forall (fun k' => same a k') (b :: right)) Hax).
Qed.

(** Nothing is lost: what is in both sets has the same bytes in both. *)
Lemma setDifference_split (left : keys_set) : forall right onlyLeft onlyRight, setDifference D left right = Some (onlyLeft, onlyRight) ->
  exists keptLeft keptRight, left ≡ₚ onlyLeft ++ keptLeft /\ right ≡ₚ onlyRight ++ keptRight /\
    Forall2 (fun a b => same a b = true) keptLeft keptRight.
Proof.
  induction left as [|a left IHl].
  { intros right ol or E. exists [], []. destruct right; injection E as <- <-; (split; [done|]; split; [by rewrite ?app_nil_r|constructor]). }
  induction right as [|b right IHr]; intros ol or E.
  { injection E as <- <-. exists [], []. split; [by rewrite app_nil_r|split; [done|constructor]]. }
  rewrite setDifference_cons in E. destruct (Cmp.woCompare D b [] true None a) as [z|] eqn:Ez; [|done]. cbn [mbind option_bind] in E.
  destruct (Z.eqb_spec z 0) as [E0|E0]; [|destruct (Z.ltb_spec 0 z)].
  - destruct (setDifference D left right) as [[ol' or']|] eqn:Ed; [|done]. cbn [mbind option_bind] in E.
    destruct (IHl right ol' or' Ed) as (kl & kr & Hl & Hr & Hk). destruct (binaryEqual a b) eqn:Eb; cbn [negb] in E; injection E as <- <-.
    + exists (a :: kl), (b :: kr). rewrite Hl, Hr, !Permutation_middle. split; [done|]. split; [done|]. constructor; [|done].
      unfold same. by rewrite Ez, E0, Eb.
    + exists kl, kr. by rewrite Hl, Hr.
  - destruct (setDifference D (a :: left) right) as [[ol' or']|] eqn:Ed; [|done]. cbn [mbind option_bind] in E. injection E as <- <-.
    destruct (IHr ol' or' eq_refl) as (kl & kr & Hl & Hr & Hk). exists kl, kr. split; [done|]. split; [by rewrite Hr|done].
  - destruct (setDifference D left (b :: right)) as [[ol' or']|] eqn:Ed; [|done]. cbn [mbind option_bind] in E. injection E as <- <-.
    destruct (IHl (b :: right) ol' or' Ed) as (kl & kr & Hl & Hr & Hk). exists kl, kr. by rewrite Hl.
Qed.
End sets.

Section method.
Context {T : Type}.
Variable D : Cmp.Decimal128.
Variable ver : Version.
Variable kp : list field.
Variable ord : Z.
Variable unique : bool.
Variable sd_holds : T -> list entry -> Prop.
Context `{SortedDataLaws T D ver kp ord unique sd_holds}.
Variable loc : Z.
Variable dupsAllowed : bool.
Hypothesis Hdups : unique || dupsAllowed = true.
Abbreviation entry_ok := (entry_ok ver kp).
Abbreviation key_eqb := (key_eqb D ord).
Abbreviation entry_eqb := (entry_eqb D ord).
Abbreviation key_of := (entry_bytes ver ord true).

(** The entry of a key of the document. *)
Definition own (key : list field) : entry := (key, loc).
Definition short (key : list field) : bool := checkKeySize key.
(** The entries that [unindex] takes for that of a key. *)
Definition hit (e x : entry) : bool := if dupsAllowed then entry_eqb e x else key_eqb e x.
Definition hit_by (keys : keys_set) (x : entry) : bool := existsb (fun key => hit (own key) x) keys.
Definition keys_ok (keys : keys_set) : Prop := Forall (fun key => entry_ok (own key)) keys.

Lemma remove_all_spec (keys : keys_set) : keys_ok keys -> forall t es, sd_holds t es ->
  exists t' es', remove_all keys loc dupsAllowed t = Ret t' /\ sd_holds t' es' /\ es' ≡ₚ filter (fun x => hit_by keys x = false) es.
Proof using H0 Hdups.
  induction 1 as [|key keys Hk _ IH]; intros t es Hh.
  { exists t, es. split; [done|]. split; [done|]. by rewrite filter_all by (by apply Forall_forall). }
  destruct (sd_unindex_spec t es (own key) dupsAllowed Hh Hk Hdups) as (t1 & es1 & E & Hh1 & Hp1).
  cbn [remove_all]. unfold removeOneKey. cbn [own fst snd] in E. rewrite E, bind_Ret.
  destruct (IH t1 es1 Hh1) as (t' & es' & -> & Hh' & Hp). exists t', es'. split; [done|]. split; [done|].
  rewrite Hp, Hp1. by rewrite (filter_twice (fun x => hit (own key) x)).
Qed.
Lemma unindex_keys_spec (keys : keys_set) : keys_ok keys -> forall t es, sd_holds t es ->
  exists t' es', unindex_keys keys loc dupsAllowed t = Ret t' /\ sd_holds t' es' /\ es' ≡ₚ filter (fun x => hit_by keys x = false) es.
Proof using H0 Hdups.
  induction 1 as [|key keys Hk _ IH]; intros t es Hh.
  { exists t, es. split; [done|]. split; [done|]. by rewrite filter_all by (by apply Forall_forall). }
  destruct (sd_unindex_spec t es (own key) dupsAllowed Hh Hk Hdups) as (t1 & es1 & E & Hh1 & Hp1).
  cbn [unindex_keys]. cbn [own fst snd] in E. rewrite E, bind_Ret.
  destruct (IH t1 es1 Hh1) as (t' & es' & -> & Hh' & Hp). exists t', es'. split; [done|]. split; [done|].
  rewrite Hp, Hp1. by rewrite (filter_twice (fun x => hit (own key) x)).
Qed.

(** *** The keys of a document *)

Lemma hit_self (e : entry) : entry_ok e -> hit e e = true.
Proof using Type.
  clear Hdups. intros He. unfold hit. rewrite entry_eqb_key, (key_eqb_bytes D ver kp ord), bool_decide_eq_true_2 by done.
  unfold same_id. rewrite Z.eqb_refl. by destruct dupsAllowed.
Qed.
Lemma hit_key (e x : entry) : hit e x = true -> key_eqb e x = true.
Proof using Type. clear Hdups. unfold hit. rewrite entry_eqb_key. destruct dupsAllowed; [|done]. by intros [? _]%andb_true_iff. Qed.

(** Keys of a set have different bytes. *)
Definition distinct (keys : keys_set) : Prop := NoDup ((fun key => key_of (own key)) <$> keys).
Lemma distinct_other (key : list field) (keys : keys_set) : keys_ok (key :: keys) -> distinct (key :: keys) ->
  Forall (fun k => key_eqb (own key) (own k) = false /\ key_eqb (own k) (own key) = false) keys.
Proof using Type.
  intros [Hk Hks]%Forall_cons [Hn _]%NoDup_cons. unfold keys_ok in Hks. rewrite Forall_forall in *. intros k Hin.
  rewrite !(key_eqb_bytes D ver kp ord) by auto.
  assert (key_of (own key) <> key_of (own k)).
  { intros E. apply Hn. rewrite E. apply list_elem_of_fmap. by exists k. }
  split; apply bool_decide_eq_false_2; congruence.
Qed.

Lemma sorted_distinct (keys : keys_set) : keys_ok keys -> StronglySorted (obj_lt D) keys -> distinct keys.
Proof using Type.
  clear Hdups. intros Hok Hs. induction Hs as [|a keys _ IH Ha]; [by apply NoDup_nil|]. apply Forall_cons in Hok as [Hka Hok].
  apply NoDup_cons. split; [|by apply IH]. intros (b & E & Hb)%list_elem_of_fmap. unfold keys_ok in Hok. rewrite Forall_forall in Ha, Hok.
  destruct Hka as (Hsa & _). destruct (Hok b Hb) as (Hsb & _). destruct (Ha b Hb) as (z & Hz & Hlt).
  destruct (keys_lexcmp D ver ord a b [] [] (proj1 Hsa) (proj1 Hsb)) as (z1 & Hz1 & Hc).
  change (SD.lexcmp (key_of (own a)) (key_of (own b)) = if z1 =? 0 then 0 else Z.sgn z1) in Hc.
  rewrite (proj2 (SD.lexcmp_eq _ _) E) in Hc. assert (z1 = 0) as -> by (destruct (Z.eqb_spec z1 0); lia).
  destruct (obj_compare_bytes D ver a b Hsa Hsb) as (z2 & Hz2 & Hz3 & _). rewrite (equal_any_order D ord 0 a b 1 1 Hz1) in Hz3.
  injection Hz3 as <-. rewrite Hz in Hz2. injection Hz2. lia.
Qed.

(** What refuses a key, with the entries that are in the index before. *)
Section insert.
Variable ignoreKeyTooLong : bool.
Definition refused (es : list entry) (key : list field) : option idx_error :=
  if negb (short key) then if ignoreKeyTooLong then None else Some KeyTooLong
  else if negb dupsAllowed && existsb (key_eqb (own key)) es then Some DuplicateKey
  else None.
Fixpoint first_refused (es : list entry) (keys : keys_set) : option idx_error :=
  match keys with
  | [] => None
  | key :: keys => match refused es key with Some e => Some e | None => first_refused es keys end
  end.
Definition own_entries (keys : keys_set) : list entry := own <$> filter (fun key => short key = true) keys.
(** No entry of the document is in the index. *)
Definition fresh (es : list entry) (keys : keys_set) : Prop := Forall (fun key => existsb (entry_eqb (own key)) es = false) keys.

(** The keys that are skipped because they are too long are not keys of other records. Without
    this the cleanup of a unique index, which removes by key when duplicates are not allowed,
    takes the entry of the other record away: [cleanup_takes_other_record]. *)
Definition clean (es : list entry) (keys : keys_set) : Prop :=
  Forall (fun key => short key = false ->
            ignoreKeyTooLong = false \/ dupsAllowed = true \/ existsb (key_eqb (own key)) es = false) keys.

(** One key more. *)
Lemma insert_one (es done : list entry) (key : list field) (t : T) (cur : list entry) : sd_holds t cur -> cur ≡ₚ done ++ es ->
  entry_ok (own key) -> Forall (fun e => key_eqb (own key) e = false) done -> existsb (entry_eqb (own key)) es = false ->
  if negb (short key) then sd_insert key loc dupsAllowed t = Throw KeyTooLong
  else if negb dupsAllowed && existsb (key_eqb (own key)) es then sd_insert key loc dupsAllowed t = Throw DuplicateKey
  else exists t' cur', sd_insert key loc dupsAllowed t = Ret t' /\ sd_holds t' cur' /\ cur' ≡ₚ own key :: done ++ es.
Proof using H0 Hdups.
  intros Hh Hp Hk Hdone Hes. pose proof (sd_insert_spec t cur (own key) dupsAllowed Hh Hk Hdups) as Hi. cbn [own fst snd] in Hi.
  fold (own key) in Hi. unfold short. destruct (negb (checkKeySize key)); [done|].
  rewrite !(Sets.existsb_permutation _ cur (done ++ es) Hp), !existsb_app, Hes in Hi.
  assert (E1 : existsb (key_eqb (own key)) done = false) by (by apply existsb_Forall).
  assert (E2 : existsb (entry_eqb (own key)) done = false).
  { apply existsb_Forall. eapply Forall_impl; [exact Hdone|]. intros x Hx. cbn in Hx. by rewrite entry_eqb_key, Hx. }
  rewrite E1, E2 in Hi. cbn [orb] in Hi. destruct (negb dupsAllowed && existsb (key_eqb (own key)) es); [done|].
  destruct Hi as (t' & cur' & E & Hh' & Hp'). exists t', cur'. by rewrite <- Hp.
Qed.
Lemma own_entries_other (key : list field) (done : keys_set) : keys_ok (done ++ [key]) -> distinct (done ++ [key]) ->
  Forall (fun e => key_eqb (own key) e = false) (own_entries done).
Proof using Type.
  intros Hok Hd. unfold distinct, keys_ok in *. rewrite fmap_app in Hd.
  assert (Hp : key :: done ≡ₚ done ++ [key]) by apply Permutation_cons_append.
  assert (Hok' : keys_ok (key :: done)) by (unfold keys_ok; by rewrite Hp).
  assert (Hd' : distinct (key :: done)) by (unfold distinct; rewrite Hp, fmap_app; done).
  pose proof (distinct_other key done Hok' Hd') as Ho. rewrite Forall_forall in Ho. apply Forall_forall.
  intros x (k & -> & [_ Hk]%list_elem_of_filter)%list_elem_of_fmap. by apply Ho.
Qed.

(** The cleanup removes what was inserted, and nothing else. *)
Lemma cleanup (es : list entry) (done : keys_set) : keys_ok done -> fresh es done -> clean es done ->
  Forall (fun key => refused es key = None) done ->
  filter (fun x => hit_by done x = false) (own_entries done ++ es) = es.
Proof using Type.
  clear Hdups. intros Hok Hf Hc Hr. unfold keys_ok, fresh, clean in *. rewrite filter_app, filter_nothing, filter_all; [done| |].
  - apply Forall_forall. intros x Hx. apply existsb_Forall, Forall_forall. intros key Hkey. rewrite Forall_forall in Hf, Hc, Hr.
    specialize (Hf key Hkey). specialize (Hc key Hkey). specialize (Hr key Hkey). apply existsb_Forall in Hf. rewrite Forall_forall in Hf.
    unfold hit. destruct dupsAllowed eqn:Ed; [by apply Hf|].
    enough (Hno : existsb (key_eqb (own key)) es = false) by (apply existsb_Forall in Hno; rewrite Forall_forall in Hno; by apply Hno).
    unfold refused in Hr. destruct (short key); cbn [negb] in Hr; [|destruct Hc as [Hi|[Hno|Hno]]; [done|by rewrite Hi in Hr|done|done]].
    rewrite Ed in Hr. cbn [negb andb] in Hr. by destruct (existsb _ es).
  - apply Forall_forall. intros x (key & -> & [_ Hkey]%list_elem_of_filter)%list_elem_of_fmap Hno. apply existsb_Forall in Hno.
    rewrite Forall_forall in Hno, Hok. specialize (Hno key Hkey). rewrite hit_self in Hno by auto. done.
Qed.

Lemma own_entries_snoc (done : keys_set) (key : list field) :
  own_entries (done ++ [key]) = own_entries done ++ if short key then [own key] else [].
Proof using Type. unfold own_entries. rewrite filter_app, fmap_app. f_equal. rewrite filter_cons. by destruct (short key). Qed.
Lemma insert_keys_spec (isReady : bool) (es : list entry) : forall keys done t cur,
  keys_ok (done ++ keys) -> distinct (done ++ keys) -> fresh es (done ++ keys) -> clean es (done ++ keys) ->
  Forall (fun key => refused es key = None) done -> sd_holds t cur -> cur ≡ₚ own_entries done ++ es ->
  match first_refused es keys with
  | None => exists t' cur', insert_keys isReady ignoreKeyTooLong done keys loc dupsAllowed (Z.of_nat (length (own_entries done))) t =
        Ret (None, Z.of_nat (length (own_entries (done ++ keys))), t') /\ sd_holds t' cur' /\ cur' ≡ₚ own_entries (done ++ keys) ++ es
  | Some x => exists t' cur', insert_keys isReady ignoreKeyTooLong done keys loc dupsAllowed (Z.of_nat (length (own_entries done))) t =
        Ret (Some x, 0, t') /\ sd_holds t' cur' /\ cur' ≡ₚ es
  end.
Proof using H0 Hdups.
  induction keys as [|key keys IH]; intros done t cur Hok Hd Hf Hc Hr Hh Hp.
  { rewrite app_nil_r in *. exists t, cur. done. }
  assert (Easoc : done ++ key :: keys = (done ++ [key]) ++ keys) by (by rewrite <- app_assoc).
  rewrite Easoc in *. cbn [first_refused insert_keys].
  pose proof Hok as [Hok1 _]%Forall_app. pose proof Hd as Hd1. unfold distinct in Hd1. rewrite fmap_app in Hd1. apply NoDup_app in Hd1 as [Hd1 _].
  pose proof Hf as [Hf1 _]%Forall_app. pose proof Hc as [Hc1 _]%Forall_app.
  pose proof Hok1 as [Hok0 Hokk]%Forall_app. pose proof Hf1 as [Hf0 Hfk]%Forall_app. pose proof Hc1 as [Hc0 _]%Forall_app.
  rewrite Forall_singleton in Hokk, Hfk.
  pose proof (insert_one es (own_entries done) key t cur Hh Hp Hokk (own_entries_other key done Hok1 Hd1) Hfk) as Hi.
  assert (Hfail : forall x : idx_error, exists t' cur', ((t ← remove_all done loc dupsAllowed t;
      Ret (Some x, if (length done =? 0)%nat then Z.of_nat (length (own_entries done)) else 0, t)) : outcome idx_error (option idx_error * Z * T)) = Ret (Some x, 0, t') /\ sd_holds t' cur' /\ cur' ≡ₚ es).
  { intros x. destruct (remove_all_spec done Hok0 t cur Hh) as (t' & cur' & -> & Hh' & Hp'). rewrite bind_Ret.
    exists t', cur'. split; [by destruct done|]. split; [done|]. rewrite Hp', Hp. by rewrite cleanup. }
  specialize (fun Hn t' cur' => IH (done ++ [key]) t' cur' Hok Hd Hf Hc (proj2 (Forall_app _ _ _) (conj Hr (proj2 (Forall_singleton _ _) Hn)))).
  rewrite own_entries_snoc in IH. unfold refused at 1. unfold refused in IH at 1.
  destruct (short key) eqn:Es; cbn [negb] in Hi, IH |- *.
  - destruct (negb dupsAllowed && existsb (key_eqb (own key)) es).
    + rewrite Hi. cbn. apply Hfail.
    + destruct Hi as (t1 & cur1 & -> & Hh1 & Hp1). specialize (IH eq_refl t1 cur1 Hh1).
      rewrite length_app in IH. replace (Z.of_nat (length (own_entries done)) + 1) with (Z.of_nat (length (own_entries done) + length [own key])) by (cbn; lia).
      apply IH. rewrite Hp1, <- app_assoc. cbn [app]. apply Permutation_middle.
  - rewrite Hi. cbn [is_status negb andb]. rewrite app_nil_r in IH. destruct ignoreKeyTooLong; cbn [andb].
    + by apply (IH eq_refl t cur).
    + apply Hfail.
Qed.


(** *** Updates *)

Lemma insert_added_spec (es : list entry) : forall keys done t cur,
  keys_ok (done ++ keys) -> distinct (done ++ keys) -> fresh es (done ++ keys) -> sd_holds t cur -> cur ≡ₚ own_entries done ++ es ->
  exists t' cur', insert_added ignoreKeyTooLong keys loc dupsAllowed t = Ret (first_refused es keys, t') /\ sd_holds t' cur' /\
    (first_refused es keys = None -> cur' ≡ₚ own_entries (done ++ keys) ++ es).
Proof using H0 Hdups.
  induction keys as [|key keys IH]; intros done t cur Hok Hd Hf Hh Hp.
  { rewrite app_nil_r in *. by exists t, cur. }
  assert (Easoc : done ++ key :: keys = (done ++ [key]) ++ keys) by (by rewrite <- app_assoc).
  rewrite Easoc in *. cbn [first_refused insert_added].
  pose proof Hok as [Hok1 _]%Forall_app. pose proof Hd as Hd1. unfold distinct in Hd1. rewrite fmap_app in Hd1. apply NoDup_app in Hd1 as [Hd1 _].
  pose proof Hf as [Hf1 _]%Forall_app. pose proof Hok1 as [Hok0 Hokk]%Forall_app. pose proof Hf1 as [Hf0 Hfk]%Forall_app.
  rewrite Forall_singleton in Hokk, Hfk.
  pose proof (insert_one es (own_entries done) key t cur Hh Hp Hokk (own_entries_other key done Hok1 Hd1) Hfk) as Hi.
  specialize (fun t' cur' => IH (done ++ [key]) t' cur' Hok Hd Hf). rewrite own_entries_snoc in IH. unfold refused at 1 2.
  destruct (short key) eqn:Es; cbn [negb] in Hi, IH |- *.
  - destruct (negb dupsAllowed && existsb (key_eqb (own key)) es).
    + rewrite Hi. cbn. by exists t, cur.
    + destruct Hi as (t1 & cur1 & -> & Hh1 & Hp1). apply (IH t1 cur1 Hh1). rewrite Hp1, <- app_assoc. cbn [app]. apply Permutation_middle.
  - rewrite Hi. cbn [is_status negb andb]. rewrite app_nil_r in IH. destruct ignoreKeyTooLong; cbn [andb].
    + by apply (IH t cur).
    + by exists t, cur.
Qed.

End insert.

(** The entries of other records: they have other keys when duplicates are not allowed. *)
Definition others_apart (keys : keys_set) (others : list entry) : Prop :=
  Forall (fun x : entry => x.2 <> loc /\ (dupsAllowed = false -> Forall (fun key => key_eqb (own key) x = false) keys)) others.
Lemma own_entries_app (a b : keys_set) : own_entries (a ++ b) = own_entries a ++ own_entries b.
Proof using Type. clear Hdups. unfold own_entries. by rewrite filter_app, fmap_app. Qed.
Lemma own_entries_perm (a b : keys_set) : a ≡ₚ b -> own_entries a ≡ₚ own_entries b.
Proof using Type. clear Hdups. intros Hp. unfold own_entries. by rewrite Hp. Qed.
Lemma own_entries_in (x : entry) (keys : keys_set) : x ∈ own_entries keys -> exists key, key ∈ keys /\ x = own key.
Proof using Type. clear Hdups. intros (key & -> & [_ Hk]%list_elem_of_filter)%list_elem_of_fmap. by exists key. Qed.
Lemma unindexed (removed kept : keys_set) (others : list entry) : keys_ok (removed ++ kept) -> distinct (removed ++ kept) ->
  others_apart (removed ++ kept) others ->
  filter (fun x => hit_by removed x = false) (own_entries (removed ++ kept) ++ others) = own_entries kept ++ others.
Proof using Type.
  clear Hdups. intros Hok Hd Ho. unfold distinct in Hd. rewrite fmap_app in Hd. rewrite own_entries_app. apply NoDup_app in Hd as (_ & Hd & _).
  unfold keys_ok in Hok. rewrite Forall_app, !Forall_forall in Hok. destruct Hok as [Hokr Hokk].
  rewrite !filter_app, (filter_nothing _ (own_entries removed)), !filter_all; [done| | |].
  - eapply Forall_impl; [exact Ho|]. intros x [Hid Hx]. apply existsb_Forall. apply Forall_forall. intros r Hr. unfold hit. destruct dupsAllowed.
    + rewrite entry_eqb_key. unfold same_id. cbn [own snd]. destruct (Z.eqb_spec loc x.2); [congruence|]. apply andb_false_r.
    + specialize (Hx eq_refl). apply Forall_app in Hx as [Hx _]. rewrite Forall_forall in Hx. by apply Hx.
  - apply Forall_forall. intros x (k & Hk & ->)%own_entries_in. apply existsb_Forall, Forall_forall. intros r Hr. apply not_true_iff_false. intros Hh%hit_key.
    rewrite (key_eqb_bytes D ver kp ord) in Hh by auto. apply bool_decide_eq_true in Hh.
    apply (Hd (key_of (own r))); [apply list_elem_of_fmap; by exists r|]. rewrite Hh. apply list_elem_of_fmap. by exists k.
  - apply Forall_forall. intros x (r & Hr & ->)%own_entries_in Hno. apply existsb_Forall in Hno. rewrite Forall_forall in Hno. specialize (Hno r Hr).
    rewrite hit_self in Hno by auto. done.
Qed.
(** The keys that stay do not meet those that are added. *)
Lemma same_key_of (a b : list field) : entry_ok (own a) -> entry_ok (own b) -> same D a b = true -> key_of (own a) = key_of (own b).
Proof using Type.
  clear Hdups. intros (Ha & _) (Hb & _) Hs. destruct (obj_compare_bytes D ver a b Ha Hb) as (z & Hz & Hzo & _). unfold same in Hs. rewrite Hz in Hs.
  apply andb_true_iff in Hs as [->%Z.eqb_eq _]. apply (equal_any_order D 0 ord a b 1 1) in Hzo.
  destruct (keys_lexcmp D ver ord a b [] [] (proj1 Ha) (proj1 Hb)) as (z1 & Hz1 & Hc). rewrite Hzo in Hz1. injection Hz1 as <-.
  by apply SD.lexcmp_eq.
Qed.
Lemma added_apart (added kept keptNew : keys_set) : keys_ok (added ++ keptNew) -> distinct (added ++ keptNew) -> keys_ok kept ->
  Forall2 (fun a b => same D a b = true) kept keptNew ->
  Forall (fun key => Forall (fun x => key_eqb (own key) x = false) (own <$> kept)) added.
Proof using Type.
  intros Hok Hd Hkept Hk. unfold distinct in Hd. rewrite fmap_app in Hd. apply NoDup_app in Hd as (_ & Hd & _).
  unfold keys_ok in Hok, Hkept. rewrite Forall_app, !Forall_forall in Hok. destruct Hok as [Hoka Hokn]. rewrite Forall_forall in Hkept.
  apply Forall_forall. intros a Ha. apply Forall_fmap, Forall_forall. intros k Hin. cbn.
  apply list_elem_of_lookup in Hin as [i Hi]. destruct (Forall2_lookup_l _ _ _ _ _ Hk Hi) as (n & Hn & Hs).
  apply list_elem_of_lookup_2 in Hi, Hn. rewrite (key_eqb_bytes D ver kp ord) by auto. apply bool_decide_eq_false_2. intros E.
  apply (Hd (key_of (own a))); [apply list_elem_of_fmap; by exists a|]. rewrite E, (same_key_of k n) by auto. apply list_elem_of_fmap. by exists n.
Qed.

Lemma first_refused_agree (ignoreKeyTooLong : bool) (es es' : list entry) (keys : keys_set) :
  Forall (fun key => existsb (key_eqb (own key)) es = existsb (key_eqb (own key)) es') keys ->
  first_refused ignoreKeyTooLong es keys = first_refused ignoreKeyTooLong es' keys.
Proof using Type. induction 1 as [|key keys E _ IH]; [done|]. cbn [first_refused]. unfold refused. by rewrite E, IH. Qed.
(** Keys with the same bytes are both short enough or both too long. *)
Lemma kept_short (kept keptNew : keys_set) : Forall2 (fun a b => same D a b = true) kept keptNew ->
  Forall2 (fun a b => binaryEqual a b = true) (filter (fun key => short key = true) kept) (filter (fun key => short key = true) keptNew).
Proof using Type.
  clear Hdups. induction 1 as [|a b kept keptNew Hab _ IH]; [constructor|].
  assert (Hb : binaryEqual a b = true).
  { unfold same in Hab. destruct (Cmp.woCompare _ _ _ _ _ _); [|done]. by apply andb_true_iff in Hab as [_ ?]. }
  assert (Hs : short a = short b).
  { apply andb_true_iff in Hb as [E%Nat.eqb_eq _]. unfold short, checkKeySize. by rewrite E. }
  rewrite !filter_cons, Hs. destruct (short b); [|done]. by constructor.
Qed.
(** The two loops of [update]. *)
Lemma replace_keys (ignoreKeyTooLong : bool) (t : T) (es others : list entry) (rem add kept keptNew : keys_set) : sd_holds t es ->
  es ≡ₚ own_entries (rem ++ kept) ++ others -> others_apart (rem ++ kept) others -> keys_ok (rem ++ kept) -> distinct (rem ++ kept) ->
  keys_ok (add ++ keptNew) -> distinct (add ++ keptNew) -> Forall2 (fun a b => same D a b = true) kept keptNew ->
  exists t1 t' es', unindex_keys rem loc dupsAllowed t = Ret t1 /\
    insert_added ignoreKeyTooLong add loc dupsAllowed t1 = Ret (first_refused ignoreKeyTooLong others add, t') /\ sd_holds t' es' /\
    (first_refused ignoreKeyTooLong others add = None -> es' ≡ₚ own_entries (kept ++ add) ++ others).
Proof using H0 Hdups.
  intros Hh Hes Ho Hok Hd Hok' Hd' Hk. pose proof Hok as [Hokr Hokk]%Forall_app. pose proof Hok' as [Hoka Hokn]%Forall_app.
  destruct (unindex_keys_spec rem Hokr t es Hh) as (t1 & es1 & E1 & Hh1 & Hp1). rewrite Hes, (unindexed rem kept others Hok Hd Ho) in Hp1.
  assert (Hap : Forall (fun key => Forall (fun x => key_eqb (own key) x = false) (own_entries kept)) add).
  { eapply Forall_impl; [exact (added_apart add kept keptNew Hok' Hd' Hokk Hk)|]. intros key Hkey. cbv beta in Hkey. rewrite Forall_forall in Hkey.
    apply Forall_forall. intros x (k & Hin & ->)%own_entries_in. apply Hkey, list_elem_of_fmap. by exists k. }
  assert (Hf : fresh (own_entries kept ++ others) add).
  { eapply Forall_impl; [exact Hap|]. intros key Hkey. cbv beta in Hkey. rewrite existsb_app. apply orb_false_iff. rewrite !existsb_Forall. split.
    - eapply Forall_impl; [exact Hkey|]. intros x Hx. cbv beta in Hx. by rewrite entry_eqb_key, Hx.
    - eapply Forall_impl; [exact Ho|]. intros x [Hid _]. rewrite entry_eqb_key. unfold same_id. cbn [own snd].
      destruct (Z.eqb_spec loc x.2); [congruence|]. apply andb_false_r. }
  assert (Eq : first_refused ignoreKeyTooLong (own_entries kept ++ others) add = first_refused ignoreKeyTooLong others add).
  { apply first_refused_agree. eapply Forall_impl; [exact Hap|]. intros key Hkey. cbv beta in Hkey. rewrite existsb_app.
    apply existsb_Forall in Hkey. by rewrite Hkey. }
  unfold distinct in Hd'. rewrite fmap_app in Hd'. apply NoDup_app in Hd' as [Hda _].
  destruct (insert_added_spec ignoreKeyTooLong (own_entries kept ++ others) add [] t1 es1 Hoka Hda Hf Hh1 Hp1) as (t' & es' & E2 & Hh' & Hp2).
  rewrite Eq in E2, Hp2. exists t1, t', es'. split; [done|]. split; [done|]. split; [done|]. intros Hnone. rewrite (Hp2 Hnone). cbn [app].
  by rewrite own_entries_app, app_assoc, (Permutation_app_comm (own_entries add)), <- app_assoc.
Qed.


(** [setDifference] of two sets of keys returns exactly the keys of each that are not, equal
    and with the same bytes, in the other one. *)
Theorem setDifference_exact (left right : keys_set) : Forall (stored_key ver) left -> Forall (stored_key ver) right ->
  StronglySorted (obj_lt D) left -> StronglySorted (obj_lt D) right ->
  setDifference D left right = Some (filter (fun k => in_right D right k = false) left, filter (fun k => in_left D left k = false) right).
Proof using Type. intros Hl Hr Hsl Hsr. by apply (setDifference_filters D ver). Qed.

(** [remove] takes the entries of the keys away, and counts the keys. *)
Lemma remove_exact (t : T) (es : list entry) (keys : keys_set) : sd_holds t es -> keys_ok keys ->
  exists t' es', Am.remove keys loc dupsAllowed t = Ret (Z.of_nat (length keys), t') /\ sd_holds t' es' /\
    es' ≡ₚ filter (fun x => hit_by keys x = false) es.
Proof using H0 Hdups.
  intros Hh Hok. destruct (remove_all_spec keys Hok t es Hh) as (t' & es' & E & Hh' & Hp). unfold Am.remove. rewrite E, bind_Ret. by exists t', es'.
Qed.

End method.
End AmProofs.

(** ** The two kinds of WiredTiger index *)
Module Wired.
Import Tab Idx Sdi Am AmProofs Walk Groups.

Section indexes.
Context {T : Type} `{WtLaws T}.
Variable D : Cmp.Decimal128.
Variable enc : bytes -> bool -> KS.KeyString -> outcome ks_error KS.KeyString.
Variable ver : Version.
Variable kp : list field.
Variable ord : Z.
Variable junk : list Z.
Hypothesis Hjunk : length junk = 128%nat.

Definition standard_index : SortedDataInterface T :=
  {| sd_insert := Idx.insert enc ver ord junk; sd_unindex := Idx.unindex enc ver ord junk |}.
Definition unique_index : SortedDataInterface T :=
  {| sd_insert := Uniq.insert enc ver ord junk; sd_unindex := Uniq.unindex enc ver ord junk |}.

Lemma standard_laws : @SortedDataLaws T standard_index D ver kp ord false (holds ver kp ord false).
Proof using Hjunk H0.
  split.
  - by intros t es [_ Hok].
  - intros t es e dupsAllowed Hh He Hd. cbn in Hd. subst dupsAllowed. cbn [sd_insert standard_index].
    destruct (checkKeySize e.1) eqn:Es; cbn [negb].
    + destruct (insert_adds D enc ver kp ord junk Hjunk t es e Hh He Es) as (t' & es' & E & Hh' & Hp).
      destruct (existsb (entry_eqb D ord e) es); [by destruct Hp as [-> _]|]. by exists t', es'.
    + unfold Idx.insert. destruct He as (_ & _ & ->). cbn [verify]. by rewrite bind_Ret, Es.
  - intros t es e dupsAllowed Hh He Hd. cbn in Hd. subst dupsAllowed. by apply (unindex_removes D enc ver kp ord junk Hjunk).
Qed.
Lemma unique_laws : @SortedDataLaws T unique_index D ver kp ord true (stores ver kp ord).
Proof using Hjunk H0.
  split.
  - intros t es. apply stores_ok.
  - intros t es e dupsAllowed Hst He _. cbn [sd_insert unique_index]. destruct (checkKeySize e.1) eqn:Es; cbn [negb].
    + pose proof (unique_insert_cases D enc ver kp ord junk Hjunk t es e dupsAllowed Hst He Es) as Hi.
      destruct (existsb (entry_eqb D ord e) es); [done|]. rewrite andb_comm in Hi. destruct (negb dupsAllowed && _); [done|].
      destruct Hi as (t' & es' & E & Hs & Hp & _). by exists t', es'.
    + unfold Uniq.insert. destruct He as (_ & _ & ->). cbn [verify]. by rewrite bind_Ret, Es.
  - intros t es e dupsAllowed Hst He _. destruct (unindex_leaves D enc ver kp ord junk Hjunk t es e dupsAllowed Hst He) as (t' & es' & E & Hs & Hp).
    exists t', es'. split; [done|]. split; [done|]. by destruct dupsAllowed.
Qed.
End indexes.
End Wired.

(** ** Concrete calls *)
Module AmDemo.
Import Tab Idx Sdi Am AmProofs Wired Walk Groups Mem Demo.

Abbreviation junk0 := (replicate 128 0).
(** A unique index with the records 8 and 9. *)
Definition two_keys : list (list entry) := [[(int_key 2 7, 8)]; [(int_key 5 5, 9)]].
Definition unique_table : table := list_to_map (group_row V1 2 <$> two_keys).
Abbreviation U := (unique_index (T := table) Keys.no_append V1 2 junk0).
Abbreviation UL := (unique_laws (T := table) Pattern.no_decimal Keys.no_append V1 Sets.demo_pattern 2 junk0 eq_refl).
Abbreviation keep := (fun (_ : MultikeyPaths) (m : unit) => m).
Lemma two_keys_stored : stores V1 Sets.demo_pattern 2 unique_table (concat two_keys).
Proof.
  exists two_keys. split; [done|]. split; [vm_compute; reflexivity|].
  do 2 (apply Forall_cons; split; [apply group_one, int_entry_ok; [lia|lia|done]|]). by apply Forall_nil.
Qed.
Definition some_keys : keys_set := [int_key 1 1; int_key 5 5].
Definition new_keys : keys_set := [int_key 2 7; int_key 3 3].
Lemma int_keys_ok (loc a b c d : Z) : isNormal loc = true -> - 2 ^ 31 <= a < 2 ^ 31 -> - 2 ^ 31 <= b < 2 ^ 31 -> - 2 ^ 31 <= c < 2 ^ 31 -> - 2 ^ 31 <= d < 2 ^ 31 ->
  keys_ok V1 Sets.demo_pattern loc [int_key a b; int_key c d].
Proof. intros. do 2 (apply Forall_cons; split; [by apply int_entry_ok|]). by apply Forall_nil. Qed.
Lemma some_keys_sorted : StronglySorted (obj_lt Pattern.no_decimal) some_keys.
Proof. repeat constructor; eexists; (split; [vm_compute; reflexivity|lia]). Qed.
Lemma new_keys_sorted : StronglySorted (obj_lt Pattern.no_decimal) new_keys.
Proof. repeat constructor; eexists; (split; [vm_compute; reflexivity|lia]). Qed.

Lemma some_keys_fresh : fresh Pattern.no_decimal 2 12 (concat two_keys) some_keys.
Proof. do 2 (apply Forall_cons; split; [vm_compute; reflexivity|]). by apply Forall_nil. Qed.
Lemma some_keys_clean : clean Pattern.no_decimal 2 12 false false (concat two_keys) some_keys.
Proof. do 2 (apply Forall_cons; split; [intros E; vm_compute in E; discriminate E|]). by apply Forall_nil. Qed.

Lemma setDifference_exact_witness :
  setDifference Pattern.no_decimal some_keys new_keys = Some (some_keys, new_keys).
Proof.
  rewrite (setDifference_exact Pattern.no_decimal V1 some_keys new_keys).
  - vm_compute. reflexivity.
  - eapply Forall_impl; [exact (int_keys_ok 1 1 1 5 5 eq_refl ltac:(lia) ltac:(lia) ltac:(lia) ltac:(lia))|]. by intros k (Hk & _).
  - eapply Forall_impl; [exact (int_keys_ok 1 2 7 3 3 eq_refl ltac:(lia) ltac:(lia) ltac:(lia) ltac:(lia))|]. by intros k (Hk & _).
  - exact some_keys_sorted.
  - exact new_keys_sorted.
Defined.

(** An update that is refused has removed the old keys: record 8 has lost its key when its new one
    is that of record 9. *)
Example refused_update_removes_keys : exists ticket t,
  validateUpdate Pattern.no_decimal true true (Ret ([int_key 2 7], [])) (Ret ([int_key 5 5], [])) 8 false = Ret ticket /\
  @Am.update table U unit keep false ticket (unique_table, tt) = Ret (Some (Some DuplicateKey, 0, 0), (t, tt)) /\
  wt_rows t = [group_row V1 2 [(int_key 5 5, 9)]].
Proof. eexists _, _. split; [vm_compute; reflexivity|]. split; vm_compute; reflexivity. Qed.

(** Keys of a long string and a number: with the number in 32 bits the key can be stored, with
    the same number in 64 bits it is too long. *)
Definition long_key (v : value) : list field := [([], VString (replicate 1003 97)); ([], v)].
Definition long_groups : list (list entry) := [[(long_key (VInt 9), 9)]; [(long_key (VInt 1), 8)]].
Definition long_table : table := list_to_map (group_row V1 2 <$> long_groups).
(** The cleanup of a refused [insert] takes the key of record 8 away: the key of the new document
    that equals it was skipped because it is too long, and is removed with the others. *)
Example cleanup_takes_other_record :
  bool_decide (wt_rows long_table = group_row V1 2 <$> long_groups) = true /\
  match @Am.insert table U unit keep true true [long_key (VLong 1); long_key (VInt 9)] [] 12 false (long_table, tt) with
  | Ret (Some DuplicateKey, 0, (t, tt)) => bool_decide (wt_rows t = [group_row V1 2 [(long_key (VInt 9), 9)]])
  | _ => false
  end = true.
Proof. split; vm_compute; reflexivity. Qed.
(** [update] counts a key that it has skipped because it is too long. *)
Example skipped_key_is_counted :
  match validateUpdate Pattern.no_decimal true true (Ret ([], [])) (Ret ([long_key (VLong 2)], [])) 12 false with
  | Ret ticket =>
      match @Am.update table U unit keep true ticket (long_table, tt) with
      | Ret (Some (None, 1, 0), (t, tt)) => bool_decide (wt_rows t = wt_rows long_table)
      | _ => false
      end
  | _ => false
  end = true.
Proof. vm_compute. reflexivity. Qed.
End AmDemo.
