(* ===== verification/IndexScan.v ===== *)
(** * The index scan

    The stage [IXSCAN] of [db/exec/index_scan.cpp] over an index: [Module Scan] holds
    [isSingleInterval] of [db/query/index_bounds_builder.cpp] and the stage, [Module Exact] the
    theorems, that the stage returns exactly the entries of the index that are in the
    bounds, in the order of the scan. *)
From Stdlib Require Import ZArith Lia Bool.
From stdpp Require Import base list option sorting gmap.
From S2P Require Import Prelude StringData Bson BsonCompare KeyString KeyStringOrder KeyStringRefine KeyStringDecode IndexBounds BoundsChecker WtIndex.
Open Scope Z_scope.

Module Scan.
Import IB Chk Tab Idx.

Section single.
Variable D : Cmp.Decimal128.

(** [isSingleInterval]. The points at the front: the keys built of them and the fields that are
    left; [None] is a failed [verify]. *)
Fixpoint skip_points (oils : list OrderedIntervalList) : option (list field * list field * list OrderedIntervalList) :=
  match oils with
  | [] => Some ([], [], [])
  | oil :: oils' =>
      match intervals oil with
      | [i] =>
          if negb (isPoint D i) then Some ([], [], oils)
          else
            s ← start i; e ← end_ i;
            '(ss, es, rest) ← skip_points oils';
            Some (s :: ss, e :: es, rest)
      | _ => Some ([], [], oils)
      end
  end.
(** The intervals that contain all values at the end; the inner [None] is the result [false]. *)
Fixpoint all_values_fields (startKeyInclusive endKeyInclusive : bool) (oils : list OrderedIntervalList) :
    option (option (list field * list field)) :=
  match oils with
  | [] => Some (Some ([], []))
  | oil :: oils' =>
      match intervals oil with
      | [i] =>
          minMax ← allValues;
          let maxMin := reverse_interval minMax in
          let minKey : field := ([], VMinKey) in
          let maxKey : field := ([], VMaxKey) in
          let cons s e :=
            r ← all_values_fields startKeyInclusive endKeyInclusive oils';
            Some (option_map (fun '(ss, es) => (s :: ss, e :: es)) r) in
          if equals D i minMax then
            cons (if negb startKeyInclusive then maxKey else minKey) (if negb endKeyInclusive then minKey else maxKey)
          else if equals D i maxMin then
            cons (if negb startKeyInclusive then minKey else maxKey) (if negb endKeyInclusive then maxKey else minKey)
          else Some None
      | _ => Some None
      end
  end.
(** The inclusivity of the start and of the end, which is set in any case, and the two keys; the
    inner [None] is the result [false]. *)
Definition isSingleInterval (bounds : IndexBounds) : option (bool * bool * option (list field * list field)) :=
  '(ss, es, rest) ← skip_points (fields bounds);
  match rest with
  | [] => Some (true, true, Some (ss, es))
  | nonPoint :: rest' =>
      match intervals nonPoint with
      | [i] =>
          s ← start i; e ← end_ i;
          r ← all_values_fields (startInclusive i) (endInclusive i) rest';
          Some (startInclusive i, endInclusive i, option_map (fun '(ss', es') => (ss ++ s :: ss', es ++ e :: es')) r)
      | _ => Some (true, true, None)
      end
  end.
End single.

(** ** The stage *)

Record IndexScanParams := mkParams {
  bounds : IndexBounds;
  direction : Z;
  doNotDedup : bool;
  maxScan : Z
}.
Inductive ScanState := INITIALIZING | NEED_SEEK | GETTING_NEXT | HIT_END.
(** [ADVANCED] with the key and the record id of the member of the working set. *)
Inductive StageState := ADVANCED (kv : list field * Z) | NEED_TIME | NEED_YIELD | IS_EOF.

Record IndexScanStats := mkStats { keysExamined : Z; seeks : Z; dupsTested : Z; dupsDropped : Z; seenInvalidated : Z }.
Record IndexScan := mkScan {
  _scanState : ScanState;
  _shouldDedup : bool;
  _returned : gset Z;
  _indexCursor : option IndexCursor;
  _checker : option IndexBoundsChecker;
  _seekPoint : IndexSeekPoint;
  _startKey : list field;
  _endKey : list field;
  _startKeyInclusive : bool;
  _endKeyInclusive : bool;
  _specificStats : IndexScanStats;
  _isEOF : bool
}.

(** Assignments to fields. *)
Definition set_state (v : ScanState) (s : IndexScan) : IndexScan :=
  mkScan v (_shouldDedup s) (_returned s) (_indexCursor s) (_checker s) (_seekPoint s) (_startKey s) (_endKey s)
    (_startKeyInclusive s) (_endKeyInclusive s) (_specificStats s) (_isEOF s).
Definition set_dedup (v : bool) (s : IndexScan) : IndexScan :=
  mkScan (_scanState s) v (_returned s) (_indexCursor s) (_checker s) (_seekPoint s) (_startKey s) (_endKey s)
    (_startKeyInclusive s) (_endKeyInclusive s) (_specificStats s) (_isEOF s).
Definition set_returned (v : gset Z) (s : IndexScan) : IndexScan :=
  mkScan (_scanState s) (_shouldDedup s) v (_indexCursor s) (_checker s) (_seekPoint s) (_startKey s) (_endKey s)
    (_startKeyInclusive s) (_endKeyInclusive s) (_specificStats s) (_isEOF s).
Definition set_cursor (v : option IndexCursor) (s : IndexScan) : IndexScan :=
  mkScan (_scanState s) (_shouldDedup s) (_returned s) v (_checker s) (_seekPoint s) (_startKey s) (_endKey s)
    (_startKeyInclusive s) (_endKeyInclusive s) (_specificStats s) (_isEOF s).
Definition set_checker (v : IndexBoundsChecker) (p : IndexSeekPoint) (s : IndexScan) : IndexScan :=
  mkScan (_scanState s) (_shouldDedup s) (_returned s) (_indexCursor s) (Some v) p (_startKey s) (_endKey s)
    (_startKeyInclusive s) (_endKeyInclusive s) (_specificStats s) (_isEOF s).
Definition set_keys (sk ek : list field) (s : IndexScan) : IndexScan :=
  mkScan (_scanState s) (_shouldDedup s) (_returned s) (_indexCursor s) (_checker s) (_seekPoint s) sk ek
    (_startKeyInclusive s) (_endKeyInclusive s) (_specificStats s) (_isEOF s).
Definition set_inclusive (si ei : bool) (s : IndexScan) : IndexScan :=
  mkScan (_scanState s) (_shouldDedup s) (_returned s) (_indexCursor s) (_checker s) (_seekPoint s) (_startKey s) (_endKey s)
    si ei (_specificStats s) (_isEOF s).
Definition set_stats (v : IndexScanStats) (s : IndexScan) : IndexScan :=
  mkScan (_scanState s) (_shouldDedup s) (_returned s) (_indexCursor s) (_checker s) (_seekPoint s) (_startKey s) (_endKey s)
    (_startKeyInclusive s) (_endKeyInclusive s) v (_isEOF s).
Definition set_eof (s : IndexScan) : IndexScan :=
  mkScan (_scanState s) (_shouldDedup s) (_returned s) (_indexCursor s) (_checker s) (_seekPoint s) (_startKey s) (_endKey s)
    (_startKeyInclusive s) (_endKeyInclusive s) (_specificStats s) true.

(** The counters, each of them one more. *)
Definition count_seek (s : IndexScan) : IndexScan :=
  let st := _specificStats s in
  set_stats (mkStats (keysExamined st) (seeks st + 1) (dupsTested st) (dupsDropped st) (seenInvalidated st)) s.
Definition count_key (s : IndexScan) : IndexScan :=
  let st := _specificStats s in
  set_stats (mkStats (keysExamined st + 1) (seeks st) (dupsTested st) (dupsDropped st) (seenInvalidated st)) s.
Definition count_tested (s : IndexScan) : IndexScan :=
  let st := _specificStats s in
  set_stats (mkStats (keysExamined st) (seeks st) (dupsTested st + 1) (dupsDropped st) (seenInvalidated st)) s.
Definition count_dropped (s : IndexScan) : IndexScan :=
  let st := _specificStats s in
  set_stats (mkStats (keysExamined st) (seeks st) (dupsTested st) (dupsDropped st + 1) (seenInvalidated st)) s.
Definition count_invalidated (s : IndexScan) : IndexScan :=
  let st := _specificStats s in
  set_stats (mkStats (keysExamined st) (seeks st) (dupsTested st) (dupsDropped st) (seenInvalidated st + 1)) s.

Section scan.
Context {T : Type} `{WtTable T}.
Variable D : Cmp.Decimal128.
Variable enc : bytes -> bool -> KS.KeyString -> outcome ks_error KS.KeyString.
Variable dec : Z -> bool -> KD.st -> KD.res (value * KD.st).
Variable ver : Version.
Variable ord : Z.
Variable junk : list Z.
(** The key pattern of the index, whether it is unique and whether it is multikey, and the filter on
    its keys. *)
Variable _keyPattern : list field.
Variable isUnique : bool.
Variable isMultikey : bool.
Variable _filter : option (list field -> bool).
Variable _params : IndexScanParams.

Definition scan_forward : bool := direction _params =? 1.
Definition make_scan : IndexScan :=
  mkScan INITIALIZING true ∅ None None IndexSeekPoint_init [] []
    (isStartIncludedInBound (boundInclusion (bounds _params))) (isEndIncludedInBound (boundInclusion (bounds _params)))
    (mkStats 0 0 0 0 0) false.

(** From one key to another: the end of the cursor is set, and the cursor is moved to the
    start. *)
Definition start_range (t : T) (c : IndexCursor) (s : IndexScan) : outcome idx_error (option (list field * Z) * IndexScan) :=
  c ← setEndPosition enc ver ord junk (_endKey s) (_endKeyInclusive s) c;
  '(kv, c) ← seek enc dec ver ord (_startKey s) (_startKeyInclusive s) t c;
  Ret (kv, set_cursor (Some c) s).

Definition initIndexScan (t : T) (s : IndexScan) : outcome idx_error (option (list field * Z) * IndexScan) :=
  let s := set_dedup (if doNotDedup _params then false else isMultikey) s in
  let c := newCursor ver junk isUnique scan_forward in
  let s := count_seek (set_cursor (Some c) s) in
  let b := bounds _params in
  if isSimpleRange b then start_range t c (set_keys (startKey b) (endKey b) s)
  else
    match isSingleInterval D b with
    | None => Fault
    | Some (si, ei, Some (sk, ek)) => start_range t c (set_keys sk ek (set_inclusive si ei s))
    | Some (si, ei, None) =>
        let s := set_inclusive si ei s in
        let checker := make_checker D b _keyPattern (direction _params) in
        match getStartSeekPoint checker (_seekPoint s) with
        | None => Ret (None, set_checker checker (_seekPoint s) s)
        | Some p =>
            '(kv, c) ← seek_point enc dec ver ord p t c;
            Ret (kv, set_cursor (Some c) (set_checker checker p s))
        end
    end.

(** The next entry, by the state of the scan. *)
Definition fetch (t : T) (s : IndexScan) : outcome idx_error (option (list field * Z) * IndexScan) :=
  match _scanState s with
  | INITIALIZING => initIndexScan t s
  | GETTING_NEXT =>
      match _indexCursor s with
      | None => Fault
      | Some c => '(kv, c) ← next dec ord t c; Ret (kv, set_cursor (Some c) s)
      end
  | NEED_SEEK =>
      match _indexCursor s with
      | None => Fault
      | Some c =>
          '(kv, c) ← seek_point enc dec ver ord (_seekPoint s) t c;
          Ret (kv, set_cursor (Some c) (count_seek s))
      end
  | HIT_END => Fault
  end.
(** What is left of a call of [next] that throws: the cursor has moved, and has kept its key.
    No other call throws a [WriteConflictException] here. *)
Definition conflicted (t : T) (s : IndexScan) : IndexScan :=
  match _indexCursor s with
  | None => s
  | Some c =>
      let c := if negb (_lastMoveWasRestore c) then advanceWTCursor t c else c in
      set_cursor (Some (mkCursor (is_unique c) (_forward c) (wt_pos c) (_key c) (_typeBits c) (_id c) false (_cursorAtEof c) false
                          (_query c) (_endPosition c))) s
  end.

Definition hit_end (s : IndexScan) : StageState * IndexScan := (IS_EOF, set_cursor None (set_eof (set_state HIT_END s))).
(** What [doWork] does with an entry in the bounds. *)
Definition emit (kv : list field * Z) (s : IndexScan) : StageState * IndexScan :=
  let s := set_state GETTING_NEXT s in
  let filtered s := (if match _filter with None => true | Some f => f kv.1 end then ADVANCED kv else NEED_TIME, s) in
  if _shouldDedup s then
    let s := count_tested s in
    if decide (kv.2 ∈ _returned s) then (NEED_TIME, count_dropped s)
    else filtered (set_returned ({[kv.2]} ∪ _returned s) s)
  else filtered s.
Definition process (kv : option (list field * Z)) (s : IndexScan) : outcome idx_error (StageState * IndexScan) :=
  match kv with
  | None => Ret (hit_end s)
  | Some kv =>
      let s := count_key s in
      if negb (maxScan _params =? 0) && (maxScan _params <=? keysExamined (_specificStats s)) then Ret (hit_end s)
      else
        match _checker s with
        | None => Ret (emit kv s)
        | Some chk =>
            match checkKey D chk kv.1 (_seekPoint s) with
            | None => Fault
            | Some (st, chk, p) =>
                let s := set_checker chk p s in
                match st with
                | VALID => Ret (emit kv s)
                | DONE => Ret (hit_end s)
                | MUST_ADVANCE => Ret (NEED_TIME, set_state NEED_SEEK s)
                end
            end
        end
  end.

(** [doWork]. A [WriteConflictException] makes the stage yield. *)
Definition doWork (t : T) (s : IndexScan) : outcome idx_error (StageState * IndexScan) :=
  match _scanState s with
  | HIT_END => Ret (IS_EOF, s)
  | _ =>
      match fetch t s with
      | Ret (kv, s) => process kv s
      | Throw WriteConflict => Ret (NEED_YIELD, conflicted t s)
      | Throw e => Throw e
      | Fault => Fault
      | NoFuel => NoFuel
      end
  end.

Definition doSaveState (s : IndexScan) : IndexScan :=
  match _indexCursor s with
  | None => s
  | Some c => set_cursor (Some (match _scanState s with NEED_SEEK => saveUnpositioned c | _ => save c end)) s
  end.
Definition doRestoreState (t : T) (s : IndexScan) : IndexScan :=
  match _indexCursor s with
  | None => s
  | Some c => set_cursor (Some (restore t c)) s
  end.
(** [doInvalidate]; the two types of invalidation are a mutation and a deletion. *)
Definition doInvalidate (dl : Z) (mutation : bool) (s : IndexScan) : IndexScan :=
  if mutation then s
  else if decide (dl ∈ _returned s) then set_returned (_returned s ∖ {[dl]}) (count_invalidated s)
  else s.

(** A caller that works the stage until its end, and yields before the calls that [yields] says: the
    results in order. *)
Definition pause (yield : bool) (t : T) (s : IndexScan) : IndexScan := if yield then doRestoreState t (doSaveState s) else s.
Fixpoint run (fuel : nat) (yields : nat -> bool) (t : T) (s : IndexScan) : outcome idx_error (list (list field * Z)) :=
  match fuel with
  | O => NoFuel
  | S fuel' =>
      '(st, s) ← doWork t (pause (yields fuel') t s);
      match st with
      | IS_EOF => Ret []
      | ADVANCED kv => l ← run fuel' yields t s; Ret (kv :: l)
      | NEED_TIME | NEED_YIELD => run fuel' yields t s
      end
  end.

End scan.
End Scan.

(** ** What a scan returns *)
Module Exact.
Import IB Chk Tab Idx Scan Rank Sets Guide Walk Values Enc.

(** *** Single intervals *)

(** A key is not before the start, and not past the end, of a range of keys, by its comparison
    with them in the direction of the scan. *)
Definition start_ok (c : Z) (inclusive : bool) : bool := if c =? 0 then inclusive else c <? 0.
Definition end_ok (c : Z) (inclusive : bool) : bool := if c =? 0 then inclusive else 0 <? c.

(** The values that the keys of a single interval are made of. *)
Definition end_of (oil : OrderedIntervalList) (v : value) : Prop :=
  v = VMinKey \/ v = VMaxKey \/ exists iv s, iv ∈ intervals oil /\ (start iv = Some s \/ end_ iv = Some s) /\ s.2 = v.
Definition ends_in (oils : list OrderedIntervalList) (k : list field) : Prop :=
  Forall2 (fun oil (x : field) => x.1 = [] /\ end_of oil x.2) oils k.

Section ints.
Variable D : Cmp.Decimal128.
Variable L : list value.
Variable rk : value -> Z.
Hypothesis Hrk : ranks D L rk.
Hypothesis Hmin : VMinKey ∈ L.
Hypothesis Hmax : VMaxKey ∈ L.
Abbreviation known := (bounded (fun v => v ∈ L)).
Abbreviation unit d := (d = 1 \/ d = -1).
Abbreviation in_L := (Forall (fun x : field => x.2 ∈ L)).

(** Directions and lists that belong together. *)
Definition fit (d : Z) (oil : OrderedIntervalList) : Prop :=
  unit d /\ Forall known (intervals oil) /\ Forall unnamed (intervals oil) /\ scan_order rk d (intervals oil).

Definition range_of (dirs : list Z) (oils : list OrderedIntervalList) (sk : list field) (si : bool) (ek : list field) (ei : bool) : Prop :=
  ends_in oils sk /\ ends_in oils ek /\
  forall k, length k = length oils -> in_L k ->
    key_in D dirs oils k = start_ok (scan_cmp rk dirs sk k) si && end_ok (scan_cmp rk dirs ek k) ei.
(** Fields that no key is cut off by. *)
Definition free_of (dirs : list Z) (oils : list OrderedIntervalList) (sk : list field) (si : bool) (ek : list field) (ei : bool) : Prop :=
  ends_in oils sk /\ ends_in oils ek /\
  forall k, length k = length oils -> in_L k ->
    key_in D dirs oils k = true /\ start_ok (scan_cmp rk dirs sk k) si = si /\ end_ok (scan_cmp rk dirs ek k) ei = ei.

(** One interval. *)
Lemma one_interval (d : Z) (oil : OrderedIntervalList) (i : Interval) : fit d oil -> intervals oil = [i] ->
  exists s e, start i = Some s /\ end_ i = Some e /\ s.2 ∈ L /\ e.2 ∈ L /\ s.1 = [] /\ e.1 = [] /\
    end_of oil s.2 /\ end_of oil e.2 /\ lo rk d i <= hi rk d i /\
    forall x : field, x.2 ∈ L -> in_intervals D d (intervals oil) x = inside rk d i x.2.
Proof.
  intros (Hd & Hk & Hu & [Ho _]) E. rewrite E in Hk, Hu, Ho. apply Forall_cons in Hk as [Hk _], Hu as [Hu _], Ho as [Ho _].
  destruct (known_ends L i Hk) as (s & e & Es & Ee & Hs & He). unfold unnamed in Hu. rewrite Es, Ee in Hu.
  exists s, e. do 2 (split; [done|]). split; [done|]. split; [done|]. split; [apply Hu|]. split; [apply Hu|].
  split; [|split; [|split; [done|]]].
  - right; right. exists i, s. rewrite E. split; [by left|]. auto.
  - right; right. exists i, e. rewrite E. split; [by left|]. auto.
  - intros x Hx. rewrite E. unfold in_intervals. cbn [existsb]. rewrite orb_false_r. by apply (contains_inside D L rk).
Qed.

Lemma key_in_cons (d : Z) (dirs : list Z) (oil : OrderedIntervalList) (oils : list OrderedIntervalList) (x : field) (k : list field) :
  key_in D (d :: dirs) (oil :: oils) (x :: k) = in_intervals D d (intervals oil) x && key_in D dirs oils k.
Proof. done. Qed.

(** A point in front of a range, and an interval in front of free fields. *)
Lemma point_range (d : Z) (oil : OrderedIntervalList) (i : Interval) (s e : field) dirs oils sk si ek ei : fit d oil -> intervals oil = [i] ->
  isPoint D i = true -> start i = Some s -> end_ i = Some e -> range_of dirs oils sk si ek ei ->
  range_of (d :: dirs) (oil :: oils) (s :: sk) si (e :: ek) ei.
Proof.
  intros Hf E Hp Es Ee (H1 & H2 & H3). pose proof Hf as [Hd _].
  destruct (one_interval d oil i Hf E) as (s' & e' & Es' & Ee' & Ks & Ke & Ns & Ne & Os & Oe & Ho & Hin). simplify_eq.
  split; [by constructor|]. split; [by constructor|]. intros [|x k] Hl HL; [done|]. apply Forall_cons in HL as [Hx HL].
  rewrite key_in_cons, Hin by done. rewrite (H3 k) by (done || by injection Hl). cbn [scan_cmp].
  unfold isPoint in Hp. rewrite !andb_true_iff in Hp. destruct Hp as [[Hsi Hei] Hz]. rewrite Es, Ee in Hz.
  pose proof (Hrk s e Ks Ke) as Hc. unfold inside, lo, hi. rewrite Hsi, Hei, Es, Ee. cbn [erank negb Z.b2z].
  assert (Hse : rk s.2 = rk e.2) by lia. rewrite Hse.
  destruct (Z.eqb_spec (d * (rk e.2 - rk x.2)) 0) as [E0|E0].
  - replace ((2 * (d * rk e.2) + 0 <=? 2 * (d * rk x.2)) && (2 * (d * rk x.2) <=? 2 * (d * rk e.2) - 0)) with true by lia. done.
  - unfold start_ok, end_ok. rewrite (proj2 (Z.eqb_neq _ _) E0). lia.
Qed.
Lemma interval_range (d : Z) (oil : OrderedIntervalList) (i : Interval) (s e : field) dirs oils sk ek : fit d oil -> intervals oil = [i] ->
  start i = Some s -> end_ i = Some e -> free_of dirs oils sk (startInclusive i) ek (endInclusive i) ->
  range_of (d :: dirs) (oil :: oils) (s :: sk) (startInclusive i) (e :: ek) (endInclusive i).
Proof.
  intros Hf E Es Ee (H1 & H2 & H3). pose proof Hf as [Hd _].
  destruct (one_interval d oil i Hf E) as (s' & e' & Es' & Ee' & Ks & Ke & Ns & Ne & Os & Oe & Ho & Hin). simplify_eq.
  split; [by constructor|]. split; [by constructor|]. intros [|x k] Hl HL; [done|]. apply Forall_cons in HL as [Hx HL].
  destruct (H3 k ltac:(by injection Hl) HL) as (K1 & K2 & K3). rewrite key_in_cons, Hin, K1, andb_true_r by done. cbn [scan_cmp].
  unfold inside, lo, hi. rewrite Es, Ee. cbn [erank]. f_equal.
  - destruct (Z.eqb_spec (d * (rk s.2 - rk x.2)) 0) as [E0|E0]; [rewrite K2; destruct (startInclusive i); cbn; lia|].
    unfold start_ok. rewrite (proj2 (Z.eqb_neq _ _) E0). destruct (startInclusive i); cbn; lia.
  - destruct (Z.eqb_spec (d * (rk e.2 - rk x.2)) 0) as [E0|E0]; [rewrite K3; destruct (endInclusive i); cbn; lia|].
    unfold end_ok. rewrite (proj2 (Z.eqb_neq _ _) E0). destruct (endInclusive i); cbn; lia.
Qed.

(** The fields of an interval with all values: [a] and [b] are its ends in scan order. *)
Lemma free_field (d : Z) (oil : OrderedIntervalList) (i : Interval) (a b : field) dirs oils sk si ek ei : fit d oil -> intervals oil = [i] ->
  a.1 = [] -> b.1 = [] -> end_of oil a.2 -> end_of oil b.2 ->
  (forall x, x ∈ L -> d * rk a.2 <= d * rk x <= d * rk b.2 /\ inside rk d i x = true) ->
  free_of dirs oils sk si ek ei ->
  free_of (d :: dirs) (oil :: oils) ((if negb si then b else a) :: sk) si ((if negb ei then a else b) :: ek) ei.
Proof.
  intros Hf E Na Nb Ha Hb Hall (H1 & H2 & H3). pose proof Hf as [Hd _].
  destruct (one_interval d oil i Hf E) as (s & e & _ & _ & _ & _ & _ & _ & _ & _ & _ & Hin).
  split; [constructor; [by destruct si|done]|]. split; [constructor; [by destruct ei|done]|].
  intros [|x k] Hl HL; [done|]. apply Forall_cons in HL as [Hx HL]. destruct (H3 k ltac:(by injection Hl) HL) as (K1 & K2 & K3).
  destruct (Hall x.2 Hx) as [Hr Hi]. rewrite key_in_cons, Hin, Hi, K1 by done. split; [done|]. cbn [scan_cmp]. split.
  - destruct (Z.eqb_spec (d * (rk (if negb si then b else a).2 - rk x.2)) 0) as [E0|E0]; [done|].
    unfold start_ok. rewrite (proj2 (Z.eqb_neq _ _) E0). destruct si; cbn [negb] in *; lia.
  - destruct (Z.eqb_spec (d * (rk (if negb ei then a else b).2 - rk x.2)) 0) as [E0|E0]; [done|].
    unfold end_ok. rewrite (proj2 (Z.eqb_neq _ _) E0). destruct ei; cbn [negb] in *; lia.
Qed.
(** The ends of an interval that is equal to another one. *)
Lemma equal_ends (i j : Interval) : known i -> known j -> equals D i j = true ->
  startInclusive i = startInclusive j /\ endInclusive i = endInclusive j /\
  erank rk (start i) = erank rk (start j) /\ erank rk (end_ i) = erank rk (end_ j).
Proof.
  intros Hi Hj. unfold equals. destruct (ends_compared D L rk Hrk i j Hi Hj) as (H1 & _ & _ & H2).
  repeat match goal with |- (if ?b then _ else _) = true -> _ => destruct b eqn:?; try done end. intros _.
  repeat match goal with H : negb _ = false |- _ => apply negb_false_iff in H end.
  repeat match goal with H : Bool.eqb _ _ = true |- _ => apply Bool.eqb_prop in H end. repeat split; try done; lia.
Qed.

Lemma all_values_free (si ei : bool) (oils : list OrderedIntervalList) : forall dirs, Forall2 fit dirs oils ->
  exists r, all_values_fields D si ei oils = Some r /\
    match r with Some (ss, es) => free_of dirs oils ss si es ei | None => True end.
Proof.
  induction oils as [|oil oils IH]; intros dirs Hfit.
  { apply Forall2_nil_inv_r in Hfit as ->. eexists. split; [reflexivity|]. split; [constructor|]. split; [constructor|].
    intros [|] Hl _; [|done]. by destruct si, ei. }
  apply Forall2_cons_inv_r in Hfit as (d & dirs' & Hf & Hfit & ->). cbn [all_values_fields].
  destruct (intervals oil) as [|i [|]] eqn:E; [by eexists| |by eexists].
  change allValues with (Some (mkInterval minMaxKey (Some ([], VMinKey)) true (Some ([], VMaxKey)) true)). cbn [mbind option_bind]. cbv zeta.
  set (mm := mkInterval _ _ _ _ _). destruct (IH dirs' Hfit) as (r & -> & Hr). cbn [mbind option_bind].
  assert (Kmm : known mm /\ known (reverse_interval mm)) by done. destruct Kmm as [Kmm Kmm'].
  pose proof Hf as (Hd & Hk & _ & [Ho _]). rewrite E in Hk, Ho. apply Forall_cons in Hk as [Hk _], Ho as [Ho _].
  assert (Hext : forall x, x ∈ L -> rk VMinKey <= rk x <= rk VMaxKey) by (intros; by apply (extremes D L rk)).
  assert (Emin : end_of oil VMinKey) by by left. assert (Emax : end_of oil VMaxKey) by (right; by left).
  destruct (equals D i mm) eqn:E1; [|destruct (equals D i (reverse_interval mm)) eqn:E2; [|by eexists]].
  - eexists. split; [reflexivity|]. destruct r as [[ss es]|]; [|done]. cbn [option_map].
    apply (free_field d oil i ([], VMinKey) ([], VMaxKey)); try done.
    apply equal_ends in E1 as (Hsi & Hei & E1 & E2); [|done..]. intros x Hx. specialize (Hext x Hx). cbn [snd].
    unfold inside, lo, hi in *. rewrite Hsi, Hei, E1, E2 in *.
    cbn [mm reverse_interval start end_ startInclusive endInclusive erank snd negb Z.b2z] in *. destruct Hd as [-> | ->]; lia.
  - eexists. split; [reflexivity|]. destruct r as [[ss es]|]; [|done]. cbn [option_map].
    apply (free_field d oil i ([], VMaxKey) ([], VMinKey)); try done.
    apply equal_ends in E2 as (Hsi & Hei & E2 & E3); [|done..]. intros x Hx. specialize (Hext x Hx). cbn [snd].
    unfold inside, lo, hi in *. rewrite Hsi, Hei, E2, E3 in *.
    cbn [mm reverse_interval start end_ startInclusive endInclusive erank snd negb Z.b2z] in *. destruct Hd as [-> | ->]; lia.
Qed.

(** The points in front of what is left. *)
Lemma skip_points_range (oils : list OrderedIntervalList) : forall dirs, Forall2 fit dirs oils ->
  exists ss es rest m, skip_points D oils = Some (ss, es, rest) /\ rest = drop m oils /\ (m <= length oils)%nat /\
    forall sk si ek ei, range_of (drop m dirs) rest sk si ek ei -> range_of dirs oils (ss ++ sk) si (es ++ ek) ei.
Proof.
  induction oils as [|oil oils IH]; intros dirs Hfit.
  { apply Forall2_nil_inv_r in Hfit as ->. exists [], [], [], 0%nat. done. }
  assert (Hstop : exists ss es rest m, Some ([], [], oil :: oils) = Some (ss, es, rest) /\ rest = drop m (oil :: oils) /\ (m <= length (oil :: oils))%nat /\
    forall sk si ek ei, range_of (drop m dirs) rest sk si ek ei -> range_of dirs (oil :: oils) (ss ++ sk) si (es ++ ek) ei)
    by (eexists [], [], _, 0%nat; split; [reflexivity|]; split; [done|]; split; [lia|done]).
  apply Forall2_cons_inv_r in Hfit as (d & dirs' & Hf & Hfit & ->). cbn [skip_points].
  destruct (intervals oil) as [|i [|]] eqn:E; [exact Hstop| |exact Hstop].
  destruct (isPoint D i) eqn:Ep; cbn [negb]; [|exact Hstop].
  destruct (one_interval d oil i Hf E) as (s & e & Es & Ee & _). rewrite Es, Ee. cbn [mbind option_bind].
  destruct (IH dirs' Hfit) as (ss & es & rest & m & -> & -> & Hm & Hr). cbn [mbind option_bind].
  exists (s :: ss), (e :: es), (drop m oils), (S m). split; [done|]. split; [done|]. split; [cbn; lia|].
  intros sk si ek ei Hrange. cbn [app]. eapply point_range; eauto.
Qed.

Lemma single_interval_range (dirs : list Z) (b : IndexBounds) : Forall2 fit dirs (fields b) ->
  exists si ei r, isSingleInterval D b = Some (si, ei, r) /\
    match r with Some (sk, ek) => range_of dirs (fields b) sk si ek ei | None => True end.
Proof.
  intros Hfit. unfold isSingleInterval. destruct (skip_points_range (fields b) dirs Hfit) as (ss & es & rest & m & -> & Hrest & Hm & Hr).
  cbn [mbind option_bind]. pose proof (Forall2_drop _ _ _ m Hfit) as Hd. rewrite <- Hrest in Hd. destruct rest as [|oil rest].
  { do 3 eexists. split; [reflexivity|]. rewrite <- (app_nil_r ss), <- (app_nil_r es). apply Hr. split; [constructor|]. split; [constructor|].
    intros [|] Hl _; [|done]. by destruct (drop m dirs). }
  apply Forall2_cons_inv_r in Hd as (d & dirs' & Hf & Hd & Edirs).
  destruct (intervals oil) as [|i [|]] eqn:E; [by do 3 eexists| |by do 3 eexists].
  destruct (one_interval d oil i Hf E) as (s & e & Es & Ee & _). rewrite Es, Ee. cbn [mbind option_bind].
  destruct (all_values_free (startInclusive i) (endInclusive i) rest dirs' Hd) as (r & -> & Hfree). cbn [mbind option_bind].
  do 3 eexists. split; [reflexivity|]. destruct r as [[ss' es']|]; [|done]. cbn [option_map]. apply Hr. rewrite Edirs.
  by apply (interval_range d oil i).
Qed.

(** [woCompare] of the first fields of a key, in the direction of the scan. *)
Lemma ordering_scan_cmp (ord scanDir : Z) (q : list field) : scanDir = 1 \/ scanDir = -1 -> forall k i mask dirs,
  q = [] \/ mask = 2 ^ Z.of_nat i -> (i + length q <= 32)%nat ->
  (forall j, (j < length q)%nat -> dirs !! j = Some ((if Z.testbit ord (Z.of_nat (i + j)) then -1 else 1) * scanDir)) ->
  Forall (fun x : field => key_ok x.2) q -> Forall (fun x : field => key_ok x.2) k -> in_L q -> in_L k -> (length q <= length k)%nat ->
  exists z, Cmp.woCompare_ordering D false None ord mask q (take (length q) k) = Some z /\
    Z.sgn (scanDir * z) = Z.sgn (scan_cmp rk dirs q k).
Proof.
  intros Hs. induction q as [|e q IH]; intros k i mask dirs Hm H32 Hd Hq Hk Lq Lk Hl.
  { exists 0. split; [done|]. rewrite Z.mul_0_r. by destruct dirs. }
  destruct Hm as [|Hm]; [done|]. cbn [length] in *. destruct k as [|y k]; [cbn in Hl; lia|].
  pose proof (Hd 0%nat ltac:(lia)) as Hd0. destruct dirs as [|d dirs]; [done|]. cbn in Hd0. injection Hd0 as ->.
  rewrite Nat.add_0_r. apply Forall_cons in Hq as [He Hq], Hk as [Hy Hk], Lq as [Le Lq], Lk as [Ly Lk]. cbn [length] in *.
  destruct (woCompare_values D e y He Hy) as [Ee _]. cbn [take Cmp.woCompare_ordering scan_cmp]. rewrite Ee. cbn [mbind option_bind]. cbv zeta.
  pose proof (Hrk e y Le Ly) as Hc. set (c := woCompare D false (Some e) (Some y)) in *. rewrite Hm, Order.mask_testbit.
  set (b := Z.testbit ord (Z.of_nat i)). destruct (Z.eqb_spec ((if b then -1 else 1) * scanDir * (rk e.2 - rk y.2)) 0) as [E0|E0].
  - replace (negb ((if b then - c else c) =? 0)) with false by (destruct b, Hs as [-> | ->]; lia). rewrite <- Hm.
    apply (IH k (S i)); [by apply next_mask; [|lia]|lia| |done..|lia].
    intros j Hj. specialize (Hd (S j) ltac:(lia)). cbn in Hd. by rewrite Nat.add_succ_r in Hd.
  - replace (negb ((if b then - c else c) =? 0)) with true by (destruct b, Hs as [-> | ->]; lia).
    eexists. split; [reflexivity|]. destruct b, Hs as [-> | ->]; lia.
Qed.

End ints.

(** What holds of the ends of intervals holds of keys that are made of them. *)
Lemma end_of_ok (oil : OrderedIntervalList) (v : value) (P : value -> Prop) : P VMinKey -> P VMaxKey ->
  Forall (bounded P) (intervals oil) -> end_of oil v -> P v.
Proof.
  intros Hmin Hmax Hall [-> |[-> |(iv & s & Hiv & Hs & <-)]]; [done..|]. rewrite Forall_forall in Hall. specialize (Hall iv Hiv).
  unfold bounded in Hall. destruct Hs as [E|E]; rewrite E in Hall; destruct (start iv), (end_ iv); simplify_eq; tauto.
Qed.
Lemma ends_in_ok (oils : list OrderedIntervalList) (k : list field) (P : value -> Prop) : P VMinKey -> P VMaxKey ->
  Forall (fun oil => Forall (bounded P) (intervals oil)) oils -> ends_in oils k ->
  Forall (fun x : field => P x.2) k /\ Forall (fun x : field => x.1 = []) k /\ length k = length oils.
Proof.
  intros Hmin Hmax Hall Hk. pose proof (Forall2_length _ _ _ Hk) as Hl. split; [|split; [|done]].
  - apply Forall_lookup_2. intros i x Hx. destruct (lookup_lt_is_Some_2 oils i) as [oil Hoil]; [apply lookup_lt_Some in Hx; lia|].
    destruct (Forall2_lookup_lr _ _ _ _ _ _ Hk Hoil Hx) as [_ He]. apply (end_of_ok oil); [done..| |done].
    by apply (Forall_lookup_1 _ _ _ _ Hall Hoil).
  - apply Forall_lookup_2. intros i x Hx. destruct (lookup_lt_is_Some_2 oils i) as [oil Hoil]; [apply lookup_lt_Some in Hx; lia|].
    by destruct (Forall2_lookup_lr _ _ _ _ _ _ Hk Hoil Hx).
Qed.
Lemma extreme_ok : key_ok VMinKey /\ key_ok VMaxKey.
Proof. by repeat split. Qed.

(** *** Ranges of keys *)
Section ranges.
Variable D : Cmp.Decimal128.
Variables ord scanDir : Z.

(** The key is not before the start key, and not past the end key; an empty end key is no
    end. *)
Definition from_start (sk : list field) (si : bool) (k : list field) : bool :=
  match Cmp.woCompare_ordering D false None ord 1 sk (take (length sk) k) with
  | Some z => start_ok (scanDir * z) si
  | None => false
  end.
Definition to_end (ek : list field) (ei : bool) (k : list field) : bool :=
  match ek with
  | [] => true
  | _ => match Cmp.woCompare_ordering D false None ord 1 ek (take (length ek) k) with
         | Some z => end_ok (scanDir * z) ei
         | None => false
         end
  end.

Lemma start_ok_sgn (x y : Z) (b : bool) : Z.sgn x = Z.sgn y -> start_ok x b = start_ok y b.
Proof. unfold start_ok. intros H. destruct (Z.eqb_spec x 0), (Z.eqb_spec y 0); lia. Qed.
Lemma end_ok_sgn (x y : Z) (b : bool) : Z.sgn x = Z.sgn y -> end_ok x b = end_ok y b.
Proof. unfold end_ok. intros H. destruct (Z.eqb_spec x 0), (Z.eqb_spec y 0); lia. Qed.

(** The names of the fields of a key do not matter. *)
Lemma ordering_strip (q : list field) : forall mask k,
  Cmp.woCompare_ordering D false None ord mask (strip q) k = Cmp.woCompare_ordering D false None ord mask q k.
Proof. induction q as [|[n v] q IH]; intros mask [|[n' v'] k]; [done..|]. cbn [strip List.map Cmp.woCompare_ordering]. unfold strip in IH.
  destruct (Cmp.elem_woCompare _ _ _ _) as [x|] eqn:E; cbn in E |- *; rewrite ?E; cbn; [|done]. destruct (negb _); [done|]. apply IH. Qed.
Lemma from_start_strip (sk : list field) (si : bool) (k : list field) : from_start (strip sk) si k = from_start sk si k.
Proof. unfold from_start. rewrite ordering_strip. unfold strip. by rewrite length_map. Qed.
Lemma to_end_strip (ek : list field) (ei : bool) (k : list field) : to_end (strip ek) ei k = to_end ek ei k.
Proof.
  unfold to_end. destruct ek as [|e ek]; [done|]. cbn [strip List.map]. change (([], e.2) :: List.map _ ek) with (strip (e :: ek)).
  rewrite ordering_strip. unfold strip. by rewrite length_map.
Qed.

Variable kp : list field.
Hypothesis Hscan : scanDir = 1 \/ scanDir = -1.
Hypothesis Hcomp : comparable_pattern D kp.
Hypothesis Hord : Cmp.Ordering_make D kp = Ret ord.
Let dirs := directions D kp scanDir.
Variable b : IndexBounds.
Hypothesis Hb : bounds_ok D dirs (fields b).
Hypothesis Hun : Forall (fun oil => Forall unnamed (intervals oil)) (fields b).
Hypothesis Hkp : (0 < length kp)%nat.

Lemma bounds_lengths : length dirs = length kp /\ length (fields b) = length kp /\ (length kp <= 32)%nat.
Proof.
  destruct (directions_bits D kp ord scanDir Hcomp Hord) as (H1 & H2 & _). pose proof (Forall2_length _ _ _ Hb). unfold dirs in *. lia.
Qed.
Lemma bounds_key_ok : Forall (fun oil => Forall (bounded key_ok) (intervals oil)) (fields b).
Proof. apply Forall_lookup_2. intros i oil Hoil. destruct (Forall2_lookup_r _ _ _ _ _ Hb Hoil) as (d & _ & _ & [H _] & _). done. Qed.

Lemma single_interval_keys : exists si ei r, isSingleInterval D b = Some (si, ei, r) /\
  match r with
  | Some (sk, ek) => ends_in (fields b) sk /\ ends_in (fields b) ek /\
      forall k, key_of (length (fields b)) k -> key_in D dirs (fields b) k = from_start sk si k && to_end ek ei k
  | None => True
  end.
Proof.
  assert (Hat : forall k, Forall key_ok (snd <$> k) -> exists L rk, ranks D L rk /\ Forall (fun x : field => x.2 ∈ L) k /\
    VMinKey ∈ L /\ VMaxKey ∈ L /\ Forall (fun oil => Forall (bounded (fun v => v ∈ L)) (intervals oil)) (fields b) /\
    Forall2 (fit L rk) dirs (fields b)).
  { intros k Hk. destruct (bounds_ranked D dirs (fields b) ([VMinKey; VMaxKey] ++ (snd <$> k)) Hb) as (L & rk & Hrk & HL & H1 & H2 & H3 & H4 & H5).
    { apply Forall_app. split; [|done]. destruct extreme_ok. by repeat constructor. }
    apply Forall_app in HL as [HL1 HL2]. apply Forall_cons in HL1 as [Hm HL1]. apply Forall_cons in HL1 as [HM _].
    exists L, rk. split; [done|]. split; [by apply values_in|]. split; [done|]. split; [done|]. split; [done|].
    apply Forall2_same_length_lookup_2; [done|]. intros i d oil Hdi Hoi.
    split; [by apply (Forall_lookup_1 _ _ _ _ H2 Hdi)|]. split; [by apply (Forall_lookup_1 _ _ _ _ H3 Hoi)|].
    split; [by apply (Forall_lookup_1 _ _ _ _ Hun Hoi)|]. by apply (Forall2_lookup_lr _ _ _ _ _ _ H4 Hdi Hoi). }
  destruct (Hat []) as (L0 & rk0 & Hrk0 & _ & Hm0 & HM0 & _ & Hf0); [constructor|].
  destruct (single_interval_range D L0 rk0 Hrk0 Hm0 HM0 dirs b Hf0) as (si & ei & r & E & Hr0). exists si, ei, r. split; [done|].
  destruct r as [[sk ek]|]; [|done]. destruct Hr0 as (Hsk & Hek & _). split; [done|]. split; [done|]. intros k Hk.
  destruct (Hat k) as (L & rk & Hrk & HkL & Hm & HM & HbL & Hf); [by eapply values_ok|].
  destruct (single_interval_range D L rk Hrk Hm HM dirs b Hf) as (si' & ei' & r' & E' & Hr). rewrite E in E'. simplify_eq.
  destruct Hr as (_ & _ & Hr). rewrite (Hr k) by (done || apply Hk). clear Hr. destruct extreme_ok as [K1 K2], bounds_lengths as (Hl1 & Hl2 & Hl3).
  destruct (directions_bits D kp ord scanDir Hcomp Hord) as (_ & _ & Hdirs).
  assert (Hcmp : forall q, ends_in (fields b) q -> exists z, Cmp.woCompare_ordering D false None ord 1 q (take (length q) k) = Some z /\
    Z.sgn (scanDir * z) = Z.sgn (scan_cmp rk dirs q k)).
  { intros q Hq. destruct (ends_in_ok (fields b) q key_ok K1 K2 bounds_key_ok Hq) as (Q1 & _ & Q3). destruct (ends_in_ok (fields b) q _ Hm HM HbL Hq) as (Q2 & _).
    apply (ordering_scan_cmp D L rk Hrk ord scanDir q Hscan k 0); [by right|cbn; lia| |done|apply Hk|done|done|destruct Hk as [-> _]; lia].
    intros j Hj. apply Hdirs. lia. }
  unfold from_start, to_end. destruct (Hcmp sk Hsk) as (z1 & -> & Hz1), (Hcmp ek Hek) as (z2 & -> & Hz2).
  rewrite (start_ok_sgn _ _ _ Hz1), (end_ok_sgn _ _ _ Hz2). destruct ek; [|done].
  apply Forall2_length in Hek. cbn in Hek. lia.
Qed.
End ranges.
(** *** The walk *)

(** What becomes of the entries in the bounds: record ids that were returned are dropped, then
    keys that the filter refuses. *)
Fixpoint deliver (dedup : bool) (filt : option (list field -> bool)) (seen : gset Z) (l : list entry) : list entry :=
  match l with
  | [] => []
  | e :: l' =>
      if dedup && bool_decide (e.2 ∈ seen) then deliver dedup filt seen l'
      else
        let seen' := if dedup then {[e.2]} ∪ seen else seen in
        if match filt with None => true | Some f => f e.1 end then e :: deliver dedup filt seen' l'
        else deliver dedup filt seen' l'
  end.

Lemma filter_none {A} (f : A -> bool) (l : list A) (j : nat) : (forall m e, (j <= m)%nat -> l !! m = Some e -> f e = false) ->
  List.filter f (drop j l) = [].
Proof.
  revert j. induction l as [|a l IH]; intros [|j] Hf; [done..| |].
  - cbn. rewrite (Hf 0%nat a) by done. rewrite <- (drop_0 l). apply IH. intros m e _ Hm. apply (Hf (S m)); [lia|done].
  - apply (IH j). intros m e Hm Hl. apply (Hf (S m)); [lia|done].
Qed.
Lemma filter_skip {A} (f : A -> bool) (l : list A) (i j : nat) : (i <= j)%nat ->
  (forall m e, (i <= m < j)%nat -> l !! m = Some e -> f e = false) -> List.filter f (drop i l) = List.filter f (drop j l).
Proof.
  intros Hij Hf. assert (E : drop i l = take (j - i) (drop i l) ++ drop j l).
  { rewrite <- (take_drop (j - i) (drop i l)) at 1. rewrite drop_drop. do 2 f_equal. lia. }
  rewrite E, List.filter_app.
  rewrite <- (app_nil_l (List.filter f (drop j l))) at 2. f_equal. rewrite <- (drop_0 (take _ _)). apply filter_none.
  intros m e _ [Hm Hlt]%lookup_take_Some. rewrite lookup_drop in Hm. apply (Hf (i + m)%nat); [lia|done].
Qed.

Section walk.
Context {T : Type} `{WtLaws T}.
Variable D : Cmp.Decimal128.
Variable enc : bytes -> bool -> KS.KeyString -> outcome ks_error KS.KeyString.
Variable dec : Z -> bool -> KD.st -> KD.res (value * KD.st).
Variable ver : Version.
Variable kp : list field.
Variable ord : Z.
Hypothesis Hord : Cmp.Ordering_make D kp = Ret ord.
Variable junk : list Z.
Hypothesis Hjunk : length junk = 128%nat.
Variables isUnique isMultikey : bool.
Variable filt : option (list field -> bool).
Variable params : IndexScanParams.
Let scanDir := direction params.
Let fwd := scan_forward params.
Hypothesis Hscan : scanDir = 1 \/ scanDir = -1.
Hypothesis Hmax : maxScan params = 0.
Variable yields : nat -> bool.
Variable t : T.
Variable es : list entry.
Hypothesis Hh : holds ver kp ord isUnique t es.
(** The entries as they are read. *)
Hypothesis Hread : Forall (fun e => entry_read e = e) es.

Abbreviation work := (doWork D enc dec ver ord junk kp isUnique isMultikey filt params t).
Abbreviation go := (fun fuel => run D enc dec ver ord junk kp isUnique isMultikey filt params fuel yields t).
Abbreviation get := (fetch D enc dec ver ord junk kp isUnique isMultikey params t).
Abbreviation ses := (scan fwd es).

Lemma sense_dir : sense fwd = scanDir.
Proof. unfold fwd, scan_forward. fold scanDir. destruct Hscan as [-> | ->]; reflexivity. Qed.
Lemma entry_at (j : nat) (e : entry) : ses !! j = Some e -> (j < length es)%nat /\ entry_ok ver kp e /\ entry_read e = e /\
  scan fwd (wt_rows t) !! j = Some (entry_row ver ord isUnique e).
Proof.
  intros He. pose proof (lookup_lt_Some _ _ _ He) as Hj. rewrite length_scan in Hj. split; [done|].
  destruct (holds_scan ver kp ord isUnique t es fwd j Hh Hj) as (e' & He' & Hok & _ & Hrow). simplify_eq. split; [done|]. split; [|done].
  rewrite Forall_forall in Hread. apply Hread. apply list_elem_of_lookup_2 in He. unfold scan in He.
  destruct fwd; [done|]. by rewrite elem_of_reverse in He.
Qed.
Lemma rows_length : length (scan fwd (wt_rows t)) = length es.
Proof. rewrite length_scan. by apply (holds_length ver kp ord isUnique). Qed.

Lemma first_unique (q : bytes) (i j : nat) : first_not_before fwd q (wt_rows t) i -> first_not_before fwd q (wt_rows t) j -> i = j.
Proof.
  intros (Hi & Hi1 & Hi2) (Hj & Hj1 & Hj2). rewrite <- (length_scan fwd) in Hi, Hj. destruct (Nat.lt_trichotomy i j) as [Hlt|[E|Hlt]]; [|done|].
  - destruct (lookup_lt_is_Some_2 (scan fwd (wt_rows t)) i) as [kv Hkv]; [lia|]. specialize (Hi2 i kv Hkv ltac:(lia)). specialize (Hj1 i kv Hkv Hlt). lia.
  - destruct (lookup_lt_is_Some_2 (scan fwd (wt_rows t)) j) as [kv Hkv]; [lia|]. specialize (Hj2 j kv Hkv ltac:(lia)). specialize (Hi1 j kv Hkv Hlt). lia.
Qed.

(** Saving and restoring a cursor that is at an entry. *)
Lemma restore_on (c : IndexCursor) (j : nat) (e : entry) : ses !! j = Some e -> _forward c = fwd -> cursor_ok ver isUnique c -> on ver ord isUnique (length es) j e c ->
  let c' := restore t (save c) in
  on ver ord isUnique (length es) j e c' /\ cursor_ok ver isUnique c' /\ _forward c' = fwd /\ _endPosition c' = _endPosition c.
Proof.
  intros He Hf Hok (Heof & Hpos & Hlast & Hkey). destruct (entry_at j e He) as (Hj & _ & _ & Hrow).
  unfold restore. cbn [save at_pos _eof _key]. rewrite Heof.
  destruct (seekWT_spec (_key c) t (save c)) as (i & exact & E & Hi & Hex). cbn [save at_pos _forward _key] in *. rewrite E, Hkey in *.
  rewrite Hf in *.
  assert (i = j) as ->.
  { eapply first_unique; [exact Hi|]. split; [rewrite <- (length_scan fwd), rows_length; lia|].
    split; intros m kv Hm Hmj.
    - exact (rows_ordered t fwd m j kv _ Hm Hrow Hmj).
    - destruct (Nat.eq_dec m j) as [->|]; [simplify_eq; rewrite (proj2 (SD.lexcmp_eq _ _)) by done; lia|].
      pose proof (rows_ordered t fwd j m _ kv Hrow Hm ltac:(lia)) as Ho. cbn [entry_row fst] in Ho. rewrite SD.lexcmp_antisym. lia. }
  assert (exact = true) as -> by (apply Hex; eexists; split; [exact Hrow|]; by apply SD.lexcmp_eq).
  unfold moved. rewrite (holds_length ver kp ord isUnique t es Hh). destruct (Nat.ltb_spec j (length es)); [|lia].
  unfold on. cbn. rewrite Hf. done.
Qed.

(** Whether the caller yields or not, the next call lands at entry [j] of the scan. *)
Definition fetches (j : nat) (ep : option KS.KeyString) (Q : option IndexBoundsChecker -> Prop) (dd : bool) (ret : gset Z) (s : IndexScan) : Prop :=
  forall y, exists kv s1 c c1, _scanState (pause y t s) <> HIT_END /\ get (pause y t s) = Ret (kv, s1) /\
    _indexCursor s1 = Some c1 /\ lands ver ord isUnique es j c (kv, c1) /\ _forward c = fwd /\ _endPosition c = ep /\
    Q (_checker s1) /\ _shouldDedup s1 = dd /\ _returned s1 = ret.

Lemma getting_fetches (s : IndexScan) (c : IndexCursor) (j : nat) (e : entry) (Q : option IndexBoundsChecker -> Prop) :
  _scanState s = GETTING_NEXT -> _indexCursor s = Some c -> ses !! j = Some e -> on ver ord isUnique (length es) j e c -> cursor_ok ver isUnique c ->
  _forward c = fwd -> Q (_checker s) -> fetches (S j) (_endPosition c) Q (_shouldDedup s) (_returned s) s.
Proof.
  intros Hst Hc He Hon Hok Hf HQ y.
  assert (Hp : exists c', _indexCursor (pause y t s) = Some c' /\ on ver ord isUnique (length es) j e c' /\ cursor_ok ver isUnique c' /\ _forward c' = fwd /\
    _endPosition c' = _endPosition c /\ pause y t s = set_cursor (Some c') s).
  { destruct y; cbn [pause]; [|exists c; rewrite Hc; repeat (split; [done|]); destruct s; cbn in *; by subst].
    destruct (restore_on c j e He Hf Hok Hon) as (H1 & H2 & H3 & H4). exists (restore t (save c)).
    unfold pause, doRestoreState, doSaveState. rewrite Hc, Hst. cbn [set_cursor _indexCursor]. done. }
  destruct Hp as (c' & Hc' & Hon' & Hok' & Hf' & Hep & Ep).
  destruct (next_spec D dec ver kp ord Hord isUnique t es c' j e Hh Hok') as ([kv c1] & En & Hl); [by rewrite Hf'|done|].
  exists kv, (set_cursor (Some c1) s), c', c1. rewrite Ep. split; [cbn; by rewrite Hst|]. split.
  - unfold fetch. cbn [set_cursor _scanState _indexCursor]. rewrite Hst, En, bind_Ret. done.
  - done.
Qed.

Lemma work_fetch (s s1 : IndexScan) (kv : option entry) : _scanState s <> HIT_END -> get s = Ret (kv, s1) ->
  work s = process D filt params kv s1.
Proof. intros Hst E. unfold doWork. rewrite E. by destruct (_scanState s). Qed.

(** A call that returns or drops an entry. *)
Lemma run_emit (fuel : nat) (s s1 : IndexScan) (e : entry) (l : list entry) : work (pause (yields fuel) t s) = Ret (emit filt e s1) ->
  (forall s2, s2 = (emit filt e s1).2 -> _scanState s2 = GETTING_NEXT -> _indexCursor s2 = _indexCursor s1 -> _checker s2 = _checker s1 ->
    _shouldDedup s2 = _shouldDedup s1 -> go fuel s2 = Ret (deliver (_shouldDedup s1) filt (_returned s2) l)) ->
  go (S fuel) s = Ret (deliver (_shouldDedup s1) filt (_returned s1) (e :: l)).
Proof.
  intros E Hgo. cbn [run]. rewrite E. specialize (Hgo _ eq_refl). revert Hgo. unfold emit. cbn [deliver].
  cbn [set_state _shouldDedup count_tested set_stats _returned].
  destruct (_shouldDedup s1) eqn:Ed; cbn [andb].
  - destruct (decide (e.2 ∈ _returned s1)) as [Hin|Hin].
    + rewrite bool_decide_eq_true_2 by done. cbn. intros Hgo. by rewrite Hgo.
    + rewrite bool_decide_eq_false_2 by done. cbn.
      destruct (match filt with Some f => f e.1 | None => true end); intros Hgo; by rewrite Hgo.
  - cbn. destruct (match filt with Some f => f e.1 | None => true end); intros Hgo; by rewrite Hgo.
Qed.
Lemma run_end (fuel : nat) (s s1 : IndexScan) : work (pause (yields fuel) t s) = Ret (hit_end s1) -> go (S fuel) s = Ret [].
Proof. intros E. cbn [run]. by rewrite E. Qed.

(** Without a checker: the entries up to the end position. *)
Definition past (ep : option KS.KeyString) (e : entry) : bool :=
  match ep with None => false | Some p => 0 <? sense fwd * SD.lexcmp (entry_bytes ver ord isUnique e) (KS._buffer p) end.
Lemma past_later (ep : option KS.KeyString) (i j : nat) (a b : entry) : ses !! i = Some a -> ses !! j = Some b -> (i <= j)%nat ->
  past ep a = true -> past ep b = true.
Proof.
  intros Ha Hb Hij Hp. destruct (Nat.eq_dec i j) as [->|]; [by simplify_eq|]. destruct (entry_at i a Ha) as (_ & _ & _ & Ra), (entry_at j b Hb) as (_ & _ & _ & Rb).
  unfold past in *. destruct ep as [p|]; [|done].
  pose proof (rows_behind t fwd (KS._buffer p) i j _ _ Ra Rb ltac:(lia)) as Hr. cbn [entry_row fst] in Hr. lia.
Qed.

Lemma range_walk (ep : option KS.KeyString) (dd : bool) (m : nat) : forall j ret s fuel, (length es - j <= m)%nat -> (m < fuel)%nat ->
  fetches j ep (fun chk => chk = None) dd ret s ->
  go fuel s = Ret (deliver dd filt ret (List.filter (fun e => negb (past ep e)) (drop j ses))).
Proof.
  induction m as [|m IH]; intros j ret s [|fuel] Hm Hfuel Hfetch; try lia;
    destruct (Hfetch (yields fuel)) as (kv & s1 & c & c1 & Hst & Hget & Hc1 & (Hf1 & He1 & Hok1 & Hl) & Hf & Hep & Hchk & <- & <-);
    pose proof (work_fetch _ _ _ Hst Hget) as Hw; cbn [fst snd] in *; rewrite Hf in Hl.
  all: destruct (ses !! j) as [e|] eqn:He;
    [|destruct Hl as [-> _]; rewrite drop_ge by (apply lookup_ge_None; done); by apply (run_end _ _ s1)].
  { apply entry_at in He as [? _]. lia. }
  destruct (entry_at j e He) as (Hj & _ & Hre & _). unfold past_end in Hl. rewrite Hep, Hf in Hl. change (match ep with Some p => _ | None => false end) with (past ep e) in Hl.
  destruct (past ep e) eqn:Ep.
  { destruct Hl as [-> _]. rewrite filter_none; [by apply (run_end _ _ s1)|]. intros i b Hi Hb. by rewrite (past_later ep j i e b). }
  destruct Hl as [-> Hon]. rewrite (drop_S _ _ _ He). cbn [List.filter]. rewrite Ep. cbn [negb]. rewrite Hre in *.
  unfold process in Hw. rewrite Hmax in Hw. cbn [Z.eqb negb andb count_key set_stats _checker] in Hw. rewrite Hchk in Hw.
  apply (run_emit _ _ (count_key s1)); [exact Hw|]. intros s2 -> Hs2 Hc2 Hk2 Hd2. cbn [count_key set_stats _shouldDedup] in *.
  apply IH; [lia|lia|]. rewrite <- Hd2. rewrite <- Hep, <- He1. rewrite Hf in Hf1.
  eapply getting_fetches; [done|by rewrite Hc2|done|done|done|done|by rewrite Hk2].
Qed.

(** *** Starting *)

(** A key whose names contain no end of string. *)
Definition nameable (k : list field) : Prop := Forall (fun f : field => 0 ∉ f.1) k.
Lemma strip_spec (k : list field) : nameable k -> stripFieldNames k = strip k /\ Forall (fun f : field => f.1 = []) (strip k).
Proof.
  intros Hk. split; [|clear Hk; induction k; constructor; done]. unfold stripFieldNames. destruct (hasFieldNames k) eqn:E; [done|].
  cbn [negb]. induction Hk as [|[n v] k Hn _ IH]; [done|]. cbn [hasFieldNames existsb fst] in E. apply orb_false_iff in E as [En E].
  unfold strip in *. cbn [List.map snd]. rewrite <- (IH E). destruct n as [|x n]; [done|]. cbn in En. exfalso. apply Hn.
  assert (x = 0) as -> by lia. left.
Qed.
(** A key of a range that can be encoded. *)
Definition range_key (k : list field) : Prop := nameable k /\ Keys.key ver (strip k) /\ (length k <= length kp)%nat.

(** An entry against a key of the range, as bytes. *)
Lemma key_against (k : list field) (d : Discriminator) (e : entry) : range_key k -> d = kExclusiveBefore \/ d = kExclusiveAfter -> entry_ok ver kp e ->
  exists z, Cmp.woCompare_ordering D false None ord 1 k (take (length k) e.1) = Some z /\
    SD.lexcmp (entry_bytes ver ord isUnique e) (Keys.query_bytes ver ord (strip k) d) =
      if z =? 0 then match d with kExclusiveAfter => -1 | _ => 1 end else - Z.sgn z.
Proof.
  intros (Hn & Hk & Hl) Hd ([He _] & Hlen & Hid%isNormal_range). destruct (strip_spec k Hn) as [_ Hnames].
  assert (Hls : length (strip k) = length k) by apply length_map.
  destruct (Keys.query_lexcmp D ver ord (strip k) (take (length k) e.1) (drop (length k) e.1) d (entry_tail isUnique e)) as (z & Hz & Hc);
    [done|by rewrite take_drop|rewrite length_take; lia|right; destruct (Keys.stored_names _ Hnames) as [_ ->]; by destruct Hd as [-> | ->]|].
  rewrite ordering_strip in Hz. exists z. split; [done|]. rewrite take_drop in Hc. rewrite SD.lexcmp_antisym. unfold entry_bytes. rewrite Hc.
  destruct (Keys.stored_names _ Hnames) as [_ ->]. destruct (z =? 0); [|done]. by destruct Hd as [-> | ->].
Qed.

Lemma new_cursor_ok : cursor_ok ver isUnique (newCursor ver junk isUnique fwd).
Proof. unfold cursor_ok, newCursor, KS.resetToEmpty, TB.reset, TB.setSizeByte. cbn. by rewrite !length_insert. Qed.

Lemma set_end_spec (ek : list field) (ei : bool) : range_key ek -> exists c,
  setEndPosition enc ver ord junk ek ei (newCursor ver junk isUnique fwd) = Ret c /\ _forward c = fwd /\ cursor_ok ver isUnique c /\
  forall e, entry_ok ver kp e -> negb (past (_endPosition c) e) = to_end D ord scanDir ek ei e.1.
Proof.
  intros Hek. pose proof Hek as (Hn & Hk & Hl). pose proof new_cursor_ok as Hok. destruct ek as [|f ek'] eqn:Eek.
  { eexists. split; [reflexivity|]. done. }
  rewrite <- Eek in *. unfold setEndPosition, to_end. rewrite Eek. rewrite <- Eek. cbv zeta. destruct (strip_spec ek Hn) as [-> Hnames].
  set (d := if Bool.eqb _ _ then _ else _).
  destruct (Keys.query_encoded enc ver ord junk Hjunk (strip ek) d Hk) as (kq & -> & Hbuf & _); [by apply Keys.stored_names|].
  cbn [lift]. rewrite bind_Ret. eexists. split; [reflexivity|]. split; [done|]. split; [done|]. intros e He. cbn [_endPosition past].
  rewrite Hbuf. destruct (key_against ek d e Hek) as (z & -> & ->); [unfold d; destruct (Bool.eqb _ _); auto|done|].
  rewrite sense_dir. unfold d, end_ok. cbn [newCursor _forward]. unfold fwd, scan_forward. fold scanDir.
  destruct (Z.eqb_spec z 0), Hscan as [-> | ->], ei; cbn; repeat case_match; lia.
Qed.

(** A cursor at the start of a range. *)
Lemma start_range_fetches (s s0 : IndexScan) : (forall y, pause y t s0 = s0) -> _scanState s0 = INITIALIZING ->
  get s0 = start_range enc dec ver ord junk t (newCursor ver junk isUnique fwd) s ->
  range_key (_startKey s) -> range_key (_endKey s) -> _checker s = None ->
  exists j ep, fetches j ep (fun chk => chk = None) (_shouldDedup s) (_returned s) s0 /\
    (forall m e, ses !! m = Some e -> (m < j)%nat <-> from_start D ord scanDir (_startKey s) (_startKeyInclusive s) e.1 = false) /\
    (forall e, entry_ok ver kp e -> negb (past ep e) = to_end D ord scanDir (_endKey s) (_endKeyInclusive s) e.1).
Proof.
  intros Hpause Hst Hget Hsk Hek Hchk. destruct (set_end_spec (_endKey s) (_endKeyInclusive s) Hek) as (c & Ec & Hf & Hok & Hend).
  unfold start_range in Hget. rewrite Ec, bind_Ret in Hget. pose proof Hsk as (Hn & Hk & Hl). destruct (strip_spec _ Hn) as [Es Hnames].
  unfold seek in Hget. rewrite Es in Hget. set (d := if Bool.eqb _ _ then _ else _) in Hget.
  destruct (seek_query_spec D enc dec ver kp ord Hord isUnique t es c (strip (_startKey s)) d Hh Hok Hk) as (j & [kv c1] & E & Hj & Hl1); [by apply Keys.stored_names|].
  rewrite E, bind_Ret in Hget. exists j, (_endPosition c). split; [|split; [|done]].
  - intros y. rewrite Hpause. exists kv, (set_cursor (Some c1) s), c, c1. split; [by rewrite Hst|]. done.
  - intros m e He. destruct (entry_at m e He) as (_ & Heok & _ & Hrow). rewrite Hf in Hj. destruct Hj as (_ & Hlow & Hhigh).
    specialize (Hlow m _ Hrow). specialize (Hhigh m _ Hrow). cbn [entry_row fst] in *. unfold from_start.
    destruct (key_against (_startKey s) d e Hsk) as (z & -> & Hc); [unfold d; destruct (Bool.eqb _ _); auto|done|].
    rewrite Hc, sense_dir in *. clear Hc E Hget. unfold start_ok.
    assert (Hd : d = if Bool.eqb (scanDir =? 1) (_startKeyInclusive s) then kExclusiveBefore else kExclusiveAfter) by (unfold d; by rewrite Hf).
    rewrite Hd in *. destruct (Z.eqb_spec z 0), Hscan as [E|E], (_startKeyInclusive s); rewrite E in *; cbn in *; split; intros; repeat case_match; lia || done.
Qed.

Lemma range_run (s s0 : IndexScan) (fuel : nat) : (forall y, pause y t s0 = s0) -> _scanState s0 = INITIALIZING ->
  get s0 = start_range enc dec ver ord junk t (newCursor ver junk isUnique fwd) s ->
  range_key (_startKey s) -> range_key (_endKey s) -> _checker s = None -> (length es < fuel)%nat ->
  go fuel s0 = Ret (deliver (_shouldDedup s) filt (_returned s) (List.filter (fun e => 
    from_start D ord scanDir (_startKey s) (_startKeyInclusive s) e.1 && to_end D ord scanDir (_endKey s) (_endKeyInclusive s) e.1) ses)).
Proof.
  intros Hpause Hst Hget Hsk Hek Hchk Hfuel.
  destruct (start_range_fetches s s0 Hpause Hst Hget Hsk Hek Hchk) as (j & ep & Hfetch & Hstart & Hend).
  rewrite (range_walk ep _ (length es) j _ s0 fuel ltac:(lia) Hfuel Hfetch). do 2 f_equal. rewrite <- (drop_0 ses) at 2.
  rewrite (filter_skip _ _ 0 j); [|lia|intros m e Hm He; rewrite (proj1 (Hstart m e He)) by lia; done].
  apply List.filter_ext_in. intros e He%list_elem_of_In. apply list_elem_of_lookup_1 in He as [m He]. rewrite lookup_drop in He.
  destruct (entry_at _ e He) as (_ & Hok & _). rewrite Hend by done.
  destruct (from_start D ord scanDir (_startKey s) (_startKeyInclusive s) e.1) eqn:E; [done|]. apply (Hstart _ e He) in E. lia.
Qed.

(** *** The walk with a checker *)
Hypothesis Hcomp : comparable_pattern D kp.
Let dirs := directions D kp scanDir.
Variable b : IndexBounds.
Hypothesis Hb : bounds_ok D dirs (fields b).
Hypothesis Hkp : (0 < length kp)%nat.
(** The values that field [i] of a query can have, and that type bits of queries fit. *)
Definition in_column (i : nat) (v : value) : Prop :=
  (exists oil, fields b !! i = Some oil /\ end_of oil v) \/ (exists e x, e ∈ es /\ e.1 !! i = Some x /\ v = x.2).
Hypothesis Hroom : forall q : list field, (length q <= length kp)%nat -> (forall i x, q !! i = Some x -> in_column i x.2) ->
  Bits.fits (Ref.fields_bits ver q).

Abbreviation nm := [if fwd then KS.char_g else KS.char_l].
Abbreviation disc := (if fwd then kExclusiveBefore else kExclusiveAfter).

Lemma lengths : length dirs = length kp /\ length (fields b) = length kp /\ (length kp <= 32)%nat.
Proof. apply (bounds_lengths D ord scanDir); done. Qed.
Lemma entry_elem (e : entry) : e ∈ es -> entry_ok ver kp e.
Proof. destruct Hh as [_ Hok]. rewrite Forall_forall in Hok. apply Hok. Qed.
Lemma scan_elem (j : nat) (e : entry) : ses !! j = Some e -> e ∈ es.
Proof. intros He. apply list_elem_of_lookup_2 in He. unfold scan in He. destruct fwd; [done|]. by rewrite elem_of_reverse in He. Qed.
Lemma entry_key_of (e : entry) : entry_ok ver kp e -> key_of (length (fields b)) e.1.
Proof. intros ([[Hk _] _] & Hl & _). destruct lengths as (_ & -> & _). by split. Qed.

Lemma column_ok (i : nat) (v : value) : in_column i v -> key_ok v.
Proof.
  intros [(oil & Hoil & Hv)|(e & x & He & Hx & ->)].
  - destruct extreme_ok. apply (end_of_ok oil); [done..| |done]. apply (Forall_lookup_1 _ _ _ _ (bounds_key_ok D scanDir kp b Hb) Hoil).
  - destruct (entry_elem e He) as ([[Hk _] _] & _). by apply (Forall_lookup_1 _ _ _ _ Hk Hx).
Qed.
Lemma column_key (q : list field) : (length q <= length kp)%nat -> (forall i x, q !! i = Some x -> in_column i x.2) -> Keys.key ver q.
Proof.
  intros Hl Hq. destruct lengths as (_ & _ & H32). split; [|split; [lia|by apply Hroom]].
  apply Forall_lookup_2. intros i x Hx. by eapply column_ok, Hq.
Qed.
Lemma over_key (k q : list field) : (k = [] \/ exists e, e ∈ es /\ k = e.1) -> (length q <= length (fields b))%nat -> query_over (fields b) k q ->
  Keys.key ver q.
Proof.
  intros Hk Hl Hq. destruct lengths as (_ & Hlb & _). apply column_key; [lia|]. intros i x Hx.
  destruct (Hq i x Hx) as [(y & Hy & ->)|(oil & iv & s & Hoil & Hiv & Hs & ->)].
  - right. destruct Hk as [->|(e & He & ->)]; [done|]. by exists e, y.
  - left. exists oil. split; [done|]. right; right. exists iv, s. auto.
Qed.

(** A row is before a query when its key does not reach it. *)
Lemma row_before (q : list field) (e : entry) : Keys.key ver q -> query_names nm q -> (length q <= length kp)%nat -> entry_ok ver kp e ->
  sense fwd * SD.lexcmp (entry_bytes ver ord isUnique e) (Keys.query_bytes ver ord q disc) < 0 <-> reaches D dirs q e.1 = false.
Proof.
  intros Hq Hn Hl ([Hk _] & Hlen & Hid%isNormal_range). destruct (directions_bits D kp ord scanDir Hcomp Hord) as (_ & _ & Hd).
  destruct (query_bytes_reach D ord scanDir Hscan ver q e.1 dirs (entry_tail isUnique e) Hq Hn Hk ltac:(lia)) as [Hne Hr]; [intros j Hj; apply Hd; lia|].
  rewrite <- Hr, sense_dir. unfold entry_bytes in *. rewrite SD.lexcmp_antisym. fold (scan_forward params) in *.
  change (scanDir =? 1) with fwd in *. destruct Hscan as [-> | ->]; lia.
Qed.
Lemma entries_reach (i j : nat) (x y : entry) : ses !! i = Some x -> ses !! j = Some y -> (i < j)%nat -> reaches D dirs x.1 y.1 = true.
Proof.
  intros Hx Hy Hij. destruct (entry_at i x Hx) as (_ & ([Kx Nx] & Lx & Ix%isNormal_range) & _ & Rx), (entry_at j y Hy) as (_ & ([Ky Ny] & Ly & Iy%isNormal_range) & _ & Ry).
  pose proof (rows_ordered t fwd i j _ _ Rx Ry Hij) as Ho. cbn [entry_row fst] in Ho. rewrite sense_dir in Ho.
  destruct (Keys.keys_lexcmp D ver ord x.1 y.1 (entry_tail isUnique x) (entry_tail isUnique y) Kx Ky) as (z & Hz & Hc). unfold entry_bytes in Ho. rewrite Hc in Ho.
  destruct (directions_bits D kp ord scanDir Hcomp Hord) as (H32 & _ & Hd).
  assert (Hex : query_names [if scanDir =? 1 then KS.char_g else KS.char_l] x.1 /\ excludes x.1 = false).
  { clear - Nx. induction Nx as [|[n v] l Hn _ [IH1 IH2]]; [done|]. cbn in Hn. subst n. cbn [excludes existsb]. split; [|done].
    destruct l; [by left|done]. }
  destruct Hex as [Hn Hex]. destruct (reaches_ordering D ord scanDir Hscan x.1 y.1 0 1 dirs) as (z' & Hz' & ->); [by right|lia|intros m Hm; apply Hd; lia|done|apply Kx|apply Ky|lia|].
  rewrite Lx, <- Ly, firstn_all, Hz in Hz'. injection Hz' as <-. rewrite Hex. destruct (Z.eqb_spec z 0); [done|].
  destruct Hscan as [E|E]; rewrite E in *; lia.
Qed.

Lemma seeking_fetches (s : IndexScan) (c : IndexCursor) (q : list field) (Q : option IndexBoundsChecker -> Prop) :
  _scanState s = NEED_SEEK -> _indexCursor s = Some c -> cursor_ok ver isUnique c -> _forward c = fwd ->
  makeQueryObject (_seekPoint s) fwd = Some q -> Keys.key ver q -> query_names nm q -> Q (_checker s) ->
  exists j, first_not_before fwd (Keys.query_bytes ver ord q disc) (wt_rows t) j /\
    fetches j (_endPosition c) Q (_shouldDedup s) (_returned s) s.
Proof.
  intros Hst Hc Hok Hf Hmq Hq Hn HQ. destruct (query_discriminator scanDir Hscan q disc Hn) as [Hkn _].
  assert (Hp : forall y, exists c', cursor_ok ver isUnique c' /\ _forward c' = fwd /\ _endPosition c' = _endPosition c /\ pause y t s = set_cursor (Some c') s).
  { intros [|]; [|exists c; do 3 (split; [done|]); destruct s; cbn in *; by subst].
    exists (saveUnpositioned c). unfold pause, doRestoreState, doSaveState. rewrite Hc, Hst. cbn. done. }
  assert (Hat : forall y, exists j r c', first_not_before fwd (Keys.query_bytes ver ord q disc) (wt_rows t) j /\ lands ver ord isUnique es j c' r /\
    _forward c' = fwd /\ _endPosition c' = _endPosition c /\ _scanState (pause y t s) <> HIT_END /\
    get (pause y t s) = Ret (r.1, set_cursor (Some r.2) (count_seek s))).
  { intros y. destruct (Hp y) as (c' & Hok' & Hf' & Hep & ->).
    destruct (seek_query_spec D enc dec ver kp ord Hord isUnique t es c' q disc Hh Hok' Hq Hkn) as (j & [kv c1] & E & Hj & Hl). rewrite Hf' in Hj.
    exists j, (kv, c1), c'. split; [done|]. split; [done|]. split; [done|]. split; [done|]. split; [cbn; by rewrite Hst|].
    unfold fetch. cbn [set_cursor _scanState _indexCursor _seekPoint]. rewrite Hst. unfold seek_point. rewrite Hf', Hmq, E, bind_Ret. done. }
  destruct (Hat false) as (j & _ & _ & Hj & _). exists j. split; [done|]. intros y.
  destruct (Hat y) as (j' & [kv c1] & c' & Hj' & Hl & Hf' & Hep & Hs' & E). rewrite (first_unique _ _ _ Hj' Hj) in Hl.
  exists kv, (set_cursor (Some c1) (count_seek s)), c', c1. done.
Qed.

Definition checker_ok (chk : option IndexBoundsChecker) : Prop :=
  exists k, chk = Some k /\ _bounds k = b /\ _expectedDirection k = dirs /\ in_range (_curInterval k) (fields b).

(** The entries that a seek passes over. *)
Lemma before_unreached (q : list field) (i j : nat) : Keys.key ver q -> query_names nm q -> (length q <= length kp)%nat ->
  first_not_before fwd (Keys.query_bytes ver ord q disc) (wt_rows t) i ->
  forall e, ses !! j = Some e -> (j < i)%nat <-> reaches D dirs q e.1 = false.
Proof.
  intros Hq Hn Hl (_ & Hlow & Hhigh) e He. destruct (entry_at j e He) as (_ & Hok & _ & Hrow).
  rewrite <- (row_before q e) by done. specialize (Hlow j _ Hrow). specialize (Hhigh j _ Hrow). cbn [entry_row fst] in *.
  destruct (Nat.lt_ge_cases j i); split; intros; try lia; auto.
Qed.

Abbreviation wanted := (fun e : entry => key_in D dirs (fields b) e.1).

Lemma checker_walk (dd : bool) (m : nat) : forall j ret s fuel, (length es - j <= m)%nat -> (m < fuel)%nat ->
  fetches j None checker_ok dd ret s ->
  go fuel s = Ret (deliver dd filt ret (List.filter wanted (drop j ses))).
Proof.
  induction m as [|m IH]; intros j ret s [|fuel] Hm Hfuel Hfetch; try lia;
    destruct (Hfetch (yields fuel)) as (kv & s1 & c & c1 & Hst & Hget & Hc1 & (Hf1 & He1 & Hok1 & Hl) & Hf & Hep & (k & Hchk & Hkb & Hkd & Hkr) & <- & <-);
    pose proof (work_fetch _ _ _ Hst Hget) as Hw; cbn [fst snd] in *; rewrite Hf in Hl.
  all: destruct (ses !! j) as [e|] eqn:He;
    [|destruct Hl as [-> _]; rewrite drop_ge by (apply lookup_ge_None; done); by apply (run_end _ _ s1)].
  { apply entry_at in He as [? _]. lia. }
  destruct (entry_at j e He) as (Hj & Hok & Hre & _). unfold past_end in Hl. rewrite Hep in Hl. destruct Hl as [-> Hon]. rewrite Hre in *.
  unfold process in Hw. rewrite Hmax in Hw. cbn [Z.eqb negb andb count_key set_stats _checker _seekPoint] in Hw. rewrite Hchk in Hw.
  destruct lengths as (Hl1 & Hl2 & _). rewrite Hf in Hf1. rewrite Hep in He1.
  destruct (checkKey_answers D fwd k e.1 (_seekPoint s1)) as (st & k' & p & E & Hkb' & Hkd' & Hkr' & Hans);
    [by rewrite Hkb, Hkd|by rewrite Hkb|rewrite Hkb; lia|rewrite Hkb; by apply entry_key_of|apply Hok|].
  rewrite E in Hw. unfold answered in Hans. rewrite Hkb, Hkd in *. cbv zeta in Hans.
  assert (Hck : checker_ok (Some k')) by (exists k'; auto). clear E. destruct st.
  - rewrite (drop_S _ _ _ He). cbn [List.filter]. rewrite Hans.
    apply (run_emit _ _ (set_checker k' p (count_key s1))); [exact Hw|]. intros s2 -> Hs2 Hc2 Hk2 Hd2. cbn [count_key set_checker set_stats _shouldDedup _checker _indexCursor] in *.
    apply IH; [lia|lia|]. rewrite <- Hd2, <- He1.
    eapply getting_fetches; [done|by rewrite Hc2|done|done|done|done|by rewrite Hk2].
  - destruct Hans as (Hout & q & Hmq & Hqn & Hql & Hqo & Hqk & Hnext).
    assert (Hq : Keys.key ver q) by (apply (over_key e.1); [right; exists e; split; [by eapply scan_elem|done]|done|done]).
    set (s2 := set_state NEED_SEEK (set_checker k' p (count_key s1))) in *.
    destruct (seeking_fetches s2 c1 q checker_ok) as (i & Hi & Hfi); [done|done|done|done|done|done|done|done|].
    pose proof (before_unreached q i) as Hbef. specialize (fun n => Hbef n Hq Hqn ltac:(lia) Hi).
    assert (Hji : (j < i)%nat) by by apply (Hbef j e He).
    cbn [run]. rewrite Hw, bind_Ret. rewrite He1 in Hfi. rewrite (filter_skip _ _ j i); [|lia|].
    + apply IH; [lia|lia|exact Hfi].
    + intros n x Hn Hx. destruct (Nat.eq_dec n j) as [->|]; [by simplify_eq|]. apply not_true_iff_false. intros Hin.
      destruct (entry_at n x Hx) as (_ & Hxok & _). pose proof (proj1 (Hbef n x Hx) ltac:(lia)) as Hxq.
      rewrite (Hnext x.1) in Hxq; [done|by apply entry_key_of|by apply (entries_reach j n); [| |lia]|done].
  - destruct Hans as (Hout & Hnext). rewrite filter_none; [by eapply run_end|]. intros n x Hn Hx.
    destruct (Nat.eq_dec n j) as [->|]; [by simplify_eq|]. destruct (entry_at n x Hx) as (_ & Hxok & _).
    apply Hnext; [by apply entry_key_of|]. apply (entries_reach j n); [done|done|lia].
Qed.

Hypothesis Hun : Forall (fun oil => Forall unnamed (intervals oil)) (fields b).
Hypothesis Hparams : bounds params = b.
Abbreviation dedup := (if doNotDedup params then false else isMultikey).

Lemma make_paused (y : bool) : pause y t (make_scan params) = make_scan params.
Proof. by destruct y. Qed.
Lemma ends_range_key (k : list field) : ends_in (fields b) k -> range_key k.
Proof.
  intros Hk. destruct extreme_ok as [K1 K2]. destruct (ends_in_ok (fields b) k key_ok K1 K2 (bounds_key_ok D scanDir kp b Hb) Hk) as (_ & Hn & Hl).
  destruct lengths as (_ & Hl2 & _). split; [|split; [|lia]].
  - eapply Forall_impl; [exact Hn|]. cbv beta. intros f ->. set_solver.
  - apply column_key; [unfold strip; rewrite length_map; lia|]. intros i x Hx. unfold strip in Hx. rewrite list_lookup_fmap in Hx.
    destruct (k !! i) as [y|] eqn:Hy; [|done]. cbn in Hx. injection Hx as <-. left.
    destruct (lookup_lt_is_Some_2 (fields b) i) as [oil Hoil]; [apply lookup_lt_Some in Hy; lia|].
    exists oil. split; [done|]. by destruct (Forall2_lookup_lr _ _ _ _ _ _ Hk Hoil Hy).
Qed.

(** A scan with a checker, from its start. *)
Lemma checker_run (si ei : bool) (fuel : nat) : isSimpleRange b = false -> isSingleInterval D b = Some (si, ei, None) -> (length es < fuel)%nat ->
  go fuel (make_scan params) = Ret (deliver dedup filt ∅ (List.filter wanted ses)).
Proof.
  intros Hsimple Hsingle Hfuel. destruct lengths as (Hl1 & Hl2 & _). set (chk := make_checker D b kp scanDir).
  assert (Hg : get (make_scan params) = initIndexScan D enc dec ver ord junk kp isUnique isMultikey params t (make_scan params)) by done.
  unfold initIndexScan in Hg. rewrite Hparams, Hsimple, Hsingle in Hg. cbv zeta in Hg. fold scanDir fwd in Hg.
  cbn [set_inclusive count_seek set_cursor set_dedup set_stats _seekPoint make_scan] in Hg. fold chk in Hg.
  pose proof (start_seek D fwd chk IndexSeekPoint_init Hb) as Hstart. destruct (getStartSeekPoint chk IndexSeekPoint_init) as [p|] eqn:Ep.
  - destruct Hstart as (q & Hmq & Hqn & Hql & Hqo & Hreach). cbn [chk make_checker _bounds _expectedDirection] in *.
    assert (Hq : Keys.key ver q) by (apply (over_key []); [by left|done|done]).
    destruct (query_discriminator scanDir Hscan q disc Hqn) as [Hkn _].
    destruct (seek_query_spec D enc dec ver kp ord Hord isUnique t es (newCursor ver junk isUnique fwd) q disc Hh new_cursor_ok Hq Hkn) as (j & [kv c1] & E & Hj & Hl).
    unfold seek_point in Hg. cbn [newCursor _forward] in Hg, Hj. change (_forward (newCursor ver junk isUnique fwd)) with fwd in Hg. rewrite Hmq, E, bind_Ret in Hg.
    assert (Hrange : in_range (_curInterval chk) (fields b)).
    { unfold getStartSeekPoint in Ep. cbn [chk make_checker _bounds] in Ep. destruct (start_suffix (fields b)) as [[ks ss]|] eqn:Es; [|done].
      destruct (start_suffix_spec (fields b) _ Es) as (civs & _ & _ & Hciv). cbn [chk make_checker _curInterval]. clear - Hciv.
      induction Hciv as [|iv oil civs oils Hi _ IH]; cbn; [constructor|]. constructor; [by apply lookup_lt_Some in Hi|exact IH]. }
    assert (Hfetch : fetches j None checker_ok dedup ∅ (make_scan params)).
    { intros y. rewrite make_paused. eexists kv, _, _, c1. split; [done|]. split; [exact Hg|]. split; [done|]. split; [exact Hl|].
      split; [done|]. split; [done|]. split; [|done]. exists chk. done. }
    rewrite (checker_walk _ (length es) j _ _ fuel ltac:(lia) Hfuel Hfetch). do 2 f_equal. rewrite <- (drop_0 ses) at 2. symmetry.
    apply filter_skip; [lia|]. intros m e Hm He. apply not_true_iff_false. intros Hin. destruct (entry_at m e He) as (_ & Hok & _).
    pose proof (proj1 (before_unreached q j m Hq Hqn ltac:(lia) Hj e He) ltac:(lia)) as Hr.
    pose proof (Hreach e.1 (entry_key_of e Hok) Hin) as Hr'. exact (eq_true_false_abs _ Hr' Hr).
  - rewrite <- (drop_0 ses), filter_none by (intros; apply Hstart). destruct fuel as [|fuel]; [lia|].
    eapply run_end. rewrite make_paused, (work_fetch (make_scan params) _ _ ltac:(discriminate) Hg). reflexivity.
Qed.

Lemma bounds_run (fuel : nat) : isSimpleRange b = false -> (length es < fuel)%nat ->
  go fuel (make_scan params) = Ret (deliver dedup filt ∅ (List.filter wanted ses)).
Proof.
  intros Hsimple Hfuel.
  destruct (single_interval_keys D ord scanDir kp Hscan Hcomp Hord b Hb Hun Hkp) as (si & ei & [[sk ek]|] & Hsingle & Hr); [|by eapply checker_run].
  destruct Hr as (Hsk & Hek & Hkeys).
  erewrite range_run; [|apply make_paused|done| | | | |done].
  2: { unfold fetch. cbn [make_scan _scanState]. unfold initIndexScan. rewrite Hparams, Hsimple, Hsingle. reflexivity. }
  2: { by apply ends_range_key. }
  2: { by apply ends_range_key. }
  2: done.
  cbn. do 2 f_equal. apply List.filter_ext_in. intros e He%list_elem_of_In. apply list_elem_of_lookup_1 in He as [m He].
  destruct (entry_at _ e He) as (_ & Hok & _). symmetry. by apply Hkeys, entry_key_of.
Qed.
End walk.

(** *** Entries as they are read *)

Lemma norm_norm (v : value) : norm (norm v) = norm v.
Proof.
  assert (Hall : forall fs : list field, Forall (fun f : field => norm (norm f.2) = norm f.2) fs -> norm_fields (norm_fields fs) = norm_fields fs).
  { induction 1 as [|[n v'] fs Hv _ IH]; [done|]. unfold norm_fields in *. cbn [List.map snd] in *. by rewrite Hv, IH. }
  induction v as [fs IH|fs IH|code fs IH|v Hleaf] using value_nested_ind.
  - exact (f_equal VObject (Hall fs IH)).
  - exact (f_equal VArray (Hall fs IH)).
  - exact (f_equal (VCodeWScope code) (Hall fs IH)).
  - destruct v; try done. cbn [norm]. destruct (Dbl.isnan (le_decode raw)) eqn:E; [reflexivity|]. cbn [norm]. by rewrite E.
Qed.
Lemma norm_fields_norm (fs : list field) : norm_fields (norm_fields fs) = norm_fields fs.
Proof. induction fs as [|[n v] fs IH]; [done|]. unfold norm_fields in *. cbn [List.map]. by rewrite norm_norm, IH. Qed.
Lemma norm_fields_key (ver : Version) (ord : Z) (fs : list field) : Forall (fun f : field => key_ok f.2) fs -> Forall (fun f : field => f.1 = []) fs ->
  Forall (fun f : field => key_ok f.2) (norm_fields fs) /\ Forall (fun f : field => f.1 = []) (norm_fields fs) /\
  Ref.fields_bits ver (norm_fields fs) = Ref.fields_bits ver fs /\
  forall i, Order.key_bytes ver ord i (norm_fields fs) = Order.key_bytes ver ord i fs.
Proof.
  induction fs as [|[n v] fs IH]; [done|]. intros [Hv Hfs]%Forall_cons [Hn Hns]%Forall_cons. destruct (IH Hfs Hns) as (H1 & H2 & H3 & H4).
  destruct (norm_same v Hv) as (K1 & K2 & K3 & K4). cbn [norm_fields List.map]. fold (norm_fields fs). cbn in Hn. subst n.
  split; [by constructor|]. split; [by constructor|]. unfold Ref.fields_bits in *. split; [cbn; by rewrite K3, H3|].
  intros i. cbn [Order.key_bytes]. by rewrite H4, K2.
Qed.

Section reads.
Context {T : Type} `{WtTable T}.
Lemma holds_read (ver : Version) (kp : list field) (ord : Z) (isUnique : bool) (t : T) (es : list entry) : holds ver kp ord isUnique t es -> holds ver kp ord isUnique t (entry_read <$> es).
Proof.
  intros [Hr Hok]. split.
  - rewrite Hr, <- list_fmap_compose. apply list_fmap_ext. intros i e He. pose proof (Forall_lookup_1 _ _ _ _ Hok He) as ([[Hk _] Hn] & _).
    destruct (norm_fields_key ver ord e.1 Hk Hn) as (_ & _ & H3 & H4). cbn. unfold entry_row, entry_bytes, entry_item, entry_tail, bits_item. cbn [entry_read fst snd]. by rewrite H3, H4.
  - apply Forall_fmap. eapply Forall_impl; [exact Hok|]. intros e ([(Hk & Hl & Hf) Hn] & Hlen & Hid).
    destruct (norm_fields_key ver ord e.1 Hk Hn) as (H1 & H2 & H3 & _).
    assert (Hln : length (norm_fields e.1) = length e.1) by apply length_map.
    cbn. unfold entry_ok. cbn [entry_read fst snd]. rewrite Hln. split; [|done]. split; [|done]. split; [done|]. split; [lia|]. by rewrite H3.
Qed.
Lemma reads_stable (es : list entry) : Forall (fun e => entry_read e = e) (entry_read <$> es).
Proof. apply Forall_fmap, Forall_true. intros e. cbn. unfold entry_read. cbn. by rewrite norm_fields_norm. Qed.
End reads.

(** ** Theorems *)
Section theorems.
Context {T : Type} `{WtLaws T}.
Variable D : Cmp.Decimal128.
Variable enc : bytes -> bool -> KS.KeyString -> outcome ks_error KS.KeyString.
Variable dec : Z -> bool -> KD.st -> KD.res (value * KD.st).
Variable ver : Version.
Variable kp : list field.
Variable ord : Z.
Hypothesis Hord : Cmp.Ordering_make D kp = Ret ord.
Variable junk : list Z.
Hypothesis Hjunk : length junk = 128%nat.
Variables isUnique isMultikey : bool.
Variable filt : option (list field -> bool).
Variable params : IndexScanParams.
Hypothesis Hscan : direction params = 1 \/ direction params = -1.
Hypothesis Hmax : maxScan params = 0.
Variable t : T.
Variable es : list entry.
Hypothesis Hh : holds ver kp ord isUnique t es.
Variable yields : nat -> bool.
Variable fuel : nat.
Hypothesis Hfuel : (length es < fuel)%nat.

(** What the stage returns of the entries that [p] holds of. *)
Definition results (p : list field -> bool) : list entry :=
  deliver (if doNotDedup params then false else isMultikey) filt ∅
    (List.filter (fun e : entry => p e.1) (scan (scan_forward params) (entry_read <$> es))).

(** C2. The index scan is exact: over an index, standard or unique, that holds the entries [es], with bounds that are
    valid for the scan, the stage comes to its end after at most one call per entry and one
    more, and has returned exactly the entries whose keys are in the bounds, in
    the order of the scan, each record id once where the index is multikey, and
    without those that the filter refuses. This holds for the scan of a single interval up
    to an end position, for the scan that seeks with [IndexBoundsChecker], and wherever
    the stage is saved and restored; without a limit of scanned keys ([maxScan = 0]), and for a key
    pattern without a NaN. *)
Theorem index_scan_exact : isSimpleRange (bounds params) = false -> (0 < length kp)%nat -> comparable_pattern D kp ->
  bounds_ok D (directions D kp (direction params)) (fields (bounds params)) ->
  Forall (fun oil => Forall unnamed (intervals oil)) (fields (bounds params)) ->
  (forall q : list field, (length q <= length kp)%nat ->
    (forall i x, q !! i = Some x -> in_column (entry_read <$> es) (bounds params) i x.2) -> Bits.fits (Ref.fields_bits ver q)) ->
  run D enc dec ver ord junk kp isUnique isMultikey filt params fuel yields t (make_scan params) =
    Ret (results (key_in D (directions D kp (direction params)) (fields (bounds params)))).
Proof.
  intros Hsimple Hkp Hcomp Hb Hun Hroom. pose proof (holds_read ver kp ord isUnique t es Hh) as Hh'. pose proof (reads_stable es) as Hread.
  unfold results. eapply bounds_run; eauto. by rewrite length_fmap.
Qed.

(** C17. A scan of a simple range is exact: it returns the entries from the start key to the
    end key, by [woCompare] of the first fields of each key with the [Ordering] of the index,
    each of the two included or not as the bounds say; an empty end key is no end. There is
    no limit of scanned keys ([maxScan = 0]). *)
Theorem simple_range_exact : isSimpleRange (bounds params) = true ->
  range_key ver kp (startKey (bounds params)) -> range_key ver kp (endKey (bounds params)) ->
  run D enc dec ver ord junk kp isUnique isMultikey filt params fuel yields t (make_scan params) =
    Ret (results (fun k =>
      from_start D ord (direction params) (startKey (bounds params)) (isStartIncludedInBound (boundInclusion (bounds params))) k &&
      to_end D ord (direction params) (endKey (bounds params)) (isEndIncludedInBound (boundInclusion (bounds params))) k)).
Proof.
  intros Hsimple Hsk Hek. pose proof (holds_read ver kp ord isUnique t es Hh) as Hh'. pose proof (reads_stable es) as Hread.
  erewrite (range_run D enc dec ver kp ord Hord junk Hjunk isUnique isMultikey filt params Hscan Hmax yields t (entry_read <$> es) Hh' Hread);
    [|apply make_paused|done| | | | |by rewrite length_fmap].
  2: { unfold fetch. cbn [make_scan _scanState]. unfold initIndexScan. rewrite Hsimple. reflexivity. }
  all: done.
Qed.
End theorems.

(** Queries fit when every value of the entries and of the bounds has few type bits. *)
Lemma room_checked (ver : Version) (es : list entry) (b : IndexBounds) :
  Forall (fun e : entry => Forall (fun x : field => (length (Ref.kbits ver x.2) <= 31)%nat) e.1) es ->
  Forall (fun oil => Forall (bounded (fun v => (length (Ref.kbits ver v) <= 31)%nat)) (intervals oil)) (fields b) ->
  forall q : list field, (length q <= 32)%nat -> (forall i x, q !! i = Some x -> in_column es b i x.2) -> Bits.fits (Ref.fields_bits ver q).
Proof.
  intros Hes Hbs q Hl Hq.
  assert (Hall : Forall (fun x : field => (length (Ref.kbits ver x.2) <= 31)%nat) q).
  { apply Forall_lookup_2. intros i x Hx. destruct (Hq i x Hx) as [(oil & Hoil & Hv)|(e & y & He & Hy & ->)].
    - refine (end_of_ok oil x.2 (fun v => (length (Ref.kbits ver v) <= 31)%nat) _ _ _ Hv); [destruct ver; cbn; lia..|].
      by apply (Forall_lookup_1 _ _ _ _ Hbs Hoil).
    - rewrite Forall_forall in Hes. apply (Forall_lookup_1 _ _ _ _ (Hes e He) Hy). }
  enough (length (Ref.fields_bits ver q) <= 31 * length q)%nat by (unfold Bits.fits; lia). clear - Hall.
  induction Hall as [|[n v] q Hv _ IH]; [done|]. unfold Ref.fields_bits in *. cbn [List.map List.concat length snd] in *. rewrite length_app. lia.
Qed.

(** ** A concrete scan *)
Import Demo Mem.

(** A multikey index, scanned with the bounds of [Guide.demo_bounds]; the stage yields before every other
    call. *)
Definition demo_params : IndexScanParams := mkParams Guide.demo_bounds 1 false 0.
Definition demo_run (p : IndexScanParams) : outcome idx_error (list entry) :=
  run Pattern.no_decimal Keys.no_append no_decode V1 2 (replicate 128 0) Sets.demo_pattern false true None p 7 Nat.even demo_table (make_scan p).

Lemma demo_entries_bits : Forall (fun e : entry => Forall (fun x : field => (length (Ref.kbits V1 x.2) <= 31)%nat) e.1) (entry_read <$> demo_entries).
Proof.
  apply Forall_fmap. repeat (apply Forall_cons; split; [apply Forall_cons; split; [cbn; lia|apply Forall_cons; split; [cbn; lia|by apply Forall_nil]]|]).
  by apply Forall_nil.
Qed.
Lemma demo_bounds_bits :
  Forall (fun oil => Forall (bounded (fun v => (length (Ref.kbits V1 v) <= 31)%nat)) (intervals oil)) (fields (bounds demo_params)).
Proof.
  repeat (apply Forall_cons; split; [repeat (apply Forall_cons; split; [split; cbn; lia|]); by apply Forall_nil|]). by apply Forall_nil.
Qed.
Lemma index_scan_exact_witness : demo_run demo_params = Ret [(int_key 1 10, 7); (int_key 1 3, 8); (int_key 8 3, 11)].
Proof.
  unfold demo_run.
  rewrite (index_scan_exact Pattern.no_decimal Keys.no_append no_decode V1 Sets.demo_pattern 2 demo_ord (replicate 128 0) eq_refl false true None
    demo_params (or_introl eq_refl) eq_refl demo_table demo_entries demo_holds Nat.even 7).
  - vm_compute. reflexivity.
  - cbn. lia.
  - reflexivity.
  - cbn. lia.
  - repeat constructor.
  - exact demo_bounds_ok.
  - repeat constructor.
  - intros q Hq. exact (room_checked V1 (entry_read <$> demo_entries) (bounds demo_params) demo_entries_bits demo_bounds_bits q (Nat.le_trans _ 2 32 Hq ltac:(lia))).
Defined.

(** The keys from [(1, 3)], without it, to those with [a] at most 8. *)
Definition demo_range : IndexScanParams :=
  mkParams (mkBounds [] true (int_key 1 3) [([], VInt 8)] kIncludeEndKeyOnly) 1 false 0.
Lemma simple_range_exact_witness : demo_run demo_range = Ret [(int_key 2 7, 7); (int_key 3 3, 9); (int_key 8 3, 11)].
Proof.
  unfold demo_run.
  rewrite (simple_range_exact Pattern.no_decimal Keys.no_append no_decode V1 Sets.demo_pattern 2 demo_ord (replicate 128 0) eq_refl false true None
    demo_range (or_introl eq_refl) eq_refl demo_table demo_entries demo_holds Nat.even 7).
  - vm_compute. reflexivity.
  - cbn. lia.
  - reflexivity.
  - split; [repeat constructor; set_solver|]. split; [apply (int_entry_ok 1 3 8); [lia|lia|reflexivity]|cbn; lia].
  - split; [repeat constructor; set_solver|]. split; [|cbn; lia]. split; [apply Forall_cons; split; [apply Sets.int_ok; cbn; lia|by apply Forall_nil]|].
    split; [cbn; lia|]. unfold Bits.fits. vm_compute. lia.
Defined.

End Exact.
