(* ===== verification/LockRequestList.v ===== *)
(** * The intrusive request list

    [LockRequestList] of [db/concurrency/lock_request_list.h]: a doubly-linked list whose
    links live in the requests. The memory is a map from requests to their two links;
    [None] is a failed [invariant] or a null or dangling pointer that is dereferenced. The
    operations refine those on plain lists, and leave the links of every other request
    alone, which is what lets [LockManager] use plain lists for its queues. *)
From S2P Require Import Prelude.

Module RequestList.
Local Open Scope nat_scope.

Abbreviation request := nat.

(** The links of a request. *)
Record links := mkLinks { prev : option request; next : option request }.
Abbreviation heap := (gmap request links).

Record LockRequestList := mkList { _front : option request; _back : option request }.

Definition reset : LockRequestList := mkList None None.
Definition empty (l : LockRequestList) : bool := bool_decide (_front l = None).

(** Writes through a pointer. *)
Definition set_prev (h : heap) (r : request) (p : option request) : option heap :=
  n ← h !! r; Some (<[r := mkLinks p (next n)]> h).
Definition set_next (h : heap) (r : request) (p : option request) : option heap :=
  n ← h !! r; Some (<[r := mkLinks (prev n) p]> h).

Definition fresh_links (h : heap) (r : request) : option unit :=
  n ← h !! r;
  if bool_decide (next n = None) && bool_decide (prev n = None) then Some tt else None.

Definition push_front (h : heap) (l : LockRequestList) (r : request) : option (heap * LockRequestList) :=
  _ ← fresh_links h r;
  match _front l with
  | None => Some (h, mkList (Some r) (Some r))
  | Some f =>
      h ← set_next h r (Some f);
      h ← set_prev h f (Some r);
      Some (h, mkList (Some r) (_back l))
  end.

Definition push_back (h : heap) (l : LockRequestList) (r : request) : option (heap * LockRequestList) :=
  _ ← fresh_links h r;
  match _front l with
  | None => Some (h, mkList (Some r) (Some r))
  | Some _ =>
      b ← _back l;
      h ← set_prev h r (Some b);
      h ← set_next h b (Some r);
      Some (h, mkList (_front l) (Some r))
  end.

Definition remove (h : heap) (l : LockRequestList) (r : request) : option (heap * LockRequestList) :=
  n ← h !! r;
  '(h, front) ← match prev n with
                | Some p => h ← set_next h p (next n); Some (h, _front l)
                | None => Some (h, next n)
                end;
  n ← h !! r;
  '(h, back) ← match next n with
               | Some x => h ← set_prev h x (prev n); Some (h, _back l)
               | None => Some (h, prev n)
               end;
  Some (<[r := mkLinks None None]> h, mkList front back).

(** ** Representation *)

Definition hd_or (l : list request) (n : option request) : option request :=
  match l with [] => n | x :: _ => Some x end.
Definition last_or (p : option request) (l : list request) : option request :=
  match last l with None => p | Some x => Some x end.

(** The requests of [l] are linked in order, between [p] and [n]. *)
Fixpoint segment (h : heap) (p : option request) (l : list request) (n : option request) : Prop :=
  match l with
  | [] => True
  | r :: l => h !! r = Some (mkLinks p (hd_or l n)) /\ segment h (Some r) l n
  end.

(** The memory and the two pointers represent the list [l]. *)
Definition represents (h : heap) (q : LockRequestList) (l : list request) : Prop :=
  _front q = head l /\ _back q = last l /\ NoDup l /\ segment h None l None.

(** Only requests of [l] have had their links changed. *)
Definition frame (h h' : heap) (l : list request) : Prop := forall x, x ∉ l -> h' !! x = h !! x.

(** The list without a request. *)
Definition without (r : request) (l : list request) : list request := filter (fun x => x <> r) l.

Lemma hd_or_app (l l' : list request) (n : option request) : hd_or (l ++ l') n = hd_or l (hd_or l' n).
Proof. by destruct l. Qed.

Lemma last_or_cons (p : option request) (r : request) (l : list request) :
  last_or p (r :: l) = last_or (Some r) l.
Proof. unfold last_or. rewrite last_cons. by destruct (last l). Qed.

Lemma segment_app (h : heap) (l1 l2 : list request) (p n : option request) :
  segment h p (l1 ++ l2) n <-> segment h p l1 (hd_or l2 n) /\ segment h (last_or p l1) l2 n.
Proof.
  revert p; induction l1 as [|r l1 IH]; intros p; cbn [app segment]; [tauto|].
  rewrite IH, hd_or_app, last_or_cons. tauto.
Qed.

Lemma segment_frame (h h' : heap) (l : list request) (p n : option request) :
  (forall x, x ∈ l -> h' !! x = h !! x) -> segment h p l n -> segment h' p l n.
Proof.
  revert p; induction l as [|r l IH]; intros p Hx; cbn [segment]; [done|].
  intros [Hr Hs]. split; [rewrite Hx by set_solver; done|]. apply IH; [set_solver|done].
Qed.

Lemma segment_insert (h : heap) (x : request) (k : links) (l : list request) (p n : option request) :
  x ∉ l -> segment h p l n -> segment (<[x := k]> h) p l n.
Proof. intros Hx. apply segment_frame. intros y Hy. apply lookup_insert_ne. set_solver. Qed.

(** Redirecting the link out of a segment at either end. *)
Lemma segment_set_next (h : heap) (l : list request) (b : request) (p n n' : option request) :
  NoDup (l ++ [b]) -> segment h p (l ++ [b]) n ->
  exists h', set_next h b n' = Some h' /\ segment h' p (l ++ [b]) n' /\ frame h h' [b].
Proof.
  intros Hnd [Hl [Hb _]]%segment_app. unfold set_next. rewrite Hb. cbn. eexists; split; [done|]. split.
  - apply segment_app. split; [|split; [by rewrite lookup_insert_eq|done]].
    apply segment_insert; [|done]. apply NoDup_app in Hnd as (_ & Hd & _). set_solver.
  - intros x Hx. apply lookup_insert_ne. set_solver.
Qed.

Lemma segment_set_prev (h : heap) (f : request) (l : list request) (p p' n : option request) :
  NoDup (f :: l) -> segment h p (f :: l) n ->
  exists h', set_prev h f p' = Some h' /\ segment h' p' (f :: l) n /\ frame h h' [f].
Proof.
  intros [Hf Hnd]%NoDup_cons [Hh Hl]. unfold set_prev. rewrite Hh. cbn. eexists; split; [done|]. split.
  - split; [by rewrite lookup_insert_eq|]. by apply segment_insert.
  - intros x Hx. apply lookup_insert_ne. set_solver.
Qed.
Lemma push_front_refines (h : heap) (q : LockRequestList) (l : list request) (r : request) :
  represents h q l -> r ∉ l -> h !! r = Some (mkLinks None None) ->
  exists h' q', push_front h q r = Some (h', q') /\ represents h' q' (r :: l) /\ frame h h' (r :: l).
Proof.
  intros (Hf & Hb & Hnd & Hs) Hr Hlr. unfold push_front, fresh_links. rewrite Hlr, Hf. cbn [mbind option_bind].
  destruct l as [|f l].
  { eexists _, _. split; [done|]. split; [|by intros x _]. split_and!; try done. by apply NoDup_singleton. }
  cbn [bool_decide andb head]. unfold set_next at 1. rewrite Hlr. cbn [mbind option_bind prev].
  destruct (segment_set_prev (<[r := mkLinks None (Some f)]> h) f l None (Some r) None Hnd) as (h' & -> & Hs' & Hfr).
  { by apply segment_insert. }
  eexists _, _. split; [done|]. split.
  - split_and!; [done|exact Hb|by apply NoDup_cons|]. split; [|done].
    rewrite Hfr by set_solver. by rewrite lookup_insert_eq.
  - intros x Hx. rewrite Hfr by set_solver. apply lookup_insert_ne. set_solver.
Qed.

Lemma push_back_refines (h : heap) (q : LockRequestList) (l : list request) (r : request) :
  represents h q l -> r ∉ l -> h !! r = Some (mkLinks None None) ->
  exists h' q', push_back h q r = Some (h', q') /\ represents h' q' (l ++ [r]) /\ frame h h' (r :: l).
Proof.
  intros (Hf & Hb & Hnd & Hs) Hr Hlr. unfold push_back, fresh_links. rewrite Hlr, Hf, Hb. cbn [mbind option_bind].
  destruct l as [|b l _] using rev_ind.
  { eexists _, _. split; [done|]. split; [|by intros x _]. split_and!; try done. by apply NoDup_singleton. }
  destruct (head (l ++ [b])) as [f|] eqn:Ef; [|by destruct l].
  cbn [bool_decide andb]. rewrite last_snoc. unfold set_prev at 1. rewrite Hlr. cbn [mbind option_bind next].
  destruct (segment_set_next (<[r := mkLinks (Some b) None]> h) l b None None (Some r) Hnd) as (h' & -> & Hs' & Hfr).
  { by apply segment_insert. }
  eexists _, _. split; [done|]. split.
  - split_and!; [cbn [_front]; by destruct l|cbn [_back]; by rewrite last_snoc|apply NoDup_app; set_solver by apply NoDup_singleton|].
    apply segment_app. split; [done|]. unfold last_or. rewrite last_snoc. split; [|done].
    rewrite Hfr by set_solver. by rewrite lookup_insert_eq.
  - intros x Hx. rewrite Hfr by set_solver. apply lookup_insert_ne. set_solver.
Qed.
(** The first half of [remove]: what precedes [r] now leads to what follows it. *)
Lemma remove_before (h : heap) (l1 l2 : list request) (r : request) (n : option request) :
  NoDup (l1 ++ r :: l2) -> segment h None (l1 ++ r :: l2) n ->
  exists h', match last l1 with
             | Some p => set_next h p (hd_or l2 n)
             | None => Some h
             end = Some h' /\
    segment h' None l1 (hd_or l2 n) /\ segment h' (last_or None l1) (r :: l2) n /\ frame h h' l1.
Proof.
  intros Hnd [H1 H2]%segment_app. destruct l1 as [|p l1 _] using rev_ind.
  { eexists. split; [done|]. split_and!; [done|done|by intros x _]. }
  apply NoDup_app in Hnd as (Hnd1 & Hd & _). rewrite last_snoc.
  destruct (segment_set_next h l1 p None (hd_or (r :: l2) n) (hd_or l2 n) Hnd1 H1) as (h' & -> & Hs & Hf).
  eexists. split; [done|]. split_and!; [done| |intros x Hx; apply Hf; set_solver].
  apply (segment_frame h); [|done]. intros x Hx. apply Hf. set_solver.
Qed.

(** The second half: what follows [r] now leads back to what precedes it. *)
Lemma remove_after (h : heap) (l2 : list request) (r : request) (p n : option request) :
  NoDup (r :: l2) -> segment h p (r :: l2) None ->
  exists h', match l2 with
             | x :: _ => set_prev h x p
             | [] => Some h
             end = Some h' /\ segment h' p l2 None /\ frame h h' l2.
Proof.
  intros [Hr Hnd]%NoDup_cons [_ H2]. destruct l2 as [|x l2].
  { eexists. split; [done|]. split; [done|by intros x _]. }
  destruct (segment_set_prev h x l2 (Some r) p None Hnd H2) as (h' & -> & Hs & Hf).
  eexists. split; [done|]. split; [done|]. intros y Hy. apply Hf. set_solver.
Qed.

Lemma remove_split (h : heap) (q : LockRequestList) (l1 l2 : list request) (r : request) :
  represents h q (l1 ++ r :: l2) ->
  exists h' q', remove h q r = Some (h', q') /\ represents h' q' (l1 ++ l2) /\
    h' !! r = Some (mkLinks None None) /\ frame h h' (l1 ++ r :: l2).
Proof.
  intros (Hf & Hb & Hnd & Hs). pose proof Hs as [_ [Hr _]]%segment_app.
  destruct (remove_before h l1 l2 r None Hnd Hs) as (h1 & E1 & Hs1 & [Hr1 Hs2] & Hf1).
  pose proof Hnd as (Hnd1 & Hd & Hnd2)%NoDup_app.
  destruct (remove_after h1 l2 r (last_or None l1) None Hnd2 (conj Hr1 Hs2)) as (h2 & E2 & Hs3 & Hf2).
  pose proof Hnd2 as [Hrl2 Hnd3]%NoDup_cons.
  exists (<[r := mkLinks None None]> h2), (mkList (head (l1 ++ l2)) (last (l1 ++ l2))). split_and!.
  - unfold remove. rewrite Hr. cbn [mbind option_bind prev next].
    assert (forall k, match last_or None l1 with
            | Some p => h' ← set_next h p (hd_or l2 None); Some (h', _front q)
            | None => Some (h, hd_or l2 None)
            end ≫= k = k (h1, head (l1 ++ l2)) :> option (heap * LockRequestList)) as ->.
    { intros k. unfold last_or. destruct l1 as [|p l1' _] using rev_ind.
      - cbn in E1. injection E1 as <-. cbn. by destruct l2.
      - rewrite last_snoc in *. rewrite E1. cbn. rewrite Hf. by destruct l1'. }
    rewrite Hr1. cbn [mbind option_bind prev next]. destruct l2 as [|x l2]; cbn [hd_or].
    + injection E2 as <-. cbn. do 3 f_equal. unfold last_or. rewrite app_nil_r. by destruct (last l1).
    + rewrite E2. cbn. do 3 f_equal. by rewrite Hb, !last_app_cons, last_cons_cons.
  - split_and!; [done|done|apply NoDup_app; set_solver|]. apply segment_insert; [set_solver|].
    apply segment_app. split; [|done]. apply (segment_frame h1); [|done]. intros x Hx. apply Hf2. set_solver.
  - by rewrite lookup_insert_eq.
  - intros x Hx. rewrite lookup_insert_ne by set_solver. rewrite Hf2 by set_solver. apply Hf1. set_solver.
Qed.

Lemma without_notin (r : request) (l : list request) : r ∉ l -> without r l = l.
Proof.
  induction l as [|x l IH]; [done|]. intros H. unfold without in *. rewrite filter_cons_True by set_solver.
  f_equal. apply IH. set_solver.
Qed.

Lemma without_split (l1 l2 : list request) (r : request) :
  NoDup (l1 ++ r :: l2) -> without r (l1 ++ r :: l2) = l1 ++ l2.
Proof.
  intros (H1 & Hd & [Hr _]%NoDup_cons)%NoDup_app. unfold without.
  rewrite filter_app, filter_cons_False by (intros H; by apply H).
  f_equal; apply without_notin; set_solver.
Qed.

(** C39. The intrusive list refines a plain list of requests: on a memory that represents
    [l], [push_front] and [push_back] of a request that is on no list, and [remove] of a
    member, dereference no bad pointer and fail no invariant; the result represents [r :: l],
    [l] with [r] last, and [l] without [r]; a removed request can be pushed again; and the
    links of requests outside the list are untouched, so two lists do not disturb each
    other. *)
Theorem list_operations_refine (h : heap) (q : LockRequestList) (l : list request) :
  represents h q l ->
  (forall r, r ∉ l -> h !! r = Some (mkLinks None None) ->
     exists h' q', push_front h q r = Some (h', q') /\ represents h' q' (r :: l) /\ frame h h' (r :: l)) /\
  (forall r, r ∉ l -> h !! r = Some (mkLinks None None) ->
     exists h' q', push_back h q r = Some (h', q') /\ represents h' q' (l ++ [r]) /\ frame h h' (r :: l)) /\
  (forall r, r ∈ l ->
     exists h' q', remove h q r = Some (h', q') /\ represents h' q' (without r l) /\
       h' !! r = Some (mkLinks None None) /\ frame h h' l) /\
  empty q = bool_decide (l = []).
Proof.
  intros Hrep. split_and!; [intros r; by apply push_front_refines|intros r; by apply push_back_refines| |].
  - intros r (l1 & l2 & ->)%list_elem_of_split. pose proof Hrep as (_ & _ & Hnd & _).
    rewrite without_split by done. by apply remove_split.
  - destruct Hrep as (Hf & _). unfold empty. rewrite Hf. by destruct l.
Qed.

(** Two requests on a list, a third one fresh. *)
Definition sample_heap : heap :=
  {[ 1 := mkLinks None (Some 2); 2 := mkLinks (Some 1) None; 3 := mkLinks None None ]}.

Lemma list_operations_refine_witness :
  represents sample_heap (mkList (Some 1) (Some 2)) [1; 2] /\
  exists h' q', remove sample_heap (mkList (Some 1) (Some 2)) 1 = Some (h', q') /\ represents h' q' [2] /\
    h' !! 1 = Some (mkLinks None None) /\ frame sample_heap h' [1; 2].
Proof.
  assert (represents sample_heap (mkList (Some 1) (Some 2)) [1; 2]) as H.
  { split_and!; [done|done|by apply (bool_decide_unpack _); vm_compute|by vm_compute]. }
  split; [exact H|]. apply (list_operations_refine sample_heap (mkList (Some 1) (Some 2)) [1; 2] H). set_solver.
Defined.

(** Removing a request that is on no list empties the list it is removed from: its null
    links become the new ends. *)
Lemma remove_stranger (h : heap) (q : LockRequestList) (r : request) :
  h !! r = Some (mkLinks None None) -> exists h', remove h q r = Some (h', reset).
Proof. intros H. unfold remove. rewrite H. cbn [mbind option_bind prev next]. rewrite H. by eexists. Qed.

End RequestList.
