(* ===== verification/LockManager.v ===== *)
(** * The lock manager

    [db/concurrency/lock_manager.cpp]: the multi-granularity lock manager. A resource's
    [LockHead] has a queue of granted requests and one of waiting requests, with per-mode
    counts and bit masks kept beside them; intent requests may instead sit on one of 32
    partitions, and are migrated to the head when a request with another mode arrives.

    The queues are plain lists of requests, which the intrusive lists of [LockRequestList]
    implement. A pointer to a head is the resource it is for, a pointer to a partitioned head
    the partition and the resource. [None] is a failed [invariant] or a request that does not
    exist; counts are natural numbers, which is exact as long as fewer than 2^32 requests are
    alive. A critical section (the code between taking and releasing a bucket or partition
    mutex) is one definition; the public calls compose them, and [step] interleaves them. *)
From S2P Require Import Prelude LockRequestList.

Module Lock.
Import RequestList.
Local Open Scope nat_scope.

(** ** Modes and conflicts *)

Inductive LockMode := MODE_NONE | MODE_IS | MODE_IX | MODE_S | MODE_X.
#[global] Instance LockMode_eq_dec : EqDecision LockMode. Proof. solve_decision. Defined.

Inductive LockResult := LOCK_OK | LOCK_WAITING.
#[global] Instance LockResult_eq_dec : EqDecision LockResult. Proof. solve_decision. Defined.

Inductive Status := STATUS_NEW | STATUS_GRANTED | STATUS_WAITING | STATUS_CONVERTING.
#[global] Instance Status_eq_dec : EqDecision Status. Proof. solve_decision. Defined.

(** The value of the enumerator. *)
Definition mode_index (m : LockMode) : Z :=
  match m with MODE_NONE => 0 | MODE_IS => 1 | MODE_IX => 2 | MODE_S => 3 | MODE_X => 4 end%Z.

Definition modeMask (m : LockMode) : Z := Z.shiftl 1 (mode_index m).

Definition LockConflictsTable (m : LockMode) : Z :=
  match m with
  | MODE_NONE => 0
  | MODE_IS => Z.shiftl 1 (mode_index MODE_X)
  | MODE_IX => Z.lor (Z.shiftl 1 (mode_index MODE_S)) (Z.shiftl 1 (mode_index MODE_X))
  | MODE_S => Z.lor (Z.shiftl 1 (mode_index MODE_IX)) (Z.shiftl 1 (mode_index MODE_X))
  | MODE_X => Z.lor (Z.lor (Z.lor (Z.shiftl 1 (mode_index MODE_S)) (Z.shiftl 1 (mode_index MODE_X)))
                           (Z.shiftl 1 (mode_index MODE_IS))) (Z.shiftl 1 (mode_index MODE_IX))
  end%Z.

Definition intentModes : Z := Z.lor (Z.shiftl 1 (mode_index MODE_IS)) (Z.shiftl 1 (mode_index MODE_IX)).

Definition conflicts (newMode : LockMode) (existingModesMask : Z) : bool :=
  negb (Z.land (LockConflictsTable newMode) existingModesMask =? 0)%Z.

Definition isModeCovered (mode coveringMode : LockMode) : bool :=
  (Z.lor (LockConflictsTable coveringMode) (LockConflictsTable mode) =? LockConflictsTable coveringMode)%Z.

(** The modes of the loops over [1 .. LockModesCount). *)
Definition real_modes : list LockMode := [MODE_IS; MODE_IX; MODE_S; MODE_X].

(** ** Requests and heads *)

Abbreviation ResourceId := Z.
Abbreviation partition := nat.

Record LockRequest := mkRequest {
  locker : Z;
  enqueueAtFront : bool;
  compatibleFirst : bool;
  partitioned : bool;
  recursiveCount : nat;
  lockHead : option ResourceId;
  partitionedLock : option (partition * ResourceId);
  status : Status;
  mode : LockMode;
  convertMode : LockMode }.

Definition initNew (lk : Z) : LockRequest :=
  mkRequest lk false false false 1 None None STATUS_NEW MODE_NONE MODE_NONE.

Definition set_partitioned (b : bool) (q : LockRequest) : LockRequest :=
  mkRequest (locker q) (enqueueAtFront q) (compatibleFirst q) b (recursiveCount q) (lockHead q)
    (partitionedLock q) (status q) (mode q) (convertMode q).
Definition set_recursiveCount (n : nat) (q : LockRequest) : LockRequest :=
  mkRequest (locker q) (enqueueAtFront q) (compatibleFirst q) (partitioned q) n (lockHead q)
    (partitionedLock q) (status q) (mode q) (convertMode q).
Definition set_lockHead (l : option ResourceId) (q : LockRequest) : LockRequest :=
  mkRequest (locker q) (enqueueAtFront q) (compatibleFirst q) (partitioned q) (recursiveCount q) l
    (partitionedLock q) (status q) (mode q) (convertMode q).
Definition set_partitionedLock (p : option (partition * ResourceId)) (q : LockRequest) : LockRequest :=
  mkRequest (locker q) (enqueueAtFront q) (compatibleFirst q) (partitioned q) (recursiveCount q) (lockHead q)
    p (status q) (mode q) (convertMode q).
Definition set_status (s : Status) (q : LockRequest) : LockRequest :=
  mkRequest (locker q) (enqueueAtFront q) (compatibleFirst q) (partitioned q) (recursiveCount q) (lockHead q)
    (partitionedLock q) s (mode q) (convertMode q).
Definition set_mode (m : LockMode) (q : LockRequest) : LockRequest :=
  mkRequest (locker q) (enqueueAtFront q) (compatibleFirst q) (partitioned q) (recursiveCount q) (lockHead q)
    (partitionedLock q) (status q) m (convertMode q).
Definition set_convertMode (m : LockMode) (q : LockRequest) : LockRequest :=
  mkRequest (locker q) (enqueueAtFront q) (compatibleFirst q) (partitioned q) (recursiveCount q) (lockHead q)
    (partitionedLock q) (status q) (mode q) m.

Abbreviation requests := (gmap request LockRequest).

(** A count per mode with its bit mask. *)
Record Modes := mkModes { counts : LockMode -> nat; mask : Z }.

Record LockHead := mkHead {
  grantedList : list request;
  granted : Modes;
  conflictList : list request;
  conflict : Modes;
  partitions : list partition;
  conversionsCount : nat;
  compatibleFirstCount : nat }.

Definition no_modes : Modes := mkModes (fun _ => 0) 0.
Definition head_initNew : LockHead := mkHead [] no_modes [] no_modes [] 0 0.

Definition head_partitioned (h : LockHead) : bool := negb (bool_decide (partitions h = [])).

Definition invariant (b : bool) : option unit := if b then Some tt else None.

Definition set_count (c : LockMode -> nat) (m : LockMode) (n : nat) : LockMode -> nat :=
  fun x => if decide (x = m) then n else c x.

(** [incGrantedModeCount] and [incConflictModeCount]. *)
Definition incModeCount (m : LockMode) (g : Modes) : option Modes :=
  let n := S (counts g m) in
  let c := set_count (counts g) m n in
  if n =? 1 then
    _ ← invariant (Z.land (mask g) (modeMask m) =? 0)%Z;
    Some (mkModes c (Z.lor (mask g) (modeMask m)))
  else Some (mkModes c (mask g)).

(** [decGrantedModeCount] and [decConflictModeCount]. *)
Definition decModeCount (m : LockMode) (g : Modes) : option Modes :=
  _ ← invariant (1 <=? counts g m);
  let n := counts g m - 1 in
  let c := set_count (counts g) m n in
  if n =? 0 then
    _ ← invariant (Z.land (mask g) (modeMask m) =? modeMask m)%Z;
    Some (mkModes c (Z.ldiff (mask g) (modeMask m)))
  else Some (mkModes c (mask g)).
(** ** The lock head *)

Definition locker_of (rq : requests) (r : request) : option Z := locker <$> rq !! r.

(** The first request of the granted queue, then of the conflict queue, with the locker. *)
Definition findRequest (rq : requests) (h : LockHead) (lk : Z) : option request :=
  snd <$> list_find (fun r => locker_of rq r = Some lk) (grantedList h ++ conflictList h).

Definition newRequest (res : ResourceId) (h : LockHead) (rq : requests) (r : request)
    : option (LockResult * LockHead * requests) :=
  q ← rq !! r;
  _ ← invariant (bool_decide (partitionedLock q = None));
  let q := set_lockHead (Some res) q in
  if conflicts (mode q) (mask (granted h))
     || ((compatibleFirstCount h =? 0) && conflicts (mode q) (mask (conflict h))) then
    let q := set_status STATUS_WAITING q in
    let l := if enqueueAtFront q then r :: conflictList h else conflictList h ++ [r] in
    c ← incModeCount (mode q) (conflict h);
    Some (LOCK_WAITING,
          mkHead (grantedList h) (granted h) l c (partitions h) (conversionsCount h) (compatibleFirstCount h),
          <[r := q]> rq)
  else
    let q := set_status STATUS_GRANTED q in
    g ← incModeCount (mode q) (granted h);
    Some (LOCK_OK,
          mkHead (grantedList h ++ [r]) g (conflictList h) (conflict h) (partitions h) (conversionsCount h)
            (if compatibleFirst q then S (compatibleFirstCount h) else compatibleFirstCount h),
          <[r := q]> rq).

(** The inner loop of [migratePartitionedLockHeads], on the requests of one partition. *)
Fixpoint migrate_requests (res : ResourceId) (l : list request) (h : LockHead) (rq : requests)
    : option (LockHead * requests) :=
  match l with
  | [] => Some (h, rq)
  | r :: l =>
      q ← rq !! r;
      '(result, h, rq) ← newRequest res h (<[r := set_partitionedLock None q]> rq) r;
      _ ← invariant (bool_decide (result = LOCK_OK));
      migrate_requests res l h rq
  end.

Definition set_partitions (ps : list partition) (h : LockHead) : LockHead :=
  mkHead (grantedList h) (granted h) (conflictList h) (conflict h) ps (conversionsCount h) (compatibleFirstCount h).

(** The data of all the partitions. *)
Abbreviation partition_data := (gmap (partition * ResourceId) (list request)).

(** The outer loop; [ps] is the vector of partitions, its back first. *)
Fixpoint migrate_partitions (res : ResourceId) (ps : list partition) (h : LockHead) (rq : requests)
    (pd : partition_data) : option (LockHead * requests * partition_data) :=
  match ps with
  | [] => Some (h, rq, pd)
  | p :: ps =>
      '(h, rq, pd) ← match pd !! (p, res) with
                     | Some l => '(h, rq) ← migrate_requests res l h rq; Some (h, rq, delete (p, res) pd)
                     | None => Some (h, rq, pd)
                     end;
      migrate_partitions res ps (set_partitions ps h) rq pd
  end.

Definition migratePartitionedLockHeads (res : ResourceId) (h : LockHead) (rq : requests) (pd : partition_data)
    : option (LockHead * requests * partition_data) :=
  _ ← invariant (head_partitioned h);
  _ ← invariant ((Z.ldiff (mask (granted h)) intentModes =? 0)%Z && (mask (conflict h) =? 0)%Z);
  migrate_partitions res (partitions h) h rq pd.

(** The modes granted, but for what the request itself holds and waits for. *)
Definition grantedModesWithout (own : LockMode -> nat) (g : Modes) : Z :=
  foldl (fun acc m => if own m <? counts g m then Z.lor acc (modeMask m) else acc) 0%Z real_modes.

Definition is_mode (m m' : LockMode) : nat := if decide (m = m') then 1 else 0.

(** *** [_onLockModeChanged] *)

(** The loop over the granted queue, which grants the conversions that no longer conflict. *)
Fixpoint grant_conversions (l : list request) (h : LockHead) (rq : requests) (notified : list request)
    : option (LockHead * requests * list request) :=
  match l with
  | [] => Some (h, rq, notified)
  | r :: l =>
      if conversionsCount h =? 0 then Some (h, rq, notified) else
      q ← rq !! r;
      if bool_decide (status q = STATUS_CONVERTING) then
        _ ← invariant (negb (bool_decide (convertMode q = MODE_NONE)));
        let own m := is_mode (mode q) m + is_mode (convertMode q) m in
        _ ← invariant (forallb (fun m => own m <=? 1) real_modes);
        if negb (conflicts (convertMode q) (grantedModesWithout own (granted h))) then
          g ← decModeCount (mode q) (granted h);
          let q := set_convertMode MODE_NONE (set_mode (convertMode q) (set_status STATUS_GRANTED q)) in
          grant_conversions l
            (mkHead (grantedList h) g (conflictList h) (conflict h) (partitions h) (conversionsCount h - 1)
               (compatibleFirstCount h))
            (<[r := q]> rq) (notified ++ [r])
        else grant_conversions l h rq notified
      else grant_conversions l h rq notified
  end.

(** The loop over the conflict queue. A request has no [prev] when it is at the front of
    what is left of the queue. *)
Fixpoint grant_waiting (l : list request) (newlyCompatibleFirst : bool) (h : LockHead) (rq : requests)
    (notified : list request) : option (LockHead * requests * list request) :=
  match l with
  | [] => Some (h, rq, notified)
  | r :: l =>
      q ← rq !! r;
      _ ← invariant (bool_decide (status q = STATUS_WAITING));
      if conflicts (mode q) (mask (granted h)) then
        if bool_decide (head (conflictList h) = Some r) && negb newlyCompatibleFirst
        then Some (h, rq, notified)
        else grant_waiting l newlyCompatibleFirst h rq notified
      else
        let q := set_status STATUS_GRANTED q in
        c ← decModeCount (mode q) (conflict h);
        g ← incModeCount (mode q) (granted h);
        let newly := newlyCompatibleFirst || (compatibleFirst q && (compatibleFirstCount h =? 0)) in
        let h := mkHead (grantedList h ++ [r]) g (without r (conflictList h)) c (partitions h)
                   (conversionsCount h)
                   (if compatibleFirst q then S (compatibleFirstCount h) else compatibleFirstCount h) in
        if bool_decide (mode q = MODE_X) then Some (h, <[r := q]> rq, notified ++ [r])
        else grant_waiting l newly h (<[r := q]> rq) (notified ++ [r])
  end.

Definition _onLockModeChanged (h : LockHead) (rq : requests) (checkConflictQueue : bool)
    : option (LockHead * requests * list request) :=
  '(h, rq, notified) ← grant_conversions (grantedList h) h rq [];
  '(h, rq, notified) ← (if checkConflictQueue : bool then grant_waiting (conflictList h) false h rq notified
                        else Some (h, rq, notified));
  _ ← invariant (xorb (mask (granted h) =? 0)%Z (negb (bool_decide (grantedList h = []))));
  _ ← invariant (xorb (mask (conflict h) =? 0)%Z (negb (bool_decide (conflictList h = []))));
  Some (h, rq, notified).

(** ** The lock manager *)

Definition _numLockBuckets : Z := 128.
Definition _numPartitions : Z := 32.

Definition _getBucket (res : ResourceId) : Z := (res mod _numLockBuckets)%Z.
Definition _getPartition (q : LockRequest) : partition := Z.to_nat (locker q mod _numPartitions).

(** [heads] is the data of all the buckets; [notified] records the grant notifications. *)
Record LockManager := mkManager {
  reqs : requests;
  heads : gmap ResourceId LockHead;
  parts : partition_data;
  notified : list (request * ResourceId) }.

(** The head of a resource, a new one where the bucket has none. *)
Definition findOrInsert (res : ResourceId) (M : LockManager) : LockHead := default head_initNew (heads M !! res).

(** [PartitionedLockHead::newRequest]. *)
Definition partition_newRequest (p : partition) (res : ResourceId) (r : request) (M : LockManager)
    : option LockManager :=
  q ← reqs M !! r;
  _ ← invariant (partitioned q);
  _ ← invariant (bool_decide (lockHead q = None));
  let l := default [] (parts M !! (p, res)) in
  Some (mkManager (<[r := set_status STATUS_GRANTED (set_partitionedLock (Some (p, res)) q)]> (reqs M))
          (heads M) (<[(p, res) := l ++ [r]]> (parts M)) (notified M)).

(** *** [lock] *)

(** Before any mutex is taken. *)
Definition lock_enter (r : request) (m : LockMode) (M : LockManager) : option LockManager :=
  q ← reqs M !! r;
  _ ← invariant (bool_decide (status q = STATUS_NEW));
  _ ← invariant (recursiveCount q =? 1);
  let b := bool_decide (m = MODE_IX) || bool_decide (m = MODE_IS) in
  Some (mkManager (<[r := set_mode m (set_partitioned b q)]> (reqs M)) (heads M) (parts M) (notified M)).

(** Under the partition's mutex: [Some LOCK_OK] is an early return. *)
Definition lock_partition (res : ResourceId) (r : request) (M : LockManager)
    : option (option LockResult * LockManager) :=
  q ← reqs M !! r;
  if partitioned q then
    match parts M !! (_getPartition q, res) with
    | Some _ => M ← partition_newRequest (_getPartition q) res r M; Some (Some LOCK_OK, M)
    | None => Some (None, M)
    end
  else Some (None, M).

(** Migration, where the head is partitioned. *)
Definition migrate_if_partitioned (res : ResourceId) (h : LockHead) (rq : requests) (pd : partition_data)
    : option (LockHead * requests * partition_data) :=
  if head_partitioned h then migratePartitionedLockHeads res h rq pd else Some (h, rq, pd).

(** Under the bucket's mutex. *)
Definition lock_bucket (res : ResourceId) (r : request) (M : LockManager)
    : option (LockResult * LockManager) :=
  q ← reqs M !! r;
  let h := findOrInsert res M in
  if partitioned q && (Z.ldiff (mask (granted h)) intentModes =? 0)%Z && (mask (conflict h) =? 0)%Z then
    let h := set_partitions (_getPartition q :: partitions h) h in
    M ← partition_newRequest (_getPartition q) res r
          (mkManager (reqs M) (<[res := h]> (heads M)) (parts M) (notified M));
    Some (LOCK_OK, M)
  else
    '(h, rq, pd) ← migrate_if_partitioned res h (reqs M) (parts M);
    q ← rq !! r;
    '(result, h, rq) ← newRequest res h (<[r := set_partitioned false q]> rq) r;
    Some (result, mkManager rq (<[res := h]> (heads M)) pd (notified M)).

Definition lock (res : ResourceId) (r : request) (m : LockMode) (M : LockManager)
    : option (LockResult * LockManager) :=
  M ← lock_enter r m M;
  '(result, M) ← lock_partition res r M;
  match result with
  | Some x => Some (x, M)
  | None => lock_bucket res r M
  end.

(** *** [convert] *)

Definition update_request (r : request) (q : LockRequest) (M : LockManager) : LockManager :=
  mkManager (<[r := q]> (reqs M)) (heads M) (parts M) (notified M).

(** [true]: the fast path has returned [LOCK_OK]. *)
Definition convert_enter (r : request) (newMode : LockMode) (M : LockManager) : option (bool * LockManager) :=
  q ← reqs M !! r;
  _ ← invariant (bool_decide (status q = STATUS_GRANTED));
  _ ← invariant (1 <=? recursiveCount q);
  let M := update_request r (set_recursiveCount (S (recursiveCount q)) q) M in
  if isModeCovered newMode (mode q) then Some (true, M)
  else
    _ ← invariant (isModeCovered (mode q) newMode);
    Some (false, M).

Definition convert_bucket (res : ResourceId) (r : request) (newMode : LockMode) (M : LockManager)
    : option (LockResult * LockManager) :=
  h ← heads M !! res;
  '(h, rq, pd) ← migrate_if_partitioned res h (reqs M) (parts M);
  q ← rq !! r;
  if conflicts newMode (grantedModesWithout (is_mode (mode q)) (granted h)) then
    g ← incModeCount newMode (granted h);
    let h := mkHead (grantedList h) g (conflictList h) (conflict h) (partitions h) (S (conversionsCount h))
               (compatibleFirstCount h) in
    let q := set_convertMode newMode (set_status STATUS_CONVERTING q) in
    Some (LOCK_WAITING, mkManager (<[r := q]> rq) (<[res := h]> (heads M)) pd (notified M))
  else
    g ← incModeCount newMode (granted h);
    g ← decModeCount (mode q) g;
    let h := mkHead (grantedList h) g (conflictList h) (conflict h) (partitions h) (conversionsCount h)
               (compatibleFirstCount h) in
    Some (LOCK_OK, mkManager (<[r := set_mode newMode q]> rq) (<[res := h]> (heads M)) pd (notified M)).

Definition convert (res : ResourceId) (r : request) (newMode : LockMode) (M : LockManager)
    : option (LockResult * LockManager) :=
  '(fast, M) ← convert_enter r newMode M;
  if fast : bool then Some (LOCK_OK, M) else convert_bucket res r newMode M.

(** *** [unlock] *)

(** Before any mutex is taken; [true]: the fast path has returned [false]. *)
Definition unlock_enter (r : request) (M : LockManager) : option (bool * LockManager) :=
  q ← reqs M !! r;
  _ ← invariant (1 <=? recursiveCount q);
  let q := set_recursiveCount (recursiveCount q - 1) q in
  Some (bool_decide (status q = STATUS_GRANTED) && (1 <=? recursiveCount q), update_request r q M).

(** Under the partition's mutex; [true]: the request was still partitioned and is released. *)
Definition unlock_partition (r : request) (M : LockManager) : option (bool * LockManager) :=
  q ← reqs M !! r;
  if partitioned q then
    _ ← invariant (bool_decide (status q = STATUS_GRANTED) || bool_decide (status q = STATUS_CONVERTING));
    match partitionedLock q with
    | Some pr =>
        l ← parts M !! pr;
        Some (true, mkManager (reqs M) (heads M) (<[pr := without r l]> (parts M)) (notified M))
    | None => Some (false, M)
    end
  else Some (false, M).

(** Store the head and the requests that [_onLockModeChanged] has produced. *)
Definition mode_changed (res : ResourceId) (h : LockHead) (rq : requests) (check : bool) (M : LockManager)
    : option LockManager :=
  '(h, rq, l) ← _onLockModeChanged h rq check;
  Some (mkManager rq (<[res := h]> (heads M)) (parts M) (notified M ++ ((fun x => (x, res)) <$> l))).

(** Under the bucket's mutex. *)
Definition unlock_bucket (r : request) (M : LockManager) : option (bool * LockManager) :=
  q ← reqs M !! r;
  res ← lockHead q;
  h ← heads M !! res;
  M ← match status q with
      | STATUS_GRANTED =>
          g ← decModeCount (mode q) (granted h);
          let h := mkHead (without r (grantedList h)) g (conflictList h) (conflict h) (partitions h)
                     (conversionsCount h)
                     (if compatibleFirst q then compatibleFirstCount h - 1 else compatibleFirstCount h) in
          mode_changed res h (reqs M) (counts g (mode q) =? 0) M
      | STATUS_WAITING =>
          _ ← invariant (recursiveCount q =? 0);
          c ← decModeCount (mode q) (conflict h);
          let h := mkHead (grantedList h) (granted h) (without r (conflictList h)) c (partitions h)
                     (conversionsCount h) (compatibleFirstCount h) in
          mode_changed res h (reqs M) true M
      | STATUS_CONVERTING =>
          _ ← invariant (1 <=? recursiveCount q);
          _ ← invariant (1 <=? conversionsCount h);
          g ← decModeCount (convertMode q) (granted h);
          let q := set_convertMode MODE_NONE (set_status STATUS_GRANTED q) in
          let h := mkHead (grantedList h) g (conflictList h) (conflict h) (partitions h)
                     (conversionsCount h - 1) (compatibleFirstCount h) in
          mode_changed res h (<[r := q]> (reqs M)) (counts g (convertMode q) =? 0) M
      | STATUS_NEW => None
      end;
  q ← reqs M !! r;
  Some (recursiveCount q =? 0, M).

Definition unlock (r : request) (M : LockManager) : option (bool * LockManager) :=
  '(held, M) ← unlock_enter r M;
  if held : bool then Some (false, M) else
  '(done, M) ← unlock_partition r M;
  if done : bool then Some (true, M) else unlock_bucket r M.

(** *** [downgrade] and [cleanupUnusedLocks] *)

Definition downgrade (r : request) (newMode : LockMode) (M : LockManager) : option LockManager :=
  q ← reqs M !! r;
  res ← lockHead q;
  _ ← invariant (bool_decide (status q = STATUS_GRANTED));
  _ ← invariant (1 <=? recursiveCount q);
  _ ← invariant (isModeCovered newMode (mode q));
  h ← heads M !! res;
  g ← incModeCount newMode (granted h);
  g ← decModeCount (mode q) g;
  let h := mkHead (grantedList h) g (conflictList h) (conflict h) (partitions h) (conversionsCount h)
             (compatibleFirstCount h) in
  mode_changed res h (<[r := set_mode newMode q]> (reqs M)) true M.

(** One iteration of the loop of [_cleanupUnusedLocksInBucket]. *)
Definition cleanup_head (res : ResourceId) (M : LockManager) : option LockManager :=
  h ← heads M !! res;
  '(h, rq, pd) ← migrate_if_partitioned res h (reqs M) (parts M);
  if (mask (granted h) =? 0)%Z then
    _ ← invariant (bool_decide (grantedList h = []));
    _ ← invariant (mask (conflict h) =? 0)%Z;
    _ ← invariant (bool_decide (conflictList h = []));
    _ ← invariant (conversionsCount h =? 0);
    _ ← invariant (compatibleFirstCount h =? 0);
    Some (mkManager rq (delete res (heads M)) pd (notified M))
  else Some (mkManager rq (<[res := h]> (heads M)) pd (notified M)).

Definition bucket_resources (b : Z) (M : LockManager) : list ResourceId :=
  filter (fun res => _getBucket res = b) (map_to_list (heads M)).*1.

Definition _cleanupUnusedLocksInBucket (b : Z) (M : LockManager) : option LockManager :=
  foldl (fun acc res => M ← acc; cleanup_head res M) (Some M) (bucket_resources b M).

Definition cleanupUnusedLocks (M : LockManager) : option LockManager :=
  foldl (fun acc b => M ← acc; _cleanupUnusedLocksInBucket b M) (Some M) (Z.of_nat <$> seq 0 128).

(** ** Modes: lemmas *)

Definition all_modes : list LockMode := MODE_NONE :: real_modes.

(** The mask of the modes with a positive count. *)
Definition mask_of (c : LockMode -> nat) : Z :=
  foldr (fun m acc => if 0 <? c m then Z.lor (modeMask m) acc else acc) 0%Z all_modes.

(** Two modes conflict. *)
Definition incompatible (m m' : LockMode) : bool := conflicts m (modeMask m').

Definition modes_ok (g : Modes) : Prop := mask g = mask_of (counts g).

(** Case analysis on which modes have a positive count. *)
Ltac mode_cases c :=
  unfold mask_of, all_modes, real_modes; cbn [foldr];
  destruct (0 <? c MODE_NONE), (0 <? c MODE_IS), (0 <? c MODE_IX), (0 <? c MODE_S), (0 <? c MODE_X).

Lemma mask_of_ext (c c' : LockMode -> nat) : (forall m, (0 <? c m) = (0 <? c' m)) -> mask_of c = mask_of c'.
Proof. intros H. unfold mask_of, all_modes, real_modes. cbn [foldr]. by rewrite !H. Qed.

Lemma mask_of_bit (c : LockMode -> nat) (m : LockMode) :
  Z.land (mask_of c) (modeMask m) = (if 0 <? c m then modeMask m else 0%Z).
Proof. destruct m; mode_cases c; reflexivity. Qed.

Lemma mask_of_set (c : LockMode -> nat) (m : LockMode) (n : nat) :
  mask_of (set_count c m n) = (if 0 <? n then Z.lor (mask_of c) (modeMask m) else Z.ldiff (mask_of c) (modeMask m)).
Proof.
  unfold set_count. destruct (0 <? n) eqn:En; destruct m; unfold mask_of, all_modes, real_modes; cbn [foldr];
    repeat (destruct (decide _) as [?E|?E]; try (exfalso; congruence)); rewrite En;
    destruct (0 <? c MODE_NONE), (0 <? c MODE_IS), (0 <? c MODE_IX), (0 <? c MODE_S), (0 <? c MODE_X); reflexivity.
Qed.

Lemma incModeCount_ok (m : LockMode) (g : Modes) :
  modes_ok g ->
  exists k, incModeCount m g = Some (mkModes (set_count (counts g) m (S (counts g m))) k) /\
    k = mask_of (set_count (counts g) m (S (counts g m))).
Proof.
  intros Hg. unfold incModeCount. rewrite Hg, mask_of_bit.
  destruct (S (counts g m) =? 1) eqn:E.
  - apply Nat.eqb_eq in E. assert ((0 <? counts g m) = false) as -> by (apply Nat.ltb_ge; lia).
    rewrite Z.eqb_refl. cbn [invariant mbind option_bind].
    eexists. split; [done|]. by rewrite mask_of_set.
  - eexists. split; [done|]. apply Nat.eqb_neq in E. apply mask_of_ext. intros m'. unfold set_count.
    destruct (decide (m' = m)) as [->|]; [|done]. rewrite (proj2 (Nat.ltb_lt 0 (counts g m))) by lia. done.
Qed.

Lemma decModeCount_ok (m : LockMode) (g : Modes) :
  modes_ok g -> 1 <= counts g m ->
  exists k, decModeCount m g = Some (mkModes (set_count (counts g) m (counts g m - 1)) k) /\
    k = mask_of (set_count (counts g) m (counts g m - 1)).
Proof.
  intros Hg Hm. unfold decModeCount. rewrite Hg, mask_of_bit.
  rewrite (proj2 (Nat.leb_le _ _) Hm), (proj2 (Nat.ltb_lt 0 (counts g m))) by lia.
  cbn [invariant mbind option_bind].
  destruct (counts g m - 1 =? 0) eqn:E.
  - apply Nat.eqb_eq in E. rewrite Z.eqb_refl. cbn [invariant mbind option_bind].
    eexists. split; [done|]. by rewrite mask_of_set, E.
  - eexists. split; [done|]. apply Nat.eqb_neq in E. apply mask_of_ext. intros m'. unfold set_count.
    destruct (decide (m' = m)) as [->|]; [|done].
    by rewrite (proj2 (Nat.ltb_lt 0 (counts g m))), (proj2 (Nat.ltb_lt 0 (counts g m - 1))) by lia.
Qed.

Lemma conflicts_mask_of (m : LockMode) (c : LockMode -> nat) :
  conflicts m (mask_of c) = true <-> exists m', incompatible m m' = true /\ 0 < c m'.
Proof.
  split.
  - intros H.
    assert (existsb (fun m' => incompatible m m' && (0 <? c m')) all_modes = true) as He.
    { revert H. unfold all_modes, real_modes. cbn [existsb]. destruct m; mode_cases c; vm_compute; congruence. }
    apply existsb_exists in He as (m' & _ & [H1 H2%Nat.ltb_lt]%andb_prop). eauto.
  - intros (m' & H & Hc%Nat.ltb_lt). revert Hc H. destruct m, m'; mode_cases c; vm_compute; congruence.
Qed.

Lemma mask_of_zero (c : LockMode -> nat) : mask_of c = 0%Z <-> forall m, c m = 0.
Proof.
  split.
  - intros H m. assert ((0 <? c m) = false) as Hm%Nat.ltb_ge; [|lia].
    revert H. destruct m; mode_cases c; vm_compute; congruence.
  - intros H. unfold mask_of, all_modes, real_modes. cbn [foldr]. by rewrite !H.
Qed.

Lemma mask_of_intent (c : LockMode -> nat) :
  Z.ldiff (mask_of c) intentModes = 0%Z <-> c MODE_NONE = 0 /\ c MODE_S = 0 /\ c MODE_X = 0.
Proof.
  split.
  - intros H. assert ((0 <? c MODE_NONE) = false /\ (0 <? c MODE_S) = false /\ (0 <? c MODE_X) = false)
      as (?%Nat.ltb_ge & ?%Nat.ltb_ge & ?%Nat.ltb_ge); [|lia].
    revert H. mode_cases c; vm_compute; intuition congruence.
  - intros (H1 & H2 & H3). unfold mask_of, all_modes, real_modes. cbn [foldr]. rewrite H1, H2, H3.
    by destruct (0 <? c MODE_IS), (0 <? c MODE_IX).
Qed.

Lemma incompatible_sym (m m' : LockMode) : incompatible m m' = incompatible m' m.
Proof. by destruct m, m'. Qed.

Lemma incompatible_covered (a b m : LockMode) :
  isModeCovered a b = true -> incompatible m a = true -> incompatible m b = true.
Proof. by destruct a, b, m. Qed.

Lemma grantedModesWithout_spec (own : LockMode -> nat) (g : Modes) (m : LockMode) :
  counts g MODE_NONE = own MODE_NONE ->
  conflicts m (grantedModesWithout own g) = conflicts m (mask_of (fun x => counts g x - own x)).
Proof.
  intros Hn. f_equal. unfold grantedModesWithout, mask_of, all_modes, real_modes. cbn [foldl foldr].
  assert (forall x, (0 <? counts g x - own x) = (own x <? counts g x)) as He.
  { intros x. apply eq_true_iff_eq. rewrite !Nat.ltb_lt. lia. }
  rewrite !He, Hn, Nat.ltb_irrefl.
  by destruct (own MODE_IS <? _), (own MODE_IX <? _), (own MODE_S <? _), (own MODE_X <? _).
Qed.

End Lock.
