(* ===== verification/LockSafety.v ===== *)
(** * The lock manager is safe

    The invariant of [LockManager]: queues, counts and bit masks agree, requests held on one
    resource are pairwise compatible, a waiting or converting request really is blocked. Every
    critical section preserves it and fails no [invariant] of the source when it runs in the state
    that its call has prepared; [LockSystem] says which interleavings keep to that. *)
From S2P Require Import Prelude LockRequestList LockManager.

Module LockInv.
Import RequestList Lock.
Local Open Scope nat_scope.

(** ** Where a request is *)

Inductive Place := InGranted (res : ResourceId) | InWaiting (res : ResourceId)
  | InPartition (p : partition) (res : ResourceId).

Definition place (q : LockRequest) : option Place :=
  match partitionedLock q, lockHead q, status q with
  | Some (p, res), None, STATUS_GRANTED => Some (InPartition p res)
  | None, Some res, STATUS_GRANTED => Some (InGranted res)
  | None, Some res, STATUS_CONVERTING => Some (InGranted res)
  | None, Some res, STATUS_WAITING => Some (InWaiting res)
  | _, _, _ => None
  end.

Definition place_resource (pl : Place) : ResourceId :=
  match pl with InGranted res | InWaiting res | InPartition _ res => res end.

Definition at_place (rq : requests) (r : request) (pl : Place) : Prop :=
  exists q, rq !! r = Some q /\ place q = Some pl.

(** ** Counting requests *)

Definition countl (f : LockRequest -> nat) (rq : requests) (l : list request) : nat :=
  sum_list ((fun r => match rq !! r with Some q => f q | None => 0 end) <$> l).

(** What a request adds to the granted count of a mode, to the conflict count, and to the
    two other counters. *)
Definition held (m : LockMode) (q : LockRequest) : nat :=
  is_mode (mode q) m + (if decide (status q = STATUS_CONVERTING) then is_mode (convertMode q) m else 0).
Definition wanted (m : LockMode) (q : LockRequest) : nat := is_mode (mode q) m.
Definition converting (q : LockRequest) : nat := if decide (status q = STATUS_CONVERTING) then 1 else 0.
Definition compat_first (q : LockRequest) : nat := if compatibleFirst q then 1 else 0.

(** A mode conflicts with what the requests of [l] hold or convert to. *)
Definition clash (rq : requests) (l : list request) (m : LockMode) : Prop :=
  exists r q, r ∈ l /\ rq !! r = Some q /\
    (incompatible m (mode q) = true \/ (status q = STATUS_CONVERTING /\ incompatible m (convertMode q) = true)).

(** ** The invariant of a head *)

Record head_inv (rq : requests) (res : ResourceId) (h : LockHead) : Prop := {
  hi_gnd : NoDup (grantedList h);
  hi_cnd : NoDup (conflictList h);
  hi_gmem : forall r, r ∈ grantedList h <-> at_place rq r (InGranted res);
  hi_cmem : forall r, r ∈ conflictList h <-> at_place rq r (InWaiting res);
  hi_gcnt : forall m, counts (granted h) m = countl (held m) rq (grantedList h);
  hi_gok : modes_ok (granted h);
  hi_ccnt : forall m, counts (conflict h) m = countl (wanted m) rq (conflictList h);
  hi_cok : modes_ok (conflict h);
  hi_conv : conversionsCount h = countl converting rq (grantedList h);
  hi_cf : compatibleFirstCount h = countl compat_first rq (grantedList h);
  hi_compat : forall r r' q q', r ∈ grantedList h -> r' ∈ grantedList h -> r <> r' ->
    rq !! r = Some q -> rq !! r' = Some q' -> incompatible (mode q) (mode q') = false;
  hi_part : partitions h <> [] -> mask (conflict h) = 0%Z /\ Z.ldiff (mask (granted h)) intentModes = 0%Z }.

(** The part of the invariant that does not look at request [r]; [gl] and [cl] are the
    queues without it. *)
Record base (r : request) (rq : requests) (res : ResourceId) (gl cl : list request) : Prop := {
  b_g : r ∉ gl;
  b_c : r ∉ cl;
  b_gnd : NoDup gl;
  b_cnd : NoDup cl;
  b_gmem : forall x, x <> r -> x ∈ gl <-> at_place rq x (InGranted res);
  b_cmem : forall x, x <> r -> x ∈ cl <-> at_place rq x (InWaiting res);
  b_compat : forall x x' q q', x ∈ gl -> x' ∈ gl -> x <> x' ->
    rq !! x = Some q -> rq !! x' = Some q' -> incompatible (mode q) (mode q') = false }.

(** ** The invariant of a request *)

Definition intent (m : LockMode) : bool := bool_decide (m = MODE_IX) || bool_decide (m = MODE_IS).

Record req_ok (q : LockRequest) : Prop := {
  ro_new : status q = STATUS_NEW -> partitionedLock q = None /\ lockHead q = None;
  ro_place : status q <> STATUS_NEW -> place q <> None;
  ro_mode : status q <> STATUS_NEW -> mode q <> MODE_NONE;
  ro_conv : status q = STATUS_CONVERTING ->
    isModeCovered (mode q) (convertMode q) = true /\ mode q <> convertMode q /\ convertMode q <> MODE_NONE;
  ro_wait : status q = STATUS_WAITING -> partitioned q = false;
  ro_part : forall p res, partitionedLock q = Some (p, res) ->
    partitioned q = true /\ intent (mode q) = true /\ p = _getPartition q }.

Definition reqs_ok (rq : requests) : Prop := forall r q, rq !! r = Some q -> req_ok q.

(** ** How an operation changes the requests of other threads *)

(** It grants them, or moves them to the head; on one resource only. *)
Inductive grant_step (res : ResourceId) (q : LockRequest) : LockRequest -> Prop :=
| grant_waiter :
    place q = Some (InWaiting res) -> grant_step res q (set_status STATUS_GRANTED q)
| grant_conversion :
    place q = Some (InGranted res) -> status q = STATUS_CONVERTING ->
    grant_step res q (set_convertMode MODE_NONE (set_mode (convertMode q) (set_status STATUS_GRANTED q)))
| migrate_request p :
    place q = Some (InPartition p res) ->
    grant_step res q (set_status STATUS_GRANTED (set_lockHead (Some res) (set_partitionedLock None q))).

Definition evolve (res : ResourceId) (rq rq' : requests) : Prop :=
  forall r, match rq !! r, rq' !! r with
            | Some q, Some q' => rtc (grant_step res) q q'
            | None, None => True
            | _, _ => False
            end.

(** ** The invariant of the partitions *)

Definition part_list (pd : partition_data) (p : partition) (res : ResourceId) : list request :=
  default [] (pd !! (p, res)).

Definition part_inv (rq : requests) (pd : partition_data) : Prop :=
  forall p res, NoDup (part_list pd p res) /\
    forall r, r ∈ part_list pd p res <-> at_place rq r (InPartition p res).

(** ** Counting: lemmas *)

Lemma countl_nil (f : LockRequest -> nat) (rq : requests) : countl f rq [] = 0.
Proof. done. Qed.

Lemma countl_app (f : LockRequest -> nat) (rq : requests) (l l' : list request) :
  countl f rq (l ++ l') = countl f rq l + countl f rq l'.
Proof. unfold countl. by rewrite fmap_app, sum_list_with_app. Qed.

Lemma countl_cons (f : LockRequest -> nat) (rq : requests) (r : request) (q : LockRequest) (l : list request) :
  rq !! r = Some q -> countl f rq (r :: l) = f q + countl f rq l.
Proof. intros H. unfold countl. cbn. by rewrite H. Qed.

Lemma countl_ext (f : LockRequest -> nat) (rq rq' : requests) (l : list request) :
  (forall r, r ∈ l -> rq' !! r = rq !! r) -> countl f rq' l = countl f rq l.
Proof.
  induction l as [|r l IH]; [done|]. intros H. unfold countl in *. cbn. rewrite H by set_solver.
  f_equal. apply IH. set_solver.
Qed.

Lemma countl_insert (f : LockRequest -> nat) (rq : requests) (r : request) (q : LockRequest) (l : list request) :
  r ∉ l -> countl f (<[r := q]> rq) l = countl f rq l.
Proof. intros H. apply countl_ext. intros x Hx. apply lookup_insert_ne. set_solver. Qed.

Lemma countl_without (f : LockRequest -> nat) (rq : requests) (r : request) (q : LockRequest) (l : list request) :
  NoDup l -> r ∈ l -> rq !! r = Some q -> countl f rq l = f q + countl f rq (without r l).
Proof.
  intros Hnd (l1 & l2 & ->)%list_elem_of_split Hq. rewrite without_split by done.
  rewrite !countl_app, (countl_cons f rq r q) by done. lia.
Qed.

Lemma countl_pos (f : LockRequest -> nat) (rq : requests) (l : list request) :
  0 < countl f rq l <-> exists r q, r ∈ l /\ rq !! r = Some q /\ 0 < f q.
Proof.
  induction l as [|r l IH].
  - rewrite countl_nil. split; [lia|]. intros (r & q & H & _). set_solver.
  - unfold countl in *. cbn [fmap list_fmap sum_list].
    change (0 < match rq !! r with Some q => f q | None => 0 end
              + sum_list ((fun r => match rq !! r with Some q => f q | None => 0 end) <$> l)
            <-> exists r0 q, r0 ∈ r :: l /\ rq !! r0 = Some q /\ 0 < f q). split.
    + intros H. destruct (decide (0 < match rq !! r with Some q => f q | None => 0 end)) as [Hr|Hr].
      * destruct (rq !! r) as [q|] eqn:E; [|lia]. exists r, q. split_and!; [set_solver|done|done].
      * destruct IH as [IH _]. destruct IH as (x & q & Hx & Hq & Hf); [lia|]. exists x, q. set_solver.
    + intros (x & q & [->|Hx]%elem_of_cons & Hq & Hf).
      * rewrite Hq. lia.
      * enough (0 < sum_list ((fun r => match rq !! r with Some q => f q | None => 0 end) <$> l)) by lia.
        apply IH. eauto.
Qed.

Lemma countl_zero (f : LockRequest -> nat) (rq : requests) (l : list request) (r : request) (q : LockRequest) :
  countl f rq l = 0 -> r ∈ l -> rq !! r = Some q -> f q = 0.
Proof.
  intros H Hr Hq. destruct (decide (0 < f q)) as [Hf|]; [|lia].
  assert (0 < countl f rq l) by (apply countl_pos; eauto). lia.
Qed.
Lemma is_mode_pos (m m' : LockMode) : 0 < is_mode m m' <-> m = m'.
Proof. unfold is_mode. destruct (decide (m = m')); split; (lia || done). Qed.

Lemma held_pos (m : LockMode) (q : LockRequest) :
  0 < held m q <-> mode q = m \/ (status q = STATUS_CONVERTING /\ convertMode q = m).
Proof.
  unfold held. pose proof (is_mode_pos (mode q) m). pose proof (is_mode_pos (convertMode q) m).
  destruct (decide (status q = STATUS_CONVERTING)); [|rewrite Nat.add_0_r; intuition congruence].
  destruct (decide (mode q = m)) as [E|E]; [split; [tauto|]; intros _; apply H in E; lia|].
  assert (is_mode (mode q) m = 0) as -> by (destruct (is_mode (mode q) m); [done|]; exfalso; apply E, H; lia).
  rewrite Nat.add_0_l, H0. tauto.
Qed.

(** The bit masks decide [clash]. *)
Lemma conflicts_clash (rq : requests) (l : list request) (m : LockMode) (c : LockMode -> nat) :
  (forall x, c x = countl (held x) rq l) -> conflicts m (mask_of c) = true <-> clash rq l m.
Proof.
  intros Hc. rewrite conflicts_mask_of. split.
  - intros (m' & Hi & Hm). rewrite Hc in Hm. apply countl_pos in Hm as (r & q & Hr & Hq & Hh).
    exists r, q. split_and!; [done..|]. apply held_pos in Hh as [->|[? ->]]; eauto.
  - intros (r & q & Hr & Hq & [Hi|[Hs Hi]]); [exists (mode q)|exists (convertMode q)];
      (split; [done|]); rewrite Hc; apply countl_pos; exists r, q; (split_and!; [done..|]); apply held_pos; eauto.
Qed.

Lemma conflicts_not_clash (rq : requests) (l : list request) (m : LockMode) (c : LockMode -> nat) :
  (forall x, c x = countl (held x) rq l) -> conflicts m (mask_of c) = false <-> ~ clash rq l m.
Proof.
  intros Hc. rewrite <- (conflicts_clash rq l m c Hc). destruct (conflicts m (mask_of c)); intuition congruence.
Qed.

Lemma conflicts_wanted (rq : requests) (l : list request) (m : LockMode) (c : LockMode -> nat) :
  (forall x, c x = countl (wanted x) rq l) ->
  conflicts m (mask_of c) = true <-> exists r q, r ∈ l /\ rq !! r = Some q /\ incompatible m (mode q) = true.
Proof.
  intros Hc. rewrite conflicts_mask_of. split.
  - intros (m' & Hi & Hm). rewrite Hc in Hm. apply countl_pos in Hm as (r & q & Hr & Hq & Hh%is_mode_pos).
    exists r, q. by subst.
  - intros (r & q & Hr & Hq & Hi). exists (mode q). split; [done|]. rewrite Hc. apply countl_pos.
    exists r, q. split_and!; [done..|]. by apply is_mode_pos.
Qed.

Lemma clash_ext (rq rq' : requests) (l : list request) (m : LockMode) :
  (forall r, r ∈ l -> rq' !! r = rq !! r) -> clash rq l m -> clash rq' l m.
Proof. intros H (r & q & Hr & Hq & Hc). exists r, q. by rewrite H. Qed.

(** ** Taking one request out of a head's invariant, and putting it back *)

Lemma elem_without (r x : request) (l : list request) : x ∈ without r l <-> x <> r /\ x ∈ l.
Proof. unfold without. by rewrite list_elem_of_filter. Qed.

Lemma NoDup_without (r : request) (l : list request) : NoDup l -> NoDup (without r l).
Proof. apply NoDup_filter. Qed.

Lemma base_elim (r : request) (rq : requests) (res : ResourceId) (h : LockHead) :
  head_inv rq res h -> base r rq res (without r (grantedList h)) (without r (conflictList h)).
Proof.
  intros [Hg Hc Hgm Hcm _ _ _ _ _ _ Hco _]. split.
  - rewrite elem_without. tauto.
  - rewrite elem_without. tauto.
  - by apply NoDup_without.
  - by apply NoDup_without.
  - intros x Hx. rewrite elem_without, Hgm. tauto.
  - intros x Hx. rewrite elem_without, Hcm. tauto.
  - intros x x' q q' [_ H1]%elem_without [_ H2]%elem_without. by apply Hco.
Qed.

(** [base] does not look at the request taken out. *)
Lemma base_ext (r : request) (rq rq' : requests) (res : ResourceId) (gl cl : list request) :
  (forall x, x <> r -> rq' !! x = rq !! x) -> base r rq res gl cl -> base r rq' res gl cl.
Proof.
  intros He [H1 H2 H3 H4 H5 H6 H7]. split; try done.
  - intros x Hx. unfold at_place. rewrite He by done. by apply H5.
  - intros x Hx. unfold at_place. rewrite He by done. by apply H6.
  - intros x x' q1 q2 Hx Hx' Hne. rewrite !He by (intros ->; done). by apply H7.
Qed.

Lemma base_insert (r : request) (rq : requests) (res : ResourceId) (gl cl : list request) (q : LockRequest) :
  base r rq res gl cl -> base r (<[r := q]> rq) res gl cl.
Proof. apply base_ext. intros x Hx. by apply lookup_insert_ne. Qed.

Section putting_back.
Context (r : request) (rq : requests) (res : ResourceId) (gl cl : list request) (h : LockHead) (q : LockRequest).
Context (Hb : base r rq res gl cl) (Hq : rq !! r = Some q).
Context (Hgok : modes_ok (granted h)) (Hcok : modes_ok (conflict h)).
Context (Hpart : partitions h <> [] -> mask (conflict h) = 0%Z /\ Z.ldiff (mask (granted h)) intentModes = 0%Z).

Lemma head_inv_granted :
  place q = Some (InGranted res) ->
  NoDup (grantedList h) -> r ∈ grantedList h -> without r (grantedList h) = gl -> conflictList h = cl ->
  (forall m, counts (granted h) m = held m q + countl (held m) rq gl) ->
  (forall m, counts (conflict h) m = countl (wanted m) rq cl) ->
  conversionsCount h = converting q + countl converting rq gl ->
  compatibleFirstCount h = compat_first q + countl compat_first rq gl ->
  (forall x q', x ∈ gl -> rq !! x = Some q' -> incompatible (mode q) (mode q') = false) ->
  head_inv rq res h.
Proof.
  intros Hp Hnd Hr Hgl Hcl Hgc Hcc Hcv Hcf Hcomp. destruct Hb as [H1 H2 H3 H4 H5 H6 H7].
  assert (forall f, countl f rq (grantedList h) = f q + countl f rq gl) as Hcnt.
  { intros f. rewrite <- Hgl. by apply countl_without. }
  split; try done; try congruence.
  - intros x. destruct (decide (x = r)) as [->|Hx].
    + split; [|done]. intros _. by exists q.
    + rewrite <- H5 by done. rewrite <- Hgl, elem_without. tauto.
  - rewrite Hcl. intros x. destruct (decide (x = r)) as [->|Hx]; [|by apply H6].
    split; [done|]. intros (q' & Hq' & Hp'). congruence.
  - intros x x' q1 q2 Hx Hx' Hne Hq1 Hq2.
    destruct (decide (x = r)) as [->|Hxr]; [|destruct (decide (x' = r)) as [->|Hxr']].
    + replace q1 with q by congruence. apply (Hcomp x'); [|done]. rewrite <- Hgl, elem_without. done.
    + replace q2 with q by congruence. rewrite incompatible_sym. apply (Hcomp x); [|done].
      rewrite <- Hgl, elem_without. done.
    + apply (H7 x x'); try done; rewrite <- Hgl, elem_without; done.
Qed.

Lemma head_inv_waiting :
  place q = Some (InWaiting res) ->
  NoDup (conflictList h) -> r ∈ conflictList h -> without r (conflictList h) = cl -> grantedList h = gl ->
  (forall m, counts (granted h) m = countl (held m) rq gl) ->
  (forall m, counts (conflict h) m = wanted m q + countl (wanted m) rq cl) ->
  conversionsCount h = countl converting rq gl ->
  compatibleFirstCount h = countl compat_first rq gl ->
  head_inv rq res h.
Proof.
  intros Hp Hnd Hr Hcl Hgl Hgc Hcc Hcv Hcf. destruct Hb as [H1 H2 H3 H4 H5 H6 H7].
  split; try done; try congruence.
  - rewrite Hgl. intros x. destruct (decide (x = r)) as [->|Hx]; [|by apply H5].
    split; [done|]. intros (q' & Hq' & Hp'). congruence.
  - intros x. destruct (decide (x = r)) as [->|Hx].
    + split; [|done]. intros _. by exists q.
    + rewrite <- H6 by done. rewrite <- Hcl, elem_without. tauto.
  - intros m. rewrite Hcc, <- Hcl. symmetry. by apply countl_without.
  - rewrite Hgl. done.
Qed.

End putting_back.

Lemma head_inv_absent (r : request) (rq : requests) (res : ResourceId) (gl cl : list request) (h : LockHead) :
  base r rq res gl cl -> rq !! r = None ->
  modes_ok (granted h) -> modes_ok (conflict h) ->
  (partitions h <> [] -> mask (conflict h) = 0%Z /\ Z.ldiff (mask (granted h)) intentModes = 0%Z) ->
  conflictList h = cl -> grantedList h = gl ->
  (forall m, counts (granted h) m = countl (held m) rq gl) ->
  (forall m, counts (conflict h) m = countl (wanted m) rq cl) ->
  conversionsCount h = countl converting rq gl ->
  compatibleFirstCount h = countl compat_first rq gl ->
  head_inv rq res h.
Proof.
  intros [H1 H2 H3 H4 H5 H6 H7] Hn Hgok Hcok Hpart Hcl Hgl Hgc Hcc Hcv Hcf.
  split; rewrite ?Hgl, ?Hcl; try done.
  - intros x. destruct (decide (x = r)) as [->|Hx]; [|by apply H5].
    split; [done|]. intros (q' & Hq' & ?). congruence.
  - intros x. destruct (decide (x = r)) as [->|Hx]; [|by apply H6].
    split; [done|]. intros (q' & Hq' & ?). congruence.
Qed.

(** What the invariant says of a request that is on the head, or is not. *)
Lemma elim_granted (rq : requests) (res : ResourceId) (h : LockHead) (r : request) (q : LockRequest) :
  head_inv rq res h -> rq !! r = Some q -> place q = Some (InGranted res) ->
  r ∈ grantedList h /\ without r (conflictList h) = conflictList h /\
  (forall f, countl f rq (grantedList h) = f q + countl f rq (without r (grantedList h))).
Proof.
  intros H Hq Hp. assert (r ∈ grantedList h) as Hr by (apply (hi_gmem _ _ _ H); by exists q).
  split_and!; [done| |].
  - apply without_notin. intros (q' & Hq' & Hp')%(hi_cmem _ _ _ H). congruence.
  - intros f. apply countl_without; [by apply (hi_gnd _ _ _ H)|done|done].
Qed.

Lemma elim_waiting (rq : requests) (res : ResourceId) (h : LockHead) (r : request) (q : LockRequest) :
  head_inv rq res h -> rq !! r = Some q -> place q = Some (InWaiting res) ->
  r ∈ conflictList h /\ without r (grantedList h) = grantedList h /\
  (forall f, countl f rq (conflictList h) = f q + countl f rq (without r (conflictList h))).
Proof.
  intros H Hq Hp. assert (r ∈ conflictList h) as Hr by (apply (hi_cmem _ _ _ H); by exists q).
  split_and!; [done| |].
  - apply without_notin. intros (q' & Hq' & Hp')%(hi_gmem _ _ _ H). congruence.
  - intros f. apply countl_without; [by apply (hi_cnd _ _ _ H)|done|done].
Qed.

Lemma elim_absent (rq : requests) (res : ResourceId) (h : LockHead) (r : request) (q : LockRequest) :
  head_inv rq res h -> rq !! r = Some q -> place q <> Some (InGranted res) -> place q <> Some (InWaiting res) ->
  (r ∉ grantedList h /\ without r (grantedList h) = grantedList h) /\
  (r ∉ conflictList h /\ without r (conflictList h) = conflictList h).
Proof.
  intros H Hq Hp Hp'.
  assert (r ∉ grantedList h) by (intros (q' & Hq' & ?)%(hi_gmem _ _ _ H); congruence).
  assert (r ∉ conflictList h) by (intros (q' & Hq' & ?)%(hi_cmem _ _ _ H); congruence).
  split; (split; [done|by apply without_notin]).
Qed.

(** The masks in a head decide conflicts with its queues. *)
Lemma head_conflicts (rq : requests) (res : ResourceId) (h : LockHead) (m : LockMode) :
  head_inv rq res h -> conflicts m (mask (granted h)) = true <-> clash rq (grantedList h) m.
Proof. intros H. rewrite (hi_gok _ _ _ H). apply conflicts_clash, (hi_gcnt _ _ _ H). Qed.

Lemma head_no_conflict (rq : requests) (res : ResourceId) (h : LockHead) (m : LockMode) :
  head_inv rq res h -> conflicts m (mask (granted h)) = false <-> ~ clash rq (grantedList h) m.
Proof. intros H. rewrite (hi_gok _ _ _ H). apply conflicts_not_clash, (hi_gcnt _ _ _ H). Qed.

Lemma countl_none (rq : requests) (l : list request) (f : LockRequest -> nat) :
  (forall r q, r ∈ l -> rq !! r = Some q -> f q = 0) -> countl f rq l = 0.
Proof.
  intros H. destruct (decide (0 < countl f rq l)) as [Hp|]; [|lia].
  apply countl_pos in Hp as (r & q & Hr & Hq & Hf). specialize (H r q Hr Hq). lia.
Qed.

Lemma place_not_new (q : LockRequest) (pl : Place) : place q = Some pl -> status q <> STATUS_NEW.
Proof. unfold place. intros H E. rewrite E in H. by destruct (partitionedLock q) as [[]|], (lockHead q). Qed.

Lemma held_none (rq : requests) (res : ResourceId) (h : LockHead) :
  reqs_ok rq -> head_inv rq res h -> forall r q, r ∈ grantedList h -> rq !! r = Some q -> held MODE_NONE q = 0.
Proof.
  intros Hok H r q Hr Hq. destruct (decide (0 < held MODE_NONE q)) as [Hp|]; [|lia].
  apply (hi_gmem _ _ _ H) in Hr as (q' & Hq' & Hpl). replace q' with q in * by congruence.
  apply held_pos in Hp as [Hm|[Hs Hm]].
  - by apply (ro_mode _ (Hok _ _ Hq)) in Hm; [|by eapply place_not_new].
  - by destruct (ro_conv _ (Hok _ _ Hq) Hs) as (_ & _ & ?).
Qed.

(** The mask without a request's own modes decides conflicts with the others. *)
Lemma without_conflicts (rq : requests) (res : ResourceId) (h : LockHead) (r : request) (q : LockRequest)
    (own : LockMode -> nat) (m : LockMode) :
  reqs_ok rq -> head_inv rq res h -> rq !! r = Some q -> place q = Some (InGranted res) ->
  (forall x, own x = held x q) ->
  conflicts m (grantedModesWithout own (granted h)) = true <-> clash rq (without r (grantedList h)) m.
Proof.
  intros Hok H Hq Hp Hown. destruct (elim_granted _ _ _ _ _ H Hq Hp) as (Hr & _ & Hc).
  rewrite grantedModesWithout_spec.
  - apply conflicts_clash. intros x. rewrite (hi_gcnt _ _ _ H), Hc, Hown. lia.
  - rewrite (hi_gcnt _ _ _ H), Hc, Hown, (countl_none _ (without r (grantedList h))); [lia|].
    intros x q' [_ Hx]%elem_without Hq'. by apply (held_none rq res h Hok H x).
Qed.

Lemma NoDup_snoc (l : list request) (r : request) : NoDup l -> r ∉ l -> NoDup (l ++ [r]).
Proof. intros Hl Hr. apply NoDup_app. split_and!; [done|set_solver|apply NoDup_singleton]. Qed.

Lemma without_snoc (l : list request) (r : request) : r ∉ l -> without r (l ++ [r]) = l.
Proof.
  intros Hr. unfold without. rewrite filter_app, filter_cons_False by (intros H; by apply H).
  fold (without r l). rewrite without_notin by done. apply app_nil_r.
Qed.

Lemma without_cons (l : list request) (r : request) : r ∉ l -> without r (r :: l) = l.
Proof. intros Hr. unfold without. rewrite filter_cons_False by (intros H; by apply H). by apply without_notin. Qed.

(** ** Steps on a head *)

Lemma countl_fresh (f : LockRequest -> nat) (r : request) (rq : requests) (res : ResourceId)
    (gl cl : list request) (q : LockRequest) :
  base r rq res gl cl -> countl f (<[r := q]> rq) gl = countl f rq gl /\ countl f (<[r := q]> rq) cl = countl f rq cl.
Proof. intros H. by rewrite !countl_insert by apply H. Qed.

Lemma set_count_held (c : LockMode -> nat) (m x : LockMode) : set_count c m (S (c m)) x = is_mode m x + c x.
Proof.
  unfold set_count, is_mode. destruct (decide (x = m)) as [->|Hx], (decide _); (lia || congruence).
Qed.

Lemma set_count_dec (c : LockMode -> nat) (m x : LockMode) (n : LockMode -> nat) :
  (forall y, c y = is_mode m y + n y) -> set_count c m (c m - 1) x = n x.
Proof.
  intros H. unfold set_count. destruct (decide (x = m)) as [->|Hx].
  - rewrite (H m). unfold is_mode. rewrite decide_True by done. lia.
  - rewrite (H x). unfold is_mode. rewrite decide_False by congruence. lia.
Qed.

Lemma held_idle (m : LockMode) (q : LockRequest) :
  status q <> STATUS_CONVERTING -> held m q = is_mode (mode q) m.
Proof. intros H. unfold held. rewrite decide_False by done. lia. Qed.

Lemma held_converting (m : LockMode) (q : LockRequest) :
  status q = STATUS_CONVERTING -> held m q = is_mode (mode q) m + is_mode (convertMode q) m.
Proof. intros H. unfold held. by rewrite decide_True. Qed.

Lemma converting_idle (q : LockRequest) : status q <> STATUS_CONVERTING -> converting q = 0.
Proof. intros H. unfold converting. by rewrite decide_False. Qed.

Lemma converting_one (q : LockRequest) : status q = STATUS_CONVERTING -> converting q = 1.
Proof. intros H. unfold converting. by rewrite decide_True. Qed.

Lemma is_mode_same (m : LockMode) : is_mode m m = 1.
Proof. unfold is_mode. by rewrite decide_True. Qed.

Lemma no_clash_compat (rq : requests) (l : list request) (m : LockMode) (x : request) (q : LockRequest) :
  ~ clash rq l m -> x ∈ l -> rq !! x = Some q -> incompatible m (mode q) = false.
Proof.
  intros Hc Hx Hq. destruct (incompatible m (mode q)) eqn:E; [|done].
  exfalso. apply Hc. exists x, q. eauto.
Qed.

Lemma partitions_intent (c : LockMode -> nat) (m : LockMode) :
  intent m = true -> Z.ldiff (mask_of c) intentModes = 0%Z ->
  Z.ldiff (mask_of (set_count c m (S (c m)))) intentModes = 0%Z.
Proof.
  intros Hm (H1 & H2 & H3)%mask_of_intent. apply mask_of_intent.
  rewrite !set_count_held, H1, H2, H3. by destruct m.
Qed.

Lemma partitions_intent_dec (c : LockMode -> nat) (m : LockMode) :
  Z.ldiff (mask_of c) intentModes = 0%Z -> Z.ldiff (mask_of (set_count c m (c m - 1))) intentModes = 0%Z.
Proof.
  intros (H1 & H2 & H3)%mask_of_intent. apply mask_of_intent.
  assert (forall x, set_count c m (c m - 1) x <= c x) as H
    by (intros x; unfold set_count; destruct (decide (x = m)) as [->|]; lia).
  pose proof (H MODE_NONE). pose proof (H MODE_S). pose proof (H MODE_X). lia.
Qed.

Section newRequest.
Context (rq : requests) (res : ResourceId) (h : LockHead) (r : request) (q : LockRequest).
Context (Hinv : head_inv rq res h) (Hq : rq !! r = Some q) (Hpl : place q = None) (Hpn : partitionedLock q = None).

Definition queued (s : Status) : LockRequest := set_status s (set_lockHead (Some res) q).

Lemma newRequest_grant :
  ~ clash rq (grantedList h) (mode q) ->
  (compatibleFirstCount h = 0 -> conflicts (mode q) (mask (conflict h)) = false) ->
  (partitions h <> [] -> intent (mode q) = true) ->
  exists h', newRequest res h rq r = Some (LOCK_OK, h', <[r := queued STATUS_GRANTED]> rq) /\
    head_inv (<[r := queued STATUS_GRANTED]> rq) res h' /\ partitions h' = partitions h /\
    grantedList h' = grantedList h ++ [r] /\ conflictList h' = conflictList h /\ conflict h' = conflict h.
Proof.
  intros Hcl Hcf Hpi. destruct (elim_absent _ _ _ _ _ Hinv Hq) as ((Hrg & Hwg) & (Hrc & Hwc)); [congruence..|].
  pose proof (base_elim r _ _ _ Hinv) as Hb. rewrite Hwg, Hwc in Hb.
  pose proof (fun f => countl_fresh f r rq res _ _ (queued STATUS_GRANTED) Hb) as Hf.
  destruct (incModeCount_ok (mode q) (granted h)) as (k & Hk & Hkm); [apply Hinv|].
  unfold newRequest. rewrite Hq. cbn [mbind option_bind invariant]. rewrite bool_decide_true by done.
  cbn [mbind option_bind mode enqueueAtFront compatibleFirst set_lockHead set_status].
  rewrite (proj2 (head_no_conflict _ _ _ _ Hinv) Hcl). cbn [orb].
  assert ((compatibleFirstCount h =? 0) && conflicts (mode q) (mask (conflict h)) = false) as ->.
  { destruct (Nat.eqb_spec (compatibleFirstCount h) 0); [by apply Hcf|done]. }
  rewrite Hk. cbn [mbind option_bind]. eexists. split; [done|]. split; [|done].
  apply (head_inv_granted r _ res (grantedList h) (conflictList h) _ (queued STATUS_GRANTED));
    cbn [grantedList conflictList granted conflict counts mask conversionsCount compatibleFirstCount partitions].
  - by apply base_insert.
  - by rewrite lookup_insert_eq.
  - exact Hkm.
  - apply Hinv.
  - intros Hne. destruct (hi_part _ _ _ Hinv Hne) as [? Hi]. split; [done|]. rewrite Hkm.
    rewrite (hi_gok _ _ _ Hinv) in Hi. apply partitions_intent; [by apply Hpi|done].
  - unfold place, queued. cbn. by rewrite Hpn.
  - apply NoDup_snoc; [apply Hinv|done].
  - set_solver.
  - by apply without_snoc.
  - done.
  - intros m. rewrite set_count_held, (proj1 (Hf _)), (hi_gcnt _ _ _ Hinv), held_idle by done. done.
  - intros m. rewrite (proj2 (Hf _)). apply Hinv.
  - rewrite (proj1 (Hf _)). apply Hinv.
  - rewrite (proj1 (Hf _)). unfold compat_first. cbn. destruct (compatibleFirst q); rewrite (hi_cf _ _ _ Hinv); done.
  - intros x q' Hx. rewrite lookup_insert_ne by set_solver. cbn. by apply (no_clash_compat _ (grantedList h)).
Qed.

Lemma newRequest_wait :
  (clash rq (grantedList h) (mode q) \/
    (compatibleFirstCount h = 0 /\ conflicts (mode q) (mask (conflict h)) = true)) ->
  partitions h = [] ->
  exists h', newRequest res h rq r = Some (LOCK_WAITING, h', <[r := queued STATUS_WAITING]> rq) /\
    head_inv (<[r := queued STATUS_WAITING]> rq) res h' /\ partitions h' = [] /\
    grantedList h' = grantedList h /\
    conflictList h' = (if enqueueAtFront q then r :: conflictList h else conflictList h ++ [r]).
Proof.
  intros Hcl Hpi. destruct (elim_absent _ _ _ _ _ Hinv Hq) as ((Hrg & Hwg) & (Hrc & Hwc)); [congruence..|].
  pose proof (base_elim r _ _ _ Hinv) as Hb. rewrite Hwg, Hwc in Hb.
  pose proof (fun f => countl_fresh f r rq res _ _ (queued STATUS_WAITING) Hb) as Hf.
  destruct (incModeCount_ok (mode q) (conflict h)) as (k & Hk & Hkm); [apply Hinv|].
  unfold newRequest. rewrite Hq. cbn [mbind option_bind invariant]. rewrite bool_decide_true by done.
  cbn [mbind option_bind mode enqueueAtFront compatibleFirst set_lockHead set_status].
  assert (conflicts (mode q) (mask (granted h)) ||
          ((compatibleFirstCount h =? 0) && conflicts (mode q) (mask (conflict h))) = true) as ->.
  { destruct Hcl as [Hcl|[-> ->]]; [by rewrite (proj2 (head_conflicts _ _ _ _ Hinv) Hcl)|by rewrite orb_true_r]. }
  rewrite Hk. cbn [mbind option_bind]. eexists. split; [done|]. split; [|done].
  apply (head_inv_waiting r _ res (grantedList h) (conflictList h) _ (queued STATUS_WAITING));
    cbn [grantedList conflictList granted conflict counts mask conversionsCount compatibleFirstCount partitions].
  - by apply base_insert.
  - by rewrite lookup_insert_eq.
  - apply Hinv.
  - exact Hkm.
  - by rewrite Hpi.
  - unfold place, queued. cbn. by rewrite Hpn.
  - destruct (enqueueAtFront q); [apply NoDup_cons; split; [done|apply Hinv]|apply NoDup_snoc; [apply Hinv|done]].
  - destruct (enqueueAtFront q); set_solver.
  - destruct (enqueueAtFront q); [by apply without_cons|by apply without_snoc].
  - done.
  - intros m. rewrite (proj1 (Hf _)). apply Hinv.
  - intros m. rewrite set_count_held, (proj2 (Hf _)), (hi_ccnt _ _ _ Hinv). done.
  - rewrite (proj1 (Hf _)). apply Hinv.
  - rewrite (proj1 (Hf _)). apply Hinv.
Qed.
End newRequest.

(** ** Changes to the requests: lemmas *)

Lemma grant_step_place (res : ResourceId) (q q' : LockRequest) :
  grant_step res q q' ->
  (exists pl, place q = Some pl /\ place_resource pl = res) /\ place q' = Some (InGranted res).
Proof.
  intros [H|H Hs|p H]; (split; [by eexists|]); revert H; unfold place; cbn;
    destruct (partitionedLock q) as [[]|], (lockHead q), (status q); cbn; intros H; by simplify_eq.
Qed.

Lemma evolve_refl (res : ResourceId) (rq : requests) : evolve res rq rq.
Proof. intros r. by destruct (rq !! r). Qed.

Lemma evolve_trans (res : ResourceId) (rq1 rq2 rq3 : requests) :
  evolve res rq1 rq2 -> evolve res rq2 rq3 -> evolve res rq1 rq3.
Proof.
  intros H1 H2 r. specialize (H1 r). specialize (H2 r).
  destruct (rq1 !! r), (rq2 !! r), (rq3 !! r); try done. by etrans.
Qed.

Lemma evolve_insert (res : ResourceId) (rq : requests) (r : request) (q q' : LockRequest) :
  rq !! r = Some q -> grant_step res q q' -> evolve res rq (<[r := q']> rq).
Proof.
  intros Hq Hs x. destruct (decide (x = r)) as [->|Hx].
  - rewrite Hq, lookup_insert_eq. by apply rtc_once.
  - rewrite lookup_insert_ne by done. by destruct (rq !! x).
Qed.

Lemma evolve_some (res : ResourceId) (rq rq' : requests) (r : request) (q : LockRequest) :
  evolve res rq rq' -> rq !! r = Some q -> exists q', rq' !! r = Some q' /\ rtc (grant_step res) q q'.
Proof. intros H Hq. specialize (H r). rewrite Hq in H. destruct (rq' !! r); [eauto|done]. Qed.

(** A request that changes is on the resource before and after. *)
Lemma evolve_cases (res : ResourceId) (rq rq' : requests) (r : request) :
  evolve res rq rq' ->
  rq' !! r = rq !! r \/
  exists q q' pl pl', rq !! r = Some q /\ rq' !! r = Some q' /\ place q = Some pl /\ place q' = Some pl' /\
    place_resource pl = res /\ place_resource pl' = res.
Proof.
  intros H. specialize (H r). destruct (rq !! r) as [q|] eqn:Hq, (rq' !! r) as [q'|] eqn:Hq'; try done; [|by left].
  destruct H as [|q x q' Hs Hr]; [by left|]. right.
  apply grant_step_place in Hs as ((pl & Hpl & Hres) & Hx).
  exists q, q', pl. apply rtc_inv_r in Hr as [->|(y & _ & Hy)].
  - exists (InGranted res). by split_and!.
  - apply grant_step_place in Hy as [_ Hy]. exists (InGranted res). by split_and!.
Qed.

(** Heads do not notice changes to requests that are not on them. *)
Definition on_head (rq : requests) (r : request) (res : ResourceId) : Prop :=
  at_place rq r (InGranted res) \/ at_place rq r (InWaiting res).

Lemma head_inv_frame (rq rq' : requests) (res : ResourceId) (h : LockHead) :
  (forall r, rq' !! r = rq !! r \/ (~ on_head rq r res /\ ~ on_head rq' r res)) ->
  head_inv rq res h -> head_inv rq' res h.
Proof.
  intros H [].
  assert (forall r, r ∈ grantedList h -> rq' !! r = rq !! r) as Hg.
  { intros r Hr%hi_gmem0. destruct (H r) as [?|[Hn _]]; [done|]. by destruct Hn; left. }
  assert (forall r, r ∈ conflictList h -> rq' !! r = rq !! r) as Hc.
  { intros r Hr%hi_cmem0. destruct (H r) as [?|[Hn _]]; [done|]. by destruct Hn; right. }
  split; try done.
  - intros r. rewrite hi_gmem0. unfold at_place. destruct (H r) as [->|[Hn Hn']]; [done|].
    unfold on_head, at_place in *. tauto.
  - intros r. rewrite hi_cmem0. unfold at_place. destruct (H r) as [->|[Hn Hn']]; [done|].
    unfold on_head, at_place in *. tauto.
  - intros m. rewrite hi_gcnt0. symmetry. by apply countl_ext.
  - intros m. rewrite hi_ccnt0. symmetry. by apply countl_ext.
  - rewrite hi_conv0. symmetry. by apply countl_ext.
  - rewrite hi_cf0. symmetry. by apply countl_ext.
  - intros r r' q q' Hr Hr'. rewrite !Hg by done. by apply hi_compat0.
Qed.

(** One request changes, which is on the head neither before nor after. *)
Lemma head_inv_update (rq : requests) (res : ResourceId) (h : LockHead) (r : request) (q' : LockRequest) :
  head_inv rq res h -> ~ on_head rq r res ->
  place q' <> Some (InGranted res) -> place q' <> Some (InWaiting res) ->
  head_inv (<[r := q']> rq) res h.
Proof.
  intros H Hn H1 H2. apply (head_inv_frame rq); [|done]. intros x. destruct (decide (x = r)) as [->|Hx].
  - right. split; [done|]. unfold on_head, at_place. rewrite lookup_insert_eq. naive_solver.
  - left. by apply lookup_insert_ne.
Qed.

Lemma evolve_not_on (res res' : ResourceId) (rq rq' : requests) (r : request) :
  evolve res rq rq' -> res' <> res -> rq' !! r = rq !! r \/ (~ on_head rq r res' /\ ~ on_head rq' r res').
Proof.
  intros He Hne. destruct (evolve_cases res rq rq' r He) as [?|(q & q' & pl & pl' & Hq & Hq' & Hp & Hp' & E & E')]; [by left|].
  right. unfold on_head, at_place. rewrite Hq, Hq'.
  split; intros [(? & [= <-] & Hx)|(? & [= <-] & Hx)]; rewrite Hx in *; simplify_eq/=; done.
Qed.

Lemma head_inv_evolve (rq rq' : requests) (res res' : ResourceId) (h : LockHead) :
  evolve res rq rq' -> res' <> res -> head_inv rq res' h -> head_inv rq' res' h.
Proof. intros He Hne. apply head_inv_frame. intros r. by apply (evolve_not_on res). Qed.

Lemma reqs_ok_insert (rq : requests) (r : request) (q : LockRequest) :
  reqs_ok rq -> req_ok q -> reqs_ok (<[r := q]> rq).
Proof.
  intros H Hq x y. destruct (decide (x = r)) as [->|Hx].
  - rewrite lookup_insert_eq. by intros [= <-].
  - rewrite lookup_insert_ne by done. apply H.
Qed.

(** [place], inverted. *)
Lemma place_inv (q : LockRequest) (pl : Place) :
  place q = Some pl ->
  match pl with
  | InGranted res => partitionedLock q = None /\ lockHead q = Some res /\
                     (status q = STATUS_GRANTED \/ status q = STATUS_CONVERTING)
  | InWaiting res => partitionedLock q = None /\ lockHead q = Some res /\ status q = STATUS_WAITING
  | InPartition p res => partitionedLock q = Some (p, res) /\ lockHead q = None /\ status q = STATUS_GRANTED
  end.
Proof.
  unfold place. destruct (partitionedLock q) as [[]|], (lockHead q), (status q); intros [= <-]; auto.
Qed.

Lemma grant_step_ok (res : ResourceId) (q q' : LockRequest) : grant_step res q q' -> req_ok q -> req_ok q'.
Proof.
  intros Hs [H1 H2 H3 H4 H5 H6]. pose proof (grant_step_place _ _ _ Hs) as [_ Hp].
  destruct Hs as [H%place_inv|H%place_inv E|p H%place_inv]; destruct H as (Ha & Hb & Hc); split; cbn in *; try done; try congruence.
  all: intros _.
  - apply H3. congruence.
  - by apply H4.
  - apply H3. congruence.
Qed.
Lemma rtc_grant_ok (res : ResourceId) (q q' : LockRequest) : rtc (grant_step res) q q' -> req_ok q -> req_ok q'.
Proof. induction 1 as [|? ? ? Hs _ IH]; [done|]. intros H. by apply IH, (grant_step_ok res _ _ Hs). Qed.

Lemma evolve_ok (res : ResourceId) (rq rq' : requests) : evolve res rq rq' -> reqs_ok rq -> reqs_ok rq'.
Proof.
  intros He Hok r q' Hq'. specialize (He r). rewrite Hq' in He. destruct (rq !! r) as [q|] eqn:Hq; [|done].
  by apply (rtc_grant_ok res q), (Hok r).
Qed.

(** ** Migration *)

Lemma intent_no_clash (rq : requests) (res : ResourceId) (h : LockHead) (m : LockMode) :
  head_inv rq res h -> Z.ldiff (mask (granted h)) intentModes = 0%Z -> intent m = true ->
  ~ clash rq (grantedList h) m.
Proof.
  intros H Hi Hm Hc. apply (head_conflicts _ _ _ _ H) in Hc. rewrite (hi_gok _ _ _ H) in *.
  apply mask_of_intent in Hi as (H1 & H2 & H3). apply conflicts_mask_of in Hc as (m' & Hi & Hp).
  destruct m, m'; (discriminate || lia).
Qed.

Lemma migrate_one (rq : requests) (res : ResourceId) (h : LockHead) (r : request) (q : LockRequest) (p : partition) :
  head_inv rq res h -> reqs_ok rq -> partitions h <> [] ->
  rq !! r = Some q -> place q = Some (InPartition p res) ->
  let q' := set_status STATUS_GRANTED (set_lockHead (Some res) (set_partitionedLock None q)) in
  exists h', newRequest res h (<[r := set_partitionedLock None q]> rq) r = Some (LOCK_OK, h', <[r := q']> rq) /\
    head_inv (<[r := q']> rq) res h' /\ partitions h' = partitions h /\
    grantedList h' = grantedList h ++ [r] /\ conflictList h' = conflictList h /\ conflict h' = conflict h.
Proof.
  intros H Hok Hne Hq Hp q'. pose proof (place_inv _ _ Hp) as (Ha & Hb & Hc).
  destruct (hi_part _ _ _ H Hne) as [Hcm Hi].
  destruct (ro_part _ (Hok _ _ Hq) p res Ha) as (_ & Hint & _).
  assert (place (set_partitionedLock None q) = None) as Hn by (unfold place; cbn; by rewrite Hb).
  assert (~ on_head rq r res) as Hon by (intros [(x & Hx & Hpx)|(x & Hx & Hpx)]; congruence).
  assert (head_inv (<[r := set_partitionedLock None q]> rq) res h) as H1
    by (apply head_inv_update; [done|done|by rewrite Hn..]).
  destruct (newRequest_grant _ res h r (set_partitionedLock None q) H1) as (h' & He & Hh' & Hr);
    [by rewrite lookup_insert_eq|done|done|..].
  - by apply (intent_no_clash _ res).
  - intros _. rewrite Hcm. unfold conflicts. by rewrite Z.land_0_r.
  - done.
  - exists h'. unfold queued in *. rewrite insert_insert_eq in *. done.
Qed.

Lemma migrate_requests_ok (res : ResourceId) (p : partition) (l : list request) (h : LockHead) (rq : requests) :
  head_inv rq res h -> reqs_ok rq -> partitions h <> [] -> NoDup l ->
  (forall r, r ∈ l -> at_place rq r (InPartition p res)) ->
  exists h' rq', migrate_requests res l h rq = Some (h', rq') /\
    head_inv rq' res h' /\ evolve res rq rq' /\ partitions h' = partitions h /\
    grantedList h' = grantedList h ++ l /\ conflictList h' = conflictList h /\ conflict h' = conflict h /\
    (forall r, r ∉ l -> rq' !! r = rq !! r).
Proof.
  revert h rq. induction l as [|r l IH]; intros h rq H Hok Hne Hnd Hl; cbn [migrate_requests].
  { exists h, rq. split_and!; try done; [apply evolve_refl|by rewrite app_nil_r]. }
  apply NoDup_cons in Hnd as [Hr Hnd]. destruct (Hl r) as (q & Hq & Hp); [set_solver|].
  rewrite Hq. cbn [mbind option_bind].
  destruct (migrate_one rq res h r q p H Hok Hne Hq Hp) as (h1 & -> & H1 & Hp1 & Hg1 & Hc1 & Hm1).
  cbn [mbind option_bind invariant]. rewrite bool_decide_true by done. cbn [mbind option_bind].
  pose proof (evolve_insert res rq r q _ Hq (migrate_request res q p Hp)) as He1.
  destruct (IH h1 _ H1 (evolve_ok _ _ _ He1 Hok)) as (h2 & rq2 & E2 & H2 & He2 & Hp2 & Hg2 & Hc2 & Hm2 & Hf2);
    [by rewrite Hp1|done| |].
  { intros x Hx. unfold at_place. rewrite lookup_insert_ne by set_solver. apply Hl. set_solver. }
  exists h2, rq2. split_and!; try congruence; try done.
  - by apply (evolve_trans _ _ _ _ He1).
  - by rewrite Hg2, Hg1, <- app_assoc.
  - intros x Hx. rewrite Hf2 by set_solver. apply lookup_insert_ne. set_solver.
Qed.

Lemma part_inv_migrated (rq rq' : requests) (pd : partition_data) (p : partition) (res : ResourceId) (l : list request) :
  part_inv rq pd -> evolve res rq rq' -> pd !! (p, res) = Some l ->
  (forall r, r ∈ l -> at_place rq' r (InGranted res)) -> (forall r, r ∉ l -> rq' !! r = rq !! r) ->
  part_inv rq' (delete (p, res) pd).
Proof.
  intros Hpi He Hl Hin Hout p' res'. unfold part_list.
  assert (part_list pd p res = l) as Hpl by (unfold part_list; by rewrite Hl).
  destruct (decide ((p', res') = (p, res))) as [[= -> ->]|Hne].
  - rewrite lookup_delete_eq. split; [by apply NoDup_nil|]. cbn. intros r. split; [set_solver|].
    intros (q & Hq & Hp). destruct (decide (r ∈ l)) as [Hr|Hr].
    + apply Hin in Hr as (q' & Hq' & Hp'). congruence.
    + rewrite Hout in Hq by done. destruct (Hpi p res) as [_ Hm]. rewrite Hpl in Hm.
      exfalso. apply Hr, Hm. by exists q.
  - rewrite lookup_delete_ne by congruence. destruct (Hpi p' res') as [Hnd Hm]. split; [done|].
    intros r. rewrite Hm. destruct (decide (r ∈ l)) as [Hr|Hr]; [|unfold at_place; by rewrite Hout].
    assert (at_place rq r (InPartition p res)) as (q & Hq & Hp) by (apply (Hpi p res); by rewrite Hpl).
    apply Hin in Hr as (q' & Hq' & Hp'). split; intros (x & Hx & Hpx); exfalso; congruence.
Qed.

(** What a migration has done when it ends. *)
Record migrated (res : ResourceId) (h h' : LockHead) (rq rq' : requests) (pd pd' : partition_data) : Prop := {
  mg_inv : head_inv rq' res h';
  mg_evolve : evolve res rq rq';
  mg_parts : part_inv rq' pd';
  mg_none : partitions h' = [];
  mg_gone : forall p, pd' !! (p, res) = None;
  mg_other : forall p res', res' <> res -> pd' !! (p, res') = pd !! (p, res');
  mg_granted : exists l, grantedList h' = grantedList h ++ l;
  mg_waiting : conflictList h' = conflictList h;
  mg_keep : forall r q, rq !! r = Some q -> partitionedLock q = None -> rq' !! r = Some q }.

Lemma head_inv_partitions (rq : requests) (res : ResourceId) (h : LockHead) (ps : list partition) :
  head_inv rq res h -> partitions h <> [] \/ ps = [] -> head_inv rq res (set_partitions ps h).
Proof.
  intros [] Hp. split; try done. cbn. intros Hne. apply hi_part0. by destruct Hp.
Qed.

Lemma migrate_partitions_ok (res : ResourceId) (ps : list partition) (h : LockHead) (rq : requests) (pd : partition_data) :
  head_inv rq res h -> reqs_ok rq -> part_inv rq pd -> partitions h = ps ->
  (forall p l, pd !! (p, res) = Some l -> p ∈ ps) ->
  exists h' rq' pd', migrate_partitions res ps h rq pd = Some (h', rq', pd') /\ migrated res h h' rq rq' pd pd'.
Proof.
  revert h rq pd. induction ps as [|p ps IH]; intros h rq pd H Hok Hpi Hps Hin; cbn [migrate_partitions].
  { exists h, rq, pd. split; [done|]. split; try done; [apply evolve_refl| |exists []; by rewrite app_nil_r].
    intros p. destruct (pd !! (p, res)) as [l|] eqn:E; [|done]. apply Hin in E. set_solver. }
  assert (exists h1 rq1 pd1, match pd !! (p, res) with
            | Some l => '(h, rq) ← migrate_requests res l h rq; Some (h, rq, delete (p, res) pd)
            | None => Some (h, rq, pd)
            end = Some (h1, rq1, pd1) /\ head_inv rq1 res h1 /\ evolve res rq rq1 /\ part_inv rq1 pd1 /\
            partitions h1 = p :: ps /\ (exists l, grantedList h1 = grantedList h ++ l) /\
            conflictList h1 = conflictList h /\ pd1 !! (p, res) = None /\
            (forall k, k <> (p, res) -> pd1 !! k = pd !! k) /\
            (forall r q, rq !! r = Some q -> partitionedLock q = None -> rq1 !! r = Some q))
    as (h1 & rq1 & pd1 & -> & H1 & He1 & Hpi1 & Hps1 & [l1 Hg1] & Hc1 & Hd1 & Ho1 & Hk1).
  { destruct (pd !! (p, res)) as [l|] eqn:E.
    - assert (part_list pd p res = l) as Hpl by (unfold part_list; by rewrite E).
      destruct (Hpi p res) as [Hnd Hm]. rewrite Hpl in Hnd, Hm.
      destruct (migrate_requests_ok res p l h rq) as (h1 & rq1 & -> & H1 & He1 & Hp1 & Hg1 & Hc1 & _ & Hf1);
        [done|done|by rewrite Hps|done|by apply Hm|].
      eexists h1, rq1, _. split; [done|]. split_and!; try done; try congruence.
      + apply (part_inv_migrated rq _ _ _ _ l); try done. intros r Hr. apply (hi_gmem _ _ _ H1).
        rewrite Hg1, elem_of_app. by right.
      + by eexists.
      + apply lookup_delete_eq.
      + intros k Hk. by apply lookup_delete_ne.
      + intros r q Hq Hn. rewrite Hf1; [done|]. intros (q' & Hq' & Hp')%Hm.
        apply place_inv in Hp' as (Hx & _). congruence.
    - exists h, rq, pd. split_and!; try done; [apply evolve_refl|exists []; by rewrite app_nil_r]. }
  cbn [mbind option_bind].
  destruct (IH (set_partitions ps h1) rq1 pd1) as (h2 & rq2 & pd2 & -> & []); try done.
  { apply head_inv_partitions; [done|]. left. by rewrite Hps1. }
  { by apply (evolve_ok res rq). }
  { intros p' l' Hl'. assert (p' <> p) by congruence. rewrite Ho1 in Hl' by congruence.
    by apply Hin, elem_of_cons in Hl' as [->|?]. }
  exists h2, rq2, pd2. split; [done|]. split; try done.
  - by apply (evolve_trans _ _ rq1).
  - intros p' res' Hne. rewrite mg_other0 by done. apply Ho1. congruence.
  - destruct mg_granted0 as [l2 Hg2]. cbn in Hg2. rewrite Hg2, Hg1. exists (l1 ++ l2). by rewrite <- app_assoc.
  - by rewrite mg_waiting0.
  - intros r q Hq Hn. apply mg_keep0; [|done]. by apply Hk1.
Qed.

Lemma migrate_if_partitioned_ok (res : ResourceId) (h : LockHead) (rq : requests) (pd : partition_data) :
  head_inv rq res h -> reqs_ok rq -> part_inv rq pd ->
  (forall p l, pd !! (p, res) = Some l -> p ∈ partitions h) ->
  exists h' rq' pd', migrate_if_partitioned res h rq pd = Some (h', rq', pd') /\ migrated res h h' rq rq' pd pd'.
Proof.
  intros H Hok Hpi Hin. unfold migrate_if_partitioned, migratePartitionedLockHeads, head_partitioned.
  destruct (bool_decide_reflect (partitions h = [])) as [E|E]; cbn [negb invariant mbind option_bind].
  - exists h, rq, pd. split; [done|]. split; try done; [apply evolve_refl| |exists []; by rewrite app_nil_r].
    intros p. destruct (pd !! (p, res)) as [l|] eqn:El; [|done]. apply Hin in El. rewrite E in El. set_solver.
  - destruct (hi_part _ _ _ H E) as [-> ->]. cbn [Z.eqb andb invariant mbind option_bind].
    by apply migrate_partitions_ok.
Qed.

(** ** [_onLockModeChanged] *)

(** Every converting request is blocked by another one. *)
Definition conv_blocked (rq : requests) (l : list request) (r : request) : Prop :=
  forall q, rq !! r = Some q -> status q = STATUS_CONVERTING -> clash rq (without r l) (convertMode q).

(** Granting a conversion takes nothing from what the others conflict with. *)
Lemma clash_converted (rq : requests) (l : list request) (r : request) (q : LockRequest) (m : LockMode) :
  rq !! r = Some q -> req_ok q -> status q = STATUS_CONVERTING ->
  clash rq l m ->
  clash (<[r := set_convertMode MODE_NONE (set_mode (convertMode q) (set_status STATUS_GRANTED q))]> rq) l m.
Proof.
  intros Hq Hok Hs (x & y & Hx & Hy & Hc). destruct (ro_conv _ Hok Hs) as (Hcov & _).
  destruct (decide (x = r)) as [->|Hne].
  - eexists r, _. split_and!; [done|by rewrite lookup_insert_eq|]. cbn. left.
    replace y with q in * by congruence. destruct Hc as [Hc|[_ Hc]]; [|done]. by apply (incompatible_covered (mode q)).
  - exists x, y. by rewrite lookup_insert_ne.
Qed.

Section conversion.
Context (rq : requests) (res : ResourceId) (h : LockHead) (r : request) (q : LockRequest).
Context (Hinv : head_inv rq res h) (Hok : reqs_ok rq) (Hq : rq !! r = Some q)
  (Hp : place q = Some (InGranted res)).

Definition converted : LockRequest :=
  set_convertMode MODE_NONE (set_mode (convertMode q) (set_status STATUS_GRANTED q)).

Lemma conversion_grant :
  status q = STATUS_CONVERTING ->
  ~ clash rq (without r (grantedList h)) (convertMode q) ->
  exists g, decModeCount (mode q) (granted h) = Some g /\
    head_inv (<[r := converted]> rq) res
      (mkHead (grantedList h) g (conflictList h) (conflict h) (partitions h) (conversionsCount h - 1)
         (compatibleFirstCount h)).
Proof.
  intros Hs Hcl. destruct (elim_granted _ _ _ _ _ Hinv Hq Hp) as (Hr & Hwc & Hcnt).
  pose proof (base_elim r _ _ _ Hinv) as Hb. rewrite Hwc in Hb.
  pose proof (fun f => countl_fresh f r rq res _ _ converted Hb) as Hf.
  assert (forall m, counts (granted h) m = is_mode (mode q) m + (is_mode (convertMode q) m
            + countl (held m) rq (without r (grantedList h)))) as Hg.
  { intros m. rewrite (hi_gcnt _ _ _ Hinv), Hcnt, held_converting by done. lia. }
  destruct (decModeCount_ok (mode q) (granted h)) as (k & Hk & Hkm);
    [apply Hinv|rewrite Hg, is_mode_same; lia|].
  eexists. split; [exact Hk|].
  apply (head_inv_granted r _ res (without r (grantedList h)) (conflictList h) _ converted);
    cbn [grantedList conflictList granted conflict counts mask conversionsCount compatibleFirstCount partitions].
  - by apply base_insert.
  - by rewrite lookup_insert_eq.
  - exact Hkm.
  - apply Hinv.
  - intros Hne. destruct (hi_part _ _ _ Hinv Hne) as [? Hi]. split; [done|].
    rewrite (hi_gok _ _ _ Hinv) in Hi. rewrite Hkm. by apply partitions_intent_dec.
  - apply place_inv in Hp as (Ha & Hl & _). unfold place. cbn. by rewrite Ha, Hl.
  - apply Hinv.
  - done.
  - done.
  - done.
  - intros m. rewrite (set_count_dec _ _ _ _ Hg), (proj1 (Hf _)), held_idle by done. done.
  - intros m. rewrite (proj2 (Hf _)). apply Hinv.
  - rewrite (proj1 (Hf _)), (hi_conv _ _ _ Hinv), Hcnt, converting_one, (converting_idle converted) by done. lia.
  - rewrite (proj1 (Hf _)), (hi_cf _ _ _ Hinv), Hcnt. done.
  - intros x q' Hx. rewrite lookup_insert_ne by (apply elem_without in Hx as [? _]; congruence).
    by apply (no_clash_compat _ (without r (grantedList h))).
Qed.
End conversion.

Lemma conv_blocked_converted (rq : requests) (gl : list request) (r x : request) (q : LockRequest) :
  rq !! r = Some q -> req_ok q -> status q = STATUS_CONVERTING ->
  x = r \/ conv_blocked rq gl x -> conv_blocked (<[r := converted q]> rq) gl x.
Proof.
  intros Hq Hok Hs Hx y Hy Hsy. destruct (decide (x = r)) as [->|Hne].
  - rewrite lookup_insert_eq in Hy. by simplify_eq.
  - rewrite lookup_insert_ne in Hy by done. destruct Hx as [|Hx]; [done|]. apply clash_converted; [done..|].
    by apply Hx.
Qed.

(** What the loop over the granted queue has done when it ends. *)
Record conversions_done (res : ResourceId) (h h' : LockHead) (rq rq' : requests) : Prop := {
  cd_inv : head_inv rq' res h';
  cd_evolve : evolve res rq rq';
  cd_blocked : forall r, r ∈ grantedList h' -> conv_blocked rq' (grantedList h') r;
  cd_granted : grantedList h' = grantedList h;
  cd_waiting : conflictList h' = conflictList h;
  cd_parts : partitions h' = partitions h;
  cd_clash : forall l m, clash rq l m -> clash rq' l m;
  cd_other : forall r, r ∉ grantedList h -> rq' !! r = rq !! r }.

Lemma conversion_own (q : LockRequest) :
  req_ok q -> status q = STATUS_CONVERTING ->
  forallb (fun m => is_mode (mode q) m + is_mode (convertMode q) m <=? 1) real_modes = true.
Proof.
  intros H Hs. apply forallb_forall. intros m _. apply Nat.leb_le.
  destruct (ro_conv _ H Hs) as (_ & Hne & _). unfold is_mode. repeat destruct (decide _); (lia || congruence).
Qed.

Lemma conversion_conflicts (rq : requests) (res : ResourceId) (h : LockHead) (r : request) (q : LockRequest) :
  reqs_ok rq -> head_inv rq res h -> rq !! r = Some q -> place q = Some (InGranted res) ->
  status q = STATUS_CONVERTING ->
  conflicts (convertMode q) (grantedModesWithout (fun m => is_mode (mode q) m + is_mode (convertMode q) m) (granted h))
    = true <-> clash rq (without r (grantedList h)) (convertMode q).
Proof.
  intros Hok H Hq Hp Hs. apply (without_conflicts rq res h r q); [done..|]. intros x. by rewrite held_converting.
Qed.

Lemma grant_conversions_ok (res : ResourceId) (l : list request) (h : LockHead) (rq : requests) (n : list request) :
  head_inv rq res h -> reqs_ok rq -> (forall x, x ∈ l -> x ∈ grantedList h) ->
  (forall x, x ∈ grantedList h -> x ∈ l \/ conv_blocked rq (grantedList h) x) ->
  exists h' rq' n', grant_conversions l h rq n = Some (h', rq', n') /\ conversions_done res h h' rq rq'.
Proof.
  revert h rq n. induction l as [|r l IH]; intros h rq n H Hok Hl Hd; cbn [grant_conversions].
  { exists h, rq, n. split; [done|]. split; try done; [apply evolve_refl|].
    intros r Hr. destruct (Hd r Hr) as [Hn|]; [set_solver|done]. }
  destruct (Nat.eqb_spec (conversionsCount h) 0) as [E|_].
  { exists h, rq, n. split; [done|]. split; try done; [apply evolve_refl|].
    intros x Hx q Hq Hs. rewrite (hi_conv _ _ _ H) in E.
    pose proof (countl_zero _ _ _ _ _ E Hx Hq) as E'. by rewrite converting_one in E'. }
  destruct (proj1 (hi_gmem _ _ _ H r)) as (q & Hq & Hp); [apply Hl; set_solver|].
  rewrite Hq. cbn [mbind option_bind].
  destruct (bool_decide_reflect (status q = STATUS_CONVERTING)) as [Hs|Hs].
  2:{ apply IH; [done|done|set_solver|]. intros x Hx. destruct (Hd x Hx) as [[->|?]%elem_of_cons|?]; [|tauto..].
      right. intros y Hy Hsy. congruence. }
  destruct (ro_conv _ (Hok _ _ Hq) Hs) as (_ & _ & Hn). rewrite bool_decide_false by done.
  rewrite conversion_own by (try apply (Hok r); done). cbn [negb invariant mbind option_bind].
  destruct (conflicts (convertMode q) _) eqn:Ec; cbn [negb].
  { apply IH; [done|done|set_solver|]. intros x Hx. destruct (Hd x Hx) as [[->|?]%elem_of_cons|?]; [|tauto..].
    right. intros y Hy _. replace y with q by congruence.
    by apply (conversion_conflicts rq res h r q). }
  destruct (conversion_grant rq res h r q H Hq Hp Hs) as (g & -> & H1).
  { intros Hc. apply (conversion_conflicts rq res h r q) in Hc; [congruence|done..]. }
  cbn [mbind option_bind].
  pose proof (evolve_insert res rq r q _ Hq (grant_conversion res q Hp Hs)) as He1.
  edestruct (IH _ (<[r := converted q]> rq) (n ++ [r]) H1) as (h2 & rq2 & n2 & E2 & []).
  - by apply (evolve_ok res rq).
  - cbn. set_solver.
  - cbn [grantedList]. intros x Hx. destruct (decide (x ∈ l)) as [|Hxl]; [by left|right].
    apply conv_blocked_converted; [done|by apply (Hok r)|done|]. destruct (Hd x Hx) as [[->|?]%elem_of_cons|?]; tauto.
  - exists h2, rq2, n2. split; [exact E2|]. split; try done.
    + by apply (evolve_trans _ _ _ _ He1).
    + intros l' m Hc. apply cd_clash0. apply clash_converted; [done|by apply (Hok r)|done|done].
    + intros x Hx. rewrite cd_other0 by done. apply lookup_insert_ne. intros ->. apply Hx, Hl. set_solver.
Qed.

Lemma clash_granted (rq : requests) (gl l : list request) (r : request) (q : LockRequest) (m : LockMode) :
  r ∉ gl -> clash rq gl m -> clash (<[r := q]> rq) (gl ++ l) m.
Proof.
  intros Hr (x & y & Hx & Hy & Hc). exists x, y. split_and!; [set_solver| |done].
  rewrite lookup_insert_ne by set_solver. done.
Qed.

Lemma conv_blocked_granted (rq : requests) (gl : list request) (r x : request) (q : LockRequest) :
  r ∉ gl -> status q = STATUS_GRANTED -> x ∈ gl ++ [r] -> (x ∈ gl -> conv_blocked rq gl x) ->
  conv_blocked (<[r := q]> rq) (gl ++ [r]) x.
Proof.
  intros Hr Hs Hx Hb y Hy Hsy. destruct (decide (x = r)) as [->|Hne].
  - rewrite lookup_insert_eq in Hy. congruence.
  - rewrite lookup_insert_ne in Hy by done. unfold without. rewrite filter_app. apply clash_granted.
    + intros [_ ?]%elem_without. done.
    + apply Hb; [set_solver|done|done].
Qed.

Section waiting.
Context (rq : requests) (res : ResourceId) (h : LockHead) (r : request) (q : LockRequest).
Context (Hinv : head_inv rq res h) (Hq : rq !! r = Some q) (Hp : place q = Some (InWaiting res)).

Lemma waiting_not_partitioned : partitions h = [].
Proof.
  destruct (decide (partitions h = [])) as [|Hne]; [done|]. exfalso.
  destruct (hi_part _ _ _ Hinv Hne) as [Hz _]. rewrite (hi_cok _ _ _ Hinv) in Hz.
  pose proof (proj1 (mask_of_zero _) Hz (mode q)) as Hc. rewrite (hi_ccnt _ _ _ Hinv) in Hc.
  destruct (elim_waiting _ _ _ _ _ Hinv Hq Hp) as (_ & _ & Hcnt). rewrite Hcnt in Hc.
  unfold wanted in Hc at 1. rewrite is_mode_same in Hc. lia.
Qed.

Lemma waiting_grant :
  ~ clash rq (grantedList h) (mode q) ->
  let q' := set_status STATUS_GRANTED q in
  exists c g, decModeCount (mode q) (conflict h) = Some c /\ incModeCount (mode q) (granted h) = Some g /\
    head_inv (<[r := q']> rq) res
      (mkHead (grantedList h ++ [r]) g (without r (conflictList h)) c (partitions h) (conversionsCount h)
         (if compatibleFirst q then S (compatibleFirstCount h) else compatibleFirstCount h)).
Proof.
  intros Hcl q'. destruct (elim_waiting _ _ _ _ _ Hinv Hq Hp) as (Hr & Hwg & Hcnt).
  pose proof (base_elim r _ _ _ Hinv) as Hb. rewrite Hwg in Hb.
  pose proof (fun f => countl_fresh f r rq res _ _ q' Hb) as Hf. pose proof (b_g _ _ _ _ _ Hb) as Hrg.
  assert (forall m, counts (conflict h) m = is_mode (mode q) m + countl (wanted m) rq (without r (conflictList h))) as Hc.
  { intros m. by rewrite (hi_ccnt _ _ _ Hinv), Hcnt. }
  destruct (decModeCount_ok (mode q) (conflict h)) as (kc & Hkc & Hkcm);
    [apply Hinv|rewrite Hc, is_mode_same; lia|].
  destruct (incModeCount_ok (mode q) (granted h)) as (kg & Hkg & Hkgm); [apply Hinv|].
  eexists _, _. split_and!; [exact Hkc|exact Hkg|].
  apply (head_inv_granted r _ res (grantedList h) (without r (conflictList h)) _ q');
    cbn [grantedList conflictList granted conflict counts mask conversionsCount compatibleFirstCount partitions].
  - by apply base_insert.
  - by rewrite lookup_insert_eq.
  - exact Hkgm.
  - exact Hkcm.
  - by rewrite waiting_not_partitioned.
  - apply place_inv in Hp as (Ha & Hl & _). unfold place. cbn. by rewrite Ha, Hl.
  - apply NoDup_snoc; [apply Hinv|done].
  - set_solver.
  - by apply without_snoc.
  - done.
  - intros m. rewrite set_count_held, (proj1 (Hf _)), (hi_gcnt _ _ _ Hinv), held_idle by done. done.
  - intros m. by rewrite (set_count_dec _ _ _ _ Hc), (proj2 (Hf _)).
  - rewrite (proj1 (Hf _)), converting_idle by done. apply Hinv.
  - rewrite (proj1 (Hf _)). unfold compat_first. cbn. destruct (compatibleFirst q); rewrite (hi_cf _ _ _ Hinv); done.
  - intros x x' Hx. rewrite lookup_insert_ne by set_solver. by apply (no_clash_compat _ (grantedList h)).
Qed.
End waiting.

(** The first waiting request conflicts with what is granted. *)
Definition front_blocked (rq : requests) (h : LockHead) : Prop :=
  forall r q, head (conflictList h) = Some r -> rq !! r = Some q -> clash rq (grantedList h) (mode q).

(** What the loop over the conflict queue has done when it ends. *)
Record waiting_done (res : ResourceId) (h h' : LockHead) (rq rq' : requests) : Prop := {
  wd_inv : head_inv rq' res h';
  wd_evolve : evolve res rq rq';
  wd_conv : forall r, r ∈ grantedList h' -> conv_blocked rq' (grantedList h') r;
  wd_front : front_blocked rq' h';
  wd_parts : partitions h' = partitions h;
  wd_granted : exists l, grantedList h' = grantedList h ++ l;
  wd_other : forall r, r ∉ conflictList h -> rq' !! r = rq !! r }.

Lemma clash_X (rq : requests) (l : list request) (r : request) (q : LockRequest) (m : LockMode) :
  r ∈ l -> rq !! r = Some q -> mode q = MODE_X -> m <> MODE_NONE -> clash rq l m.
Proof. intros Hr Hq Hm Hn. exists r, q. split_and!; [done..|]. left. rewrite Hm. by destruct m. Qed.

Lemma grant_waiting_ok (res : ResourceId) (l kept : list request) (newly : bool) (h : LockHead) (rq : requests)
    (n : list request) :
  head_inv rq res h -> reqs_ok rq -> conflictList h = kept ++ l ->
  (forall x q, x ∈ kept -> rq !! x = Some q -> clash rq (grantedList h) (mode q)) ->
  (newly = false -> kept = []) ->
  (forall x, x ∈ grantedList h -> conv_blocked rq (grantedList h) x) ->
  exists h' rq' n', grant_waiting l newly h rq n = Some (h', rq', n') /\ waiting_done res h h' rq rq'.
Proof.
  revert kept newly h rq n. induction l as [|r l IH]; intros kept newly h rq n H Hok Hcl Hk Hn Hcb; cbn [grant_waiting].
  { exists h, rq, n. split; [done|]. rewrite app_nil_r in Hcl.
    split; try done; [apply evolve_refl| |exists []; by rewrite app_nil_r].
    intros x q Hx. apply Hk. rewrite <- Hcl. by apply head_Some_elem_of. }
  destruct (proj1 (hi_cmem _ _ _ H r)) as (q & Hq & Hp); [rewrite Hcl; set_solver|].
  pose proof (place_inv _ _ Hp) as (_ & _ & Hs).
  rewrite Hq. cbn [mbind option_bind]. rewrite (bool_decide_true (status q = _)) by done.
  cbn [mbind option_bind invariant]. destruct (conflicts (mode q) (mask (granted h))) eqn:Ec.
  - apply (head_conflicts _ _ _ _ H) in Ec.
    destruct (bool_decide_reflect (head (conflictList h) = Some r)) as [Eh|Eh], newly; cbn [andb negb].
    2:{ exists h, rq, n. split; [done|]. split; try done; [apply evolve_refl| |exists []; by rewrite app_nil_r].
        intros x y Hx Hy. replace y with q by congruence. done. }
    3:{ rewrite Hn in Hcl by done. by rewrite Hcl in Eh. }
    all: apply (IH (kept ++ [r])); try done; [by rewrite Hcl, <- app_assoc|].
    all: intros x y [Hx| ->%list_elem_of_singleton]%elem_of_app Hy; [by apply (Hk x)|congruence].
  - apply (head_no_conflict _ _ _ _ H) in Ec.
    destruct (waiting_grant rq res h r q H Hq Hp Ec) as (c & g & Hc & Hg & H1).
    destruct (elim_waiting _ _ _ _ _ H Hq Hp) as (Hrc & Hwg & _).
    assert (r ∉ grantedList h) as Hrg by (rewrite <- Hwg, elem_without; tauto).
    pose proof (evolve_insert res rq r q _ Hq (grant_waiter res q Hp)) as He.
    pose proof (evolve_ok _ _ _ He Hok) as Hok1.
    assert (without r (conflictList h) = kept ++ l) as Hwk.
    { rewrite Hcl. apply without_split. rewrite <- Hcl. apply H. }
    cbn [mode set_status compatibleFirst]. rewrite Hc, Hg. cbn [mbind option_bind].
    assert (forall x, x ∈ grantedList h ++ [r] ->
              conv_blocked (<[r := set_status STATUS_GRANTED q]> rq) (grantedList h ++ [r]) x) as Hcb1
      by (intros x Hx; by apply conv_blocked_granted; auto).
    destruct (bool_decide_reflect (mode q = MODE_X)) as [Ex|Ex].
    + eexists _, _, _. split; [reflexivity|].
      split; try done; [|by eexists|intros x Hx; apply lookup_insert_ne; intros ->; by apply Hx].
      intros x y Hx Hy. cbn [grantedList]. apply (clash_X _ _ r (set_status STATUS_GRANTED q)); [set_solver|apply lookup_insert_eq|done|].
      apply head_Some_elem_of, (hi_cmem _ _ _ H1) in Hx as (y' & Hy' & Hpy).
      apply (ro_mode _ (Hok1 _ _ Hy)). apply (place_not_new _ (InWaiting res)). congruence.
    + edestruct (IH kept (newly || (compatibleFirst q && (compatibleFirstCount h =? 0))) _ _ (n ++ [r]) H1 Hok1 Hwk) as (h2 & rq2 & n2 & E2 & []).
      * cbn [grantedList]. intros x y Hx Hy. apply clash_granted; [done|].
        rewrite lookup_insert_ne in Hy; [by apply (Hk x)|]. intros ->.
        assert (x ∈ without x (conflictList h)) by (rewrite Hwk; set_solver). by apply (elem_without x x) in H0 as [].
      * intros [En _]%orb_false_iff. by apply Hn.
      * exact Hcb1.
      * exists h2, rq2, n2. split; [exact E2|]. split; try done; [by apply (evolve_trans _ _ _ _ He)|..].
        -- destruct wd_granted0 as [l2 Hl2]. cbn in Hl2. rewrite Hl2, <- app_assoc. by eexists.
        -- cbn in wd_other0. intros x Hx. rewrite wd_other0; [apply lookup_insert_ne; intros ->; by apply Hx|].
           intros ?%elem_without. tauto.
Qed.

(** The masks are empty exactly when the queues are. *)
Lemma granted_mask_empty (rq : requests) (res : ResourceId) (h : LockHead) :
  head_inv rq res h -> mask (granted h) = 0%Z <-> grantedList h = [].
Proof.
  intros H. rewrite (hi_gok _ _ _ H), mask_of_zero. split.
  - intros Hz. destruct (grantedList h) as [|r l] eqn:E; [done|]. exfalso.
    destruct (proj1 (hi_gmem _ _ _ H r)) as (q & Hq & Hp); [rewrite E; set_solver|].
    specialize (Hz (mode q)). rewrite (hi_gcnt _ _ _ H), E, (countl_cons _ _ _ q) in Hz by done.
    unfold held in Hz at 1. rewrite is_mode_same in Hz. lia.
  - intros E m. by rewrite (hi_gcnt _ _ _ H), E.
Qed.

Lemma conflict_mask_empty (rq : requests) (res : ResourceId) (h : LockHead) :
  head_inv rq res h -> mask (conflict h) = 0%Z <-> conflictList h = [].
Proof.
  intros H. rewrite (hi_cok _ _ _ H), mask_of_zero. split.
  - intros Hz. destruct (conflictList h) as [|r l] eqn:E; [done|]. exfalso.
    destruct (proj1 (hi_cmem _ _ _ H r)) as (q & Hq & Hp); [rewrite E; set_solver|].
    specialize (Hz (mode q)). rewrite (hi_ccnt _ _ _ H), E, (countl_cons _ _ _ q) in Hz by done.
    unfold wanted in Hz at 1. rewrite is_mode_same in Hz. lia.
  - intros E m. by rewrite (hi_ccnt _ _ _ H), E.
Qed.

(** Nobody waits without a reason: a converting request conflicts with another granted one,
    the front of the conflict queue conflicts with what is granted (unless it has jumped the
    queue), and requests wait only while some request is granted. *)
Record head_live (rq : requests) (h : LockHead) : Prop := {
  hl_conv : forall r, r ∈ grantedList h -> conv_blocked rq (grantedList h) r;
  hl_front : forall r q, head (conflictList h) = Some r -> rq !! r = Some q ->
    enqueueAtFront q = true \/ clash rq (grantedList h) (mode q);
  hl_some : conflictList h <> [] -> grantedList h <> [] }.

Lemma clash_nonempty (rq : requests) (l : list request) (m : LockMode) : clash rq l m -> l <> [].
Proof. intros (r & q & Hr & _) ->. set_solver. Qed.

(** The two sanity checks at the end of [_onLockModeChanged]. *)
Lemma sanity_checks (rq : requests) (res : ResourceId) (h : LockHead) :
  head_inv rq res h ->
  xorb (mask (granted h) =? 0)%Z (negb (bool_decide (grantedList h = []))) = true /\
  xorb (mask (conflict h) =? 0)%Z (negb (bool_decide (conflictList h = []))) = true.
Proof.
  intros H. split.
  - destruct (Z.eqb_spec (mask (granted h)) 0) as [E|E]; rewrite (granted_mask_empty _ _ _ H) in E.
    + by rewrite bool_decide_true.
    + by rewrite bool_decide_false.
  - destruct (Z.eqb_spec (mask (conflict h)) 0) as [E|E]; rewrite (conflict_mask_empty _ _ _ H) in E.
    + by rewrite bool_decide_true.
    + by rewrite bool_decide_false.
Qed.

Lemma waiting_done_live (res : ResourceId) (h h' : LockHead) (rq rq' : requests) :
  waiting_done res h h' rq rq' -> head_live rq' h'.
Proof.
  intros []. split; [done| |].
  - intros r q Hr Hq. right. by apply (wd_front0 r).
  - intros Hc. destruct (conflictList h') as [|r l] eqn:E; [done|].
    destruct (proj1 (hi_cmem _ _ _ wd_inv0 r)) as (q & Hq & _); [rewrite E; set_solver|].
    apply (clash_nonempty rq' _ (mode q)), (wd_front0 r); [by rewrite E|done].
Qed.

Lemma conversions_done_live (res : ResourceId) (h h' : LockHead) (rq rq' : requests) :
  head_inv rq res h -> conversions_done res h h' rq rq' ->
  (forall r q, head (conflictList h) = Some r -> rq !! r = Some q ->
     enqueueAtFront q = true \/ clash rq (grantedList h) (mode q)) ->
  (conflictList h <> [] -> grantedList h <> []) -> head_live rq' h'.
Proof.
  intros H [] Hf Hn. split; [done| |by rewrite cd_granted0, cd_waiting0].
  rewrite cd_granted0, cd_waiting0. intros r q Hr Hq.
  assert (r ∉ grantedList h) as Hg.
  { intros (x & Hx & Hp)%(hi_gmem _ _ _ H).
    apply head_Some_elem_of, (hi_cmem _ _ _ H) in Hr as (y & Hy & Hpy). congruence. }
  rewrite cd_other0 in Hq by done. destruct (Hf r q Hr Hq) as [?|?]; [by left|right]. by apply cd_clash0.
Qed.

Lemma onLockModeChanged_ok (res : ResourceId) (h : LockHead) (rq : requests) (check : bool) :
  head_inv rq res h -> reqs_ok rq ->
  (check = false ->
     (forall r q, head (conflictList h) = Some r -> rq !! r = Some q ->
        enqueueAtFront q = true \/ clash rq (grantedList h) (mode q)) /\
     (conflictList h <> [] -> grantedList h <> [])) ->
  exists h' rq' n, _onLockModeChanged h rq check = Some (h', rq', n) /\
    head_inv rq' res h' /\ evolve res rq rq' /\ head_live rq' h' /\ partitions h' = partitions h /\
    (forall r, ~ on_head rq r res -> rq' !! r = rq !! r).
Proof.
  intros H Hok Hch. unfold _onLockModeChanged.
  destruct (grant_conversions_ok res (grantedList h) h rq [] H Hok) as (h1 & rq1 & n1 & -> & H1); [auto..|].
  cbn [mbind option_bind]. pose proof (evolve_ok _ _ _ (cd_evolve _ _ _ _ _ H1) Hok) as Hok1.
  assert (exists h2 rq2 n2, (if check then grant_waiting (conflictList h1) false h1 rq1 n1 else Some (h1, rq1, n1))
            = Some (h2, rq2, n2) /\
            head_inv rq2 res h2 /\ evolve res rq1 rq2 /\ head_live rq2 h2 /\ partitions h2 = partitions h1 /\
            (forall r, r ∉ conflictList h1 -> rq2 !! r = rq1 !! r))
    as (h2 & rq2 & n2 & -> & H2 & He2 & Hl2 & Hp2 & Ho2).
  { destruct check.
    - destruct (grant_waiting_ok res (conflictList h1) [] false h1 rq1 n1) as (h2 & rq2 & n2 & -> & H2);
        [apply H1|done|done|set_solver|done|apply H1|].
      exists h2, rq2, n2. pose proof (waiting_done_live _ _ _ _ _ H2). by destruct H2.
    - exists h1, rq1, n1. split_and!; [done|apply H1|apply evolve_refl| |done|done].
      destruct (Hch eq_refl) as [Hf Hn]. by apply (conversions_done_live res h h1 rq). }
  cbn [mbind option_bind]. destruct (sanity_checks _ _ _ H2) as [-> ->]. cbn [invariant mbind option_bind].
  exists h2, rq2, n2. split_and!; try done.
  - by apply (evolve_trans _ _ rq1); [apply H1|].
  - rewrite Hp2. apply H1.
  - intros r Hr. rewrite Ho2; [apply (cd_other _ _ _ _ _ H1)|rewrite (cd_waiting _ _ _ _ _ H1)];
      intros Hx; apply Hr; [left; by apply (hi_gmem _ _ _ H)|right; by apply (hi_cmem _ _ _ H)].
Qed.

End LockInv.
