(* ===== verification/LockSystem.v ===== *)
(** * Threads on the lock manager

    The invariant of the whole manager, its preservation by the critical sections of
    [LockManager], and the transition system in which the threads' calls to [lock], [convert],
    [unlock] and [downgrade] interleave at the boundaries of their critical sections. One
    interleaving breaks the invariant: [unlock] of a request whose conversion is pending reads
    the status before it takes the bucket's mutex, and a conversion granted in between is
    released instead of cancelled. The transition system has that interleaving and records it
    in the history variable [raced]; the theorems hold for the runs that have not taken it, and
    [cancel_conversion_race] shows what the others reach. *)
From S2P Require Import Prelude LockRequestList LockManager LockSafety.

Module LockSys.
Import RequestList Lock LockInv.
Local Open Scope nat_scope.

(** ** The invariant of the manager *)

Record Inv (M : LockManager) : Prop := {
  iv_reqs : reqs_ok (reqs M);
  iv_heads : forall res, head_inv (reqs M) res (findOrInsert res M);
  iv_live : forall res, head_live (reqs M) (findOrInsert res M);
  iv_parts : part_inv (reqs M) (parts M);
  iv_link : forall p res l, parts M !! (p, res) = Some l -> p ∈ partitions (findOrInsert res M) }.

(** The requests other than [r] are the same, but for being granted or migrated. *)
Definition others (res : ResourceId) (r : request) (rq rq' : requests) : Prop :=
  evolve res (delete r rq) (delete r rq').

(** ** The steps of the threads *)

(** What the thread of a request is doing: nothing, or it is between two critical sections
    of a call. A call to [unlock] first takes the partition's mutex ([Unlocking]) and then the
    bucket's ([Releasing]); [cancel] says that the request was waiting for a conversion when
    [unlock] was entered, so that the call is meant to cancel it. The code keeps no such note. *)
Inductive pc :=
| Ready
| Locking (res : ResourceId)
| Converting (res : ResourceId) (newMode : LockMode)
| Unlocking (cancel : bool)
| Releasing (cancel : bool).

(** [raced]: some cancellation has come to the bucket section of [unlock] too late, when its
    conversion was already granted. *)
Record State := mkState { mgr : LockManager; pcs : gmap request pc; raced : bool }.

(** The request is queued on, or holds, this resource. *)
Definition resource_of (q : LockRequest) : option ResourceId := place_resource <$> place q.

Definition drop_request (r : request) (M : LockManager) : LockManager :=
  mkManager (delete r (reqs M)) (heads M) (parts M) (notified M).

(** A request as its locker makes it: [initNew], and the two flags. *)
Definition new_request (lk : Z) (front first : bool) : LockRequest :=
  mkRequest lk front first false 1 None None STATUS_NEW MODE_NONE MODE_NONE.

(** The locker deletes a request that [unlock] reports as released, and keeps the others. *)
Definition after_unlock (r : request) (released : bool) (M : LockManager) (ps : gmap request pc) (race : bool)
    : State :=
  if released then mkState (drop_request r M) (delete r ps) race else mkState M (<[r := Ready]> ps) race.

Inductive step : State -> State -> Prop :=
| step_new s r lk front first :
    reqs (mgr s) !! r = None ->
    step s (mkState (update_request r (new_request lk front first) (mgr s)) (<[r := Ready]> (pcs s)) (raced s))
| step_lock s r q res m M1 result M2 :
    pcs s !! r = Some Ready -> reqs (mgr s) !! r = Some q -> status q = STATUS_NEW -> m <> MODE_NONE ->
    lock_enter r m (mgr s) = Some M1 -> lock_partition res r M1 = Some (result, M2) ->
    step s (mkState M2 (<[r := match result with Some _ => Ready | None => Locking res end]> (pcs s)) (raced s))
| step_lock_bucket s r res result M :
    pcs s !! r = Some (Locking res) -> lock_bucket res r (mgr s) = Some (result, M) ->
    step s (mkState M (<[r := Ready]> (pcs s)) (raced s))
| step_convert s r q res m fast M :
    pcs s !! r = Some Ready -> reqs (mgr s) !! r = Some q -> status q = STATUS_GRANTED ->
    resource_of q = Some res -> isModeCovered m (mode q) || isModeCovered (mode q) m = true ->
    convert_enter r m (mgr s) = Some (fast, M) ->
    step s (mkState M (<[r := if fast : bool then Ready else Converting res m]> (pcs s)) (raced s))
| step_convert_bucket s r res m result M :
    pcs s !! r = Some (Converting res m) -> convert_bucket res r m (mgr s) = Some (result, M) ->
    step s (mkState M (<[r := Ready]> (pcs s)) (raced s))
| step_unlock s r q held M :
    pcs s !! r = Some Ready -> reqs (mgr s) !! r = Some q -> status q <> STATUS_NEW ->
    unlock_enter r (mgr s) = Some (held, M) ->
    step s (mkState M (<[r := if held : bool then Ready
                              else Unlocking (bool_decide (status q = STATUS_CONVERTING))]> (pcs s)) (raced s))
| step_unlock_partition s r cancel M :
    pcs s !! r = Some (Unlocking cancel) -> unlock_partition r (mgr s) = Some (true, M) ->
    step s (mkState (drop_request r M) (delete r (pcs s)) (raced s))
| step_unlock_not_partitioned s r cancel M :
    pcs s !! r = Some (Unlocking cancel) -> unlock_partition r (mgr s) = Some (false, M) ->
    step s (mkState M (<[r := Releasing cancel]> (pcs s)) (raced s))
| step_unlock_bucket s r cancel q released M :
    pcs s !! r = Some (Releasing cancel) -> reqs (mgr s) !! r = Some q ->
    unlock_bucket r (mgr s) = Some (released, M) ->
    step s (after_unlock r released M (pcs s)
              (raced s || (cancel && negb (bool_decide (status q = STATUS_CONVERTING)))))
| step_downgrade s r q m M :
    pcs s !! r = Some Ready -> reqs (mgr s) !! r = Some q -> status q = STATUS_GRANTED ->
    m <> MODE_NONE -> downgrade r m (mgr s) = Some M ->
    step s (mkState M (pcs s) (raced s))
| step_cleanup s res M :
    cleanup_head res (mgr s) = Some M ->
    step s (mkState M (pcs s) (raced s)).

Definition init_state : State := mkState (mkManager ∅ ∅ ∅ []) ∅ false.

Definition reachable (s : State) : Prop := rtc step init_state s.

(** ** Running the system *)

Inductive action :=
| ANew (r : request) (lk : Z) (front first : bool)
| ALock (r : request) (res : ResourceId) (m : LockMode)
| AConvert (r : request) (res : ResourceId) (m : LockMode)
| AUnlock (r : request)
| ADowngrade (r : request) (m : LockMode)
| ACleanup (res : ResourceId)
| AContinue (r : request).

(** The next critical section of the call the request's thread is in. *)
Definition continue_call (r : request) (c : pc) (s : State) : option State :=
  match c with
  | Ready => None
  | Locking res => '(_, M) ← lock_bucket res r (mgr s); Some (mkState M (<[r := Ready]> (pcs s)) (raced s))
  | Converting res m =>
      '(_, M) ← convert_bucket res r m (mgr s); Some (mkState M (<[r := Ready]> (pcs s)) (raced s))
  | Unlocking cancel =>
      '(b, M) ← unlock_partition r (mgr s);
      Some (if b : bool then mkState (drop_request r M) (delete r (pcs s)) (raced s)
            else mkState M (<[r := Releasing cancel]> (pcs s)) (raced s))
  | Releasing cancel =>
      q ← reqs (mgr s) !! r;
      '(b, M) ← unlock_bucket r (mgr s);
      Some (after_unlock r b M (pcs s) (raced s || (cancel && negb (bool_decide (status q = STATUS_CONVERTING)))))
  end.

Definition ready (r : request) (s : State) : option LockRequest :=
  match pcs s !! r with Some Ready => reqs (mgr s) !! r | _ => None end.

Definition exec (a : action) (s : State) : option State :=
  match a with
  | ANew r lk front first =>
      match reqs (mgr s) !! r with
      | None => Some (mkState (update_request r (new_request lk front first) (mgr s)) (<[r := Ready]> (pcs s)) (raced s))
      | Some _ => None
      end
  | ALock r res m =>
      q ← ready r s;
      _ ← invariant (bool_decide (status q = STATUS_NEW) && bool_decide (m <> MODE_NONE));
      M ← lock_enter r m (mgr s);
      '(result, M) ← lock_partition res r M;
      Some (mkState M (<[r := match result with Some _ => Ready | None => Locking res end]> (pcs s)) (raced s))
  | AConvert r res m =>
      q ← ready r s;
      _ ← invariant (bool_decide (status q = STATUS_GRANTED) && bool_decide (resource_of q = Some res)
                     && (isModeCovered m (mode q) || isModeCovered (mode q) m));
      '(fast, M) ← convert_enter r m (mgr s);
      Some (mkState M (<[r := if fast : bool then Ready else Converting res m]> (pcs s)) (raced s))
  | AUnlock r =>
      q ← ready r s;
      _ ← invariant (bool_decide (status q <> STATUS_NEW));
      '(held, M) ← unlock_enter r (mgr s);
      Some (mkState M (<[r := if held : bool then Ready
                              else Unlocking (bool_decide (status q = STATUS_CONVERTING))]> (pcs s)) (raced s))
  | ADowngrade r m =>
      q ← ready r s;
      _ ← invariant (bool_decide (status q = STATUS_GRANTED) && bool_decide (m <> MODE_NONE));
      M ← downgrade r m (mgr s);
      Some (mkState M (pcs s) (raced s))
  | ACleanup res => M ← cleanup_head res (mgr s); Some (mkState M (pcs s) (raced s))
  | AContinue r => c ← pcs s !! r; continue_call r c s
  end.

Fixpoint run (l : list action) (s : State) : option State :=
  match l with
  | [] => Some s
  | a :: l => s ← exec a s; run l s
  end.

(** The request holds the resource, in its mode (also while it waits for a conversion). *)
Definition holds (q : LockRequest) (res : ResourceId) : Prop := resource_of q = Some res /\ status q <> STATUS_WAITING.

(** What is known of a request inside [unlock]: it is about to be released, or its
    conversion is about to be cancelled, which has perhaps been granted in the meantime. *)
Definition unlocking_ok (cancel : bool) (q : LockRequest) : Prop :=
  if cancel then 1 <= recursiveCount q /\ (status q = STATUS_CONVERTING \/ status q = STATUS_GRANTED) /\
                 partitionedLock q = None
  else recursiveCount q = 0 /\ (status q = STATUS_GRANTED \/ status q = STATUS_WAITING).

(** What is known of a request between the critical sections of a call. *)
Definition pc_ok (q : LockRequest) (c : pc) : Prop :=
  match c with
  | Ready => 1 <= recursiveCount q /\ (status q = STATUS_NEW \/ status q = STATUS_WAITING -> recursiveCount q = 1) /\
             (status q = STATUS_CONVERTING -> 2 <= recursiveCount q)
  | Locking _ => status q = STATUS_NEW /\ recursiveCount q = 1 /\ mode q <> MODE_NONE /\ partitioned q = intent (mode q)
  | Converting res m => status q = STATUS_GRANTED /\ 2 <= recursiveCount q /\ resource_of q = Some res /\
                        isModeCovered (mode q) m = true /\ isModeCovered m (mode q) = false
  | Unlocking cancel => unlocking_ok cancel q
  | Releasing cancel => unlocking_ok cancel q /\ partitionedLock q = None
  end.

Record Good (s : State) : Prop := {
  gd_inv : Inv (mgr s);
  gd_dom : dom (pcs s) = dom (reqs (mgr s));
  gd_pc : forall r q c, reqs (mgr s) !! r = Some q -> pcs s !! r = Some c -> pc_ok q c }.
(** ** Framing *)

Lemma head_members (rq rq' : requests) (res : ResourceId) (h : LockHead) :
  (forall r, rq' !! r = rq !! r \/ (~ on_head rq r res /\ ~ on_head rq' r res)) -> head_inv rq res h ->
  (forall r, r ∈ grantedList h -> rq' !! r = rq !! r) /\ (forall r, r ∈ conflictList h -> rq' !! r = rq !! r).
Proof.
  intros H Hi. split; intros r Hr; destruct (H r) as [|[Hn _]]; try done; destruct Hn.
  - left. by apply (hi_gmem _ _ _ Hi).
  - right. by apply (hi_cmem _ _ _ Hi).
Qed.

Lemma head_live_ext (rq rq' : requests) (h : LockHead) :
  (forall r, r ∈ grantedList h -> rq' !! r = rq !! r) -> (forall r, r ∈ conflictList h -> rq' !! r = rq !! r) ->
  head_live rq h -> head_live rq' h.
Proof.
  intros Hg Hc [H1 H2 H3]. split; [| |done].
  - intros r Hr q Hq Hs. rewrite Hg in Hq by done. apply (clash_ext rq); [|by apply (H1 r)].
    intros x [_ Hx]%elem_without. by apply Hg.
  - intros r q Hr Hq. rewrite Hc in Hq by (by apply head_Some_elem_of).
    destruct (H2 r q Hr Hq) as [|?]; [by left|right]. by apply (clash_ext rq).
Qed.

Lemma head_live_frame (rq rq' : requests) (res : ResourceId) (h : LockHead) :
  (forall r, rq' !! r = rq !! r \/ (~ on_head rq r res /\ ~ on_head rq' r res)) -> head_inv rq res h ->
  head_live rq h -> head_live rq' h.
Proof. intros H Hi. destruct (head_members _ _ _ _ H Hi). by apply head_live_ext. Qed.

(** Changes confined to one resource. *)
Definition confined (res : ResourceId) (rq rq' : requests) : Prop :=
  forall res' r, res' <> res -> rq' !! r = rq !! r \/ (~ on_head rq r res' /\ ~ on_head rq' r res').

Lemma find_insert (res : ResourceId) (h : LockHead) (hs : gmap ResourceId LockHead) (rq : requests)
    (pd : partition_data) (n : list (request * ResourceId)) :
  findOrInsert res (mkManager rq (<[res := h]> hs) pd n) = h.
Proof. unfold findOrInsert. cbn [heads]. by rewrite lookup_insert_eq. Qed.

Lemma find_insert_ne (res res' : ResourceId) (h : LockHead) (M : LockManager) (rq : requests)
    (pd : partition_data) (n : list (request * ResourceId)) :
  res' <> res -> findOrInsert res' (mkManager rq (<[res := h]> (heads M)) pd n) = findOrInsert res' M.
Proof. intros H. unfold findOrInsert. cbn [heads]. by rewrite lookup_insert_ne by congruence. Qed.

(** One head and the requests on it change. *)
Lemma Inv_rebuild (M : LockManager) (res : ResourceId) (h : LockHead) (rq : requests) (pd : partition_data)
    (n : list (request * ResourceId)) :
  Inv M -> confined res (reqs M) rq -> reqs_ok rq -> head_inv rq res h -> head_live rq h -> part_inv rq pd ->
  (forall p l, pd !! (p, res) = Some l -> p ∈ partitions h) ->
  (forall p res' l, res' <> res -> pd !! (p, res') = Some l -> is_Some (parts M !! (p, res'))) ->
  Inv (mkManager rq (<[res := h]> (heads M)) pd n).
Proof.
  intros [I1 I2 I3 I4 I5] Hc Hok Hh Hl Hp Hk Hk'. split; cbn [reqs parts]; try done.
  - intros res'. destruct (decide (res' = res)) as [->|Hne]; [by rewrite find_insert|].
    rewrite find_insert_ne by done. apply (head_inv_frame (reqs M)); [|done]. intros x. by apply Hc.
  - intros res'. destruct (decide (res' = res)) as [->|Hne]; [by rewrite find_insert|].
    rewrite find_insert_ne by done. apply (head_live_frame (reqs M) _ res'); [|done..]. intros x. by apply Hc.
  - intros p res' l Hpd. destruct (decide (res' = res)) as [->|Hne]; [rewrite find_insert; by apply (Hk p l)|].
    rewrite find_insert_ne by done. destruct (Hk' p res' l Hne Hpd) as [l' Hl']. by apply (I5 p res' l').
Qed.

Lemma confined_refl (res : ResourceId) (rq : requests) : confined res rq rq.
Proof. intros res' r _. by left. Qed.

Lemma confined_trans (res : ResourceId) (rq1 rq2 rq3 : requests) :
  confined res rq1 rq2 -> confined res rq2 rq3 -> confined res rq1 rq3.
Proof.
  intros H1 H2 res' r Hne.
  destruct (H1 res' r Hne) as [E1|[A1 B1]], (H2 res' r Hne) as [E2|[A2 B2]]; unfold on_head, at_place in *.
  - left. congruence.
  - right. rewrite E1 in A2. done.
  - right. rewrite <- E2 in B1. done.
  - by right.
Qed.

Lemma confined_evolve (res : ResourceId) (rq rq' : requests) : evolve res rq rq' -> confined res rq rq'.
Proof. intros H res' r Hne. by apply (evolve_not_on res). Qed.

Lemma confined_insert (res : ResourceId) (rq : requests) (r : request) (q : LockRequest) :
  (forall x, rq !! r = Some x -> resource_of x = Some res \/ resource_of x = None) ->
  resource_of q = Some res \/ resource_of q = None -> confined res rq (<[r := q]> rq).
Proof.
  intros H1 H2 res' x Hne. destruct (decide (x = r)) as [->|Hx]; [|left; by apply lookup_insert_ne].
  right. unfold on_head, at_place. rewrite lookup_insert_eq. split.
  - intros [(y & Hy & Hp)|(y & Hy & Hp)]; destruct (H1 y Hy) as [E|E]; unfold resource_of in E; rewrite Hp in E;
      cbn in E; congruence.
  - intros [(y & [= <-] & Hp)|(y & [= <-] & Hp)]; destruct H2 as [E|E]; unfold resource_of in E; rewrite Hp in E;
      cbn in E; congruence.
Qed.

Lemma confined_delete (res : ResourceId) (rq : requests) (r : request) :
  (forall x, rq !! r = Some x -> resource_of x = Some res \/ resource_of x = None) ->
  confined res rq (delete r rq).
Proof.
  intros H1 res' x Hne. destruct (decide (x = r)) as [->|Hx]; [|left; by apply lookup_delete_ne].
  right. unfold on_head, at_place. rewrite lookup_delete_eq. split; [|by intros [(? & ? & _)|(? & ? & _)]].
  intros [(y & Hy & Hp)|(y & Hy & Hp)]; destruct (H1 y Hy) as [E|E]; unfold resource_of in E; rewrite Hp in E;
    cbn in E; congruence.
Qed.

(** ** A request that is nowhere, or whose recursive count changes *)

Lemma part_inv_ext (rq rq' : requests) (pd : partition_data) :
  (forall r p res, at_place rq' r (InPartition p res) <-> at_place rq r (InPartition p res)) ->
  part_inv rq pd -> part_inv rq' pd.
Proof. intros H Hp p res. destruct (Hp p res) as [Hn Hm]. split; [done|]. intros r. by rewrite Hm, H. Qed.

Lemma Inv_update_unplaced (M : LockManager) (r : request) (q' : LockRequest) :
  Inv M -> (forall q, reqs M !! r = Some q -> place q = None) -> place q' = None -> req_ok q' ->
  Inv (update_request r q' M).
Proof.
  intros [I1 I2 I3 I4 I5] Hq Hn Hok.
  assert (forall res x, <[r := q']> (reqs M) !! x = reqs M !! x \/
            (~ on_head (reqs M) x res /\ ~ on_head (<[r := q']> (reqs M)) x res)) as Hf.
  { intros res x. destruct (decide (x = r)) as [->|Hx]; [|left; by apply lookup_insert_ne]. right.
    unfold on_head, at_place. rewrite lookup_insert_eq.
    split; [intros [(y & Hy & Hp)|(y & Hy & Hp)]; apply Hq in Hy|intros [(y & Hy & Hp)|(y & Hy & Hp)]]; congruence. }
  split; cbn [reqs parts update_request]; try done.
  - by apply reqs_ok_insert.
  - intros res. by apply (head_inv_frame (reqs M)).
  - intros res. by apply (head_live_frame (reqs M) _ res); [|apply I2|apply I3].
  - apply (part_inv_ext (reqs M)); [|done]. intros x p res. unfold at_place.
    destruct (decide (x = r)) as [->|Hx]; [|by rewrite lookup_insert_ne]. rewrite lookup_insert_eq.
    split; intros (y & Hy & Hp); [congruence|]. apply Hq in Hy. congruence.
Qed.

Section recursive_count.
Context (rq : requests) (r : request) (q : LockRequest) (k : nat) (Hq : rq !! r = Some q).

Definition recounted : requests := <[r := set_recursiveCount k q]> rq.

Lemma recounted_lookup (x : request) (y : LockRequest) :
  recounted !! x = Some y -> exists z, rq !! x = Some z /\ place z = place y /\ mode z = mode y /\
    status z = status y /\ convertMode z = convertMode y /\ enqueueAtFront z = enqueueAtFront y.
Proof.
  unfold recounted. destruct (decide (x = r)) as [->|Hx].
  - rewrite lookup_insert_eq. intros [= <-]. by exists q.
  - rewrite lookup_insert_ne by done. by exists y.
Qed.

Lemma recounted_lookup_back (x : request) (z : LockRequest) :
  rq !! x = Some z -> exists y, recounted !! x = Some y /\ place z = place y /\ mode z = mode y /\
    status z = status y /\ convertMode z = convertMode y.
Proof.
  unfold recounted. destruct (decide (x = r)) as [->|Hx].
  - rewrite lookup_insert_eq. intros Hz. exists (set_recursiveCount k q). by replace z with q by congruence.
  - rewrite lookup_insert_ne by done. by exists z.
Qed.

Lemma recounted_at (x : request) (pl : Place) : at_place recounted x pl <-> at_place rq x pl.
Proof.
  split.
  - intros (y & Hy & Hp). apply recounted_lookup in Hy as (z & Hz & E & _). exists z. by rewrite E.
  - intros (z & Hz & Hp). apply recounted_lookup_back in Hz as (y & Hy & E & _). exists y. by rewrite <- E.
Qed.

Lemma recounted_countl (f : LockRequest -> nat) (l : list request) :
  f (set_recursiveCount k q) = f q -> countl f recounted l = countl f rq l.
Proof.
  intros Hf. induction l as [|x l IH]; [done|]. unfold countl in *. cbn. f_equal; [|exact IH].
  unfold recounted. destruct (decide (x = r)) as [->|Hx].
  - by rewrite lookup_insert_eq, Hq.
  - by rewrite lookup_insert_ne.
Qed.

Lemma recounted_clash (l : list request) (m : LockMode) : clash rq l m -> clash recounted l m.
Proof.
  intros (x & z & Hx & Hz & Hc). apply recounted_lookup_back in Hz as (y & Hy & _ & E1 & E2 & E3).
  exists x, y. by rewrite <- E1, <- E2, <- E3.
Qed.

Lemma recounted_head (res : ResourceId) (h : LockHead) : head_inv rq res h -> head_inv recounted res h.
Proof.
  intros []. split; try done.
  - intros x. by rewrite recounted_at.
  - intros x. by rewrite recounted_at.
  - intros m. rewrite recounted_countl by done. apply hi_gcnt0.
  - intros m. rewrite recounted_countl by done. apply hi_ccnt0.
  - rewrite recounted_countl by done. apply hi_conv0.
  - rewrite recounted_countl by done. apply hi_cf0.
  - intros x x' y y' Hx Hx' Hne Hy Hy'.
    apply recounted_lookup in Hy as (z & Hz & _ & <- & _), Hy' as (z' & Hz' & _ & <- & _). by apply (hi_compat0 x x').
Qed.

Lemma recounted_live (h : LockHead) : head_live rq h -> head_live recounted h.
Proof.
  intros [H1 H2 H3]. split; [| |done].
  - intros x Hx y Hy Hs. apply recounted_lookup in Hy as (z & Hz & _ & _ & E & <- & _).
    apply recounted_clash, (H1 x Hx z Hz). congruence.
  - intros x y Hx Hy. apply recounted_lookup in Hy as (z & Hz & _ & <- & _ & _ & <-).
    destruct (H2 x z Hx Hz); [by left|right]. by apply recounted_clash.
Qed.
End recursive_count.

Lemma Inv_update_count (M : LockManager) (r : request) (q : LockRequest) (k : nat) :
  Inv M -> reqs M !! r = Some q -> Inv (update_request r (set_recursiveCount k q) M).
Proof.
  intros [I1 I2 I3 I4 I5] Hq. split; cbn [reqs parts update_request].
  - apply reqs_ok_insert; [done|]. destruct (I1 r q Hq). by split.
  - intros res. by apply recounted_head.
  - intros res. apply (recounted_live (reqs M) r q k Hq), I3.
  - apply (part_inv_ext (reqs M)); [|done]. intros x p res. by apply recounted_at.
  - exact I5.
Qed.

(** ** Partitions *)

Lemma part_list_insert (pd : partition_data) (p : partition) (res : ResourceId) (l : list request) :
  part_list (<[(p, res) := l]> pd) p res = l.
Proof. unfold part_list. by rewrite lookup_insert_eq. Qed.

Lemma part_list_insert_ne (pd : partition_data) (p p' : partition) (res res' : ResourceId) (l : list request) :
  (p', res') <> (p, res) -> part_list (<[(p, res) := l]> pd) p' res' = part_list pd p' res'.
Proof. intros H. unfold part_list. by rewrite lookup_insert_ne by congruence. Qed.

Lemma part_inv_add (rq : requests) (pd : partition_data) (r : request) (q' : LockRequest) (p : partition)
    (res : ResourceId) :
  part_inv rq pd -> (forall q, rq !! r = Some q -> place q = None) -> place q' = Some (InPartition p res) ->
  part_inv (<[r := q']> rq) (<[(p, res) := part_list pd p res ++ [r]]> pd).
Proof.
  intros Hi Hn Hp p' res'.
  assert (forall p res, r ∉ part_list pd p res) as Hr.
  { intros a b (q & Hq & Hpl)%(Hi a b). apply Hn in Hq. congruence. }
  destruct (decide ((p', res') = (p, res))) as [[= -> ->]|Hne].
  - rewrite part_list_insert. destruct (Hi p res) as [Hnd Hm]. split; [by apply NoDup_snoc|].
    intros x. rewrite elem_of_app, list_elem_of_singleton. unfold at_place.
    destruct (decide (x = r)) as [->|Hx].
    + rewrite lookup_insert_eq. split; [|by right]. intros _. by exists q'.
    + rewrite lookup_insert_ne by done. rewrite Hm. unfold at_place. tauto.
  - rewrite part_list_insert_ne by done. destruct (Hi p' res') as [Hnd Hm]. split; [done|].
    intros x. rewrite Hm. unfold at_place.
    destruct (decide (x = r)) as [->|Hx]; [|by rewrite lookup_insert_ne]. rewrite lookup_insert_eq.
    split; intros (y & Hy & Hpl); [apply Hn in Hy; congruence|]. exfalso. congruence.
Qed.

(** A request nobody has seen joins a partition. *)
Lemma partition_newRequest_ok (M : LockManager) (p : partition) (res : ResourceId) (r : request) (q : LockRequest) :
  Inv M -> reqs M !! r = Some q -> status q = STATUS_NEW -> partitioned q = true -> intent (mode q) = true ->
  p = _getPartition q -> p ∈ partitions (findOrInsert res M) ->
  let q' := set_status STATUS_GRANTED (set_partitionedLock (Some (p, res)) q) in
  exists M', partition_newRequest p res r M = Some M' /\ Inv M' /\ reqs M' = <[r := q']> (reqs M).
Proof.
  intros [I1 I2 I3 I4 I5] Hq Hs Hpt Hint Hp Hin q'.
  destruct (ro_new _ (I1 _ _ Hq) Hs) as [Hpl Hlh].
  unfold partition_newRequest. rewrite Hq. cbn [mbind option_bind]. rewrite Hpt. cbn [invariant mbind option_bind].
  rewrite (bool_decide_true (lockHead q = None)) by done. cbn [invariant mbind option_bind].
  eexists. split; [done|]. split; [|done]. fold q'.
  assert (place q' = Some (InPartition p res)) as Hpl' by (unfold place, q'; cbn; by rewrite Hlh).
  assert (place q = None) as Hpn by (unfold place; by rewrite Hpl, Hlh).
  assert (forall res x, <[r := q']> (reqs M) !! x = reqs M !! x \/
            (~ on_head (reqs M) x res /\ ~ on_head (<[r := q']> (reqs M)) x res)) as Hf.
  { intros res' x. destruct (decide (x = r)) as [->|Hx]; [|left; by apply lookup_insert_ne]. right.
    unfold on_head, at_place. rewrite lookup_insert_eq. split; intros [(y & Hy & ?)|(y & Hy & ?)]; congruence. }
  split; cbn [reqs parts].
  - apply reqs_ok_insert; [done|]. split; try done; [by rewrite Hpl'| |].
    + intros _. cbn. by destruct (mode q).
    + intros ? ? [= <- <-]. by split_and!.
  - intros res'. by apply (head_inv_frame (reqs M)).
  - intros res'. by apply (head_live_frame (reqs M) _ res'); [|apply I2|apply I3].
  - apply (part_inv_add (reqs M)); [done| |done]. intros y Hy. congruence.
  - intros p' res' l. destruct (decide ((p', res') = (p, res))) as [[= -> ->]|Hne]; [done|].
    rewrite lookup_insert_ne by congruence. apply I5.
Qed.

(** ** [lock] *)

Lemma lock_enter_ok (M : LockManager) (r : request) (q : LockRequest) (m : LockMode) :
  Inv M -> reqs M !! r = Some q -> status q = STATUS_NEW -> recursiveCount q = 1 ->
  let q' := set_mode m (set_partitioned (intent m) q) in
  lock_enter r m M = Some (update_request r q' M) /\ Inv (update_request r q' M).
Proof.
  intros Hi Hq Hs Hc q'. split.
  - unfold lock_enter. rewrite Hq. cbn [mbind option_bind]. by rewrite Hs, Hc.
  - destruct (ro_new _ (iv_reqs _ Hi _ _ Hq) Hs) as [Hpl Hlh].
    assert (place q' = None) as Hn by (unfold place, q'; cbn; by rewrite Hpl, Hlh).
    apply Inv_update_unplaced; [done| |done|].
    + intros y Hy. replace y with q by congruence. unfold place. by rewrite Hpl, Hlh.
    + destruct (iv_reqs _ Hi _ _ Hq). split; cbn; try done; try congruence.
Qed.

Lemma lock_partition_ok (M : LockManager) (res : ResourceId) (r : request) (q : LockRequest) :
  Inv M -> reqs M !! r = Some q -> status q = STATUS_NEW -> partitioned q = intent (mode q) ->
  lock_partition res r M = Some (None, M) \/
  exists M' p, lock_partition res r M = Some (Some LOCK_OK, M') /\ Inv M' /\
    reqs M' = <[r := set_status STATUS_GRANTED (set_partitionedLock (Some (p, res)) q)]> (reqs M).
Proof.
  intros Hi Hq Hs Hp. unfold lock_partition. rewrite Hq. cbn [mbind option_bind].
  destruct (partitioned q) eqn:Ep; [|by left].
  destruct (parts M !! (_getPartition q, res)) as [l|] eqn:El; [|by left]. right.
  destruct (partition_newRequest_ok M (_getPartition q) res r q) as (M' & -> & Hi' & Hr'); try done.
  { by apply (iv_link _ Hi _ _ l). }
  by exists M', (_getPartition q).
Qed.

(** A grant ends in [STATUS_GRANTED]; a granted request can only be migrated. *)
Lemma rtc_grant_status (res : ResourceId) (q q' : LockRequest) :
  rtc (grant_step res) q q' -> q' = q \/ status q' = STATUS_GRANTED.
Proof.
  intros H. apply rtc_inv_r in H as [->|(y & _ & Hs)]; [by left|right]. by destruct Hs.
Qed.

Lemma evolve_converting (res : ResourceId) (rq rq' : requests) (r : request) (q' : LockRequest) :
  evolve res rq rq' -> rq' !! r = Some q' -> status q' <> STATUS_GRANTED -> rq !! r = Some q'.
Proof.
  intros He Hq' Hs. specialize (He r). rewrite Hq' in He. destruct (rq !! r) as [q|]; [|done].
  apply rtc_grant_status in He as [->|]; done.
Qed.

Lemma head_partition_none (rq : requests) (res : ResourceId) (h : LockHead) (r : request) :
  head_inv rq res h -> r ∈ grantedList h \/ r ∈ conflictList h ->
  exists q, rq !! r = Some q /\ partitionedLock q = None.
Proof.
  intros H [(q & Hq & Hp)%(hi_gmem _ _ _ H)|(q & Hq & Hp)%(hi_cmem _ _ _ H)]; exists q; split; try done;
    by apply place_inv in Hp as [].
Qed.

Lemma live_migrated (res : ResourceId) (h h' : LockHead) (rq rq' : requests) (pd pd' : partition_data) :
  migrated res h h' rq rq' pd pd' -> head_inv rq res h -> head_live rq h -> head_live rq' h'.
Proof.
  intros [Hi He _ _ _ _ [l Hg] Hw Hk] H [H1 H2 H3].
  assert (forall r, r ∈ grantedList h \/ r ∈ conflictList h -> rq' !! r = rq !! r) as Hsame.
  { intros r Hr. destruct (head_partition_none _ _ _ _ H Hr) as (q & Hq & Hn). rewrite Hq. by apply Hk. }
  assert (forall gl m, (forall x, x ∈ gl -> x ∈ grantedList h) -> clash rq gl m -> clash rq' gl m) as Hcl.
  { intros gl m Hgl. apply clash_ext. intros x Hx. apply Hsame. left. by apply Hgl. }
  split.
  - intros r Hr q Hq Hs. assert (rq !! r = Some q) as Hq0 by (apply (evolve_converting res _ rq'); [done..|congruence]).
    assert (r ∈ grantedList h) as Hr0.
    { apply (hi_gmem _ _ _ H). exists q. split; [done|].
      apply (hi_gmem _ _ _ Hi) in Hr as (y & Hy & Hp). congruence. }
    destruct (Hcl (without r (grantedList h)) (convertMode q)) as (x & y & Hx & Hy & Hc).
    { intros x [_ ?]%elem_without. done. }
    { by apply (H1 r). }
    exists x, y. split_and!; [|done..]. apply elem_without in Hx as [? ?]. apply elem_without. split; [done|].
    rewrite Hg. apply elem_of_app. by left.
  - rewrite Hw, Hg. intros r q Hr Hq. rewrite Hsame in Hq by (right; by apply head_Some_elem_of).
    destruct (H2 r q Hr Hq) as [|Hc]; [by left|right]. apply Hcl in Hc as (x & y & Hx & Hy & Hc); [|done].
    exists x, y. split_and!; [|done..]. apply elem_of_app. by left.
  - rewrite Hw, Hg. intros Hc [E _]%app_eq_nil. by apply H3.
Qed.

Lemma live_granted (rq : requests) (h h' : LockHead) (r : request) (q : LockRequest) :
  head_live rq h -> r ∉ grantedList h -> r ∉ conflictList h -> status q = STATUS_GRANTED ->
  grantedList h' = grantedList h ++ [r] -> conflictList h' = conflictList h ->
  head_live (<[r := q]> rq) h'.
Proof.
  intros [H1 H2 H3] Hr Hrc Hs Hg Hc. split; rewrite ?Hg, ?Hc.
  - intros x Hx. apply conv_blocked_granted; [done..|]. apply H1.
  - intros x y Hx Hy. rewrite lookup_insert_ne in Hy by (intros ->; by apply Hrc, head_Some_elem_of).
    destruct (H2 x y Hx Hy); [by left|right]. by apply clash_granted.
  - intros _ [_ E]%app_eq_nil. done.
Qed.

Lemma live_waiting (rq : requests) (res : ResourceId) (h h' : LockHead) (r : request) (q : LockRequest) :
  head_live rq h -> head_inv rq res h -> r ∉ grantedList h -> r ∉ conflictList h ->
  clash rq (grantedList h) (mode q) \/ conflicts (mode q) (mask (conflict h)) = true ->
  grantedList h' = grantedList h ->
  conflictList h' = (if enqueueAtFront q then r :: conflictList h else conflictList h ++ [r]) ->
  head_live (<[r := q]> rq) h'.
Proof.
  intros [H1 H2 H3] Hi Hr Hrc Hwhy Hg Hc.
  assert (forall gl m, (forall x, x ∈ gl -> x ∈ grantedList h) -> clash rq gl m -> clash (<[r := q]> rq) gl m) as Hcl.
  { intros gl m Hgl. apply clash_ext. intros x Hx. apply lookup_insert_ne. intros ->. by apply Hr, Hgl. }
  assert (conflictList h = [] -> clash rq (grantedList h) (mode q)) as Hfirst.
  { intros E. destruct Hwhy as [|Hx]; [done|]. apply (conflict_mask_empty _ _ _ Hi) in E. rewrite E in Hx.
    unfold conflicts in Hx. by rewrite Z.land_0_r in Hx. }
  split; rewrite ?Hg.
  - intros x Hx y Hy Hs. rewrite lookup_insert_ne in Hy by (intros ->; done).
    apply Hcl; [by intros z [_ ?]%elem_without|]. by apply (H1 x).
  - rewrite Hc. intros x y Hx Hy. destruct (enqueueAtFront q) eqn:Ef.
    + injection Hx as <-. rewrite lookup_insert_eq in Hy. left. congruence.
    + destruct (conflictList h) as [|f l] eqn:El.
      * injection Hx as <-. rewrite lookup_insert_eq in Hy. right. injection Hy as <-. apply Hcl; [done|]. by apply Hfirst.
      * cbn in Hx. injection Hx as <-. rewrite lookup_insert_ne in Hy by (intros ->; apply Hrc; set_solver).
        destruct (H2 f y eq_refl Hy); [by left|right]. by apply Hcl.
  - intros _ E. destruct (conflictList h) as [|f l] eqn:El; [|by apply H3].
    by apply (clash_nonempty rq (grantedList h) (mode q)); [apply Hfirst|].
Qed.

Lemma evolve_delete (res : ResourceId) (rq rq' : requests) (r : request) :
  evolve res rq rq' -> evolve res (delete r rq) (delete r rq').
Proof.
  intros H x. destruct (decide (x = r)) as [->|Hx]; [by rewrite !lookup_delete_eq|].
  rewrite !lookup_delete_ne by done. apply H.
Qed.

Lemma others_insert (res : ResourceId) (rq rq' : requests) (r : request) (q : LockRequest) :
  evolve res rq rq' -> others res r rq (<[r := q]> rq').
Proof. intros H. unfold others. rewrite delete_insert_eq. by apply evolve_delete. Qed.

(** What a call that acquires does to its own request. *)
Definition acquired (res : ResourceId) (result : LockResult) (q q' : LockRequest) : Prop :=
  recursiveCount q' = recursiveCount q /\ mode q' = mode q /\ resource_of q' = Some res /\
  status q' = match result with LOCK_OK => STATUS_GRANTED | LOCK_WAITING => STATUS_WAITING end.

Lemma part_inv_insert (rq : requests) (pd : partition_data) (r : request) (q q' : LockRequest) :
  part_inv rq pd -> rq !! r = Some q -> partitionedLock q = None -> partitionedLock q' = None ->
  part_inv (<[r := q']> rq) pd.
Proof.
  intros H Hq Hn Hn'. apply (part_inv_ext rq); [|done]. intros x p res. unfold at_place.
  destruct (decide (x = r)) as [->|Hx]; [|by rewrite lookup_insert_ne]. rewrite lookup_insert_eq.
  split; intros (y & Hy & [Hp _]%place_inv); exfalso; congruence.
Qed.

(** The last part of [lock]: a request that is nowhere is queued on a head that is not
    partitioned. *)
Lemma newRequest_ok (res : ResourceId) (h : LockHead) (rq : requests) (pd : partition_data) (r : request)
    (q : LockRequest) :
  head_inv rq res h -> head_live rq h -> reqs_ok rq -> part_inv rq pd -> partitions h = [] ->
  rq !! r = Some q -> status q = STATUS_NEW -> mode q <> MODE_NONE -> partitioned q = false ->
  exists result h' q', newRequest res h rq r = Some (result, h', <[r := q']> rq) /\
    head_inv (<[r := q']> rq) res h' /\ head_live (<[r := q']> rq) h' /\ reqs_ok (<[r := q']> rq) /\
    part_inv (<[r := q']> rq) pd /\ partitions h' = [] /\ acquired res result q q'.
Proof.
  intros H Hl Hok Hpi Hps Hq Hs Hm Hpt. destruct (ro_new _ (Hok _ _ Hq) Hs) as [Hpn Hlh].
  assert (place q = None) as Hn by (unfold place; by rewrite Hpn, Hlh).
  destruct (elim_absent _ _ _ _ _ H Hq) as ((Hrg & _) & (Hrc & _)); [congruence..|].
  assert (forall s, s = STATUS_GRANTED \/ s = STATUS_WAITING -> req_ok (queued res q s)) as Hrok.
  { intros s [->| ->]; split; cbn; try done; [unfold place; cbn; by rewrite Hpn|congruence|
      unfold place; cbn; by rewrite Hpn|congruence]. }
  destruct (conflicts (mode q) (mask (granted h))
            || ((compatibleFirstCount h =? 0) && conflicts (mode q) (mask (conflict h)))) eqn:E.
  - assert (clash rq (grantedList h) (mode q) \/
            (compatibleFirstCount h = 0 /\ conflicts (mode q) (mask (conflict h)) = true)) as Hwhy.
    { apply orb_prop in E as [E|[?%Nat.eqb_eq ?]%andb_prop]; [left; by apply (head_conflicts _ res)|by right]. }
    destruct (newRequest_wait rq res h r q H Hq Hn Hpn Hwhy Hps) as (h' & -> & H' & Hp' & Hg' & Hc').
    eexists LOCK_WAITING, h', _. split; [done|]. split_and!; try done.
    + apply (live_waiting rq res h); try done. destruct Hwhy as [|[_ ?]]; [by left|by right].
    + apply reqs_ok_insert; [done|]. apply Hrok. by right.
    + by apply (part_inv_insert rq _ r q).
    + unfold acquired, resource_of, place. cbn. by rewrite Hpn.
  - apply orb_false_iff in E as [E1 E2].
    destruct (newRequest_grant rq res h r q H Hq Hn Hpn) as (h' & -> & H' & Hp' & Hg' & Hc' & _).
    + by apply (head_no_conflict _ res).
    + intros E. by rewrite E in E2.
    + by rewrite Hps.
    + eexists LOCK_OK, h', _. split; [done|]. split_and!; try done.
      * by apply (live_granted rq h).
      * apply reqs_ok_insert; [done|]. apply Hrok. by left.
      * by apply (part_inv_insert rq _ r q).
      * congruence.
      * unfold acquired, resource_of, place. cbn. by rewrite Hpn.
Qed.

(** Starting a partition on a head with intent modes only. *)
Lemma start_partition (M : LockManager) (res : ResourceId) (p : partition) :
  Inv M -> Z.ldiff (mask (granted (findOrInsert res M))) intentModes = 0%Z ->
  mask (conflict (findOrInsert res M)) = 0%Z ->
  let h := set_partitions (p :: partitions (findOrInsert res M)) (findOrInsert res M) in
  Inv (mkManager (reqs M) (<[res := h]> (heads M)) (parts M) (notified M)).
Proof.
  intros Hi Hg Hc h. apply Inv_rebuild; try apply Hi; [apply confined_refl|..].
  - destruct (iv_heads _ Hi res). by split.
  - destruct (iv_live _ Hi res). by split.
  - intros p' l Hl. apply elem_of_cons. right. by apply (iv_link _ Hi p' res l).
  - intros p' res' l _ Hl. by rewrite Hl.
Qed.

(** Migration, seen from the manager. *)
Lemma migrate_manager (M : LockManager) (res : ResourceId) :
  Inv M ->
  exists h rq pd, migrate_if_partitioned res (findOrInsert res M) (reqs M) (parts M) = Some (h, rq, pd) /\
    migrated res (findOrInsert res M) h (reqs M) rq (parts M) pd /\ head_live rq h /\ reqs_ok rq.
Proof.
  intros Hi.
  destruct (migrate_if_partitioned_ok res (findOrInsert res M) (reqs M) (parts M)) as (h & rq & pd & -> & Hmg);
    try apply Hi; [intros p l; apply (iv_link _ Hi)|].
  exists h, rq, pd. split_and!; [done|done| |].
  - apply (live_migrated _ _ _ _ _ _ _ Hmg); apply Hi.
  - apply (evolve_ok _ _ _ (mg_evolve _ _ _ _ _ _ _ Hmg)), Hi.
Qed.

(** Storing a head after a migration and a change of one request on the same resource. *)
Lemma Inv_after_migration (M : LockManager) (res : ResourceId) (h h' : LockHead) (rq : requests)
    (pd : partition_data) (r : request) (q q' : LockRequest) :
  Inv M -> migrated res (findOrInsert res M) h (reqs M) rq (parts M) pd ->
  rq !! r = Some q -> resource_of q = Some res \/ resource_of q = None -> resource_of q' = Some res ->
  reqs_ok (<[r := q']> rq) -> head_inv (<[r := q']> rq) res h' -> head_live (<[r := q']> rq) h' ->
  part_inv (<[r := q']> rq) pd ->
  Inv (mkManager (<[r := q']> rq) (<[res := h']> (heads M)) pd (notified M)).
Proof.
  intros Hi Hmg Hq Hr Hr' Hok Hh Hl Hp. apply Inv_rebuild; try done.
  - apply (confined_trans _ _ rq); [apply confined_evolve, Hmg|]. apply confined_insert; [|by left].
    intros x Hx. by replace x with q by congruence.
  - intros p l E. by rewrite (mg_gone _ _ _ _ _ _ _ Hmg) in E.
  - intros p res' l Hne E. rewrite <- (mg_other _ _ _ _ _ _ _ Hmg) by done. by exists l.
Qed.

Lemma lock_bucket_fast (M : LockManager) (res : ResourceId) (r : request) (q : LockRequest) :
  Inv M -> reqs M !! r = Some q -> status q = STATUS_NEW -> partitioned q = true -> intent (mode q) = true ->
  Z.ldiff (mask (granted (findOrInsert res M))) intentModes = 0%Z -> mask (conflict (findOrInsert res M)) = 0%Z ->
  exists M' q', lock_bucket res r M = Some (LOCK_OK, M') /\ Inv M' /\ reqs M' !! r = Some q' /\
    others res r (reqs M) (reqs M') /\ acquired res LOCK_OK q q'.
Proof.
  intros Hi Hq Hs Hp Hm Eg Ec. destruct (ro_new _ (iv_reqs _ Hi _ _ Hq) Hs) as [Hpn Hlh].
  unfold lock_bucket. rewrite Hq. cbn [mbind option_bind]. rewrite Hp, Eg, Ec. cbn [Z.eqb andb].
  pose proof (start_partition M res (_getPartition q) Hi Eg Ec) as Hi1. cbn zeta in Hi1.
  destruct (partition_newRequest_ok _ (_getPartition q) res r q Hi1 Hq Hs) as (M' & -> & Hi' & Hr');
    [done|done|done|rewrite find_insert; apply elem_of_cons; by left|].
  cbn [mbind option_bind]. eexists M', _. rewrite Hr'. cbn [reqs].
  split_and!; [done|done|apply lookup_insert_eq|apply others_insert, evolve_refl|].
  unfold acquired, resource_of, place. cbn. by rewrite Hlh.
Qed.

Lemma lock_bucket_ok (M : LockManager) (res : ResourceId) (r : request) (q : LockRequest) :
  Inv M -> reqs M !! r = Some q -> status q = STATUS_NEW -> mode q <> MODE_NONE -> partitioned q = intent (mode q) ->
  exists result M' q', lock_bucket res r M = Some (result, M') /\ Inv M' /\ reqs M' !! r = Some q' /\
    others res r (reqs M) (reqs M') /\ acquired res result q q'.
Proof.
  intros Hi Hq Hs Hm Hp. destruct (ro_new _ (iv_reqs _ Hi _ _ Hq) Hs) as [Hpn Hlh].
  destruct (partitioned q && (Z.ldiff (mask (granted (findOrInsert res M))) intentModes =? 0)%Z
            && (mask (conflict (findOrInsert res M)) =? 0)%Z) eqn:E.
  { apply andb_prop in E as [[Ep Eg%Z.eqb_eq]%andb_prop Ec%Z.eqb_eq]. exists LOCK_OK.
    apply lock_bucket_fast; try done. congruence. }
  unfold lock_bucket. rewrite Hq. cbn [mbind option_bind]. rewrite E.
  destruct (migrate_manager M res Hi) as (h1 & rq1 & pd1 & -> & Hmg & Hl1 & Hok1). cbn [mbind option_bind].
  pose proof (mg_inv _ _ _ _ _ _ _ Hmg) as Hi1. pose proof (mg_keep _ _ _ _ _ _ _ Hmg r q Hq Hpn) as Hq1.
  rewrite Hq1. cbn [mbind option_bind]. set (q2 := set_partitioned false q) in *.
  assert (place q = None) as Hpl by (unfold place; by rewrite Hpn, Hlh).
  destruct (elim_absent _ _ _ _ _ Hi1 Hq1) as ((Hrg & _) & (Hrc & _)); [congruence..|].
  assert (forall l : list request, r ∉ l -> forall x, x ∈ l -> <[r := q2]> rq1 !! x = rq1 !! x) as Hsame.
  { intros l Hrl x Hx. apply lookup_insert_ne. intros ->. done. }
  destruct (newRequest_ok res h1 (<[r := q2]> rq1) pd1 r q2) as (result & h' & q' & -> & H' & Hl' & Hok' & Hpi' & _ & Hacq);
    try done.
  - apply head_inv_update; try done; [|by change (place q2) with (place q); rewrite Hpl..].
    intros [(y & Hy & ?)|(y & Hy & ?)]; congruence.
  - apply (head_live_ext rq1); [by apply Hsame..|done].
  - apply reqs_ok_insert; [done|]. destruct (Hok1 _ _ Hq1). split; try done.
    intros p' res' Hx. cbn in Hx. congruence.
  - apply (part_inv_insert rq1 _ r q); try done. apply Hmg.
  - apply Hmg.
  - by rewrite lookup_insert_eq.
  - rewrite insert_insert_eq in *. cbn [mbind option_bind]. eexists result, _, q'. split; [done|]. cbn [reqs].
    split_and!; [|apply lookup_insert_eq|apply others_insert, Hmg|done].
    apply (Inv_after_migration M res h1 h' rq1 pd1 r q); try done; [|apply Hacq].
    right. unfold resource_of. by rewrite Hpl.
Qed.

(** ** [convert] and [downgrade] on a head *)

Section change.
Context (rq : requests) (res : ResourceId) (h : LockHead) (r : request) (q : LockRequest).
Context (Hinv : head_inv rq res h) (Hq : rq !! r = Some q) (Hp : place q = Some (InGranted res))
  (Hs : status q = STATUS_GRANTED).

Definition waits_for (m : LockMode) : LockRequest := set_convertMode m (set_status STATUS_CONVERTING q).

Lemma convert_wait (m : LockMode) :
  partitions h = [] ->
  exists g, incModeCount m (granted h) = Some g /\
    head_inv (<[r := waits_for m]> rq) res
      (mkHead (grantedList h) g (conflictList h) (conflict h) (partitions h) (S (conversionsCount h))
         (compatibleFirstCount h)).
Proof.
  intros Hps. destruct (elim_granted _ _ _ _ _ Hinv Hq Hp) as (Hr & Hwc & Hcnt).
  pose proof (base_elim r _ _ _ Hinv) as Hb. rewrite Hwc in Hb.
  pose proof (fun f => countl_fresh f r rq res _ _ (waits_for m) Hb) as Hf.
  destruct (incModeCount_ok m (granted h)) as (k & Hk & Hkm); [apply Hinv|].
  eexists. split; [exact Hk|].
  apply (head_inv_granted r _ res (without r (grantedList h)) (conflictList h) _ (waits_for m));
    cbn [grantedList conflictList granted conflict counts mask conversionsCount compatibleFirstCount partitions];
    try done; try apply Hinv.
  - by apply base_insert.
  - by rewrite lookup_insert_eq.
  - apply place_inv in Hp as (Ha & Hl & _). unfold place. cbn. by rewrite Ha, Hl.
  - intros x. rewrite set_count_held, (proj1 (Hf _)), (hi_gcnt _ _ _ Hinv), Hcnt.
    rewrite (held_idle x q), held_converting by (try done; congruence). cbn. lia.
  - intros x. rewrite (proj2 (Hf _)). apply Hinv.
  - rewrite (proj1 (Hf _)), (hi_conv _ _ _ Hinv), Hcnt, (converting_idle q), (converting_one (waits_for m)) by (try done; congruence). done.
  - rewrite (proj1 (Hf _)), (hi_cf _ _ _ Hinv), Hcnt. done.
  - intros x q' Hx. rewrite lookup_insert_ne by (apply elem_without in Hx as [? _]; congruence).
    intros Hq'. apply elem_without in Hx as [? ?]. apply (hi_compat _ _ _ Hinv r x q q'); (done || congruence).
Qed.

Lemma change_mode (m : LockMode) :
  (partitions h <> [] -> intent m = true) ->
  (forall x q', x ∈ without r (grantedList h) -> rq !! x = Some q' -> incompatible m (mode q') = false) ->
  exists g1 g2, incModeCount m (granted h) = Some g1 /\ decModeCount (mode q) g1 = Some g2 /\
    head_inv (<[r := set_mode m q]> rq) res
      (mkHead (grantedList h) g2 (conflictList h) (conflict h) (partitions h) (conversionsCount h)
         (compatibleFirstCount h)).
Proof.
  intros Hps Hcomp. destruct (elim_granted _ _ _ _ _ Hinv Hq Hp) as (Hr & Hwc & Hcnt).
  pose proof (base_elim r _ _ _ Hinv) as Hb. rewrite Hwc in Hb.
  pose proof (fun f => countl_fresh f r rq res _ _ (set_mode m q) Hb) as Hf.
  destruct (incModeCount_ok m (granted h)) as (k1 & Hk1 & Hkm1); [apply Hinv|].
  set (c1 := set_count (counts (granted h)) m (S (counts (granted h) m))) in *.
  assert (forall x, c1 x = is_mode (mode q) x + (is_mode m x + countl (held x) rq (without r (grantedList h)))) as Hc1.
  { intros x. unfold c1. rewrite set_count_held, (hi_gcnt _ _ _ Hinv), Hcnt, held_idle by congruence. lia. }
  destruct (decModeCount_ok (mode q) (mkModes c1 k1)) as (k2 & Hk2 & Hkm2);
    [done|cbn; rewrite Hc1, is_mode_same; lia|]. cbn [counts] in *.
  eexists _, _. split_and!; [exact Hk1|exact Hk2|].
  apply (head_inv_granted r _ res (without r (grantedList h)) (conflictList h) _ (set_mode m q));
    cbn [grantedList conflictList granted conflict counts mask conversionsCount compatibleFirstCount partitions];
    try done; try apply Hinv.
  - by apply base_insert.
  - by rewrite lookup_insert_eq.
  - intros Hne. destruct (hi_part _ _ _ Hinv Hne) as [? Hi]. split; [done|]. rewrite Hkm2.
    rewrite (hi_gok _ _ _ Hinv) in Hi. by apply partitions_intent_dec, partitions_intent; [apply Hps|].
  - intros x. rewrite (set_count_dec _ _ _ _ Hc1), (proj1 (Hf _)), held_idle by (cbn; congruence). done.
  - intros x. rewrite (proj2 (Hf _)). apply Hinv.
  - rewrite (proj1 (Hf _)), (hi_conv _ _ _ Hinv), Hcnt. done.
  - rewrite (proj1 (Hf _)), (hi_cf _ _ _ Hinv), Hcnt. done.
  - intros x q' Hx. rewrite lookup_insert_ne by (apply elem_without in Hx as [? _]; congruence). by apply Hcomp.
Qed.

(** Waiting for a mode, or holding a stronger one, only adds to what others conflict with. *)
Lemma clash_waits_for (l : list request) (m m' : LockMode) : clash rq l m' -> clash (<[r := waits_for m]> rq) l m'.
Proof.
  intros (x & y & Hx & Hy & Hc). destruct (decide (x = r)) as [->|Hne].
  - exists r, (waits_for m). split_and!; [done|by rewrite lookup_insert_eq|]. cbn.
    replace y with q in Hc by congruence. destruct Hc as [|[? _]]; [by left|congruence].
  - exists x, y. by rewrite lookup_insert_ne.
Qed.

Lemma clash_stronger (l : list request) (m m' : LockMode) :
  isModeCovered (mode q) m = true -> clash rq l m' -> clash (<[r := set_mode m q]> rq) l m'.
Proof.
  intros Hcov (x & y & Hx & Hy & Hc). destruct (decide (x = r)) as [->|Hne].
  - exists r, (set_mode m q). split_and!; [done|by rewrite lookup_insert_eq|]. cbn. left.
    replace y with q in Hc by congruence. destruct Hc as [Hc|[? _]]; [by apply (incompatible_covered (mode q))|congruence].
  - exists x, y. by rewrite lookup_insert_ne.
Qed.

(** Nobody is unblocked by a change that only adds conflicts. *)
Lemma live_change (h' : LockHead) (q' : LockRequest) :
  head_live rq h -> grantedList h' = grantedList h -> conflictList h' = conflictList h ->
  (forall l m, clash rq l m -> clash (<[r := q']> rq) l m) ->
  (status q' = STATUS_CONVERTING -> clash rq (without r (grantedList h)) (convertMode q')) ->
  head_live (<[r := q']> rq) h'.
Proof.
  intros [H1 H2 H3] Hg Hc Hcl Hown. destruct (elim_granted _ _ _ _ _ Hinv Hq Hp) as (Hr & Hwc & _).
  split; rewrite ?Hg, ?Hc; [| |done].
  - intros x Hx y Hy Hsy. destruct (decide (x = r)) as [->|Hne].
    + rewrite lookup_insert_eq in Hy. injection Hy as <-. by apply Hcl, Hown.
    + rewrite lookup_insert_ne in Hy by done. apply Hcl. by apply (H1 x).
  - intros x y Hx Hy. rewrite lookup_insert_ne in Hy.
    + destruct (H2 x y Hx Hy); [by left|right]. by apply Hcl.
    + intros <-. apply head_Some_elem_of in Hx. rewrite <- Hwc in Hx. by apply elem_without in Hx as [].
Qed.
End change.

(** ** [convert] *)

Lemma head_exists (M : LockManager) (res : ResourceId) (r : request) (q : LockRequest) :
  Inv M -> reqs M !! r = Some q -> resource_of q = Some res -> heads M !! res = Some (findOrInsert res M).
Proof.
  intros Hi Hq Hr. unfold resource_of in Hr. destruct (place q) as [pl|] eqn:Hp; [|done]. cbn in Hr.
  assert (findOrInsert res M <> head_initNew) as Hne.
  { intros E. destruct pl as [res'|res'|p res']; injection Hr as ->.
    - assert (r ∈ grantedList (findOrInsert res M)) by (apply (hi_gmem _ _ _ (iv_heads _ Hi res)); by exists q).
      rewrite E in H. set_solver.
    - assert (r ∈ conflictList (findOrInsert res M)) by (apply (hi_cmem _ _ _ (iv_heads _ Hi res)); by exists q).
      rewrite E in H. set_solver.
    - assert (r ∈ part_list (parts M) p res) by (apply (iv_parts _ Hi p res); by exists q).
      unfold part_list in H. destruct (parts M !! (p, res)) as [l|] eqn:El; [|set_solver].
      apply (iv_link _ Hi) in El. rewrite E in El. set_solver. }
  unfold findOrInsert in *. by destruct (heads M !! res).
Qed.

Lemma rtc_from_granted (res : ResourceId) (q q' : LockRequest) :
  rtc (grant_step res) q q' -> status q = STATUS_GRANTED ->
  status q' = STATUS_GRANTED /\ mode q' = mode q /\ recursiveCount q' = recursiveCount q /\
  partitioned q' = partitioned q.
Proof.
  induction 1 as [|q x q' Hs _ IH]; [done|]. intros Hg.
  destruct Hs as [H|H E|p H]; apply place_inv in H as (Ha & Hb & Hc); try congruence.
  by destruct IH as (? & ? & ? & ?).
Qed.

(** After a migration, a request that holds the resource is on the head. *)
Lemma migrated_request (M : LockManager) (res : ResourceId) (h : LockHead) (rq : requests) (pd : partition_data)
    (r : request) (q : LockRequest) :
  migrated res (findOrInsert res M) h (reqs M) rq (parts M) pd ->
  reqs M !! r = Some q -> status q = STATUS_GRANTED -> resource_of q = Some res ->
  exists q', rq !! r = Some q' /\ place q' = Some (InGranted res) /\ status q' = STATUS_GRANTED /\
    mode q' = mode q /\ recursiveCount q' = recursiveCount q.
Proof.
  intros Hmg Hq Hs Hr. destruct (evolve_some _ _ _ _ _ (mg_evolve _ _ _ _ _ _ _ Hmg) Hq) as (q' & Hq' & Hrtc).
  exists q'. destruct (rtc_from_granted _ _ _ Hrtc Hs) as (H1 & H2 & H3 & _). split_and!; try done.
  apply rtc_inv_r in Hrtc as [->|(y & _ & Hy)]; [|by apply (grant_step_place res y)].
  unfold resource_of in Hr. destruct (place q') as [[res'|res'|p res']|] eqn:Hp; try done; injection Hr as ->; [done|..].
  - apply place_inv in Hp as (_ & _ & ?). congruence.
  - assert (r ∈ part_list pd p res) as Hin by (apply (mg_parts _ _ _ _ _ _ _ Hmg p res); by exists q').
    unfold part_list in Hin. rewrite (mg_gone _ _ _ _ _ _ _ Hmg) in Hin. set_solver.
Qed.

(** What [convert] does to its own request. *)
Definition converted_to (res : ResourceId) (m : LockMode) (result : LockResult) (q q' : LockRequest) : Prop :=
  recursiveCount q' = recursiveCount q /\ resource_of q' = Some res /\
  match result with
  | LOCK_OK => status q' = STATUS_GRANTED /\ mode q' = m
  | LOCK_WAITING => status q' = STATUS_CONVERTING /\ mode q' = mode q /\ convertMode q' = m
  end.

Lemma covered_strict (a b : LockMode) :
  isModeCovered a b = true -> isModeCovered b a = false -> a <> b /\ b <> MODE_NONE.
Proof. by destruct a, b. Qed.

Lemma convert_bucket_ok (M : LockManager) (res : ResourceId) (r : request) (q : LockRequest) (m : LockMode) :
  Inv M -> reqs M !! r = Some q -> status q = STATUS_GRANTED -> resource_of q = Some res ->
  isModeCovered (mode q) m = true -> isModeCovered m (mode q) = false ->
  exists result M' q', convert_bucket res r m M = Some (result, M') /\ Inv M' /\ reqs M' !! r = Some q' /\
    others res r (reqs M) (reqs M') /\ converted_to res m result q q'.
Proof.
  intros Hi Hq Hs Hr Hcov Hncov. destruct (covered_strict _ _ Hcov Hncov) as [Hne Hnn].
  unfold convert_bucket. rewrite (head_exists M res r q) by done. cbn [mbind option_bind].
  destruct (migrate_manager M res Hi) as (h1 & rq1 & pd1 & -> & Hmg & Hl1 & Hok1). cbn [mbind option_bind].
  destruct (migrated_request M res h1 rq1 pd1 r q Hmg Hq Hs Hr) as (q1 & Hq1 & Hp1 & Hs1 & Hm1 & Hc1).
  pose proof (mg_inv _ _ _ _ _ _ _ Hmg) as Hi1. pose proof (place_inv _ _ Hp1) as (Hpn & Hlh & _).
  rewrite Hq1. cbn [mbind option_bind].
  assert (resource_of q1 = Some res) as Hr1 by (unfold resource_of; by rewrite Hp1).
  pose proof (without_conflicts rq1 res h1 r q1 (is_mode (mode q1)) m Hok1 Hi1 Hq1 Hp1) as Hw.
  destruct (conflicts m _) eqn:E.
  - destruct (convert_wait rq1 res h1 r q1 Hi1 Hq1 Hp1 Hs1 m (mg_none _ _ _ _ _ _ _ Hmg)) as (g & -> & H').
    cbn [mbind option_bind]. fold (waits_for q1 m). eexists LOCK_WAITING, _, (waits_for q1 m). split; [done|].
    assert (place (waits_for q1 m) = Some (InGranted res)) as Hp' by (unfold place; cbn; by rewrite Hpn, Hlh).
    assert (resource_of (waits_for q1 m) = Some res) as Hr' by (unfold resource_of; by rewrite Hp').
    cbn [reqs]. split_and!; [|apply lookup_insert_eq|apply others_insert, Hmg|by unfold converted_to; cbn; split_and!].
    apply (Inv_after_migration M res h1 _ rq1 pd1 r q1); try done; [by left|..].
    + apply reqs_ok_insert; [done|]. destruct (Hok1 _ _ Hq1). split; cbn; try done; try congruence.
      * intros _. apply ro_mode0. congruence.
      * intros _. by rewrite Hm1.
    + apply (live_change rq1 res h1 r q1); try done; [intros l m'; by apply clash_waits_for|].
      intros _. apply Hw; [|done]. intros x. rewrite held_idle by congruence. done.
    + apply (part_inv_insert rq1 _ r q1); try done. apply Hmg.
  - assert (~ clash rq1 (without r (grantedList h1)) m) as Hnc.
    { intros Hc. apply Hw in Hc; [congruence|]. intros x. rewrite held_idle by congruence. done. }
    destruct (change_mode rq1 res h1 r q1 Hi1 Hq1 Hp1 Hs1 m) as (g1 & g2 & -> & Hg2 & H').
    { by rewrite (mg_none _ _ _ _ _ _ _ Hmg). }
    { intros x y Hx Hy. by apply (no_clash_compat rq1 (without r (grantedList h1)) m x). }
    cbn [mbind option_bind]. rewrite Hg2. cbn [mbind option_bind]. eexists LOCK_OK, _, (set_mode m q1). split; [done|].
    cbn [reqs]. split_and!; [|apply lookup_insert_eq|apply others_insert, Hmg|by unfold converted_to; cbn; split_and!].
    apply (Inv_after_migration M res h1 _ rq1 pd1 r q1); try done; [by left|..].
    + apply reqs_ok_insert; [done|]. destruct (Hok1 _ _ Hq1). split; cbn; try done; try congruence.
    + apply (live_change rq1 res h1 r q1); try done; [|cbn; congruence]. intros l m'. apply clash_stronger; congruence.
    + apply (part_inv_insert rq1 _ r q1); try done. apply Hmg.
Qed.

(** ** [unlock] *)

Lemma lookup_insert_foreign (rq : requests) (r x : request) (q : LockRequest) :
  x <> r -> <[r := q]> rq !! x = rq !! x.
Proof. intros H. apply lookup_insert_ne. congruence. Qed.

(** [_onLockModeChanged] does not look at requests that are on neither queue. *)
Lemma grant_conversions_frame (r : request) (q : LockRequest) (l : list request) (h h' : LockHead)
    (rq rq' : requests) (n n' : list request) :
  r ∉ l -> grant_conversions l h rq n = Some (h', rq', n') ->
  grant_conversions l h (<[r := q]> rq) n = Some (h', <[r := q]> rq', n').
Proof.
  revert h rq n. induction l as [|x l IH]; intros h rq n Hr; cbn [grant_conversions].
  { by intros [= <- <- <-]. }
  apply not_elem_of_cons in Hr as [Hx Hr]. destruct (conversionsCount h =? 0); [by intros [= <- <- <-]|].
  rewrite lookup_insert_foreign by congruence. destruct (rq !! x) as [y|]; [|by cbn]. cbn [mbind option_bind].
  destruct (bool_decide (status y = STATUS_CONVERTING)); [|by apply IH].
  destruct (bool_decide (convertMode y = MODE_NONE)); cbn [negb invariant mbind option_bind]; [done|].
  destruct (forallb _ _); cbn [invariant mbind option_bind]; [|done].
  destruct (negb _); [|by apply IH]. destruct (decModeCount _ _) as [g|]; [|by cbn]. cbn [mbind option_bind].
  rewrite insert_insert_ne by congruence. by apply IH.
Qed.

Lemma grant_waiting_frame (r : request) (q : LockRequest) (l : list request) (b : bool) (h h' : LockHead)
    (rq rq' : requests) (n n' : list request) :
  r ∉ l -> grant_waiting l b h rq n = Some (h', rq', n') ->
  grant_waiting l b h (<[r := q]> rq) n = Some (h', <[r := q]> rq', n').
Proof.
  revert b h rq n. induction l as [|x l IH]; intros b h rq n Hr; cbn [grant_waiting].
  { by intros [= <- <- <-]. }
  apply not_elem_of_cons in Hr as [Hx Hr].
  rewrite lookup_insert_foreign by congruence. destruct (rq !! x) as [y|]; [|by cbn]. cbn [mbind option_bind].
  destruct (bool_decide (status y = STATUS_WAITING)); cbn [invariant mbind option_bind]; [|done].
  destruct (conflicts _ _).
  { destruct (bool_decide _ && _); [by intros [= <- <- <-]|by apply IH]. }
  destruct (decModeCount _ _) as [c|]; [|by cbn]. cbn [mbind option_bind].
  destruct (incModeCount _ _) as [g|]; [|by cbn]. cbn [mbind option_bind].
  rewrite insert_insert_ne by congruence.
  destruct (bool_decide _); [by intros [= <- <- <-]|by apply IH].
Qed.

Lemma grant_conversions_queue (l : list request) (h h' : LockHead) (rq rq' : requests) (n n' : list request) :
  grant_conversions l h rq n = Some (h', rq', n') -> conflictList h' = conflictList h.
Proof.
  revert h rq n. induction l as [|x l IH]; intros h rq n; cbn [grant_conversions]; [by intros [= <- _ _]|].
  destruct (conversionsCount h =? 0); [by intros [= <- _ _]|].
  destruct (rq !! x) as [y|]; [|by cbn]. cbn [mbind option_bind].
  destruct (bool_decide (status y = STATUS_CONVERTING)); [|by apply IH].
  destruct (bool_decide (convertMode y = MODE_NONE)); cbn [negb invariant mbind option_bind]; [done|].
  destruct (forallb _ _); cbn [invariant mbind option_bind]; [|done].
  destruct (negb _); [|by apply IH]. destruct (decModeCount _ _) as [g|]; [|by cbn]. cbn [mbind option_bind].
  intros H%IH. exact H.
Qed.

Lemma onLockModeChanged_frame (r : request) (q : LockRequest) (h h' : LockHead) (rq rq' : requests)
    (check : bool) (n : list request) :
  r ∉ grantedList h -> r ∉ conflictList h -> _onLockModeChanged h rq check = Some (h', rq', n) ->
  _onLockModeChanged h (<[r := q]> rq) check = Some (h', <[r := q]> rq', n).
Proof.
  intros Hg Hc. unfold _onLockModeChanged.
  destruct (grant_conversions _ h rq []) as [[[h1 rq1] n1]|] eqn:E1; [|by cbn].
  rewrite (grant_conversions_frame r q _ _ _ _ _ _ _ Hg E1). cbn [mbind option_bind].
  apply grant_conversions_queue in E1.
  destruct (if check then _ else _) as [[[h2 rq2] n2]|] eqn:E2; [|by cbn].
  assert ((if check then grant_waiting (conflictList h1) false h1 (<[r := q]> rq1) n1
           else Some (h1, <[r := q]> rq1, n1)) = Some (h2, <[r := q]> rq2, n2)) as ->.
  { destruct check; [|by injection E2 as <- <- <-]. apply grant_waiting_frame; [by rewrite E1|done]. }
  cbn [mbind option_bind]. destruct (xorb (mask (granted h2) =? 0)%Z _); cbn [invariant mbind option_bind]; [|done].
  destruct (xorb (mask (conflict h2) =? 0)%Z _); cbn [invariant mbind option_bind]; [|done].
  by intros [= <- <- <-].
Qed.

Section removal.
Context (rq : requests) (res : ResourceId) (h : LockHead) (r : request) (q : LockRequest).
Context (Hinv : head_inv rq res h) (Hq : rq !! r = Some q).

Lemma delete_countl (f : LockRequest -> nat) (l : list request) : r ∉ l -> countl f (delete r rq) l = countl f rq l.
Proof. intros Hr. apply countl_ext. intros x Hx. apply lookup_delete_ne. intros ->. done. Qed.

Lemma delete_clash (l : list request) (m : LockMode) : r ∉ l -> clash rq l m -> clash (delete r rq) l m.
Proof. intros Hr. apply clash_ext. intros x Hx. apply lookup_delete_ne. intros ->. done. Qed.

Lemma base_delete (gl cl : list request) : base r rq res gl cl -> base r (delete r rq) res gl cl.
Proof. apply base_ext. intros x Hx. by apply lookup_delete_ne. Qed.

Lemma remove_granted :
  place q = Some (InGranted res) -> status q = STATUS_GRANTED ->
  exists g, decModeCount (mode q) (granted h) = Some g /\
    (forall m, counts g m = countl (held m) rq (without r (grantedList h))) /\
    head_inv (delete r rq) res
      (mkHead (without r (grantedList h)) g (conflictList h) (conflict h) (partitions h) (conversionsCount h)
         (if compatibleFirst q then compatibleFirstCount h - 1 else compatibleFirstCount h)).
Proof.
  intros Hp Hs. destruct (elim_granted _ _ _ _ _ Hinv Hq Hp) as (Hr & Hwc & Hcnt).
  pose proof (base_elim r _ _ _ Hinv) as Hb. rewrite Hwc in Hb. pose proof Hb as [Hbg Hbc _ _ _ _ _].
  assert (forall m, counts (granted h) m = is_mode (mode q) m + countl (held m) rq (without r (grantedList h))) as Hg.
  { intros m. rewrite (hi_gcnt _ _ _ Hinv), Hcnt, held_idle by congruence. done. }
  destruct (decModeCount_ok (mode q) (granted h)) as (k & Hk & Hkm); [apply Hinv|rewrite Hg, is_mode_same; lia|].
  eexists. split; [exact Hk|]. split; [intros m; exact (set_count_dec _ _ m _ Hg)|].
  apply (head_inv_absent r _ res (without r (grantedList h)) (conflictList h));
    cbn [grantedList conflictList granted conflict counts mask conversionsCount compatibleFirstCount partitions];
    try done; try apply Hinv.
  - by apply base_delete.
  - apply lookup_delete_eq.
  - intros Hne. destruct (hi_part _ _ _ Hinv Hne) as [? Hi]. split; [done|]. rewrite Hkm.
    rewrite (hi_gok _ _ _ Hinv) in Hi. by apply partitions_intent_dec.
  - intros m. rewrite (set_count_dec _ _ _ _ Hg), delete_countl; done.
  - intros m. rewrite delete_countl by done. apply Hinv.
  - rewrite delete_countl by done. rewrite (hi_conv _ _ _ Hinv), Hcnt, converting_idle by congruence. done.
  - rewrite delete_countl, (hi_cf _ _ _ Hinv), Hcnt by done. unfold compat_first at 1 3. destruct (compatibleFirst q); lia.
Qed.

Lemma remove_waiting :
  place q = Some (InWaiting res) ->
  exists c, decModeCount (mode q) (conflict h) = Some c /\
    head_inv (delete r rq) res
      (mkHead (grantedList h) (granted h) (without r (conflictList h)) c (partitions h) (conversionsCount h)
         (compatibleFirstCount h)).
Proof.
  intros Hp. destruct (elim_waiting _ _ _ _ _ Hinv Hq Hp) as (Hr & Hwg & Hcnt).
  pose proof (base_elim r _ _ _ Hinv) as Hb. rewrite Hwg in Hb. pose proof Hb as [Hbg Hbc _ _ _ _ _].
  assert (forall m, counts (conflict h) m = is_mode (mode q) m + countl (wanted m) rq (without r (conflictList h))) as Hc.
  { intros m. by rewrite (hi_ccnt _ _ _ Hinv), Hcnt. }
  destruct (decModeCount_ok (mode q) (conflict h)) as (k & Hk & Hkm); [apply Hinv|rewrite Hc, is_mode_same; lia|].
  eexists. split; [exact Hk|].
  apply (head_inv_absent r _ res (grantedList h) (without r (conflictList h)));
    cbn [grantedList conflictList granted conflict counts mask conversionsCount compatibleFirstCount partitions];
    try done; try apply Hinv.
  - by apply base_delete.
  - apply lookup_delete_eq.
  - by rewrite (waiting_not_partitioned rq res h r q).
  - intros m. rewrite delete_countl by done. apply Hinv.
  - intros m. rewrite (set_count_dec _ _ _ _ Hc), delete_countl; done.
  - rewrite delete_countl by done. apply Hinv.
  - rewrite delete_countl by done. apply Hinv.
Qed.

(** When the mode of a released request is still held by another, its waiters still wait. *)
Lemma still_blocked (g : Modes) (m : LockMode) :
  (forall x, counts g x = countl (held x) rq (without r (grantedList h))) -> counts g (mode q) <> 0 ->
  status q = STATUS_GRANTED ->
  clash rq (grantedList h) m -> clash (delete r rq) (without r (grantedList h)) m.
Proof.
  intros Hg Hc Hs (x & y & Hx & Hy & Hcl).
  apply delete_clash; [rewrite elem_without; tauto|]. destruct (decide (x = r)) as [->|Hne].
  - replace y with q in * by congruence. destruct Hcl as [Hcl|[? _]]; [|congruence].
    assert (0 < countl (held (mode q)) rq (without r (grantedList h))) as Hp by (rewrite <- Hg; lia).
    apply countl_pos in Hp as (z & w & Hz & Hw & Hh%held_pos). exists z, w. split_and!; [done..|].
    destruct Hh as [->|[? ->]]; [by left|by right].
  - exists x, y. split_and!; [by apply elem_without|done..].
Qed.
End removal.

Lemma evolve_partition (res : ResourceId) (rq rq' : requests) (x : request) (p : partition) (res' : ResourceId) :
  evolve res rq rq' -> (forall r, ~ on_head rq r res -> rq' !! r = rq !! r) ->
  at_place rq' x (InPartition p res') <-> at_place rq x (InPartition p res').
Proof.
  intros He Ho. split; intros (q & Hq & Hp).
  - specialize (He x). rewrite Hq in He. destruct (rq !! x) as [q0|] eqn:Hq0; [|done]. exists q0. split; [done|].
    apply rtc_inv_r in He as [->|(y & _ & [_ Hy]%grant_step_place)]; [done|congruence].
  - exists q. split; [|done]. rewrite Ho; [done|]. intros [(y & Hy & ?)|(y & Hy & ?)]; congruence.
Qed.

(** Running [_onLockModeChanged] on a head from which a request has been taken, and then
    dropping the request. *)
Lemma release_ok (M : LockManager) (res : ResourceId) (r : request) (q : LockRequest) (h : LockHead) (check : bool) :
  Inv M -> reqs M !! r = Some q -> resource_of q = Some res -> partitionedLock q = None ->
  head_inv (delete r (reqs M)) res h -> partitions h = partitions (findOrInsert res M) ->
  (check = false ->
     (forall x y, head (conflictList h) = Some x -> delete r (reqs M) !! x = Some y ->
        enqueueAtFront y = true \/ clash (delete r (reqs M)) (grantedList h) (mode y)) /\
     (conflictList h <> [] -> grantedList h <> [])) ->
  exists M', mode_changed res h (reqs M) check M = Some M' /\ reqs M' !! r = Some q /\
    Inv (drop_request r M') /\ others res r (reqs M) (reqs M').
Proof.
  intros Hi Hq Hr Hn H Hps Hch. set (rq0 := delete r (reqs M)) in *.
  assert (reqs_ok rq0) as Hok.
  { intros x y Hy. unfold rq0 in Hy. apply lookup_delete_Some in Hy as [_ Hy]. by apply (iv_reqs _ Hi x). }
  assert (rq0 !! r = None) as Hr0 by apply lookup_delete_eq.
  destruct (onLockModeChanged_ok res h rq0 check H Hok Hch) as (h' & rq' & n & E & H' & He & Hl & Hp & Ho).
  assert (rq' !! r = None) as Hr'.
  { specialize (He r). rewrite Hr0 in He. by destruct (rq' !! r). }
  assert (forall (l : list request) pl, (forall x, x ∈ l <-> at_place rq0 x pl) -> r ∉ l) as Hnot.
  { intros l pl Hm (y & Hy & _)%Hm. congruence. }
  apply (onLockModeChanged_frame r q) in E; [|eapply Hnot, (hi_gmem _ _ _ H)|eapply Hnot, (hi_cmem _ _ _ H)].
  unfold rq0 in E. rewrite insert_delete_id in E by done. fold rq0 in E.
  unfold mode_changed. rewrite E. cbn [mbind option_bind]. eexists. split; [done|]. cbn [reqs].
  split; [apply lookup_insert_eq|]. split.
  - unfold drop_request. cbn [reqs heads parts notified]. rewrite delete_insert_id by done.
    apply Inv_rebuild; try done.
    + apply (confined_trans _ _ rq0); [|by apply confined_evolve]. apply confined_delete.
      intros x Hx. left. congruence.
    + by apply (evolve_ok res rq0).
    + apply (part_inv_ext (reqs M)); [|apply Hi]. intros x p' res'.
      rewrite (evolve_partition res rq0) by done. unfold at_place, rq0. destruct (decide (x = r)) as [->|Hx].
      * rewrite lookup_delete_eq. split; intros (y & Hy & [? _]%place_inv); [done|congruence].
      * by rewrite lookup_delete_ne.
    + intros p' l Hl'. rewrite Hp, Hps. by apply (iv_link _ Hi p' res l).
  - unfold others. rewrite delete_insert_id by done. done.
Qed.

Lemma mode_changed_ok (M : LockManager) (res : ResourceId) (rq : requests) (h : LockHead) :
  Inv M -> head_inv rq res h -> partitions h = partitions (findOrInsert res M) ->
  confined res (reqs M) rq -> reqs_ok rq -> part_inv rq (parts M) ->
  exists M', mode_changed res h rq true M = Some M' /\ Inv M' /\ evolve res rq (reqs M').
Proof.
  intros Hi H Hps Hcf Hok Hpi.
  destruct (onLockModeChanged_ok res h rq true H Hok) as (h' & rq' & n & E & H' & He & Hl & Hp & Ho); [done|].
  unfold mode_changed. rewrite E. cbn [mbind option_bind]. eexists. split; [done|]. split; [|done].
  apply Inv_rebuild; try done.
  - apply (confined_trans _ _ rq); [done|by apply confined_evolve].
  - by apply (evolve_ok res rq).
  - apply (part_inv_ext rq); [|done]. intros x p' res'. by apply (evolve_partition res).
  - intros p' l Hl'. rewrite Hp, Hps. by apply (iv_link _ Hi p' res l).
Qed.

(** A queued request that is not on a partition is on a head. *)
Lemma queued_place (q : LockRequest) :
  req_ok q -> partitionedLock q = None ->
  (status q = STATUS_GRANTED \/ status q = STATUS_CONVERTING -> exists res, place q = Some (InGranted res) /\ lockHead q = Some res) /\
  (status q = STATUS_WAITING -> exists res, place q = Some (InWaiting res) /\ lockHead q = Some res).
Proof.
  intros H Hn. pose proof (ro_place _ H) as Hp. unfold place in *. rewrite Hn in *.
  destruct (lockHead q) as [res|], (status q); split; intros Hs; first [exfalso; by apply Hp|exfalso; by destruct Hs|by exists res].
Qed.

Lemma unlock_bucket_ok (M : LockManager) (r : request) (q : LockRequest) :
  Inv M -> reqs M !! r = Some q -> partitionedLock q = None ->
  status q = STATUS_GRANTED \/ (status q = STATUS_WAITING /\ recursiveCount q = 0) ->
  exists res M', unlock_bucket r M = Some (recursiveCount q =? 0, M') /\ resource_of q = Some res /\
    Inv (drop_request r M') /\ others res r (reqs M) (reqs M').
Proof.
  intros Hi Hq Hn Hs. destruct (queued_place q (iv_reqs _ Hi _ _ Hq) Hn) as [Hg Hw].
  unfold unlock_bucket. rewrite Hq. cbn [mbind option_bind].
  destruct Hs as [Hs|[Hs Hc]]; rewrite Hs in *.
  - destruct Hg as (res & Hp & Hlh); [by left|]. exists res. rewrite Hlh. cbn [mbind option_bind].
    assert (resource_of q = Some res) as Hr by (unfold resource_of; by rewrite Hp).
    rewrite (head_exists M res r q) by done. cbn [mbind option_bind].
    pose proof (iv_heads _ Hi res) as Hh. pose proof (iv_live _ Hi res) as Hl.
    destruct (remove_granted (reqs M) res (findOrInsert res M) r q Hh Hq Hp Hs) as (g & -> & Hcg & Hh').
    cbn [mbind option_bind].
    destruct (release_ok M res r q _ (counts g (mode q) =? 0) Hi Hq Hr Hn Hh' eq_refl) as (M' & -> & Hq' & Hi' & Ho).
    + intros Hck%Nat.eqb_neq. cbn [conflictList grantedList]. split.
      * intros x y Hx Hy. apply lookup_delete_Some in Hy as [_ Hy].
        destruct (hl_front _ _ Hl x y Hx Hy) as [|Hcl]; [by left|right]. by apply (still_blocked _ _ r q Hq g).
      * intros _ E. rewrite Hcg, E in Hck. done.
    + cbn [mbind option_bind]. rewrite Hq'. cbn [mbind option_bind]. exists M'. by split_and!.
  - destruct Hw as (res & Hp & Hlh); [done|]. exists res. rewrite Hlh. cbn [mbind option_bind].
    assert (resource_of q = Some res) as Hr by (unfold resource_of; by rewrite Hp).
    rewrite (head_exists M res r q) by done. cbn [mbind option_bind]. rewrite Hc. cbn [Nat.eqb invariant mbind option_bind].
    destruct (remove_waiting (reqs M) res (findOrInsert res M) r q (iv_heads _ Hi res) Hq Hp) as (c & -> & Hh').
    cbn [mbind option_bind].
    destruct (release_ok M res r q _ true Hi Hq Hr Hn Hh' eq_refl) as (M' & -> & Hq' & Hi' & Ho); [done|].
    cbn [mbind option_bind]. rewrite Hq'. cbn [mbind option_bind]. rewrite Hc. exists M'. by split_and!.
Qed.

Lemma part_inv_drop (rq : requests) (pd : partition_data) (r : request) (q : LockRequest) (p : partition)
    (res : ResourceId) :
  part_inv rq pd -> rq !! r = Some q -> place q = Some (InPartition p res) ->
  part_inv (delete r rq) (<[(p, res) := without r (part_list pd p res)]> pd).
Proof.
  intros H Hq Hp p' res'. destruct (decide ((p', res') = (p, res))) as [[= -> ->]|Hne].
  - rewrite part_list_insert. destruct (H p res) as [Hnd Hm]. split; [by apply NoDup_without|].
    intros x. rewrite elem_without, Hm. unfold at_place. destruct (decide (x = r)) as [->|Hx].
    + rewrite lookup_delete_eq. split; [by intros [? _]|by intros (? & ? & _)].
    + rewrite lookup_delete_ne by done. tauto.
  - rewrite part_list_insert_ne by done. destruct (H p' res') as [Hnd Hm]. split; [done|].
    intros x. rewrite Hm. unfold at_place. destruct (decide (x = r)) as [->|Hx]; [|by rewrite lookup_delete_ne].
    rewrite lookup_delete_eq. split; [|by intros (? & ? & _)]. intros (y & Hy & ?). exfalso. congruence.
Qed.

Lemma unlock_partition_ok (M : LockManager) (r : request) (q : LockRequest) :
  Inv M -> reqs M !! r = Some q -> status q <> STATUS_NEW ->
  (exists M' res, unlock_partition r M = Some (true, M') /\ Inv (drop_request r M') /\ reqs M' = reqs M /\
     resource_of q = Some res /\ status q = STATUS_GRANTED) \/
  (unlock_partition r M = Some (false, M) /\ partitionedLock q = None).
Proof.
  intros Hi Hq Hs. unfold unlock_partition. rewrite Hq. cbn [mbind option_bind].
  destruct (partitioned q) eqn:Ep.
  2:{ right. split; [done|]. destruct (partitionedLock q) as [[p res]|] eqn:E; [|done].
      destruct (ro_part _ (iv_reqs _ Hi _ _ Hq) _ _ E) as (? & _). congruence. }
  assert (bool_decide (status q = STATUS_GRANTED) || bool_decide (status q = STATUS_CONVERTING) = true) as ->.
  { pose proof (ro_wait _ (iv_reqs _ Hi _ _ Hq)). destruct (status q); try done. by rewrite H in Ep. }
  cbn [invariant mbind option_bind]. destruct (partitionedLock q) as [[p res]|] eqn:E; [left|by right].
  assert (place q = Some (InPartition p res)) as Hp.
  { pose proof (ro_place _ (iv_reqs _ Hi _ _ Hq) Hs) as Hx. unfold place in *. rewrite E in *.
    by destruct (lockHead q), (status q). }
  assert (r ∈ part_list (parts M) p res) as Hin by (apply (iv_parts _ Hi p res); by exists q).
  pose proof (part_inv_drop _ _ _ _ _ _ (iv_parts _ Hi) Hq Hp) as Hpi.
  unfold part_list in Hin, Hpi. destruct (parts M !! (p, res)) as [l|] eqn:El; [|set_solver].
  cbn [mbind option_bind]. eexists _, res. split; [done|]. split; [|split_and!; [done|by unfold resource_of; rewrite Hp|by apply place_inv in Hp as (_ & _ & ?)]].
  assert (forall res' x, delete r (reqs M) !! x = reqs M !! x \/
            (~ on_head (reqs M) x res' /\ ~ on_head (delete r (reqs M)) x res')) as Hf.
  { intros res' x. destruct (decide (x = r)) as [->|Hx]; [|left; by apply lookup_delete_ne]. right.
    unfold on_head, at_place. rewrite lookup_delete_eq. split; intros [(y & Hy & ?)|(y & Hy & ?)]; congruence. }
  split; cbn [reqs parts drop_request].
  - intros x y Hy. apply lookup_delete_Some in Hy as [_ Hy]. by apply (iv_reqs _ Hi x).
  - intros res'. apply (head_inv_frame (reqs M)); [apply Hf|]. apply (iv_heads _ Hi res').
  - intros res'. apply (head_live_frame (reqs M) _ res'); [apply Hf|apply (iv_heads _ Hi res')|apply (iv_live _ Hi res')].
  - exact Hpi.
  - intros p' res' l' Hl'. destruct (decide ((p', res') = (p, res))) as [[= -> ->]|Hne].
    + by apply (iv_link _ Hi p res l).
    + rewrite lookup_insert_ne in Hl' by congruence. by apply (iv_link _ Hi p' res' l').
Qed.

(** ** Cancelling a conversion, [downgrade], [cleanupUnusedLocks] *)

Definition cancelled (q : LockRequest) : LockRequest := set_convertMode MODE_NONE (set_status STATUS_GRANTED q).

Lemma cancel_head (rq : requests) (res : ResourceId) (h : LockHead) (r : request) (q : LockRequest) :
  head_inv rq res h -> rq !! r = Some q -> place q = Some (InGranted res) -> status q = STATUS_CONVERTING ->
  1 <= conversionsCount h /\
  exists g, decModeCount (convertMode q) (granted h) = Some g /\
    head_inv (<[r := cancelled q]> rq) res
      (mkHead (grantedList h) g (conflictList h) (conflict h) (partitions h) (conversionsCount h - 1)
         (compatibleFirstCount h)).
Proof.
  intros Hinv Hq Hp Hs. destruct (elim_granted _ _ _ _ _ Hinv Hq Hp) as (Hr & Hwc & Hcnt).
  pose proof (base_elim r _ _ _ Hinv) as Hb. rewrite Hwc in Hb.
  pose proof (fun f => countl_fresh f r rq res _ _ (cancelled q) Hb) as Hf.
  assert (forall m, counts (granted h) m = is_mode (convertMode q) m + (is_mode (mode q) m
            + countl (held m) rq (without r (grantedList h)))) as Hg.
  { intros m. rewrite (hi_gcnt _ _ _ Hinv), Hcnt, held_converting by done. lia. }
  destruct (decModeCount_ok (convertMode q) (granted h)) as (k & Hk & Hkm);
    [apply Hinv|rewrite Hg, is_mode_same; lia|].
  split; [rewrite (hi_conv _ _ _ Hinv), Hcnt, converting_one by done; lia|].
  eexists. split; [exact Hk|].
  apply (head_inv_granted r _ res (without r (grantedList h)) (conflictList h) _ (cancelled q));
    cbn [grantedList conflictList granted conflict counts mask conversionsCount compatibleFirstCount partitions];
    try done; try apply Hinv.
  - by apply base_insert.
  - by rewrite lookup_insert_eq.
  - intros Hne. destruct (hi_part _ _ _ Hinv Hne) as [? Hi]. split; [done|].
    rewrite (hi_gok _ _ _ Hinv) in Hi. rewrite Hkm. by apply partitions_intent_dec.
  - apply place_inv in Hp as (Ha & Hl & _). unfold place. cbn. by rewrite Ha, Hl.
  - intros m. rewrite (set_count_dec _ _ _ _ Hg), (proj1 (Hf _)), held_idle by done. done.
  - intros m. rewrite (proj2 (Hf _)). apply Hinv.
  - rewrite (proj1 (Hf _)), (hi_conv _ _ _ Hinv), Hcnt, converting_one, (converting_idle (cancelled q)) by done. lia.
  - rewrite (proj1 (Hf _)), (hi_cf _ _ _ Hinv), Hcnt. done.
  - intros x q' Hx. rewrite lookup_insert_ne by (apply elem_without in Hx as [? _]; congruence).
    intros Hq'. apply elem_without in Hx as [? ?]. apply (hi_compat _ _ _ Hinv r x q q'); (done || congruence).
Qed.

(** Nobody is ever granted [MODE_NONE]. *)
Lemma no_mode_none (rq : requests) (res : ResourceId) (h : LockHead) :
  reqs_ok rq -> head_inv rq res h -> counts (granted h) MODE_NONE = 0.
Proof.
  intros Hok H. rewrite (hi_gcnt _ _ _ H). apply countl_none. intros r q. by apply (held_none rq res h).
Qed.

Lemma unlock_bucket_cancel (M : LockManager) (r : request) (q : LockRequest) :
  Inv M -> reqs M !! r = Some q -> 1 <= recursiveCount q -> partitionedLock q = None ->
  status q = STATUS_CONVERTING ->
  exists res M' q', unlock_bucket r M = Some (false, M') /\ resource_of q = Some res /\ Inv M' /\
    others res r (reqs M) (reqs M') /\ reqs M' !! r = Some q' /\ status q' = STATUS_GRANTED /\
    mode q' = mode q /\ recursiveCount q' = recursiveCount q /\ resource_of q' = Some res.
Proof.
  intros Hi Hq Hc Hn Hs. destruct (queued_place q (iv_reqs _ Hi _ _ Hq) Hn) as [Hg _].
  destruct Hg as (res & Hp & Hlh); [by right|]. exists res.
  assert (resource_of q = Some res) as Hr by (unfold resource_of; by rewrite Hp).
  unfold unlock_bucket. rewrite Hq. cbn [mbind option_bind]. rewrite Hlh. cbn [mbind option_bind].
  rewrite (head_exists M res r q) by done. cbn [mbind option_bind]. rewrite Hs.
  destruct (cancel_head (reqs M) res (findOrInsert res M) r q (iv_heads _ Hi res) Hq Hp Hs) as (Hcc & g & Hg & Hh).
  rewrite (proj2 (Nat.leb_le _ _) Hc), (proj2 (Nat.leb_le _ _) Hcc). cbn [invariant mbind option_bind].
  rewrite Hg. cbn [mbind option_bind]. fold (cancelled q). change (convertMode (cancelled q)) with MODE_NONE.
  assert (place (cancelled q) = Some (InGranted res)) as Hp' by (unfold place; cbn; by rewrite Hn, Hlh).
  assert (reqs_ok (<[r := cancelled q]> (reqs M))) as Hok.
  { apply reqs_ok_insert; [apply Hi|]. destruct (iv_reqs _ Hi _ _ Hq). split; cbn; try done; try congruence.
    intros _. apply ro_mode0. congruence. }
  pose proof (no_mode_none _ _ _ Hok Hh) as Hnone. cbn in Hnone. rewrite Hnone. cbn [Nat.eqb].
  destruct (mode_changed_ok M res _ _ Hi Hh eq_refl) as (M' & -> & Hi' & He).
  - apply confined_insert; [intros x Hx; left; congruence|]. left. unfold resource_of. by rewrite Hp'.
  - done.
  - by apply (part_inv_insert _ _ r q); [apply Hi|..].
  - destruct (evolve_some _ _ _ r (cancelled q) He) as (q' & Hq' & Hrtc); [apply lookup_insert_eq|].
    destruct (rtc_from_granted _ _ _ Hrtc) as (H1 & H2 & H3 & _); [done|]. cbn [mbind option_bind]. rewrite Hq'.
    cbn [mbind option_bind]. cbn in H3. rewrite H3. destruct (Nat.eqb_spec (recursiveCount q) 0) as [|_]; [lia|].
    exists M', q'. split_and!; try done.
    + pose proof (evolve_delete _ _ _ r He) as Ho. by rewrite delete_insert_eq in Ho.
    + apply rtc_inv_r in Hrtc as [<-|(y & _ & [_ Hy]%grant_step_place)]; unfold resource_of; [by rewrite Hp'|by rewrite Hy].
Qed.

Lemma downgrade_ok (M : LockManager) (r : request) (q : LockRequest) (m : LockMode) :
  Inv M -> reqs M !! r = Some q -> status q = STATUS_GRANTED -> partitionedLock q = None ->
  1 <= recursiveCount q -> isModeCovered m (mode q) = true -> m <> MODE_NONE ->
  exists res M' q', downgrade r m M = Some M' /\ resource_of q = Some res /\ Inv M' /\
    others res r (reqs M) (reqs M') /\ reqs M' !! r = Some q' /\ status q' = STATUS_GRANTED /\
    mode q' = m /\ recursiveCount q' = recursiveCount q.
Proof.
  intros Hi Hq Hs Hn Hc Hcov Hm. destruct (queued_place q (iv_reqs _ Hi _ _ Hq) Hn) as [Hg _].
  destruct Hg as (res & Hp & Hlh); [by left|]. exists res.
  assert (resource_of q = Some res) as Hr by (unfold resource_of; by rewrite Hp).
  pose proof (iv_heads _ Hi res) as Hh.
  destruct (elim_granted _ _ _ _ _ Hh Hq Hp) as (Hin & _ & Hcnt).
  unfold downgrade. rewrite Hq. cbn [mbind option_bind]. rewrite Hlh. cbn [mbind option_bind].
  rewrite Hs, (proj2 (Nat.leb_le _ _) Hc), Hcov, bool_decide_true by done. cbn [invariant mbind option_bind].
  rewrite (head_exists M res r q) by done. cbn [mbind option_bind].
  destruct (change_mode (reqs M) res (findOrInsert res M) r q Hh Hq Hp Hs m) as (g1 & g2 & -> & Hg2 & Hh').
  { intros Hne. destruct (hi_part _ _ _ Hh Hne) as [_ Hx]. rewrite (hi_gok _ _ _ Hh) in Hx.
    apply mask_of_intent in Hx as (_ & Hx1 & Hx2). rewrite (hi_gcnt _ _ _ Hh), Hcnt, held_idle in Hx1, Hx2 by congruence.
    destruct m, (mode q); done. }
  { intros x y [Hx Hxg]%elem_without Hy. rewrite incompatible_sym.
    destruct (incompatible (mode y) m) eqn:E; [|done]. apply (incompatible_covered _ _ _ Hcov) in E.
    rewrite incompatible_sym, (hi_compat _ _ _ Hh r x q y) in E; congruence. }
  cbn [mbind option_bind]. rewrite Hg2. cbn [mbind option_bind].
  destruct (mode_changed_ok M res _ _ Hi Hh' eq_refl) as (M' & -> & Hi' & He).
  - apply confined_insert; [intros x Hx; left; congruence|by left].
  - apply reqs_ok_insert; [apply Hi|]. destruct (iv_reqs _ Hi _ _ Hq). split; cbn; try done; try congruence.
  - by apply (part_inv_insert _ _ r q); [apply Hi|..].
  - destruct (evolve_some _ _ _ r (set_mode m q) He) as (q' & Hq' & Hrtc); [apply lookup_insert_eq|].
    destruct (rtc_from_granted _ _ _ Hrtc) as (H1 & H2 & H3 & _); [done|].
    exists M', q'. split_and!; try done.
    pose proof (evolve_delete _ _ _ r He) as Ho. by rewrite delete_insert_eq in Ho.
Qed.

Lemma Inv_heads_ext (M M' : LockManager) :
  Inv M -> reqs M' = reqs M -> parts M' = parts M ->
  (forall res, findOrInsert res M' = findOrInsert res M) -> Inv M'.
Proof.
  intros [I1 I2 I3 I4 I5] Hr Hp Hh. split; rewrite ?Hr, ?Hp; try done.
  - intros res. by rewrite Hh.
  - intros res. by rewrite Hh.
  - intros p res l. rewrite Hh. apply I5.
Qed.

(** A head with empty queues is as good as a new one. *)
Lemma empty_head (rq : requests) (res : ResourceId) (h : LockHead) :
  head_inv rq res h -> grantedList h = [] -> conflictList h = [] ->
  head_inv rq res head_initNew /\ head_live rq head_initNew.
Proof.
  intros [] Eg Ec. rewrite Eg, Ec in *. split; split; try done; cbn.
  intros r Hr. set_solver.
Qed.

Lemma cleanup_head_ok (M : LockManager) (res : ResourceId) (h : LockHead) :
  Inv M -> heads M !! res = Some h ->
  exists M', cleanup_head res M = Some M' /\ Inv M' /\ evolve res (reqs M) (reqs M') /\
    (heads M' !! res = None -> forall r q, reqs M' !! r = Some q -> resource_of q <> Some res).
Proof.
  intros Hi Hh. assert (h = findOrInsert res M) as -> by (unfold findOrInsert; by rewrite Hh).
  unfold cleanup_head. rewrite Hh. cbn [mbind option_bind].
  destruct (migrate_manager M res Hi) as (h1 & rq1 & pd1 & -> & Hmg & Hl1 & Hok1). cbn [mbind option_bind].
  pose proof (mg_inv _ _ _ _ _ _ _ Hmg) as Hi1.
  assert (forall h', head_inv rq1 res h' -> head_live rq1 h' ->
            Inv (mkManager rq1 (<[res := h']> (heads M)) pd1 (notified M))) as Hre.
  { intros h' H1 H2. apply Inv_rebuild; try done.
    - apply confined_evolve, Hmg.
    - apply Hmg.
    - intros p l E. by rewrite (mg_gone _ _ _ _ _ _ _ Hmg) in E.
    - intros p res' l Hne E. rewrite <- (mg_other _ _ _ _ _ _ _ Hmg) by done. by exists l. }
  destruct (Z.eqb_spec (mask (granted h1)) 0) as [E|E].
  2:{ eexists. split; [done|]. cbn [heads reqs]. split_and!; [by apply Hre|apply Hmg|]. by rewrite lookup_insert_eq. }
  apply (granted_mask_empty _ _ _ Hi1) in E.
  assert (conflictList h1 = []) as Ec.
  { destruct (decide (conflictList h1 = [])) as [|Hne]; [done|]. by destruct (hl_some _ _ Hl1 Hne). }
  assert (mask (conflict h1) = 0%Z) as Em by (by apply (conflict_mask_empty _ _ _ Hi1)).
  assert (conversionsCount h1 = 0 /\ compatibleFirstCount h1 = 0) as [-> ->].
  { by rewrite (hi_conv _ _ _ Hi1), (hi_cf _ _ _ Hi1), E. }
  rewrite E, Ec, Em. cbn [invariant mbind option_bind bool_decide Z.eqb Nat.eqb].
  rewrite !bool_decide_true by done. cbn [invariant mbind option_bind].
  eexists. split; [done|]. cbn [heads reqs]. destruct (empty_head _ _ _ Hi1 E Ec) as [He1 He2]. split_and!.
  - apply (Inv_heads_ext _ _ (Hre _ He1 He2)); [done..|]. intros res'. unfold findOrInsert. cbn [heads].
    destruct (decide (res' = res)) as [->|Hne].
    + by rewrite lookup_delete_eq, lookup_insert_eq.
    + by rewrite lookup_delete_ne, lookup_insert_ne by congruence.
  - apply Hmg.
  - intros _ r q Hq Hr. unfold resource_of in Hr. destruct (place q) as [pl|] eqn:Hp; [|done].
    destruct pl as [res'|res'|p res']; injection Hr as ->.
    + assert (r ∈ grantedList h1) as Hx by (apply (hi_gmem _ _ _ Hi1); by exists q). rewrite E in Hx. set_solver.
    + assert (r ∈ conflictList h1) as Hx by (apply (hi_cmem _ _ _ Hi1); by exists q). rewrite Ec in Hx. set_solver.
    + assert (r ∈ part_list pd1 p res) as Hx by (apply (mg_parts _ _ _ _ _ _ _ Hmg p res); by exists q).
      unfold part_list in Hx. rewrite (mg_gone _ _ _ _ _ _ _ Hmg) in Hx. set_solver.
Qed.

(** ** The invariant holds in every interleaving *)

Lemma pc_ok_grant (res : ResourceId) (q q' : LockRequest) (c : pc) : grant_step res q q' -> pc_ok q c -> pc_ok q' c.
Proof.
  intros Hs. pose proof (grant_step_place _ _ _ Hs) as [(pl & Hpl & Hres) Hp'].
  assert (resource_of q = Some res) as Hr by (unfold resource_of; rewrite Hpl; cbn; by rewrite Hres).
  assert (resource_of q' = Some res) as Hr' by (unfold resource_of; by rewrite Hp').
  pose proof (place_not_new _ _ Hpl) as Hnew. apply place_inv in Hp' as (Hpn & _).
  destruct Hs as [H%place_inv|H%place_inv E|p H%place_inv]; destruct H as (Ha & Hb & Hc);
    destruct c as [| | |[]|[]]; cbn in *; intuition (try congruence; try lia).
Qed.

Lemma pc_ok_rtc (res : ResourceId) (q q' : LockRequest) (c : pc) :
  rtc (grant_step res) q q' -> pc_ok q c -> pc_ok q' c.
Proof. induction 1 as [|? ? ? Hs _ IH]; [done|]. intros H. by apply IH, (pc_ok_grant res _ _ _ Hs). Qed.

Lemma others_lookup (res : ResourceId) (r x : request) (rq rq' : requests) (q' : LockRequest) :
  others res r rq rq' -> x <> r -> rq' !! x = Some q' -> exists q, rq !! x = Some q /\ rtc (grant_step res) q q'.
Proof.
  intros H Hx Hq'. specialize (H x). rewrite !lookup_delete_ne, Hq' in H by done.
  destruct (rq !! x) as [q|]; [by exists q|done].
Qed.

Lemma evolve_dom (res : ResourceId) (rq rq' : requests) : evolve res rq rq' -> dom rq' = dom rq.
Proof.
  intros H. apply set_eq. intros x. rewrite !elem_of_dom. specialize (H x).
  destruct (rq !! x), (rq' !! x); split; try done; intros [? ?]; done.
Qed.

Lemma others_dom (res : ResourceId) (r : request) (rq rq' : requests) (q q' : LockRequest) :
  others res r rq rq' -> rq !! r = Some q -> rq' !! r = Some q' -> dom rq' = dom rq.
Proof.
  intros H%evolve_dom Hq Hq'. rewrite !dom_delete_L in H. apply set_eq. intros x.
  destruct (decide (x = r)) as [->|Hx]; [rewrite !elem_of_dom, Hq, Hq'; split; intros _; eauto|].
  assert (x ∈ dom rq' ∖ {[r]} <-> x ∈ dom rq ∖ {[r]}) as Hd by (by rewrite H). set_solver.
Qed.

Lemma Good_call (s : State) (M' : LockManager) (res : ResourceId) (r : request) (q q' : LockRequest) (c : pc) (b : bool) :
  Good s -> Inv M' -> others res r (reqs (mgr s)) (reqs M') -> reqs (mgr s) !! r = Some q ->
  reqs M' !! r = Some q' -> pc_ok q' c -> Good (mkState M' (<[r := c]> (pcs s)) b).
Proof.
  intros [G1 G2 G3] Hi Ho Hq Hq' Hc. split; cbn [mgr pcs]; [done| |].
  - rewrite (others_dom res r _ _ q q' Ho Hq Hq'), <- G2. apply dom_insert_lookup_L.
    apply elem_of_dom. rewrite G2. apply elem_of_dom. by exists q.
  - intros x y d Hy Hd. destruct (decide (x = r)) as [->|Hx].
    + rewrite lookup_insert_eq in Hd. by simplify_eq.
    + rewrite lookup_insert_ne in Hd by done. destruct (others_lookup _ _ _ _ _ _ Ho Hx Hy) as (z & Hz & Hrtc).
      apply (pc_ok_rtc res z); [done|]. by apply (G3 x).
Qed.

Lemma Good_drop (s : State) (M' : LockManager) (res : ResourceId) (r : request) (b : bool) :
  Good s -> Inv (drop_request r M') -> others res r (reqs (mgr s)) (reqs M') ->
  Good (mkState (drop_request r M') (delete r (pcs s)) b).
Proof.
  intros [G1 G2 G3] Hi Ho. split; cbn [mgr pcs]; [done| |].
  - cbn [reqs drop_request]. rewrite (evolve_dom _ _ _ Ho). rewrite !dom_delete_L. by rewrite G2.
  - intros x y d Hy Hd. cbn [reqs drop_request] in Hy. apply lookup_delete_Some in Hy as [Hx Hy].
    rewrite lookup_delete_ne in Hd by done.
    destruct (others_lookup _ r _ _ _ _ Ho (not_eq_sym Hx) Hy) as (z & Hz & Hrtc).
    apply (pc_ok_rtc res z); [done|]. by apply (G3 x).
Qed.

Lemma Good_request (s : State) (r : request) (c : pc) :
  Good s -> pcs s !! r = Some c -> exists q, reqs (mgr s) !! r = Some q /\ pc_ok q c.
Proof.
  intros [G1 G2 G3] Hc. assert (r ∈ dom (reqs (mgr s))) as [q Hq]%elem_of_dom.
  { rewrite <- G2. apply elem_of_dom. by exists c. }
  exists q. split; [done|]. by apply (G3 r).
Qed.

Lemma others_update (res : ResourceId) (r : request) (rq : requests) (q : LockRequest) : others res r rq (<[r := q]> rq).
Proof. apply others_insert, evolve_refl. Qed.

Lemma good_new (s : State) (r : request) (lk : Z) (front first : bool) :
  Good s -> reqs (mgr s) !! r = None ->
  Good (mkState (update_request r (new_request lk front first) (mgr s)) (<[r := Ready]> (pcs s)) (raced s)).
Proof.
  intros [G1 G2 G3] Hn. split; cbn [mgr pcs].
  - apply Inv_update_unplaced; [done|intros q Hq; congruence|done|]. by split.
  - cbn [reqs update_request]. by rewrite !dom_insert_L, G2.
  - cbn [reqs update_request]. intros x y d Hy Hd. destruct (decide (x = r)) as [->|Hx].
    + rewrite lookup_insert_eq in Hy. rewrite lookup_insert_eq in Hd. simplify_eq. cbn. split_and!; [lia|done|done].
    + rewrite lookup_insert_ne in Hy by done. rewrite lookup_insert_ne in Hd by done. by apply (G3 x).
Qed.

Lemma good_lock (s : State) (r : request) (q : LockRequest) (res : ResourceId) (m : LockMode) (M1 M2 : LockManager)
    (result : option LockResult) :
  Good s -> pcs s !! r = Some Ready -> reqs (mgr s) !! r = Some q -> status q = STATUS_NEW -> m <> MODE_NONE ->
  lock_enter r m (mgr s) = Some M1 -> lock_partition res r M1 = Some (result, M2) ->
  Good (mkState M2 (<[r := match result with Some _ => Ready | None => Locking res end]> (pcs s)) (raced s)).
Proof.
  intros G Hpc Hq Hs Hm E1 E2. destruct (gd_pc _ G r q Ready Hq Hpc) as (_ & Hc & _).
  destruct (lock_enter_ok (mgr s) r q m (gd_inv _ G) Hq Hs) as [E Hi1]; [by apply Hc; left|].
  rewrite E in E1. injection E1 as <-.
  set (q1 := set_mode m (set_partitioned (intent m) q)) in *.
  assert (reqs (update_request r q1 (mgr s)) !! r = Some q1) as Hq1 by apply lookup_insert_eq.
  destruct (lock_partition_ok _ res r q1 Hi1 Hq1 Hs eq_refl) as [E'|(M' & p & E' & Hi' & Hr')];
    rewrite E' in E2; injection E2 as <- <-.
  - apply (Good_call s _ res r q q1); try done; [apply others_update|].
    cbn. split_and!; [done|by apply Hc; left|done|done].
  - eapply (Good_call s _ res r q); [done|done| |done|rewrite Hr'; apply lookup_insert_eq|].
    + rewrite Hr'. cbn [reqs update_request]. rewrite insert_insert_eq. apply others_update.
    + cbn. rewrite Hc by (by left). split_and!; [lia|done|done].
Qed.

Lemma good_lock_bucket (s : State) (r : request) (res : ResourceId) (M : LockManager) (result : LockResult) :
  Good s -> pcs s !! r = Some (Locking res) -> lock_bucket res r (mgr s) = Some (result, M) ->
  Good (mkState M (<[r := Ready]> (pcs s)) (raced s)).
Proof.
  intros G Hpc E. destruct (Good_request _ _ _ G Hpc) as (q & Hq & Hs & Hc & Hm & Hp).
  destruct (lock_bucket_ok (mgr s) res r q (gd_inv _ G) Hq Hs Hm Hp) as (x & M' & q' & E' & Hi' & Hq' & Ho & Ha & _ & _ & Hst).
  rewrite E' in E. injection E as <- <-. apply (Good_call s M' res r q q'); try done.
  cbn. rewrite Ha, Hc, Hst. split_and!; [lia|done|by destruct x].
Qed.

Lemma good_convert (s : State) (r : request) (q : LockRequest) (res : ResourceId) (m : LockMode) (fast : bool)
    (M : LockManager) :
  Good s -> pcs s !! r = Some Ready -> reqs (mgr s) !! r = Some q -> status q = STATUS_GRANTED ->
  resource_of q = Some res -> isModeCovered m (mode q) || isModeCovered (mode q) m = true ->
  convert_enter r m (mgr s) = Some (fast, M) ->
  Good (mkState M (<[r := if fast then Ready else Converting res m]> (pcs s)) (raced s)).
Proof.
  intros G Hpc Hq Hs Hr Hcov E. destruct (gd_pc _ G r q Ready Hq Hpc) as (Hc & _ & _).
  pose proof (Inv_update_count (mgr s) r q (S (recursiveCount q)) (gd_inv _ G) Hq) as Hi.
  unfold convert_enter in E. rewrite Hq in E. cbn [mbind option_bind] in E.
  rewrite Hs, (proj2 (Nat.leb_le _ _) Hc), bool_decide_true in E by done. cbn [invariant mbind option_bind] in E.
  destruct (isModeCovered m (mode q)) eqn:E1.
  - injection E as <- <-. eapply (Good_call s _ res r q); [done|done|apply others_update|done|apply lookup_insert_eq|].
    cbn. rewrite Hs. split_and!; [lia|by intros [?|?]|done].
  - cbn in Hcov. rewrite Hcov in E. cbn [invariant mbind option_bind] in E. injection E as <- <-.
    eapply (Good_call s _ res r q); [done|done|apply others_update|done|apply lookup_insert_eq|].
    cbn. split_and!; [done|lia|done|done|done].
Qed.

Lemma good_convert_bucket (s : State) (r : request) (res : ResourceId) (m : LockMode) (M : LockManager)
    (result : LockResult) :
  Good s -> pcs s !! r = Some (Converting res m) -> convert_bucket res r m (mgr s) = Some (result, M) ->
  Good (mkState M (<[r := Ready]> (pcs s)) (raced s)).
Proof.
  intros G Hpc E. destruct (Good_request _ _ _ G Hpc) as (q & Hq & Hs & Hc & Hr & Hcov & Hncov).
  destruct (convert_bucket_ok (mgr s) res r q m (gd_inv _ G) Hq Hs Hr Hcov Hncov)
    as (x & M' & q' & E' & Hi' & Hq' & Ho & Ha & _ & Hst).
  rewrite E' in E. injection E as <- <-. apply (Good_call s M' res r q q'); try done.
  cbn. rewrite Ha. destruct x; destruct Hst as [Hst _]; rewrite Hst; (split_and!; [lia|by intros [?|?]|done]).
Qed.

Lemma converting_on_head (q : LockRequest) :
  req_ok q -> status q = STATUS_CONVERTING -> partitionedLock q = None.
Proof.
  intros H Hs. destruct (partitionedLock q) as [[p res]|] eqn:E; [exfalso|done].
  pose proof (ro_place _ H) as Hp. unfold place in Hp. rewrite E, Hs in Hp.
  destruct (lockHead q); by apply Hp.
Qed.

Lemma good_unlock (s : State) (r : request) (q : LockRequest) (held : bool) (M : LockManager) :
  Good s -> pcs s !! r = Some Ready -> reqs (mgr s) !! r = Some q -> status q <> STATUS_NEW ->
  unlock_enter r (mgr s) = Some (held, M) ->
  Good (mkState M (<[r := if held then Ready else Unlocking (bool_decide (status q = STATUS_CONVERTING))]> (pcs s))
          (raced s)).
Proof.
  intros G Hpc Hq Hs E. destruct (gd_pc _ G r q Ready Hq Hpc) as (Hc & Hw & Hv).
  pose proof (Inv_update_count (mgr s) r q (recursiveCount q - 1) (gd_inv _ G) Hq) as Hi.
  pose proof (converting_on_head _ (iv_reqs _ (gd_inv _ G) _ _ Hq)) as Hn.
  unfold unlock_enter in E. rewrite Hq in E. cbn [mbind option_bind] in E.
  rewrite (proj2 (Nat.leb_le _ _) Hc) in E. cbn [invariant mbind option_bind status recursiveCount set_recursiveCount] in E.
  injection E as <- <-.
  eapply (Good_call s _ 0%Z r q); [done|done|apply others_update|done|apply lookup_insert_eq|].
  destruct (status q) eqn:Es; [done|..]; [rewrite bool_decide_true by done|rewrite bool_decide_false by done..];
    cbn [andb].
  - rewrite bool_decide_false by done.
    destruct (recursiveCount q - 1) as [|k] eqn:E; cbn [pc_ok unlocking_ok recursiveCount status set_recursiveCount]; rewrite Es.
    + split; [done|by left].
    + split_and!; [lia|by intros [?|?]|done].
  - rewrite bool_decide_false by done. cbn. rewrite Es, Hw by (by right). split; [done|by right].
  - rewrite bool_decide_true by done. cbn. rewrite Es. specialize (Hv eq_refl). specialize (Hn eq_refl).
    split_and!; [lia|by left|done].
Qed.

Lemma unlocking_not_new (cancel : bool) (q : LockRequest) : unlocking_ok cancel q -> status q <> STATUS_NEW.
Proof. destruct cancel; cbn; intuition congruence. Qed.

Lemma good_unlock_partition (s : State) (r : request) (cancel b : bool) (M : LockManager) :
  Good s -> pcs s !! r = Some (Unlocking cancel) -> unlock_partition r (mgr s) = Some (b, M) ->
  Good (if b then mkState (drop_request r M) (delete r (pcs s)) (raced s)
        else mkState M (<[r := Releasing cancel]> (pcs s)) (raced s)).
Proof.
  intros G Hpc E. destruct (Good_request _ _ _ G Hpc) as (q & Hq & Hc).
  destruct (unlock_partition_ok (mgr s) r q (gd_inv _ G) Hq (unlocking_not_new _ _ Hc))
    as [(M' & res & E' & Hi & Hr & _)|[E' Hn]].
  - rewrite E' in E. injection E as <- <-. apply (Good_drop s M' res r); [done|done|]. rewrite Hr.
    apply evolve_delete, evolve_refl.
  - rewrite E' in E. injection E as <- <-. apply (Good_call s (mgr s) 0%Z r q q); try done; [apply G|].
    apply evolve_delete, evolve_refl.
Qed.

(** The bucket section of [unlock] runs to its end, and says that the request is released
    exactly when no conversion was to be cancelled. *)
Lemma unlock_bucket_total (M : LockManager) (r : request) (q : LockRequest) (cancel : bool) :
  Inv M -> reqs M !! r = Some q -> pc_ok q (Releasing cancel) ->
  exists M', unlock_bucket r M = Some (negb cancel, M').
Proof.
  intros Hi Hq [Hc Hn]. destruct cancel; cbn in Hc; cbn [negb].
  - destruct Hc as (Hc & [Hs|Hs] & _).
    + destruct (unlock_bucket_cancel M r q Hi Hq Hc Hn Hs) as (res & M' & q' & E & _). by exists M'.
    + destruct (unlock_bucket_ok M r q Hi Hq Hn (or_introl Hs)) as (res & M' & E & _). exists M'. rewrite E.
      by destruct (recursiveCount q); [lia|].
  - destruct Hc as (Hc & Hs).
    destruct (unlock_bucket_ok M r q Hi Hq Hn) as (res & M' & E & _); [tauto|]. exists M'. by rewrite E, Hc.
Qed.

Lemma good_unlock_bucket (s : State) (r : request) (q : LockRequest) (cancel b : bool) (M : LockManager) :
  Good s -> pcs s !! r = Some (Releasing cancel) -> reqs (mgr s) !! r = Some q ->
  unlock_bucket r (mgr s) = Some (b, M) ->
  cancel && negb (bool_decide (status q = STATUS_CONVERTING)) = false ->
  Good (after_unlock r b M (pcs s) (raced s || (cancel && negb (bool_decide (status q = STATUS_CONVERTING))))).
Proof.
  intros G Hpc Hq E Hrace. pose proof (gd_pc _ G r q _ Hq Hpc) as [Hc Hn]. rewrite Hrace.
  destruct cancel; cbn in Hc, Hrace.
  - apply negb_false_iff, bool_decide_eq_true_1 in Hrace. destruct Hc as (Hc & _).
    destruct (unlock_bucket_cancel (mgr s) r q (gd_inv _ G) Hq Hc Hn Hrace)
      as (res & M' & q' & E' & _ & Hi' & Ho & Hq' & Hs' & _ & Hc' & _).
    rewrite E' in E. injection E as <- <-. apply (Good_call s M' res r q q'); try done.
    cbn. rewrite Hs', Hc'. split_and!; [lia|by intros [?|?]|done].
  - destruct Hc as (Hc & Hs).
    destruct (unlock_bucket_ok (mgr s) r q (gd_inv _ G) Hq Hn) as (res & M' & E' & _ & Hi & Ho); [tauto|].
    rewrite E', Hc in E. injection E as <- <-. by apply (Good_drop s M' res r).
Qed.

Lemma Good_same_pc (s : State) (M' : LockManager) (res : ResourceId) (r : request) (q q' : LockRequest) (c : pc) (b : bool) :
  Good s -> Inv M' -> others res r (reqs (mgr s)) (reqs M') -> reqs (mgr s) !! r = Some q ->
  reqs M' !! r = Some q' -> pcs s !! r = Some c -> pc_ok q' c -> Good (mkState M' (pcs s) b).
Proof.
  intros G Hi Ho Hq Hq' Hc Hp. rewrite <- (insert_id (pcs s) r c) by done. by apply (Good_call s M' res r q q').
Qed.

(** A downgrade that succeeds was of a request on a head, to a weaker mode. *)
Lemma downgrade_inv (M M' : LockManager) (r : request) (q : LockRequest) (m : LockMode) :
  reqs M !! r = Some q -> downgrade r m M = Some M' ->
  lockHead q <> None /\ 1 <= recursiveCount q /\ isModeCovered m (mode q) = true.
Proof.
  intros Hq. unfold downgrade. rewrite Hq. cbn [mbind option_bind].
  destruct (lockHead q) as [res|]; [|done]. cbn [mbind option_bind].
  destruct (bool_decide _); [|done]. cbn [invariant mbind option_bind].
  destruct (1 <=? recursiveCount q) eqn:Ec; [|done]. cbn [invariant mbind option_bind].
  destruct (isModeCovered m (mode q)); [|done]. intros _. split_and!; [done|by apply Nat.leb_le|done].
Qed.

Lemma good_downgrade (s : State) (r : request) (q : LockRequest) (m : LockMode) (M : LockManager) :
  Good s -> pcs s !! r = Some Ready -> reqs (mgr s) !! r = Some q -> status q = STATUS_GRANTED -> m <> MODE_NONE ->
  downgrade r m (mgr s) = Some M -> Good (mkState M (pcs s) (raced s)).
Proof.
  intros G Hpc Hq Hs Hm E. destruct (downgrade_inv _ _ _ _ _ Hq E) as (Hlh & Hc & Hcov).
  assert (partitionedLock q = None) as Hn.
  { destruct (partitionedLock q) as [[p res]|] eqn:Ep; [|done]. exfalso.
    pose proof (ro_place _ (iv_reqs _ (gd_inv _ G) _ _ Hq)) as Hpl. unfold place in Hpl. rewrite Ep, Hs in Hpl.
    destruct (lockHead q); [by apply Hpl|done]. }
  destruct (downgrade_ok (mgr s) r q m (gd_inv _ G) Hq Hs Hn Hc Hcov Hm)
    as (res & M' & q' & E' & _ & Hi' & Ho & Hq' & Hs' & _ & Hc').
  rewrite E' in E. injection E as <-. apply (Good_same_pc s M' res r q q' Ready); try done.
  cbn. rewrite Hs', Hc'. split_and!; [lia|by intros [?|?]|done].
Qed.

Lemma good_cleanup (s : State) (res : ResourceId) (M : LockManager) :
  Good s -> cleanup_head res (mgr s) = Some M -> Good (mkState M (pcs s) (raced s)).
Proof.
  intros [G1 G2 G3] E. destruct (heads (mgr s) !! res) as [h|] eqn:Eh.
  2:{ unfold cleanup_head in E. by rewrite Eh in E. }
  destruct (cleanup_head_ok (mgr s) res h G1 Eh) as (M' & E' & Hi' & He & _).
  rewrite E' in E. injection E as <-. split; cbn [mgr pcs]; [done|by rewrite (evolve_dom _ _ _ He)|].
  intros r q' c Hq' Hc. specialize (He r). rewrite Hq' in He. destruct (reqs (mgr s) !! r) as [q|] eqn:Hq; [|done].
  apply (pc_ok_rtc res q); [done|]. by apply (G3 r).
Qed.

Lemma step_raced (s s' : State) : step s s' -> raced s' = false -> raced s = false.
Proof.
  intros H. destruct H; cbn [raced]; try done.
  unfold after_unlock. by destruct released; intros [? _]%orb_false_elim.
Qed.

Lemma step_good (s s' : State) : step s s' -> raced s' = false -> Good s -> Good s'.
Proof.
  intros H Hr G. destruct H.
  - by apply good_new.
  - by eapply good_lock.
  - by eapply good_lock_bucket.
  - by eapply good_convert.
  - by eapply good_convert_bucket.
  - by eapply good_unlock.
  - by apply (good_unlock_partition s r cancel true).
  - by apply (good_unlock_partition s r cancel false).
  - eapply (good_unlock_bucket s r q); try done.
    unfold after_unlock in Hr. by destruct released; apply orb_false_elim in Hr as [_ ?].
  - by eapply good_downgrade.
  - by eapply good_cleanup.
Qed.

Lemma init_good : Good init_state.
Proof.
  split; cbn; [|done|by intros r q c Hq]. split; cbn.
  - by intros r q Hq.
  - intros res. apply (empty_head ∅ res head_initNew); [|done..]. split; try done; try (by apply NoDup_nil).
    all: intros r; split; [set_solver|by intros (q & Hq & _)].
  - intros res. split; [intros r Hr; cbn in Hr; set_solver|done|done].
  - intros p res. split; [by apply NoDup_nil|]. intros r. split; [set_solver|by intros (q & Hq & _)].
  - by intros p res l Hl.
Qed.

Lemma reachable_good (s : State) : reachable s -> raced s = false -> Good s.
Proof.
  intros H. apply (rtc_ind_r (R := step) (fun s => raced s = false -> Good s) init_state); [intros _; apply init_good| |done].
  intros a b _ Hs IH Hr. apply (step_good a b Hs Hr), IH, (step_raced a b Hs Hr).
Qed.

(** ** The interpreter takes steps *)

Lemma ready_inv (r : request) (s : State) (q : LockRequest) :
  ready r s = Some q -> pcs s !! r = Some Ready /\ reqs (mgr s) !! r = Some q.
Proof. unfold ready. destruct (pcs s !! r) as [[]|]; done. Qed.

Lemma invariant_inv (b : bool) (u : unit) : invariant b = Some u -> b = true.
Proof. by destruct b. Qed.

Lemma continue_step (r : request) (c : pc) (s s' : State) :
  pcs s !! r = Some c -> continue_call r c s = Some s' -> step s s'.
Proof.
  intros Hc E. destruct c; cbn [continue_call] in E; [done|..].
  - apply bind_Some in E as ([b M] & E1 & E2). simplify_eq. by eapply step_lock_bucket.
  - apply bind_Some in E as ([b M] & E1 & E2). simplify_eq. by eapply step_convert_bucket.
  - apply bind_Some in E as ([b M] & E1 & E2).
    destruct b; simplify_eq; [by eapply step_unlock_partition|by eapply step_unlock_not_partitioned].
  - apply bind_Some in E as (q & Hq & E). apply bind_Some in E as ([b M] & E1 & E2). simplify_eq.
    by eapply step_unlock_bucket.
Qed.

Lemma exec_step (a : action) (s s' : State) : exec a s = Some s' -> step s s'.
Proof.
  intros E. destruct a; cbn [exec] in E.
  - destruct (reqs (mgr s) !! r) eqn:Er; [done|]. simplify_eq. by apply step_new.
  - apply bind_Some in E as (q & [Hpc Hq]%ready_inv & E).
    apply bind_Some in E as (u & [H1%bool_decide_eq_true_1 H2%bool_decide_eq_true_1]%invariant_inv%andb_prop & E).
    apply bind_Some in E as (M1 & E1 & E). apply bind_Some in E as ([x M2] & E2 & E). simplify_eq.
    by eapply step_lock.
  - apply bind_Some in E as (q & [Hpc Hq]%ready_inv & E).
    apply bind_Some in E as (u & [[H1%bool_decide_eq_true_1 H2%bool_decide_eq_true_1]%andb_prop H3]%invariant_inv%andb_prop & E).
    apply bind_Some in E as ([x M2] & E2 & E). simplify_eq. by eapply step_convert.
  - apply bind_Some in E as (q & [Hpc Hq]%ready_inv & E).
    apply bind_Some in E as (u & H1%invariant_inv%bool_decide_eq_true_1 & E).
    apply bind_Some in E as ([x M2] & E2 & E). simplify_eq. by eapply step_unlock.
  - apply bind_Some in E as (q & [Hpc Hq]%ready_inv & E).
    apply bind_Some in E as (u & [H1%bool_decide_eq_true_1 H2%bool_decide_eq_true_1]%invariant_inv%andb_prop & E).
    apply bind_Some in E as (M2 & E2 & E). simplify_eq. by eapply step_downgrade.
  - apply bind_Some in E as (M2 & E2 & E). simplify_eq. by eapply step_cleanup.
  - apply bind_Some in E as (c & Hc & E). by apply (continue_step r c).
Qed.

Lemma run_reachable (l : list action) (s s' : State) : reachable s -> run l s = Some s' -> reachable s'.
Proof.
  revert s. induction l as [|a l IH]; intros s Hs; cbn [run]; [by intros [= <-]|].
  intros (s1 & H1%exec_step & H2)%bind_Some. apply (IH s1); [|done]. by apply (rtc_r _ s).
Qed.

Lemma run_sample (l : list action) :
  is_Some (run l init_state) -> reachable (default init_state (run l init_state)).
Proof. intros [s Hs]. rewrite Hs. apply (run_reachable l init_state); [apply rtc_refl|done]. Qed.

(** ** Theorems *)

Lemma holds_place (q : LockRequest) (res : ResourceId) :
  holds q res -> place q = Some (InGranted res) \/ exists p, place q = Some (InPartition p res).
Proof.
  intros [Hr Hs]. unfold resource_of in Hr. destruct (place q) as [[res'|res'|p res']|] eqn:Hp; try done; injection Hr as ->.
  - by left.
  - by apply place_inv in Hp as (_ & _ & ?).
  - right. by exists p.
Qed.

Lemma partition_intent (M : LockManager) (r : request) (q : LockRequest) (p : partition) (res : ResourceId) :
  Inv M -> reqs M !! r = Some q -> place q = Some (InPartition p res) ->
  intent (mode q) = true /\ partitions (findOrInsert res M) <> [].
Proof.
  intros Hi Hq Hp. pose proof (place_inv _ _ Hp) as (Ha & _ & _).
  destruct (ro_part _ (iv_reqs _ Hi _ _ Hq) _ _ Ha) as (_ & Hint & _). split; [done|].
  assert (r ∈ part_list (parts M) p res) as Hin by (apply (iv_parts _ Hi p res); by exists q).
  unfold part_list in Hin. destruct (parts M !! (p, res)) as [l|] eqn:El; [|set_solver].
  apply (iv_link _ Hi) in El. intros E. rewrite E in El. set_solver.
Qed.

Lemma intent_compatible (a b : LockMode) : intent a = true -> intent b = true -> incompatible a b = false.
Proof. by destruct a, b. Qed.

Lemma granted_intent (M : LockManager) (r : request) (q : LockRequest) (res : ResourceId) :
  Inv M -> reqs M !! r = Some q -> place q = Some (InGranted res) -> partitions (findOrInsert res M) <> [] ->
  intent (mode q) = true.
Proof.
  intros Hi Hq Hp Hne. pose proof (iv_heads _ Hi res) as Hh. destruct (hi_part _ _ _ Hh Hne) as [_ Hx].
  rewrite (hi_gok _ _ _ Hh) in Hx. apply mask_of_intent in Hx as (H0 & H1 & H2).
  destruct (elim_granted _ _ _ _ _ Hh Hq Hp) as (_ & _ & Hcnt).
  rewrite (hi_gcnt _ _ _ Hh), Hcnt in H0, H1, H2. unfold held in *. destruct (mode q); cbn in *; (done || lia).
Qed.

Lemma Inv_compatible (M : LockManager) (r1 r2 : request) (q1 q2 : LockRequest) (res : ResourceId) :
  Inv M -> reqs M !! r1 = Some q1 -> reqs M !! r2 = Some q2 -> r1 <> r2 -> holds q1 res -> holds q2 res ->
  incompatible (mode q1) (mode q2) = false.
Proof.
  intros Hi Hq1 Hq2 Hne [Hp1|[p1 Hp1]]%holds_place [Hp2|[p2 Hp2]]%holds_place.
  - pose proof (iv_heads _ Hi res) as Hh. apply (hi_compat _ _ _ Hh r1 r2 q1 q2); try done.
    + apply (hi_gmem _ _ _ Hh). by exists q1.
    + apply (hi_gmem _ _ _ Hh). by exists q2.
  - destruct (partition_intent M r2 q2 p2 res Hi Hq2 Hp2) as [H2 Hps]. apply intent_compatible; [|done].
    by apply (granted_intent M r1 q1 res).
  - destruct (partition_intent M r1 q1 p1 res Hi Hq1 Hp1) as [H1 Hps]. apply intent_compatible; [done|].
    by apply (granted_intent M r2 q2 res).
  - apply intent_compatible; [by apply (partition_intent M r1 q1 p1 res)|by apply (partition_intent M r2 q2 p2 res)].
Qed.

(** C1. Mutual exclusion: in every state that an interleaving of the threads reaches without
    the cancellation race, two different requests that hold the same resource, whether on the
    resource's head, waiting there for a conversion, or on a partition, hold it in compatible
    modes. The race is the only interleaving left out: an [unlock] that reads the status
    CONVERTING before it takes the bucket's mutex and finds the conversion granted once it has
    it. *)
Theorem holders_compatible (s : State) (r1 r2 : request) (q1 q2 : LockRequest) (res : ResourceId) :
  reachable s -> raced s = false -> reqs (mgr s) !! r1 = Some q1 -> reqs (mgr s) !! r2 = Some q2 -> r1 <> r2 ->
  holds q1 res -> holds q2 res -> incompatible (mode q1) (mode q2) = false.
Proof. intros Hs Hr. apply Inv_compatible, reachable_good; done. Qed.

Lemma convert_enter_total (M : LockManager) (r : request) (q : LockRequest) (m : LockMode) :
  reqs M !! r = Some q -> status q = STATUS_GRANTED -> 1 <= recursiveCount q ->
  isModeCovered m (mode q) || isModeCovered (mode q) m = true -> exists x, convert_enter r m M = Some x.
Proof.
  intros Hq Hs Hc Hm. unfold convert_enter. rewrite Hq. cbn [mbind option_bind].
  rewrite bool_decide_true, (proj2 (Nat.leb_le _ _) Hc) by done. cbn [invariant mbind option_bind].
  destruct (isModeCovered m (mode q)); [by eexists|]. cbn in Hm. rewrite Hm. by eexists.
Qed.

Lemma unlock_enter_total (M : LockManager) (r : request) (q : LockRequest) :
  reqs M !! r = Some q -> 1 <= recursiveCount q -> exists x, unlock_enter r M = Some x.
Proof.
  intros Hq Hc. unfold unlock_enter. rewrite Hq. cbn [mbind option_bind].
  rewrite (proj2 (Nat.leb_le _ _) Hc). by eexists.
Qed.

(** C5. No [invariant] of the lock manager fails in a run without the cancellation race: in
    every state reached, each section that a thread may run next runs to its end. This covers
    the sections of [lock], [convert] and [unlock] before any mutex is taken, under the
    partition's mutex and under the bucket's, [downgrade] of a request on a head, and the
    clean-up of any head. The last section of [unlock] reports that the request is released
    exactly when the call was not to cancel a conversion; it runs to its end also when it
    comes too late and is about to lose the race. *)
Theorem no_invariant_failure (s : State) :
  reachable s -> raced s = false ->
  (forall r q res m, pcs s !! r = Some Ready -> reqs (mgr s) !! r = Some q -> status q = STATUS_NEW ->
     exists M1 x, lock_enter r m (mgr s) = Some M1 /\ lock_partition res r M1 = Some x) /\
  (forall r res, pcs s !! r = Some (Locking res) -> exists x, lock_bucket res r (mgr s) = Some x) /\
  (forall r q m, pcs s !! r = Some Ready -> reqs (mgr s) !! r = Some q -> status q = STATUS_GRANTED ->
     isModeCovered m (mode q) || isModeCovered (mode q) m = true -> exists x, convert_enter r m (mgr s) = Some x) /\
  (forall r res m, pcs s !! r = Some (Converting res m) -> exists x, convert_bucket res r m (mgr s) = Some x) /\
  (forall r, pcs s !! r = Some Ready -> exists x, unlock_enter r (mgr s) = Some x) /\
  (forall r cancel, pcs s !! r = Some (Unlocking cancel) -> exists x, unlock_partition r (mgr s) = Some x) /\
  (forall r cancel, pcs s !! r = Some (Releasing cancel) -> exists M, unlock_bucket r (mgr s) = Some (negb cancel, M)) /\
  (forall r q m, pcs s !! r = Some Ready -> reqs (mgr s) !! r = Some q -> status q = STATUS_GRANTED ->
     partitionedLock q = None -> isModeCovered m (mode q) = true -> m <> MODE_NONE ->
     exists M, downgrade r m (mgr s) = Some M) /\
  (forall res h, heads (mgr s) !! res = Some h -> exists M, cleanup_head res (mgr s) = Some M).
Proof.
  intros Hs Hnr. pose proof (reachable_good s Hs Hnr) as G. pose proof (gd_inv _ G) as Hi. clear Hs. split_and!.
  - intros r q res m Hpc Hq Hs. destruct (gd_pc _ G r q Ready Hq Hpc) as (_ & Hc & _).
    destruct (lock_enter_ok (mgr s) r q m Hi Hq Hs) as [E Hi1]; [by apply Hc; left|].
    destruct (lock_partition_ok _ res r _ Hi1 (lookup_insert_eq _ _ _) Hs eq_refl) as [E'|(M' & p & E' & _)];
      eexists _, _; (split; [exact E|exact E']).
  - intros r res Hpc. destruct (Good_request _ _ _ G Hpc) as (q & Hq & Hs & Hc & Hm & Hp).
    destruct (lock_bucket_ok (mgr s) res r q Hi Hq Hs Hm Hp) as (x & M' & ? & E & _). by exists (x, M').
  - intros r q m Hpc Hq Hs Hm.
    apply (convert_enter_total _ _ q); [done|done|apply (gd_pc _ G r q Ready Hq Hpc)|done].
  - intros r res m Hpc. destruct (Good_request _ _ _ G Hpc) as (q & Hq & Hs & Hc & Hr & Hcov & Hncov).
    destruct (convert_bucket_ok (mgr s) res r q m Hi Hq Hs Hr Hcov Hncov) as (x & M' & ? & E & _). by exists (x, M').
  - intros r Hpc. destruct (Good_request _ _ _ G Hpc) as (q & Hq & Hc & _). by apply (unlock_enter_total _ _ q).
  - intros r cancel Hpc. destruct (Good_request _ _ _ G Hpc) as (q & Hq & Hc).
    destruct (unlock_partition_ok (mgr s) r q Hi Hq (unlocking_not_new _ _ Hc)) as [(M' & res & E & _)|[E _]]; by eexists.
  - intros r cancel Hpc. destruct (Good_request _ _ _ G Hpc) as (q & Hq & Hc).
    by apply (unlock_bucket_total _ _ q).
  - intros r q m Hpc Hq Hs Hn Hcov Hm. destruct (gd_pc _ G r q Ready Hq Hpc) as (Hc & _).
    destruct (downgrade_ok (mgr s) r q m Hi Hq Hs Hn Hc Hcov Hm) as (res & M' & q' & E & _). by exists M'.
  - intros res h Hh. destruct (cleanup_head_ok (mgr s) res h Hi Hh) as (M' & E & _). by exists M'.
Qed.

(** C6. Nobody waits for nothing: in every state reached without the cancellation race, and
    for every head, a request whose conversion is pending conflicts with another request of
    the granted queue; the request at the front of the conflict queue, unless it was put there
    with [enqueueAtFront], conflicts with the granted queue; and while there are waiting
    requests some request is granted, whose release will look at the queue again. A front
    request with [enqueueAtFront] set is exempt: it may be compatible with everything granted
    and still wait for the next release. *)
Theorem nobody_waits_for_nothing (s : State) (res : ResourceId) (h : LockHead) :
  reachable s -> raced s = false -> heads (mgr s) !! res = Some h ->
  (forall r q, r ∈ grantedList h -> reqs (mgr s) !! r = Some q -> status q = STATUS_CONVERTING ->
     clash (reqs (mgr s)) (without r (grantedList h)) (convertMode q)) /\
  (forall r q, head (conflictList h) = Some r -> reqs (mgr s) !! r = Some q ->
     enqueueAtFront q = true \/ clash (reqs (mgr s)) (grantedList h) (mode q)) /\
  (conflictList h <> [] -> grantedList h <> []).
Proof.
  intros Hs Hr Hh. pose proof (iv_live _ (gd_inv _ (reachable_good s Hs Hr)) res) as [H1 H2 H3].
  unfold findOrInsert in *. rewrite Hh in *. split_and!; [|done|done]. intros r q Hq. by apply H1.
Qed.

(** C35. The bookkeeping of every head agrees with its queues in every state reached without
    the cancellation race: the granted count of a mode is the number of granted requests in it
    plus the number converting to it, the conflict count the number of requests waiting for
    it; each bit mask has exactly the bits of the modes with a positive count; the two
    counters count the converting and the compatible-first requests; and the queues have no
    duplicates and hold exactly the requests whose own fields say so. *)
Theorem head_in_sync (s : State) (res : ResourceId) (h : LockHead) :
  reachable s -> raced s = false -> heads (mgr s) !! res = Some h ->
  (forall m, counts (granted h) m = countl (held m) (reqs (mgr s)) (grantedList h) /\
             counts (conflict h) m = countl (wanted m) (reqs (mgr s)) (conflictList h) /\
             (Z.land (mask (granted h)) (modeMask m) = 0%Z <-> counts (granted h) m = 0) /\
             (Z.land (mask (conflict h)) (modeMask m) = 0%Z <-> counts (conflict h) m = 0)) /\
  conversionsCount h = countl converting (reqs (mgr s)) (grantedList h) /\
  compatibleFirstCount h = countl compat_first (reqs (mgr s)) (grantedList h) /\
  NoDup (grantedList h) /\ NoDup (conflictList h) /\
  (forall r, r ∈ grantedList h <-> at_place (reqs (mgr s)) r (InGranted res)) /\
  (forall r, r ∈ conflictList h <-> at_place (reqs (mgr s)) r (InWaiting res)).
Proof.
  intros Hs Hr Hh. pose proof (iv_heads _ (gd_inv _ (reachable_good s Hs Hr)) res) as H.
  unfold findOrInsert in H. rewrite Hh in H. cbn in H.
  assert (forall g m, modes_ok g -> Z.land (mask g) (modeMask m) = 0%Z <-> counts g m = 0) as Hbit.
  { intros g m ->. rewrite mask_of_bit. destruct (Nat.ltb_spec 0 (counts g m)); split; try lia; by destruct m. }
  destruct H. split_and!; try done. intros m. split_and!; try done; by apply Hbit.
Qed.

(** A run: three readers, one of which wants to write, and a writer that waits. *)
Definition sample_actions : list action :=
  [ANew 1 1 false false; ALock 1 7 MODE_S; AContinue 1;
   ANew 2 2 false false; ALock 2 7 MODE_IS; AContinue 2;
   AConvert 2 7 MODE_S; AContinue 2;
   AConvert 2 7 MODE_X; AContinue 2;
   ANew 3 3 false false; ALock 3 7 MODE_X; AContinue 3;
   ANew 4 4 false false; ALock 4 9 MODE_IX; AContinue 4].

Definition sample : State := default init_state (run sample_actions init_state).

Lemma sample_reachable : reachable sample.
Proof. apply run_sample. vm_compute. eauto. Qed.

Lemma sample_calm : raced sample = false.
Proof. vm_compute. reflexivity. Qed.

Definition sample_request (r : request) : LockRequest := default (initNew 0) (reqs (mgr sample) !! r).
Definition sample_head (res : ResourceId) : LockHead := findOrInsert res (mgr sample).

Lemma sample_lookup (r : request) : r = 1 \/ r = 2 \/ r = 3 \/ r = 4 -> reqs (mgr sample) !! r = Some (sample_request r).
Proof. intros [->|[->|[->| ->]]]; vm_compute; reflexivity. Qed.

Lemma sample_head_lookup : heads (mgr sample) !! 7%Z = Some (sample_head 7).
Proof. vm_compute. reflexivity. Qed.

Lemma holders_compatible_witness :
  holds (sample_request 1) 7 /\ holds (sample_request 2) 7 /\
  incompatible (mode (sample_request 1)) (mode (sample_request 2)) = false.
Proof.
  split; [split; [vm_compute; reflexivity|vm_compute; discriminate]|].
  split; [split; [vm_compute; reflexivity|vm_compute; discriminate]|].
  apply (holders_compatible sample 1 2 _ _ 7 sample_reachable sample_calm).
  - apply sample_lookup. auto.
  - apply sample_lookup. auto.
  - lia.
  - split; [vm_compute; reflexivity|vm_compute; discriminate].
  - split; [vm_compute; reflexivity|vm_compute; discriminate].
Defined.

(** The second request is about to cancel its conversion. *)
Definition cancel_sample : State :=
  default init_state (run (sample_actions ++ [AUnlock 2; AContinue 2]) init_state).

Lemma no_invariant_failure_witness :
  pcs cancel_sample !! 2 = Some (Releasing true) /\
  exists M, unlock_bucket 2 (mgr cancel_sample) = Some (negb true, M).
Proof.
  split; [vm_compute; reflexivity|].
  assert (reachable cancel_sample) as Hs by (apply run_sample; vm_compute; eauto).
  assert (raced cancel_sample = false) as Hr by (vm_compute; reflexivity).
  destruct (no_invariant_failure cancel_sample Hs Hr) as (_ & _ & _ & _ & _ & _ & H & _).
  apply (H 2 true). vm_compute. reflexivity.
Defined.

Lemma nobody_waits_for_nothing_witness :
  conflictList (sample_head 7) = [3] /\ grantedList (sample_head 7) = [1; 2] /\
  clash (reqs (mgr sample)) (without 2 (grantedList (sample_head 7))) (convertMode (sample_request 2)) /\
  clash (reqs (mgr sample)) (grantedList (sample_head 7)) (mode (sample_request 3)).
Proof.
  split; [vm_compute; reflexivity|]. split; [vm_compute; reflexivity|].
  destruct (nobody_waits_for_nothing sample 7 (sample_head 7) sample_reachable sample_calm sample_head_lookup) as (H1 & H2 & _).
  split.
  - apply H1; [apply (bool_decide_unpack _); vm_compute; exact I|apply sample_lookup; auto|vm_compute; reflexivity].
  - destruct (H2 3 (sample_request 3)) as [H|H]; [vm_compute; reflexivity|apply sample_lookup; auto| |exact H].
    vm_compute in H. discriminate.
Defined.

Lemma head_in_sync_witness :
  heads (mgr sample) !! 7%Z = Some (sample_head 7) /\ mask (granted (sample_head 7)) = 24%Z /\
  conversionsCount (sample_head 7) = countl converting (reqs (mgr sample)) (grantedList (sample_head 7)).
Proof.
  split; [exact sample_head_lookup|]. split; [vm_compute; reflexivity|].
  apply (head_in_sync sample 7 (sample_head 7) sample_reachable sample_calm sample_head_lookup).
Defined.

(** Without compatible-first requests in the queue, the loop over the conflict queue grants
    a prefix of it. *)
Lemma grant_waiting_prefix (l : list request) (h h' : LockHead) (rq rq' : requests) (n n' : list request) :
  conflictList h = l -> NoDup l ->
  (forall r q, r ∈ l -> rq !! r = Some q -> compatibleFirst q = false) ->
  grant_waiting l false h rq n = Some (h', rq', n') ->
  exists k, conflictList h' = drop k l /\ grantedList h' = grantedList h ++ take k l /\ n' = n ++ take k l.
Proof.
  revert h rq n. induction l as [|r l IH]; intros h rq n Hl Hnd Hf E; cbn [grant_waiting] in E.
  { injection E as <- _ <-. exists 0. by rewrite !app_nil_r. }
  apply NoDup_cons in Hnd as [Hr Hnd]. apply bind_Some in E as (q & Hq & E). apply bind_Some in E as (u & _ & E).
  destruct (conflicts _ _).
  { rewrite Hl, bool_decide_true in E by done. cbn in E. injection E as <- _ <-. exists 0. by rewrite !app_nil_r. }
  apply bind_Some in E as (c & _ & E). apply bind_Some in E as (g & _ & E). cbn [mode set_status compatibleFirst] in E.
  assert (compatibleFirst q = false) as Hc by (apply (Hf r); [set_solver|done]). rewrite Hc in E. cbn [andb orb] in E.
  destruct (bool_decide (mode q = MODE_X)).
  { injection E as <- _ <-. exists 1. cbn [conflictList grantedList]. rewrite Hl, without_cons by done. done. }
  apply IH in E as (k & H1 & H2 & H3).
  - exists (S k). cbn [drop take]. cbn [grantedList] in H2. rewrite H1, H2, H3, <- !app_assoc. done.
  - cbn [conflictList]. rewrite Hl. by apply without_cons.
  - done.
  - intros x y Hx Hy. rewrite lookup_insert_ne in Hy by (intros ->; done). apply (Hf x); [set_solver|done].
Qed.

(** Waiting requests are granted first come, first served: when the conflict queue of a
    consistent head is looked at and no waiting request asks for the compatible-first policy,
    the requests granted are exactly a prefix of the queue, moved in order to the end of the
    granted queue, and the request now at the front conflicts with what is granted. *)
Lemma wakeups_are_fifo (rq : requests) (res : ResourceId) (h : LockHead) :
  head_inv rq res h -> reqs_ok rq ->
  (forall r q, r ∈ conflictList h -> rq !! r = Some q -> compatibleFirst q = false) ->
  exists h' rq' n k, _onLockModeChanged h rq true = Some (h', rq', n) /\
    conflictList h' = drop k (conflictList h) /\ grantedList h' = grantedList h ++ take k (conflictList h) /\
    (forall r q, head (conflictList h') = Some r -> rq' !! r = Some q -> clash rq' (grantedList h') (mode q)).
Proof.
  intros H Hok Hf. unfold _onLockModeChanged.
  destruct (grant_conversions_ok res (grantedList h) h rq [] H Hok) as (h1 & rq1 & n1 & -> & H1); [auto..|].
  cbn [mbind option_bind]. pose proof (evolve_ok _ _ _ (cd_evolve _ _ _ _ _ H1) Hok) as Hok1.
  destruct (grant_waiting_ok res (conflictList h1) [] false h1 rq1 n1) as (h2 & rq2 & n2 & E2 & H2);
    [apply H1|done|done|set_solver|done|apply H1|].
  rewrite E2. cbn [mbind option_bind].
  destruct (sanity_checks _ _ _ (wd_inv _ _ _ _ _ H2)) as [-> ->]. cbn [invariant mbind option_bind].
  apply grant_waiting_prefix in E2 as (k & Hk1 & Hk2 & _); [|done|apply (cd_inv _ _ _ _ _ H1)|].
  - exists h2, rq2, n2, k. rewrite Hk1, Hk2, (cd_waiting _ _ _ _ _ H1), (cd_granted _ _ _ _ _ H1).
    split_and!; [done..|]. intros r q Hr Hq.
    pose proof (wd_front _ _ _ _ _ H2 r q) as Hfr. rewrite Hk1, Hk2, (cd_waiting _ _ _ _ _ H1), (cd_granted _ _ _ _ _ H1) in Hfr.
    by apply Hfr.
  - rewrite (cd_waiting _ _ _ _ _ H1). intros r q Hr Hq. apply (Hf r); [done|].
    rewrite (cd_other _ _ _ _ _ H1) in Hq; [done|]. intros (x & Hx & Hpx)%(hi_gmem _ _ _ H).
    apply (hi_cmem _ _ _ H) in Hr as (y & Hy & Hpy). congruence.
Qed.

(** An exclusive request is granted; behind it wait, in this order, requests for IS, IS, X,
    X, S and IS. *)
Definition queue_actions : list action :=
  [ANew 1 1 false false; ALock 1 7 MODE_X; AContinue 1;
   ANew 2 2 false false; ALock 2 7 MODE_IS; AContinue 2; ANew 3 3 false false; ALock 3 7 MODE_IS; AContinue 3;
   ANew 4 4 false false; ALock 4 7 MODE_X; AContinue 4; ANew 5 5 false false; ALock 5 7 MODE_X; AContinue 5;
   ANew 6 6 false false; ALock 6 7 MODE_S; AContinue 6; ANew 7 7 false false; ALock 7 7 MODE_IS; AContinue 7].

Definition queue_state : State := default init_state (run queue_actions init_state).

(** On the example of the comment in [_onLockModeChanged] (an X lock is freed and IS, IS,
    X, X, S, IS wait), only the two leading IS requests are granted and the later S and IS
    requests go on waiting behind the first X; the comment says that all the IS and S requests
    are granted. *)
Lemma comment_example_is_fifo :
  exists M, unlock 1 (mgr queue_state) = Some (true, M) /\ notified M = [(2, 7%Z); (3, 7%Z)] /\
    grantedList (findOrInsert 7 M) = [2; 3] /\ conflictList (findOrInsert 7 M) = [4; 5; 6; 7].
Proof.
  exists (default (mgr init_state) (snd <$> unlock 1 (mgr queue_state))). vm_compute. by split_and!.
Qed.

(** Two requests share a resource and the second waits to convert to X. Its thread enters
    [unlock] to cancel the conversion; before it takes the bucket's mutex the first request is
    released, which grants the conversion. Then a third request asks for X. *)
Definition race_actions : list action :=
  [ANew 1 1 false false; ALock 1 7 MODE_S; AContinue 1;
   ANew 2 2 false false; ALock 2 7 MODE_S; AContinue 2;
   AConvert 2 7 MODE_X; AContinue 2;
   AUnlock 2; AUnlock 1; AContinue 1; AContinue 1; AContinue 2; AContinue 2;
   ANew 3 3 false false; ALock 3 7 MODE_X; AContinue 3].

Definition race_state : State := default init_state (run race_actions init_state).

(** Cancelling a conversion is not safe against a concurrent release. [unlock] of a
    converting request decrements the recursive count and reads the status before it takes
    the bucket's mutex. If another thread's [unlock] grants the conversion in between, the
    bucket section treats the request as a plain holder and takes it off the granted queue
    although its recursive count is still 1: the locker still holds X, and a third request is
    then granted X as well. *)
Theorem cancel_conversion_race :
  reachable race_state /\ raced race_state = true /\
  exists q2 q3, reqs (mgr race_state) !! 2 = Some q2 /\ reqs (mgr race_state) !! 3 = Some q3 /\
    holds q2 7 /\ mode q2 = MODE_X /\ recursiveCount q2 = 1 /\ pcs race_state !! 2 = Some Ready /\
    holds q3 7 /\ mode q3 = MODE_X.
Proof.
  split; [apply run_sample; vm_compute; eauto|]. split; [vm_compute; reflexivity|].
  exists (default (initNew 0) (reqs (mgr race_state) !! 2)), (default (initNew 0) (reqs (mgr race_state) !! 3)).
  unfold holds. split_and!; (vm_compute; first [reflexivity|discriminate]).
Qed.

(** The compatibility matrix documented at [LockMode]. *)
Definition documented_compatible (requested existing : LockMode) : bool :=
  match requested, existing with
  | MODE_NONE, _ | _, MODE_NONE => true
  | MODE_IS, (MODE_IS | MODE_IX | MODE_S) => true
  | MODE_IX, (MODE_IS | MODE_IX) => true
  | MODE_S, (MODE_IS | MODE_S) => true
  | _, _ => false
  end.

(** The conflict table is the documented compatibility matrix, [conflicts] with a mask is
    conflict with one of the modes whose bit is set, and [isModeCovered] is inclusion of
    conflict sets: a mode is covered exactly when whatever conflicts with it conflicts with
    the covering mode. *)
Lemma conflict_table_documented (a b : LockMode) (c : LockMode -> nat) :
  conflicts a (modeMask b) = negb (documented_compatible a b) /\
  (conflicts a (mask_of c) = true <-> exists m, 0 < c m /\ documented_compatible a m = false) /\
  (isModeCovered a b = true <->
     forall m, documented_compatible m a = false -> documented_compatible m b = false).
Proof.
  assert (forall m m', incompatible m m' = negb (documented_compatible m m')) as Hd by (by intros [] []).
  split_and!; [apply Hd| |].
  - rewrite conflicts_mask_of. split; intros (m & H1 & H2); exists m.
    + rewrite Hd in H1. split; [done|]. by destruct (documented_compatible a m).
    + rewrite Hd, H2. done.
  - split.
    + intros Hc m. by destruct a, b, m.
    + intros H. pose proof (H MODE_IS). pose proof (H MODE_IX). pose proof (H MODE_S). pose proof (H MODE_X).
      destruct a, b; try done; cbn in *; intuition discriminate.
Qed.

End LockSys.
