(* ===== verification/Coalescer.v ===== *)
(** * The config server's query coalescer

    [ConfigQueryCoalescer] of [db/s/config/config_query_coalescer.cpp], which [find_cmd.cpp]
    puts in front of the queries on [config.chunks]: concurrent requests for one namespace
    are answered by one query of a leader. A call of [tryCoalesce] is a thread that moves
    through the sections between taking and releasing the mutex; what it does while it does
    not hold the mutex (the query itself, the wait) is where other threads and the clock move.
    The query function is the caller's and not under test: what it returns is chosen by the
    environment, and it may throw. Counters and generations are natural numbers, exact below
    2^64. *)
From S2P Require Import Prelude Bson DottedPath.

Module Coal.
Local Open Scope nat_scope.

Abbreviation thread := nat.
Abbreviation namespace := bytes.

Record Config := mkConfig {
  coalescingWindow : Z;
  maxWaitTime : Z;
  maxTotalWaitTime : Z;
  maxWaitersPerGroup : nat;
  maxVersionGap : Z }.

Definition default_config : Config := mkConfig 5 100 15000 1000 500.

Record Stats := mkStats {
  totalRequests : nat;
  actualQueries : nat;
  coalescedRequests : nat;
  timeoutRequests : nat;
  overflowRequests : nat;
  versionGapSkippedRequests : nat;
  activeGroups : nat }.

Definition no_stats : Stats := mkStats 0 0 0 0 0 0 0.

Inductive error := ShutdownInProgress | ExceededTimeLimit | QueryFailed (code : Z).

Section coalescer.
(** The documents the queries return. *)
Context {doc : Type}.

(** [StatusWith<std::vector<BSONObj>>]. *)
Inductive response := Docs (l : list doc) | Failed (e : error).

Record WaiterState := mkWaiter { result : option (list doc); wstatus : option error; done : bool }.

Record CoalescingGroup := mkGroup {
  generation : nat;
  minVersion : Z;
  maxVersion : Z;
  queryInProgress : bool;
  queryCompleted : bool;
  waiters : list (thread * Z) }.

(** Where a call of [tryCoalesce] is. *)
Inductive pc :=
| Arrived (ns : namespace) (version : Z)
| Leading (ns : namespace) (gen : nat)
| Finishing (ns : namespace) (gen : nat) (r : response)
| Alone
| Waiting (ns : namespace) (version : Z) (gen : nat) (start until : Z)
| Woken (ns : namespace) (version : Z) (gen : nat)
| Promoted (ns : namespace) (gen : nat)
| PromotedFinishing (ns : namespace) (gen : nat) (r : response)
| Returned (r : response)
| ThrewLeading (ns : namespace) (gen : nat)
| Threw.

(** The coalescer, its callers and the clock; [history] records the results the groups were
    given: the generation, the namespace, the version of the group's first request, and the
    result. *)
Record State := mkState {
  groups : gmap namespace CoalescingGroup;
  nextGeneration : nat;
  states : gmap thread WaiterState;
  stats : Stats;
  shut : bool;
  now : Z;
  pcs : gmap thread pc;
  history : list (nat * namespace * Z * response) }.

Definition fresh_waiter : WaiterState := mkWaiter None None false.

Definition set_pc (t : thread) (c : pc) (s : State) : State :=
  mkState (groups s) (nextGeneration s) (states s) (stats s) (shut s) (now s) (<[t := c]> (pcs s)) (history s).
Definition set_stats (x : Stats) (s : State) : State :=
  mkState (groups s) (nextGeneration s) (states s) x (shut s) (now s) (pcs s) (history s).
Definition set_group (ns : namespace) (g : CoalescingGroup) (s : State) : State :=
  mkState (<[ns := g]> (groups s)) (nextGeneration s) (states s) (stats s) (shut s) (now s) (pcs s) (history s).

(** *** Statistics *)

Definition count_total (x : Stats) : Stats :=
  mkStats (S (totalRequests x)) (actualQueries x) (coalescedRequests x) (timeoutRequests x) (overflowRequests x)
    (versionGapSkippedRequests x) (activeGroups x).
Definition count_coalesced (x : Stats) : Stats :=
  mkStats (totalRequests x) (actualQueries x) (S (coalescedRequests x)) (timeoutRequests x) (overflowRequests x)
    (versionGapSkippedRequests x) (activeGroups x).
Definition count_timeout (x : Stats) : Stats :=
  mkStats (totalRequests x) (actualQueries x) (coalescedRequests x) (S (timeoutRequests x)) (overflowRequests x)
    (versionGapSkippedRequests x) (activeGroups x).
Definition count_overflow (x : Stats) : Stats :=
  mkStats (totalRequests x) (S (actualQueries x)) (coalescedRequests x) (timeoutRequests x) (S (overflowRequests x))
    (versionGapSkippedRequests x) (activeGroups x).
Definition count_gap (x : Stats) : Stats :=
  mkStats (totalRequests x) (S (actualQueries x)) (coalescedRequests x) (timeoutRequests x) (overflowRequests x)
    (S (versionGapSkippedRequests x)) (activeGroups x).
Definition count_active (n : nat) (x : Stats) : Stats :=
  mkStats (totalRequests x) (actualQueries x) (coalescedRequests x) (timeoutRequests x) (overflowRequests x)
    (versionGapSkippedRequests x) n.
Definition count_query (n : nat) (x : Stats) : Stats :=
  mkStats (totalRequests x) (S (actualQueries x)) (coalescedRequests x) (timeoutRequests x) (overflowRequests x)
    (versionGapSkippedRequests x) n.

(** *** The sections of [tryCoalesce] *)

(** The shutdown check, the counter, and the waiter state. *)
Definition arrive (t : thread) (ns : namespace) (version : Z) (s : State) : State :=
  if shut s then set_pc t (Returned (Failed ShutdownInProgress)) s
  else
    let s := set_stats (count_total (stats s)) s in
    mkState (groups s) (nextGeneration s) (<[t := fresh_waiter]> (states s)) (stats s) (shut s) (now s)
      (<[t := Arrived ns version]> (pcs s)) (history s).

(** Case 1: no group. *)
Definition lead (t : thread) (ns : namespace) (version : Z) (s : State) : State :=
  let gen := S (nextGeneration s) in
  let g := mkGroup gen version version true false [(t, version)] in
  let gs := <[ns := g]> (groups s) in
  mkState gs gen (states s) (count_active (size gs) (stats s)) (shut s) (now s) (<[t := Leading ns gen]> (pcs s))
    (history s).

(** The top of the wait loop, at time [now]. *)
Definition remove_waiter (t : thread) (g : CoalescingGroup) : CoalescingGroup :=
  mkGroup (generation g) (minVersion g) (maxVersion g) (queryInProgress g) (queryCompleted g)
    (filter (fun w => w.1 <> t) (waiters g)).

Definition leave_group (t : thread) (ns : namespace) (gen : nat) (s : State) : State :=
  match groups s !! ns with
  | Some g => if generation g =? gen then set_group ns (remove_waiter t g) s else s
  | None => s
  end.

Definition loop_top (cfg : Config) (t : thread) (ns : namespace) (version : Z) (gen : nat) (start : Z) (s : State) : State :=
  let elapsed := (now s - start)%Z in
  if (maxTotalWaitTime cfg <=? elapsed)%Z then
    let s := leave_group t ns gen s in
    set_pc t (Returned (Failed ExceededTimeLimit)) (set_stats (count_timeout (stats s)) s)
  else
    let remaining := (maxTotalWaitTime cfg - elapsed)%Z in
    set_pc t (Waiting ns version gen start (now s + Z.min (maxWaitTime cfg) remaining)%Z) s.

(** Case 2: a group exists. *)
Definition join (cfg : Config) (t : thread) (ns : namespace) (version : Z) (g : CoalescingGroup) (s : State) : State :=
  let newMin := Z.min (minVersion g) version in
  let newMax := Z.max (maxVersion g) version in
  if (maxVersionGap cfg <? newMax - newMin)%Z then set_pc t Alone (set_stats (count_gap (stats s)) s)
  else if maxWaitersPerGroup cfg <=? length (waiters g) then
    set_pc t Alone (set_stats (count_overflow (stats s)) s)
  else
    let g := mkGroup (generation g) (minVersion g) (maxVersion g) (queryInProgress g) (queryCompleted g)
               (waiters g ++ [(t, version)]) in
    let s := set_stats (count_coalesced (stats s)) (set_group ns g s) in
    loop_top cfg t ns version (generation g) (now s) s.

(** What the first section under the mutex does. *)
Definition enter (cfg : Config) (t : thread) (ns : namespace) (version : Z) (s : State) : State :=
  match groups s !! ns with
  | None => lead t ns version s
  | Some g => join cfg t ns version g s
  end.

(** The result is stored for every waiter of the group. *)
Definition delivered (r : response) : WaiterState :=
  match r with
  | Docs l => mkWaiter (Some l) None true
  | Failed e => mkWaiter None (Some e) true
  end.

Definition distribute (r : response) (g : CoalescingGroup) (ws : gmap thread WaiterState) : gmap thread WaiterState :=
  foldl (fun ws w => <[w.1 := delivered r]> ws) ws (waiters g).

(** The group's query has completed: distribute and erase the group, if it is still there. *)
Definition complete (ns : namespace) (gen : nat) (r : response) (s : State) : State :=
  match groups s !! ns with
  | Some g =>
      if generation g =? gen then
        let gs := delete ns (groups s) in
        mkState gs (nextGeneration s) (distribute r g (states s)) (count_query (size gs) (stats s)) (shut s) (now s)
          (pcs s) (history s ++ [(gen, ns, minVersion g, r)])
      else s
  | None => s
  end.

(** A caller reads its own waiter state. *)
Definition read_state (w : WaiterState) : response :=
  match wstatus w, result w with
  | Some e, _ => Failed e
  | None, Some l => Docs l
  | None, None => Docs []
  end.
(** The caller wakes up in [wait_for]: the predicate holds, or the time is over. *)
Definition wake (cfg : Config) (t : thread) (ns : namespace) (version : Z) (gen : nat) (start until : Z) (s : State) : option State :=
  w ← states s !! t;
  if shut s || done w then Some (set_pc t (Woken ns version gen) s)
  else if (until <=? now s)%Z then
    match groups s !! ns with
    | Some g =>
        if (generation g =? gen) && negb (queryInProgress g) && negb (queryCompleted g) then
          let g := mkGroup (generation g) (minVersion g) (maxVersion g) true (queryCompleted g) (waiters g) in
          Some (set_pc t (Promoted ns gen) (set_group ns (remove_waiter t g) s))
        else Some (loop_top cfg t ns version gen start s)
    | None => Some (loop_top cfg t ns version gen start s)
    end
  else None.

(** After the query of a leader; [own] is what it returns when there was no shutdown. *)
Definition finish (t : thread) (ns : namespace) (gen : nat) (r : response) (own : State -> response) (s : State) : State :=
  if shut s then set_pc t (Returned (Failed ShutdownInProgress)) s
  else let s := complete ns gen r s in set_pc t (Returned (own s)) s.

(** A promoted leader returns the variable its result has been moved from. *)
Definition moved_from (ns : namespace) (gen : nat) (r : response) (s : State) : response :=
  match groups s !! ns, r with
  | Some g, Docs _ => if generation g =? gen then Docs [] else r
  | _, _ => r
  end.

Definition shutdown_waiter (w : WaiterState) : WaiterState := mkWaiter (result w) (Some ShutdownInProgress) true.

Definition shutdown (s : State) : State :=
  let ts := flat_map (fun p => (waiters p.2).*1) (map_to_list (groups s)) in
  mkState ∅ (nextGeneration s) (foldl (fun ws t => alter shutdown_waiter t ws) (states s) ts) (stats s) true (now s)
    (pcs s) (history s).

Definition resetStats (s : State) : State := set_stats no_stats s.

(** *** The transition system *)

Inductive event :=
| Arrive (t : thread) (ns : namespace) (version : Z)
| Enter (t : thread)
| QueryReturns (t : thread) (r : response)
| QueryThrows (t : thread)
| Finish (t : thread)
| Wake (t : thread)
| Settle (t : thread)
| Tick (d : Z)
| ResetStats
| Shutdown.

Definition state_of (t : thread) (s : State) : WaiterState := default fresh_waiter (states s !! t).

Definition exec (cfg : Config) (e : event) (s : State) : option State :=
  match e with
  | Arrive t ns version =>
      match pcs s !! t with None => Some (arrive t ns version s) | Some _ => None end
  | Enter t =>
      match pcs s !! t with Some (Arrived ns version) => Some (enter cfg t ns version s) | _ => None end
  | QueryReturns t r =>
      match pcs s !! t with
      | Some (Leading ns gen) => Some (set_pc t (Finishing ns gen r) s)
      | Some (Promoted ns gen) => Some (set_pc t (PromotedFinishing ns gen r) s)
      | Some Alone => Some (set_pc t (Returned r) s)
      | _ => None
      end
  | QueryThrows t =>
      match pcs s !! t with
      | Some (Leading ns gen) => Some (set_pc t (ThrewLeading ns gen) s)
      | Some (Promoted _ _) | Some Alone => Some (set_pc t Threw s)
      | _ => None
      end
  | Finish t =>
      match pcs s !! t with
      | Some (Finishing ns gen r) => Some (finish t ns gen r (fun s => read_state (state_of t s)) s)
      | Some (PromotedFinishing ns gen r) => Some (finish t ns gen r (fun _ => moved_from ns gen r s) s)
      | _ => None
      end
  | Wake t =>
      match pcs s !! t with Some (Waiting ns version gen start until) => wake cfg t ns version gen start until s | _ => None end
  | Settle t =>
      match pcs s !! t with
      | Some (Woken _ _ _) =>
          Some (set_pc t (Returned (if shut s then Failed ShutdownInProgress else read_state (state_of t s))) s)
      | _ => None
      end
  | Tick d =>
      if (0 <=? d)%Z then
        Some (mkState (groups s) (nextGeneration s) (states s) (stats s) (shut s) (now s + d)%Z (pcs s) (history s))
      else None
  | ResetStats => Some (resetStats s)
  | Shutdown => Some (shutdown s)
  end.

Definition init_state : State := mkState ∅ 0 ∅ no_stats false 0 ∅ [].

Definition step (cfg : Config) (s s' : State) : Prop := exists e, exec cfg e s = Some s'.
Definition reachable (cfg : Config) (s : State) : Prop := rtc (step cfg) init_state s.

Fixpoint run (cfg : Config) (l : list event) (s : State) : option State :=
  match l with
  | [] => Some s
  | e :: l => s ← exec cfg e s; run cfg l s
  end.

(** ** The invariant *)

Context (cfg : Config).

(** The thread of a group's leader is executing the query, or its query threw. *)
Definition leads (c : pc) (ns : namespace) (gen : nat) : Prop :=
  c = Leading ns gen \/ (exists r, c = Finishing ns gen r) \/ c = ThrewLeading ns gen.

Definition close (v v' : Z) : Prop := (Z.abs (v - v') <= maxVersionGap cfg)%Z.

Record group_ok (s : State) (ns : namespace) (g : CoalescingGroup) : Prop := {
  go_gen : 1 <= generation g <= nextGeneration s;
  go_ver : maxVersion g = minVersion g;
  go_members : exists tl rest, waiters g = (tl, minVersion g) :: rest /\
    (exists c, pcs s !! tl = Some c /\ leads c ns (generation g)) /\
    forall t v, (t, v) ∈ rest -> close v (minVersion g) /\
      exists start until, pcs s !! t = Some (Waiting ns v (generation g) start until);
  go_nd : NoDup (waiters g).*1;
  go_undone : forall t v, (t, v) ∈ waiters g -> exists w, states s !! t = Some w /\ done w = false;
  go_len : length (waiters g) <= Nat.max 1 (maxWaitersPerGroup cfg) }.

(** The waiter's state is what the group's query returned. *)
Definition answered (s : State) (ns : namespace) (v : Z) (gen : nat) (w : WaiterState) : Prop :=
  exists vl r, (gen, ns, vl, r) ∈ history s /\ w = delivered r /\ close v vl.

Definition in_group (s : State) (t : thread) (ns : namespace) (gen : nat) (v : Z) : Prop :=
  exists g, groups s !! ns = Some g /\ generation g = gen /\ (t, v) ∈ waiters g.

Definition pc_ok (s : State) (t : thread) (c : pc) : Prop :=
  match c with
  | Arrived _ _ => exists w, states s !! t = Some w /\ (shut s = true \/ w = fresh_waiter)
  | Leading ns gen | Finishing ns gen _ | ThrewLeading ns gen => shut s = true \/ exists v, in_group s t ns gen v
  | Waiting ns v gen start until =>
      (start <= now s)%Z /\ (until <= start + maxTotalWaitTime cfg)%Z /\
      exists w, states s !! t = Some w /\
        (shut s = true \/ if done w then answered s ns v gen w else in_group s t ns gen v)
  | Woken ns v gen => exists w, states s !! t = Some w /\ (shut s = true \/ answered s ns v gen w)
  | Promoted _ _ | PromotedFinishing _ _ _ => False
  | Alone | Returned _ | Threw => True
  end.

Record Inv (s : State) : Prop := {
  iv_flags : forall ns g, groups s !! ns = Some g -> queryInProgress g = true /\ queryCompleted g = false;
  iv_groups : shut s = false -> forall ns g, groups s !! ns = Some g -> group_ok s ns g;
  iv_pcs : forall t c, pcs s !! t = Some c -> pc_ok s t c }.

(** *** Framing *)

Definition member (s : State) (t : thread) : Prop := exists ns g v, groups s !! ns = Some g /\ (t, v) ∈ waiters g.

(** A group does not notice changes to threads that are not in it. *)
Lemma group_ok_frame (s s' : State) (ns : namespace) (g : CoalescingGroup) :
  nextGeneration s <= nextGeneration s' ->
  (forall t v, (t, v) ∈ waiters g -> pcs s' !! t = pcs s !! t /\ states s' !! t = states s !! t) ->
  group_ok s ns g -> group_ok s' ns g.
Proof.
  intros Hn Hf [H1 H2 (tl & rest & Hw & (c & Hc & Hl) & Hr) H4 H5 H6]. split; try done; [lia| |].
  - exists tl, rest. split; [done|]. split.
    + exists c. split; [|done]. destruct (Hf tl (minVersion g)) as [-> _]; [rewrite Hw; set_solver|done].
    + intros t v Ht. destruct (Hr t v Ht) as (Hcl & st & un & Hp). split; [done|]. exists st, un.
      destruct (Hf t v) as [-> _]; [rewrite Hw; set_solver|done].
  - intros t v Ht. destruct (Hf t v Ht) as [_ ->]. by apply (H5 t v).
Qed.

Lemma pc_ok_frame (s s' : State) (t : thread) (c : pc) :
  states s' !! t = states s !! t -> (shut s = true -> shut s' = true) -> (now s <= now s')%Z ->
  (forall x, x ∈ history s -> x ∈ history s') ->
  (forall ns gen v, in_group s t ns gen v -> shut s' = true \/ in_group s' t ns gen v) ->
  pc_ok s t c -> pc_ok s' t c.
Proof.
  intros Hs Hsh Hn Hh Hg. assert (forall ns v gen w, answered s ns v gen w -> answered s' ns v gen w) as Ha.
  { intros ns v gen w (vl & r & Hx & Hy). exists vl, r. split; [by apply Hh|done]. }
  assert (forall ns gen, shut s = true \/ (exists v, in_group s t ns gen v) ->
            shut s' = true \/ exists v, in_group s' t ns gen v) as Hled.
  { intros ns gen [?|(v & Hv)]; [left; by apply Hsh|]. destruct (Hg _ _ _ Hv); [by left|right; by exists v]. }
  destruct c; cbn [pc_ok]; rewrite ?Hs; try done.
  - intros (w & Hw & [?|?]); exists w; (split; [done|]); [left; by apply Hsh|by right].
  - apply Hled.
  - apply Hled.
  - intros (H1 & H2 & w & Hw & H3). split; [lia|]. split; [done|]. exists w. split; [done|].
    destruct H3 as [?|H3]; [left; by apply Hsh|]. destruct (done w).
    + right. by apply Ha.
    + by apply Hg.
  - intros (w & Hw & [?|H3]); exists w; (split; [done|]); [left; by apply Hsh|right; by apply Ha].
  - apply Hled.
Qed.

(** A thread that is in no group, or stays a leader or a waiter of its group, moves. *)
Lemma Inv_set_pc (s : State) (t : thread) (c : pc) :
  Inv s ->
  (shut s = false -> forall ns g v, groups s !! ns = Some g -> (t, v) ∈ waiters g ->
     exists c0, pcs s !! t = Some c0 /\
       ((leads c0 ns (generation g) /\ leads c ns (generation g)) \/
        exists st un st' un', c0 = Waiting ns v (generation g) st un /\ c = Waiting ns v (generation g) st' un')) ->
  pc_ok s t c -> Inv (set_pc t c s).
Proof.
  intros [I1 I2 I3] Hm Hc. split; cbn [groups shut pcs set_pc]; [done| |].
  - intros Hsh ns g Hg. destruct (I2 Hsh ns g Hg) as [H1 H2 (tl & rest & Hw & (c1 & Hc1 & Hl) & Hr) H4 H5 H6].
    split; try done. cbn [pcs set_pc]. exists tl, rest. split; [done|]. split.
    + destruct (decide (tl = t)) as [->|Hne]; [|exists c1; by rewrite lookup_insert_ne].
      rewrite lookup_insert_eq. exists c. split; [done|].
      destruct (Hm Hsh ns g (minVersion g) Hg) as (c0 & Hc0 & [[_ ?]|(st & un & st' & un' & -> & _)]); [|done|].
      * rewrite Hw. set_solver.
      * exfalso. rewrite Hc0 in Hc1. injection Hc1 as <-. by destruct Hl as [?|[(r & ?)|?]].
    + intros x v Hx. destruct (Hr x v Hx) as (Hcl & st & un & Hp). split; [done|].
      destruct (decide (x = t)) as [->|Hne]; [|exists st, un; by rewrite lookup_insert_ne].
      rewrite lookup_insert_eq.
      destruct (Hm Hsh ns g v Hg) as (c0 & Hc0 & [[Hl0 _]|(st1 & un1 & st' & un' & _ & ->)]); [|exfalso|by exists st', un'].
      * rewrite Hw. set_solver.
      * rewrite Hc0 in Hp. injection Hp as ->. by destruct Hl0 as [?|[(r & ?)|?]].
  - intros x d Hd. destruct (decide (x = t)) as [->|Hne].
    + rewrite lookup_insert_eq in Hd. injection Hd as <-. apply (pc_ok_frame s); try done. by right.
    + rewrite lookup_insert_ne in Hd by done. apply (pc_ok_frame s); try done; [|by apply I3]. by right.
Qed.

(** The group a call belongs to, as its program point tells. *)
Definition pc_group (c : pc) : option (namespace * nat) :=
  match c with
  | Leading ns gen | Finishing ns gen _ | ThrewLeading ns gen | Waiting ns _ gen _ _ => Some (ns, gen)
  | _ => None
  end.

Lemma leads_group (c : pc) (ns : namespace) (gen : nat) : leads c ns gen -> pc_group c = Some (ns, gen).
Proof. by intros [->|[[r ->]| ->]]. Qed.

Lemma member_pc (s : State) (ns : namespace) (g : CoalescingGroup) (t : thread) (v : Z) :
  group_ok s ns g -> (t, v) ∈ waiters g ->
  exists c, pcs s !! t = Some c /\ pc_group c = Some (ns, generation g) /\
    (leads c ns (generation g) \/
     exists st un, c = Waiting ns v (generation g) st un /\ close v (minVersion g)).
Proof.
  intros [_ _ (tl & rest & Hw & (c & Hc & Hl) & Hr) _ _ _] Ht. rewrite Hw in Ht.
  apply elem_of_cons in Ht as [[= -> ->]|Ht].
  - exists c. split_and!; [done|by apply leads_group|by left].
  - destruct (Hr t v Ht) as (Hcl & st & un & Hp). eexists. split_and!; [done|done|]. right. by exists st, un.
Qed.

Lemma Inv_set_stats (s : State) (x : Stats) : Inv s -> Inv (set_stats x s).
Proof.
  intros [I1 I2 I3]. split; [done| |].
  - intros Hsh ns g Hg. by apply (group_ok_frame s), (I2 Hsh).
  - intros t c Hc. apply (pc_ok_frame s); try done; [by right|by apply I3].
Qed.

(** A call that is in no group moves. *)
Lemma Inv_move (s : State) (t : thread) (c0 c : pc) :
  Inv s -> pcs s !! t = Some c0 -> pc_group c0 = None -> pc_ok s t c -> Inv (set_pc t c s).
Proof.
  intros HI Hc0 Hn Hc. apply Inv_set_pc; [done| |done]. intros Hsh ns g v Hg Ht.
  destruct (member_pc s ns g t v (iv_groups _ HI Hsh ns g Hg) Ht) as (c1 & Hc1 & Hgr & _). congruence.
Qed.

(** A leader moves on with its query. *)
Lemma Inv_leader (s : State) (t : thread) (c0 c : pc) (ns : namespace) (gen : nat) :
  Inv s -> pcs s !! t = Some c0 -> leads c0 ns gen -> leads c ns gen -> pc_ok s t c -> Inv (set_pc t c s).
Proof.
  intros HI Hc0 Hl Hl' Hc. apply Inv_set_pc; [done| |done]. intros Hsh ns' g v Hg Ht.
  destruct (member_pc s ns' g t v (iv_groups _ HI Hsh ns' g Hg) Ht) as (c1 & Hc1 & Hgr & _).
  replace c1 with c0 in Hgr by congruence. rewrite (leads_group _ _ _ Hl) in Hgr. injection Hgr as <- <-.
  exists c0. split; [done|]. by left.
Qed.

Lemma Inv_shut_pc (s : State) (t : thread) (c : pc) : Inv s -> shut s = true -> pc_ok s t c -> Inv (set_pc t c s).
Proof. intros HI Hs Hc. apply Inv_set_pc; [done|congruence|done]. Qed.

Lemma inv_arrive (s : State) (t : thread) (ns : namespace) (v : Z) :
  Inv s -> pcs s !! t = None -> Inv (arrive t ns v s).
Proof.
  intros HI Hn. unfold arrive. destruct (shut s) eqn:Hsh; [by apply Inv_shut_pc|].
  assert (forall x ns g v, groups s !! ns = Some g -> (x, v) ∈ waiters g -> x <> t) as Hne.
  { intros x ns' g v' Hg Hx ->. destruct (member_pc s ns' g t v' (iv_groups _ HI Hsh ns' g Hg) Hx) as (c & Hc & _).
    congruence. }
  destruct HI as [I1 I2 I3]. split; cbn [groups shut pcs set_stats]; [done| |].
  - intros _ ns' g Hg. apply (group_ok_frame s); [done| |by apply I2]. intros x v' Hx.
    cbn [pcs states set_stats]. rewrite !lookup_insert_ne by (intros <-; by apply (Hne t ns' g v')). done.
  - intros x c Hc. destruct (decide (x = t)) as [->|Hx].
    + rewrite lookup_insert_eq in Hc. injection Hc as <-. exists fresh_waiter. cbn. rewrite lookup_insert_eq. auto.
    + rewrite lookup_insert_ne in Hc by done. apply (pc_ok_frame s); try done; [|by right|by apply I3].
      cbn. by rewrite lookup_insert_ne.
Qed.

Lemma inv_lead (s : State) (t : thread) (ns : namespace) (v : Z) :
  Inv s -> pcs s !! t = Some (Arrived ns v) -> groups s !! ns = None -> Inv (lead t ns v s).
Proof.
  intros HI Ht Hn. pose proof (iv_pcs _ HI _ _ Ht) as (w & Hw & Hfresh).
  assert (shut s = false -> forall x ns g v, groups s !! ns = Some g -> (x, v) ∈ waiters g -> x <> t) as Hne.
  { intros Hsh x ns' g v' Hg Hx ->.
    destruct (member_pc s ns' g t v' (iv_groups _ HI Hsh ns' g Hg) Hx) as (c & Hc & Hgr & _).
    rewrite Ht in Hc. by injection Hc as <-. }
  destruct HI as [I1 I2 I3]. split; cbn [lead groups shut pcs].
  - intros ns' g. destruct (decide (ns' = ns)) as [->|Hns].
    + rewrite lookup_insert_eq. by intros [= <-].
    + rewrite lookup_insert_ne by done. apply I1.
  - intros Hsh ns' g. destruct (decide (ns' = ns)) as [->|Hns].
    + rewrite lookup_insert_eq. intros [= <-]. split; cbn; try done; [lia| |by apply NoDup_singleton| |lia].
      * exists t, []. split; [done|]. split; [|set_solver]. eexists. rewrite lookup_insert_eq. split; [done|by left].
      * intros x v' [= -> ->]%list_elem_of_singleton. exists w. split; [done|].
        destruct Hfresh as [?| ->]; [congruence|done].
    + rewrite lookup_insert_ne by done. intros Hg. apply (group_ok_frame s); [cbn; lia| |by apply I2].
      intros x v' Hx. cbn. rewrite lookup_insert_ne; [done|]. intros <-. by apply (Hne Hsh t ns' g v').
  - intros x c Hc. destruct (decide (x = t)) as [->|Hx].
    + rewrite lookup_insert_eq in Hc. injection Hc as <-. right. exists v. eexists. cbn. rewrite lookup_insert_eq.
      split_and!; [done|done|set_solver].
    + rewrite lookup_insert_ne in Hc by done. apply (pc_ok_frame s); try done; [|by apply I3].
      intros ns' gen v' (g & Hg & Hgen & Hin). right. exists g. cbn. rewrite lookup_insert_ne by congruence. done.
Qed.

(** Two groups have no call in common. *)
Lemma group_unique (s : State) (t : thread) (ns ns' : namespace) (g g' : CoalescingGroup) (v v' : Z) :
  group_ok s ns g -> group_ok s ns' g' -> (t, v) ∈ waiters g -> (t, v') ∈ waiters g' -> ns = ns'.
Proof.
  intros H H' Ht Ht'. destruct (member_pc s ns g t v H Ht) as (c & Hc & Hg & _).
  destruct (member_pc s ns' g' t v' H' Ht') as (c' & Hc' & Hg' & _). congruence.
Qed.

(** The waiter list of one group and the program point of one call change. *)
Lemma Inv_set_group (s : State) (t : thread) (c : pc) (ns : namespace) (g g' : CoalescingGroup) :
  Inv s -> groups s !! ns = Some g -> generation g' = generation g ->
  queryInProgress g' = true -> queryCompleted g' = false ->
  (forall x v, x <> t -> (x, v) ∈ waiters g' <-> (x, v) ∈ waiters g) ->
  (shut s = false -> forall ns' g0 v, ns' <> ns -> groups s !! ns' = Some g0 -> (t, v) ∉ waiters g0) ->
  (shut s = false -> group_ok (set_pc t c (set_group ns g' s)) ns g') ->
  pc_ok (set_pc t c (set_group ns g' s)) t c ->
  Inv (set_pc t c (set_group ns g' s)).
Proof.
  intros [I1 I2 I3] Hg Hgen Hf1 Hf2 Hmem Hout Hok Hc. split; cbn [set_pc set_group groups shut pcs].
  - intros ns' g0. destruct (decide (ns' = ns)) as [->|Hns].
    + rewrite lookup_insert_eq. by intros [= <-].
    + rewrite lookup_insert_ne by done. apply I1.
  - intros Hsh ns' g0. destruct (decide (ns' = ns)) as [->|Hns].
    + rewrite lookup_insert_eq. intros [= <-]. by apply Hok.
    + rewrite lookup_insert_ne by done. intros Hg0. apply (group_ok_frame s); [done| |by apply I2].
      intros x v Hx. cbn. rewrite lookup_insert_ne; [done|]. intros <-. by apply (Hout Hsh ns' g0 v Hns).
  - intros x d Hd. destruct (decide (x = t)) as [->|Hx].
    + rewrite lookup_insert_eq in Hd. injection Hd as <-. exact Hc.
    + rewrite lookup_insert_ne in Hd by done. apply (pc_ok_frame s); try done; [|by apply I3].
      intros ns' gen v (g0 & Hg0 & Hgen0 & Hin). right. unfold in_group. cbn.
      destruct (decide (ns' = ns)) as [->|Hns].
      * exists g'. rewrite lookup_insert_eq. replace g0 with g in * by congruence.
        split_and!; [done|congruence|by apply Hmem].
      * exists g0. by rewrite lookup_insert_ne.
Qed.

Definition add_waiter (t : thread) (v : Z) (g : CoalescingGroup) : CoalescingGroup :=
  mkGroup (generation g) (minVersion g) (maxVersion g) (queryInProgress g) (queryCompleted g) (waiters g ++ [(t, v)]).

Lemma inv_add_waiter (s : State) (t : thread) (ns : namespace) (v until : Z) (g : CoalescingGroup) :
  Inv s -> pcs s !! t = Some (Arrived ns v) -> groups s !! ns = Some g ->
  (Z.max (maxVersion g) v - Z.min (minVersion g) v <= maxVersionGap cfg)%Z ->
  length (waiters g) < maxWaitersPerGroup cfg -> (until <= now s + maxTotalWaitTime cfg)%Z ->
  Inv (set_pc t (Waiting ns v (generation g) (now s) until) (set_group ns (add_waiter t v g) s)).
Proof.
  intros HI Ht Hg Hgap Hlen Hun. pose proof (iv_pcs _ HI _ _ Ht) as (w & Hw & Hfresh).
  destruct (iv_flags _ HI _ _ Hg) as [Hf1 Hf2].
  assert (shut s = false -> forall ns g v, groups s !! ns = Some g -> (t, v) ∉ waiters g) as Hne.
  { intros Hsh ns' g' v' Hg' Hx. destruct (member_pc s ns' g' t v' (iv_groups _ HI Hsh ns' g' Hg') Hx) as (c & Hc & Hgr & _).
    rewrite Ht in Hc. by injection Hc as <-. }
  apply (Inv_set_group s t _ ns g); try done.
  - intros x v' Hx. cbn. rewrite elem_of_app, list_elem_of_singleton. naive_solver.
  - intros Hsh ns' g0 v' _. by apply Hne.
  - intros Hsh. destruct (iv_groups _ HI Hsh ns g Hg) as [H1 H2 (tl & rest & Hr & (c & Hc & Hl) & Hrest) H4 H5 H6].
    assert (t ∉ (waiters g).*1) as Htn.
    { intros ((x & v') & -> & Hx)%list_elem_of_fmap. by apply (Hne Hsh ns g v'). }
    split; cbn [add_waiter generation minVersion maxVersion waiters]; try done.
    + exists tl, (rest ++ [(t, v)]). cbn [pcs set_pc set_group]. rewrite Hr. split; [done|]. split.
      * exists c. rewrite lookup_insert_ne; [done|]. intros <-. apply Htn. rewrite Hr. set_solver.
      * intros x v' [Hx|[= -> ->]%list_elem_of_singleton]%elem_of_app.
        -- destruct (Hrest x v' Hx) as (Hcl & st & un & Hp). split; [done|]. exists st, un.
           rewrite lookup_insert_ne; [done|]. intros <-. congruence.
        -- rewrite lookup_insert_eq. split; [unfold close; lia|]. by eexists _, _.
    + rewrite fmap_app. apply NoDup_app. split_and!; [done| |by apply NoDup_singleton].
      intros x Hx Hy. cbn in Hy. apply list_elem_of_singleton in Hy as ->. done.
    + intros x v' [Hx|[= -> ->]%list_elem_of_singleton]%elem_of_app; [by apply (H5 x v')|].
      exists w. split; [done|]. destruct Hfresh as [?| ->]; [congruence|done].
    + solve_length.
  - cbn. split; [lia|]. split; [done|]. exists w. split; [done|].
    destruct Hfresh as [?| ->]; [by left|right]. cbn. exists (add_waiter t v g). cbn. rewrite lookup_insert_eq.
    split_and!; [done|done|set_solver].
Qed.

Lemma remove_add_waiter (t : thread) (v : Z) (g : CoalescingGroup) :
  (forall v', (t, v') ∉ waiters g) -> remove_waiter t (add_waiter t v g) = g.
Proof.
  intros Hn. unfold remove_waiter, add_waiter. cbn [generation minVersion maxVersion queryInProgress queryCompleted waiters].
  rewrite filter_app, filter_cons_False by (cbn; tauto). rewrite filter_nil, app_nil_r. destruct g; cbn. f_equal. cbn in Hn.
  induction waiters0 as [|[x v'] l IH]; [done|]. rewrite filter_cons_True.
  - f_equal. apply IH. intros v'' Hin. apply (Hn v''). set_solver.
  - cbn. intros ->. apply (Hn v'). set_solver.
Qed.

Lemma remove_waiter_elem (t x : thread) (v : Z) (g : CoalescingGroup) :
  (x, v) ∈ waiters (remove_waiter t g) <-> x <> t /\ (x, v) ∈ waiters g.
Proof. cbn. by rewrite list_elem_of_filter. Qed.

Lemma NoDup_filter_fst (t : thread) (l : list (thread * Z)) :
  NoDup l.*1 -> NoDup (filter (fun w => w.1 <> t) l).*1.
Proof.
  induction l as [|[x v] l IH]; [done|]. cbn [fmap list_fmap fst]. intros [Hx Hnd]%NoDup_cons.
  destruct (decide (x = t)) as [->|Hne].
  - rewrite filter_cons_False by (cbn; tauto). by apply IH.
  - rewrite filter_cons_True by done. cbn. apply NoDup_cons. split; [|by apply IH].
    intros ((y & v') & Hy & Hin)%list_elem_of_fmap. apply list_elem_of_filter in Hin as [_ Hin]. apply Hx.
    apply list_elem_of_fmap. by exists (y, v').
Qed.

(** A caller gives up and leaves its group. *)
Lemma inv_leave (s : State) (t : thread) (ns : namespace) (v : Z) (st un : Z) (g : CoalescingGroup) (e : error) :
  Inv s -> groups s !! ns = Some g ->
  (shut s = false -> pcs s !! t = Some (Waiting ns v (generation g) st un) /\ (t, v) ∈ waiters g) ->
  Inv (set_pc t (Returned (Failed e)) (set_group ns (remove_waiter t g) s)).
Proof.
  intros HI Hg Ht. destruct (iv_flags _ HI _ _ Hg) as [Hf1 Hf2].
  apply (Inv_set_group s t _ ns g); try done.
  - intros x v' Hx. rewrite remove_waiter_elem. tauto.
  - intros Hsh ns' g0 v' Hne Hg0 Hin. destruct (Ht Hsh) as [_ Hin0]. apply Hne.
    by apply (group_unique s t ns' ns g0 g v' v); try apply (iv_groups _ HI Hsh).
  - intros Hsh. destruct (Ht Hsh) as [Hpc Hin].
    destruct (iv_groups _ HI Hsh ns g Hg) as [H1 H2 (tl & rest & Hr & (c & Hc & Hl) & Hrest) H4 H5 H6].
    assert (tl <> t) as Htl.
    { intros ->. rewrite Hpc in Hc. injection Hc as <-. by destruct Hl as [?|[[? ?]|?]]. }
    split; cbn [remove_waiter generation minVersion maxVersion waiters]; try done.
    + exists tl, (filter (fun w => w.1 <> t) rest). rewrite Hr, filter_cons_True by done. split; [done|].
      cbn [pcs set_pc set_group]. split; [exists c; by rewrite lookup_insert_ne|].
      intros x v' [Hx Hxr]%list_elem_of_filter. destruct (Hrest x v' Hxr) as (Hcl & st' & un' & Hp).
      split; [done|]. exists st', un'. by rewrite lookup_insert_ne.
    + by apply NoDup_filter_fst.
    + intros x v' [_ Hx]%list_elem_of_filter. by apply (H5 x v').
    + etrans; [|exact H6]. apply length_filter.
Qed.

Lemma inv_loop_top (s : State) (t : thread) (ns : namespace) (v st un : Z) (g : CoalescingGroup) :
  Inv s -> pcs s !! t = Some (Waiting ns v (generation g) st un) -> groups s !! ns = Some g ->
  (shut s = false -> (t, v) ∈ waiters g) ->
  Inv (loop_top cfg t ns v (generation g) st s).
Proof.
  intros HI Ht Hg Hin. unfold loop_top. destruct (Z.leb_spec (maxTotalWaitTime cfg) (now s - st)).
  - unfold leave_group. rewrite Hg, Nat.eqb_refl.
    apply (Inv_set_stats (set_pc t _ (set_group ns (remove_waiter t g) s)) (count_timeout (stats s))).
    apply (inv_leave s t ns v st un g); try done. intros Hsh. split; [done|by apply Hin].
  - apply Inv_set_pc; [done| |].
    + intros Hsh ns' g' v' Hg' Hin'. eexists. split; [done|]. right.
      destruct (member_pc s ns' g' t v' (iv_groups _ HI Hsh ns' g' Hg') Hin') as (c & Hc & Hgr & [Hl|(st' & un' & -> & _)]).
      * rewrite Ht in Hc. injection Hc as <-. by destruct Hl as [?|[[? ?]|?]].
      * rewrite Ht in Hc. injection Hc as <- <- Hgen <- <-. rewrite <- Hgen. by eexists _, _, _, _.
    + destruct (iv_pcs _ HI _ _ Ht) as (H1 & H2 & w & Hw & H3). cbn. split; [done|]. split; [lia|]. by exists w.
Qed.

Lemma set_group_twice (ns : namespace) (g g' : CoalescingGroup) (x : Stats) (s : State) :
  set_group ns g' (set_stats x (set_group ns g s)) = set_stats x (set_group ns g' s).
Proof. unfold set_group, set_stats. cbn. by rewrite insert_insert_eq. Qed.

(** A wait of no length: the caller joins and leaves at once. *)
Lemma inv_add_remove (s : State) (t : thread) (ns : namespace) (v : Z) (g : CoalescingGroup) (e : error) :
  Inv s -> pcs s !! t = Some (Arrived ns v) -> groups s !! ns = Some g ->
  Inv (set_pc t (Returned (Failed e)) (set_group ns (remove_waiter t (add_waiter t v g)) s)).
Proof.
  intros HI Ht Hg. destruct (iv_flags _ HI _ _ Hg) as [Hf1 Hf2].
  assert (shut s = false -> forall ns g v, groups s !! ns = Some g -> (t, v) ∉ waiters g) as Hne.
  { intros Hsh ns' g' v' Hg' Hx. destruct (member_pc s ns' g' t v' (iv_groups _ HI Hsh ns' g' Hg') Hx) as (c & Hc & Hgr & _).
    rewrite Ht in Hc. by injection Hc as <-. }
  apply (Inv_set_group s t _ ns g); try done.
  - intros x v' Hx. rewrite remove_waiter_elem. cbn. rewrite elem_of_app, list_elem_of_singleton. naive_solver.
  - intros Hsh ns' g0 v' _. by apply Hne.
  - intros Hsh. rewrite remove_add_waiter by (intros v'; by apply (Hne Hsh ns)).
    apply (group_ok_frame s); [done| |by apply (iv_groups _ HI Hsh)]. intros x v' Hx. cbn.
    rewrite lookup_insert_ne; [done|]. intros <-. by apply (Hne Hsh ns g v').
Qed.

Lemma inv_join (s : State) (t : thread) (ns : namespace) (v : Z) (g : CoalescingGroup) :
  Inv s -> pcs s !! t = Some (Arrived ns v) -> groups s !! ns = Some g -> Inv (join cfg t ns v g s).
Proof.
  intros HI Ht Hg. unfold join.
  destruct (Z.ltb_spec (maxVersionGap cfg) (Z.max (maxVersion g) v - Z.min (minVersion g) v)).
  { apply (Inv_move _ _ (Arrived ns v)); [by apply Inv_set_stats|done..]. }
  destruct (Nat.leb_spec (maxWaitersPerGroup cfg) (length (waiters g))).
  { apply (Inv_move _ _ (Arrived ns v)); [by apply Inv_set_stats|done..]. }
  fold (add_waiter t v g). change (generation (add_waiter t v g)) with (generation g).
  set (x := count_coalesced _). unfold loop_top. cbn [now set_stats set_group]. rewrite Z.sub_diag, Z.sub_0_r.
  destruct (Z.leb_spec (maxTotalWaitTime cfg) 0).
  - unfold leave_group. cbn [groups set_stats set_group]. rewrite lookup_insert_eq. cbn [generation add_waiter].
    rewrite Nat.eqb_refl. fold (add_waiter t v g). rewrite set_group_twice.
    apply (Inv_set_stats (set_pc t _ (set_group ns (remove_waiter t (add_waiter t v g)) s)) (count_timeout x)).
    by apply inv_add_remove.
  - apply (Inv_set_stats (set_pc t _ (set_group ns (add_waiter t v g) s)) x). apply (inv_add_waiter s t ns v); try done. lia.
Qed.

Lemma distribute_lookup (r : response) (g : CoalescingGroup) (ws : gmap thread WaiterState) (x : thread) :
  distribute r g ws !! x = if decide (x ∈ (waiters g).*1) then Some (delivered r) else ws !! x.
Proof.
  unfold distribute. revert ws. induction (waiters g) as [|[y v] l IH]; intros ws.
  - rewrite decide_False; [done|set_solver].
  - cbn [foldl fmap list_fmap fst]. rewrite IH. destruct (decide (x ∈ l.*1)) as [Hx|Hx].
    + rewrite decide_True; [done|set_solver].
    + destruct (decide (x = y)) as [->|Hne].
      * rewrite lookup_insert_eq, decide_True; [done|set_solver].
      * rewrite lookup_insert_ne, decide_False by (done || set_solver). done.
Qed.

Lemma in_waiters (g : CoalescingGroup) (t : thread) : t ∈ (waiters g).*1 <-> exists v, (t, v) ∈ waiters g.
Proof.
  rewrite list_elem_of_fmap. split; [intros ((y & v) & -> & H); by exists v|intros (v & H); by exists (t, v)].
Qed.

Lemma done_delivered (r : response) : done (delivered r) = true.
Proof. by destruct r. Qed.

Lemma leads_not_waiting (c : pc) (ns ns' : namespace) (gen gen' : nat) (v st un : Z) :
  leads c ns gen -> c <> Waiting ns' v gen' st un.
Proof. by intros [->|[[? ->]| ->]]. Qed.

(** A group has one leader. *)
Lemma one_leader (s : State) (ns : namespace) (g : CoalescingGroup) (t t' : thread) (v v' : Z) (c c' : pc) :
  group_ok s ns g -> (t, v) ∈ waiters g -> (t', v') ∈ waiters g ->
  pcs s !! t = Some c -> pcs s !! t' = Some c' -> leads c ns (generation g) -> leads c' ns (generation g) -> t = t'.
Proof.
  intros [_ _ (tl & rest & Hw & _ & Hr) _ _ _] Hin Hin' Hc Hc' Hl Hl'.
  assert (forall x vx cx, (x, vx) ∈ waiters g -> pcs s !! x = Some cx -> leads cx ns (generation g) -> x = tl) as Hone.
  { intros x vx cx Hx Hcx Hlx. rewrite Hw in Hx. apply elem_of_cons in Hx as [[= -> _]|Hx]; [done|].
    destruct (Hr x vx Hx) as (_ & st & un & Hp). exfalso. apply (leads_not_waiting cx ns ns _ (generation g) vx st un Hlx).
    congruence. }
  by rewrite (Hone t v c), (Hone t' v' c').
Qed.

Lemma inv_complete (s : State) (t : thread) (ns : namespace) (gen : nat) (r x : response) :
  Inv s -> shut s = false -> pcs s !! t = Some (Finishing ns gen r) ->
  Inv (set_pc t (Returned x) (complete ns gen r s)).
Proof.
  intros HI Hsh Ht. destruct (iv_pcs _ HI _ _ Ht) as [?|(v & g & Hg & Hgen & Hin)]; [congruence|].
  unfold complete. rewrite Hg, Hgen, Nat.eqb_refl. pose proof (iv_groups _ HI Hsh ns g Hg) as Hok.
  assert (forall y, y ∈ (waiters g).*1 -> forall ns' g', ns' <> ns -> groups s !! ns' = Some g' -> y ∉ (waiters g').*1) as Hdis.
  { intros y (vy & Hy)%in_waiters ns' g' Hne Hg' (vy' & Hy')%in_waiters. apply Hne.
    by apply (group_unique s y ns' ns g' g vy' vy); try apply (iv_groups _ HI Hsh). }
  split; cbn [set_pc groups shut pcs].
  - intros ns' g' [_ Hg']%lookup_delete_Some. by apply (iv_flags _ HI ns').
  - intros _ ns' g' [Hne Hg']%lookup_delete_Some. apply (group_ok_frame s); [done| |by apply (iv_groups _ HI Hsh)].
    intros y vy Hy. assert (y ∉ (waiters g).*1) as Hyg.
    { intros Hy'. apply (Hdis y Hy' ns' g'); [congruence|done|]. apply in_waiters. by exists vy. }
    cbn. rewrite distribute_lookup, decide_False by done. split; [|done].
    rewrite lookup_insert_ne; [done|]. intros <-. apply Hyg, in_waiters. by exists v.
  - intros y c Hc. destruct (decide (y = t)) as [->|Hyt].
    { rewrite lookup_insert_eq in Hc. by injection Hc as <-. }
    rewrite lookup_insert_ne in Hc by done. pose proof (iv_pcs _ HI _ _ Hc) as Hpc.
    destruct (decide (y ∈ (waiters g).*1)) as [Hy|Hy].
    + pose proof Hy as (vy & Hvy)%in_waiters.
      destruct (member_pc s ns g y vy Hok Hvy) as (c' & Hc' & Hgr & [Hl|(st & un & -> & Hcl)]).
      * exfalso. apply Hyt. rewrite Hc in Hc'. injection Hc' as <-.
        apply (one_leader s ns g y t vy v c (Finishing ns gen r)); try done. right. left. exists r. by rewrite Hgen.
      * rewrite Hc in Hc'. injection Hc' as ->. destruct Hpc as (H1 & H2 & w & Hw & _). cbn. split_and!; [done..|].
        exists (delivered r). rewrite distribute_lookup, decide_True by done. split; [done|]. right.
        rewrite done_delivered. exists (minVersion g), r. split_and!; [|done|done]. rewrite <- Hgen. set_solver.
    + apply (pc_ok_frame s); try done.
      * cbn. by rewrite distribute_lookup, decide_False.
      * cbn. set_solver.
      * intros ns' gen' v' (g' & Hg' & Hgen' & Hin'). right. exists g'. cbn.
        rewrite lookup_delete_ne; [done|]. intros <-. apply Hy, in_waiters. exists v'. congruence.
Qed.

Lemma inv_finish (s : State) (t : thread) (ns : namespace) (gen : nat) (r : response) (own : State -> response) :
  Inv s -> pcs s !! t = Some (Finishing ns gen r) -> Inv (finish t ns gen r own s).
Proof.
  intros HI Ht. unfold finish. destruct (shut s) eqn:Hsh; [by apply Inv_shut_pc|]. by apply inv_complete.
Qed.

Lemma inv_wake (s s' : State) (t : thread) (ns : namespace) (v : Z) (gen : nat) (st un : Z) :
  Inv s -> pcs s !! t = Some (Waiting ns v gen st un) -> wake cfg t ns v gen st un s = Some s' -> Inv s'.
Proof.
  intros HI Ht. destruct (iv_pcs _ HI _ _ Ht) as (H1 & H2 & w & Hw & H3). unfold wake. rewrite Hw. cbn [mbind option_bind].
  destruct (shut s) eqn:Hsh; cbn [orb].
  { intros [= <-]. apply Inv_shut_pc; [done|done|]. exists w. auto. }
  destruct H3 as [?|H3]; [congruence|]. destruct (done w) eqn:Hd.
  - intros [= <-]. apply Inv_set_pc; [done| |exists w; auto].
    intros _ ns' g v' Hg Hin. exfalso. destruct (go_undone _ _ _ (iv_groups _ HI Hsh ns' g Hg) t v' Hin) as (w' & Hw' & Hd').
    congruence.
  - destruct (un <=? now s)%Z; [|done]. destruct H3 as (g & Hg & Hgen & Hin). rewrite Hg.
    destruct (iv_flags _ HI _ _ Hg) as [-> _]. rewrite andb_false_r. cbn [andb]. intros [= <-]. subst gen.
    by apply (inv_loop_top s t ns v st un g).
Qed.

Lemma inv_shutdown (s : State) : Inv s -> Inv (shutdown s).
Proof.
  intros HI. split; cbn [shutdown groups shut pcs]; [done|done|]. intros t c Hc.
  set (ts := flat_map (fun p : namespace * CoalescingGroup => (waiters p.2).*1) (map_to_list (groups s))).
  assert (forall w, states s !! t = Some w ->
            exists w', foldl (fun ws t => alter shutdown_waiter t ws) (states s) ts !! t = Some w') as Hst.
  { generalize (states s). induction ts as [|x ts IH]; intros ws w Hw; [by exists w|]. cbn [foldl].
    destruct (decide (x = t)) as [->|Hne].
    - eapply IH. by rewrite lookup_alter_eq, Hw.
    - eapply IH. by rewrite lookup_alter_ne. }
  pose proof (iv_pcs _ HI _ _ Hc) as Hpc. destruct c; cbn [pc_ok shutdown states shut now]; try done; try (by left).
  - destruct Hpc as (w & Hw & _). destruct (Hst w Hw) as [w' Hw']. exists w'. auto.
  - destruct Hpc as (H1 & H2 & w & Hw & _). destruct (Hst w Hw) as [w' Hw']. split_and!; [done..|]. exists w'. auto.
  - destruct Hpc as (w & Hw & _). destruct (Hst w Hw) as [w' Hw']. exists w'. auto.
Qed.

Lemma exec_inv (e : event) (s s' : State) : Inv s -> exec cfg e s = Some s' -> Inv s'.
Proof.
  intros HI. destruct e as [t ns v|t|t r|t|t|t|t|d| |]; cbn [exec].
  - destruct (pcs s !! t) eqn:Ht; [done|]. intros [= <-]. by apply inv_arrive.
  - destruct (pcs s !! t) as [[]|] eqn:Ht; try done. intros [= <-]. unfold enter.
    destruct (groups s !! ns) as [g|] eqn:Hg; [by apply inv_join|by apply inv_lead].
  - pose proof (iv_pcs _ HI t) as Hp. destruct (pcs s !! t) as [[]|] eqn:Ht; try done; intros [= <-].
    + apply (Inv_leader s t _ _ ns gen HI Ht); [by left|right; left; by exists r|]. by apply (Hp _ eq_refl).
    + by apply (Inv_move s t _ _ HI Ht).
    + destruct (Hp _ eq_refl).
  - pose proof (iv_pcs _ HI t) as Hp. destruct (pcs s !! t) as [[]|] eqn:Ht; try done; intros [= <-].
    + apply (Inv_leader s t _ _ ns gen HI Ht); [by left|by right; right|]. by apply (Hp _ eq_refl).
    + by apply (Inv_move s t _ _ HI Ht).
    + destruct (Hp _ eq_refl).
  - pose proof (iv_pcs _ HI t) as Hp. destruct (pcs s !! t) as [[]|] eqn:Ht; try done; intros [= <-].
    + by apply inv_finish.
    + destruct (Hp _ eq_refl).
  - destruct (pcs s !! t) as [[]|] eqn:Ht; try done. by apply inv_wake.
  - destruct (pcs s !! t) as [[]|] eqn:Ht; try done. intros [= <-]. by apply (Inv_move s t _ _ HI Ht).
  - destruct (Z.leb_spec 0 d); [|done]. intros [= <-]. destruct HI as [I1 I2 I3]. split; cbn [groups shut pcs]; [done| |].
    + intros Hsh ns g Hg. by apply (group_ok_frame s), (I2 Hsh).
    + intros t c Hc. apply (pc_ok_frame s); try done; [cbn; lia|by right|by apply I3].
  - intros [= <-]. by apply Inv_set_stats.
  - intros [= <-]. by apply inv_shutdown.
Qed.

(** ** Generations and answers *)

Definition gens (s : State) : gmap namespace nat := generation <$> groups s.
Definition answered_gens (s : State) : list nat := (fun h => h.1.1.1) <$> history s.

(** A generation belongs to one group, and is answered at most once. *)
Record GenInv (s : State) : Prop := {
  gi_live : forall ns gen, gens s !! ns = Some gen -> gen <= nextGeneration s /\ gen ∉ answered_gens s;
  gi_inj : forall ns ns' gen, gens s !! ns = Some gen -> gens s !! ns' = Some gen -> ns = ns';
  gi_hist : Forall (fun gen => gen <= nextGeneration s) (answered_gens s);
  gi_once : NoDup (answered_gens s) }.

Lemma GenInv_ext (s s' : State) :
  gens s' = gens s -> nextGeneration s' = nextGeneration s -> history s' = history s -> GenInv s -> GenInv s'.
Proof. intros Hg Hn Hh [H1 H2 H3 H4]. unfold answered_gens in *. split; unfold answered_gens; rewrite ?Hg, ?Hn, ?Hh; done. Qed.

Lemma gens_set_group (ns : namespace) (g g' : CoalescingGroup) (s : State) :
  groups s !! ns = Some g -> generation g' = generation g -> gens (set_group ns g' s) = gens s.
Proof.
  intros Hg Heq. unfold gens. cbn [groups set_group]. rewrite fmap_insert, Heq. apply insert_id.
  by rewrite lookup_fmap, Hg.
Qed.

Lemma gens_leave (t : thread) (ns : namespace) (gen : nat) (s : State) : gens (leave_group t ns gen s) = gens s.
Proof.
  unfold leave_group. destruct (groups s !! ns) as [g|] eqn:Hg; [|done]. destruct (_ =? _); [|done].
  by apply (gens_set_group ns g).
Qed.

(** The wait loop only moves the caller and its place in the group. *)
Lemma loop_top_frame (t : thread) (ns : namespace) (v : Z) (gen : nat) (st : Z) (s : State) :
  let s' := loop_top cfg t ns v gen st s in
  gens s' = gens s /\ nextGeneration s' = nextGeneration s /\ history s' = history s /\ shut s' = shut s.
Proof.
  unfold loop_top. destruct (_ <=? _)%Z; [|done]. cbn. unfold leave_group.
  destruct (groups s !! ns) as [g|] eqn:Hg; [|done]. destruct (_ =? _); [|done].
  split_and!; try done. by apply (gens_set_group ns g).
Qed.

Lemma gen_lead (t : thread) (ns : namespace) (v : Z) (s : State) :
  GenInv s -> groups s !! ns = None -> GenInv (lead t ns v s).
Proof.
  intros [H1 H2 H3 H4] Hn.
  assert (gens (lead t ns v s) = <[ns := S (nextGeneration s)]> (gens s)) as Hg
    by (unfold gens, lead; cbn [groups]; by rewrite fmap_insert).
  split; rewrite ?Hg; cbn [lead nextGeneration].
  - intros ns' gen [[<- <-]|[Hne Hl]]%lookup_insert_Some.
    + split; [done|]. intros Hin. rewrite Forall_forall in H3. specialize (H3 _ Hin). lia.
    + destruct (H1 _ _ Hl). split; [lia|done].
  - intros ns1 ns2 gen [[<- <-]|[Hne Hl]]%lookup_insert_Some [[<- Heq]|[Hne' Hl']]%lookup_insert_Some; try done.
    + destruct (H1 _ _ Hl'). lia.
    + destruct (H1 _ _ Hl). lia.
    + by apply (H2 _ _ gen).
  - eapply Forall_impl; [exact H3|]. cbn. lia.
  - done.
Qed.

Lemma gen_complete (ns : namespace) (gen : nat) (r : response) (s : State) : GenInv s -> GenInv (complete ns gen r s).
Proof.
  intros HG. pose proof HG as [H1 H2 H3 H4]. unfold complete. destruct (groups s !! ns) as [g|] eqn:Hg; [|done].
  destruct (Nat.eqb_spec (generation g) gen) as [<-|]; [|done].
  assert (gens s !! ns = Some (generation g)) as Hl by (unfold gens; by rewrite lookup_fmap, Hg).
  destruct (H1 _ _ Hl) as [Hle Hnin].
  split; unfold gens, answered_gens; cbn [groups history nextGeneration]; rewrite ?fmap_app, ?fmap_delete; fold (gens s);
    fold (answered_gens s); cbn.
  - intros ns' gen [Hne Hl']%lookup_delete_Some. destruct (H1 _ _ Hl') as [? Hn']. split; [done|].
    intros [?|Heq%list_elem_of_singleton]%elem_of_app; [done|]. subst gen. by apply Hne, (H2 _ _ (generation g)).
  - intros ns1 ns2 gen [_ Hl1]%lookup_delete_Some [_ Hl2]%lookup_delete_Some. by apply (H2 _ _ gen).
  - apply Forall_app. split; [done|]. by apply Forall_singleton.
  - apply NoDup_app. split_and!; [done| |by apply NoDup_singleton]. intros x Hx ->%list_elem_of_singleton. done.
Qed.

Lemma gen_exec (e : event) (s s' : State) : Inv s -> GenInv s -> exec cfg e s = Some s' -> GenInv s'.
Proof.
  intros HI HG. destruct e as [t ns v|t|t r|t|t|t|t|d| |]; cbn [exec]; try (destruct (pcs s !! t) as [[]|] eqn:Ht; try done);
    try (intros [= <-]; by apply (GenInv_ext s)).
  - intros [= <-]. unfold arrive. destruct (shut s); by apply (GenInv_ext s).
  - intros [= <-]. unfold enter. destruct (groups s !! ns) as [g|] eqn:Hg; [|by apply gen_lead]. unfold join.
    destruct (_ <? _)%Z; [by apply (GenInv_ext s)|]. destruct (_ <=? _); [by apply (GenInv_ext s)|].
    edestruct loop_top_frame as (E1 & E2 & E3 & _). eapply GenInv_ext; [exact E1|exact E2|exact E3|].
    apply (GenInv_ext s); [|done..]. by apply (gens_set_group ns g).
  - intros [= <-]. unfold finish. destruct (shut s); [by apply (GenInv_ext s)|].
    eapply GenInv_ext; [..|by apply (gen_complete ns gen r s)]; done.
  - intros [= <-]. unfold finish. destruct (shut s); [by apply (GenInv_ext s)|].
    eapply GenInv_ext; [..|by apply (gen_complete ns gen r s)]; done.
  - unfold wake. destruct (states s !! t); [|done]. cbn [mbind option_bind].
    destruct (_ || _); [intros [= <-]; by apply (GenInv_ext s)|]. destruct (_ <=? _)%Z; [|done].
    pose proof (loop_top_frame t ns version gen start s) as (E1 & E2 & E3 & _).
    destruct (groups s !! ns) as [g|] eqn:Hg; [|intros [= <-]; by apply (GenInv_ext s)].
    destruct (iv_flags _ HI _ _ Hg) as [-> _]. rewrite andb_false_r. cbn [andb]. intros [= <-]. by apply (GenInv_ext s).
  - destruct (_ <=? _)%Z; [|done]. intros [= <-]. by apply (GenInv_ext s).
  - intros [= <-]. destruct HG as [H1 H2 H3 H4]. split; cbn [shutdown nextGeneration]; try done.
Qed.

Lemma reachable_gen (s : State) : reachable cfg s -> Inv s /\ GenInv s.
Proof.
  assert (forall a b, rtc (step cfg) a b -> Inv a /\ GenInv a -> Inv b /\ GenInv b) as Hrtc.
  { induction 1 as [|a b c [e He] _ IH]; [done|]. intros [Ha Hb]. apply IH.
    split; [by apply (exec_inv e a b)|by apply (gen_exec e a b)]. }
  intros H. apply (Hrtc _ _ H). split; [by split|]. split; try done; apply NoDup_nil_2.
Qed.

(** ** Statistics *)

Definition is_arrived (c : option pc) : nat := match c with Some (Arrived _ _) => 1 | _ => 0 end.
Definition arrived_calls (m : gmap thread pc) : nat := map_fold (fun _ c n => is_arrived (Some c) + n) 0 m.

Lemma arrived_insert (m : gmap thread pc) (t : thread) (c : pc) :
  arrived_calls (<[t := c]> m) + is_arrived (m !! t) = arrived_calls m + is_arrived (Some c).
Proof.
  assert (forall m t c, m !! t = None -> arrived_calls (<[t := c]> m) = is_arrived (Some c) + arrived_calls m) as Hnew.
  { intros m' t' c' Hn. unfold arrived_calls. rewrite map_fold_insert_L; [done| |done]. lia. }
  destruct (m !! t) as [c0|] eqn:Ht.
  - rewrite <- (insert_delete_id m t c0 Ht) at 2. rewrite <- insert_delete_eq, !Hnew by apply lookup_delete_eq. lia.
  - rewrite Hnew by done. cbn. lia.
Qed.

(** Every call that was counted is accounted for, and so is every query that was executed for a
    group or outside one. *)
Record StatsInv (s : State) : Prop := {
  si_total : totalRequests (stats s) = nextGeneration s + coalescedRequests (stats s) + versionGapSkippedRequests (stats s)
               + overflowRequests (stats s) + arrived_calls (pcs s);
  si_queries : actualQueries (stats s) = length (history s) + versionGapSkippedRequests (stats s) + overflowRequests (stats s);
  si_active : shut s = false -> activeGroups (stats s) = size (groups s) }.

Lemma StatsInv_set_pc (s : State) (t : thread) (c0 c : pc) :
  pcs s !! t = Some c0 -> is_arrived (Some c0) = 0 -> is_arrived (Some c) = 0 -> StatsInv s -> StatsInv (set_pc t c s).
Proof.
  intros Ht H0 H1 [S1 S2 S3]. split; try done. cbn [set_pc pcs stats nextGeneration].
  pose proof (arrived_insert (pcs s) t c) as Ha. rewrite Ht in Ha. lia.
Qed.

Lemma size_set_group (ns : namespace) (g g' : CoalescingGroup) (s : State) :
  groups s !! ns = Some g -> size (groups (set_group ns g' s)) = size (groups s).
Proof. intros Hg. cbn [groups set_group]. by rewrite map_size_insert, Hg. Qed.

Lemma loop_top_stats (t : thread) (ns : namespace) (v : Z) (gen : nat) (st : Z) (s : State) :
  let s' := loop_top cfg t ns v gen st s in
  size (groups s') = size (groups s) /\ (exists c, pcs s' = <[t := c]> (pcs s) /\ is_arrived (Some c) = 0) /\
  (stats s' = stats s \/ stats s' = count_timeout (stats s)).
Proof.
  assert (pcs (leave_group t ns gen s) = pcs s /\ stats (leave_group t ns gen s) = stats s /\
          size (groups (leave_group t ns gen s)) = size (groups s)) as (L1 & L2 & L3).
  { unfold leave_group. destruct (groups s !! ns) as [g|] eqn:Hg; [|done]. destruct (_ =? _); [|done].
    split_and!; try done. by apply (size_set_group ns g). }
  unfold loop_top. destruct (_ <=? _)%Z; cbn [set_pc set_stats groups pcs stats].
  - rewrite L1, L2, L3. split_and!; [done|by eexists|by right].
  - split_and!; [done|by eexists|by left].
Qed.

Lemma stats_loop_top (t : thread) (ns : namespace) (v : Z) (gen : nat) (st : Z) (s : State) :
  is_arrived (pcs s !! t) = 0 -> StatsInv s -> StatsInv (loop_top cfg t ns v gen st s).
Proof.
  intros Hz [S1 S2 S3]. pose proof (loop_top_frame t ns v gen st s) as (_ & F1 & F2 & F3).
  pose proof (loop_top_stats t ns v gen st s) as (F4 & (c & F5 & F6) & F7). cbn zeta in *.
  pose proof (arrived_insert (pcs s) t c) as Ha.
  split; rewrite ?F1, ?F2, ?F3, ?F4, ?F5; destruct F7 as [-> | ->]; cbn; try done; lia.
Qed.

(** Leaving the state after the arrival, in each of the ways out. *)
Lemma stats_enter (t : thread) (ns : namespace) (v : Z) (s : State) :
  pcs s !! t = Some (Arrived ns v) -> StatsInv s -> StatsInv (enter cfg t ns v s).
Proof.
  intros Ht [S1 S2 S3]. unfold enter. destruct (groups s !! ns) as [g|] eqn:Hg.
  - unfold join. destruct (_ <? _)%Z; [|destruct (_ <=? _)].
    + pose proof (arrived_insert (pcs s) t Alone) as Ha. rewrite Ht in Ha. split; cbn in *; try done; lia.
    + pose proof (arrived_insert (pcs s) t Alone) as Ha. rewrite Ht in Ha. split; cbn in *; try done; lia.
    + pose proof (loop_top_frame t ns v (generation g) (now s)) as F. pose proof (loop_top_stats t ns v (generation g) (now s)) as G.
      set (s1 := set_stats _ _). destruct (F s1) as (_ & F1 & F2 & F3), (G s1) as (F4 & (c & F5 & F6) & F7).
      assert (size (groups s1) = size (groups s)) as F8 by by apply (size_set_group ns g).
      pose proof (arrived_insert (pcs s) t c) as Ha. rewrite Ht in Ha. cbn zeta in *. cbn [generation now s1 set_stats set_group].
      split; rewrite ?F1, ?F2, ?F3, ?F4, ?F5, ?F8; destruct F7 as [-> | ->]; cbn in *; try done; lia.
  - pose proof (arrived_insert (pcs s) t (Leading ns (S (nextGeneration s)))) as Ha. rewrite Ht in Ha.
    split; cbn in *; try done; lia.
Qed.

Lemma stats_complete (ns : namespace) (gen : nat) (r : response) (s : State) : StatsInv s -> StatsInv (complete ns gen r s).
Proof.
  intros HS. pose proof HS as [S1 S2 S3]. unfold complete. destruct (groups s !! ns) as [g|] eqn:Hg; [|done].
  destruct (_ =? _); [|done]. split; cbn; rewrite ?length_app; cbn; try done; lia.
Qed.

Lemma stats_exec (e : event) (s s' : State) : e <> ResetStats -> Inv s -> StatsInv s -> exec cfg e s = Some s' -> StatsInv s'.
Proof.
  intros Hr HI HS. destruct e as [t ns v|t|t r|t|t|t|t|d| |]; cbn [exec]; try done;
    try (destruct (pcs s !! t) as [[]|] eqn:Ht; try done);
    try (intros [= <-]; by apply (StatsInv_set_pc s t _ _ Ht)).
  - intros [= <-]. pose proof HS as [S1 S2 S3]. unfold arrive. destruct (shut s) eqn:Hsh.
    + pose proof (arrived_insert (pcs s) t (Returned (Failed ShutdownInProgress))) as Ha. rewrite Ht in Ha.
      split; cbn in *; try done; try lia. congruence.
    + pose proof (arrived_insert (pcs s) t (Arrived ns v)) as Ha. rewrite Ht in Ha. split; cbn in *; [lia|done|by intros _; apply S3].
  - intros [= <-]. by apply stats_enter.
  - intros [= <-]. unfold finish. destruct (shut s); [by apply (StatsInv_set_pc s t _ _ Ht)|].
    apply (StatsInv_set_pc _ t (Finishing ns gen r)); [|done|done|by apply stats_complete]. unfold complete.
    destruct (groups s !! ns); [|done]. by destruct (_ =? _).
  - destruct (iv_pcs _ HI _ _ Ht).
  - unfold wake. destruct (states s !! t); [|done]. cbn [mbind option_bind].
    destruct (_ || _); [intros [= <-]; by apply (StatsInv_set_pc s t _ _ Ht)|]. destruct (_ <=? _)%Z; [|done].
    assert (StatsInv (loop_top cfg t ns version gen start s)) as Hl by (apply stats_loop_top; [by rewrite Ht|done]).
    destruct (groups s !! ns) as [g|] eqn:Hg; [|by intros [= <-]].
    destruct (iv_flags _ HI _ _ Hg) as [-> _]. rewrite andb_false_r. cbn [andb]. by intros [= <-].
  - destruct (_ <=? _)%Z; [|done]. intros [= <-]. by destruct HS.
  - intros [= <-]. destruct HS. by split.
Qed.

(** ** Runs *)

Lemma run_reach (l : list event) (s s' : State) : run cfg l s = Some s' -> reachable cfg s -> reachable cfg s'.
Proof.
  revert s. induction l as [|e l IH]; intros s; cbn [run]; [by intros [= ->]|].
  intros (s1 & He & Hl)%bind_Some Hs. apply (IH s1 Hl). unfold reachable in *. eapply rtc_r; [done|]. by exists e.
Qed.

Lemma run_keeps (P : State -> Prop) (ok : event -> Prop) (l : list event) (s s' : State) :
  (forall e a b, ok e -> Inv a -> P a -> exec cfg e a = Some b -> P b) ->
  Forall ok l -> Inv s -> P s -> run cfg l s = Some s' -> Inv s' /\ P s'.
Proof.
  intros Hstep Hl. revert s. induction Hl as [|e l He Hl IH]; intros s HI HP; cbn [run]; [by intros [= <-]|].
  intros (s1 & He1 & Hl1)%bind_Some. apply (IH s1); [by apply (exec_inv e s)|by apply (Hstep e s)|done].
Qed.

(** ** What the coalescer promises *)

Lemma read_delivered (r : response) : read_state (delivered r) = r.
Proof. by destruct r. Qed.

(** C21. Before the shutdown, a call that coalesced into a group and was woken by its leader
    returns the answer of that group's query, which is the only answer the group ever had, and the version the call
    asked for is within [maxVersionGap] of the version the leader asked for. *)
Theorem follower_gets_leader_answer (s : State) (t : thread) (ns : namespace) (v : Z) (gen : nat) :
  reachable cfg s -> shut s = false -> pcs s !! t = Some (Woken ns v gen) ->
  exists vl r s', (gen, ns, vl, r) ∈ history s /\ (Z.abs (v - vl) <= maxVersionGap cfg)%Z /\
    (forall ns' vl' r', (gen, ns', vl', r') ∈ history s -> (ns', vl', r') = (ns, vl, r)) /\
    exec cfg (Settle t) s = Some s' /\ pcs s' !! t = Some (Returned r).
Proof.
  intros [HI HG]%reachable_gen Hsh Ht. destruct (iv_pcs _ HI _ _ Ht) as (w & Hw & [?|(vl & r & Hin & -> & Hcl)]); [congruence|].
  exists vl, r. eexists. split_and!; [done|done| |cbn [exec]; by rewrite Ht|].
  - intros ns' vl' r' Hin'. apply list_elem_of_lookup in Hin as [i Hi], Hin' as [j Hj].
    assert (i = j) as ->; [|congruence]. apply (NoDup_lookup (answered_gens s) i j gen (gi_once _ HG));
      unfold answered_gens; rewrite list_lookup_fmap; [by rewrite Hi|by rewrite Hj].
  - cbn [set_pc pcs]. rewrite lookup_insert_eq. unfold state_of. rewrite Hsh, Hw. cbn [default from_option id]. by rewrite read_delivered.
Qed.

(** C36. The leader's last section: unless the coalescer was shut down, its group is still there;
    the leader returns what its query returned, the answer is stored for every call of the group,
    and the group is gone. *)
Theorem leader_answers_its_group (s : State) (t : thread) (ns : namespace) (gen : nat) (r : response) :
  reachable cfg s -> shut s = false -> pcs s !! t = Some (Finishing ns gen r) ->
  exists g s', groups s !! ns = Some g /\ generation g = gen /\ exec cfg (Finish t) s = Some s' /\
    pcs s' !! t = Some (Returned r) /\ groups s' = delete ns (groups s) /\
    (forall x v, (x, v) ∈ waiters g -> states s' !! x = Some (delivered r)) /\
    history s' = history s ++ [(gen, ns, minVersion g, r)].
Proof.
  intros [HI HG]%reachable_gen Hsh Ht. destruct (iv_pcs _ HI _ _ Ht) as [?|(v & g & Hg & Hgen & Hin)]; [congruence|].
  exists g. eexists. split_and!; [done|done|cbn [exec]; by rewrite Ht|..];
    unfold finish, complete; rewrite Hsh, Hg, Hgen, Nat.eqb_refl; cbn [set_pc pcs groups states history].
  - rewrite lookup_insert_eq. unfold state_of. cbn [states]. rewrite distribute_lookup, decide_True by (apply in_waiters; by exists v).
    cbn [default from_option id]. by rewrite read_delivered.
  - done.
  - intros x vx Hx. rewrite distribute_lookup, decide_True; [done|apply in_waiters; by exists vx].
  - done.
Qed.

(** C37. The shape of the coalescer. In every reachable state no call is ever promoted to leader,
    since every group there is has its query in progress. In the states before the shutdown a
    group consists of one leader that is executing the group's query (or whose query threw), which is its first
    waiter, and of distinct calls waiting for this group, no more than the limit, whose versions
    are within [maxVersionGap] of the leader's. A call that passed the check of [_shutdown] before
    the shutdown can still make a group after it, of which this is not claimed. *)
Theorem group_well_formed (s : State) :
  reachable cfg s ->
  (forall t ns gen r, pcs s !! t <> Some (Promoted ns gen) /\ pcs s !! t <> Some (PromotedFinishing ns gen r)) /\
  forall ns g, groups s !! ns = Some g ->
    queryInProgress g = true /\ queryCompleted g = false /\
    (shut s = false ->
     NoDup (waiters g).*1 /\ length (waiters g) <= Nat.max 1 (maxWaitersPerGroup cfg) /\
     exists tl rest, waiters g = (tl, minVersion g) :: rest /\
       (exists c, pcs s !! tl = Some c /\ leads c ns (generation g)) /\
       forall t v, (t, v) ∈ rest -> (Z.abs (v - minVersion g) <= maxVersionGap cfg)%Z /\
         exists start until, pcs s !! t = Some (Waiting ns v (generation g) start until)).
Proof.
  intros [HI _]%reachable_gen. split.
  - intros t ns gen r. split; intros Ht; destruct (iv_pcs _ HI _ _ Ht).
  - intros ns g Hg. destruct (iv_flags _ HI _ _ Hg). split_and!; [done|done|]. intros Hsh.
    by destruct (iv_groups _ HI Hsh ns g Hg).
Qed.

(** As long as the statistics are not reset: every counted request led a group, coalesced
    into one, was executed alone for its version or for want of room, or has not taken the mutex
    yet; the queries counted are the answers given to groups and the queries executed alone; and
    until the shutdown [activeGroups] is the number of groups. *)
Theorem statistics_account_for_requests (l : list event) (s : State) :
  Forall (fun e => e <> ResetStats) l -> run cfg l init_state = Some s ->
  totalRequests (stats s) = nextGeneration s + coalescedRequests (stats s) + versionGapSkippedRequests (stats s)
    + overflowRequests (stats s) + arrived_calls (pcs s) /\
  actualQueries (stats s) = length (history s) + versionGapSkippedRequests (stats s) + overflowRequests (stats s) /\
  (shut s = false -> activeGroups (stats s) = size (groups s)).
Proof.
  intros Hl Hrun. destruct (run_keeps StatsInv (fun e => e <> ResetStats) l init_state s) as [_ []]; try done.
  intros e a b He HI HS Hx. by apply (stats_exec e a b).
Qed.

Lemma not_in_left_group (s : State) (t : thread) (ns : namespace) (gen : nat) (v : Z) (c : pc) (x : Stats) :
  Inv s -> shut s = false -> in_group s t ns gen v ->
  forall ns' g v', groups (set_pc t c (set_stats x (leave_group t ns gen s))) !! ns' = Some g -> (t, v') ∉ waiters g.
Proof.
  intros HI Hsh (g & Hg & Hgen & Hin) ns' g' v'. unfold leave_group. rewrite Hg, Hgen, Nat.eqb_refl.
  cbn [set_pc set_stats set_group groups]. destruct (decide (ns' = ns)) as [->|Hne].
  - rewrite lookup_insert_eq. intros [= <-] Hin'. cbn [remove_waiter waiters] in Hin'.
    apply list_elem_of_filter in Hin' as [Hx _]. by apply Hx.
  - rewrite lookup_insert_ne by done. intros Hg' Hin'. apply Hne.
    by apply (group_unique s t ns' ns g' g v' v); [apply (iv_groups _ HI Hsh)..| |].
Qed.

(** A follower waits for a bounded time: the end of a wait is never later than
    [maxTotalWaitTime] after its start, and once that time has come, the next time the call runs
    it leaves the loop: with the answer or the shutdown it was woken for, or else with
    [ExceededTimeLimit], and then no group remembers it. *)
Theorem wait_is_bounded (s : State) (t : thread) (ns : namespace) (v : Z) (gen : nat) (start until : Z) :
  reachable cfg s -> pcs s !! t = Some (Waiting ns v gen start until) ->
  (until <= start + maxTotalWaitTime cfg)%Z /\
  ((start + maxTotalWaitTime cfg <= now s)%Z ->
   exists s', exec cfg (Wake t) s = Some s' /\
     (pcs s' !! t = Some (Woken ns v gen) \/
      pcs s' !! t = Some (Returned (Failed ExceededTimeLimit)) /\
      forall ns' g v', groups s' !! ns' = Some g -> (t, v') ∉ waiters g)).
Proof.
  intros [HI _]%reachable_gen Ht. destruct (iv_pcs _ HI _ _ Ht) as (H1 & H2 & w & Hw & H3). split; [done|].
  intros Hlate. cbn [exec]. rewrite Ht. unfold wake. rewrite Hw. cbn [mbind option_bind].
  destruct (shut s) eqn:Hsh; cbn [orb]; [eexists; split; [done|]; left; apply lookup_insert_eq|].
  destruct H3 as [?|H3]; [done|]. destruct (done w); [eexists; split; [done|]; left; apply lookup_insert_eq|].
  destruct (Z.leb_spec until (now s)); [|lia].
  exists (loop_top cfg t ns v gen start s). split.
  - destruct (groups s !! ns) as [g|] eqn:Hg; [|done].
    destruct (iv_flags _ HI _ _ Hg) as [-> _]. by rewrite andb_false_r.
  - right. unfold loop_top. destruct (Z.leb_spec (maxTotalWaitTime cfg) (now s - start)); [|lia].
    split; [apply lookup_insert_eq|]. by apply (not_in_left_group s t ns gen v).
Qed.

(** The group of a leader whose query threw stays. *)
Lemma thrown_stays (t : thread) (ns : namespace) (gen : nat) (e : event) (s s' : State) :
  e <> Shutdown -> Inv s -> pcs s !! t = Some (ThrewLeading ns gen) /\ shut s = false -> exec cfg e s = Some s' ->
  pcs s' !! t = Some (ThrewLeading ns gen) /\ shut s' = false.
Proof.
  intros He HI [Ht Hsh].
  assert (forall x c, x <> t -> pcs (set_pc x c s) !! t = Some (ThrewLeading ns gen)) as Hpc.
  { intros x c Hx. cbn. by rewrite lookup_insert_ne. }
  destruct e as [x ns' v|x|x r|x|x|x|x|d| |]; cbn [exec]; try done;
    try (destruct (pcs s !! x) as [[]|] eqn:Hx; try done); try (assert (x <> t) as Hxt by congruence).
  all: try (intros [= <-]; split; [by apply Hpc|done]).
  - intros [= <-]. unfold arrive. rewrite Hsh. split; [|done]. cbn. by rewrite lookup_insert_ne.
  - intros [= <-]. unfold enter, join. destruct (groups s !! ns0) as [g|].
    + destruct (_ <? _)%Z; [split; [by apply Hpc|done]|]. destruct (_ <=? _); [split; [by apply Hpc|done]|].
      set (s1 := set_stats _ _). destruct (loop_top_stats x ns0 version (generation g) (now s1) s1) as (_ & (c & Hc & _) & _).
      destruct (loop_top_frame x ns0 version (generation g) (now s1) s1) as (_ & _ & _ & Hf).
      cbn [generation]. rewrite Hc, Hf. cbn. by rewrite lookup_insert_ne.
    + cbn. by rewrite lookup_insert_ne.
  - intros [= <-]. unfold finish. rewrite Hsh. cbn. rewrite lookup_insert_ne by done. unfold complete.
    destruct (groups s !! ns0); [|done]. by destruct (_ =? _).
  - destruct (iv_pcs _ HI _ _ Hx).
  - unfold wake. destruct (states s !! x); [|done]. cbn [mbind option_bind].
    destruct (_ || _); [intros [= <-]; split; [by apply Hpc|done]|]. destruct (_ <=? _)%Z; [|done].
    assert (pcs (loop_top cfg x ns0 version gen0 start s) !! t = Some (ThrewLeading ns gen) /\
            shut (loop_top cfg x ns0 version gen0 start s) = false) as Hl.
    { destruct (loop_top_stats x ns0 version gen0 start s) as (_ & (c & Hc & _) & _).
      destruct (loop_top_frame x ns0 version gen0 start s) as (_ & _ & _ & Hf).
      rewrite Hc, Hf, lookup_insert_ne by done. done. }
    destruct (groups s !! ns0) as [g|] eqn:Hg; [|by intros [= <-]].
    destruct (iv_flags _ HI _ _ Hg) as [-> _]. rewrite andb_false_r. by intros [= <-].
  - destruct (_ <=? _)%Z; [|done]. by intros [= <-].
  - by intros [= <-].
Qed.

(** When the query of a leader throws, its group is never answered and never removed: after
    any further run without a shutdown the group of that generation is still registered under its
    namespace, so no later request for the namespace leads a group of its own. *)
Theorem thrown_leader_blocks_namespace (s s' : State) (t : thread) (ns : namespace) (gen : nat) (l : list event) :
  reachable cfg s -> shut s = false -> pcs s !! t = Some (ThrewLeading ns gen) ->
  Forall (fun e => e <> Shutdown) l -> run cfg l s = Some s' ->
  exists g, groups s' !! ns = Some g /\ generation g = gen /\ gen ∉ answered_gens s' /\
    forall x v, pcs s' !! x = Some (Arrived ns v) -> exists s'', exec cfg (Enter x) s' = Some s'' /\
      nextGeneration s'' = nextGeneration s'.
Proof.
  intros Hr Hsh Ht Hl Hrun. pose proof (run_reach l s s' Hrun Hr) as [HI HG]%reachable_gen.
  destruct (run_keeps (fun s => pcs s !! t = Some (ThrewLeading ns gen) /\ shut s = false) (fun e => e <> Shutdown) l s s')
    as [_ [Ht' Hsh']]; try done.
  { intros e a b He Ha Hp Hx. by apply (thrown_stays t ns gen e a b). }
  { by apply reachable_gen. }
  destruct (iv_pcs _ HI _ _ Ht') as [?|(v & g & Hg & Hgen & _)]; [congruence|].
  exists g. split_and!; [done|done| |].
  - apply (gi_live _ HG ns). unfold gens. by rewrite lookup_fmap, Hg, <- Hgen.
  - intros x vx Hx. cbn [exec]. rewrite Hx. eexists. split; [done|]. unfold enter, join. rewrite Hg.
    destruct (_ <? _)%Z; [done|]. destruct (_ <=? _); [done|].
    edestruct loop_top_frame as (_ & F & _). by rewrite F.
Qed.

Lemma run_cons (e : event) (l : list event) (s s1 s' : State) :
  exec cfg e s = Some s1 -> run cfg l s1 = Some s' -> run cfg (e :: l) s = Some s'.
Proof. intros He Hl. cbn [run]. by rewrite He. Qed.

Local Ltac norm :=
  cbn [exec arrive lead init_state shut set_stats groups nextGeneration states stats now pcs history set_pc set_group
       generation minVersion maxVersion waiters length app mbind option_bind delivered done orb fmap list_fmap fst].

(** A call that comes while another one with a close version executes its query. *)
Lemma shared_run (k : namespace) (v1 v2 : Z) (l : list doc) :
  (Z.abs (v1 - v2) <= maxVersionGap cfg)%Z -> 2 <= maxWaitersPerGroup cfg -> (0 < maxTotalWaitTime cfg)%Z ->
  exists s, run cfg [Arrive 1 k v1; Enter 1; Arrive 2 k v2; Enter 2; QueryReturns 1 (Docs l); Finish 1; Wake 2; Settle 2]
           init_state = Some s /\ pcs s !! 2 = Some (Returned (Docs l)).
Proof.
  intros Hgap Hw Ht. eexists. split.
  - eapply run_cons; [norm; by rewrite lookup_empty|]. norm.
    eapply run_cons; [norm; by rewrite lookup_insert_eq|]. unfold enter. norm. rewrite lookup_empty. norm.
    eapply run_cons; [norm; by rewrite !lookup_insert_ne, lookup_empty by done|]. norm.
    eapply run_cons; [norm; by rewrite lookup_insert_eq|]. unfold enter. norm. rewrite lookup_insert_eq. unfold join. norm.
    destruct (Z.ltb_spec (maxVersionGap cfg) (Z.max v1 v2 - Z.min v1 v2)); [lia|].
    destruct (Nat.leb_spec (maxWaitersPerGroup cfg) 1); [lia|]. unfold loop_top. norm.
    destruct (Z.leb_spec (maxTotalWaitTime cfg) (0 - 0)); [lia|].
    eapply run_cons; [norm; by rewrite !lookup_insert_ne, lookup_insert_eq by done|]. norm.
    eapply run_cons; [norm; by rewrite lookup_insert_eq|].
    unfold finish, complete. norm. rewrite lookup_insert_eq. norm. rewrite Nat.eqb_refl. norm.
    eapply run_cons.
    { norm. rewrite lookup_insert_ne, lookup_insert_ne, lookup_insert_eq by done. unfold wake. norm.
      rewrite distribute_lookup, decide_True; [norm; done|]. norm. set_solver. }
    norm. by eapply run_cons; [norm; by rewrite lookup_insert_eq|].
  - norm. rewrite lookup_insert_eq. unfold state_of. norm. rewrite distribute_lookup, decide_True; [done|]. norm. set_solver.
Qed.

End coalescer.
#[global] Arguments response : clear implicits.
#[global] Arguments State : clear implicits.
#[global] Arguments event : clear implicits.

(** ** Examples *)

Definition run_from_start (l : list (event nat)) : State nat := default init_state (run default_config l init_state).

Lemma run_from_start_reachable (l : list (event nat)) : reachable default_config (run_from_start l).
Proof.
  unfold run_from_start. destruct (run default_config l init_state) as [s|] eqn:Hl; [|apply rtc_refl].
  apply (run_reach default_config l init_state s Hl), rtc_refl.
Qed.

Definition chunks : namespace := lit "config.chunks".

(** Two calls for the same namespace, the second while the first executes its query. *)
Definition two_calls : list (event nat) := [Arrive 1 chunks 7; Arrive 2 chunks 9; Enter 1; Enter 2].

Lemma follower_gets_leader_answer_witness :
  let s := run_from_start (two_calls ++ [QueryReturns 1 (Docs [42]); Finish 1; Wake 2]) in
  exists vl r s', (1, chunks, vl, r) ∈ history s /\ (Z.abs (9 - vl) <= 500)%Z /\
    (forall ns' vl' r', (1, ns', vl', r') ∈ history s -> (ns', vl', r') = (chunks, vl, r)) /\
    exec default_config (Settle 2) s = Some s' /\ pcs s' !! 2 = Some (Returned r).
Proof.
  intros s. apply (follower_gets_leader_answer default_config s 2 chunks 9 1);
    [apply run_from_start_reachable|vm_compute; reflexivity|vm_compute; reflexivity].
Defined.

Lemma leader_answers_its_group_witness :
  let s := run_from_start (two_calls ++ [QueryReturns 1 (Docs [42])]) in
  exists g s', groups s !! chunks = Some g /\ generation g = 1 /\ exec default_config (Finish 1) s = Some s' /\
    pcs s' !! 1 = Some (Returned (Docs [42])) /\ groups s' = delete chunks (groups s) /\
    (forall x v, (x, v) ∈ waiters g -> states s' !! x = Some (delivered (Docs [42]))) /\
    history s' = history s ++ [(1, chunks, minVersion g, Docs [42])].
Proof.
  intros s. apply (leader_answers_its_group default_config s 1 chunks 1 (Docs [42]));
    [apply run_from_start_reachable|vm_compute; reflexivity|vm_compute; reflexivity].
Defined.

Lemma group_well_formed_witness :
  let s := run_from_start two_calls in
  (exists g, groups s !! chunks = Some g /\ length (waiters g) = 2) /\
  (forall t ns gen r, pcs s !! t <> Some (Promoted ns gen) /\ pcs s !! t <> Some (PromotedFinishing ns gen r)).
Proof.
  intros s. split; [eexists; split; vm_compute; reflexivity|].
  apply (group_well_formed default_config s (run_from_start_reachable two_calls)).
Defined.

Lemma statistics_account_for_requests_witness :
  let s := run_from_start two_calls in
  totalRequests (stats s) = nextGeneration s + coalescedRequests (stats s) + versionGapSkippedRequests (stats s)
    + overflowRequests (stats s) + arrived_calls (pcs s).
Proof.
  intros s. apply (statistics_account_for_requests default_config two_calls s).
  - unfold two_calls. repeat (constructor; [done|]). constructor.
  - vm_compute. reflexivity.
Defined.

Lemma wait_is_bounded_witness :
  let s := run_from_start (two_calls ++ [Tick 15000]) in
  exists s', exec default_config (Wake 2) s = Some s' /\
     (pcs s' !! 2 = Some (Woken chunks 9 1) \/
      pcs s' !! 2 = Some (Returned (Failed ExceededTimeLimit)) /\
      forall ns' g v', groups s' !! ns' = Some g -> (2, v') ∉ waiters g).
Proof.
  intros s. apply (wait_is_bounded default_config s 2 chunks 9 1 0 100);
    [apply run_from_start_reachable|vm_compute; reflexivity|vm_compute; discriminate].
Defined.

Lemma thrown_leader_blocks_namespace_witness :
  let s' := run_from_start (two_calls ++ [QueryThrows 1; Tick 20000; Wake 2; Arrive 3 chunks 9]) in
  exists g, groups s' !! chunks = Some g /\ generation g = 1 /\ 1 ∉ answered_gens s' /\
    forall x v, pcs s' !! x = Some (Arrived chunks v) -> exists s'', exec default_config (Enter x) s' = Some s'' /\
      nextGeneration s'' = nextGeneration s'.
Proof.
  intros s'. apply (thrown_leader_blocks_namespace default_config (run_from_start (two_calls ++ [QueryThrows 1])) s' 1 chunks 1
    [Tick 20000; Wake 2; Arrive 3 chunks 9]);
    [apply run_from_start_reachable|vm_compute; reflexivity|vm_compute; reflexivity| |vm_compute; reflexivity].
  repeat (constructor; [done|]). constructor.
Defined.

End Coal.

(** ** The caller in the [find] command *)
Module FindCmd.
Import Doc Coal.
Local Open Scope Z_scope.

(** The version of a request: [lastmod.$gt] of the filter, a timestamp, or 0. *)
Definition requestVersion (cmdObj : BSONObj) : Z :=
  let filter := getObjectField cmdObj (lit "filter") in
  if isEmpty filter then 0
  else
    match getField filter (lit "lastmod") with
    | Elem a n (VObject fs) =>
        match embeddedObject (Elem a n (VObject fs)) with
        | Some lastmodObj =>
            match getField lastmodObj (lit "$gt") with
            | Elem _ _ (VTimestamp ts) => ts
            | _ => 0
            end
        | None => 0
        end
    | _ => 0
    end.

(** The key and the version with which the command calls the coalescer, if it does. *)
Definition coalesces (configServer enabled : bool) (ns : bytes) (cmdObj : BSONObj) : option (bytes * Z) :=
  if configServer && bool_decide (ns = lit "config.chunks") && enabled then Some (ns, requestVersion cmdObj) else None.

(** The first batch of the reply; after an error the command goes on as if there were no coalescer. *)
Definition first_batch {doc : Type} (r : response doc) : option (list doc) :=
  match r with Docs l => Some l | Failed _ => None end.

(** The coalescer groups the queries by their namespace only: whatever the filters, sorts
    and limits of two concurrent [find] commands on [config.chunks], if the versions found in their
    filters are within [maxVersionGap] of each other (0 for all that have no [lastmod.$gt]), the
    second command is answered with the documents the first one asked for. *)
Theorem filters_share_an_answer (doc : Type) (cmd1 cmd2 : BSONObj) (l : list doc) (k1 k2 : bytes) (v1 v2 : Z) :
  coalesces true true (lit "config.chunks") cmd1 = Some (k1, v1) ->
  coalesces true true (lit "config.chunks") cmd2 = Some (k2, v2) ->
  Z.abs (v1 - v2) <= maxVersionGap default_config ->
  exists s r, run default_config [Arrive 1 k1 v1; Enter 1; Arrive 2 k2 v2; Enter 2; QueryReturns 1 (Docs l); Finish 1; Wake 2; Settle 2]
           init_state = Some s /\ pcs s !! 2%nat = Some (Returned r) /\ first_batch r = Some l.
Proof.
  unfold coalesces. cbn [andb]. rewrite bool_decide_eq_true_2 by done. cbn [andb]. intros [= <- <-] [= <- <-] Hgap.
  destruct (shared_run default_config (lit "config.chunks") (requestVersion cmd1) (requestVersion cmd2) l) as (s & Hs & Ht);
    [done|vm_compute; lia|done|].
  by exists s, (Docs l).
Qed.

(** The chunks of one collection are returned to the command that asked for another's. *)
Definition find_chunks (ns : bytes) : BSONObj :=
  mkObj 0 [(lit "find", VString (lit "chunks")); (lit "filter", VObject [(lit "ns", VString ns)])].

Lemma filters_share_an_answer_witness :
  find_chunks (lit "db.a") <> find_chunks (lit "db.b") /\
  exists s r, run default_config [Arrive 1 chunks 0; Enter 1; Arrive 2 chunks 0; Enter 2; QueryReturns 1 (Docs [lit "db.a-chunk"]);
                Finish 1; Wake 2; Settle 2] init_state = Some s /\
    pcs s !! 2%nat = Some (Returned r) /\ first_batch r = Some [lit "db.a-chunk"].
Proof.
  split; [vm_compute; discriminate|].
  apply (filters_share_an_answer bytes (find_chunks (lit "db.a")) (find_chunks (lit "db.b")) [lit "db.a-chunk"] chunks chunks 0 0);
    [vm_compute; reflexivity|vm_compute; reflexivity|vm_compute; discriminate].
Defined.

End FindCmd.
