(* ===== verification/XxHash.v ===== *)
(** * xxHash64

    [XXH64] of [third_party/xxhash/xxhash.h], the hash of the document integrity check: the
    one-shot function on a byte string, and the streaming interface ([XXH64_reset],
    [XXH64_update], [XXH64_digest]) with its 32-byte buffer. All arithmetic is modulo 2^64; the
    input is read in little-endian words, as on every host. *)
From S2P Require Import Prelude.

Module Xxh.

Definition XXH_PRIME64_1 : Z := 0x9E3779B185EBCA87.
Definition XXH_PRIME64_2 : Z := 0xC2B2AE3D27D4EB4F.
Definition XXH_PRIME64_3 : Z := 0x165667B19E3779F9.
Definition XXH_PRIME64_4 : Z := 0x85EBCA77C2B2AE63.
Definition XXH_PRIME64_5 : Z := 0x27D4EB2F165667C5.

Abbreviation u64 := (wrapu 64).

Definition XXH_rotl64 (x r : Z) : Z := Z.lor (u64 (Z.shiftl x r)) (Z.shiftr x (64 - r)).

Definition XXH64_round (acc input : Z) : Z :=
  let acc := u64 (acc + u64 (input * XXH_PRIME64_2)) in
  let acc := XXH_rotl64 acc 31 in
  u64 (acc * XXH_PRIME64_1).

Definition XXH64_mergeRound (acc val : Z) : Z :=
  let val := XXH64_round 0 val in
  let acc := Z.lxor acc val in
  u64 (u64 (acc * XXH_PRIME64_1) + XXH_PRIME64_4).

Definition XXH64_avalanche (hash : Z) : Z :=
  let hash := Z.lxor hash (Z.shiftr hash 33) in
  let hash := u64 (hash * XXH_PRIME64_2) in
  let hash := Z.lxor hash (Z.shiftr hash 29) in
  let hash := u64 (hash * XXH_PRIME64_3) in
  Z.lxor hash (Z.shiftr hash 32).

(** The last 0 to 31 bytes: words of eight bytes, one of four, single bytes. *)
Fixpoint finalize_words (hash : Z) (ptr : bytes) : Z * bytes :=
  match ptr with
  | b0 :: b1 :: b2 :: b3 :: b4 :: b5 :: b6 :: b7 :: ptr' =>
      let k1 := XXH64_round 0 (le_decode [b0; b1; b2; b3; b4; b5; b6; b7]) in
      let hash := Z.lxor hash k1 in
      finalize_words (u64 (u64 (XXH_rotl64 hash 27 * XXH_PRIME64_1) + XXH_PRIME64_4)) ptr'
  | _ => (hash, ptr)
  end.

Definition finalize_half (hash : Z) (ptr : bytes) : Z * bytes :=
  if (4 <=? length ptr)%nat then
    let hash := Z.lxor hash (u64 (le_decode (take 4 ptr) * XXH_PRIME64_1)) in
    (u64 (u64 (XXH_rotl64 hash 23 * XXH_PRIME64_2) + XXH_PRIME64_3), drop 4 ptr)
  else (hash, ptr).

Definition finalize_byte (hash b : Z) : Z :=
  let hash := Z.lxor hash (u64 (b * XXH_PRIME64_5)) in
  u64 (XXH_rotl64 hash 11 * XXH_PRIME64_1).

Definition XXH64_finalize (hash : Z) (ptr : bytes) (len : Z) : Z :=
  let ptr := take (Z.to_nat (Z.land len 31)) ptr in
  let '(hash, ptr) := finalize_words hash ptr in
  let '(hash, ptr) := finalize_half hash ptr in
  XXH64_avalanche (foldl finalize_byte hash ptr).

(** The four accumulators, and one stripe of 32 bytes. *)
Record lanes := mkLanes { v1 : Z; v2 : Z; v3 : Z; v4 : Z }.

Definition init_lanes (seed : Z) : lanes :=
  mkLanes (u64 (u64 (seed + XXH_PRIME64_1) + XXH_PRIME64_2)) (u64 (seed + XXH_PRIME64_2)) (u64 (seed + 0))
    (u64 (seed - XXH_PRIME64_1)).

Definition readLE64 (p : bytes) : Z := le_decode (take 8 p).

Definition stripe (v : lanes) (p : bytes) : lanes :=
  mkLanes (XXH64_round (v1 v) (readLE64 p)) (XXH64_round (v2 v) (readLE64 (drop 8 p)))
    (XXH64_round (v3 v) (readLE64 (drop 16 p))) (XXH64_round (v4 v) (readLE64 (drop 24 p))).

(** The do-while loop over the stripes; it is entered with 32 bytes at least. *)
Fixpoint stripes (fuel : nat) (v : lanes) (input : bytes) : lanes * bytes :=
  match fuel with
  | O => (v, input)
  | S fuel =>
      let v := stripe v input in
      let input := drop 32 input in
      if (32 <=? length input)%nat then stripes fuel v input else (v, input)
  end.

Definition converge (v : lanes) : Z :=
  let h64 := u64 (u64 (u64 (XXH_rotl64 (v1 v) 1 + XXH_rotl64 (v2 v) 7) + XXH_rotl64 (v3 v) 12) + XXH_rotl64 (v4 v) 18) in
  let h64 := XXH64_mergeRound h64 (v1 v) in
  let h64 := XXH64_mergeRound h64 (v2 v) in
  let h64 := XXH64_mergeRound h64 (v3 v) in
  XXH64_mergeRound h64 (v4 v).

(** [XXH64_endian_align] and [XXH64]. *)
Definition XXH64 (input : bytes) (seed : Z) : Z :=
  let len := Z.of_nat (length input) in
  let '(h64, rest) :=
    if (32 <=? length input)%nat then
      let '(v, rest) := stripes (length input) (init_lanes seed) input in (converge v, rest)
    else (u64 (seed + XXH_PRIME64_5), input) in
  XXH64_finalize (u64 (h64 + u64 len)) rest len.

(** *** Streaming *)

(** [mem64] holds its first [memsize] bytes. *)
Record XXH64_state := mkXXH { total_len : Z; v : lanes; mem64 : bytes }.

Definition XXH64_reset (seed : Z) : XXH64_state := mkXXH 0 (init_lanes seed) [].

Definition XXH64_update (state : XXH64_state) (input : bytes) : XXH64_state :=
  let total := u64 (total_len state + Z.of_nat (length input)) in
  let memsize := length (mem64 state) in
  if (memsize + length input <? 32)%nat then mkXXH total (v state) (mem64 state ++ input)
  else
    let '(v, p) :=
      if (0 <? memsize)%nat then
        (stripe (v state) (mem64 state ++ take (32 - memsize) input), drop (32 - memsize) input)
      else (v state, input) in
    let '(v, p) := if (32 <=? length p)%nat then stripes (length p) v p else (v, p) in
    mkXXH total v p.

Definition XXH64_digest (state : XXH64_state) : Z :=
  let h64 :=
    if 32 <=? total_len state then converge (v state)
    else u64 (v3 (v state) + XXH_PRIME64_5) in
  XXH64_finalize (u64 (h64 + total_len state)) (mem64 state) (total_len state).

(** The published hash of the empty input, and of a text longer than a stripe. *)
Lemma XXH64_vectors :
  XXH64 [] 0 = 0xEF46DB3751D8E999 /\
  XXH64 (lit "abc") 0 = 0x44BC2CF5AD770999 /\
  XXH64 (lit "Nobody inspects the spammish repetition") 0 = 0xFBCEA83C8A378BF1.
Proof. vm_compute. done. Qed.
(** ** Stripes *)

Fixpoint nstripes (n : nat) (v : lanes) (p : bytes) : lanes :=
  match n with O => v | S n => nstripes n (stripe v p) (drop 32 p) end.

Lemma nstripes_add (a b : nat) (v : lanes) (p : bytes) :
  nstripes (a + b) v p = nstripes b (nstripes a v p) (drop (32 * a) p).
Proof.
  revert v p. induction a as [|a IH]; intros v p; [done|]. cbn [nstripes Nat.add]. rewrite IH, drop_drop.
  do 2 f_equal. lia.
Qed.

Lemma stripe_app (v : lanes) (p q : bytes) : (32 <= length p)%nat -> stripe v (p ++ q) = stripe v p.
Proof.
  intros Hp. unfold stripe, readLE64. rewrite !drop_app_le by lia. rewrite !take_app_le by (rewrite ?length_drop; lia). done.
Qed.

Lemma nstripes_app (n : nat) (v : lanes) (p q : bytes) : (32 * n <= length p)%nat -> nstripes n v (p ++ q) = nstripes n v p.
Proof.
  revert v p. induction n as [|n IH]; intros v p Hp; [done|]. cbn [nstripes].
  rewrite stripe_app, drop_app_le, IH by (rewrite ?length_drop; lia). done.
Qed.

(** The loop consumes all the whole stripes. *)
Lemma stripes_spec (fuel : nat) (v : lanes) (p : bytes) :
  (length p <= fuel)%nat -> (32 <= length p)%nat ->
  stripes fuel v p = (nstripes (length p / 32) v p, drop (32 * (length p / 32)) p).
Proof.
  revert v p. induction fuel as [|fuel IH]; intros v p Hf Hp; [lia|]. cbn [stripes].
  assert (length p / 32 = S (length (drop 32 p) / 32))%nat as Hq.
  { rewrite length_drop. replace (length p) with (1 * 32 + (length p - 32))%nat at 1 by lia. by rewrite Nat.div_add_l. }
  rewrite Hq. cbn [nstripes]. destruct (Nat.leb_spec 32 (length (drop 32 p))) as [H|H].
  - rewrite IH by (rewrite ?length_drop in *; lia). rewrite drop_drop. f_equal. f_equal. lia.
  - rewrite (Nat.div_small _ _ H). done.
Qed.

(** From any stripe boundary on. *)
Lemma stripes_from (k : nat) (v0 : lanes) (m : bytes) :
  (32 * k <= length m)%nat ->
  (let p := drop (32 * k) m in
   if (32 <=? length p)%nat then stripes (length p) (nstripes k v0 m) p else (nstripes k v0 m, p)) =
  (nstripes (length m / 32) v0 m, drop (32 * (length m / 32)) m).
Proof.
  intros Hk. cbn zeta.
  assert (length m / 32 = k + length (drop (32 * k) m) / 32)%nat as Hq.
  { rewrite length_drop. replace (length m) with (k * 32 + (length m - 32 * k))%nat at 1 by lia. by rewrite Nat.div_add_l. }
  destruct (Nat.leb_spec 32 (length (drop (32 * k) m))) as [H|H].
  - rewrite stripes_spec by lia. rewrite Hq, nstripes_add, drop_drop. f_equal. f_equal. lia.
  - rewrite Hq, (Nat.div_small _ _ H), Nat.add_0_r. done.
Qed.

(** ** Streaming *)

(** The state after the bytes [l]. *)
Definition consumed (seed : Z) (l : bytes) (st : XXH64_state) : Prop :=
  total_len st = u64 (Z.of_nat (length l)) /\
  v st = nstripes (length l / 32) (init_lanes seed) l /\
  mem64 st = drop (32 * (length l / 32)) l.

Lemma update_consumed (seed : Z) (l x : bytes) (st : XXH64_state) :
  consumed seed l st -> consumed seed (l ++ x) (XXH64_update st x).
Proof.
  intros (Ht & Hv & Hm). pose proof (Nat.div_mod_eq (length l) 32) as Hdm. pose proof (Nat.mod_upper_bound (length l) 32 ltac:(lia)) as Hlt.
  set (q := (length l / 32)%nat) in *. set (m := (length l mod 32)%nat) in *.
  assert (length (mem64 st) = m) as Hlen by (rewrite Hm, length_drop; lia).
  assert (u64 (total_len st + Z.of_nat (length x)) = u64 (Z.of_nat (length (l ++ x)))) as Htot.
  { rewrite Ht, length_app, Nat2Z.inj_add. unfold wrapu. by rewrite Zplus_mod_idemp_l. }
  assert (forall v p, (v, p) = (nstripes (length (l ++ x) / 32) (init_lanes seed) (l ++ x), drop (32 * (length (l ++ x) / 32)) (l ++ x)) ->
            consumed seed (l ++ x) (mkXXH (u64 (total_len st + Z.of_nat (length x))) v p)) as Hfin.
  { intros v' p' [= -> ->]. by split_and!. }
  unfold XXH64_update. rewrite Hlen. destruct (Nat.ltb_spec (m + length x) 32) as [Hs|Hs].
  - apply Hfin. rewrite length_app.
    replace ((length l + length x) / 32)%nat with q by (apply (Nat.div_unique _ _ _ (m + length x)); lia).
    rewrite nstripes_app, drop_app_le, Hv, Hm by lia. done.
  - assert ((if (0 <? m)%nat then (stripe (v st) (mem64 st ++ take (32 - m) x), drop (32 - m) x) else (v st, x)) =
            (let k := if (0 <? m)%nat then S q else q in
             (nstripes k (init_lanes seed) (l ++ x), drop (32 * k) (l ++ x)))) as ->.
    { cbn zeta. destruct (Nat.ltb_spec 0 m) as [H0|H0].
      - f_equal.
        + replace (S q) with (q + 1)%nat by lia. rewrite nstripes_add, nstripes_app, <- Hv by lia. cbn [nstripes].
          rewrite drop_app_le, <- Hm by lia. rewrite <- (take_drop (32 - m) x) at 2. rewrite app_assoc.
          rewrite (stripe_app _ (mem64 st ++ take (32 - m) x)); [done|]. rewrite length_app, Hlen, length_take. lia.
        + rewrite drop_app_ge by lia. f_equal. lia.
      - rewrite nstripes_app by lia. rewrite Hv, drop_app_ge by lia.
        replace (32 * q - length l)%nat with 0%nat by lia. done. }
    cbn zeta. set (k := if (0 <? m)%nat then S q else q).
    assert (32 * k <= length (l ++ x))%nat as Hk
      by (rewrite length_app; unfold k; destruct (Nat.ltb_spec 0 m); lia).
    pose proof (stripes_from k (init_lanes seed) (l ++ x) Hk) as Hst. cbn zeta in Hst. cbv beta iota. rewrite Hst. by apply Hfin.
Qed.

Lemma XXH64_consumed (seed : Z) (l : bytes) (st : XXH64_state) :
  Z.of_nat (length l) < 2 ^ 64 -> consumed seed l st -> XXH64_digest st = XXH64 l seed.
Proof.
  intros Hl (Ht & Hv & Hm). unfold XXH64_digest, XXH64. rewrite Ht, Hv, Hm, (wrapu_small 64 (Z.of_nat (length l))) by lia.
  destruct (Nat.leb_spec 32 (length l)) as [H|H].
  - rewrite stripes_spec by lia. destruct (Z.leb_spec 32 (Z.of_nat (length l))); [done|lia].
  - destruct (Z.leb_spec 32 (Z.of_nat (length l))); [lia|]. rewrite (Nat.div_small _ _ H). cbn [nstripes init_lanes v3].
    assert (u64 (u64 (seed + 0) + XXH_PRIME64_5) = u64 (seed + XXH_PRIME64_5)) as ->; [|done].
    unfold wrapu. by rewrite Zplus_mod_idemp_l, Z.add_0_r.
Qed.

(** Feeding the input to the streaming interface in any pieces, of any sizes, gives the
    one-shot hash of the whole input, for every seed and every length that a 64-bit counter
    holds. *)
Theorem streaming_is_one_shot (seed : Z) (chunks : list bytes) :
  Z.of_nat (length (concat chunks)) < 2 ^ 64 ->
  XXH64_digest (foldl XXH64_update (XXH64_reset seed) chunks) = XXH64 (concat chunks) seed.
Proof.
  intros Hl. apply XXH64_consumed; [done|].
  assert (forall st l, consumed seed l st -> consumed seed (l ++ concat chunks) (foldl XXH64_update st chunks)) as Hall.
  { clear Hl. induction chunks as [|x chunks IH]; intros st l Hst; cbn [foldl concat]; [by rewrite app_nil_r|].
    rewrite app_assoc. apply IH. by apply update_consumed. }
  apply (Hall (XXH64_reset seed) []). by split_and!.
Qed.

Lemma streaming_is_one_shot_witness :
  XXH64_digest (foldl XXH64_update (XXH64_reset 7) [lit "Nobody inspects"; []; lit " the spammish repetition"]) =
  XXH64 (lit "Nobody inspects the spammish repetition") 7.
Proof.
  apply (streaming_is_one_shot 7 [lit "Nobody inspects"; []; lit " the spammish repetition"]). vm_compute. reflexivity.
Defined.

(** *** Range *)

Lemma lxor_range (a b : Z) : 0 <= a < 2 ^ 64 -> 0 <= b < 2 ^ 64 -> 0 <= Z.lxor a b < 2 ^ 64.
Proof.
  intros Ha Hb. split; [by apply Z.lxor_nonneg; split; intros; lia|].
  destruct (Z.eq_dec (Z.lxor a b) 0) as [->|Hn]; [lia|].
  assert (0 <= Z.lxor a b) by (apply Z.lxor_nonneg; split; intros; lia).
  apply Z.log2_lt_pow2; [lia|]. eapply Z.le_lt_trans; [apply Z.log2_lxor; lia|].
  apply Z.max_lub_lt; (destruct (Z.eq_dec a 0) as [->|]; [|]); (destruct (Z.eq_dec b 0) as [->|]; [|]); cbn; try lia;
    apply Z.log2_lt_pow2; lia.
Qed.

Lemma XXH64_range (input : bytes) (seed : Z) : 0 <= XXH64 input seed < 2 ^ 64.
Proof.
  unfold XXH64. destruct (if (32 <=? length input)%nat then _ else _) as [h r]. unfold XXH64_finalize.
  destruct (finalize_words _ _) as [h1 p1]. destruct (finalize_half h1 p1) as [h2 p2]. unfold XXH64_avalanche.
  set (x := u64 (_ * XXH_PRIME64_3)). assert (0 <= x < 2 ^ 64) as Hx by (apply wrapu_range; lia).
  apply lxor_range; [done|]. rewrite Z.shiftr_div_pow2 by lia. split; [apply Z.div_pos; lia|].
  apply Z.div_lt_upper_bound; lia.
Qed.

End Xxh.
