(* ===== verification/Integrity.v ===== *)
(** * Document integrity

    The integrity check of inserted and updated documents: [db/catalog/document_integrity.cpp].
    A client seals a document with the field [_$docHash], an xxHash64 of the rest; the server
    recomputes the hash, rejects the document if it differs, and removes the field. Documents are
    the located objects of [DottedPath]; what is hashed are their bytes. *)
From S2P Require Import Prelude Bson DottedPath XxHash.

Module Integrity.
Import Doc Xxh.

Definition kDocHashFieldName : bytes := lit "_$docHash".

(** A status: [None] is OK, otherwise the error code. *)
Abbreviation Status := (option Z).
Definition BadValue : Z := 2.
Definition DocumentIntegrityError : Z := 203.

Definition hasField (doc : BSONObj) (name : bytes) : bool := negb (eoo (getField doc name)).

Definition objsize (doc : BSONObj) : Z := Z.of_nat (length (enc_obj (fields doc))).

(** [n] bytes of the object, from the address [p] on. *)
Definition bytes_at (doc : BSONObj) (p n : Z) : bytes :=
  take (Z.to_nat n) (drop (Z.to_nat (p - objdata doc)) (enc_obj (fields doc))).

(** An object built in a buffer of its own. *)
Definition built (fs : list field) : BSONObj := mkObj 0 fs.

(** The rebuilding loop, which leaves out every [_$docHash]. *)
Definition without_hash (doc : BSONObj) : BSONObj :=
  built (filter (fun f : field => f.1 <> kDocHashFieldName) (fields doc)).

Definition elem_size (e : Element) : Z :=
  match e with Eoo => 1 | Elem _ n v => Z.of_nat (length (enc_elem (n, v))) end.

Definition computeDocumentHash (doc : BSONObj) : Z :=
  if negb (hasField doc kDocHashFieldName) then XXH64 (bytes_at doc (objdata doc) (objsize doc)) 0
  else
    let compatible :=
      let cleanDoc := without_hash doc in
      XXH64 (bytes_at cleanDoc (objdata cleanDoc) (objsize cleanDoc)) 0 in
    match firstElement doc with
    | Elem addr n v =>
        if bool_decide (n = kDocHashFieldName) then
          let afterHashElem := addr + elem_size (Elem addr n v) in
          let docEnd := objdata doc + objsize doc in
          let remainingSize := docEnd - afterHashElem - 1 in
          if 0 <? remainingSize then XXH64 (bytes_at doc afterHashElem remainingSize) 0 else XXH64 [] 0
        else compatible
    | Eoo => compatible
    end.

Definition extractDocumentHash (doc : BSONObj) : option Z :=
  match getField doc kDocHashFieldName with
  | Elem _ _ (VLong n) => Some (wrapu 64 n)
  | _ => None
  end.

Definition verifyDocumentIntegrity (doc : BSONObj) : Status :=
  match extractDocumentHash doc with
  | None => if hasField doc kDocHashFieldName then Some BadValue else None
  | Some expectedHash =>
      let actualHash := computeDocumentHash doc in
      if actualHash =? expectedHash then None else Some DocumentIntegrityError
  end.

Definition stripHashField (doc : BSONObj) : BSONObj :=
  if negb (hasField doc kDocHashFieldName) then built (fields doc) else without_hash doc.

(** The update paths: [performSingleUpdateOp] and [makeUpdateRequest] of [findAndModify]. *)
Definition checkedUpdateSpec (updateSpec : BSONObj) : Z + BSONObj :=
  if hasField updateSpec kDocHashFieldName then
    match verifyDocumentIntegrity updateSpec with
    | Some code => inl code
    | None => inr (stripHashField updateSpec)
    end
  else inr updateSpec.

(** [IndexCatalog::_isSpecOk]: the reserved field is not indexed. *)
Definition indexesReservedField (key : BSONObj) : bool :=
  existsb (fun f : field =>
    bool_decide (f.1 = kDocHashFieldName) ||
    bool_decide (take (S (length kDocHashFieldName)) f.1 = kDocHashFieldName ++ [46])) (fields key).

(** The router: [BatchedCommandRequest::cloneWithIds] on one document. *)
Definition addId (oid : bytes) (insert : BSONObj) : BSONObj :=
  if eoo (getField insert (lit "_id")) then built ((lit "_id", VOID oid) :: fields insert) else insert.

(** ** Lemmas *)

Definition has_hash (f : field) : Prop := f.1 = kDocHashFieldName.
#[export] Instance has_hash_dec (f : field) : Decision (has_hash f) := decide (f.1 = kDocHashFieldName).

Lemma getField_hash (doc : BSONObj) :
  getField doc kDocHashFieldName =
  match list_find has_hash (fields doc) with
  | Some (i, f) => Elem (objdata doc + 4 + Z.of_nat (length (enc_fields (take i (fields doc))))) f.1 f.2
  | None => Eoo
  end.
Proof. exact (Dps.getField_find doc kDocHashFieldName). Qed.

Lemma without_hash_fields (doc : BSONObj) : fields (without_hash doc) = filter (fun f => ~ has_hash f) (fields doc).
Proof. done. Qed.

Lemma bytes_at_all (doc : BSONObj) : bytes_at doc (objdata doc) (objsize doc) = enc_obj (fields doc).
Proof. unfold bytes_at, objsize. rewrite Z.sub_diag, Nat2Z.id. cbn. by rewrite take_ge. Qed.

Lemma bytes_at_tail (a : Z) (f : field) (fs : list field) :
  let doc := mkObj a (f :: fs) in
  let after := a + 4 + Z.of_nat (length (enc_elem f)) in
  let rest := objdata doc + objsize doc - after - 1 in
  rest = Z.of_nat (length (enc_fields fs)) /\ bytes_at doc after rest = enc_fields fs.
Proof.
  cbn zeta. assert (objsize (mkObj a (f :: fs)) = Z.of_nat (length (enc_elem f)) + Z.of_nat (length (enc_fields fs)) + 5) as Hs.
  { unfold objsize. cbn [fields]. rewrite length_enc_obj, enc_fields_cons, length_app. lia. }
  cbn [objdata]. rewrite Hs. assert (forall n m, a + (n + m + 5) - (a + 4 + n) - 1 = m) as -> by lia. split; [done|].
  unfold bytes_at. cbn [objdata fields]. replace (a + 4 + Z.of_nat (length (enc_elem f)) - a) with (Z.of_nat (4 + length (enc_elem f))) by lia.
  rewrite !Nat2Z.id. unfold enc_obj, wrap_doc. rewrite enc_fields_cons.
  rewrite <- drop_drop, drop_app_length' by (by rewrite length_le_encode).
  rewrite <- !app_assoc, drop_app_length, take_app_length. done.
Qed.

(** What the client signs: the bytes of the fields after a leading [_$docHash], and the whole
    document without it when it stands elsewhere. *)
Definition signed_bytes (i : nat) (fs : list field) : bytes :=
  match i with
  | O => enc_fields (tail fs)
  | S _ => enc_obj (filter (fun f => ~ has_hash f) fs)
  end.

Lemma hash_of_signed (doc : BSONObj) (i : nat) (f : field) :
  list_find has_hash (fields doc) = Some (i, f) -> computeDocumentHash doc = XXH64 (signed_bytes i (fields doc)) 0.
Proof.
  intros Hf. unfold computeDocumentHash, hasField.
  assert (getField doc kDocHashFieldName <> Eoo) as He by (by rewrite getField_hash, Hf).
  destruct (getField doc kDocHashFieldName) eqn:Hg; [done|]. clear He Hg. cbn [eoo negb].
  destruct doc as [a [|g fs]]; [done|]. unfold firstElement, elements. cbn [fields objdata elements_from head default from_option id].
  cbn [fields list_find] in Hf. destruct g as [n w]. cbn [fst snd].
  destruct (decide (has_hash (n, w))) as [Hn|Hn].
  - injection Hf as <- <-. rewrite bool_decide_eq_true_2 by done. cbn [signed_bytes tail elem_size].
    destruct (bytes_at_tail a (n, w) fs) as [Hl Hb]. cbn [objdata] in Hl, Hb. rewrite Hl in Hb |- *. rewrite Hb.
    destruct (Z.ltb_spec 0 (Z.of_nat (length (enc_fields fs)))); [done|].
    destruct (enc_fields fs); [done|cbn in *; lia].
  - rewrite bool_decide_eq_false_2 by done. destruct (list_find has_hash fs) as [[j y]|]; [|done]. cbn in Hf. injection Hf as <- <-.
    rewrite bytes_at_all. done.
Qed.


Lemma find_sealed (a b : list field) (x : value) :
  Forall (fun f => ~ has_hash f) a ->
  list_find has_hash (a ++ (kDocHashFieldName, x) :: b) = Some (length a, (kDocHashFieldName, x)).
Proof.
  intros Ha. apply list_find_Some. split_and!; [by rewrite list_lookup_middle|done|].
  intros j y Hj Hlt. rewrite lookup_app_l in Hj by done. rewrite Forall_lookup in Ha. by apply (Ha j).
Qed.

Lemma filter_sealed (a b : list field) (x : value) :
  Forall (fun f => ~ has_hash f) (a ++ b) ->
  filter (fun f => ~ has_hash f) (a ++ (kDocHashFieldName, x) :: b) = a ++ b.
Proof.
  intros [Ha Hb]%Forall_app. rewrite filter_app, filter_cons_False by (intros H; by apply H).
  by rewrite !filter_all.
Qed.

(** Sealing a document: the hash field at a position of the client's choice. *)
Definition seal (a b : list field) : list field :=
  a ++ (kDocHashFieldName, VLong (wraps 64 (XXH64 (match a with [] => enc_fields b | _ => enc_obj (a ++ b) end) 0))) :: b.

Lemma sealed_round_trip_aux (addr : Z) (a b : list field) :
  Forall (fun f => ~ has_hash f) (a ++ b) ->
  verifyDocumentIntegrity (mkObj addr (seal a b)) = None /\
  fields (stripHashField (mkObj addr (seal a b))) = a ++ b /\
  checkedUpdateSpec (mkObj addr (seal a b)) = inr (built (a ++ b)).
Proof.
  intros H. pose proof H as [Ha Hb]%Forall_app.
  set (h := XXH64 (match a with [] => enc_fields b | _ => enc_obj (a ++ b) end) 0).
  assert (hasField (mkObj addr (seal a b)) kDocHashFieldName = true) as Hh.
  { unfold hasField. rewrite getField_hash.  cbn [fields].
    unfold seal. by rewrite find_sealed. }
  assert (stripHashField (mkObj addr (seal a b)) = built (a ++ b)) as Hs.
  { unfold stripHashField. rewrite Hh. cbn [negb]. unfold without_hash, built. f_equal. by apply filter_sealed. }
  assert (verifyDocumentIntegrity (mkObj addr (seal a b)) = None) as Hv; [|unfold checkedUpdateSpec; by rewrite Hh, Hv, Hs].
  unfold verifyDocumentIntegrity, extractDocumentHash. 
  rewrite getField_hash.  cbn [fields].
  pose proof (find_sealed a b (VLong (wraps 64 h)) Ha) as Hf. fold h in Hf. unfold seal at 1. fold h. rewrite Hf.
  rewrite (hash_of_signed (mkObj addr (seal a b)) (length a) _ Hf). cbn [fields fst snd].
  assert (wrapu 64 (wraps 64 h) = h) as ->.
  { unfold wrapu. rewrite wraps_mod. apply Z.mod_small, XXH64_range. }
  assert (signed_bytes (length a) (seal a b) = match a with [] => enc_fields b | _ => enc_obj (a ++ b) end) as ->;
    [|by rewrite Z.eqb_refl].
  destruct a as [|f a]; [done|]. cbn [length signed_bytes]. unfold seal. by rewrite filter_sealed.
Qed.



(** A document sealed with the leading field and routed by a [mongos], which puts the generated
    [_id] in front, is refused. *)
Lemma routed_document_refused :
  let sealed := mkObj 0 (seal [] [(lit "a", VInt 1)]) in
  verifyDocumentIntegrity sealed = None /\
  verifyDocumentIntegrity (addId (replicate 12 7) sealed) = Some DocumentIntegrityError.
Proof. vm_compute. done. Qed.

(** The bytes of a second [_$docHash] are part of what a leading one signs, and are removed all
    the same: what is stored is not what was verified. *)
Lemma second_hash_field_dropped (b : list field) (x : Z) :
  Forall (fun f => ~ has_hash f) b ->
  let doc := mkObj 0 ((kDocHashFieldName, VLong (wraps 64 (XXH64 (enc_fields ((kDocHashFieldName, VLong x) :: b)) 0)))
                       :: (kDocHashFieldName, VLong x) :: b) in
  verifyDocumentIntegrity doc = None /\ fields (stripHashField doc) = b.
Proof.
  intros Hb doc. split.
  - unfold verifyDocumentIntegrity, extractDocumentHash. rewrite getField_hash.
      assert (list_find has_hash (fields doc) = Some (0%nat, ((kDocHashFieldName, VLong (wraps 64 (XXH64 (enc_fields ((kDocHashFieldName, VLong x) :: b)) 0))) : field))) as Hf by done.
    rewrite Hf, (hash_of_signed _ _ _ Hf). cbn [fields signed_bytes tail doc fst snd].
    rewrite <- (wrapu_small 64 (XXH64 _ _)) at 1 by apply XXH64_range.
    unfold wrapu. rewrite wraps_mod, Z.eqb_refl. done.
  - unfold stripHashField, hasField. rewrite getField_hash. cbn [fields doc list_find].
    rewrite decide_True by done. cbn [eoo negb]. rewrite without_hash_fields. cbn [fields doc].
    rewrite !filter_cons_False by (intros H; by apply H). by apply filter_all.
Qed.

End Integrity.
