(* ===== verification/Namespace.v ===== *)
(** * Namespaces

    [NamespaceString] and the free functions of [db/namespace_string.h], [-inl.h] and [.cpp], and
    the rules of [db/ops/insert.cpp] for the namespaces users may write to. Strings are their
    bytes: the comparisons and searches of [StringData] are exact ([StringData.v]), so they are
    written here as operations on byte lists. *)
From S2P Require Import Prelude StringData.

Module Ns.

Definition dot : Z := 46.
Definition dollar : Z := 36.

(** [ns == lit], [ns.startsWith(p)], [ns.find(p) != npos]. *)
Definition same (s : bytes) (l : string) : bool := bool_decide (s = lit l).
Definition starts (s p : bytes) : bool := bool_decide (take (length p) s = p).
Fixpoint contains (s p : bytes) : bool :=
  starts s p || match s with [] => false | _ :: s' => contains s' p end.

(** ** Names *)

Definition normal_char (c : Z) : bool := negb (bool_decide (c ∈ [0; 47; 92; 46; 32; 34])).

(** [allowDollar] is [DollarInDbNameBehavior::Allow]. *)
Definition validDBName (db : bytes) (allowDollar : bool) : bool :=
  if (length db =? 0)%nat || (64 <=? length db)%nat then false
  else forallb (fun c => normal_char c && (allowDollar || negb (c =? dollar))) db.

Definition validCollectionName (coll : bytes) : bool :=
  match coll with
  | [] => false
  | c :: _ => if c =? dot then false else forallb (fun c => negb ((c =? 0) || (c =? dollar))) coll
  end.

Definition oplog (ns : bytes) : bool := starts ns (lit "local.oplog.").
Definition virtualized (ns : bytes) : bool := bool_decide (dollar ∈ ns) && negb (same ns "local.oplog.$main").
Definition normal (ns : bytes) : bool := negb (virtualized ns).

(** [substr] throws when the namespace has no dot. *)
Definition special (ns : bytes) : option bool :=
  if negb (normal ns) then Some true
  else i ← SD.memchr ns dot; Some (starts (drop i ns) (lit ".system.")).

Definition internalDb (db : bytes) : bool := same db "admin" || same db "local" || same db "config".

Definition validCollectionComponent (ns : bytes) : bool :=
  match SD.memchr ns dot with
  | None => false
  | Some idx => validCollectionName (drop (S idx) ns) || oplog ns
  end.

(** The database and collection of a full name; an error is the code of the failed assertion. *)
Definition MaxDatabaseNameLen : nat := 128.

Definition nsToDatabaseSubstring (ns : bytes) : Z + bytes :=
  match SD.memchr ns dot with
  | None => if (length ns <? MaxDatabaseNameLen)%nat then inr ns else inl 10078
  | Some i => if (i <? MaxDatabaseNameLen)%nat then inr (take i ns) else inl 10088
  end.

Definition nsToCollectionSubstring (ns : bytes) : Z + bytes :=
  match SD.memchr ns dot with
  | None => inl 16886
  | Some i => inr (drop (S i) ns)
  end.

Definition nsIsFull (ns : bytes) : bool :=
  match SD.memchr ns dot with None => false | Some i => negb (i =? length ns - 1)%nat end.
Definition nsIsDbOnly (ns : bytes) : bool := match SD.memchr ns dot with None => true | Some _ => false end.

(** ** The class *)

(** [_dotIndex] is [None] for [npos]. *)
Record NamespaceString := mkNs { _ns : bytes; _dotIndex : option nat }.

Definition NamespaceString_new (ns : bytes) : NamespaceString := mkNs ns (SD.memchr ns dot).

Definition NamespaceString_parts (dbName collectionName : bytes) : Z + NamespaceString :=
  if bool_decide (dot ∈ dbName) then inl 17235
  else if match collectionName with c :: _ => c =? dot | [] => false end then inl 17246
  else
    let ns := dbName ++ dot :: collectionName in
    if bool_decide (0 ∈ ns) then inl 17295 else inr (mkNs ns (Some (length dbName))).

Definition db (n : NamespaceString) : bytes :=
  match _dotIndex n with None => [] | Some i => take i (_ns n) end.
Definition coll (n : NamespaceString) : bytes :=
  match _dotIndex n with None => [] | Some i => drop (S i) (_ns n) end.

Definition isSystem (n : NamespaceString) : bool := starts (coll n) (lit "system.").
Definition isLocal (n : NamespaceString) : bool := same (db n) "local".
Definition isSystemDotIndexes (n : NamespaceString) : bool := same (coll n) "system.indexes".
Definition isSystemDotProfile (n : NamespaceString) : bool := same (coll n) "system.profile".
Definition isSystemDotViews (n : NamespaceString) : bool := same (coll n) "system.views".
Definition isConfigDB (n : NamespaceString) : bool := same (db n) "config".
Definition isCommand (n : NamespaceString) : bool := same (coll n) "$cmd".
Definition isSpecialCommand (n : NamespaceString) : bool := starts (coll n) (lit "$cmd.sys").
Definition isOnInternalDb (n : NamespaceString) : bool := internalDb (db n).
Definition isValid (n : NamespaceString) : bool := validDBName (db n) true && negb (bool_decide (coll n = [])).

Definition listIndexesCursorNSPrefix : bytes := lit "$cmd.listIndexes.".
Definition isListCollectionsCursorNS (n : NamespaceString) : bool := same (coll n) "$cmd.listCollections".
Definition isListIndexesCursorNS (n : NamespaceString) : bool :=
  (length listIndexesCursorNSPrefix <? length (coll n))%nat && starts (coll n) listIndexesCursorNSPrefix.
Definition makeListIndexesNSS (dbName collectionName : bytes) : Z + NamespaceString :=
  NamespaceString_parts dbName (listIndexesCursorNSPrefix ++ collectionName).
Definition getTargetNSForListIndexes (n : NamespaceString) : Z + NamespaceString :=
  NamespaceString_parts (db n) (drop (length listIndexesCursorNSPrefix) (coll n)).

(** ** File names *)

Definition alnum (c : Z) : bool :=
  ((48 <=? c) && (c <=? 57)) || ((65 <=? c) && (c <=? 90)) || ((97 <=? c) && (c <=? 122)) || (c =? 95).

Definition digits (c : Z) : bytes :=
  (if 100 <=? c then [48 + c / 100] else []) ++ [48 + c / 10 mod 10; 48 + c mod 10].

(** [escapeTable]: letters, digits and the underscore stand for themselves, and so does the dot;
    every other byte is a dot and its number, of two digits at least. *)
Definition escapeTable (c : Z) : bytes :=
  if alnum c then [c] else if c =? dot then [dot] else dot :: digits c.

Definition escapeDbName (dbname : bytes) : bytes := mjoin (escapeTable <$> dbname).

(** ** Namespaces users may write to *)

Definition BadValue : Z := 2.
Definition MaxNsCollectionLen : nat := 120.

(** [None] is OK. *)
Definition userAllowedCreateNS (db coll : bytes) : option Z :=
  if (length db =? 0)%nat then Some BadValue
  else if negb (validDBName db true) then Some BadValue
  else if (length coll =? 0)%nat then Some BadValue
  else if negb (validCollectionName coll) then Some BadValue
  else if (MaxNsCollectionLen <? length db + 1 + length coll)%nat then Some BadValue
  else if same db "system" then Some BadValue
  else if starts coll (lit "system.") then
    if same coll "system.indexes" then None
    else if same coll "system.js" then None
    else if same coll "system.profile" then None
    else if same coll "system.users" then None
    else if same coll "system.views" then None
    else if same db "admin" && (same coll "system.version" || same coll "system.roles" || same coll "system.new_users"
                              || same coll "system.backup_users") then None
    else if same db "local" && same coll "system.replset" then None
    else Some BadValue
  else if contains coll (lit ".system.") then Some BadValue
  else None.

Definition userAllowedWriteNS (db coll : bytes) : option Z :=
  if same coll "system.profile" then Some BadValue else userAllowedCreateNS db coll.

(** [legalClientSystemNS]; a failed assertion is [None]. *)
Definition legalClientSystemNS (ns : bytes) : option bool :=
  if same ns "local.system.replset" || contains ns (lit ".system.users") || same ns "admin.system.roles"
     || same ns "admin.system.version" || same ns "admin.system.new_users" || same ns "admin.system.backup_users"
     || contains ns (lit ".system.js") then Some true
  else match nsToCollectionSubstring ns with
       | inl _ => None
       | inr c => Some (same c "system.views")
       end.

(** ** Lemmas *)

Lemma memchr_after (d c : bytes) : dot ∉ d -> SD.memchr (d ++ dot :: c) dot = Some (length d).
Proof.
  intros Hd. apply SD.memchr_Some. split; [by rewrite list_lookup_middle|by rewrite take_app_length].
Qed.

(** A namespace made of a database and a collection has these as its parts, is what parsing the
    full name gives, and the free functions agree with the methods. *)
Lemma namespace_parts_round_trip (d c : bytes) (n : NamespaceString) :
  NamespaceString_parts d c = inr n ->
  db n = d /\ coll n = c /\ NamespaceString_new (_ns n) = n /\
  nsToCollectionSubstring (_ns n) = inr (coll n) /\
  ((length d < 128)%nat -> nsToDatabaseSubstring (_ns n) = inr (db n)).
Proof.
  unfold NamespaceString_parts. case_bool_decide as Hd; [done|]. destruct (match c with [] => false | _ => _ end); [done|].
  case_bool_decide; [done|]. intros [= <-]. unfold db, coll, NamespaceString_new, nsToCollectionSubstring, nsToDatabaseSubstring.
  cbn [_ns _dotIndex]. rewrite (memchr_after d c Hd), take_app_length. cbn [option_bind].
  replace (drop (S (length d)) (d ++ dot :: c)) with c by (by rewrite cons_middle, app_assoc, drop_app_length' by (solve_length)).
  split_and!; try done. intros Hl. destruct (Nat.ltb_spec (length d) MaxDatabaseNameLen); [done|unfold MaxDatabaseNameLen in *; lia].
Qed.

(** ** Reading escaped names back *)

(** After a dot, two digits; a third one if the first two are a number from 10 to 25. *)
Fixpoint unescape (l : bytes) : bytes :=
  match l with
  | [] => []
  | c :: l1 =>
      if c =? dot then
        match l1 with
        | a :: b :: l2 =>
            let n := (a - 48) * 10 + (b - 48) in
            if (10 <=? n) && (n <=? 25) then
              match l2 with
              | e :: l3 => n * 10 + (e - 48) :: unescape l3
              | [] => [n]
              end
            else n :: unescape l2
        | _ => []
        end
      else c :: unescape l1
  end.

(** The bytes whose escapes cannot run into a digit that follows. *)
Definition separable (c : Z) : Prop := byte_ok c /\ c <> dot /\ ~ (10 <= c <= 25).

Lemma unescape_char (c : Z) (l : bytes) : separable c -> unescape (escapeTable c ++ l) = c :: unescape l.
Proof.
  intros (Hb & Hd & Hc). unfold byte_ok, dot in *. unfold escapeTable. destruct (alnum c) eqn:Ha.
  - cbn. destruct (Z.eqb_spec c dot); [done|done].
  - destruct (Z.eqb_spec c dot); [done|]. unfold digits. destruct (Z.leb_spec 100 c); cbn [app unescape]; rewrite Z.eqb_refl.
    + replace ((48 + c / 100 - 48) * 10 + (48 + c / 10 mod 10 - 48)) with (c / 10) by (Z.div_mod_to_equations; lia).
      destruct (Z.leb_spec 10 (c / 10)); [|Z.div_mod_to_equations; lia].
      destruct (Z.leb_spec (c / 10) 25); [|Z.div_mod_to_equations; lia]. cbn [andb]. f_equal. Z.div_mod_to_equations; lia.
    + replace ((48 + c / 10 mod 10 - 48) * 10 + (48 + c mod 10 - 48)) with c by (Z.div_mod_to_equations; lia).
      destruct (Z.leb_spec 10 c), (Z.leb_spec c 25); cbn [andb]; try done. lia.
Qed.

(** Escaped file names can be read back: the file name of a database determines its name, for
    names without dots and without the control characters 10 to 25. *)
Lemma escapeDbName_round_trip (name : bytes) : Forall separable name -> unescape (escapeDbName name) = name.
Proof.
  unfold escapeDbName. induction 1 as [|c name Hc Hname IH]; [done|]. rewrite fmap_cons. cbn [mjoin list_join]. rewrite unescape_char by done. by f_equal.
Qed.

Lemma escapeDbName_round_trip_witness :
  unescape (escapeDbName (lit "my-db $1")) = lit "my-db $1".
Proof.
  apply (escapeDbName_round_trip (lit "my-db $1")). cbn. repeat constructor; unfold byte_ok; vm_compute; intuition (try discriminate).
Defined.

(** With these characters it does not: two valid database names share a file name. *)
Lemma escapeDbName_collision :
  validDBName [12; 51] false = true /\ validDBName [123] false = true /\ escapeDbName [12; 51] = escapeDbName [123].
Proof. vm_compute. done. Qed.

(** ** What users may write to *)

Lemma userAllowedWriteNS_name (d c : bytes) : userAllowedWriteNS d c = None ->
  validDBName d true = true /\ validCollectionName c = true /\ (length d + 1 + length c <= 120)%nat.
Proof.
  unfold userAllowedWriteNS, userAllowedCreateNS. destruct (same c _); [done|]. destruct (_ =? _)%nat; [done|].
  destruct (validDBName d true); cbn [negb]; [|done]. destruct (_ =? _)%nat; [done|].
  destruct (validCollectionName c); cbn [negb]; [|done]. destruct (Nat.ltb_spec MaxNsCollectionLen (length d + 1 + length c)); [done|].
  unfold MaxNsCollectionLen in *. done.
Qed.

(** A namespace users may write to can be built from its parts, is valid, and is its own full
    name split at the first dot. *)
Lemma writable_namespace_is_valid (d c : bytes) :
  userAllowedWriteNS d c = None ->
  exists n, NamespaceString_parts d c = inr n /\ isValid n = true /\ isSystemDotProfile n = false /\
    (length (_ns n) <= 120)%nat /\ validCollectionComponent (_ns n) = true.
Proof.
  intros Hw. destruct (userAllowedWriteNS_name d c Hw) as (Hd & Hc & Hl).
  assert (dot ∉ d /\ 0 ∉ d) as [Hdot H0].
  { unfold validDBName in Hd. destruct (_ || _); [done|]. rewrite forallb_forall in Hd.
    split; intros Hin%list_elem_of_In; apply Hd in Hin; done. }
  assert (0 ∉ c) as Hc0.
  { unfold validCollectionName in Hc. destruct c as [|x c]; [done|]. destruct (x =? dot); [done|].
    rewrite forallb_forall in Hc. intros Hin%list_elem_of_In. by apply Hc in Hin. }
  exists (mkNs (d ++ dot :: c) (Some (length d))).
  assert (drop (S (length d)) (d ++ dot :: c) = c) as Hdrop
    by (by rewrite cons_middle, app_assoc, drop_app_length' by (solve_length)).
  unfold isValid, isSystemDotProfile, db, coll, validCollectionComponent, NamespaceString_parts. cbn [_ns _dotIndex].
  rewrite take_app_length, Hdrop, Hd, (memchr_after d c Hdot). cbn [andb]. rewrite Hdrop, Hc.
  rewrite (bool_decide_eq_false_2 (dot ∈ d)) by done. rewrite (bool_decide_eq_false_2 (0 ∈ _)).
  2: { rewrite elem_of_app, elem_of_cons. intros [?|[?|?]]; [done|done|done]. }
  unfold userAllowedWriteNS in Hw. destruct (same c "system.profile"); [done|].
  unfold validCollectionName in Hc. destruct c as [|x c]; [done|]. destruct (x =? dot); [done|].
  split_and!; try done. rewrite length_app. cbn in *. lia.
Qed.

Lemma writable_namespace_is_valid_witness :
  exists n, NamespaceString_parts (lit "test") (lit "coll.a") = inr n /\ isValid n = true /\ isSystemDotProfile n = false /\
    (length (_ns n) <= 120)%nat /\ validCollectionComponent (_ns n) = true.
Proof. apply (writable_namespace_is_valid (lit "test") (lit "coll.a")). vm_compute. reflexivity. Defined.

End Ns.
