(* ===== verification/Inserts.v ===== *)
(** * Inserting documents

    [performInserts] of [db/ops/write_ops_exec.cpp] with its batching, its retries and its error
    handling, and [fixDocumentForInsert] of [db/ops/insert.cpp]. The rest of the server is the class
    [Environment], of which nothing is assumed: interruptions, the lookup of the collection and the
    database, the checks of the primary and the shard version, the insertion of a run of documents
    into the collection, units of work and the command [createIndexes]. Generated object ids and
    timestamps are the environment's choice, for each document and field. The statistics of [CurOp]
    other than [ninserted], and the bookkeeping of the last operation time, are left out. *)
From S2P Require Import Prelude StringData Bson DottedPath XxHash Integrity Namespace.

(** ** Documents that may be stored *)
Module Storage.
Import Doc.

Definition DollarPrefixedFieldName : Z := 52.
Definition InvalidIdField : Z := 53.
Definition DottedFieldName : Z := 57.

Definition dollar_prefixed (name : bytes) : bool := bool_decide (head name = Some 36).

(** One element of [_okForStorage], after the treatment of DBRefs; [rec] checks what the element
    encapsulates. *)
Definition ok_element (rec : value -> option Z) (root : bool) (name : bytes) (v : value) : option Z :=
  if bool_decide (46 ∈ name) then Some DottedFieldName
  else if root && ((type_of v =? T.RegEx) || (type_of v =? T.Array) || (type_of v =? T.Undefined))
          && bool_decide (name = lit "_id") then Some InvalidIdField
  else rec v.

(** The loop over the elements; [first] is true on the first one. [i.next()] past the last element
    is the end of the object, with an empty name. *)
Definition ok_fields (rec : value -> option Z) (root : bool) : bool -> list field -> option Z :=
  fix go (first : bool) (fs : list field) : option Z :=
    match fs with
    | [] => None
    | (name, v) :: rest =>
        if dollar_prefixed name then
          if first && bool_decide (name = lit "$ref") && (type_of v =? T.String_) then
            match rest with
            | (id, _) :: rest =>
                if bool_decide (id = lit "$id") then
                  match rest with
                  | (name, v) :: rest =>
                      if bool_decide (name = lit "$db") && (type_of v =? T.String_) then go false rest
                      else if dollar_prefixed name then Some DollarPrefixedFieldName
                      else match ok_element rec root name v with Some e => Some e | None => go false rest end
                  | [] => None
                  end
                else Some DollarPrefixedFieldName
            | [] => Some DollarPrefixedFieldName
            end
          else Some DollarPrefixedFieldName
        else match ok_element rec root name v with Some e => Some e | None => go false rest end
    end.

(** The recursion into objects, arrays and scopes. *)
Fixpoint ok_value (v : value) : option Z :=
  match v with
  | VObject fs | VArray fs => ok_fields ok_value false true fs
  | VCodeWScope _ fs => ok_fields ok_value false true fs
  | _ => None
  end.

Definition okForStorage (root deep : bool) (fs : list field) : option Z :=
  ok_fields (fun v => if deep then ok_value v else None) root true fs.

Definition storageValidEmbedded (fs : list field) : option Z := okForStorage false true fs.

(** ** [fixDocumentForInsert] *)

Definition BadValue : Z := 2.
Definition BSONObjMaxUserSize : Z := 16 * 1024 * 1024.

Definition zero_timestamp (v : value) : bool := match v with VTimestamp 0 => true | _ => false end.

Record scan := mkScan { firstElementIsId : bool; hasTimestampToFix : bool; hadId : bool }.

(** What the [_id] may not be. *)
Definition id_error (v : value) : option Z :=
  match v with
  | VRegEx _ _ | VUndefined | VArray _ => Some BadValue
  | VObject fs => storageValidEmbedded fs
  | _ => None
  end.

Fixpoint scan_loop (isFirstElement : bool) (st : scan) (fs : list field) : Z + scan :=
  match fs with
  | [] => inr st
  | (name, v) :: fs =>
      let st := mkScan (firstElementIsId st) (hasTimestampToFix st || zero_timestamp v) (hadId st) in
      if dollar_prefixed name then inl BadValue
      else if bool_decide (name = lit "_id") then
        match id_error v with
        | Some e => inl e
        | None =>
            if hadId st then inl BadValue
            else scan_loop false (mkScan isFirstElement (hasTimestampToFix st) true) fs
        end
      else scan_loop false st fs
  end.

(** The copying loop; [i] is the position of the element, for the timestamp it may get. *)
Fixpoint copy_loop (stamp : nat -> Z) (hadId : bool) (i : nat) (fs : list field) : list field :=
  match fs with
  | [] => []
  | (name, v) :: fs =>
      let rest := copy_loop stamp hadId (S i) fs in
      if hadId && bool_decide (name = lit "_id") then rest
      else if zero_timestamp v then (name, VTimestamp (stamp i)) :: rest
      else (name, v) :: rest
  end.

(** The empty object stands for a document that needs no change. *)
Definition fixDocumentForInsert (oid : bytes) (stamp : nat -> Z) (doc : BSONObj) : Z + BSONObj :=
  if BSONObjMaxUserSize <? Integrity.objsize doc then inl BadValue
  else
    match scan_loop true (mkScan false false false) (fields doc) with
    | inl e => inl e
    | inr st =>
        if firstElementIsId st && negb (hasTimestampToFix st) then inr empty_obj
        else if firstElementIsId st then
          match fields doc with
          | [] => inr (Integrity.built [])
          | f :: fs => inr (Integrity.built (f :: copy_loop stamp (hadId st) 1 fs))
          end
        else
          let id := match getField doc (lit "_id") with Elem _ _ v => v | Eoo => VOID oid end in
          inr (Integrity.built ((lit "_id", id) :: copy_loop stamp (hadId st) 0 (fields doc)))
    end.
(** ** Lemmas *)

Definition is_id (f : field) : Prop := f.1 = lit "_id".
#[export] Instance is_id_dec (f : field) : Decision (is_id f) := decide (f.1 = lit "_id").

(** What a successful scan has seen. *)
Definition scanned (first : bool) (st : scan) (fs : list field) (st' : scan) : Prop :=
  Forall (fun f : field => dollar_prefixed f.1 = false) fs /\
  Forall (fun f : field => is_id f -> id_error f.2 = None) fs /\
  hasTimestampToFix st' = hasTimestampToFix st || existsb (fun f : field => zero_timestamp f.2) fs /\
  match filter is_id fs with
  | [] => hadId st' = hadId st /\ firstElementIsId st' = firstElementIsId st
  | [f] => hadId st = false /\ hadId st' = true /\
           firstElementIsId st' = (first && match fs with g :: _ => bool_decide (is_id g) | [] => false end)
  | _ => False
  end.

Lemma scan_loop_ok (fs : list field) : forall (first : bool) (st st' : scan),
  scan_loop first st fs = inr st' -> scanned first st fs st'.
Proof.
  induction fs as [|[n v] fs IH]; intros first st st'; cbn [scan_loop].
  - intros [= <-]. split_and!; [by apply Forall_nil|by apply Forall_nil|cbn; by rewrite orb_false_r|done].
  - destruct (dollar_prefixed n) eqn:Hd; [done|]. case_bool_decide as Hn.
    + destruct (id_error v) eqn:He; [done|]. cbn [hadId hasTimestampToFix]. destruct (hadId st) eqn:Hh; [done|].
      intros (H1 & H2 & H3 & H4)%IH. cbn [hasTimestampToFix hadId firstElementIsId] in *. split_and!.
      * by constructor.
      * constructor; [done|done].
      * rewrite H3. cbn [existsb snd]. by rewrite orb_assoc.
      * rewrite filter_cons_True by done. destruct (filter is_id fs) as [|g [|? ?]]; [|by destruct H4|done].
        destruct H4 as [-> ->]. split_and!; [done|done|]. rewrite bool_decide_eq_true_2 by done. by rewrite andb_true_r.
    + intros (H1 & H2 & H3 & H4)%IH. cbn [hasTimestampToFix hadId firstElementIsId] in *. split_and!.
      * by constructor.
      * constructor; [done|done].
      * rewrite H3. cbn [existsb snd]. by rewrite orb_assoc.
      * rewrite filter_cons_False by done. destruct (filter is_id fs) as [|g [|? ?]]; [done| |done].
        destruct H4 as (? & ? & Hf). split_and!; [done|done|]. rewrite bool_decide_eq_false_2 by done. by rewrite andb_false_r.
Qed.

(** A field as it is stored: a zero timestamp becomes a generated one. *)
Definition kept_field (stamp : nat -> Z) (submitted kept : field) : Prop :=
  kept.1 = submitted.1 /\
  if zero_timestamp submitted.2 then exists i, kept.2 = VTimestamp (stamp i) else kept.2 = submitted.2.

Lemma copy_loop_ok (stamp : nat -> Z) (had : bool) (fs : list field) : forall i,
  Forall2 (kept_field stamp) (filter (fun f => ~ (had = true /\ is_id f)) fs) (copy_loop stamp had i fs).
Proof.
  induction fs as [|[n v] fs IH]; intros i; [constructor|]. cbn [copy_loop].
  specialize (IH (S i)). destruct (had && bool_decide (n = lit "_id")) eqn:Hc.
  - apply andb_true_iff in Hc as [-> Hn%bool_decide_eq_true_1]. rewrite filter_cons_False; [done|]. intros Hx. by apply Hx.
  - rewrite filter_cons_True.
    2: { intros [-> Hn]. rewrite bool_decide_eq_true_2 in Hc; done. }
    destruct (zero_timestamp v) eqn:Hz; (constructor; [|done]); unfold kept_field; cbn [fst snd]; rewrite Hz; [|done]. split; [done|by exists i].
Qed.

(** The submitted [_id], or the generated one. *)
Definition the_id (oid : bytes) (submitted : list field) : value := default (VOID oid) (snd <$> head (filter is_id submitted)).
(** The shape of a document that is handed to the collection. *)
Definition storable (oid : bytes) (stamp : nat -> Z) (submitted fs : list field) : Prop :=
  exists rest, fs = (lit "_id", the_id oid submitted) :: rest /\ id_error (the_id oid submitted) = None /\
    Forall (fun f : field => dollar_prefixed f.1 = false) submitted /\
    Forall2 (kept_field stamp) (filter (fun f => ~ is_id f) submitted) rest.

Lemma not_ids (fs : list field) : filter is_id fs = [] -> Forall (fun f => ~ is_id f) fs.
Proof.
  intros H. apply Forall_forall. intros f Hf Hi. assert (f ∈ filter is_id fs) as Hx by (by apply list_elem_of_filter).
  rewrite H in Hx. by apply elem_of_nil in Hx.
Qed.
Lemma copied (stamp : nat -> Z) (had : bool) (i : nat) (fs : list field) : (had = false -> filter is_id fs = []) ->
  Forall2 (kept_field stamp) (filter (fun f => ~ is_id f) fs) (copy_loop stamp had i fs).
Proof.
  intros Hh. pose proof (copy_loop_ok stamp had fs i) as H.
  assert (filter (fun f => ~ (had = true /\ is_id f)) fs = filter (fun f => ~ is_id f) fs) as <-; [|done].
  apply filter_ext_in. intros f Hf. destruct had.
  - split; [intros Hn Hx; by apply Hn|intros Hn [_ Hx]; by apply Hn].
  - split; [intros _ Hx|by intros _ [? _]]. pose proof (not_ids fs (Hh eq_refl)) as Hall. rewrite Forall_forall in Hall. by apply (Hall f Hf).
Qed.
Lemma copied_unchanged (stamp : nat -> Z) (fs : list field) :
  existsb (fun f : field => zero_timestamp f.2) fs = false -> Forall2 (kept_field stamp) fs fs.
Proof.
  induction fs as [|f fs IH]; [constructor|]. cbn [existsb]. intros [Hf Hfs]%orb_false_iff. constructor; [|by apply IH].
  split; [done|]. by rewrite Hf.
Qed.
(** The value that is looked up for a name that occurs at most once. *)
Lemma getField_id (oid : bytes) (doc : BSONObj) :
  match getField doc (lit "_id") with Elem _ _ v => v | Eoo => VOID oid end = the_id oid (fields doc).
Proof.
  rewrite Dps.getField_find. unfold the_id. induction (fields doc) as [|f fs IH]; [done|]. cbn [list_find]. destruct (decide (f.1 = lit "_id")) as [Hf|Hf].
  - by rewrite filter_cons_True.
  - rewrite filter_cons_False by done. rewrite <- IH. by destruct (list_find _ fs) as [[i g]|].
Qed.

Lemma first_id (fs : list field) (st : scan) :
  scanned true (mkScan false false false) fs st -> firstElementIsId st = true ->
  exists v rest, fs = (lit "_id", v) :: rest /\ id_error v = None /\ hadId st = true /\ filter is_id rest = [] /\
    Forall (fun f : field => dollar_prefixed f.1 = false) rest /\
    hasTimestampToFix st = zero_timestamp v || existsb (fun f : field => zero_timestamp f.2) rest.
Proof.
  intros (H1 & H2 & H3 & H4) Hf. destruct (filter is_id fs) as [|f [|? ?]] eqn:Hi; [by destruct H4 as [_ H4]; rewrite H4 in Hf| |done].
  destruct H4 as (_ & Hh & H4). rewrite Hf in H4. destruct fs as [|[n v] rest]; [done|]. cbn [andb] in H4. symmetry in H4.
  apply bool_decide_eq_true_1 in H4. unfold is_id in H4. cbn in H4. subst n.
  rewrite filter_cons_True in Hi by done. injection Hi as _ Hi. apply Forall_cons in H1 as [_ H1], H2 as [H2 _].
  exists v, rest. split_and!; try done. by apply H2.
Qed.

Lemma fix_storable (oid : bytes) (stamp : nat -> Z) (doc x : BSONObj) :
  fixDocumentForInsert oid stamp doc = inr x -> storable oid stamp (fields doc) (fields (if isEmpty x then doc else x)).
Proof.
  unfold fixDocumentForInsert. destruct (_ <? _); [done|].
  destruct (scan_loop true _ (fields doc)) as [e|st] eqn:Hscan; [done|]. apply scan_loop_ok in Hscan. pose proof Hscan as (Hdollar & _).
  destruct (firstElementIsId st) eqn:Hfirst; cbn [andb].
  - destruct (first_id _ _ Hscan Hfirst) as (v & rest & Hfs & He & Hh & Hi & Hd & Ht). rewrite Hfs, Hh in *.
    assert (the_id oid ((lit "_id", v) :: rest) = v) as Hid by (unfold the_id; by rewrite filter_cons_True).
    assert (filter (fun f => ~ is_id f) ((lit "_id", v) :: rest) = filter (fun f => ~ is_id f) rest) as Hrest
      by (rewrite filter_cons_False; [done|]; intros Hx; by apply Hx).
    destruct (hasTimestampToFix st) eqn:Hts; cbn [negb]; intros [= <-]; unfold storable; rewrite Hid, Hrest.
    + exists (copy_loop stamp true 1 rest). split; [done|]. split; [done|]. split; [done|]. by apply copied.
    + symmetry in Ht. apply orb_false_iff in Ht as [_ Ht]. exists rest. change (isEmpty empty_obj) with true. cbv iota.
      split; [done|]. split; [done|]. split; [done|]. rewrite filter_all by (by apply not_ids). by apply copied_unchanged.
  - intros [= <-]. destruct Hscan as (H1 & H2 & H3 & H4). exists (copy_loop stamp (hadId st) 0 (fields doc)).
    split; [cbn; by rewrite getField_id|]. split; [|split; [done|]].
    + unfold the_id. destruct (filter is_id (fields doc)) as [|f l] eqn:Hf; [done|]. cbn.
      assert (f ∈ filter is_id (fields doc)) as [Hfi Hin]%list_elem_of_filter by (rewrite Hf; left). rewrite Forall_forall in H2. by apply (H2 f Hin).
    + apply copied. intros Hh. destruct (filter is_id (fields doc)) as [|f [|? ?]]; [done| |done]. destruct H4 as (_ & H4 & _). congruence.
Qed.

End Storage.

(** ** The operation *)
Module Ins.
Import Doc Storage.

(** An exception: its code, and whether it is a [SendStaleConfigException] or a
    [WriteConflictException]. *)
Record DBException := mkEx { code : Z; isStaleConfig : bool; isWriteConflict : bool }.
Definition user_exception (c : Z) : DBException := mkEx c false false.

Definition InternalError : Z := 1.
Definition NoSuchKey : Z := 4.
Definition TypeMismatch : Z := 14.
Definition InvalidOptions : Z := 72.
Definition PrimarySteppedDown : Z := 189.
Definition isInterruption (code : Z) : bool := bool_decide (code ∈ [11601; 11600; 11602; 50]).
Definition isStaleShardingError (code : Z) : bool := bool_decide (code ∈ [9996; 13388; 63; 150]).

(** [WriteResult]: for each operation the status or the number of documents. *)
Record WriteResult := mkResult { results : list (Z + Z); staleConfigException : option DBException }.

Definition insertVectorMaxBytes : Z := 256 * 1024.

(** ** The environment *)

(** What the operation calls in the rest of the server. Nothing is assumed of the calls: each of
    them gets the state of the server and returns it changed in any way, so that interruptions,
    other threads and write conflicts can come anywhere. A call ends with an exception
    ([option DBException]), with a result ([DBException + _]), or with a status that may be an error
    ([DBException + option Z], with the code that [uassertStatusOK] throws for it). [getCollection]
    is [AutoGetCollection], which locks the collection and says whether there is one;
    [createIndexes] runs the command and returns the number of indexes before and after. *)
Class Environment (S : Type) := {
  checkForInterrupt : S -> S * option DBException;
  failAllInserts : S -> S * bool;
  getCollection : S -> S * (DBException + bool);
  getOrCreateDb : S -> S * option DBException;
  db_getCollection : S -> S * bool;
  userCreateNS : S -> S * (DBException + option Z);
  canAcceptWritesFor : S -> S * bool;
  checkShardVersionOrThrow : S -> S * option DBException;
  isCapped : S -> S * bool;
  collection_insertDocuments : S -> list BSONObj -> S * (DBException + option Z);
  beginUnitOfWork : S -> S * option DBException;
  commitUnitOfWork : S -> S * option DBException;
  abortUnitOfWork : S -> S;
  logAndBackoff : S -> S;
  createIndexes : S -> Ns.NamespaceString -> BSONObj -> S * (DBException + Z * Z)
}.

Section inserts.
Context {S : Type} `{!Environment S}.
(** The ids and timestamps generated for the document at a position. *)
Context (oid : nat -> bytes) (stamp : nat -> nat -> Z).
Context (maxBatchSize : nat) (continueOnError : bool).
(** A bound for the loops that the environment decides: the retries after a write conflict, and the
    wait for a collection that is dropped again and again. *)
Context (fuel : nat).

(** The state of the server, the counters, the result so far, and the documents of the insertions
    that have succeeded. *)
Record Run := mkRun { store : S; gotInserts : nat; ninserted : Z; out : WriteResult; stored : list BSONObj }.

Definition set_store (s : S) (r : Run) : Run := mkRun s (gotInserts r) (ninserted r) (out r) (stored r).
Definition gotInsert (r : Run) : Run := mkRun (store r) (Datatypes.S (gotInserts r)) (ninserted r) (out r) (stored r).
Definition push_result (x : Z + Z) (r : Run) : Run :=
  mkRun (store r) (gotInserts r) (ninserted r) (mkResult (results (out r) ++ [x]) (staleConfigException (out r))) (stored r).
Definition inserted (ds : list BSONObj) (r : Run) : Run :=
  mkRun (store r) (gotInserts r) (ninserted r + Z.of_nat (length ds))
    (mkResult (results (out r) ++ replicate (length ds) (inr 1)) (staleConfigException (out r))) (stored r ++ ds).

(** What ends the operation early, other than an error that was recorded: an exception that leaves
    it, or the bound of a loop. *)
Inductive stop := Thrown (ex : DBException) | OutOfFuel.
Definition answer : Type := Run * (stop + bool).

(** Going on unless an exception or an error stopped the operation. *)
Definition and_then (a : answer) (f : Run -> answer) : answer :=
  match a with (r, inr true) => f r | stop => stop end.

Definition handleError (ex : DBException) (r : Run) : answer :=
  if isInterruption (code ex) then (r, inl (Thrown ex))
  else if isStaleShardingError (code ex) then
    if isStaleConfig ex then
      (mkRun (store r) (gotInserts r) (ninserted r) (mkResult (results (out r)) (Some ex)) (stored r), inr false)
    else (r, inl (Thrown (user_exception 35475)))
  else (push_result (inl (code ex)) r, inr continueOnError).

(** *** Units of work and the collection *)

(** A block that starts with a [WriteUnitOfWork] and ends with its [commit]; the destructor aborts
    a unit that was not committed. *)
Definition unit_of_work (f : S -> S * (DBException + option Z)) (s : S) : S * option DBException :=
  match beginUnitOfWork s with
  | (s, Some ex) => (s, Some ex)
  | (s, None) =>
      match f s with
      | (s, inl ex) => (abortUnitOfWork s, Some ex)
      | (s, inr (Some c)) => (abortUnitOfWork s, Some (user_exception c))
      | (s, inr None) =>
          match commitUnitOfWork s with
          | (s, Some ex) => (abortUnitOfWork s, Some ex)
          | (s, None) => (s, None)
          end
      end
  end.

Definition assertCanWrite_inlock (s : S) : S * option DBException :=
  match canAcceptWritesFor s with
  | (s, false) => (s, Some (user_exception PrimarySteppedDown))
  | (s, true) => checkShardVersionOrThrow s
  end.

(** [makeCollection]: one attempt, and the retries after write conflicts. *)
Definition make_once (s : S) : S * option DBException :=
  match getOrCreateDb s with
  | (s, Some ex) => (s, Some ex)
  | (s, None) =>
      match assertCanWrite_inlock s with
      | (s, Some ex) => (s, Some ex)
      | (s, None) =>
          match db_getCollection s with
          | (s, true) => (s, None)
          | (s, false) => unit_of_work userCreateNS s
          end
      end
  end.
Fixpoint makeCollection (n : nat) (s : S) : S * (stop + unit) :=
  match n with
  | O => (s, inl OutOfFuel)
  | Datatypes.S n =>
      match make_once s with
      | (s, None) => (s, inr tt)
      | (s, Some ex) => if isWriteConflict ex then makeCollection n (logAndBackoff s) else (s, inl (Thrown ex))
      end
  end.

Definition insertDocuments (s : S) (docs : list BSONObj) : S * option DBException :=
  unit_of_work (fun s => collection_insertDocuments s docs) s.

(** *** [acquireCollection] *)

Fixpoint acquire_loop (n : nat) (s : S) : S * (stop + unit) :=
  match n with
  | O => (s, inl OutOfFuel)
  | Datatypes.S n =>
      match checkForInterrupt s with
      | (s, Some ex) => (s, inl (Thrown ex))
      | (s, None) =>
          match failAllInserts s with
          | (s, true) => (s, inl (Thrown (user_exception InternalError)))
          | (s, false) =>
              match getCollection s with
              | (s, inl ex) => (s, inl (Thrown ex))
              | (s, inr true) => (s, inr tt)
              | (s, inr false) =>
                  match makeCollection fuel s with
                  | (s, inl e) => (s, inl e)
                  | (s, inr _) => acquire_loop n s
                  end
              end
          end
      end
  end.
Definition acquireCollection (s : S) : S * (stop + unit) :=
  match acquire_loop fuel s with
  | (s, inr _) => match assertCanWrite_inlock s with (s, Some ex) => (s, inl (Thrown ex)) | (s, None) => (s, inr tt) end
  | x => x
  end.

(** *** [insertBatchAndHandleErrors] *)

(** One document, with the retries after write conflicts; [held] says whether the collection is
    acquired. *)
Fixpoint insert_single (n : nat) (doc : BSONObj) (held : bool) (s : S) : S * (stop + unit) :=
  match n with
  | O => (s, inl OutOfFuel)
  | Datatypes.S n =>
      let '(s, a) := if held then (s, inr tt) else acquireCollection s in
      let '(s, a) :=
        match a with
        | inl e => (s, inl e)
        | inr _ => match insertDocuments s [doc] with (s, Some ex) => (s, inl (Thrown ex)) | (s, None) => (s, inr tt) end
        end in
      match a with
      | inl (Thrown ex) => if isWriteConflict ex then insert_single n doc false (logAndBackoff s) else (s, inl (Thrown ex))
      | a => (s, a)
      end
  end.

(** One at a time. *)
Fixpoint insert_each (batch : list BSONObj) (held : bool) (r : Run) : answer :=
  match batch with
  | [] => (r, inr true)
  | doc :: batch =>
      let r := gotInsert r in
      match insert_single fuel doc held (store r) with
      | (s, inr _) => insert_each batch true (inserted [doc] (set_store s r))
      | (s, inl (Thrown ex)) => and_then (handleError ex (set_store s r)) (insert_each batch false)
      | (s, inl OutOfFuel) => (set_store s r, inl OutOfFuel)
      end
  end.

Definition insertBatchAndHandleErrors (batch : list BSONObj) (r : Run) : answer :=
  match batch with
  | [] => (r, inr true)
  | _ =>
      match acquireCollection (store r) with
      | (s, inl OutOfFuel) => (set_store s r, inl OutOfFuel)
      | (s, inl (Thrown _)) => insert_each batch false (set_store s r)
      | (s, inr _) =>
          let '(s, capped) := isCapped s in
          if negb capped && (1 <? length batch)%nat then
            match insertDocuments s batch with
            | (s, None) =>
                (inserted batch (mkRun s (gotInserts r + length batch) (ninserted r) (out r) (stored r)), inr true)
            | (s, Some _) => insert_each batch false (set_store s r)
            end
          else insert_each batch true (set_store s r)
      end
  end.

(** *** [performInserts] *)

(** The document that is inserted for the one submitted at position [k], or the status it fails
    with. *)
Definition prepare (k : nat) (doc : BSONObj) : Z + BSONObj :=
  let checked :=
    if Integrity.hasField doc Integrity.kDocHashFieldName then
      match Integrity.verifyDocumentIntegrity doc with
      | Some c => inl c
      | None => inr (Integrity.stripHashField doc)
      end
    else inr doc in
  match checked with
  | inl c => inl c
  | inr docToInsert =>
      match fixDocumentForInsert (oid k) (stamp k) docToInsert with
      | inl c => inl c
      | inr fixedDoc => inr (if isEmpty fixedDoc then docToInsert else fixedDoc)
      end
  end.

Fixpoint inserts_loop (docs : list BSONObj) (k : nat) (batch : list BSONObj) (bytesInBatch : Z) (r : Run) : answer :=
  match docs with
  | [] => (r, inr true)
  | doc :: docs =>
      match prepare k doc with
      | inr d =>
          let batch := batch ++ [d] in
          let bytesInBatch := bytesInBatch + Integrity.objsize d in
          let isLastDoc := match docs with [] => true | _ => false end in
          if negb isLastDoc && (length batch <? maxBatchSize)%nat && (bytesInBatch <? insertVectorMaxBytes) then
            inserts_loop docs (Datatypes.S k) batch bytesInBatch r
          else
            and_then (insertBatchAndHandleErrors batch r) (inserts_loop docs (Datatypes.S k) [] 0)
      | inl c =>
          and_then (insertBatchAndHandleErrors batch r) (fun r =>
          and_then (handleError (user_exception c) (gotInsert r)) (inserts_loop docs (Datatypes.S k) [] 0))
      end
  end.

(** [createIndex] and [performCreateIndexes], for inserts into [system.indexes]. *)
Definition createIndex (systemIndexes : Ns.NamespaceString) (spec : BSONObj) (s : S) : S * (DBException + Z) :=
  match getField spec (lit "ns") with
  | Eoo => (s, inl (user_exception NoSuchKey))
  | Elem _ _ (VString name) =>
      let ns := Ns.NamespaceString_new name in
      if bool_decide (Ns.db ns = Ns.db systemIndexes) then
        match createIndexes s ns spec with
        | (s, inl ex) => (s, inl ex)
        | (s, inr (before, after)) => (s, inr (wraps 32 (after - before)))
        end
      else (s, inl (user_exception InvalidOptions))
  | Elem _ _ _ => (s, inl (user_exception TypeMismatch))
  end.
Fixpoint performCreateIndexes (ns : Ns.NamespaceString) (specs : list BSONObj) (r : Run) : answer :=
  match specs with
  | [] => (r, inr true)
  | spec :: specs =>
      match createIndex ns spec (store r) with
      | (s, inr n) =>
          performCreateIndexes ns specs (push_result (inr n) (mkRun s (gotInserts r) (ninserted r + n) (out r) (stored r)))
      | (s, inl ex) => and_then (handleError ex (set_store s r)) (performCreateIndexes ns specs)
      end
  end.

(** The state and the result, and what ended the operation early. *)
Definition performInserts (ns : Ns.NamespaceString) (docs : list BSONObj) (s : S) : Run * option stop :=
  let r := mkRun s 0 0 (mkResult [] None) [] in
  match Ns.userAllowedWriteNS (Ns.db ns) (Ns.coll ns) with
  | Some c => (r, Some (Thrown (user_exception c)))
  | None =>
      match (if Ns.isSystemDotIndexes ns then performCreateIndexes ns docs r else inserts_loop docs 0 [] 0 r) with
      | (r, inl e) => (r, Some e)
      | (r, inr _) => (r, None)
      end
  end.

(** ** Every document is answered once *)

Definition is_ok (x : Z + Z) : bool := match x with inr _ => true | inl _ => false end.
(** The result of a document that was prepared: its own error, or what the collection says of it. *)
Definition reported (p : Z + BSONObj) (x : Z + Z) : Prop :=
  match p, x with inl c, x => x = inl c | inr _, inr n => n = 1 | inr _, inl _ => True end.
(** The documents that are reported as inserted. *)
Fixpoint accepted (ps : list (Z + BSONObj)) (xs : list (Z + Z)) : list BSONObj :=
  match ps, xs with
  | inr d :: ps, inr _ :: xs => d :: accepted ps xs
  | _ :: ps, _ :: xs => accepted ps xs
  | _, _ => []
  end.

(** How the documents [ps] may be answered: the results [xs] are for the first of them, all when
    the operation goes on. *)
Definition ended (ps : list (Z + BSONObj)) (xs : list (Z + Z)) (r : Run) (a : answer) : Prop :=
  match a.2 with
  | inr true => length xs = length ps /\ (continueOnError = false -> Forall (fun x => is_ok x = true) xs) /\
                staleConfigException (out a.1) = staleConfigException (out r)
  | inr false => staleConfigException (out a.1) <> None \/ continueOnError = false /\ exists c, last xs = Some (inl c)
  | inl _ => True
  end.
Definition covers (ps : list (Z + BSONObj)) (r : Run) (a : answer) : Prop :=
  exists xs, results (out a.1) = results (out r) ++ xs /\ stored a.1 = stored r ++ accepted ps xs /\
    ninserted a.1 = ninserted r + Z.of_nat (length (accepted ps xs)) /\ (length xs <= length ps)%nat /\
    Forall2 reported (take (length xs) ps) xs /\
    (continueOnError = false -> Forall (fun x => is_ok x = true) (removelast xs)) /\ ended ps xs r a.

Lemma accepted_app (ps ps' : list (Z + BSONObj)) (xs xs' : list (Z + Z)) :
  length xs = length ps -> accepted (ps ++ ps') (xs ++ xs') = accepted ps xs ++ accepted ps' xs'.
Proof.
  revert xs. induction ps as [|p ps IH]; intros [|x xs] E; try done. injection E as E. cbn [app accepted].
  destruct p, x; cbn [app]; by rewrite IH.
Qed.
Lemma accepted_short (ps ps' : list (Z + BSONObj)) (xs : list (Z + Z)) :
  (length xs <= length ps)%nat -> accepted (ps ++ ps') xs = accepted ps xs.
Proof.
  revert xs. induction ps as [|p ps IH]; intros [|x xs] E; cbn [length] in E; try lia; [by destruct ps' as [|[] ?]|by destruct p|]. cbn [app accepted].
  destruct p, x; by rewrite IH by lia.
Qed.
Lemma removelast_app_ok (xs xs' : list (Z + Z)) :
  Forall (fun x => is_ok x = true) xs -> Forall (fun x => is_ok x = true) (removelast xs') ->
  Forall (fun x => is_ok x = true) (removelast (xs ++ xs')).
Proof.
  intros H H'. destruct xs' as [|x xs']; [rewrite app_nil_r|rewrite removelast_app by done; by apply Forall_app].
  destruct xs as [|x xs _] using rev_ind; [done|]. rewrite removelast_last. by apply Forall_app in H as [? _].
Qed.

Lemma covers_none (r : Run) : covers [] r (r, inr true).
Proof. exists []. cbn. rewrite !app_nil_r. split_and!; try done; lia. Qed.
Lemma covers_then (ps ps' : list (Z + BSONObj)) (r : Run) (a : answer) (f : Run -> answer) :
  covers ps r a -> (forall r', covers ps' r' (f r')) -> covers (ps ++ ps') r (and_then a f).
Proof.
  intros (xs & H1 & H2 & H3 & H4 & H5 & H6 & H7) Hf. destruct a as [r1 [e|[]]]; cbn [and_then fst snd] in *.
  2:{ destruct H7 as (Hl & Hok & Hst). destruct (Hf r1) as (xs' & G1 & G2 & G3 & G4 & G5 & G6 & G7). cbn [fst snd] in *. exists (xs ++ xs').
      rewrite (accepted_app ps ps' xs xs' Hl), !length_app, G1, G2, G3, H1, H2, H3, !app_assoc, take_app, Hl. split_and!; [done|done|lia|lia| | |].
      - rewrite <- Hl at 1. rewrite take_ge by lia. replace (length ps + length xs' - length ps)%nat with (length xs') by lia. apply Forall2_app; [|done].
        by rewrite take_ge in H5 by lia.
      - intros Hc. apply removelast_app_ok; auto.
      - unfold ended in *. destruct (f r1) as [r2 [e|[]]]; cbn [fst snd] in *; [done| |].
        + destruct G7 as (Hl' & Hok' & Hst'). rewrite !length_app. split_and!; [lia| |congruence]. intros Hc. apply Forall_app. auto.
        + destruct G7 as [?|(Hc & c & Hlast)]; [by left|right]. split; [done|]. exists c. rewrite last_app, Hlast. done. }
  all: exists xs; rewrite accepted_short, take_app_le, length_app by done; split_and!; [done|done|done|lia|done|done|done].
Qed.

(** What is left of a run when only the state of the server and the counter of operations
    change. *)
Lemma handleError_covers (p : Z + BSONObj) (ex : DBException) (r : Run) :
  reported p (inl (code ex)) -> covers [p] r (handleError ex r).
Proof.
  intros Hp. unfold handleError. destruct (isInterruption (code ex)); [|destruct (isStaleShardingError (code ex)); [destruct (isStaleConfig ex)|]].
  1-3: exists []; rewrite !app_nil_r; cbn [fst snd out results stored length accepted]; destruct p;
    (split_and!; [done|by rewrite ?app_nil_r|cbn; lia|lia|constructor|done|]); unfold ended; cbn; auto.
  exists [inl (code ex)]. cbn [fst snd push_result out results stored ninserted length].
  assert (accepted [p] [inl (code ex)] = []) as -> by (by destruct p). rewrite app_nil_r. split_and!; try done; try (cbn; lia).
  - by repeat constructor.
  - unfold ended. cbn [fst snd push_result out staleConfigException]. destruct continueOnError eqn:E; [done|]. right. split; [done|]. by eexists.
Qed.
Lemma inserted_covers (ds : list BSONObj) (r r0 : Run) :
  out r = out r0 -> stored r = stored r0 -> ninserted r = ninserted r0 -> covers (inr <$> ds) r0 (inserted ds r, inr true).
Proof.
  intros Ho Hst Hn. exists (replicate (length ds) (inr 1)). cbn [fst snd inserted out results stored ninserted staleConfigException].
  assert (accepted (inr <$> ds) (replicate (length ds) (inr 1)) = ds) as ->.
  { clear. induction ds as [|d ds IH]; [done|]. cbn. by rewrite IH. }
  rewrite Ho, Hst, Hn, length_replicate, length_fmap. split_and!; try done.
  - rewrite take_ge by (by rewrite length_fmap). clear. induction ds as [|d ds IH]; [constructor|]. by constructor.
  - intros _. destruct ds as [|d ds]; [constructor|]. cbn [length]. rewrite <- Nat.add_1_r, replicate_add. cbn [replicate].
    rewrite removelast_last. by apply Forall_replicate.
  - unfold ended. cbn [snd fst inserted out staleConfigException]. rewrite length_replicate, length_fmap, Ho. split_and!; [done| |done].
    intros _. by apply Forall_replicate.
Qed.
Lemma covers_same (ps : list (Z + BSONObj)) (r r' : Run) (a : answer) :
  out r = out r' -> stored r = stored r' -> ninserted r = ninserted r' -> covers ps r a -> covers ps r' a.
Proof. intros H1 H2 H3 (xs & G). exists xs. unfold ended in *. by rewrite <- H1, <- H2, <- H3. Qed.
(** A run that stops without a result. *)
Lemma covers_stopped (ps : list (Z + BSONObj)) (r r' : Run) (e : stop) :
  out r = out r' -> stored r = stored r' -> ninserted r = ninserted r' -> covers ps r' (r, inl e).
Proof.
  intros H1 H2 H3. exists []. assert (accepted ps [] = []) as -> by (by destruct ps as [|[] ?]).
  cbn [fst snd]. rewrite H1, H2, H3, !app_nil_r. split_and!; try done; cbn [length]; lia.
Qed.

Lemma insert_each_covers (batch : list BSONObj) : forall (held : bool) (r : Run), covers (inr <$> batch) r (insert_each batch held r).
Proof.
  induction batch as [|doc batch IH]; intros held r; [apply covers_none|]. cbn [insert_each].
  change (inr <$> doc :: batch) with ((inr <$> [doc]) ++ (inr <$> batch) : list (Z + BSONObj)).
  destruct (insert_single fuel doc held (store (gotInsert r))) as [s [[ex|]|[]]].
  - apply covers_then; [|apply IH]. apply (covers_same _ (set_store s (gotInsert r))); [done..|]. by apply handleError_covers.
  - by apply covers_stopped.
  - change (insert_each batch true (inserted [doc] (set_store s (gotInsert r))))
      with (and_then (inserted [doc] (set_store s (gotInsert r)), inr true) (insert_each batch true)).
    apply covers_then; [|apply IH]. by apply inserted_covers.
Qed.
Lemma insertBatch_covers (batch : list BSONObj) (r : Run) : covers (inr <$> batch) r (insertBatchAndHandleErrors batch r).
Proof.
  destruct batch as [|d batch]; [apply covers_none|]. unfold insertBatchAndHandleErrors.
  destruct (acquireCollection (store r)) as [s [[ex|]|[]]].
  - apply (covers_same _ (set_store s r)); [done..|]. apply insert_each_covers.
  - by apply covers_stopped.
  - destruct (isCapped s) as [s1 capped]. destruct (_ && _); [destruct (insertDocuments s1 (d :: batch)) as [s2 [ex|]]|].
    + apply (covers_same _ (set_store s2 r)); [done..|]. apply insert_each_covers.
    + by apply inserted_covers.
    + apply (covers_same _ (set_store s1 r)); [done..|]. apply insert_each_covers.
Qed.

Fixpoint prepared (k : nat) (docs : list BSONObj) : list (Z + BSONObj) :=
  match docs with [] => [] | doc :: docs => prepare k doc :: prepared (Datatypes.S k) docs end.
Lemma length_prepared (docs : list BSONObj) : forall k, length (prepared k docs) = length docs.
Proof. induction docs as [|doc docs IH]; intros k; [done|]. cbn. by rewrite IH. Qed.
Lemma inserts_loop_covers (docs : list BSONObj) : forall (k : nat) (batch : list BSONObj) (n : Z) (r : Run),
  docs <> [] \/ batch = [] -> covers ((inr <$> batch) ++ prepared k docs) r (inserts_loop docs k batch n r).
Proof.
  induction docs as [|doc docs IH]; intros k batch n r Hb.
  { destruct Hb as [?| ->]; [done|]. apply covers_none. }
  cbn [inserts_loop prepared]. destruct (prepare k doc) as [c|d].
  - apply covers_then; [apply insertBatch_covers|]. intros r'. apply (covers_then [inl c]).
    + by apply (covers_same _ (gotInsert r')), handleError_covers.
    + intros r2. apply (IH (Datatypes.S k) [] 0 r2). by right.
  - assert ((inr <$> batch) ++ inr d :: prepared (Datatypes.S k) docs = (inr <$> batch ++ [d]) ++ prepared (Datatypes.S k) docs) as ->
      by (by rewrite fmap_app, <- app_assoc).
    destruct (_ && _ && _) eqn:E.
    + apply IH. left. by destruct docs.
    + apply covers_then; [apply insertBatch_covers|]. intros r'. apply (IH (Datatypes.S k) [] 0 r'). by right.
Qed.

(** An environment that keeps the collection and has no write conflicts. *)
Record calm : Prop := {
  calm_fuel : (0 < fuel)%nat;
  calm_collection : forall s, (getCollection s).2 <> inr false;
  calm_insert : forall s ds ex, (insertDocuments s ds).2 = Some ex -> isWriteConflict ex = false;
  calm_acquire : forall s ex, (acquireCollection s).2 = inl (Thrown ex) -> isWriteConflict ex = false
}.
Lemma acquire_ends (s : S) : calm -> (acquireCollection s).2 <> inl OutOfFuel.
Proof.
  intros [Hf Hg _ _]. unfold acquireCollection. destruct fuel as [|n]; [lia|]. cbn [acquire_loop].
  destruct (checkForInterrupt s) as [s1 [ex|]]; [done|]. destruct (failAllInserts s1) as [s2 []]; [done|].
  specialize (Hg s2). destruct (getCollection s2) as [s3 [ex|[]]]; [done| |done]. by destruct (assertCanWrite_inlock s3) as [s4 [ex|]].
Qed.
Lemma single_ends (doc : BSONObj) (held : bool) (s : S) : calm -> (insert_single fuel doc held s).2 <> inl OutOfFuel.
Proof.
  intros Hc. pose proof (calm_fuel Hc) as Hf. destruct fuel as [|n]; [lia|]. cbn [insert_single].
  assert (exists s1 a, (if held then (s, inr tt) else acquireCollection s) = (s1, a) /\ a <> inl OutOfFuel /\
    (forall ex, a = inl (Thrown ex) -> isWriteConflict ex = false)) as (s1 & a & -> & Ha & Hw).
  { destruct held; [by exists s, (inr tt)|]. exists (acquireCollection s).1, (acquireCollection s).2. split; [by destruct (acquireCollection s)|].
    split; [by apply acquire_ends|]. intros ex. by apply (calm_acquire Hc). }
  destruct a as [[ex|]|[]]; [by rewrite (Hw ex eq_refl)|done|].
  pose proof (calm_insert Hc s1 [doc]) as Hi. destruct (insertDocuments s1 [doc]) as [s2 [ex|]]; [|done]. by rewrite (Hi ex eq_refl).
Qed.
Definition ends (a : answer) : Prop := a.2 <> inl OutOfFuel.
Lemma ends_then (a : answer) (f : Run -> answer) : ends a -> (forall r, ends (f r)) -> ends (and_then a f).
Proof. destruct a as [r [e|[]]]; [done|intros _ Hf; apply Hf|done]. Qed.
Lemma handleError_ends (ex : DBException) (r : Run) : ends (handleError ex r).
Proof. unfold handleError. destruct (isInterruption _); [done|]. destruct (isStaleShardingError _); [by destruct (isStaleConfig ex)|done]. Qed.
Lemma insert_each_ends (batch : list BSONObj) : calm -> forall held r, ends (insert_each batch held r).
Proof.
  intros Hc. induction batch as [|doc batch IH]; intros held r; [done|]. cbn [insert_each].
  pose proof (single_ends doc held (store (gotInsert r)) Hc) as Hs. destruct (insert_single _ _ _ _) as [s [[ex|]|[]]]; [|done|apply IH].
  apply ends_then; [apply handleError_ends|apply IH].
Qed.
Lemma insertBatch_ends (batch : list BSONObj) (r : Run) : calm -> ends (insertBatchAndHandleErrors batch r).
Proof.
  intros Hc. destruct batch as [|d batch]; [done|]. unfold insertBatchAndHandleErrors.
  pose proof (acquire_ends (store r) Hc) as Ha. destruct (acquireCollection (store r)) as [s [[ex|]|[]]]; [by apply insert_each_ends|done|].
  destruct (isCapped s) as [s1 capped]. destruct (_ && _); [|by apply insert_each_ends].
  destruct (insertDocuments s1 (d :: batch)) as [s2 [ex|]]; [by apply insert_each_ends|done].
Qed.
Lemma inserts_loop_ends (docs : list BSONObj) : calm -> forall k batch n r, ends (inserts_loop docs k batch n r).
Proof.
  intros Hc. induction docs as [|doc docs IH]; intros k batch n r; [done|]. cbn [inserts_loop]. destruct (prepare k doc) as [c|d].
  - apply ends_then; [by apply insertBatch_ends|]. intros r'. apply ends_then; [apply handleError_ends|intros r2; apply IH].
  - destruct (_ && _ && _); [apply IH|]. apply ends_then; [by apply insertBatch_ends|intros r'; apply IH].
Qed.


Lemma checked_fields (doc d : BSONObj) :
  (if Integrity.hasField doc Integrity.kDocHashFieldName then
     match Integrity.verifyDocumentIntegrity doc with Some c => inl c | None => inr (Integrity.stripHashField doc) end
   else inr doc) = inr d ->
  fields d = filter (fun f => ~ Integrity.has_hash f) (fields doc) /\
  (Integrity.hasField doc Integrity.kDocHashFieldName = true -> Integrity.verifyDocumentIntegrity doc = None).
Proof.
  destruct (Integrity.hasField doc Integrity.kDocHashFieldName) eqn:Hh.
  - destruct (Integrity.verifyDocumentIntegrity doc); [done|]. intros [= <-]. split; [|done].
    unfold Integrity.stripHashField. by rewrite Hh.
  - intros [= <-]. split; [|done]. symmetry. apply filter_all, Forall_forall. intros f Hf Hx.
    unfold Integrity.hasField in Hh. rewrite Integrity.getField_hash in Hh.
    destruct (list_find Integrity.has_hash (fields doc)) as [[]|] eqn:Hl; [done|]. apply list_find_None in Hl.
    rewrite Forall_forall in Hl. by apply (Hl f).
Qed.

(** C30. What is handed to the collection. A [_$docHash], if the document had one, was verified. The
    first field is the [_id]: the value that was submitted for it, of an allowed type, or the
    generated object id when there was none. The other fields are the submitted ones without the
    [_id] and the [_$docHash], in their order, with their names and with their values, except that
    a zero timestamp becomes a generated one; no submitted name starts with a dollar. *)
Theorem stored_documents_well_formed (k : nat) (doc d : BSONObj) :
  prepare k doc = inr d ->
  (Integrity.hasField doc Integrity.kDocHashFieldName = true -> Integrity.verifyDocumentIntegrity doc = None) /\
  let submitted := filter (fun f => ~ Integrity.has_hash f) (fields doc) in
  exists rest, fields d = (lit "_id", the_id (oid k) submitted) :: rest /\ id_error (the_id (oid k) submitted) = None /\
    Forall (fun f : field => dollar_prefixed f.1 = false) submitted /\
    Forall2 (kept_field (stamp k)) (filter (fun f => ~ is_id f) submitted) rest.
Proof.
  unfold prepare. destruct (if Integrity.hasField doc _ then _ else _) as [c|d0] eqn:Hc; [done|]. apply checked_fields in Hc as [Hf Hv].
  destruct (fixDocumentForInsert (oid k) (stamp k) d0) as [c|x] eqn:Hx; [done|]. intros [= <-]. split; [done|].
  apply fix_storable in Hx. by rewrite Hf in Hx.
Qed.

End inserts.

(** ** A server with one collection that has a unique index on [_id] *)

Definition same_id (d e : BSONObj) : bool :=
  bool_decide (enc_value <$> (snd <$> head (fields d)) = enc_value <$> (snd <$> head (fields e))).

Fixpoint insert_unique (s : list BSONObj) (ds : list BSONObj) : option (list BSONObj) :=
  match ds with
  | [] => Some s
  | d :: ds => if existsb (same_id d) s then None else insert_unique (s ++ [d]) ds
  end.

#[export] Instance unique_collection : Environment (list BSONObj) := {|
  checkForInterrupt s := (s, None);
  failAllInserts s := (s, false);
  getCollection s := (s, inr true);
  getOrCreateDb s := (s, None);
  db_getCollection s := (s, true);
  userCreateNS s := (s, inr None);
  canAcceptWritesFor s := (s, true);
  checkShardVersionOrThrow s := (s, None);
  isCapped s := (s, false);
  collection_insertDocuments s ds := match insert_unique s ds with Some s' => (s', inr None) | None => (s, inr (Some 11000)) end;
  beginUnitOfWork s := (s, None);
  commitUnitOfWork s := (s, None);
  abortUnitOfWork s := s;
  logAndBackoff s := s;
  createIndexes s _ _ := (s, inr (1, 1))
|}.

Definition with_id (n : Z) : BSONObj := mkObj 0 [(lit "_id", VInt n)].
Definition some_docs : list BSONObj := [with_id 1; with_id 2; with_id 1; mkObj 0 [(lit "$x", VNull)]; with_id 3].


Lemma stored_documents_well_formed_witness :
  let doc := mkObj 0 (Integrity.seal [] [(lit "a", VInt 1); (lit "_id", VInt 7); (lit "ts", VTimestamp 0)]) in
  exists d, prepare (fun _ => replicate 12 0) (fun _ _ => 5) 0 doc = inr d /\
    fields d = [(lit "_id", VInt 7); (lit "a", VInt 1); (lit "ts", VTimestamp 5)] /\
    (Integrity.hasField doc Integrity.kDocHashFieldName = true -> Integrity.verifyDocumentIntegrity doc = None).
Proof.
  intros doc. eexists. split; [vm_compute; reflexivity|]. split; [reflexivity|].
  eapply (stored_documents_well_formed (fun _ => replicate 12 0) (fun _ _ => 5) 0 doc).
  vm_compute. reflexivity.
Defined.

End Ins.
