(* ===== verification/Extractor.v ===== *)
(** * The unified field extractor

    [UnifiedFieldExtractor] of [db/index/unified_field_extractor.h]: paths are registered into
    slots, and one pass over a document fills the slots of all of them. Names are looked up by a
    32-bit signature. Reading or writing a vector outside its bounds is [None]. *)
From S2P Require Import Prelude StringData Bson DottedPath.

Module Ufe.
Import Doc.
Local Open Scope nat_scope.

Definition kMaxFields : nat := 256.
Definition kInvalidSlot : nat := 255.

(** Length, first byte, last byte and an 8-bit hash. *)
Definition makeSignature (s : bytes) : Z :=
  match s with
  | [] => 0%Z
  | c :: _ =>
      let hash := foldl (fun h x => wrapu 8 (h * 31 + wrapu 8 x)) 0%Z s in
      Z.lor (Z.lor (Z.lor (Z.shiftl (Z.land (Z.of_nat (length s)) 255) 24) (Z.shiftl (wrapu 8 c) 16))
               (Z.shiftl (wrapu 8 (default 0%Z (last s))) 8)) hash
  end.

(** The vectors of slot numbers hold 8-bit numbers; a slot is below 255. *)
Record Extractor := mkExtractor {
  _sigToSlot : gmap Z nat;
  _collisionSlots : gmap Z (list nat);
  _fields : list bytes;
  _isNested : list bool;
  _nestedPrefixes : list bytes;
  _topLevelSlots : list nat;
  _nestedSlots : list nat;
  _topLevelSigs : gset Z;
  _nestedPrefixSigs : gmap Z (list nat);
  _indexSlots : gmap bytes (list nat);
  _digestSlots : gmap bytes (list nat);
  _slots : list Element;
  _hasArrayAlongPath : list bool;
  _extractedCount : nat;
  _finalized : bool }.

Definition new_extractor : Extractor := mkExtractor ∅ ∅ [] [] [] [] [] ∅ ∅ ∅ ∅ [] [] 0 false.

(** *** Registration *)

(** The first of the candidate slots whose name is the path. *)
Definition slot_named (x : Extractor) (fieldPath : bytes) (candidates : list nat) : option nat :=
  snd <$> list_find (fun i => _fields x !! i = Some fieldPath) candidates.

Definition registered_slot (x : Extractor) (fieldPath : bytes) : option nat :=
  let sig := makeSignature fieldPath in
  let known :=
    match _sigToSlot x !! sig with
    | Some slot =>
        if bool_decide (_fields x !! slot = Some fieldPath) then Some slot
        else slot_named x fieldPath (seq 0 (length (_fields x)))
    | None => None
    end in
  match known with
  | Some slot => Some slot
  | None =>
      match _collisionSlots x !! sig with
      | Some l => slot_named x fieldPath l
      | None => None
      end
  end.

Definition registerField (fieldPath : bytes) (x : Extractor) : nat * Extractor :=
  if _finalized x then (kInvalidSlot, x)
  else
    match registered_slot x fieldPath with
    | Some slot => (slot, x)
    | None =>
        if kMaxFields - 1 <=? length (_fields x) then (kInvalidSlot, x)
        else
          let sig := makeSignature fieldPath in
          let slot := length (_fields x) in
          let '(sigs, colls) :=
            match _sigToSlot x !! sig with
            | Some _ => (_sigToSlot x, <[sig := default [] (_collisionSlots x !! sig) ++ [slot]]> (_collisionSlots x))
            | None => (<[sig := slot]> (_sigToSlot x), _collisionSlots x)
            end in
          let dotPos := SD.memchr fieldPath 46 in
          (slot,
           mkExtractor sigs colls (_fields x ++ [fieldPath])
             (_isNested x ++ [match dotPos with Some _ => true | None => false end])
             (match dotPos with Some i => _nestedPrefixes x ++ [take i fieldPath] | None => _nestedPrefixes x end)
             (match dotPos with Some _ => _topLevelSlots x | None => _topLevelSlots x ++ [slot] end)
             (match dotPos with Some _ => _nestedSlots x ++ [slot] | None => _nestedSlots x end)
             (_topLevelSigs x) (_nestedPrefixSigs x) (_indexSlots x) (_digestSlots x) (_slots x) (_hasArrayAlongPath x)
             (_extractedCount x) (_finalized x))
    end.

(** The loop of [registerIndex] and [registerDigest]. *)
Fixpoint register_all (fields : list bytes) (x : Extractor) : list nat * Extractor :=
  match fields with
  | [] => ([], x)
  | f :: fields =>
      let '(slot, x) := registerField f x in
      let '(slots, x) := register_all fields x in
      (if slot =? kInvalidSlot then slots else slot :: slots, x)
  end.

Definition registerIndex (indexName : bytes) (fields : list bytes) (x : Extractor) : list nat * Extractor :=
  let '(slots, x) := register_all fields x in
  (slots, mkExtractor (_sigToSlot x) (_collisionSlots x) (_fields x) (_isNested x) (_nestedPrefixes x) (_topLevelSlots x)
            (_nestedSlots x) (_topLevelSigs x) (_nestedPrefixSigs x) (<[indexName := slots]> (_indexSlots x))
            (_digestSlots x) (_slots x) (_hasArrayAlongPath x) (_extractedCount x) (_finalized x)).

Definition registerDigest (digestName : bytes) (fields : list bytes) (x : Extractor) : list nat * Extractor :=
  let '(slots, x) := register_all fields x in
  (slots, mkExtractor (_sigToSlot x) (_collisionSlots x) (_fields x) (_isNested x) (_nestedPrefixes x) (_topLevelSlots x)
            (_nestedSlots x) (_topLevelSigs x) (_nestedPrefixSigs x) (_indexSlots x)
            (<[digestName := slots]> (_digestSlots x)) (_slots x) (_hasArrayAlongPath x) (_extractedCount x) (_finalized x)).

Definition resize {A : Type} (n : nat) (a : A) (l : list A) : list A := take n l ++ replicate (n - length l) a.

Definition add_prefix (m : gmap Z (list nat)) (p : nat * bytes) : gmap Z (list nat) :=
  let sig := makeSignature p.2 in <[sig := default [] (m !! sig) ++ [p.1]]> m.

Definition finalize (x : Extractor) : Extractor :=
  let n := length (_fields x) in
  mkExtractor (_sigToSlot x) (_collisionSlots x) (_fields x) (_isNested x) (_nestedPrefixes x) (_topLevelSlots x) (_nestedSlots x)
    (foldl (fun s slot => {[makeSignature (default [] (_fields x !! slot))]} ∪ s) (_topLevelSigs x) (_topLevelSlots x))
    (foldl add_prefix (_nestedPrefixSigs x) (zip (_nestedSlots x) (_nestedPrefixes x)))
    (_indexSlots x) (_digestSlots x) (resize n Eoo (_slots x)) (resize n false (_hasArrayAlongPath x)) (_extractedCount x) true.

(** *** Extraction *)

(** The slots, the array marks and the counter. *)
Record Slots := mkSlots { vals : list Element; marks : list bool; count : nat }.

Definition set_slot (slot : nat) (e : Element) (st : Slots) : option Slots :=
  if slot <? length (vals st) then Some (mkSlots (<[slot := e]> (vals st)) (marks st) (count st)) else None.
Definition mark (slot : nat) (st : Slots) : option Slots :=
  if slot <? length (marks st) then Some (mkSlots (vals st) (<[slot := true]> (marks st)) (count st)) else None.
Definition counted (st : Slots) : Slots := mkSlots (vals st) (marks st) (S (count st)).

(** [!_isNested[slot]] and the name of the slot is the field's. *)
Definition slot_is (x : Extractor) (name : bytes) (slot : nat) : option bool :=
  nested ← _isNested x !! slot;
  f ← _fields x !! slot;
  Some (negb nested && bool_decide (f = name)).

Fixpoint collision_loop (x : Extractor) (name : bytes) (e : Element) (l : list nat) (st : Slots) : option Slots :=
  match l with
  | [] => Some st
  | slot :: l =>
      b ← slot_is x name slot;
      if (b : bool) then st ← set_slot slot e st; Some (counted st) else collision_loop x name e l st
  end.

(** One nested slot whose prefix has the signature of the element's name. *)
Definition nested_slot (x : Extractor) (e : Element) (slot : nat) (st : Slots) : option Slots :=
  cur ← vals st !! slot;
  if eoo cur then
    fullPath ← _fields x !! slot;
    dotPos ← SD.memchr fullPath 46;
    let subPath := drop (S dotPos) fullPath in
    st ← (if (type e =? T.Object)%Z then
            subObj ← embeddedObject e;
            let '(result, rest) := Dps.extractElementAtPathOrArrayAlongPath subObj subPath in
            st ← set_slot slot result st;
            if bool_decide (rest = []) then Some st else mark slot st
          else st ← set_slot slot e st; mark slot st);
    now ← vals st !! slot;
    Some (if eoo now then st else counted st)
  else Some st.

Fixpoint nested_loop (x : Extractor) (e : Element) (l : list nat) (st : Slots) : option Slots :=
  match l with
  | [] => Some st
  | slot :: l => st ← nested_slot x e slot st; nested_loop x e l st
  end.

(** The slot of the signature, then the slots that collide with it. *)
Definition extract_top_level (x : Extractor) (e : Element) (st : Slots) : option Slots :=
  let name := fieldName e in
  let sig := makeSignature name in
  st ← match _sigToSlot x !! sig with
       | Some slot => b ← slot_is x name slot; if (b : bool) then st ← set_slot slot e st; Some (counted st) else Some st
       | None => Some st
       end;
  match _collisionSlots x !! sig with Some l => collision_loop x name e l st | None => Some st end.

(** The nested slots of the signature. *)
Definition extract_nested (x : Extractor) (e : Element) (st : Slots) : option Slots :=
  if (type e =? T.Object)%Z || (type e =? T.Array)%Z then
    match _nestedPrefixSigs x !! makeSignature (fieldName e) with Some l => nested_loop x e l st | None => Some st end
  else Some st.

Definition extract_element (x : Extractor) (e : Element) (st : Slots) : option Slots :=
  st ← extract_top_level x e st; extract_nested x e st.

Fixpoint extract_loop (x : Extractor) (es : list Element) (st : Slots) : option Slots :=
  match es with
  | [] => Some st
  | e :: es => st ← extract_element x e st; extract_loop x es st
  end.

Definition extract (doc : BSONObj) (x : Extractor) : option Extractor :=
  st ← extract_loop x (elements doc)
         (mkSlots ((fun _ => Eoo) <$> _slots x) ((fun _ => false) <$> _hasArrayAlongPath x) 0);
  Some (mkExtractor (_sigToSlot x) (_collisionSlots x) (_fields x) (_isNested x) (_nestedPrefixes x) (_topLevelSlots x)
          (_nestedSlots x) (_topLevelSigs x) (_nestedPrefixSigs x) (_indexSlots x) (_digestSlots x) (vals st) (marks st)
          (count st) (_finalized x)).

(** *** Access *)

Definition get (slot : nat) (x : Extractor) : Element := default Eoo (_slots x !! slot).
Definition getFields (slots : option (list nat)) (x : Extractor) : option (list Element) :=
  match slots with None => Some [] | Some l => mapM (fun s => _slots x !! s) l end.
Definition getIndexFields (indexName : bytes) (x : Extractor) : option (list Element) :=
  getFields (_indexSlots x !! indexName) x.
Definition getDigestFields (digestName : bytes) (x : Extractor) : option (list Element) :=
  getFields (_digestSlots x !! digestName) x.
Definition hasArrayAlongPath (slot : nat) (x : Extractor) : bool := default false (_hasArrayAlongPath x !! slot).
Definition getFieldName (slot : nat) (x : Extractor) : bytes := default [] (_fields x !! slot).
Definition collisionCount (x : Extractor) : nat := map_fold (fun _ l n => length l + n) 0 (_collisionSlots x).
(** ** Registration *)

Definition nested (p : bytes) : bool := match SD.memchr p 46 with Some _ => true | None => false end.

(** The nested paths of a list of fields, with their slots and prefixes. *)
Definition prefix_of (q : nat * bytes) : option (nat * bytes) := j ← SD.memchr q.2 46; Some (q.1, take j q.2).
Definition prefixes (fs : list bytes) : list (nat * bytes) := omap prefix_of (imap pair fs).

Record Wf (x : Extractor) : Prop := {
  wf_nested : _isNested x = nested <$> _fields x;
  wf_nodup : NoDup (_fields x);
  wf_len : length (_fields x) <= kMaxFields - 1;
  wf_sig : forall sg i, _sigToSlot x !! sg = Some i -> exists p, _fields x !! i = Some p /\ makeSignature p = sg;
  wf_coll : forall sg l i, _collisionSlots x !! sg = Some l -> i ∈ l ->
    exists p, _fields x !! i = Some p /\ makeSignature p = sg;
  wf_found : forall i p, _fields x !! i = Some p ->
    _sigToSlot x !! makeSignature p = Some i \/ exists l, _collisionSlots x !! makeSignature p = Some l /\ i ∈ l;
  wf_prefixes : zip (_nestedSlots x) (_nestedPrefixes x) = prefixes (_fields x);
  wf_parallel : length (_nestedSlots x) = length (_nestedPrefixes x) }.

Lemma new_wf : Wf new_extractor.
Proof. split; try done; [apply NoDup_nil_2|cbn; lia]. Qed.

Lemma slot_named_Some (x : Extractor) (p : bytes) (l : list nat) (i : nat) :
  slot_named x p l = Some i -> i ∈ l /\ _fields x !! i = Some p.
Proof.
  unfold slot_named. intros ([k j] & Hf & ->)%fmap_Some. apply list_find_Some in Hf as (Hk & Hj & _). split; [|done].
  by eapply list_elem_of_lookup_2.
Qed.

Lemma slot_named_is_Some (x : Extractor) (p : bytes) (l : list nat) (i : nat) :
  i ∈ l -> _fields x !! i = Some p -> is_Some (slot_named x p l).
Proof.
  intros Hi Hp. unfold slot_named. rewrite fmap_is_Some. by eapply list_find_elem_of.
Qed.

(** The lookup finds the slot of a path if there is one. *)
Lemma registered_slot_spec (x : Extractor) (p : bytes) (i : nat) :
  Wf x -> registered_slot x p = Some i <-> _fields x !! i = Some p.
Proof.
  intros HW. unfold registered_slot.
  assert (forall j, _fields x !! j = Some p -> forall k, _fields x !! k = Some p -> k = j) as Huniq.
  { intros j Hj k Hk. by apply (NoDup_lookup (_fields x) k j p (wf_nodup x HW)). }
  assert (forall o, (forall j, o = Some j -> _fields x !! j = Some p) ->
            ((exists j, _fields x !! j = Some p) -> is_Some o) -> o = Some i <-> _fields x !! i = Some p) as Hspec.
  { intros o H1 H2. split; [apply H1|]. intros Hi. destruct (H2 (ex_intro _ i Hi)) as [j ->].
    f_equal. by apply (Huniq i Hi j), H1. }
  apply Hspec; clear Hspec.
  - intros j. destruct (_sigToSlot x !! makeSignature p) as [s|] eqn:Hs.
    + case_bool_decide; [by intros [= <-]|]. destruct (slot_named x p _) eqn:Hn; [intros [= <-]; by eapply slot_named_Some|].
      destruct (_collisionSlots x !! makeSignature p); [|done]. intros Hj. by eapply slot_named_Some.
    + destruct (_collisionSlots x !! makeSignature p); [|done]. intros Hj. by eapply slot_named_Some.
  - intros [j Hj]. destruct (wf_found x HW j p Hj) as [Hs|(l & Hl & Hin)].
    + rewrite Hs, bool_decide_eq_true_2 by done. done.
    + destruct (_sigToSlot x !! makeSignature p) as [s|] eqn:Hs.
      * case_bool_decide; [done|]. destruct (slot_named_is_Some x p (seq 0 (length (_fields x))) j) as [k ->]; [|done|done].
        apply elem_of_seq. apply lookup_lt_Some in Hj. lia.
      * rewrite Hl. by eapply slot_named_is_Some.
Qed.

Lemma prefixes_snoc (fs : list bytes) (p : bytes) :
  prefixes (fs ++ [p]) = prefixes fs ++ match SD.memchr p 46 with Some j => [(length fs, take j p)] | None => [] end.
Proof.
  unfold prefixes. rewrite imap_app, omap_app. f_equal. cbn. unfold prefix_of. cbn. rewrite Nat.add_0_r.
  by destruct (SD.memchr p 46).
Qed.

(** A new path gets the next slot. *)
Lemma register_wf (p : bytes) (x : Extractor) : Wf x -> Wf (registerField p x).2.
Proof.
  intros HW. unfold registerField. destruct (_finalized x); [done|].
  destruct (registered_slot x p) as [s|] eqn:Hr; [done|].
  destruct (Nat.leb_spec (kMaxFields - 1) (length (_fields x))) as [Hfull|Hroom]; [done|].
  assert (p ∉ _fields x) as Hnew.
  { intros [i Hi]%list_elem_of_lookup. apply (registered_slot_spec x p i HW) in Hi. congruence. }
  assert (forall i q, _fields x !! i = Some q -> (_fields x ++ [p]) !! i = Some q) as Hold
    by (intros i q Hi; by apply lookup_app_l_Some).
  assert ((_fields x ++ [p]) !! length (_fields x) = Some p) as Hlast by (by rewrite lookup_app_r, Nat.sub_diag by lia).
  destruct HW as [W1 W2 W3 W4 W5 W6 W7 W8].
  destruct (match _sigToSlot x !! makeSignature p with Some _ => _ | None => _ end) as [sigs colls] eqn:Hsc.
  split; cbn [snd _sigToSlot _collisionSlots _fields _isNested _nestedPrefixes _nestedSlots].
  - rewrite fmap_app, <- W1. done.
  - apply NoDup_app. split_and!; [done| |apply NoDup_singleton]. intros q Hq ->%list_elem_of_singleton. done.
  - solve_length.
  - intros sg i Hi. destruct (_sigToSlot x !! makeSignature p) as [s0|]; injection Hsc as <- <-.
    + destruct (W4 sg i Hi) as (q & Hq & ?). exists q. auto.
    + apply lookup_insert_Some in Hi as [[<- <-]|[_ Hi]]; [by exists p|]. destruct (W4 sg i Hi) as (q & Hq & ?). exists q. auto.
  - intros sg l i Hl Hi. destruct (_sigToSlot x !! makeSignature p) as [s0|]; injection Hsc as <- <-.
    + apply lookup_insert_Some in Hl as [[<- <-]|[_ Hl]]; [|destruct (W5 sg l i Hl Hi) as (q & Hq & ?); exists q; auto].
      apply elem_of_app in Hi as [Hi| ->%list_elem_of_singleton]; [|by exists p].
      destruct (_collisionSlots x !! makeSignature p) as [l0|] eqn:Hl0; [|by apply elem_of_nil in Hi].
      destruct (W5 _ l0 i Hl0 Hi) as (q & Hq & ?). exists q. auto.
    + destruct (W5 sg l i Hl Hi) as (q & Hq & ?). exists q. auto.
  - intros i q Hi. apply lookup_app_Some in Hi as [Hi|[Hle Hi]].
    + destruct (_sigToSlot x !! makeSignature p) as [s0|] eqn:Hs0; injection Hsc as <- <-.
      * destruct (W6 i q Hi) as [?|(l & Hl & Hin)]; [by left|]. right.
        destruct (decide (makeSignature q = makeSignature p)) as [He|He].
        -- rewrite He, lookup_insert_eq. eexists. split; [done|]. rewrite <- He, Hl. apply elem_of_app. by left.
        -- exists l. by rewrite lookup_insert_ne.
      * destruct (W6 i q Hi) as [?|?]; [|by right]. left. rewrite lookup_insert_ne; [done|]. congruence.
    + assert (i = length (_fields x) /\ q = p) as [-> ->].
      { destruct (i - length (_fields x)) as [|k] eqn:Hk; [|done]. cbn in Hi. injection Hi as <-. split; [lia|done]. }
      destruct (_sigToSlot x !! makeSignature p) as [s0|] eqn:Hs0; injection Hsc as <- <-.
      * right. rewrite lookup_insert_eq. eexists. split; [done|]. apply elem_of_app. right. by apply list_elem_of_singleton.
      * left. apply lookup_insert_eq.
  - rewrite prefixes_snoc, <- W7. destruct (SD.memchr p 46); [|by rewrite app_nil_r]. by rewrite zip_with_app.
  - destruct (SD.memchr p 46); solve_length.
Qed.
(** ** Finalized extractors *)

Lemma add_prefixes (qs : list (nat * bytes)) (m : gmap Z (list nat)) (sg : Z) :
  default [] (foldl add_prefix m qs !! sg) = default [] (m !! sg) ++ (filter (fun q => makeSignature q.2 = sg) qs).*1.
Proof.
  revert m. induction qs as [|q qs IH]; intros m; [by rewrite app_nil_r|]. cbn [foldl]. rewrite IH. unfold add_prefix.
  destruct (decide (makeSignature q.2 = sg)) as [<-|Hne].
  - rewrite lookup_insert_eq, filter_cons_True by done. cbn [default from_option id fmap list_fmap]. by rewrite <- app_assoc.
  - by rewrite lookup_insert_ne, filter_cons_False by done.
Qed.

Lemma prefixes_elem (fs : list bytes) (i : nat) (q : bytes) :
  (i, q) ∈ prefixes fs <-> exists p j, fs !! i = Some p /\ SD.memchr p 46 = Some j /\ q = take j p.
Proof.
  unfold prefixes. rewrite list_elem_of_omap. unfold prefix_of. split.
  - intros ([i' p] & Hin & Hp). cbn in Hp. destruct (SD.memchr p 46) as [j|] eqn:Hj; [|done]. injection Hp as -> <-.
    apply list_elem_of_lookup in Hin as [k Hk]. rewrite list_lookup_imap in Hk.
    destruct (fs !! k) as [p'|] eqn:Hf; [|done]. injection Hk as -> ->. by exists p, j.
  - intros (p & j & Hi & Hj & ->). exists (i, p). cbn. rewrite Hj. split; [|done].
    apply list_elem_of_lookup. exists i. by rewrite list_lookup_imap, Hi.
Qed.

Lemma prefixes_fst (fs : list bytes) : NoDup (prefixes fs).*1 /\ forall i, i ∈ (prefixes fs).*1 -> i < length fs.
Proof.
  induction fs as [|p fs IH] using rev_ind; [by split; [apply NoDup_nil_2|intros i Hi; apply elem_of_nil in Hi]|].
  destruct IH as [IH1 IH2]. rewrite prefixes_snoc, fmap_app, length_app. cbn [length].
  destruct (SD.memchr p 46) as [j|]; cbn [fmap list_fmap fst].
  - split.
    + apply NoDup_app. split_and!; [done| |apply NoDup_singleton]. intros i Hi ->%list_elem_of_singleton. apply IH2 in Hi. lia.
    + intros i [Hi| ->%list_elem_of_singleton]%elem_of_app; [apply IH2 in Hi|]; lia.
  - rewrite app_nil_r. split; [done|]. intros i Hi. apply IH2 in Hi. lia.
Qed.

(** An extractor that is ready to extract. *)
Record Ready (x : Extractor) : Prop := {
  rd_wf : Wf x;
  rd_vals : length (_slots x) = length (_fields x);
  rd_marks : length (_hasArrayAlongPath x) = length (_fields x);
  rd_prefix : forall sg, default [] (_nestedPrefixSigs x !! sg) =
    (filter (fun q => makeSignature q.2 = sg) (prefixes (_fields x))).*1 }.

(** Nothing has been extracted or finalized. *)
Definition fresh (x : Extractor) : Prop := _finalized x = false /\ _nestedPrefixSigs x = ∅ /\ _slots x = [] /\ _hasArrayAlongPath x = [].

Lemma register_fresh (p : bytes) (x : Extractor) : fresh x -> fresh (registerField p x).2.
Proof.
  intros (H1 & H2 & H3 & H4). unfold registerField. rewrite H1. destruct (registered_slot x p); [done|].
  destruct (_ <=? _); [done|]. by destruct (match _sigToSlot x !! makeSignature p with Some _ => _ | None => _ end).
Qed.

Lemma finalize_ready (x : Extractor) : Wf x -> fresh x -> Ready (finalize x).
Proof.
  intros HW (H1 & H2 & H3 & H4). split; cbn [finalize _slots _hasArrayAlongPath _fields _nestedPrefixSigs].
  - destruct HW. by split.
  - unfold resize. rewrite H3, take_nil, Nat.sub_0_r. apply length_replicate.
  - unfold resize. rewrite H4, take_nil, Nat.sub_0_r. apply length_replicate.
  - intros sg. rewrite add_prefixes, H2, lookup_empty, (wf_prefixes x HW). done.
Qed.

(** ** One element of the document *)

(** What an element does to the slot of the path [p]. *)
Definition update (p : bytes) (e : Element) (c : Element * bool) : Element * bool :=
  match SD.memchr p 46 with
  | None => if bool_decide (p = fieldName e) then (e, c.2) else c
  | Some j =>
      if ((type e =? T.Object)%Z || (type e =? T.Array)%Z) && (makeSignature (take j p) =? makeSignature (fieldName e))%Z
         && eoo c.1 then
        if (type e =? T.Object)%Z then
          match embeddedObject e with
          | Some o =>
              let '(r, rest) := Dps.extractElementAtPathOrArrayAlongPath o (drop (S j) p) in
              (r, if bool_decide (rest = []) then c.2 else true)
          | None => c
          end
        else (e, true)
      else c
  end.

Definition cell (st : Slots) (i : nat) : Element * bool := (default Eoo (vals st !! i), default false (marks st !! i)).

Definition sized (x : Extractor) (st : Slots) : Prop :=
  length (vals st) = length (_fields x) /\ length (marks st) = length (_fields x).

(** [st'] differs from [st] by the function [f] on each slot. *)
Definition changes (x : Extractor) (st st' : Slots) (f : nat -> bytes -> Element * bool -> Element * bool) : Prop :=
  sized x st' /\ forall i p, _fields x !! i = Some p -> cell st' i = f i p (cell st i).

Section element.
Context (x : Extractor) (HR : Ready x).

Lemma slot_is_spec (name : bytes) (i : nat) (p : bytes) :
  _fields x !! i = Some p -> slot_is x name i = Some (negb (nested p) && bool_decide (p = name)).
Proof.
  intros Hi. unfold slot_is. rewrite (wf_nested x (rd_wf x HR)), list_lookup_fmap, Hi. done.
Qed.

Lemma set_slot_spec (i : nat) (e : Element) (st : Slots) :
  sized x st -> i < length (_fields x) ->
  exists st', set_slot i e st = Some st' /\ sized x st' /\ count st' = count st /\
    forall k, cell st' k = if decide (k = i) then (e, (cell st k).2) else cell st k.
Proof.
  intros [H1 H2] Hi. unfold set_slot. destruct (Nat.ltb_spec i (length (vals st))); [|lia]. eexists. split; [done|].
  split; [split; cbn; [by rewrite length_insert|done]|]. split; [done|]. intros k. unfold cell. cbn.
  destruct (decide (k = i)) as [->|Hk]; [by rewrite list_lookup_insert_eq by lia|by rewrite list_lookup_insert_ne].
Qed.

Lemma mark_spec (i : nat) (st : Slots) :
  sized x st -> i < length (_fields x) ->
  exists st', mark i st = Some st' /\ sized x st' /\
    forall k, cell st' k = if decide (k = i) then ((cell st k).1, true) else cell st k.
Proof.
  intros [H1 H2] Hi. unfold mark. destruct (Nat.ltb_spec i (length (marks st))); [|lia]. eexists. split; [done|].
  split; [split; cbn; [done|by rewrite length_insert]|]. intros k. unfold cell. cbn.
  destruct (decide (k = i)) as [->|Hk]; [by rewrite list_lookup_insert_eq by lia|by rewrite list_lookup_insert_ne].
Qed.

Lemma fields_inj (i k : nat) (p : bytes) : _fields x !! i = Some p -> _fields x !! k = Some p -> i = k.
Proof. intros Hi Hk. by apply (NoDup_lookup (_fields x) i k p (wf_nodup x (rd_wf x HR))). Qed.

(** The slot of the name, if it is among those that are tried, gets the element. *)
Definition takes (l : list nat) (e : Element) (i : nat) (p : bytes) (c : Element * bool) : Element * bool :=
  if decide (i ∈ l) then if negb (nested p) && bool_decide (p = fieldName e) then (e, c.2) else c else c.

Lemma try_slot (i : nat) (p : bytes) (e : Element) (st : Slots) :
  sized x st -> _fields x !! i = Some p -> negb (nested p) && bool_decide (p = fieldName e) = true ->
  exists st', set_slot i e st = Some st' /\
    forall l, i ∈ l -> changes x st (counted st') (takes l e).
Proof.
  intros Hsz Hi Hb. destruct (set_slot_spec i e st Hsz) as (st' & Hset & Hsz' & _ & Hc); [by eapply lookup_lt_Some|].
  exists st'. split; [done|]. intros l Hl. split; [done|]. intros k q Hk. change (cell (counted st') k) with (cell st' k).
  rewrite Hc. unfold takes. apply andb_true_iff in Hb as [Hb1 Hb2%bool_decide_eq_true_1]. destruct (decide (k = i)) as [->|Hne].
  - rewrite decide_True by done. replace q with p by congruence. rewrite Hb1, bool_decide_eq_true_2 by done. done.
  - destruct (decide (k ∈ l)); [|done]. rewrite (bool_decide_eq_false_2 (q = fieldName e)); [by rewrite andb_false_r|].
    intros Hq. apply Hne. apply (fields_inj k i p); congruence.
Qed.

Lemma collision_loop_spec (e : Element) (l : list nat) (st : Slots) :
  sized x st -> (forall i, i ∈ l -> i < length (_fields x)) ->
  exists st', collision_loop x (fieldName e) e l st = Some st' /\ changes x st st' (takes l e).
Proof.
  intros Hsz. induction l as [|i l IH]; intros Hl.
  - exists st. split; [done|]. split; [done|]. intros k q Hk. unfold takes. rewrite decide_False; [done|apply not_elem_of_nil].
  - cbn [collision_loop]. destruct (lookup_lt_is_Some_2 (_fields x) i) as [p Hi]; [apply Hl; by left|].
    rewrite (slot_is_spec _ i p Hi). cbn [mbind option_bind].
    destruct (negb (nested p) && bool_decide (p = fieldName e)) eqn:Hb.
    + destruct (try_slot i p e st Hsz Hi Hb) as (st' & -> & Hch). cbn. eexists. split; [done|]. apply Hch. by left.
    + destruct IH as (st' & Hst & Hsz' & Hc); [intros k Hk; apply Hl; by right|]. exists st'. split; [done|].
      split; [done|]. intros k q Hk. rewrite (Hc k q Hk). unfold takes.
      destruct (decide (k ∈ l)) as [Hin|Hin]; [rewrite decide_True by (by right); done|].
      destruct (decide (k ∈ i :: l)) as [[-> |?]%elem_of_cons|]; [|done|done].
      replace q with p by congruence. by rewrite Hb.
Qed.
(** The first two lookups of an element: the slot of its name gets it. *)
Definition top_update (e : Element) (p : bytes) (c : Element * bool) : Element * bool :=
  if negb (nested p) && bool_decide (p = fieldName e) then (e, c.2) else c.

Lemma top_part (e : Element) (st : Slots) :
  sized x st -> exists st', extract_top_level x e st = Some st' /\ changes x st st' (fun _ => top_update e).
Proof.
  intros Hsz. unfold extract_top_level. pose proof (rd_wf x HR) as HW. set (sg := makeSignature (fieldName e)).
  set (l1 := match _sigToSlot x !! sg with Some s => [s] | None => [] end). set (l2 := default [] (_collisionSlots x !! sg)).
  assert (exists st1, match _sigToSlot x !! sg with
                      | Some slot => b ← slot_is x (fieldName e) slot;
                                     if (b : bool) then st ← set_slot slot e st; Some (counted st) else Some st
                      | None => Some st
                      end = Some st1 /\ changes x st st1 (takes l1 e)) as (st1 & -> & Hsz1 & Hc1).
  { assert (exists st1, collision_loop x (fieldName e) e l1 st = Some st1 /\ changes x st st1 (takes l1 e)) as (st1 & H1 & H2).
    { apply collision_loop_spec; [done|]. unfold l1. destruct (_sigToSlot x !! sg) as [s|] eqn:Hs; intros i Hi.
      - apply list_elem_of_singleton in Hi as ->. destruct (wf_sig x HW _ _ Hs) as (p & Hp & _). by eapply lookup_lt_Some.
      - by apply elem_of_nil in Hi. }
    exists st1. split; [|done]. unfold l1 in H1. by destruct (_sigToSlot x !! sg). }
  cbn [mbind option_bind].
  assert (exists st2, match _collisionSlots x !! sg with
                      | Some l => collision_loop x (fieldName e) e l st1 | None => Some st1 end = Some st2 /\
                      changes x st1 st2 (takes l2 e)) as (st2 & -> & Hsz2 & Hc2).
  { assert (exists st2, collision_loop x (fieldName e) e l2 st1 = Some st2 /\ changes x st1 st2 (takes l2 e)) as (st2 & H1 & H2).
    { apply collision_loop_spec; [done|]. unfold l2. destruct (_collisionSlots x !! sg) as [l|] eqn:Hs; intros i Hi.
      - destruct (wf_coll x HW _ _ _ Hs Hi) as (p & Hp & _). by eapply lookup_lt_Some.
      - by apply elem_of_nil in Hi. }
    exists st2. split; [|done]. unfold l2 in H1. by destruct (_collisionSlots x !! sg). }
  exists st2. split; [done|]. split; [done|]. intros i p Hi. rewrite (Hc2 i p Hi), (Hc1 i p Hi). unfold takes, top_update.
  destruct (negb (nested p) && bool_decide (p = fieldName e)) eqn:Hb; [|by destruct (decide (i ∈ l2)), (decide (i ∈ l1))].
  apply andb_true_iff in Hb as [_ ->%bool_decide_eq_true_1]. cbn [fst snd].
  destruct (decide (i ∈ l2)); [by destruct (decide (i ∈ l1))|]. rewrite decide_True; [done|].
  destruct (wf_found x HW i _ Hi) as [Hs|(l & Hl & Hin)].
  - unfold l1, sg. rewrite Hs. by apply list_elem_of_singleton.
  - exfalso. apply n. unfold l2, sg. by rewrite Hl.
Qed.

(** *** Nested paths *)

Definition nested_update (e : Element) (p : bytes) (c : Element * bool) : Element * bool :=
  match SD.memchr p 46 with
  | Some j =>
      if eoo c.1 then
        if (type e =? T.Object)%Z then
          match embeddedObject e with
          | Some o =>
              let '(r, rest) := Dps.extractElementAtPathOrArrayAlongPath o (drop (S j) p) in
              (r, if bool_decide (rest = []) then c.2 else true)
          | None => c
          end
        else (e, true)
      else c
  | None => c
  end.

Definition is_container (e : Element) : bool := (type e =? T.Object)%Z || (type e =? T.Array)%Z.

Lemma object_embedded (e : Element) : (type e =? T.Object)%Z = true -> exists o, embeddedObject e = Some o.
Proof. destruct e as [|a n v]; [done|]. destruct v; try done. intros _. by eexists. Qed.

Lemma cell_vals (st : Slots) (i : nat) : sized x st -> i < length (_fields x) -> vals st !! i = Some (cell st i).1.
Proof. intros [H1 _] Hi. destruct (lookup_lt_is_Some_2 (vals st) i) as [v Hv]; [lia|]. unfold cell. cbn. by rewrite Hv. Qed.

Lemma nested_slot_spec (e : Element) (i j : nat) (p : bytes) (st : Slots) :
  sized x st -> is_container e = true -> _fields x !! i = Some p -> SD.memchr p 46 = Some j ->
  exists st', nested_slot x e i st = Some st' /\ sized x st' /\
    forall k, cell st' k = if decide (k = i) then nested_update e p (cell st k) else cell st k.
Proof.
  intros Hsz Ht Hi Hj. assert (i < length (_fields x)) as Hlt by (by eapply lookup_lt_Some).
  unfold nested_slot. rewrite (cell_vals st i Hsz Hlt). cbn [mbind option_bind].
  destruct (eoo (cell st i).1) eqn:He.
  2: { exists st. split; [done|]. split; [done|]. intros k. destruct (decide (k = i)) as [->|]; [|done].
       unfold nested_update. by rewrite Hj, He. }
  rewrite Hi. cbn [mbind option_bind]. rewrite Hj. cbn [mbind option_bind].
  assert (exists st', (if (type e =? T.Object)%Z then
            subObj ← embeddedObject e;
            let '(result, rest) := Dps.extractElementAtPathOrArrayAlongPath subObj (drop (S j) p) in
            st ← set_slot i result st;
            if bool_decide (rest = []) then Some st else mark i st
          else st ← set_slot i e st; mark i st) = Some st' /\ sized x st' /\
          forall k, cell st' k = if decide (k = i) then nested_update e p (cell st k) else cell st k) as (st' & Hst & Hsz' & Hc).
  { destruct (type e =? T.Object)%Z eqn:Hobj.
    - destruct (object_embedded e Hobj) as [o Ho]. rewrite Ho. cbn [mbind option_bind].
      destruct (Dps.extractElementAtPathOrArrayAlongPath o (drop (S j) p)) as [r rest] eqn:Hr.
      destruct (set_slot_spec i r st Hsz Hlt) as (st1 & -> & Hsz1 & _ & Hc1). cbn [mbind option_bind].
      assert (forall k, k = i -> nested_update e p (cell st k) = (r, if bool_decide (rest = []) then (cell st k).2 else true)) as Hup.
      { intros k ->. unfold nested_update. by rewrite Hj, He, Hobj, Ho, Hr. }
      case_bool_decide as Hrest.
      + exists st1. split; [done|]. split; [done|]. intros k. rewrite Hc1. destruct (decide (k = i)); [by rewrite Hup|done].
      + destruct (mark_spec i st1 Hsz1 Hlt) as (st2 & -> & Hsz2 & Hc2). exists st2. split; [done|]. split; [done|].
        intros k. rewrite Hc2, Hc1. destruct (decide (k = i)); [by rewrite Hup|done].
    - destruct (set_slot_spec i e st Hsz Hlt) as (st1 & -> & Hsz1 & _ & Hc1). cbn [mbind option_bind].
      destruct (mark_spec i st1 Hsz1 Hlt) as (st2 & -> & Hsz2 & Hc2). exists st2. split; [done|]. split; [done|].
      intros k. rewrite Hc2, Hc1. destruct (decide (k = i)) as [->|]; [|done]. unfold nested_update. by rewrite Hj, He, Hobj. }
  rewrite Hst. cbn [mbind option_bind]. rewrite (cell_vals st' i Hsz' Hlt). cbn [mbind option_bind].
  eexists. split; [done|]. destruct (eoo (cell st' i).1); done.
Qed.

Lemma nested_loop_spec (e : Element) (l : list nat) (st : Slots) :
  sized x st -> is_container e = true -> NoDup l ->
  (forall i, i ∈ l -> exists p j, _fields x !! i = Some p /\ SD.memchr p 46 = Some j) ->
  exists st', nested_loop x e l st = Some st' /\
    changes x st st' (fun i p c => if decide (i ∈ l) then nested_update e p c else c).
Proof.
  intros Hsz Ht Hnd Hl. revert st Hsz. induction Hnd as [|i l Hi Hnd IH]; intros st Hsz.
  - exists st. split; [done|]. split; [done|]. intros k q Hk. rewrite decide_False; [done|apply not_elem_of_nil].
  - destruct (Hl i) as (p & j & Hp & Hj); [by left|].
    destruct (nested_slot_spec e i j p st Hsz Ht Hp Hj) as (st1 & H1 & Hsz1 & Hc1).
    destruct (IH (fun k Hk => Hl k (list_elem_of_further _ _ _ Hk)) st1 Hsz1) as (st2 & H2 & Hsz2 & Hc2).
    exists st2. cbn [nested_loop]. rewrite H1. cbn [mbind option_bind]. split; [done|]. split; [done|].
    intros k q Hk. rewrite (Hc2 k q Hk), Hc1. destruct (decide (k = i)) as [->|Hne].
    + replace q with p by congruence. rewrite decide_False, decide_True by (done || by left). done.
    + destruct (decide (k ∈ l)); [rewrite decide_True by (by right); done|]. rewrite decide_False; [done|].
      by intros [?|?]%elem_of_cons.
Qed.
Lemma prefix_slots (sg : Z) (i : nat) (p : bytes) :
  _fields x !! i = Some p ->
  i ∈ default [] (_nestedPrefixSigs x !! sg) <-> exists j, SD.memchr p 46 = Some j /\ makeSignature (take j p) = sg.
Proof.
  intros Hp. rewrite (rd_prefix x HR), list_elem_of_fmap. split.
  - intros ([k q] & -> & [Hq Hin]%list_elem_of_filter). apply prefixes_elem in Hin as (p' & j & Hp' & Hj & ->). cbn in *.
    exists j. replace p with p' by congruence. done.
  - intros (j & Hj & Hs). exists (i, take j p). split; [done|]. apply list_elem_of_filter. split; [done|].
    apply prefixes_elem. by exists p, j.
Qed.

Lemma nested_part (e : Element) (st : Slots) :
  sized x st ->
  exists st', extract_nested x e st = Some st' /\
    changes x st st' (fun i p c =>
      if is_container e && bool_decide (i ∈ default [] (_nestedPrefixSigs x !! makeSignature (fieldName e)))
      then nested_update e p c else c).
Proof.
  intros Hsz. unfold extract_nested. fold (is_container e). destruct (is_container e) eqn:Ht; [|by exists st].
  set (sg := makeSignature (fieldName e)). set (l := default [] (_nestedPrefixSigs x !! sg)).
  destruct (nested_loop_spec e l st Hsz Ht) as (st' & Hst & Hsz' & Hc).
  - unfold l. rewrite (rd_prefix x HR). apply (sublist_NoDup _ (prefixes (_fields x)).*1); [apply (prefixes_fst (_fields x))|].
    apply fmap_sublist, sublist_filter.
  - intros i Hi. assert (i < length (_fields x)) as Hlt.
    { unfold l in Hi. rewrite (rd_prefix x HR) in Hi. apply list_elem_of_fmap in Hi as (q & -> & [_ Hq]%list_elem_of_filter).
      apply (prefixes_fst (_fields x)), list_elem_of_fmap. by exists q. }
    destruct (lookup_lt_is_Some_2 _ _ Hlt) as [p Hp]. apply (prefix_slots sg i p Hp) in Hi as (j & Hj & _). by exists p, j.
  - exists st'. split; [unfold l in Hst; by destruct (_nestedPrefixSigs x !! sg)|]. split; [done|].
    intros i p Hi. rewrite (Hc i p Hi). by destruct (decide (i ∈ l)); [rewrite bool_decide_eq_true_2|rewrite bool_decide_eq_false_2].
Qed.

Lemma extract_element_spec (e : Element) (st : Slots) :
  sized x st -> exists st', extract_element x e st = Some st' /\ changes x st st' (fun _ p => update p e).
Proof.
  intros Hsz. destruct (top_part e st Hsz) as (st1 & H1 & Hsz1 & Hc1). destruct (nested_part e st1 Hsz1) as (st2 & H2 & Hsz2 & Hc2).
  exists st2. unfold extract_element. rewrite H1. split; [done|]. split; [done|]. intros i p Hi. rewrite (Hc2 i p Hi), (Hc1 i p Hi).
  pose proof (prefix_slots (makeSignature (fieldName e)) i p Hi) as Hin. unfold top_update, nested_update, update, nested.
  destruct (SD.memchr p 46) as [j|] eqn:Hj; cbn [negb andb].
  - fold (is_container e). assert (bool_decide (i ∈ default [] (_nestedPrefixSigs x !! makeSignature (fieldName e))) =
            (makeSignature (take j p) =? makeSignature (fieldName e))%Z) as ->.
    { apply eq_true_iff_eq. rewrite bool_decide_eq_true, Z.eqb_eq, Hin. split; [intros (k & [= <-] & ?); done|intros ?; by exists j]. }
    destruct (is_container e && (makeSignature (take j p) =? makeSignature (fieldName e))%Z); [|done]. done.
  - rewrite bool_decide_eq_false_2; [by rewrite andb_false_r|]. intros Hx. apply Hin in Hx as (j & ? & _). done.
Qed.

Lemma extract_loop_spec (es : list Element) (st : Slots) :
  sized x st -> exists st', extract_loop x es st = Some st' /\
    changes x st st' (fun _ p c => foldl (fun c e => update p e c) c es).
Proof.
  revert st. induction es as [|e es IH]; intros st Hsz; [by exists st|].
  destruct (extract_element_spec e st Hsz) as (st1 & H1 & Hsz1 & Hc1). destruct (IH st1 Hsz1) as (st2 & H2 & Hsz2 & Hc2).
  exists st2. cbn [extract_loop]. rewrite H1. split; [done|]. split; [done|]. intros i p Hi. by rewrite (Hc2 i p Hi), (Hc1 i p Hi).
Qed.

End element.
(** ** A whole document *)

(** The top-level name a path is looked up under. *)
Definition key (p : bytes) : bytes := match SD.memchr p 46 with None => p | Some j => take j p end.

(** No name of the document has the signature of the prefix of a nested path without being it. *)
Definition no_collision (p : bytes) (names : list bytes) : Prop :=
  forall j n, SD.memchr p 46 = Some j -> n ∈ names -> makeSignature (take j p) = makeSignature n -> n = take j p.

Lemma update_other (p : bytes) (e : Element) (c : Element * bool) :
  no_collision p [fieldName e] -> fieldName e <> key p -> update p e c = c.
Proof.
  unfold no_collision, key, update. intros Hn Hk. destruct (SD.memchr p 46) as [j|].
  - destruct (Z.eqb_spec (makeSignature (take j p)) (makeSignature (fieldName e))) as [Hs|Hs].
    + exfalso. by apply Hk, (Hn j); [|apply list_elem_of_singleton|].
    + by rewrite andb_false_r.
  - by rewrite bool_decide_eq_false_2.
Qed.

Lemma foldl_update_others (p : bytes) (es : list Element) (c : Element * bool) :
  no_collision p (fieldName <$> es) -> key p ∉ fieldName <$> es -> foldl (fun c e => update p e c) c es = c.
Proof.
  induction es as [|e es IH] in c |- *; intros Hn Hk; [done|]. cbn [foldl fmap list_fmap] in *.
  apply not_elem_of_cons in Hk as [Hk1 Hk2]. rewrite update_other; [|intros j n Hj Hin; apply (Hn j n Hj)|done].
  - apply IH; [|done]. intros j n Hj Hin. apply (Hn j n Hj). by right.
  - apply list_elem_of_singleton in Hin as ->. by left.
Qed.

Lemma foldl_update (p : bytes) (es : list Element) (c : Element * bool) :
  NoDup (fieldName <$> es) -> no_collision p (fieldName <$> es) ->
  foldl (fun c e => update p e c) c es =
  match list_find (fun e => fieldName e = key p) es with Some (_, e) => update p e c | None => c end.
Proof.
  intros Hnd Hn. destruct (list_find (fun e => fieldName e = key p) es) as [[k e]|] eqn:Hf.
  - apply list_find_Some in Hf as (Hk & He & _). apply list_elem_of_split_length in Hk as (es1 & es2 & -> & _).
    rewrite fmap_app in *. cbn [fmap list_fmap] in *. apply NoDup_app in Hnd as (_ & Hd & [Hnot _]%NoDup_cons).
    rewrite foldl_app. cbn [foldl]. rewrite foldl_update_others, (foldl_update_others p es1); try done.
    + intros j n Hj Hin. apply (Hn j n Hj), elem_of_app. by left.
    + intros Hin. apply (Hd _ Hin). rewrite He. by left.
    + intros j n Hj Hin. apply (Hn j n Hj), elem_of_app. right. by right.
    + by rewrite <- He.
  - apply foldl_update_others; [done|]. intros (e & He & Hin)%list_elem_of_fmap. apply list_find_None in Hf.
    rewrite Forall_forall in Hf. by apply (Hf e Hin).
Qed.

(** The path [p] does not end at its first dot. *)
Definition has_rest (p : bytes) : Prop := forall j, SD.memchr p 46 = Some j -> drop (S j) p <> [].

Lemma split_dot_memchr (p : bytes) :
  Dps.split_dot p = match SD.memchr p 46 with Some j => Some (take j p, drop (S j) p) | None => None end.
Proof. unfold Dps.split_dot, Dps.dot. by destruct (SD.memchr p 46). Qed.

(** What one pass leaves in the slot of [p] is what the walk along [p] finds. *)
Lemma update_is_lookup (doc : BSONObj) (p : bytes) :
  NoDup (fieldName <$> elements doc) -> no_collision p (fieldName <$> elements doc) -> has_rest p ->
  let c := foldl (fun c e => update p e c) (Eoo, false) (elements doc) in
  let '(e, rest) := Dps.extractElementAtPathOrArrayAlongPath doc p in
  c.1 = e /\ (type e = T.Array -> rest <> [] -> c.2 = true).
Proof.
  intros Hnd Hn Hrest. cbn zeta. rewrite foldl_update by done. rewrite Dps.extractOrArray_eq. unfold Dps.first_step.
  rewrite split_dot_memchr. unfold getField, key, has_rest in *. unfold update.
  destruct (SD.memchr p 46) as [j|] eqn:Hj.
  - specialize (Hrest j eq_refl).
    destruct (list_find (fun e => fieldName e = take j p) (elements doc)) as [[k e]|] eqn:Hf; cbn [default from_option fmap option_fmap option_map id snd];
      [|by split].
    apply list_find_Some in Hf as (_ & He & _). rewrite <- He, Z.eqb_refl. cbn [eoo fst]. rewrite !andb_true_r.
    rewrite (bool_decide_eq_false_2 (drop (S j) p = [])) by done. destruct e as [|a n v]; [by split|]. cbn [eoo]. rewrite orb_false_r.
    destruct v; cbn [type type_of]; try (split; done).
    + cbn [embeddedObject]. change (T.Object =? T.Array)%Z with false. change (T.Object =? T.Object)%Z with true. cbv iota.
      destruct (Dps.extractElementAtPathOrArrayAlongPath _ _) as [r rest] eqn:Hr. cbn [fst snd]. split; [done|].
      intros _ Hr'. by rewrite bool_decide_eq_false_2.
  - destruct (list_find (fun e => fieldName e = p) (elements doc)) as [[k e]|] eqn:Hf; cbn [default from_option fmap option_fmap option_map id snd];
      [|by split]. apply list_find_Some in Hf as (_ & He & _). rewrite <- He, !bool_decide_eq_true_2 by done.
    rewrite orb_true_r. by destruct (eoo e) eqn:Hx; [destruct e|].
Qed.

(** *** Registering several paths *)

Lemma register_spec (p : bytes) (x : Extractor) :
  Wf x -> fresh x -> length (_fields x) < kMaxFields - 1 ->
  let '(slot, x') := registerField p x in
  _fields x' !! slot = Some p /\ slot < kInvalidSlot /\ _fields x `prefix_of` _fields x' /\
  length (_fields x') <= S (length (_fields x)).
Proof.
  intros HW HF Hlen. unfold registerField. destruct HF as [-> _]. destruct (registered_slot x p) as [s|] eqn:Hr.
  - apply (registered_slot_spec x p s HW) in Hr. split_and!; [done| |done|lia]. apply lookup_lt_Some in Hr. unfold kInvalidSlot, kMaxFields in *. lia.
  - destruct (Nat.leb_spec (kMaxFields - 1) (length (_fields x))); [lia|].
    destruct (match _sigToSlot x !! makeSignature p with Some _ => _ | None => _ end) as [sigs colls].
    cbn [_fields]. split_and!.
    + by rewrite lookup_app_r, Nat.sub_diag by lia.
    + unfold kInvalidSlot, kMaxFields in *. lia.
    + by exists [p].
    + solve_length.
Qed.

Lemma register_all_spec (paths : list bytes) (x : Extractor) :
  Wf x -> fresh x -> length (_fields x) + length paths <= kMaxFields - 1 ->
  let '(slots, x') := register_all paths x in
  Wf x' /\ fresh x' /\ _fields x `prefix_of` _fields x' /\ Forall2 (fun p i => _fields x' !! i = Some p) paths slots.
Proof.
  revert x. induction paths as [|p paths IH]; intros x HW HF Hlen; cbn [register_all]; [by split_and!|].
  cbn [length] in Hlen. pose proof (register_spec p x HW HF ltac:(lia)) as Hp. pose proof (register_wf p x HW) as HW1.
  pose proof (register_fresh p x HF) as HF1. destruct (registerField p x) as [s x1]. cbn [snd] in *.
  destruct Hp as (Hs & Hlt & Hpre & Hl). pose proof (IH x1 HW1 HF1 ltac:(lia)) as Hx.
  destruct (register_all paths x1) as [slots x2]. destruct Hx as (HW2 & HF2 & Hpre2 & Hall).
  split_and!; [done|done|by etrans|]. destruct (Nat.eqb_spec s kInvalidSlot); [lia|]. constructor; [|done].
  by eapply prefix_lookup_Some.
Qed.
(** C40. One pass is as good as a walk along each path: for up to 255 registered paths (repetitions
    allowed) and a document whose top-level names are distinct, the extraction stays inside its vectors, and
    the slot returned for each path holds the element that [extractElementAtPathOrArrayAlongPath]
    finds along it; a walk that stops at an array before the end of the path is marked (other
    slots can be marked too). This needs
    that no name of the document has the signature of the prefix of a nested path without being
    it, and that no path ends with its first dot. Of two fields of one name the slot has the last
    one, the walk the first. *)
Theorem one_pass_extracts_every_path (paths : list bytes) (doc : BSONObj) :
  length paths <= 255 -> NoDup (fieldName <$> elements doc) ->
  Forall (fun p => no_collision p (fieldName <$> elements doc) /\ has_rest p) paths ->
  let '(slots, x) := register_all paths new_extractor in
  exists x', extract doc (finalize x) = Some x' /\
    Forall2 (fun p i =>
      let '(e, rest) := Dps.extractElementAtPathOrArrayAlongPath doc p in
      get i x' = e /\ (type e = T.Array -> rest <> [] -> hasArrayAlongPath i x' = true)) paths slots.
Proof.
  intros Hlen Hnd Hall. pose proof (register_all_spec paths new_extractor new_wf ltac:(done) ltac:(cbn in *; lia)) as Hreg.
  destruct (register_all paths new_extractor) as [slots x]. destruct Hreg as (HW & HF & _ & Hslots).
  pose proof (finalize_ready x HW HF) as HR. unfold extract.
  destruct (extract_loop_spec (finalize x) HR (elements doc)
    (mkSlots ((fun _ => Eoo) <$> _slots (finalize x)) ((fun _ => false) <$> _hasArrayAlongPath (finalize x)) 0))
    as (st & -> & Hsz & Hc).
  { split; cbn [vals marks]; rewrite length_fmap; [apply (rd_vals _ HR)|apply (rd_marks _ HR)]. }
  cbn [mbind option_bind]. eexists. split; [done|].
  apply Forall2_same_length_lookup in Hslots as [Hl Hslots]. apply Forall2_same_length_lookup. split; [done|].
  intros k p i Hp Hi. rewrite Forall_lookup in Hall. destruct (Hall k p Hp) as [Hn Hr]. specialize (Hslots k p i Hp Hi).
  pose proof (update_is_lookup doc p Hnd Hn Hr) as Hu. cbn zeta in Hu.
  assert (cell st i = foldl (fun c e => update p e c) (Eoo, false) (elements doc)) as Hcell.
  { rewrite (Hc i p Hslots). f_equal. unfold cell. cbn [vals marks]. rewrite !list_lookup_fmap.
    by destruct (_slots (finalize x) !! i), (_hasArrayAlongPath (finalize x) !! i). }
  rewrite <- Hcell in Hu. destruct (Dps.extractElementAtPathOrArrayAlongPath doc p). exact Hu.
Qed.

Lemma one_pass_extracts_every_path_witness :
  let doc := mkObj 0 [(lit "a", VInt 1); (lit "b", VObject [(lit "c", VArray [(lit "0", VObject [(lit "d", VInt 2)])])])] in
  let paths := [lit "a"; lit "b.c.d"; lit "a"; lit "z.y"] in
  let '(slots, x) := register_all paths new_extractor in
  slots = [0; 1; 0; 2] /\
  exists x', extract doc (finalize x) = Some x' /\
    Forall2 (fun p i =>
      let '(e, rest) := Dps.extractElementAtPathOrArrayAlongPath doc p in
      get i x' = e /\ (type e = T.Array -> rest <> [] -> hasArrayAlongPath i x' = true)) paths slots.
Proof.
  intros doc paths.
  assert (length paths <= 255) as H1 by (vm_compute; lia).
  assert (NoDup (fieldName <$> elements doc)) as H2 by (apply (bool_decide_eq_true_1 _); vm_compute; reflexivity).
  assert (Forall (fun p => no_collision p (fieldName <$> elements doc) /\ has_rest p) paths) as H3.
  { assert (forall p j, SD.memchr p 46 = Some j -> bool_decide (Forall (fun n => makeSignature (take j p) = makeSignature n -> n = take j p)
              (fieldName <$> elements doc)) = true -> drop (S j) p <> [] -> no_collision p (fieldName <$> elements doc) /\ has_rest p) as Hok.
    { intros p j Hj Hb Hr. apply bool_decide_eq_true_1 in Hb. rewrite Forall_forall in Hb. split; intros k; rewrite Hj.
      - intros n [= <-]. apply Hb.
      - by intros [= <-]. }
    assert (forall p, SD.memchr p 46 = None -> no_collision p (fieldName <$> elements doc) /\ has_rest p) as Htop
      by (intros p Hp; split; intros k; by rewrite Hp).
    repeat constructor; try (apply Htop; vm_compute; reflexivity);
      (eapply Hok; [vm_compute; reflexivity|vm_compute; reflexivity|vm_compute; discriminate]). }
  pose proof (one_pass_extracts_every_path paths doc H1 H2 H3) as H.
  destruct (register_all paths new_extractor) as [slots x] eqn:E. split; [|exact H]. vm_compute in E. by injection E as <- _.
Defined.

(** The prefix of a nested path is recognised by its 32-bit signature alone: a document field
    of another name with the same signature is taken for it, and the slot of the path gets an
    element although the document has nothing along the path. *)
Theorem prefix_collision_misreads :
  let doc := mkObj 0 [(lit "acQz", VObject [(lit "x", VInt 1)])] in
  let '(slot, x) := registerField (lit "abpz.x") new_extractor in
  makeSignature (lit "abpz") = makeSignature (lit "acQz") /\
  (Dps.extractElementAtPathOrArrayAlongPath doc (lit "abpz.x")).1 = Eoo /\
  exists x', extract doc (finalize x) = Some x' /\ Doc.type (get slot x') = T.NumberInt /\ fieldName (get slot x') = lit "x".
Proof. vm_compute. split_and!; [done|done|]. eexists. by split_and!. Qed.

(** A path that simply is not in the document is marked as having met an array. *)
Lemma missing_path_marked :
  let doc := mkObj 0 [(lit "a", VObject [])] in
  let '(slot, x) := registerField (lit "a.b.c") new_extractor in
  exists x', extract doc (finalize x) = Some x' /\ get slot x' = Eoo /\ hasArrayAlongPath slot x' = true.
Proof. vm_compute. eexists. by split_and!. Qed.

(** Of two fields with the same name the last one is extracted, and lookups find the first. *)
Lemma duplicate_name_last :
  let doc := mkObj 0 [(lit "a", VInt 1); (lit "a", VBool true)] in
  let '(slot, x) := registerField (lit "a") new_extractor in
  exists x', extract doc (finalize x) = Some x' /\ Doc.type (get slot x') = T.Bool /\ Doc.type (getField doc (lit "a")) = T.NumberInt.
Proof. vm_compute. eexists. by split_and!. Qed.

End Ufe.
