(* ===== verification/JavaDriver.v ===== *)
(** * The client side of document integrity

    What the Java driver puts on the wire for a [VerifiedDocument] and a [VerifiedUpdate]
    ([driver/java/bson/src/main/org/bson]), composed with the server's check of [Integrity]. A
    [Document] is its entries in insertion order, with distinct keys; their values are BSON
    values already. The object id the driver generates is the environment's choice. *)
From S2P Require Import Prelude Bson DottedPath XxHash Integrity.

Module Driver.
Import Doc Xxh Integrity.

Definition ID_FIELD_NAME : bytes := lit "_id".

(** [DocumentCodec.beforeFields] and [skipField]: the [_id] of a document that is to be stored
    is written before the other entries. *)
Definition beforeFields (collectible : bool) (map : list field) : list field :=
  if collectible then filter (fun f : field => f.1 = ID_FIELD_NAME) map else [].
Definition skipField (collectible : bool) (key : bytes) : bool := collectible && bool_decide (key = ID_FIELD_NAME).
(** [DocumentCodec.writeMap]: the hash of a locked document, what [beforeFields] writes, and the
    entries that are not skipped. *)
Definition writeMap (collectible : bool) (hash : option Z) (map : list field) : list field :=
  match hash with Some h => [(kDocHashFieldName, VLong h)] | None => [] end ++
  beforeFields collectible map ++
  filter (fun f : field => skipField collectible f.1 = false /\ f.1 <> kDocHashFieldName) map.

(** The bytes of the encoded document between its size and its terminator. *)
Definition element_bytes (bson : bytes) : bytes := take (length bson - 5) (drop 4 bson).

(** [VerifiedDocument.lock]: a Java [long]. *)
Definition VerifiedDocument_lock (map : list field) : Z :=
  let bson := enc_obj (writeMap false None map) in
  if (0 <? length bson - 5)%nat then wraps 64 (XXH64 (element_bytes bson) 0) else wraps 64 (XXH64 [] 0).

(** [DocumentCodec.generateIdIfAbsentFromDocument]. *)
Definition documentHasId (map : list field) : bool := existsb (fun f : field => bool_decide (f.1 = ID_FIELD_NAME)) map.
Definition generateIdIfAbsentFromDocument (oid : bytes) (map : list field) : list field :=
  if documentHasId map then map else map ++ [(ID_FIELD_NAME, VOID oid)].

(** [insertOne] of a document that was locked before, as the server receives it. *)
Definition insertOne (oid : bytes) (hash : Z) (map : list field) : BSONObj :=
  built (writeMap true (Some hash) (generateIdIfAbsentFromDocument oid map)).

(** [VerifiedUpdate.lock] and [toBsonDocument]. *)
Definition VerifiedUpdate_lock (updateSpec : list field) : Z :=
  wraps 64 (XXH64 (enc_obj (writeMap false None updateSpec)) 0).
Definition toBsonDocument (integrityHash : Z) (updateSpec : list field) : BSONObj :=
  built ((kDocHashFieldName, VLong integrityHash) :: updateSpec).

(** [UpdateFieldNameValidator.validate] on the names of an update document. *)
Definition UpdateFieldNameValidator (updates : BSONObj) : bool :=
  forallb (fun f : field => bool_decide (head f.1 = Some 36)) (fields updates).

(** ** Lemmas *)

Lemma element_bytes_obj (fs : list field) : element_bytes (enc_obj fs) = enc_fields fs.
Proof.
  unfold element_bytes. rewrite length_enc_obj, Nat.add_sub. unfold enc_obj, wrap_doc.
  rewrite drop_app_length' by (by rewrite length_le_encode). by rewrite take_app_length.
Qed.

Lemma writeMap_plain (map : list field) : Forall (fun f => ~ has_hash f) map -> writeMap false None map = map.
Proof. intros H. unfold writeMap. cbn [app beforeFields]. apply filter_all. eapply Forall_impl; [exact H|]. done. Qed.

Lemma lock_hash (map : list field) :
  Forall (fun f => ~ has_hash f) map -> VerifiedDocument_lock map = wraps 64 (XXH64 (enc_fields map) 0).
Proof.
  intros H. unfold VerifiedDocument_lock. rewrite (writeMap_plain map H), element_bytes_obj, length_enc_obj, Nat.add_sub.
  destruct (enc_fields map) eqn:E; [done|]. done.
Qed.

(** A document whose first key is the [_id] is stored in its own order. *)
Lemma writeMap_id_first (h : Z) (v : value) (rest : list field) :
  Forall (fun f => ~ has_hash f) rest -> Forall (fun f : field => f.1 <> ID_FIELD_NAME) rest ->
  writeMap true (Some h) ((ID_FIELD_NAME, v) :: rest) = (kDocHashFieldName, VLong h) :: (ID_FIELD_NAME, v) :: rest.
Proof.
  intros H1 H2. unfold writeMap, beforeFields. cbn [app]. f_equal. rewrite filter_cons_True by done.
  assert (filter (fun f : field => f.1 = ID_FIELD_NAME) rest = []) as ->.
  { clear H1. induction H2 as [|f rest Hf _ IH]; [done|]. by rewrite filter_cons_False. }
  cbn [app]. f_equal. rewrite filter_cons_False; [|by intros [? _]]. apply filter_all, Forall_forall.
  intros f Hf. rewrite Forall_forall in H1, H2. split; [|by apply H1].
  unfold skipField. rewrite bool_decide_eq_false_2; [done|]. by apply H2.
Qed.



(** A document that is locked before the driver has added its [_id] does not verify, here with
    one value of the generated object id. *)
Example locked_without_id :
  let map := [(lit "name", VString (lit "test")); (lit "value", VInt 123)] in
  verifyDocumentIntegrity (insertOne (replicate 12 7) (VerifiedDocument_lock map) map) = Some DocumentIntegrityError.
Proof. vm_compute. reflexivity. Qed.
(** A [VerifiedUpdate] signs the whole encoded specification where the server hashes the bytes of
    its elements; the driver's own validator refuses the hash field before that. *)
Example locked_update :
  let spec := [(lit "$set", VObject [(lit "name", VString (lit "updated"))]); (lit "$inc", VObject [(lit "counter", VInt 1)])] in
  let update := toBsonDocument (VerifiedUpdate_lock spec) spec in
  checkedUpdateSpec update = inl DocumentIntegrityError /\ UpdateFieldNameValidator update = false.
Proof. vm_compute. split; reflexivity. Qed.

End Driver.
