(* ===== verification/Varint.v ===== *)
(** * Variable-length integers

    The 64-bit varints of [third_party/s2/util/coding/varint.cc] as [db/ftdc/varint.cpp] uses
    them, and the growing buffer of [base/data_builder.h] they are written to. *)
From S2P Require Import Prelude.

Module Varint.

(** ** Encoding *)

Definition kMax64 : nat := 10.
Definition kMaxSizeBytes64 : nat := 10.

(** [B = 128]: the bit of a byte that another byte follows. *)
Definition B : Z := 128.
(** A store to an [unsigned char]. *)
Definition uchar (v : Z) : Z := wrapu 8 v.

Definition Encode32 (v : Z) : bytes :=
  if v <? Z.shiftl 1 7 then [uchar v]
  else if v <? Z.shiftl 1 14 then [uchar (Z.lor v B); uchar (Z.shiftr v 7)]
  else if v <? Z.shiftl 1 21 then [uchar (Z.lor v B); uchar (Z.lor (Z.shiftr v 7) B); uchar (Z.shiftr v 14)]
  else if v <? Z.shiftl 1 28 then
    [uchar (Z.lor v B); uchar (Z.lor (Z.shiftr v 7) B); uchar (Z.lor (Z.shiftr v 14) B); uchar (Z.shiftr v 21)]
  else
    [uchar (Z.lor v B); uchar (Z.lor (Z.shiftr v 7) B); uchar (Z.lor (Z.shiftr v 14) B); uchar (Z.lor (Z.shiftr v 21) B);
     uchar (Z.shiftr v 28)].

Definition Encode64 (v : Z) : bytes :=
  if v <? Z.shiftl 1 28 then Encode32 (wrapu 32 v)
  else
    let v32 := wrapu 32 v in
    [uchar (Z.lor v32 B); uchar (Z.lor (Z.shiftr v32 7) B); uchar (Z.lor (Z.shiftr v32 14) B); uchar (Z.lor (Z.shiftr v32 21) B)] ++
    if v <? Z.shiftl 1 35 then [uchar (Z.shiftr v 28)]
    else uchar (Z.lor (Z.shiftr v 28) B) :: Encode32 (wrapu 32 (Z.shiftr v 35)).

(** ** Decoding *)

(** The result of a fragment of at most four bytes: the bits read, whether the last byte read
    ends the number, and what follows. *)
Fixpoint fragment (shifts : list Z) (res : Z) (p : bytes) : option (Z * bool * bytes) :=
  match shifts with
  | [] => Some (res, false, p)
  | k :: shifts =>
      match p with
      | [] => None
      | byte :: p =>
          let res := Z.lor res (wrapu 32 (Z.shiftl (Z.land byte 127) k)) in
          if byte <? 128 then Some (res, true, p) else fragment shifts res p
      end
  end.

(** [Parse64Fallback]: ten bytes can be read. The first byte has been seen to be continued. *)
Definition Parse64Fallback (p : bytes) : option (Z * bytes) :=
  byte ← head p;
  '(res1, done1, p) ← fragment [7; 14; 21] (Z.land byte 127) (tail p);
  if done1 : bool then Some (res1, p) else
  '(res2, done2, p) ← fragment [0; 7; 14; 21] 0 p;
  if done2 : bool then Some (Z.lor res1 (Z.shiftl res2 28), p) else
  '(res3, done3, p) ← fragment [0; 7] 0 p;
  if done3 : bool then Some (Z.lor (Z.lor res1 (Z.shiftl res2 28)) (wrapu 64 (Z.shiftl res3 56)), p) else None.

Definition Parse64 (p : bytes) : option (Z * bytes) :=
  match p with
  | [] => None
  | byte :: rest => if byte <? 128 then Some (byte, rest) else Parse64Fallback p
  end.

(** The byte-by-byte path near the end of the buffer; the tenth byte may only hold one bit. *)
Fixpoint parse_bytes (shifts : list Z) (result : Z) (p : bytes) : option (Z * bytes) :=
  match shifts with
  | [] => None
  | k :: shifts =>
      match p with
      | [] => None
      | b :: p =>
          let result := Z.lor result (wrapu 64 (Z.shiftl (Z.land b 127) k)) in
          if b <? (if k =? 63 then 2 else 128) then Some (result, p) else parse_bytes shifts result p
      end
  end.

Definition Parse64WithLimit (p : bytes) : option (Z * bytes) :=
  if bool_decide (kMax64 <= length p)%nat then Parse64 p else parse_bytes [0; 7; 14; 21; 28; 35; 42; 49; 56; 63] 0 p.

(** ** [DataType::Handler<FTDCVarInt>] *)

(** [ErrorCodes::Overflow] of the trivial load and store statuses. *)
Inductive Status := Overflow.

Definition load (p : bytes) : Status + Z * bytes :=
  match Parse64WithLimit p with None => inl Overflow | Some r => inr r end.

(** [store] to a pointer with [length] bytes of space. *)
Definition store (t : Z) (length : nat) : Status + bytes :=
  if (length <? kMaxSizeBytes64)%nat then inl Overflow else inr (Encode64 t).

(** ** [DataBuilder] *)

(** The capacity and the bytes written; without a buffer both are zero. *)
Record DataBuilder := mkDB { _capacity : nat; written : bytes }.
Definition kInitialBufferSize : nat := 64.

Definition resize (newSize : nat) (b : DataBuilder) : DataBuilder :=
  if (newSize =? _capacity b)%nat then b
  else if (newSize =? 0)%nat then mkDB 0 []
  else mkDB newSize (take newSize (written b)).

Definition DataBuilder_new (size : nat) : DataBuilder := if (size =? 0)%nat then mkDB 0 [] else resize size (mkDB 0 []).

(** The growth loop; every round adds at least one byte, so [fuel] rounds grow by [fuel]. *)
Fixpoint grow (fuel needed oldSize newSize : nat) : option nat :=
  match fuel with
  | O => None
  | S fuel =>
      if ((newSize <? oldSize) || (newSize - oldSize <? needed))%nat
      then grow fuel needed oldSize ((newSize * 3 + 1) / 2) else Some newSize
  end.

Definition reserve (needed : nat) (b : DataBuilder) : option DataBuilder :=
  let oldSize := length (written b) in
  let newSize := if (_capacity b =? 0)%nat then kInitialBufferSize else _capacity b in
  n ← grow (S (oldSize + needed)) needed oldSize newSize; Some (resize n b).

Definition _ensureStorage (b : DataBuilder) : DataBuilder := if (_capacity b =? 0)%nat then resize kInitialBufferSize b else b.

(** [writeAndAdvance(FTDCVarInt)]: one attempt, and another one after [reserve]; [None] is a
    reservation that does not end. *)
Definition writeAndAdvance (t : Z) (b : DataBuilder) : option (Status + DataBuilder) :=
  let b := _ensureStorage b in
  let attempt b :=
    match store t (_capacity b - length (written b)) with
    | inl s => inl s
    | inr l => inr (mkDB (_capacity b) (written b ++ l))
    end in
  match attempt b with
  | inr b => Some (inr b)
  | inl _ => b ← reserve kMaxSizeBytes64 b; Some (attempt b)
  end.

(** ** The format *)

(** Little-endian groups of seven bits. *)
Fixpoint leb (n : nat) (v : Z) : bytes :=
  match n with
  | O => [v]
  | S n => if v <? 128 then [v] else 128 + v mod 128 :: leb n (v / 128)
  end.

Definition db_ok (b : DataBuilder) : Prop := (length (written b) <= _capacity b)%nat.

(** ** Lemmas *)

Lemma uchar_more (v : Z) : 0 <= v -> uchar (Z.lor v B) = 128 + v mod 128.
Proof.
  intros Hv. unfold uchar, wrapu, B. change 128 with (2 ^ 7) at 3. rewrite <- Z.land_ones by lia.
  change 256 with (2 ^ 8). rewrite <- Z.land_ones by lia.
  transitivity (Z.lor (2 ^ 7) (Z.land v (Z.ones 7))).
  - rewrite Z.land_lor_distr_l. change (Z.land 128 (Z.ones 8)) with 128. rewrite Z.lor_comm.
    apply Z.bits_inj'. intros i Hi. rewrite !Z.lor_spec, !Z.land_spec, Z.pow2_bits_eqb, !Z.testbit_ones_nonneg by lia.
    change 128 with (2 ^ 7). rewrite Z.pow2_bits_eqb by lia.
    destruct (Z.eqb_spec 7 i), (Z.ltb_spec i 8), (Z.ltb_spec i 7); try lia; cbn; by rewrite ?andb_true_r, ?andb_false_r.
  - rewrite <- Z.add_lor_land. rewrite Z.land_assoc, (Z.land_comm (2 ^ 7)), <- Z.land_assoc.
    change (Z.land (2 ^ 7) (Z.ones 7)) with 0. rewrite Z.land_0_r. change (2 ^ 7) with 128. lia.
Qed.

Lemma uchar_last (v : Z) : 0 <= v < 128 -> uchar v = v.
Proof. intros Hv. apply wrapu_small. lia. Qed.

Lemma Encode32_leb (v : Z) : 0 <= v < 2 ^ 32 -> Encode32 v = leb 4 v.
Proof.
  intros Hv. unfold Encode32. cbn [leb]. rewrite !Z.shiftr_div_pow2, !Z.shiftl_1_l by lia.
  change (2 ^ 7) with 128. change (2 ^ 14) with (128 * 128). change (2 ^ 21) with (128 * 128 * 128).
  change (2 ^ 28) with (128 * 128 * 128 * 128). rewrite !uchar_more by (try apply Z.div_pos; lia).
  rewrite !Z.div_div by lia.
  change (128 * 128 * 128 * 128) with 268435456. change (128 * 128 * 128) with 2097152. change (128 * 128) with 16384.
  destruct (Z.ltb_spec v 128); [by rewrite uchar_last by lia|].
  destruct (Z.ltb_spec v 16384), (Z.ltb_spec (v / 128) 128); try (Z.div_mod_to_equations; lia); [by rewrite uchar_last by (Z.div_mod_to_equations; lia)|].
  destruct (Z.ltb_spec v 2097152), (Z.ltb_spec (v / 16384) 128); try (Z.div_mod_to_equations; lia); [by rewrite uchar_last by (Z.div_mod_to_equations; lia)|].
  destruct (Z.ltb_spec v 268435456), (Z.ltb_spec (v / 2097152) 128); try (Z.div_mod_to_equations; lia); [by rewrite uchar_last by (Z.div_mod_to_equations; lia)|].
  by rewrite uchar_last by (Z.div_mod_to_equations; lia).
Qed.

(** The digits of a number of more than [n] digits come first. *)
Lemma leb_S (n : nat) (v : Z) : 128 <= v -> leb (S n) v = 128 + v mod 128 :: leb n (v / 128).
Proof. intros Hv. cbn [leb]. destruct (Z.ltb_spec v 128); [lia|done]. Qed.

(** Spare digits change nothing. *)
Lemma leb_enough (n k : nat) : forall v : Z, 0 <= v < 128 ^ Z.of_nat (S n) -> leb (n + k) v = leb n v.
Proof.
  induction n as [|n IH]; intros v Hv.
  - destruct k; [done|]. cbn in Hv |- *. destruct (Z.ltb_spec v 128); [done|lia].
  - cbn [Nat.add leb]. destruct (Z.ltb_spec v 128); [done|]. f_equal. apply IH.
    rewrite Nat2Z.inj_succ, Z.pow_succ_r in Hv by lia. split; [apply Z.div_pos; lia|apply Z.div_lt_upper_bound; lia].
Qed.

Lemma low_digit (v k : Z) : 0 <= k <= 25 -> Z.shiftr (wrapu 32 v) k mod 128 = Z.shiftr v k mod 128.
Proof.
  intros Hk. unfold wrapu. change 128 with (2 ^ 7). rewrite <- !Z.land_ones by lia. apply Z.bits_inj'. intros i Hi.
  rewrite !Z.land_spec, !Z.shiftr_spec, Z.land_spec, !Z.testbit_ones_nonneg by lia.
  destruct (Z.ltb_spec i 7), (Z.ltb_spec (i + k) 32); try lia; by rewrite ?andb_true_r, ?andb_false_r.
Qed.

(** The unrolled encoder writes the format. *)
Lemma Encode64_leb (v : Z) : 0 <= v < 2 ^ 64 -> Encode64 v = leb 9 v.
Proof.
  intros Hv. unfold Encode64. rewrite !Z.shiftl_1_l by lia. destruct (Z.ltb_spec v (2 ^ 28)) as [Hs|Hs].
  { rewrite wrapu_small, Encode32_leb by lia. symmetry. apply (leb_enough 4 5). lia. }
  pose proof (wrapu_range 32 v ltac:(lia)) as Hw.
  rewrite !uchar_more by (rewrite ?Z.shiftr_div_pow2 by lia; try apply Z.div_pos; lia).
  rewrite <- (Z.shiftr_0_r (wrapu 32 v)) at 1. rewrite !low_digit by lia. rewrite Z.shiftr_0_r, !Z.shiftr_div_pow2 by lia.
  do 4 (rewrite leb_S by (Z.div_mod_to_equations; lia)). rewrite !Z.div_div by lia.
  change (2 ^ 28) with (128 * 128 * 128 * 128). change (2 ^ 21) with (128 * 128 * 128). change (2 ^ 14) with (128 * 128). change (2 ^ 7) with 128.
  cbn [app]. do 4 f_equal. cbn [leb]. change (128 * 128 * 128 * 128) with 268435456. destruct (Z.ltb_spec v (2 ^ 35)), (Z.ltb_spec (v / 268435456) 128); try (Z.div_mod_to_equations; lia).
  - by rewrite uchar_last by (Z.div_mod_to_equations; lia).
  - f_equal. rewrite wrapu_small by (Z.div_mod_to_equations; lia). rewrite Z.div_div by lia.
    change (268435456 * 128) with (2 ^ 35). rewrite Encode32_leb by (Z.div_mod_to_equations; lia). done.
Qed.

(** *** Decoding *)

(** One group of seven bits added to the bits read so far. *)
Lemma lor_group (w res d k : Z) :
  0 <= k -> 0 <= res < 2 ^ k -> 0 <= d -> d * 2 ^ k < 2 ^ w -> Z.lor res (wrapu w (Z.shiftl d k)) = res + d * 2 ^ k.
Proof. intros Hk Hr Hd Hw. rewrite wrapu_small; [by apply lor_add|]. rewrite Z.shiftl_mul_pow2 by lia. nia. Qed.

Lemma group_more (v : Z) : Z.land (128 + v mod 128) 127 = v mod 128.
Proof.
  change 127 with (Z.ones 7). rewrite Z.land_ones by lia. change (2 ^ 7) with 128.
  rewrite <- Z.add_mod_idemp_l by lia. change (128 mod 128) with 0. rewrite Z.add_0_l. by apply Z.mod_mod.
Qed.
Lemma group_last (v : Z) : 0 <= v < 128 -> Z.land v 127 = v.
Proof. intros Hv. change 127 with (Z.ones 7). rewrite Z.land_ones by lia. by apply Z.mod_small. Qed.

Lemma group_split (res v k : Z) : 0 <= k -> res + v mod 128 * 2 ^ k + v / 128 * 2 ^ (k + 7) = res + v * 2 ^ k.
Proof. intros Hk. rewrite Z.pow_add_r by lia. change (2 ^ 7) with 128. rewrite (Z.div_mod v 128) at 3 by lia. ring. Qed.

Lemma group_bound (res v k : Z) : 0 <= k -> 0 <= res < 2 ^ k -> 0 <= res + v mod 128 * 2 ^ k < 2 ^ (k + 7).
Proof. intros Hk Hr. rewrite Z.pow_add_r by lia. change (2 ^ 7) with 128. pose proof (Z.mod_pos_bound v 128 ltac:(lia)). nia. Qed.

(** The shifts of the last [n + 1] bytes of the byte-by-byte path. *)
Fixpoint shifts (n : nat) : list Z := 7 * (9 - Z.of_nat n) :: match n with O => [] | S n => shifts n end.

Lemma parse_bytes_leb (n : nat) (rest : bytes) : forall (result v : Z),
  (n <= 9)%nat -> 0 <= result < 2 ^ (7 * (9 - Z.of_nat n)) -> 0 <= v < 2 ^ (64 - 7 * (9 - Z.of_nat n)) ->
  parse_bytes (shifts n) result (leb n v ++ rest) = Some (result + v * 2 ^ (7 * (9 - Z.of_nat n)), rest).
Proof.
  induction n as [|n IH]; intros result v Hn Hr Hv.
  - cbn [leb shifts parse_bytes app]. change (7 * (9 - Z.of_nat 0)) with 63 in *. change (2 ^ (64 - 63)) with 2 in Hv. cbn [Z.eqb Pos.eqb].
    rewrite group_last, lor_group by lia. destruct (Z.ltb_spec v 2); [done|lia].
  - set (k := 7 * (9 - Z.of_nat (S n))) in *. assert (2 ^ (64 - k) * 2 ^ k = 2 ^ 64) as Hp by (rewrite <- Z.pow_add_r by lia; f_equal; lia).
    assert (0 < 2 ^ k) by lia. cbn [leb shifts]. fold k. cbn [parse_bytes].
    destruct (Z.ltb_spec v 128) as [Hs|Hs]; cbn [app]; (destruct (Z.eqb_spec k 63); [lia|]).
    + rewrite group_last, lor_group by (lia || nia). destruct (Z.ltb_spec v 128); [done|lia].
    + assert (v mod 128 <= v) by (apply Z.mod_le; lia). pose proof (Z.mod_pos_bound v 128 ltac:(lia)).
      rewrite group_more, lor_group by (lia || nia). destruct (Z.ltb_spec (128 + v mod 128) 128); [lia|].
      pose proof (group_bound result v k ltac:(lia) Hr) as Hb. replace (k + 7) with (7 * (9 - Z.of_nat n)) in Hb by lia.
      rewrite IH; [|lia|done|].
      * replace (7 * (9 - Z.of_nat n)) with (k + 7) by lia. by rewrite group_split by lia.
      * split; [apply Z.div_pos; lia|]. apply Z.div_lt_upper_bound; [lia|]. change 128 with (2 ^ 7).
        rewrite <- Z.pow_add_r by lia. replace (7 + (64 - 7 * (9 - Z.of_nat n))) with (64 - k) by lia. lia.
Qed.

(** A fragment of [m] bytes from shift [k] on. *)
Fixpoint frag (m : nat) (k : Z) : list Z := match m with O => [] | S m => k :: frag m (k + 7) end.

Lemma fragment_leb (m : nat) (rest : bytes) : forall (n : nat) (k res v : Z),
  0 <= k -> k + 7 * Z.of_nat (S m) <= 28 -> (m <= n)%nat -> 0 <= res < 2 ^ k -> 0 <= v < 2 ^ (7 * Z.of_nat (S n)) ->
  fragment (frag (S m) k) res (leb n v ++ rest) =
    if v <? 2 ^ (7 * Z.of_nat (S m)) then Some (res + v * 2 ^ k, true, rest)
    else Some (res + v mod 2 ^ (7 * Z.of_nat (S m)) * 2 ^ k, false, leb (n - S m) (v / 2 ^ (7 * Z.of_nat (S m))) ++ rest).
Proof.
  induction m as [|m IH]; intros n k res v Hk Hk' Hn Hr Hv.
  - assert (2 ^ k * 128 <= 2 ^ 28) as Hp.
    { change 128 with (2 ^ 7). rewrite <- Z.pow_add_r by lia. apply Z.pow_le_mono_r; lia. }
    change (2 ^ (7 * Z.of_nat 1)) with 128. destruct (Z.ltb_spec v 128) as [Hs|Hs].
    + assert (leb n v = [v]) as -> by (destruct n; [done|]; cbn [leb]; destruct (Z.ltb_spec v 128); [done|lia]).
      cbn [frag fragment app]. rewrite group_last, lor_group by nia. destruct (Z.ltb_spec v 128); [done|lia].
    + destruct n as [|n]; [change (2 ^ (7 * Z.of_nat 1)) with 128 in Hv; lia|].
      rewrite leb_S by lia. cbn [frag fragment app]. pose proof (Z.mod_pos_bound v 128 ltac:(lia)).
      rewrite group_more, lor_group by nia. destruct (Z.ltb_spec (128 + v mod 128) 128); [lia|]. by rewrite Nat.sub_succ, Nat.sub_0_r.
  - set (P := 2 ^ (7 * Z.of_nat (S m))) in *. assert (2 ^ (7 * Z.of_nat (S (S m))) = 128 * P) as ->.
    { unfold P. change 128 with (2 ^ 7). rewrite <- Z.pow_add_r by lia. f_equal. lia. }
    assert (2 ^ k * 128 <= 2 ^ 28) as Hp.
    { change 128 with (2 ^ 7). rewrite <- Z.pow_add_r by lia. apply Z.pow_le_mono_r; lia. }
    assert (0 < P) by (unfold P; lia). destruct n as [|n]; [lia|]. change (frag (S (S m)) k) with (k :: frag (S m) (k + 7)).
    destruct (Z.ltb_spec v 128) as [Hs|Hs].
    { cbn [leb]. destruct (Z.ltb_spec v 128); [|lia]. cbn [fragment app]. rewrite group_last, lor_group by nia.
      destruct (Z.ltb_spec v 128), (Z.ltb_spec v (128 * P)); [done|nia|lia..]. }
    rewrite leb_S by lia. cbn [fragment app]. pose proof (Z.mod_pos_bound v 128 ltac:(lia)).
    rewrite group_more, lor_group by nia. destruct (Z.ltb_spec (128 + v mod 128) 128); [lia|].
    assert (0 <= v / 128 < 2 ^ (7 * Z.of_nat (S n))) as Hq.
    { split; [apply Z.div_pos; lia|]. apply Z.div_lt_upper_bound; [lia|]. change 128 with (2 ^ 7). rewrite <- Z.pow_add_r by lia.
      replace (7 + 7 * Z.of_nat (S n)) with (7 * Z.of_nat (S (S n))) by lia. lia. }
    rewrite IH; [|lia..|by apply group_bound|done]. fold P. rewrite group_split by lia.
    destruct (Z.ltb_spec v (128 * P)) as [Hlt|Hge], (Z.ltb_spec (v / 128) P) as [Hlt'|Hge']; [done|exfalso..|].
    + apply (Z.div_lt_upper_bound v 128 P) in Hlt; lia.
    + apply (Z.div_le_lower_bound v 128 P) in Hge; lia.
    + rewrite Nat.sub_succ, (Z.rem_mul_r v 128 P), Z.div_div by lia. do 3 f_equal. rewrite Z.pow_add_r by lia. change (2 ^ 7) with 128. ring.
Qed.

(** Both paths of the decoder read back a number in the format, and nothing more. *)
Lemma Parse64_leb (v : Z) (rest : bytes) : 0 <= v < 2 ^ 64 -> Parse64 (leb 9 v ++ rest) = Some (v, rest).
Proof.
  intros Hv. unfold Parse64. destruct (Z.ltb_spec v 128) as [Hs|Hs].
  { cbn [leb]. destruct (Z.ltb_spec v 128); [|lia]. cbn [app]. destruct (Z.ltb_spec v 128); [done|lia]. }
  rewrite leb_S by lia. cbn [app]. destruct (Z.ltb_spec (128 + v mod 128) 128); [pose proof (Z.mod_pos_bound v 128); lia|].
  unfold Parse64Fallback. cbn [head tail mbind option_bind]. rewrite group_more.
  pose proof (Z.mod_pos_bound v 128 ltac:(lia)). change [0; 7; 14; 21] with (frag 4 0). change [7; 14; 21] with (frag 3 7). change [0; 7] with (frag 2 0).
  rewrite fragment_leb by (try (change (2 ^ (7 * Z.of_nat 9)) with (2 ^ 63)); Z.div_mod_to_equations; lia).
  change (2 ^ (7 * Z.of_nat 3)) with (2 ^ 21). change (2 ^ 7) with 128. destruct (Z.ltb_spec (v / 128) (2 ^ 21)).
  { cbn [mbind option_bind]. do 2 f_equal. Z.div_mod_to_equations; lia. }
  cbn [mbind option_bind Nat.sub]. rewrite Z.div_div by lia. change (128 * 2 ^ 21) with (2 ^ 28).
  rewrite fragment_leb by (try (change (2 ^ (7 * Z.of_nat 6)) with (2 ^ 42)); Z.div_mod_to_equations; lia).
  change (2 ^ (7 * Z.of_nat 4)) with (2 ^ 28). rewrite Z.pow_0_r, !Z.mul_1_r, !Z.add_0_l.
  destruct (Z.ltb_spec (v / 2 ^ 28) (2 ^ 28)).
  { cbn [mbind option_bind]. rewrite lor_add by (Z.div_mod_to_equations; lia). do 2 f_equal. Z.div_mod_to_equations; lia. }
  cbn [mbind option_bind Nat.sub]. rewrite Z.div_div by lia. change (2 ^ 28 * 2 ^ 28) with (2 ^ 56).
  rewrite fragment_leb by (try (change (2 ^ (7 * Z.of_nat 2)) with (2 ^ 14)); Z.div_mod_to_equations; lia).
  change (2 ^ (7 * Z.of_nat 2)) with (2 ^ 14). rewrite Z.pow_0_r, !Z.mul_1_r, !Z.add_0_l.
  destruct (Z.ltb_spec (v / 2 ^ 56) (2 ^ 14)); [|Z.div_mod_to_equations; lia].
  cbn [mbind option_bind]. rewrite lor_add, lor_group by (Z.div_mod_to_equations; lia). do 2 f_equal. Z.div_mod_to_equations; lia.
Qed.

Lemma load_leb (v : Z) (rest : bytes) : 0 <= v < 2 ^ 64 -> load (leb 9 v ++ rest) = inr (v, rest).
Proof.
  intros Hv. unfold load, Parse64WithLimit. destruct (bool_decide _); [by rewrite Parse64_leb|].
  change [0; 7; 14; 21; 28; 35; 42; 49; 56; 63] with (shifts 9). rewrite parse_bytes_leb; [|lia|cbn; lia|cbn; lia].
  change (2 ^ (7 * (9 - Z.of_nat 9))) with 1. by rewrite Z.mul_1_r, Z.add_0_l.
Qed.

(** *** The buffer *)

Lemma grow_S (fuel needed oldSize newSize : nat) :
  grow (S fuel) needed oldSize newSize =
    if ((newSize <? oldSize) || (newSize - oldSize <? needed))%nat
    then grow fuel needed oldSize ((newSize * 3 + 1) / 2) else Some newSize.
Proof. done. Qed.

Lemma grow_ok (fuel needed oldSize : nat) : forall newSize : nat,
  (0 < newSize)%nat -> (oldSize + needed <= newSize + fuel)%nat ->
  exists n, grow (S fuel) needed oldSize newSize = Some n /\ (oldSize + needed <= n)%nat /\ (newSize <= n)%nat.
Proof.
  induction fuel as [|fuel IH]; intros newSize Hpos Hf; rewrite grow_S.
  - destruct (Nat.ltb_spec newSize oldSize), (Nat.ltb_spec (newSize - oldSize) needed); cbn [orb]; try lia. exists newSize. split; [done|lia].
  - destruct (Nat.ltb_spec newSize oldSize) as [H1|H1], (Nat.ltb_spec (newSize - oldSize) needed) as [H2|H2]; cbn [orb].
    4:{ exists newSize. split; [done|lia]. }
    all: assert (newSize < (newSize * 3 + 1) / 2)%nat as Hg by (apply Nat.div_le_lower_bound; lia);
      destruct (IH ((newSize * 3 + 1) / 2)%nat) as (n & -> & Hn); [lia|lia|]; exists n; split; [done|lia].
Qed.

Lemma length_leb (n : nat) : forall v : Z, (length (leb n v) <= S n)%nat.
Proof.
  induction n as [|n IH]; intros v; cbn [leb]; [done|]. destruct (v <? 128); cbn [length]; [lia|]. specialize (IH (v / 128)). lia.
Qed.

(** Writing a varint never fails: it appends the number in the format. *)
Lemma writeAndAdvance_leb (t : Z) (b : DataBuilder) :
  db_ok b -> 0 <= t < 2 ^ 64 ->
  exists c, writeAndAdvance t b = Some (inr (mkDB c (written b ++ leb 9 t))) /\ db_ok (mkDB c (written b ++ leb 9 t)).
Proof.
  intros Hok Ht. pose proof (length_leb 9 t) as Hl.
  unfold writeAndAdvance. assert (exists c, _ensureStorage b = mkDB c (written b) /\ (0 < c)%nat /\ (length (written b) <= c)%nat) as (c & -> & Hc & Hc').
  { unfold _ensureStorage. destruct (Nat.eqb_spec (_capacity b) 0) as [E|E]; [|exists (_capacity b); destruct b; split; [done|split; [cbn in *; lia|done]]].
    exists kInitialBufferSize. unfold db_ok in Hok. assert (written b = []) as Hw by (apply length_zero_iff_nil; lia).
    unfold resize, kInitialBufferSize. rewrite E, Hw. cbn. split; [done|lia]. }
  cbn [_capacity written]. unfold store, kMaxSizeBytes64. rewrite Encode64_leb by done.
  destruct (Nat.ltb_spec (c - length (written b)) 10) as [Hs|Hs].
  2:{ exists c. split; [done|]. unfold db_ok. cbn [_capacity written]. solve_length. }
  unfold reserve. cbn [_capacity written]. destruct (Nat.eqb_spec c 0) as [Hz|_]; [lia|].
  destruct (grow_ok (length (written b) + 10) 10 (length (written b)) c) as (n & -> & Hn & Hn'); [lia|lia|].
  cbn [mbind option_bind]. unfold resize. cbn [_capacity written]. exists n.
  assert (db_ok (mkDB n (written b ++ leb 9 t))) as Hfin by (unfold db_ok; cbn [_capacity written]; solve_length).
  destruct (Nat.eqb_spec n c); [lia|]. destruct (Nat.eqb_spec n 0); [lia|]. cbn [_capacity written]. rewrite take_ge by lia.
  destruct (Nat.ltb_spec (n - length (written b)) 10); [lia|done].
Qed.

Lemma leb_ok (n : nat) : forall v : Z, 0 <= v < 256 * 128 ^ Z.of_nat n -> bytes_ok (leb n v).
Proof.
  induction n as [|n IH]; intros v Hv; cbn [leb].
  - constructor; [|constructor]. unfold byte_ok. cbn in Hv. lia.
  - rewrite Nat2Z.inj_succ, Z.pow_succ_r in Hv by lia. destruct (Z.ltb_spec v 128).
    + constructor; [|constructor]. unfold byte_ok. lia.
    + constructor; [unfold byte_ok; pose proof (Z.mod_pos_bound v 128); lia|]. apply IH.
      split; [apply Z.div_pos; lia|apply Z.div_lt_upper_bound; lia].
Qed.

End Varint.
