(* ===== verification/Ftdc.v ===== *)
(** * Full-time diagnostic data capture

    The compressor and the decompressor of [db/ftdc]: samples of server metrics become deltas,
    runs of zeros and varints behind a reference document, and are read back from there. zlib and
    the conversion of decimals to integers are parameters. *)
From S2P Require Import Prelude StringData Bson BsonValidate BsonDecode Varint.

Module Ftdc.
Import Decode.

(** [StatusOK] is a [StatusWith] that was made from an OK status and holds no value. *)
Inductive Status := StatusOK | BadValue | InvalidLength | Overflow | ZLibError | InvalidBSON (s : Validate.Status) | InvalidSize
  | FileStreamFailed | NoSuchKey | TypeMismatch | FileAlreadyOpen | FileNotOpen | FileRenameFailed | NonExistentPath | InvalidPath
  (** The exceptions of [boost::filesystem]. *)
  | FilesystemError.

(** ** Loops and vectors *)

(** [for (i = first; i < first + n; i++)]. *)
Fixpoint for_ {A : Type} (n : nat) (i : Z) (body : Z -> A -> outcome Status A) (a : A) : outcome Status A :=
  match n with
  | O => Ret a
  | S n => a ← body i a; for_ n (i + 1) body a
  end.

(** [std::vector<std::uint64_t>]; an index outside of it is a fault. *)
Definition get (l : list Z) (i : Z) : outcome Status Z :=
  if i <? 0 then Fault else match l !! Z.to_nat i with Some x => Ret x | None => Fault end.
Definition set (i x : Z) (l : list Z) : outcome Status (list Z) :=
  if (0 <=? i) && (i <? Z.of_nat (length l)) then Ret (<[Z.to_nat i := x]> l) else Fault.
Definition resize (n : nat) (l : list Z) : list Z := take n l ++ replicate (n - length l) 0.

(** [getArrayOffset], in 32-bit arithmetic. *)
Definition getArrayOffset (sampleCount sample metric : Z) : Z := wrapu 32 (wrapu 32 (metric * sampleCount) + sample).

(** ** Numbers *)

(** The integral part of a double and whether it is one a [long long] can hold. *)
Definition double_trunc (raw : bytes) : option Z :=
  let bits := le_decode raw in
  let exponent := Z.land (Z.shiftr bits 52) 2047 in
  let fraction := Z.land bits (Z.ones 52) in
  if exponent =? 2047 then None
  else
    let mantissa := if exponent =? 0 then fraction else fraction + 2 ^ 52 in
    let e := Z.max exponent 1 - 1075 in
    let magnitude := if e <? 0 then Z.shiftr mantissa (- e) else Z.shiftl mantissa e in
    let n := if Z.testbit bits 63 then - magnitude else magnitude in
    if (- 2 ^ 63 <=? n) && (n <? 2 ^ 63) then Some n else None.

Section numbers.
(** What the conversion of a double out of range yields, and [Decimal128::toLong]. *)
Variable outOfRange : bytes -> Z.
Variable toLong : bytes -> Z.

Definition numberLong (v : value) : Z :=
  match v with
  | VDouble raw => default (wraps 64 (outOfRange raw)) (double_trunc raw)
  | VInt n | VLong n => n
  | VDecimal raw => wraps 64 (toLong raw)
  | _ => 0
  end.

Definition isNumber (v : value) : bool :=
  match v with VLong _ | VDouble _ | VDecimal _ | VInt _ => true | _ => false end.

(** [Timestamp::getSecs] and [getInc]. *)
Definition getSecs (n : Z) : Z := wrapu 32 (Z.shiftr n 32).
Definition getInc (n : Z) : Z := wrapu 32 n.
(** [Timestamp(unsigned, unsigned)] and [asULL]. *)
Definition Timestamp (seconds increment : Z) : Z := Z.lor (Z.shiftl (wrapu 32 seconds) 32) (wrapu 32 increment).

(** ** Metrics of a document ([util.cpp]) *)

Definition kMaxRecursion : nat := 10.

(** One round of the loop: the element at the reference iterator is [r] when there is one and the
    documents match so far. *)
Definition element_matches (r : option field) (n : bytes) (v : value) : bool :=
  match r with
  | None => false
  | Some r =>
      bool_decide (r.1 = n) &&
      (bool_decide (type_of v = type_of r.2) || (isNumber r.2 && bool_decide (isNumber v = isNumber r.2)))
  end.

(** The fields of an object or array element, of none for [BSONObj()]. *)
Definition Obj (r : option field) : list field :=
  match r with Some (_, VObject fs) | Some (_, VArray fs) => fs | _ => [] end.

Fixpoint extract_loop (nested : list field -> list field -> list Z -> bool -> (Status + bool) * list Z)
    (reference current : list field) (metrics : list Z) (matches : bool) : (Status + bool) * list Z :=
  match current with
  | [] => (inr (matches && bool_decide (reference = [])), metrics)
  | (n, v) :: current =>
      let matches := matches && negb (bool_decide (reference = [])) in
      let r := if matches then head reference else None in
      let reference := if matches then tail reference else reference in
      let matches := matches && element_matches r n v in
      match v with
      | VDouble _ | VInt _ | VLong _ | VDecimal _ =>
          extract_loop nested reference current (metrics ++ [wrapu 64 (numberLong v)]) matches
      | VBool b => extract_loop nested reference current (metrics ++ [if b then 1 else 0]) matches
      | VDate millis => extract_loop nested reference current (metrics ++ [wrapu 64 millis]) matches
      | VTimestamp t => extract_loop nested reference current (metrics ++ [getSecs t; getInc t]) matches
      | VObject fs | VArray fs =>
          match nested (if matches then Obj r else []) fs metrics matches with
          | (inl s, metrics) => (inl s, metrics)
          | (inr sw, metrics) => extract_loop nested reference current metrics (matches && sw)
          end
      | _ => extract_loop nested reference current metrics matches
      end
  end.

(** [room] is how many levels are left: [kMaxRecursion + 1 - recursion]. *)
Fixpoint extract (room : nat) (reference current : list field) (metrics : list Z) (matches : bool) : (Status + bool) * list Z :=
  match room with
  | O => (inl BadValue, metrics)
  | S room => extract_loop (extract room) reference current metrics matches
  end.

Definition extractMetricsFromDocument (reference current : list field) (metrics : list Z) : (Status + bool) * list Z :=
  extract (S kMaxRecursion) reference current metrics true.

(** The metrics from the current position on. *)
Fixpoint construct_loop (nested : list field -> list Z -> Status + list field * list Z)
    (reference : list field) (metrics : list Z) : Status + list field * list Z :=
  match reference with
  | [] => inr ([], metrics)
  | (n, v) :: reference =>
      let append w metrics :=
        match construct_loop nested reference metrics with
        | inl s => inl s
        | inr (fs, metrics) => inr ((n, w) :: fs, metrics)
        end in
      match v with
      | VDouble _ | VInt _ | VLong _ | VDecimal _ =>
          match metrics with [] => inl BadValue | m :: metrics => append (VLong (wraps 64 m)) metrics end
      | VBool _ => match metrics with [] => inl BadValue | m :: metrics => append (VBool (negb (m =? 0))) metrics end
      | VDate _ => match metrics with [] => inl BadValue | m :: metrics => append (VDate (wraps 64 m)) metrics end
      | VTimestamp _ =>
          match metrics with
          | seconds :: increment :: metrics => append (VTimestamp (Timestamp seconds increment)) metrics
          | _ => inl BadValue
          end
      | VObject fs =>
          match nested fs metrics with inl s => inl s | inr (sub, metrics) => append (VObject sub) metrics end
      | VArray fs =>
          match nested fs metrics with inl s => inl s | inr (sub, metrics) => append (VArray sub) metrics end
      | _ => append v metrics
      end
  end.

Fixpoint construct (room : nat) (reference : list field) (metrics : list Z) : Status + list field * list Z :=
  match room with
  | O => inl BadValue
  | S room => construct_loop (construct room) reference metrics
  end.

Definition constructDocumentFromMetrics (reference : list field) (metrics : list Z) : Status + list field :=
  match construct (S kMaxRecursion) reference metrics with inl s => inl s | inr (fs, _) => inr fs end.

(** ** zlib ([block_compressor.cpp]) *)

Definition Z_OK : Z := 0.
Definition Z_STREAM_END : Z := 1.

(** The calls on one stream: their return codes and the output, given the input and the space for
    the output. [End] is told how often it was called before. *)
Record ZLib := mkZLib {
  deflateInit : Z;
  deflate : bytes -> nat -> Z * bytes;
  deflateEnd : bytes -> nat -> nat -> Z;
  inflateInit : Z;
  inflate : bytes -> nat -> Z * bytes;
  inflateEnd : bytes -> nat -> nat -> Z
}.
Variable z : ZLib.

(** [source.length() * 1.01 + 12]. *)
Definition bound (n : nat) : nat := (n * 101 / 100 + 12)%nat.

Definition zrun (init : Z) (call : bytes -> nat -> Z * bytes) (end_ : bytes -> nat -> nat -> Z) (source : bytes) (space : nat)
    : outcome Status bytes :=
  if negb (init =? Z_OK) then Throw ZLibError
  else
    let '(err, out) := call source space in
    if negb (err =? Z_STREAM_END) && negb (err =? Z_OK) then Throw ZLibError
    else if negb (end_ source space (if err =? Z_STREAM_END then 0%nat else 1%nat) =? Z_OK) then Throw ZLibError
    else Ret out.

Definition compress (source : bytes) : outcome Status bytes :=
  zrun (deflateInit z) (deflate z) (deflateEnd z) source (bound (length source)).
Definition uncompress_block (source : bytes) (uncompressedLength : nat) : outcome Status bytes :=
  zrun (inflateInit z) (inflate z) (inflateEnd z) source uncompressedLength.

(** ** The compressor *)

Inductive CompressorState := kSchemaChanged | kCompressorFull.

Record FTDCCompressor := mkCompressor {
  _referenceDoc : list field;
  _referenceDocDate : Z;
  _metricsCount : Z;
  _deltaCount : Z;
  _maxDeltas : Z;
  _deltas : list Z;
  _metrics : list Z;
  _prevmetrics : list Z
}.

(** [FTDCConfig::maxSamplesPerArchiveMetricChunk]. *)
Variable maxSamplesPerArchiveMetricChunk : Z.

Definition FTDCCompressor_new : FTDCCompressor := mkCompressor [] 0 0 0 0 [] [] [].

Definition set_metrics (m : list Z) (c : FTDCCompressor) : FTDCCompressor :=
  mkCompressor (_referenceDoc c) (_referenceDocDate c) (_metricsCount c) (_deltaCount c) (_maxDeltas c) (_deltas c) m (_prevmetrics c).

Definition _reset (referenceDoc : list field) (date : Z) (c : FTDCCompressor) : FTDCCompressor :=
  let metricsCount := wrapu 32 (Z.of_nat (length (_metrics c))) in
  let maxDeltas := wrapu 32 (maxSamplesPerArchiveMetricChunk - 1) in
  mkCompressor referenceDoc date metricsCount 0 maxDeltas (resize (Z.to_nat (metricsCount * maxDeltas)) (_deltas c)) [] (_metrics c).

Definition reset (c : FTDCCompressor) : FTDCCompressor := _reset [] 0 (set_metrics [] c).

Definition hasDataToFlush (c : FTDCCompressor) : bool := negb (bool_decide (_referenceDoc c = [])).

(** A [writeAndAdvance] of the compressor, with its early return. *)
Definition write (t : Z) (db : Varint.DataBuilder) : outcome Status Varint.DataBuilder :=
  match Varint.writeAndAdvance t db with
  | None => NoFuel
  | Some (inl _) => Throw Overflow
  | Some (inr db) => Ret db
  end.

Definition write_zeroes (zeroesCount : Z) (db : Varint.DataBuilder) : outcome Status Varint.DataBuilder :=
  db ← write 0 db; write (wrapu 32 (zeroesCount - 1)) db.

(** The inner loop on one delta; the state is the buffer and [zeroesCount]. *)
Definition write_delta (c : FTDCCompressor) (i j : Z) (s : Varint.DataBuilder * Z) : outcome Status (Varint.DataBuilder * Z) :=
  let '(db, zeroesCount) := s in
  delta ← get (_deltas c) (getArrayOffset (wrapu 32 (_maxDeltas c)) j i);
  if delta =? 0 then Ret (db, wrapu 32 (zeroesCount + 1))
  else
    db ← (if 0 <? zeroesCount then write_zeroes zeroesCount db else Ret db);
    db ← write delta db;
    Ret (db, 0).

Definition write_metric (c : FTDCCompressor) (i : Z) (s : Varint.DataBuilder * Z) : outcome Status (Varint.DataBuilder * Z) :=
  '(db, zeroesCount) ← for_ (Z.to_nat (_deltaCount c)) 0 (write_delta c i) s;
  if (i =? _metricsCount c - 1) && negb (zeroesCount =? 0) then db ← write_zeroes zeroesCount db; Ret (db, zeroesCount)
  else Ret (db, zeroesCount).

Definition uncompressedChunk (c : FTDCCompressor) : outcome Status bytes :=
  let head := enc_obj (_referenceDoc c) ++ le_encode 4 (_metricsCount c) ++ le_encode 4 (_deltaCount c) in
  if negb (_metricsCount c =? 0) && negb (_deltaCount c =? 0) then
    let db := Varint.DataBuilder_new (Z.to_nat (wrapu 64 (wrapu 32 (_metricsCount c * _deltaCount c) * 10 / 2))) in
    '(db, _) ← for_ (Z.to_nat (_metricsCount c)) 0 (write_metric c) (db, 0);
    Ret (head ++ Varint.written db)
  else Ret head.

Definition getCompressedSamples (c : FTDCCompressor) : outcome Status (bytes * Z) :=
  chunk ← uncompressedChunk c;
  dest ← compress chunk;
  Ret (le_encode 4 (Z.of_nat (length chunk)) ++ dest, _referenceDocDate c).

(** Storing the deltas of a sample. *)
Definition add_deltas (c : FTDCCompressor) : outcome Status (list Z) :=
  for_ (length (_metrics c)) 0 (fun i ds =>
    m ← get (_metrics c) i;
    p ← get (_prevmetrics c) i;
    set (getArrayOffset (wrapu 32 (_maxDeltas c)) (_deltaCount c) i) (wrapu 64 (m - p)) ds) (_deltas c).

Definition addSample (sample : list field) (date : Z) (c : FTDCCompressor)
    : FTDCCompressor * outcome Status (option (bytes * CompressorState * Z)) :=
  if bool_decide (_referenceDoc c = []) then
    let '(_, m) := extractMetricsFromDocument sample sample (_metrics c) in
    (_reset sample date (set_metrics m c), Ret None)
  else
    let '(swMatches, m) := extractMetricsFromDocument (_referenceDoc c) sample [] in
    let c := set_metrics m c in
    match swMatches with
    | inl s => (c, Throw s)
    | inr false =>
        match getCompressedSamples c with
        | Ret (chunk, d) => (_reset sample date c, Ret (Some (chunk, kSchemaChanged, d)))
        | Throw s => (c, Throw s) | Fault => (c, Fault) | NoFuel => (c, NoFuel)
        end
    | inr true =>
        match add_deltas c with
        | Ret ds =>
            let n := wrapu 32 (_deltaCount c + 1) in
            let c := mkCompressor (_referenceDoc c) (_referenceDocDate c) (_metricsCount c) n (_maxDeltas c) ds [] m in
            if n =? _maxDeltas c then
              match getCompressedSamples c with
              | Ret (chunk, d) =>
                  (mkCompressor [] (_referenceDocDate c) (_metricsCount c) n (_maxDeltas c) ds [] m, Ret (Some (chunk, kCompressorFull, d)))
              | Throw s => (c, Throw s) | Fault => (c, Fault) | NoFuel => (c, NoFuel)
              end
            else (c, Ret None)
        | Throw s => (c, Throw s) | Fault => (c, Fault) | NoFuel => (c, NoFuel)
        end
    end.

(** ** The decompressor *)

(** [readAndAdvance<LittleEndian<std::uint32_t>>]. *)
Definition read_uint32 (p : bytes) : outcome Status (Z * bytes) :=
  if bool_decide (4 <= length p)%nat then Ret (le_decode (take 4 p), drop 4 p) else Throw Overflow.

Definition read_varint (p : bytes) : outcome Status (Z * bytes) :=
  match Varint.load p with inl _ => Throw Overflow | inr r => Ret r end.

(** The server's setting [objcheck], the BSON version it accepts, and the memory before the size
    table as in [Elt.size]. *)
Record Server := mkServer { objcheck : bool; enabledBSONVersion : Validate.BSONVersion; endianness : SD.endian; before : Z -> Z }.
Variable server : Server.

Definition BSONObjMaxInternalSize : Z := 16 * 1024 * 1024 + 16 * 1024.

(** [readAndAdvance<Validated<BSONObj>>]. *)
Definition read_object (p : bytes) : outcome Status (list field * bytes) :=
  match (if objcheck server then Validate.validateBSON (endianness server) p (Z.of_nat (length p)) (enabledBSONVersion server) else Ret Validate.OK) with
  | Ret Validate.OK =>
      match Decode.read_int p with
      | None => Fault
      | Some x =>
          if (0 <? x) && (x <=? BSONObjMaxInternalSize) then
            match Decode.document (before server) p with Some fs => Ret (fs, drop (Z.to_nat x) p) | None => Fault end
          else Throw InvalidSize
      end
  | Ret s | Throw s => Throw (InvalidBSON s)
  | Fault => Fault
  | NoFuel => NoFuel
  end.

(** The deltas read, the pending zeros and the cursor. A run of zeros that is cut off returns the
    status of the delta before it. *)
Definition read_delta (sampleCount i j : Z) (s : list Z * Z * bytes) : outcome Status (list Z * Z * bytes) :=
  let '(deltas, zeroesCount, p) := s in
  if negb (zeroesCount =? 0) then
    deltas ← set (getArrayOffset sampleCount j i) 0 deltas; Ret (deltas, zeroesCount - 1, p)
  else
    '(delta, p) ← read_varint p;
    '(zeroesCount, p) ← (if delta =? 0 then match read_varint p with Throw _ => Throw StatusOK | r => r end else Ret (zeroesCount, p));
    deltas ← set (getArrayOffset sampleCount j i) delta deltas;
    Ret (deltas, zeroesCount, p).

Definition read_deltas (metricsCount sampleCount : Z) (p : bytes) : outcome Status (list Z) :=
  '(deltas, _, _) ← for_ (Z.to_nat metricsCount) 0 (fun i => for_ (Z.to_nat sampleCount) 0 (read_delta sampleCount i))
      (replicate (Z.to_nat (wrapu 32 (metricsCount * sampleCount))) 0, 0, p);
  Ret deltas.

(** The bodies of the two loops that turn deltas into values. *)
Definition add_metric (sampleCount : Z) (metrics : list Z) (i : Z) (deltas : list Z) : outcome Status (list Z) :=
  m ← get metrics i;
  d ← get deltas (getArrayOffset sampleCount 0 i);
  set (getArrayOffset sampleCount 0 i) (wrapu 64 (d + m)) deltas.
Definition add_previous (sampleCount i j : Z) (deltas : list Z) : outcome Status (list Z) :=
  d ← get deltas (getArrayOffset sampleCount j i);
  p ← get deltas (getArrayOffset sampleCount (j - 1) i);
  set (getArrayOffset sampleCount j i) (wrapu 64 (d + p)) deltas.

Definition inflate_deltas (metricsCount sampleCount : Z) (metrics deltas : list Z) : outcome Status (list Z) :=
  deltas ← for_ (Z.to_nat metricsCount) 0 (add_metric sampleCount metrics) deltas;
  for_ (Z.to_nat metricsCount) 0 (fun i => for_ (Z.to_nat (sampleCount - 1)) 1 (add_previous sampleCount i)) deltas.

(** A document for every sample; [getValue()] of an error is a fault. *)
Definition construct_samples (ref : list field) (metricsCount sampleCount : Z) (metrics deltas : list Z) (docs : list (list field))
    : outcome Status (list (list field)) :=
  '(_, docs) ← for_ (Z.to_nat sampleCount) 0 (fun i s =>
    let '(metrics, docs) := s in
    metrics ← for_ (Z.to_nat metricsCount) 0 (fun j metrics =>
      x ← get deltas (wrapu 32 (wrapu 32 (j * sampleCount) + i)); set j x metrics) metrics;
    match constructDocumentFromMetrics ref metrics with
    | inr doc => Ret (metrics, docs ++ [doc])
    | inl _ => Fault
    end) (metrics, docs);
  Ret docs.

Definition uncompress (buf : bytes) : outcome Status (list (list field)) :=
  '(uncompressedLength, compressed) ← read_uint32 buf;
  _ ← require InvalidLength (uncompressedLength <=? 10000000);
  cdc ← uncompress_block compressed (Z.to_nat uncompressedLength);
  '(ref, cdc) ← read_object cdc;
  '(metricsCount, cdc) ← read_uint32 cdc;
  '(sampleCount, cdc) ← read_uint32 cdc;
  _ ← require InvalidLength (wrapu 32 (metricsCount * sampleCount) <=? 1000000);
  let '(_, metrics) := extractMetricsFromDocument ref ref [] in
  _ ← require BadValue (Z.of_nat (length metrics) =? metricsCount);
  if sampleCount =? 0 then Ret [ref]
  else
    deltas ← read_deltas metricsCount sampleCount cdc;
    deltas ← inflate_deltas metricsCount sampleCount metrics deltas;
    construct_samples ref metricsCount sampleCount metrics deltas [ref].

(** ** What the functions on documents compute *)

(** The metrics of a value, at every level. *)
Fixpoint value_metrics (v : value) : list Z :=
  match v with
  | VDouble _ | VInt _ | VLong _ | VDecimal _ => [wrapu 64 (numberLong v)]
  | VBool b => [if b then 1 else 0]
  | VDate millis => [wrapu 64 millis]
  | VTimestamp t => [getSecs t; getInc t]
  | VObject fs | VArray fs => List.concat (List.map (fun f : bytes * value => value_metrics f.2) fs)
  | _ => []
  end.
Definition doc_metrics (fs : list field) : list Z := List.concat (List.map (fun f : bytes * value => value_metrics f.2) fs).

(** How deep documents are nested in a value. *)
Fixpoint depth (v : value) : nat :=
  match v with
  | VObject fs | VArray fs => S (list_max (List.map (fun f : bytes * value => depth f.2) fs))
  | _ => 0
  end.
Definition doc_depth (fs : list field) : nat := list_max (List.map (fun f : bytes * value => depth f.2) fs).

(** The same names and types in the same order, up to the type of numbers. *)
Fixpoint same_shape (r v : value) : bool :=
  let go := fix go (rs vs : list (bytes * value)) : bool :=
    match rs, vs with
    | [], [] => true
    | (n, r) :: rs, (m, v) :: vs => bool_decide (n = m) && same_shape r v && go rs vs
    | _, _ => false
    end in
  match r, v with
  | VObject rs, VObject vs | VArray rs, VArray vs => go rs vs
  | _, _ => bool_decide (type_of r = type_of v) || (isNumber r && isNumber v)
  end.
Fixpoint doc_same_shape (rs vs : list field) : bool :=
  match rs, vs with
  | [], [] => true
  | (n, r) :: rs, (m, v) :: vs => bool_decide (n = m) && same_shape r v && doc_same_shape rs vs
  | _, _ => false
  end.

(** The document that is read back for [v] behind the reference [r]. *)
Fixpoint like (r v : value) : value :=
  let go := fix go (rs vs : list (bytes * value)) : list (bytes * value) :=
    match rs, vs with (n, r) :: rs, (_, v) :: vs => (n, like r v) :: go rs vs | _, _ => [] end in
  match r, v with
  | VObject rs, VObject vs => VObject (go rs vs)
  | VArray rs, VArray vs => VArray (go rs vs)
  | (VDouble _ | VInt _ | VLong _ | VDecimal _), _ => VLong (numberLong v)
  | (VBool _ | VDate _ | VTimestamp _), _ => v
  | _, _ => r
  end.
Fixpoint doc_like (rs vs : list field) : list field :=
  match rs, vs with (n, r) :: rs, (_, v) :: vs => (n, like r v) :: doc_like rs vs | _, _ => [] end.

(** *** Lemmas *)

Lemma same_shape_docs (r v : list field) :
  same_shape (VObject r) (VObject v) = doc_same_shape r v /\ same_shape (VArray r) (VArray v) = doc_same_shape r v.
Proof. split; cbn [same_shape]; revert v; induction r as [|[n r] rs IH]; intros [|[m v] vs]; cbn; try done; by rewrite IH. Qed.

Lemma like_docs (r v : list field) :
  like (VObject r) (VObject v) = VObject (doc_like r v) /\ like (VArray r) (VArray v) = VArray (doc_like r v).
Proof. split; cbn [like]; f_equal; revert v; induction r as [|[n r] rs IH]; intros [|[m v] vs]; cbn; try done; by rewrite IH. Qed.

Lemma doc_metrics_cons (n : bytes) (v : value) (fs : list field) : doc_metrics ((n, v) :: fs) = value_metrics v ++ doc_metrics fs.
Proof. done. Qed.

Lemma doc_depth_cons (n : bytes) (v : value) (fs : list field) : doc_depth ((n, v) :: fs) = Nat.max (depth v) (doc_depth fs).
Proof. done. Qed.

Definition is_doc (v : value) : bool := match v with VObject _ | VArray _ => true | _ => false end.

Lemma leaf_matches (n m : bytes) (r v : value) :
  is_doc v = false -> element_matches (Some (m, r)) n v = bool_decide (m = n) && same_shape r v.
Proof.
  intros Hv. cbn [element_matches fst snd]. f_equal.
  assert (same_shape r v = bool_decide (type_of r = type_of v) || (isNumber r && isNumber v)) as -> by (by destruct r, v).
  f_equal; [by apply bool_decide_ext|]. by destruct (isNumber r), (isNumber v).
Qed.

(** One round on a value without nested documents. *)
Lemma extract_leaf nested (reference current : list field) (metrics : list Z) (matches : bool) (n : bytes) (v : value) :
  is_doc v = false ->
  extract_loop nested reference ((n, v) :: current) metrics matches =
    extract_loop nested (if matches then tail reference else reference) current (metrics ++ value_metrics v)
      (matches && match reference with (m, r) :: _ => bool_decide (m = n) && same_shape r v | [] => false end).
Proof.
  intros Hv. cbn [extract_loop]. destruct matches, reference as [|[m r] reference]; cbn [andb negb bool_decide head tail].
  all: rewrite ?bool_decide_eq_true_2 by done; rewrite ?bool_decide_eq_false_2 by done; cbn [andb negb head tail].
  all: destruct v; try done; cbn [value_metrics]; rewrite ?app_nil_r; try done.
  all: by rewrite <- leaf_matches.
Qed.

(** One round on a nested document. *)
Lemma extract_nested nested (reference current : list field) (metrics : list Z) (matches : bool) (n : bytes) (v : value) (fs : list field) :
  v = VObject fs \/ v = VArray fs ->
  extract_loop nested reference ((n, v) :: current) metrics matches =
    let m1 := matches && match reference with (m, r) :: _ => bool_decide (m = n) && bool_decide (type_of v = type_of r) | [] => false end in
    match nested (if m1 then Obj (head reference) else []) fs metrics m1 with
    | (inl s, metrics) => (inl s, metrics)
    | (inr sw, metrics) => extract_loop nested (if matches then tail reference else reference) current metrics (m1 && sw)
    end.
Proof.
  intros Hv. cbn [extract_loop]. assert (isNumber v = false) as Hn by (by destruct Hv as [-> | ->]).
  destruct matches, reference as [|[m r] reference]; cbn [andb negb head tail].
  all: rewrite ?bool_decide_eq_true_2 by done; rewrite ?bool_decide_eq_false_2 by done; cbn [andb negb head tail].
  2: { cbn [element_matches fst snd]. rewrite Hn. assert (isNumber r && bool_decide (false = isNumber r) = false) as -> by (by destruct (isNumber r)).
       rewrite orb_false_r. by destruct Hv as [-> | ->]. }
  all: by destruct Hv as [-> | ->].
Qed.

(** On a document that is not too deep, [extract] appends its metrics and compares its shape. *)
Lemma extract_spec (room : nat) : forall (reference current : list field) (metrics : list Z) (matches : bool),
  (doc_depth current < room)%nat ->
  extract room reference current metrics matches =
    (inr (matches && doc_same_shape reference current), metrics ++ doc_metrics current).
Proof.
  induction room as [|room IH]; intros reference current metrics matches Hd; [lia|]. cbn [extract].
  revert reference metrics matches. induction current as [|[n v] current IHc]; intros reference metrics matches.
  { cbn [extract_loop]. unfold doc_metrics. cbn. rewrite app_nil_r. do 3 f_equal. by destruct reference as [|[? ?] ?]. }
  rewrite doc_depth_cons in Hd. rewrite doc_metrics_cons. specialize (IHc ltac:(lia)). destruct (is_doc v) eqn:Hv.
  - assert (exists fs, v = VObject fs \/ v = VArray fs) as [fs Hfs] by (destruct v; try done; eauto).
    assert (doc_depth fs < room)%nat as Hdf by (destruct Hfs as [-> | ->]; cbn [depth] in Hd; fold (doc_depth fs) in Hd; lia).
    rewrite (extract_nested _ _ _ _ _ _ _ _ Hfs). cbv zeta. rewrite IH by done. rewrite IHc.
    rewrite app_assoc. f_equal; [|by destruct Hfs as [-> | ->]]. f_equal.
    destruct matches; [|done]. cbn [andb]. destruct reference as [|[m r] reference]; [done|]. cbn [head tail doc_same_shape].
    rewrite andb_assoc. f_equal. rewrite <- andb_assoc. destruct (bool_decide (m = n)); [|done]. cbn [andb].
    destruct Hfs as [-> | ->], r; try done; cbn [type_of]; rewrite bool_decide_eq_true_2 by done; cbn [andb Obj]; symmetry; apply same_shape_docs.
  - rewrite extract_leaf by done. rewrite IHc, app_assoc. do 2 f_equal. rewrite <- andb_assoc. destruct matches; [|done]. cbn [andb].
    by destruct reference as [|[m r] reference].
Qed.

Lemma extract_metrics (reference current : list field) (metrics : list Z) :
  (doc_depth current <= kMaxRecursion)%nat ->
  extractMetricsFromDocument reference current metrics = (inr (doc_same_shape reference current), metrics ++ doc_metrics current).
Proof. intros Hd. unfold extractMetricsFromDocument. rewrite extract_spec by lia. done. Qed.

Lemma double_trunc_range (raw : bytes) (n : Z) : double_trunc raw = Some n -> - 2 ^ 63 <= n < 2 ^ 63.
Proof.
  unfold double_trunc. cbv zeta. destruct (Z.eqb _ 2047); [done|].
  match goal with |- context [if Z.leb _ ?m && _ then _ else _] => generalize m end. intros m H.
  destruct (Z.leb_spec (- 2 ^ 63) m), (Z.ltb_spec m (2 ^ 63)); cbn [andb] in H; try done. by injection H as <-.
Qed.

Lemma numberLong_range (v : value) : wf_value v -> - 2 ^ 63 <= numberLong v < 2 ^ 63.
Proof.
  intros Hv. destruct v; cbn [numberLong]; try lia; cbn [wf_value] in Hv; try lia.
  - destruct (double_trunc raw) as [n|] eqn:E; cbn [default from_option id]; [|apply (wraps_range 64); lia].
    by apply double_trunc_range in E.
  - apply (wraps_range 64). lia.
Qed.

Lemma Timestamp_parts (t : Z) : 0 <= t < 2 ^ 64 -> Timestamp (getSecs t) (getInc t) = t.
Proof.
  intros Ht. unfold Timestamp, getSecs, getInc. rewrite Z.shiftr_div_pow2 by lia.
  rewrite (wrapu_small 32 (t / 2 ^ 32)) by (Z.div_mod_to_equations; lia).
  rewrite (wrapu_small 32 (t / 2 ^ 32)) by (Z.div_mod_to_equations; lia).
  rewrite (wrapu_small 32 (wrapu 32 t)) by (apply wrapu_range; lia).
  rewrite Z.lor_comm, lor_add by (try apply wrapu_range; lia). unfold wrapu. Z.div_mod_to_equations; lia.
Qed.

(** [construct] takes the metrics of a document of the same shape and yields the document that is
    [like] it. *)
Lemma construct_spec (room : nat) : forall (reference current : list field) (metrics : list Z),
  (doc_depth reference < room)%nat -> doc_same_shape reference current = true -> wf_doc current ->
  construct room reference (doc_metrics current ++ metrics) = inr (doc_like reference current, metrics).
Proof.
  induction room as [|room IH]; intros reference current metrics Hd Hs Hwf; [lia|]. cbn [construct]. revert current metrics Hs Hwf.
  induction reference as [|[n r] reference IHr]; intros [|[m v] current] metrics Hs Hwf; try done.
  cbn [doc_same_shape] in Hs. apply andb_true_iff in Hs as [Hs Hss]. apply andb_true_iff in Hs as [Hn Hs].
  apply bool_decide_eq_true in Hn as <-. rewrite doc_depth_cons in Hd. apply Forall_cons in Hwf as [[_ Hv] Hwf]. cbn [snd] in Hv.
  rewrite doc_metrics_cons, <- app_assoc. specialize (IHr ltac:(lia)). pose proof (numberLong_range v Hv) as Hnum.
  cbn [construct_loop doc_like].
  destruct r; destruct v; try done; cbn [value_metrics app like];
    try (rewrite (IHr current metrics Hss Hwf); cbn [numberLong] in *; rewrite ?wraps_wrapu by done; done).
  - cbn [depth] in Hd. fold (doc_depth fs) in Hd. fold (doc_metrics fs0). apply wf_value_VObject in Hv. pose proof (same_shape_docs fs fs0) as [Hsh _].
    rewrite Hsh in Hs. rewrite IH by (done || lia). rewrite IHr by done. by rewrite <- (proj1 (like_docs fs fs0)).
  - cbn [depth] in Hd. fold (doc_depth fs) in Hd. fold (doc_metrics fs0). apply wf_value_VArray in Hv. pose proof (same_shape_docs fs fs0) as [_ Hsh].
    rewrite Hsh in Hs. rewrite IH by (done || lia). rewrite IHr by done. by rewrite <- (proj2 (like_docs fs fs0)).
  - rewrite IHr by done. by destruct b0.
  - rewrite IHr by done. by rewrite Timestamp_parts.
Qed.

Lemma construct_metrics (reference current : list field) :
  (doc_depth reference <= kMaxRecursion)%nat -> doc_same_shape reference current = true -> wf_doc current ->
  constructDocumentFromMetrics reference (doc_metrics current) = inr (doc_like reference current).
Proof.
  intros Hd Hs Hwf. unfold constructDocumentFromMetrics. rewrite <- (app_nil_r (doc_metrics current)).
  rewrite construct_spec by (done || lia). done.
Qed.

(** *** What is kept of a sample *)

(** The same names, types up to those of numbers, and metrics. *)
Definition same_metrics (s d : list field) : Prop := doc_same_shape d s = true /\ doc_metrics d = doc_metrics s.

(** [v] differs from [r] in its metrics only, and its numbers are [NumberLong]. *)
Fixpoint unchanged (r v : value) : Prop :=
  let go := fix go (rs vs : list (bytes * value)) : Prop :=
    match rs, vs with [], [] => True | (n, r) :: rs, (m, v) :: vs => n = m /\ unchanged r v /\ go rs vs | _, _ => False end in
  match r, v with
  | VObject rs, VObject vs | VArray rs, VArray vs => go rs vs
  | (VDouble _ | VInt _ | VLong _ | VDecimal _), VLong _ | VBool _, VBool _ | VDate _, VDate _ | VTimestamp _, VTimestamp _ => True
  | (VDouble _ | VInt _ | VLong _ | VDecimal _), _ => False
  | _, _ => r = v
  end.
Fixpoint doc_unchanged (rs vs : list field) : Prop :=
  match rs, vs with [], [] => True | (n, r) :: rs, (m, v) :: vs => n = m /\ unchanged r v /\ doc_unchanged rs vs | _, _ => False end.

Lemma unchanged_docs (r v : list field) :
  (unchanged (VObject r) (VObject v) <-> doc_unchanged r v) /\ (unchanged (VArray r) (VArray v) <-> doc_unchanged r v).
Proof. split; cbn [unchanged]; revert v; induction r as [|[n r] rs IH]; intros [|[m v] vs]; cbn; try done; by rewrite IH. Qed.

Lemma like_value_same (r : value) : forall v, same_shape r v = true ->
  value_metrics (like r v) = value_metrics v /\ same_shape (like r v) v = true.
Proof.
  assert (forall fs, Forall (fun f : field => forall v, same_shape f.2 v = true -> value_metrics (like f.2 v) = value_metrics v /\ same_shape (like f.2 v) v = true) fs ->
    forall vs, doc_same_shape fs vs = true -> doc_metrics (doc_like fs vs) = doc_metrics vs /\ doc_same_shape (doc_like fs vs) vs = true) as Hdocs.
  { induction 1 as [|[n r'] fs Hr _ IHf]; intros [|[m v] vs] Hs; try done. cbn [doc_same_shape] in Hs. apply andb_true_iff in Hs as [[Hn Hs]%andb_true_iff Hss].
    cbn [doc_like]. cbn [snd] in Hr. rewrite !doc_metrics_cons. cbn [doc_same_shape]. destruct (Hr v Hs) as [-> ->]. destruct (IHf vs Hss) as [-> ->]. by rewrite Hn. }
  induction r as [fs IH|fs IH|code fs IH|r Hleaf] using value_nested_ind; intros v Hs.
  - destruct v; try done. rewrite (proj1 (same_shape_docs _ _)) in Hs. rewrite (proj1 (like_docs _ _)), (proj1 (same_shape_docs _ _)). by apply Hdocs.
  - destruct v; try done. rewrite (proj2 (same_shape_docs _ _)) in Hs. rewrite (proj2 (like_docs _ _)), (proj2 (same_shape_docs _ _)). by apply Hdocs.
  - destruct v; try done.
  - destruct r; try done; destruct v; try done; by split.
Qed.

Lemma like_same (r s : list field) : doc_same_shape r s = true -> same_metrics s (doc_like r s).
Proof.
  intros Hs. destruct (like_value_same (VObject r) (VObject s)) as [Hm Hsh]; [by rewrite (proj1 (same_shape_docs r s))|].
  rewrite (proj1 (like_docs r s)) in Hm, Hsh. rewrite (proj1 (same_shape_docs _ _)) in Hsh. by split.
Qed.

Lemma like_value_shape (r : value) : forall v, same_shape r v = true -> same_shape r (like r v) = true.
Proof.
  assert (forall fs, Forall (fun f : field => forall v, same_shape f.2 v = true -> same_shape f.2 (like f.2 v) = true) fs ->
    forall vs, doc_same_shape fs vs = true -> doc_same_shape fs (doc_like fs vs) = true) as Hdocs.
  { induction 1 as [|[n r'] fs Hr _ IHf]; intros [|[m v] vs] Hs; try done. cbn [doc_same_shape] in Hs. apply andb_true_iff in Hs as [[Hn Hs]%andb_true_iff Hss].
    cbn [doc_like doc_same_shape]. cbn [snd] in Hr. by rewrite bool_decide_eq_true_2, (Hr v Hs), (IHf vs Hss). }
  induction r as [fs IH|fs IH|code fs IH|r Hleaf] using value_nested_ind; intros v Hs.
  - destruct v; try done. rewrite (proj1 (same_shape_docs _ _)) in Hs. rewrite (proj1 (like_docs _ _)), (proj1 (same_shape_docs _ _)). by apply Hdocs.
  - destruct v; try done. rewrite (proj2 (same_shape_docs _ _)) in Hs. rewrite (proj2 (like_docs _ _)), (proj2 (same_shape_docs _ _)). by apply Hdocs.
  - destruct v; try done.
  - destruct r; try done; destruct v; done.
Qed.

Lemma like_value_idem (r : value) : forall v, same_shape r v = true -> like r (like r v) = like r v.
Proof.
  assert (forall fs, Forall (fun f : field => forall v, same_shape f.2 v = true -> like f.2 (like f.2 v) = like f.2 v) fs ->
    forall vs, doc_same_shape fs vs = true -> doc_like fs (doc_like fs vs) = doc_like fs vs) as Hdocs.
  { induction 1 as [|[n r'] fs Hr _ IHf]; intros [|[m v] vs] Hs; try done. cbn [doc_same_shape] in Hs. apply andb_true_iff in Hs as [[_ Hs]%andb_true_iff Hss].
    cbn [doc_like]. cbn [snd] in Hr. by rewrite (Hr v Hs), (IHf vs Hss). }
  induction r as [fs IH|fs IH|code fs IH|r Hleaf] using value_nested_ind; intros v Hs.
  - destruct v; try done. rewrite (proj1 (same_shape_docs _ _)) in Hs. rewrite !(proj1 (like_docs _ _)). f_equal. by apply Hdocs.
  - destruct v; try done. rewrite (proj2 (same_shape_docs _ _)) in Hs. rewrite !(proj2 (like_docs _ _)). f_equal. by apply Hdocs.
  - destruct v; try done.
  - destruct r; try done; destruct v; done.
Qed.

Lemma doc_like_idem (r s : list field) : doc_same_shape r s = true -> doc_like r (doc_like r s) = doc_like r s.
Proof.
  intros Hs. pose proof (like_value_idem (VObject r) (VObject s)) as H. rewrite !(proj1 (like_docs _ _)), (proj1 (same_shape_docs _ _)) in H. by injection (H Hs).
Qed.

Lemma doc_like_shape (r s : list field) : doc_same_shape r s = true -> doc_same_shape r (doc_like r s) = true.
Proof.
  intros Hs. pose proof (like_value_shape (VObject r) (VObject s)) as H. rewrite (proj1 (like_docs r s)), !(proj1 (same_shape_docs _ _)) in H. by apply H.
Qed.

Lemma like_value_unchanged (r : value) : forall v, unchanged r v -> like r v = v.
Proof.
  assert (forall fs, Forall (fun f : field => forall v, unchanged f.2 v -> like f.2 v = v) fs -> forall vs, doc_unchanged fs vs -> doc_like fs vs = vs) as Hdocs.
  { induction 1 as [|[n r'] fs Hr _ IHf]; intros [|[m v] vs] Hs; try done. destruct Hs as (-> & Hv & Hs). cbn [doc_like]. cbn [snd] in Hr. by rewrite (Hr v Hv), (IHf vs Hs). }
  induction r as [fs IH|fs IH|code fs IH|r Hleaf] using value_nested_ind; intros v Hs.
  - destruct v; try done. apply unchanged_docs in Hs. rewrite (proj1 (like_docs _ _)). f_equal. by apply Hdocs.
  - destruct v; try done. apply unchanged_docs in Hs. rewrite (proj2 (like_docs _ _)). f_equal. by apply Hdocs.
  - destruct v; try done.
  - destruct r; try done; destruct v; try done.
Qed.

Lemma like_unchanged (r s : list field) : doc_unchanged r s -> doc_like r s = s.
Proof.
  intros Hs. pose proof (like_value_unchanged (VObject r) (VObject s)) as H. rewrite (proj1 (like_docs r s)) in H.
  assert (VObject (doc_like r s) = VObject s) as [=] by (apply H; by apply unchanged_docs). done.
Qed.

Lemma same_metrics_refl (s : list field) : same_metrics s s.
Proof.
  split; [|done]. assert (forall v, same_shape v v = true) as Hv.
  { induction v as [fs IH|fs IH|code fs IH|v Hleaf] using value_nested_ind.
    1,2: (rewrite (proj1 (same_shape_docs _ _)) || rewrite (proj2 (same_shape_docs _ _))); induction IH as [|[n v] fs Hv _ IHf]; [done|];
      cbn [doc_same_shape]; cbn [snd] in Hv; rewrite bool_decide_eq_true_2, Hv, IHf by done; done.
    all: destruct v || idtac; try done; cbn [same_shape]; by rewrite bool_decide_eq_true_2. }
  specialize (Hv (VObject s)). by rewrite (proj1 (same_shape_docs _ _)) in Hv.
Qed.

(** ** Loops *)

Lemma for_inv {A : Type} (P : nat -> A -> Prop) (n : nat) (i : Z) (body : Z -> A -> outcome Status A) (a : A) :
  P 0%nat a -> (forall k a, (k < n)%nat -> P k a -> exists a', body (i + Z.of_nat k) a = Ret a' /\ P (S k) a') ->
  exists a', for_ n i body a = Ret a' /\ P n a'.
Proof.
  revert P i a. induction n as [|n IH]; intros P i a H0 Hstep; [by exists a|]. cbn [for_].
  destruct (Hstep 0%nat a ltac:(lia) H0) as (a1 & Hb & H1). rewrite Z.add_0_r in Hb. rewrite Hb. cbn [mbind outcome_bind].
  apply (IH (fun k => P (S k))); [done|]. intros k a' Hk Ha. replace (i + 1 + Z.of_nat k) with (i + Z.of_nat (S k)) by lia.
  apply Hstep; [lia|done].
Qed.

Lemma offset_eq (n i j : nat) : Z.of_nat (i * n + j) < 2 ^ 32 -> getArrayOffset (Z.of_nat n) (Z.of_nat j) (Z.of_nat i) = Z.of_nat (i * n + j).
Proof.
  intros H. unfold getArrayOffset. rewrite Nat2Z.inj_add, Nat2Z.inj_mul in *. assert (0 <= Z.of_nat i * Z.of_nat n) by nia.
  rewrite !wrapu_small by (rewrite ?wrapu_small; lia). done.
Qed.

Lemma get_lookup (l : list Z) (k : nat) (x : Z) : l !! k = Some x -> get l (Z.of_nat k) = Ret x.
Proof. intros H. unfold get. destruct (Z.ltb_spec (Z.of_nat k) 0); [lia|]. by rewrite Nat2Z.id, H. Qed.

Lemma set_lookup (l : list Z) (k : nat) (x : Z) : (k < length l)%nat -> set (Z.of_nat k) x l = Ret (<[k := x]> l).
Proof.
  intros H. unfold set. destruct (Z.leb_spec 0 (Z.of_nat k)), (Z.ltb_spec (Z.of_nat k) (Z.of_nat (length l))); try lia. cbn [andb]. by rewrite Nat2Z.id.
Qed.

(** ** Runs of zeros *)

Definition zero_run (z : nat) : bytes := match z with O => [] | S k => Varint.leb 9 0 ++ Varint.leb 9 (Z.of_nat k) end.

(** The deltas as written, with [z] zeros pending. *)
Fixpoint rle (z : nat) (l : list Z) : bytes :=
  match l with
  | [] => zero_run z
  | d :: l => if d =? 0 then rle (S z) l else zero_run z ++ Varint.leb 9 d ++ rle 0 l
  end.

Definition word (x : Z) : Prop := 0 <= x < 2 ^ 64.

Lemma rle_run (l : list Z) : forall z : nat, exists (k : nat) (l' : list Z), l = replicate k 0 ++ l' /\ rle z l = zero_run (z + k) ++ rle 0 l'.
Proof.
  induction l as [|d l IH]; intros z'; cbn [rle].
  - exists 0%nat, []. split; [done|]. by rewrite Nat.add_0_r, app_nil_r.
  - destruct (Z.eqb_spec d 0) as [->|Hd].
    + destruct (IH (S z')) as (k & l' & -> & Hr). exists (S k), l'. split; [done|]. by rewrite Hr, Nat.add_succ_comm.
    + exists 0%nat, (d :: l). split; [done|]. cbn [rle]. destruct (Z.eqb_spec d 0); [done|]. by rewrite Nat.add_0_r.
Qed.

Lemma write_leb (t : Z) (db : Varint.DataBuilder) : Varint.db_ok db -> word t ->
  exists db', write t db = Ret db' /\ Varint.written db' = Varint.written db ++ Varint.leb 9 t /\ Varint.db_ok db'.
Proof.
  intros Hok Ht. destruct (Varint.writeAndAdvance_leb t db Hok Ht) as (c & Hw & Hc). unfold write. rewrite Hw. eauto.
Qed.

Lemma write_zeroes_run (k : nat) (db : Varint.DataBuilder) : Varint.db_ok db -> Z.of_nat (S k) < 2 ^ 32 ->
  exists db', write_zeroes (Z.of_nat (S k)) db = Ret db' /\ Varint.written db' = Varint.written db ++ zero_run (S k) /\ Varint.db_ok db'.
Proof.
  intros Hok Hk. unfold write_zeroes. destruct (write_leb 0 db Hok ltac:(unfold word; lia)) as (d1 & -> & Hw1 & Hd1). cbn [mbind outcome_bind].
  replace (wrapu 32 (Z.of_nat (S k) - 1)) with (Z.of_nat k) by (rewrite wrapu_small; lia).
  destruct (write_leb (Z.of_nat k) d1 Hd1 ltac:(unfold word; lia)) as (d2 & -> & Hw2 & Hd2).
  exists d2. split; [done|]. split; [|done]. rewrite Hw2, Hw1. cbn [zero_run]. by rewrite app_assoc.
Qed.

(** ** Writing the deltas *)
Section writing.
Variable c : FTDCCompressor.
Variables (mc n : nat) (cell : nat -> nat -> Z).
Hypothesis Hmc : _metricsCount c = Z.of_nat mc.
Hypothesis Hn : _deltaCount c = Z.of_nat n.
Hypothesis Hcells : forall i j : nat, (i < mc)%nat -> (j < n)%nat ->
  get (_deltas c) (getArrayOffset (wrapu 32 (_maxDeltas c)) (Z.of_nat j) (Z.of_nat i)) = Ret (cell i j) /\ word (cell i j).
Hypothesis Hsmall : Z.of_nat (mc * n) < 2 ^ 32.

Definition row (i : nat) : list Z := cell i <$> seq 0 n.
Definition rows : list (list Z) := row <$> seq 0 mc.

Lemma write_row (i : nat) (db0 : Varint.DataBuilder) (z0 : nat) :
  (i < mc)%nat -> (z0 <= i * n)%nat -> Varint.db_ok db0 ->
  exists db z', for_ n 0 (write_delta c (Z.of_nat i)) (db0, Z.of_nat z0) = Ret (db, Z.of_nat z') /\ (z' <= i * n + n)%nat /\
    Varint.db_ok db /\ forall rest, Varint.written db ++ rle z' rest = Varint.written db0 ++ rle z0 (row i ++ rest).
Proof.
  intros Hi Hz0 Hok.
  destruct (for_inv (fun k s => exists z', s.2 = Z.of_nat z' /\ (z' <= i * n + k)%nat /\ Varint.db_ok s.1 /\
      forall rest, Varint.written s.1 ++ rle z' (drop k (row i) ++ rest) = Varint.written db0 ++ rle z0 (row i ++ rest))
    n 0 (write_delta c (Z.of_nat i)) (db0, Z.of_nat z0)) as ([db zc] & Hf & z' & Hz & Hle & Hdb & Hw).
  - exists z0. rewrite Nat.add_0_r. done.
  - intros k [db zc] Hk (z' & Hz & Hle & Hdb & Hw). cbn [fst snd] in *. subst zc. rewrite Z.add_0_l. unfold write_delta.
    destruct (Hcells i k Hi Hk) as [-> Hword]. cbn [mbind outcome_bind].
    assert (drop k (row i) = cell i k :: drop (S k) (row i)) as Hdrop.
    { apply drop_S. unfold row. rewrite list_lookup_fmap, lookup_seq_lt by done. done. }
    assert (Z.of_nat (i * n + S k) < 2 ^ 32) by (assert (i * n + n <= mc * n)%nat by nia; lia).
    destruct (Z.eqb_spec (cell i k) 0) as [Hc|Hc].
    + eexists. split; [done|]. exists (S z'). cbn [fst snd]. split; [rewrite wrapu_small by lia; lia|]. split; [lia|]. split; [done|].
      intros rest. rewrite <- Hw, Hdrop. cbn [app rle]. by rewrite Hc.
    + assert (exists db1, (if 0 <? Z.of_nat z' then write_zeroes (Z.of_nat z') db else Ret db) = Ret db1 /\
        Varint.written db1 = Varint.written db ++ zero_run z' /\ Varint.db_ok db1) as (db1 & -> & Hw1 & Hdb1).
      { destruct z' as [|z']; [exists db; cbn; by rewrite app_nil_r|]. destruct (Z.ltb_spec 0 (Z.of_nat (S z'))); [|lia]. apply write_zeroes_run; [done|lia]. }
      cbn [mbind outcome_bind]. destruct (write_leb (cell i k) db1 Hdb1 Hword) as (db2 & -> & Hw2 & Hdb2). cbn [mbind outcome_bind].
      eexists. split; [done|]. exists 0%nat. cbn [fst snd]. split; [done|]. split; [lia|]. split; [done|]. intros rest.
      rewrite <- Hw, Hdrop, Hw2, Hw1. cbn [app rle]. destruct (Z.eqb_spec (cell i k) 0); [done|]. by rewrite <- !app_assoc.
  - cbn [fst snd] in *. subst zc. exists db, z'. split; [done|]. split; [lia|]. split; [done|]. intros rest. rewrite <- Hw.
    rewrite drop_ge by (unfold row; by rewrite length_fmap, length_seq). done.
Qed.

Lemma row_rest (i : nat) : (i < mc)%nat -> List.concat (drop i rows) = row i ++ List.concat (drop (S i) rows).
Proof. intros Hi. rewrite (drop_S _ (row i)); [done|]. unfold rows. by rewrite list_lookup_fmap, lookup_seq_lt. Qed.

Lemma write_rows (db0 : Varint.DataBuilder) :
  (0 < mc)%nat -> Varint.db_ok db0 -> Varint.written db0 = [] ->
  exists s, for_ mc 0 (write_metric c) (db0, 0) = Ret s /\ Varint.written s.1 = rle 0 (List.concat rows).
Proof.
  intros Hpos Hok Hnil.
  destruct (for_inv (fun i s => exists z', s.2 = Z.of_nat z' /\ (z' <= i * n)%nat /\ Varint.db_ok s.1 /\
      ((i < mc)%nat -> Varint.written s.1 ++ rle z' (List.concat (drop i rows)) = rle 0 (List.concat rows)) /\
      (i = mc -> Varint.written s.1 = rle 0 (List.concat rows))) mc 0 (write_metric c) (db0, 0)) as (s & Hf & z' & _ & _ & _ & _ & Hw).
  - exists 0%nat. split; [done|]. split; [lia|]. split; [done|]. cbn [fst]. rewrite Hnil. split; [done|lia].
  - intros i [db zc] Hi (z0 & Hz & Hle & Hdb & Hw & _). cbn [fst snd] in *. subst zc. specialize (Hw Hi). rewrite Z.add_0_l. unfold write_metric.
    rewrite Hn, Nat2Z.id. destruct (write_row i db z0 Hi Hle Hdb) as (db1 & z1 & -> & Hle1 & Hdb1 & Hw1). cbn [mbind outcome_bind].
    rewrite row_rest, <- Hw1 in Hw by done. rewrite Hmc.
    destruct (Z.eqb_spec (Z.of_nat i) (Z.of_nat mc - 1)) as [Hlast|Hlast]; cbn [andb].
    + assert (drop (S i) rows = []) as Hd by (apply drop_ge; unfold rows; rewrite length_fmap, length_seq; lia). rewrite Hd in Hw. cbn in Hw.
      destruct z1 as [|k]; cbn [negb Z.eqb].
      * cbn [zero_run] in Hw. rewrite app_nil_r in Hw. eexists. split; [done|]. exists 0%nat. cbn [fst snd]. split_and!; [done|lia|done|lia|done].
      * assert (S i * n <= mc * n)%nat by nia. destruct (write_zeroes_run k db1 Hdb1 ltac:(lia)) as (db2 & -> & Hw2 & Hdb2). cbn [mbind outcome_bind].
        eexists. split; [done|]. exists (S k). cbn [fst snd]. split_and!; [done|lia|done|lia|]. intros _. by rewrite Hw2.
    + eexists. split; [done|]. exists z1. cbn [fst snd]. split_and!; [done|lia|done|done|lia].
  - exists s. split; [done|]. by apply Hw.
Qed.

Lemma uncompressedChunk_eq :
  uncompressedChunk c =
    Ret (enc_obj (_referenceDoc c) ++ le_encode 4 (Z.of_nat mc) ++ le_encode 4 (Z.of_nat n) ++ rle 0 (List.concat rows)).
Proof.
  unfold uncompressedChunk. rewrite Hmc, Hn. destruct (decide (mc = 0 \/ n = 0)%nat) as [H0|H0].
  - assert (List.concat rows = []) as ->.
    { unfold rows, row. destruct H0 as [-> | ->]; [done|]. cbn. clear. generalize 0%nat. induction mc as [|k IH]; intros i; [done|]. cbn. apply IH. }
    cbn [rle zero_run]. rewrite app_nil_r. destruct H0 as [-> | ->]; [done|]. by destruct (negb _).
  - destruct (Z.eqb_spec (Z.of_nat mc) 0), (Z.eqb_spec (Z.of_nat n) 0); try lia. cbn [negb andb]. rewrite Nat2Z.id.
    match goal with |- context [Varint.DataBuilder_new ?k] => generalize k end. intros k.
    destruct (write_rows (Varint.DataBuilder_new k)) as ([db zc] & -> & Hw); [lia|..].
    + unfold Varint.db_ok, Varint.DataBuilder_new, Varint.resize. cbn. destruct (k =? 0)%nat; [done|]. cbn. rewrite take_nil. cbn. lia.
    + unfold Varint.DataBuilder_new, Varint.resize. cbn. destruct (k =? 0)%nat; [done|]. cbn. by rewrite take_nil.
    + cbn [mbind outcome_bind fst] in *. by rewrite Hw, <- !app_assoc.
Qed.

End writing.

(** ** Reading the deltas *)

Lemma read_varint_leb (v : Z) (rest : bytes) : word v -> read_varint (Varint.leb 9 v ++ rest) = Ret (v, rest).
Proof. intros Hv. unfold read_varint. by rewrite Varint.load_leb. Qed.

Section reading.
Variables (mc n : nat) (flat : list Z) (tl : bytes).
Hypothesis Hlen : length flat = (mc * n)%nat.
Hypothesis Hwords : Forall word flat.
Hypothesis Hsmall : Z.of_nat (mc * n) < 2 ^ 32.

(** The first [k] deltas have been read; [zeroesCount] zeros are pending. *)
Definition read_upto (k : nat) (s : list Z * Z * bytes) : Prop :=
  length s.1.1 = (mc * n)%nat /\ take k s.1.1 = take k flat /\
  exists (z' : nat) (l' : list Z), s.1.2 = Z.of_nat z' /\ drop k flat = replicate z' 0 ++ l' /\ s.2 = rle 0 l' ++ tl.

Lemma read_upto_set (k : nat) (ds : list Z) (x : Z) :
  length ds = (mc * n)%nat -> take k ds = take k flat -> flat !! k = Some x ->
  length (<[k := x]> ds) = (mc * n)%nat /\ take (S k) (<[k := x]> ds) = take (S k) flat.
Proof.
  intros Hl Ht Hx. rewrite length_insert. split; [done|]. assert (k < length flat)%nat by (by apply lookup_lt_Some in Hx).
  rewrite (take_S_r flat k x) by done. rewrite (take_S_r _ k x) by (apply list_lookup_insert_eq; lia).
  by rewrite take_insert_ge, Ht by lia.
Qed.

Lemma read_delta_step (i j : nat) (s : list Z * Z * bytes) :
  (i < mc)%nat -> (j < n)%nat -> read_upto (i * n + j) s ->
  exists s', read_delta (Z.of_nat n) (Z.of_nat i) (Z.of_nat j) s = Ret s' /\ read_upto (S (i * n + j)) s'.
Proof.
  intros Hi Hj. destruct s as [[ds zc] p]. intros (Hl & Ht & z' & l' & Hz & Hd & Hp). cbn [fst snd] in *. subst zc p.
  assert (i * n + j < mc * n)%nat as Hk by nia. unfold read_delta. rewrite offset_eq by lia.
  assert (is_Some (flat !! (i * n + j)%nat)) as [x Hx] by (apply lookup_lt_is_Some; lia).
  destruct (read_upto_set (i * n + j) ds x Hl Ht Hx) as [Hl' Ht']. rewrite (drop_S _ x) in Hd by done.
  destruct z' as [|z']; cbn [replicate app] in Hd.
  - change (Z.of_nat 0) with 0. cbn [Z.eqb negb]. subst l'. assert (word x) as Hw by (rewrite Forall_forall in Hwords; apply Hwords; by eapply list_elem_of_lookup_2).
    cbn [rle]. destruct (Z.eqb_spec x 0) as [->|Hx0].
    + destruct (rle_run (drop (S (i * n + j)) flat) 1) as (k & l' & Hd & ->). cbn [Nat.add zero_run]. rewrite <- !app_assoc.
      rewrite read_varint_leb by done. cbn [mbind outcome_bind Z.eqb].
      assert (k <= mc * n)%nat by (apply (f_equal length) in Hd; rewrite length_drop, length_app, length_replicate in Hd; lia).
      rewrite read_varint_leb by (unfold word; lia). cbn [mbind outcome_bind]. rewrite set_lookup by lia. cbn [mbind outcome_bind].
      eexists. split; [done|]. split; [done|]. split; [done|]. exists k, l'. done.
    + cbn [zero_run app]. rewrite <- app_assoc, read_varint_leb by done. cbn [mbind outcome_bind]. destruct (Z.eqb_spec x 0); [done|]. cbn [mbind outcome_bind].
      rewrite set_lookup by lia. cbn [mbind outcome_bind]. eexists. split; [done|]. split; [done|]. split; [done|]. by exists 0%nat, (drop (S (i * n + j)) flat).
  - injection Hd as -> Hd. destruct (Z.eqb_spec (Z.of_nat (S z')) 0); [lia|]. cbn [negb]. rewrite set_lookup by lia. cbn [mbind outcome_bind].
    eexists. split; [done|]. split; [done|]. split; [done|]. exists z', l'. cbn [fst snd]. split; [lia|done].
Qed.

Lemma read_deltas_eq : read_deltas (Z.of_nat mc) (Z.of_nat n) (rle 0 flat ++ tl) = Ret flat.
Proof.
  unfold read_deltas. rewrite !Nat2Z.id.
  destruct (for_inv (fun i s => read_upto (i * n) s) mc 0
    (fun i => for_ n 0 (read_delta (Z.of_nat n) i))
    (replicate (Z.to_nat (wrapu 32 (Z.of_nat mc * Z.of_nat n))) 0, 0, rle 0 flat ++ tl)) as ([[ds zc] p] & -> & Hl & Ht & _).
  - rewrite <- Nat2Z.inj_mul, wrapu_small, Nat2Z.id by lia. unfold read_upto. cbn [fst snd]. split; [by rewrite length_replicate|]. split; [done|]. by exists 0%nat, flat.
  - intros i s Hi Hs. rewrite Z.add_0_l. replace (S i * n)%nat with (i * n + n)%nat by lia.
    apply (for_inv (fun j s => read_upto (i * n + j) s)); [by rewrite Nat.add_0_r|]. intros j s' Hj Hs'. rewrite Z.add_0_l, Nat.add_succ_r. by apply read_delta_step.
  - cbn [mbind outcome_bind fst snd] in *. f_equal. by rewrite !take_ge in Ht by lia.
Qed.

End reading.

(** ** Summing the deltas up *)
Section tables.
Variables (mc n : nat).

(** The deltas as a matrix in row-major order. *)
Definition table (f : nat -> nat -> Z) : list Z := List.concat ((fun i => f i <$> seq 0 n) <$> seq 0 mc).

Lemma length_table (f : nat -> nat -> Z) : length (table f) = (mc * n)%nat.
Proof.
  assert (forall k o, length (List.concat ((fun i => f i <$> seq 0 n) <$> seq o k)) = (k * n)%nat) as H; [|apply H].
  induction k as [|k IH]; intros o; [done|]. cbn [seq fmap list_fmap List.concat]. rewrite length_app, length_fmap, length_seq, IH. lia.
Qed.

Lemma table_lookup (f : nat -> nat -> Z) (i j : nat) : (i < mc)%nat -> (j < n)%nat -> table f !! (i * n + j)%nat = Some (f i j).
Proof.
  intros Hi Hj. unfold table. assert (forall k o, (i < k)%nat -> List.concat ((fun i => f i <$> seq 0 n) <$> seq o k) !! (i * n + j)%nat = Some (f (o + i)%nat j)) as H.
  { clear Hi. revert i. induction i as [|i IH]; intros k o Hk; (destruct k as [|k]; [lia|]); cbn [seq fmap list_fmap List.concat].
    - rewrite lookup_app_l by (rewrite length_fmap, length_seq; lia). rewrite list_lookup_fmap, lookup_seq_lt by lia. cbn. by rewrite Nat.add_0_r.
    - rewrite lookup_app_r by (rewrite length_fmap, length_seq; lia). rewrite length_fmap, length_seq.
      replace (S i * n + j - n)%nat with (i * n + j)%nat by lia. rewrite IH by lia. by rewrite Nat.add_succ_comm. }
  apply (H mc 0%nat Hi).
Qed.

Lemma table_ext (f g : nat -> nat -> Z) : (forall i j, (i < mc)%nat -> (j < n)%nat -> f i j = g i j) -> table f = table g.
Proof.
  intros H. unfold table. f_equal. apply list_fmap_ext. intros i x Hx%lookup_seq. apply list_fmap_ext. intros j y Hy%lookup_seq. apply H; lia.
Qed.

Lemma index_inj (w i j i' j' : nat) : (i * w + j = i' * w + j')%nat -> (j < w)%nat -> (j' < w)%nat -> i' = i /\ j' = j.
Proof.
  intros He Hj Hj'. assert (i' = i) as ->; [|lia]. apply (f_equal (fun k => k / w)%nat) in He.
  rewrite !Nat.div_add_l, !Nat.div_small in He by lia. lia.
Qed.

Lemma table_set (f : nat -> nat -> Z) (i j : nat) (x : Z) : (i < mc)%nat -> (j < n)%nat ->
  <[(i * n + j)%nat := x]> (table f) = table (fun i' j' => if decide (i' = i /\ j' = j) then x else f i' j').
Proof.
  intros Hi Hj. apply list_eq. intros k. destruct (decide (k < mc * n)%nat) as [Hk|Hk].
  2:{ rewrite !lookup_ge_None_2; [done| |]; rewrite ?length_insert, length_table; lia. }
  assert (k = k / n * n + k mod n)%nat as Hdm by (rewrite (Nat.div_mod k n) at 1 by lia; lia).
  assert (k mod n < n)%nat by (apply Nat.mod_upper_bound; lia). assert (k / n < mc)%nat by (apply Nat.div_lt_upper_bound; [lia|rewrite Nat.mul_comm; done]).
  rewrite Hdm. rewrite table_lookup by done. destruct (decide _) as [[-> ->]|Hne].
  - rewrite list_lookup_insert_eq; [done|]. rewrite length_table. nia.
  - rewrite list_lookup_insert_ne; [by apply table_lookup|]. intros He. apply Hne. by apply (index_inj n).
Qed.

End tables.

Section inflating.
Variables (mc n : nat) (cell : nat -> nat -> Z) (metrics : list Z).
Hypothesis Hpos : (0 < n)%nat.
Hypothesis Hlen : length metrics = mc.
Hypothesis Hsmall : Z.of_nat (mc * n) < 2 ^ 32.
#[local] Abbreviation table := (table mc n).

Definition metric (i : nat) : Z := default 0 (metrics !! i).
Fixpoint total (i j : nat) : Z :=
  match j with O => wrapu 64 (cell i 0%nat + metric i) | S j' => wrapu 64 (cell i j + total i j') end.

Lemma get_table (f : nat -> nat -> Z) (i j : nat) : (i < mc)%nat -> (j < n)%nat ->
  get (table f) (getArrayOffset (Z.of_nat n) (Z.of_nat j) (Z.of_nat i)) = Ret (f i j).
Proof.
  intros Hi Hj. assert (i * n + j < mc * n)%nat by nia. rewrite offset_eq by lia. by apply get_lookup, table_lookup.
Qed.

Lemma set_table (f : nat -> nat -> Z) (i j : nat) (x : Z) : (i < mc)%nat -> (j < n)%nat ->
  set (getArrayOffset (Z.of_nat n) (Z.of_nat j) (Z.of_nat i)) x (table f) =
    Ret (table (fun i' j' => if decide (i' = i /\ j' = j) then x else f i' j')).
Proof.
  intros Hi Hj. assert (i * n + j < mc * n)%nat by nia. rewrite offset_eq by lia. rewrite set_lookup by (rewrite length_table; lia). by rewrite table_set.
Qed.

Lemma add_metrics_eq :
  for_ mc 0 (add_metric (Z.of_nat n) metrics) (table cell) = Ret (table (fun i j => if decide (j = 0)%nat then total i j else cell i j)).
Proof.
  destruct (for_inv (fun k ds => ds = table (fun i j => if decide (i < k /\ j = 0)%nat then total i j else cell i j)) mc 0
    (add_metric (Z.of_nat n) metrics) (table cell)) as (ds & -> & ->).
  - apply table_ext. intros i j _ _. destruct (decide _); [lia|done].
  - intros k ds Hk ->. rewrite Z.add_0_l. assert (is_Some (metrics !! k)) as [m Hm] by (apply lookup_lt_is_Some; lia). unfold add_metric.
    rewrite (get_lookup _ _ _ Hm). cbn [mbind outcome_bind]. change 0 with (Z.of_nat 0). rewrite get_table by lia. cbn [mbind outcome_bind].
    rewrite set_table by lia. eexists. split; [done|]. apply table_ext. intros i j _ _.
    destruct (decide (k < k /\ 0 = 0)%nat); [lia|]. destruct (decide (i = k /\ j = 0)%nat) as [[-> ->]|Hne].
    + rewrite decide_True by lia. cbn [total]. unfold metric. by rewrite Hm.
    + destruct (decide (i < k /\ j = 0)%nat), (decide (i < S k /\ j = 0)%nat); try done; lia.
  - f_equal. apply table_ext. intros i j Hi _. destruct (decide (i < mc /\ j = 0)%nat), (decide (j = 0)%nat); try done; lia.
Qed.

(** One row, when the rows before it are summed up. *)
Lemma add_previous_row (i : nat) : (i < mc)%nat ->
  for_ (n - 1) 1 (add_previous (Z.of_nat n) (Z.of_nat i)) (table (fun i' j => if decide (i' < i \/ j = 0)%nat then total i' j else cell i' j)) =
    Ret (table (fun i' j => if decide (i' < S i \/ j = 0)%nat then total i' j else cell i' j)).
Proof.
  intros Hi.
  destruct (for_inv (fun k ds => ds = table (fun i' j => if decide (i' < i \/ j = 0 \/ (i' = i /\ j <= k))%nat then total i' j else cell i' j)) (n - 1) 1
    (add_previous (Z.of_nat n) (Z.of_nat i)) (table (fun i' j => if decide (i' < i \/ j = 0)%nat then total i' j else cell i' j))) as (ds & -> & ->).
  - apply table_ext. intros i' j _ _. destruct (decide (i' < i \/ j = 0)%nat), (decide (i' < i \/ j = 0 \/ _)%nat); try done; lia.
  - intros k ds Hk ->. unfold add_previous. replace (1 + Z.of_nat k) with (Z.of_nat (S k)) by lia. rewrite get_table by lia. cbn [mbind outcome_bind].
    replace (Z.of_nat (S k) - 1) with (Z.of_nat k) by lia. rewrite get_table by lia. cbn [mbind outcome_bind]. rewrite set_table by lia.
    eexists. split; [done|]. apply table_ext. intros i' j _ _.
    destruct (decide (i < i \/ S k = 0 \/ _)%nat); [lia|]. rewrite (decide_True (P := (i < i \/ k = 0 \/ _)%nat)) by lia.
    destruct (decide (i' = i /\ j = S k)%nat) as [[-> ->]|Hne]; [by rewrite decide_True by lia|].
    destruct (decide (i' < i \/ j = 0 \/ (i' = i /\ j <= k))%nat), (decide (i' < i \/ j = 0 \/ (i' = i /\ j <= S k))%nat); try done; lia.
  - f_equal. apply table_ext. intros i' j _ Hj.
    destruct (decide (i' < i \/ j = 0 \/ (i' = i /\ j <= n - 1))%nat), (decide (i' < S i \/ j = 0)%nat); try done; lia.
Qed.

Lemma inflate_deltas_eq : inflate_deltas (Z.of_nat mc) (Z.of_nat n) metrics (table cell) = Ret (table total).
Proof.
  unfold inflate_deltas. rewrite Nat2Z.id, add_metrics_eq. cbn [mbind outcome_bind].
  replace (Z.to_nat (Z.of_nat n - 1)) with (n - 1)%nat by lia.
  destruct (for_inv (fun k ds => ds = table (fun i j => if decide (i < k \/ j = 0)%nat then total i j else cell i j)) mc 0
    (fun i => for_ (n - 1) 1 (add_previous (Z.of_nat n) i)) (table (fun i j => if decide (j = 0)%nat then total i j else cell i j))) as (ds & -> & ->).
  - apply table_ext. intros i j _ _. destruct (decide (j = 0)%nat), (decide (i < 0 \/ j = 0)%nat); try done; lia.
  - intros i ds Hi ->. rewrite Z.add_0_l, add_previous_row by done. by eexists.
  - f_equal. apply table_ext. intros i j Hi _. destruct (decide (i < mc \/ j = 0)%nat); [done|lia].
Qed.

(** The samples behind the reference, by the metrics of all of them. *)
Lemma construct_samples_eq (ref : list field) (vals : nat -> list Z) (docs : nat -> list field) :
  (forall j, (j < n)%nat -> length (vals j) = mc /\ (forall i, (i < mc)%nat -> vals j !! i = Some (total i j)) /\
    constructDocumentFromMetrics ref (vals j) = inr (docs j)) ->
  construct_samples ref (Z.of_nat mc) (Z.of_nat n) metrics (table total) [ref] = Ret (ref :: (docs <$> seq 0 n)).
Proof.
  intros Hv. unfold construct_samples. rewrite !Nat2Z.id.
  match goal with |- (for_ n 0 ?body _ ≫= _) = _ =>
    destruct (for_inv (fun k s => length s.1 = mc /\ s.2 = ref :: (docs <$> seq 0 k)) n 0 body (metrics, [ref])) as ([m ds] & -> & _ & Hds)
  end; [done| |cbn [mbind outcome_bind snd] in *; by subst ds].
  intros k [m ds] Hk [Hl Hds]. cbn [fst snd] in Hl, Hds. subst ds. rewrite Z.add_0_l. destruct (Hv k Hk) as (Hvl & Hvi & Hdoc).
  match goal with |- context [for_ mc 0 ?body m] =>
    destruct (for_inv (fun j m' => length m' = mc /\ take j m' = take j (vals k)) mc 0 body m) as (m' & -> & Hl' & Ht)
  end.
  - done.
  - intros j m' Hj [Hm' Ht]. rewrite Z.add_0_l. fold (getArrayOffset (Z.of_nat n) (Z.of_nat k) (Z.of_nat j)). rewrite get_table by done. cbn [mbind outcome_bind].
    rewrite set_lookup by lia. eexists. split; [done|]. rewrite length_insert. split; [done|].
    rewrite (take_S_r (vals k) j (total j k)) by (by apply Hvi). rewrite (take_S_r _ j (total j k)) by (apply list_lookup_insert_eq; lia).
    by rewrite take_insert_ge, Ht by lia.
  - cbn [mbind outcome_bind]. rewrite !take_ge in Ht by lia. subst m'. rewrite Hdoc. eexists. split; [done|]. split; [done|].
    cbn [snd]. rewrite seq_S, fmap_app. done.
Qed.

End inflating.

(** ** Chunks *)

(** zlib as documented: with 0.1% and 12 bytes more than the input, [deflate] finishes in one call,
    and [inflate] restores the input when there is space for it. *)
Definition zlib_ok : Prop :=
  deflateInit z = Z_OK /\ inflateInit z = Z_OK /\
  forall source : bytes, bytes_ok source -> Z.of_nat (length source) <= 10000000 ->
    exists out : bytes, bytes_ok out /\ (length out <= bound (length source))%nat /\
      deflate z source (bound (length source)) = (Z_STREAM_END, out) /\ deflateEnd z source (bound (length source)) 0 = Z_OK /\
      inflate z out (length source) = (Z_STREAM_END, source) /\ inflateEnd z out (length source) 0 = Z_OK.

Lemma block_round_trip (source : bytes) : zlib_ok -> bytes_ok source -> Z.of_nat (length source) <= 10000000 ->
  exists out, compress source = Ret out /\ uncompress_block out (length source) = Ret source /\ bytes_ok out /\ Z.of_nat (length out) <= 10200000.
Proof.
  intros (Hd & Hi & Hz) Hs Hl. destruct (Hz source Hs Hl) as (out & Hb & Hn & H1 & H2 & H3 & H4). exists out.
  unfold compress, uncompress_block, zrun. rewrite Hd, Hi, H1, H3. cbn [Z_OK Z_STREAM_END Z.eqb negb andb Pos.eqb]. rewrite H2, H4.
  split_and!; try done. unfold bound in Hn. assert (length source * 101 / 100 <= length source * 102 / 100)%nat by (apply Nat.Div0.div_le_mono; lia).
  rewrite (Nat.mul_comm (length source) 101) in Hn. pose proof (Nat.Div0.mul_div_le (101 * length source) 100). lia.
Qed.

(** [read_object] on a document of the accepted version. *)
Lemma read_object_eq (fs : list field) (rest : bytes) :
  Validate.valid_doc (enabledBSONVersion server) fs -> Decode.stray_ok (before server) fs -> bytes_ok rest ->
  Z.of_nat (length (enc_obj fs) + length rest) <= BSONObjMaxInternalSize -> read_object (enc_obj fs ++ rest) = Ret (fs, rest).
Proof.
  intros Hv Hst Hrest Hl. unfold BSONObjMaxInternalSize in *. assert (wf_doc fs) as Hwf by (by eapply Validate.valid_doc_has_decimal). pose proof (enc_obj_ok fs Hwf) as Hok. unfold read_object.
  assert ((if objcheck server then Validate.validateBSON (endianness server) (enc_obj fs ++ rest) (Z.of_nat (length (enc_obj fs ++ rest))) (enabledBSONVersion server)
    else Ret Validate.OK) = Ret Validate.OK) as ->.
  { destruct (objcheck server); [|done].
    apply (Validate.validateBSON_complete) with (fs := fs) (t := rest); try done; [by apply Forall_app|solve_length..]. }
  assert (Decode.read_int (enc_obj fs ++ rest) = Some (Z.of_nat (length (enc_obj fs)))) as ->.
  { unfold enc_obj at 1, wrap_doc. rewrite <- app_assoc. rewrite length_enc_obj in *. rewrite Decode.read_int_le_encode by lia. f_equal. lia. }
  pose proof (length_enc_obj fs). unfold BSONObjMaxInternalSize.
  destruct (Z.ltb_spec 0 (Z.of_nat (length (enc_obj fs)))), (Z.leb_spec (Z.of_nat (length (enc_obj fs))) (16 * 1024 * 1024 + 16 * 1024)); try lia. cbn [andb].
  rewrite Decode.document_read by (done || lia). by rewrite Nat2Z.id, drop_app_length.
Qed.

(** How many deltas a chunk holds. *)
Variable D : nat.
Hypothesis HD : (0 < D)%nat /\ Z.of_nat D < 2 ^ 32 - 1.

(** What a sample must be to fit in a chunk with [D] others: not empty, well-formed, not nested too
    deeply, and within the limits of the decompressor. *)
Record sample_ok (fs : list field) : Prop := {
  so_nonempty : fs <> [];
  so_valid : Validate.valid_doc (enabledBSONVersion server) fs;
  so_depth : (doc_depth fs <= kMaxRecursion)%nat;
  so_stray : Decode.stray_ok (before server) fs;
  so_metrics : Z.of_nat (length (doc_metrics fs) * D) <= 1000000;
  so_size : Z.of_nat (length (enc_obj fs) + 8 + 20 * (length (doc_metrics fs) * D)) <= 10000000
}.

Lemma so_wf (fs : list field) : sample_ok fs -> wf_doc fs.
Proof. intros H. eapply Validate.valid_doc_has_decimal, so_valid, H. Qed.

Lemma same_shape_length (r v : value) : same_shape r v = true -> length (value_metrics r) = length (value_metrics v).
Proof.
  revert v. induction r as [fs IH|fs IH|code fs IH|r Hleaf] using value_nested_ind; intros v Hs.
  1,2: destruct v as [| |vs|vs| | | | | | | | | | | | | | | | |]; try done;
    (rewrite (proj1 (same_shape_docs _ _)) in Hs || rewrite (proj2 (same_shape_docs _ _)) in Hs);
    cbn [value_metrics]; revert vs Hs; induction IH as [|[n r] fs Hr _ IHf]; intros [|[m v] vs] Hs; try done;
    cbn [doc_same_shape] in Hs; apply andb_true_iff in Hs as [[_ Hs]%andb_true_iff Hss]; cbn [List.map List.concat];
    rewrite !length_app; f_equal; [by apply Hr|by apply IHf].
  all: destruct v; try done; by destruct r.
Qed.

Lemma doc_shape_length (r v : list field) : doc_same_shape r v = true -> length (doc_metrics r) = length (doc_metrics v).
Proof. intros H. apply (same_shape_length (VObject r) (VObject v)). by rewrite (proj1 (same_shape_docs r v)). Qed.

Lemma value_metrics_word (v : value) : Forall word (value_metrics v).
Proof.
  assert (forall k x, 0 <= k <= 64 -> word (wrapu k x)) as Hw.
  { intros k x Hk. pose proof (wrapu_range k x ltac:(lia)). pose proof (Z.pow_le_mono_r 2 k 64). unfold word. lia. }
  induction v as [fs IH|fs IH|code fs IH|v Hleaf] using value_nested_ind.
  1,2: cbn [value_metrics]; induction IH as [|f fs Hf _ IHf]; [constructor|]; cbn [List.map List.concat]; by apply Forall_app.
  - constructor.
  - destruct v; try done; cbn [value_metrics]; repeat constructor; try (apply Hw; lia); by destruct b.
Qed.

Lemma doc_metrics_word (fs : list field) : Forall word (doc_metrics fs).
Proof. apply (value_metrics_word (VObject fs)). Qed.

Lemma length_rle (l : list Z) : forall z : nat, (length (rle z l) <= 20 * (z + length l))%nat.
Proof.
  assert (forall k, length (zero_run k) <= 20 * k)%nat as Hz.
  { intros [|k]; cbn [zero_run]; [done|]. rewrite length_app. pose proof (Varint.length_leb 9 0). pose proof (Varint.length_leb 9 (Z.of_nat k)). lia. }
  induction l as [|d l IH]; intros k; cbn [rle length]; [pose proof (Hz k); lia|]. destruct (d =? 0); [pose proof (IH (S k)); lia|].
  rewrite !length_app. pose proof (Hz k). pose proof (Varint.length_leb 9 d). pose proof (IH 0%nat). lia.
Qed.

Lemma rle_ok (l : list Z) : Forall word l -> forall z : nat, Z.of_nat (z + length l) < 2 ^ 32 -> bytes_ok (rle z l).
Proof.
  assert (forall v, word v -> bytes_ok (Varint.leb 9 v)) as Hleb by (intros v Hv; apply Varint.leb_ok; unfold word in Hv; lia).
  assert (forall k, Z.of_nat k < 2 ^ 32 -> bytes_ok (zero_run k)) as Hz.
  { intros [|k] Hk; [constructor|]. apply Forall_app. split; apply Hleb; unfold word; lia. }
  induction 1 as [|d l Hd Hl IH]; intros k Hk; cbn [rle length] in *; [apply Hz; lia|]. destruct (d =? 0); [apply IH; lia|].
  unfold bytes_ok. rewrite !Forall_app. split; [apply Hz; lia|]. split; [by apply Hleb|]. apply IH. lia.
Qed.

(** Metric [i] of sample [j] of a group. *)
Definition mx (group : list (list field)) (j i : nat) : Z := default 0 (s ← group !! j; doc_metrics s !! i).
Definition cell (group : list (list field)) (i j : nat) : Z := wrapu 64 (mx group (S j) i - mx group j i).

(** The compressor [c] holds the reference [r] and the samples [rest] behind it. *)
Record holds (c : FTDCCompressor) (r : list field) (rest : list (list field)) : Prop := {
  h_ref : _referenceDoc c = r;
  h_mc : _metricsCount c = Z.of_nat (length (doc_metrics r));
  h_n : _deltaCount c = Z.of_nat (length rest);
  h_max : _maxDeltas c = Z.of_nat D;
  h_le : (length rest <= D)%nat;
  h_shape : Forall (fun s => doc_same_shape r s = true) rest;
  h_ok : Forall sample_ok (r :: rest);
  h_len : length (_deltas c) = (length (doc_metrics r) * D)%nat;
  h_cells : forall i j, (i < length (doc_metrics r))%nat -> (j < length rest)%nat ->
    _deltas c !! (i * D + j)%nat = Some (cell (r :: rest) i j)
}.

Lemma cell_word (group : list (list field)) (i j : nat) : word (cell group i j).
Proof. apply (wrapu_range 64). lia. Qed.

Lemma mx_lookup (group : list (list field)) (j i : nat) (s : list field) (x : Z) :
  group !! j = Some s -> doc_metrics s !! i = Some x -> mx group j i = x.
Proof. intros Hs Hx. unfold mx. rewrite Hs. cbn. by rewrite Hx. Qed.

(** Summing up the deltas of a group gives its metrics. *)
Lemma total_mx (r : list field) (rest : list (list field)) (i j : nat) :
  Forall (fun s => doc_same_shape r s = true) rest -> (i < length (doc_metrics r))%nat -> (j < length rest)%nat ->
  total (cell (r :: rest)) (doc_metrics r) i j = mx (r :: rest) (S j) i.
Proof.
  intros Hsh Hi Hj. assert (forall k, (k < length rest)%nat -> word (mx (r :: rest) (S k) i)) as Hw.
  { intros k Hk. assert (is_Some (rest !! k)) as [s Hs] by (by apply lookup_lt_is_Some). rewrite Forall_forall in Hsh.
    pose proof (doc_shape_length r s (Hsh s ltac:(by eapply list_elem_of_lookup_2))) as Hl.
    assert (is_Some (doc_metrics s !! i)) as [x Hx] by (apply lookup_lt_is_Some; lia). rewrite (mx_lookup _ _ _ s x) by done.
    pose proof (doc_metrics_word s) as Hms. rewrite Forall_forall in Hms. apply Hms. by eapply list_elem_of_lookup_2. }
  assert (forall a b, word a -> wrapu 64 (wrapu 64 (a - b) + b) = a) as Hsum.
  { intros a b Ha. unfold wrapu. rewrite Zplus_mod_idemp_l. replace (a - b + b) with a by lia. by apply Z.mod_small. }
  induction j as [|j IH]; cbn [total].
  - unfold cell. assert (mx (r :: rest) 0 i = metric (doc_metrics r) i) as <- by done. by apply Hsum, Hw.
  - rewrite IH by lia. unfold cell. by apply Hsum, Hw.
Qed.

Lemma read_uint32_le (k : Z) (rest : bytes) : 0 <= k < 2 ^ 32 -> read_uint32 (le_encode 4 k ++ rest) = Ret (k, rest).
Proof.
  intros Hk. unfold read_uint32. rewrite bool_decide_eq_true_2 by (solve_length).
  rewrite take_app_length', drop_app_length' by (by rewrite length_le_encode). rewrite le_decode_encode. by rewrite Z.mod_small.
Qed.

(** A chunk before compression: the reference, the numbers of metrics and of samples, and the deltas. *)
Definition chunk_body (r : list field) (sampleCount : Z) (data : bytes) : bytes :=
  enc_obj r ++ le_encode 4 (Z.of_nat (length (doc_metrics r))) ++ le_encode 4 sampleCount ++ data.

(** The decompressor up to the deltas. *)
Lemma uncompress_header (r : list field) (sampleCount : Z) (data buf : bytes) :
  sample_ok r -> 0 <= sampleCount < 2 ^ 32 -> bytes_ok data -> Z.of_nat (length (chunk_body r sampleCount data)) <= 10000000 ->
  wrapu 32 (Z.of_nat (length (doc_metrics r)) * sampleCount) <= 1000000 ->
  uncompress_block buf (length (chunk_body r sampleCount data)) = Ret (chunk_body r sampleCount data) ->
  uncompress (le_encode 4 (Z.of_nat (length (chunk_body r sampleCount data))) ++ buf) =
    if sampleCount =? 0 then Ret [r]
    else
      deltas ← read_deltas (Z.of_nat (length (doc_metrics r))) sampleCount data;
      deltas ← inflate_deltas (Z.of_nat (length (doc_metrics r))) sampleCount (doc_metrics r) deltas;
      construct_samples r (Z.of_nat (length (doc_metrics r))) sampleCount (doc_metrics r) deltas [r].
Proof.
  intros Hr Hsc Hdata Hl Hprod Hb. pose proof (so_metrics r Hr) as Hm. assert (length (doc_metrics r) <= length (doc_metrics r) * D)%nat by nia. unfold uncompress.
  rewrite read_uint32_le by lia. rewrite bind_Ret; cbv beta iota. destruct (Z.leb_spec (Z.of_nat (length (chunk_body r sampleCount data))) 10000000); [|lia].
  rewrite require_true; cbv beta iota. rewrite Nat2Z.id, Hb. rewrite bind_Ret; cbv beta iota. unfold chunk_body in *.
  rewrite read_object_eq; [|apply (so_valid r Hr)|apply (so_stray r Hr)| |unfold BSONObjMaxInternalSize; rewrite <- length_app; lia].
  2:{ unfold bytes_ok. rewrite !Forall_app. split_and!; [apply le_encode_ok..|done]. }
  rewrite bind_Ret; cbv beta iota. rewrite read_uint32_le by lia. rewrite bind_Ret; cbv beta iota. rewrite read_uint32_le by lia. rewrite bind_Ret; cbv beta iota.
  destruct (Z.leb_spec (wrapu 32 (Z.of_nat (length (doc_metrics r)) * sampleCount)) 1000000); [|lia]. rewrite require_true; cbv beta iota.
  rewrite extract_metrics by apply (so_depth r Hr). cbn [app]. rewrite Z.eqb_refl. by rewrite require_true.
Qed.

(** The first delta of a chunk. *)
Lemma read_deltas_first (mc sc : Z) (data : bytes) (o : outcome Status (list Z * Z * bytes)) :
  0 < mc -> 0 < sc -> read_delta sc 0 0 (replicate (Z.to_nat (wrapu 32 (mc * sc))) 0, 0, data) = o -> (forall x, o <> Ret x) ->
  read_deltas mc sc data = match o with Throw s => Throw s | Fault => Fault | _ => NoFuel end.
Proof.
  intros Hm Hs Ho Hne. unfold read_deltas. destruct (Z.to_nat mc) as [|n] eqn:En; [lia|]. destruct (Z.to_nat sc) as [|k] eqn:Ek; [lia|]. cbn [for_].
  rewrite Ho. destruct o; [by destruct (Hne a)|done|done|done].
Qed.

(** Damaged chunks. The limit on the number of deltas is checked on a product of 32 bits: with
    a number of samples that makes the product a multiple of [2 ^ 32] the decompressor writes
    outside of its array. And when the data ends inside a run of zeros it returns a status that is
    OK without a value. The chunk is otherwise valid in both cases. *)
Theorem damaged_chunks (r : list field) (sampleCount : Z) :
  zlib_ok -> sample_ok r -> doc_metrics r <> [] -> 0 < sampleCount < 2 ^ 32 ->
  exists overrun cut, compress (chunk_body r sampleCount [1]) = Ret overrun /\ compress (chunk_body r sampleCount [0]) = Ret cut /\
    (wrapu 32 (Z.of_nat (length (doc_metrics r)) * sampleCount) = 0 ->
       uncompress (le_encode 4 (Z.of_nat (length (chunk_body r sampleCount [1]))) ++ overrun) = Fault) /\
    (0 < wrapu 32 (Z.of_nat (length (doc_metrics r)) * sampleCount) <= 1000000 ->
       uncompress (le_encode 4 (Z.of_nat (length (chunk_body r sampleCount [0]))) ++ cut) = Throw StatusOK).
Proof.
  intros Hz Hr Hm Hsc. pose proof (so_metrics r Hr). pose proof (so_size r Hr).
  assert (0 < length (doc_metrics r))%nat by (destruct (doc_metrics r); [done|cbn; lia]).
  assert (forall b, length (chunk_body r sampleCount [b]) = (length (enc_obj r) + 9)%nat) as Hlen.
  { intros b. unfold chunk_body. solve_length. }
  assert (length (doc_metrics r) <= length (doc_metrics r) * D)%nat by nia.
  assert (forall b, byte_ok b -> bytes_ok (chunk_body r sampleCount [b])) as Hbytes.
  { intros b Hb. unfold chunk_body, bytes_ok. rewrite !Forall_app. split_and!; [apply enc_obj_ok, (so_wf r Hr)|apply le_encode_ok..|by apply Forall_singleton]. }
  destruct (block_round_trip (chunk_body r sampleCount [1]) Hz) as (o1 & Hc1 & Hu1 & _); [apply Hbytes; unfold byte_ok; lia|rewrite Hlen; lia|].
  destruct (block_round_trip (chunk_body r sampleCount [0]) Hz) as (o2 & Hc2 & Hu2 & _); [apply Hbytes; unfold byte_ok; lia|rewrite Hlen; lia|].
  exists o1, o2. split; [done|]. split; [done|]. split; intros Hp.
  - rewrite uncompress_header; [|done|lia|by apply Forall_singleton|rewrite Hlen; lia|lia|done]. destruct (Z.eqb_spec sampleCount 0); [lia|].
    rewrite (read_deltas_first _ _ _ Fault); [done|lia|lia| |done]. by rewrite Hp.
  - rewrite uncompress_header; [|done|lia|by apply Forall_singleton|rewrite Hlen; lia|lia|done]. destruct (Z.eqb_spec sampleCount 0); [lia|].
    rewrite (read_deltas_first _ _ _ (Throw StatusOK)); [done|lia|lia|done|done].
Qed.

(** The bytes of a group before compression. *)
Definition group_bytes (r : list field) (rest : list (list field)) : bytes :=
  chunk_body r (Z.of_nat (length rest)) (rle 0 (table (length (doc_metrics r)) (length rest) (cell (r :: rest)))).

Section group.
Context (r : list field) (rest : list (list field)).
Hypothesis Hle : (length rest <= D)%nat.
Hypothesis Hshape : Forall (fun s => doc_same_shape r s = true) rest.
Hypothesis Hok : Forall sample_ok (r :: rest).

Lemma group_small : Z.of_nat (length (doc_metrics r) * length rest) <= 1000000 /\ Z.of_nat (length (group_bytes r rest)) <= 10000000.
Proof.
  apply Forall_cons in Hok as [Hr _]. pose proof (so_metrics r Hr). pose proof (so_size r Hr).
  assert (length (doc_metrics r) * length rest <= length (doc_metrics r) * D)%nat by nia. split; [lia|].
  unfold group_bytes, chunk_body. rewrite !length_app, !length_le_encode. pose proof (length_rle (table (length (doc_metrics r)) (length rest) (cell (r :: rest))) 0) as Hl.
  rewrite length_table in Hl. lia.
Qed.

Lemma table_words (w h : nat) : Forall word (table w h (cell (r :: rest))).
Proof.
  unfold table. apply Forall_concat, Forall_fmap, Forall_forall. intros i _. apply Forall_fmap, Forall_forall. intros k _. apply cell_word.
Qed.

Lemma group_bytes_ok : bytes_ok (group_bytes r rest).
Proof.
  destruct group_small as [Hs _]. apply Forall_cons in Hok as [Hr _]. unfold group_bytes, chunk_body, bytes_ok. rewrite !Forall_app.
  split_and!; [apply enc_obj_ok, (so_wf r Hr)|apply le_encode_ok..|]. apply rle_ok; [apply table_words|]. rewrite length_table. lia.
Qed.

(** What the decompressor makes of it. *)
Lemma uncompress_group (buf : bytes) :
  uncompress_block buf (length (group_bytes r rest)) = Ret (group_bytes r rest) ->
  uncompress (le_encode 4 (Z.of_nat (length (group_bytes r rest))) ++ buf) = Ret (r :: (doc_like r <$> rest)).
Proof.
  intros Hb. destruct group_small as [Hs Hl]. pose proof Hok as [Hr Hrest]%Forall_cons. unfold group_bytes in *.
  pose proof (so_metrics r Hr) as Hm. assert (length (doc_metrics r) <= length (doc_metrics r) * D)%nat by nia.
  rewrite uncompress_header; [|done|lia|apply rle_ok; [apply table_words|rewrite length_table; lia]|done|rewrite <- Nat2Z.inj_mul, wrapu_small by lia; lia|done].
  destruct (Z.eqb_spec (Z.of_nat (length rest)) 0) as [Hn|Hn]; [by destruct rest|].
  rewrite <- (app_nil_r (rle 0 (table (length (doc_metrics r)) (length rest) (cell (r :: rest))))). rewrite (read_deltas_eq (length (doc_metrics r)) (length rest) (table (length (doc_metrics r)) (length rest) (cell (r :: rest))) []); [|apply length_table|apply table_words|lia]. rewrite bind_Ret; cbv beta iota.
  rewrite (inflate_deltas_eq (length (doc_metrics r)) (length rest)) by (done || lia). rewrite bind_Ret; cbv beta iota.
  rewrite (construct_samples_eq (length (doc_metrics r)) (length rest) (cell (r :: rest)) (doc_metrics r) ltac:(lia) eq_refl ltac:(lia) r (fun k => doc_metrics (default [] (rest !! k))) (fun k => doc_like r (default [] (rest !! k)))).
  - do 2 f_equal. apply list_eq. intros k. rewrite !list_lookup_fmap. destruct (decide (k < (length rest))%nat) as [Hk|Hk].
    + rewrite lookup_seq_lt by done. cbn. assert (is_Some (rest !! k)) as [s Hk'] by (by apply lookup_lt_is_Some). by rewrite Hk'.
    + rewrite !lookup_ge_None_2; [done|lia|rewrite length_seq; lia].
  - intros k Hk. assert (is_Some (rest !! k)) as [s Hk'] by (by apply lookup_lt_is_Some). rewrite Hk'. cbn [default from_option id].
    rewrite Forall_forall in Hshape, Hrest. assert (s ∈ rest) as Hin by (by eapply list_elem_of_lookup_2). pose proof (doc_shape_length r s (Hshape s Hin)) as Hls.
    split; [done|]. split.
    + intros i Hi. assert (is_Some (doc_metrics s !! i)) as [x Hx] by (apply lookup_lt_is_Some; lia). rewrite total_mx by (done || by apply Forall_forall).
      by rewrite (mx_lookup _ _ _ s x).
    + apply construct_metrics; [apply (so_depth r Hr)|by apply Hshape|by apply so_wf, Hrest].
Qed.

End group.

(** The chunk of a group is read back as the group: the reference, and for every sample behind it
    the document that is like the reference with the metrics of the sample. *)
Definition chunk_of (chunk : bytes) (docs : list (list field)) : Prop :=
  uncompress chunk = Ret docs /\ bytes_ok chunk /\ Z.of_nat (length chunk) <= 10300000.

Lemma chunk_round_trip (c : FTDCCompressor) (r : list field) (rest : list (list field)) :
  zlib_ok -> holds c r rest ->
  exists chunk, getCompressedSamples c = Ret (chunk, _referenceDocDate c) /\ chunk_of chunk (r :: (doc_like r <$> rest)).
Proof.
  intros Hz [Href Hmc Hn Hmax Hle Hshape Hok Hlen Hcells]. destruct (group_small r rest Hle Hok) as [Hs Hl].
  destruct (block_round_trip (group_bytes r rest) Hz (group_bytes_ok r rest Hle Hok) Hl) as (out & Hc & Hu & Hbo & Hlo).
  exists (le_encode 4 (Z.of_nat (length (group_bytes r rest))) ++ out). split.
  2:{ split; [by apply uncompress_group|]. rewrite length_app, length_le_encode. split; [|lia]. apply Forall_app. split; [apply le_encode_ok|done]. }
  unfold getCompressedSamples. rewrite (uncompressedChunk_eq c _ _ (cell (r :: rest)) Hmc Hn); [| |lia].
  - rewrite Href. cbn [mbind outcome_bind]. unfold group_bytes, chunk_body in *. unfold rows, row. fold (table (length (doc_metrics r)) (length rest) (cell (r :: rest))).
    by rewrite Hc.
  - intros i j Hi Hj. split; [|apply cell_word]. rewrite Hmax. apply Forall_cons in Hok as [Hr _]. pose proof (so_metrics r Hr).
    assert (i * D + j < length (doc_metrics r) * D)%nat by nia. assert (D <= length (doc_metrics r) * D)%nat by nia.
    rewrite wrapu_small by lia. rewrite offset_eq by lia. by apply get_lookup, Hcells.
Qed.

(** ** Adding samples *)

Hypothesis Hconfig : maxSamplesPerArchiveMetricChunk = Z.of_nat D + 1.

(** Nothing is held: at the start, and after a full chunk. *)
Definition idle (c : FTDCCompressor) : Prop := _referenceDoc c = [] /\ _metrics c = [].

(** The state between two calls. *)
Definition ready (c : FTDCCompressor) (r : list field) (rest : list (list field)) : Prop :=
  holds c r rest /\ _metrics c = [] /\ _prevmetrics c = doc_metrics (default r (last rest)) /\ (length rest < D)%nat.

Lemma last_group (r : list field) (rest : list (list field)) : (r :: rest) !! length rest = Some (default r (last rest)).
Proof.
  destruct rest as [|s rest _] using rev_ind; [done|]. rewrite last_snoc, length_app. cbn [length default from_option id].
  rewrite Nat.add_1_r. change ((r :: rest ++ [s]) !! S (length rest)) with ((rest ++ [s]) !! length rest). by rewrite lookup_app_r, Nat.sub_diag by lia.
Qed.

Lemma cell_app (r s : list field) (rest : list (list field)) (i j : nat) :
  (j < length rest)%nat -> cell (r :: rest ++ [s]) i j = cell (r :: rest) i j.
Proof.
  intros Hj. unfold cell, mx. change (r :: rest ++ [s]) with ((r :: rest) ++ [s]). by rewrite !lookup_app_l by (cbn [length]; lia).
Qed.

Lemma add_deltas_eq (c : FTDCCompressor) (r s : list field) (rest : list (list field)) :
  holds c r rest -> (length rest < D)%nat -> doc_same_shape r s = true -> _metrics c = doc_metrics s ->
  _prevmetrics c = doc_metrics (default r (last rest)) ->
  exists ds, add_deltas c = Ret ds /\ length ds = (length (doc_metrics r) * D)%nat /\
    forall i j, (i < length (doc_metrics r))%nat -> (j < S (length rest))%nat -> ds !! (i * D + j)%nat = Some (cell (r :: rest ++ [s]) i j).
Proof.
  intros [Href Hmc Hn Hmx Hle Hshape Hok Hlen Hcells] Hlt Hs Hm Hp. pose proof (doc_shape_length r s Hs) as Hls.
  set (p := default r (last rest)) in *. pose proof (last_group r rest) as Hlast. fold p in Hlast.
  assert (length (doc_metrics p) = length (doc_metrics r)) as Hlp.
  { unfold p. destruct (last rest) as [q|] eqn:E; [|done]. rewrite Forall_forall in Hshape. symmetry. apply doc_shape_length, Hshape.
    by apply last_Some_elem_of. }
  unfold add_deltas. rewrite Hm, Hp, Hmx, Hn.
  assert (Z.of_nat (length (doc_metrics r) * D) <= 1000000) as Hsm by (apply Forall_cons in Hok as [Hr _]; apply (so_metrics r Hr)).
  match goal with |- context [for_ _ 0 ?body _] =>
    destruct (for_inv (fun k ds => length ds = (length (doc_metrics r) * D)%nat /\
        (forall i j, (i < length (doc_metrics r))%nat -> (j < length rest)%nat -> ds !! (i * D + j)%nat = Some (cell (r :: rest) i j)) /\
        (forall i, (i < k)%nat -> ds !! (i * D + length rest)%nat = Some (cell (r :: rest ++ [s]) i (length rest))))
      (length (doc_metrics s)) 0 body (_deltas c)) as (ds & -> & Hl & Hold & Hnew)
  end.
  - split_and!; [done|done|lia].
  - intros k ds Hk (Hl & Hold & Hnew). rewrite Z.add_0_l. assert (is_Some (doc_metrics s !! k)) as [x Hx] by (apply lookup_lt_is_Some; lia).
    assert (is_Some (doc_metrics p !! k)) as [y Hy] by (apply lookup_lt_is_Some; lia). rewrite (get_lookup _ _ _ Hx), (get_lookup _ _ _ Hy).
    cbn [mbind outcome_bind]. assert (k * D + length rest < length (doc_metrics r) * D)%nat by nia. assert (D <= length (doc_metrics r) * D)%nat by nia.
    rewrite wrapu_small, offset_eq, set_lookup by lia. eexists. split; [done|]. rewrite length_insert. split_and!; [done| |].
    + intros i j Hi Hj. rewrite list_lookup_insert_ne; [by apply Hold|]. intros He. apply (index_inj D) in He; lia.
    + intros i Hi. destruct (decide (i = k)) as [->|Hne].
      * rewrite list_lookup_insert_eq by lia. f_equal. unfold cell. f_equal. f_equal.
        -- symmetry. apply (mx_lookup _ _ _ s x); [|done]. change (r :: rest ++ [s]) with ((r :: rest) ++ [s]). by rewrite lookup_app_r, Nat.sub_diag by (cbn; lia).
        -- symmetry. apply (mx_lookup _ _ _ p y); [|done]. change (r :: rest ++ [s]) with ((r :: rest) ++ [s]). by rewrite lookup_app_l by (cbn; lia).
      * rewrite list_lookup_insert_ne; [apply Hnew; lia|]. intros He. apply (index_inj D) in He; lia.
  - exists ds. split_and!; [done|done|]. intros i j Hi Hj. destruct (decide (j = length rest)) as [->|Hne]; [apply Hnew; lia|].
    rewrite Hold, cell_app by lia. done.
Qed.

Lemma length_resize (k : nat) (l : list Z) : length (resize k l) = k.
Proof. unfold resize. rewrite length_app, length_take, length_replicate. lia. Qed.

(** A sample that becomes the reference. *)
Lemma reset_ready (c : FTDCCompressor) (s : list field) (date : Z) :
  sample_ok s -> _metrics c = doc_metrics s -> ready (_reset s date c) s [] /\ _referenceDocDate (_reset s date c) = date.
Proof.
  intros Hs Hm. split; [|done]. pose proof (so_metrics s Hs). assert (length (doc_metrics s) <= length (doc_metrics s) * D)%nat by nia.
  assert (wrapu 32 (maxSamplesPerArchiveMetricChunk - 1) = Z.of_nat D) as HmD by (rewrite Hconfig, wrapu_small; lia).
  assert (wrapu 32 (Z.of_nat (length (doc_metrics s))) = Z.of_nat (length (doc_metrics s))) as Hmc by (apply wrapu_small; lia).
  unfold ready, _reset. rewrite Hm, HmD, Hmc. split; [|split; [done|split; [done|cbn; lia]]].
  split; cbn; try done; [lia|by apply Forall_singleton| |lia]. rewrite length_resize. lia.
Qed.

(** The chunk that a call hands out is read back as the group before it. *)
Definition gives (o : outcome Status (option (bytes * CompressorState * Z))) (date : Z) (docs : list (list field)) : Prop :=
  exists chunk why, o = Ret (Some (chunk, why, date)) /\ chunk_of chunk docs.

Lemma addSample_first (c : FTDCCompressor) (s : list field) (date : Z) :
  idle c -> sample_ok s ->
  exists c', addSample s date c = (c', Ret None) /\ ready c' s [] /\ _referenceDocDate c' = date.
Proof.
  intros [Hr Hm] Hs. unfold addSample. rewrite bool_decide_eq_true_2 by done. rewrite extract_metrics by apply (so_depth s Hs).
  eexists. split; [done|]. apply reset_ready; [done|]. cbn. by rewrite Hm.
Qed.

Lemma addSample_next (c : FTDCCompressor) (r s : list field) (rest : list (list field)) (date : Z) :
  zlib_ok -> ready c r rest -> sample_ok s ->
  exists c' o, addSample s date c = (c', o) /\
    if doc_same_shape r s then
      if decide (S (length rest) = D) then gives o (_referenceDocDate c) (r :: (doc_like r <$> rest ++ [s])) /\ idle c'
      else o = Ret None /\ ready c' r (rest ++ [s]) /\ _referenceDocDate c' = _referenceDocDate c
    else gives o (_referenceDocDate c) (r :: (doc_like r <$> rest)) /\ ready c' s [] /\ _referenceDocDate c' = date.
Proof.
  intros Hz (Hh & Hm & Hp & Hlt) Hs. unfold addSample. pose proof Hh as [Href Hmc Hn Hmx Hle Hshape Hok Hlen Hcells].
  assert (r <> []) as Hne by (apply Forall_cons in Hok as [Hr _]; apply (so_nonempty r Hr)).
  rewrite Href, bool_decide_eq_false_2 by done. rewrite extract_metrics by apply (so_depth s Hs). cbn [app].
  assert (holds (set_metrics (doc_metrics s) c) r rest) as Hh' by (by split).
  destruct (doc_same_shape r s) eqn:Hsh.
  2:{ destruct (chunk_round_trip _ r rest Hz Hh') as (chunk & -> & Hu). eexists _, _. split; [done|].
      split; [by eexists _, _|]. by apply reset_ready. }
  destruct (add_deltas_eq (set_metrics (doc_metrics s) c) r s rest Hh' Hlt Hsh eq_refl Hp) as (ds & -> & Hld & Hds).
  cbn [_deltaCount set_metrics _referenceDoc _referenceDocDate _metricsCount _maxDeltas]. rewrite Hn, Hmx.
  replace (wrapu 32 (Z.of_nat (length rest) + 1)) with (Z.of_nat (S (length rest))) by (rewrite wrapu_small; lia).
  set (c1 := mkCompressor _ _ _ _ _ _ _ _). assert (holds c1 r (rest ++ [s])) as Hh1.
  { split; cbn; rewrite ?length_app; cbn [length]; try done; try lia.
    - apply Forall_app. split; [done|]. by apply Forall_singleton.
    - change (r :: rest ++ [s]) with ((r :: rest) ++ [s]). apply Forall_app. split; [done|]. by apply Forall_singleton.
    - intros i j Hi Hj. apply Hds; [done|lia]. }
  destruct (Z.eqb_spec (Z.of_nat (S (length rest))) (Z.of_nat D)) as [He|He].
  - destruct (chunk_round_trip c1 r (rest ++ [s]) Hz Hh1) as (chunk & -> & Hu). eexists _, _. split; [done|].
    rewrite decide_True by lia. split; [by eexists _, _|done].
  - eexists _, _. split; [done|]. rewrite decide_False by lia. split; [done|]. split; [|done]. split; [done|]. split; [done|].
    split; [cbn; by rewrite last_snoc|]. solve_length.
Qed.

End numbers.
(** ** A concrete instance *)

(** A [zlib] that stores. *)
Definition stored : ZLib :=
  mkZLib Z_OK (fun source _ => (Z_STREAM_END, source)) (fun _ _ _ => Z_OK) Z_OK (fun source n => (Z_STREAM_END, take n source)) (fun _ _ _ => Z_OK).

Lemma stored_ok : zlib_ok stored.
Proof.
  split; [done|]. split; [done|]. intros source Hs Hl. exists source. split; [done|]. split; [unfold bound; pose proof (Nat.div_le_lower_bound (length source * 101) 100 (length source)); lia|]. cbn [stored deflate inflate]. by rewrite take_ge by done.
Qed.

Definition demo_server : Server := mkServer true Validate.kV1_1 SD.LittleEndian (fun _ => 0).
Definition demo_sample (n : Z) : list field := [(lit "n", VLong n); (lit "up", VBool true)].

Lemma demo_sample_ok (n : Z) : 0 <= n < 2 ^ 63 -> sample_ok (fun _ => 0) (fun _ => 0) demo_server 3 (demo_sample n).
Proof.
  intros Hn. split; [done| | | | |].
  - apply Validate.valid_doc_has_decimal. split; [|done]. unfold demo_sample. apply Forall_cons. split; [split; [solve_wf|cbn; lia]|solve_wf].
  - vm_compute. lia.
  - by left.
  - vm_compute. discriminate.
  - unfold demo_sample. rewrite length_enc_obj, !enc_fields_cons, !length_app, !length_enc_elem. vm_compute. discriminate.
Qed.

Lemma damaged_chunks_witness : exists chunk, uncompress (fun _ => 0) (fun _ => 0) stored demo_server chunk = Fault.
Proof.
  destruct (damaged_chunks (fun _ => 0) (fun _ => 0) stored demo_server 3 (conj (Nat.lt_0_succ 2) eq_refl) (demo_sample 5) (2 ^ 31) stored_ok (demo_sample_ok 5 ltac:(lia)) ltac:(done) ltac:(lia))
    as (overrun & cut & _ & _ & H & _).
  eexists. apply H. vm_compute. reflexivity.
Defined.

End Ftdc.
