(* ===== verification/FtdcFile.v ===== *)
(** * Diagnostic data on disk

    [FTDCFileWriter] and [FTDCFileReader] of [db/ftdc]: the archive file of metadata and metric
    chunks and the interim file that holds the samples not archived yet. The operations that write
    to the directory can fail, as a list of faults decides; a crash leaves the directory as it is
    between two calls. *)
From S2P Require Import Prelude StringData Bson BsonValidate BsonDecode Varint Ftdc.

Module FtdcFile.
Import Ftdc.

(** ** Documents of the file ([util.cpp]) *)

Definition kFTDCIdField : bytes := lit "_id".
Definition kFTDCTypeField : bytes := lit "type".
Definition kFTDCDataField : bytes := lit "data".
Definition kFTDCDocField : bytes := lit "doc".

Inductive FTDCType := kMetadata | kMetricChunk.
Definition type_code (t : FTDCType) : Z := match t with kMetadata => 0 | kMetricChunk => 1 end.

Definition createBSONMetadataDocument (metadata : list field) (date : Z) : list field :=
  [(kFTDCIdField, VDate date); (kFTDCTypeField, VInt (type_code kMetadata)); (kFTDCDocField, VObject metadata)].
Definition createBSONMetricChunkDocument (buf : bytes) (date : Z) : list field :=
  [(kFTDCIdField, VDate date); (kFTDCTypeField, VInt (type_code kMetricChunk)); (kFTDCDataField, VBinData 0 buf)].

(** [bsonExtractField] and [bsonExtractTypedField]. *)
Definition bsonExtractField (fs : list field) (name : bytes) : outcome Status value :=
  match list_find (fun f : field => f.1 = name) fs with Some (_, f) => Ret f.2 | None => Throw NoSuchKey end.
Definition bsonExtractTypedField (fs : list field) (name : bytes) (type : Z) : outcome Status value :=
  v ← bsonExtractField fs name; _ ← require TypeMismatch (type =? type_of v); Ret v.

(** Whether a double has no fractional part. *)
Definition double_integral (raw : bytes) : bool :=
  let bits := le_decode raw in
  let exponent := Z.land (Z.shiftr bits 52) 2047 in
  let mantissa := if exponent =? 0 then Z.land bits (Z.ones 52) else Z.land bits (Z.ones 52) + 2 ^ 52 in
  let e := Z.max exponent 1 - 1075 in
  (0 <=? e) || (Z.land mantissa (Z.ones (- e)) =? 0).

(** ** The directory *)

Definition kFTDCInterimFile : bytes := lit "metrics.interim".
Definition kFTDCInterimTempFile : bytes := lit "metrics.interim.temp".
Definition kFTDCArchiveFile : bytes := lit "metrics".

(** The files of the directory, and what happens to the next operations that change it: [None]
    when the operation succeeds, [Some n] when it fails, a write after [n] bytes. Operations
    beyond the list succeed. *)
Record Disk := mkDisk { files : gmap bytes bytes; faults : list (option nat) }.

Definition attempt (d : Disk) : option nat * Disk :=
  match faults d with [] => (None, d) | f :: fs => (f, mkDisk (files d) fs) end.

Definition file_of (d : Disk) (file : bytes) : bytes := default [] (files d !! file).
Definition put (file : bytes) (contents : bytes) (d : Disk) : Disk := mkDisk (<[file := contents]> (files d)) (faults d).
Definition append (file : bytes) (l : bytes) (d : Disk) : Disk := put file (file_of d file ++ l) d.
Definition erase (file : bytes) (d : Disk) : Disk := mkDisk (delete file (files d)) (faults d).

(** [boost::filesystem::remove], which throws. *)
Definition remove (file : bytes) (d : Disk) : Disk * outcome Status unit :=
  let '(fault, d) := attempt d in match fault with Some _ => (d, Throw FilesystemError) | None => (erase file d, Ret tt) end.

Section files.
Variable outOfRange : bytes -> Z.
Variable toLong : bytes -> Z.
Variable z : ZLib.
Variable maxSamplesPerArchiveMetricChunk : Z.
Variable maxSamplesPerInterimMetricChunk : Z.
Variable server : Server.
(** The integer a decimal is exactly, if it is one. *)
Variable decimalInteger : bytes -> option Z.

(** [bsonExtractIntegerField]: the number must be an integer of 64 bits. *)
Definition bsonExtractIntegerField (fs : list field) (name : bytes) : outcome Status Z :=
  v ← bsonExtractField fs name;
  match v with
  | VInt n | VLong n => Ret n
  | VDouble raw => if double_integral raw then need BadValue (double_trunc raw) else Throw BadValue
  | VDecimal raw => need BadValue (decimalInteger raw)
  | _ => Throw TypeMismatch
  end.

Definition getBSONDocumentId (fs : list field) : outcome Status Z :=
  v ← bsonExtractTypedField fs kFTDCIdField T.Date; match v with VDate d => Ret d | _ => Fault end.

(** The cast to [FTDCType], an [int32_t]. *)
Definition getBSONDocumentType (fs : list field) : outcome Status FTDCType :=
  value ← bsonExtractIntegerField fs kFTDCTypeField;
  if wraps 32 value =? type_code kMetricChunk then Ret kMetricChunk
  else if wraps 32 value =? type_code kMetadata then Ret kMetadata
  else Throw BadValue.

Definition getBSONDocumentFromMetadataDoc (fs : list field) : outcome Status (list field) :=
  v ← bsonExtractTypedField fs kFTDCDocField T.Object; match v with VObject d => Ret d | _ => Fault end.

Definition getMetricsFromMetricDoc (fs : list field) : outcome Status (list (list field)) :=
  v ← bsonExtractTypedField fs kFTDCDataField T.BinData;
  match v with VBinData _ data => uncompress outOfRange toLong z server data | _ => Fault end.

(** ** The writer *)

Record FTDCFileWriter := mkWriter {
  _disk : Disk;
  _archiveFile : bytes;
  _isOpen : bool;
  _failed : bool;
  _compressor : FTDCCompressor;
  _size : Z;
  _sizeInterim : Z
}.

Definition set_disk (d : Disk) (w : FTDCFileWriter) : FTDCFileWriter :=
  mkWriter d (_archiveFile w) (_isOpen w) (_failed w) (_compressor w) (_size w) (_sizeInterim w).
Definition set_compressor (c : FTDCCompressor) (w : FTDCFileWriter) : FTDCFileWriter :=
  mkWriter (_disk w) (_archiveFile w) (_isOpen w) (_failed w) c (_size w) (_sizeInterim w).
Definition set_stream_state (isOpen failed : bool) (w : FTDCFileWriter) : FTDCFileWriter :=
  mkWriter (_disk w) (_archiveFile w) isOpen failed (_compressor w) (_size w) (_sizeInterim w).

Definition FTDCFileWriter_new (d : Disk) : FTDCFileWriter := mkWriter d [] false false FTDCCompressor_new 0 0.

(** [open]: appends to the file, which is created if there is none. *)
Definition open (file : bytes) (w : FTDCFileWriter) : FTDCFileWriter * outcome Status unit :=
  if _isOpen w then (w, Throw FileAlreadyOpen)
  else
    let '(fault, d) := attempt (_disk w) in
    match fault with
    | Some _ => (mkWriter d file false true (_compressor w) (_size w) (_sizeInterim w), Throw FileNotOpen)
    | None =>
        let contents := file_of d file in
        (mkWriter (put file contents d) file true false (reset maxSamplesPerArchiveMetricChunk (_compressor w)) (Z.of_nat (length contents)) 0, Ret tt)
    end.

(** The temporary file is opened, written and closed, then renamed. The write only reaches the
    file for sure when the stream is closed, and a failure then goes unnoticed. *)
Definition writeInterimFileBuffer (buf : bytes) (w : FTDCFileWriter) : FTDCFileWriter * outcome Status unit :=
  let '(fault, d) := attempt (_disk w) in
  match fault with
  | Some _ => (set_disk d w, Throw FileNotOpen)
  | None =>
      let '(fault, d) := attempt (put kFTDCInterimTempFile [] d) in
      match fault with
      | Some n => (set_disk (put kFTDCInterimTempFile (take n buf) d) w, Throw FileStreamFailed)
      | None =>
          let '(fault, d) := attempt d in
          let d := put kFTDCInterimTempFile (match fault with Some n => take n buf | None => buf end) d in
          let '(fault, d) := attempt d in
          match fault with
          | Some _ => (set_disk d w, Throw FileRenameFailed)
          | None =>
              let d := erase kFTDCInterimTempFile (put kFTDCInterimFile (file_of d kFTDCInterimTempFile) d) in
              (mkWriter d (_archiveFile w) (_isOpen w) (_failed w) (_compressor w) (_size w) (Z.of_nat (length buf)), Ret tt)
          end
      end
  end.

(** A stream that failed writes nothing more. *)
Definition writeArchiveFileBuffer (buf : bytes) (w : FTDCFileWriter) : FTDCFileWriter * outcome Status unit :=
  if negb (_isOpen w) || _failed w then (set_stream_state (_isOpen w) true w, Throw FileStreamFailed)
  else
    let '(fault, d) := attempt (_disk w) in
    match fault with
    | Some n => (set_stream_state true true (set_disk (append (_archiveFile w) (take n buf) d) w), Throw FileStreamFailed)
    | None => (mkWriter (append (_archiveFile w) buf d) (_archiveFile w) true false (_compressor w) (_size w + Z.of_nat (length buf)) (_sizeInterim w), Ret tt)
    end.

(** [boost::filesystem::remove(_interimFile)]. *)
Definition remove_interim (w : FTDCFileWriter) : FTDCFileWriter * outcome Status unit :=
  let '(d, s) := remove kFTDCInterimFile (_disk w) in (set_disk d w, s).

Definition writeMetadata (metadata : list field) (date : Z) (w : FTDCFileWriter) : FTDCFileWriter * outcome Status unit :=
  writeArchiveFileBuffer (enc_obj (createBSONMetadataDocument metadata date)) w.

(** [if (!s.isOK()) return s]. *)
Definition and_then {W : Type} (x : W * outcome Status unit) (f : W -> W * outcome Status unit) : W * outcome Status unit :=
  match x with (w, Ret _) => f w | (w, s) => (w, s) end.

Definition with_samples {W : Type} (w : W) (swBuf : outcome Status (bytes * Z)) (f : bytes -> W * outcome Status unit) : W * outcome Status unit :=
  match swBuf with
  | Ret (buf, date) => f (enc_obj (createBSONMetricChunkDocument buf date))
  | Throw s => (w, Throw s) | Fault => (w, Fault) | NoFuel => (w, NoFuel)
  end.

Definition flush (range : option bytes) (date : Z) (w : FTDCFileWriter) : FTDCFileWriter * outcome Status unit :=
  and_then
    (match range with
     | None =>
         if hasDataToFlush (_compressor w) then with_samples w (getCompressedSamples z (_compressor w)) (fun o => writeArchiveFileBuffer o w)
         else (w, Ret tt)
     | Some buf => writeArchiveFileBuffer (enc_obj (createBSONMetricChunkDocument buf date)) w
     end)
    remove_interim.

(** The parameter [maxSamplesPerInterimMetricChunk] is at least 2, so the remainder is defined. *)
Definition writeSample (sample : list field) (date : Z) (w : FTDCFileWriter) : FTDCFileWriter * outcome Status unit :=
  let '(c, ret) := addSample outOfRange toLong z maxSamplesPerArchiveMetricChunk sample date (_compressor w) in
  let w := set_compressor c w in
  match ret with
  | Ret (Some (buf, _, d)) => flush (Some buf) d w
  | Ret None =>
      if negb (_deltaCount c =? 0) && (_deltaCount c mod maxSamplesPerInterimMetricChunk =? 0) then
        with_samples w (getCompressedSamples z c) (fun o => writeInterimFileBuffer o w)
      else (w, Ret tt)
  | Throw s => (w, Throw s) | Fault => (w, Fault) | NoFuel => (w, NoFuel)
  end.

(** An exception leaves the stream open. *)
Definition close (w : FTDCFileWriter) : FTDCFileWriter * outcome Status unit :=
  if _isOpen w then
    match flush None 0 w with
    | (w, Throw FilesystemError) => (w, Throw FilesystemError)
    | (w, s) => (set_stream_state false (_failed w) w, s)
    end
  else (w, Ret tt).

Definition getSize (w : FTDCFileWriter) : Z := wrapu 64 (_size w + _sizeInterim w).

(** Samples one after the other, up to the first error. *)
Fixpoint writeSamples (samples : list (list field * Z)) (w : FTDCFileWriter) : FTDCFileWriter * outcome Status unit :=
  match samples with
  | [] => (w, Ret tt)
  | (s, date) :: samples => and_then (writeSample s date w) (writeSamples samples)
  end.

(** ** The reader *)

Inductive State := kNeedsDoc | kMetricChunkDocs | kMetadataDoc.

(** The rest of the stream and its [eof] flag, and the members. *)
Record FTDCFileReader := mkReader {
  _stream : bytes;
  _eof : bool;
  _fileSize : Z;
  _state : State;
  _docs : list (list field);
  _pos : nat;
  _dateId : Z;
  _metadata : list field
}.

Definition reader_open (file : bytes) : FTDCFileReader := mkReader file false (Z.of_nat (length file)) kNeedsDoc [] 0 0 [].

Definition set_stream (s : bytes) (eof : bool) (r : FTDCFileReader) : FTDCFileReader :=
  mkReader s eof (_fileSize r) (_state r) (_docs r) (_pos r) (_dateId r) (_metadata r).
Definition set_state (st : State) (r : FTDCFileReader) : FTDCFileReader :=
  mkReader (_stream r) (_eof r) (_fileSize r) st (_docs r) (_pos r) (_dateId r) (_metadata r).

(** [_stream.read]: what was read; fewer bytes than asked for set the flag. *)
Definition stream_read (n : nat) (r : FTDCFileReader) : bytes * FTDCFileReader :=
  (take n (_stream r), set_stream (drop n (_stream r)) (_eof r || (length (_stream r) <? n)%nat) r).

(** [readDocument]; the empty document stands for the end. *)
Definition readDocument (r : FTDCFileReader) : outcome Status (list field * FTDCFileReader) :=
  let '(buf, r) := stream_read 4 r in
  if negb (length buf =? 4)%nat then
    if (length buf =? 0)%nat && _eof r then Ret ([], r) else Throw FileStreamFailed
  else
    let bsonLength := le_decode buf in
    if bsonLength =? 0 then Ret ([], r)
    else if (_fileSize r <? bsonLength) || (bsonLength <? 5) then Throw InvalidLength
    else
      let readSize := Z.to_nat (bsonLength - 4) in
      let '(rest, r) := stream_read readSize r in
      if negb (length rest =? readSize)%nat then Throw FileStreamFailed
      else '(fs, _) ← read_object server (buf ++ rest); Ret (fs, r).

(** [getValue()] after [isOK()]: of the OK status there may be no value. *)
Definition getValue {A : Type} (sw : outcome Status A) : outcome Status A := match sw with Throw StatusOK => Fault | _ => sw end.

(** One round of [hasNext]; [None] goes on with the loop. *)
Definition hasNext_round (r : FTDCFileReader) : outcome Status (option bool * FTDCFileReader) :=
  match _state r with
  | kNeedsDoc =>
      if _eof r then Ret (Some false, r)
      else
        '(parent, r) ← readDocument r;
        if bool_decide (parent = []) then Ret (Some false, r)
        else
          type ← getBSONDocumentType parent;
          dateId ← getBSONDocumentId parent;
          match type with
          | kMetadata =>
              metadata ← getBSONDocumentFromMetadataDoc parent;
              Ret (Some true, mkReader (_stream r) (_eof r) (_fileSize r) kMetadataDoc (_docs r) (_pos r) dateId metadata)
          | kMetricChunk =>
              docs ← getValue (getMetricsFromMetricDoc parent);
              Ret (Some true, mkReader (_stream r) (_eof r) (_fileSize r) kMetricChunkDocs docs 0 dateId (_metadata r))
          end
  | kMetadataDoc => Ret (None, set_state kNeedsDoc r)
  | kMetricChunkDocs =>
      if (_pos r + 1 =? length (_docs r))%nat then Ret (None, set_state kNeedsDoc r)
      else Ret (Some true, mkReader (_stream r) (_eof r) (_fileSize r) (_state r) (_docs r) (_pos r + 1) (_dateId r) (_metadata r))
  end.

(** The loop goes on at most once. *)
Definition hasNext (r : FTDCFileReader) : outcome Status (bool * FTDCFileReader) :=
  '(b, r) ← hasNext_round r;
  match b with
  | Some b => Ret (b, r)
  | None => '(b, r) ← hasNext_round r; match b with Some b => Ret (b, r) | None => NoFuel end
  end.

Definition next (r : FTDCFileReader) : outcome Status (FTDCType * list field * Z) :=
  match _state r with
  | kMetadataDoc => Ret (kMetadata, _metadata r, _dateId r)
  | kMetricChunkDocs => match _docs r !! _pos r with Some d => Ret (kMetricChunk, d, _dateId r) | None => Fault end
  | kNeedsDoc => Fault
  end.

(** [while (hasNext()) next()]: the documents up to the end or the first error, and which of the
    two it was. *)
Fixpoint read_all (fuel : nat) (r : FTDCFileReader) : list (FTDCType * list field * Z) * outcome Status unit :=
  match fuel with
  | O => ([], NoFuel)
  | S fuel =>
      match ('(b, r) ← hasNext r; if b : bool then x ← next r; Ret (Some (x, r)) else Ret None) with
      | Ret (Some (x, r)) => let '(l, s) := read_all fuel r in (x :: l, s)
      | Ret None => ([], Ret tt)
      | Throw s => ([], Throw s) | Fault => ([], Fault) | NoFuel => ([], NoFuel)
      end
  end.

(** ** Reading a file *)

(** A document of the file and what the reader returns for it. *)
Inductive entry := Metadata (m : list field) (date : Z) | Chunk (chunk : bytes) (date : Z) (docs : list (list field)).

Definition entry_doc (e : entry) : list field :=
  match e with Metadata m date => createBSONMetadataDocument m date | Chunk chunk date _ => createBSONMetricChunkDocument chunk date end.
Definition entry_bytes (e : entry) : bytes := enc_obj (entry_doc e).
Definition items (e : entry) : list (FTDCType * list field * Z) :=
  match e with Metadata m date => [(kMetadata, m, date)] | Chunk _ date docs => (fun d => (kMetricChunk, d, date)) <$> docs end.

Definition date_ok (date : Z) : Prop := - 2 ^ 63 <= date < 2 ^ 63.

(** Entries that can be read: a metadata document of the accepted version that fits, or the chunk
    of at least one document. *)
Definition entry_ok (e : entry) : Prop :=
  match e with
  | Metadata m date =>
      date_ok date /\ Validate.valid_doc (enabledBSONVersion server) m /\ Decode.stray_ok (before server) m /\
      Z.of_nat (length (enc_obj m)) <= 10000000
  | Chunk chunk date docs => date_ok date /\ docs <> [] /\ chunk_of outOfRange toLong z server chunk docs
  end.

Lemma names_ok : name_ok kFTDCIdField /\ name_ok kFTDCTypeField /\ name_ok kFTDCDataField /\ name_ok kFTDCDocField.
Proof. unfold kFTDCIdField, kFTDCTypeField, kFTDCDataField, kFTDCDocField. split_and!; solve_wf. Qed.

(** The documents of the file are well-formed when what they hold is. *)
Lemma header_wf (date code : Z) (name : bytes) (v : value) :
  date_ok date -> 0 <= code <= 1 -> name_ok name -> wf_value v ->
  wf_doc [(kFTDCIdField, VDate date); (kFTDCTypeField, VInt code); (name, v)].
Proof.
  intros Hd Hc Hn Hv. destruct names_ok as (H1 & H2 & _). apply Forall_cons. split; [by split|]. apply Forall_cons. split; [split; [done|cbn; lia]|].
  apply Forall_singleton. by split.
Qed.

Lemma header_length (date code : Z) (name : bytes) (v : value) :
  length (enc_obj [(kFTDCIdField, VDate date); (kFTDCTypeField, VInt code); (name, v)]) = (30 + length name + length (enc_value v))%nat.
Proof.
  rewrite length_enc_obj, !enc_fields_cons, !length_app, !length_enc_elem. cbn [snd fst enc_value]. rewrite !length_le_encode.
  change (length (enc_fields [])) with 0%nat. change (length kFTDCIdField) with 3%nat. change (length kFTDCTypeField) with 4%nat. lia.
Qed.

Lemma entry_valid (e : entry) : entry_ok e ->
  Validate.valid_doc (enabledBSONVersion server) (entry_doc e) /\ Decode.stray_ok (before server) (entry_doc e) /\
  Z.of_nat (length (entry_bytes e)) <= BSONObjMaxInternalSize.
Proof.
  unfold BSONObjMaxInternalSize, entry_bytes. destruct names_ok as (H1 & H2 & H3 & H4). destruct e as [m date|chunk date docs]; cbn [entry_ok entry_doc].
  - intros (Hd & Hv & Hs & Hl). apply Validate.valid_doc_has_decimal in Hv as [Hwf Hdec]. unfold createBSONMetadataDocument. split_and!.
    + apply Validate.valid_doc_has_decimal. split; [apply header_wf; [done|cbn; lia|done|by apply wf_value_VObject]|].
      intros Hver. specialize (Hdec Hver). cbn [List.existsb snd Validate.has_decimal orb]. by rewrite Hdec.
    + destruct Hs as [Hs|Hs]; [by left|right]. unfold Decode.doc_has_min_key in *. cbn [List.existsb snd Decode.has_min_key orb]. by rewrite Hs.
    + rewrite header_length, enc_value_VObject. change (length kFTDCDocField) with 3%nat. lia.
  - intros (Hd & _ & _ & Hb & Hl). unfold createBSONMetricChunkDocument. split_and!.
    + apply Validate.valid_doc_has_decimal. split; [|done]. apply header_wf; [done|cbn; lia|done|]. split; [done|exact Hb].
    + by right.
    + rewrite header_length. cbn [enc_value]. rewrite !length_app, length_le_encode. change (length kFTDCDataField) with 4%nat. cbn [length]. lia.
Qed.

Lemma stream_read_app (l rest : bytes) (r : FTDCFileReader) :
  _stream r = l ++ rest -> stream_read (length l) r = (l, set_stream rest (_eof r) r).
Proof.
  intros Hs. unfold stream_read. rewrite Hs, take_app_length, drop_app_length, length_app.
  destruct (Nat.ltb_spec (length l + length rest) (length l)); [lia|]. by rewrite orb_false_r.
Qed.

Lemma readDocument_entry (e : entry) (rest : bytes) (r : FTDCFileReader) :
  entry_ok e -> _stream r = entry_bytes e ++ rest -> Z.of_nat (length (_stream r)) <= _fileSize r ->
  readDocument r = Ret (entry_doc e, set_stream rest (_eof r) r).
Proof.
  intros He Hs Hf. destruct (entry_valid e He) as (Hv & Hst & Hl). rewrite Hs, length_app in Hf. unfold BSONObjMaxInternalSize in Hl.
  pose proof (length_enc_obj (entry_doc e)) as Hlen. unfold entry_bytes in *.
  assert (exists body, enc_obj (entry_doc e) = le_encode 4 (Z.of_nat (length (enc_obj (entry_doc e)))) ++ body) as [body Hbody].
  { eexists. rewrite Hlen. unfold enc_obj at 1, wrap_doc. do 2 f_equal. lia. }
  set (len := length (enc_obj (entry_doc e))) in *. unfold readDocument.
  rewrite Hbody, <- app_assoc in Hs. pose proof (stream_read_app _ _ _ Hs) as Hr. rewrite length_le_encode in Hr. rewrite Hr.
  rewrite length_le_encode. cbn [Nat.eqb negb]. rewrite le_decode_encode. rewrite Z.mod_small by (change (256 ^ Z.of_nat 4) with (2 ^ 32); lia).
  cbn [set_stream _fileSize]. destruct (Z.eqb_spec (Z.of_nat len) 0); [lia|]. destruct (Z.ltb_spec (_fileSize r) (Z.of_nat len)), (Z.ltb_spec (Z.of_nat len) 5); try lia.
  cbn [orb]. assert (Z.to_nat (Z.of_nat len - 4) = length body) as ->.
  { assert (len = 4 + length body)%nat; [|lia]. unfold len. rewrite Hbody at 1. by rewrite length_app, length_le_encode. }
  rewrite (stream_read_app body rest) by done. rewrite Nat.eqb_refl. cbn [negb]. rewrite <- Hbody, <- (app_nil_r (enc_obj (entry_doc e))).
  rewrite read_object_eq; [|done|done|constructor|unfold BSONObjMaxInternalSize; cbn [length]; lia]. rewrite bind_Ret. done.
Qed.

(** What the reader does with an entry. *)
Definition loaded (e : entry) (rest : bytes) (r : FTDCFileReader) : FTDCFileReader :=
  match e with
  | Metadata m date => mkReader rest (_eof r) (_fileSize r) kMetadataDoc (_docs r) (_pos r) date m
  | Chunk _ date docs => mkReader rest (_eof r) (_fileSize r) kMetricChunkDocs docs 0 date (_metadata r)
  end.

Lemma hasNext_round_entry (e : entry) (rest : bytes) (r : FTDCFileReader) :
  entry_ok e -> _state r = kNeedsDoc -> _eof r = false -> _stream r = entry_bytes e ++ rest -> Z.of_nat (length (_stream r)) <= _fileSize r ->
  hasNext_round r = Ret (Some true, loaded e rest r).
Proof.
  intros He Hst Hef Hs Hf. unfold hasNext_round. rewrite Hst, Hef. rewrite (readDocument_entry e rest r He Hs Hf), bind_Ret. cbv beta iota.
  destruct e as [m date|chunk date docs]; cbn [entry_doc]; [done|]. destruct He as (_ & _ & Hc & _).
  rewrite bool_decide_eq_false_2 by done.
  assert (getBSONDocumentType (createBSONMetricChunkDocument chunk date) = Ret kMetricChunk) as -> by done.
  assert (getBSONDocumentId (createBSONMetricChunkDocument chunk date) = Ret date) as -> by done.
  assert (getMetricsFromMetricDoc (createBSONMetricChunkDocument chunk date) = Ret docs) as -> by exact Hc. done.
Qed.

(** The reader stands before a document of the file. *)
Definition at_boundary (r : FTDCFileReader) : Prop :=
  _eof r = false /\ match _state r with kMetricChunkDocs => (_pos r + 1)%nat = length (_docs r) | _ => True end.

Lemma hasNext_boundary (r : FTDCFileReader) (o : outcome Status (bool * FTDCFileReader)) :
  at_boundary r -> hasNext_round (set_state kNeedsDoc r) = ('(b, r) ← o; Ret (Some b, r)) -> hasNext r = o.
Proof.
  intros [Hef Hst] Hr.
  assert (('(b, r) ← hasNext_round (set_state kNeedsDoc r); match b with Some b => Ret (b, r) | None => NoFuel end) = o) as Ho
    by (rewrite Hr; by destruct o as [[]| | |]).
  unfold hasNext. destruct (_state r) eqn:E.
  - assert (set_state kNeedsDoc r = r) as Heq by (unfold set_state; rewrite <- E; by destruct r). rewrite Heq in Hr. rewrite Hr. by destruct o as [[]| | |].
  - assert (hasNext_round r = Ret (None, set_state kNeedsDoc r)) as ->
      by (unfold hasNext_round; rewrite E; by destruct (Nat.eqb_spec (_pos r + 1) (length (_docs r)))).
    by rewrite bind_Ret.
  - assert (hasNext_round r = Ret (None, set_state kNeedsDoc r)) as -> by (unfold hasNext_round; by rewrite E). by rewrite bind_Ret.
Qed.

(** Documents in front of what is read. *)
Definition emit (l : list (FTDCType * list field * Z)) (x : list (FTDCType * list field * Z) * outcome Status unit) :
  list (FTDCType * list field * Z) * outcome Status unit := (l ++ x.1, x.2).

Lemma read_all_next (k : nat) (r r' : FTDCFileReader) (x : FTDCType * list field * Z) :
  hasNext r = Ret (true, r') -> next r' = Ret x -> read_all (S k) r = emit [x] (read_all k r').
Proof. intros H1 H2. cbn [read_all]. rewrite H1, bind_Ret. cbv beta iota. rewrite H2, bind_Ret. by destruct (read_all k r'). Qed.

(** The rest of a chunk. *)
Lemma read_chunk (k : nat) (date : Z) (docs : list (list field)) : forall (more : list (list field)) (r : FTDCFileReader),
  _state r = kMetricChunkDocs -> _docs r = docs -> _dateId r = date -> drop (S (_pos r)) docs = more -> (_pos r < length docs)%nat ->
  read_all (length more + k) r =
    emit ((fun d => (kMetricChunk, d, date)) <$> more)
      (read_all k (mkReader (_stream r) (_eof r) (_fileSize r) kMetricChunkDocs docs (length docs - 1) date (_metadata r))).
Proof.
  intros more. induction more as [|d more IH]; intros r Hst Hds Hdt Hdrop Hp.
  - apply (f_equal length) in Hdrop. rewrite length_drop in Hdrop. cbn in Hdrop. cbn [length fmap list_fmap app Nat.add].
    assert (mkReader (_stream r) (_eof r) (_fileSize r) kMetricChunkDocs docs (length docs - 1) date (_metadata r) = r) as ->.
    { destruct r; cbn in *. subst. f_equal. lia. }
    by destruct (read_all k r).
  - assert (length docs - S (_pos r) = S (length more))%nat as Hl by (apply (f_equal length) in Hdrop; by rewrite length_drop in Hdrop).
    set (r1 := mkReader (_stream r) (_eof r) (_fileSize r) kMetricChunkDocs docs (S (_pos r)) date (_metadata r)).
    cbn [length Nat.add]. rewrite (read_all_next _ r r1 (kMetricChunk, d, date)).
    + rewrite (IH r1); [done|done|done|done| |cbn; lia].
      cbn [r1 _pos]. rewrite <- (Nat.add_1_r (S (_pos r))), <- drop_drop, Hdrop. done.
    + unfold hasNext, hasNext_round. rewrite Hst, Hds. destruct (Nat.eqb_spec (_pos r + 1) (length docs)); [lia|]. rewrite bind_Ret. cbv beta iota.
      unfold r1. by rewrite Hdt, Nat.add_1_r.
    + unfold next, r1. cbn. assert (docs !! S (_pos r) = Some d) as ->; [|done]. by rewrite <- (Nat.add_0_r (S (_pos r))), <- lookup_drop, Hdrop.
Qed.

Definition file_bytes (es : list entry) : bytes := List.concat (entry_bytes <$> es).
Definition file_items (es : list entry) : list (FTDCType * list field * Z) := List.concat (items <$> es).

(** The reader returns the documents of the entries at the front of a file, one after the other. *)
Lemma read_entry (e : entry) (rest : bytes) (r : FTDCFileReader) :
  entry_ok e -> at_boundary r -> _stream r = entry_bytes e ++ rest -> Z.of_nat (length (_stream r)) <= _fileSize r ->
  exists r', at_boundary r' /\ _stream r' = rest /\ _fileSize r' = _fileSize r /\
    forall k, read_all (length (items e) + k) r = emit (items e) (read_all k r').
Proof.
  intros He Hb Hs Hf.
  assert (hasNext r = Ret (true, loaded e rest r)) as Hn.
  { apply hasNext_boundary; [done|]. rewrite (hasNext_round_entry e rest); [|done|done|by destruct Hb|done|done]. destruct e; done. }
  destruct e as [m date|chunk date [|d docs]].
  - exists (loaded (Metadata m date) rest r). split_and!; [split; [by destruct Hb|done]|done|done|]. intros k. by apply read_all_next.
  - destruct He as (_ & ? & _). done.
  - exists (mkReader rest (_eof r) (_fileSize r) kMetricChunkDocs (d :: docs) (length docs) date (_metadata r)).
    split_and!; [split; [by destruct Hb|cbn; lia]|done|done|]. intros k. cbn [items fmap list_fmap length Nat.add].
    rewrite (read_all_next _ _ _ (kMetricChunk, d, date) Hn) by done. rewrite length_fmap.
    rewrite (read_chunk k date (d :: docs) docs); [|done|done|done|done|cbn; lia]. cbn [length loaded _stream _eof _fileSize _metadata].
    by rewrite Nat.sub_succ, Nat.sub_0_r.
Qed.

Lemma read_entries (es : list entry) (rest : bytes) : forall r : FTDCFileReader,
  Forall entry_ok es -> at_boundary r -> _stream r = file_bytes es ++ rest -> Z.of_nat (length (_stream r)) <= _fileSize r ->
  exists r', at_boundary r' /\ _stream r' = rest /\ _fileSize r' = _fileSize r /\
    forall k, read_all (length (file_items es) + k) r = emit (file_items es) (read_all k r').
Proof.
  induction es as [|e es IH]; intros r Hok Hb Hs Hf.
  { exists r. split_and!; [done|done|done|]. intros k. cbn. by destruct (read_all k r). }
  apply Forall_cons in Hok as [He Hok]. change (file_bytes (e :: es)) with (entry_bytes e ++ file_bytes es) in Hs. rewrite <- app_assoc in Hs.
  change (file_items (e :: es)) with (items e ++ file_items es).
  destruct (read_entry e (file_bytes es ++ rest) r He Hb Hs Hf) as (r1 & Hb1 & Hs1 & Hf1 & Hr1).
  destruct (IH r1 Hok Hb1 Hs1) as (r2 & Hb2 & Hs2 & Hf2 & Hr2); [rewrite Hs, (length_app (entry_bytes e)) in Hf; rewrite Hs1, Hf1; lia|].
  exists r2. split_and!; [done|done|congruence|]. intros k. rewrite length_app, <- Nat.add_assoc, Hr1, Hr2. unfold emit. cbn [fst snd]. by rewrite app_assoc.
Qed.

Lemma read_end (k : nat) (r : FTDCFileReader) : at_boundary r -> _stream r = [] -> read_all (S k) r = ([], Ret tt).
Proof.
  intros Hb Hs. cbn [read_all]. rewrite (hasNext_boundary r (Ret (false, set_stream [] true (set_state kNeedsDoc r)))); [done|done|]. unfold hasNext_round. cbn [set_state _state _eof]. destruct Hb as [-> _].
  unfold readDocument, stream_read. cbn [set_state _stream _eof]. rewrite Hs. cbn. rewrite orb_true_r. done.
Qed.

Lemma read_file (k : nat) (es : list entry) :
  Forall entry_ok es -> (length (file_items es) < k)%nat -> read_all k (reader_open (file_bytes es)) = (file_items es, Ret tt).
Proof.
  intros Hok Hk. destruct (read_entries es [] (reader_open (file_bytes es)) Hok) as (r & Hb & Hs & _ & Hr); [done|by rewrite app_nil_r|cbn; lia|].
  replace k with (length (file_items es) + S (k - S (length (file_items es))))%nat by lia. rewrite Hr, read_end by done. unfold emit. cbn. by rewrite app_nil_r.
Qed.

Lemma entry_length (e : entry) : entry_ok e -> le_decode (take 4 (entry_bytes e)) = Z.of_nat (length (entry_bytes e)).
Proof.
  intros He. destruct (entry_valid e He) as (_ & _ & Hl). unfold BSONObjMaxInternalSize, entry_bytes in *. rewrite length_enc_obj in *. unfold enc_obj, wrap_doc.
  rewrite take_app_length' by (by rewrite length_le_encode). rewrite le_decode_encode, Z.mod_small; [lia|]. change (256 ^ Z.of_nat 4) with (2 ^ 32). lia.
Qed.

(** A document of which only a part was written ends the file with an error. *)
Lemma readDocument_torn (e : entry) (n : nat) (r : FTDCFileReader) :
  entry_ok e -> (0 < n < length (entry_bytes e))%nat -> _stream r = take n (entry_bytes e) -> exists s, readDocument r = Throw s.
Proof.
  intros He Hn Hs. unfold readDocument, stream_read.
  assert (length (take n (entry_bytes e)) = n) as Hlen by (solve_length).
  rewrite Hs, length_take, Hlen. destruct (Nat.eqb_spec (4 `min` n) 4) as [H4|H4]; cbn [negb]; [|destruct (Nat.eqb_spec (4 `min` n) 0); [lia|cbn [andb]; eauto]].
  rewrite take_take, H4, (entry_length e He). cbn [set_stream _fileSize _stream].
  destruct (Z.eqb_spec (Z.of_nat (length (entry_bytes e))) 0); [lia|]. destruct (_ || _); [eauto|].
  rewrite length_take, length_drop, Hlen. destruct (Nat.eqb_spec (Z.to_nat (Z.of_nat (length (entry_bytes e)) - 4) `min` (n - 4)) (Z.to_nat (Z.of_nat (length (entry_bytes e)) - 4))) as [H5|H5]; [lia|].
  cbn [negb]. eauto.
Qed.

(** What the reader makes of a file whose last document may be cut off. *)
Lemma read_torn_file (k : nat) (es : list entry) (e : entry) (n : nat) :
  Forall entry_ok es -> entry_ok e -> (length (file_items es) + length (items e) < k)%nat ->
  exists l s, read_all k (reader_open (file_bytes es ++ take n (entry_bytes e))) = (l, s) /\
    (l = file_items es \/ l = file_items es ++ items e) /\ (s = Ret tt \/ exists e, s = Throw e).
Proof.
  intros Hok He Hk. destruct (decide (length (entry_bytes e) <= n)%nat) as [Hn|Hn].
  { exists (file_items (es ++ [e])), (Ret tt). unfold file_items, file_bytes in *. rewrite take_ge by done.
    rewrite fmap_app, List.concat_app. cbn [fmap list_fmap List.concat]. rewrite app_nil_r. split; [|by auto].
    pose proof (read_file k (es ++ [e])) as Hr. unfold file_items, file_bytes in Hr. rewrite !fmap_app, !List.concat_app in Hr. cbn [fmap list_fmap List.concat] in Hr.
    rewrite !app_nil_r in Hr. apply Hr; [apply Forall_app; by rewrite Forall_singleton|solve_length]. }
  destruct (read_entries es (take n (entry_bytes e)) (reader_open (file_bytes es ++ take n (entry_bytes e))) Hok) as (r & Hb & Hs & _ & Hr); [done|done|cbn; lia|].
  replace k with (length (file_items es) + S (k - S (length (file_items es))))%nat by lia. rewrite Hr.
  assert (exists s, read_all (S (k - S (length (file_items es)))) r = ([], s) /\ (s = Ret tt \/ exists e, s = Throw e)) as (s & -> & Hs').
  { destruct (decide (n = 0%nat)) as [->|Hn0]; [rewrite read_end by done; eauto|].
    destruct (readDocument_torn e n (set_state kNeedsDoc r) He) as [s Hd]; [lia|done|]. exists (Throw s). split; [|by eauto]. cbn [read_all].
    rewrite (hasNext_boundary r (Throw s)); [done|done|]. unfold hasNext_round. cbn [set_state _state _eof]. destruct Hb as [-> _].
    fold (set_state kNeedsDoc r). by rewrite Hd. }
  exists (file_items es), s. unfold emit. cbn. rewrite app_nil_r. auto.
Qed.

(** ** Writing a file *)

Variables (D I : nat).
Hypothesis HD : (0 < D)%nat /\ Z.of_nat D < 2 ^ 32 - 1.
Hypothesis Hconfig : maxSamplesPerArchiveMetricChunk = Z.of_nat D + 1.
Hypothesis HI : (0 < I)%nat /\ maxSamplesPerInterimMetricChunk = Z.of_nat I.
Hypothesis Hzlib : zlib_ok z.
#[local] Abbreviation sample_ok := (sample_ok outOfRange toLong server D).
#[local] Abbreviation ready := (ready outOfRange toLong server D).
#[local] Abbreviation doc_like := (doc_like outOfRange toLong).
#[local] Abbreviation same_metrics := (same_metrics outOfRange toLong).

(** The samples in the compressor: the reference, its date and the samples behind it. *)
Definition pending : Type := option (list field * Z * list (list field)).
Definition group_docs (r : list field) (rest : list (list field)) : list (list field) := r :: (doc_like r <$> rest).
Definition pending_items (p : pending) : list (FTDCType * list field * Z) :=
  match p with None => [] | Some (r, date, rest) => items (Chunk [] date (group_docs r rest)) end.

(** How many samples behind the reference the interim file holds. *)
Definition in_interim (rest : list (list field)) : nat := (length rest / I * I)%nat.

Definition interim_ok (f : option bytes) (r : list field) (date : Z) (rest : list (list field)) : Prop :=
  if decide (in_interim rest = 0%nat) then f = None
  else exists chunk, f = Some (entry_bytes (Chunk chunk date (group_docs r (take (in_interim rest) rest)))) /\
         entry_ok (Chunk chunk date (group_docs r (take (in_interim rest) rest))).

Definition _archive (w : FTDCFileWriter) : bytes := file_of (_disk w) (_archiveFile w).
Definition _interim (w : FTDCFileWriter) : option bytes := files (_disk w) !! kFTDCInterimFile.

(** No operation fails any more. *)
Definition calm (w : FTDCFileWriter) : Prop := faults (_disk w) = [].

Definition healthy (w : FTDCFileWriter) : Prop :=
  _isOpen w = true /\ _failed w = false /\ _archiveFile w <> kFTDCInterimFile /\ _archiveFile w <> kFTDCInterimTempFile.

(** The writer between two calls: what is archived and what is pending. *)
Definition logged (w : FTDCFileWriter) (es : list entry) (p : pending) : Prop :=
  healthy w /\ _archive w = file_bytes es /\ Forall entry_ok es /\
  match p with
  | None => idle (_compressor w)
  | Some (r, date, rest) => ready (_compressor w) r rest /\ _referenceDocDate (_compressor w) = date /\ date_ok date
  end.

(** A write to the archive failed: what is in the file is a part of the last entry. *)
Definition torn (w : FTDCFileWriter) (es es' : list entry) : Prop :=
  exists e n, es' = es ++ [e] /\ Forall entry_ok es' /\ _archive w = file_bytes es ++ take n (entry_bytes e).

Definition interim_inv (w : FTDCFileWriter) (p : pending) : Prop :=
  match p with None => _interim w = None | Some (r, date, rest) => interim_ok (_interim w) r date rest end.

(** What an operation leaves alone. *)
Definition frame (w w' : FTDCFileWriter) : Prop :=
  _archiveFile w' = _archiveFile w /\ (calm w -> calm w') /\
  (is_Some (files (_disk w) !! _archiveFile w) -> is_Some (files (_disk w') !! _archiveFile w')) /\
  (files (_disk w) !! kFTDCInterimTempFile = None -> calm w -> files (_disk w') !! kFTDCInterimTempFile = None) /\
  forall f, f <> _archiveFile w -> f <> kFTDCInterimFile -> f <> kFTDCInterimTempFile -> files (_disk w') !! f = files (_disk w) !! f.

(** What is kept of the sample [s] when the references are samples in [R]. *)
Definition kept (R : list field -> Prop) (s d : list field) : Prop :=
  d = s \/ exists r, R r /\ doc_same_shape r s = true /\ d = doc_like r s.

Lemma file_bytes_snoc (es : list entry) (e : entry) : file_bytes (es ++ [e]) = file_bytes es ++ entry_bytes e.
Proof. unfold file_bytes. rewrite fmap_app, concat_app. cbn. by rewrite app_nil_r. Qed.

Lemma file_items_snoc (es : list entry) (e : entry) : file_items (es ++ [e]) = file_items es ++ items e.
Proof. unfold file_items. rewrite fmap_app, concat_app. cbn. by rewrite app_nil_r. Qed.

#[global] Instance frame_reflexive : Reflexive frame.
Proof. by intros w. Qed.
#[global] Instance frame_transitive : Transitive frame.
Proof.
  intros w1 w2 w3 (Ha & Hc & Hs & Ht & Hf) (Ha' & Hc' & Hs' & Ht' & Hf'). split_and!; [congruence|auto|auto|auto|]. intros f H1 H2 H3. rewrite Hf', Hf; congruence.
Qed.

Lemma interim_names : kFTDCInterimFile <> kFTDCInterimTempFile.
Proof. done. Qed.

Ltac simpl_files :=
  repeat first [ rewrite lookup_insert_eq | rewrite lookup_delete_eq
               | rewrite lookup_insert_ne by (pose proof interim_names; congruence) | rewrite lookup_delete_ne by (pose proof interim_names; congruence) ].

Lemma append_file (file l : bytes) (fs : gmap bytes bytes) (flt flt' : list (option nat)) :
  file_of (append file l (mkDisk fs flt)) file = file_of (mkDisk fs flt') file ++ l.
Proof. unfold append, put, file_of. cbn [files]. by simpl_files. Qed.

Lemma archive_write (buf : bytes) (w : FTDCFileWriter) :
  healthy w ->
  exists w' s, writeArchiveFileBuffer buf w = (w', s) /\ frame w w' /\ _compressor w' = _compressor w /\ _interim w' = _interim w /\
    (s = Ret tt /\ healthy w' /\ _archive w' = _archive w ++ buf \/
     ~ calm w /\ s = Throw FileStreamFailed /\ exists n, _archive w' = _archive w ++ take n buf).
Proof.
  destruct w as [[fs flt] file o f c sz szi]. intros (Ho & Hf & H1 & H2). cbn [_isOpen _failed _archiveFile] in Ho, Hf, H1, H2. subst o f.
  unfold writeArchiveFileBuffer, _archive, _interim, calm, attempt. cbn [_isOpen _failed negb orb _disk faults].
  assert (forall l flt' c' sz' szi' fl, (flt = [] -> flt' = []) -> frame (mkWriter (mkDisk fs flt) file true false c sz szi) (mkWriter (append file l (mkDisk fs flt')) file true fl c' sz' szi')) as Hframe.
  { intros l flt' c' sz' szi' fl Hcalm. split_and!; [done|done|..]; cbn [_disk files append put _archiveFile]; intros; by simpl_files. }
  destruct flt as [|[n|] flt]; eexists _, _; (split; [done|]); cbn [_archiveFile _disk _compressor set_stream_state set_disk files].
  all: (split; [by apply Hframe|]); (split; [done|]); (split; [cbn [files append put]; by simpl_files|]).
  - left. split; [done|]. split; [done|]. by apply append_file.
  - right. split; [done|]. split; [done|]. exists n. by apply append_file.
  - left. split; [done|]. split; [done|]. by apply append_file.
Qed.

Lemma interim_remove (w : FTDCFileWriter) :
  healthy w ->
  exists w' s, remove_interim w = (w', s) /\ frame w w' /\ _compressor w' = _compressor w /\ healthy w' /\ _archive w' = _archive w /\
    (s = Ret tt /\ _interim w' = None \/ ~ calm w /\ s = Throw FilesystemError).
Proof.
  destruct w as [[fs flt] file o f c sz szi]. intros (Ho & Hf & H1 & H2). cbn [_isOpen _failed _archiveFile] in Ho, Hf, H1, H2. subst o f.
  unfold remove_interim, remove, attempt, _archive, _interim, calm, file_of. cbn [_disk faults].
  destruct flt as [|[n|] flt]; eexists _, _; (split; [done|]); cbn [_archiveFile _disk _compressor set_disk files erase].
  all: (split; [split_and!; [done|done|..]; cbn [_disk files erase set_disk _archiveFile]; intros; by simpl_files|]); (split; [done|]); (split; [done|]); simpl_files; auto.
Qed.

Lemma interim_write (buf : bytes) (w : FTDCFileWriter) :
  healthy w ->
  exists w' s, writeInterimFileBuffer buf w = (w', s) /\ frame w w' /\ _compressor w' = _compressor w /\ healthy w' /\ _archive w' = _archive w /\
    (s = Ret tt \/ ~ calm w /\ exists e, s = Throw e) /\ (calm w -> _interim w' = Some buf).
Proof.
  destruct w as [[fs flt] file o f c sz szi]. intros (Ho & Hf & H1 & H2). cbn [_isOpen _failed _archiveFile] in Ho, Hf, H1, H2. subst o f.
  unfold writeInterimFileBuffer, attempt, _archive, _interim, calm, file_of. cbn [_disk faults].
  destruct flt as [|[n|] [|[n1|] [|[n2|] [|[n3|] flt]]]]; cbn [faults put files set_disk _archiveFile].
  all: eexists _, _; (split; [done|]); cbn [_archiveFile _disk _compressor set_disk files erase put faults].
  all: (split; [split_and!; [done|done|..]; cbn [_disk files erase put faults set_disk _archiveFile]; unfold calm; cbn [_disk faults]; intros; by simpl_files|]).
  all: (split; [done|]); (split; [done|]); simpl_files; (split; [done|]); (split; [first [by left|right; by eauto]|done]).
Qed.

Lemma interim_ok_first (f : option bytes) (r : list field) (date : Z) : f = None -> interim_ok f r date [].
Proof. intros ->. unfold interim_ok, in_interim. cbn [length]. rewrite Nat.Div0.div_0_l. by rewrite decide_True. Qed.

Lemma in_interim_snoc (rest : list (list field)) (s : list field) :
  if decide (S (length rest) mod I = 0)%nat then in_interim (rest ++ [s]) = S (length rest) /\ in_interim (rest ++ [s]) <> 0%nat
  else in_interim (rest ++ [s]) = in_interim rest.
Proof.
  unfold in_interim. rewrite length_app. cbn [length]. rewrite Nat.add_1_r. pose proof (Nat.div_mod_eq (S (length rest)) I) as Hd.
  destruct (decide _) as [H0|H0]; [lia|]. f_equal. pose proof (Nat.mod_upper_bound (S (length rest)) I ltac:(lia)).
  apply (Nat.div_unique _ _ _ (S (length rest) mod I - 1)); lia.
Qed.

Lemma in_interim_le (rest : list (list field)) : (in_interim rest <= length rest)%nat.
Proof. unfold in_interim. rewrite Nat.mul_comm. apply Nat.Div0.mul_div_le. Qed.

(** The interim file after another sample. *)
Lemma write_interim (w : FTDCFileWriter) (c : FTDCCompressor) (r s : list field) (date : Z) (rest : list (list field)) :
  healthy w -> ready c r (rest ++ [s]) -> _referenceDocDate c = date -> date_ok date ->
  exists w' st,
    (if negb (_deltaCount c =? 0) && (_deltaCount c mod maxSamplesPerInterimMetricChunk =? 0) then
       with_samples (set_compressor c w) (getCompressedSamples z c) (fun o => writeInterimFileBuffer o (set_compressor c w))
     else (set_compressor c w, Ret tt)) = (w', st) /\
    frame w w' /\ _compressor w' = c /\ healthy w' /\ _archive w' = _archive w /\ (st = Ret tt \/ ~ calm w /\ exists e, st = Throw e) /\
    (calm w -> interim_ok (_interim w) r date rest \/ (S (length rest) mod I = 0)%nat -> interim_ok (_interim w') r date (rest ++ [s])).
Proof.
  intros Hh (Hc & _) Hd Hdok. pose proof (in_interim_snoc rest s) as Hin.
  assert (_deltaCount c = Z.of_nat (S (length rest))) as -> by (destruct Hc as [_ _ -> _ _ _ _ _ _]; solve_length).
  destruct HI as [HI0 ->]. destruct (Z.eqb_spec (Z.of_nat (S (length rest))) 0); [lia|]. cbn [negb andb]. rewrite <- Nat2Z.inj_mod.
  destruct (decide (S (length rest) mod I = 0)%nat) as [H0|H0]; destruct (Z.eqb_spec (Z.of_nat (S (length rest) mod I)) 0) as [H1|H1]; try lia.
  - destruct (chunk_round_trip outOfRange toLong z server D HD c r (rest ++ [s]) Hzlib Hc) as (chunk & -> & Hchunk). rewrite Hd.
    destruct (interim_write (enc_obj (createBSONMetricChunkDocument chunk date)) (set_compressor c w) Hh) as (w' & st & Hw & Hf & Hc' & Hh' & Ha & Hst & Hi).
    exists w', st. split; [exact Hw|]. split_and!; try done. intros Hcalm _. rewrite (Hi Hcalm). unfold interim_ok. destruct Hin as [Hin Hne]. rewrite decide_False by done.
    exists chunk. rewrite Hin, take_ge by (solve_length). done.
  - eexists _, _. split; [done|]. split_and!; try done; [by left|]. intros _ [Hint|?]; [|done]. unfold interim_ok in *. rewrite Hin.
    destruct (decide (in_interim rest = 0%nat)); [done|]. rewrite take_app_le by apply in_interim_le. done.
Qed.

(** Archiving a chunk. *)
Lemma flush_entry (w : FTDCFileWriter) (es : list entry) (e : entry) :
  healthy w -> _archive w = file_bytes es -> Forall entry_ok es -> entry_ok e ->
  exists w' s, and_then (writeArchiveFileBuffer (entry_bytes e) w) remove_interim = (w', s) /\ frame w w' /\ _compressor w' = _compressor w /\
    Forall entry_ok (es ++ [e]) /\
    (s = Ret tt /\ _interim w' = None /\ healthy w' /\ _archive w' = file_bytes (es ++ [e]) \/
     ~ calm w /\ (exists err, s = Throw err) /\ (healthy w' /\ _archive w' = file_bytes (es ++ [e]) \/ torn w' es (es ++ [e]))).
Proof.
  intros Hh Ha Hes He. assert (Forall entry_ok (es ++ [e])) as Hes' by (apply Forall_app; by rewrite Forall_singleton).
  destruct (archive_write (entry_bytes e) w Hh) as (w1 & s1 & -> & Hf1 & Hc1 & Hi1 & [(-> & Hh1 & Ha1)|(Hn & -> & n & Ha1)]).
  - destruct (interim_remove w1 Hh1) as (w2 & s2 & Hr & Hf2 & Hc2 & Hh2 & Ha2 & Hs2). exists w2, s2. cbn [and_then].
    assert (_archive w2 = file_bytes (es ++ [e])) as Ha' by (by rewrite Ha2, Ha1, Ha, file_bytes_snoc).
    split; [done|]. split; [by etrans|]. split; [congruence|]. split; [done|]. destruct Hs2 as [[-> Hi2]|[Hn ->]]; [by left|right].
    split; [intros Hcalm; by apply Hn, Hf1|]. eauto.
  - exists w1, (Throw FileStreamFailed). split; [done|]. split; [done|]. split; [done|]. split; [done|]. right. split; [done|]. split; [eauto|]. right.
    exists e, n. by rewrite Ha1, Ha.
Qed.

Lemma items_snoc (date : Z) (r s : list field) (rest : list (list field)) (c c' : bytes) :
  items (Chunk c date (group_docs r (rest ++ [s]))) = items (Chunk c' date (group_docs r rest)) ++ [(kMetricChunk, doc_like r s, date)].
Proof. cbn [items group_docs fmap list_fmap]. by rewrite !fmap_app. Qed.

(** What is true after an operation that takes the log from [es] to [es'] and [p']: it succeeded,
    or a fault stopped it. *)
Definition result (w w' : FTDCFileWriter) (s : outcome Status unit) (es es' : list entry) (p' : pending) : Prop :=
  frame w w' /\
  (s = Ret tt /\ logged w' es' p' \/ ~ calm w /\ (exists err, s = Throw err) /\ (logged w' es' p' \/ torn w' es es')).

Lemma flush_result (w : FTDCFileWriter) (es : list entry) (chunk : bytes) (date : Z) (docs : list (list field)) (p' : pending) :
  healthy w -> _archive w = file_bytes es -> Forall entry_ok es -> entry_ok (Chunk chunk date docs) ->
  match p' with
  | None => idle (_compressor w)
  | Some (r, date, rest) => ready (_compressor w) r rest /\ _referenceDocDate (_compressor w) = date /\ date_ok date
  end ->
  exists w' s, flush (Some chunk) date w = (w', s) /\ result w w' s es (es ++ [Chunk chunk date docs]) p' /\ (s = Ret tt -> _interim w' = None).
Proof.
  intros Hh Ha Hes He Hp. destruct (flush_entry w es (Chunk chunk date docs) Hh Ha Hes He) as (w' & s & Hw & Hf & Hc & Hes' & Hs).
  exists w', s. split; [exact Hw|]. rewrite <- Hc in Hp. split.
  - split; [done|]. destruct Hs as [(-> & Hi & Hh' & Ha')|(Hn & Herr & Hs)]; [by left|right]. split; [done|]. split; [done|].
    destruct Hs as [[Hh' Ha']|]; [by left|by right].
  - intros ->. destruct Hs as [(_ & Hi & _)|(_ & [err Herr] & _)]; [done|done].
Qed.

Definition pending_in (R : list field -> Prop) (p : pending) : Prop := match p with Some (r, _, rest) => Forall R (r :: rest) | None => True end.

(** A sample is logged: the documents on disk and pending grow by one. *)
Definition sampled (R : list field -> Prop) (es : list entry) (p : pending) (s : list field) (es' : list entry) (p' : pending) : Prop :=
  es `prefix_of` es' /\ pending_in R p' /\
  exists d dt, file_items es' ++ pending_items p' = (file_items es ++ pending_items p) ++ [(kMetricChunk, d, dt)] /\ kept R s d.

Lemma writeSample_first (R : list field -> Prop) (w : FTDCFileWriter) (es : list entry) (s : list field) (date : Z) :
  logged w es None -> sample_ok s -> date_ok date -> R s ->
  exists w', writeSample s date w = (w', Ret tt) /\ frame w w' /\ logged w' es (Some (s, date, [])) /\ _interim w' = _interim w /\
    sampled R es None s es (Some (s, date, [])).
Proof.
  intros (Hh & Ha & Hes & Hidle) Hs Hdate HR. unfold writeSample.
  destruct (addSample_first outOfRange toLong z maxSamplesPerArchiveMetricChunk server D HD Hconfig (_compressor w) s date Hidle Hs) as (c & -> & Hready & Hd).
  assert (_deltaCount c = 0) as -> by (destruct Hready as ([_ _ -> _ _ _ _ _ _] & _); done). cbn [Z.eqb negb andb].
  eexists _. split; [done|]. split; [done|]. split; [done|]. split; [done|]. split; [done|]. split; [by apply Forall_singleton|]. exists s, date. cbn [pending_items]. rewrite app_nil_r. split; [done|by left].
Qed.

Lemma writeSample_next (R : list field -> Prop) (w : FTDCFileWriter) (es : list entry) (r s : list field) (d0 date : Z) (rest : list (list field)) :
  logged w es (Some (r, d0, rest)) -> sample_ok s -> date_ok date -> R s -> Forall R (r :: rest) ->
  exists w' st es' p', writeSample s date w = (w', st) /\ result w w' st es es' p' /\ sampled R es (Some (r, d0, rest)) s es' p' /\
    (calm w -> interim_inv w (Some (r, d0, rest)) -> interim_inv w' p').
Proof.
  intros (Hh & Ha & Hes & Hready & Hd0 & Hdok) Hs Hdate HR HRr. assert (R r) as HR0 by (by apply Forall_cons in HRr as [? _]). unfold writeSample.
  destruct (addSample_next outOfRange toLong z maxSamplesPerArchiveMetricChunk server D HD Hconfig (_compressor w) r s rest date Hzlib Hready Hs) as (c & o & -> & Hc).
  destruct (doc_same_shape r s) eqn:Hsh; [destruct (decide (S (length rest) = D))|].
  - destruct Hc as [(chunk & why & -> & Hchunk) Hidle]. rewrite Hd0.
    destruct (flush_result (set_compressor c w) es chunk d0 (group_docs r (rest ++ [s])) None Hh Ha Hes ltac:(done) Hidle) as (w' & st & -> & Hres & Hi).
    exists w', st, (es ++ [Chunk chunk d0 (group_docs r (rest ++ [s]))]), None. split; [done|]. split; [done|]. split.
    + split; [by apply prefix_app_r|]. split; [done|]. exists (doc_like r s), d0. split; [|right; eauto].
      rewrite file_items_snoc, (items_snoc _ _ _ _ _ []). cbn [pending_items]. by rewrite app_nil_r, app_assoc.
    + intros Hcalm _. apply Hi. destruct Hres as [_ [[? _]|[? _]]]; done.
  - destruct Hc as (-> & Hready' & Hd'). rewrite Hd0 in Hd'.
    destruct (write_interim w c r s d0 rest Hh Hready' Hd' Hdok) as (w' & st & -> & Hf & Hc' & Hh' & Ha' & Hst & Hint).
    exists w', st, es, (Some (r, d0, rest ++ [s])). split; [done|]. split; [|split; [|intros Hcalm Hi; apply Hint; [done|by left]]].
    + split; [done|]. assert (logged w' es (Some (r, d0, rest ++ [s]))) as Hl by (split; [done|]; rewrite Ha', Hc'; done).
      destruct Hst as [->|[Hn Herr]]; [by left|right; auto].
    + split; [done|]. split; [apply (Forall_app _ (r :: rest)); by rewrite Forall_singleton|]. exists (doc_like r s), d0. split; [|right; eauto]. cbn [pending_items]. by rewrite (items_snoc _ _ _ _ _ []), app_assoc.
  - destruct Hc as [(chunk & why & -> & Hchunk) [Hready' Hd']]. rewrite Hd0.
    destruct (flush_result (set_compressor c w) es chunk d0 (group_docs r rest) (Some (s, date, [])) Hh Ha Hes ltac:(done) ltac:(done)) as (w' & st & -> & Hres & Hi).
    exists w', st, (es ++ [Chunk chunk d0 (group_docs r rest)]), (Some (s, date, [])). split; [done|]. split; [done|]. split.
    + split; [by apply prefix_app_r|]. split; [by apply Forall_singleton|]. exists s, date. split; [|by left]. by rewrite file_items_snoc.
    + intros Hcalm _. apply interim_ok_first, Hi. destruct Hres as [_ [[? _]|[? _]]]; done.
Qed.

(** A sample that joins the pending chunk. *)
Lemma writeSample_same (w : FTDCFileWriter) (es : list entry) (r s : list field) (d0 date : Z) (rest : list (list field)) :
  logged w es (Some (r, d0, rest)) -> calm w -> sample_ok s -> doc_same_shape r s = true -> (S (length rest) < D)%nat ->
  exists w', writeSample s date w = (w', Ret tt) /\ frame w w' /\ logged w' es (Some (r, d0, rest ++ [s])) /\
    ((S (length rest) mod I = 0)%nat -> interim_ok (_interim w') r d0 (rest ++ [s])).
Proof.
  intros (Hh & Ha & Hes & Hready & Hd0 & Hdok) Hcalm Hs Hsh Hlt. unfold writeSample.
  destruct (addSample_next outOfRange toLong z maxSamplesPerArchiveMetricChunk server D HD Hconfig (_compressor w) r s rest date Hzlib Hready Hs) as (c & o & -> & Hc).
  rewrite Hsh in Hc. destruct (decide (S (length rest) = D)); [lia|]. destruct Hc as (-> & Hready' & Hd'). rewrite Hd0 in Hd'.
  destruct (write_interim w c r s d0 rest Hh Hready' Hd' Hdok) as (w' & st & -> & Hf & Hc' & Hh' & Ha' & [->|[Hn _]] & Hint); [|done].
  exists w'. split; [done|]. split; [done|]. split; [split; [done|]; rewrite Ha', Hc'; done|auto].
Qed.

Lemma writeSample_ok (R : list field -> Prop) (w : FTDCFileWriter) (es : list entry) (p : pending) (s : list field) (date : Z) :
  logged w es p -> sample_ok s -> date_ok date -> R s -> pending_in R p ->
  exists w' st es' p', writeSample s date w = (w', st) /\ result w w' st es es' p' /\ sampled R es p s es' p' /\
    (calm w -> interim_inv w p -> interim_inv w' p').
Proof.
  intros Hl Hs Hd HR Hp. destruct p as [[[r d0] rest]|]; [by apply writeSample_next|].
  destruct (writeSample_first R w es s date Hl Hs Hd HR) as (w' & Hw & Hf & Hl' & Hi & Hsam). exists w', (Ret tt), es, (Some (s, date, [])). split; [done|]. split; [split; [done|by left]|].
  split; [done|]. intros _ Hint. apply interim_ok_first. by rewrite Hi.
Qed.

Definition metric_item (x : list field * Z) : FTDCType * list field * Z := (kMetricChunk, x.1, x.2).

(** The documents for the first samples, behind what was there before. *)
Definition samples_logged (R : list field -> Prop) (es : list entry) (p : pending) (samples : list (list field * Z))
    (docs : list (list field * Z)) (es' : list entry) (p' : pending) : Prop :=
  es `prefix_of` es' /\ pending_in R p' /\ file_items es' ++ pending_items p' = (file_items es ++ pending_items p) ++ (metric_item <$> docs) /\
  Forall2 (fun s d => kept R s.1 d.1) (take (length docs) samples) docs.

Lemma pending_length (w : FTDCFileWriter) (es : list entry) (p : pending) : logged w es p -> (length (pending_items p) <= D)%nat.
Proof.
  intros (_ & _ & _ & Hp). destruct p as [[[r date] rest]|]; cbn [pending_items length]; [|lia].
  destruct Hp as ((_ & _ & _ & Hlt) & _). unfold items, group_docs. cbn [fmap list_fmap length]. rewrite !length_fmap. lia.
Qed.

(** The log when a fault has stopped the writer at a sample: at most the samples that were
    pending, and this one, are not in the archive. *)
Definition stopped (w' : FTDCFileWriter) (es es' : list entry) (p' : pending) : Prop :=
  logged w' es' p' \/
  exists es0, es `prefix_of` es0 /\ torn w' es0 es' /\
    (length (file_items es') + length (pending_items p') <= S (length (file_items es0) + D))%nat.

Lemma writeSamples_ok (R : list field -> Prop) (samples : list (list field * Z)) : forall (w : FTDCFileWriter) (es : list entry) (p : pending),
  logged w es p -> Forall (fun x => sample_ok x.1 /\ date_ok x.2 /\ R x.1) samples -> pending_in R p ->
  exists w' st es' p' docs, writeSamples samples w = (w', st) /\ frame w w' /\ samples_logged R es p samples docs es' p' /\
    (calm w -> interim_inv w p -> interim_inv w' p') /\
    (st = Ret tt /\ length docs = length samples /\ logged w' es' p' \/
     ~ calm w /\ (exists err, st = Throw err) /\ stopped w' es es' p' /\
       (forall n, (length docs <= n)%nat -> exists err, (writeSamples (take n samples) w).2 = Throw err)).
Proof.
  induction samples as [|[s date] samples IH]; intros w es p Hw Hok HR.
  { exists w, (Ret tt), es, p, []. split; [done|]. split; [done|]. split; [split_and!; [done|done|by rewrite app_nil_r|done]|]. split; [done|by left]. }
  apply Forall_cons in Hok as [(Hs & Hd & HRs) Hok]. cbn [fst snd] in *.
  destruct (writeSample_ok R w es p s date Hw Hs Hd HRs HR) as (w1 & st1 & es1 & p1 & Hw1 & [Hf1 Hr1] & (Hpre & HR1 & d & dt & Hi & Hk) & Hint1).
  cbn [writeSamples]. rewrite Hw1. destruct Hr1 as [[-> Hl1]|(Hn & [err ->] & Hl1)]; cbn [and_then].
  - destruct (IH w1 es1 p1 Hl1 Hok HR1) as (w2 & st & es2 & p2 & docs & Hw2 & Hf2 & (Hpre2 & HR2 & Hi2 & Hk2) & Hint2 & Hr2).
    exists w2, st, es2, p2, ((d, dt) :: docs). split; [done|]. split; [by etrans|]. split; [|split].
    + split; [by etrans|]. split; [done|]. rewrite Hi2, Hi, <- app_assoc. split; [done|]. by constructor.
    + intros Hc Hint. apply Hint2; [by apply Hf1|auto].
    + destruct Hr2 as [(-> & Hlen & Hl)|(Hn & Herr & Hl & Hfirst)]; [left; cbn; auto|right]. split; [intros Hc; by apply Hn, Hf1|]. split; [done|]. split.
      * destruct Hl as [|(es0 & Hp0 & Ht)]; [by left|right]. exists es0. split; [by etrans|done].
      * intros [|n] Hle; cbn [length] in Hle; [lia|]. cbn [take writeSamples]. rewrite Hw1. cbn [and_then]. apply Hfirst. lia.
  - exists w1, (Throw err), es1, p1, [(d, dt)]. split; [done|]. split; [done|]. split; [|split; [done|]].
    + split; [done|]. split; [done|]. rewrite Hi. split; [done|]. cbn [length take]. by constructor.
    + right. split; [done|]. split; [eauto|]. split.
      * destruct Hl1 as [|Ht]; [by left|right]. exists es. split; [done|]. split; [done|]. rewrite <- length_app, Hi, !length_app. cbn [length].
        pose proof (pending_length w es p Hw). lia.
      * intros [|n] Hle; cbn [length] in Hle; [lia|]. cbn [take writeSamples]. rewrite Hw1. cbn [and_then snd]. eauto.
Qed.

(** ** Opening and closing *)

Lemma open_ok (name : bytes) (w : FTDCFileWriter) (es : list entry) :
  _isOpen w = false -> name <> kFTDCInterimFile -> name <> kFTDCInterimTempFile -> Forall entry_ok es -> file_of (_disk w) name = file_bytes es ->
  exists w' st, open name w = (w', st) /\ (calm w -> calm w') /\ _archiveFile w' = name /\
    (forall f, f <> name -> files (_disk w') !! f = files (_disk w) !! f) /\
    (st = Ret tt /\ logged w' es None /\ is_Some (files (_disk w') !! name) \/ ~ calm w /\ st = Throw FileNotOpen /\ _archive w' = file_bytes es).
Proof.
  intros Ho H1 H2 Hes Hf. unfold open. rewrite Ho. unfold attempt, calm. destruct w as [[fs [|[n|] flt]] file o f c sz szi]; cbn [_disk faults]; eexists _, _; (split; [done|]).
  all: split_and!; [done|done|intros; cbn [_disk files put]; by simpl_files|].
  - left. split; [done|]. split; [split; [done|]; split; [unfold _archive, file_of; cbn [_disk _archiveFile files put]; by simpl_files|done]|]. cbn [_disk files put]. by simpl_files.
  - by right.
  - left. split; [done|]. split; [split; [done|]; split; [unfold _archive, file_of; cbn [_disk _archiveFile files put]; by simpl_files|done]|]. cbn [_disk files put]. by simpl_files.
Qed.

Lemma writeMetadata_ok (m : list field) (date : Z) (w : FTDCFileWriter) (es : list entry) (p : pending) :
  logged w es p -> entry_ok (Metadata m date) ->
  exists w' st, writeMetadata m date w = (w', st) /\ frame w w' /\ _interim w' = _interim w /\
    (st = Ret tt /\ logged w' (es ++ [Metadata m date]) p \/ ~ calm w /\ (exists err, st = Throw err) /\ torn w' es (es ++ [Metadata m date])).
Proof.
  intros (Hh & Ha & Hes & Hp) Hm. assert (Forall entry_ok (es ++ [Metadata m date])) as Hes' by (apply Forall_app; by rewrite Forall_singleton).
  destruct (archive_write (entry_bytes (Metadata m date)) w Hh) as (w' & st & Hw & Hf & Hc & Hi & Hst). exists w', st. split; [exact Hw|]. split; [done|]. split; [done|].
  destruct Hst as [(-> & Hh' & Ha')|(Hn & -> & n & Ha')]; [left|right].
  - split; [done|]. split; [done|]. rewrite Ha', Ha, file_bytes_snoc, Hc. done.
  - split; [done|]. split; [eauto|]. exists (Metadata m date), n. by rewrite Ha', Ha.
Qed.

Lemma close_ok (w : FTDCFileWriter) (es : list entry) (p : pending) :
  logged w es p ->
  exists w' s es', close w = (w', s) /\ frame w w' /\ Forall entry_ok es' /\ es `prefix_of` es' /\ file_items es' = file_items es ++ pending_items p /\
    (s = Ret tt /\ _isOpen w' = false /\ _interim w' = None /\ _archive w' = file_bytes es' \/
     ~ calm w /\ (exists err, s = Throw err) /\ (_archive w' = file_bytes es' \/ torn w' es es')).
Proof.
  intros (Hh & Ha & Hes & Hp). unfold close. assert (_isOpen w = true) as -> by apply Hh.
  assert (exists w' s es', flush None 0 w = (w', s) /\ frame w w' /\ Forall entry_ok es' /\ es `prefix_of` es' /\ file_items es' = file_items es ++ pending_items p /\
    (s = Ret tt /\ _interim w' = None /\ _archive w' = file_bytes es' \/
     ~ calm w /\ (exists err, s = Throw err) /\ (_archive w' = file_bytes es' \/ torn w' es es'))) as (w' & s & es' & -> & Hf & Hes' & Hpre & Hi & Hs).
  { unfold flush, hasDataToFlush. destruct p as [[[r date] rest]|].
    - destruct Hp as ((Hc & _) & Hd & Hdok).
      destruct (chunk_round_trip outOfRange toLong z server D HD (_compressor w) r rest Hzlib Hc) as (chunk & -> & Hu).
      rewrite bool_decide_eq_false_2; [|destruct Hc as [-> _ _ _ _ _ Hok _ _]; apply Forall_cons in Hok as [Hr _]; apply (so_nonempty _ _ _ _ r Hr)].
      destruct (flush_entry w es (Chunk chunk date (group_docs r rest)) Hh Ha Hes ltac:(done)) as (w' & s & Hw & Hf & _ & Hes' & Hs).
      exists w', s, (es ++ [Chunk chunk date (group_docs r rest)]). rewrite Hd. split; [exact Hw|]. split; [done|]. split; [done|]. split; [by apply prefix_app_r|]. split; [by rewrite file_items_snoc|].
      destruct Hs as [(-> & Hi & _ & Ha')|(Hn & Herr & [[_ Ha']|Ht])]; auto 10.
    - destruct Hp as [-> _]. rewrite bool_decide_eq_true_2 by done. cbn [negb and_then].
      destruct (interim_remove w Hh) as (w' & s & Hr & Hf & _ & _ & Ha' & Hs). exists w', s, es. split; [done|]. split; [done|]. split; [done|]. split; [done|]. cbn [pending_items]. rewrite app_nil_r, Ha', Ha.
      split; [done|]. destruct Hs as [[-> Hi]|[Hn ->]]; [by left|right]. eauto 10. }
  destruct Hs as [(-> & Hi' & Ha')|(Hn & [err ->] & Ha')].
  - exists (set_stream_state false (_failed w') w'), (Ret tt), es'. split_and!; try done. by left.
  - destruct err; eexists _, _, es'; (split; [done|]); (split; [done|]); (split; [done|]); (split; [done|]); (split; [done|]); right; (split; [done|]); (split; [by eauto|done]).
Qed.

Lemma kept_same (R : list field -> Prop) (s d : list field) : kept R s d -> same_metrics s d.
Proof. intros [->|(r & _ & Hsh & ->)]; [apply same_metrics_refl|by apply like_same]. Qed.

Lemma kept_unchanged (R : list field -> Prop) (s d : list field) : (forall r, R r -> doc_unchanged r s) -> kept R s d -> d = s.
Proof. intros Hu [->|(r & HR & _ & ->)]; [done|]. by apply like_unchanged, Hu. Qed.

Lemma kept_all_unchanged (R : list field -> Prop) (samples docs : list (list field * Z)) :
  (forall r s, R r -> R s -> doc_unchanged r s) -> Forall R samples.*1 -> Forall2 (fun s d => kept R s.1 d.1) samples docs -> docs.*1 = samples.*1.
Proof.
  intros Hu Hin Hk. induction Hk as [|s d l docs Hk _ IH]; [done|]. cbn [fmap list_fmap] in *. apply Forall_cons in Hin as [Hs Hin].
  rewrite (IH Hin). f_equal. apply (kept_unchanged R); [|done]. intros r Hr. by apply Hu.
Qed.

(** ** A file from its beginning *)

(** A new file of the directory, with its metadata. *)
Definition new_file (name : bytes) (m : list field) (date : Z) (d : Disk) : FTDCFileWriter * outcome Status unit :=
  and_then (open name (FTDCFileWriter_new d)) (writeMetadata m date).

(** The name and the directory allow it, and so do the samples. *)
Record run_ok (name : bytes) (m : list field) (date : Z) (samples : list (list field * Z)) (d : Disk) : Prop := {
  ro_interim : name <> kFTDCInterimFile;
  ro_temp : name <> kFTDCInterimTempFile;
  ro_new : file_of d name = [];
  ro_metadata : entry_ok (Metadata m date);
  ro_samples : Forall (fun x => sample_ok x.1 /\ date_ok x.2) samples
}.

Lemma new_file_ok (name : bytes) (m : list field) (date : Z) (samples : list (list field * Z)) (d : Disk) :
  run_ok name m date samples d ->
  exists w st, new_file name m date d = (w, st) /\ _interim w = files d !! kFTDCInterimFile /\
    (st = Ret tt /\ logged w [Metadata m date] None /\ (faults d = [] -> calm w) \/
     faults d <> [] /\ (exists err, st = Throw err) /\ (_archive w = [] \/ torn w [] [Metadata m date])).
Proof.
  intros [H1 H2 Hn Hm _]. unfold new_file.
  destruct (open_ok name (FTDCFileWriter_new d) [] eq_refl H1 H2 (Forall_nil_2 _) Hn) as (w1 & st1 & -> & Hc1 & _ & Hf1 & [(-> & Hl & _)|(Hc & -> & Ha)]); cbn [and_then].
  - destruct (writeMetadata_ok m date w1 [] None Hl Hm) as (w & st & -> & Hf & Hi & Hst). exists w, st. split; [done|].
    split; [rewrite Hi; by apply Hf1|]. destruct Hst as [[-> Hl']|(Hc & Herr & Ht)]; [left|right].
    + split; [done|]. split; [done|]. intros Hcalm. by apply Hf, Hc1.
    + split; [intros Hcalm; by apply Hc, Hc1|]. auto.
  - exists w1, (Throw FileNotOpen). split; [done|]. split; [by apply Hf1|]. right. split; [done|]. eauto.
Qed.

Lemma samples_in (samples : list (list field * Z)) :
  Forall (fun x => sample_ok x.1 /\ date_ok x.2) samples -> Forall (fun x => sample_ok x.1 /\ date_ok x.2 /\ x.1 ∈ samples.*1) samples.
Proof. rewrite !Forall_forall. intros Hs x Hx. destruct (Hs x Hx). split_and!; [done|done|by apply list_elem_of_fmap_2]. Qed.

Lemma kept_take (R : list field -> Prop) (samples docs : list (list field * Z)) :
  Forall2 (fun s d => kept R s.1 d.1) samples docs -> Forall2 (fun s d => same_metrics s.1 d.1) samples docs.
Proof. intros Hk. eapply Forall2_impl; [exact Hk|]. cbn. intros s d. apply kept_same. Qed.

(** A run without faults. *)
Lemma calm_run (name : bytes) (m : list field) (date : Z) (samples : list (list field * Z)) (d : Disk) :
  run_ok name m date samples d -> faults d = [] -> files d !! kFTDCInterimFile = None ->
  exists w es p docs, and_then (new_file name m date d) (writeSamples samples) = (w, Ret tt) /\ calm w /\ logged w (Metadata m date :: es) p /\
    interim_inv w p /\ file_items es ++ pending_items p = metric_item <$> docs /\
    Forall2 (fun s d => kept (fun r => r ∈ samples.*1) s.1 d.1) samples docs.
Proof.
  intros Hr Hd Hi. destruct (new_file_ok name m date samples d Hr) as (w1 & st1 & -> & Hi1 & [(-> & Hl1 & Hc1)|(Hc & _)]); [|done]. cbn [and_then].
  destruct (writeSamples_ok (fun r => r ∈ samples.*1) samples w1 [Metadata m date] None Hl1 (samples_in samples (ro_samples _ _ _ _ _ Hr)) Logic.I)
    as (w & st & es & p & docs & -> & Hf & ([more ->] & _ & Hitems & Hk) & Hint & Hst).
  specialize (Hc1 Hd). destruct Hst as [(-> & Hlen & Hl)|(Hn & _)]; [|done]. exists w, more, p, docs. rewrite Hlen, firstn_all in Hk.
  split; [done|]. split; [by apply Hf|]. split; [done|]. split; [apply Hint; [done|]; unfold interim_inv; by rewrite Hi1|]. split; [|done].
  cbn [app] in Hitems. change (file_items (Metadata m date :: more)) with ((kMetadata, m, date) :: file_items more) in Hitems. by injection Hitems.
Qed.

(** What the interim file adds to the archive. *)
Lemma interim_read (k : nat) (w : FTDCFileWriter) (p : pending) :
  interim_inv w p -> (length (pending_items p) < k)%nat ->
  exists found lost, pending_items p = found ++ lost /\ (length lost <= I)%nat /\
    read_all k (reader_open (default [] (_interim w))) = (found, Ret tt).
Proof.
  intros Hint Hk. destruct p as [[[r date] rest]|]; cbn [pending_items] in *.
  - unfold interim_inv, interim_ok in Hint. unfold items, group_docs in *. destruct k as [|k]; [lia|].
    pose proof (Nat.div_mod_eq (length rest) I) as Hd. pose proof (Nat.mod_upper_bound (length rest) I ltac:(lia)) as Hm.
    destruct (decide (in_interim rest = 0%nat)) as [H0|H0].
    + rewrite Hint. exists [], ((fun d => (kMetricChunk, d, date)) <$> group_docs r rest). split; [done|]. split; [|done].
      unfold group_docs, in_interim in *. cbn [fmap list_fmap length]. rewrite !length_fmap. lia.
    + destruct Hint as (chunk & -> & Hok). pose proof (read_file (S k) [Chunk chunk date (group_docs r (take (in_interim rest) rest))]) as Hr.
      unfold file_bytes, file_items, items in Hr. cbn [fmap list_fmap List.concat] in Hr. rewrite !app_nil_r in Hr.
      exists ((fun d => (kMetricChunk, d, date)) <$> group_docs r (take (in_interim rest) rest)), ((fun d => (kMetricChunk, d, date)) <$> (doc_like r <$> drop (in_interim rest) rest)).
      split; [|split; [|apply Hr; [by apply Forall_singleton|]]].
      * unfold group_docs. rewrite <- fmap_app. cbn [app]. by rewrite <- fmap_app, take_drop.
      * rewrite !length_fmap, length_drop. unfold in_interim. lia.
      * unfold group_docs. cbn [fmap list_fmap length] in *. rewrite !length_fmap, length_take in *. lia.
  - unfold interim_inv in Hint. rewrite Hint. exists [], []. split; [done|]. split; [cbn; lia|]. destruct k; [cbn in Hk; lia|done].
Qed.

(** C8. Diagnostic data survives on disk. Whatever samples within the limits of the format are
    written to a new file that is then closed, on a disk that works, the writer succeeds and leaves
    no interim file, and the reader returns the metadata and then exactly one document for every
    sample, in order, with the same field names, the same types up to the types of numbers, and
    every metric equal as a 64-bit integer. Where every number of the samples is a [NumberLong]
    and the fields that are not metrics have the same values in all of them ([doc_unchanged]),
    it returns the samples themselves. *)
Theorem archive_round_trip (name : bytes) (m : list field) (date : Z) (samples : list (list field * Z)) (d : Disk) :
  run_ok name m date samples d -> faults d = [] -> files d !! kFTDCInterimFile = None ->
  exists w w' docs, and_then (new_file name m date d) (writeSamples samples) = (w, Ret tt) /\ close w = (w', Ret tt) /\ _interim w' = None /\
    read_all (S (S (length samples))) (reader_open (_archive w')) = ((kMetadata, m, date) :: (metric_item <$> docs), Ret tt) /\
    Forall2 (fun s d => same_metrics s.1 d.1) samples docs /\
    ((forall r s, r ∈ samples.*1 -> s ∈ samples.*1 -> doc_unchanged r s) -> docs.*1 = samples.*1).
Proof.
  intros Hr Hd Hi. destruct (calm_run name m date samples d Hr Hd Hi) as (w & es & p & docs & Hw & Hcalm & Hl & _ & Hitems & Hk).
  destruct (close_ok w _ p Hl) as (w' & st & es' & Hc & _ & Hes & _ & Hi' & [(-> & _ & Hn & Ha)|(Hn & _)]); [|done].
  change (file_items (Metadata m date :: es)) with ((kMetadata, m, date) :: file_items es) in Hi'. cbn [app] in Hi'. rewrite Hitems in Hi'.
  exists w, w', docs. split_and!; [done|done|done| | |].
  - rewrite Ha, read_file, Hi'; [done|done|]. rewrite Hi'. cbn [length]. rewrite length_fmap, (Forall2_length _ _ _ Hk). lia.
  - by eapply kept_take.
  - intros Hu. apply (kept_all_unchanged (fun r => r ∈ samples.*1)); [done| |done]. by apply Forall_forall.
Qed.

(** What a crash loses. When the server stops without closing the file, reading the archive and
    then the interim file gives the metadata and one document for each of the first samples, in
    order, and the samples missing at the end are at most [maxSamplesPerInterimMetricChunk]. No
    sample is in both files. *)
Lemma crash_loses_last_samples (name : bytes) (m : list field) (date : Z) (samples : list (list field * Z)) (d : Disk) :
  run_ok name m date samples d -> faults d = [] -> files d !! kFTDCInterimFile = None ->
  exists w docs archived interim, and_then (new_file name m date d) (writeSamples samples) = (w, Ret tt) /\
    read_all (S (S (length samples))) (reader_open (_archive w)) = (archived, Ret tt) /\
    read_all (S (S (length samples))) (reader_open (default [] (_interim w))) = (interim, Ret tt) /\
    archived ++ interim = (kMetadata, m, date) :: (metric_item <$> docs) /\
    (length docs <= length samples <= length docs + I)%nat /\
    Forall2 (fun s d => same_metrics s.1 d.1) (take (length docs) samples) docs.
Proof.
  intros Hr Hd Hi. destruct (calm_run name m date samples d Hr Hd Hi) as (w & es & p & docs & Hw & Hcalm & (_ & Ha & Hes & _) & Hint & Hitems & Hk).
  pose proof (Forall2_length _ _ _ Hk) as Hn. pose proof (f_equal length Hitems) as Hlen. rewrite length_app, length_fmap in Hlen.
  destruct (interim_read (S (S (length samples))) w p Hint) as (found & lost & Hf & Hlost & Hread); [lia|]. rewrite Hf in *. rewrite length_app in Hlen.
  set (n := length (file_items es ++ found)). assert (length (take n docs) = n) as Hn' by (rewrite length_take; unfold n; solve_length).
  exists w, (take n docs), ((kMetadata, m, date) :: file_items es), found. rewrite Hn'. split_and!; [done| |done| |..].
  - rewrite Ha. apply (read_file _ (Metadata m date :: es)); [done|]. change (file_items (Metadata m date :: es)) with ((kMetadata, m, date) :: file_items es). cbn [length]. lia.
  - cbn [app]. f_equal. rewrite fmap_take, <- Hitems, app_assoc. symmetry. apply take_app_length.
  - unfold n. solve_length.
  - unfold n. solve_length.
  - by eapply Forall2_take, kept_take.
Qed.

(** The archive of a writer that a fault may have stopped. *)
Lemma read_logged (k : nat) (w : FTDCFileWriter) (e0 : entry) (es : list entry) (p : pending) :
  stopped w [e0] es p -> [e0] `prefix_of` es -> (length (file_items es) < k)%nat ->
  exists l s more, read_all k (reader_open (_archive w)) = (l, s) /\ l = items e0 ++ more /\ l `prefix_of` file_items es /\ (s = Ret tt \/ exists e, s = Throw e) /\
    (length (file_items es) + length (pending_items p) <= S (length l + D))%nat.
Proof.
  intros [Hl|(es0 & [more ->] & (e & n & -> & Hes & Ha) & Hlen)] [rest Hpre] Hk.
  - pose proof (pending_length w es p Hl). destruct Hl as (_ & Ha & Hes & _).
    subst es. exists (file_items ([e0] ++ rest)), (Ret tt), (file_items rest). rewrite Ha, read_file by done. split_and!; auto. lia.
  - apply Forall_app in Hes as [Hes He]. rewrite Forall_singleton in He. rewrite file_items_snoc, length_app in Hk.
    destruct (read_torn_file k _ e n Hes He Hk) as (l & s & Hr & Hl & Hs). rewrite <- Ha in Hr. exists l, s.
    destruct Hl as [->| ->]; [exists (file_items more)|exists (file_items more ++ items e)]; (split; [done|]); (split; [cbn; by rewrite ?app_assoc|]).
    + split; [rewrite file_items_snoc; by apply prefix_app_r|]. split; [done|lia].
    + split; [by rewrite file_items_snoc|]. split; [done|]. rewrite length_app. lia.
Qed.

(** What the reader makes of a file whose metadata could not be written. *)
Lemma read_no_metadata (k : nat) (w : FTDCFileWriter) (m : list field) (date : Z) :
  _archive w = [] \/ torn w [] [Metadata m date] -> (1 < k)%nat ->
  exists l s, read_all k (reader_open (_archive w)) = (l, s) /\ (l = [] \/ l = [(kMetadata, m, date)]) /\ (s = Ret tt \/ exists e, s = Throw e).
Proof.
  intros [Ha|(e & n & Hes & Hok & Ha)] Hk; rewrite Ha; [exists [], (Ret tt); destruct k; [lia|auto]|].
  injection Hes as <-. rewrite Forall_singleton in Hok. apply (read_torn_file _ [] (Metadata m date) n); [done|done|cbn; lia].
Qed.

(** C22. A disk that fails. Whatever operations on the directory fail, the writer ends with a
    status, which is an error only if some operation failed, and the archive it leaves can be
    read: after the metadata come documents for the first samples, in order, none missing in
    between, and an error is only found behind them, and only when the writer reported one. Of
    the samples that were written before an error was reported, at most the last [D], which is
    [maxSamplesPerArchiveMetricChunk - 1], are not read back. Not every failure is reported: the
    interim stream is closed without looking at its state. *)
Theorem faults_cut_the_end (name : bytes) (m : list field) (date : Z) (samples : list (list field * Z)) (d : Disk) :
  run_ok name m date samples d ->
  exists w st l s docs, and_then (new_file name m date d) (writeSamples samples) = (w, st) /\
    (st = Ret tt \/ faults d <> [] /\ exists e, st = Throw e) /\
    read_all (S (S (length samples))) (reader_open (_archive w)) = (l, s) /\ (s = Ret tt \/ exists e, s = Throw e) /\ (st = Ret tt -> s = Ret tt) /\
    (l = [] \/ l = (kMetadata, m, date) :: (metric_item <$> docs)) /\ Forall2 (fun s d => same_metrics s.1 d.1) (take (length docs) samples) docs /\
    (forall n w', (n <= length samples)%nat -> and_then (new_file name m date d) (writeSamples (take n samples)) = (w', Ret tt) ->
       l <> [] /\ (n <= length docs + D)%nat).
Proof.
  intros Hr. destruct (new_file_ok name m date samples d Hr) as (w1 & st1 & -> & _ & [(-> & Hl1 & Hc1)|(Hn & [err ->] & Hw)]); cbn [and_then].
  - destruct (writeSamples_ok (fun r => r ∈ samples.*1) samples w1 [Metadata m date] None Hl1 (samples_in samples (ro_samples _ _ _ _ _ Hr)) Logic.I)
      as (w & st & es & p & docs & -> & _ & (Hpre & _ & Hitems & Hk) & _ & Hst).
    cbn [pending_items] in Hitems. rewrite app_nil_r in Hitems. change (file_items [Metadata m date]) with [(kMetadata, m, date)] in Hitems.
    pose proof (f_equal length Hitems) as Hlen. pose proof (Forall2_length _ _ _ Hk) as Hdocs. rewrite length_take in Hdocs. rewrite !length_app, length_fmap in Hlen. cbn [length] in Hlen.
    assert (stopped w [Metadata m date] es p) as Hw by (destruct Hst as [(_ & _ & ?)|(_ & _ & ? & _)]; [by left|done]).
    destruct (read_logged (S (S (length samples))) w (Metadata m date) es p Hw Hpre) as (l & s & more & Hread & -> & Hl & Hs & Hmost); [lia|].
    assert (items (Metadata m date) ++ more `prefix_of` [(kMetadata, m, date)] ++ (metric_item <$> docs)) as [tail Htail].
    { rewrite <- Hitems. etrans; [exact Hl|]. by apply prefix_app_r. }
    cbn [items app] in Htail, Hmost. injection Htail as Htail. exists w, st, (items (Metadata m date) ++ more), s, (take (length more) docs).
    assert (length (take (length more) docs) = length more) as Hmore.
    { rewrite length_take. apply (f_equal length) in Htail. rewrite length_app, length_fmap in Htail. lia. }
    split; [done|]. split; [destruct Hst as [[-> _]|(Hnc & ? & _)]; [by left|right; split; [intros Hf; by apply Hnc, Hc1|done]]|].
    split; [exact Hread|]. split; [done|]. rewrite Hmore. split_and!.
    + intros ->. destruct Hst as [(_ & _ & (_ & Ha & Hes & _))|(_ & [? ?] & _)]; [|done]. rewrite Ha, read_file in Hread; [congruence|done|lia].
    + right. cbn [items app]. by rewrite fmap_take, Htail, take_app_length.
    + replace (take (length more) samples) with (take (length more) (take (length docs) samples)); [by eapply Forall2_take, kept_take|].
      rewrite take_take. f_equal. rewrite length_take in Hmore. lia.
    + intros n w' Hn Hw'. split; [done|]. cbn [length] in Hmost. destruct Hst as [(_ & Hall & Hl')|(_ & _ & _ & Hfirst)].
      * pose proof (pending_length w es p Hl'). destruct Hl' as (_ & Ha & Hes & _). rewrite Ha, read_file in Hread by (done || lia). injection Hread as Hread _.
        apply (f_equal length) in Hread. cbn [length] in Hread. lia.
      * destruct (decide (length docs <= n)%nat) as [Hle|Hgt]; [|lia]. destruct (Hfirst n Hle) as [err Herr]. by rewrite Hw' in Herr.
  - destruct (read_no_metadata (S (S (length samples))) w1 m date Hw) as (l & s & Hread & Hl & Hs); [lia|].
    exists w1, (Throw err), l, s, []. split; [done|]. split; [eauto|]. split; [done|]. split; [done|]. split; [done|]. split; [done|]. split; [done|]. by intros n w' _ [=].
Qed.

End files.
(** ** A concrete instance *)

#[local] Abbreviation demo_of f := (f (fun _ => 0) (fun _ => 0) stored).

Definition demo_name : bytes := lit "metrics.1".
Definition demo_samples : list (list field * Z) := (fun n => (demo_sample n, 1000 * n)) <$> [1; 2; 5; 7; 7; 9].

Lemma demo_metadata_ok (date : Z) : date_ok date -> demo_of entry_ok demo_server (Metadata (demo_sample 0) date).
Proof.
  intros Hd. pose proof (demo_sample_ok 0 ltac:(lia)) as H. split; [done|]. split; [apply H|]. split; [by left|]. pose proof (so_size _ _ _ _ _ H). lia.
Qed.

Lemma demo_run_ok (faults : list (option nat)) : demo_of run_ok demo_server 3 demo_name (demo_sample 0) 3 demo_samples (mkDisk ∅ faults).
Proof.
  split; [done|done|done|apply demo_metadata_ok; unfold date_ok; lia|].
  unfold demo_samples. apply Forall_fmap. assert (Forall (fun n => 0 <= n < 100) [1; 2; 5; 7; 7; 9]) as Hn by (repeat constructor; lia).
  eapply Forall_impl; [exact Hn|]. cbn beta. intros n Hn'. unfold compose. cbn [fst snd]. split; [apply demo_sample_ok; lia|unfold date_ok; lia].
Qed.

Lemma demo_unchanged (r s : list field) : r ∈ demo_samples.*1 -> s ∈ demo_samples.*1 -> doc_unchanged r s.
Proof.
  assert (demo_samples.*1 = demo_sample <$> [1; 2; 5; 7; 7; 9]) as -> by done.
  intros (a & -> & _)%list_elem_of_fmap (b & -> & _)%list_elem_of_fmap. repeat split.
Qed.

Lemma archive_round_trip_witness :
  exists w, and_then (new_file 4 demo_name (demo_sample 0) 3 (mkDisk ∅ [])) (demo_of writeSamples 4 2 demo_samples) = (w, Ret tt) /\
    (demo_of read_all demo_server (fun _ => None) 8 (reader_open (_archive (close stored w).1))).1.*1.*2 = demo_sample 0 :: demo_samples.*1.
Proof.
  destruct (archive_round_trip (fun _ => 0) (fun _ => 0) stored 4 2 demo_server (fun _ => None) 3 2 ltac:(split; [lia|reflexivity]) eq_refl ltac:(split; [lia|reflexivity]) stored_ok
    demo_name (demo_sample 0) 3 demo_samples (mkDisk ∅ []) (demo_run_ok []) eq_refl eq_refl) as (w & w' & docs & Hw & Hc & _ & Hr & _ & Hdocs).
  exists w. split; [exact Hw|]. rewrite Hc. cbn [fst]. change (S (S (length demo_samples))) with 8%nat in Hr. rewrite Hr. clear Hw Hc Hr. rewrite <- Hdocs.
  - cbn [fst]. rewrite !fmap_cons. cbn [fst snd]. f_equal. rewrite <- !list_fmap_compose. apply list_fmap_ext. by intros ? [].
  - apply demo_unchanged.
Defined.

Lemma faults_cut_the_end_witness :
  exists w st l s docs, and_then (new_file 4 demo_name (demo_sample 0) 3 (mkDisk ∅ [None; None; None; None; None; None; Some 20%nat])) (demo_of writeSamples 4 2 demo_samples) = (w, st) /\
    demo_of read_all demo_server (fun _ => None) 8 (reader_open (_archive w)) = (l, s) /\
    Forall2 (fun s d : list field * Z => demo_of (fun o t _ => same_metrics o t) s.1 d.1) (take (length docs) demo_samples) docs.
Proof.
  destruct (faults_cut_the_end (fun _ => 0) (fun _ => 0) stored 4 2 demo_server (fun _ => None) 3 2 ltac:(split; [lia|reflexivity]) eq_refl ltac:(split; [lia|reflexivity]) stored_ok
    demo_name (demo_sample 0) 3 demo_samples (mkDisk ∅ [None; None; None; None; None; None; Some 20%nat]) (demo_run_ok _)) as (w & st & l & s & docs & Hw & _ & Hr & _ & _ & _ & Hd & _).
  exists w, st, l, s, docs. split; [exact Hw|]. split; [exact Hr|exact Hd].
Defined.

End FtdcFile.
