(* ===== verification/FtdcManager.v ===== *)
(** * The directory of diagnostic data

    [FTDCFileManager] of [db/ftdc]: it names the archive files, recovers the interim file after a
    crash, starts a new file when the current one is full and removes the oldest files when the
    directory is over its quota. *)
From stdpp Require Import sorting.
From S2P Require Import Prelude StringData Bson BsonValidate BsonDecode Varint Ftdc FtdcFile.

Module Manager.
Import Ftdc FtdcFile.

Definition kMaxFileUniqifier : Z := 65000.

(** [std::sort] of paths of one directory compares their names. *)
Definition name_le (a b : bytes) : Prop := SD.lexcmp a b <= 0.
#[global] Instance name_le_dec : RelDecision name_le.
Proof. intros a b. unfold name_le. apply _. Defined.

(** [snprintf("%05u")] of a number of at most five digits. *)
Definition format05 (n : Z) : bytes := Itoa.digit (n / 10000) :: Itoa.digit (n / 1000) :: Itoa.digit (n / 100) :: Itoa.digit (n / 10) :: [Itoa.digit n].

Definition is_archive (name : bytes) : bool :=
  bool_decide (take (length kFTDCArchiveFile) name = kFTDCArchiveFile) && negb (bool_decide (name = kFTDCInterimFile)).

Definition scanDirectory (d : Disk) : list bytes :=
  merge_sort name_le (filter (fun name => is_archive name = true) (map_to_list (files d)).*1).

(** [boost::filesystem::file_size], which throws. *)
Definition file_size (name : bytes) (d : Disk) : outcome Status Z :=
  match files d !! name with Some contents => Ret (Z.of_nat (length contents)) | None => Throw FilesystemError end.

Record FTDCFileManager := mkManager {
  _writer : FTDCFileWriter;
  _previousArchiveFileSuffix : bytes;
  _fileNameUniquifier : Z
}.

Definition set_writer (w : FTDCFileWriter) (m : FTDCFileManager) : FTDCFileManager :=
  mkManager w (_previousArchiveFileSuffix m) (_fileNameUniquifier m).
Definition on_writer (f : FTDCFileWriter -> FTDCFileWriter * outcome Status unit) (m : FTDCFileManager) : FTDCFileManager * outcome Status unit :=
  let '(w, s) := f (_writer m) in (set_writer w m, s).
Definition on_disk (f : Disk -> Disk * outcome Status unit) : FTDCFileManager -> FTDCFileManager * outcome Status unit :=
  on_writer (fun w => let '(d, s) := f (_disk w) in (set_disk d w, s)).

(** The archive file for a time and a number. *)
Definition archive_stem (suffix : bytes) : bytes := kFTDCArchiveFile ++ lit "." ++ suffix.
Definition archive_name (suffix : bytes) (n : Z) : bytes := archive_stem suffix ++ lit "-" ++ format05 n.

(** The loop over [_fileNameUniquifier]. *)
Fixpoint unique_name (fuel : nat) (d : Disk) (suffix : bytes) (n : Z) : Z * outcome Status bytes :=
  match fuel with
  | O => (n, NoFuel)
  | S fuel =>
      if n <? kMaxFileUniqifier then
        if decide (files d !! archive_name suffix n = None) then (n, Ret (archive_name suffix n)) else unique_name fuel d suffix (n + 1)
      else (n, Throw InvalidPath)
  end.

(** [generateArchiveFileName]; [pathExists] is whether the directory still exists. *)
Definition generateArchiveFileName (pathExists : bool) (suffix : bytes) (m : FTDCFileManager) : FTDCFileManager * outcome Status bytes :=
  let n := if decide (_previousArchiveFileSuffix m = suffix) then _fileNameUniquifier m else 0 in
  if pathExists then
    let '(n, name) := unique_name (S (Z.to_nat (kMaxFileUniqifier - n))) (_disk (_writer m)) suffix n in (mkManager (_writer m) suffix n, name)
  else (mkManager (_writer m) suffix n, Ret (archive_stem suffix)).

(** ** Names in order *)

#[global] Instance name_le_total : Total name_le.
Proof. intros a b. unfold name_le. rewrite (SD.lexcmp_antisym b a). lia. Qed.
#[global] Instance name_le_trans : Transitive name_le.
Proof.
  intros a b c Hab Hbc. unfold name_le in *. destruct (decide (SD.lexcmp a b = 0)) as [E|E]; [apply SD.lexcmp_eq in E; by subst|].
  pose proof (SD.lexcmp_trans a b c). lia.
Qed.
#[global] Instance name_le_antisym : AntiSymm (=) name_le.
Proof. intros a b Hab Hba. unfold name_le in *. apply SD.lexcmp_eq. rewrite SD.lexcmp_antisym in Hba. lia. Qed.
#[global] Instance name_le_refl : Reflexive name_le.
Proof. intros a. unfold name_le. assert (SD.lexcmp a a = 0) as -> by (by apply SD.lexcmp_eq). lia. Qed.

Lemma elem_of_scan (d : Disk) (name : bytes) : name ∈ scanDirectory d <-> is_archive name = true /\ is_Some (files d !! name).
Proof.
  unfold scanDirectory. rewrite merge_sort_Permutation, list_elem_of_filter, list_elem_of_fmap. split; intros [Ha H]; (split; [done|]).
  - destruct H as ([n c] & -> & H). apply elem_of_map_to_list in H. by exists c.
  - destruct H as [c H]. exists (name, c). split; [done|]. by apply elem_of_map_to_list.
Qed.

(** The scan returns the list of the archive files when that is sorted. *)
Lemma scan_sorted (d : Disk) (names : list bytes) :
  StronglySorted name_le names -> NoDup names -> (forall name, name ∈ names <-> is_archive name = true /\ is_Some (files d !! name)) -> scanDirectory d = names.
Proof.
  intros Hs Hn Hin. apply (StronglySorted_unique name_le); [apply StronglySorted_merge_sort; apply _|done|].
  apply NoDup_Permutation; [|done|intros x; by rewrite Hin, elem_of_scan].
  unfold scanDirectory. rewrite merge_sort_Permutation. apply NoDup_filter, NoDup_fst_map_to_list.
Qed.

Lemma lexcmp_app (a b c d : bytes) : length a = length b -> SD.lexcmp (a ++ c) (b ++ d) = if SD.lexcmp a b =? 0 then SD.lexcmp c d else SD.lexcmp a b.
Proof.
  revert b. induction a as [|x a IH]; intros [|y b] Hl; try done. cbn [app SD.lexcmp]. injection Hl as Hl. destruct (Z.ltb_spec x y), (Z.ltb_spec y x); try lia; [done|done|].
  by apply IH.
Qed.

Fixpoint fixed_width (k : nat) (n : Z) : bytes := match k with O => [] | S k => fixed_width k (n / 10) ++ [Itoa.digit n] end.

Lemma length_fixed_width (k : nat) (n : Z) : length (fixed_width k n) = k.
Proof. revert n. induction k as [|k IH]; intros n; [done|]. cbn [fixed_width]. rewrite length_app, IH. cbn. lia. Qed.

Lemma fixed_width_lt (k : nat) : forall m n, 0 <= m < n -> n < 10 ^ Z.of_nat k -> SD.lexcmp (fixed_width k m) (fixed_width k n) < 0.
Proof.
  induction k as [|k IH]; intros m n Hm Hn; [change (10 ^ Z.of_nat 0) with 1 in Hn; lia|].
  rewrite Nat2Z.inj_succ, Z.pow_succ_r in Hn by lia. cbn [fixed_width]. rewrite lexcmp_app by (by rewrite !length_fixed_width).
  pose proof (Z.div_mod m 10 ltac:(lia)). pose proof (Z.mod_pos_bound m 10 ltac:(lia)). pose proof (Z.div_mod n 10 ltac:(lia)). pose proof (Z.mod_pos_bound n 10 ltac:(lia)).
  destruct (decide (m / 10 = n / 10)) as [E|E].
  - assert (SD.lexcmp (fixed_width k (m / 10)) (fixed_width k (n / 10)) = 0) as -> by (apply SD.lexcmp_eq; by rewrite E). cbn [Z.eqb SD.lexcmp]. unfold Itoa.digit.
    destruct (Z.ltb_spec (48 + m mod 10) (48 + n mod 10)); lia.
  - pose proof (IH (m / 10) (n / 10) ltac:(lia) ltac:(lia)). destruct (Z.eqb_spec (SD.lexcmp (fixed_width k (m / 10)) (fixed_width k (n / 10))) 0); lia.
Qed.

Lemma format05_fixed_width (n : Z) : format05 n = fixed_width 5 n.
Proof. unfold format05. cbn [fixed_width app]. by rewrite !Z.div_div by lia. Qed.

(** Names of archive files sort by their time and then by their number. *)
Lemma archive_name_lt (s s' : bytes) (n n' : Z) :
  length s = length s' -> 0 <= n -> n' < 100000 -> SD.lexcmp s s' < 0 \/ s = s' /\ n < n' -> SD.lexcmp (archive_name s n) (archive_name s' n') < 0.
Proof.
  intros Hl Hn Hn' Hlt. unfold archive_name, archive_stem. rewrite <- !app_assoc. rewrite lexcmp_app by done. rewrite (proj2 (SD.lexcmp_eq _ _) eq_refl). cbn [Z.eqb].
  rewrite lexcmp_app by done. rewrite (proj2 (SD.lexcmp_eq _ _) eq_refl). cbn [Z.eqb]. rewrite lexcmp_app by done. destruct Hlt as [Hlt|[-> Hle]].
  - destruct (Z.eqb_spec (SD.lexcmp s s') 0); lia.
  - rewrite (proj2 (SD.lexcmp_eq _ _) eq_refl). cbn [Z.eqb]. rewrite lexcmp_app by done. rewrite (proj2 (SD.lexcmp_eq _ _) eq_refl). cbn [Z.eqb].
    rewrite !format05_fixed_width. apply (fixed_width_lt 5); [lia|]. change (10 ^ Z.of_nat 5) with 100000. lia.
Qed.

Lemma archive_name_le (s : bytes) (n n' : Z) : 0 <= n <= n' -> n' < 100000 -> name_le (archive_name s n) (archive_name s n').
Proof.
  intros Hn Hn'. destruct (decide (n = n')) as [->|Hne]; [done|]. unfold name_le. pose proof (archive_name_lt s s n n' eq_refl ltac:(lia) ltac:(lia) ltac:(right; split; [done|lia])). lia.
Qed.

Lemma archive_name_last (s : bytes) (n : Z) : last (archive_name s n) = Some (Itoa.digit n).
Proof.
  unfold archive_name, format05. change (?a :: ?b :: ?c :: ?d :: [?e]) with ([a; b; c; d] ++ [e]). by rewrite !app_assoc, last_snoc.
Qed.

Lemma archive_name_ne (s : bytes) (n : Z) : archive_name s n <> kFTDCInterimFile /\ archive_name s n <> kFTDCInterimTempFile.
Proof.
  pose proof (archive_name_last s n) as Hl. unfold Itoa.digit in Hl. pose proof (Z.mod_pos_bound n 10 ltac:(lia)).
  split; intros E; rewrite E in Hl; injection Hl as Hl; lia.
Qed.

Lemma is_archive_name (s : bytes) (n : Z) : is_archive (archive_name s n) = true.
Proof.
  unfold is_archive. rewrite bool_decide_eq_true_2 by done. by rewrite bool_decide_eq_false_2 by apply archive_name_ne.
Qed.

(** The number chosen is the first one that is free. *)
Lemma unique_name_ok (d : Disk) (suffix : bytes) (free : Z) : forall (fuel : nat) (n : Z),
  n <= free < kMaxFileUniqifier -> (Z.to_nat (free - n) < fuel)%nat -> files d !! archive_name suffix free = None ->
  exists n', unique_name fuel d suffix n = (n', Ret (archive_name suffix n')) /\ n <= n' <= free /\ files d !! archive_name suffix n' = None.
Proof.
  intros fuel. induction fuel as [|fuel IH]; intros n Hn Hf Hfree; [lia|]. cbn [unique_name]. destruct (Z.ltb_spec n kMaxFileUniqifier); [|lia].
  destruct (decide (files d !! archive_name suffix n = None)) as [E|E]; [exists n; split; [done|]; split; [lia|done]|].
  assert (n <> free) by congruence. destruct (IH (n + 1)) as (n' & Hu & Hr & Hnone); [lia|lia|done|]. exists n'. split; [done|]. split; [lia|done].
Qed.

(** When every number is taken there is no name, and the loop ends. *)
Lemma unique_name_full (d : Disk) (suffix : bytes) : forall (fuel : nat) (n : Z),
  (Z.to_nat (kMaxFileUniqifier - n) < fuel)%nat -> (forall n', n <= n' < kMaxFileUniqifier -> files d !! archive_name suffix n' <> None) ->
  (unique_name fuel d suffix n).2 = Throw InvalidPath.
Proof.
  intros fuel. induction fuel as [|fuel IH]; intros n Hf Hfull; [lia|]. cbn [unique_name]. destruct (Z.ltb_spec n kMaxFileUniqifier); [|done].
  rewrite decide_False by (apply Hfull; lia). apply IH; [lia|]. intros. apply Hfull. lia.
Qed.

Section manager.
Variable outOfRange : bytes -> Z.
Variable toLong : bytes -> Z.
Variable z : ZLib.
Variable maxSamplesPerArchiveMetricChunk : Z.
Variable maxSamplesPerInterimMetricChunk : Z.
Variable server : Server.
Variable decimalInteger : bytes -> option Z.
Variable maxDirectorySizeBytes : Z.
Variable maxFileSizeBytes : Z.
#[local] Abbreviation open := (open maxSamplesPerArchiveMetricChunk).
#[local] Abbreviation close := (close z).
#[local] Abbreviation writeSample := (writeSample outOfRange toLong z maxSamplesPerArchiveMetricChunk maxSamplesPerInterimMetricChunk).
#[local] Abbreviation read_all := (read_all outOfRange toLong z server decimalInteger).

(** The files from the newest to the oldest. *)
Fixpoint trim (names : list bytes) (size : Z) (d : Disk) : Disk * outcome Status unit :=
  match names with
  | [] => (d, Ret tt)
  | name :: names =>
      match file_size name d with
      | Ret fileSize =>
          let size := wrapu 64 (size + fileSize) in
          if maxDirectorySizeBytes <=? size then and_then (remove name d) (trim names size) else trim names size d
      | Throw s => (d, Throw s) | Fault => (d, Fault) | NoFuel => (d, NoFuel)
      end
  end.

Definition trimDirectory (names : list bytes) (d : Disk) : Disk * outcome Status unit := trim (reverse names) 0 d.

(** [recoverInterimFile]: an error in the file ends the documents. *)
Definition recoverInterimFile (fuel : nat) (d : Disk) : outcome Status (list (FTDCType * list field * Z)) :=
  match files d !! kFTDCInterimFile with
  | None => Ret []
  | Some contents =>
      if (length contents =? 0)%nat then Ret []
      else match read_all fuel (reader_open contents) with
           | (_, Fault) => Fault | (_, NoFuel) => NoFuel
           | (docs, _) => Ret docs
           end
  end.

Definition append_doc (x : FTDCType * list field * Z) (w : FTDCFileWriter) : FTDCFileWriter * outcome Status unit :=
  match x.1.1 with kMetadata => writeMetadata x.1.2 x.2 w | kMetricChunk => writeSample x.1.2 x.2 w end.

Fixpoint append_docs (docs : list (FTDCType * list field * Z)) (w : FTDCFileWriter) : FTDCFileWriter * outcome Status unit :=
  match docs with [] => (w, Ret tt) | x :: docs => and_then (append_doc x w) (append_docs docs) end.

(** [openArchiveFile]; [sample] is what the rotation collectors return. *)
Definition openArchiveFile (sample : list field * Z) (path : bytes) (docs : list (FTDCType * list field * Z)) (w : FTDCFileWriter) :
  FTDCFileWriter * outcome Status unit :=
  and_then (open path w) (fun w => and_then (append_docs docs w) (fun w =>
    if bool_decide (sample.1 = []) then (w, Ret tt) else writeMetadata sample.1 sample.2 w)).

(** [if (!swFile.isOK()) return swFile.getStatus()]. *)
Definition with_name (x : FTDCFileManager * outcome Status bytes) (f : bytes -> FTDCFileManager -> FTDCFileManager * outcome Status unit) :
  FTDCFileManager * outcome Status unit :=
  match x with
  | (m, Ret name) => f name m
  | (m, Throw s) => (m, Throw s) | (m, Fault) => (m, Fault) | (m, NoFuel) => (m, NoFuel)
  end.

(** The destructor: an exception in it ends the process. *)
Definition destroy (m : FTDCFileManager) : FTDCFileManager * outcome Status unit :=
  match on_writer close m with
  | (m, Throw FilesystemError) => (m, Fault)
  | (m, Throw _) => (m, Ret tt)
  | x => x
  end.

(** [create]; [dirExists] is whether the directory exists, [dirCreated] whether it can be created. *)
Definition create (dirExists dirCreated : bool) (fuel : nat) (suffix : bytes) (sample : list field * Z) (d : Disk) : FTDCFileManager * outcome Status unit :=
  let m := mkManager (FTDCFileWriter_new d) [] 0 in
  let names := scanDirectory d in
  if negb dirExists && negb dirCreated then (m, Throw NonExistentPath)
  else match recoverInterimFile fuel d with
  | Ret interimDocs =>
      let x :=
        with_name (generateArchiveFileName true suffix m) (fun name m =>
          and_then (on_writer (openArchiveFile sample name interimDocs) m) (on_disk (trimDirectory names))) in
      match x with
      | (m, Throw s) => and_then (destroy m) (fun m => (m, Throw s))
      | x => x
      end
  | Throw s => (m, Throw s) | Fault => (m, Fault) | NoFuel => (m, NoFuel)
  end.

Definition rotate (pathExists : bool) (suffix : bytes) (sample : list field * Z) (m : FTDCFileManager) : FTDCFileManager * outcome Status unit :=
  and_then (on_writer close m) (fun m =>
    let names := scanDirectory (_disk (_writer m)) in
    and_then (on_disk (trimDirectory names) m) (fun m =>
      with_name (generateArchiveFileName pathExists suffix m) (fun name m => on_writer (openArchiveFile sample name []) m))).

Definition writeSampleAndRotateIfNeeded (pathExists : bool) (suffix : bytes) (rotateSample : list field * Z) (sample : list field) (date : Z)
    (m : FTDCFileManager) : FTDCFileManager * outcome Status unit :=
  and_then (on_writer (writeSample sample date) m) (fun m =>
    if maxFileSizeBytes <? getSize (_writer m) then rotate pathExists suffix rotateSample m else (m, Ret tt)).

Definition manager_close (m : FTDCFileManager) : FTDCFileManager * outcome Status unit := on_writer close m.

(** A round of the collection thread: the periodic sample, the time, and what the rotation
    collectors would return. *)
Record Round := mkRound { r_sample : list field; r_date : Z; r_suffix : bytes; r_rotate : list field * Z }.

Fixpoint run (rounds : list Round) (m : FTDCFileManager) : FTDCFileManager * outcome Status unit :=
  match rounds with
  | [] => (m, Ret tt)
  | r :: rounds => and_then (writeSampleAndRotateIfNeeded true (r_suffix r) (r_rotate r) (r_sample r) (r_date r) m) (run rounds)
  end.

(** All archive files, in the order of their names. *)
Definition read_directory (fuel : nat) (d : Disk) : list (FTDCType * list field * Z) :=
  List.concat ((fun name => (read_all fuel (reader_open (file_of d name))).1) <$> scanDirectory d).

(** ** The files of the directory *)

#[local] Abbreviation entry_ok := (entry_ok outOfRange toLong z server).

(** The archive files of the directory, the oldest first, with what is in them. *)
Definition history : Type := list (bytes * list entry).
Definition total (h : history) : Z := foldr (fun x n => Z.of_nat (length (file_bytes x.2)) + n) 0 h.

Record dir_state (d : Disk) (h : history) : Prop := {
  ds_calm : faults d = [];
  ds_sorted : StronglySorted name_le h.*1;
  ds_nodup : NoDup h.*1;
  ds_names : Forall (fun name => is_archive name = true /\ name <> kFTDCInterimTempFile) h.*1;
  ds_files : forall name, is_archive name = true -> files d !! name = file_bytes <$> (list_to_map h : gmap bytes (list entry)) !! name;
  ds_ok : Forall (fun x => Forall entry_ok x.2) h
}.

Lemma dir_scan (d : Disk) (h : history) : dir_state d h -> scanDirectory d = h.*1.
Proof.
  intros [_ Hs Hn Ha Hf _]. apply scan_sorted; [done|done|]. intros name. split.
  - intros Hin. rewrite Forall_forall in Ha. destruct (Ha name Hin) as [Har _]. split; [done|]. rewrite Hf by done.
    apply list_elem_of_fmap in Hin as ([n es] & -> & Hin). rewrite (elem_of_list_to_map_1 _ _ _ Hn Hin). done.
  - intros [Har [c Hc]]. rewrite Hf in Hc by done. apply fmap_Some in Hc as (es & Hes & _). apply elem_of_list_to_map_2 in Hes. by apply (list_elem_of_fmap_2 fst) in Hes.
Qed.

Lemma dir_lookup (d : Disk) (h : history) (name : bytes) (es : list entry) : dir_state d h -> (name, es) ∈ h -> files d !! name = Some (file_bytes es).
Proof.
  intros [_ _ Hn Ha Hf _] Hin. rewrite Hf, (elem_of_list_to_map_1 _ _ _ Hn Hin); [done|]. rewrite Forall_forall in Ha. apply (Ha name). by apply (list_elem_of_fmap_2 fst) in Hin.
Qed.

Lemma dir_erase (d : Disk) (a b : history) (x : bytes * list entry) : dir_state d (a ++ x :: b) -> dir_state (erase x.1 d) (a ++ b).
Proof.
  intros [Hc Hs Hn Ha Hf Ho]. rewrite !fmap_app, !fmap_cons in *. split.
  - done.
  - rewrite fmap_app. apply StronglySorted_app in Hs as (Hlt & Hs1 & Hs2). apply StronglySorted_inv in Hs2 as [Hs2 _]. apply StronglySorted_app_2; [|done|done].
    intros y1 y2 H1 H2. apply Hlt; [done|by right].
  - rewrite fmap_app. apply NoDup_app in Hn as (Hn1 & Hd & Hn2). apply NoDup_cons in Hn2 as [_ Hn2]. apply NoDup_app. split; [done|]. split; [|done]. intros y Hy Hb. apply (Hd y Hy). by right.
  - rewrite fmap_app. apply Forall_app in Ha as [Ha1 Ha2]. apply Forall_cons in Ha2 as [_ Ha2]. by apply Forall_app.
  - intros name Har. cbn [erase files]. destruct (decide (name = x.1)) as [->|Hne].
    + rewrite lookup_delete_eq, not_elem_of_list_to_map_1; [done|]. rewrite fmap_app, elem_of_app. apply NoDup_app in Hn as (_ & Hd & Hn2). apply NoDup_cons in Hn2 as [Hx _].
      intros [H|H]; [apply (Hd x.1 H); by left|done].
    + rewrite lookup_delete_ne, Hf by done. f_equal. destruct x as [n es]. by rewrite !list_to_map_app, list_to_map_cons, !lookup_union, lookup_insert_ne by done.
  - apply Forall_app in Ho as [Ho1 Ho2]. apply Forall_cons in Ho2 as [_ Ho2]. by apply Forall_app.
Qed.

Lemma total_app (a b : history) : total (a ++ b) = total a + total b.
Proof. unfold total. induction a as [|x a IH]; [done|]. cbn [app foldr]. lia. Qed.

Lemma total_nonneg (a : history) : 0 <= total a.
Proof. unfold total. induction a as [|x a IH]; cbn [foldr]; lia. Qed.

(** What trimming keeps of [l] when newer files of [size] bytes are kept: the newest files that
    fit, and as many as fit. *)
Definition trim_keeps (size : Z) (l l' : history) : Prop :=
  exists k, (k <= length l)%nat /\ l' = drop k l /\ (maxDirectorySizeBytes <= size -> l' = []) /\
    (size < maxDirectorySizeBytes -> size + total l' < maxDirectorySizeBytes) /\
    (k = 0%nat \/ maxDirectorySizeBytes <= size + total (drop (k - 1) l)).

Lemma trim_keeps_snoc (size : Z) (l l' : history) (x : bytes * list entry) :
  size + total [x] < maxDirectorySizeBytes -> trim_keeps (size + total [x]) l l' -> trim_keeps size (l ++ [x]) (l' ++ [x]).
Proof.
  intros Hx (k & Hk & -> & Hfull & Hfit & Hmax). pose proof (total_nonneg [x]). exists k. rewrite length_app, drop_app_le, total_app by lia. specialize (Hfit Hx).
  split_and!; [lia|done|lia|lia|]. destruct Hmax as [->|Hmax]; [by left|right]. rewrite drop_app_le, total_app by lia. lia.
Qed.

Lemma trim_keeps_none (size : Z) (l : history) (x : bytes * list entry) : maxDirectorySizeBytes <= size + total [x] -> trim_keeps size (l ++ [x]) [].
Proof.
  intros Hx. exists (length (l ++ [x])). split_and!; [done|by rewrite drop_all|done|cbn; lia|right]. rewrite length_app, Nat.add_sub, drop_app_length. done.
Qed.

Lemma trim_ok (r : history) : forall (size : Z) (d : Disk) (kept : history),
  dir_state d (reverse r ++ kept) ->
  exists d' l', trim r.*1 size d = (d', Ret tt) /\ dir_state d' (l' ++ kept) /\ l' `sublist_of` reverse r /\
    (forall f, is_archive f = false -> files d' !! f = files d !! f) /\
    (0 <= size -> size + total (reverse r) < 2 ^ 64 -> trim_keeps size (reverse r) l').
Proof.
  induction r as [|x r IH]; intros size d kept Hd.
  { exists d, []. split; [done|]. split; [done|]. split; [done|]. split; [done|]. intros _ _. exists 0%nat. split_and!; [done|done|done|cbn; lia|by left]. }
  rewrite reverse_cons, <- app_assoc in *. cbn [fmap list_fmap trim app] in *.
  assert (file_size x.1 d = Ret (total [x])) as ->.
  { unfold file_size. destruct x as [n es]. cbn [fst]. rewrite (dir_lookup d _ n es Hd); [unfold total; cbn [foldr snd]; by rewrite Z.add_0_r|]. apply elem_of_app. right. by left. }
  destruct (Z.leb_spec maxDirectorySizeBytes (wrapu 64 (size + total [x]))) as [Hle|Hlt].
  - assert (remove x.1 d = (erase x.1 d, Ret tt)) as -> by (unfold remove, attempt; by rewrite (ds_calm _ _ Hd)). cbn [and_then].
    destruct (IH (wrapu 64 (size + total [x])) (erase x.1 d) kept) as (d' & l' & Ht & Hd' & Hsub & Hf & Hk); [by apply dir_erase|].
    exists d', l'. split; [done|]. split; [done|]. split; [by apply sublist_inserts_r|]. split.
    + intros f Hf'. rewrite Hf by done. cbn [erase files]. apply lookup_delete_ne. intros <-. pose proof (ds_names _ _ Hd) as Hn. rewrite fmap_app, fmap_cons in Hn. apply Forall_app in Hn as [_ Hn]. apply Forall_cons in Hn as [[Hn _] _]. congruence.
    + rewrite total_app. intros H0 H1. pose proof (total_nonneg (reverse r)). pose proof (total_nonneg [x]). rewrite wrapu_small in * by lia.
      destruct (Hk ltac:(lia) ltac:(lia)) as (k & _ & _ & Hnil & _). rewrite (Hnil Hle). by apply trim_keeps_none.
  - destruct (IH (wrapu 64 (size + total [x])) d (x :: kept) Hd) as (d' & l' & Ht & Hd' & Hsub & Hf & Hk). exists d', (l' ++ [x]). rewrite <- app_assoc.
    split; [done|]. split; [done|]. split; [by apply sublist_app|]. split; [done|]. rewrite total_app. intros H0 H1. pose proof (total_nonneg (reverse r)). pose proof (total_nonneg [x]).
    rewrite wrapu_small in * by lia. apply trim_keeps_snoc; [done|]. apply Hk; lia.
Qed.

Lemma total_drop_le (h : history) (i j : nat) : (i <= j)%nat -> total (drop j h) <= total (drop i h).
Proof.
  intros Hij. pose proof (total_nonneg (take (j - i) (drop i h))).
  rewrite <- (take_drop (j - i) (drop i h)), total_app, drop_drop. replace (i + (j - i))%nat with j by lia. lia.
Qed.

(** C33. Trimming. In a directory with archive files of a total below [2 ^ 64] bytes trimming
    removes the oldest files and nothing else. A file stays when it and the newer ones add up
    to less than [maxDirectorySizeBytes], and goes when they add up to more; other files
    stay. Of a file at which the sum is exactly the limit nothing is said. *)
Theorem trimDirectory_keeps_newest (d : Disk) (h : history) :
  dir_state d h -> total h < 2 ^ 64 -> 0 < maxDirectorySizeBytes ->
  exists d' k, trimDirectory (scanDirectory d) d = (d', Ret tt) /\ (k <= length h)%nat /\ dir_state d' (drop k h) /\
    scanDirectory d' = (drop k h).*1 /\ (forall f, is_archive f = false -> files d' !! f = files d !! f) /\
    (forall j, (j <= length h)%nat -> total (drop j h) < maxDirectorySizeBytes -> (k <= j)%nat) /\
    (forall j, maxDirectorySizeBytes < total (drop j h) -> (j < k)%nat).
Proof.
  intros Hd Ht Hm. rewrite (dir_scan d h Hd). unfold trimDirectory. rewrite <- fmap_reverse.
  destruct (trim_ok (reverse h) 0 d []) as (d' & l' & Hr & Hd' & _ & Hf & Hk); [by rewrite reverse_involutive, app_nil_r|].
  rewrite reverse_involutive in Hk. rewrite app_nil_r in Hd'. destruct (Hk ltac:(lia) ltac:(lia)) as (k & Hle & -> & _ & Hfit & Hmax).
  exists d', k. split_and!; [done|done|done|by apply dir_scan|done| |].
  - intros j _ Hj. destruct Hmax as [->|Hmax]; [lia|]. destruct (le_lt_dec k j) as [?|Hlt]; [done|].
    pose proof (total_drop_le h j (k - 1) ltac:(lia)). lia.
  - intros j Hj. destruct (le_lt_dec k j) as [Hkj|?]; [|done]. pose proof (total_drop_le h k j Hkj). specialize (Hfit ltac:(lia)). lia.
Qed.

(** A limit of zero removes every archive file. *)
Lemma trim_everything (d : Disk) (h : history) :
  dir_state d h -> total h < 2 ^ 64 -> maxDirectorySizeBytes = 0 -> exists d', trimDirectory (scanDirectory d) d = (d', Ret tt) /\ scanDirectory d' = [].
Proof.
  intros Hd Ht Hm. rewrite (dir_scan d h Hd). unfold trimDirectory. rewrite <- fmap_reverse.
  destruct (trim_ok (reverse h) 0 d []) as (d' & l' & Hr & Hd' & _ & _ & Hk); [by rewrite reverse_involutive, app_nil_r|].
  rewrite reverse_involutive in Hk. rewrite app_nil_r in Hd'. destruct (Hk ltac:(lia) ltac:(lia)) as (k & _ & _ & Hnil & _). rewrite (Hnil ltac:(lia)) in Hd'.
  exists d'. split; [done|]. by rewrite (dir_scan d' [] Hd').
Qed.

(** ** The manager between two calls *)

Variables (D I : nat).
Hypothesis HD : (0 < D)%nat /\ Z.of_nat D < 2 ^ 32 - 1.
Hypothesis Hconfig : maxSamplesPerArchiveMetricChunk = Z.of_nat D + 1.
Hypothesis HI : (0 < I)%nat /\ maxSamplesPerInterimMetricChunk = Z.of_nat I.
Hypothesis Hzlib : zlib_ok z.
#[local] Abbreviation sample_ok := (sample_ok outOfRange toLong server D).
#[local] Abbreviation same_metrics := (same_metrics outOfRange toLong).
#[local] Abbreviation logged := (logged outOfRange toLong z server D).
#[local] Abbreviation interim_inv := (interim_inv outOfRange toLong z server I).
#[local] Abbreviation pending_items := (pending_items outOfRange toLong).

Lemma not_archive_interim : is_archive kFTDCInterimFile = false.
Proof. done. Qed.

Lemma dir_temp (d : Disk) (h : history) : dir_state d h -> files d !! kFTDCInterimTempFile = None.
Proof.
  intros Hd. rewrite (ds_files _ _ Hd) by done. rewrite not_elem_of_list_to_map_1; [done|]. intros Hin. pose proof (ds_names _ _ Hd) as Hn. rewrite Forall_forall in Hn. by destruct (Hn _ Hin).
Qed.

(** A new file behind the others. *)
Lemma dir_snoc (d d' : Disk) (h : history) (name : bytes) (es : list entry) :
  dir_state d h -> faults d' = [] -> (forall f, f <> name -> is_archive f = true -> files d' !! f = files d !! f) -> files d' !! name = Some (file_bytes es) ->
  name ∉ h.*1 -> is_archive name = true -> name <> kFTDCInterimTempFile -> Forall (fun n => name_le n name) h.*1 -> Forall entry_ok es ->
  dir_state d' (h ++ [(name, es)]).
Proof.
  intros [_ Hs Hn Ha Hf Ho] Hc Hother Hname Hnew Har Hne Hle Hes. split.
  - done.
  - rewrite fmap_app. apply StronglySorted_app_2; [|done|repeat constructor]. intros x1 x2 H1 H2. apply list_elem_of_singleton in H2. subst x2. rewrite Forall_forall in Hle. by apply Hle.
  - rewrite fmap_app. apply NoDup_app. split; [done|]. split; [|by apply NoDup_singleton]. intros x Hx Hx'. apply list_elem_of_singleton in Hx'. by subst.
  - rewrite fmap_app. apply Forall_app. split; [done|]. by apply Forall_singleton.
  - intros f Hf'. rewrite list_to_map_snoc by done. destruct (decide (f = name)) as [->|Hfn]; [by rewrite lookup_insert_eq|]. by rewrite lookup_insert_ne, Hother, Hf by done.
  - apply Forall_app. split; [done|]. by apply Forall_singleton.
Qed.

Lemma dir_init (d : Disk) (h : history) (x : bytes * list entry) :
  dir_state d (h ++ [x]) -> dir_state (erase x.1 d) h /\ x.1 ∉ h.*1 /\ is_archive x.1 = true /\ x.1 <> kFTDCInterimTempFile /\ Forall (fun n => name_le n x.1) h.*1.
Proof.
  intros Hd. split; [rewrite <- (app_nil_r h); by apply dir_erase|]. destruct Hd as [_ Hs Hn Ha _ _]. rewrite fmap_app in *. apply Forall_app in Ha as [_ Ha]. apply Forall_cons in Ha as [[? ?] _].
  split; [|split; [done|split; [done|]]].
  - intros Hin. apply NoDup_app in Hn as (_ & Hn & _). apply (Hn x.1 Hin). by left.
  - apply Forall_forall. intros n Hin. apply (StronglySorted_app_1_elem_of _ _ _ _ _ Hs Hin). by left.
Qed.

(** The directory after an operation of the writer. *)
Lemma frame_dir (w w' : FTDCFileWriter) (h : history) (es es' : list entry) :
  frame w w' -> dir_state (_disk w) (h ++ [(_archiveFile w, es)]) -> _archive w' = file_bytes es' -> Forall entry_ok es' ->
  dir_state (_disk w') (h ++ [(_archiveFile w', es')]).
Proof.
  intros (Hn & Hc & Hs & Ht & Hf) Hd Ha Hes. destruct (dir_init _ _ _ Hd) as (Hd0 & Hnew & Har & Hne & Hle). cbn [fst] in *. rewrite Hn.
  apply (dir_snoc (erase (_archiveFile w) (_disk w))); try done.
  - apply Hc. apply Hd.
  - intros f Hf' Har'. cbn [erase files]. rewrite lookup_delete_ne by done. destruct (decide (f = kFTDCInterimTempFile)) as [->|Hft].
    + rewrite (dir_temp _ _ Hd). apply Ht; [by apply (dir_temp _ _ Hd)|apply Hd].
    + apply Hf; [done|intros ->; by rewrite not_archive_interim in Har'|done].
  - destruct Hs as [c Hs]; [rewrite (dir_lookup _ _ _ es Hd); [done|]; apply elem_of_app; right; by left|]. unfold _archive, file_of in Ha. rewrite Hs in Ha. rewrite Hn in Hs. by rewrite Hs, <- Ha.
Qed.

Definition items_of (h : history) : list (FTDCType * list field * Z) := List.concat (file_items <$> h.*2).

Lemma items_of_snoc (h : history) (x : bytes * list entry) : items_of (h ++ [x]) = items_of h ++ file_items x.2.
Proof. unfold items_of. rewrite !fmap_app, concat_app. cbn [fmap list_fmap List.concat]. by rewrite app_nil_r. Qed.

Section pending.
(** The samples that can be pending. *)
Variable R : list field -> Prop.

(** The manager, the files written so far, those of them that are left, and the current file. *)
Record manages (m : FTDCFileManager) (all h : history) (es : list entry) (p : pending) : Prop := {
  mi_logged : logged (_writer m) es p;
  mi_interim : interim_inv (_writer m) p;
  mi_pending : pending_in R p;
  mi_dir : dir_state (_disk (_writer m)) (h ++ [(_archiveFile (_writer m), es)]);
  mi_name : _archiveFile (_writer m) = archive_name (_previousArchiveFileSuffix m) (_fileNameUniquifier m);
  mi_number : 0 <= _fileNameUniquifier m < kMaxFileUniqifier;
  mi_sub : h `sublist_of` all;
  mi_left : total (all ++ [(_archiveFile (_writer m), es)]) < 2 ^ 64 -> exists k, h = drop k all
}.

(** Everything written, in order. *)
Definition stream (all : history) (es : list entry) (p : pending) : list (FTDCType * list field * Z) :=
  items_of all ++ file_items es ++ pending_items p.

(** What is in the archive files. *)
Definition archived (all : history) (es : list entry) : list (FTDCType * list field * Z) := items_of all ++ file_items es.

Lemma archived_prefix (all : history) (es es' : list entry) : es `prefix_of` es' -> archived all es `prefix_of` archived all es'.
Proof. intros [more ->]. unfold archived, file_items. rewrite fmap_app, concat_app, app_assoc. by apply prefix_app_r. Qed.

Lemma total_prefix (all : history) (name : bytes) (es es' : list entry) : es `prefix_of` es' -> total (all ++ [(name, es)]) <= total (all ++ [(name, es')]).
Proof.
  intros [more ->]. rewrite !total_app. unfold total. cbn [foldr snd]. unfold file_bytes. rewrite fmap_app, concat_app, length_app. lia.
Qed.

(** A sample. *)
Lemma manager_sample (m : FTDCFileManager) (all h : history) (es : list entry) (p : pending) (sample : list field) (date : Z) :
  manages m all h es p -> sample_ok sample -> date_ok date -> R sample ->
  exists m' es' p' d dt, on_writer (writeSample sample date) m = (m', Ret tt) /\ manages m' all h es' p' /\
    _previousArchiveFileSuffix m' = _previousArchiveFileSuffix m /\ _fileNameUniquifier m' = _fileNameUniquifier m /\
    archived all es `prefix_of` archived all es' /\ stream all es' p' = stream all es p ++ [(kMetricChunk, d, dt)] /\ same_metrics sample d.
Proof.
  intros [Hl Hi Hp Hd Hn Hu Hsub0 Hleft] Hs Hdate HR. unfold on_writer. pose proof (ds_calm _ _ Hd) as Hcalm.
  destruct (writeSample_ok outOfRange toLong z maxSamplesPerArchiveMetricChunk maxSamplesPerInterimMetricChunk server D I HD Hconfig HI Hzlib R (_writer m) es p sample date Hl Hs Hdate HR Hp)
    as (w' & st & es' & p' & -> & [Hf [[-> Hl']|[Hn' _]]] & (Hpre & Hp' & d & dt & Hitems & Hk) & Hint); [|done].
  exists (set_writer w' m), es', p', d, dt. split; [done|]. split; [|split; [done|split; [done|split; [by apply archived_prefix|split]]]].
  - split; cbn [set_writer _writer _previousArchiveFileSuffix _fileNameUniquifier]; [done|by apply Hint|done| | |done|done|].
    + destruct Hl' as (_ & Ha & Hes & _). by apply (frame_dir (_writer m) w' h es).
    + destruct Hf as [-> _]. done.
    + destruct Hf as [-> _]. intros Ht. apply Hleft. pose proof (total_prefix all (_archiveFile (_writer m)) es es' Hpre). lia.
  - unfold stream. rewrite Hitems. by rewrite <- !app_assoc.
  - by apply (kept_same _ _ R).
Qed.

(** ** A new file *)

Definition meta (sample : list field * Z) : list entry := if bool_decide (sample.1 = []) then [] else [Metadata sample.1 sample.2].

Lemma open_fresh (name : bytes) (w : FTDCFileWriter) (h : history) :
  _isOpen w = false -> dir_state (_disk w) h -> name ∉ h.*1 -> is_archive name = true -> name <> kFTDCInterimTempFile -> Forall (fun n => name_le n name) h.*1 ->
  exists w', open name w = (w', Ret tt) /\ logged w' [] None /\ _interim w' = _interim w /\ _archiveFile w' = name /\ dir_state (_disk w') (h ++ [(name, [])]).
Proof.
  intros Ho Hd Hnew Har Ht Hle.
  assert (files (_disk w) !! name = None) as Hnone by (rewrite (ds_files _ _ Hd), not_elem_of_list_to_map_1 by done; done).
  assert (name <> kFTDCInterimFile) as Hi by (intros ->; by rewrite not_archive_interim in Har).
  destruct (open_ok outOfRange toLong z maxSamplesPerArchiveMetricChunk server D name w [] Ho Hi Ht (Forall_nil_2 _)) as (w' & st & Hw & Hc & Hn & Hf & Hst);
    [unfold file_of; by rewrite Hnone|].
  destruct Hst as [(-> & Hl & [c Hs])|(Hc' & _)]; [|by destruct Hc'; apply Hd]. exists w'. split; [done|]. split; [done|]. split; [by apply Hf|]. split; [done|].
  apply (dir_snoc (_disk w)); try done; [apply Hc, Hd|by intros; apply Hf|]. destruct Hl as (_ & Ha & _). unfold _archive, file_of in Ha. by rewrite Hn, Hs in Ha; cbn in Ha; subst.
Qed.

Lemma append_metadata (sample : list field * Z) (w : FTDCFileWriter) (es : list entry) (p : pending) :
  logged w es p -> calm w -> Forall entry_ok (meta sample) ->
  exists w', (if bool_decide (sample.1 = []) then (w, Ret tt) else writeMetadata sample.1 sample.2 w) = (w', Ret tt) /\ frame w w' /\ _interim w' = _interim w /\
    logged w' (es ++ meta sample) p.
Proof.
  unfold meta. intros Hl Hc Hm. destruct (bool_decide (sample.1 = [])); [exists w; by rewrite app_nil_r|]. rewrite Forall_singleton in Hm.
  destruct (writeMetadata_ok outOfRange toLong z server D sample.1 sample.2 w es p Hl Hm) as (w' & st & -> & Hf & Hi & [[-> Hl']|[Hn _]]); [|done]. by exists w'.
Qed.

(** The number where the search for a name starts. *)
Definition first_number (suffix : bytes) (m : FTDCFileManager) : Z := if decide (_previousArchiveFileSuffix m = suffix) then _fileNameUniquifier m else 0.

Lemma generate_ok (suffix : bytes) (m : FTDCFileManager) (h : history) (free : Z) :
  dir_state (_disk (_writer m)) h -> 0 <= first_number suffix m <= free -> free < kMaxFileUniqifier ->
  archive_name suffix free ∉ h.*1 -> Forall (fun n => name_le n (archive_name suffix (first_number suffix m))) h.*1 ->
  exists n, generateArchiveFileName true suffix m = (mkManager (_writer m) suffix n, Ret (archive_name suffix n)) /\
    first_number suffix m <= n <= free /\ archive_name suffix n ∉ h.*1 /\ Forall (fun x => name_le x (archive_name suffix n)) h.*1.
Proof.
  unfold kMaxFileUniqifier. intros Hd Hfirst Hfree Hnew Hle. unfold generateArchiveFileName. fold (first_number suffix m).
  assert (forall n, files (_disk (_writer m)) !! archive_name suffix n = None <-> archive_name suffix n ∉ h.*1) as Hin.
  { intros n. rewrite (ds_files _ _ Hd) by apply is_archive_name. rewrite fmap_None. symmetry. apply not_elem_of_list_to_map. }
  destruct (unique_name_ok (_disk (_writer m)) suffix free (S (Z.to_nat (kMaxFileUniqifier - first_number suffix m))) (first_number suffix m)) as (n & -> & Hn & Hnone);
    [unfold kMaxFileUniqifier; lia|unfold kMaxFileUniqifier; lia|by apply Hin|].
  exists n. split; [done|]. split; [done|]. split; [by apply Hin|]. eapply Forall_impl; [exact Hle|]. cbn. intros x Hx. etrans; [exact Hx|]. apply archive_name_le; lia.
Qed.

(** The time is not before the time of the current file, and there are numbers left for it. *)
Definition later (suffix : bytes) (m : FTDCFileManager) : Prop :=
  length (_previousArchiveFileSuffix m) = length suffix /\
  (SD.lexcmp (_previousArchiveFileSuffix m) suffix < 0 \/ _previousArchiveFileSuffix m = suffix /\ _fileNameUniquifier m + 1 < kMaxFileUniqifier).

Definition next_number (suffix : bytes) (m : FTDCFileManager) : Z := if decide (_previousArchiveFileSuffix m = suffix) then _fileNameUniquifier m + 1 else 0.

Lemma later_names (suffix : bytes) (m : FTDCFileManager) (h : history) :
  later suffix m -> 0 <= _fileNameUniquifier m < kMaxFileUniqifier ->
  Forall (fun n => name_le n (archive_name (_previousArchiveFileSuffix m) (_fileNameUniquifier m))) h.*1 ->
  0 <= first_number suffix m <= next_number suffix m /\ next_number suffix m < kMaxFileUniqifier /\ archive_name suffix (next_number suffix m) ∉ h.*1 /\
  Forall (fun n => name_le n (archive_name suffix (first_number suffix m))) h.*1.
Proof.
  unfold kMaxFileUniqifier. intros [Hl Hs] Hu Hle. unfold first_number, next_number.
  assert (SD.lexcmp (archive_name (_previousArchiveFileSuffix m) (_fileNameUniquifier m)) (archive_name suffix (next_number suffix m)) < 0) as Hlt.
  { unfold next_number. destruct (decide (_previousArchiveFileSuffix m = suffix)) as [E|E]; destruct Hs as [Hs|[Hs Hn]]; try done;
      apply archive_name_lt; try done; try lia; first [by left|right; split; [done|lia]]. }
  assert (archive_name suffix (next_number suffix m) ∉ h.*1) as Hnew.
  { intros Hin. rewrite Forall_forall in Hle. specialize (Hle _ Hin). unfold name_le in Hle. rewrite SD.lexcmp_antisym in Hle. lia. }
  unfold next_number, kMaxFileUniqifier in *. destruct (decide (_previousArchiveFileSuffix m = suffix)) as [E|E].
  - subst suffix. split; [lia|]. split; [|done]. destruct Hs as [Hs|[_ Hn]]; [|lia]. assert (SD.lexcmp (_previousArchiveFileSuffix m) (_previousArchiveFileSuffix m) = 0) by (by apply SD.lexcmp_eq). lia.
  - split; [lia|]. split; [lia|]. split; [done|]. eapply Forall_impl; [exact Hle|]. intros x Hx.
    transitivity (archive_name (_previousArchiveFileSuffix m) (_fileNameUniquifier m)); [exact Hx|]. unfold name_le. lia.
Qed.

Lemma drop_left (all h : history) (x : bytes * list entry) : (exists k, h = drop k all) -> exists k, h ++ [x] = drop k (all ++ [x]).
Proof.
  intros [k ->]. exists (Nat.min k (length all)). destruct (decide (k <= length all)%nat) as [Hk|Hk].
  - rewrite Nat.min_l by done. by rewrite drop_app_le.
  - rewrite Nat.min_r, drop_app_length, drop_ge by lia. done.
Qed.

Lemma total_drop (k : nat) (h : history) : total (drop k h) <= total h.
Proof. rewrite <- (take_drop k h) at 2. rewrite total_app. pose proof (total_nonneg (take k h)). lia. Qed.

(** Closing the current file. *)
Lemma manager_close_ok (m : FTDCFileManager) (all h : history) (es : list entry) (p : pending) :
  manages m all h es p ->
  exists w es1, on_writer close m = (set_writer w m, Ret tt) /\ _isOpen w = false /\ _interim w = None /\
    dir_state (_disk w) (h ++ [(_archiveFile (_writer m), es1)]) /\ es `prefix_of` es1 /\ file_items es1 = file_items es ++ pending_items p.
Proof.
  intros [Hl _ _ Hd _ _ _ _]. unfold on_writer.
  destruct (close_ok outOfRange toLong z server D HD Hzlib (_writer m) es p Hl) as (w & st & es1 & -> & Hf & Hes & Hpre & Hitems & Hst).
  destruct Hst as [(-> & Ho & Hint & Ha)|(Hc & _)]; [|by destruct Hc; apply (ds_calm _ _ Hd)].
  pose proof (frame_dir (_writer m) w h es es1 Hf Hd Ha Hes) as Hd1. assert (_archiveFile w = _archiveFile (_writer m)) as Hname by apply Hf. rewrite Hname in Hd1.
  by exists w, es1.
Qed.

Lemma manages_left (m : FTDCFileManager) (all h : history) (es es1 : list entry) (p : pending) :
  manages m all h es p -> es `prefix_of` es1 ->
  h ++ [(_archiveFile (_writer m), es1)] `sublist_of` all ++ [(_archiveFile (_writer m), es1)] /\
  (total (all ++ [(_archiveFile (_writer m), es1)]) < 2 ^ 64 -> exists k, h ++ [(_archiveFile (_writer m), es1)] = drop k (all ++ [(_archiveFile (_writer m), es1)])).
Proof.
  intros [_ _ _ _ _ _ Hsub Hleft] Hpre. split; [by apply sublist_app|]. intros Ht. pose proof (total_prefix all (_archiveFile (_writer m)) es es1 Hpre) as Hle.
  apply drop_left, Hleft. exact (Z.le_lt_trans _ _ _ Hle Ht).
Qed.

(** Closing the current file and removing old ones. *)
Lemma close_and_trim (m : FTDCFileManager) (all h : history) (es : list entry) (p : pending) :
  manages m all h es p ->
  exists w w2 es1 h', on_writer close m = (set_writer w m, Ret tt) /\
    on_disk (trimDirectory (scanDirectory (_disk w))) (set_writer w m) = (set_writer w2 m, Ret tt) /\
    _isOpen w2 = false /\ _interim w2 = None /\ dir_state (_disk w2) h' /\ Forall (fun n => name_le n (_archiveFile (_writer m))) h'.*1 /\
    file_items es1 = file_items es ++ pending_items p /\ h' `sublist_of` all ++ [(_archiveFile (_writer m), es1)] /\
    (total (all ++ [(_archiveFile (_writer m), es1)]) < 2 ^ 64 -> exists k, h' = drop k (all ++ [(_archiveFile (_writer m), es1)])).
Proof.
  intros Hm. destruct (manager_close_ok m all h es p Hm) as (w & es1 & Hclose & Ho & Hint & Hd1 & Hpre & Hitems). destruct (manages_left m all h es es1 p Hm Hpre) as [Hsub0 Hleft].
  remember (_archiveFile (_writer m), es1) as x eqn:Hx.
  destruct (trim_ok (reverse (h ++ [x])) 0 (_disk w) []) as (d2 & h' & Htrim & Hd2 & Hsub & Hother & Hk); [by rewrite reverse_involutive, app_nil_r|].
  rewrite reverse_involutive in *. rewrite app_nil_r in Hd2. exists w, (set_disk d2 w), es1, h'. rewrite <- Hx. split; [done|].
  split; [unfold on_disk, on_writer, trimDirectory; rewrite (dir_scan _ _ Hd1), <- fmap_reverse; cbn [_writer set_writer]; by rewrite Htrim|].
  split; [done|]. split; [|split; [done|split; [|split; [done|split]]]].
  - unfold _interim in *. cbn [set_disk _disk]. by rewrite Hother.
  - apply Forall_forall. intros n Hin. apply list_elem_of_fmap in Hin as (y & -> & Hin). apply (elem_of_sublist _ _ _ Hin) in Hsub.
    apply elem_of_app in Hsub as [Hy|Hy]; [|apply list_elem_of_singleton in Hy as ->; by subst x].
    destruct (dir_init _ _ _ Hd1) as (_ & _ & _ & _ & Hle). rewrite Forall_forall in Hle. subst x. apply Hle. by apply list_elem_of_fmap_2.
  - by etrans.
  - intros Ht. destruct (Hleft Ht) as [k Hdrop]. rewrite Hdrop in Hk. pose proof (total_drop k (all ++ [x])). destruct (Hk ltac:(lia) ltac:(lia)) as (k' & _ & -> & _).
    exists (k + k')%nat. by rewrite drop_drop.
Qed.

Lemma rotate_ok (m : FTDCFileManager) (all h : history) (es : list entry) (p : pending) (suffix : bytes) (sample : list field * Z) :
  manages m all h es p -> later suffix m -> Forall entry_ok (meta sample) ->
  exists m' x h', rotate true suffix sample m = (m', Ret tt) /\ manages m' (all ++ [x]) h' (meta sample) None /\
    archived all es `prefix_of` archived (all ++ [x]) (meta sample) /\ stream (all ++ [x]) (meta sample) None = stream all es p ++ file_items (meta sample) /\
    _previousArchiveFileSuffix m' = suffix /\ first_number suffix m <= _fileNameUniquifier m' <= next_number suffix m.
Proof.
  intros Hm Hlater Hmeta. destruct (close_and_trim m all h es p Hm) as (w & w2 & es1 & h' & Hclose & Htrim & Ho & Hint & Hd & Hle & Hitems & Hsub & Hleft).
  destruct Hm as [_ _ _ _ Hn Hu _ _]. rewrite Hn in Hle. destruct (later_names suffix m h' Hlater Hu Hle) as (Hfirst & Hnext & Hnew & Hle').
  unfold rotate. rewrite Hclose. cbn [and_then]. change (_writer (set_writer w m)) with w. rewrite Htrim. cbn [and_then].
  destruct (generate_ok suffix (set_writer w2 m) h' (next_number suffix m) Hd Hfirst Hnext Hnew Hle') as (n & -> & Hn' & Hnew' & Hle''). cbn [with_name].
  destruct (archive_name_ne suffix n) as [_ Htemp].
  destruct (open_fresh (archive_name suffix n) w2 h' Ho Hd Hnew' (is_archive_name suffix n) Htemp Hle'') as (w3 & Hopen & Hl3 & Hi3 & Hn3 & Hd3).
  destruct (append_metadata sample w3 [] None Hl3 (ds_calm _ _ Hd3) Hmeta) as (w4 & Hw4 & Hf4 & Hi4 & Hl4). cbn [app] in Hl4.
  assert (_archiveFile w4 = archive_name suffix n) as Hn4 by (destruct Hf4 as [-> _]; done).
  exists (mkManager w4 suffix n), (_archiveFile (_writer m), es1), h'.
  split; [unfold on_writer, openArchiveFile; cbn [_writer set_writer append_docs and_then]; rewrite Hopen; cbn [and_then]; by rewrite Hw4|].
  split; [|split; [|split; [|split; [done|exact Hn']]]].
  - assert (0 <= n < kMaxFileUniqifier) as Hrange by (change (first_number suffix (set_writer w2 m)) with (first_number suffix m) in Hn'; lia).
    split; cbn [_writer _previousArchiveFileSuffix _fileNameUniquifier]; [done| |done| |done|done|done|].
    + unfold FtdcFile.interim_inv. by rewrite Hi4, Hi3.
    + apply (frame_dir w3 w4 h' []); [done|by rewrite Hn3|apply Hl4|done].
    + intros Ht. apply Hleft. rewrite total_app in Ht. pose proof (total_nonneg [(_archiveFile w4, meta sample)]). lia.
  - unfold archived. rewrite items_of_snoc. cbn [snd]. rewrite Hitems, <- !app_assoc. apply prefix_app. by apply prefix_app_r.
  - unfold stream. rewrite items_of_snoc. cbn [snd FtdcFile.pending_items]. rewrite Hitems, app_nil_r. by rewrite <- !app_assoc.
Qed.

(** ** Starting *)

(** What a crash left in the interim file: nothing, or a chunk that the last update wrote. *)
Inductive left_over (d : Disk) : pending -> Prop :=
  | nothing_left : files d !! kFTDCInterimFile = None -> left_over d None
  | chunk_left (chunk : bytes) (r : list field) (date : Z) (rest : list (list field)) :
      files d !! kFTDCInterimFile = Some (entry_bytes (Chunk chunk date (r :: rest))) -> entry_ok (Chunk chunk date (r :: rest)) ->
      Forall sample_ok (r :: rest) -> Forall (fun s => doc_same_shape r s = true) rest -> (0 < length rest < D)%nat -> (length rest mod I = 0)%nat ->
      left_over d (Some (r, date, rest)).

Definition pending_docs (p : pending) : list (list field * Z) :=
  match p with None => [] | Some (r, date, rest) => (fun d => (d, date)) <$> (r :: rest) end.

Lemma recover_ok (fuel : nat) (d : Disk) (p : pending) :
  left_over d p -> (length (pending_docs p) < fuel)%nat -> recoverInterimFile fuel d = Ret (metric_item <$> pending_docs p).
Proof.
  intros [Hn|chunk r date rest Hf He _ _ _ _] Hfuel; unfold recoverInterimFile; [by rewrite Hn|]. rewrite Hf.
  assert (length (entry_bytes (Chunk chunk date (r :: rest))) <> 0%nat) as Hne by (unfold entry_bytes; rewrite length_enc_obj; lia).
  destruct (Nat.eqb_spec (length (entry_bytes (Chunk chunk date (r :: rest)))) 0); [done|].
  pose proof (read_file outOfRange toLong z server decimalInteger fuel [Chunk chunk date (r :: rest)]) as Hr. unfold file_bytes, file_items in Hr.
  cbn [fmap list_fmap List.concat] in Hr. rewrite !app_nil_r in Hr. cbn [pending_docs] in *. rewrite length_fmap in Hfuel. rewrite Hr.
  - unfold items. rewrite <- list_fmap_compose. done.
  - by apply Forall_singleton.
  - unfold items. by rewrite length_fmap.
Qed.

Lemma append_docs_samples (l : list (list field * Z)) (w : FTDCFileWriter) :
  append_docs (metric_item <$> l) w = writeSamples outOfRange toLong z maxSamplesPerArchiveMetricChunk maxSamplesPerInterimMetricChunk l w.
Proof.
  revert w. induction l as [|[s date] l IH]; intros w; [done|]. cbn [fmap list_fmap append_docs writeSamples]. unfold append_doc at 1. cbn [metric_item fst snd].
  destruct (writeSample s date w) as [w' [[]| | |]]; cbn [and_then]; [apply IH|done..].
Qed.

(** The samples of the interim file are pending again, and in the interim file. *)
Lemma replay_rest (l : list (list field)) : forall (w : FTDCFileWriter) (r : list field) (date : Z) (rest : list (list field)),
  logged w [] (Some (r, date, rest)) -> calm w -> Forall sample_ok l -> Forall (fun s => doc_same_shape r s = true) l -> (length rest + length l < D)%nat ->
  exists w', writeSamples outOfRange toLong z maxSamplesPerArchiveMetricChunk maxSamplesPerInterimMetricChunk ((fun d => (d, date)) <$> l) w = (w', Ret tt) /\
    frame w w' /\ logged w' [] (Some (r, date, rest ++ l)) /\
    (l <> [] -> ((length rest + length l) mod I = 0)%nat -> interim_inv w' (Some (r, date, rest ++ l))).
Proof.
  induction l as [|s l IH]; intros w r date rest Hl Hc Hok Hsh Hlen.
  { exists w. rewrite app_nil_r. split; [done|]. split; [done|]. split; [done|done]. }
  apply Forall_cons in Hok as [Hs Hok]. apply Forall_cons in Hsh as [Hss Hsh]. cbn [length] in Hlen.
  destruct (writeSample_same outOfRange toLong z maxSamplesPerArchiveMetricChunk maxSamplesPerInterimMetricChunk server D I HD Hconfig HI Hzlib w [] r s date date rest Hl Hc Hs Hss ltac:(lia))
    as (w1 & Hw1 & Hf1 & Hl1 & Hi1).
  destruct (IH w1 r date (rest ++ [s]) Hl1) as (w2 & Hw2 & Hf2 & Hl2 & Hi2); [by apply Hf1|done|done|solve_length|].
  exists w2. cbn [fmap list_fmap writeSamples]. rewrite Hw1. cbn [and_then]. split; [done|]. split; [by etrans|]. rewrite <- app_assoc in *. split; [done|]. intros _ Hmod.
  cbn [length] in Hmod. destruct l as [|s' l]; [|apply Hi2; [done|rewrite length_app; cbn [length] in *; by rewrite <- Nat.add_assoc]].
  cbn [fmap list_fmap writeSamples] in Hw2. injection Hw2 as <-. apply Hi1. by rewrite <- Nat.add_1_r.
Qed.

Lemma replay_ok (d : Disk) (p : pending) (w : FTDCFileWriter) :
  left_over d p -> logged w [] None -> calm w -> _interim w = files d !! kFTDCInterimFile ->
  exists w', append_docs (metric_item <$> pending_docs p) w = (w', Ret tt) /\ frame w w' /\ logged w' [] p /\ interim_inv w' p.
Proof.
  intros Hp Hl Hc Hi. rewrite append_docs_samples. destruct Hp as [Hn|chunk r date rest Hf He Hok Hsh Hlen Hmod].
  - exists w. split; [done|]. split; [done|]. split; [done|]. unfold FtdcFile.interim_inv. by rewrite Hi.
  - apply Forall_cons in Hok as [Hr Hok].
    destruct (writeSample_first outOfRange toLong z maxSamplesPerArchiveMetricChunk maxSamplesPerInterimMetricChunk server D HD Hconfig (fun _ => True) w [] r date Hl Hr (proj1 He) Logic.I)
      as (w1 & Hw1 & Hf1 & Hl1 & _).
    destruct (replay_rest rest w1 r date [] Hl1) as (w2 & Hw2 & Hf2 & Hl2 & Hi2); [by apply Hf1|done|done|cbn; lia|].
    exists w2. cbn [pending_docs fmap list_fmap writeSamples]. rewrite Hw1. cbn [and_then]. split; [done|]. split; [by etrans|]. split; [done|]. apply Hi2; [|done]. intros ->. cbn in Hlen. lia.
Qed.

(** Every archive file of the directory is from before the time. *)
Definition before_time (suffix : bytes) (h : history) : Prop := suffix <> [] /\ Forall (fun n => SD.lexcmp n (archive_name suffix 0) < 0) h.*1.

Lemma fresh_names (suffix : bytes) (d : Disk) (h : history) :
  before_time suffix h ->
  first_number suffix (mkManager (FTDCFileWriter_new d) [] 0) = 0 /\ archive_name suffix 0 ∉ h.*1 /\ Forall (fun n => name_le n (archive_name suffix 0)) h.*1.
Proof.
  intros [Hs Hb]. split; [unfold first_number; by rewrite decide_False|]. rewrite Forall_forall in Hb. split.
  - intros Hin. specialize (Hb _ Hin). assert (SD.lexcmp (archive_name suffix 0) (archive_name suffix 0) = 0) by (by apply SD.lexcmp_eq). lia.
  - apply Forall_forall. intros n Hin. specialize (Hb _ Hin). unfold name_le. lia.
Qed.

Lemma create_ok (dirExists dirCreated : bool) (fuel : nat) (suffix : bytes) (sample : list field * Z) (d : Disk) (all h : history) (p : pending) :
  dirExists || dirCreated = true -> dir_state d h -> h `sublist_of` all -> (total all < 2 ^ 64 -> exists k, h = drop k all) -> left_over d p -> pending_in R p -> before_time suffix h -> Forall entry_ok (meta sample) -> (length (pending_docs p) < fuel)%nat ->
  exists m h', create dirExists dirCreated fuel suffix sample d = (m, Ret tt) /\ manages m all h' (meta sample) p /\
    _previousArchiveFileSuffix m = suffix /\ _fileNameUniquifier m = 0.
Proof.
  intros Hdir Hd Hall Hleft Hp HR Hb Hmeta Hfuel. destruct (fresh_names suffix d h Hb) as (Hfirst & Hnew & Hle). unfold create. rewrite <- negb_orb, Hdir, (recover_ok fuel d p Hp Hfuel), (dir_scan d h Hd).
  destruct (generate_ok suffix (mkManager (FTDCFileWriter_new d) [] 0) h 0 Hd) as (n & -> & Hn & _); [lia|done|done|by rewrite Hfirst|]. rewrite Hfirst in Hn. assert (n = 0) as -> by lia. cbn [with_name].
  destruct (archive_name_ne suffix 0) as [_ Htemp].
  destruct (open_fresh (archive_name suffix 0) (FTDCFileWriter_new d) h eq_refl Hd Hnew (is_archive_name suffix 0) Htemp Hle) as (w1 & Hopen & Hl1 & Hi1 & Hn1 & Hd1).
  destruct (replay_ok d p w1 Hp Hl1 (ds_calm _ _ Hd1) Hi1) as (w2 & Hw2 & Hf2 & Hl2 & Hint2).
  destruct (append_metadata sample w2 [] p Hl2 ltac:(apply Hf2, Hd1) Hmeta) as (w3 & Hw3 & Hf3 & Hi3 & Hl3). cbn [app] in Hl3.
  assert (frame w1 w3) as Hf by (by etrans). assert (_archiveFile w3 = archive_name suffix 0) as Hn3 by (destruct Hf as [-> _]; done).
  pose proof (frame_dir w1 w3 h [] (meta sample) Hf ltac:(by rewrite Hn1) (proj1 (proj2 Hl3)) Hmeta) as Hd3. rewrite Hn3 in Hd3.
  destruct (trim_ok (reverse h) 0 (_disk w3) [(archive_name suffix 0, meta sample)]) as (d4 & h' & Htrim & Hd4 & Hsub & Hother & Hk); [by rewrite reverse_involutive|]. rewrite reverse_involutive in Hk, Hsub.
  exists (mkManager (set_disk d4 w3) suffix 0), h'. split; [|split; [|split; done]].
  - unfold on_disk, on_writer, openArchiveFile, trimDirectory. cbn [_writer]. rewrite Hopen. cbn [and_then]. rewrite Hw2. cbn [and_then]. rewrite Hw3.
    cbn [and_then set_writer _writer]. by rewrite <- fmap_reverse, Htrim.
  - assert (_archive (set_disk d4 w3) = file_bytes (meta sample)) as Ha.
    { unfold _archive, file_of. cbn [set_disk _disk _archiveFile]. rewrite Hn3, (dir_lookup d4 _ (archive_name suffix 0) (meta sample) Hd4); [done|]. apply elem_of_app. right. by left. }
    split; cbn [_writer _previousArchiveFileSuffix _fileNameUniquifier]; [..|].
    + destruct Hl3 as (Hh & _ & Hes & Hpend). split; [done|]. by rewrite Ha.
    + assert (_interim (set_disk d4 w3) = _interim w2) as Hi by (unfold _interim; cbn [set_disk _disk]; rewrite Hother by done; exact Hi3).
      unfold FtdcFile.interim_inv in *. by rewrite Hi.
    + done.
    + cbn [set_disk _archiveFile _disk]. by rewrite Hn3.
    + done.
    + done.
    + by etrans.
    + intros Ht. rewrite total_app in Ht. pose proof (total_nonneg [(_archiveFile (set_disk d4 w3), meta sample)]). destruct (Hleft ltac:(lia)) as [k' ->]. pose proof (total_drop k' all).
      destruct (Hk ltac:(lia) ltac:(lia)) as (k & _ & -> & _). exists (k' + k)%nat. by rewrite drop_drop.
Qed.

(** ** Runs *)

Definition count (s : bytes) (l : list bytes) : Z := Z.of_nat (length (filter (fun t => t = s) l)).

(** The times of the rounds do not go backwards, and no time comes up more often than there are
    numbers for it. *)
Record times_ok (prev : bytes) (n : Z) (l : list bytes) : Prop := {
  t_length : Forall (fun s => length prev = length s) l;
  t_sorted : StronglySorted name_le (prev :: l);
  t_prev : n + count prev l < kMaxFileUniqifier;
  t_count : forall s, count s l <= kMaxFileUniqifier
}.

Lemma count_cons (s t : bytes) (l : list bytes) : count s (t :: l) = (if decide (t = s) then 1 else 0) + count s l.
Proof. unfold count. rewrite filter_cons. destruct (decide (t = s)); cbn [length]; lia. Qed.

Lemma count_nonneg (s : bytes) (l : list bytes) : 0 <= count s l.
Proof. unfold count. lia. Qed.

Lemma times_later (m : FTDCFileManager) (s : bytes) (l : list bytes) :
  times_ok (_previousArchiveFileSuffix m) (_fileNameUniquifier m) (s :: l) -> later s m.
Proof.
  intros [Hl Hs Hp _]. apply Forall_cons in Hl as [Hl _]. split; [done|]. apply StronglySorted_inv in Hs as [_ Hs]. apply Forall_cons in Hs as [Hs _]. unfold name_le in Hs.
  rewrite count_cons in Hp. pose proof (count_nonneg (_previousArchiveFileSuffix m) l). destruct (decide (s = _previousArchiveFileSuffix m)) as [->|Hne]; [right; split; [done|lia]|left].
  destruct (decide (SD.lexcmp (_previousArchiveFileSuffix m) s = 0)) as [E|E]; [apply SD.lexcmp_eq in E; congruence|lia].
Qed.

Lemma times_same (prev s : bytes) (n : Z) (l : list bytes) : times_ok prev n (s :: l) -> times_ok prev n l.
Proof.
  intros [Hl Hs Hp Hc]. apply Forall_cons in Hl as [_ Hl]. apply StronglySorted_inv in Hs as [Hs1 Hs2]. apply StronglySorted_inv in Hs1 as [Hs1 _]. apply Forall_cons in Hs2 as [_ Hs2]. split; [done| | |].
  - by constructor.
  - rewrite count_cons in Hp. destruct (decide _); lia.
  - intros t. specialize (Hc t). rewrite count_cons in Hc. destruct (decide _); lia.
Qed.

Lemma times_next (m : FTDCFileManager) (s : bytes) (n : Z) (l : list bytes) :
  times_ok (_previousArchiveFileSuffix m) (_fileNameUniquifier m) (s :: l) -> n <= next_number s m -> times_ok s n l.
Proof.
  intros Hok Hn. destruct (times_same _ _ _ _ Hok) as [_ _ _ Hc']. destruct Hok as [Hl Hs Hp Hc]. apply Forall_cons in Hl as [Hl1 Hl]. apply StronglySorted_inv in Hs as [Hs _]. split; [|done| |done].
  - eapply Forall_impl; [exact Hl|]. cbn beta. congruence.
  - unfold next_number in Hn. specialize (Hc s). rewrite count_cons, decide_True in Hc by done. rewrite count_cons in Hp.
    destruct (decide (_previousArchiveFileSuffix m = s)) as [E|E]; destruct (decide (s = _previousArchiveFileSuffix m)); subst; try done; lia.
Qed.

Definition is_metric (x : FTDCType * list field * Z) : bool := match x.1.1 with kMetricChunk => true | kMetadata => false end.
Definition metrics_of (l : list (FTDCType * list field * Z)) : list (FTDCType * list field * Z) := filter (fun x => is_metric x = true) l.

Definition round_ok (r : Round) : Prop := sample_ok (r_sample r) /\ date_ok (r_date r) /\ Forall entry_ok (meta (r_rotate r)).

Lemma metrics_of_meta (sample : list field * Z) : metrics_of (file_items (meta sample)) = [].
Proof. unfold meta. by destruct (bool_decide (sample.1 = [])). Qed.

(** A round. *)
Lemma round_step (m : FTDCFileManager) (all h : history) (es : list entry) (p : pending) (r : Round) (l : list bytes) :
  manages m all h es p -> round_ok r -> R (r_sample r) -> times_ok (_previousArchiveFileSuffix m) (_fileNameUniquifier m) (r_suffix r :: l) ->
  exists m' all' h' es' p' new d dt,
    writeSampleAndRotateIfNeeded true (r_suffix r) (r_rotate r) (r_sample r) (r_date r) m = (m', Ret tt) /\ manages m' all' h' es' p' /\
    times_ok (_previousArchiveFileSuffix m') (_fileNameUniquifier m') l /\ _previousArchiveFileSuffix m' ∈ [_previousArchiveFileSuffix m; r_suffix r] /\
    archived all es `prefix_of` archived all' es' /\ stream all' es' p' = stream all es p ++ new /\ metrics_of new = [(kMetricChunk, d, dt)] /\ same_metrics (r_sample r) d.
Proof.
  intros Hm (Hs & Hd & Hmeta) HR Ht. unfold writeSampleAndRotateIfNeeded.
  destruct (manager_sample m all h es p (r_sample r) (r_date r) Hm Hs Hd HR) as (m1 & es1 & p1 & d & dt & -> & Hm1 & Hpre & Hnum & Harch & Hst & Hsame). cbn [and_then]. rewrite <- Hpre, <- Hnum in Ht.
  destruct (maxFileSizeBytes <? getSize (_writer m1)).
  - destruct (rotate_ok m1 all h es1 p1 (r_suffix r) (r_rotate r) Hm1 (times_later _ _ _ Ht) Hmeta) as (m2 & x & h' & -> & Hm2 & Harch2 & Hst2 & Hpre2 & Hnum2).
    exists m2, (all ++ [x]), h', (meta (r_rotate r)), None, ((kMetricChunk, d, dt) :: file_items (meta (r_rotate r))), d, dt. split; [done|]. split; [done|].
    split; [rewrite Hpre2; apply (times_next m1); [done|lia]|]. split; [rewrite Hpre2; right; by left|]. split; [by etrans|]. split; [by rewrite Hst2, Hst, <- app_assoc|]. split; [|done].
    unfold metrics_of. rewrite filter_cons_True by done. f_equal. apply metrics_of_meta.
  - exists m1, all, h, es1, p1, [(kMetricChunk, d, dt)], d, dt. split; [done|]. split; [done|]. split; [by eapply times_same|]. split; [rewrite Hpre; by left|]. done.
Qed.

Lemma run_manages (rounds : list Round) : forall (m : FTDCFileManager) (all h : history) (es : list entry) (p : pending),
  manages m all h es p -> Forall (fun r => round_ok r /\ R (r_sample r)) rounds -> times_ok (_previousArchiveFileSuffix m) (_fileNameUniquifier m) (r_suffix <$> rounds) ->
  exists m' all' h' es' p' new docs, run rounds m = (m', Ret tt) /\ manages m' all' h' es' p' /\
    _previousArchiveFileSuffix m' ∈ _previousArchiveFileSuffix m :: (r_suffix <$> rounds) /\
    archived all es `prefix_of` archived all' es' /\ stream all' es' p' = stream all es p ++ new /\ metrics_of new = metric_item <$> docs /\ Forall2 (fun r d => same_metrics (r_sample r) d.1) rounds docs.
Proof.
  induction rounds as [|r rounds IH]; intros m all h es p Hm Hok Ht.
  { exists m, all, h, es, p, [], []. rewrite app_nil_r. split_and!; try done. by left. }
  apply Forall_cons in Hok as [[Hr HR] Hok]. cbn [fmap list_fmap] in Ht.
  destruct (round_step m all h es p r _ Hm Hr HR Ht) as (m1 & all1 & h1 & es1 & p1 & new1 & d & dt & Hw & Hm1 & Ht1 & Hp1 & Ha1 & Hst1 & Hn1 & Hd).
  destruct (IH m1 all1 h1 es1 p1 Hm1 Hok Ht1) as (m2 & all2 & h2 & es2 & p2 & new2 & docs & Hrun & Hm2 & Hp2 & Ha2 & Hst2 & Hn2 & Hds).
  exists m2, all2, h2, es2, p2, (new1 ++ new2), ((d, dt) :: docs). cbn [run]. rewrite Hw. cbn [and_then]. split; [done|]. split; [done|].
  split.
  { cbn [fmap list_fmap]. apply elem_of_cons in Hp2 as [->|Hp2]; [|by right; right]. apply elem_of_cons in Hp1 as [->|Hp1]; [by left|]. apply list_elem_of_singleton in Hp1 as ->. right. by left. }
  split; [by etrans|]. split; [by rewrite Hst2, Hst1, app_assoc|]. split; [|by constructor]. unfold metrics_of in *. by rewrite filter_app, Hn1, Hn2.
Qed.

Lemma items_of_elem (h : history) (x : bytes * list entry) : x ∈ h -> (length (file_items x.2) <= length (items_of h))%nat.
Proof.
  intros Hin. unfold items_of. induction h as [|y h IH]; [by apply not_elem_of_nil in Hin|]. cbn [fmap list_fmap List.concat]. rewrite length_app.
  apply elem_of_cons in Hin as [->|Hin]; [lia|]. specialize (IH Hin). lia.
Qed.

Lemma read_directory_ok (fuel : nat) (d : Disk) (h : history) : dir_state d h -> (length (items_of h) < fuel)%nat -> read_directory fuel d = items_of h.
Proof.
  intros Hd Hfuel. unfold read_directory. rewrite (dir_scan d h Hd). unfold items_of. rewrite <- !list_fmap_compose. f_equal. apply list_fmap_ext. intros i [n es] Hi. cbn [compose fst snd].
  apply list_elem_of_lookup_2 in Hi. unfold file_of. rewrite (dir_lookup d h n es Hd Hi). cbn [from_option id]. rewrite read_file; [done| |].
  - pose proof (ds_ok _ _ Hd) as Ho. rewrite Forall_forall in Ho. apply (Ho _ Hi).
  - pose proof (items_of_elem h (n, es) Hi). cbn [snd] in *. lia.
Qed.

Lemma items_of_sublist (h all : history) : h `sublist_of` all -> (length (items_of h) <= length (items_of all))%nat.
Proof.
  unfold items_of. induction 1 as [|x l1 l2 _ IH|x l1 l2 _ IH]; [done|..]; cbn [fmap list_fmap List.concat]; solve_length.
Qed.

(** Closing the manager leaves the files written, as far as they were not removed. *)
Lemma close_history (m : FTDCFileManager) (all h : history) (es : list entry) (p : pending) :
  manages m all h es p ->
  exists m' all' left, manager_close m = (m', Ret tt) /\ _interim (_writer m') = None /\ items_of all' = stream all es p /\ left `sublist_of` all' /\
    (total all' < 2 ^ 64 -> exists k, left = drop k all') /\ dir_state (_disk (_writer m')) left /\
    forall fuel, (length (items_of all') < fuel)%nat -> read_directory fuel (_disk (_writer m')) = items_of left.
Proof.
  intros Hm. destruct (manager_close_ok m all h es p Hm) as (w & es1 & Hclose & _ & Hint & Hd & Hpre & Hitems). destruct (manages_left m all h es es1 p Hm Hpre) as [Hsub Hleft].
  exists (set_writer w m), (all ++ [(_archiveFile (_writer m), es1)]), (h ++ [(_archiveFile (_writer m), es1)]). split_and!; try done.
  - rewrite items_of_snoc. cbn [snd]. by rewrite Hitems.
  - intros fuel Hfuel. apply read_directory_ok; [done|]. pose proof (items_of_sublist _ _ Hsub). lia.
Qed.

End pending.

(** The history of a directory. Starting in a directory of archive files that was closed
    cleanly and writing any rounds of samples, with rotations whenever a file is full and old
    files removed whenever the directory is, every operation succeeds, and after closing,
    [all] lists the files that were written, [left] those of them that are there: in order, and
    exactly the last ones when [all] amounts to less than [2 ^ 64] bytes. Reading the directory
    in the order of its names returns what [left] holds, and [all] holds what was there before
    and then one document for every sample, in order and with the metrics of the sample. *)
Lemma directory_holds_history (dirExists dirCreated : bool) (fuel : nat) (suffix : bytes) (sample : list field * Z) (rounds : list Round) (d : Disk) (h : history) :
  dirExists || dirCreated = true -> dir_state d h -> files d !! kFTDCInterimFile = None -> before_time suffix h -> times_ok suffix 0 (r_suffix <$> rounds) ->
  Forall entry_ok (meta sample) -> Forall round_ok rounds -> (0 < fuel)%nat ->
  exists m m' all left new docs, and_then (create dirExists dirCreated fuel suffix sample d) (run rounds) = (m, Ret tt) /\ manager_close m = (m', Ret tt) /\
    _interim (_writer m') = None /\
    items_of all = items_of h ++ new /\ metrics_of new = metric_item <$> docs /\ Forall2 (fun r d => same_metrics (r_sample r) d.1) rounds docs /\
    left `sublist_of` all /\ (total all < 2 ^ 64 -> exists k, left = drop k all) /\
    forall k, (length (items_of all) < k)%nat -> read_directory k (_disk (_writer m')) = items_of left.
Proof.
  intros Hdir Hd Hi Hb Ht Hmeta Hrounds Hfuel. destruct (create_ok (fun _ => True) dirExists dirCreated fuel suffix sample d h h None Hdir Hd ltac:(done) ltac:(intros; by exists 0%nat) (nothing_left d Hi) Logic.I Hb Hmeta Hfuel) as (m1 & h1 & -> & Hm1 & Hpre1 & Hnum1). cbn [and_then].
  rewrite <- Hpre1, <- Hnum1 in Ht. destruct (run_manages (fun _ => True) rounds m1 h h1 (meta sample) None Hm1 ltac:(eapply Forall_impl; [exact Hrounds|done]) Ht) as (m & all & h2 & es & p & new & docs & Hrun & Hm & _ & _ & Hst & Hnew & Hdocs).
  destruct (close_history _ m all h2 es p Hm) as (m' & all' & left & Hclose & Hint & Hall & Hsub & Hleft & _ & Hread).
  exists m, m', all', left, (file_items (meta sample) ++ new), docs. split_and!; try done.
  - rewrite Hall, Hst. unfold stream. cbn [FtdcFile.pending_items]. by rewrite app_nil_r, app_assoc.
  - unfold metrics_of in *. rewrite filter_app. fold (metrics_of (file_items (meta sample))). by rewrite metrics_of_meta.
Qed.

(** ** A crash and a restart *)

#[local] Abbreviation doc_like := (doc_like outOfRange toLong).

Lemma crash_left_over (R : list field -> Prop) (m : FTDCFileManager) (all h : history) (es : list entry) (p : pending) :
  manages R m all h es p -> (forall r s, R r -> R s -> doc_same_shape r s = true -> sample_ok (doc_like r s)) ->
  exists p' lost, left_over (_disk (_writer m)) p' /\ pending_items p = pending_items p' ++ lost /\ (length lost <= I)%nat /\ (length (pending_docs p') <= D)%nat.
Proof.
  intros [(_ & _ & _ & Hp) Hi Hin _ _ _ _ _] Hlike. destruct p as [[[r date] rest]|].
  2:{ exists None, []. split; [by apply nothing_left|]. split; [done|]. cbn [length pending_docs]. lia. }
  destruct Hp as ((Hh & _ & _ & Hlen) & _ & _). destruct Hh as [_ _ _ _ _ Hsh Hok _ _]. apply Forall_cons in Hok as [Hr Hok]. apply Forall_cons in Hin as [HRr HRrest].
  unfold FtdcFile.interim_inv, interim_ok in Hi. pose proof (Nat.div_mod_eq (length rest) I) as Hdiv. pose proof (Nat.mod_upper_bound (length rest) I ltac:(lia)) as Hmod.
  destruct (decide (in_interim I rest = 0%nat)) as [H0|H0].
  { exists None, (pending_items (Some (r, date, rest))). split; [by apply nothing_left|]. split; [done|]. cbn [FtdcFile.pending_items items]. unfold group_docs, in_interim in *.
    rewrite length_fmap. cbn [length pending_docs]. rewrite length_fmap. lia. }
  destruct Hi as (chunk & Hf & He). set (j := in_interim I rest) in *. assert (j <= length rest)%nat as Hj by apply in_interim_le.
  assert (Forall (fun s => doc_same_shape r s = true) (take j rest)) as Hsh' by (by apply Forall_take).
  exists (Some (r, date, doc_like r <$> take j rest)), ((fun d => (kMetricChunk, d, date)) <$> (doc_like r <$> drop j rest)).
  assert (length (doc_like r <$> take j rest) = j) as Hlj by (rewrite length_fmap, length_take; lia).
  split; [|split; [|split]].
  - apply (chunk_left _ chunk); [exact Hf|exact He| | |lia|].
    + apply Forall_cons. split; [done|]. pose proof (Forall_take _ j _ HRrest) as HRt. apply Forall_fmap, Forall_forall. intros s Hs. rewrite Forall_forall in Hsh', HRt. apply Hlike; auto.
    + apply Forall_fmap. eapply Forall_impl; [exact Hsh'|]. intros s Hs. by apply doc_like_shape.
    + rewrite Hlj. unfold j, in_interim. apply Nat.Div0.mod_mul.
  - cbn [FtdcFile.pending_items items]. unfold group_docs. cbn [fmap list_fmap app]. f_equal. rewrite <- fmap_app. f_equal.
    assert (doc_like r <$> (doc_like r <$> take j rest) = doc_like r <$> take j rest) as Hidem.
    { rewrite <- list_fmap_compose. apply list_fmap_ext. intros i s Hs. apply list_elem_of_lookup_2 in Hs. rewrite Forall_forall in Hsh'. by apply doc_like_idem, Hsh'. }
    by rewrite Hidem, <- fmap_app, take_drop.
  - rewrite !length_fmap, length_drop. unfold j, in_interim. lia.
  - cbn [pending_docs]. rewrite length_fmap. cbn [length]. lia.
Qed.

Lemma metrics_of_pending (p : pending) : metrics_of (pending_items p) = pending_items p.
Proof.
  destruct p as [[[r date] rest]|]; [|done]. cbn [FtdcFile.pending_items items]. unfold metrics_of. generalize (group_docs outOfRange toLong r rest). intros l.
  induction l as [|x l IH]; [done|]. cbn [fmap list_fmap]. rewrite filter_cons_True by done. by f_equal.
Qed.

Lemma metrics_of_app (a b : list (FTDCType * list field * Z)) : metrics_of (a ++ b) = metrics_of a ++ metrics_of b.
Proof. apply filter_app. Qed.

(** The names of the files are from before any later time. *)
Lemma manages_before (R : list field -> Prop) (m : FTDCFileManager) (all h : history) (es : list entry) (p : pending) (suffix : bytes) :
  manages R m all h es p -> length (_previousArchiveFileSuffix m) = length suffix -> SD.lexcmp (_previousArchiveFileSuffix m) suffix < 0 ->
  before_time suffix (h ++ [(_archiveFile (_writer m), es)]).
Proof.
  intros [_ _ _ Hd Hn Hu _ _] Hl Hlt. split; [intros ->; by destruct (_previousArchiveFileSuffix m)|]. destruct (dir_init _ _ _ Hd) as (_ & _ & _ & _ & Hle). cbn [fst] in Hle.
  assert (SD.lexcmp (_archiveFile (_writer m)) (archive_name suffix 0) < 0) as Hlast by (rewrite Hn; apply archive_name_lt; [done|lia|lia|by left]).
  rewrite fmap_app. apply Forall_app. split; [|by apply Forall_singleton]. eapply Forall_impl; [exact Hle|]. intros n Hle'. unfold name_le in Hle'.
  destruct (decide (SD.lexcmp n (_archiveFile (_writer m)) = 0)) as [E|E]; [apply SD.lexcmp_eq in E; by subst|]. apply (SD.lexcmp_trans n (_archiveFile (_writer m))); lia.
Qed.

Lemma metrics_before_lost (a lost : list (FTDCType * list field * Z)) (docs : list (list field * Z)) :
  metrics_of lost = lost -> metrics_of (a ++ lost) = metric_item <$> docs ->
  exists n, (n <= length docs)%nat /\ length docs = (n + length lost)%nat /\ metrics_of a = metric_item <$> take n docs.
Proof.
  intros Hl Ha. rewrite metrics_of_app, Hl in Ha. pose proof (f_equal length Ha) as Hlen. rewrite length_app, length_fmap in Hlen. exists (length (metrics_of a)).
  split; [lia|]. split; [lia|]. by rewrite fmap_take, <- Ha, take_app_length.
Qed.

(** A restart of the manager [m] that crashed. *)
Lemma restart_ok (R : list field -> Prop) (m : FTDCFileManager) (all h : history) (es : list entry) (p : pending) (fuel : nat) (suffix : bytes) (sample : list field * Z) :
  manages R m all h es p -> (forall r s, R r -> R s -> doc_same_shape r s = true -> sample_ok (doc_like r s)) ->
  length (_previousArchiveFileSuffix m) = length suffix -> SD.lexcmp (_previousArchiveFileSuffix m) suffix < 0 -> Forall entry_ok (meta sample) -> (D < fuel)%nat ->
  exists m1 m2 all2 left found lost, create true true fuel suffix sample (_disk (_writer m)) = (m1, Ret tt) /\ manager_close m1 = (m2, Ret tt) /\
    stream all es p = archived all es ++ found ++ lost /\ metrics_of lost = lost /\ (length lost <= I)%nat /\
    items_of all2 = archived all es ++ file_items (meta sample) ++ found /\ left `sublist_of` all2 /\ (total all2 < 2 ^ 64 -> exists k, left = drop k all2) /\
    forall k, (length (items_of all2) < k)%nat -> read_directory k (_disk (_writer m2)) = items_of left.
Proof.
  intros Hm Hlike Hlen Hlt Hmeta Hfuel. destruct (crash_left_over R m all h es p Hm Hlike) as (p' & lost & Hleft & Hp & Hlost & Hdocs).
  pose proof (manages_before R m all h es p suffix Hm Hlen Hlt) as Hb. destruct (manages_left R m all h es es p Hm ltac:(done)) as [Hsub Hdrop].
  destruct (create_ok (fun _ => True) true true fuel suffix sample (_disk (_writer m)) (all ++ [(_archiveFile (_writer m), es)]) _ p' eq_refl (mi_dir _ _ _ _ _ _ Hm) Hsub Hdrop Hleft) as (m1 & h1 & Hc & Hm1 & _);
    [destruct p' as [[[]]|]; [by apply Forall_true|done]|done|done|lia|].
  destruct (close_history _ m1 _ h1 _ p' Hm1) as (m2 & all2 & left & Hclose & _ & Hall & Hsub2 & Hdrop2 & _ & Hread).
  exists m1, m2, all2, left, (pending_items p'), lost. split_and!; try done.
  - unfold stream, archived. rewrite Hp. by rewrite <- !app_assoc.
  - pose proof (metrics_of_pending p) as Hmp. rewrite Hp, metrics_of_app, metrics_of_pending in Hmp. by apply app_inv_head in Hmp.
  - rewrite Hall. unfold stream, archived. rewrite items_of_snoc. cbn [snd]. by rewrite <- !app_assoc.
Qed.

(** C13. What a crash of the server loses. After any rounds of samples the process ends without
    closing; it starts again at a later time, recovers the interim file and is closed. Every
    operation succeeds, and the files written hold what was there before and then documents with
    the metrics of the first samples, in order: all but at most [maxSamplesPerInterimMetricChunk]
    of them, none twice. The directory is read as in the run without a crash. *)
Theorem restart_loses_last_samples (dirExists dirCreated : bool) (fuel fuel2 : nat) (suffix suffix2 : bytes) (sample sample2 : list field * Z) (rounds : list Round) (d : Disk) (h : history) :
  dirExists || dirCreated = true -> dir_state d h -> files d !! kFTDCInterimFile = None -> before_time suffix h -> times_ok suffix 0 (r_suffix <$> rounds) ->
  Forall entry_ok (meta sample) -> Forall round_ok rounds -> (0 < fuel)%nat ->
  (forall r s, r ∈ r_sample <$> rounds -> s ∈ r_sample <$> rounds -> doc_same_shape r s = true -> sample_ok (doc_like r s)) ->
  Forall (fun s => length s = length suffix2 /\ SD.lexcmp s suffix2 < 0) (suffix :: (r_suffix <$> rounds)) -> Forall entry_ok (meta sample2) -> (D < fuel2)%nat ->
  exists m m1 m2 all left new docs, and_then (create dirExists dirCreated fuel suffix sample d) (run rounds) = (m, Ret tt) /\
    create true true fuel2 suffix2 sample2 (_disk (_writer m)) = (m1, Ret tt) /\ manager_close m1 = (m2, Ret tt) /\
    items_of all = items_of h ++ new /\ metrics_of new = metric_item <$> docs /\ (length docs <= length rounds <= length docs + I)%nat /\
    Forall2 (fun r d => same_metrics (r_sample r) d.1) (take (length docs) rounds) docs /\
    left `sublist_of` all /\ (total all < 2 ^ 64 -> exists k, left = drop k all) /\
    forall k, (length (items_of all) < k)%nat -> read_directory k (_disk (_writer m2)) = items_of left.
Proof.
  intros Hdir Hd Hi Hb Ht Hmeta Hrounds Hfuel Hlike Hlater Hmeta2 Hfuel2. set (R := fun r => r ∈ r_sample <$> rounds).
  destruct (create_ok R dirExists dirCreated fuel suffix sample d h h None Hdir Hd ltac:(done) ltac:(intros; by exists 0%nat) (nothing_left d Hi) Logic.I Hb Hmeta Hfuel) as (m0 & h1 & -> & Hm0 & Hpre0 & Hnum0).
  cbn [and_then]. rewrite <- Hpre0, <- Hnum0 in Ht.
  assert (Forall (fun r => round_ok r /\ R (r_sample r)) rounds) as HR.
  { apply Forall_forall. intros r Hr. rewrite Forall_forall in Hrounds. split; [by apply Hrounds|]. by apply list_elem_of_fmap_2. }
  destruct (run_manages R rounds m0 h h1 (meta sample) None Hm0 HR Ht) as (m & all & h2 & es & p & new & docs & Hrun & Hm & Hprev & [more Hmore] & Hst & Hnew & Hdocs).
  rewrite Hpre0 in Hprev. rewrite Forall_forall in Hlater. destruct (Hlater _ Hprev) as [Hlen Hlt].
  destruct (restart_ok R m all h2 es p fuel2 suffix2 sample2 Hm Hlike Hlen Hlt) as (m1 & m2 & all2 & left & found & lost & Hc & Hclose & Hs & Hml & Hlost & Hitems & Hrest); [done|done|].
  rewrite Hmore in *. unfold stream in Hst. cbn [FtdcFile.pending_items] in Hst. unfold stream in Hs. rewrite Hst, app_nil_r in Hs. unfold archived in Hs, Hitems. rewrite <- !app_assoc in Hs.
  apply app_inv_head, app_inv_head in Hs. rewrite app_assoc in Hs. rewrite Hs in Hnew. destruct (metrics_before_lost _ _ _ Hml Hnew) as (n & Hn & Hn2 & Hkept).
  pose proof (Forall2_length _ _ _ Hdocs) as Hl. exists m, m1, m2, all2, left, (file_items (meta sample) ++ more ++ file_items (meta sample2) ++ found), (take n docs).
  assert (length (take n docs) = n) as Hln by (solve_length). rewrite Hln.
  split; [done|]. split; [done|]. split; [done|]. split; [rewrite Hitems; by rewrite <- !app_assoc|]. split; [|split; [lia|split; [by apply Forall2_take|done]]].
  rewrite <- Hkept, !metrics_of_app, !metrics_of_meta. done.
Qed.

End manager.
(** ** A concrete instance *)

#[local] Abbreviation demo_of f := (f (fun _ => 0) (fun _ => 0) stored).

Lemma dir_empty (outOfRange toLong : bytes -> Z) (z : ZLib) (server : Server) : dir_state outOfRange toLong z server (mkDisk ∅ []) [].
Proof. split; [done|constructor|constructor|constructor| |constructor]. intros name _. cbn [files]. by rewrite !lookup_empty. Qed.

(** Two files with one metadata document each. *)
Definition demo_history : history := [(archive_name (lit "t1") 0, [Metadata (demo_sample 0) 1]); (archive_name (lit "t2") 0, [Metadata (demo_sample 0) 2])].
Definition demo_disk : Disk := mkDisk (file_bytes <$> list_to_map demo_history) [].

Lemma demo_dir : demo_of dir_state demo_server demo_disk demo_history.
Proof.
  split; [done| | | | |].
  - repeat constructor; vm_compute; discriminate.
  - apply (bool_decide_unpack _). vm_compute. exact I.
  - unfold demo_history. cbn [fmap list_fmap fst]. apply Forall_cons. split; [split; [apply is_archive_name|apply archive_name_ne]|].
    apply Forall_singleton. split; [apply is_archive_name|apply archive_name_ne].
  - intros name _. unfold demo_disk. cbn [files]. by rewrite lookup_fmap.
  - apply Forall_cons. split; [apply Forall_singleton, (demo_metadata_ok 1); unfold date_ok; lia|].
    apply Forall_singleton, Forall_singleton, (demo_metadata_ok 2). unfold date_ok. lia.
Qed.

Lemma trimDirectory_keeps_newest_witness :
  exists d' k, trimDirectory 80 (scanDirectory demo_disk) demo_disk = (d', Ret tt) /\ scanDirectory d' = (drop k demo_history).*1 /\ k = 1%nat.
Proof.
  destruct (trimDirectory_keeps_newest (fun _ => 0) (fun _ => 0) stored demo_server 80 demo_disk demo_history demo_dir) as (d' & k & Hd & _ & _ & Hs & _ & H1 & H2);
    [vm_compute; reflexivity|lia|]. exists d', k. split; [exact Hd|]. split; [exact Hs|].
  specialize (H1 1%nat ltac:(vm_compute; lia) ltac:(vm_compute; reflexivity)). specialize (H2 0%nat ltac:(vm_compute; reflexivity)). lia.
Defined.

Definition demo_rounds : list Round :=
  (fun n => mkRound (demo_sample n) (1000 * n) (lit "t4") (demo_sample 0, n)) <$> [1; 2; 5; 7; 7; 9].

Lemma demo_rounds_ok : Forall (demo_of round_ok demo_server 3) demo_rounds.
Proof.
  unfold demo_rounds. apply Forall_fmap. assert (Forall (fun n => 0 <= n < 100) [1; 2; 5; 7; 7; 9]) as Hn by (repeat constructor; lia).
  eapply Forall_impl; [exact Hn|]. cbn beta. intros n Hn'. unfold compose, round_ok. cbn [r_sample r_date r_rotate]. split; [apply demo_sample_ok; lia|]. split; [unfold date_ok; lia|].
  apply Forall_singleton, (demo_metadata_ok n). unfold date_ok. lia.
Qed.

Lemma count_le_length (s : bytes) (l : list bytes) : count s l <= Z.of_nat (length l).
Proof. unfold count. apply inj_le, length_filter. Qed.

Lemma demo_times (n : Z) : 0 <= n <= 100 -> times_ok (lit "t3") n (r_suffix <$> demo_rounds).
Proof.
  intros Hn. pose proof (count_le_length (lit "t3") (r_suffix <$> demo_rounds)) as Hc. change (length (r_suffix <$> demo_rounds)) with 6%nat in Hc. split.
  - by repeat constructor.
  - repeat constructor; vm_compute; discriminate.
  - unfold kMaxFileUniqifier. lia.
  - intros s. pose proof (count_le_length s (r_suffix <$> demo_rounds)) as Hc'. change (length (r_suffix <$> demo_rounds)) with 6%nat in Hc'. unfold kMaxFileUniqifier. lia.
Qed.

Lemma demo_before : before_time (lit "t3") demo_history.
Proof. split; [done|]. by repeat constructor. Qed.

Lemma demo_samples_like (r s : list field) : r ∈ r_sample <$> demo_rounds -> s ∈ r_sample <$> demo_rounds -> demo_of (fun o t _ => doc_like o t) r s = s.
Proof.
  assert (r_sample <$> demo_rounds = demo_samples.*1) as -> by done. intros Hr Hs. by apply like_unchanged, demo_unchanged.
Qed.

Lemma restart_loses_last_samples_witness :
  exists m m1 m2, and_then (demo_of create 4 2 demo_server (fun _ => None) 1000 true true 1 (lit "t3") (demo_sample 0, 3) demo_disk) (demo_of run 4 2 1000 300 demo_rounds) = (m, Ret tt) /\
    demo_of create 4 2 demo_server (fun _ => None) 1000 true true 4 (lit "t5") (demo_sample 0, 5) (_disk (_writer m)) = (m1, Ret tt) /\ manager_close stored m1 = (m2, Ret tt).
Proof.
  destruct (restart_loses_last_samples (fun _ => 0) (fun _ => 0) stored 4 2 demo_server (fun _ => None) 1000 300 3 2 ltac:(split; [lia|reflexivity]) eq_refl ltac:(split; [lia|reflexivity]) stored_ok
    true true 1 4 (lit "t3") (lit "t5") (demo_sample 0, 3) (demo_sample 0, 5) demo_rounds demo_disk demo_history eq_refl demo_dir) as (m & m1 & m2 & _ & _ & _ & _ & H1 & H2 & H3 & _).
  - vm_compute. reflexivity.
  - exact demo_before.
  - apply demo_times. lia.
  - apply Forall_singleton, (demo_metadata_ok 3). unfold date_ok. lia.
  - exact demo_rounds_ok.
  - lia.
  - intros r s Hr Hs _. pose proof (demo_samples_like r s Hr Hs) as Hl. cbn beta in Hl. rewrite Hl. pose proof demo_rounds_ok as Hok.
    apply list_elem_of_fmap in Hs as (x & -> & Hx). rewrite Forall_forall in Hok. apply (Hok x Hx).
  - repeat constructor.
  - apply Forall_singleton, (demo_metadata_ok 5). unfold date_ok. lia.
  - lia.
  - exists m, m1, m2. split; [exact H1|]. split; [exact H2|exact H3].
Defined.

(** The directory of a server that crashed after three samples. *)
Definition demo_crashed : Disk :=
  _disk (_writer (and_then (demo_of create 4 2 demo_server (fun _ => None) 1000 true true 1 (lit "t3") (demo_sample 0, 3) demo_disk) (demo_of run 4 2 1000 300 (take 3 demo_rounds))).1).

(** A temporary file stops the collection. When the server ends while the interim file is being
    replaced, its temporary file stays and is taken for an archive file at the next start; replaying
    the samples renames it, and looking up its size then throws, so that the manager is not created.
    Without the temporary file the same directory is recovered. *)
Theorem stale_temporary_file :
  (demo_of create 4 2 demo_server (fun _ => None) 1000 true true 4 (lit "t5") (demo_sample 0, 5) (put kFTDCInterimTempFile [] demo_crashed)).2 = Throw FilesystemError /\
  (demo_of create 4 2 demo_server (fun _ => None) 1000 true true 4 (lit "t5") (demo_sample 0, 5) demo_crashed).2 = Ret tt.
Proof. split; vm_compute; reflexivity. Qed.

End Manager.
