(* ===== verification/FtdcController.v ===== *)
(** * The collection of diagnostic data

    [FTDCController] of [db/ftdc], the collectors it calls and the server parameters that set it
    up ([ftdc_mongod.cpp]). The collection thread is modelled section by section: the wait under
    the mutex, the sample outside of it, and the store under it again, with the calls to [start]
    and [stop] interleaved between the sections. What a round observes (how the wait ended, the
    clocks, what the collectors return) is its input. *)
From S2P Require Import Prelude StringData Bson BsonValidate BsonDecode Varint Ftdc FtdcFile FtdcManager.

Module Controller.
Import Ftdc FtdcFile Manager.

(** ** Configuration *)

Record FTDCConfig := mkConfig {
  enabled : bool;
  maxDirectorySizeBytes : Z;
  maxFileSizeBytes : Z;
  period : Z;
  maxSamplesPerArchiveMetricChunk : Z;
  maxSamplesPerInterimMetricChunk : Z
}.

Definition FTDCConfig_default : FTDCConfig := mkConfig true (200 * 1024 * 1024) (10 * 1024 * 1024) 1000 300 10.

(** [FTDCUtil::roundTime] on [long long] milliseconds; the remainder has the sign of the dividend,
    and a division by zero ends the process. *)
Definition roundTime (now period : Z) : outcome Status Z :=
  let now_next_period := wraps 64 (now + period) in
  if period =? 0 then Fault else Ret (wraps 64 (now_next_period - Z.rem now_next_period period)).

(** ** Collectors *)

Definition kFTDCCollectStartField : bytes := lit "start".
Definition kFTDCCollectEndField : bytes := lit "end".

(** The collectors one after the other; [clock] gives the readings of the clock in their order and
    [k] is the next of them. *)
Fixpoint collect_each (clock : nat -> Z) (collectors : list (bytes * list field)) (now : Z) (k : nat) (end_ : Z) : list field * Z :=
  match collectors with
  | [] => ([], end_)
  | (name, data) :: collectors =>
      let end_ := clock k in
      let sub := (name, VObject ((kFTDCCollectStartField, VDate now) :: data ++ [(kFTDCCollectEndField, VDate end_)])) in
      let '(subs, last) := collect_each clock collectors (clock (S k)) (S (S k)) end_ in (sub :: subs, last)
  end.

(** [FTDCCollectorCollection::collect]: each collector is its name and the fields it appends. *)
Definition collect (clock : nat -> Z) (collectors : list (bytes * list field)) : list field * Z :=
  match collectors with
  | [] => ([], 0)
  | _ =>
      let start := clock 0%nat in
      let '(subs, end_) := collect_each clock collectors start 1 0 in
      ((kFTDCCollectStartField, VDate start) :: subs ++ [(kFTDCCollectEndField, VDate end_)], start)
  end.

(** ** Server parameters *)

Record Parameters := mkParameters {
  localEnabledFlag : bool;
  localPeriodMillis : Z;
  localMaxDirectorySizeMB : Z;
  localMaxFileSizeMB : Z;
  localMaxSamplesPerArchiveMetricChunk : Z;
  localMaxSamplesPerInterimMetricChunk : Z
}.

(** Megabytes in [int], then as a [uint64_t] of bytes. An overflow of [int] is undefined in C++; it
    is modelled as the multiplication of the machine, which wraps around. *)
Definition megabytes (mb : Z) : Z := wrapu 64 (wraps 32 (wraps 32 (mb * 1024) * 1024)).

(** [startFTDC]. *)
Definition startFTDC_config (p : Parameters) : FTDCConfig :=
  mkConfig (localEnabledFlag p) (megabytes (localMaxDirectorySizeMB p)) (megabytes (localMaxFileSizeMB p)) (localPeriodMillis p)
    (wrapu 32 (localMaxSamplesPerArchiveMetricChunk p)) (wrapu 32 (localMaxSamplesPerInterimMetricChunk p)).

Definition setEnabled (b : bool) (c : FTDCConfig) : FTDCConfig :=
  mkConfig b (maxDirectorySizeBytes c) (maxFileSizeBytes c) (period c) (maxSamplesPerArchiveMetricChunk c) (maxSamplesPerInterimMetricChunk c).
Definition setPeriod (millis : Z) (c : FTDCConfig) : FTDCConfig :=
  mkConfig (enabled c) (maxDirectorySizeBytes c) (maxFileSizeBytes c) millis (maxSamplesPerArchiveMetricChunk c) (maxSamplesPerInterimMetricChunk c).
Definition setMaxDirectorySizeBytes (size : Z) (c : FTDCConfig) : FTDCConfig :=
  mkConfig (enabled c) size (maxFileSizeBytes c) (period c) (maxSamplesPerArchiveMetricChunk c) (maxSamplesPerInterimMetricChunk c).
Definition setMaxFileSizeBytes (size : Z) (c : FTDCConfig) : FTDCConfig :=
  mkConfig (enabled c) (maxDirectorySizeBytes c) size (period c) (maxSamplesPerArchiveMetricChunk c) (maxSamplesPerInterimMetricChunk c).
Definition setMaxSamplesPerArchiveMetricChunk (size : Z) (c : FTDCConfig) : FTDCConfig :=
  mkConfig (enabled c) (maxDirectorySizeBytes c) (maxFileSizeBytes c) (period c) (wrapu 32 size) (maxSamplesPerInterimMetricChunk c).
Definition setMaxSamplesPerInterimMetricChunk (size : Z) (c : FTDCConfig) : FTDCConfig :=
  mkConfig (enabled c) (maxDirectorySizeBytes c) (maxFileSizeBytes c) (period c) (maxSamplesPerArchiveMetricChunk c) (wrapu 32 size).

(** A parameter is set: its [validate], which also tells the controller, and then the variable. The
    state is the variables and the configuration the controller is to take over. *)
Inductive setting :=
  | Enabled (b : bool) | PeriodMillis (n : Z) | DirectorySizeMB (n : Z) | FileSizeMB (n : Z) | SamplesPerChunk (n : Z) | SamplesPerInterimUpdate (n : Z).

Definition set_parameter (x : setting) (s : Parameters * FTDCConfig) : outcome Status (Parameters * FTDCConfig) :=
  let '(p, c) := s in
  let '(mkParameters e per dir file arc int) := p in
  match x with
  | Enabled b => Ret (mkParameters b per dir file arc int, setEnabled b c)
  | PeriodMillis n => if n <? 100 then Throw BadValue else Ret (mkParameters e n dir file arc int, setPeriod n c)
  | DirectorySizeMB n =>
      if n <? 10 then Throw BadValue else if n <? file then Throw BadValue
      else Ret (mkParameters e per n file arc int, setMaxDirectorySizeBytes (megabytes n) c)
  | FileSizeMB n =>
      if n <? 1 then Throw BadValue else if dir <? n then Throw BadValue
      else Ret (mkParameters e per dir n arc int, setMaxFileSizeBytes (megabytes n) c)
  | SamplesPerChunk n => if n <? 2 then Throw BadValue else Ret (mkParameters e per dir file n int, setMaxSamplesPerArchiveMetricChunk n c)
  | SamplesPerInterimUpdate n => if n <? 2 then Throw BadValue else Ret (mkParameters e per dir file arc n, setMaxSamplesPerInterimMetricChunk n c)
  end.

(** ** The controller *)

Inductive CState := kNotStarted | kStarted | kStopRequested | kDone.
Inductive cv_status := no_timeout | timeout.

(** The directory, and the manager once it was created. *)
Record FTDCController := mkController {
  _cstate : CState;
  _config : FTDCConfig;
  _configTemp : FTDCConfig;
  _mgr : option FTDCFileManager;
  _path : Disk;
  _mostRecentPeriodicDocument : list field
}.

Definition FTDCController_new (d : Disk) (config : FTDCConfig) : FTDCController := mkController kNotStarted config config None d [].

Definition set_cstate (s : CState) (c : FTDCController) : FTDCController :=
  mkController s (_config c) (_configTemp c) (_mgr c) (_path c) (_mostRecentPeriodicDocument c).
Definition set_configs (config configTemp : FTDCConfig) (c : FTDCController) : FTDCController :=
  mkController (_cstate c) config configTemp (_mgr c) (_path c) (_mostRecentPeriodicDocument c).
Definition set_mgr (m : FTDCFileManager) (c : FTDCController) : FTDCController :=
  mkController (_cstate c) (_config c) (_configTemp c) (Some m) (_path c) (_mostRecentPeriodicDocument c).
Definition set_document (doc : list field) (c : FTDCController) : FTDCController :=
  mkController (_cstate c) (_config c) (_configTemp c) (_mgr c) (_path c) doc.

Definition getMostRecentPeriodicDocument (c : FTDCController) : list field := _mostRecentPeriodicDocument c.

(** [start] under the mutex; the thread runs already. *)
Definition start (c : FTDCController) : outcome Status FTDCController :=
  match _cstate c with kNotStarted => Ret (set_cstate kStarted c) | _ => Fault end.

(** The first section of the thread, under the mutex. *)
Definition doLoop_enter (c : FTDCController) : FTDCController := set_configs (_configTemp c) (_configTemp c) c.

(** [stop] up to the wait for the thread. *)
Definition stop_request (c : FTDCController) : outcome Status FTDCController :=
  match _cstate c with
  | kNotStarted => Ret (set_cstate kDone c)
  | kStarted => Ret (set_cstate kStopRequested (set_configs (_config c) (setEnabled false (_configTemp c)) c))
  | _ => Fault
  end.

(** What a round observes. *)
Record Observed := mkObserved {
  o_now : Z;
  o_status : cv_status;
  o_dirExists : bool;
  o_dirCreated : bool;
  o_createSuffix : bytes;
  o_createSample : list field * Z;
  o_pathExists : bool;
  o_round : Round
}.

(** Where the thread is: before its first section, before the wait, between the wait and the
    sample, between the sample and the store, or ended: the loop was left, an exception ended
    the thread, or the process has crashed. *)
Inductive ending := Break | Caught (s : Status) | Crash.
Inductive pc := Starting | Waiting | Sampling | Storing (collectSample : list field) | Ended (e : ending).

Definition ending_of (s : outcome Status unit) : pc := Ended (match s with Throw s => Caught s | _ => Crash end).

Section controller.
Variable outOfRange : bytes -> Z.
Variable toLong : bytes -> Z.
Variable z : ZLib.
Variable server : Server.
Variable decimalInteger : bytes -> option Z.
Variable fuel : nat.

Definition create_mgr (o : Observed) (c : FTDCController) : FTDCFileManager * outcome Status unit :=
  let f := _config c in
  create outOfRange toLong z (maxSamplesPerArchiveMetricChunk f) (maxSamplesPerInterimMetricChunk f) server decimalInteger (maxDirectorySizeBytes f)
    (o_dirExists o) (o_dirCreated o) fuel (o_createSuffix o) (o_createSample o) (_path c).

Definition write_round (o : Observed) (c : FTDCController) (m : FTDCFileManager) : FTDCFileManager * outcome Status unit :=
  let f := _config c in
  let r := o_round o in
  writeSampleAndRotateIfNeeded outOfRange toLong z (maxSamplesPerArchiveMetricChunk f) (maxSamplesPerInterimMetricChunk f) (maxDirectorySizeBytes f) (maxFileSizeBytes f)
    (o_pathExists o) (r_suffix r) (r_rotate r) (r_sample r) (r_date r) m.

(** The wait for the next period, under the mutex from its end on. *)
Definition wait_section (o : Observed) (c : FTDCController) : FTDCController * pc :=
  match roundTime (o_now o) (period (_config c)) with
  | Ret _ =>
      match _cstate c with
      | kStopRequested => (c, Ended Break)
      | _ =>
          let c := set_configs (_configTemp c) (_configTemp c) c in
          match o_status o with
          | no_timeout => (c, Waiting)
          | timeout => (c, if enabled (_config c) then Sampling else Waiting)
          end
      end
  | _ => (c, Ended Crash)
  end.

(** A sample, without the mutex: the manager is created when there is none; one that could not
    be created is not kept, but its directory is. *)
Definition sample_section (o : Observed) (c : FTDCController) : FTDCController * pc :=
  let '(c, s) :=
    match _mgr c with
    | Some _ => (c, Ret tt)
    | None =>
        match create_mgr o c with
        | (m, Ret _) => (set_mgr m c, Ret tt)
        | (m, s) => (mkController (_cstate c) (_config c) (_configTemp c) None (_disk (_writer m)) (_mostRecentPeriodicDocument c), s)
        end
    end in
  match s, _mgr c with
  | Ret _, Some m =>
      let '(m, s) := write_round o c m in
      (set_mgr m c, match s with Ret _ => Storing (r_sample (o_round o)) | _ => ending_of s end)
  | _, _ => (c, ending_of s)
  end.

(** The next section of the thread. *)
Definition thread_step (o : Observed) (x : FTDCController * pc) : FTDCController * pc :=
  let '(c, p) := x in
  match p with
  | Starting => (doLoop_enter c, Waiting)
  | Waiting => wait_section o c
  | Sampling => sample_section o c
  | Storing doc => (set_document doc c, Waiting)
  | Ended e => (c, Ended e)
  end.

(** The sections of the thread and the critical sections of [start] and [stop], in the order in
    which they take place. *)
Inductive event := EThread (o : Observed) | EStart | EStop.
Definition exec (e : event) (x : FTDCController * pc) : outcome Status (FTDCController * pc) :=
  match e with
  | EThread o => Ret (thread_step o x)
  | EStart => c ← start x.1; Ret (c, x.2)
  | EStop => c ← stop_request x.1; Ret (c, x.2)
  end.
Fixpoint run_events (es : list event) (x : FTDCController * pc) : outcome Status (FTDCController * pc) :=
  match es with [] => Ret x | e :: es => x ← exec e x; run_events es x end.

(** [stop] after the thread has ended; a failure to close is only logged. *)
Definition stop_finish (c : FTDCController) : FTDCController * outcome Status unit :=
  let c := set_cstate kDone c in
  match _mgr c with
  | None => (c, Ret tt)
  | Some m =>
      let '(m, s) := manager_close z m in
      (set_mgr m c, match s with Throw FilesystemError => Throw FilesystemError | Throw _ => Ret tt | s => s end)
  end.

(** ** Theorems *)

(** The next time is the next multiple of the period. *)
Lemma roundTime_ok (now period : Z) :
  0 <= now -> 0 < period -> now + period < 2 ^ 63 -> exists t, roundTime now period = Ret t /\ now < t <= now + period /\ t mod period = 0.
Proof.
  intros Hn Hp Ho. unfold roundTime. rewrite (wraps_small 64 (now + period)) by (change (2 ^ (64 - 1)) with (2 ^ 63); lia). destruct (Z.eqb_spec period 0); [lia|]. rewrite Z.rem_mod_nonneg by lia.
  pose proof (Z.mod_pos_bound (now + period) period ltac:(lia)). pose proof (Z.mod_le (now + period) period ltac:(lia) ltac:(lia)). rewrite wraps_small by (change (2 ^ (64 - 1)) with (2 ^ 63); lia). eexists. split; [done|]. split; [lia|].
  rewrite Zminus_mod, Z.mod_mod, Z.sub_diag by lia. apply Z.mod_0_l. lia.
Qed.

Lemma set_mgr_doc (m m' : FTDCFileManager) (doc doc' : list field) (c : FTDCController) :
  set_document doc' (set_mgr m' (set_document doc (set_mgr m c))) = set_document doc' (set_mgr m' c).
Proof. done. Qed.

(** A round that takes a sample. *)
Definition samples_in_round (c : FTDCController) (o : Observed) : Prop :=
  o_status o = timeout /\ o_pathExists o = true /\ 0 <= o_now o /\ o_now o + period (_config c) < 2 ^ 63.

(** The controller is collecting with settings that stay as they are. *)
Definition collecting (c : FTDCController) : Prop :=
  _cstate c = kStarted /\ _configTemp c = _config c /\ enabled (_config c) = true /\ 0 < period (_config c).

#[local] Abbreviation run_with f := (run outOfRange toLong z (maxSamplesPerArchiveMetricChunk f) (maxSamplesPerInterimMetricChunk f) (maxDirectorySizeBytes f) (maxFileSizeBytes f)).

(** Sections of the thread alone. *)
Definition threads (os : list Observed) (x : FTDCController * pc) : FTDCController * pc := fold_left (fun x o => thread_step o x) os x.
Lemma threads_app (os os' : list Observed) (x : FTDCController * pc) : threads (os ++ os') x = threads os' (threads os x).
Proof. apply fold_left_app. Qed.
Lemma run_threads (os : list Observed) (es : list event) : forall x, run_events ((EThread <$> os) ++ es) x = run_events es (threads os x).
Proof. induction os as [|o os IH]; intros x; [done|]. cbn [fmap list_fmap app run_events exec]. rewrite bind_Ret. apply IH. Qed.
(** A round is three sections. *)
Definition sections (os : list Observed) : list Observed := List.concat ((fun o => [o; o; o]) <$> os).

(** What the other threads change: the state and the configuration to take over. *)
Definition touch (s : CState) (t : FTDCConfig) (c : FTDCController) : FTDCController := set_cstate s (set_configs (_config c) t c).
(** The thread does not see them outside of the wait. *)
Lemma sample_touch (s : CState) (t : FTDCConfig) (o : Observed) (c : FTDCController) :
  sample_section o (touch s t c) = (touch s t (sample_section o c).1, (sample_section o c).2).
Proof.
  destruct c as [s0 f0 t0 [m|] d doc]; unfold sample_section, create_mgr, write_round; cbn [_mgr touch set_cstate set_configs _config _path].
  - by destruct (writeSampleAndRotateIfNeeded _ _ _ _ _ _ _ _ _ _ _ _ m).
  - destruct (create _ _ _ _ _ _ _ _ _ _ _ _ _ _) as [m [[]| | |]]; try done. cbn [_mgr set_mgr _config touch set_cstate set_configs].
    by destruct (writeSampleAndRotateIfNeeded _ _ _ _ _ _ _ _ _ _ _ _ m).
Qed.
(** Nobody has asked to stop or changed the configuration. *)
Definition undisturbed (f : FTDCConfig) (c : FTDCController) : Prop := _cstate c <> kStopRequested /\ _config c = f /\ _configTemp c = f.
Lemma sample_undisturbed (f : FTDCConfig) (o : Observed) (c : FTDCController) : undisturbed f c -> undisturbed f (sample_section o c).1.
Proof.
  destruct c as [s0 f0 t0 [m|] d doc]; unfold sample_section, create_mgr, write_round, undisturbed; cbn [_mgr _config _cstate _configTemp _path].
  - by destruct (writeSampleAndRotateIfNeeded _ _ _ _ _ _ _ _ _ _ _ _ m).
  - destruct (create _ _ _ _ _ _ _ _ _ _ _ _ _ _) as [m [[]| | |]]; try done. cbn [_mgr set_mgr _config _cstate _configTemp].
    by destruct (writeSampleAndRotateIfNeeded _ _ _ _ _ _ _ _ _ _ _ _ m).
Qed.
Lemma step_undisturbed (f : FTDCConfig) (s : CState) (o : Observed) (c : FTDCController) (p : pc) : undisturbed f c -> s <> kStopRequested ->
  undisturbed f (thread_step o (c, p)).1 /\
  thread_step o (touch s f c, p) = (touch s f (thread_step o (c, p)).1, (thread_step o (c, p)).2).
Proof.
  intros Hc Hs. destruct p; cbn [thread_step].
  - destruct c; destruct Hc as (Hs0 & Hf & Ht); cbn in *; subst. by split.
  - destruct c as [s0 f0 t0 m d doc]. destruct Hc as (Hs0 & Hf & Ht). cbn [_cstate _config _configTemp] in Hs0, Hf, Ht. subst f0 t0.
    unfold wait_section. cbn [touch set_cstate set_configs _config _cstate _configTemp].
    destruct (roundTime _ _); [|by split..]. destruct s0, s; try done; destruct (o_status o); by split.
  - split; [by apply sample_undisturbed|apply sample_touch].
  - by split.
  - by split.
Qed.
Lemma threads_undisturbed (f : FTDCConfig) (s : CState) (os : list Observed) : forall c p, undisturbed f c -> s <> kStopRequested ->
  undisturbed f (threads os (c, p)).1 /\ threads os (touch s f c, p) = (touch s f (threads os (c, p)).1, (threads os (c, p)).2).
Proof.
  induction os as [|o os IH]; intros c p Hc Hs; [by split|]. cbn [threads fold_left].
  destruct (step_undisturbed f s o c p Hc Hs) as [Hc' ->]. destruct (thread_step o (c, p)) as [c' p']. by apply IH.
Qed.

(** The wait of a round that takes a sample. *)
Lemma wait_samples (o : Observed) (c : FTDCController) : collecting c -> samples_in_round c o -> wait_section o c = (c, Sampling).
Proof.
  intros (Hs & Hc & He & Hp) (Ho & _ & Hn & Hb). unfold wait_section. destruct (roundTime_ok (o_now o) (period (_config c)) Hn Hp Hb) as (t & -> & _).
  rewrite Hs, Ho, Hc. assert (set_configs (_config c) (_config c) c = c) as -> by (destruct c; cbn in *; by subst). by rewrite He.
Qed.
Lemma wait_stops (o : Observed) (c : FTDCController) : _cstate c = kStopRequested -> period (_config c) <> 0 -> wait_section o c = (c, Ended Break).
Proof. intros Hs Hp. unfold wait_section, roundTime. destruct (Z.eqb_spec (period (_config c)) 0); [done|]. by rewrite Hs. Qed.

(** The sample of a round, with the manager or without one, writes one sample of the run. *)
Definition manager_for (o : Observed) (c : FTDCController) (m : FTDCFileManager) : Prop :=
  match _mgr c with Some m0 => m0 = m | None => create_mgr o c = (m, Ret tt) end.
Lemma sample_writes (o : Observed) (rs : list Round) (c : FTDCController) (m m' : FTDCFileManager) :
  o_pathExists o = true -> manager_for o c m -> run_with (_config c) (o_round o :: rs) m = (m', Ret tt) ->
  exists m1, sample_section o c = (set_mgr m1 c, Storing (r_sample (o_round o))) /\ run_with (_config c) rs m1 = (m', Ret tt).
Proof.
  intros Hpath Hm Hrun. unfold manager_for in Hm. cbn [run] in Hrun.
  assert (exists m1, write_round o c m = (m1, Ret tt) /\ run_with (_config c) rs m1 = (m', Ret tt)) as (m1 & Hw & Hrest).
  { unfold write_round. rewrite Hpath. destruct (writeSampleAndRotateIfNeeded _ _ _ _ _ _ _ _ _ _ _ _ m) as [m1 [[]| | |]]; try done. by exists m1. }
  exists m1. split; [|done]. unfold sample_section. destruct (_mgr c) as [m0|] eqn:Em.
  - subst m0. cbv beta iota zeta. by rewrite Em, Hw.
  - rewrite Hm. cbv beta iota zeta. cbn [_mgr set_mgr]. change (write_round o (set_mgr m c) m) with (write_round o c m). by rewrite Hw.
Qed.

(** Rounds that take a sample, up to the wait of the last one. *)
Definition manager_of (os : list Observed) (c : FTDCController) (m : FTDCFileManager) : Prop :=
  match head os with Some o => manager_for o c m | None => False end.
Lemma rounds_write (ol : Observed) (os : list Observed) : forall (c : FTDCController) (m m' : FTDCFileManager),
  collecting c -> Forall (samples_in_round c) (os ++ [ol]) -> manager_of (os ++ [ol]) c m ->
  run_with (_config c) (o_round <$> os ++ [ol]) m = (m', Ret tt) ->
  exists c1, threads (sections os ++ [ol]) (c, Waiting) = (c1, Sampling) /\ collecting c1 /\ _config c1 = _config c /\
    sample_section ol c1 = (set_mgr m' c1, Storing (r_sample (o_round ol))).
Proof.
  induction os as [|o os IH]; intros c m m' Hc Hos Hm Hrun.
  - cbn [app] in *. rewrite Forall_singleton in Hos. exists c. split; [|split; [done|split; [done|]]].
    + cbn. by apply wait_samples.
    + destruct (sample_writes ol [] c m m') as (m1 & -> & Hr); [apply Hos|done|done|]. by injection Hr as ->.
  - cbn [app fmap list_fmap] in *. apply Forall_cons in Hos as [Ho Hos].
    destruct (sample_writes o (o_round <$> os ++ [ol]) c m m') as (m1 & Hs & Hr); [apply Ho|done|done|].
    destruct (IH (set_document (r_sample (o_round o)) (set_mgr m1 c)) m1 m') as (c1 & Ht & Hc1 & Hf & Hs1).
    + done.
    + eapply Forall_impl; [exact Hos|done].
    + unfold manager_of. by destruct os.
    + done.
    + exists c1. split; [|done]. unfold sections in *. cbn [fmap list_fmap List.concat app].
      change (threads (o :: o :: o :: (List.concat ((fun o => [o; o; o]) <$> os) ++ [ol])) (c, Waiting))
        with (threads (List.concat ((fun o => [o; o; o]) <$> os) ++ [ol]) (thread_step o (thread_step o (thread_step o (c, Waiting))))).
      cbn [thread_step]. rewrite (wait_samples o c Hc Ho). cbn [thread_step]. rewrite Hs. exact Ht.
Qed.

(** The call to [start] may come to its end after any number of sections of the thread. *)
Lemma started_anywhere (f : FTDCConfig) (d : Disk) (e1 e2 : list Observed) (es : list event) :
  run_events ((EThread <$> e1) ++ EStart :: (EThread <$> e2) ++ es) (FTDCController_new d f, Starting) =
  run_events es (threads (e1 ++ e2) (set_cstate kStarted (FTDCController_new d f), Starting)).
Proof.
  assert (undisturbed f (FTDCController_new d f)) as H0 by done.
  rewrite run_threads. cbn [run_events exec].
  destruct (threads_undisturbed f kNotStarted e1 _ Starting H0 ltac:(done)) as [Hu Hn].
  destruct (threads_undisturbed f kStarted e1 _ Starting H0 ltac:(done)) as [_ Hs].
  change (touch kNotStarted f (FTDCController_new d f)) with (FTDCController_new d f) in Hn.
  change (touch kStarted f (FTDCController_new d f)) with (set_cstate kStarted (FTDCController_new d f)) in Hs.
  rewrite threads_app, Hs. destruct (threads e1 (FTDCController_new d f, Starting)) as [c p]. cbn [fst snd] in *. injection Hn as Hn.
  unfold start. rewrite Hn at 1. cbn [touch set_cstate _cstate]. rewrite !bind_Ret, run_threads.
  destruct Hu as (_ & Hf & Ht). assert (set_cstate kStarted c = touch kStarted f c) as -> by (destruct c; cbn in *; by subst). done.
Qed.

(** A request to stop that comes when the last round has passed its check. *)
Lemma stopped_anywhere (x y : list Observed) (ol o' : Observed) (c : FTDCController) (m : FTDCFileManager) :
  x ++ y = [ol; ol; o'] -> (length x <= 2)%nat -> collecting c -> sample_section ol c = (set_mgr m c, Storing (r_sample (o_round ol))) ->
  run_events (EStop :: (EThread <$> y)) (threads x (c, Sampling)) =
    Ret (touch kStopRequested (Controller.setEnabled false (_configTemp c)) (set_document (r_sample (o_round ol)) (set_mgr m c)), Ended Break).
Proof.
  intros E Hx (Hst & Hcc & He & Hp) Hsample. rewrite <- (app_nil_r (EThread <$> y)).
  assert (forall c', _cstate c' = kStarted -> stop_request c' = Ret (touch kStopRequested (Controller.setEnabled false (_configTemp c')) c')) as Hstop
    by (intros c' H; unfold stop_request; by rewrite H).
  assert (forall doc c', _config c' = _config c ->
    threads [o'] (set_document doc (touch kStopRequested (Controller.setEnabled false (_configTemp c)) c'), Waiting) =
      (set_document doc (touch kStopRequested (Controller.setEnabled false (_configTemp c)) c'), Ended Break)) as Hwait
    by (intros doc c' H; cbn; apply wait_stops; [done|cbn; rewrite H; lia]).
  destruct x as [|x1 [|x2 [|x3 x]]]; cbn [length] in Hx; [..|lia]; cbn [app] in E.
  - subst y. cbn [threads fold_left run_events exec fst snd]. rewrite (Hstop c Hst), !bind_Ret, run_threads. cbn [run_events].
    f_equal. change (threads [ol; ol; o'] ?a) with (threads [o'] (thread_step ol (thread_step ol a))). cbn [thread_step].
    rewrite sample_touch, Hsample. cbn [fst snd thread_step]. by apply Hwait.
  - injection E as -> ->. cbn [threads fold_left thread_step]. rewrite Hsample. cbn [run_events exec fst snd].
    rewrite Hstop by done. rewrite !bind_Ret, run_threads. cbn [run_events]. f_equal.
    change (threads [ol; o'] ?a) with (threads [o'] (thread_step ol a)). cbn [thread_step]. by apply (Hwait _ (set_mgr m c)).
  - injection E as -> -> ->. cbn [threads fold_left thread_step]. rewrite Hsample. cbn [thread_step run_events exec fst snd].
    rewrite Hstop by done. rewrite !bind_Ret, run_threads. cbn [run_events]. f_equal. by apply (Hwait (r_sample (o_round ol)) (set_mgr m c)).
Qed.

Lemma sections_snoc (os : list Observed) (o : Observed) : sections (os ++ [o]) = sections os ++ [o; o; o].
Proof. unfold sections. rewrite fmap_app, concat_app. done. Qed.
Lemma length_sections (os : list Observed) : length (sections os) = (3 * length os)%nat.
Proof. unfold sections. induction os as [|o os IH]; [done|]. cbn [fmap list_fmap List.concat length app]. rewrite IH. lia. Qed.

(** The thread and the calls to [start] and [stop], interleaved: the request to stop comes in
    the last round, anywhere behind its check. *)
Lemma interleaved (f : FTDCConfig) (d : Disk) (o o' : Observed) (os e1 e2 e3 : list Observed) (m m' : FTDCFileManager) :
  enabled f = true -> 0 < period f -> Forall (samples_in_round (FTDCController_new d f)) (o :: os) ->
  create_mgr o (FTDCController_new d f) = (m, Ret tt) -> run_with f (o_round <$> o :: os) m = (m', Ret tt) ->
  e1 ++ e2 ++ e3 = o :: sections (o :: os) ++ [o'] -> (3 * length os + 1 < length (e1 ++ e2) <= 3 * length (o :: os) + 1)%nat ->
  exists c, run_events ((EThread <$> e1) ++ EStart :: (EThread <$> e2) ++ EStop :: (EThread <$> e3)) (FTDCController_new d f, Starting) = Ret (c, Ended Break) /\
    _cstate c = kStopRequested /\ _mgr c = Some m' /\ Some (_mostRecentPeriodicDocument c) = last ((fun o => r_sample (o_round o)) <$> o :: os).
Proof.
  intros He Hp Hos Hcreate Hrun E Hk. destruct (exists_last (l := o :: os)) as (os' & ol & Eos); [done|].
  assert (length os' = length os) as Hlen by (apply (f_equal length) in Eos; rewrite length_app in Eos; cbn in Eos; lia).
  rewrite Eos in Hos, Hrun.
  destruct (rounds_write ol os' (set_cstate kStarted (FTDCController_new d f)) m m') as (c1 & Ht & Hc1 & Hf & Hs); [done|done| |done|].
  { unfold manager_of. rewrite <- Eos. exact Hcreate. }
  rewrite Eos, sections_snoc, app_comm_cons, <- (app_assoc (o :: sections os') [ol; ol; ol]) in E.
  change ([ol; ol; ol] ++ [o']) with ([ol] ++ [ol; ol; o']) in E. rewrite (app_assoc (o :: sections os')), (app_assoc e1 e2 e3) in E.
  assert (exists x, e1 ++ e2 = ((o :: sections os') ++ [ol]) ++ x /\ x ++ e3 = [ol; ol; o']) as (x & E12 & Exy).
  { apply app_eq_inv in E as [(x & E12 & Exy)|(x & E12 & Exy)]; [by exists x|].
    assert (length x = 0%nat) as ->%nil_length_inv by (apply (f_equal length) in E12; rewrite !length_app in *; cbn [length] in *; rewrite length_sections in E12; lia).
    exists []. by rewrite E12, !app_nil_r. }
  rewrite started_anywhere.
  rewrite E12, threads_app. change (threads ((o :: sections os') ++ [ol]) ?a) with (threads (sections os' ++ [ol]) (thread_step o a)).
  cbn [thread_step]. change (doLoop_enter (set_cstate kStarted (FTDCController_new d f))) with (set_cstate kStarted (FTDCController_new d f)). rewrite Ht.
  rewrite (stopped_anywhere x e3 ol o' c1 m'); [|done| |done|done].
  - eexists. split; [done|]. split; [done|]. split; [done|]. rewrite Eos, fmap_app, fmap_cons, fmap_nil, last_snoc. done.
  - rewrite E12, !length_app in Hk. cbn [length] in Hk. rewrite length_sections in Hk. lia.
Qed.

(** C29. Collected data is archived. A controller is started with valid settings in a directory
    of archive files that was closed cleanly, takes a sample in every round and is stopped. The
    sections of the thread and the critical sections of [start] and [stop] may interleave in any
    way: [start] may end late, and the request to stop may come anywhere between the check of the
    last round and that of the next one. The sample of the round in progress is still taken and
    written, and then the loop is left: no other sample follows the request. [stop] ends without
    an error, the most recent document is the last sample, and the directory is read back as the
    last files of a history that holds one document with the metrics of every sample. *)
Theorem controller_archives_samples (D I : nat) (f : FTDCConfig) (o o' : Observed) (os e1 e2 e3 : list Observed) (d : Disk) (h : history) :
  (0 < D)%nat /\ Z.of_nat D < 2 ^ 32 - 1 -> maxSamplesPerArchiveMetricChunk f = Z.of_nat D + 1 -> (0 < I)%nat /\ maxSamplesPerInterimMetricChunk f = Z.of_nat I -> zlib_ok z ->
  enabled f = true -> 0 < period f -> Forall (samples_in_round (FTDCController_new d f)) (o :: os) -> (0 < fuel)%nat ->
  o_dirExists o || o_dirCreated o = true -> dir_state outOfRange toLong z server d h -> files d !! kFTDCInterimFile = None ->
  before_time (o_createSuffix o) h -> times_ok (o_createSuffix o) 0 (r_suffix <$> (o_round <$> o :: os)) ->
  Forall (entry_ok outOfRange toLong z server) (meta (o_createSample o)) -> Forall (round_ok outOfRange toLong z server D) (o_round <$> o :: os) ->
  e1 ++ e2 ++ e3 = o :: sections (o :: os) ++ [o'] -> (3 * length os + 1 < length (e1 ++ e2) <= 3 * length (o :: os) + 1)%nat ->
  exists c c' m all left new docs,
    run_events ((EThread <$> e1) ++ EStart :: (EThread <$> e2) ++ EStop :: (EThread <$> e3)) (FTDCController_new d f, Starting) = Ret (c, Ended Break) /\
    stop_finish c = (c', Ret tt) /\ _cstate c' = kDone /\ _mgr c' = Some m /\
    last ((fun o => r_sample (o_round o)) <$> o :: os) = Some (getMostRecentPeriodicDocument c') /\
    _interim (_writer m) = None /\ items_of all = items_of h ++ new /\ metrics_of new = metric_item <$> docs /\
    Forall2 (fun o d => same_metrics outOfRange toLong (r_sample (o_round o)) d.1) (o :: os) docs /\
    left `sublist_of` all /\ (total all < 2 ^ 64 -> exists k, left = drop k all) /\
    forall k, (length (items_of all) < k)%nat -> read_directory outOfRange toLong z server decimalInteger k (_disk (_writer m)) = items_of left.
Proof.
  intros HD Hconfig HI Hz He Hp Hos Hfuel Hdir Hd Hi Hb Ht Hmeta Hrounds E Hk.
  destruct (directory_holds_history outOfRange toLong z (maxSamplesPerArchiveMetricChunk f) (maxSamplesPerInterimMetricChunk f) server decimalInteger (maxDirectorySizeBytes f) (maxFileSizeBytes f)
    D I HD Hconfig HI Hz (o_dirExists o) (o_dirCreated o) fuel (o_createSuffix o) (o_createSample o) (o_round <$> o :: os) d h Hdir Hd Hi Hb Ht Hmeta Hrounds Hfuel)
    as (m & m' & all & left & new & docs & Hrun & Hclose & Hint & Hall & Hnew & Hdocs & Hsub & Hleft & Hread).
  destruct (create_mgr o (FTDCController_new d f)) as [m0 s0] eqn:Hcreate. pose proof Hcreate as Hcreate'.
  unfold create_mgr in Hcreate'. cbn [_config _path FTDCController_new] in Hcreate'. rewrite Hcreate' in Hrun.
  destruct s0 as [[]| | |]; cbn [and_then] in Hrun; try done.
  destruct (interleaved f d o o' os e1 e2 e3 m0 m He Hp Hos Hcreate Hrun E Hk) as (c & Hev & _ & Hm & Hdoc).
  eexists c, _, m', all, left, new, docs. split; [exact Hev|].
  split; [unfold stop_finish; cbn [_mgr set_cstate]; rewrite Hm, Hclose; reflexivity|].
  split; [done|]. split; [done|]. split; [by rewrite <- Hdoc|]. split_and!; try done. by apply Forall2_fmap_l in Hdocs.
Qed.

(** A large directory size empties the directory. A size of the directory between 10 and 2047
    megabytes that is not below the size of a file is accepted and is the limit in bytes; 4096
    megabytes are accepted too, but the limit becomes zero, and trimming the directory then removes
    every archive file. *)
Theorem large_directory_size (p : Parameters) (f : FTDCConfig) :
  localMaxFileSizeMB p <= 2048 ->
  (forall n, 10 <= n < 2048 -> localMaxFileSizeMB p <= n ->
    exists p' f', set_parameter (DirectorySizeMB n) (p, f) = Ret (p', f') /\ localMaxDirectorySizeMB p' = n /\ maxDirectorySizeBytes f' = n * 2 ^ 20) /\
  exists p' f', set_parameter (DirectorySizeMB 4096) (p, f) = Ret (p', f') /\ localMaxDirectorySizeMB p' = 4096 /\
    forall d h, dir_state outOfRange toLong z server d h -> total h < 2 ^ 64 ->
      exists d', trimDirectory (maxDirectorySizeBytes f') (scanDirectory d) d = (d', Ret tt) /\ scanDirectory d' = [].
Proof.
  destruct p as [e per dir file arc int]. cbn [localMaxFileSizeMB]. intros Hp. split.
  - intros n Hn Hf. cbn [set_parameter]. destruct (Z.ltb_spec n 10); [lia|]. destruct (Z.ltb_spec n file); [lia|]. do 2 eexists. split; [done|]. split; [done|].
    cbn [setMaxDirectorySizeBytes maxDirectorySizeBytes]. unfold megabytes. change (2 ^ 20) with (1024 * 1024). rewrite (wraps_small 32 (n * 1024)), wraps_small, wrapu_small; lia.
  - cbn [set_parameter]. destruct (Z.ltb_spec 4096 10); [lia|]. destruct (Z.ltb_spec 4096 file); [lia|]. do 2 eexists. split; [done|]. split; [done|].
    intros d h Hd Ht. by eapply trim_everything.
Qed.

End controller.

(** ** A concrete instance *)

Definition demo_config : FTDCConfig := mkConfig true 1000 300 1000 4 2.
Definition demo_observed (r : Round) : Observed := mkObserved (r_date r) timeout true true (lit "t3") (demo_sample 0, 3) true r.

(** The request to stop comes between the check and the sample of the last round. *)
Lemma controller_archives_samples_witness :
  let all := demo_observed <$> demo_rounds in
  let o := demo_observed (mkRound (demo_sample 1) 1000 (lit "t4") (demo_sample 0, 1)) in
  exists c, run_events (fun _ => 0) (fun _ => 0) stored demo_server (fun _ => None) 1
      ((EThread <$> []) ++ EStart :: (EThread <$> take 17 (o :: sections all ++ [o])) ++ EStop :: (EThread <$> drop 17 (o :: sections all ++ [o])))
      (FTDCController_new demo_disk demo_config, Starting) = Ret (c, Ended Break).
Proof.
  intros all o.
  destruct (controller_archives_samples (fun _ => 0) (fun _ => 0) stored demo_server (fun _ => None) 1 3 2 demo_config o o (demo_observed <$> tail demo_rounds)
    [] (take 17 (o :: sections all ++ [o])) (drop 17 (o :: sections all ++ [o])) demo_disk demo_history
    ltac:(split; [lia|reflexivity]) eq_refl ltac:(split; [lia|reflexivity]) stored_ok eq_refl eq_refl) as (c & _ & _ & _ & _ & _ & _ & H & _).
  - repeat (apply Forall_cons; split; [repeat split; vm_compute; try reflexivity; discriminate|]). apply Forall_nil. exact I.
  - lia.
  - reflexivity.
  - exact demo_dir.
  - vm_compute. reflexivity.
  - exact demo_before.
  - exact (demo_times 0 ltac:(lia)).
  - apply Forall_singleton, (demo_metadata_ok 3). unfold date_ok. lia.
  - exact demo_rounds_ok.
  - reflexivity.
  - cbn. lia.
  - exists c. exact H.
Defined.

Lemma large_directory_size_witness :
  exists p' f', set_parameter (DirectorySizeMB 4096) (mkParameters true 1000 200 10 300 10, FTDCConfig_default) = Ret (p', f') /\
    exists d', trimDirectory (maxDirectorySizeBytes f') (scanDirectory demo_disk) demo_disk = (d', Ret tt) /\ scanDirectory d' = [].
Proof.
  destruct (large_directory_size (fun _ => 0) (fun _ => 0) stored demo_server (mkParameters true 1000 200 10 300 10) FTDCConfig_default) as (_ & p' & f' & Hp & _ & Hd); [cbn; lia|].
  exists p', f'. split; [exact Hp|]. apply (Hd demo_disk demo_history); [exact demo_dir|vm_compute; reflexivity].
Defined.

End Controller.
